(* ===== verification/_CoqProject ===== *)
-Q . S2P
Prelude.v
GoStrings.v
GoNet.v
GoNetText.v
Ip.v
IpRange.v
IpRangeList.v
IpRangeListFacts.v
UtilNet.v
CidrFacts.v
Hosts.v
Subnet.v
SubnetInv.v
SubnetAlloc.v
SubnetPools.v
SubnetNew.v
Ipam.v
IpamInv.v
IpPool.v
IpPoolFacts.v
Validator.v
ValidatorFacts.v
GoText.v
BfdControl.v
BfdSupervisor.v
BfdFacts.v
BfdReconcile.v
FileUtil.v
BfdPolls.v
BfdMain.v
ServiceCIDR.v
ServiceCIDRFacts.v
PodAddress.v
PodAddressFacts.v
PodNetwork.v
AclMatch.v
NbDb.v
NbDhcp.v
NbLsp.v
NbGroups.v
NbAcl.v
NbAclFacts.v
NbDhcpFacts.v
NbLspFacts.v
NbWorld.v
NbRouter.v
NbRouterFacts.v
VpcRoutes.v
VpcFacts.v
PolicyAcl.v
AclMeaning.v
PolicyFacts.v
PolicyVerdict.v
SecurityGroup.v
SgTable.v
SgVerdict.v
SgController.v
SgControllerFacts.v
LsAcl.v
LsAclFacts.v
PodNets.v
NamedPort.v
NetworkPolicy.v
NetworkPolicyFacts.v
NpDirection.v
NpHandler.v
NpSpec.v
NpEvents.v
Demo.v
RangeTheorems.v
UtilTheorems.v
SubnetTheorems.v
IpamTheorems.v
BfdTheorems.v
PodTheorems.v
NbTheorems.v
SgTheorems.v
SwitchTheorems.v
NpTheorems.v
Findings.v
