(* ===== verification/Prelude.v ===== *)
(** * Kube-OVN: a verification library for its core logic

    Kube-OVN is a network for Kubernetes on OVN.  A central controller
    (src/pkg/controller) watches API objects, allocates addresses from an
    in-memory allocator (src/pkg/ipam), checks specifications (src/pkg/util) and
    writes logical switches, port groups and access control lists into the OVN
    northbound database (src/pkg/ovs).  A node agent (src/pkg/daemon) and a CNI
    plugin configure interfaces; a supervisor (src/pkg/bfddsupervisor) keeps the
    BFD sessions of VPC egress gateways alive.  This library models the parts
    that decide something by themselves, as executable functions translated
    from the source, and proves what makes them correct.

    ** Go in Rocq

    - A Go call ends in an [outcome]: [Done], a run-time [Panic] (nil
      dereference, index out of range), or [Starved] when the supplied random
      draws are used up.  [(T, error)] is a [result]; [error] alone an [option].
    - Integers are [Z]; where a width matters the wrap-around is written out
      ([int64], the modular arithmetic of [Ip.v]).
    - Byte slices are lists of byte values, strings are [string]s of bytes, Go
      maps are [gmap]s, structs are records with the field names of
      the source, mutable state is passed explicitly, and critical sections are
      atomic steps of a transition system.
    - Where the result of a loop over a map could depend on the order, the order
      is an argument ([GoOrder], a walk that is a permutation) and the theorems
      quantify over it.  The loops over the maps of routes and policies of a VPC,
      over the groups of a batch and over DHCP options that are stored as a map
      use one fixed order; [dhcp_options_roundtrip] is about every walk of the
      printed options.
    - Loops that are not structural carry fuel; each has a theorem that enough
      fuel gives the result (see "Fuel and bounds").
    - [GoStrings], [GoText], [GoNet] model what the code uses of the standard
      library; [GoNet] and [GoNetText] prove its laws (texts of addresses and
      numbers are read back).

    ** The parts

    Addresses and ranges.  [Ip] is src/pkg/ipam/ip.go, [IpRange] ip_range.go,
    [IpRangeList] ip_range_list.go (sorted lists of disjoint ranges);
    [IpRangeListFacts] refines them to finite sets of addresses.  [IpPool] is
    src/pkg/util/ippool.go and [ToCIDRs]; [IpPoolFacts] proves the split into
    blocks exact and minimal.  [UtilNet] is src/pkg/util/net.go, slice.go, ip.go
    and address_family.go; [CidrFacts] and [Hosts] give networks their
    meaning as intervals.  Theorems: [RangeTheorems], [UtilTheorems].

    The allocator.  [Subnet] is src/pkg/ipam/subnet.go and ippool.go, with one
    definition for the two copies of each operation per family; [SubnetInv] is
    the invariant (available, used, reserved and pooled addresses partition the
    hosts; the tables of owners agree), kept by [SubnetAlloc] (which also
    has the draws of MACs), [SubnetPools], [SubnetNew].  [Ipam] is ipam.go,
    [IpamInv] keeps the invariant of the table and has the transition system of
    its requests.  Theorems: [SubnetTheorems] (contracts of the operations on every
    branch), [IpamTheorems] (what holds in every reachable state).

    Admission.  [Validator] and [PodNetwork] are src/pkg/util/validator.go;
    [ValidatorFacts] (which begins with the parsing of networks) and the second part
    of [IpamTheorems] compose admission with
    the allocator: an accepted subnet is one the allocator can serve.

    Addresses of pods.  [PodAddress] is [acquireAddress] of
    src/pkg/controller/pod.go with all it calls (static addresses, pools,
    reserved VIPs, namespaces), over the caches of the controller as a record
    [Cluster]; [PodAddressFacts] proves that its loops end and that it is a
    client of the transition system.  Theorems: [PodTheorems].

    The northbound database.  [NbDb] has the rows the code uses, the operations
    of a transaction and [Transact] of src/pkg/ovs/ovn.go; the clients of it are
    one file per source file of src/pkg/ovs: [NbAcl] (the ACL table of
    ovn-nb-acl.go, and the meters of ovn-nb-meter.go; [NbAclFacts] has its invariant
    and what each call changes), [NbDhcp] with [NbDhcpFacts] (ovn-nb-dhcp_options.go
    and util.go), [NbLsp] with [NbLspFacts] (ovn-nb-logical_switch_port.go) and
    [NbGroups] (ovn-nb-port_group.go, ovn-nb-address_set.go).  [NbWorld] is the
    well-formed database handlers run in and the frames of the calls on groups and
    sets.  Theorems: [NbTheorems].

    Access control lists of policies.  [AclMatch] is the match trees of
    src/pkg/ovs/util.go with a parser of the documented OVN grammar; [PolicyAcl]
    is the ACLs of network, admin and cluster network policies of
    src/pkg/ovs/ovn-nb-acl.go; [AclMeaning] reads atoms on packets, [PolicyFacts]
    gives the matches of each kind of rule their meaning and [PolicyVerdict]
    composes the default drop, the exceptions and the rules.  Theorems: the second
    part of [NbTheorems].

    The network policy controller.  [PodNets] is [getPodKubeovnNets] of
    src/pkg/controller/pod.go and all it calls: the networks a pod is attached to.
    [NamedPort] is the table of named ports of the same file with the step relation
    of the events of pods.  [NetworkPolicy] is
    src/pkg/controller/network_policy.go: the selection of ports and addresses,
    both handlers, the matching of pods and namespaces, and what the events of
    policies, pods and namespaces put into the queue.  [NetworkPolicyFacts] has the
    names of groups and sets (accepted, distinct) and what each call adds,
    [NpDirection] the rules of one direction, [NpHandler] the whole handler, in
    terms of what the loops compute; [NpSpec] is what a policy means, said of the
    objects in the caches, and that the loops compute it; [NpEvents] has the
    removal and the events that concern no policy.  Theorems: [NpTheorems].

    Security groups.  [SecurityGroup] is the ACLs of the rules of a group
    ([UpdateSgACL], [CreateSgBaseACL], [CreateSgDenyAllACL], the search for lost
    ACLs); [SgTable] says what these calls leave in the table, [SgVerdict] what the rows decide about packets.  [SgController] is
    src/pkg/controller/security_group.go, handlers over the database, the objects
    of the API server and the queues; [SgControllerFacts] follows a group through
    its handler and the handler of its ports, and the groups of a port.  Theorems:
    [SgTheorems].

    ACLs of switches.  [LsAcl] is the ACLs of gateways, nodes, subnets and private
    subnets of src/pkg/ovs/ovn-nb-acl.go, their reconciliation in
    src/pkg/controller/subnet.go and the repairs of the table at the start;
    [LsAclFacts] says what the first leave on a switch and what the repairs do.
    Theorems: [SwitchTheorems].

    Logical routers and VPCs.  [NbRouter] is ovn-nb-logical_router_route.go,
    ovn-nb-logical_router_policy.go and the calls of ovn-nb-logical_router.go they
    make: routers, and the tables of static routes and of policies, whose rows a
    router refers to and which go away when no router does; [NbRouterFacts] has
    their invariant and what each call changes.  [VpcRoutes] is the part of
    src/pkg/controller/vpc.go that compares the routes and policies of a VPC with
    those of its router and adds and deletes; [VpcFacts] proves the keys of the
    comparison injective and follows the reconciliation.  Theorems: the second part
    of [SwitchTheorems].

    BFD supervision.  [BfdControl], [BfdSupervisor] and [BfdMain] are control.go,
    recovery.go and managed_child.go of src/pkg/bfddsupervisor and the
    configuration of src/cmd/bfdd_supervisor.  [BfdFacts] has the invariant,
    [BfdReconcile] a weakest-precondition calculus for the methods, [BfdPolls]
    the abstract polling machine that [Reconcile] refines.  [FileUtil] is
    src/pkg/fileutil/file.go as the sequence of file systems it passes through,
    and the end of [BfdPolls] discharges the interface of the state file with it.  Theorems:
    [BfdTheorems].

    Service CIDRs.  [ServiceCIDR] is src/pkg/util/servicecidr_store.go, one
    definition per critical section; [ServiceCIDRFacts] interleaves callers,
    timers and handlers, with a record of the events of the API that no call reads
    ([objects]) to compare the store with.  Theorems: the end of [BfdTheorems].

    [Demo] has the concrete inputs of the witnesses; [Findings] has runs of the
    models, outside the preconditions of the theorems, where the code does not
    do what it means to.

    ** What the theorems show

    - Safety of the allocator: in every reachable state the lists partition the
      addresses, no address has two owners when requests check for conflicts,
      and no request panics.
    - Contracts of the operations: a random request returns a fresh address
      exactly when one is left, dual-stack requests are all or nothing, static
      requests, releases, pools and updates do what they promise.
    - Refinement: range lists are finite sets; the pod controller is a client of
      the allocator; [Reconcile] implements the polling machine; what the handlers
      of a network policy, of a security group and of a private subnet leave in
      the database decides about packets as the object says.
    - Reconciliation: from any well-formed state of the rows they own the handlers
      of a network policy, of a security group (for the directions it updates) and
      of the ACLs of a subnet end with the wanted
      rows and with nothing else changed; the router of a VPC ends with exactly the
      wanted static routes and policies among those the controller owns, policies
      given in a batch are as if given one by one, and setting the next hops of a
      prefix again changes nothing; removing a policy takes back what it put
      there; a policy that the event of a pod does not queue, and whose named ports
      keep their numbers, is not affected by it; named ports have the number the live pods declare; a port is on one switch, the one it names, after every
      creation, move and deletion; a switch or port has one row of DHCP options
      with the given options completed by the defaults; the repairs at the start
      touch exactly the rows they are meant for.
    - Round trips and equivalences: addresses, CIDRs, ACL matches, DHCP
      options; overlap and admission checks against their meaning; ranges against block lists.
    - Liveness and crash safety: drawing loops end, a request waits for random
      MACs only when the source has fewer fresh ones than it may need, a due BFD session gets an
      action and restarts are spaced, a reader of the state file sees the old or
      the new content at every point where the process may die, no change of the Service CIDRs goes
      unnoticed.

    ** Preconditions

    Networks are [clean] (prefixes that neither mix families nor lie in the
    IPv4-mapped block), texts of ranges are [canon]; [Findings] shows what
    happens outside.  A pod is asked for with a [clean_ask] (well-formed
    annotations, not migrating).  The trees of ACL matches are [grouped], names
    are [name_ok], ports are in range and their protocols TCP, UDP or SCTP, a peer
    of a policy has a block or selectors, as the API server enforces.  A policy is
    [np_ready] when the caches have what it refers to; its groups and sets are
    found as it left them or not at all ([np_world]), and are left so.  Theorems over the database are for a server that
    takes transactions ([accepting]) and a table in which rows have one parent
    ([nb_ok], [world]); names of switches are unique, as the database keeps
    them unique for this program; rows of a router have one
    router ([r_ok]).
    A direction of a security group that the hashes in its status do not ask to
    update has its ACLs in place ([settled]); its handler keeps this.  Static routes
    of a VPC to one prefix have BFD sessions of their own ([ecmp_targets], [ecmp_rows]), its policies say the same about a priority and match
    ([consistent]) and are [apart] from those of other controllers.  What the calls do when the server rejects a
    transaction or its answer is lost is in the definitions.

    ** Interfaces

    Code outside the repository is a parameter or a class with its documented
    laws: [GoOrder] (map iteration), [Clock], [ChildController], [StateFile],
    [Codec] and [ControlAdapter] (the surroundings of the supervisor), [Exec]
    (running a command), [Ovn] (members of port groups and address sets), SHA-256
    in the Service CIDR store, MD5 of the rules of a security group, and the
    records [Cluster], [NetCluster] and [NpCluster] of informer caches; [Multus]
    (parsing network annotations and plugin configurations) and
    [LabelSelectorAsSelector] (compiling a label selector); the two orders in which
    the set of families of a policy is walked; [PolicyIndex] (the index of the
    database client on priority and match of policies).  The server of the northbound database is
    a list of replies (taken, rejected, taken with the answer lost), the cache of
    its client follows the transactions, and the lister of the security groups
    follows the patches of their status, which may be refused.  Each theorem over
    them has a witness with a concrete instance.

    ** Fuel and bounds

    [random_mac] uses one draw per round and is [Starved] without draws; the
    splitting of a range takes at most [2 * bits + 2] rounds and the parsing of an
    IPv6 address 8 groups; [acquire_random] ends within one more round than the
    subnet has hosts and reserved addresses, since each round skips a new one;
    the wait for the BFD child polls at most its time limit over its interval;
    [Itoa] prints at most as many decimal digits as the number has binary ones;
    [parse] recurses at most once per token.

    ** Not modelled

    The disk: [AtomicWriteFile] is about a process that dies between two calls, not
    a machine that does, so the [fsync] of the temporary file and of the directory
    change no content and durability is not claimed.  Mutexes of single structures (every exported operation holds its lock from
    start to end), logging, metrics and events; sockets, netlink, iptables and
    child processes; generated code; the texts of errors of net/netip inside
    other errors; the connection of the OVSDB client; the informer callbacks of
    the security group controller, and of those of pods and namespaces the parts
    that are not about network policies; of the handler of a VPC what is not about
    routes and policies (load balancers, BFD ports, external subnets, status) and
    the SNAT routes of the cluster router; NAT, ports and load balancers of routers.

    ** Plan

    Next: the controllers of admin and cluster network policies; NAT and ports of
    logical routers, and load balancers; the controller of subnets; the filter of
    the egress observer; the routes of the BGP speaker. *)
From stdpp Require Export base numbers list list_numbers option strings gmap sets.
From Stdlib Require Export ZArith Lia.

From Stdlib Require Ascii.

#[global] Set Default Goal Selector "!".

Abbreviation ascii := Ascii.ascii.

Declare Scope kubeovn_scope.
Delimit Scope kubeovn_scope with ovn.

(** ** Errors and results

    A Go function that returns [(T, error)] returns a [result T] here.  The
    sentinel errors of [pkg/ipam/ipam.go] are constructors of their own; an
    error built with [fmt.Errorf] keeps its format string and arguments. *)
Inductive err : Type :=
  | ErrOutOfRange
  | ErrConflict
  | ErrNoAvailable
  | ErrNoSubnet
  | ErrInvalidCIDR
  | ErrInvalidIPFamily
  | Errorf (fmt : string) (args : list string).

#[global] Instance err_eq_dec : EqDecision err.
Proof. solve_decision. Defined.

Inductive result (A : Type) : Type :=
  | Ok (a : A)
  | Err (e : err).
Arguments Ok {A} _.
Arguments Err {A} _.

#[global] Instance result_eq_dec {A} `{EqDecision A} : EqDecision (result A).
Proof. solve_decision. Defined.

#[global] Instance result_bind : MBind result :=
  fun A B f r => match r with Ok a => f a | Err e => Err e end.
#[global] Instance result_ret : MRet result := fun A a => Ok a.

(** ** Outcomes

    A call either finishes, panics (a nil dereference or an index out of
    range of the Go run time), or is still waiting for randomness when the
    supplied draws are used up. *)
Inductive outcome (A : Type) : Type :=
  | Done (a : A)
  | Panic
  | Starved.
Arguments Done {A} _.
Arguments Panic {A}.
Arguments Starved {A}.

#[global] Instance outcome_bind : MBind outcome :=
  fun A B f o => match o with Done a => f a | Panic => Panic | Starved => Starved end.
#[global] Instance outcome_ret : MRet outcome := fun A a => Done a.

Definition of_option {A} (o : option A) : outcome A :=
  match o with Some a => Done a | None => Panic end.

(** [holds o Q]: the call does not panic, and when it finishes its result
    satisfies [Q]. *)
Definition holds {A} (o : outcome A) (Q : A -> Prop) : Prop :=
  match o with Done a => Q a | Panic => False | Starved => True end.

Lemma holds_bind {A B} (o : outcome A) (f : A -> outcome B) (Q : B -> Prop) :
  holds o (fun a => holds (f a) Q) -> holds (o ≫= f) Q.
Proof. by destruct o. Qed.

Lemma holds_mono {A} (o : outcome A) (P Q : A -> Prop) :
  holds o P -> (forall a, P a -> Q a) -> holds o Q.
Proof. destruct o; simpl; auto. Qed.

Lemma holds_done {A} (a : A) (Q : A -> Prop) : holds (Done a) Q <-> Q a.
Proof. done. Qed.

(** ** Tactics *)

(** Split every conjunction of the context and substitute equations. *)
Ltac inv_all :=
  repeat match goal with
  | H : _ /\ _ |- _ => destruct H
  | H : exists _, _ |- _ => destruct H
  | H : Ok _ = Ok _ |- _ => injection H as H
  | H : Done _ = Done _ |- _ => injection H as H
  | H : Ok _ = Err _ |- _ => discriminate H
  | H : Err _ = Ok _ |- _ => discriminate H
  end; subst.

(** Turn boolean comparisons on [Z] into propositions. *)
Ltac zbool :=
  repeat match goal with
  | H : context [Z.ltb ?a ?b] |- _ => destruct (Z.ltb_spec a b)
  | H : context [Z.leb ?a ?b] |- _ => destruct (Z.leb_spec a b)
  | H : context [Z.eqb ?a ?b] |- _ => destruct (Z.eqb_spec a b)
  | |- context [Z.ltb ?a ?b] => destruct (Z.ltb_spec a b)
  | |- context [Z.leb ?a ?b] => destruct (Z.leb_spec a b)
  | |- context [Z.eqb ?a ?b] => destruct (Z.eqb_spec a b)
  end; simpl in *; try discriminate.

(** [lia] on goals with division and remainder by constants. *)
Ltac zdm := Z.div_mod_to_equations; lia.

(** ** Lists *)

Lemma Forall_take_drop {A} (P : A -> Prop) n (l : list A) :
  Forall P l <-> Forall P (take n l) /\ Forall P (drop n l).
Proof. rewrite <-Forall_app, take_drop. done. Qed.

Lemma lookup_split {A} (l : list A) (n : nat) (x : A) :
  l !! n = Some x -> l = take n l ++ x :: drop (S n) l.
Proof. intros H. by rewrite take_drop_middle. Qed.

Lemma take_S_lookup {A} (l : list A) (n : nat) (x : A) :
  l !! n = Some x -> take (S n) l = take n l ++ [x].
Proof. apply take_S_r. Qed.

Lemma filter_none {A} (P : A -> Prop) `{!forall x, Decision (P x)} (l : list A) : Forall (fun x => ~ P x) l -> filter P l = [].
Proof. induction 1 as [|x l Hx _ IH]; [done|]. by rewrite filter_cons_False. Qed.

Lemma filter_all {A} (P : A -> Prop) `{!forall x, Decision (P x)} (l : list A) : Forall P l -> filter P l = l.
Proof. induction 1 as [|x l Hx _ IH]; [done|]. by rewrite filter_cons_True, IH. Qed.
