(* ===== verification/GoStrings.v ===== *)
(** * Go strings: the parts of [strings], [strconv] and [encoding] the code uses

    A Go string is a byte sequence; it is a [string] of [ascii] here.  Each
    function below is named after the standard-library function it stands
    for.  [Split] is proved inverse to [Join] on pieces that do not contain
    the separator, and the decimal and hexadecimal printers are proved
    inverse to the scanners used by the address parsers. *)
From S2P Require Import Prelude.

Local Open Scope Z_scope.

(** ** Characters *)

(** The code of a byte. *)
Definition code (c : ascii) : Z := Z.of_N (Ascii.N_of_ascii c).

Definition is_digit (c : ascii) : bool := (48 <=? code c) && (code c <=? 57).

Definition chr (z : Z) : ascii := Ascii.ascii_of_N (Z.to_N z).

Lemma code_chr z : 0 <= z < 256 -> code (chr z) = z.
Proof.
  intros H. unfold code, chr. rewrite Ascii.N_ascii_embedding; lia.
Qed.

(** The value of a hexadecimal digit of either case. *)
Definition hex_value (c : ascii) : option Z :=
  let z := code c in
  if (48 <=? z) && (z <=? 57) then Some (z - 48)
  else if (97 <=? z) && (z <=? 102) then Some (z - 97 + 10)
  else if (65 <=? z) && (z <=? 70) then Some (z - 65 + 10)
  else None.

Definition hex_digit (d : Z) : ascii := chr (if d <? 10 then 48 + d else 87 + d).

Lemma hex_value_digit d : 0 <= d < 16 -> hex_value (hex_digit d) = Some d.
Proof.
  intros H. unfold hex_value, hex_digit.
  rewrite code_chr by (destruct (d <? 10) eqn:?; lia).
  destruct (Z.ltb_spec d 10).
  - replace ((48 <=? 48 + d) && (48 + d <=? 57)) with true by lia. f_equal; lia.
  - replace ((48 <=? 87 + d) && (87 + d <=? 57)) with false by lia.
    replace ((97 <=? 87 + d) && (87 + d <=? 102)) with true by lia. f_equal; lia.
Qed.

(** ** Searching and splitting *)

(** [strings.HasPrefix]. *)
Fixpoint has_prefix (p s : string) : bool :=
  match p, s with
  | EmptyString, _ => true
  | String a p', String b s' => bool_decide (a = b) && has_prefix p' s'
  | String _ _, EmptyString => false
  end.

(** [strings.Contains]. *)
Fixpoint str_contains (s sub : string) : bool :=
  has_prefix sub s ||
  match s with
  | EmptyString => false
  | String _ s' => str_contains s' sub
  end.

(** [strings.ContainsRune] for an ASCII rune. *)
Fixpoint contains_char (c : ascii) (s : string) : bool :=
  match s with
  | EmptyString => false
  | String a s' => bool_decide (a = c) || contains_char c s'
  end.

(** Prepend a byte to the first piece. *)
Definition cons_first (c : ascii) (l : list string) : list string :=
  match l with
  | [] => [String c EmptyString]
  | h :: t => String c h :: t
  end.

(** [strings.Split] with a non-empty separator; [skip] bytes of a separator
    that was just matched are still to be passed over. *)
Fixpoint split_skip (sep : string) (skip : nat) (s : string) : list string :=
  match s with
  | EmptyString => [EmptyString]
  | String c s' =>
      match skip with
      | S k => split_skip sep k s'
      | O =>
          if has_prefix sep s
          then EmptyString :: split_skip sep (String.length sep - 1) s'
          else cons_first c (split_skip sep 0 s')
      end
  end.

Definition Split (s sep : string) : list string := split_skip sep 0 s.

(** [strings.Join]. *)
Fixpoint Join (l : list string) (sep : string) : string :=
  match l with
  | [] => EmptyString
  | [x] => x
  | x :: l' => x +:+ sep +:+ Join l' sep
  end.

(** [strings.Cut] at a one-byte separator: before, after, found. *)
Fixpoint Cut (c : ascii) (s : string) : string * string * bool :=
  match s with
  | EmptyString => (EmptyString, EmptyString, false)
  | String a s' =>
      if bool_decide (a = c) then (EmptyString, s', true)
      else let '(b, r, found) := Cut c s' in (String a b, r, found)
  end.

(** The first piece of [strings.Split(s, sep)], which is never empty. *)
Definition first_piece (s sep : string) : string := default EmptyString (head (Split s sep)).

(** [strings.TrimSpace], on ASCII white space. *)
Definition is_space (c : ascii) : bool :=
  let z := code c in (z =? 32) || ((9 <=? z) && (z <=? 13)).

Fixpoint trim_left (s : string) : string :=
  match s with
  | EmptyString => EmptyString
  | String c s' => if is_space c then trim_left s' else s
  end.

Fixpoint trim_right (s : string) : string :=
  match s with
  | EmptyString => EmptyString
  | String c s' =>
      match trim_right s' with
      | EmptyString => if is_space c then EmptyString else String c EmptyString
      | t => String c t
      end
  end.

Definition TrimSpace (s : string) : string := trim_right (trim_left s).

(** [strings.ToLower], on ASCII letters. *)
Fixpoint ToLower (s : string) : string :=
  match s with
  | EmptyString => EmptyString
  | String c s' =>
      String (if (65 <=? code c) && (code c <=? 90) then chr (code c + 32) else c) (ToLower s')
  end.

(** [strings.CutSuffix]: [None] when the suffix is absent. *)
Fixpoint CutSuffix (s suf : string) : option string :=
  if bool_decide (s = suf) then Some EmptyString
  else match s with
       | EmptyString => None
       | String c s' => String c <$> CutSuffix s' suf
       end.

Definition HasSuffix (s suf : string) : bool := bool_decide (is_Some (CutSuffix s suf)).

(** [strings.ReplaceAll] of one byte by a string. *)
Fixpoint replace_char (c : ascii) (by_ : string) (s : string) : string :=
  match s with
  | EmptyString => EmptyString
  | String a s' =>
      if bool_decide (a = c) then by_ +:+ replace_char c by_ s'
      else String a (replace_char c by_ s')
  end.

(** [slices.Contains] on strings. *)
Definition slice_contains (l : list string) (x : string) : bool := bool_decide (x ∈ l).

(** [slices.Compact]: drop an element equal to its predecessor. *)
Fixpoint compact_from (x : string) (l : list string) : list string :=
  match l with
  | [] => [x]
  | y :: l' => if bool_decide (x = y) then compact_from x l' else x :: compact_from y l'
  end.

Definition Compact (l : list string) : list string :=
  match l with [] => [] | x :: l' => compact_from x l' end.

(** ** Numbers *)

(** Decimal digits of a non-negative number, most significant first. *)
Fixpoint itoa_fuel (fuel : nat) (z : Z) (acc : string) : string :=
  match fuel with
  | O => acc
  | S k =>
      let acc' := String (chr (48 + z mod 10)) acc in
      if z <? 10 then acc' else itoa_fuel k (z / 10) acc'
  end.

(** [strconv.Itoa]; a number has at most as many decimal digits as binary
    ones, which bounds the loop. *)
Definition Itoa (z : Z) : string :=
  if z <? 0 then String (chr 45) (itoa_fuel (S (Z.to_nat (Z.log2 (- z)))) (- z) EmptyString)
  else itoa_fuel (S (Z.to_nat (Z.log2 z))) z EmptyString.

(** [net.dtoi]: the decimal number at the front and the rest; fails on no
    digit and on values of [0xFFFFFF] and above. *)
Fixpoint dtoi_loop (s : string) (n : Z) (i : nat) : option (Z * nat * string) :=
  match s with
  | String c s' =>
      if is_digit c then
        let n' := n * 10 + (code c - 48) in
        if 16777215 <=? n' then None else dtoi_loop s' n' (S i)
      else Some (n, i, s)
  | EmptyString => Some (n, i, EmptyString)
  end.

Definition dtoi (s : string) : option (Z * string) :=
  match dtoi_loop s 0 0 with
  | Some (_, O, _) => None
  | Some (n, _, rest) => Some (n, rest)
  | None => None
  end.

(** [strconv.Atoi] (64-bit int): an optional sign and at least one digit. *)
Fixpoint atoi_digits (s : string) (n : Z) : option Z :=
  match s with
  | EmptyString => Some n
  | String c s' => if is_digit c then atoi_digits s' (n * 10 + (code c - 48)) else None
  end.

Definition Atoi (s : string) : option Z :=
  let neg := has_prefix "-" s in
  let body := match s with
              | String c s' => if (code c =? 45) || (code c =? 43) then s' else s
              | EmptyString => s
              end in
  match body with
  | EmptyString => None
  | _ => n ← atoi_digits body 0;
         if neg then (if n <=? 2 ^ 63 then Some (- n) else None)
         else (if n <? 2 ^ 63 then Some n else None)
  end.

(** ** Lemmas *)

Lemma app_str_cons c a b : String c a +:+ b = String c (a +:+ b).
Proof. done. Qed.

Lemma app_str_nil_l s : EmptyString +:+ s = s.
Proof. done. Qed.

Lemma app_str_nil_r s : s +:+ EmptyString = s.
Proof. induction s as [|c s IH]; [done|]. by rewrite app_str_cons, IH. Qed.

Lemma app_str_assoc a b c : (a +:+ b) +:+ c = a +:+ b +:+ c.
Proof. induction a as [|x a IH]; [done|]. by rewrite !app_str_cons, IH. Qed.

Lemma replace_char_app x y a b : replace_char x y (a +:+ b) = replace_char x y a +:+ replace_char x y b.
Proof.
  induction a as [|c a IH]; [done|]. rewrite app_str_cons. cbn [replace_char]. destruct (bool_decide (c = x)); rewrite IH; [|done].
  by rewrite app_str_assoc.
Qed.

Lemma contains_char_app c a b :
  contains_char c (a +:+ b) = contains_char c a || contains_char c b.
Proof.
  induction a as [|x a IH]; [done|]. rewrite app_str_cons. simpl. rewrite IH.
  by destruct (bool_decide (x = c)).
Qed.

Lemma Cut_none c s : contains_char c s = false -> Cut c s = (s, EmptyString, false).
Proof.
  induction s as [|x s IH]; intros H; [done|]. simpl in *.
  apply orb_false_iff in H as [-> Hs]. by rewrite (IH Hs).
Qed.

Lemma Cut_app c a b :
  contains_char c a = false -> Cut c (a +:+ String c b) = (a, b, true).
Proof.
  induction a as [|x a IH]; intros H.
  - simpl. by rewrite bool_decide_true.
  - rewrite app_str_cons. simpl in *. apply orb_false_iff in H as [Hx Ha].
    rewrite Hx, IH; done.
Qed.

Lemma split_skip_nonempty sep k s : split_skip sep k s <> [].
Proof.
  revert k. induction s as [|c s IH]; intros k; simpl; [done|].
  destruct k; [|apply IH].
  destruct (has_prefix sep (String c s)); [done|].
  specialize (IH O). destruct (split_skip sep 0 s); done.
Qed.

(** A one-byte separator. *)
Definition sep1 (c : ascii) : string := String c EmptyString.

Lemma has_prefix_sep1 c x s : has_prefix (sep1 c) (String x s) = bool_decide (x = c).
Proof. simpl. rewrite andb_true_r. apply bool_decide_ext. naive_solver. Qed.

Lemma Split_cons_sep c s : Split (String c s) (sep1 c) = EmptyString :: Split s (sep1 c).
Proof.
  unfold Split. cbn [split_skip]. rewrite has_prefix_sep1, bool_decide_true by done.
  done.
Qed.

Lemma Split_cons_other c x s :
  x <> c -> Split (String x s) (sep1 c) = cons_first x (Split s (sep1 c)).
Proof.
  intros H. unfold Split. cbn [split_skip].
  rewrite has_prefix_sep1, bool_decide_false by done. done.
Qed.

Lemma Split_app c a b :
  contains_char c a = false ->
  Split (a +:+ String c b) (sep1 c) = a :: Split b (sep1 c).
Proof.
  induction a as [|x a IH]; intros H; [apply Split_cons_sep|].
  simpl in H. apply orb_false_iff in H as [Hx Ha]. apply bool_decide_eq_false in Hx.
  rewrite app_str_cons, Split_cons_other, IH by done. done.
Qed.

Lemma Split_none c a : contains_char c a = false -> Split a (sep1 c) = [a].
Proof.
  induction a as [|x a IH]; intros H; [done|].
  simpl in H. apply orb_false_iff in H as [Hx Ha]. apply bool_decide_eq_false in Hx.
  rewrite Split_cons_other, IH by done. done.
Qed.

(** Splitting undoes joining on pieces free of the separator. *)
Lemma Split_Join c l :
  l <> [] -> Forall (fun x => contains_char c x = false) l ->
  Split (Join l (sep1 c)) (sep1 c) = l.
Proof.
  intros Hne H. induction H as [|x l Hx Hl IH]; [done|].
  destruct l as [|y l]; [by apply Split_none|].
  change (Join (x :: y :: l) (sep1 c)) with (x +:+ String c (Join (y :: l) (sep1 c))).
  rewrite Split_app by done. f_equal. by apply IH.
Qed.

(** The pieces of a split contain no separator. *)
Lemma Split_pieces c s : Forall (fun x => contains_char c x = false) (Split s (sep1 c)).
Proof.
  induction s as [|x s IH]; [by repeat constructor|].
  destruct (decide (x = c)) as [->|Hne].
  - rewrite Split_cons_sep. by constructor.
  - rewrite Split_cons_other by done.
    destruct (Split s (sep1 c)) as [|h t]; simpl.
    + constructor; [|done]. simpl. by rewrite bool_decide_false.
    + inversion IH; subst. constructor; [|done]. simpl. by rewrite bool_decide_false.
Qed.

(** Joining undoes splitting. *)
Lemma Join_Split c s : Join (Split s (sep1 c)) (sep1 c) = s.
Proof.
  induction s as [|x s IH]; [done|].
  pose proof (split_skip_nonempty (sep1 c) 0 s) as Hne. fold (Split s (sep1 c)) in Hne.
  destruct (decide (x = c)) as [->|Hx].
  - rewrite Split_cons_sep. destruct (Split s (sep1 c)) as [|h t]; [done|].
    change (Join (EmptyString :: h :: t) (sep1 c)) with (String c (Join (h :: t) (sep1 c))).
    by rewrite IH.
  - rewrite Split_cons_other by done. destruct (Split s (sep1 c)) as [|h [|h' t]]; [done|..];
      simpl in *; by rewrite <-IH.
Qed.

Lemma compact_from_elem x l y : y ∈ compact_from x l <-> y ∈ x :: l.
Proof.
  revert x. induction l as [|z l IH]; intros x; simpl; [done|].
  case_bool_decide as H.
  - subst. rewrite IH, !elem_of_cons. tauto.
  - rewrite !elem_of_cons, IH, elem_of_cons. done.
Qed.

Lemma Compact_elem l y : y ∈ Compact l <-> y ∈ l.
Proof. destruct l; [done|apply compact_from_elem]. Qed.

Lemma is_digit_chr d : 0 <= d < 10 -> is_digit (chr (48 + d)) = true.
Proof. intros H. unfold is_digit. rewrite code_chr by lia. lia. Qed.

(** Decimal numbers up to 128, the prefix lengths, are read back by [dtoi]. *)
Lemma dtoi_Itoa_small n : 0 <= n <= 128 -> dtoi (Itoa n) = Some (n, EmptyString).
Proof.
  intros H. assert (Hall : forallb (fun k => bool_decide (dtoi (Itoa (Z.of_nat k)) =
    Some (Z.of_nat k, EmptyString))) (seq 0 129) = true) by (vm_compute; reflexivity).
  rewrite forallb_forall in Hall. specialize (Hall (Z.to_nat n)).
  rewrite Z2Nat.id in Hall by lia.
  apply (bool_decide_eq_true (dtoi (Itoa n) = Some (n, EmptyString))), Hall, in_seq. lia.
Qed.
