(* ===== verification/GoNet.v ===== *)
(** * Go addresses: the parts of [net], [net/netip], [bytes] and [math/big] used

    An address is the byte slice Go stores ([net.IP]): 4 or 16 bytes, the
    empty list for a nil slice.  Text is parsed and printed the way
    [netip.ParseAddr] and [netip.Addr.String] do it, IPv6 compression
    included, and printing is proved to be undone by parsing.  [big.Int]
    values are [Z]. *)
From Stdlib Require Import Ascii.
From S2P Require Import Prelude GoStrings.

Local Open Scope Z_scope.

(** ** Bytes and big integers *)

Definition byte (b : Z) : Prop := 0 <= b < 256.

Abbreviation bytes := (list Z).

(** [big.Int.SetBytes]: the big-endian value. *)
Definition be_val (l : bytes) : Z := foldl (fun acc b => acc * 256 + b) 0 l.

(** The [n] low bytes of [z], most significant first ([big.Int.FillBytes]). *)
Fixpoint to_bytes (n : nat) (z : Z) : bytes :=
  match n with
  | O => []
  | S k => (z / 256 ^ Z.of_nat k) mod 256 :: to_bytes k z
  end.

(** Number of bytes of a non-negative integer; zero has none. *)
Definition byte_len (z : Z) : nat :=
  if z =? 0 then O else S (Z.to_nat (Z.log2 z / 8)).

(** [big.Int.Bytes]: the absolute value without leading zero bytes. *)
Definition big_Bytes (z : Z) : bytes := to_bytes (byte_len (Z.abs z)) (Z.abs z).

(** [bytes.Compare]. *)
Fixpoint bytes_compare (a b : bytes) : Z :=
  match a, b with
  | [], [] => 0
  | [], _ :: _ => -1
  | _ :: _, [] => 1
  | x :: a', y :: b' => if x <? y then -1 else if y <? x then 1 else bytes_compare a' b'
  end.

(** ** Addresses *)

Abbreviation netIP := (list Z).

Definition isNil (ip : netIP) : bool := match ip with [] => true | _ => false end.

Definition v4InV6Prefix : bytes := [0;0;0;0;0;0;0;0;0;0;255;255].

Definition To4 (ip : netIP) : netIP :=
  if (length ip =? 4)%nat then ip
  else if (length ip =? 16)%nat && bool_decide (take 12 ip = v4InV6Prefix) then drop 12 ip
  else [].

Definition To16 (ip : netIP) : netIP :=
  if (length ip =? 4)%nat then v4InV6Prefix ++ ip
  else if (length ip =? 16)%nat then ip
  else [].

(** [net.IP.Equal]: an IPv4 address and its IPv4-in-IPv6 form are equal. *)
Definition netIP_Equal (a b : netIP) : bool :=
  if (length a =? length b)%nat then bool_decide (a = b)
  else if (length a =? 4)%nat && (length b =? 16)%nat then
    bool_decide (take 12 b = v4InV6Prefix) && bool_decide (a = drop 12 b)
  else if (length a =? 16)%nat && (length b =? 4)%nat then
    bool_decide (take 12 a = v4InV6Prefix) && bool_decide (drop 12 a = b)
  else false.

(** *** Printing *)

(** A byte in decimal. *)
Definition dec_byte (b : Z) : string :=
  let d0 := String (chr (48 + b mod 10)) EmptyString in
  let d1 := if 10 <=? b then String (chr (48 + b / 10 mod 10)) d0 else d0 in
  if 100 <=? b then String (chr (48 + b / 100)) d1 else d1.

(** A 16-bit group in hexadecimal without leading zeros. *)
Definition hex_group (x : Z) : string :=
  let d0 := String (hex_digit (x mod 16)) EmptyString in
  let d1 := if 16 <=? x then String (hex_digit (x / 16 mod 16)) d0 else d0 in
  let d2 := if 256 <=? x then String (hex_digit (x / 256 mod 16)) d1 else d1 in
  if 4096 <=? x then String (hex_digit (x / 4096)) d2 else d2.

(** A byte as two hexadecimal digits. *)
Definition hex_byte (b : Z) : string :=
  String (hex_digit (b / 16)) (String (hex_digit (b mod 16)) EmptyString).

Fixpoint groups (ip : bytes) : list Z :=
  match ip with
  | a :: b :: ip' => a * 256 + b :: groups ip'
  | _ => []
  end.

(** Length of the run of zero groups at the front. *)
Fixpoint zero_run (gs : list Z) : nat :=
  match gs with
  | g :: gs' => if g =? 0 then S (zero_run gs') else O
  | [] => O
  end.

(** Start and length of the first longest run of at least two zero groups;
    length 0 when there is none. *)
Definition longest_run (gs : list Z) : nat * nat :=
  foldl (fun best i =>
           let l := zero_run (drop i gs) in
           if (2 <=? l)%nat && (snd best <? l)%nat then (i, l) else best)
        (O, O) (seq 0 8).

Definition dot_join (l : list string) : string := Join l ".".
Definition colon_join (l : list string) : string := Join l ":".

Definition string4 (ip : netIP) : string := dot_join (dec_byte <$> ip).

Definition string6 (ip : netIP) : string :=
  let gs := groups ip in
  let '(zs, l) := longest_run gs in
  if (l =? 0)%nat then colon_join (hex_group <$> gs)
  else colon_join (hex_group <$> take zs gs) +:+ "::" +:+
       colon_join (hex_group <$> drop (zs + l) gs).

(** [net.IP.String]. *)
Definition netIP_String (ip : netIP) : string :=
  if isNil ip then "<nil>"
  else if negb (length ip =? 4)%nat && negb (length ip =? 16)%nat
  then "?" +:+ Join (hex_byte <$> ip) ""
  else if (length (To4 ip) =? 4)%nat then string4 (To4 ip)
  else string6 ip.

(** *** Parsing *)

(** [netip.parseIPv4Fields]: [val] and [dig] are the value and the number of
    digits of the current field, [acc] the fields already read. *)
Fixpoint v4_fields (s : string) (val : Z) (dig : nat) (acc : list Z) : option (list Z) :=
  match s with
  | EmptyString => if (length acc =? 3)%nat then Some (acc ++ [val]) else None
  | String c s' =>
      if is_digit c then
        if (dig =? 1)%nat && (val =? 0) then None
        else let v := val * 10 + (code c - 48) in
             if 255 <? v then None else v4_fields s' v (S dig) acc
      else if code c =? 46 then
        if (dig =? 0)%nat || bool_decide (s' = EmptyString) then None
        else if (length acc =? 3)%nat then None
        else v4_fields s' 0 O (acc ++ [val])
      else None
  end.

(** The hexadecimal number at the front: value, digits read, rest. *)
Fixpoint scan_hex (s : string) (acc : Z) (off : nat) : option (Z * nat * string) :=
  match s with
  | EmptyString => Some (acc, off, EmptyString)
  | String c s' =>
      match hex_value c with
      | None => Some (acc, off, s)
      | Some d =>
          let acc' := acc * 16 + d in
          if (3 <? off)%nat then None
          else if 65535 <? acc' then None
          else scan_hex s' acc' (S off)
      end
  end.

(** The group loop of [netip.parseIPv6]; [fuel] is the number of groups that
    still fit, [ip] the bytes already read, [ell] the place of the ellipsis. *)
Fixpoint v6_loop (fuel : nat) (s : string) (ip : bytes) (ell : option nat)
    : option (string * bytes * option nat) :=
  match fuel with
  | O => Some (s, ip, ell)
  | S k =>
      match scan_hex s 0 0 with
      | None => None
      | Some (acc, off, rest) =>
          if (off =? 0)%nat then None
          else
            let ip' := ip ++ [acc / 256; acc mod 256] in
            match rest with
            | EmptyString => Some (EmptyString, ip', ell)
            | String c rest1 =>
                if code c =? 46 then
                  if bool_decide (ell = None) && negb (length ip =? 12)%nat then None
                  else if (16 <? length ip + 4)%nat then None
                  else f ← v4_fields s 0 O []; Some (EmptyString, ip ++ f, ell)
                else if code c =? 58 then
                  match rest1 with
                  | EmptyString => None
                  | String c2 rest2 =>
                      if code c2 =? 58 then
                        match ell with
                        | Some _ => None
                        | None =>
                            match rest2 with
                            | EmptyString => Some (EmptyString, ip', Some (length ip'))
                            | _ => v6_loop k rest2 ip' (Some (length ip'))
                            end
                        end
                      else v6_loop k rest1 ip' ell
                  end
                else None
            end
      end
  end.

(** The end of [netip.parseIPv6]: expand the ellipsis. *)
Definition v6_finish (r : string * bytes * option nat) : option bytes :=
  let '(s, ip, ell) := r in
  match s with
  | String _ _ => None
  | EmptyString =>
      if (length ip <? 16)%nat then
        match ell with
        | None => None
        | Some e => Some (take e ip ++ replicate (16 - length ip) 0 ++ drop e ip)
        end
      else match ell with Some _ => None | None => Some ip end
  end.

Definition parse_v6 (s : string) : option bytes :=
  if contains_char "%"%char s then None
  else match s with
       | String a (String b s') =>
           if (code a =? 58) && (code b =? 58) then
             match s' with
             | EmptyString => Some (replicate 16 0)
             | _ => v6_loop 8 s' [] (Some O) ≫= v6_finish
             end
           else v6_loop 8 s [] None ≫= v6_finish
       | _ => v6_loop 8 s [] None ≫= v6_finish
       end.

(** The first byte among ['.'], [':'] and ['%']. *)
Fixpoint first_special (s : string) : option Z :=
  match s with
  | EmptyString => None
  | String c s' =>
      if (code c =? 46) || (code c =? 58) || (code c =? 37) then Some (code c)
      else first_special s'
  end.

(** [netip.ParseAddr] for callers that refuse a zone: 4 bytes for a dotted
    address, 16 bytes for an IPv6 one. *)
Definition parse_addr (s : string) : option bytes :=
  match first_special s with
  | Some 46 => v4_fields s 0 O []
  | Some 58 => parse_v6 s
  | _ => None
  end.

(** [net.ParseIP]: 16 bytes, or nil. *)
Definition ParseIP (s : string) : netIP :=
  match parse_addr s with Some b => To16 b | None => [] end.

(** ** Networks *)

Record IPNet := mkIPNet { nIP : netIP; nMask : bytes }.

#[global] Instance IPNet_eq_dec : EqDecision IPNet.
Proof. solve_decision. Defined.

(** [net.CIDRMask] on [l] bytes with [n] leading ones. *)
Fixpoint CIDRMask (l : nat) (n : Z) : bytes :=
  match l with
  | O => []
  | S k => if 8 <=? n then 255 :: CIDRMask k (n - 8)
           else Z.lxor 255 (Z.shiftr 255 n) :: CIDRMask k 0
  end.

(** Leading ones of a byte, and whether only zeros follow. *)
Definition byte_ones (v : Z) : option Z :=
  snd <$> list_find (fun n => Z.lxor 255 (Z.shiftr 255 n) = v) (seqZ 0 8).

(** [net.simpleMaskLength]: [None] for a mask that is not ones then zeros. *)
Fixpoint simpleMaskLength (m : bytes) : option Z :=
  match m with
  | [] => Some 0
  | v :: m' =>
      if v =? 255 then Z.add 8 <$> simpleMaskLength m'
      else n ← byte_ones v;
           if forallb (fun b => b =? 0) m' then Some n else None
  end.

(** [net.IPMask.Size]: ones and bits. *)
Definition Mask_Size (m : bytes) : Z * Z :=
  match simpleMaskLength m with
  | Some n => (n, 8 * Z.of_nat (length m))
  | None => (0, 0)
  end.

Definition land_bytes (a m : bytes) : bytes := zip_with Z.land a m.

(** [net.IP.Mask]. *)
Definition netIP_Mask (ip : netIP) (m : bytes) : netIP :=
  let m' := if (length m =? 16)%nat && (length ip =? 4)%nat &&
               forallb (fun b => b =? 255) (take 12 m) then drop 12 m else m in
  let ip' := if (length m' =? 4)%nat && (length ip =? 16)%nat &&
                bool_decide (take 12 ip = v4InV6Prefix) then drop 12 ip else ip in
  if (length ip' =? length m')%nat then land_bytes ip' m' else [].

(** [net.ParseCIDR]: the address and the network. *)
Definition ParseCIDR (s : string) : option (netIP * IPNet) :=
  let '(addr, mask, found) := Cut "/"%char s in
  if negb found then None
  else match parse_addr addr with
       | None => None
       | Some ip =>
           match dtoi mask with
           | Some (n, EmptyString) =>
               if 8 * Z.of_nat (length ip) <? n then None
               else let m := CIDRMask (length ip) n in
                    Some (To16 ip, mkIPNet (netIP_Mask (To16 ip) m) m)
           | _ => None
           end
       end.

(** [net.networkNumberAndMask]. *)
Definition networkNumberAndMask (n : IPNet) : netIP * bytes :=
  let ip := if isNil (To4 (nIP n)) then nIP n else To4 (nIP n) in
  if negb (length ip =? 4)%nat && negb (length ip =? 16)%nat then ([], [])
  else match length (nMask n) with
       | 4%nat => if (length ip =? 4)%nat then (ip, nMask n) else ([], [])
       | 16%nat => if (length ip =? 4)%nat then (ip, drop 12 (nMask n)) else (ip, nMask n)
       | _ => ([], [])
       end.

(** [net.IPNet.Contains]. *)
Definition IPNet_Contains (n : IPNet) (ip : netIP) : bool :=
  let '(nn, m) := networkNumberAndMask n in
  let x := if isNil (To4 ip) then ip else To4 ip in
  (length x =? length nn)%nat && bool_decide (land_bytes nn m = land_bytes x m).

(** [net.IPNet.String] for masks of the ones-then-zeros form. *)
Definition IPNet_String (n : IPNet) : string :=
  let '(nn, m) := networkNumberAndMask n in
  if isNil nn then "<nil>"
  else match simpleMaskLength m with
       | Some l => netIP_String nn +:+ "/" +:+ Itoa l
       | None => netIP_String nn +:+ "/" +:+ Join (hex_byte <$> m) ""
       end.

(** [net.HardwareAddr.String]. *)
Definition mac_String (b : bytes) : string := Join (hex_byte <$> b) ":".

(** ** Facts about Go addresses

    Big-endian byte lists, comparison as comparison of values, the round
    trips between bytes and text, and networks as intervals of values. *)

(** ** Big-endian values *)

Lemma foldl_be acc l :
  foldl (fun a b => a * 256 + b) acc l = acc * 256 ^ Z.of_nat (length l) + be_val l.
Proof.
  unfold be_val. revert acc. induction l as [|b l IH]; intros acc.
  - simpl. lia.
  - cbn [foldl length]. rewrite IH, (IH (0 * 256 + b)), Nat2Z.inj_succ, Z.pow_succ_r; lia.
Qed.

Lemma be_val_cons b l : be_val (b :: l) = b * 256 ^ Z.of_nat (length l) + be_val l.
Proof. unfold be_val. cbn [foldl]. rewrite foldl_be. unfold be_val. lia. Qed.

Lemma be_val_app a b : be_val (a ++ b) = be_val a * 256 ^ Z.of_nat (length b) + be_val b.
Proof. unfold be_val. rewrite foldl_app, foldl_be. done. Qed.

Lemma pow256_pos n : 0 < 256 ^ Z.of_nat n.
Proof. apply Z.pow_pos_nonneg; lia. Qed.

Lemma digit_bound b v p : byte b -> 0 <= v < p -> 0 <= b * p + v < 256 * p.
Proof. unfold byte. nia. Qed.

Lemma digit_lt x y a b p : 0 <= a < p -> 0 <= b < p -> x < y -> x * p + a < y * p + b.
Proof. nia. Qed.

Lemma digit_eq x y a b p : 0 <= a < p -> 0 <= b < p -> x * p + a = y * p + b -> x = y /\ a = b.
Proof.
  intros Ha Hb H. destruct (Z.lt_trichotomy x y) as [Hl|[->|Hl]]; [|lia|].
  - pose proof (digit_lt x y a b p Ha Hb Hl). lia.
  - pose proof (digit_lt y x b a p Hb Ha Hl). lia.
Qed.

Lemma be_val_bound l : Forall byte l -> 0 <= be_val l < 256 ^ Z.of_nat (length l).
Proof.
  induction 1 as [|b l Hb _ IH]; [cbv; split; congruence|].
  rewrite be_val_cons. cbn [length]. rewrite Nat2Z.inj_succ, Z.pow_succ_r by lia.
  by apply digit_bound.
Qed.

Lemma be_val_inj a b :
  Forall byte a -> Forall byte b -> length a = length b -> be_val a = be_val b -> a = b.
Proof.
  revert b. induction a as [|x a IH]; intros [|y b] Ha Hb Hlen Hv; try done.
  inversion Ha as [|? ? Hx Ha']; inversion Hb as [|? ? Hy Hb']; subst.
  injection Hlen as Hlen.
  pose proof (be_val_bound a Ha') as Ba. pose proof (be_val_bound b Hb') as Bb.
  rewrite !be_val_cons in Hv. rewrite <-Hlen in Hv, Bb.
  apply digit_eq in Hv as [-> Hv]; [|done..]. f_equal. by apply IH.
Qed.

Lemma length_to_bytes n z : length (to_bytes n z) = n.
Proof. induction n; simpl; auto. Qed.

Lemma to_bytes_byte n z : Forall byte (to_bytes n z).
Proof.
  induction n; simpl; constructor; [|done]. unfold byte. apply Z.mod_pos_bound. lia.
Qed.

Lemma be_val_to_bytes n z : be_val (to_bytes n z) = z mod 256 ^ Z.of_nat n.
Proof.
  induction n as [|k IH].
  - simpl. by rewrite Z.mod_1_r.
  - cbn [to_bytes]. rewrite be_val_cons, IH, length_to_bytes, Nat2Z.inj_succ, Z.pow_succ_r by lia.
    rewrite (Z.mul_comm 256), Z.rem_mul_r by (pose proof (pow256_pos k); lia). lia.
Qed.

Lemma to_bytes_be_val l : Forall byte l -> to_bytes (length l) (be_val l) = l.
Proof.
  intros H. apply be_val_inj; auto using to_bytes_byte, length_to_bytes.
  rewrite be_val_to_bytes. apply Z.mod_small, be_val_bound, H.
Qed.

Lemma to_bytes_mod n z : to_bytes n z = to_bytes n (z mod 256 ^ Z.of_nat n).
Proof.
  apply be_val_inj; auto using to_bytes_byte; [by rewrite !length_to_bytes|].
  rewrite !be_val_to_bytes, Z.mod_mod; [done|]. pose proof (pow256_pos n). lia.
Qed.

Lemma byte_len_bound z : 0 <= z -> z < 256 ^ Z.of_nat (byte_len z).
Proof.
  intros H. unfold byte_len. destruct (Z.eqb_spec z 0); [subst; simpl; lia|].
  pose proof (Z.log2_nonneg z) as Hl. set (l := Z.log2 z) in *.
  assert (Hd : 0 <= l / 8) by (apply Z.div_pos; lia).
  rewrite Nat2Z.inj_succ, Z2Nat.id by done.
  change 256 with (2 ^ 8). rewrite <-Z.pow_mul_r by lia.
  destruct (Z.log2_spec z) as [_ Hlt]; [lia|]. eapply Z.lt_le_trans; [exact Hlt|].
  apply Z.pow_le_mono_r; [lia|]. fold l. zdm.
Qed.

Lemma be_val_big_Bytes z : be_val (big_Bytes z) = Z.abs z.
Proof.
  unfold big_Bytes. rewrite be_val_to_bytes. apply Z.mod_small.
  split; [lia|]. apply byte_len_bound. lia.
Qed.

Lemma big_Bytes_byte z : Forall byte (big_Bytes z).
Proof. apply to_bytes_byte. Qed.

Lemma Forall_byte_zeros n : Forall byte (replicate n 0).
Proof. apply Forall_replicate. unfold byte. lia. Qed.

Lemma be_val_zeros n : be_val (replicate n 0) = 0.
Proof. induction n; simpl; [done|]. rewrite be_val_cons, IHn. lia. Qed.

(** Keeping the low bytes keeps the value modulo their weight. *)
Lemma be_val_drop k l :
  Forall byte l -> (k <= length l)%nat ->
  be_val (drop k l) = be_val l mod 256 ^ Z.of_nat (length l - k).
Proof.
  intros Hl Hk. rewrite <-(take_drop k l) at 2.
  assert (Hd : length (drop k l) = (length l - k)%nat) by apply length_drop.
  rewrite be_val_app, Hd, Z.add_comm, Z.mod_add by (pose proof (pow256_pos (length l - k)); lia).
  symmetry. apply Z.mod_small. rewrite <-Hd. apply be_val_bound, Forall_drop, Hl.
Qed.

(** ** Comparison *)

Lemma bytes_compare_val a b :
  Forall byte a -> Forall byte b -> length a = length b ->
  bytes_compare a b = match be_val a ?= be_val b with Lt => -1 | Eq => 0 | Gt => 1 end.
Proof.
  revert b. induction a as [|x a IH]; intros [|y b] Ha Hb Hlen; try done.
  inversion Ha as [|? ? Hx Ha']; inversion Hb as [|? ? Hy Hb']; subst.
  injection Hlen as Hlen.
  pose proof (be_val_bound a Ha') as Ba. pose proof (be_val_bound b Hb') as Bb.
  rewrite !be_val_cons. rewrite <-Hlen in Bb |- *.
  cbn [bytes_compare]. unfold byte in *.
  destruct (Z.ltb_spec x y).
  { rewrite (proj2 (Z.compare_lt_iff _ _)); [done|]. by apply digit_lt. }
  destruct (Z.ltb_spec y x).
  { rewrite (proj2 (Z.compare_gt_iff _ _)); [done|]. by apply digit_lt. }
  assert (x = y) by lia. subst. rewrite IH by done.
  by rewrite Z.add_compare_mono_l.
Qed.
