(* ===== verification/GoNetText.v ===== *)
(** * Addresses as text

    Parsing undoes printing for IPv4 and IPv6 addresses, so the textual key
    of an address determines the address. *)
From Stdlib Require Import Ascii.
From S2P Require Import Prelude.
From S2P Require Import GoStrings.
From S2P Require Import GoNet.
From S2P Require Import GoNet.

Local Open Scope Z_scope.

(** ** Dotted decimal *)

Lemma v4_step d rest val dig acc :
  0 <= d < 10 -> ~ (dig = 1%nat /\ val = 0) -> val * 10 + d <= 255 ->
  v4_fields (String (chr (48 + d)) rest) val dig acc = v4_fields rest (val * 10 + d) (S dig) acc.
Proof.
  intros Hd Hz Hv. cbn [v4_fields]. rewrite is_digit_chr, code_chr by lia.
  replace (48 + d - 48) with d by lia.
  replace ((dig =? 1)%nat && (val =? 0)) with false
    by (destruct (Nat.eqb_spec dig 1), (Z.eqb_spec val 0); auto; tauto).
  by replace (255 <? val * 10 + d) with false by lia.
Qed.

Lemma v4_fields_dec b :
  byte b -> exists k, (1 <= k)%nat /\
  forall rest acc, v4_fields (dec_byte b +:+ rest) 0 0 acc = v4_fields rest b k acc.
Proof.
  intros Hb. unfold byte in Hb.
  destruct (Z.leb_spec 100 b); [exists 3%nat|destruct (Z.leb_spec 10 b); [exists 2%nat|exists 1%nat]];
    split; [lia|intros rest acc|lia|intros rest acc|lia|intros rest acc];
    unfold dec_byte; repeat match goal with |- context [?n <=? b] =>
      first [replace (n <=? b) with true by lia|replace (n <=? b) with false by lia] end;
    rewrite !app_str_cons, app_str_nil_l, !v4_step by zdm; f_equal; zdm.
Qed.

Lemma code_dot : code "."%char = 46. Proof. done. Qed.

Lemma v4_fields_dot rest val dig acc :
  (1 <= dig)%nat -> rest <> EmptyString -> (length acc < 3)%nat ->
  v4_fields ("." +:+ rest) val dig acc = v4_fields rest 0 0 (acc ++ [val]).
Proof.
  intros Hd Hr Hl. change ("." +:+ rest) with (String "."%char rest). cbn [v4_fields].
  change (is_digit "."%char) with false. rewrite code_dot. cbn [Z.eqb Pos.eqb].
  replace ((dig =? 0)%nat) with false by (symmetry; apply Nat.eqb_neq; lia).
  rewrite bool_decide_false by done. cbn [orb].
  by replace ((length acc =? 3)%nat) with false by (symmetry; apply Nat.eqb_neq; lia).
Qed.

(** ** Alphabets of printed addresses *)

Fixpoint all_chars (P : ascii -> bool) (s : string) : bool :=
  match s with EmptyString => true | String c s' => P c && all_chars P s' end.

Lemma all_chars_app P a b : all_chars P (a +:+ b) = all_chars P a && all_chars P b.
Proof. induction a as [|c a IH]; [done|]. rewrite app_str_cons. simpl. by rewrite IH, andb_assoc. Qed.

Lemma all_chars_Join P l sep :
  all_chars P sep = true -> Forall (fun x => all_chars P x = true) l -> all_chars P (Join l sep) = true.
Proof.
  intros Hs H. induction H as [|x l Hx Hl IH]; [done|].
  destruct l as [|y l]; [done|].
  change (Join (x :: y :: l) sep) with (x +:+ sep +:+ Join (y :: l) sep).
  by rewrite !all_chars_app, Hx, Hs, IH.
Qed.

Lemma all_chars_not_contains P c s :
  P c = false -> all_chars P s = true -> contains_char c s = false.
Proof.
  intros Hc. induction s as [|x s IH]; intros H; [done|]. simpl in *.
  apply andb_true_iff in H as [Hx Hs]. rewrite IH by done.
  rewrite bool_decide_false; [done|]. congruence.
Qed.

Definition v4_char (c : ascii) : bool := is_digit c || (code c =? 46).
Definition v6_char (c : ascii) : bool := bool_decide (is_Some (hex_value c)) || (code c =? 58).

Lemma v4_char_digit d : 0 <= d < 10 -> v4_char (chr (48 + d)) = true.
Proof. intros H. unfold v4_char. by rewrite is_digit_chr. Qed.

Lemma v6_char_digit d : 0 <= d < 16 -> v6_char (hex_digit d) = true.
Proof. intros H. unfold v6_char. rewrite hex_value_digit by done. done. Qed.

Lemma dec_byte_chars b : byte b -> all_chars v4_char (dec_byte b) = true.
Proof.
  unfold byte. intros H. unfold dec_byte.
  destruct (Z.leb_spec 100 b), (Z.leb_spec 10 b); cbn [all_chars];
    rewrite !v4_char_digit by zdm; done.
Qed.

Lemma hex_group_chars x : 0 <= x < 65536 -> all_chars v6_char (hex_group x) = true.
Proof.
  intros H. unfold hex_group.
  destruct (Z.leb_spec 4096 x), (Z.leb_spec 256 x), (Z.leb_spec 16 x); cbn [all_chars];
    rewrite !v6_char_digit by zdm; done.
Qed.

Lemma string4_chars ip : Forall byte ip -> all_chars v4_char (string4 ip) = true.
Proof.
  intros H. apply all_chars_Join; [done|]. apply Forall_fmap.
  eapply Forall_impl; [exact H|]. intros b Hb. simpl. by apply dec_byte_chars.
Qed.

Lemma groups_bound ip : Forall byte ip -> Forall (fun g => 0 <= g < 65536) (groups ip).
Proof.
  revert ip. fix IH 1. intros [|a [|b ip]] H; simpl; try constructor.
  - inversion H as [|? ? Ha H']; inversion H' as [|? ? Hb ?]; subst. unfold byte in *. lia.
  - apply IH. by inversion H as [|? ? ? H']; inversion H'.
Qed.

Lemma colon_join_chars gs :
  Forall (fun g => 0 <= g < 65536) gs -> all_chars v6_char (colon_join (hex_group <$> gs)) = true.
Proof.
  intros H. apply all_chars_Join; [done|]. apply Forall_fmap.
  eapply Forall_impl; [exact H|]. intros g Hg. simpl. by apply hex_group_chars.
Qed.

Lemma string6_chars ip : Forall byte ip -> all_chars v6_char (string6 ip) = true.
Proof.
  intros H. apply groups_bound in H. unfold string6. destruct (longest_run _) as [zs l].
  destruct (_ =? _)%nat; [by apply colon_join_chars|].
  rewrite !all_chars_app, !colon_join_chars; auto using Forall_take, Forall_drop.
Qed.

(** ** IPv4 round trip *)

Lemma dec_byte_nonempty b s : dec_byte b +:+ s <> EmptyString.
Proof. unfold dec_byte. by destruct (_ <=? b), (_ <=? b). Qed.

Lemma string4_fields a b c d :
  byte a -> byte b -> byte c -> byte d ->
  v4_fields (string4 [a; b; c; d]) 0 0 [] = Some [a; b; c; d].
Proof.
  intros Ha Hb Hc Hd.
  change (string4 [a; b; c; d]) with
    (dec_byte a +:+ "." +:+ dec_byte b +:+ "." +:+ dec_byte c +:+ "." +:+ dec_byte d).
  rewrite <-(app_str_nil_r (dec_byte d)).
  destruct (v4_fields_dec a Ha) as (ka & ? & ->), (v4_fields_dec b Hb) as (kb & ? & Eb),
    (v4_fields_dec c Hc) as (kc & ? & Ec), (v4_fields_dec d Hd) as (kd & ? & Ed).
  rewrite v4_fields_dot by (auto using dec_byte_nonempty; simpl; lia). rewrite Eb.
  rewrite v4_fields_dot by (auto using dec_byte_nonempty; simpl; lia). rewrite Ec.
  rewrite v4_fields_dot by (auto using dec_byte_nonempty; simpl; lia). rewrite Ed. done.
Qed.

Lemma first_special_digits s rest :
  all_chars is_digit s = true -> first_special (s +:+ rest) = first_special rest.
Proof.
  induction s as [|c s IH]; intros H; [done|]. rewrite app_str_cons. simpl in *.
  apply andb_true_iff in H as [Hc Hs]. unfold is_digit in Hc.
  replace ((code c =? 46) || (code c =? 58) || (code c =? 37)) with false by lia. auto.
Qed.

Lemma dec_byte_digits b : byte b -> all_chars is_digit (dec_byte b) = true.
Proof.
  unfold byte. intros H. unfold dec_byte.
  destruct (Z.leb_spec 100 b), (Z.leb_spec 10 b); cbn [all_chars];
    rewrite !is_digit_chr by zdm; done.
Qed.

Lemma parse_addr_string4 ip :
  Forall byte ip -> length ip = 4%nat -> parse_addr (string4 ip) = Some ip.
Proof.
  intros H Hl. destruct ip as [|a [|b [|c [|d [|]]]]]; try discriminate Hl.
  rewrite !Forall_cons in H. destruct H as (Ha & Hb & Hc & Hd & _). unfold parse_addr.
  replace (first_special (string4 [a; b; c; d])) with (Some 46); [by apply string4_fields|].
  change (string4 [a; b; c; d]) with (dec_byte a +:+ "." +:+ dot_join (dec_byte <$> [b; c; d])).
  rewrite first_special_digits by (by apply dec_byte_digits). done.
Qed.

(** ** IPv6 round trip *)

Lemma scan_hex_step d rest acc off :
  0 <= d < 16 -> (off <= 3)%nat -> acc * 16 + d <= 65535 ->
  scan_hex (String (hex_digit d) rest) acc off = scan_hex rest (acc * 16 + d) (S off).
Proof.
  intros Hd Ho Ha. cbn [scan_hex]. rewrite hex_value_digit by done.
  replace (3 <? off)%nat with false by (symmetry; apply Nat.ltb_ge; lia).
  by replace (65535 <? acc * 16 + d) with false by lia.
Qed.

(** A remainder that ends a group. *)
Definition hex_stop (s : string) : Prop :=
  match s with EmptyString => True | String c _ => hex_value c = None end.

Lemma scan_hex_stop s acc off : hex_stop s -> scan_hex s acc off = Some (acc, off, s).
Proof. destruct s as [|c s]; simpl; [done|]. by intros ->. Qed.

Lemma scan_hex_group x rest :
  0 <= x < 65536 -> hex_stop rest ->
  exists k, (1 <= k)%nat /\ scan_hex (hex_group x +:+ rest) 0 0 = Some (x, k, rest).
Proof.
  intros Hx Hr. unfold hex_group.
  destruct (Z.leb_spec 4096 x); [exists 4%nat|destruct (Z.leb_spec 256 x);
    [exists 3%nat|destruct (Z.leb_spec 16 x); [exists 2%nat|exists 1%nat]]];
    (split; [lia|]);
    repeat match goal with |- context [?n <=? x] =>
      first [replace (n <=? x) with true by lia|replace (n <=? x) with false by lia] end;
    rewrite !app_str_cons, app_str_nil_l, !scan_hex_step by (simpl; zdm);
    rewrite scan_hex_stop by done; repeat f_equal; zdm.
Qed.

(** Bytes of a list of groups. *)
Definition group_bytes (gs : list Z) : bytes := gs ≫= (fun g => [g / 256; g mod 256]).

Lemma length_group_bytes gs : length (group_bytes gs) = (2 * length gs)%nat.
Proof.
  induction gs as [|g gs IH]; [done|].
  change (group_bytes (g :: gs)) with (g / 256 :: g mod 256 :: group_bytes gs).
  cbn [length]. lia.
Qed.

Lemma group_bytes_groups ip n :
  Forall byte ip -> length ip = (2 * n)%nat -> group_bytes (groups ip) = ip.
Proof.
  revert ip. induction n as [|n IH]; intros ip H Hl.
  - by destruct ip.
  - destruct ip as [|a [|b ip]]; simpl in Hl; try lia.
    rewrite !Forall_cons in H. destruct H as (Ha & Hb & H). unfold byte in *.
    change (group_bytes (groups (a :: b :: ip))) with
      ((a * 256 + b) / 256 :: (a * 256 + b) mod 256 :: group_bytes (groups ip)).
    rewrite IH by (auto; lia). repeat f_equal; zdm.
Qed.

Lemma length_groups ip n : length ip = (2 * n)%nat -> length (groups ip) = n.
Proof.
  revert ip. induction n as [|n IH]; intros ip Hl; [by destruct ip|].
  destruct ip as [|a [|b ip]]; simpl in Hl; try lia. simpl. f_equal. apply IH. lia.
Qed.

Lemma hex_group_head x : 0 <= x < 65536 ->
  exists d s, hex_group x = String (hex_digit d) s /\ 0 <= d < 16.
Proof.
  intros H. unfold hex_group.
  destruct (Z.leb_spec 4096 x); [|destruct (Z.leb_spec 256 x); [|destruct (Z.leb_spec 16 x)]];
    eexists _, _; (split; [reflexivity|zdm]).
Qed.

Lemma code_hex_digit d : 0 <= d < 16 -> (code (hex_digit d) =? 58) = false.
Proof.
  intros H. unfold hex_digit. rewrite code_chr by (destruct (d <? 10) eqn:?; lia).
  destruct (Z.ltb_spec d 10); lia.
Qed.

(** The groups of [gs] after the first, each with its colon, then [tail]. *)
Lemma colon_join_cons g g' gs tail :
  colon_join (hex_group <$> g :: g' :: gs) +:+ tail =
  hex_group g +:+ ":" +:+ colon_join (hex_group <$> g' :: gs) +:+ tail.
Proof.
  change (colon_join (hex_group <$> g :: g' :: gs)) with
    (hex_group g +:+ ":" +:+ colon_join (hex_group <$> g' :: gs)).
  by rewrite !app_str_assoc.
Qed.

Lemma v6_loop_group fuel g s ip ell :
  0 <= g < 65536 -> (exists d s', s = String (hex_digit d) s' /\ 0 <= d < 16) ->
  v6_loop (S fuel) (hex_group g +:+ ":" +:+ s) ip ell =
  v6_loop fuel s (ip ++ [g / 256; g mod 256]) ell.
Proof.
  intros Hg (d & s' & -> & Hd). cbn [v6_loop].
  destruct (scan_hex_group g (":" +:+ String (hex_digit d) s')) as (k & Hk & ->); [done..|].
  replace (k =? 0)%nat with false by (symmetry; apply Nat.eqb_neq; lia).
  change (":" +:+ String (hex_digit d) s') with (String ":"%char (String (hex_digit d) s')).
  change (code ":"%char) with 58. cbn [Z.eqb Pos.eqb]. by rewrite code_hex_digit.
Qed.

Lemma colon_join_head g gs tail : 0 <= g < 65536 ->
  exists d s', colon_join (hex_group <$> g :: gs) +:+ tail = String (hex_digit d) s' /\ 0 <= d < 16.
Proof.
  intros H. destruct (hex_group_head g H) as (d & s & E & Hd).
  destruct gs as [|g' gs].
  - exists d, (s +:+ tail). simpl. unfold colon_join. simpl. rewrite E. done.
  - rewrite colon_join_cons, E. eexists d, _. done.
Qed.

(** The loop reads groups up to the last one of the list. *)
Lemma v6_loop_groups gs g fuel tail ip ell :
  Forall (fun g => 0 <= g < 65536) (gs ++ [g]) -> (length gs < fuel)%nat ->
  v6_loop fuel (colon_join (hex_group <$> gs ++ [g]) +:+ tail) ip ell =
  v6_loop (fuel - length gs) (hex_group g +:+ tail) (ip ++ group_bytes gs) ell.
Proof.
  revert fuel ip. induction gs as [|h gs IH]; intros fuel ip H Hf.
  - simpl. by rewrite app_nil_r, Nat.sub_0_r.
  - destruct fuel as [|fuel]; [simpl in Hf; lia|]. simpl in Hf.
    assert (exists h' l, gs ++ [g] = h' :: l) as (h' & l & E) by (destruct gs; eauto).
    rewrite <-app_comm_cons in *. inversion H as [|? ? Hh Hg]; subst.
    rewrite E at 1. rewrite colon_join_cons. rewrite E in Hg. rewrite v6_loop_group; [|done|].
    2: { inversion Hg; subst. by apply colon_join_head. }
    rewrite <-E, IH by (rewrite ?E; auto; lia). simpl. f_equal.
    unfold group_bytes. simpl. by rewrite <-app_assoc.
Qed.

Lemma v6_loop_last fuel g ip ell :
  0 <= g < 65536 -> v6_loop (S fuel) (hex_group g) ip ell =
  Some (EmptyString, ip ++ [g / 256; g mod 256], ell).
Proof.
  intros Hg. cbn [v6_loop]. rewrite <-(app_str_nil_r (hex_group g)).
  destruct (scan_hex_group g EmptyString Hg) as (k & Hk & ->); [done|].
  by replace (k =? 0)%nat with false by (symmetry; apply Nat.eqb_neq; lia).
Qed.

Lemma v6_loop_all gs fuel ip ell :
  Forall (fun g => 0 <= g < 65536) gs -> gs <> [] -> (length gs <= fuel)%nat ->
  v6_loop fuel (colon_join (hex_group <$> gs)) ip ell = Some (EmptyString, ip ++ group_bytes gs, ell).
Proof.
  intros H Hne Hf. destruct (exists_last Hne) as (gs' & g & ->).
  rewrite length_app in Hf. simpl in Hf.
  rewrite <-(app_str_nil_r (colon_join _)), v6_loop_groups by (auto; lia).
  rewrite app_str_nil_r. replace (fuel - length gs')%nat with (S (fuel - length gs' - 1)) by lia.
  rewrite v6_loop_last by (apply Forall_app in H as [_ H]; by inversion H).
  unfold group_bytes. rewrite bind_app. simpl. by rewrite app_assoc.
Qed.

Lemma v6_loop_ellipsis gs fuel rest ip :
  Forall (fun g => 0 <= g < 65536) gs -> gs <> [] -> (length gs <= fuel)%nat ->
  v6_loop fuel (colon_join (hex_group <$> gs) +:+ "::" +:+ rest) ip None =
  match rest with
  | EmptyString => Some (EmptyString, ip ++ group_bytes gs, Some (length (ip ++ group_bytes gs)))
  | _ => v6_loop (fuel - length gs) rest (ip ++ group_bytes gs) (Some (length (ip ++ group_bytes gs)))
  end.
Proof.
  intros H Hne Hf. destruct (exists_last Hne) as (gs' & g & ->).
  rewrite length_app in Hf. simpl in Hf |- *. rewrite v6_loop_groups by (auto; lia).
  replace (fuel - length gs')%nat with (S (fuel - length gs' - 1)) by lia. cbn [v6_loop].
  destruct (scan_hex_group g ("::" +:+ rest)) as (k & Hk & ->);
    [apply Forall_app in H as [_ H]; by inversion H|done|].
  replace (k =? 0)%nat with false by (symmetry; apply Nat.eqb_neq; lia).
  change ("::" +:+ rest) with (String ":"%char (String ":"%char rest)).
  change (code ":"%char) with 58. cbn [Z.eqb Pos.eqb].
  unfold group_bytes. rewrite bind_app. simpl. rewrite <-!app_assoc.
  rewrite !length_app. simpl.
  by replace (fuel - (length gs' + 1))%nat with (fuel - length gs' - 1)%nat by lia.
Qed.

(** *** The zero run *)

Lemma zero_run_spec gs : gs = replicate (zero_run gs) 0 ++ drop (zero_run gs) gs.
Proof.
  induction gs as [|g gs IH]; [done|]. simpl. destruct (Z.eqb_spec g 0); [|done].
  subst. simpl. by rewrite <-IH.
Qed.

Lemma zero_run_le gs : (zero_run gs <= length gs)%nat.
Proof. induction gs as [|g gs IH]; simpl; [lia|]. destruct (g =? 0); lia. Qed.

(** What the search maintains about the best run so far. *)
Definition run_ok (gs : list Z) (best : nat * nat) : Prop :=
  snd best = O \/ ((2 <= snd best)%nat /\ snd best = zero_run (drop (fst best) gs)).

Lemma longest_run_spec gs : run_ok gs (longest_run gs).
Proof.
  unfold longest_run. assert (Hb : run_ok gs (O, O)) by (by left).
  generalize (seq 0 8). revert Hb. generalize (O, O). intros best Hb idx. revert best Hb.
  induction idx as [|i idx IH]; intros best Hb; [done|]. cbn [foldl]. apply IH. cbv zeta.
  destruct (Nat.leb_spec 2 (zero_run (drop i gs))); cbn [andb]; [|done].
  destruct (_ <? _)%nat; [by right|done].
Qed.

Lemma run_split gs zs l :
  run_ok gs (zs, l) -> l <> O ->
  gs = take zs gs ++ replicate l 0 ++ drop (zs + l) gs /\ (zs + l <= length gs)%nat /\ (2 <= l)%nat.
Proof.
  intros [H|[H2 H]] Hl; simpl in *; [lia|]. pose proof (zero_run_le (drop zs gs)) as Hle.
  rewrite length_drop in Hle. split; [|lia].
  rewrite <-(take_drop zs gs) at 1. f_equal.
  rewrite (zero_run_spec (drop zs gs)) at 1. by rewrite <-H, drop_drop.
Qed.

Lemma group_bytes_zeros l : group_bytes (replicate l 0) = replicate (2 * l) 0.
Proof.
  induction l as [|l IH]; [done|].
  change (group_bytes (replicate (S l) 0)) with (0 :: 0 :: group_bytes (replicate l 0)).
  rewrite IH. by replace (2 * S l)%nat with (S (S (2 * l))) by lia.
Qed.

Lemma group_bytes_app a b : group_bytes (a ++ b) = group_bytes a ++ group_bytes b.
Proof. apply bind_app. Qed.

Lemma colon_join_nonempty g gs : 0 <= g < 65536 ->
  exists d s, colon_join (hex_group <$> g :: gs) = String (hex_digit d) s /\ 0 <= d < 16.
Proof.
  intros H. destruct (colon_join_head g gs EmptyString H) as (d & s & E & Hd).
  rewrite app_str_nil_r in E. eauto.
Qed.

(** Reading the text of groups cut at a zero run gives back the bytes. *)
Lemma parse_v6_run pre post l :
  Forall (fun g => 0 <= g < 65536) pre -> Forall (fun g => 0 <= g < 65536) post ->
  (2 <= l)%nat -> (length pre + l + length post = 8)%nat ->
  parse_v6 (colon_join (hex_group <$> pre) +:+ "::" +:+ colon_join (hex_group <$> post)) =
  Some (group_bytes (pre ++ replicate l 0 ++ post)).
Proof.
  intros Hpre Hpost Hl Hlen. unfold parse_v6.
  rewrite (all_chars_not_contains v6_char); [|done|by rewrite !all_chars_app, !colon_join_chars].
  rewrite !group_bytes_app, group_bytes_zeros.
  pose proof (length_group_bytes pre) as Lpre. pose proof (length_group_bytes post) as Lpost.
  assert (Hpost' : forall fuel ip e, (length post <= fuel)%nat -> post <> [] ->
    v6_loop fuel (colon_join (hex_group <$> post)) ip e = Some (EmptyString, ip ++ group_bytes post, e))
    by (intros; by apply v6_loop_all).
  destruct pre as [|g pre].
  - change (colon_join (hex_group <$> []) +:+ "::" +:+ colon_join (hex_group <$> post)) with
      (String ":"%char (String ":"%char (colon_join (hex_group <$> post)))).
    cbn [app]. destruct post as [|g post]; [simpl in Hlen; replace l with 8%nat by lia; done|].
    inversion Hpost as [|? ? Hg _]; subst.
    destruct (colon_join_nonempty g post Hg) as (d & s & E & Hd).
    rewrite E, <-E. change (code ":"%char) with 58. cbn [Z.eqb Pos.eqb andb].
    rewrite Hpost' by first [done|cbn [length] in *; lia]. simpl option_bind.
    cbn [app v6_finish mbind option_bind]. rewrite Lpost in *. simpl in Hlen.
    replace (2 * length (g :: post) <? 16)%nat with true by (symmetry; apply Nat.ltb_lt; simpl; lia).
    rewrite take_0, drop_0. simpl. repeat f_equal. simpl. lia.
  - set (g0 := g :: pre) in *. assert (Hne : g0 <> []) by done.
    inversion Hpre as [|? ? Hg _]; subst.
    destruct (hex_group_head g Hg) as (d & s & E & Hd).
    assert (exists d s1, colon_join (hex_group <$> g0) +:+ "::" +:+ colon_join (hex_group <$> post)
       = String (hex_digit d) s1 /\ 0 <= d < 16) as (d' & s1 & E1 & Hd') by (by apply colon_join_head).
    clearbody g0. rewrite E1. replace (match s1 with EmptyString => _ | String b s' => _ end) with
      (v6_loop 8 (String (hex_digit d') s1) [] None ≫= v6_finish)
      by (destruct s1; [done|]; by rewrite code_hex_digit by done).
    rewrite <-E1, v6_loop_ellipsis by (done || lia). cbn [app].
    destruct post as [|h post].
    + change (colon_join (hex_group <$> [])) with EmptyString. cbn [mbind option_bind v6_finish].
      rewrite Lpre. simpl in Hlen.
      replace (2 * length g0 <? 16)%nat with true by (symmetry; apply Nat.ltb_lt; lia).
      rewrite <-Lpre, take_ge, drop_ge by lia. rewrite Lpre. repeat f_equal. lia.
    + inversion Hpost as [|? ? Hh _]; subst.
      destruct (colon_join_nonempty h post Hh) as (d2 & s2 & E2 & Hd2).
      rewrite E2, <-E2, Hpost' by first [done|cbn [length] in *; lia]. cbn [mbind option_bind v6_finish].
      rewrite length_app, Lpre, Lpost.
      replace (2 * length g0 + 2 * length (h :: post) <? 16)%nat with true
        by (symmetry; apply Nat.ltb_lt; lia).
      rewrite <-Lpre, take_app_length, drop_app_length. repeat f_equal. lia.
Qed.

Lemma parse_v6_string6 ip :
  Forall byte ip -> length ip = 16%nat -> parse_v6 (string6 ip) = Some ip.
Proof.
  intros H Hl. pose proof (groups_bound ip H) as Hg.
  pose proof (length_groups ip 8 ltac:(lia)) as Lg.
  pose proof (group_bytes_groups ip 8 H ltac:(lia)) as Hb.
  unfold string6. pose proof (longest_run_spec (groups ip)) as Hr.
  destruct (longest_run (groups ip)) as [zs l]. destruct (Nat.eqb_spec l 0) as [->|Hl0].
  - destruct (groups ip) as [|g gs] eqn:E; [done|]. rewrite <-E in *.
    assert (Hg0 : 0 <= g < 65536) by (rewrite E in Hg; by inversion Hg).
    unfold parse_v6. rewrite (all_chars_not_contains v6_char); [|done|by apply colon_join_chars].
    pose proof (v6_loop_all (groups ip) 8 [] None Hg ltac:(by rewrite E) ltac:(lia)) as HL.
    rewrite E in HL |- *. destruct (colon_join_nonempty g gs Hg0) as (d & s & E1 & Hd).
    rewrite E1 in HL |- *.
    replace (match s with EmptyString => _ | String b s' => _ end) with
      (v6_loop 8 (String (hex_digit d) s) [] None ≫= v6_finish)
      by (destruct s; [done|]; by rewrite code_hex_digit by done).
    rewrite HL, <-E, Hb. simpl. by rewrite Hl.
  - destruct (run_split _ _ _ Hr Hl0) as (Hsplit & Hle & H2).
    rewrite (parse_v6_run _ _ l) by (auto using Forall_take, Forall_drop;
      rewrite length_take, length_drop; lia).
    by rewrite <-Hsplit, Hb.
Qed.

Lemma first_special_v6 s :
  all_chars v6_char s = true -> contains_char ":"%char s = true -> first_special s = Some 58.
Proof.
  induction s as [|c s IH]; intros H Hc; [done|]. simpl in *.
  apply andb_true_iff in H as [Hx Hs].
  destruct (bool_decide_reflect (c = ":"%char)) as [->|Hne]; [done|].
  assert (Hcode : (code c =? 46) || (code c =? 58) || (code c =? 37) = false).
  { unfold v6_char in Hx. destruct (Z.eqb_spec (code c) 58) as [H58|H58].
    - exfalso. apply Hne. unfold code in H58. rewrite <-(ascii_N_embedding c).
      by replace (N_of_ascii c) with 58%N by lia.
    - rewrite orb_false_r in Hx. unfold hex_value in Hx.
      destruct (Z.eqb_spec (code c) 46) as [E|]; [by rewrite E in Hx|].
      destruct (Z.eqb_spec (code c) 37) as [E|]; [by rewrite E in Hx|done]. }
  rewrite Hcode. by apply IH.
Qed.

Lemma colon_join_has_colon g g' gs : contains_char ":"%char (colon_join (hex_group <$> g :: g' :: gs)) = true.
Proof.
  rewrite <-(app_str_nil_r (colon_join _)), colon_join_cons, !contains_char_app.
  change (contains_char ":"%char ":") with true. by rewrite orb_true_r.
Qed.

Lemma string6_has_colon ip : length ip = 16%nat -> contains_char ":"%char (string6 ip) = true.
Proof.
  intros Hl. unfold string6. destruct (longest_run _) as [zs l]. destruct (_ =? _)%nat.
  - pose proof (length_groups ip 8 ltac:(lia)) as Lg.
    destruct (groups ip) as [|g [|g' gs]]; try discriminate Lg. apply colon_join_has_colon.
  - rewrite !contains_char_app. change (contains_char ":"%char "::") with true.
    by rewrite orb_true_r.
Qed.

Lemma parse_addr_string6 ip :
  Forall byte ip -> length ip = 16%nat -> parse_addr (string6 ip) = Some ip.
Proof.
  intros H Hl. unfold parse_addr.
  rewrite first_special_v6 by auto using string6_chars, string6_has_colon.
  by apply parse_v6_string6.
Qed.

(** ** Addresses of either family *)

Definition valid_ip (a : netIP) : Prop := Forall byte a /\ (length a = 4%nat \/ length a = 16%nat).

#[global] Instance valid_ip_dec a : Decision (valid_ip a).
Proof. unfold valid_ip, byte. solve_decision. Defined.

Lemma To4_16 a : length a = 16%nat ->
  To4 a = if bool_decide (take 12 a = v4InV6Prefix) then drop 12 a else [].
Proof. intros H. unfold To4. by rewrite H. Qed.

Lemma To4_4 a : length a = 4%nat -> To4 a = a.
Proof. intros H. unfold To4. by rewrite H. Qed.

Lemma To16_4 a : length a = 4%nat -> To16 a = v4InV6Prefix ++ a.
Proof. intros H. unfold To16. by rewrite H. Qed.

Lemma To16_16 a : length a = 16%nat -> To16 a = a.
Proof. intros H. unfold To16. by rewrite H. Qed.

Lemma To16_prefix a : length a = 4%nat -> To16 (v4InV6Prefix ++ a) = v4InV6Prefix ++ a.
Proof. intros H. apply To16_16. rewrite length_app, H. done. Qed.

(** [net.ParseIP] undoes [net.IP.String], up to the 16-byte form. *)
Lemma ParseIP_String a : valid_ip a -> ParseIP (netIP_String a) = To16 a.
Proof.
  intros [Hb [Hl|Hl]]; unfold netIP_String, ParseIP.
  - destruct (isNil a) eqn:E; [by destruct a|]. rewrite Hl. simpl.
    rewrite To4_4, Hl by done. simpl. by rewrite parse_addr_string4.
  - destruct (isNil a) eqn:E; [by destruct a|]. rewrite Hl. simpl.
    rewrite To4_16 by done. case_bool_decide as Hp.
    + assert (Ld : length (drop 12 a) = 4%nat) by (rewrite length_drop; lia).
      rewrite Ld. simpl. rewrite parse_addr_string4 by auto using Forall_drop.
      rewrite To16_4, To16_16 by done. by rewrite <-Hp, take_drop.
    + simpl. by rewrite parse_addr_string6.
Qed.

(** ** What parsing returns *)

Lemma is_digit_bound c : is_digit c = true -> 0 <= code c - 48 <= 9.
Proof. unfold is_digit. lia. Qed.

Lemma v4_fields_valid s val dig acc r :
  v4_fields s val dig acc = Some r -> byte val -> Forall byte acc -> (length acc <= 3)%nat ->
  Forall byte r /\ length r = 4%nat.
Proof.
  revert val dig acc. induction s as [|c s IH]; intros val dig acc H Hv Ha Hl; simpl in H.
  - destruct (Nat.eqb_spec (length acc) 3) as [E|]; [|done]. injection H as <-.
    rewrite length_app, E. split; [|done]. apply Forall_app. auto.
  - destruct (is_digit c) eqn:Hc.
    + destruct (_ && _); [done|]. destruct (Z.ltb_spec 255 (val * 10 + (code c - 48))); [done|].
      apply is_digit_bound in Hc. eapply IH; eauto. unfold byte in *. lia.
    + destruct (_ =? 46); [|done]. destruct (_ || _); [done|].
      destruct (Nat.eqb_spec (length acc) 3); [done|].
      eapply IH; eauto; [unfold byte; lia|apply Forall_app; auto|rewrite length_app; simpl; lia].
Qed.

Lemma hex_value_bound c d : hex_value c = Some d -> 0 <= d < 16.
Proof.
  unfold hex_value. repeat match goal with |- context [if ?b then _ else _] =>
    destruct b eqn:? end; intros [= <-]; lia.
Qed.

Lemma scan_hex_bound s acc off r k rest :
  scan_hex s acc off = Some (r, k, rest) -> 0 <= acc <= 65535 -> 0 <= r <= 65535.
Proof.
  revert acc off. induction s as [|c s IH]; intros acc off H Ha; simpl in H.
  - by injection H as <- _ _.
  - destruct (hex_value c) as [d|] eqn:E; [|by injection H as <- _ _].
    apply hex_value_bound in E. destruct (3 <? off)%nat; [done|].
    destruct (Z.ltb_spec 65535 (acc * 16 + d)); [done|]. eapply IH; eauto. lia.
Qed.

Lemma v6_loop_valid fuel s ip ell s' ip' ell' :
  v6_loop fuel s ip ell = Some (s', ip', ell') -> Forall byte ip ->
  (length ip + 2 * fuel <= 16)%nat -> Forall byte ip' /\ (length ip' <= 16)%nat.
Proof.
  revert s ip ell. induction fuel as [|k IH]; intros s ip ell H Hb Hl; cbn [v6_loop] in H.
  - injection H as <- <- <-. split; [done|lia].
  - destruct (scan_hex s 0 0) as [[[acc off] rest]|] eqn:Es; [|done].
    apply scan_hex_bound in Es; [|lia].
    assert (Hb' : Forall byte (ip ++ [acc / 256; acc mod 256])).
    { apply Forall_app. split; [done|]. repeat constructor; unfold byte; zdm. }
    assert (Hl' : length (ip ++ [acc / 256; acc mod 256]) = (length ip + 2)%nat)
      by (by rewrite length_app).
    destruct (off =? 0)%nat; [done|]. cbv zeta in H.
    set (ip2 := ip ++ _) in *. clearbody ip2.
    destruct rest as [|c rest1]; [injection H as <- <- <-; split; [done|lia]|].
    destruct (_ =? 46).
    { destruct (_ && _); [done|]. destruct (Nat.ltb_spec 16 (length ip + 4)); [done|].
      destruct (v4_fields s 0 0 []) as [f|] eqn:Ef; [|done]. simpl in H. injection H as <- <- <-.
      apply v4_fields_valid in Ef as [Hf Lf]; [|unfold byte; lia|constructor|simpl; lia].
      split; [by apply Forall_app|]. rewrite length_app, Lf. lia. }
    destruct (_ =? 58); [|done]. destruct rest1 as [|c2 rest2]; [done|].
    destruct (_ =? 58).
    + destruct ell; [done|]. destruct rest2 as [|c3 rest2].
      * injection H as <- <- <-. split; [done|lia].
      * eapply IH; eauto. lia.
    + eapply IH; eauto. lia.
Qed.

Lemma v6_finish_valid s ip ell r :
  v6_finish (s, ip, ell) = Some r -> Forall byte ip -> (length ip <= 16)%nat ->
  Forall byte r /\ length r = 16%nat.
Proof.
  unfold v6_finish. intros H Hb Hl. destruct s; [|done].
  destruct (Nat.ltb_spec (length ip) 16).
  - destruct ell as [e|]; [|done]. injection H as <-. split.
    + rewrite !Forall_app. auto using Forall_take, Forall_drop, Forall_byte_zeros.
    + rewrite !length_app, length_take, length_drop, length_replicate. lia.
  - destruct ell; [done|]. injection H as <-. split; [done|lia].
Qed.

Lemma parse_v6_valid s r : parse_v6 s = Some r -> Forall byte r /\ length r = 16%nat.
Proof.
  assert (Hrun : forall s ell, v6_loop 8 s [] ell ≫= v6_finish = Some r ->
    Forall byte r /\ length r = 16%nat).
  { intros s' ell H. destruct (v6_loop 8 s' [] ell) as [[[s2 ip] e]|] eqn:E; [|done].
    apply v6_loop_valid in E as [Hb Hl]; [|constructor|simpl; lia].
    by apply v6_finish_valid in H. }
  unfold parse_v6. destruct (contains_char _ s); [done|].
  destruct s as [|a [|b s']]; [by eapply Hrun|by eapply Hrun|].
  destruct (_ && _); [|by eapply Hrun]. destruct s' as [|c s']; [|by eapply Hrun].
  intros [= <-]. split; [apply (Forall_byte_zeros 16)|done].
Qed.

Lemma first_special_no_colon s : first_special s = Some 58 -> contains_char ":"%char s = true.
Proof.
  induction s as [|c s IH]; [done|]. simpl. intros H.
  destruct (bool_decide_reflect (c = ":"%char)); [done|]. simpl. apply IH.
  destruct ((code c =? 46) || (code c =? 58) || (code c =? 37)) eqn:E; [|done].
  exfalso. injection H as H. apply n. unfold code in H. rewrite <-(ascii_N_embedding c).
  by replace (N_of_ascii c) with 58%N by lia.
Qed.

(** A dotted address has 4 bytes, an address with a colon 16. *)
Lemma parse_addr_valid s r :
  parse_addr s = Some r ->
  valid_ip r /\ (contains_char ":"%char s = false -> length r = 4%nat).
Proof.
  unfold parse_addr. intros H. destruct (first_special s) as [z|] eqn:E; [|done].
  destruct (decide (z = 46)) as [->|Hd].
  - apply v4_fields_valid in H as [Hb Hl]; [|unfold byte; lia|constructor|simpl; lia].
    split; [split; auto|done].
  - assert (z = 58 /\ parse_v6 s = Some r) as [-> H'].
    { destruct (decide (z = 58)) as [->|]; [done|].
      exfalso. destruct z as [|p|p]; try done.
      repeat (destruct p as [p|p|]; try done). }
    apply first_special_no_colon in E. apply parse_v6_valid in H' as [Hb Hl].
    split; [split; auto|congruence].
Qed.

(** A number is read back from its decimal text. *)
Lemma atoi_itoa_fuel fuel z acc : 0 <= z < 2 ^ Z.of_nat fuel -> (0 < fuel)%nat ->
  atoi_digits (itoa_fuel fuel z acc) 0 = atoi_digits acc z.
Proof.
  revert z acc. induction fuel as [|k IH]; intros z acc Hz Hk; [lia|]. cbn [itoa_fuel].
  pose proof (Z.mod_pos_bound z 10 ltac:(lia)) as Hm.
  assert (E : forall n, atoi_digits (String (chr (48 + z mod 10)) acc) n = atoi_digits acc (n * 10 + z mod 10)).
  { intros n. cbn [atoi_digits]. rewrite is_digit_chr by lia. rewrite code_chr by lia. f_equal. lia. }
  destruct (Z.ltb_spec z 10).
  - rewrite E, Z.mod_small by lia. f_equal.
  - rewrite Nat2Z.inj_succ, Z.pow_succ_r in Hz by lia. pose proof (Z.div_mod z 10 ltac:(lia)) as Hd.
    assert (0 < k)%nat by (destruct k; [simpl in Hz; lia|lia]).
    rewrite IH by (nia || lia). rewrite E. f_equal. lia.
Qed.

Lemma itoa_fuel_chars P fuel z acc : (forall d, 0 <= d < 10 -> P (chr (48 + d)) = true) ->
  all_chars P acc = true -> (0 < fuel)%nat ->
  all_chars P (itoa_fuel fuel z acc) = true /\ itoa_fuel fuel z acc <> EmptyString.
Proof.
  intros HP. revert z acc. induction fuel as [|k IH]; intros z acc Hacc Hk; [lia|]. cbn [itoa_fuel].
  assert (Hs : all_chars P (String (chr (48 + z mod 10)) acc) = true).
  { cbn [all_chars]. rewrite HP by (apply Z.mod_pos_bound; lia). done. }
  destruct (z <? 10); [done|]. destruct k as [|k]; [done|]. apply IH; [done|lia].
Qed.

Lemma Itoa_chars P z : (forall d, 0 <= d < 10 -> P (chr (48 + d)) = true) -> 0 <= z ->
  all_chars P (Itoa z) = true /\ Itoa z <> EmptyString.
Proof. intros HP Hz. unfold Itoa. replace (z <? 0) with false by lia. by apply itoa_fuel_chars; [| |lia]. Qed.

Lemma Atoi_Itoa z : 0 <= z < 2 ^ 63 -> Atoi (Itoa z) = Some z.
Proof.
  intros Hz. destruct (Itoa_chars is_digit z) as [Hd Hne]; [apply is_digit_chr|lia|].
  assert (Hr : atoi_digits (Itoa z) 0 = Some z).
  { unfold Itoa. replace (z <? 0) with false by lia. rewrite atoi_itoa_fuel; [done| |lia].
    rewrite Nat2Z.inj_succ, Z2Nat.id by (apply Z.log2_nonneg).
    destruct (Z.eq_dec z 0) as [->|]; [done|]. pose proof (Z.log2_spec z ltac:(lia)). lia. }
  unfold Atoi. destruct (Itoa z) as [|c s] eqn:Es; [done|]. cbn [all_chars] in Hd. apply andb_true_iff in Hd as [Hc _].
  unfold is_digit in Hc. apply andb_true_iff in Hc as [Hc1 Hc2].
  replace ((code c =? 45) || (code c =? 43)) with false by lia.
  assert (Hp : has_prefix "-" (String c s) = false).
  { cbn [has_prefix]. rewrite bool_decide_false; [done|]. intros <-. done. }
  rewrite Hp, Hr. cbn. by replace (z <? 2 ^ 63) with true by lia.
Qed.

(** ** Characters of addresses that parse *)

Definition addr_char (c : ascii) : bool := v6_char c || (code c =? 46).

Lemma all_chars_mono (P Q : ascii -> bool) s : (forall c, P c = true -> Q c = true) -> all_chars P s = true -> all_chars Q s = true.
Proof.
  intros H. induction s as [|c s IH]; cbn; [done|]. rewrite !andb_true_iff. intros [Hc Hs]. auto.
Qed.

Lemma digit_addr_char c : is_digit c = true -> addr_char c = true.
Proof.
  unfold addr_char, v6_char, hex_value, is_digit. rewrite andb_true_iff, !Z.leb_le. intros [H1 H2].
  destruct (Z.leb_spec 48 (code c)); [|lia]. destruct (Z.leb_spec (code c) 57); [|lia]. done.
Qed.

Lemma v4_fields_chars s val dig acc l : v4_fields s val dig acc = Some l -> all_chars addr_char s = true.
Proof.
  revert val dig acc. induction s as [|c s IH]; intros val dig acc; cbn; [done|]. destruct (is_digit c) eqn:Ed.
  - destruct (_ && _); [done|]. case_match; [done|]. intros Hs%IH. by rewrite digit_addr_char.
  - destruct (code c =? 46) eqn:E4; [|done]. destruct (_ || _); [done|]. case_match; [done|]. intros Hs%IH.
    unfold addr_char. by rewrite E4, orb_true_r.
Qed.

Lemma scan_hex_chars s acc off a o rest : scan_hex s acc off = Some (a, o, rest) -> all_chars addr_char rest = true -> all_chars addr_char s = true.
Proof.
  revert acc off. induction s as [|c s IH]; intros acc off; cbn [scan_hex]; [by intros [= _ _ <-]|]. destruct (hex_value c) as [d|] eqn:Eh; [|by intros [= _ _ <-]]. cbv zeta.
  destruct (3 <? off)%nat; [done|]. destruct (65535 <? acc * 16 + d); [done|]. intros Hs Hr. cbn [all_chars]. rewrite (IH _ _ Hs) by done. unfold addr_char, v6_char. by rewrite Eh.
Qed.

Lemma colon_addr_char c : (code c =? 58) = true -> addr_char c = true.
Proof. intros H. unfold addr_char, v6_char. by rewrite H, orb_true_r. Qed.

Lemma v6_loop_chars fuel s ip ell ip' ell' : v6_loop fuel s ip ell = Some (EmptyString, ip', ell') -> all_chars addr_char s = true.
Proof.
  revert s ip ell. induction fuel as [|k IH]; intros s ip ell; cbn [v6_loop]; [by intros [= -> _ _]|].
  destruct (scan_hex s 0 0) as [[[acc off] rest]|] eqn:Es; [|done]. destruct (off =? 0)%nat; [done|]. cbv zeta. destruct rest as [|c rest1].
  - intros _. by eapply scan_hex_chars.
  - destruct (code c =? 46).
    + destruct (_ && _); [done|]. destruct (_ <? _)%nat; [done|]. destruct (v4_fields s 0 0 []) as [f|] eqn:Ef; [|done]. intros _. by eapply v4_fields_chars.
    + destruct (code c =? 58) eqn:Ec; [|done]. intros H. eapply scan_hex_chars; [exact Es|]. cbn. rewrite colon_addr_char by done. cbn.
      destruct rest1 as [|c2 rest2]; [done|]. destruct (code c2 =? 58) eqn:Ec2; [|by eapply IH]. cbn. rewrite colon_addr_char by done. cbn.
      destruct ell; [done|]. destruct rest2 as [|c3 rest3]; [done|by eapply IH].
Qed.

Lemma parse_addr_chars s b : parse_addr s = Some b -> all_chars addr_char s = true /\ s <> EmptyString.
Proof.
  intros H. split; [|by intros ->]. unfold parse_addr in H. destruct (first_special s) as [z|]; [|done].
  destruct (decide (z = 46)) as [->|H4]; [by eapply v4_fields_chars|].
  destruct (decide (z = 58)) as [->|H6]; [|exfalso; revert H; repeat case_match; congruence].
  unfold parse_v6 in H. case_match; [done|].
  assert (Hl : forall s', v6_loop 8 s' [] None ≫= v6_finish = Some b -> all_chars addr_char s' = true).
  { intros s'. destruct (v6_loop 8 s' [] None) as [[[r ip] ell]|] eqn:El; [|done]. cbn. destruct r; [|done]. intros _. by eapply v6_loop_chars. }
  destruct s as [|c [|c2 s2]]; [done|by apply Hl|]. destruct ((code c =? 58) && (code c2 =? 58)) eqn:Ec; [|by apply Hl].
  apply andb_true_iff in Ec as [E1 E2]. cbn. rewrite !colon_addr_char by done. cbn. destruct s2 as [|c3 s3]; [done|].
  destruct (v6_loop 8 (String c3 s3) [] (Some 0%nat)) as [[[r ip] ell]|] eqn:El; [|done]. cbn in H. destruct r; [|done]. by eapply v6_loop_chars.
Qed.

Lemma ParseIP_chars s : isNil (ParseIP s) = false -> all_chars addr_char s = true /\ s <> EmptyString.
Proof. unfold ParseIP. destruct (parse_addr s) as [b|] eqn:E; [|done]. intros _. by eapply parse_addr_chars. Qed.

Lemma dtoi_loop_chars s n i m j : dtoi_loop s n i = Some (m, j, EmptyString) -> all_chars is_digit s = true.
Proof.
  revert n i. induction s as [|c s IH]; intros n i; cbn; [done|]. destruct (is_digit c) eqn:Ed; [|done]. case_match; [done|]. intros Hs%IH. by rewrite Hs.
Qed.

Lemma Cut_parts c s a b : Cut c s = (a, b, true) -> s = a +:+ String c b.
Proof.
  revert a b. induction s as [|x s IH]; intros a b; cbn; [done|]. case_match eqn:Ex.
  - apply bool_decide_eq_true in Ex. intros [= <- <-]. by subst.
  - destruct (Cut c s) as [[a' b'] f] eqn:Ec. intros [= <- <- ->]. rewrite app_str_cons. f_equal. by apply IH.
Qed.

Lemma ParseCIDR_chars s : ParseCIDR s <> None -> all_chars (fun c => addr_char c || (code c =? 47)) s = true /\ s <> EmptyString.
Proof.
  intros H. split; [|by intros ->]. unfold ParseCIDR in H. destruct (Cut "/"%char s) as [[addr mask] found] eqn:Ec. destruct found; [|done]. cbn in H.
  destruct (parse_addr addr) as [ip|] eqn:Ea; [|done]. apply parse_addr_chars in Ea as [Ea _].
  unfold dtoi in H. destruct (dtoi_loop mask 0 0) as [[[n [|i]] rest]|] eqn:Ed; [done| |done]. destruct rest as [|? ?]; [|done].
  apply dtoi_loop_chars in Ed. apply Cut_parts in Ec as ->. rewrite all_chars_app. cbn.
  rewrite (all_chars_mono addr_char _ addr), (all_chars_mono is_digit _ mask); [done| |done| |done].
  - intros c Hc. by rewrite digit_addr_char.
  - intros c Hc. by rewrite Hc.
Qed.
