(* ===== verification/Ip.v ===== *)
(** * [pkg/ipam/ip.go]: addresses with arithmetic

    [IP] is Go's byte slice.  The numeric value [ipv] of an address is that
    of its 16-byte form, so an IPv4 address and its IPv4-in-IPv6 form have
    the same value.  Comparison and equality are comparison and equality of
    values; [Add] and [Sub] are addition and subtraction of values that wrap
    around inside the address family. *)
From Stdlib Require Import Ascii.
From S2P Require Import Prelude.
From S2P Require Import GoStrings.
From S2P Require Import GoNet.
From S2P Require Import GoNet.
From S2P Require Import GoNetText.

Local Open Scope Z_scope.

Abbreviation IP := (list Z).

(** ** Operations *)

Definition NewIP (s : string) : result IP :=
  let ip := ParseIP s in
  if isNil ip then Err (Errorf "invalid IP address %q" [s])
  else if negb (contains_char ":"%char s) then Ok (To4 ip) else Ok ip.

(** [make] and [copy]: a fresh slice with the same bytes. *)
Definition IP_Clone (a : IP) : IP := (fun b => b) <$> a.

Definition IP_Equal (a b : IP) : bool := netIP_Equal a b.

Definition IP_cmp (a b : IP) : Z :=
  let a4 := To4 a in
  let b4 := To4 b in
  if negb (isNil a4) && negb (isNil b4) then bytes_compare a4 b4
  else bytes_compare (To16 a) (To16 b).

Definition IP_LessThan (a b : IP) : bool := IP_cmp a b <? 0.
Definition IP_GreaterThan (a b : IP) : bool := 0 <? IP_cmp a b.

Definition bytes2IP (buff : bytes) (len : nat) : IP :=
  if (length buff <? len)%nat then replicate (len - length buff) 0 ++ buff
  else if (len <? length buff)%nat then drop (length buff - len) buff
  else buff.

Definition IP_Add (a : IP) (n : Z) : IP :=
  if negb (isNil (To4 a)) then bytes2IP (big_Bytes (be_val (To4 a) + n)) (length (To4 a))
  else bytes2IP (big_Bytes (be_val (To16 a) + n)) (length (To16 a)).

Definition IP_Sub (a : IP) (n : Z) : IP :=
  let i := be_val (To16 a) - n in
  let ipInt := if i <? 0 then i + 2 ^ 128 else i in
  if negb (isNil (To4 a)) then bytes2IP (big_Bytes ipInt) (length (To4 a))
  else bytes2IP (big_Bytes ipInt) (length (To16 a)).

Definition IP_String (a : IP) : string := netIP_String a.

(** ** Values *)

Definition ipv (a : IP) : Z := be_val (To16 a).

(** The values of IPv4 addresses. *)
Definition V4B : Z := 281470681743360.
Definition V4M : Z := 281474976710655.
Definition TOP : Z := 340282366920938463463374607431768211456.

Definition v4_val (v : Z) : bool := (V4B <=? v) && (v <=? V4M).

Lemma TOP_pow : TOP = 2 ^ 128. Proof. done. Qed.
Lemma TOP_256 : TOP = 256 ^ Z.of_nat 16. Proof. done. Qed.
Lemma V4B_prefix : V4B = be_val v4InV6Prefix * 256 ^ Z.of_nat 4. Proof. done. Qed.

Ltac consts := unfold V4B, V4M, TOP in *.

Lemma prefix_byte : Forall byte v4InV6Prefix.
Proof. repeat constructor; unfold byte; lia. Qed.

Lemma To16_valid a : valid_ip a -> Forall byte (To16 a) /\ length (To16 a) = 16%nat.
Proof.
  intros [Hb [Hl|Hl]].
  - rewrite To16_4 by done. split; [|rewrite length_app, Hl; done].
    apply Forall_app. split; [apply prefix_byte|done].
  - by rewrite To16_16.
Qed.

Lemma ipv_bound a : valid_ip a -> 0 <= ipv a < TOP.
Proof.
  intros [Hb Hl]%To16_valid. unfold ipv. rewrite TOP_256, <-Hl. by apply be_val_bound.
Qed.

Lemma be_val_To4 a : length a = 4%nat -> ipv a = V4B + be_val a.
Proof. intros Hl. unfold ipv. rewrite To16_4, be_val_app, Hl by done. by rewrite V4B_prefix. Qed.

(** The value decides the family. *)
Lemma To4_spec a : valid_ip a ->
  (v4_val (ipv a) = true /\ isNil (To4 a) = false /\ length (To4 a) = 4%nat /\
   Forall byte (To4 a) /\ be_val (To4 a) = ipv a - V4B /\ To16 a = v4InV6Prefix ++ To4 a) \/
  (v4_val (ipv a) = false /\ To4 a = [] /\ length a = 16%nat).
Proof.
  intros [Hb [Hl|Hl]].
  - left. rewrite To4_4, be_val_To4, To16_4 by done. pose proof (be_val_bound a Hb) as B.
    rewrite Hl in B. change (256 ^ Z.of_nat 4) with 4294967296 in B.
    unfold v4_val. consts. repeat split; auto; try lia. by destruct a.
  - rewrite To4_16 by done. case_bool_decide as Hp.
    + left. assert (Ld : length (drop 12 a) = 4%nat) by (rewrite length_drop; lia).
      assert (Ha : a = v4InV6Prefix ++ drop 12 a) by (rewrite <-Hp; by rewrite take_drop).
      assert (Hv : ipv a = V4B + be_val (drop 12 a)).
      { unfold ipv. rewrite To16_16 by done. rewrite Ha at 1. by rewrite be_val_app, Ld, V4B_prefix. }
      pose proof (be_val_bound (drop 12 a) (Forall_drop _ _ _ Hb)) as B.
      rewrite Ld in B. change (256 ^ Z.of_nat 4) with 4294967296 in B.
      rewrite Hv, To16_16, <-Ha by done. unfold v4_val. consts.
      repeat split; auto using Forall_drop; try lia. by destruct (drop 12 a).
    + right. split; [|done]. apply not_true_iff_false. intros Hv. apply Hp.
      unfold ipv in Hv. rewrite To16_16 in Hv by done. unfold v4_val in Hv.
      rewrite <-(take_drop 12 a) in Hv. rewrite be_val_app in Hv.
      assert (Ld : length (drop 12 a) = 4%nat) by (rewrite length_drop; lia).
      rewrite Ld in Hv. pose proof (be_val_bound (drop 12 a) (Forall_drop _ _ _ Hb)) as B.
      rewrite Ld in B. change (256 ^ Z.of_nat 4) with 4294967296 in *.
      apply be_val_inj; auto using Forall_take, prefix_byte; [by rewrite length_take, Hl|].
      change (be_val v4InV6Prefix) with 65535. consts. lia.
Qed.

(** ** Comparison *)

Lemma IP_cmp_val a b : valid_ip a -> valid_ip b ->
  IP_cmp a b = match ipv a ?= ipv b with Lt => -1 | Eq => 0 | Gt => 1 end.
Proof.
  intros Ha Hb. pose proof (To16_valid a Ha) as [Ba La]. pose proof (To16_valid b Hb) as [Bb Lb].
  assert (Hgen : bytes_compare (To16 a) (To16 b) =
    match ipv a ?= ipv b with Lt => -1 | Eq => 0 | Gt => 1 end)
    by (apply bytes_compare_val; auto; congruence).
  unfold IP_cmp. destruct (To4_spec a Ha) as [(Va & Na & L4a & B4a & Ea & _)|(Va & -> & _)];
    [|by rewrite Hgen].
  destruct (To4_spec b Hb) as [(Vb & Nb & L4b & B4b & Eb & _)|(Vb & -> & _)];
    rewrite Na; [rewrite Nb|by rewrite Hgen]. simpl.
  rewrite bytes_compare_val by (auto; congruence). rewrite Ea, Eb.
  unfold Z.sub. by rewrite !(Z.add_comm _ (- V4B)), Z.add_compare_mono_l.
Qed.

Lemma IP_LessThan_val a b : valid_ip a -> valid_ip b -> IP_LessThan a b = (ipv a <? ipv b).
Proof.
  intros Ha Hb. unfold IP_LessThan. rewrite IP_cmp_val by done. unfold Z.ltb at 2.
  by destruct (ipv a ?= ipv b).
Qed.

Lemma IP_GreaterThan_val a b : valid_ip a -> valid_ip b -> IP_GreaterThan a b = (ipv b <? ipv a).
Proof.
  intros Ha Hb. unfold IP_GreaterThan. rewrite IP_cmp_val by done. unfold Z.ltb at 2.
  rewrite (Z.compare_antisym (ipv a) (ipv b)). by destruct (ipv a ?= ipv b).
Qed.

Lemma To16_inj a b : valid_ip a -> valid_ip b -> ipv a = ipv b -> To16 a = To16 b.
Proof.
  intros [Ba La]%To16_valid [Bb Lb]%To16_valid H. apply be_val_inj; auto. congruence.
Qed.

Lemma IP_Equal_To16 a b : valid_ip a -> valid_ip b -> IP_Equal a b = bool_decide (To16 a = To16 b).
Proof.
  intros [Ba La] [Bb Lb]. unfold IP_Equal, netIP_Equal.
  destruct La as [La|La], Lb as [Lb|Lb]; rewrite La, Lb; simpl;
    rewrite ?(To16_4 a), ?(To16_4 b), ?(To16_16 a), ?(To16_16 b) by done.
  - apply bool_decide_ext. split; [congruence|]. by intros ?%app_inv_head.
  - destruct (bool_decide_reflect (take 12 b = v4InV6Prefix)) as [E|E]; cbn [andb]; apply eq_sym.
    + apply bool_decide_ext. rewrite <-(take_drop 12 b) at 1. rewrite E.
      split; [by intros ?%app_inv_head|congruence].
    + apply bool_decide_false. intros E'. apply E. by rewrite <-E'.
  - destruct (bool_decide_reflect (take 12 a = v4InV6Prefix)) as [E|E]; cbn [andb]; apply eq_sym.
    + apply bool_decide_ext. rewrite <-(take_drop 12 a) at 1. rewrite E.
      split; [by intros ?%app_inv_head|congruence].
    + apply bool_decide_false. intros E'. apply E. by rewrite E'.
  - done.
Qed.

Lemma IP_Equal_val a b : valid_ip a -> valid_ip b -> IP_Equal a b = (ipv a =? ipv b).
Proof.
  intros Ha Hb. rewrite IP_Equal_To16 by done.
  destruct (Z.eqb_spec (ipv a) (ipv b)) as [E|E].
  - rewrite bool_decide_true; [done|]. by apply To16_inj.
  - rewrite bool_decide_false; [done|]. intros E'. apply E. unfold ipv. by rewrite E'.
Qed.

(** ** Arithmetic *)

Lemma bytes2IP_spec buff n : Forall byte buff ->
  Forall byte (bytes2IP buff n) /\ length (bytes2IP buff n) = n /\
  be_val (bytes2IP buff n) = be_val buff mod 256 ^ Z.of_nat n.
Proof.
  intros H. pose proof (be_val_bound buff H) as B. unfold bytes2IP.
  destruct (Nat.ltb_spec (length buff) n); [|destruct (Nat.ltb_spec n (length buff))].
  - split; [apply Forall_app; auto using Forall_byte_zeros|].
    rewrite length_app, length_replicate. split; [lia|].
    rewrite be_val_app, be_val_zeros, Z.mod_small; [lia|].
    split; [lia|]. eapply Z.lt_le_trans; [apply B|]. apply Z.pow_le_mono_r; lia.
  - split; [by apply Forall_drop|]. rewrite length_drop. split; [lia|].
    rewrite be_val_drop by (auto; lia). do 2 f_equal. lia.
  - assert (length buff = n) by lia. subst. split; [done|]. split; [done|].
    by rewrite Z.mod_small.
Qed.

Lemma ipv_4 b : Forall byte b -> length b = 4%nat -> valid_ip b /\ ipv b = V4B + be_val b.
Proof. intros Hb Hl. split; [split; auto|]. by apply be_val_To4. Qed.

Lemma ipv_16 b : Forall byte b -> length b = 16%nat -> valid_ip b /\ ipv b = be_val b.
Proof. intros Hb Hl. split; [split; auto|]. unfold ipv. by rewrite To16_16. Qed.

Lemma IP_Add_val a n : valid_ip a -> 0 <= n ->
  valid_ip (IP_Add a n) /\
  length (IP_Add a n) = (if v4_val (ipv a) then 4%nat else 16%nat) /\
  ipv (IP_Add a n) = if v4_val (ipv a) then V4B + (ipv a - V4B + n) mod 2 ^ 32
                     else (ipv a + n) mod TOP.
Proof.
  intros Ha Hn. pose proof (ipv_bound a Ha). pose proof (To16_valid a Ha) as [_ L16].
  unfold IP_Add. destruct (To4_spec a Ha) as [(-> & -> & L4 & _ & E & _)|(-> & -> & _)]; simpl negb.
  - rewrite L4, E. cbv iota. destruct (bytes2IP_spec (big_Bytes (ipv a - V4B + n)) 4) as (B & L & V);
      [apply big_Bytes_byte|].
    destruct (ipv_4 _ B L) as [Hv ->]. split; [done|]. split; [done|].
    rewrite V, be_val_big_Bytes. change (256 ^ Z.of_nat 4) with (2 ^ 32).
    rewrite Z.abs_eq; [done|]. destruct (To4_spec a Ha) as [(_ & _ & _ & B4 & <- & _)|(_ & X & _)].
    + pose proof (be_val_bound _ B4). lia.
    + rewrite X in L4. done.
  - rewrite L16. cbv iota. fold (ipv a).
    destruct (bytes2IP_spec (big_Bytes (ipv a + n)) 16) as (B & L & V); [apply big_Bytes_byte|].
    destruct (ipv_16 _ B L) as [Hv ->]. split; [done|]. split; [done|].
    rewrite V, be_val_big_Bytes, <-TOP_256, Z.abs_eq by lia. done.
Qed.

Lemma IP_Sub_val a n : valid_ip a -> 0 <= n < TOP ->
  valid_ip (IP_Sub a n) /\
  length (IP_Sub a n) = (if v4_val (ipv a) then 4%nat else 16%nat) /\
  ipv (IP_Sub a n) = if v4_val (ipv a) then V4B + (ipv a - V4B - n) mod 2 ^ 32
                     else (ipv a - n) mod TOP.
Proof.
  intros Ha Hn. pose proof (ipv_bound a Ha) as Bd. pose proof (To16_valid a Ha) as [_ L16].
  unfold IP_Sub. fold (ipv a). set (i := if _ <? 0 then _ else _).
  assert (Hi : 0 <= i < TOP /\ i mod TOP = (ipv a - n) mod TOP).
  { subst i. rewrite <-TOP_pow. destruct (Z.ltb_spec (ipv a - n) 0); (split; [lia|]); [|done].
    by rewrite <-(Z.mul_1_l TOP) at 1; rewrite Z.mod_add. }
  destruct Hi as [Hi Hm]. clearbody i.
  destruct (To4_spec a Ha) as [(-> & -> & L4 & _)|(-> & -> & _)]; simpl negb.
  - rewrite L4. cbv iota. destruct (bytes2IP_spec (big_Bytes i) 4) as (B & L & V);
      [apply big_Bytes_byte|].
    destruct (ipv_4 _ B L) as [Hv ->]. split; [done|]. split; [done|].
    rewrite V, be_val_big_Bytes, Z.abs_eq by lia. change (256 ^ Z.of_nat 4) with (2 ^ 32).
    f_equal. rewrite <-(Z.mod_small i TOP) by done. rewrite Hm. rewrite TOP_pow. consts. zdm.
  - rewrite L16. cbv iota.
    destruct (bytes2IP_spec (big_Bytes i) 16) as (B & L & V); [apply big_Bytes_byte|].
    destruct (ipv_16 _ B L) as [Hv ->]. split; [done|]. split; [done|].
    by rewrite V, be_val_big_Bytes, <-TOP_256, Z.abs_eq by lia.
Qed.

(** ** Canonical addresses

    IPv4 addresses are kept in 4 bytes; the wrap-around points of [Add] and
    [Sub] and their neighbours across the family borders are not [safe].
    These are [0.0.0.0], [255.255.255.255], [::], the last IPv6 address and
    the two IPv6 addresses next to the IPv4-in-IPv6 block. *)

Definition canon (a : IP) : Prop :=
  valid_ip a /\ length a = if v4_val (ipv a) then 4%nat else 16%nat.

#[global] Instance canon_dec a : Decision (canon a).
Proof. unfold canon. apply _. Defined.

(** The block of values an address lies in: below IPv4, IPv4, above. *)
Definition zone (v : Z) : Z := if v <? V4B then 0 else if v <=? V4M then 1 else 2.

Definition safe (v : Z) : Prop :=
  0 < v < V4B - 1 \/ V4B < v < V4M \/ V4M + 1 < v < TOP - 1.

#[global] Instance safe_dec v : Decision (safe v).
Proof. unfold safe. apply _. Defined.

Lemma canon_valid a : canon a -> valid_ip a.
Proof. by intros [H _]. Qed.

Create HintDb ip.
#[export] Hint Resolve canon_valid : ip.

Lemma canon_inj a b : canon a -> canon b -> ipv a = ipv b -> a = b.
Proof.
  intros [Ha La] [Hb Lb] E. pose proof (To16_inj a b Ha Hb E) as H. rewrite <-E in Lb.
  destruct (v4_val (ipv a)).
  - rewrite !To16_4 in H by done. by apply app_inv_head in H.
  - by rewrite !To16_16 in H by done.
Qed.

(** The address of a value. *)
Definition ip_of (v : Z) : IP := if v4_val v then to_bytes 4 (v - V4B) else to_bytes 16 v.

Lemma ip_of_spec v : 0 <= v < TOP -> canon (ip_of v) /\ ipv (ip_of v) = v.
Proof.
  intros H. unfold ip_of. destruct (v4_val v) eqn:E.
  - destruct (ipv_4 (to_bytes 4 (v - V4B))) as [Hv Hi]; [apply to_bytes_byte|apply length_to_bytes|].
    assert (ipv (to_bytes 4 (v - V4B)) = v) as Ev.
    { rewrite Hi, be_val_to_bytes. unfold v4_val in E. change (256 ^ Z.of_nat 4) with 4294967296.
      consts. rewrite Z.mod_small; lia. }
    split; [|done]. split; [done|]. rewrite Ev, E. apply length_to_bytes.
  - destruct (ipv_16 (to_bytes 16 v)) as [Hv Hi]; [apply to_bytes_byte|apply length_to_bytes|].
    assert (ipv (to_bytes 16 v) = v) as Ev.
    { rewrite Hi, be_val_to_bytes. apply Z.mod_small. by rewrite <-TOP_256. }
    split; [|done]. split; [done|]. rewrite Ev, E. apply length_to_bytes.
Qed.

(** Away from the wrap-around points, successor and predecessor are exact. *)
Lemma IP_Add_safe a : canon a -> safe (ipv a) ->
  canon (IP_Add a 1) /\ ipv (IP_Add a 1) = ipv a + 1.
Proof.
  intros [Ha La] Hs. destruct (IP_Add_val a 1 Ha) as (Hv & Hl & He); [lia|].
  assert (E : ipv (IP_Add a 1) = ipv a + 1 /\ v4_val (ipv a + 1) = v4_val (ipv a)).
  { rewrite He. unfold safe in Hs. unfold v4_val in *. consts.
    destruct Hs as [Hs|[Hs|Hs]]; split; zbool; try lia; rewrite Z.mod_small; lia. }
  destruct E as [E1 E2]. split; [|done]. split; [done|]. by rewrite E1, E2, Hl.
Qed.

Lemma IP_Sub_safe a : canon a -> safe (ipv a) ->
  canon (IP_Sub a 1) /\ ipv (IP_Sub a 1) = ipv a - 1.
Proof.
  intros [Ha La] Hs. destruct (IP_Sub_val a 1 Ha) as (Hv & Hl & He); [consts; lia|].
  assert (E : ipv (IP_Sub a 1) = ipv a - 1 /\ v4_val (ipv a - 1) = v4_val (ipv a)).
  { rewrite He. unfold safe in Hs. unfold v4_val in *. consts.
    destruct Hs as [Hs|[Hs|Hs]]; split; zbool; try lia; rewrite Z.mod_small; lia. }
  destruct E as [E1 E2]. split; [|done]. split; [done|]. by rewrite E1, E2, Hl.
Qed.

(** ** Text *)

Lemma IP_String_inj a b : valid_ip a -> valid_ip b -> IP_String a = IP_String b -> ipv a = ipv b.
Proof.
  intros Ha Hb E. unfold ipv. rewrite <-(ParseIP_String a), <-(ParseIP_String b) by done.
  unfold IP_String in E. by rewrite E.
Qed.

Lemma IP_String_canon_inj a b : canon a -> canon b -> IP_String a = IP_String b -> a = b.
Proof. intros Ha Hb E. apply canon_inj; auto. apply IP_String_inj; auto with ip. Qed.

Lemma NewIP_valid s a : NewIP s = Ok a ->
  valid_ip a /\ (contains_char ":"%char s = false -> length a = 4%nat).
Proof.
  unfold NewIP, ParseIP. destruct (parse_addr s) as [r|] eqn:E; [|done].
  apply parse_addr_valid in E as [Hv H4]. destruct (isNil (To16 r)); [done|].
  destruct (contains_char _ s); simpl.
  - intros [= <-]. split; [|done]. destruct (To16_valid r Hv). split; auto.
  - specialize (H4 eq_refl). intros [= <-]. rewrite To16_4 by done.
    assert (To4 (v4InV6Prefix ++ r) = r) as ->.
    { rewrite To4_16 by (rewrite length_app, H4; done). rewrite bool_decide_true by done. done. }
    split; [done|]. intros _. done.
Qed.

(** An address is read back from its text. *)
Lemma NewIP_String a : canon a -> NewIP (IP_String a) = Ok a.
Proof.
  intros [Hv Hl]. unfold NewIP, IP_String. rewrite ParseIP_String by done.
  destruct (To16_valid a Hv) as [_ L16].
  destruct (isNil (To16 a)) eqn:En; [by destruct (To16 a)|].
  unfold netIP_String. destruct (isNil a) eqn:Ea; [by destruct a, (v4_val (ipv []))|].
  destruct (To4_spec a Hv) as [(Ev & N4 & L4 & B4 & E4 & T)|(Ev & T & L)]; rewrite Ev in Hl.
  - rewrite Hl. simpl. rewrite L4. simpl. rewrite (all_chars_not_contains v4_char);
      [|done|by apply string4_chars]. simpl. rewrite T.
    rewrite To4_16 by (rewrite length_app, L4; done). rewrite bool_decide_true by done.
    change (drop 12 (v4InV6Prefix ++ To4 a)) with (To4 a). by rewrite To4_4.
  - rewrite Hl, T. simpl. rewrite string6_has_colon by done. simpl. by rewrite To16_16.
Qed.
