(* ===== verification/IpRange.v ===== *)
(** * [pkg/ipam/ip_range.go]: closed intervals of addresses *)
From S2P Require Import Prelude.
From S2P Require Import GoStrings.
From S2P Require Import GoNet.
From S2P Require Import GoNet.
From S2P Require Import GoNetText.
From S2P Require Import Ip.

Local Open Scope Z_scope.

Record IPRange := NewIPRange { r_start : IP; r_end : IP }.

#[global] Instance IPRange_eq_dec : EqDecision IPRange.
Proof. solve_decision. Defined.

(** ** Operations *)

(** The mask has one byte per byte of the address, as in every network that
    [net.ParseCIDR] returns. *)
Definition NewIPRangeFromCIDR (cidr : IPNet) : IPRange :=
  let start := match NewIP (netIP_String (netIP_Mask (nIP cidr) (nMask cidr))) with
               | Ok ip => ip
               | Err _ => []
               end in
  NewIPRange start (zip_with (fun s m => Z.lor s (Z.lxor 255 m)) start (nMask cidr)).

Definition IPRange_Clone (r : IPRange) : IPRange :=
  NewIPRange (IP_Clone (r_start r)) (IP_Clone (r_end r)).

Definition IPRange_SetStart (r : IPRange) (ip : IP) : IPRange := NewIPRange ip (r_end r).
Definition IPRange_SetEnd (r : IPRange) (ip : IP) : IPRange := NewIPRange (r_start r) ip.

Definition IPRange_Count (r : IPRange) : Z := be_val (r_end r) - be_val (r_start r) + 1.

(** [draw] is what [rand.Int] returns for the size of the range. *)
Definition IPRange_Random (r : IPRange) (draw : Z) : IP :=
  bytes2IP (big_Bytes (be_val (r_start r) + draw)) (length (r_start r)).

Definition IPRange_Contains (r : IPRange) (ip : IP) : bool :=
  negb (IP_GreaterThan (r_start r) ip) && negb (IP_LessThan (r_end r) ip).

(** The range after the call, and whether it grew. *)
Definition IPRange_Add (r : IPRange) (ip : IP) : IPRange * bool :=
  let newStart := IP_Sub (r_start r) 1 in
  if IP_Equal newStart ip then (IPRange_SetStart r newStart, true)
  else let newEnd := IP_Add (r_end r) 1 in
       if IP_Equal newEnd ip then (IPRange_SetEnd r newEnd, true)
       else (r, false).

Definition IPRange_Remove (r : IPRange) (ip : IP) : list IPRange * bool :=
  if negb (IPRange_Contains r ip) then ([], false)
  else
    let r1 := NewIPRange (r_start r) (IP_Sub ip 1) in
    let r2 := NewIPRange (IP_Add ip 1) (r_end r) in
    ((if negb (IP_GreaterThan (r_start r1) (r_end r1)) then [r1] else []) ++
     (if negb (IP_GreaterThan (r_start r2) (r_end r2)) then [r2] else []), true).

Definition IPRange_String (r : IPRange) : string :=
  if IP_Equal (r_start r) (r_end r) then IP_String (r_start r)
  else IP_String (r_start r) +:+ "-" +:+ IP_String (r_end r).

(** ** Well-formed ranges *)

Abbreviation lo r := (ipv (r_start r)).
Abbreviation hi r := (ipv (r_end r)).

(** Canonical bounds in one block of values, away from its borders. *)
Record range_ok (r : IPRange) : Prop := {
  ok_start : canon (r_start r);
  ok_end : canon (r_end r);
  ok_le : lo r <= hi r;
  ok_safe_start : safe (lo r);
  ok_safe_end : safe (hi r);
  ok_zone : zone (lo r) = zone (hi r)
}.

#[global] Instance range_ok_dec r : Decision (range_ok r).
Proof.
  destruct (decide (canon (r_start r) /\ canon (r_end r) /\ lo r <= hi r /\
    safe (lo r) /\ safe (hi r) /\ zone (lo r) = zone (hi r))) as [(?&?&?&?&?&?)|H].
  - left. by constructor.
  - right. intros []. apply H. done.
Defined.

#[export] Hint Resolve ok_start ok_end ok_safe_start ok_safe_end : ip.

Lemma IP_Clone_id a : IP_Clone a = a.
Proof. apply list_fmap_id. Qed.

Lemma IPRange_Clone_id r : IPRange_Clone r = r.
Proof. unfold IPRange_Clone. rewrite !IP_Clone_id. by destruct r. Qed.

Lemma safe_bound v : safe v -> 0 < v < TOP - 1.
Proof. unfold safe. consts. lia. Qed.

(** Values between two safe values of a block are safe and in the block. *)
Lemma safe_between a b v :
  safe a -> safe b -> zone a = zone b -> a <= v <= b -> safe v /\ zone v = zone a.
Proof. unfold safe, zone. consts. intros. zbool; lia. Qed.

Lemma range_ok_in r v : range_ok r -> lo r <= v <= hi r -> safe v /\ zone v = zone (lo r).
Proof. intros []. by apply safe_between. Qed.

Lemma safe_zone_succ v : safe v -> zone (v + 1) = zone v.
Proof. unfold safe, zone. consts. intros. zbool; lia. Qed.

Lemma range_ok_mk a b :
  canon a -> canon b -> ipv a <= ipv b -> safe (ipv a) -> safe (ipv b) ->
  zone (ipv a) = zone (ipv b) -> range_ok (NewIPRange a b).
Proof. by constructor. Qed.

(** A part of a well-formed range is well formed. *)
Lemma range_ok_sub r a b :
  range_ok r -> canon a -> canon b -> lo r <= ipv a -> ipv a <= ipv b -> ipv b <= hi r ->
  range_ok (NewIPRange a b).
Proof.
  intros Hr Ha Hb H1 H2 H3.
  destruct (range_ok_in r (ipv a) Hr), (range_ok_in r (ipv b) Hr); [lia..|].
  apply range_ok_mk; auto. congruence.
Qed.

Lemma range_ok_single a : canon a -> safe (ipv a) -> range_ok (NewIPRange a a).
Proof. intros. apply range_ok_mk; auto; lia. Qed.

(** ** Behaviour *)

Lemma IPRange_Contains_val r ip : range_ok r -> valid_ip ip ->
  IPRange_Contains r ip = (lo r <=? ipv ip) && (ipv ip <=? hi r).
Proof.
  intros [] Hip. unfold IPRange_Contains.
  rewrite IP_GreaterThan_val, IP_LessThan_val by auto with ip. zbool; lia.
Qed.

Lemma IPRange_Add_spec r ip : range_ok r -> canon ip ->
  IPRange_Add r ip =
  if ipv ip =? lo r - 1 then (NewIPRange ip (r_end r), true)
  else if ipv ip =? hi r + 1 then (NewIPRange (r_start r) ip, true)
  else (r, false).
Proof.
  intros [] Hip. unfold IPRange_Add.
  destruct (IP_Sub_safe (r_start r)) as [C1 E1]; [done..|].
  destruct (IP_Add_safe (r_end r)) as [C2 E2]; [done..|].
  rewrite !IP_Equal_val by auto with ip. rewrite E1, E2.
  rewrite (Z.eqb_sym (lo r - 1)), (Z.eqb_sym (hi r + 1)).
  unfold IPRange_SetStart, IPRange_SetEnd.
  destruct (Z.eqb_spec (ipv ip) (lo r - 1)).
  { by rewrite (canon_inj (IP_Sub (r_start r) 1) ip) by (auto; lia). }
  destruct (Z.eqb_spec (ipv ip) (hi r + 1)); [|done].
  by rewrite (canon_inj (IP_Add (r_end r) 1) ip) by (auto; lia).
Qed.

Lemma IPRange_Remove_spec r ip : range_ok r -> canon ip -> lo r <= ipv ip <= hi r ->
  IPRange_Remove r ip =
  ((if lo r <? ipv ip then [NewIPRange (r_start r) (IP_Sub ip 1)] else []) ++
   (if ipv ip <? hi r then [NewIPRange (IP_Add ip 1) (r_end r)] else []), true).
Proof.
  intros Hr Hip Hin. destruct (range_ok_in r (ipv ip) Hr Hin) as [Hs _]. destruct Hr.
  destruct (IP_Sub_safe ip) as [C1 E1]; [done..|].
  destruct (IP_Add_safe ip) as [C2 E2]; [done..|].
  unfold IPRange_Remove. rewrite IPRange_Contains_val by (auto with ip; by constructor).
  replace ((lo r <=? ipv ip) && (ipv ip <=? hi r)) with true by lia. cbn [negb].
  rewrite !IP_GreaterThan_val by (cbn [r_start r_end]; auto with ip). cbn [r_start r_end].
  rewrite E1, E2. do 2 f_equal; zbool; auto; lia.
Qed.

(** The number of addresses of a range. *)
Lemma IPRange_Count_spec r : range_ok r -> IPRange_Count r = hi r - lo r + 1.
Proof.
  intros [[Hs Ls] [He Le] Hle Ss Se Hz]. unfold IPRange_Count.
  assert (Hv : v4_val (lo r) = v4_val (hi r)).
  { unfold zone in Hz. unfold v4_val. zbool; lia. }
  destruct (To4_spec (r_start r) Hs) as [(V1 & _ & _ & _ & E1 & _)|(V1 & _ & L1)],
    (To4_spec (r_end r) He) as [(V2 & _ & _ & _ & E2 & _)|(V2 & _ & L2)]; try congruence.
  - rewrite V1 in Ls. rewrite V2 in Le. rewrite To4_4 in E1, E2 by done. lia.
  - unfold ipv. by rewrite !To16_16.
Qed.
