(* ===== verification/IpRangeListFacts.v ===== *)
(** * Range lists implement finite sets of addresses

    The invariant [wf], the set [mem] of a list, and for each operation of
    [IpRangeList] that it keeps [wf] and computes the set it promises. *)
From S2P Require Import Prelude.
From S2P Require Import GoStrings.
From S2P Require Import GoNet.
From S2P Require Import GoNet.
From S2P Require Import GoNetText.
From S2P Require Import Ip.
From S2P Require Import IpRange.
From S2P Require Import IpRangeList.

Local Open Scope Z_scope.

(** ** The invariant and the set of a list *)

(** Sorted, disjoint and not adjacent, everything above [b]. *)
Fixpoint chain (b : Z) (l : IPRangeList) : Prop :=
  match l with
  | [] => True
  | r :: l' => b < lo r /\ range_ok r /\ chain (hi r + 1) l'
  end.

Definition wf (l : IPRangeList) : Prop := chain (-1) l.

#[global] Instance chain_dec b l : Decision (chain b l).
Proof.
  revert b. induction l as [|r l IH]; intros b; simpl; apply _.
Defined.

#[global] Instance wf_dec l : Decision (wf l).
Proof. apply chain_dec. Defined.

(** The values of the addresses of the list. *)
Fixpoint mem (l : IPRangeList) (v : Z) : Prop :=
  match l with
  | [] => False
  | r :: l' => lo r <= v <= hi r \/ mem l' v
  end.

#[global] Instance mem_dec l v : Decision (mem l v).
Proof. induction l as [|r l IH]; simpl; apply _. Defined.

#[global] Typeclasses Opaque mem.

(** The bound left for what follows [l]. *)
Fixpoint bound_after (b : Z) (l : IPRangeList) : Z :=
  match l with [] => b | r :: l' => bound_after (hi r + 1) l' end.

Lemma chain_app b p q : chain b (p ++ q) <-> chain b p /\ chain (bound_after b p) q.
Proof.
  revert b. induction p as [|r p IH]; intros b; simpl; [tauto|]. rewrite IH. tauto.
Qed.

Lemma bound_after_app b p q : bound_after b (p ++ q) = bound_after (bound_after b p) q.
Proof. revert b. induction p; intros; simpl; auto. Qed.

Lemma mem_app p q v : mem (p ++ q) v <-> mem p v \/ mem q v.
Proof. induction p as [|r p IH]; simpl; [tauto|]. rewrite IH. tauto. Qed.

Lemma chain_weaken b b' l : chain b l -> b' <= b -> chain b' l.
Proof. destruct l as [|r l]; simpl; [done|]. intros (? & ? & ?) ?. split; [lia|done]. Qed.

Lemma chain_mem b l v : chain b l -> mem l v -> b < v.
Proof.
  revert b. induction l as [|r l IH]; intros b; simpl; [done|].
  intros (Hb & Hr & Hc) [H|H]; [lia|]. specialize (IH _ Hc H). destruct Hr. lia.
Qed.

Lemma bound_after_ge b l : chain b l -> b <= bound_after b l.
Proof.
  revert b. induction l as [|r l IH]; intros b; simpl; [lia|].
  intros (Hb & [] & Hc). specialize (IH _ Hc). lia.
Qed.

Lemma chain_mem_bound b l v : chain b l -> mem l v -> v < bound_after b l.
Proof.
  revert b. induction l as [|r l IH]; intros b; simpl; [done|].
  intros (Hb & Hr & Hc) [H|H]; [|eauto]. pose proof (bound_after_ge _ _ Hc). lia.
Qed.

Lemma chain_in b l r : chain b l -> r ∈ l -> range_ok r.
Proof.
  revert b. induction l as [|a l IH]; intros b; [by intros _ ?%elem_of_nil|].
  simpl. intros (_ & Ha & Hc) [->|H]%elem_of_cons; eauto.
Qed.

Lemma wf_mem_safe l v : wf l -> mem l v -> safe v.
Proof.
  unfold wf. generalize (-1) as b. induction l as [|r l IH]; intros b; simpl; [done|].
  intros (_ & Hr & Hc) [H|H]; [|eauto]. by apply (range_ok_in r v Hr H).
Qed.

Lemma wf_nil : wf []. Proof. done. Qed.

Lemma wf_of_chain b l : chain b l -> wf l.
Proof.
  destruct l as [|r l]; [done|]. unfold wf. simpl. intros (_ & Hr & Hc).
  split; [|done]. destruct Hr as [_ _ _ Hs _ _]. apply safe_bound in Hs. lia.
Qed.

(** A range with a gap before it extends to a chain. *)
Lemma wf_single r : range_ok r -> wf [r].
Proof. intros Hr. apply (wf_of_chain (lo r - 1)). simpl. split; [lia|done]. Qed.

Lemma wf_mem_nonempty l : wf l -> (forall v, ~ mem l v) -> l = [].
Proof.
  destruct l as [|r l]; [done|]. intros (_ & Hr & _) H. destruct (H (lo r)).
  left. destruct Hr. lia.
Qed.

(** Two well-formed lists with the same set are equal. *)
Lemma chain_ext b b' l l' :
  chain b l -> chain b' l' -> (forall v, mem l v <-> mem l' v) -> l = l'.
Proof.
  revert b b' l'. induction l as [|r l IH]; intros b b' [|r' l'] H H' E.
  - done.
  - destruct H' as (_ & Hr' & _). exfalso. apply (E (lo r')). left. destruct Hr'. lia.
  - destruct H as (_ & Hr & _). exfalso. apply (E (lo r)). left. destruct Hr. lia.
  - destruct H as (_ & Hr & Hc), H' as (_ & Hr' & Hc').
    pose proof (ok_le _ Hr). pose proof (ok_le _ Hr').
    pose proof (fun v => chain_mem _ l v Hc) as M. pose proof (fun v => chain_mem _ l' v Hc') as M'.
    assert (Elo : lo r = lo r').
    { pose proof (E (lo r)) as E1. pose proof (E (lo r')) as E2. simpl in E1, E2.
      destruct (proj1 E1) as [?|X1]; [lia| |apply M' in X1];
        (destruct (proj2 E2) as [?|X2]; [lia| |apply M in X2]; lia). }
    assert (Ehi : hi r = hi r').
    { destruct (Z.lt_trichotomy (hi r) (hi r')) as [Hl|[?|Hl]]; [|done|]; exfalso.
      - destruct (proj2 (E (hi r + 1))) as [?|X]; [left; lia|lia|]. apply M in X. lia.
      - destruct (proj1 (E (hi r' + 1))) as [?|X]; [left; lia|lia|]. apply M' in X. lia. }
    assert (r = r') as <-.
    { destruct r, r', Hr, Hr'; simpl in *. f_equal; by apply canon_inj. }
    f_equal. apply (IH (hi r + 1) (hi r + 1)); auto. intros v. split; intros Hv.
    + destruct (proj1 (E v)) as [?|?]; [by right| |done]. apply M in Hv. lia.
    + destruct (proj2 (E v)) as [?|?]; [by right| |done]. apply M' in Hv. lia.
Qed.

Lemma wf_ext l l' : wf l -> wf l' -> (forall v, mem l v <-> mem l' v) -> l = l'.
Proof. apply chain_ext. Qed.

Lemma IPRangeList_Clone_id l : IPRangeList_Clone l = l.
Proof.
  unfold IPRangeList_Clone. induction l as [|r l IH]; [done|].
  cbn [fmap list_fmap]. by rewrite IPRange_Clone_id, IH.
Qed.

(** ** Find *)

Lemma find_loop_spec fuel cmp n m i j :
  (forall k, (k < m)%nat -> 0 < cmp k) -> (forall k, (m <= k < n)%nat -> cmp k <= 0) ->
  (i <= m <= j)%nat -> (j <= n)%nat -> (j - i <= fuel)%nat -> find_loop fuel cmp i j = m.
Proof.
  intros Hlt Hge. revert i j. induction fuel as [|fuel IH]; intros i j Hm Hj Hf; cbn [find_loop].
  - lia.
  - destruct (Nat.ltb_spec i j); [|lia]. cbv zeta.
    assert (Hh : (i <= (i + j) / 2 < j)%nat).
    { split; [apply Nat.div_le_lower_bound; lia|apply Nat.Div0.div_lt_upper_bound; lia]. }
    destruct (Z.ltb_spec 0 (cmp ((i + j) / 2)%nat)) as [Hc|Hc].
    + apply IH; try lia. split; [|lia].
      destruct (le_lt_dec m ((i + j) / 2)); [|lia]. pose proof (Hge ((i + j) / 2)%nat). lia.
    + apply IH; try lia. split; [lia|].
      destruct (le_lt_dec m ((i + j) / 2)); [lia|]. pose proof (Hlt ((i + j) / 2)%nat). lia.
Qed.

(** The ranges that end before [v], and the others. *)
Fixpoint split_before (v : Z) (l : IPRangeList) : IPRangeList * IPRangeList :=
  match l with
  | [] => ([], [])
  | r :: l' => if hi r <? v then let '(p, q) := split_before v l' in (r :: p, q) else ([], l)
  end.

Lemma split_before_app v l p q : split_before v l = (p, q) -> l = p ++ q.
Proof.
  revert p q. induction l as [|r l IH]; intros p q; simpl; [by intros [= <- <-]|].
  destruct (hi r <? v); [|by intros [= <- <-]].
  destruct (split_before v l) as [p' q'] eqn:E. intros [= <- <-]. simpl. f_equal. by apply IH.
Qed.

Lemma split_before_pre v l p q :
  split_before v l = (p, q) -> Forall (fun r => hi r < v) p.
Proof.
  revert p q. induction l as [|r l IH]; intros p q; simpl; [by intros [= <- <-]|].
  destruct (Z.ltb_spec (hi r) v); [|by intros [= <- <-]].
  destruct (split_before v l) as [p' q'] eqn:E. intros [= <- <-]. constructor; eauto.
Qed.

Lemma chain_hi_ge b l v : chain b l -> v <= b -> Forall (fun r => v <= hi r) l.
Proof.
  revert b. induction l as [|r l IH]; intros b; simpl; [done|]. intros (Hb & [] & Hc) Hv.
  constructor; [lia|]. apply (IH (hi r + 1)); [done|lia].
Qed.

Lemma split_before_post v l p q b :
  split_before v l = (p, q) -> chain b l -> Forall (fun r => v <= hi r) q.
Proof.
  revert p q b. induction l as [|r l IH]; intros p q b; simpl; [by intros [= <- <-]|].
  destruct (Z.ltb_spec (hi r) v).
  - destruct (split_before v l) as [p' q'] eqn:E. intros [= <- <-] (_ & _ & Hc). eauto.
  - intros [= <- <-] (_ & Hr & Hc). constructor; [done|]. eapply chain_hi_ge; [done|lia].
Qed.

(** Where [Find] stops: after the ranges [p] that end before [ip]; the
    address is found when the next range starts at or before it. *)
Lemma IPRangeList_Find_spec b l ip p q :
  chain b l -> valid_ip ip -> split_before (ipv ip) l = (p, q) ->
  IPRangeList_Find l ip =
  (length p, match q with r :: _ => lo r <=? ipv ip | [] => false end).
Proof.
  intros Hc Hip Hs. pose proof (split_before_app _ _ _ _ Hs) as E.
  pose proof (split_before_pre _ _ _ _ Hs) as Hp. pose proof (split_before_post _ _ _ _ _ Hs Hc) as Hq.
  assert (Hok : forall r, r ∈ l -> range_ok r) by (intros; by eapply chain_in).
  assert (Hcmp : forall i r, l !! i = Some r ->
    find_cmp l ip i = if ipv ip <? lo r then -1 else if hi r <? ipv ip then 1 else 0).
  { intros i r Hi. unfold find_cmp. rewrite Hi.
    apply list_elem_of_lookup_2, Hok in Hi as Hr. destruct Hr.
    by rewrite IP_GreaterThan_val, IP_LessThan_val by auto with ip. }
  assert (Hfind : find_loop (length l) (find_cmp l ip) 0 (length l) = length p).
  { apply (find_loop_spec _ _ (length l)); try lia.
    - intros k Hk. destruct (lookup_lt_is_Some_2 p k Hk) as [r Hr].
      assert (Hl : l !! k = Some r) by (rewrite E; by apply lookup_app_l_Some).
      rewrite (Hcmp k r Hl). rewrite Forall_lookup in Hp. specialize (Hp _ _ Hr). simpl in Hp.
      pose proof (Hok r (list_elem_of_lookup_2 _ _ _ Hl)) as []. zbool; lia.
    - intros k Hk. destruct (lookup_lt_is_Some_2 l k) as [r Hl]; [lia|].
      rewrite (Hcmp k r Hl). rewrite E, lookup_app_r in Hl by lia.
      rewrite Forall_lookup in Hq. specialize (Hq _ _ Hl). simpl in Hq. zbool; lia.
    - rewrite E, length_app. lia. }
  unfold IPRangeList_Find, sort_Find. rewrite Hfind. f_equal.
  destruct q as [|r q].
  - rewrite E, app_nil_r. by rewrite Nat.ltb_irrefl.
  - assert (Hl : l !! length p = Some r) by (rewrite E; by apply list_lookup_middle).
    rewrite (Hcmp _ _ Hl). inversion Hq; subst.
    replace (length p <? length (p ++ r :: q))%nat with true
      by (symmetry; apply Nat.ltb_lt; rewrite length_app; simpl; lia). zbool; lia.
Qed.

(** The set in terms of the split. *)
Lemma split_mem_pre v p : Forall (fun r => hi r < v) p -> ~ mem p v.
Proof. induction 1 as [|r p Hr _ IH]; simpl; [tauto|]. intros [?|?]; [lia|tauto]. Qed.

Lemma split_mem b l v p q :
  chain b l -> split_before v l = (p, q) ->
  (mem l v <-> match q with r :: _ => lo r <= v | [] => False end).
Proof.
  intros Hc Hs. rewrite (split_before_app _ _ _ _ Hs), mem_app.
  pose proof (split_mem_pre _ _ (split_before_pre _ _ _ _ Hs)) as Hp.
  pose proof (split_before_post _ _ _ _ _ Hs Hc) as Hq.
  pose proof Hc as Hc'. rewrite (split_before_app _ _ _ _ Hs), chain_app in Hc'.
  destruct Hc' as [_ Hc']. destruct q as [|r q]; simpl; [tauto|].
  inversion Hq; subst. destruct Hc' as (_ & Hr & Hc').
  split; [|intros; right; left; lia].
  intros [?|[?|H]]; [tauto|lia|]. apply (chain_mem _ _ _ Hc') in H. lia.
Qed.

Lemma IPRangeList_Contains_mem l ip :
  wf l -> valid_ip ip -> IPRangeList_Contains l ip = bool_decide (mem l (ipv ip)).
Proof.
  intros Hl Hip. destruct (split_before (ipv ip) l) as [p q] eqn:Hs.
  unfold IPRangeList_Contains. rewrite (IPRangeList_Find_spec _ _ _ _ _ Hl Hip Hs). simpl.
  pose proof (split_mem _ _ _ _ _ Hl Hs) as Hm. destruct q as [|r q].
  - symmetry. apply bool_decide_false. tauto.
  - destruct (Z.leb_spec (lo r) (ipv ip)); symmetry;
      [apply bool_decide_true; tauto|apply bool_decide_false; rewrite Hm; lia].
Qed.

(** ** Add *)

Lemma add_at_middle p r q ip :
  add_at (p ++ r :: q) (length p) ip =
  let '(r', grew) := IPRange_Add r ip in if grew then Some (p ++ r' :: q) else None.
Proof.
  unfold add_at. rewrite list_lookup_middle by done. simpl.
  destruct (IPRange_Add r ip) as [r' []]; [|done]. f_equal.
  rewrite insert_app_r_alt by lia. by rewrite Nat.sub_diag.
Qed.

Lemma join_at_middle p a b q :
  join_at (p ++ a :: b :: q) (S (length p)) =
  if IP_Equal (IP_Add (r_end a) 1) (r_start b)
  then p ++ NewIPRange (r_start a) (r_end b) :: q else p ++ a :: b :: q.
Proof.
  unfold join_at. replace (1 <=? S (length p))%nat with true by done.
  replace (S (length p) <? length (p ++ a :: b :: q))%nat with true
    by (symmetry; apply Nat.ltb_lt; rewrite length_app; simpl; lia). cbn [andb].
  replace (S (length p) - 1)%nat with (length p) by lia.
  rewrite list_lookup_middle by done.
  rewrite (lookup_app_r p) by lia. replace (S (length p) - length p)%nat with 1%nat by lia.
  simpl. destruct (IP_Equal _ _); [|done].
  rewrite insert_app_r_alt by lia. rewrite Nat.sub_diag. simpl. unfold delete_at.
  rewrite take_app_ge by lia. rewrite drop_app_ge by lia.
  replace (S (length p) - length p)%nat with 1%nat by lia.
  replace (S (S (length p)) - length p)%nat with 2%nat by lia. simpl. by rewrite <-app_assoc.
Qed.

Lemma join_at_end p a : join_at (p ++ [a]) (S (length p)) = p ++ [a].
Proof.
  unfold join_at. replace (S (length p) <? length (p ++ [a]))%nat with false; [by rewrite andb_false_r|].
  symmetry. apply Nat.ltb_ge. rewrite length_app. simpl. lia.
Qed.

Lemma join_at_0 l : join_at l 0 = l.
Proof. done. Qed.

(** What [Add] makes of the ranges next to the new address. *)
Definition add_left (p : IPRangeList) (ip : IP) (q : IPRangeList) : IPRangeList :=
  match q with
  | b :: q' => if ipv ip =? lo b - 1 then p ++ NewIPRange ip (r_end b) :: q'
               else p ++ NewIPRange ip ip :: q
  | [] => p ++ [NewIPRange ip ip]
  end.

Definition add_result (p : IPRangeList) (ip : IP) (q : IPRangeList) : IPRangeList :=
  match last p with
  | Some a =>
      if ipv ip =? hi a + 1 then
        let p' := take (length p - 1) p in
        match q with
        | b :: q' => if ipv ip + 1 =? lo b then p' ++ NewIPRange (r_start a) (r_end b) :: q'
                     else p' ++ NewIPRange (r_start a) ip :: q
        | [] => p' ++ [NewIPRange (r_start a) ip]
        end
      else add_left p ip q
  | None => add_left p ip q
  end.

(** Growing the right neighbour. *)
Lemma add_at_right p ip q :
  canon ip -> Forall range_ok q -> (forall b q', q = b :: q' -> ipv ip < lo b) ->
  (if (length p <? length (p ++ q))%nat then add_at (p ++ q) (length p) ip else None) =
  match q with
  | b :: q' => if ipv ip =? lo b - 1 then Some (p ++ NewIPRange ip (r_end b) :: q') else None
  | [] => None
  end.
Proof.
  intros Hip Hq Hlt. destruct q as [|b q].
  - by rewrite app_nil_r, Nat.ltb_irrefl.
  - replace (length p <? length (p ++ b :: q))%nat with true
      by (symmetry; apply Nat.ltb_lt; rewrite length_app; simpl; lia).
    inversion Hq as [|? ? Hb _]; subst. specialize (Hlt _ _ eq_refl).
    rewrite add_at_middle, IPRange_Add_spec by done. pose proof (ok_le _ Hb). zbool; auto; lia.
Qed.

(** A grown right neighbour does not touch a left one further away. *)
Lemma join_at_apart p ip c q :
  canon ip -> Forall range_ok p -> (forall a, last p = Some a -> hi a + 1 <> ipv ip) ->
  join_at (p ++ NewIPRange ip c :: q) (length p) = p ++ NewIPRange ip c :: q.
Proof.
  intros Hip Hp Ha. induction p as [|a p _] using rev_ind; [done|].
  apply Forall_app in Hp as [_ Hp]. inversion Hp as [|? ? Hok _]; subst.
  rewrite length_app, <-app_assoc. cbn [length app].
  replace (length p + 1)%nat with (S (length p)) by lia. rewrite join_at_middle. cbn [r_start].
  destruct (IP_Add_safe (r_end a)) as [C E]; [apply Hok..|].
  rewrite IP_Equal_val by auto with ip. rewrite E.
  destruct (Z.eqb_spec (hi a + 1) (ipv ip)) as [Eq|]; [|done].
  by apply Ha in Eq; [|by rewrite last_snoc].
Qed.

(** The right-hand side of [Add] when the left neighbour does not grow. *)
Lemma add_right_result p ip q :
  canon ip -> Forall range_ok p -> Forall range_ok q ->
  (forall b q', q = b :: q' -> ipv ip < lo b) ->
  (forall a, last p = Some a -> hi a + 1 <> ipv ip) ->
  match (if (length p <? length (p ++ q))%nat then add_at (p ++ q) (length p) ip else None) with
  | Some l' => (join_at l' (length p), true)
  | None => (take (length p) (p ++ q) ++ NewIPRange ip ip :: drop (length p) (p ++ q), true)
  end = (add_left p ip q, true).
Proof.
  intros Hip Hp Hq Hlt Ha. rewrite add_at_right, take_app_length, drop_app_length by done.
  unfold add_left. destruct q as [|b q]; [done|].
  destruct (_ =? _); [|done]. by rewrite join_at_apart.
Qed.

Lemma IPRangeList_Add_result b l ip p q :
  chain b l -> canon ip -> safe (ipv ip) -> ~ mem l (ipv ip) ->
  split_before (ipv ip) l = (p, q) ->
  IPRangeList_Add l ip = (add_result p ip q, true).
Proof.
  intros Hc Hip Hsafe Hm Hs. unfold IPRangeList_Add.
  rewrite (IPRangeList_Find_spec _ _ _ _ _ Hc (canon_valid _ Hip) Hs).
  rewrite (split_mem _ _ _ _ _ Hc Hs) in Hm.
  pose proof (split_before_app _ _ _ _ Hs) as ->.
  pose proof (split_before_pre _ _ _ _ Hs) as Hp. clear Hs.
  assert (Hok : Forall range_ok (p ++ q)) by (apply Forall_forall; intros; by eapply chain_in).
  apply Forall_app in Hok as [Okp Okq].
  assert (Hlt : forall b0 q', q = b0 :: q' -> ipv ip < lo b0) by (intros b0 q' ->; lia).
  replace (match q with [] => false | r :: _ => lo r <=? ipv ip end) with false
    by (destruct q; [done|]; specialize (Hlt _ _ eq_refl); lia).
  pose proof (add_right_result p ip q Hip Okp Okq Hlt) as Hright. unfold add_result.
  destruct p as [|a p _] using rev_ind; [by apply Hright|].
  rewrite last_snoc in *. replace (1 <=? length (p ++ [a]))%nat with true
    by (symmetry; apply Nat.leb_le; rewrite length_app; simpl; lia).
  apply Forall_app in Okp as [_ Oka]. inversion Oka as [|? ? Ha _]; subst.
  apply Forall_app in Hp as [_ Hpa]. inversion Hpa as [|? ? Hha _]; subst.
  replace (length (p ++ [a]) - 1)%nat with (length p) by (rewrite length_app; simpl; lia).
  rewrite (take_app_length p [a]). cbv zeta.
  rewrite <-(app_assoc p [a] q) at 1. cbn [app]. rewrite add_at_middle, IPRange_Add_spec by done.
  pose proof (ok_le _ Ha). destruct (Z.eqb_spec (ipv ip) (lo a - 1)); [lia|].
  destruct (Z.eqb_spec (ipv ip) (hi a + 1)); [|apply Hright; intros ? [= <-]; lia].
  rewrite length_app, Nat.add_comm. cbn [length Nat.add].
  destruct q as [|b0 q]; [by rewrite join_at_end|].
  rewrite join_at_middle. cbn [r_start r_end]. inversion Okq as [|? ? Hb _]; subst.
  destruct (IP_Add_safe ip Hip Hsafe) as [C E]. rewrite IP_Equal_val by auto with ip.
  by rewrite E.
Qed.

(** The bound before the ranges that follow [p]. *)
Lemma bound_after_snoc b p a : bound_after b (p ++ [a]) = hi a + 1.
Proof. by rewrite bound_after_app. Qed.

(** Goals about the set of a concatenation are linear arithmetic once each
    remaining membership is decided. *)
Ltac mem_cases v :=
  repeat match goal with
  | |- context [mem ?l v] =>
      let X := fresh "X" in
      let E := fresh "E" in
      destruct (decide (mem l v)) as [X|X];
      [assert (E : mem l v <-> True) by tauto|assert (E : mem l v <-> False) by tauto];
      rewrite E; clear E
  end.

Ltac mem_lia :=
  let v := fresh "v" in
  intros v; rewrite ?mem_app; simpl; rewrite ?mem_app; simpl; mem_cases v; lia.

Lemma add_left_spec b p ip q :
  chain b (p ++ q) -> canon ip -> safe (ipv ip) -> bound_after b p < ipv ip ->
  (forall b0 q', q = b0 :: q' -> ipv ip < lo b0) ->
  chain b (add_left p ip q) /\
  forall v, mem (add_left p ip q) v <-> v = ipv ip \/ mem (p ++ q) v.
Proof.
  intros Hc Hip Hs Hb Hlt. apply chain_app in Hc as [Hp Hq]. unfold add_left.
  pose proof (range_ok_single ip Hip Hs) as H1.
  destruct q as [|r q]; [split; [|mem_lia]; rewrite chain_app; done|].
  specialize (Hlt _ _ eq_refl). destruct Hq as (_ & Hr & Hq). pose proof (ok_le _ Hr).
  destruct (Z.eqb_spec (ipv ip) (lo r - 1)) as [E|E].
  - assert (Hz : zone (ipv ip) = zone (lo r)).
    { rewrite <-(safe_zone_succ (ipv ip)) by done. f_equal. lia. }
    split; [|mem_lia]. rewrite chain_app. split; [done|]. split; [done|]. split; [|done].
    destruct Hr. apply range_ok_mk; auto; [lia|congruence].
  - split; [|mem_lia]. rewrite chain_app. split; [done|]. split; [done|]. split; [done|].
    simpl. split; [lia|done].
Qed.

(** The left neighbour grows, and joins the right one when they touch. *)
Lemma add_grow_spec b p a ip q :
  chain b (p ++ a :: q) -> canon ip -> safe (ipv ip) -> ipv ip = hi a + 1 ->
  (forall b0 q', q = b0 :: q' -> ipv ip < lo b0) ->
  let l' := match q with
            | b :: q' => if ipv ip + 1 =? lo b then p ++ NewIPRange (r_start a) (r_end b) :: q'
                         else p ++ NewIPRange (r_start a) ip :: q
            | [] => p ++ [NewIPRange (r_start a) ip]
            end in
  chain b l' /\ forall v, mem l' v <-> v = ipv ip \/ mem (p ++ a :: q) v.
Proof.
  intros Hc Hip Hs E Hlt. apply chain_app in Hc as [Hp (Hb & Ha & Hq)]. pose proof (ok_le _ Ha).
  assert (Hz : zone (lo a) = zone (ipv ip)).
  { rewrite E, safe_zone_succ by apply Ha. apply Ha. }
  assert (Hok : range_ok (NewIPRange (r_start a) ip)).
  { destruct Ha. apply range_ok_mk; auto. lia. }
  destruct q as [|r q]; cbv zeta; [split; [|mem_lia]; rewrite chain_app; done|].
  specialize (Hlt _ _ eq_refl). destruct Hq as (Hr1 & Hr & Hq). pose proof (ok_le _ Hr).
  destruct (Z.eqb_spec (ipv ip + 1) (lo r)) as [E2|E2]; (split; [|mem_lia]);
    rewrite chain_app; (split; [done|]); (split; [done|]); (split; [|done || (split; [simpl; lia|done])]); [|done].
  assert (Hz2 : zone (ipv ip) = zone (lo r)) by (rewrite <-E2; symmetry; by apply safe_zone_succ).
  destruct Ha, Hr. apply range_ok_mk; auto; [lia|congruence].
Qed.

(** Adding an address: the list stays well formed and gains the address. *)
Lemma IPRangeList_Add_ok l ip :
  wf l -> canon ip -> safe (ipv ip) ->
  let '(l', ok) := IPRangeList_Add l ip in
  wf l' /\ (forall v, mem l' v <-> v = ipv ip \/ mem l v) /\ ok = bool_decide (~ mem l (ipv ip)).
Proof.
  intros Hl Hip Hs. destruct (split_before (ipv ip) l) as [p q] eqn:Hsp.
  destruct (decide (mem l (ipv ip))) as [Hm|Hm].
  { unfold IPRangeList_Add. rewrite (IPRangeList_Find_spec _ _ _ _ _ Hl (canon_valid _ Hip) Hsp).
    pose proof (proj1 (split_mem _ _ _ _ _ Hl Hsp) Hm) as H. destruct q as [|r q]; [done|].
    replace (lo r <=? ipv ip) with true by lia. split; [done|].
    rewrite bool_decide_false by tauto. split; [|done]. intros v. split; [tauto|].
    intros [->|?]; done. }
  rewrite (IPRangeList_Add_result _ _ _ _ _ Hl Hip Hs Hm Hsp).
  rewrite bool_decide_true by done. rewrite (split_mem _ _ _ _ _ Hl Hsp) in Hm.
  pose proof (split_before_app _ _ _ _ Hsp) as ->.
  pose proof (split_before_pre _ _ _ _ Hsp) as Hp. clear Hsp.
  assert (Hlt : forall b0 q', q = b0 :: q' -> ipv ip < lo b0) by (intros b0 q' ->; lia).
  enough (wf (add_result p ip q) /\
    (forall v, mem (add_result p ip q) v <-> v = ipv ip \/ mem (p ++ q) v)) by tauto.
  unfold add_result. destruct p as [|a p _] using rev_ind.
  { simpl last. apply add_left_spec; auto. simpl. apply safe_bound in Hs. lia. }
  rewrite last_snoc. apply Forall_app in Hp as [_ Hpa]. inversion Hpa as [|? ? Hha _]; subst.
  destruct (Z.eqb_spec (ipv ip) (hi a + 1)) as [E|E].
  2: { apply add_left_spec; auto. rewrite bound_after_snoc. lia. }
  replace (length (p ++ [a]) - 1)%nat with (length p) by (rewrite length_app; simpl; lia).
  rewrite (take_app_length p [a]). unfold wf in *. rewrite <-app_assoc in *.
  by apply add_grow_spec.
Qed.

(** ** Remove *)

Lemma delete_at_middle p r q : delete_at (p ++ r :: q) (length p) = p ++ q.
Proof.
  unfold delete_at. rewrite take_app_length, drop_app_ge by lia.
  by replace (S (length p) - length p)%nat with 1%nat by lia.
Qed.

Lemma insert_middle (p q : IPRangeList) r r' : <[length p := r']> (p ++ r :: q) = p ++ r' :: q.
Proof. rewrite insert_app_r_alt by lia. by rewrite Nat.sub_diag. Qed.

Lemma drop_middle {A} (p q : list A) r : drop (S (length p)) (p ++ r :: q) = q.
Proof.
  rewrite drop_app_ge by lia. by replace (S (length p) - length p)%nat with 1%nat by lia.
Qed.

(** What is left of the range that holds the address. *)
Definition remove_pieces (r : IPRange) (ip : IP) : IPRangeList :=
  (if lo r <? ipv ip then [NewIPRange (r_start r) (IP_Sub ip 1)] else []) ++
  (if ipv ip <? hi r then [NewIPRange (IP_Add ip 1) (r_end r)] else []).

Lemma IPRangeList_Remove_result b l ip p q :
  chain b l -> canon ip -> split_before (ipv ip) l = (p, q) ->
  IPRangeList_Remove l ip =
  match q with
  | r :: q' => if lo r <=? ipv ip then (p ++ remove_pieces r ip ++ q', true) else (l, false)
  | [] => (l, false)
  end.
Proof.
  intros Hc Hip Hs. unfold IPRangeList_Remove.
  rewrite (IPRangeList_Find_spec _ _ _ _ _ Hc (canon_valid _ Hip) Hs).
  pose proof (split_before_post _ _ _ _ _ Hs Hc) as Hq.
  pose proof (split_before_app _ _ _ _ Hs) as ->. destruct q as [|r q]; [done|].
  destruct (Z.leb_spec (lo r) (ipv ip)); [|done]. cbn [negb].
  rewrite list_lookup_middle by done. inversion Hq as [|? ? Hr' _]; subst.
  assert (Hr : range_ok r) by (eapply chain_in; [exact Hc|]; set_solver).
  rewrite IPRange_Remove_spec by done. fold (remove_pieces r ip).
  destruct (remove_pieces r ip) as [|v0 [|v1 vs]] eqn:E.
  - by rewrite delete_at_middle.
  - by rewrite insert_middle.
  - by rewrite take_app_length, drop_middle.
Qed.

Lemma remove_pieces_spec b r ip :
  range_ok r -> canon ip -> lo r <= ipv ip <= hi r -> b < lo r ->
  chain b (remove_pieces r ip) /\ bound_after b (remove_pieces r ip) <= hi r + 1 /\
  forall v, mem (remove_pieces r ip) v <-> lo r <= v <= hi r /\ v <> ipv ip.
Proof.
  intros Hr Hip Hin Hb. destruct (range_ok_in r (ipv ip) Hr Hin) as [Hs Hz].
  destruct (IP_Sub_safe ip) as [C1 E1]; [done..|]. destruct (IP_Add_safe ip) as [C2 E2]; [done..|].
  assert (H1 : lo r < ipv ip -> range_ok (NewIPRange (r_start r) (IP_Sub ip 1)))
    by (intros; apply (range_ok_sub r); auto; try lia; apply Hr).
  assert (H2 : ipv ip < hi r -> range_ok (NewIPRange (IP_Add ip 1) (r_end r)))
    by (intros; apply (range_ok_sub r); auto; try lia; apply Hr).
  unfold remove_pieces. destruct (Z.ltb_spec (lo r) (ipv ip)), (Z.ltb_spec (ipv ip) (hi r));
    cbn [app chain bound_after mem r_start r_end]; rewrite ?E1, ?E2;
    (split; [auto with lia|split; [lia|intros; lia]]).
  split; [lia|]. split; [auto|]. split; [lia|auto].
Qed.

(** Removing an address: the list stays well formed and loses the address. *)
Lemma IPRangeList_Remove_ok l ip :
  wf l -> canon ip ->
  let '(l', ok) := IPRangeList_Remove l ip in
  wf l' /\ (forall v, mem l' v <-> mem l v /\ v <> ipv ip) /\ ok = bool_decide (mem l (ipv ip)).
Proof.
  intros Hl Hip. destruct (split_before (ipv ip) l) as [p q] eqn:Hs.
  rewrite (IPRangeList_Remove_result _ _ _ _ _ Hl Hip Hs).
  pose proof (split_mem _ _ _ _ _ Hl Hs) as Hm. pose proof (split_before_post _ _ _ _ _ Hs Hl) as Hq.
  assert (Hno : ~ mem l (ipv ip) ->
    wf l /\ (forall v, mem l v <-> mem l v /\ v <> ipv ip) /\ false = bool_decide (mem l (ipv ip))).
  { intros H. split; [done|]. rewrite bool_decide_false by done. split; [|done].
    intros v. split; [|tauto]. intros Hv. split; [done|]. by intros ->. }
  pose proof (split_before_pre _ _ _ _ Hs) as Hpre.
  pose proof (split_before_app _ _ _ _ Hs) as E. destruct q as [|r q]; [apply Hno; tauto|].
  destruct (Z.leb_spec (lo r) (ipv ip)) as [Hle|]; [|apply Hno; rewrite Hm; lia].
  rewrite bool_decide_true by tauto. subst l. unfold wf in *. inversion Hq as [|? ? Hr' _]; subst.
  apply chain_app in Hl as [Hp (Hb & Hr & Hcq)].
  destruct (remove_pieces_spec _ r ip Hr Hip ltac:(lia) Hb) as (Hc & Hba & Hmem).
  split; [|split; [|done]].
  - rewrite !chain_app. split; [done|]. split; [done|]. eapply chain_weaken; [exact Hcq|lia].
  - intros v. rewrite !mem_app, Hmem. simpl.
    pose proof (fun H => split_mem_pre (ipv ip) p Hpre H) as Hnp.
    pose proof (chain_mem _ q (ipv ip) Hcq) as Hnq.
    split; [|tauto]. intros [H|[H|H]]; [|tauto|].
    + split; [tauto|]. intros ->. tauto.
    + split; [tauto|]. intros ->. specialize (Hnq H). lia.
Qed.

(** ** Separate *)

(** What the inner loop returns for the range from [start] to [end_]: its
    pieces (with the tail the outer loop appends) cover the part outside
    [x], and what is left of [x] agrees with [x] above [end_]. *)
Definition inner_post (start end_ : IP) (x : IPRangeList)
    (res : IPRangeList * IP * IPRangeList) : Prop :=
  let '(out, st, rest) := res in
  let pieces := out ++ match rest with [] => [NewIPRange st end_] | _ => [] end in
  (forall b, b < ipv start ->
     chain b pieces /\ bound_after b pieces <= ipv end_ + 1) /\
  (forall v, mem pieces v <-> ipv start <= v <= ipv end_ /\ ~ mem x v) /\
  (exists c, chain c rest) /\
  (forall v, ipv end_ < v -> (mem rest v <-> mem x v)).

(** A piece before the range [xj], followed by the pieces after it. *)
Lemma chain_piece b start e l :
  range_ok (NewIPRange start e) -> b < ipv start ->
  (forall b', b' < ipv e + 2 -> chain b' l) -> chain b (NewIPRange start e :: l).
Proof. intros Hr Hb Hl. split; [done|]. split; [done|]. apply Hl. simpl. lia. Qed.

(** A range of [x] below [start] is passed over. *)
Lemma inner_skip start end_ xj x res :
  hi xj < ipv start -> ipv start <= ipv end_ ->
  inner_post start end_ x res -> inner_post start end_ (xj :: x) res.
Proof.
  destruct res as [[out st] rest]. intros Hlt Hle (I1 & I2 & I3 & I4).
  split; [done|]. split; [|split; [done|]].
  - intros v. rewrite I2. simpl. split; [|tauto]. intros [? ?]. split; [done|].
    intros [?|?]; [lia|tauto].
  - intros v Hv. rewrite I4 by done. simpl. split; [tauto|]. intros [?|?]; [lia|tauto].
Qed.

(** A range of [x] that ends inside: its predecessor part is emitted and the
    loop goes on behind it. *)
Lemma inner_step start end_ xj x out st rest :
  chain (hi xj + 1) x -> range_ok xj -> range_ok (NewIPRange start end_) ->
  ipv start <= hi xj -> hi xj < ipv end_ -> lo xj <= ipv end_ ->
  inner_post (IP_Add (r_end xj) 1) end_ x (out, st, rest) ->
  inner_post start end_ (xj :: x)
    ((if ipv start <? lo xj then [NewIPRange start (IP_Sub (r_start xj) 1)] else []) ++ out, st, rest).
Proof.
  intros Hx Hj Hr Hs He Hl (I1 & I2 & I3 & I4).
  pose proof (ok_le _ Hj) as Hlj. pose proof (fun v => chain_mem _ x v Hx) as Hgt.
  destruct (IP_Sub_safe (r_start xj)) as [Cp Ep]; [apply Hj..|].
  destruct (IP_Add_safe (r_end xj)) as [Cn En]; [apply Hj..|]. rewrite En in *.
  unfold inner_post. rewrite <-app_assoc. set (pieces := out ++ _) in *. clearbody pieces.
  split; [|split; [|split; [done|]]].
  - intros b Hb. destruct (Z.ltb_spec (ipv start) (lo xj)); cbn [app]; [|apply I1; lia].
    assert (range_ok (NewIPRange start (IP_Sub (r_start xj) 1))).
    { apply (range_ok_sub _ _ _ Hr); cbn [r_start r_end]; auto; [apply Hr|lia..]. }
    split; [apply chain_piece; auto; intros; apply I1; lia|]. cbn [bound_after r_end].
    rewrite Ep. apply I1. lia.
  - intros v. specialize (Hgt v).
    destruct (Z.ltb_spec (ipv start) (lo xj)); cbn [app mem r_start r_end];
      rewrite ?Ep, I2; mem_cases v; try specialize (Hgt X); lia.
  - intros v Hv. rewrite I4 by done. simpl. split; [tauto|]. intros [?|?]; [lia|done].
Qed.

(** A range of [x] that reaches the end: only its predecessor part is left. *)
Lemma inner_cut start end_ xj x c :
  chain c (xj :: x) -> range_ok (NewIPRange start end_) ->
  ipv start <= hi xj -> lo xj <= ipv end_ <= hi xj ->
  inner_post start end_ (xj :: x)
    (if ipv start <? lo xj then [NewIPRange start (IP_Sub (r_start xj) 1)] else [], start, xj :: x).
Proof.
  intros Hx Hr Hs He. pose proof Hx as (_ & Hj & Hx'). pose proof (ok_le _ Hj) as Hlj.
  pose proof (fun v => chain_mem _ x v Hx') as Hgt. pose proof (ok_le _ Hr) as Hle.
  destruct (IP_Sub_safe (r_start xj)) as [Cp Ep]; [apply Hj..|].
  unfold inner_post. rewrite app_nil_r. split; [|split; [|split; [by exists c|done]]].
  - intros b Hb. destruct (Z.ltb_spec (ipv start) (lo xj)); cbn; [|split; [done|simpl in *; lia]].
    rewrite Ep. split; [|lia]. split; [done|]. split; [|done].
    apply (range_ok_sub _ _ _ Hr); cbn [r_start r_end]; auto; [apply Hr|lia..].
  - intros v. specialize (Hgt v). destruct (Z.ltb_spec (ipv start) (lo xj));
      cbn [mem r_start r_end]; rewrite ?Ep; mem_cases v; try specialize (Hgt X); lia.
Qed.

Lemma separate_inner_spec c x start end_ :
  chain c x -> range_ok (NewIPRange start end_) ->
  inner_post start end_ x (separate_inner start end_ x).
Proof.
  revert c start. induction x as [|xj x IH]; intros c start Hx Hr;
    pose proof (ok_le _ Hr) as Hle; cbn [r_start r_end] in Hle.
  { split; [intros b Hb; cbn; split; [done|lia]|].
    split; [simpl; lia|]. split; [by exists 0|done]. }
  pose proof Hx as (Hc & Hj & Hx'). pose proof (fun v => chain_mem _ x v Hx') as Hgt.
  pose proof (ok_le _ Hj) as Hlj.
  pose proof (ok_start _ Hr) as Cs. pose proof (ok_end _ Hr) as Ce. cbn [r_start r_end] in *.
  cbn [separate_inner]. rewrite !IP_LessThan_val, !IP_GreaterThan_val by auto with ip.
  destruct (Z.ltb_spec (hi xj) (ipv start)); [apply inner_skip; eauto|].
  destruct (Z.ltb_spec (ipv end_) (lo xj)).
  { split; [intros b Hb; cbn; split; [done|lia]|].
    split; [|split; [by exists c|done]]. intros v. simpl. split; [|tauto].
    intros [?|[]]. split; [done|]. intros [?|?%Hgt]; lia. }
  destruct (Z.ltb_spec (hi xj) (ipv end_)); cbn [negb]; [|by eapply inner_cut].
  destruct (IP_Add_safe (r_end xj)) as [Cn En]; [apply Hj..|].
  assert (Hr' : range_ok (NewIPRange (IP_Add (r_end xj) 1) end_)).
  { apply (range_ok_sub _ _ _ Hr); cbn [r_start r_end]; auto; lia. }
  specialize (IH _ _ Hx' Hr').
  destruct (separate_inner (IP_Add (r_end xj) 1) end_ x) as [[out st] rest].
  by apply inner_step.
Qed.

Lemma separate_outer_spec b c r x :
  chain b r -> chain c x ->
  chain b (separate_outer r x) /\ forall v, mem (separate_outer r x) v <-> mem r v /\ ~ mem x v.
Proof.
  revert b c x. induction r as [|ri r IH]; intros b c x Hr Hx; [by simpl; tauto|].
  destruct Hr as (Hb & Hok & Hr). cbn [separate_outer].
  assert (Hok' : range_ok (NewIPRange (r_start ri) (r_end ri))) by (by destruct ri).
  pose proof (separate_inner_spec c x _ _ Hx Hok') as Hpost.
  destruct (separate_inner (r_start ri) (r_end ri) x) as [[out st] rest].
  destruct Hpost as (I1 & I2 & [c' I3] & I4). destruct (I1 b Hb) as [Hc Hba].
  destruct (IH (hi ri + 1) c' rest Hr I3) as [IHc IHm]. rewrite app_assoc.
  set (pieces := out ++ _) in *. clearbody pieces. split.
  - apply chain_app. split; [done|]. eapply chain_weaken; [exact IHc|done].
  - intros v. rewrite mem_app, I2, IHm. simpl. pose proof (chain_mem _ r v Hr) as Hgt.
    pose proof (ok_le _ Hok) as Hle. split.
    + intros [[? ?]|[Hv Hn]]; [tauto|]. split; [tauto|]. rewrite <-I4; [done|]. specialize (Hgt Hv). lia.
    + intros [[?|Hv] Hn]; [tauto|]. right. split; [done|]. rewrite I4; [done|]. specialize (Hgt Hv). lia.
Qed.

(** [Separate] is set difference. *)
Lemma IPRangeList_Separate_ok r x :
  wf r -> wf x ->
  wf (IPRangeList_Separate r x) /\
  forall v, mem (IPRangeList_Separate r x) v <-> mem r v /\ ~ mem x v.
Proof.
  intros Hr Hx. unfold IPRangeList_Separate. destruct r as [|ri r]; [by simpl; tauto|].
  destruct x as [|xj x]; cbn [length Nat.eqb].
  - rewrite IPRangeList_Clone_id. split; [done|]. simpl. tauto.
  - by apply (separate_outer_spec _ (-1)).
Qed.

(** ** Merge and Intersect *)

(** Sorted and disjoint; neighbours may touch. *)
Fixpoint wchain (b : Z) (l : IPRangeList) : Prop :=
  match l with
  | [] => True
  | r :: l' => b < lo r /\ range_ok r /\ wchain (hi r) l'
  end.

Lemma wchain_weaken b b' l : wchain b l -> b' <= b -> wchain b' l.
Proof. destruct l as [|r l]; simpl; [done|]. intros (? & ? & ?) ?. split; [lia|done]. Qed.

Lemma chain_wchain b l : chain b l -> wchain b l.
Proof.
  revert b. induction l as [|r l IH]; intros b; simpl; [done|]. intros (? & ? & Hc).
  split; [done|]. split; [done|]. eapply wchain_weaken; [by apply IH|lia].
Qed.

Lemma merge_loop_nil_r s : merge_loop s [] = s.
Proof. induction s as [|r s IH]; [done|]. simpl. by rewrite IPRange_Clone_id, IH. Qed.

Lemma merge_loop_nil_l x : merge_loop [] x = x.
Proof. induction x as [|r x IH]; [done|]. simpl in *. by rewrite IPRange_Clone_id, IH. Qed.

Lemma merge_loop_cons a s c x :
  merge_loop (a :: s) (c :: x) =
  if IP_LessThan (r_start a) (r_start c) then a :: merge_loop s (c :: x)
  else c :: merge_loop (a :: s) x.
Proof. simpl. by rewrite !IPRange_Clone_id. Qed.

Lemma merge_loop_spec b s x :
  wchain b s -> wchain b x -> (forall v, ~ (mem s v /\ mem x v)) ->
  wchain b (merge_loop s x) /\ forall v, mem (merge_loop s x) v <-> mem s v \/ mem x v.
Proof.
  revert b x. induction s as [|a s IHs]; intros b x Hs Hx Hd.
  { rewrite merge_loop_nil_l. split; [done|]. simpl. tauto. }
  revert b Hs Hx. induction x as [|c x IHx]; intros b Hs Hx.
  { rewrite merge_loop_nil_r. split; [done|]. simpl. tauto. }
  rewrite merge_loop_cons. destruct Hs as (Hba & Ha & Hs), Hx as (Hbc & Hc & Hx).
  pose proof (ok_le _ Ha). pose proof (ok_le _ Hc).
  rewrite IP_LessThan_val by auto with ip. destruct (Z.ltb_spec (lo a) (lo c)) as [Hlt|Hge].
  - assert (hi a < lo c).
    { destruct (Z.lt_ge_cases (hi a) (lo c)); [done|]. destruct (Hd (lo c)). simpl. split; left; lia. }
    destruct (IHs (hi a) (c :: x)) as [Hw Hm]; [done|by split|intros v [??]; apply (Hd v); simpl in *; tauto|].
    split; [done|]. intros v. simpl in *. rewrite Hm. tauto.
  - assert (hi c < lo a).
    { destruct (Z.lt_ge_cases (hi c) (lo a)); [done|]. destruct (Hd (lo a)). simpl. split; left; lia. }
    destruct (IHx ltac:(intros v [??]; apply (Hd v); simpl in *; tauto) (hi c)) as [Hw Hm];
      [by split|done|].
    split; [done|]. intros v. cbn [mem] in *. rewrite Hm. tauto.
Qed.

Lemma join_from_spec b cur l :
  b < lo cur -> range_ok cur -> wchain (hi cur) l ->
  chain b (join_from cur l) /\ forall v, mem (join_from cur l) v <-> mem (cur :: l) v.
Proof.
  revert b cur. induction l as [|n l IH]; intros b cur Hb Hcur Hl; [done|].
  destruct Hl as (Hlt & Hn & Hl). cbn [join_from]. pose proof (ok_le _ Hcur). pose proof (ok_le _ Hn).
  destruct (IP_Add_safe (r_end cur)) as [C E]; [apply Hcur..|].
  rewrite IP_Equal_val by auto with ip. rewrite E. destruct (Z.eqb_spec (hi cur + 1) (lo n)) as [Et|Et].
  - assert (Hz : zone (hi cur) = zone (lo n)) by (rewrite <-Et; symmetry; apply safe_zone_succ, Hcur).
    destruct (IH b (IPRange_SetEnd cur (r_end n))) as [Hc Hm]; [done| |done|].
    + destruct Hcur, Hn. apply range_ok_mk; auto; [lia|congruence].
    + split; [done|]. intros v. rewrite Hm. simpl. mem_cases v; lia.
  - destruct (IH (hi cur + 1) n) as [Hc Hm]; [lia|done|done|].
    split; [done|]. intros v. cbn [mem] in *. rewrite Hm. tauto.
Qed.

(** [Merge] is union. *)
Lemma IPRangeList_Merge_ok r x :
  wf r -> wf x ->
  wf (IPRangeList_Merge r x) /\ forall v, mem (IPRangeList_Merge r x) v <-> mem r v \/ mem x v.
Proof.
  intros Hr Hx. destruct (IPRangeList_Separate_ok r x Hr Hx) as [Hs Hm].
  unfold IPRangeList_Merge. set (s := IPRangeList_Separate r x) in *. clearbody s.
  destruct (merge_loop_spec (-1) s x) as [Hw Hmem]; [by apply chain_wchain..| |].
  { intros v [Hv ?]. apply Hm in Hv. tauto. }
  set (l := merge_loop s x) in *. clearbody l.
  assert (Hu : forall v, mem l v <-> mem r v \/ mem x v).
  { intros v. rewrite Hmem, Hm. destruct (decide (mem x v)); tauto. }
  destruct l as [|cur l]; [by split|]. destruct Hw as (Hb & Hcur & Hl).
  destruct (join_from_spec (-1) cur l Hb Hcur Hl) as [Hc Hj].
  split; [done|]. intros v. cbn [join_loop]. rewrite Hj. apply Hu.
Qed.

(** [Intersect] is intersection. *)
Lemma IPRangeList_Intersect_ok r x :
  wf r -> wf x ->
  wf (IPRangeList_Intersect r x) /\ forall v, mem (IPRangeList_Intersect r x) v <-> mem r v /\ mem x v.
Proof.
  intros Hr Hx. unfold IPRangeList_Intersect.
  destruct (IPRangeList_Separate_ok r x Hr Hx) as [W1 M1].
  destruct (IPRangeList_Separate_ok x r Hx Hr) as [W2 M2].
  destruct (IPRangeList_Merge_ok r x Hr Hx) as [W3 M3].
  destruct (IPRangeList_Separate_ok _ _ W3 W1) as [W4 M4].
  destruct (IPRangeList_Separate_ok _ _ W4 W2) as [W5 M5].
  split; [done|]. intros v. rewrite M5, M4, M3, M2, M1.
  destruct (decide (mem r v)), (decide (mem x v)); tauto.
Qed.

(** ** Equal, Count, Allocate *)

Lemma Equal_chain b c r x :
  chain b r -> chain c x -> IPRangeList_Equal r x = bool_decide (r = x).
Proof.
  revert b c x. induction r as [|a r IH]; intros b c [|d x] Hr Hx; try done.
  destruct Hr as (_ & Ha & Hr), Hx as (_ & Hd & Hx). specialize (IH _ _ x Hr Hx).
  unfold IPRangeList_Equal in *. cbn [length Nat.eqb zip zip_with forallb].
  rewrite !IP_Equal_val by auto with ip.
  destruct (Z.eqb_spec (lo a) (lo d)) as [E1|E1], (Z.eqb_spec (hi a) (hi d)) as [E2|E2];
    cbn [andb]; rewrite ?andb_false_r; try (symmetry; apply bool_decide_false; congruence).
  rewrite IH. assert (a = d) as ->.
  { destruct a, d, Ha, Hd; simpl in *. f_equal; by apply canon_inj. }
  apply bool_decide_ext. split; congruence.
Qed.

(** [Equal] decides equality of the sets. *)
Lemma IPRangeList_Equal_ok r x :
  wf r -> wf x -> IPRangeList_Equal r x = bool_decide (r = x).
Proof. apply Equal_chain. Qed.

Lemma count_foldl c l : foldl (fun count v => count + IPRange_Count v) c l = c + IPRangeList_Count l.
Proof.
  unfold IPRangeList_Count. revert c. induction l as [|r l IH]; intros c; [simpl; lia|].
  cbn [foldl]. rewrite IH, (IH (0 + IPRange_Count r)). lia.
Qed.

Lemma Count_cons r l : IPRangeList_Count (r :: l) = IPRange_Count r + IPRangeList_Count l.
Proof. unfold IPRangeList_Count at 1. cbn [foldl]. by rewrite count_foldl. Qed.

(** The values of a list, one by one. *)
Definition values (l : IPRangeList) : list Z := l ≫= (fun r => seqZ (lo r) (hi r - lo r + 1)).

Lemma elem_of_values l v : v ∈ values l <-> mem l v.
Proof.
  induction l as [|r l IH]; [by rewrite elem_of_nil|].
  unfold values in *. simpl. rewrite elem_of_app, IH, elem_of_seqZ.
  split; (intros [?|?]; [left; lia|tauto]).
Qed.

Lemma values_NoDup b l : chain b l -> NoDup (values l).
Proof.
  revert b. induction l as [|r l IH]; intros b; [constructor|]. intros (_ & Hr & Hc).
  change (values (r :: l)) with (seqZ (lo r) (hi r - lo r + 1) ++ values l).
  apply NoDup_app. split; [apply NoDup_seqZ|]. split; [|by eapply IH].
  intros v Hv Hl. rewrite elem_of_seqZ in Hv. rewrite elem_of_values in Hl.
  apply (chain_mem _ _ _ Hc) in Hl. lia.
Qed.

(** [Count] is the number of addresses. *)
Lemma IPRangeList_Count_ok l : wf l -> IPRangeList_Count l = Z.of_nat (length (values l)).
Proof.
  unfold wf. generalize (-1). induction l as [|r l IH]; intros b; [done|]. intros (_ & Hr & Hc).
  change (values (r :: l)) with (seqZ (lo r) (hi r - lo r + 1) ++ values l).
  rewrite Count_cons, (IH _ Hc), length_app, length_seqZ, IPRange_Count_spec by done.
  pose proof (ok_le _ Hr). lia.
Qed.

Lemma add_all_ok l skipped :
  wf l -> Forall (fun ip => canon ip /\ safe (ipv ip)) skipped ->
  let l' := foldl (fun t ip => fst (IPRangeList_Add t ip)) l skipped in
  wf l' /\ forall v, mem l' v <-> mem l v \/ v ∈ (ipv <$> skipped).
Proof.
  intros Hl H. revert l Hl. induction H as [|ip sk [Hc Hs] _ IH]; intros l Hl; cbv zeta.
  - split; [done|]. intros v. simpl. rewrite elem_of_nil. tauto.
  - cbn [foldl]. pose proof (IPRangeList_Add_ok l ip Hl Hc Hs) as Hadd.
    destruct (IPRangeList_Add l ip) as [l1 ok]. destruct Hadd as (W & M & _). cbn [fst].
    destruct (IH l1 W) as [W' M']. split; [done|]. intros v. rewrite M', M.
    cbn [fmap list_fmap]. rewrite elem_of_cons. tauto.
Qed.

(** The first address of a list is its least one. *)
Lemma head_least b r l v : chain b (r :: l) -> mem (r :: l) v -> lo r <= v.
Proof. intros (_ & Hr & Hc) [?|H]; [lia|]. apply (chain_mem _ _ _ Hc) in H. destruct Hr. lia. Qed.

(** What [Allocate] promises of the address it takes. *)
Definition taken (l : IPRangeList) (skipped : list IP) (l' : IPRangeList) (ip : IP) : Prop :=
  ip <> [] /\ canon ip /\ mem l (ipv ip) /\ (ipv ip ∉ (ipv <$> skipped)) /\
  (forall v, mem l v -> (v ∉ (ipv <$> skipped)) -> ipv ip <= v) /\
  wf l' /\ forall v, mem l' v <-> mem l v /\ v <> ipv ip.

Lemma canon_not_nil ip : canon ip -> ip <> [].
Proof. intros [[_ [?|?]] _] ->; done. Qed.

(** Taking the first address of the candidates. *)
Lemma take_first l skipped b r q :
  wf l -> chain b (r :: q) -> (forall v, mem (r :: q) v <-> mem l v /\ v ∉ (ipv <$> skipped)) ->
  taken l skipped (fst (IPRangeList_Remove l (r_start r))) (r_start r).
Proof.
  intros Hl Hc Hm. pose proof Hc as (_ & Hr & _). pose proof (ok_start _ Hr) as Hcan.
  assert (Hin : mem (r :: q) (lo r)) by (left; destruct Hr; lia). apply Hm in Hin.
  pose proof (IPRangeList_Remove_ok l (r_start r) Hl Hcan) as Hrem.
  destruct (IPRangeList_Remove l (r_start r)) as [l' ok]. destruct Hrem as (W & M & _).
  split; [by apply canon_not_nil|]. split; [done|]. split; [tauto|]. split; [tauto|].
  split; [|by split]. intros v Hv Hn. eapply head_least; [exact Hc|]. by apply Hm.
Qed.

(** [Allocate] takes the least address of the list that is not skipped, and
    returns nil only when every address is skipped. *)
Lemma IPRangeList_Allocate_ok l skipped :
  wf l -> Forall (fun ip => canon ip /\ safe (ipv ip)) skipped ->
  let '(l', ip) := IPRangeList_Allocate l skipped in
  (ip = [] /\ l' = l /\ forall v, mem l v -> v ∈ (ipv <$> skipped)) \/ taken l skipped l' ip.
Proof.
  intros Hl Hsk. unfold IPRangeList_Allocate. destruct l as [|r l]; [by left|].
  destruct skipped as [|s0 sk].
  - right. apply (take_first _ _ (-1) r l); auto. intros v. simpl. rewrite elem_of_nil. tauto.
  - destruct (add_all_ok [] (s0 :: sk) wf_nil Hsk) as [W M].
    unfold NewEmptyIPRangeList. set (tmp := foldl _ [] (s0 :: sk)) in *. clearbody tmp.
    destruct (IPRangeList_Separate_ok (r :: l) tmp Hl W) as [W' M'].
    destruct (IPRangeList_Separate (r :: l) tmp) as [|f0 fs].
    + left. split; [done|]. split; [done|]. intros v Hv.
      destruct (decide (v ∈ (ipv <$> s0 :: sk))); [done|]. destruct (proj2 (M' v)).
      split; [done|]. rewrite M. simpl. tauto.
    + right. apply (take_first _ _ (-1) f0 fs); auto. intros v. rewrite M', M. simpl. tauto.
Qed.
