(* ===== verification/UtilNet.v ===== *)
(** * [pkg/util/net.go], [slice.go], [address_family.go], [ip.go]: text utilities

    CIDRs, gateways and addresses are handled as strings, comma-separated for
    dual stack.  A call that indexes a slice out of range or dereferences a
    nil network panics; such functions return an [outcome]. *)
From Stdlib Require Import Ascii.
From S2P Require Import Prelude.
From S2P Require Import GoStrings.
From S2P Require Import GoNet.

Local Open Scope Z_scope.

(** ** Constants of [pkg/apis/kubeovn/v1/subnet.go] and [pkg/util/net.go] *)

Definition ProtocolIPv4 : string := "IPv4".
Definition ProtocolIPv6 : string := "IPv6".
Definition ProtocolDual : string := "Dual".
Definition ProtocolMac : string := "Mac".

Definition IPv4Multicast : string := "224.0.0.0/4".
Definition IPv4Loopback : string := "127.0.0.1/8".
Definition IPv4Broadcast : string := "255.255.255.255/32".
Definition IPv4Zero : string := "0.0.0.0/32".
Definition IPv4LinkLocalUnicast : string := "169.254.0.0/16".
Definition IPv6Unspecified : string := "::/128".
Definition IPv6Loopback : string := "::1/128".
Definition IPv6Multicast : string := "ff00::/8".
Definition IPv6LinkLocalUnicast : string := "FE80::/10".

(** ** MAC addresses *)

(** [buf] holds the six bytes read from the random source. *)
Definition GenerateMac (buf : bytes) : string :=
  match buf with
  | b0 :: rest => mac_String (Z.land (Z.lor b0 2) 254 :: rest)
  | [] => mac_String []
  end.

(** The loop draws until the address is not excluded; it returns the draws
    that are left. *)
Fixpoint GenerateMacWithExclusion (exclusionMACs : list string) (rnd : list bytes)
    : outcome (string * list bytes) :=
  match rnd with
  | [] => Starved
  | buf :: rnd' =>
      let mac := GenerateMac buf in
      if negb (slice_contains exclusionMACs mac) then Done (mac, rnd')
      else GenerateMacWithExclusion exclusionMACs rnd'
  end.

(** ** Addresses as integers *)

Definition IP2BigInt (ipStr : string) : Z :=
  let ip := ParseIP ipStr in
  if negb (isNil (To4 ip)) then be_val (To4 ip) else be_val (To16 ip).

(** [FillBytes] panics when the value needs more than the 16 bytes. *)
Definition BigInt2Ip (ipInt : Z) : outcome string :=
  let n := length (big_Bytes ipInt) in
  if (16 <? n)%nat then Panic
  else Done (netIP_String (to_bytes (if (4 <? n)%nat then 16 else 4) (Z.abs ipInt))).

Definition SubnetNumber (subnet : string) : string :=
  match ParseCIDR subnet with
  | None => ""
  | Some (_, cidr) =>
      let '(maskLength, len) := Mask_Size (nMask cidr) in
      if maskLength + 1 =? len then "" else netIP_String (nIP cidr)
  end.

Definition SubnetBroadcast (subnet : string) : outcome string :=
  match ParseCIDR subnet with
  | None => Panic
  | Some (_, cidr) =>
      let '(ones, bits) := Mask_Size (nMask cidr) in
      if ones + 1 =? bits then Done ""
      else let size := Z.shiftl 1 (bits - ones) - 1 in
           BigInt2Ip (IP2BigInt (netIP_String (nIP cidr)) + size)
  end.

Definition FirstIP (subnet : string) : outcome (result string) :=
  match ParseCIDR subnet with
  | None => Done (Err (Errorf "%s is not a valid cidr" [subnet]))
  | Some (_, cidr) =>
      let '(ones, bits) := Mask_Size (nMask cidr) in
      if ones + 1 =? bits then Done (Ok (netIP_String (nIP cidr)))
      else s ← BigInt2Ip (IP2BigInt (netIP_String (nIP cidr)) + 1); Done (Ok s)
  end.

Definition getCIDRSize (cidr : IPNet) : Z :=
  let '(ones, bits) := Mask_Size (nMask cidr) in
  let size := Z.shiftl 1 (bits - ones) in
  if ones + 1 =? bits then size - 1 else size - 2.

Definition LastIP (subnet : string) : outcome (result string) :=
  match ParseCIDR subnet with
  | None => Done (Err (Errorf "%s is not a valid cidr" [subnet]))
  | Some (_, cidr) =>
      s ← BigInt2Ip (IP2BigInt (netIP_String (nIP cidr)) + getCIDRSize cidr); Done (Ok s)
  end.

(** ** Families *)

Definition CheckProtocol (address : string) : string :=
  if bool_decide (address = "") then ""
  else
    match Split address "," with
    | [a; b] =>
        let IP1 := ParseIP (first_piece a "/") in
        let IP2 := ParseIP (first_piece b "/") in
        if isNil IP1 || isNil IP2 then ""
        else if negb (isNil (To4 IP1)) && isNil (To4 IP2) && negb (isNil (To16 IP2)) then ProtocolDual
        else if negb (isNil (To4 IP2)) && isNil (To4 IP1) && negb (isNil (To16 IP1)) then ProtocolDual
        else ""
    | _ =>
        let ip := ParseIP (first_piece address "/") in
        if isNil ip then ""
        else if negb (isNil (To4 ip)) then ProtocolIPv4
        else if negb (isNil (To16 ip)) then ProtocolIPv6
        else ""
    end.

Definition NormalizeIPFamily (ipFamily : string) : string :=
  if bool_decide (ipFamily = ToLower ProtocolIPv4) then ProtocolIPv4
  else if bool_decide (ipFamily = ToLower ProtocolIPv6) then ProtocolIPv6
  else ipFamily.

(** [unix.AF_UNSPEC], [AF_INET] and [AF_INET6] on Linux. *)
Definition ProtocolToFamily (protocol : string) : result Z :=
  if bool_decide (protocol = ProtocolDual) then Ok 0
  else if bool_decide (protocol = ProtocolIPv4) then Ok 2
  else if bool_decide (protocol = ProtocolIPv6) then Ok 10
  else Err (Errorf "invalid protocol: %s" [protocol]).

(** ** Containment and overlap *)

Definition same_protocol (a b : string) : bool := bool_decide (CheckProtocol a = CheckProtocol b).

Definition CIDRContainIP (cidrStr ipStr : string) : bool :=
  if bool_decide (cidrStr = "") then false
  else
    let cidrs := Split cidrStr "," in
    let ips := Split ipStr "," in
    if (length cidrs =? 1)%nat && negb (forallb (same_protocol cidrStr) ips) then false
    else forallb (fun cidr =>
           match ParseCIDR cidr with
           | None => false
           | Some (_, cidrNet) =>
               forallb (fun ip =>
                 negb (same_protocol cidr ip) ||
                 (let ipAddr := ParseIP ip in
                  negb (isNil ipAddr) && IPNet_Contains cidrNet ipAddr)) ips
           end) cidrs.

(** The loop over the blocks of [b] for one block of [a]: [Some r] when the
    function returned [r]. *)
Fixpoint overlap_inner (cidrA : string) (bs : list string) : option bool :=
  match bs with
  | [] => None
  | cidrB :: bs' =>
      if negb (same_protocol cidrA cidrB) then overlap_inner cidrA bs'
      else match ParseCIDR cidrA, ParseCIDR cidrB with
           | Some (aIP, aIPNet), Some (bIP, bIPNet) =>
               if IPNet_Contains aIPNet bIP || IPNet_Contains bIPNet aIP then Some true
               else overlap_inner cidrA bs'
           | _, _ => Some false
           end
  end.

Fixpoint overlap_outer (as_ bs : list string) : bool :=
  match as_ with
  | [] => false
  | cidrA :: as' =>
      match overlap_inner cidrA bs with
      | Some r => r
      | None => overlap_outer as' bs
      end
  end.

Definition CIDROverlap (a b : string) : bool := overlap_outer (Split a ",") (Split b ",").

Definition CIDRContainsCIDR (a b : string) : result bool :=
  match ParseCIDR a with
  | None => Err (Errorf "invalid CIDR address: %s" [a])
  | Some (_, ca) =>
      match ParseCIDR b with
      | None => Err (Errorf "invalid CIDR address: %s" [b])
      | Some (_, cb) =>
          let '(oa, ba) := Mask_Size (nMask ca) in
          let '(ob, bb) := Mask_Size (nMask cb) in
          if negb (ba =? bb) then Err (Errorf "protocol of cidr %s and %s not match" [a; b])
          else Ok ((oa <=? ob) && IPNet_Contains ca (nIP cb))
      end
  end.

(** The reserved blocks, in the order they are tested, with the message. *)
Definition reserved_blocks : list (string * string) :=
  [ (IPv4Broadcast, "%s conflict with v4 broadcast cidr %s");
    (IPv4Multicast, "%s conflict with v4 multicast cidr %s");
    (IPv4Loopback, "%s conflict with v4 loopback cidr %s");
    (IPv4Zero, "%s conflict with v4 localnet cidr %s");
    (IPv4LinkLocalUnicast, "%s conflict with v4 link local cidr %s");
    (IPv6Unspecified, "%s conflict with v6 unspecified cidr %s");
    (IPv6Loopback, "%s conflict with v6 loopback cidr %s");
    (IPv6Multicast, "%s conflict with v6 multicast cidr %s");
    (IPv6LinkLocalUnicast, "%s conflict with v6 link local cidr %s") ].

Fixpoint check_blocks (cidr cidrBlock : string) (blocks : list (string * string)) : option err :=
  match blocks with
  | [] => None
  | (blk, msg) :: blocks' =>
      if CIDROverlap cidrBlock blk then Some (Errorf msg [cidr; blk])
      else check_blocks cidr cidrBlock blocks'
  end.

(** Functions that return only an [error] return an [option err]. *)
Fixpoint first_err {A} (f : A -> option err) (l : list A) : option err :=
  match l with
  | [] => None
  | x :: l' => match f x with Some e => Some e | None => first_err f l' end
  end.

Definition CIDRGlobalUnicast (cidr : string) : option err :=
  first_err (fun cidrBlock => check_blocks cidr cidrBlock reserved_blocks) (Split cidr ",").

Fixpoint CheckSystemCIDR (cidrs : list string) : option err :=
  match cidrs with
  | [] => None
  | cidr :: cidrs' =>
      match CIDRGlobalUnicast cidr with
      | Some e => Some e
      | None =>
          match first_err (fun next => if CIDROverlap cidr next
                             then Some (Errorf "cidr %s is conflict with cidr %s" [cidr; next])
                             else None) cidrs' with
          | Some e => Some e
          | None => CheckSystemCIDR cidrs'
          end
      end
  end.

Definition AddressCountBigInt (network : IPNet) : Z :=
  let '(prefixLen, bits) := Mask_Size (nMask network) in
  let count := Z.shiftl 1 (bits - prefixLen) in
  if 2 <=? bits - prefixLen then count - 2 else count.

(** [draw] is the number [rand.Int] returns; a host part of no bits makes
    the shift amount underflow. *)
Definition GenerateRandomIP (cidr : string) (draw : Z) : outcome string :=
  match ParseCIDR cidr with
  | None => Done ""
  | Some (ip, network) =>
      let '(ones, bits) := Mask_Size (nMask network) in
      if bits - ones =? 0 then Panic
      else s ← BigInt2Ip (IP2BigInt (netIP_String ip) + draw);
           Done (s +:+ "/" +:+ Itoa ones)
  end.

Definition IPToString (ip : string) : string :=
  match ParseCIDR ip with
  | Some (ipNet, _) => netIP_String ipNet
  | None => let ipNet := ParseIP ip in if negb (isNil ipNet) then netIP_String ipNet else ""
  end.

Definition IsValidIP (ip : string) : bool := negb (isNil (ParseIP ip)).

Definition CheckCidrs (cidr : string) : option err :=
  first_err (fun b => match ParseCIDR b with
                      | None => Some (Errorf "CIDRInvalid" [])
                      | Some _ => None
                      end) (Split cidr ",").

(** ** Gateways *)

(** [GetGwByCidr]: the first address of every block. *)
Fixpoint gws_of (cidrs : list string) : outcome (result (list string)) :=
  match cidrs with
  | [] => Done (Ok [])
  | cidr :: cidrs' =>
      r ← FirstIP cidr;
      match r with
      | Err e => Done (Err e)
      | Ok gw => r' ← gws_of cidrs';
                 Done (match r' with Ok gws => Ok (gw :: gws) | Err e => Err e end)
      end
  end.

Definition GetGwByCidr (cidrStr : string) : outcome (result string) :=
  r ← gws_of (Split cidrStr ",");
  Done (match r with Ok gws => Ok (Join gws ",") | Err e => Err e end).

Fixpoint append_gws (gateway : string) (gws : list string) (cidrs : list string)
    : outcome (result (list string)) :=
  match cidrs with
  | [] => Done (Ok gws)
  | cidr :: cidrs' =>
      if same_protocol gateway cidr then append_gws gateway (gws ++ [gateway]) cidrs'
      else r ← FirstIP cidr;
           match r with
           | Err e => Done (Err e)
           | Ok gw =>
               append_gws gateway
                 (if bool_decide (CheckProtocol gateway = ProtocolIPv4)
                  then [gateway; gw] else [gw; gateway]) cidrs'
           end
  end.

Definition AppendGwByCidr (gateway cidrStr : string) : outcome (result string) :=
  r ← append_gws gateway [] (Split cidrStr ",");
  Done (match r with Ok gws => Ok (Join gws ",") | Err e => Err e end).

(** ** Lists of addresses *)

Definition is_v4_entry (ex : string) : bool :=
  bool_decide (CheckProtocol (first_piece ex "..") = ProtocolIPv4).

Definition SplitIpsByProtocol (excludeIps : list string) : list string * list string :=
  foldl (fun '(v4, v6) ex => if is_v4_entry ex then (v4 ++ [ex], v6) else (v4, v6 ++ [ex]))
        ([], []) excludeIps.

Definition GetStringIP (v4IP v6IP : string) : string :=
  Join ((if IsValidIP v4IP then [v4IP] else []) ++ (if IsValidIP v6IP then [v6IP] else [])) ",".

(** [strings.Split(s, "/")[1]]. *)
Definition mask_part (s : string) : outcome string := of_option (Split s "/" !! 1%nat).

Definition GetIPAddrWithMask (ip cidr : string) : outcome (result string) :=
  let ips := Split ip "," in
  if bool_decide (CheckProtocol cidr = ProtocolDual) then
    match Split cidr "," with
    | [c0; c1] =>
        match ips with
        | [i0; i1] =>
            m0 ← mask_part c0; m1 ← mask_part c1;
            Done (Ok (i0 +:+ "/" +:+ m0 +:+ "," +:+ i1 +:+ "/" +:+ m1))
        | _ => Done (Err (Errorf "ip %s should be dualstack" [ip]))
        end
    | _ => Done (Ok "")
    end
  else match ips with
       | [_] => m ← mask_part cidr; Done (Ok (ip +:+ "/" +:+ m))
       | _ => Done (Err (Errorf "ip %s should be singlestack" [ip]))
       end.

(** The loop over the addresses of [GetIPAddrWithMaskForCNI]. *)
Fixpoint with_masks (c0 c1 : string) (ips : list string) : result (list string) :=
  match ips with
  | [] => Ok []
  | ip :: ips' =>
      let p := CheckProtocol ip in
      cidrBlock ← (if bool_decide (p = ProtocolIPv4) then Ok c0
                   else if bool_decide (p = ProtocolIPv6) then Ok c1
                   else Err (Errorf "invalid ip %s" [ip]));
      let '(_, mask, ok) := Cut "/"%char cidrBlock in
      if negb ok || bool_decide (mask = "") then Err (Errorf "invalid cidr %s" [cidrBlock])
      else rest ← with_masks c0 c1 ips'; Ok ((ip +:+ "/" +:+ mask) :: rest)
  end.

(** The address, the no-IPAM flag and the error. *)
Definition GetIPAddrWithMaskForCNI (ip cidr : string) : outcome (result (string * bool)) :=
  if bool_decide (ip = "") then Done (Ok ("", true))
  else if bool_decide (CheckProtocol cidr = ProtocolDual) then
    match Split cidr "," with
    | [c0; c1] => Done (l ← with_masks c0 c1 (Split ip ","); Ok (Join l ",", false))
    | _ => Done (Err (Errorf "invalid dualstack cidr %s" [cidr]))
    end
  else r ← GetIPAddrWithMask ip cidr;
       Done (match r with Ok s => Ok (s, false) | Err e => Err e end).

Definition GetIPWithoutMask (ipStr : string) : string :=
  Join ((fun ip => first_piece ip "/") <$> Split ipStr ",") ",".

(** The v4 and the v6 address. *)
Definition SplitStringIP (ipStr : string) : string * string :=
  let p := CheckProtocol ipStr in
  if bool_decide (p = ProtocolDual) then
    foldl (fun '(v4, v6) ip => if bool_decide (CheckProtocol ip = ProtocolIPv4)
                               then (ip, v6) else (v4, ip)) ("", "") (Split ipStr ",")
  else if bool_decide (p = ProtocolIPv4) then (ipStr, "")
  else if bool_decide (p = ProtocolIPv6) then ("", ipStr)
  else ("", "").

(** ** Excluded addresses *)

(** One block of the CIDR for an excluded range from [s] to [e]. *)
Definition expand_block (parts0 cidrBlock : string) (s e : Z) : outcome (list string) :=
  if negb (same_protocol cidrBlock parts0) then Done []
  else
    r ← FirstIP cidrBlock;
    match r with
    | Err _ => Done []
    | Ok firstIP =>
        rl ← LastIP cidrBlock;
        let lastIP := match rl with Ok l => l | Err _ => "" end in
        let s1 := if s <? IP2BigInt firstIP then IP2BigInt firstIP else s in
        let e1 := if IP2BigInt lastIP <? e then IP2BigInt lastIP else e in
        if s1 =? e1 then a ← BigInt2Ip s1; Done [a]
        else if s1 <? e1 then a ← BigInt2Ip s1; b ← BigInt2Ip e1; Done [a +:+ ".." +:+ b]
        else Done []
    end.

Fixpoint expand_blocks (parts0 : string) (s e : Z) (blocks : list string) : outcome (list string) :=
  match blocks with
  | [] => Done []
  | b :: blocks' => l ← expand_block parts0 b s e; l' ← expand_blocks parts0 s e blocks'; Done (l ++ l')
  end.

(** The blocks for a single excluded address: the first that takes it ends
    the loop. *)
Fixpoint expand_single (excludeIP : string) (blocks : list string) : outcome (list string) :=
  match blocks with
  | [] => Done []
  | cidrBlock :: blocks' =>
      if same_protocol cidrBlock excludeIP then
        if CIDRContainIP cidrBlock excludeIP && negb (bool_decide (excludeIP = SubnetNumber cidrBlock))
        then b ← SubnetBroadcast cidrBlock;
             if negb (bool_decide (excludeIP = b)) then Done [excludeIP]
             else expand_single excludeIP blocks'
        else expand_single excludeIP blocks'
      else expand_single excludeIP blocks'
  end.

Definition expand_entry (cidr excludeIP : string) : outcome (list string) :=
  if str_contains excludeIP ".." then
    match Split excludeIP ".." with
    | [p0; p1] =>
        if negb (same_protocol p0 p1) then Done []
        else let s := IP2BigInt p0 in
             let e := IP2BigInt p1 in
             if e <? s then Done [] else expand_blocks p0 s e (Split cidr ",")
    | _ => Done []
    end
  else expand_single excludeIP (Split cidr ",").

Fixpoint ExpandExcludeIPs (excludeIPs : list string) (cidr : string) : outcome (list string) :=
  match excludeIPs with
  | [] => Done []
  | ex :: rest => l ← expand_entry cidr ex; l' ← ExpandExcludeIPs rest cidr; Done (l ++ l')
  end.

Definition ContainsIPs (excludeIP ip : string) : bool :=
  if str_contains excludeIP ".." then
    match Split excludeIP ".." with
    | p0 :: p1 :: _ => (IP2BigInt p0 <=? IP2BigInt ip) && (IP2BigInt ip <=? IP2BigInt p1)
    | _ => false
    end
  else bool_decide (excludeIP = ip).

Definition count_entry (excludeIP : string) : Z :=
  if str_contains excludeIP ".." then
    match Split excludeIP ".." with
    | p0 :: p1 :: _ => IP2BigInt p1 - IP2BigInt p0 + 1
    | _ => 0
    end
  else 1.

Definition CountIPNumsBigInt (excludeIPs : list string) : Z :=
  foldl (fun count ex => count + count_entry ex) 0 excludeIPs.

(** ** Small helpers *)

Definition GatewayContains (gatewayNodeStr gateway : string) : bool :=
  existsb (fun gw =>
    let gw' := if str_contains gw ":" then TrimSpace (first_piece gw ":") else TrimSpace gw in
    bool_decide (gw' = TrimSpace gateway)) (Split gatewayNodeStr ",").

(** [net.JoinHostPort] brackets a host with a colon. *)
Definition JoinHostPort (host : string) (port : Z) : string :=
  if contains_char ":"%char host
  then "[" +:+ host +:+ "]:" +:+ Itoa port
  else host +:+ ":" +:+ Itoa port.

Definition CheckNodeDNSIP (nodeLocalDNSIP : string) : option err :=
  if negb (bool_decide (nodeLocalDNSIP = "")) && negb (IsValidIP nodeLocalDNSIP)
  then Some (Errorf "invalid node local dns ip: %q" [nodeLocalDNSIP]) else None.

Definition GetExternalNetwork (externalNet : string) : string :=
  if bool_decide (externalNet = "") then "ovn-vpc-external-network" else externalNet.

(** [unicode.IsUpper] on ASCII. *)
Fixpoint ContainsUppercase (s : string) : bool :=
  match s with
  | EmptyString => false
  | String c s' => ((65 <=? code c) && (code c <=? 90)) || ContainsUppercase s'
  end.

Definition InvalidSpecialCIDR (s : string) : option err :=
  if has_prefix "0.0.0.0" s then Some (Errorf "invalid zero cidr %q" [s])
  else if str_contains s "255.255.255.255" then Some (Errorf "invalid broadcast cidr %q" [s])
  else None.

Definition InvalidNetworkMask (network : IPNet) : option err :=
  let '(ones, bits) := Mask_Size (nMask network) in
  if ones =? bits then Some (Errorf "invalid network mask %d" [Itoa ones]) else None.

Definition ValidatePort (port : string) : option err :=
  match Atoi port with
  | None => Some (Errorf "must be a number" [])
  | Some p => if (p <? 1) || (65535 <? p)
              then Some (Errorf "must be between 1 and 65535" []) else None
  end.

Definition ValidateProtocol (protocol : string) : option err :=
  let p := ToLower protocol in
  if negb (bool_decide (p = "tcp")) && negb (bool_decide (p = "udp"))
  then Some (Errorf "must be %s or %s" ["tcp"; "udp"]) else None.

(** ** [pkg/util/slice.go] *)

Definition DiffStringSlice (slice1 slice2 : list string) : list string :=
  filter (fun s => s ∉ slice2) slice1 ++ filter (fun s => s ∉ slice1) slice2.

Definition IsStringsOverlap (a b : list string) : bool := existsb (slice_contains b) a.

Definition RemoveString (slice : list string) (s : string) : list string :=
  filter (fun item => item <> s) slice.

(** ** [pkg/util/ip.go] *)

Definition Uint32ToIPv4 (n : Z) : string :=
  Join (Itoa <$> [Z.shiftr n 24; Z.shiftr (Z.land n 16711680) 16;
                  Z.shiftr (Z.land n 65280) 8; Z.land n 255]) ".".

(** Indexing a shorter slice panics. *)
Definition IPv4ToUint32 (ip : netIP) : outcome Z :=
  match ip with
  | a :: b :: c :: d :: _ =>
      Done (Z.lor (Z.lor (Z.lor (Z.shiftl a 24) (Z.shiftl b 16)) (Z.shiftl c 8)) d)
  | _ => Panic
  end.

Definition IPv6ToLabelValue (ip : string) : string :=
  if bool_decide (ip = "") then ""
  else
    let v := replace_char ":"%char "-" ip in
    let v1 := if has_prefix "-" v then "0" +:+ v else v in
    if HasSuffix v1 "-" then v1 +:+ "0" else v1.
