(* ===== verification/CidrFacts.v ===== *)
(** * Networks as intervals

    A network that [net.ParseCIDR] returns is a prefix: masking keeps the
    leading bits, so containment is membership of an interval of values and
    the printed network is read back. *)
From Stdlib Require Import Ascii.
From S2P Require Import Prelude.
From S2P Require Import GoStrings.
From S2P Require Import GoNet.
From S2P Require Import GoNet.
From S2P Require Import GoNetText.
From S2P Require Import Ip.

Local Open Scope Z_scope.

(** ** Masks *)

Lemma length_CIDRMask l n : length (CIDRMask l n) = l.
Proof. revert n. induction l as [|l IH]; intros n; simpl; [done|]. destruct (8 <=? n); simpl; auto. Qed.

(** A check over all bytes and all partial mask lengths, by computation. *)
Lemma byte_mask_check :
  forallb (fun a => forallb (fun n =>
    Z.land a (Z.lxor 255 (Z.shiftr 255 n)) =? a / 2 ^ (8 - n) * 2 ^ (8 - n)) (seqZ 0 8)) (seqZ 0 256) = true.
Proof. vm_compute. reflexivity. Qed.

Lemma byte_mask a n : byte a -> 0 <= n < 8 ->
  Z.land a (Z.lxor 255 (Z.shiftr 255 n)) = a / 2 ^ (8 - n) * 2 ^ (8 - n).
Proof.
  intros Ha Hn. pose proof byte_mask_check as H. rewrite forallb_forall in H.
  specialize (H a). rewrite forallb_forall in H. apply Z.eqb_eq, H;
    apply list_elem_of_In, elem_of_seqZ; unfold byte in Ha; lia.
Qed.

Lemma land_255 a : byte a -> Z.land a 255 = a.
Proof.
  intros Ha. change 255 with (Z.ones 8). rewrite Z.land_ones by lia. by apply Z.mod_small.
Qed.

(** Masking clears the host bits of the value. *)
Lemma be_val_mask b n :
  Forall byte b -> 0 <= n <= 8 * Z.of_nat (length b) ->
  let h := 8 * Z.of_nat (length b) - n in
  be_val (land_bytes b (CIDRMask (length b) n)) = be_val b / 2 ^ h * 2 ^ h.
Proof.
  revert n. induction b as [|a b IH]; intros n Hb Hn; cbv zeta.
  - simpl in *. replace n with 0 by lia. done.
  - inversion Hb as [|? ? Ha Hb']; subst. pose proof (be_val_bound b Hb') as B.
    set (k := Z.of_nat (length b)) in *.
    assert (Hk : Z.of_nat (length (a :: b)) = k + 1) by (simpl; lia). rewrite Hk in *.
    assert (P : 256 ^ k = 2 ^ (8 * k)) by (change 256 with (2 ^ 8); rewrite <-Z.pow_mul_r; lia).
    cbn [length CIDRMask land_bytes zip_with]. destruct (Z.leb_spec 8 n).
    + change (zip_with Z.land b (CIDRMask (length b) (n - 8)))
        with (land_bytes b (CIDRMask (length b) (n - 8))).
      rewrite !be_val_cons. unfold land_bytes at 1. rewrite length_zip_with, length_CIDRMask, Nat.min_id.
      fold k. rewrite IH by (auto; lia). rewrite land_255 by done. fold k.
      replace (8 * k - (n - 8)) with (8 * (k + 1) - n) by lia.
      set (h := 8 * (k + 1) - n) in *. rewrite P.
      replace (8 * k) with (h + (8 * k - h)) by lia. rewrite Z.pow_add_r by lia.
      replace (a * (2 ^ h * 2 ^ (8 * k - h)) + be_val b) with (be_val b + a * 2 ^ (8 * k - h) * 2 ^ h) by lia.
      rewrite Z.div_add by (apply Z.pow_nonzero; lia). lia.
    + assert (Hz : forall (x : bytes), be_val (zip_with Z.land x (CIDRMask (length x) 0)) = 0).
      { induction x as [|y x IHx]; [done|].
        change (CIDRMask (length (y :: x)) 0) with (0 :: CIDRMask (length x) 0). cbn [zip_with].
        rewrite Z.land_0_r, be_val_cons, IHx. lia. }
      rewrite !be_val_cons. rewrite Hz, length_zip_with, length_CIDRMask, Nat.min_id. fold k.
      rewrite byte_mask by (auto; lia). replace (8 * (k + 1) - n) with ((8 - n) + 8 * k) by lia.
      rewrite Z.pow_add_r, <-P by lia. rewrite (Z.mul_comm (2 ^ (8 - n)) (256 ^ k)).
      rewrite <-Z.div_div by (first [apply Z.pow_nonzero; lia|apply Z.pow_pos_nonneg; lia]).
      rewrite Z.div_add_l by (apply Z.pow_nonzero; lia).
      rewrite (Z.div_small (be_val b)) by lia. rewrite !Z.add_0_r. lia.
Qed.

Lemma land_byte x y : byte x -> byte (Z.land x y).
Proof.
  intros Hx. rewrite <-(land_255 x) by done. rewrite <-Z.land_assoc, (Z.land_comm 255), Z.land_assoc.
  change 255 with (Z.ones 8). rewrite Z.land_ones by lia. unfold byte. apply Z.mod_pos_bound. lia.
Qed.

Lemma land_bytes_byte b m : Forall byte b -> Forall byte (land_bytes b m).
Proof.
  intros Hb. revert m. induction Hb as [|x b Hx _ IH]; intros [|y m]; try constructor.
  - by apply land_byte.
  - apply IH.
Qed.

Lemma length_land_bytes b n : length (land_bytes b (CIDRMask (length b) n)) = length b.
Proof. unfold land_bytes. by rewrite length_zip_with, length_CIDRMask, Nat.min_id. Qed.

(** Equal masked values are equal prefixes. *)
Lemma land_bytes_eq a b n :
  Forall byte a -> Forall byte b -> length a = length b -> 0 <= n <= 8 * Z.of_nat (length a) ->
  let h := 8 * Z.of_nat (length a) - n in
  land_bytes a (CIDRMask (length a) n) = land_bytes b (CIDRMask (length a) n) <->
  be_val a / 2 ^ h = be_val b / 2 ^ h.
Proof.
  intros Ha Hb Hl Hn h. pose proof (be_val_mask a n Ha Hn) as Ea.
  pose proof (be_val_mask b n Hb ltac:(by rewrite <-Hl)) as Eb. rewrite <-Hl in Eb.
  cbv zeta in Ea, Eb. fold h in Ea, Eb.
  assert (Hp : 2 ^ h <> 0) by (apply Z.pow_nonzero; subst h; lia). split; intros E.
  - rewrite E, Eb in Ea. by apply Z.mul_reg_r in Ea.
  - apply be_val_inj; auto using land_bytes_byte.
    + by rewrite length_land_bytes, Hl, length_land_bytes.
    + by rewrite Ea, Eb, E.
Qed.

(** The sizes of the masks of both families, by computation. *)
Lemma mask_size_check :
  forallb (fun n => bool_decide (simpleMaskLength (CIDRMask 16 n) = Some n)) (seqZ 0 129) &&
  forallb (fun n => bool_decide (simpleMaskLength (CIDRMask 4 n) = Some n)) (seqZ 0 33) = true.
Proof. vm_compute. reflexivity. Qed.

Lemma simpleMaskLength_CIDRMask l n :
  l = 4%nat \/ l = 16%nat -> 0 <= n <= 8 * Z.of_nat l -> simpleMaskLength (CIDRMask l n) = Some n.
Proof.
  intros Hl Hn. pose proof mask_size_check as H. apply andb_true_iff in H as [H16 H4].
  rewrite !forallb_forall in H16, H4. destruct Hl as [-> | ->].
  - apply (bool_decide_eq_true (simpleMaskLength (CIDRMask 4 n) = Some n)), H4.
    apply list_elem_of_In, elem_of_seqZ. lia.
  - apply (bool_decide_eq_true (simpleMaskLength (CIDRMask 16 n) = Some n)), H16.
    apply list_elem_of_In, elem_of_seqZ. lia.
Qed.

Lemma Mask_Size_CIDRMask l n :
  l = 4%nat \/ l = 16%nat -> 0 <= n <= 8 * Z.of_nat l ->
  Mask_Size (CIDRMask l n) = (n, 8 * Z.of_nat l).
Proof.
  intros Hl Hn. unfold Mask_Size. by rewrite simpleMaskLength_CIDRMask, length_CIDRMask.
Qed.

(** ** Parsed networks *)

(** [n] is the network of prefix length [ones] around the address [b]. *)
Record net_of (n : IPNet) (b : bytes) (ones : Z) : Prop := {
  net_valid : valid_ip b;
  net_ones : 0 <= ones <= 8 * Z.of_nat (length b);
  net_mask : nMask n = CIDRMask (length b) ones;
  net_ip : nIP n = land_bytes b (CIDRMask (length b) ones)
}.

Lemma dtoi_nonneg s n r : dtoi s = Some (n, r) -> 0 <= n.
Proof.
  unfold dtoi. assert (H : forall s n i m j r, dtoi_loop s n i = Some (m, j, r) -> 0 <= n -> 0 <= m).
  { clear. induction s as [|c s IH]; intros n i m j r; simpl; [by intros [= <- _ _]|].
    destruct (is_digit c) eqn:E; [|by intros [= <- _ _]]. destruct (_ <=? _); [done|].
    intros H Hn. eapply IH; [exact H|]. apply is_digit_bound in E. lia. }
  destruct (dtoi_loop s 0 0) as [[[m [|j]] r']|] eqn:E; try done.
  intros [= <- <-]. eapply H; [exact E|lia].
Qed.

Lemma netIP_Mask_To16 b ones : valid_ip b ->
  netIP_Mask (To16 b) (CIDRMask (length b) ones) = land_bytes b (CIDRMask (length b) ones).
Proof.
  intros [Hb [Hl|Hl]]; unfold netIP_Mask; pose proof (length_CIDRMask (length b) ones) as Lm;
    set (m := CIDRMask (length b) ones) in *; clearbody m; rewrite Hl in Lm.
  - rewrite To16_4 by done.
    assert (L16 : length (v4InV6Prefix ++ b) = 16%nat) by (rewrite length_app, Hl; done).
    rewrite Lm, L16. cbn [Nat.eqb andb]. rewrite Lm.
    change (drop 12 (v4InV6Prefix ++ b)) with b. cbn [Nat.eqb andb]. rewrite bool_decide_true by done. by rewrite Hl.
  - rewrite To16_16, Lm, Hl by done. cbn [Nat.eqb andb]. rewrite ?Lm, ?Hl. cbn [Nat.eqb andb]. by rewrite ?Lm, ?Hl.
Qed.

Lemma ParseCIDR_net s ip n :
  ParseCIDR s = Some (ip, n) -> exists b ones, ip = To16 b /\ net_of n b ones.
Proof.
  unfold ParseCIDR. destruct (Cut "/"%char s) as [[addr mask] []]; [|done]. cbn [negb].
  destruct (parse_addr addr) as [b|] eqn:Ea; [|done].
  destruct (dtoi mask) as [[ones [|]]|] eqn:Ed; try done.
  destruct (Z.ltb_spec (8 * Z.of_nat (length b)) ones) as [|Hle]; [done|]. intros [= <- <-].
  apply parse_addr_valid in Ea as [Hv _]. apply dtoi_nonneg in Ed.
  exists b, ones. split; [done|]. split; simpl; auto. by apply netIP_Mask_To16.
Qed.

Lemma net_valid_ip n b ones : net_of n b ones -> valid_ip (nIP n) /\ length (nIP n) = length b.
Proof.
  intros [[Hb Hl] _ _ ->]. rewrite length_land_bytes. split; [|done].
  split; [by apply land_bytes_byte|]. by rewrite length_land_bytes.
Qed.

(** ** Containment is interval membership *)

Lemma pow2_pos h : 0 <= h -> 0 < 2 ^ h.
Proof. intros. apply Z.pow_pos_nonneg; lia. Qed.

(** Same quotient as a multiple of [p]: membership of a block of length [p]. *)
Lemma same_block k p x : 0 < p -> k = x / p <-> k * p <= x < k * p + p.
Proof.
  intros Hp. split.
  - intros ->. pose proof (Z.mul_div_le x p Hp). pose proof (Z.mul_succ_div_gt x p Hp). lia.
  - intros H. apply Z.div_unique with (x - k * p); lia.
Qed.

(** The masked comparison of [Contains] on two addresses of one length. *)
Lemma masked_block nn x n :
  Forall byte nn -> Forall byte x -> length nn = length x ->
  0 <= n <= 8 * Z.of_nat (length nn) ->
  let h := 8 * Z.of_nat (length nn) - n in
  (exists k, be_val nn = k * 2 ^ h) ->
  bool_decide (land_bytes nn (CIDRMask (length nn) n) = land_bytes x (CIDRMask (length nn) n)) =
  (be_val nn <=? be_val x) && (be_val x <? be_val nn + 2 ^ h).
Proof.
  intros Hn Hx Hl Hr h [k Hk]. assert (Hp : 0 < 2 ^ h) by (apply pow2_pos; subst h; lia).
  assert (E : land_bytes nn (CIDRMask (length nn) n) = land_bytes x (CIDRMask (length nn) n) <->
    be_val nn <= be_val x < be_val nn + 2 ^ h).
  { rewrite land_bytes_eq by done. fold h. rewrite Hk, Z.div_mul by lia. by apply same_block. }
  apply eq_true_iff_eq. rewrite bool_decide_eq_true, E, andb_true_iff, Z.leb_le, Z.ltb_lt. done.
Qed.

Lemma drop_mask_check :
  forallb (fun n => bool_decide (drop 12 (CIDRMask 16 n) = CIDRMask 4 (n - 96))) (seqZ 96 33) = true.
Proof. vm_compute. reflexivity. Qed.

Lemma drop_mask n : 96 <= n <= 128 -> drop 12 (CIDRMask 16 n) = CIDRMask 4 (n - 96).
Proof.
  intros H. pose proof drop_mask_check as C. rewrite forallb_forall in C.
  apply (bool_decide_eq_true (drop 12 (CIDRMask 16 n) = CIDRMask 4 (n - 96))), C.
  apply list_elem_of_In, elem_of_seqZ. lia.
Qed.

(** The number of host bits of a network, and the value of its first address. *)
Definition host_bits (n : IPNet) : Z := let '(ones, bits) := Mask_Size (nMask n) in bits - ones.

Definition net_lo (n : IPNet) : Z := ipv (nIP n).
Definition net_hi (n : IPNet) : Z := net_lo n + 2 ^ host_bits n - 1.

Lemma net_host_bits n b ones : net_of n b ones -> host_bits n = 8 * Z.of_nat (length b) - ones.
Proof.
  intros [[_ Hl] Ho Hm _]. unfold host_bits. rewrite Hm, Mask_Size_CIDRMask; auto.
Qed.

Lemma net_be_val n b ones : net_of n b ones -> exists k, be_val (nIP n) = k * 2 ^ host_bits n.
Proof.
  intros H. rewrite (net_host_bits _ _ _ H). destruct H as [[Hb _] Ho _ ->].
  rewrite be_val_mask by done. by eexists.
Qed.

Lemma net_host_bits_nonneg n b ones : net_of n b ones -> 0 <= host_bits n.
Proof. intros H. rewrite (net_host_bits _ _ _ H). destruct H. lia. Qed.

(** A 16-byte network whose address is an IPv4 one keeps at least 96 bits. *)
Lemma mapped_net_ones k h : 0 <= h <= 128 -> V4B <= k * 2 ^ h <= V4M -> h <= 32.
Proof.
  intros Hh Hv. destruct (Z_le_gt_dec h 32) as [|Hgt]; [done|]. exfalso.
  replace h with (33 + (h - 33)) in Hv by lia. rewrite Z.pow_add_r in Hv by lia.
  replace (k * (2 ^ 33 * 2 ^ (h - 33))) with ((k * 2 ^ (h - 33)) * 2 ^ 33) in Hv by lia.
  set (q := k * 2 ^ (h - 33)) in *. clearbody q. consts. change (2 ^ 33) with 8589934592 in Hv. lia.
Qed.

(** The network number and mask of a parsed network: an address of the
    length of its family, and the mask of the same length. *)
Lemma networkNumber_spec n b ones : net_of n b ones ->
  exists nn ones', networkNumberAndMask n = (nn, CIDRMask (length nn) ones') /\
    Forall byte nn /\
    length nn = (if v4_val (net_lo n) then 4%nat else 16%nat) /\
    0 <= ones' <= 8 * Z.of_nat (length nn) /\
    host_bits n = 8 * Z.of_nat (length nn) - ones' /\
    be_val nn = (if v4_val (net_lo n) then net_lo n - V4B else net_lo n) /\
    exists k, be_val nn = k * 2 ^ host_bits n.
Proof.
  intros H. destruct (net_valid_ip _ _ _ H) as [Hv Hl]. pose proof (net_host_bits _ _ _ H) as Hh.
  pose proof (net_be_val _ _ _ H) as [k Hk]. pose proof (net_mask _ _ _ H) as Hm.
  pose proof (net_ones _ _ _ H) as Ho. unfold net_lo, networkNumberAndMask.
  destruct (To4_spec (nIP n) Hv) as [(Ev & Nn & L4 & B4 & E4 & T)|(Ev & T & L16)]; rewrite Ev.
  - rewrite Nn, L4, Hm. cbn [Nat.eqb negb andb]. rewrite length_CIDRMask, <-Hl.
    destruct Hv as [Hb [L|L]]; rewrite L in *.
    + exists (To4 (nIP n)), ones. rewrite L4, <-Hl in *.
      rewrite To4_4 in * by done. repeat (split; [done || lia|]). by exists k.
    + assert (Hk' : V4B <= k * 2 ^ host_bits n <= V4M).
      { rewrite <-Hk. unfold v4_val, ipv in Ev. rewrite To16_16 in Ev by done. lia. }
      assert (host_bits n <= 32) by (apply (mapped_net_ones k); [lia|done]).
      exists (To4 (nIP n)), (ones - 96). rewrite L4, drop_mask by lia.
      repeat (split; [done || lia|]).
      assert (Ev' : ipv (nIP n) = k * 2 ^ host_bits n) by (unfold ipv; by rewrite To16_16).
      exists (k - 65535 * 2 ^ (32 - host_bits n)). rewrite E4, Ev', Z.mul_sub_distr_r.
      rewrite <-Z.mul_assoc, <-Z.pow_add_r by lia.
      replace (32 - host_bits n + host_bits n) with 32 by lia. done.
  - rewrite T. cbn [isNil]. rewrite L16. cbn [Nat.eqb negb andb]. rewrite Hm, length_CIDRMask, <-Hl, L16.
    exists (nIP n), ones. rewrite L16. rewrite <-Hl, L16 in *.
    unfold ipv. rewrite To16_16 by done. destruct Hv.
    repeat (split; [done || lia|]). by exists k.
Qed.

(** Containment in a network: same family, and a value of the interval. *)
Lemma IPNet_Contains_val n b ones a :
  net_of n b ones -> valid_ip a ->
  IPNet_Contains n a =
  eqb (v4_val (net_lo n)) (v4_val (ipv a)) && (net_lo n <=? ipv a) && (ipv a <=? net_hi n).
Proof.
  intros H Ha. unfold IPNet_Contains, net_hi.
  destruct (networkNumber_spec _ _ _ H) as (nn & o & -> & Bn & Ln & Ho & Hh & En & Hk).
  pose proof (net_host_bits_nonneg _ _ _ H) as Hnn.
  destruct (To4_spec a Ha) as [(Ev & Na & L4 & B4 & E4 & _)|(Ev & T & L16)]; rewrite Ev.
  - rewrite Na, L4, Ln. destruct (v4_val (net_lo n)); [|done]. cbn [Nat.eqb andb eqb].
    rewrite Hh in Hk |- *. rewrite <-Ln, masked_block by (done || congruence).
    rewrite E4, En. rewrite !Ln. zbool; lia.
  - rewrite T. cbn [isNil]. rewrite L16, Ln. destruct (v4_val (net_lo n)); [done|]. cbn [Nat.eqb andb eqb].
    destruct Ha as [Ba _]. rewrite Hh in Hk |- *. rewrite <-Ln, masked_block by (done || congruence).
    unfold ipv. rewrite To16_16 by done. rewrite En. rewrite !Ln. zbool; lia.
Qed.
