(* ===== verification/Hosts.v ===== *)
(** * The assignable addresses of a CIDR

    [pkg/ipam] turns a CIDR into the list of its assignable addresses by
    printing the first and the last one, joining them with [".."] and parsing
    the result.  For a network of ordinary addresses this composition is
    computed here: it is the interval without the network and the broadcast
    address. *)
From Stdlib Require Import Ascii.
From S2P Require Import Prelude.
From S2P Require Import GoStrings.
From S2P Require Import GoNet.
From S2P Require Import GoNet.
From S2P Require Import GoNetText.
From S2P Require Import Ip.
From S2P Require Import IpRange.
From S2P Require Import IpRangeList.
From S2P Require Import IpRangeListFacts.
From S2P Require Import CidrFacts.
From S2P Require Import UtilNet.

Local Open Scope Z_scope.

(** [firstIP, _ := util.FirstIP(c); lastIP, _ := util.LastIP(c);
    l, _ := NewIPRangeListFrom(firstIP + ".." + lastIP)]: errors are dropped,
    a nil list is the empty one. *)
Definition text_of (r : result string) : string := match r with Ok s => s | Err _ => "" end.

Definition host_list (cidr : string) : outcome IPRangeList :=
  f ← FirstIP cidr;
  l ← LastIP cidr;
  Done (match NewIPRangeListFrom [text_of f +:+ ".." +:+ text_of l] with Ok r => r | Err _ => [] end).

(** ** Texts joined by two dots *)

(** No two dots in a row, and none at the end; [prev] tells whether the byte
    before was a dot. *)
Fixpoint dots_ok (prev : bool) (s : string) : bool :=
  match s with
  | EmptyString => negb prev
  | String c s' => if code c =? 46 then negb prev && dots_ok true s' else dots_ok false s'
  end.

Lemma dots_ok_false s : dots_ok true s = true -> dots_ok false s = true.
Proof.
  destruct s as [|c s]; [done|]. cbn [dots_ok]. by destruct (code c =? 46).
Qed.

Lemma code_dot_iff c : (code c =? 46) = true <-> c = "."%char.
Proof.
  rewrite Z.eqb_eq. split; [|by intros ->]. intros H. unfold code in H.
  rewrite <-(Ascii.ascii_N_embedding c). replace (Ascii.N_of_ascii c) with 46%N by lia. done.
Qed.

Lemma has_prefix_dots c d s :
  has_prefix ".." (String c (String d s)) = (code c =? 46) && (code d =? 46).
Proof.
  cbn [has_prefix]. rewrite andb_true_r. apply eq_true_iff_eq.
  rewrite !andb_true_iff, !bool_decide_eq_true, !code_dot_iff. split; by intros [-> ->].
Qed.

Lemma has_prefix_dots_1 c : has_prefix ".." (String c EmptyString) = false.
Proof. cbn [has_prefix]. apply andb_false_r. Qed.

(** A text without two dots in a row is the first piece. *)
Lemma Split_dots a b : dots_ok false a = true ->
  Split (a +:+ ".." +:+ b) ".." = a :: Split b "..".
Proof.
  induction a as [|c a IH]; intros H; [done|].
  rewrite app_str_cons. unfold Split in *. cbn [split_skip dots_ok] in *.
  assert (Hp : has_prefix ".." (String c (a +:+ ".." +:+ b)) = false).
  { destruct a as [|d a]; rewrite ?app_str_nil_l, ?app_str_cons.
    - change (".." +:+ b) with (String "." (String "." b)). rewrite has_prefix_dots.
      by destruct (code c =? 46).
    - rewrite has_prefix_dots. destruct (code c =? 46); [|done]. cbn [dots_ok] in H.
      by destruct (code d =? 46). }
  rewrite Hp, IH; [done|]. destruct (code c =? 46); [|done].
  apply andb_true_iff in H as [_ H]. by apply dots_ok_false.
Qed.

Lemma str_contains_app a b : str_contains (a +:+ ".." +:+ b) ".." = true.
Proof.
  induction a as [|c a IH]; [done|]. rewrite app_str_cons. cbn [str_contains].
  rewrite IH. apply orb_true_r || by destruct (has_prefix _ _).
Qed.

Lemma Split_dots_none a : dots_ok false a = true -> Split a ".." = [a].
Proof.
  induction a as [|c a IH]; intros H; [done|]. unfold Split in *. cbn [split_skip dots_ok] in *.
  assert (Hp : has_prefix ".." (String c a) = false).
  { destruct a as [|d a]; [apply has_prefix_dots_1|]. rewrite has_prefix_dots.
    destruct (code c =? 46); [|done]. cbn [dots_ok] in H. by destruct (code d =? 46). }
  rewrite Hp, IH; [done|]. destruct (code c =? 46); [|done].
  apply andb_true_iff in H as [_ H]. by apply dots_ok_false.
Qed.

Lemma dots_ok_no_dot s prev : contains_char "."%char s = false -> s <> EmptyString -> dots_ok prev s = true.
Proof.
  revert prev. induction s as [|c s IH]; intros prev H Hne; [done|]. cbn [contains_char dots_ok] in *.
  apply orb_false_iff in H as [Hc Hs]. apply bool_decide_eq_false in Hc.
  destruct (code c =? 46) eqn:E; [by apply code_dot_iff in E|].
  destruct s; [done|]. by apply IH.
Qed.

Lemma dots_ok_app_dot a b prev :
  dots_ok prev a = true -> a <> EmptyString -> dots_ok true b = true ->
  dots_ok prev (a +:+ "." +:+ b) = true.
Proof.
  revert prev. induction a as [|c a IH]; intros prev Ha Hne Hb; [done|]. rewrite app_str_cons.
  cbn [dots_ok] in *. destruct a as [|d a].
  - rewrite app_str_nil_l. destruct (code c =? 46); [by destruct prev|].
    change ("." +:+ b) with (String "." b). cbn [dots_ok]. done.
  - destruct (code c =? 46).
    + apply andb_true_iff in Ha as [-> Ha]. by apply IH.
    + by apply IH.
Qed.

Lemma dec_byte_no_dot b : byte b -> contains_char "."%char (dec_byte b) = false.
Proof. intros H. apply (all_chars_not_contains is_digit); [done|by apply dec_byte_digits]. Qed.

Lemma dec_byte_ne b : dec_byte b <> EmptyString.
Proof. pose proof (dec_byte_nonempty b EmptyString). by rewrite app_str_nil_r in *. Qed.

Lemma dots_ok_string4 l prev : Forall byte l -> l <> [] -> dots_ok prev (string4 l) = true.
Proof.
  unfold string4. intros H. revert prev. induction H as [|b l Hb Hl IH]; intros prev Hne; [done|].
  destruct l as [|c l]; cbn [fmap list_fmap Join].
  - apply dots_ok_no_dot; [by apply dec_byte_no_dot|apply dec_byte_ne].
  - apply dots_ok_app_dot; [apply dots_ok_no_dot; [by apply dec_byte_no_dot|apply dec_byte_ne]|apply dec_byte_ne|].
    by apply IH.
Qed.

Lemma IP_String_dots a : valid_ip a -> dots_ok false (IP_String a) = true.
Proof.
  intros Ha. unfold IP_String, netIP_String. destruct (isNil a) eqn:En.
  { destruct Ha as [_ [L|L]]; by destruct a. }
  assert (negb (length a =? 4)%nat && negb (length a =? 16)%nat = false) as ->
    by (destruct Ha as [_ [-> | ->]]; done).
  destruct (To4_spec a Ha) as [(_ & Nn & L4 & B4 & _)|(_ & T & L16)].
  - rewrite L4. apply dots_ok_string4; [done|]. by destruct (To4 a).
  - rewrite T. cbn [Nat.eqb length]. apply dots_ok_no_dot.
    + apply (all_chars_not_contains v6_char); [done|]. apply string6_chars, Ha.
    + intros E. pose proof (string6_has_colon a L16) as Hc. by rewrite E in Hc.
Qed.

(** ** Ranges from text *)

Lemma range_of_text a b : canon a -> canon b -> ipv a <= ipv b ->
  range_of_entry (IP_String a +:+ ".." +:+ IP_String b) = Ok (NewIPRange a b).
Proof.
  intros Ha Hb Hle. unfold range_of_entry. rewrite str_contains_app, Split_dots by auto using IP_String_dots with ip.
  rewrite Split_dots_none by auto using IP_String_dots with ip. rewrite !NewIP_String by done. cbn.
  rewrite IP_GreaterThan_val by auto with ip. by destruct (Z.ltb_spec (ipv b) (ipv a)); [lia|].
Qed.

Lemma range_of_text_err a b : canon a -> canon b -> ipv b < ipv a ->
  exists e, range_of_entry (IP_String a +:+ ".." +:+ IP_String b) = Err e.
Proof.
  intros Ha Hb Hlt. unfold range_of_entry. rewrite str_contains_app, Split_dots by auto using IP_String_dots with ip.
  rewrite Split_dots_none by auto using IP_String_dots with ip. rewrite !NewIP_String by done. cbn.
  rewrite IP_GreaterThan_val by auto with ip. destruct (Z.ltb_spec (ipv b) (ipv a)); [|lia]. by eexists.
Qed.

Lemma ranges_from_one s r : range_of_entry s = Ok r -> NewIPRangeListFrom [s] = Ok [r].
Proof.
  intros H. unfold NewIPRangeListFrom. cbn [ranges_from]. rewrite H. cbn.
  by rewrite IPRange_Clone_id.
Qed.

(** Lists read from clean entries are well formed and hold what the entries hold. *)
Definition clean_entry (s : string) : Prop :=
  match range_of_entry s with Ok r => range_ok r | Err _ => True end.

#[global] Instance clean_entry_dec s : Decision (clean_entry s).
Proof. unfold clean_entry. destruct (range_of_entry s); apply _. Defined.

Lemma ranges_from_ok x acc l :
  Forall clean_entry x -> wf acc -> ranges_from acc x = Ok l ->
  wf l /\ forall v, mem l v <-> mem acc v \/ exists s r, s ∈ x /\ range_of_entry s = Ok r /\ lo r <= v <= hi r.
Proof.
  intros H. revert acc. induction H as [|s x Hs Hx IH]; intros acc Hacc; cbn [ranges_from].
  - intros [= <-]. split; [done|]. intros v. split; [by left|]. intros [?|(s & r & ?%elem_of_nil & _)]; done.
  - unfold clean_entry in Hs. destruct (range_of_entry s) as [r|e] eqn:E; [|done]. cbn. intros Hr.
    destruct (IPRangeList_Merge_ok acc [r]) as [Hw Hm]; [done|by apply wf_single|].
    destruct (IH _ Hw Hr) as [Hl Hml]. split; [done|]. intros v. rewrite Hml, Hm. simpl.
    split.
    + intros [[?|[?|[]]]|(s' & r' & ? & ? & ?)]; [by left|right; exists s, r|right; exists s', r'];
        rewrite elem_of_cons; auto.
    + intros [?|(s' & r' & [->|?]%elem_of_cons & E' & ?)]; [auto| |right; by eauto].
      rewrite E in E'. injection E' as <-. auto.
Qed.

Lemma NewIPRangeListFrom_ok x l :
  Forall clean_entry x -> NewIPRangeListFrom x = Ok l ->
  wf l /\ forall v, mem l v <-> exists s r, s ∈ x /\ range_of_entry s = Ok r /\ lo r <= v <= hi r.
Proof.
  intros H E. destruct (ranges_from_ok x [] l H wf_nil E) as [Hw Hm]. split; [done|].
  intros v. rewrite Hm. simpl. tauto.
Qed.

(** ** Addresses as integers *)

(** The integer the code computes with: relative to the family. *)
Definition ip_int (v : Z) : Z := if v4_val v then v - V4B else v.

Lemma IP2BigInt_String a : valid_ip a -> IP2BigInt (IP_String a) = ip_int (ipv a).
Proof.
  intros Ha. unfold IP2BigInt, IP_String, ip_int. rewrite ParseIP_String by done.
  destruct (To16_valid a Ha) as [B16 L16].
  assert (V : ipv (To16 a) = ipv a) by (unfold ipv; by rewrite (To16_16 (To16 a))).
  destruct (To4_spec (To16 a)) as [(Ev & -> & _ & _ & -> & _)|(Ev & -> & _)]; [by split; auto| |].
  - rewrite V in Ev. by rewrite Ev, V.
  - rewrite V in Ev. rewrite Ev. cbn [isNil negb]. by fold (ipv (To16 a)).
Qed.

Lemma byte_len_le z n : 0 <= z < 256 ^ Z.of_nat n -> (byte_len z <= n)%nat.
Proof.
  intros H. unfold byte_len. destruct (Z.eqb_spec z 0); [lia|].
  assert (Hl : Z.log2 z < 8 * Z.of_nat n).
  { apply Z.log2_lt_pow2; [lia|]. replace (2 ^ (8 * Z.of_nat n)) with (256 ^ Z.of_nat n); [lia|].
    change 256 with (2 ^ 8). rewrite <-Z.pow_mul_r; lia. }
  pose proof (Z.log2_nonneg z). zdm.
Qed.

Lemma byte_len_gt z n : 256 ^ Z.of_nat n <= z -> (n < byte_len z)%nat.
Proof.
  intros H. pose proof (pow256_pos n). unfold byte_len. destruct (Z.eqb_spec z 0); [lia|].
  assert (Hl : 8 * Z.of_nat n <= Z.log2 z).
  { apply Z.log2_le_pow2; [lia|]. replace (2 ^ (8 * Z.of_nat n)) with (256 ^ Z.of_nat n); [lia|].
    change 256 with (2 ^ 8). rewrite <-Z.pow_mul_r; lia. }
  zdm.
Qed.

Lemma length_big_Bytes z : 0 <= z -> length (big_Bytes z) = byte_len z.
Proof. intros H. unfold big_Bytes. by rewrite length_to_bytes, Z.abs_eq. Qed.

(** Values the code prints in the family they belong to. *)
Definition printable (v : Z) : Prop := v4_val v = true \/ 4294967296 <= v < TOP.

#[global] Instance printable_dec v : Decision (printable v).
Proof. unfold printable. apply _. Defined.

Lemma BigInt2Ip_val v : printable v -> BigInt2Ip (ip_int v) = Done (IP_String (ip_of v)).
Proof.
  intros Hv. unfold BigInt2Ip, ip_int, ip_of, IP_String.
  assert (256 ^ Z.of_nat 4 = 4294967296) as P4 by done.
  destruct (v4_val v) eqn:E.
  - assert (0 <= v - V4B < 4294967296) by (unfold v4_val in E; consts; lia).
    rewrite length_big_Bytes by lia. pose proof (byte_len_le (v - V4B) 4 ltac:(lia)).
    destruct (Nat.ltb_spec 16 (byte_len (v - V4B))); [lia|].
    destruct (Nat.ltb_spec 4 (byte_len (v - V4B))); [lia|]. by rewrite Z.abs_eq by lia.
  - destruct Hv as [Hv|Hv]; [congruence|]. rewrite length_big_Bytes by lia.
    pose proof (byte_len_le v 16 ltac:(rewrite <-TOP_256; lia)).
    pose proof (byte_len_gt v 4 ltac:(lia)).
    destruct (Nat.ltb_spec 16 (byte_len v)); [lia|].
    destruct (Nat.ltb_spec 4 (byte_len v)); [|lia]. by rewrite Z.abs_eq by lia.
Qed.

(** ** Networks of ordinary addresses *)

(** A network in canonical form, with all its addresses away from the
    borders of the address blocks and, for IPv6, not among the first [2^32]. *)
Record clean_net (n : IPNet) : Prop := {
  cn_net : net_of n (nIP n) (fst (Mask_Size (nMask n)));
  cn_canon : canon (nIP n);
  cn_lo : safe (net_lo n);
  cn_hi : safe (net_hi n);
  cn_zone : zone (net_lo n) = zone (net_hi n);
  cn_print : printable (net_lo n - 1)
}.

#[global] Instance net_of_dec n b ones : Decision (net_of n b ones).
Proof.
  destruct (decide (valid_ip b /\ 0 <= ones <= 8 * Z.of_nat (length b) /\
    nMask n = CIDRMask (length b) ones /\ nIP n = land_bytes b (CIDRMask (length b) ones)))
    as [(?&?&?&?)|H].
  - left. by constructor.
  - right. intros []. by apply H.
Defined.

#[global] Instance clean_net_dec n : Decision (clean_net n).
Proof.
  destruct (decide (net_of n (nIP n) (fst (Mask_Size (nMask n))) /\ canon (nIP n) /\
    safe (net_lo n) /\ safe (net_hi n) /\ zone (net_lo n) = zone (net_hi n) /\ printable (net_lo n - 1)))
    as [(?&?&?&?&?&?)|H].
  - left. by constructor.
  - right. intros []. by apply H.
Defined.

(** A CIDR text is clean when the network it denotes is. *)
Definition clean_cidr (s : string) : Prop :=
  match ParseCIDR s with Some (_, n) => clean_net n | None => False end.

#[global] Instance clean_cidr_dec s : Decision (clean_cidr s).
Proof. unfold clean_cidr. destruct (ParseCIDR s) as [[? ?]|]; apply _. Defined.

Lemma parse_addr_String a : canon a -> parse_addr (IP_String a) = Some a.
Proof.
  intros [Hv Hl]. unfold IP_String, netIP_String. destruct (isNil a) eqn:En.
  { destruct Hv as [_ [L|L]]; by destruct a. }
  assert (negb (length a =? 4)%nat && negb (length a =? 16)%nat = false) as ->
    by (destruct Hv as [_ [-> | ->]]; done).
  destruct (To4_spec a Hv) as [(Ev & Nn & L4 & B4 & _)|(Ev & T & L16)]; rewrite Ev in Hl.
  - rewrite L4. cbn [Nat.eqb]. rewrite To4_4 by done. apply parse_addr_string4; [apply Hv|done].
  - rewrite T. cbn [Nat.eqb length]. apply parse_addr_string6; [apply Hv|done].
Qed.

Lemma IP_String_no_char a c : valid_ip a -> v4_char c = false -> v6_char c = false ->
  contains_char c (IP_String a) = false.
Proof.
  intros Hv H4 H6. unfold IP_String, netIP_String. destruct (isNil a) eqn:En.
  { destruct Hv as [_ [L|L]]; by destruct a. }
  assert (negb (length a =? 4)%nat && negb (length a =? 16)%nat = false) as ->
    by (destruct Hv as [_ [-> | ->]]; done).
  destruct (To4_spec a Hv) as [(_ & _ & L4 & B4 & _)|(_ & T & L16)].
  - rewrite L4. cbn [Nat.eqb]. apply (all_chars_not_contains v4_char); [done|by apply string4_chars].
  - rewrite T. cbn [Nat.eqb length]. apply (all_chars_not_contains v6_char); [done|]. apply string6_chars, Hv.
Qed.

Lemma clean_net_size n : clean_net n ->
  Mask_Size (nMask n) = (fst (Mask_Size (nMask n)), 8 * Z.of_nat (length (nIP n))) /\
  host_bits n = 8 * Z.of_nat (length (nIP n)) - fst (Mask_Size (nMask n)) /\
  0 <= fst (Mask_Size (nMask n)) <= 8 * Z.of_nat (length (nIP n)).
Proof.
  intros [Hn _ _ _ _ _]. pose proof (net_host_bits _ _ _ Hn) as Hh. destruct Hn as [[_ Hl] Ho Hm _].
  split; [|done]. rewrite Hm at 1. rewrite Mask_Size_CIDRMask by (auto; lia). done.
Qed.

(** A clean network is read back from its text. *)
Lemma ParseCIDR_IPNet_String n : clean_net n ->
  ParseCIDR (IPNet_String n) = Some (To16 (nIP n), n).
Proof.
  intros Hn. destruct (clean_net_size n Hn) as (Hs & _ & Ho). pose proof (cn_canon _ Hn) as Hc.
  pose proof (cn_net _ Hn) as Hnet. set (ones := fst (Mask_Size (nMask n))) in *.
  assert (E : networkNumberAndMask n = (nIP n, nMask n)).
  { destruct Hc as [Hv Hl]. unfold networkNumberAndMask. rewrite (net_mask _ _ _ Hnet), length_CIDRMask.
    destruct (To4_spec (nIP n) Hv) as [(Ev & -> & _)|(Ev & -> & _)]; rewrite Ev in Hl.
    - rewrite To4_4 by done. rewrite Hl. done.
    - cbn [isNil]. by rewrite Hl. }
  unfold IPNet_String. rewrite E. destruct (isNil (nIP n)) eqn:En.
  { destruct Hc as [[_ [L|L]] _]; by destruct (nIP n). }
  rewrite (net_mask _ _ _ Hnet), simpleMaskLength_CIDRMask; [|apply Hc|done].
  unfold ParseCIDR. change ("/" +:+ Itoa ones) with (String "/" (Itoa ones)).
  fold (IP_String (nIP n)). rewrite Cut_app by (apply IP_String_no_char; [apply Hc|done..]).
  cbn [negb]. rewrite parse_addr_String by done.
  rewrite dtoi_Itoa_small by (destruct Hc as [[_ [L|L]] _]; rewrite L in Ho; lia).
  destruct (Z.ltb_spec (8 * Z.of_nat (length (nIP n))) ones); [lia|].
  rewrite netIP_Mask_To16 by apply Hc. rewrite <-(net_ip _ _ _ Hnet), <-(net_mask _ _ _ Hnet).
  by destruct n.
Qed.

(** The assignable addresses of a network: all but the network and the
    broadcast address, both addresses of a point-to-point network, none of a
    network of one address. *)
Definition first_host (n : IPNet) : Z := if host_bits n =? 1 then net_lo n else net_lo n + 1.
Definition last_host (n : IPNet) : Z := if host_bits n =? 1 then net_hi n else net_hi n - 1.

Definition hosts (n : IPNet) : IPRangeList :=
  if host_bits n =? 0 then [] else [NewIPRange (ip_of (first_host n)) (ip_of (last_host n))].

Lemma v4_val_zone v : v4_val v = (zone v =? 1).
Proof. unfold v4_val, zone. destruct (Z.ltb_spec v V4B), (Z.leb_spec v V4M); consts; lia. Qed.

Lemma zone_near a b v : safe a -> safe b -> zone a = zone b -> a - 1 <= v <= b + 1 -> zone v = zone a.
Proof.
  unfold safe, zone. intros Ha Hb Hz Hv.
  destruct (Z.ltb_spec a V4B), (Z.ltb_spec b V4B), (Z.leb_spec a V4M), (Z.leb_spec b V4M);
    try discriminate Hz; destruct (Z.ltb_spec v V4B), (Z.leb_spec v V4M); consts; lia.
Qed.

(** The values of a clean network stay in its block. *)
Lemma clean_net_in n v : clean_net n -> net_lo n - 1 <= v <= net_hi n + 1 ->
  printable v /\ v4_val v = v4_val (net_lo n).
Proof.
  intros [_ _ Hl Hh Hz Hp] Hv. pose proof (zone_near _ _ v Hl Hh Hz Hv) as Ev.
  assert (E4 : v4_val v = v4_val (net_lo n)) by (by rewrite !v4_val_zone, Ev). split; [|done].
  unfold printable. destruct Hp as [Hp|Hp].
  - left. rewrite E4. rewrite v4_val_zone in *.
    by rewrite <-(zone_near _ _ (net_lo n - 1) Hl Hh Hz ltac:(lia)).
  - right. apply safe_bound in Hh. lia.
Qed.

Lemma clean_net_le n : clean_net n -> net_lo n <= net_hi n /\ 0 <= host_bits n.
Proof.
  intros H. pose proof (net_host_bits_nonneg _ _ _ (cn_net _ H)) as Hh.
  pose proof (pow2_pos _ Hh). unfold net_hi. lia.
Qed.

Lemma safe_range v : safe v -> 0 <= v < TOP.
Proof. unfold safe. consts. lia. Qed.

(** Adding an offset that stays in the block commutes with printing. *)
Lemma BigInt2Ip_off n d : clean_net n -> net_lo n - 1 <= net_lo n + d <= net_hi n + 1 ->
  BigInt2Ip (IP2BigInt (netIP_String (nIP n)) + d) = Done (IP_String (ip_of (net_lo n + d))).
Proof.
  intros Hn Hd. destruct (clean_net_in n _ Hn Hd) as [Hp Hv].
  fold (IP_String (nIP n)). rewrite IP2BigInt_String by (apply canon_valid, Hn).
  rewrite <-BigInt2Ip_val by done. f_equal. unfold ip_int. rewrite Hv. unfold net_lo.
  destruct (v4_val (ipv (nIP n))); lia.
Qed.

Lemma pow2_ge_4 h : 2 <= h -> 4 <= 2 ^ h.
Proof. intros. change 4 with (2 ^ 2). apply Z.pow_le_mono_r; lia. Qed.

Lemma FirstIP_clean s ip n : ParseCIDR s = Some (ip, n) -> clean_net n ->
  FirstIP s = Done (Ok (IP_String (ip_of (first_host n)))).
Proof.
  intros E Hn. unfold FirstIP, first_host. rewrite E. destruct (clean_net_size n Hn) as (-> & Hh & _).
  set (ones := fst _) in *. clearbody ones. destruct (clean_net_le n Hn) as [Hle Hnn].
  destruct (Z.eqb_spec (ones + 1) (8 * Z.of_nat (length (nIP n)))) as [H1|H1].
  - destruct (Z.eqb_spec (host_bits n) 1); [|lia]. do 2 f_equal.
    pose proof (cn_canon _ Hn) as Hc. unfold net_lo.
    destruct (ip_of_spec (ipv (nIP n))) as [Hc' Hv]; [apply ipv_bound, Hc|].
    fold (IP_String (nIP n)). by rewrite (canon_inj _ _ Hc' Hc Hv).
  - destruct (Z.eqb_spec (host_bits n) 1); [lia|]. rewrite BigInt2Ip_off by (auto; lia). done.
Qed.

Lemma LastIP_clean s ip n : ParseCIDR s = Some (ip, n) -> clean_net n ->
  LastIP s = Done (Ok (IP_String (ip_of (last_host n)))).
Proof.
  intros E Hn. unfold LastIP, getCIDRSize, last_host, net_hi. rewrite E.
  destruct (clean_net_size n Hn) as (-> & Hh & _).
  set (ones := fst _) in *. clearbody ones. destruct (clean_net_le n Hn) as [Hle Hnn].
  rewrite <-Hh, Z.shiftl_mul_pow2, Z.mul_1_l by done.
  pose proof (pow2_pos _ Hnn). unfold net_hi in Hle.
  destruct (Z.eqb_spec (ones + 1) (8 * Z.of_nat (length (nIP n)))) as [H1|H1].
  - destruct (Z.eqb_spec (host_bits n) 1); [|lia].
    rewrite BigInt2Ip_off by (auto; unfold net_hi; lia). cbn. do 4 f_equal. lia.
  - destruct (Z.eqb_spec (host_bits n) 1); [lia|].
    rewrite BigInt2Ip_off by (auto; unfold net_hi; lia). cbn. do 4 f_equal. lia.
Qed.

Lemma host_bounds n : clean_net n ->
  net_lo n <= first_host n <= net_hi n + 1 /\ net_lo n - 1 <= last_host n <= net_hi n /\
  (host_bits n = 0 -> last_host n < first_host n) /\
  (host_bits n <> 0 -> first_host n <= last_host n).
Proof.
  intros Hn. destruct (clean_net_le n Hn) as [Hle Hnn]. unfold first_host, last_host, net_hi in *.
  destruct (Z.eqb_spec (host_bits n) 1) as [E|E].
  - rewrite E. lia.
  - pose proof (pow2_pos _ Hnn). split; [lia|]. split; [lia|]. split.
    + intros E0. rewrite E0. simpl. lia.
    + intros E0. pose proof (pow2_ge_4 (host_bits n)). lia.
Qed.

Lemma clean_ip_of n v : clean_net n -> net_lo n - 1 <= v <= net_hi n + 1 ->
  canon (ip_of v) /\ ipv (ip_of v) = v.
Proof.
  intros [_ _ Hl Hh _ _] Hv. apply ip_of_spec. unfold safe in *. consts. lia.
Qed.

Lemma hosts_range_ok n : clean_net n -> host_bits n <> 0 ->
  range_ok (NewIPRange (ip_of (first_host n)) (ip_of (last_host n))).
Proof.
  intros Hn H0. destruct (host_bounds n Hn) as (B1 & B2 & _ & B3). specialize (B3 H0).
  destruct (clean_ip_of n (first_host n) Hn) as [C1 E1]; [lia|].
  destruct (clean_ip_of n (last_host n) Hn) as [C2 E2]; [lia|].
  destruct (safe_between _ _ (first_host n) (cn_lo _ Hn) (cn_hi _ Hn) (cn_zone _ Hn)) as [S1 Z1]; [lia|].
  destruct (safe_between _ _ (last_host n) (cn_lo _ Hn) (cn_hi _ Hn) (cn_zone _ Hn)) as [S2 Z2]; [lia|].
  apply range_ok_mk; rewrite ?E1, ?E2; auto. congruence.
Qed.

(** The text composition of [pkg/ipam] computes the assignable addresses. *)
Lemma host_list_clean s ip n : ParseCIDR s = Some (ip, n) -> clean_net n ->
  host_list s = Done (hosts n).
Proof.
  intros E Hn. unfold host_list, hosts. rewrite (FirstIP_clean _ _ _ E Hn), (LastIP_clean _ _ _ E Hn).
  cbn [mbind outcome_bind text_of]. f_equal. destruct (host_bounds n Hn) as (B1 & B2 & B3 & B4).
  destruct (clean_ip_of n (first_host n) Hn) as [C1 E1]; [lia|].
  destruct (clean_ip_of n (last_host n) Hn) as [C2 E2]; [lia|].
  destruct (Z.eqb_spec (host_bits n) 0) as [H0|H0].
  - destruct (range_of_text_err _ _ C1 C2) as [e He]; [rewrite E1, E2; auto|].
    unfold NewIPRangeListFrom. cbn [ranges_from]. by rewrite He.
  - by rewrite (ranges_from_one _ _ (range_of_text _ _ C1 C2 ltac:(rewrite E1, E2; auto))).
Qed.

Lemma hosts_wf n : clean_net n -> wf (hosts n).
Proof.
  intros Hn. unfold hosts. destruct (Z.eqb_spec (host_bits n) 0); [apply wf_nil|].
  apply wf_single. by apply hosts_range_ok.
Qed.

Lemma mem_hosts n v : clean_net n ->
  mem (hosts n) v <-> host_bits n <> 0 /\ first_host n <= v <= last_host n.
Proof.
  intros Hn. destruct (host_bounds n Hn) as (B1 & B2 & B3 & B4). unfold hosts.
  destruct (clean_ip_of n (first_host n) Hn) as [_ E1]; [lia|].
  destruct (clean_ip_of n (last_host n) Hn) as [_ E2]; [lia|].
  destruct (Z.eqb_spec (host_bits n) 0) as [H0|H0]; simpl; [tauto|]. rewrite E1, E2. tauto.
Qed.

(** Assignable addresses are contained in the network. *)
Lemma hosts_contained n ip : clean_net n -> valid_ip ip -> mem (hosts n) (ipv ip) ->
  IPNet_Contains n ip = true.
Proof.
  intros Hn Hip [H0 Hm]%mem_hosts; [|done]. destruct (host_bounds n Hn) as (B1 & B2 & B3 & B4).
  specialize (B4 H0). rewrite (IPNet_Contains_val _ _ _ _ (cn_net _ Hn) Hip).
  destruct (clean_net_in n (ipv ip) Hn) as [_ ->]; [lia|]. rewrite eqb_reflx. lia.
Qed.
