(* ===== verification/Subnet.v ===== *)
(** * [pkg/ipam/subnet.go] and [ippool.go]: the allocator of one subnet

    The Go structure repeats every address field for the two families
    ([V4Free], [V6Free], ...), and every operation on one family has a twin
    on the other with the same statements.  Here the fields of a family are
    one record, and the twin operations are the two instances of one
    definition.  Range lists are mutated in place by Go and never shared
    between two fields, so they are values here.

    Iteration over [IPPools] follows the order Go picks, the parameter
    [iter]; the random source is a list of draws that is consumed; a nil
    dereference is [Panic]. *)
From S2P Require Import Prelude.
From S2P Require Import GoStrings.
From S2P Require Import GoNet.
From S2P Require Import Ip.
From S2P Require Import IpRange.
From S2P Require Import IpRangeList.
From S2P Require Import UtilNet.
From S2P Require Import Hosts.

Local Open Scope Z_scope.

(** ** State *)

Inductive family := V4 | V6.

#[global] Instance family_eq_dec : EqDecision family.
Proof. solve_decision. Defined.

Definition other (f : family) : family := match f with V4 => V6 | V6 => V4 end.

(** The fields of one family of a [Subnet]. *)
Record FamState := mkFam {
  fCIDR : option IPNet;
  fFree : IPRangeList;
  fReserved : IPRangeList;
  fAvailable : IPRangeList;
  fUsing : IPRangeList;
  fNicToIP : gmap string IP;
  fIPToPod : gmap string string;
  fGw : string
}.

(** The fields of one family of an [IPPool]. *)
Record PoolFam := mkPoolFam {
  pIPs : IPRangeList;
  pFree : IPRangeList;
  pAvailable : IPRangeList;
  pReserved : IPRangeList;
  pReleased : IPRangeList;
  pUsing : IPRangeList
}.

Record IPPool := mkPool { pool4 : PoolFam; pool6 : PoolFam }.

Record Subnet := mkSubnet {
  sName : string;
  sCIDR : string;
  sProtocol : string;
  sV4 : FamState;
  sV6 : FamState;
  sNicToMac : gmap string string;
  sMacToPod : gmap string string;
  sPodToNicList : gmap string (list string);
  sGatewayMAC : string;
  sIPPools : gmap string IPPool
}.

(** ** Field updates *)

Definition fam (f : family) (s : Subnet) : FamState := match f with V4 => sV4 s | V6 => sV6 s end.

Definition set_fam (f : family) (x : FamState) (s : Subnet) : Subnet :=
  match s with
  | mkSubnet n c p a b nm mp pn g ps =>
      match f with
      | V4 => mkSubnet n c p x b nm mp pn g ps
      | V6 => mkSubnet n c p a x nm mp pn g ps
      end
  end.

Definition pool_fam (f : family) (p : IPPool) : PoolFam :=
  match f with V4 => pool4 p | V6 => pool6 p end.

Definition set_pool_fam (f : family) (x : PoolFam) (p : IPPool) : IPPool :=
  match f with V4 => mkPool x (pool6 p) | V6 => mkPool (pool4 p) x end.

Definition set_pools (ps : gmap string IPPool) (s : Subnet) : Subnet :=
  match s with mkSubnet n c p a b nm mp pn g _ => mkSubnet n c p a b nm mp pn g ps end.

Definition set_macs (nm mp : gmap string string) (s : Subnet) : Subnet :=
  match s with mkSubnet n c p a b _ _ pn g ps => mkSubnet n c p a b nm mp pn g ps end.

Definition set_nics (pn : gmap string (list string)) (s : Subnet) : Subnet :=
  match s with mkSubnet n c p a b nm mp _ g ps => mkSubnet n c p a b nm mp pn g ps end.

(** New contents of the two maps of a family. *)
Definition with_maps (nics : gmap string IP) (pods : gmap string string) (x : FamState) : FamState :=
  mkFam (fCIDR x) (fFree x) (fReserved x) (fAvailable x) (fUsing x) nics pods (fGw x).

(** [pool.Vx... = x] for the pool named [k]. *)
Definition put_pool (f : family) (k : string) (x : PoolFam) (s : Subnet) : Subnet :=
  set_pools (alter (set_pool_fam f x) k (sIPPools s)) s.

(** [m[k]] of a Go map: the zero value when the key is missing. *)
Definition go_get {A} (zero : A) (m : gmap string A) (k : string) : A := default zero (m !! k).

Definition NicIP (f : family) (s : Subnet) (nic : string) : IP := go_get [] (fNicToIP (fam f s)) nic.

(** ** Construction *)

Definition empty_fam : FamState := mkFam None [] [] [] [] ∅ ∅ "".

Definition empty_pool_fam : PoolFam :=
  mkPoolFam NewEmptyIPRangeList NewEmptyIPRangeList NewEmptyIPRangeList
            NewEmptyIPRangeList NewEmptyIPRangeList NewEmptyIPRangeList.

(** The state of one family of a new subnet with network [cidr], assignable
    addresses [ips] and reserved addresses [reserved], and its default pool. *)
Definition new_fam (cidr : option IPNet) (ips reserved : IPRangeList) : FamState * PoolFam :=
  let poolIPs := IPRangeList_Clone ips in
  let free := IPRangeList_Separate ips reserved in
  let available := IPRangeList_Clone free in
  (mkFam cidr free reserved available NewEmptyIPRangeList ∅ ∅ "",
   mkPoolFam poolIPs (IPRangeList_Clone free) (IPRangeList_Clone available)
             (IPRangeList_Clone reserved) NewEmptyIPRangeList NewEmptyIPRangeList).

(** [cidrs]: one network per comma-separated block. *)
Fixpoint parse_cidrs (blocks : list string) : result (list IPNet) :=
  match blocks with
  | [] => Ok []
  | b :: blocks' =>
      match ParseCIDR b with
      | None => Err ErrInvalidCIDR
      | Some (_, n) => rest ← parse_cidrs blocks'; Ok (n :: rest)
      end
  end.

Definition NewSubnet (name cidrStr : string) (excludeIps : list string) : outcome (result Subnet) :=
  match parse_cidrs (Split cidrStr ",") with
  | Err e => Done (Err e)
  | Ok cidrs =>
      excl ← ExpandExcludeIPs excludeIps cidrStr;
      let '(v4Exclude, v6Exclude) := SplitIpsByProtocol excl in
      match NewIPRangeListFrom v4Exclude with
      | Err e => Done (Err e)
      | Ok v4Reserved =>
          match NewIPRangeListFrom v6Exclude with
          | Err e => Done (Err e)
          | Ok v6Reserved =>
              let protocol := CheckProtocol cidrStr in
              let build v4CIDR v4IPs v6CIDR v6IPs :=
                let '(s4, p4) := new_fam v4CIDR v4IPs v4Reserved in
                let '(s6, p6) := new_fam v6CIDR v6IPs v6Reserved in
                Done (Ok (mkSubnet name cidrStr protocol s4 s6 ∅ ∅ ∅ ""
                                   {[ "" := mkPool p4 p6 ]})) in
              if bool_decide (protocol = ProtocolIPv4) then
                ips ← host_list cidrStr;
                c0 ← of_option (cidrs !! 0%nat);
                build (Some c0) ips None []
              else if bool_decide (protocol = ProtocolIPv6) then
                ips ← host_list cidrStr;
                c0 ← of_option (cidrs !! 0%nat);
                build None [] (Some c0) ips
              else
                c0 ← of_option (cidrs !! 0%nat);
                c1 ← of_option (cidrs !! 1%nat);
                b0 ← of_option (Split cidrStr "," !! 0%nat);
                b1 ← of_option (Split cidrStr "," !! 1%nat);
                ips4 ← host_list b0;
                ips6 ← host_list b1;
                build (Some c0) ips4 (Some c1) ips6
          end
      end
  end.

Definition NewMacOnlySubnet (name : string) : Subnet :=
  mkSubnet name "" ProtocolMac empty_fam empty_fam ∅ ∅ ∅ ""
           {[ "" := mkPool empty_pool_fam empty_pool_fam ]}.

(** ** MAC addresses *)

(** The loop of [GetRandomMac]; every round takes a draw, so as many rounds
    as draws are enough. *)
Fixpoint random_mac (fuel : nat) (exclusionMACs : list string) (macToPod : gmap string string)
    (rnd : list bytes) : outcome (string * list bytes) :=
  match fuel with
  | O => Starved
  | S k =>
      '(mac, rnd') ← GenerateMacWithExclusion exclusionMACs rnd;
      match macToPod !! mac with
      | None => Done (mac, rnd')
      | Some _ => random_mac k exclusionMACs macToPod rnd'
      end
  end.

Definition GetRandomMac (s : Subnet) (podName nicName : string) (rnd : list bytes)
    : outcome (Subnet * list bytes * string) :=
  match sNicToMac s !! nicName with
  | Some mac => Done (s, rnd, mac)
  | None =>
      let exclusionMACs := if bool_decide (sGatewayMAC s = "") then [] else [sGatewayMAC s] in
      '(mac, rnd') ← random_mac (length rnd) exclusionMACs (sMacToPod s) rnd;
      Done (set_macs (<[nicName := mac]> (sNicToMac s)) (<[mac := podName]> (sMacToPod s)) s, rnd', mac)
  end.

Definition GetStaticMac (s : Subnet) (podName nicName mac : string) (checkConflict : bool)
    : Subnet * option err :=
  if bool_decide (mac = "") then (s, None)
  else if checkConflict &&
          (match sMacToPod s !! mac with Some p => negb (bool_decide (p = podName)) | None => false end)
  then (s, Some ErrConflict)
  else if checkConflict && negb (bool_decide (sGatewayMAC s = "")) && bool_decide (mac = sGatewayMAC s)
  then (s, Some ErrConflict)
  else (set_macs (<[nicName := mac]> (sNicToMac s)) (<[mac := podName]> (sMacToPod s)) s, None).

(** ** The interfaces of a pod *)

Definition pushPodNic (podName nicName : string) (s : Subnet) : Subnet :=
  if negb (isNil (NicIP V4 s nicName)) || negb (isNil (NicIP V6 s nicName)) ||
     negb (bool_decide (go_get "" (sNicToMac s) nicName = ""))
  then set_nics (<[podName := Compact (go_get [] (sPodToNicList s) podName ++ [nicName])]>
                   (sPodToNicList s)) s
  else s.

Definition popPodNic (podName nicName : string) (s : Subnet) : Subnet :=
  let l := RemoveString (go_get [] (sPodToNicList s) podName) nicName in
  set_nics (match l with
            | [] => delete podName (sPodToNicList s)
            | _ => <[podName := l]> (sPodToNicList s)
            end) s.

Section Operations.

(** The order in which Go ranges over the pools. *)
Context (iter : gmap string IPPool -> list (string * IPPool)).

(** ** Release *)

(** What the pool that was using the address gives up, and takes back unless
    [changed]. *)
Definition give_pool (ip : IP) (changed : bool) (x : PoolFam) : PoolFam :=
  let used := fst (IPRangeList_Remove (pUsing x) ip) in
  if changed
  then mkPoolFam (pIPs x) (pFree x) (pAvailable x) (pReserved x) (pReleased x) used
  else mkPoolFam (pIPs x) (pFree x) (fst (IPRangeList_Add (pAvailable x) ip)) (pReserved x)
                 (fst (IPRangeList_Add (pReleased x) ip)) used.

(** The loop over the pools of [releaseV4Addr]: the first pool that is using
    the address gives it up. *)
Fixpoint release_pools (f : family) (ip : IP) (changed : bool)
    (order : list (string * IPPool)) (s : Subnet) : Subnet :=
  match order with
  | [] => s
  | (k, p) :: order' =>
      let x := pool_fam f p in
      if snd (IPRangeList_Remove (pUsing x) ip) then put_pool f k (give_pool ip changed x) s
      else release_pools f ip changed order' s
  end.

(** The lists of the subnet after the release. *)
Definition give_fam (ip : IP) (changed : bool) (x : FamState) : FamState :=
  mkFam (fCIDR x) (fFree x) (fReserved x)
        (if changed then fAvailable x else fst (IPRangeList_Add (fAvailable x) ip))
        (fst (IPRangeList_Remove (fUsing x) ip)) (fNicToIP x) (fIPToPod x) (fGw x).

(** The MAC is dropped once the other family holds no address of the nic. *)
Definition release_mac (f : family) (nicName : string) (s : Subnet) : Subnet :=
  match sNicToMac s !! nicName with
  | Some mac =>
      match fNicToIP (fam (other f) s) !! nicName with
      | Some _ => s
      | None => set_macs (delete nicName (sNicToMac s)) (delete mac (sMacToPod s)) s
      end
  | None => s
  end.

(** [releaseV4Addr] and [releaseV6Addr]. *)
Definition release_fam (f : family) (podName nicName : string) (s : Subnet) : outcome Subnet :=
  let x := fam f s in
  match fNicToIP x !! nicName with
  | None => Done s
  | Some ip =>
      let key := IP_String ip in
      let oldPods := Split (go_get "" (fIPToPod x) key) "," in
      if (1 <? length oldPods)%nat then
        let newPods := RemoveString oldPods podName in
        Done (set_fam f (with_maps (fNicToIP x) (<[key := Join newPods ","]> (fIPToPod x)) x) s)
      else
        let s1 := set_fam f (with_maps (delete nicName (fNicToIP x)) (delete key (fIPToPod x)) x) s in
        let s2 := release_mac f nicName s1 in
        cidr ← of_option (fCIDR x);
        let changed := negb (IPNet_Contains cidr ip) || IPRangeList_Contains (fReserved x) ip in
        let s3 := set_fam f (give_fam ip changed (fam f s2)) s2 in
        Done (release_pools f ip changed (iter (sIPPools s3)) s3)
  end.

Definition releaseV4Addr := release_fam V4.
Definition releaseV6Addr := release_fam V6.

Definition releaseAddr (podName nicName : string) (s : Subnet) : outcome Subnet :=
  s1 ← releaseV4Addr podName nicName s;
  s2 ← releaseV6Addr podName nicName s1;
  match fNicToIP (sV4 s2) !! nicName, fNicToIP (sV6 s2) !! nicName with
  | None, None =>
      match sNicToMac s2 !! nicName with
      | Some mac => Done (set_macs (delete nicName (sNicToMac s2)) (delete mac (sMacToPod s2)) s2)
      | None => Done s2
      end
  | _, _ => Done s2
  end.

Definition ReleaseAddressWithNicName (podName nicName : string) (s : Subnet) : outcome Subnet :=
  s1 ← releaseAddr podName nicName s;
  Done (popPodNic podName nicName s1).

(** The list of nics is read once; [popPodNic] builds new lists. *)
Fixpoint release_nics (podName : string) (nics : list string) (s : Subnet) : outcome Subnet :=
  match nics with
  | [] => Done s
  | nicName :: nics' =>
      s1 ← releaseAddr podName nicName s;
      release_nics podName nics' (popPodNic podName nicName s1)
  end.

Definition ReleaseAddress (podName : string) (s : Subnet) : outcome Subnet :=
  release_nics podName (go_get [] (sPodToNicList s) podName) s.

(** ** Random allocation *)

(** The entries of [skippedAddrs] that parse. *)
Definition parse_skipped (skippedAddrs : list string) : list IP :=
  skippedAddrs ≫= fun a => match NewIP a with Ok ip => if isNil ip then [] else [ip] | Err _ => [] end.

(** Refill [Free] from [Released] when it is used up. *)
Definition refill (x : PoolFam) : PoolFam :=
  let free := IPRangeList_Separate (pFree x) (pReserved x) in
  if (IPRangeList_Len free =? 0)%nat
  then mkPoolFam (pIPs x) (IPRangeList_Separate (pReleased x) (pReserved x)) (pAvailable x)
                 (pReserved x) NewEmptyIPRangeList (pUsing x)
  else mkPoolFam (pIPs x) free (pAvailable x) (pReserved x) (pReleased x) (pUsing x).

(** The lists after a random allocation of [ip]; [free] is what [Allocate]
    left in the pool's [Free]. *)
Definition take_pool (free : IPRangeList) (ip : IP) (x : PoolFam) : PoolFam :=
  mkPoolFam (pIPs x) free (fst (IPRangeList_Remove (pAvailable x) ip)) (pReserved x) (pReleased x)
            (fst (IPRangeList_Add (pUsing x) ip)).

Definition take_fam (free : IPRangeList) (ip : IP) (x : FamState) : FamState :=
  mkFam (fCIDR x) free (fReserved x) (fst (IPRangeList_Remove (fAvailable x) ip))
        (fst (IPRangeList_Add (fUsing x) ip)) (fNicToIP x) (fIPToPod x) (fGw x).

(** The record of the nic and the owner of the address. *)
Definition assign (f : family) (nicName pods : string) (ip : IP) (s : Subnet) : Subnet :=
  let x := fam f s in
  set_fam f (with_maps (<[nicName := ip]> (fNicToIP x)) (<[IP_String ip := pods]> (fIPToPod x)) x) s.

Definition take_random (f : family) (k podName nicName : string) (x : PoolFam) (free : IPRangeList)
    (ip : IP) (s : Subnet) : Subnet :=
  let s1 := put_pool f k (take_pool free ip x) s in
  let y := fam f s1 in
  let s2 := set_fam f (take_fam (fst (IPRangeList_Remove (fFree y) ip)) ip y) s1 in
  assign f nicName podName ip s2.

(** The part of [getV4RandomAddress] after the cached address was dealt with. *)
Definition allocate_random (f : family) (ippoolName podName nicName : string) (mac : option string)
    (skippedAddrs : list string) (checkConflict : bool) (s : Subnet) (rnd : list bytes)
    : outcome (Subnet * list bytes * result (IP * string)) :=
  match sIPPools s !! ippoolName with
  | None => Done (s, rnd, Err ErrNoAvailable)
  | Some pool =>
      let x := refill (pool_fam f pool) in
      let s1 := put_pool f ippoolName x s in
      if (IPRangeList_Len (pFree x) =? 0)%nat then Done (s1, rnd, Err ErrNoAvailable)
      else
        let '(free, ip) := IPRangeList_Allocate (pFree x) (parse_skipped skippedAddrs) in
        if isNil ip then Done (s1, rnd, Err ErrConflict)
        else
          let s2 := pushPodNic podName nicName (take_random f ippoolName podName nicName x free ip s1) in
          match mac with
          | None =>
              '(s3, rnd', m) ← GetRandomMac s2 podName nicName rnd;
              Done (s3, rnd', Ok (ip, m))
          | Some m =>
              match GetStaticMac s2 podName nicName m checkConflict with
              | (s3, Some e) =>
                  s4 ← release_fam f podName nicName s3;
                  Done (popPodNic podName nicName s4, rnd, Err e)
              | (s3, None) => Done (s3, rnd, Ok (ip, m))
              end
          end
  end.

(** [getV4RandomAddress] and [getV6RandomAddress]. *)
Definition get_random (f : family) (ippoolName podName nicName : string) (mac : option string)
    (skippedAddrs : list string) (checkConflict : bool) (s : Subnet) (rnd : list bytes)
    : outcome (Subnet * list bytes * result (IP * string)) :=
  let cur := NicIP f s nicName in
  let curMac := go_get "" (sNicToMac s) nicName in
  if negb (isNil cur) && (negb (bool_decide (curMac = "")) || bool_decide (mac = Some "")) then
    if negb (slice_contains skippedAddrs (IP_String cur)) then Done (s, rnd, Ok (cur, curMac))
    else s1 ← release_fam f podName nicName s;
         allocate_random f ippoolName podName nicName mac skippedAddrs checkConflict s1 rnd
  else allocate_random f ippoolName podName nicName mac skippedAddrs checkConflict s rnd.

Definition getV4RandomAddress := get_random V4.
Definition getV6RandomAddress := get_random V6.

Definition GetRes := (IP * IP * string)%type.

(** The [(IP, IP, string, error)] of a family: the address goes to its place. *)
Definition place (f : family) (r : result (IP * string)) : result GetRes :=
  match r with
  | Ok (ip, m) => Ok (match f with V4 => (ip, [], m) | V6 => ([], ip, m) end)
  | Err e => Err e
  end.

Definition getMacOnlyAddress (podName nicName : string) (mac : option string) (checkConflict : bool)
    (s : Subnet) (rnd : list bytes) : outcome (Subnet * list bytes * result GetRes) :=
  match mac with
  | None | Some EmptyString =>
      '(s1, rnd', m) ← GetRandomMac s podName nicName rnd;
      Done (s1, rnd', Ok ([], [], m))
  | Some m =>
      match GetStaticMac s podName nicName m checkConflict with
      | (s1, Some e) => Done (s1, rnd, Err e)
      | (s1, None) => Done (s1, rnd, Ok ([], [], m))
      end
  end.

Definition getDualRandomAddress (poolName podName nicName : string) (mac : option string)
    (skippedAddrs : list string) (checkConflict : bool) (s : Subnet) (rnd : list bytes)
    : outcome (Subnet * list bytes * result GetRes) :=
  let existingV4 := NicIP V4 s nicName in
  '(s1, rnd1, r4) ← getV4RandomAddress poolName podName nicName mac skippedAddrs checkConflict s rnd;
  match r4 with
  | Err e => Done (s1, rnd1, Err e)
  | Ok (v4IP, _) =>
      '(s2, rnd2, r6) ← getV6RandomAddress poolName podName nicName mac skippedAddrs checkConflict s1 rnd1;
      match r6 with
      | Err e =>
          if isNil existingV4 || negb (IP_Equal existingV4 v4IP) then
            s3 ← releaseV4Addr podName nicName s2;
            Done (popPodNic podName nicName s3, rnd2, Err e)
          else Done (s2, rnd2, Err e)
      | Ok (v6IP, macStr) =>
          if negb (IP_Equal (NicIP V4 s2 nicName) v4IP) then
            '(s3, rnd3, r4') ← getV4RandomAddress poolName podName nicName mac skippedAddrs checkConflict s2 rnd2;
            Done (s3, rnd3, Ok (match r4' with Ok (ip, _) => ip | Err _ => [] end, v6IP, macStr))
          else Done (s2, rnd2, Ok (v4IP, v6IP, macStr))
      end
  end.

(** The body of [GetRandomAddressWithFamily], before the deferred call. *)
Definition get_random_body (poolName podName nicName : string) (mac : option string) (ipFamily : string)
    (skippedAddrs : list string) (checkConflict : bool) (s : Subnet) (rnd : list bytes)
    : outcome (Subnet * list bytes * result GetRes) :=
  let v4 := '(s1, rnd1, r) ← getV4RandomAddress poolName podName nicName mac skippedAddrs checkConflict s rnd;
            Done (s1, rnd1, place V4 r) in
  let v6 := '(s1, rnd1, r) ← getV6RandomAddress poolName podName nicName mac skippedAddrs checkConflict s rnd;
            Done (s1, rnd1, place V6 r) in
  if negb (bool_decide (ipFamily = "")) && negb (bool_decide (sProtocol s = ProtocolDual)) &&
     negb (bool_decide (sProtocol s = ProtocolMac)) && negb (bool_decide (ipFamily = sProtocol s))
  then Done (s, rnd, Err ErrInvalidIPFamily)
  else if bool_decide (sProtocol s = ProtocolMac)
  then getMacOnlyAddress podName nicName mac checkConflict s rnd
  else if bool_decide (sProtocol s = ProtocolDual) then
    if bool_decide (ipFamily = ProtocolIPv4) then v4
    else if bool_decide (ipFamily = ProtocolIPv6) then v6
    else getDualRandomAddress poolName podName nicName mac skippedAddrs checkConflict s rnd
  else if bool_decide (sProtocol s = ProtocolIPv4) then v4
  else v6.

Definition GetRandomAddressWithFamily (poolName podName nicName : string) (mac : option string)
    (ipFamily : string) (skippedAddrs : list string) (checkConflict : bool) (s : Subnet) (rnd : list bytes)
    : outcome (Subnet * list bytes * result GetRes) :=
  '(s1, rnd1, r) ← get_random_body poolName podName nicName mac ipFamily skippedAddrs checkConflict s rnd;
  Done (pushPodNic podName nicName s1, rnd1, r).

Definition GetRandomAddress (poolName podName nicName : string) (mac : option string)
    (skippedAddrs : list string) (checkConflict : bool) (s : Subnet) (rnd : list bytes)
    : outcome (Subnet * list bytes * result GetRes) :=
  GetRandomAddressWithFamily poolName podName nicName mac "" skippedAddrs checkConflict s rnd.

(** ** Static allocation *)

(** The loop over the pools of [staticAddressFamilyForIP]: the name of the
    pool that holds the address. *)
Fixpoint find_pool (f : family) (ip : IP) (order : list (string * IPPool)) : option string :=
  match order with
  | [] => None
  | (k, p) :: order' =>
      if IPRangeList_Contains (pIPs (pool_fam f p)) ip then Some k else find_pool f ip order'
  end.

(** [net.IP(ip).Equal(net.ParseIP(gateway))] of [staticAddressFamilyForIP]. *)
Definition staticAddressFamilyForIP (ip : IP) (checkConflict : bool) (s : Subnet)
    : result (family * string) :=
  let f := if negb (isNil (To4 ip)) then V4 else V6 in
  let x := fam f s in
  match fCIDR x with
  | None => Err ErrOutOfRange
  | Some cidr =>
      if negb (IPNet_Contains cidr ip) then Err ErrOutOfRange
      else match find_pool f ip (iter (sIPPools s)) with
           | None => Err ErrOutOfRange
           | Some k =>
               if checkConflict && netIP_Equal ip (ParseIP (fGw x)) then Err ErrConflict
               else Ok (f, k)
           end
  end.

Definition releaseCurrentStaticAddress (f : family) (podName nicName : string) (ip : IP) (s : Subnet)
    : outcome Subnet :=
  let current := NicIP f s nicName in
  if negb (isNil current) && negb (IP_Equal current ip) then release_fam f podName nicName s else Done s.

Definition set_free (f : family) (free : IPRangeList) (s : Subnet) : Subnet :=
  let x := fam f s in
  set_fam f (mkFam (fCIDR x) free (fReserved x) (fAvailable x) (fUsing x) (fNicToIP x) (fIPToPod x) (fGw x)) s.

(** The [switch] of [allocateStaticAddress]: where the address is taken from. *)
Definition take_static (f : family) (k : string) (ip : IP) (s : Subnet) : option Subnet :=
  match sIPPools s !! k with
  | None => None
  | Some p =>
      let x := pool_fam f p in
      if IPRangeList_Contains (pReserved x) ip then Some s
      else
        let '(free, ok) := IPRangeList_Remove (pFree x) ip in
        if ok then
          Some (set_free f (fst (IPRangeList_Remove (fFree (fam f s)) ip))
                 (put_pool f k (mkPoolFam (pIPs x) free (pAvailable x) (pReserved x) (pReleased x) (pUsing x)) s))
        else
          let '(released, ok') := IPRangeList_Remove (pReleased x) ip in
          if ok' then
            Some (put_pool f k (mkPoolFam (pIPs x) (pFree x) (pAvailable x) (pReserved x) released (pUsing x)) s)
          else None
  end.

(** The state, whether the address was newly taken, and the error. *)
Definition allocateStaticAddress (f : family) (k podName nicName : string) (ip : IP)
    (force checkConflict : bool) (s : Subnet) : Subnet * result bool :=
  let take :=
    match take_static f k ip s with
    | None => (s, Err ErrNoAvailable)
    | Some s' => (assign f nicName podName ip s', Ok true)
    end in
  match fIPToPod (fam f s) !! IP_String ip with
  | None => take
  | Some existPod =>
      let pods := Split existPod "," in
      if negb (slice_contains pods podName) then
        if negb checkConflict
        then (assign f nicName (existPod +:+ "," +:+ podName) ip s, Ok false)
        else (s, Err ErrConflict)
      else if negb force then (s, Ok false)
      else take
  end.

Definition markStaticAddressAllocated (f : family) (k : string) (ip : IP) (s : Subnet) : Subnet :=
  let y := fam f s in
  let s1 := set_fam f (take_fam (fFree y) ip y) s in
  match sIPPools s1 !! k with
  | None => s1
  | Some p => let x := pool_fam f p in put_pool f k (take_pool (pFree x) ip x) s1
  end.

(** The MAC of a static request. *)
Definition static_mac (podName nicName : string) (mac : option string) (checkConflict : bool)
    (s : Subnet) (rnd : list bytes) : outcome (Subnet * list bytes * result string) :=
  match mac with
  | None =>
      match sNicToMac s !! nicName with
      | Some m => Done (s, rnd, Ok m)
      | None => '(s1, rnd', m) ← GetRandomMac s podName nicName rnd; Done (s1, rnd', Ok m)
      end
  | Some m =>
      match GetStaticMac s podName nicName m checkConflict with
      | (s1, Some e) => Done (s1, rnd, Err e)
      | (s1, None) => Done (s1, rnd, Ok m)
      end
  end.

Definition GetStaticAddress (podName nicName : string) (ip : IP) (mac : option string)
    (force checkConflict : bool) (s : Subnet) (rnd : list bytes)
    : outcome (Subnet * list bytes * result (IP * string)) :=
  match staticAddressFamilyForIP ip checkConflict s with
  | Err e => Done (s, rnd, Err e)
  | Ok (f, k) =>
      s1 ← releaseCurrentStaticAddress f podName nicName ip s;
      '(s2, rnd2, rm) ← static_mac podName nicName mac checkConflict s1 rnd;
      match rm with
      | Err e => Done (pushPodNic podName nicName s2, rnd2, Err e)
      | Ok macStr =>
          let '(s3, ra) := allocateStaticAddress f k podName nicName ip force checkConflict s2 in
          match ra with
          | Err e => Done (pushPodNic podName nicName s3, rnd2, Err e)
          | Ok allocated =>
              let s4 := if allocated then markStaticAddressAllocated f k ip s3 else s3 in
              Done (pushPodNic podName nicName s4, rnd2, Ok (ip, macStr))
          end
      end
  end.

(** ** Pools *)

(** The loop that looks for an overlap with another named pool. *)
Fixpoint pool_conflict (f : family) (name : string) (ips : IPRangeList) (order : list (string * IPPool))
    : option err :=
  match order with
  | [] => None
  | (k, v) :: order' =>
      if bool_decide (k = "") || bool_decide (k = name) then pool_conflict f name ips order'
      else
        let r := IPRangeList_Intersect ips (pIPs (pool_fam f v)) in
        if negb (IPRangeList_Len r =? 0)%nat
        then Some (Errorf "ippool %s has conflict IPs with ippool %s: %s" [name; k; IPRangeList_String r])
        else pool_conflict f name ips order'
  end.

(** One family of the pool [AddOrUpdateIPPool] builds. *)
Definition new_pool_fam (f : family) (name : string) (ips : list string) (s : Subnet)
    : outcome (result PoolFam) :=
  let x := fam f s in
  match fCIDR x with
  | None => Done (Ok empty_pool_fam)
  | Some cidr =>
      match NewIPRangeListFrom ips with
      | Err e => Done (Err e)
      | Ok poolIPs =>
          match pool_conflict f name poolIPs (iter (sIPPools s)) with
          | Some e => Done (Err e)
          | None =>
              hosts ← host_list (IPNet_String cidr);
              let reserved := IPRangeList_Intersect (fReserved x) poolIPs in
              let used := IPRangeList_Intersect (fUsing x) poolIPs in
              let free := IPRangeList_Separate
                            (IPRangeList_Separate (IPRangeList_Intersect hosts poolIPs) used) reserved in
              Done (Ok (mkPoolFam poolIPs free (IPRangeList_Clone free) reserved NewEmptyIPRangeList used))
          end
      end
  end.

(** One family of the default pool after the pool [new] was added, in place
    of [old] when there was one. *)
Definition shrink_default (reserved : IPRangeList) (old : option PoolFam) (new d : PoolFam) : PoolFam :=
  let grow sel := match old with
                  | Some p => IPRangeList_Merge (sel d) (sel p)
                  | None => sel d
                  end in
  let free := IPRangeList_Separate (IPRangeList_Separate (grow pAvailable) (pFree new)) reserved in
  mkPoolFam (IPRangeList_Separate (grow pIPs) (pIPs new)) free (IPRangeList_Clone free)
            (IPRangeList_Separate (grow pReserved) (pReserved new)) NewEmptyIPRangeList
            (IPRangeList_Separate (grow pUsing) (pUsing new)).

Definition AddOrUpdateIPPool (name : string) (ips : list string) (s : Subnet)
    : outcome (Subnet * option err) :=
  let '(v4IPs, v6IPs) := SplitIpsByProtocol ips in
  r4 ← new_pool_fam V4 name v4IPs s;
  match r4 with
  | Err e => Done (s, Some e)
  | Ok p4 =>
      r6 ← new_pool_fam V6 name v6IPs s;
      match r6 with
      | Err e => Done (s, Some e)
      | Ok p6 =>
          d ← of_option (sIPPools s !! "");
          let old := sIPPools s !! name in
          let d' := mkPool (shrink_default (fReserved (sV4 s)) (pool4 <$> old) p4 (pool4 d))
                           (shrink_default (fReserved (sV6 s)) (pool6 <$> old) p6 (pool6 d)) in
          Done (set_pools (<[name := mkPool p4 p6]> (<["" := d']> (sIPPools s))) s, None)
      end
  end.

(** One family of the default pool after the pool [p] was given back. *)
Definition grow_default (d p : PoolFam) : PoolFam :=
  mkPoolFam (IPRangeList_Merge (pIPs d) (pIPs p)) (IPRangeList_Merge (pFree d) (pFree p))
            (IPRangeList_Merge (pAvailable d) (pAvailable p))
            (IPRangeList_Merge (pReserved d) (pReserved p))
            (IPRangeList_Merge (pReleased d) (pReleased p))
            (IPRangeList_Merge (pUsing d) (pUsing p)).

Definition RemoveIPPool (name : string) (s : Subnet) : outcome Subnet :=
  match sIPPools s !! name with
  | None => Done s
  | Some p =>
      d ← of_option (sIPPools s !! "");
      let d' := mkPool (grow_default (pool4 d) (pool4 p)) (grow_default (pool6 d) (pool6 p)) in
      Done (set_pools (delete name (<["" := d']> (sIPPools s))) s)
  end.

End Operations.

(** ** Queries *)

(** Counts and ranges: available and using, for v4 and v6. *)
Record PoolStatistics := mkStats {
  v4AvailableCount : Z; v4UsingCount : Z; v6AvailableCount : Z; v6UsingCount : Z;
  v4AvailableRange : string; v4UsingRange : string; v6AvailableRange : string; v6UsingRange : string
}.

Definition IPPoolStatistics (ippool : string) (s : Subnet) : PoolStatistics :=
  match sIPPools s !! ippool with
  | None => mkStats 0 0 0 0 "" "" "" ""
  | Some p =>
      mkStats (IPRangeList_Count (pAvailable (pool4 p))) (IPRangeList_Count (pUsing (pool4 p)))
              (IPRangeList_Count (pAvailable (pool6 p))) (IPRangeList_Count (pUsing (pool6 p)))
              (IPRangeList_String (pAvailable (pool4 p))) (IPRangeList_String (pUsing (pool4 p)))
              (IPRangeList_String (pAvailable (pool6 p))) (IPRangeList_String (pUsing (pool6 p)))
  end.

Definition ContainAddress (address : IP) (s : Subnet) : bool :=
  bool_decide (is_Some (fIPToPod (sV4 s) !! IP_String address)) ||
  bool_decide (is_Some (fIPToPod (sV6 s) !! IP_String address)).

Definition GetPodAddress (nicName : string) (s : Subnet) : IP * IP * string * string :=
  let mac := go_get "" (sNicToMac s) nicName in
  if bool_decide (sProtocol s = ProtocolIPv4) then (NicIP V4 s nicName, [], mac, ProtocolIPv4)
  else if bool_decide (sProtocol s = ProtocolIPv6) then ([], NicIP V6 s nicName, mac, ProtocolIPv6)
  else (NicIP V4 s nicName, NicIP V6 s nicName, mac, ProtocolDual).

(** The other owner of an address in one family. *)
Definition other_owner (m : gmap string string) (ip podName : string) : option string :=
  existPod ← m !! ip;
  if negb (slice_contains (Split existPod ",") podName) then Some existPod else None.

Definition isIPAssignedToOtherPod (ip podName : string) (s : Subnet) : string * bool :=
  match other_owner (fIPToPod (sV4 s)) ip podName with
  | Some p => (p, true)
  | None => match other_owner (fIPToPod (sV6 s)) ip podName with
            | Some p => (p, true)
            | None => ("", false)
            end
  end.
