(* ===== verification/SubnetInv.v ===== *)
(** * The invariant of a subnet: its lists

    For one family of a subnet and of its pools the invariant says what each
    range list is, as a set of addresses: the available addresses are the
    assignable ones that are neither used nor reserved, the pools split the
    address space, and each list of a pool is the part of the subnet's list
    that falls in the pool.  Every operation keeps it, whatever the order of
    the calls and whether or not addresses are shared. *)
From S2P Require Import Prelude.
From S2P Require Import GoStrings.
From S2P Require Import GoNet.
From S2P Require Import GoNetText.
From S2P Require Import Ip.
From S2P Require Import IpRange.
From S2P Require Import IpRangeList.
From S2P Require Import IpRangeListFacts.
From S2P Require Import UtilNet.
From S2P Require Import Hosts.
From S2P Require Import Subnet.

Local Open Scope Z_scope.

(** ** Adding and removing one address *)

Lemma Add_set l ip : wf l -> canon ip -> safe (ipv ip) ->
  wf (fst (IPRangeList_Add l ip)) /\
  forall v, mem (fst (IPRangeList_Add l ip)) v <-> v = ipv ip \/ mem l v.
Proof.
  intros Hl Hc Hs. pose proof (IPRangeList_Add_ok l ip Hl Hc Hs) as H.
  destruct (IPRangeList_Add l ip). tauto.
Qed.

Lemma Remove_set l ip : wf l -> canon ip ->
  wf (fst (IPRangeList_Remove l ip)) /\
  (forall v, mem (fst (IPRangeList_Remove l ip)) v <-> mem l v /\ v <> ipv ip) /\
  snd (IPRangeList_Remove l ip) = bool_decide (mem l (ipv ip)).
Proof.
  intros Hl Hc. pose proof (IPRangeList_Remove_ok l ip Hl Hc) as H.
  destruct (IPRangeList_Remove l ip). tauto.
Qed.

(** ** The invariant *)

Definition hosts_of (x : FamState) : IPRangeList :=
  match fCIDR x with Some n => hosts n | None => [] end.

Definition cidr_ok (x : FamState) : Prop :=
  match fCIDR x with Some n => clean_net n | None => True end.

Record pool_wf (p : PoolFam) : Prop := {
  pw_ips : wf (pIPs p);
  pw_free : wf (pFree p);
  pw_avail : wf (pAvailable p);
  pw_res : wf (pReserved p);
  pw_rel : wf (pReleased p);
  pw_using : wf (pUsing p)
}.

(** A pool of a subnet. *)
Record pool_inv (x : FamState) (p : PoolFam) : Prop := {
  pi_wf : pool_wf p;
  pi_avail : forall v, mem (pAvailable p) v <-> mem (fAvailable x) v /\ mem (pIPs p) v;
  pi_split : forall v, mem (pAvailable p) v <-> mem (pFree p) v \/ mem (pReleased p) v;
  pi_apart : forall v, mem (pFree p) v -> mem (pReleased p) v -> False;
  pi_using : forall v, mem (pUsing p) v <-> mem (fUsing x) v /\ mem (pIPs p) v;
  pi_res_sub : forall v, mem (pReserved p) v -> mem (fReserved x) v;
  pi_res : forall v, mem (fReserved x) v -> mem (pIPs p) v -> mem (pReserved p) v;
  pi_rel : forall v, mem (pReleased p) v -> ~ mem (fFree x) v
}.

Record lists_inv (x : FamState) (ps : gmap string PoolFam) : Prop := {
  li_cidr : cidr_ok x;
  li_wf_free : wf (fFree x);
  li_wf_res : wf (fReserved x);
  li_wf_avail : wf (fAvailable x);
  li_wf_using : wf (fUsing x);
  li_avail : forall v, mem (fAvailable x) v <->
    mem (hosts_of x) v /\ ~ mem (fUsing x) v /\ ~ mem (fReserved x) v;
  li_free : forall v, mem (fFree x) v -> mem (fAvailable x) v;
  li_using : forall v, mem (fUsing x) v -> mem (hosts_of x) v \/ mem (fReserved x) v;
  li_pool : forall k p, ps !! k = Some p -> pool_inv x p;
  li_disj : forall k1 k2 p1 p2 v, ps !! k1 = Some p1 -> ps !! k2 = Some p2 ->
    mem (pIPs p1) v -> mem (pIPs p2) v -> k1 = k2;
  li_default : is_Some (ps !! "");
  li_cover : forall v, mem (hosts_of x) v \/ mem (fUsing x) v ->
    exists k p, ps !! k = Some p /\ mem (pIPs p) v
}.

(** The addresses recorded for nics are usable ones. *)
Definition nic_inv (x : FamState) : Prop :=
  forall nic ip, fNicToIP x !! nic = Some ip ->
    canon ip /\ fCIDR x <> None /\ (mem (hosts_of x) (ipv ip) \/ mem (fReserved x) (ipv ip)).

Definition fam_inv (x : FamState) (ps : gmap string PoolFam) : Prop := lists_inv x ps /\ nic_inv x.

(** One family of the pools. *)
Definition pools (f : family) (s : Subnet) : gmap string PoolFam := pool_fam f <$> sIPPools s.

Definition inv (s : Subnet) : Prop := forall f, fam_inv (fam f s) (pools f s).

(** ** Field updates and views *)

Lemma fam_set f x s : fam f (set_fam f x s) = x.
Proof. by destruct f, s. Qed.

Lemma fam_set_other f x s : fam (other f) (set_fam f x s) = fam (other f) s.
Proof. by destruct f, s. Qed.

Lemma pools_set_fam g f x s : pools g (set_fam f x s) = pools g s.
Proof. by destruct f, s. Qed.

Lemma fam_put g f k x s : fam g (put_pool f k x s) = fam g s.
Proof. by destruct f, g, s. Qed.

Lemma IPPools_put f k x s : sIPPools (put_pool f k x s) = alter (set_pool_fam f x) k (sIPPools s).
Proof. by destruct s. Qed.

Lemma pools_put f k x s p : sIPPools s !! k = Some p ->
  pools f (put_pool f k x s) = <[k := x]> (pools f s).
Proof.
  intros Hk. unfold pools. rewrite IPPools_put. apply map_eq. intros j.
  rewrite lookup_fmap. destruct (decide (j = k)) as [->|Hj].
  - rewrite lookup_alter_eq, lookup_insert_eq, Hk. by destruct f.
  - by rewrite lookup_alter_ne, lookup_insert_ne, lookup_fmap.
Qed.

Lemma pools_put_other f k x s : pools (other f) (put_pool f k x s) = pools (other f) s.
Proof.
  unfold pools. rewrite IPPools_put. apply map_eq. intros j. rewrite !lookup_fmap.
  destruct (decide (j = k)) as [->|Hj].
  - rewrite lookup_alter_eq. destruct (sIPPools s !! k); [|done]. by destruct f.
  - by rewrite lookup_alter_ne.
Qed.

Lemma pools_lookup f s k p : sIPPools s !! k = Some p -> pools f s !! k = Some (pool_fam f p).
Proof. intros H. unfold pools. by rewrite lookup_fmap, H. Qed.

Lemma pools_lookup_inv f s k x : pools f s !! k = Some x ->
  exists p, sIPPools s !! k = Some p /\ x = pool_fam f p.
Proof. unfold pools. rewrite lookup_fmap. destruct (sIPPools s !! k) as [p|]; [|done]. intros [= <-]. eauto. Qed.

Lemma family_cases (P : family -> Prop) f : P f -> P (other f) -> forall g, P g.
Proof. by destruct f, g. Qed.

(** An operation on one family keeps the invariant when it keeps that of the
    family and leaves the view of the other one alone. *)
Lemma inv_step f s s' :
  inv s -> fam_inv (fam f s') (pools f s') ->
  fam (other f) s' = fam (other f) s -> pools (other f) s' = pools (other f) s -> inv s'.
Proof.
  intros H Hf E1 E2. unfold inv. apply (family_cases _ f); [done|]. rewrite E1, E2. apply H.
Qed.

(** The addresses of the pools. *)
Definition pool_ips (f : family) (s : Subnet) : gmap string IPRangeList := pIPs <$> pools f s.

Lemma ips_insert (ps : gmap string PoolFam) k p p' :
  ps !! k = Some p -> pIPs p' = pIPs p -> pIPs <$> <[k := p']> ps = pIPs <$> ps.
Proof. intros Hk E. rewrite fmap_insert, E. apply insert_id. by rewrite lookup_fmap, Hk. Qed.

Lemma pool_ips_put f k x s p : sIPPools s !! k = Some p -> pIPs x = pIPs (pool_fam f p) ->
  pool_ips f (put_pool f k x s) = pool_ips f s.
Proof.
  intros Hk E. unfold pool_ips. rewrite (pools_put _ _ _ _ p) by done.
  eapply ips_insert; [by apply pools_lookup|done].
Qed.

Lemma pool_ips_eq f s s' : pools f s' = pools f s -> pool_ips f s' = pool_ips f s.
Proof. unfold pool_ips. by intros ->. Qed.

Lemma pool_ips_lookup f s s' k p : pool_ips f s' = pool_ips f s -> sIPPools s !! k = Some p ->
  exists p', sIPPools s' !! k = Some p' /\ pIPs (pool_fam f p') = pIPs (pool_fam f p).
Proof.
  intros E Hk. assert (Hl : pool_ips f s' !! k = Some (pIPs (pool_fam f p))).
  { rewrite E. unfold pool_ips. by rewrite lookup_fmap, (pools_lookup _ _ _ _ Hk). }
  unfold pool_ips, pools in Hl. rewrite !lookup_fmap in Hl. destruct (sIPPools s' !! k) as [p'|]; [|done].
  exists p'. split; [done|]. by injection Hl.
Qed.

(** ** Moving one address *)

(** A part of the lists is unchanged. *)
Definition same_space (x x' : FamState) : Prop :=
  fCIDR x' = fCIDR x /\ fReserved x' = fReserved x.

Lemma same_hosts x x' : same_space x x' -> hosts_of x' = hosts_of x.
Proof. unfold hosts_of. by intros [-> _]. Qed.

(** The facts of the invariant about one value. *)
Ltac at_value v :=
  repeat match goal with
  | H : forall w : Z, _ |- _ => specialize (H v)
  end.

(** A pool of the subnet is the pool that holds a value, or does not hold it. *)
Lemma other_pool x ps k p k' p' v :
  lists_inv x ps -> ps !! k = Some p -> ps !! k' = Some p' -> k' <> k ->
  mem (pIPs p) v -> ~ mem (pIPs p') v.
Proof. intros H Hk Hk' Hne Hv Hv'. apply Hne. by eapply (li_disj _ _ H). Qed.

(** Replacing one pool, and the subnet's lists on the addresses of that pool. *)
Lemma lists_swap x x' ps k p p' :
  lists_inv x ps -> ps !! k = Some p -> same_space x x' ->
  wf (fFree x') /\ wf (fAvailable x') /\ wf (fUsing x') ->
  pIPs p' = pIPs p -> pool_inv x' p' ->
  (forall v, ~ mem (pIPs p) v -> (mem (fAvailable x') v <-> mem (fAvailable x) v) /\
                                 (mem (fUsing x') v <-> mem (fUsing x) v)) ->
  (forall v, mem (fAvailable x') v <-> mem (hosts_of x) v /\ ~ mem (fUsing x') v /\ ~ mem (fReserved x) v) ->
  (forall v, mem (fFree x') v -> mem (fAvailable x') v /\ mem (fFree x) v) ->
  (forall v, mem (fUsing x') v -> mem (hosts_of x) v \/ mem (fReserved x) v) ->
  lists_inv x' (<[k := p']> ps).
Proof.
  intros H Hk Hsp (W1 & W2 & W3) Ei Hp' Hout Ha Hf Hu.
  pose proof (same_hosts x x' Hsp) as Eh. destruct Hsp as [Ec Er].
  assert (Hold : forall j q, <[k:=p']> ps !! j = Some q -> exists q', ps !! j = Some q' /\ pIPs q' = pIPs q).
  { intros j q Hj. destruct (decide (j = k)) as [->|Hne].
    - rewrite lookup_insert_eq in Hj. injection Hj as <-. by exists p.
    - rewrite lookup_insert_ne in Hj by done. by exists q. }
  constructor; rewrite ?Eh, ?Er; try done.
  - unfold cidr_ok. rewrite Ec. apply H.
  - apply H.
  - intros v Hv. by apply Hf.
  - intros j q Hj. destruct (decide (j = k)) as [->|Hne].
    { rewrite lookup_insert_eq in Hj. by injection Hj as <-. }
    rewrite lookup_insert_ne in Hj by done. pose proof (li_pool _ _ H j q Hj) as [Q0 Q1 Q2 Q3 Q4 Q5 Q6 Q7].
    pose proof (fun v => li_disj _ _ H j k q p v Hj Hk) as Hd.
    constructor; rewrite ?Er; try done; intros v; specialize (Hout v); specialize (Hd v).
    + rewrite Q1. split; intros [? ?]; (split; [apply Hout|]; auto).
    + rewrite Q4. split; intros [? ?]; (split; [apply Hout|]; auto).
    + intros Hv [_ Hv']%Hf. by apply (Q7 v).
  - intros k1 k2 p1 p2 v H1 H2 M1 M2.
    destruct (Hold _ _ H1) as (q1 & L1 & E1), (Hold _ _ H2) as (q2 & L2 & E2).
    rewrite <-E1 in M1. rewrite <-E2 in M2. by eapply (li_disj _ _ H).
  - destruct (decide (k = "")) as [->|Hne]; [by rewrite lookup_insert_eq|].
    rewrite lookup_insert_ne by done. apply H.
  - intros v Hv.
    assert (Hc : exists j q, ps !! j = Some q /\ mem (pIPs q) v).
    { destruct (decide (mem (pIPs p) v)) as [Hv'|Hv']; [by exists k, p|].
      apply (li_cover _ _ H). destruct Hv as [?|Hv]; [by left|right; by apply Hout]. }
    destruct Hc as (j & q & Hj & Hm). destruct (decide (j = k)) as [->|Hne].
    + exists k, p'. rewrite lookup_insert_eq, Ei. split; [done|]. congruence.
    + exists j, q. by rewrite lookup_insert_ne.
Qed.

(** Taking [ip] out of the pool [p]. *)
Record taken_from (x x' : FamState) (p p' : PoolFam) (ip : Z) : Prop := {
  tk_space : same_space x x';
  tk_wf : wf (fFree x') /\ wf (fAvailable x') /\ wf (fUsing x') /\ pool_wf p';
  tk_pool : pIPs p' = pIPs p /\ pReserved p' = pReserved p;
  tk_free : forall v, mem (fFree x') v -> mem (fFree x) v /\ v <> ip;
  tk_avail : forall v, mem (fAvailable x') v <-> mem (fAvailable x) v /\ v <> ip;
  tk_using : forall v, mem (fUsing x') v <-> v = ip \/ mem (fUsing x) v;
  tk_pavail : forall v, mem (pAvailable p') v <-> mem (pAvailable p) v /\ v <> ip;
  tk_pfree : forall v, mem (pFree p') v <-> mem (pFree p) v /\ v <> ip;
  tk_prel : forall v, mem (pReleased p') v <-> mem (pReleased p) v /\ v <> ip;
  tk_pusing : forall v, mem (pUsing p') v <-> v = ip \/ mem (pUsing p) v
}.

Lemma lists_take x x' ps k p p' ip :
  lists_inv x ps -> ps !! k = Some p -> mem (pIPs p) ip ->
  (mem (hosts_of x) ip \/ mem (fReserved x) ip) ->
  taken_from x x' p p' ip -> lists_inv x' (<[k := p']> ps).
Proof.
  intros H Hk Hip Hin [Hsp (W1 & W2 & W3 & W4) [Ei Erp] T1 T2 T3 T4 T5 T6 T7].
  destruct (li_pool _ _ H k p Hk) as [_ P1 P2 P3 P4 P5 P6 P7]. pose proof Hsp as [_ Er].
  eapply lists_swap; eauto.
  - constructor; rewrite ?Ei, ?Erp, ?Er; try done; intros v.
    + rewrite T4, T2, P1. tauto.
    + rewrite T4, T5, T6, P2. tauto.
    + rewrite T5, T6. intros [? _] [? _]. by eapply P3.
    + rewrite T7, T3, P4. split; [|tauto]. intros [->|?]; tauto.
    + rewrite T6. intros [Hv _] [Hv' _]%T1. by apply (P7 v).
  - intros v Hv. rewrite T2, T3. assert (v <> ip) by congruence. tauto.
  - intros v. rewrite T2, T3, (li_avail _ _ H). tauto.
  - intros v Hv. apply T1 in Hv as [Hv Hne]. split; [|done]. apply T2. split; [by apply (li_free _ _ H)|done].
  - intros v Hv. apply T3 in Hv as [->|Hv]; [done|]. by apply (li_using _ _ H).
Qed.

(** Giving back [ip], which the pool [p] is using; reserved addresses do not
    become available. *)
Record given_back (x x' : FamState) (p p' : PoolFam) (ip : Z) : Prop := {
  gb_space : same_space x x';
  gb_wf : wf (fAvailable x') /\ wf (fUsing x') /\ pool_wf p';
  gb_pool : pIPs p' = pIPs p /\ pReserved p' = pReserved p /\ pFree p' = pFree p /\ fFree x' = fFree x;
  gb_avail : forall v, mem (fAvailable x') v <-> v = ip /\ ~ mem (fReserved x) ip \/ mem (fAvailable x) v;
  gb_using : forall v, mem (fUsing x') v <-> mem (fUsing x) v /\ v <> ip;
  gb_pavail : forall v, mem (pAvailable p') v <-> v = ip /\ ~ mem (fReserved x) ip \/ mem (pAvailable p) v;
  gb_prel : forall v, mem (pReleased p') v <-> v = ip /\ ~ mem (fReserved x) ip \/ mem (pReleased p) v;
  gb_pusing : forall v, mem (pUsing p') v <-> mem (pUsing p) v /\ v <> ip
}.

Lemma lists_give x x' ps k p p' ip :
  lists_inv x ps -> ps !! k = Some p -> mem (pUsing p) ip ->
  given_back x x' p p' ip -> lists_inv x' (<[k := p']> ps).
Proof.
  intros H Hk Hip [Hsp (W1 & W2 & W3) (Ei & Erp & Ef & Efx) T1 T2 T3 T4 T5].
  destruct (li_pool _ _ H k p Hk) as [Wp P1 P2 P3 P4 P5 P6 P7]. pose proof Hsp as [_ Er].
  apply P4 in Hip as [Hu Hip]. pose proof (li_using _ _ H ip Hu) as Hin.
  assert (Hna : ~ mem (fAvailable x) ip) by (rewrite (li_avail _ _ H); tauto).
  eapply lists_swap; eauto.
  - rewrite Efx. split; [apply H|done].
  - constructor; rewrite ?Ei, ?Erp, ?Er, ?Ef; try done; intros v.
    + rewrite T3, T1, P1. split; [|tauto]. intros [[-> ?]|?]; tauto.
    + rewrite T3, T4, P2. tauto.
    + rewrite T4. intros Hf [[-> _]|Hr]; [|by eapply P3]. apply Hna, P1, P2. by left.
    + rewrite T5, T2, P4. tauto.
    + rewrite T4, Efx. intros [[-> _]|Hv]; [|by apply P7]. intros Hv. by apply Hna, (li_free _ _ H).
  - intros v Hv. rewrite T1, T2. assert (v <> ip) by congruence. tauto.
  - intros v. rewrite T1, T2, (li_avail _ _ H). destruct (decide (v = ip)) as [->|]; tauto.
  - intros v. rewrite Efx, T1. intros Hv. split; [right; by apply (li_free _ _ H)|done].
  - intros v Hv. apply T2 in Hv as [Hv _]. by apply (li_using _ _ H).
Qed.

(** Exchanging [Free] and [Released] inside a pool. *)
Lemma lists_refill x ps k p p' :
  lists_inv x ps -> ps !! k = Some p -> pool_wf p' ->
  pIPs p' = pIPs p -> pReserved p' = pReserved p -> pAvailable p' = pAvailable p -> pUsing p' = pUsing p ->
  (forall v, mem (pFree p') v \/ mem (pReleased p') v <-> mem (pFree p) v \/ mem (pReleased p) v) ->
  (forall v, mem (pFree p') v -> mem (pReleased p') v -> False) ->
  (forall v, mem (pReleased p') v -> mem (pReleased p) v) ->
  lists_inv x (<[k := p']> ps).
Proof.
  intros H Hk W E1 E2 E3 E4 Hs Hd Hr. destruct (li_pool _ _ H k p Hk) as [Wp P1 P2 P3 P4 P5 P6 P7].
  eapply lists_swap; eauto; try apply H; try done.
  - split; [apply H|]. split; apply H.
  - constructor; rewrite ?E1, ?E2, ?E3, ?E4; try done; intros v; [by rewrite Hs|]. intros Hv. by apply P7, Hr.
  - intros v Hv. split; [by apply (li_free _ _ H)|done].
Qed.

(** ** Views of the other updates *)

Lemma fam_macs f nm mp s : fam f (set_macs nm mp s) = fam f s.
Proof. by destruct f, s. Qed.
Lemma pools_macs f nm mp s : pools f (set_macs nm mp s) = pools f s.
Proof. by destruct f, s. Qed.
Lemma fam_nics f pn s : fam f (set_nics pn s) = fam f s.
Proof. by destruct f, s. Qed.
Lemma pools_nics f pn s : pools f (set_nics pn s) = pools f s.
Proof. by destruct f, s. Qed.
Lemma IPPools_set_fam f x s : sIPPools (set_fam f x s) = sIPPools s.
Proof. by destruct f, s. Qed.
Lemma IPPools_macs nm mp s : sIPPools (set_macs nm mp s) = sIPPools s.
Proof. by destruct s. Qed.
Lemma IPPools_nics pn s : sIPPools (set_nics pn s) = sIPPools s.
Proof. by destruct s. Qed.
Lemma NicToMac_put f k x s : sNicToMac (put_pool f k x s) = sNicToMac s.
Proof. by destruct s. Qed.
Lemma NicToMac_set_fam f x s : sNicToMac (set_fam f x s) = sNicToMac s.
Proof. by destruct f, s. Qed.

Create Rewrite HintDb view.
#[export] Hint Rewrite fam_set fam_set_other pools_set_fam fam_put pools_put_other fam_macs pools_macs
  fam_nics pools_nics IPPools_set_fam IPPools_macs IPPools_nics NicToMac_put NicToMac_set_fam : view.

Ltac view := autorewrite with view.

Lemma fam_push f pod nic s : fam f (pushPodNic pod nic s) = fam f s.
Proof. unfold pushPodNic. destruct (_ || _); by view. Qed.
Lemma pools_push f pod nic s : pools f (pushPodNic pod nic s) = pools f s.
Proof. unfold pushPodNic. destruct (_ || _); by view. Qed.
Lemma fam_pop f pod nic s : fam f (popPodNic pod nic s) = fam f s.
Proof. unfold popPodNic. by view. Qed.
Lemma pools_pop f pod nic s : pools f (popPodNic pod nic s) = pools f s.
Proof. unfold popPodNic. by view. Qed.
Lemma fam_release_mac g f nic s : fam g (release_mac f nic s) = fam g s.
Proof. unfold release_mac. destruct (_ !! _); [|done]. destruct (_ !! _); by view. Qed.
Lemma pools_release_mac g f nic s : pools g (release_mac f nic s) = pools g s.
Proof. unfold release_mac. destruct (_ !! _); [|done]. destruct (_ !! _); by view. Qed.
Lemma IPPools_release_mac f nic s : sIPPools (release_mac f nic s) = sIPPools s.
Proof. unfold release_mac. destruct (_ !! _); [|done]. destruct (_ !! _); by view. Qed.

#[export] Hint Rewrite fam_push pools_push fam_pop pools_pop fam_release_mac pools_release_mac
  IPPools_release_mac : view.

(** States that agree on both families satisfy the invariant together. *)
Lemma inv_ext s s' : inv s -> (forall f, fam f s' = fam f s) -> (forall f, pools f s' = pools f s) -> inv s'.
Proof. intros H E1 E2 f. rewrite E1, E2. apply H. Qed.

Lemma inv_push pod nic s : inv s -> inv (pushPodNic pod nic s).
Proof. intros H. apply (inv_ext s); [done|intros; by view..]. Qed.
Lemma inv_pop pod nic s : inv s -> inv (popPodNic pod nic s).
Proof. intros H. apply (inv_ext s); [done|intros; by view..]. Qed.
Lemma inv_macs nm mp s : inv s -> inv (set_macs nm mp s).
Proof. intros H. apply (inv_ext s); [done|intros; by view..]. Qed.
#[export] Hint Resolve inv_push inv_pop inv_macs : ip.

(** ** Release *)

Section Release.

Context (iter : gmap string IPPool -> list (string * IPPool)).
Hypothesis iter_ok : forall m, iter m ≡ₚ map_to_list m.

Lemma elem_of_iter m k p : (k, p) ∈ iter m <-> m !! k = Some p.
Proof. by rewrite iter_ok, elem_of_map_to_list. Qed.

(** Either some pool of the list was using the address, or none was. *)
Lemma release_pools_spec f ip changed order s :
  canon ip -> (forall k p, (k, p) ∈ order -> wf (pUsing (pool_fam f p))) ->
  (exists k p, (k, p) ∈ order /\ mem (pUsing (pool_fam f p)) (ipv ip) /\
     release_pools f ip changed order s = put_pool f k (give_pool ip changed (pool_fam f p)) s) \/
  ((forall k p, (k, p) ∈ order -> ~ mem (pUsing (pool_fam f p)) (ipv ip)) /\
   release_pools f ip changed order s = s).
Proof.
  intros Hc. induction order as [|[k p] order IH]; intros Hw.
  { right. split; [|done]. intros k p H. by apply elem_of_nil in H. }
  cbn [release_pools]. destruct (Remove_set (pUsing (pool_fam f p)) ip) as (W & M & E); [eapply Hw; left|done|].
  rewrite E. case_bool_decide as Hm.
  - left. exists k, p. split; [left|]. done.
  - destruct IH as [(k' & p' & Hin & Hm' & He)|[Hn He]].
    + intros k' p' Hin. eapply Hw. by right.
    + left. exists k', p'. split; [by right|]. done.
    + right. split; [|done]. intros k' p' [[= -> ->]|Hin]%elem_of_cons; [done|by eapply Hn].
Qed.

(** The state after a release, in terms of the sets. *)
Record rel_post (f : family) (nic : string) (ip : IP) (s s' : Subnet) : Prop := {
  rp_inv : fam_inv (fam f s') (pools f s');
  rp_space : same_space (fam f s) (fam f s');
  rp_gw : fGw (fam f s') = fGw (fam f s);
  rp_nics : fNicToIP (fam f s') = delete nic (fNicToIP (fam f s));
  rp_pods : fIPToPod (fam f s') = delete (IP_String ip) (fIPToPod (fam f s));
  rp_using : forall v, mem (fUsing (fam f s')) v <-> mem (fUsing (fam f s)) v /\ v <> ipv ip;
  rp_avail : forall v, mem (fAvailable (fam f s')) v <->
    v = ipv ip /\ ~ mem (fReserved (fam f s)) (ipv ip) \/ mem (fAvailable (fam f s)) v;
  rp_ips : pool_ips f s' = pool_ips f s;
  rp_other : fam (other f) s' = fam (other f) s;
  rp_other_pools : pools (other f) s' = pools (other f) s
}.

(** A usable address that is not reserved is inside the network. *)
Lemma changed_reserved x ps cidr ip :
  lists_inv x ps -> fCIDR x = Some cidr -> canon ip ->
  (mem (hosts_of x) (ipv ip) \/ mem (fReserved x) (ipv ip)) ->
  negb (IPNet_Contains cidr ip) || IPRangeList_Contains (fReserved x) ip =
  bool_decide (mem (fReserved x) (ipv ip)).
Proof.
  intros H Ec Hc Hin. rewrite IPRangeList_Contains_mem by (auto with ip; apply H).
  case_bool_decide as Hr; [apply orb_true_r|]. rewrite orb_false_r. apply negb_false_iff.
  destruct Hin as [Hin|]; [|done]. pose proof (li_cidr _ _ H) as Hn. unfold cidr_ok, hosts_of in *.
  rewrite Ec in *. apply hosts_contained; auto with ip.
Qed.

Lemma usable_safe x ps ip : lists_inv x ps ->
  (mem (hosts_of x) (ipv ip) \/ mem (fReserved x) (ipv ip)) -> safe (ipv ip).
Proof.
  intros H [Hin|Hin]; [|eapply wf_mem_safe; [apply (li_wf_res _ _ H)|done]].
  pose proof (li_cidr _ _ H) as Hn. unfold cidr_ok, hosts_of in *.
  destruct (fCIDR x); [|done]. eapply wf_mem_safe; [by apply hosts_wf|done].
Qed.

Lemma give_fam_spec x ps ip : lists_inv x ps -> canon ip -> safe (ipv ip) ->
  let x' := give_fam ip (bool_decide (mem (fReserved x) (ipv ip))) x in
  wf (fAvailable x') /\ wf (fUsing x') /\
  (forall v, mem (fAvailable x') v <-> v = ipv ip /\ ~ mem (fReserved x) (ipv ip) \/ mem (fAvailable x) v) /\
  (forall v, mem (fUsing x') v <-> mem (fUsing x) v /\ v <> ipv ip).
Proof.
  intros H Hc Hs x'. destruct (Remove_set (fUsing x) ip (li_wf_using _ _ H) Hc) as (W1 & M1 & _).
  destruct (Add_set (fAvailable x) ip (li_wf_avail _ _ H) Hc Hs) as [W2 M2].
  subst x'. unfold give_fam. cbn [fAvailable fUsing]. case_bool_decide as Hr.
  - split; [apply H|]. repeat (split; [done|]). split; [|done]. intros v. tauto.
  - split; [done|]. split; [done|]. split; [|done]. intros v. rewrite M2. tauto.
Qed.

Lemma give_back_spec x ps k p ip : lists_inv x ps -> ps !! k = Some p -> canon ip -> safe (ipv ip) ->
  let ch := bool_decide (mem (fReserved x) (ipv ip)) in
  given_back x (give_fam ip ch x) p (give_pool ip ch p) (ipv ip).
Proof.
  intros H Hk Hc Hs ch. destruct (give_fam_spec x ps ip H Hc Hs) as (A1 & A2 & A3 & A4).
  destruct (li_pool _ _ H k p Hk) as [[W1 W2 W3 W4 W5 W6] _ _ _ _ _ _ _].
  destruct (Remove_set (pUsing p) ip W6 Hc) as (W & M & _).
  destruct (Add_set (pAvailable p) ip W3 Hc Hs) as [Wa Ma].
  destruct (Add_set (pReleased p) ip W5 Hc Hs) as [Wr Mr].
  subst ch. constructor; try done.
  - split; [done|]. split; [done|]. unfold give_pool. by destruct (bool_decide _).
  - unfold give_pool. by destruct (bool_decide _).
  - intros v. unfold give_pool. case_bool_decide; cbn; [tauto|]. rewrite Ma. tauto.
  - intros v. unfold give_pool. case_bool_decide; cbn; [tauto|]. rewrite Mr. tauto.
  - intros v. unfold give_pool. by case_bool_decide.
Qed.

(** The lists after a release, whether or not the address was in use. *)
Lemma release_lists f ip s :
  lists_inv (fam f s) (pools f s) -> canon ip ->
  (mem (hosts_of (fam f s)) (ipv ip) \/ mem (fReserved (fam f s)) (ipv ip)) ->
  let ch := bool_decide (mem (fReserved (fam f s)) (ipv ip)) in
  let s1 := set_fam f (give_fam ip ch (fam f s)) s in
  let s2 := release_pools f ip ch (iter (sIPPools s1)) s1 in
  lists_inv (fam f s2) (pools f s2) /\ fam f s2 = give_fam ip ch (fam f s) /\
  pool_ips f s2 = pool_ips f s /\
  fam (other f) s2 = fam (other f) s /\ pools (other f) s2 = pools (other f) s.
Proof.
  intros H Hc Hin ch s1. cbv zeta. pose proof (usable_safe _ _ _ H Hin) as Hs.
  destruct (release_pools_spec f ip ch (iter (sIPPools s1)) s1 Hc) as [(k & p & Hk & Hm & ->)|[Hn ->]].
  - intros k p Hk%elem_of_iter. subst s1. rewrite IPPools_set_fam in Hk.
    apply (pi_wf (fam f s)), (li_pool _ _ H k). by apply pools_lookup.
  - apply elem_of_iter in Hk. pose proof Hk as Hk'. subst s1. rewrite IPPools_set_fam in Hk'.
    apply (pools_lookup f) in Hk'. rewrite (pool_ips_put _ _ _ _ p);
      [|done|unfold give_pool; by destruct ch]. rewrite (pools_put _ _ _ _ p) by done. view.
    split; [|split; [done|split; [apply pool_ips_eq; by view|done]]]. eapply lists_give; [done|exact Hk'|done|]. by eapply give_back_spec.
  - subst s1. view. split; [|split; [done|split; [apply pool_ips_eq; by view|done]]].
    assert (Hu : ~ mem (fUsing (fam f s)) (ipv ip)).
    { intros Hu. destruct (li_cover _ _ H (ipv ip)) as (k & x & Hk & Hi); [by right|].
      apply pools_lookup_inv in Hk as (p & Hp & ->). apply (Hn k p).
      - apply elem_of_iter. by rewrite IPPools_set_fam.
      - apply (pi_using _ _ (li_pool _ _ H k _ (pools_lookup f s k p Hp))). done. }
    destruct (give_fam_spec _ _ ip H Hc Hs) as (A1 & A2 & A3 & A4). fold ch in A1, A2, A3, A4.
    assert (Ea : forall v, mem (fAvailable (give_fam ip ch (fam f s))) v <-> mem (fAvailable (fam f s)) v).
    { intros v. rewrite A3. split; [|tauto]. intros [[-> Hr]|?]; [|done].
      apply (li_avail _ _ H). tauto. }
    assert (Eu : forall v, mem (fUsing (give_fam ip ch (fam f s))) v <-> mem (fUsing (fam f s)) v).
    { intros v. rewrite A4. split; [tauto|]. intros Hv. split; [done|congruence]. }
    destruct H. constructor; try done.
    + intros v. by rewrite Ea, Eu.
    + intros v. rewrite Ea. auto.
    + intros v. rewrite Eu. auto.
    + intros k p Hk. destruct (li_pool0 k p Hk). constructor; try done; intros v; rewrite ?Ea, ?Eu; auto.
    + intros v. rewrite Eu. auto.
Qed.

Lemma lists_inv_maps x ps nics pods : lists_inv x ps -> lists_inv (with_maps nics pods x) ps.
Proof.
  intros H. destruct H. constructor; try done. intros k p Hk. destruct (li_pool0 k p Hk). by constructor.
Qed.

Lemma fam_inv_gw x ps gw : fam_inv x ps ->
  fam_inv (mkFam (fCIDR x) (fFree x) (fReserved x) (fAvailable x) (fUsing x) (fNicToIP x) (fIPToPod x) gw) ps.
Proof.
  intros [H Hn]. split; [|done]. destruct H. constructor; try done.
  intros k p Hk. destruct (li_pool0 k p Hk). by constructor.
Qed.

Lemma nic_inv_same x x' : nic_inv x -> same_space x x' ->
  (forall nic ip, fNicToIP x' !! nic = Some ip -> exists nic', fNicToIP x !! nic' = Some ip) -> nic_inv x'.
Proof.
  intros H Hsp Hn nic ip Hip. apply Hn in Hip as [nic' Hip]. rewrite (same_hosts _ _ Hsp).
  destruct Hsp as [-> ->]. by eapply H.
Qed.

(** [releaseV4Addr] and [releaseV6Addr] do not panic; the three branches. *)
Lemma release_fam_spec f pod nic s :
  fam_inv (fam f s) (pools f s) ->
  match fNicToIP (fam f s) !! nic with
  | None => release_fam iter f pod nic s = Done s
  | Some ip =>
      let pods := Split (go_get "" (fIPToPod (fam f s)) (IP_String ip)) "," in
      exists s', release_fam iter f pod nic s = Done s' /\
      if (1 <? length pods)%nat
      then s' = set_fam f (with_maps (fNicToIP (fam f s))
                  (<[IP_String ip := Join (RemoveString pods pod) ","]> (fIPToPod (fam f s))) (fam f s)) s
      else rel_post f nic ip s s'
  end.
Proof.
  intros [Hl Hn]. unfold release_fam. destruct (fNicToIP (fam f s) !! nic) as [ip|] eqn:En; [|done].
  cbv zeta. destruct (Hn nic ip En) as (Hc & Hcidr & Hin). destruct (1 <? _)%nat; [by eexists|].
  destruct (fCIDR (fam f s)) as [cidr|] eqn:Ec; [|done]. cbn [of_option mbind outcome_bind].
  rewrite (changed_reserved _ _ _ _ Hl Ec Hc Hin).
  set (x1 := with_maps _ _ _). set (s2 := release_mac f nic (set_fam f x1 s)).
  assert (E2 : fam f s2 = x1) by (subst s2; by view).
  assert (Ep2 : pools f s2 = pools f s) by (subst s2; by view).
  assert (Hl2 : lists_inv (fam f s2) (pools f s2)) by (rewrite E2, Ep2; by apply lists_inv_maps).
  destruct (release_lists f ip s2 Hl2 Hc) as (L & Ef & Ei & Eo & Ep); [by rewrite E2|].
  pose proof (give_fam_spec _ _ ip Hl2 Hc (usable_safe _ _ _ Hl Hin)) as (A1 & A2 & A3 & A4).
  rewrite E2 in L, Ef, Ei, Eo, Ep, A3, A4 |- *. change (fReserved x1) with (fReserved (fam f s)) in *.
  eexists. split; [reflexivity|]. set (s3 := release_pools _ _ _ _ _) in *.
  constructor; try (rewrite Ef; done).
  - split; [done|]. eapply nic_inv_same; [exact Hn|rewrite Ef; by split|]. rewrite Ef. cbn.
    intros nic' ip' Hd. apply lookup_delete_Some in Hd as [_ Hd]. eauto.
  - rewrite Ei. by apply pool_ips_eq.
  - rewrite Eo. subst s2. by view.
  - rewrite Ep. subst s2. by view.
Qed.

(** A release keeps the invariant and the other family. *)
Lemma release_fam_inv f pod nic s : inv s ->
  exists s', release_fam iter f pod nic s = Done s' /\ inv s' /\
    fam (other f) s' = fam (other f) s /\ same_space (fam f s) (fam f s') /\
    pools (other f) s' = pools (other f) s /\ pool_ips f s' = pool_ips f s /\
    (forall nic', nic' <> nic -> fNicToIP (fam f s') !! nic' = fNicToIP (fam f s) !! nic').
Proof.
  intros H. pose proof (release_fam_spec f pod nic s (H f)) as Hr.
  destruct (fNicToIP (fam f s) !! nic) as [ip|]; [|by exists s].
  cbv zeta in Hr. destruct Hr as (s' & E & Hs). exists s'. split; [done|].
  destruct (1 <? _)%nat.
  - subst s'. split; [|view; split_and!; try done; apply pool_ips_eq; by view].
    apply (inv_step f s); try by view. view.
    destruct (H f) as [Hl Hn]. split; [by apply lists_inv_maps|done].
  - split; [apply (inv_step f s); [done|apply Hs..]|]. split; [apply Hs|]. split; [apply Hs|].
    split; [apply Hs|]. split; [apply Hs|]. intros nic' Hne. rewrite (rp_nics _ _ _ _ _ Hs). by rewrite lookup_delete_ne.
Qed.

Lemma releaseAddr_inv pod nic s : inv s -> exists s', releaseAddr iter pod nic s = Done s' /\ inv s'.
Proof.
  intros H. destruct (release_fam_inv V4 pod nic s H) as (s1 & E1 & H1 & _).
  destruct (release_fam_inv V6 pod nic s1 H1) as (s2 & E2 & H2 & _).
  unfold releaseAddr, releaseV4Addr, releaseV6Addr. rewrite E1. cbn. rewrite E2. cbn.
  destruct (fNicToIP (sV4 s2) !! nic), (fNicToIP (sV6 s2) !! nic); eauto.
  destruct (sNicToMac s2 !! nic); eauto using inv_macs.
Qed.

Lemma release_nics_inv pod nics s : inv s -> exists s', release_nics iter pod nics s = Done s' /\ inv s'.
Proof.
  revert s. induction nics as [|nic nics IH]; intros s H; [by exists s|]. cbn [release_nics].
  destruct (releaseAddr_inv pod nic s H) as (s1 & -> & H1). cbn. apply IH. auto with ip.
Qed.

Lemma ReleaseAddress_inv pod s : inv s -> exists s', ReleaseAddress iter pod s = Done s' /\ inv s'.
Proof. apply release_nics_inv. Qed.

Lemma ReleaseAddressWithNicName_inv pod nic s : inv s ->
  exists s', ReleaseAddressWithNicName iter pod nic s = Done s' /\ inv s'.
Proof.
  intros H. unfold ReleaseAddressWithNicName. destruct (releaseAddr_inv pod nic s H) as (s1 & -> & H1).
  cbn. eauto with ip.
Qed.

(** ** Exclusive ownership

    When no address is shared between pods, an address recorded for a nic is
    in use, belongs to that nic only, and has one owner. *)

Definition no_comma (pod : string) : Prop := Split pod "," = [pod].

Record own_inv (x : FamState) : Prop := {
  ow_using : forall nic ip, fNicToIP x !! nic = Some ip -> mem (fUsing x) (ipv ip);
  ow_inj : forall n1 n2 ip, fNicToIP x !! n1 = Some ip -> fNicToIP x !! n2 = Some ip -> n1 = n2;
  ow_pod : forall nic ip, fNicToIP x !! nic = Some ip ->
    exists pod, fIPToPod x !! IP_String ip = Some pod /\ no_comma pod
}.

Definition own (s : Subnet) : Prop := forall f, own_inv (fam f s).

Lemma own_release f nic ip s s' :
  fam_inv (fam f s) (pools f s) -> fNicToIP (fam f s) !! nic = Some ip ->
  rel_post f nic ip s s' -> own_inv (fam f s) -> own_inv (fam f s').
Proof.
  intros [_ Hn] Hnic [_ _ _ Rn Rp Ru _ _ _ _] [O1 O2 O3].
  assert (Hne : forall nic' ip', fNicToIP (fam f s') !! nic' = Some ip' ->
    fNicToIP (fam f s) !! nic' = Some ip' /\ ip' <> ip).
  { intros nic' ip'. rewrite Rn. intros [Hd Hl]%lookup_delete_Some. split; [done|]. intros ->.
    apply Hd. by eapply O2. }
  assert (Hv : forall nic' ip', fNicToIP (fam f s) !! nic' = Some ip' -> ip' <> ip ->
    ipv ip' <> ipv ip /\ IP_String ip <> IP_String ip').
  { intros nic' ip' Hl Hd. destruct (Hn _ _ Hl) as [Hc' _], (Hn _ _ Hnic) as [Hc _]. split.
    - intros E. apply Hd. by apply canon_inj.
    - intros E. apply Hd. symmetry. by apply IP_String_canon_inj. }
  constructor.
  - intros nic' ip' Hl. destruct (Hne _ _ Hl) as [Hl' Hd]. apply Ru. split; [by eapply O1|].
    by destruct (Hv _ _ Hl' Hd).
  - intros n1 n2 ip' H1 H2. destruct (Hne _ _ H1), (Hne _ _ H2). by eapply O2.
  - intros nic' ip' Hl. destruct (Hne _ _ Hl) as [Hl' Hd]. rewrite Rp.
    destruct (Hv _ _ Hl' Hd) as [_ Hs]. rewrite lookup_delete_ne by done. by eapply O3.
Qed.

(** Recording an address nobody has for a nic keeps ownership exclusive. *)
Lemma own_assign x x' pod nic ip :
  nic_inv x -> canon ip -> no_comma pod ->
  (forall nic' ip', fNicToIP x !! nic' = Some ip' -> ipv ip' = ipv ip -> nic' = nic) ->
  fNicToIP x' = <[nic := ip]> (fNicToIP x) -> fIPToPod x' = <[IP_String ip := pod]> (fIPToPod x) ->
  mem (fUsing x') (ipv ip) -> (forall v, mem (fUsing x) v -> mem (fUsing x') v) ->
  own_inv x -> own_inv x'.
Proof.
  intros Hn Hc Hp Hfree En Ep Hu Hmono [O1 O2 O3].
  assert (Hst : forall nic' ip', fNicToIP x' !! nic' = Some ip' ->
    nic' = nic /\ ip' = ip \/ nic' <> nic /\ fNicToIP x !! nic' = Some ip' /\ ipv ip' <> ipv ip /\
      IP_String ip <> IP_String ip').
  { intros nic' ip'. rewrite En. intros [[<- <-]|[Hd Hl]]%lookup_insert_Some; [by left|right].
    split; [done|]. split; [done|]. destruct (Hn _ _ Hl) as [Hc' _].
    assert (Hv : ipv ip' <> ipv ip) by (intros E; apply Hd; symmetry; by eapply Hfree).
    split; [done|]. intros E. apply Hv. f_equal. symmetry. by apply IP_String_canon_inj. }
  constructor.
  - intros nic' ip' [[-> ->]|(_ & Hl & _)]%Hst; [done|]. by eapply Hmono, O1.
  - intros n1 n2 ip' [[-> ->]|(_ & L1 & D1 & _)]%Hst [[-> E]|(_ & L2 & D2 & _)]%Hst; try congruence.
    by eapply O2.
  - intros nic' ip' [[-> ->]|(_ & Hl & _ & Hs)]%Hst; rewrite Ep.
    + rewrite lookup_insert_eq. eauto.
    + rewrite lookup_insert_ne by done. by eapply O3.
Qed.

Lemma go_get_Some {A} (z : A) m k v : m !! k = Some v -> go_get z m k = v.
Proof. intros H. unfold go_get. by rewrite H. Qed.

(** A single owner: the sharing branch of a release is not taken. *)
Lemma release_fam_own f pod nic s ip :
  fam_inv (fam f s) (pools f s) -> own_inv (fam f s) -> fNicToIP (fam f s) !! nic = Some ip ->
  exists s', release_fam iter f pod nic s = Done s' /\ rel_post f nic ip s s' /\ own_inv (fam f s').
Proof.
  intros Hi Ho Hnic. pose proof (release_fam_spec f pod nic s Hi) as Hr. rewrite Hnic in Hr.
  cbv zeta in Hr. destruct (ow_pod _ Ho _ _ Hnic) as (q & Eq & Hq).
  rewrite (go_get_Some _ _ _ _ Eq), Hq in Hr. cbn in Hr.
  destruct Hr as (s' & E & Hp). exists s'. split; [done|]. split; [done|]. by eapply own_release.
Qed.

(** ** MAC addresses leave the lists alone *)

Lemma GenerateMac_no_panic ex rnd : holds (GenerateMacWithExclusion ex rnd) (fun _ => True).
Proof. induction rnd as [|buf rnd IH]; simpl; [done|]. by destruct (negb _). Qed.

Lemma random_mac_no_panic fuel ex m rnd : holds (random_mac fuel ex m rnd) (fun _ => True).
Proof.
  revert rnd. induction fuel as [|fuel IH]; intros rnd; cbn [random_mac]; [done|]. apply holds_bind.
  eapply holds_mono; [apply GenerateMac_no_panic|]. intros [mac rnd'] _. by destruct (m !! mac).
Qed.

Lemma GetRandomMac_view pod nic s rnd :
  holds (GetRandomMac s pod nic rnd) (fun '(s', _, _) =>
    (forall f, fam f s' = fam f s) /\ (forall f, pools f s' = pools f s)).
Proof.
  unfold GetRandomMac. destruct (sNicToMac s !! nic); [done|].
  apply holds_bind. eapply holds_mono; [apply random_mac_no_panic|].
  intros [mac rnd'] _. split; intros f; by view.
Qed.

Lemma GetStaticMac_view pod nic mac cc s f :
  fam f (fst (GetStaticMac s pod nic mac cc)) = fam f s /\
  pools f (fst (GetStaticMac s pod nic mac cc)) = pools f s.
Proof.
  unfold GetStaticMac. destruct (bool_decide _); [done|]. destruct (cc && _); [done|].
  destruct (_ && _); cbn [fst]; [done|]. by view.
Qed.

(** ** Random allocation *)

(** Skipped addresses that parse are ordinary ones. *)
Definition clean_skipped (skippedAddrs : list string) : Prop :=
  Forall (fun ip => canon ip /\ safe (ipv ip)) (parse_skipped skippedAddrs).

Lemma refill_ok x ps k p : lists_inv x ps -> ps !! k = Some p ->
  lists_inv x (<[k := refill p]> ps) /\
  (pFree (refill p) = [] <-> pAvailable p = []).
Proof.
  intros H Hk. destruct (li_pool _ _ H k p Hk) as [[W1 W2 W3 W4 W5 W6] P1 P2 P3 P4 P5 P6 P7].
  destruct (IPRangeList_Separate_ok (pFree p) (pReserved p) W2 W4) as [Ws Ms].
  destruct (IPRangeList_Separate_ok (pReleased p) (pReserved p) W5 W4) as [Wr Mr].
  assert (Hres : forall v, mem (pAvailable p) v -> ~ mem (pReserved p) v).
  { intros v Hv Hr. apply P5 in Hr. apply P1 in Hv as [Hv _]. apply (li_avail _ _ H) in Hv. tauto. }
  assert (Ms' : forall v, mem (IPRangeList_Separate (pFree p) (pReserved p)) v <-> mem (pFree p) v).
  { intros v. rewrite Ms. split; [tauto|]. intros Hv. split; [done|]. apply Hres, P2. by left. }
  assert (Mr' : forall v, mem (IPRangeList_Separate (pReleased p) (pReserved p)) v <-> mem (pReleased p) v).
  { intros v. rewrite Mr. split; [tauto|]. intros Hv. split; [done|]. apply Hres, P2. by right. }
  assert (Hempty : forall l, wf l -> (l = [] <-> forall v, ~ mem l v)).
  { intros l Hl. split; [by intros -> v []|by apply wf_mem_nonempty]. }
  unfold refill, IPRangeList_Len. destruct (IPRangeList_Separate (pFree p) (pReserved p)) as [|r l] eqn:Es; cbn [length Nat.eqb].
  - assert (Hf : forall v, ~ mem (pFree p) v) by (intros v; rewrite <-Ms'; auto). split.
    + eapply lists_refill; eauto; try done.
      * intros v. cbn. rewrite Mr'. specialize (Hf v). tauto.
    + cbn. rewrite (Hempty _ Wr), (Hempty _ W3). split; intros E v; specialize (E v);
        specialize (Hf v); rewrite ?Mr', ?P2 in *; tauto.
  - split.
    + eapply lists_refill; eauto; try done.
      * intros v. cbn [pFree pReleased]. by rewrite Ms'.
      * intros v. cbn [pFree pReleased]. rewrite Ms'. apply P3.
    + cbn [pFree]. split; [done|]. intros E. exfalso. destruct Ws as (_ & Hr & _).
      assert (Hm : mem (r :: l) (lo r)) by (left; destruct Hr; lia).
      apply Ms' in Hm. assert (mem (pAvailable p) (lo r)) as Hx by (apply P2; by left). by rewrite E in Hx.
Qed.

(** The lists after taking [ip] out of the pool [k], with [free] and [pfree]
    what the caller left in the two [Free] lists. *)
Lemma take_spec x ps k p ip free pfree prel :
  lists_inv x ps -> ps !! k = Some p -> canon ip -> safe (ipv ip) ->
  wf free -> wf pfree -> wf prel ->
  (forall v, mem free v -> mem (fFree x) v /\ v <> ipv ip) ->
  (forall v, mem pfree v <-> mem (pFree p) v /\ v <> ipv ip) ->
  (forall v, mem prel v <-> mem (pReleased p) v /\ v <> ipv ip) ->
  taken_from x (take_fam free ip x) p
    (take_pool pfree ip (mkPoolFam (pIPs p) (pFree p) (pAvailable p) (pReserved p) prel (pUsing p))) (ipv ip).
Proof.
  intros H Hk Hc Hs Wf Wp Wr Mf Mp Mr. destruct (li_pool _ _ H k p Hk) as [[W1 W2 W3 W4 W5 W6] _ _ _ _ _ _ _].
  destruct (Remove_set (fAvailable x) ip (li_wf_avail _ _ H) Hc) as (A1 & A2 & _).
  destruct (Add_set (fUsing x) ip (li_wf_using _ _ H) Hc Hs) as (B1 & B2).
  destruct (Remove_set (pAvailable p) ip W3 Hc) as (C1 & C2 & _).
  destruct (Add_set (pUsing p) ip W6 Hc Hs) as (D1 & D2).
  by constructor.
Qed.

(** The state after a random allocation, in terms of the sets. *)
Record take_post (f : family) (pod nic : string) (ip : IP) (s s' : Subnet) : Prop := {
  tp_inv : fam_inv (fam f s') (pools f s');
  tp_canon : canon ip;
  tp_avail : mem (fAvailable (fam f s)) (ipv ip);
  tp_space : same_space (fam f s) (fam f s');
  tp_gw : fGw (fam f s') = fGw (fam f s);
  tp_nics : fNicToIP (fam f s') = <[nic := ip]> (fNicToIP (fam f s));
  tp_pods : fIPToPod (fam f s') = <[IP_String ip := pod]> (fIPToPod (fam f s));
  tp_using : forall v, mem (fUsing (fam f s')) v <-> v = ipv ip \/ mem (fUsing (fam f s)) v;
  tp_avail' : forall v, mem (fAvailable (fam f s')) v <-> mem (fAvailable (fam f s)) v /\ v <> ipv ip;
  tp_ips : pool_ips f s' = pool_ips f s;
  tp_other : fam (other f) s' = fam (other f) s;
  tp_other_pools : pools (other f) s' = pools (other f) s
}.

Lemma take_random_ok f k pod nic p free ip s :
  fam_inv (fam f s) (pools f s) -> sIPPools s !! k = Some p -> canon ip -> wf free ->
  mem (pFree (pool_fam f p)) (ipv ip) ->
  (forall v, mem free v <-> mem (pFree (pool_fam f p)) v /\ v <> ipv ip) ->
  take_post f pod nic ip s (take_random f k pod nic (pool_fam f p) free ip s).
Proof.
  intros [H Hn] Hk Hc Wf Hm Mf. set (x := fam f s) in *. set (q := pool_fam f p) in *.
  pose proof (pools_lookup f s k p Hk) as Hq. fold q in Hq.
  destruct (li_pool _ _ H k q Hq) as [[W1 W2 W3 W4 W5 W6] P1 P2 P3 P4 P5 P6 P7].
  assert (Ha : mem (pAvailable q) (ipv ip)) by (apply P2; by left). apply P1 in Ha as [Ha Hi].
  pose proof Ha as Hh. apply (li_avail _ _ H) in Hh as (Hh & Hnu & Hnr).
  assert (Hs : safe (ipv ip)) by (eapply usable_safe; eauto).
  destruct (Remove_set (fFree x) ip (li_wf_free _ _ H) Hc) as (F1 & F2 & _).
  assert (T : taken_from x (take_fam (fst (IPRangeList_Remove (fFree x) ip)) ip x) q (take_pool free ip q) (ipv ip)).
  { pose proof (take_spec x (pools f s) k q ip (fst (IPRangeList_Remove (fFree x) ip)) free (pReleased q)) as T.
    assert (E : mkPoolFam (pIPs q) (pFree q) (pAvailable q) (pReserved q) (pReleased q) (pUsing q) = q)
      by (by destruct q).
    rewrite E in T. apply (T H Hq Hc Hs F1 Wf W5); [by intros v ?%F2|done|].
    intros v. split; [|tauto]. intros Hv. split; [done|]. intros ->. by apply (P3 (ipv ip)). }
  pose proof (lists_take _ _ _ _ _ _ _ H Hq Hi (or_introl Hh) T) as L.
  unfold take_random, assign. fold x.
  constructor; view; try done.
  - rewrite (pools_put _ _ _ _ p) by done. split; [by apply lists_inv_maps|]. intros nic' ip'. cbn.
    intros [[<- <-]|[_ Hl]]%lookup_insert_Some; [|by eapply Hn]. split; [done|]. split; [|by left].
    intros E0. change (fCIDR x = None) in E0. unfold hosts_of in Hh. by rewrite E0 in Hh.
  - apply T.
  - apply T.
  - transitivity (pool_ips f (put_pool f k (take_pool free ip q) s)); [apply pool_ips_eq; by view|].
    by apply (pool_ips_put _ _ _ _ p).
Qed.

(** States with the same view of both families. *)
Definition same_view (s s' : Subnet) : Prop :=
  (forall f, fam f s' = fam f s) /\ (forall f, pools f s' = pools f s).

Lemma take_post_ext f pod nic ip s1 s s2 s' :
  fam f s1 = fam f s -> pool_ips f s1 = pool_ips f s -> fam (other f) s1 = fam (other f) s -> pools (other f) s1 = pools (other f) s ->
  same_view s2 s' -> take_post f pod nic ip s1 s2 -> take_post f pod nic ip s s'.
Proof.
  intros E1 E0 E2 E3 [V1 V2] [T1 T2 T3 T4 T5 T6 T7 T8 T9 T10 T11 T12].
  constructor; rewrite ?V1, ?V2, ?(pool_ips_eq _ _ _ (V2 f)), <-?E1, <-?E0, <-?E2, <-?E3; done.
Qed.

(** The lists of a family are the same as before. *)
Definition unchanged (f : family) (s s' : Subnet) : Prop :=
  same_space (fam f s) (fam f s') /\ fUsing (fam f s') = fUsing (fam f s) /\
  fAvailable (fam f s') = fAvailable (fam f s).

(** An address that was taken and given back; only this family needs to be as
    the allocation left it. *)
Lemma take_release_at f pod nic ip s s1 s2 s3 :
  lists_inv (fam f s) (pools f s) -> take_post f pod nic ip s s1 -> fam f s2 = fam f s1 ->
  rel_post f nic ip s2 s3 -> unchanged f s s3.
Proof.
  intros H [[L1 _] Tc Ta [Tc1 Tr1] _ _ _ Tu Tv _ _ _] E [[L2 _] [Rc Rr] _ _ _ Ru Rv _ _ _].
  rewrite E in *. pose proof (proj1 (li_avail _ _ H _) Ta) as (Hh & Hnu & Hnr).
  split; [split; congruence|]. split; (apply wf_ext; [apply L2|apply H|]); intros v.
  - rewrite Ru, Tu. split; [tauto|]. intros Hv. split; [by right|congruence].
  - rewrite Rv, Tr1, Tv. split; [|destruct (decide (v = ipv ip)); tauto].
    intros [[-> _]|[? _]]; done.
Qed.

(** What a random allocation returns. *)
Definition alloc_post (f : family) (k pod nic : string) (sk : list string) (s s' : Subnet)
    (r : result (IP * string)) : Prop :=
  match r with
  | Ok (ip, _) =>
      take_post f pod nic ip s s' /\ (ipv ip ∉ (ipv <$> parse_skipped sk)) /\
      exists p, pools f s !! k = Some p /\ mem (pAvailable p) (ipv ip)
  | Err ErrNoAvailable =>
      unchanged f s s' /\ fNicToIP (fam f s') = fNicToIP (fam f s) /\
      forall p, pools f s !! k = Some p -> pAvailable p = []
  | Err e => e = ErrConflict /\ (no_comma pod -> unchanged f s s' /\
      (fNicToIP (fam f s) !! nic = None -> fNicToIP (fam f s') = fNicToIP (fam f s)))
  end.

(** A step on family [f] for one nic: the other family and the other nics are
    left alone. *)
Record alloc_step (f : family) (pod nic : string) (s s' : Subnet) : Prop := {
  as_inv : inv s';
  as_other : fam (other f) s' = fam (other f) s;
  as_other_pools : pools (other f) s' = pools (other f) s;
  as_space : same_space (fam f s) (fam f s');
  as_ips : pool_ips f s' = pool_ips f s;
  as_frame : forall nic', nic' <> nic -> fNicToIP (fam f s') !! nic' = fNicToIP (fam f s) !! nic';
  as_own : no_comma pod -> own_inv (fam f s) -> own_inv (fam f s')
}.

Lemma own_take f pod nic ip s s' :
  fam_inv (fam f s) (pools f s) -> take_post f pod nic ip s s' -> no_comma pod ->
  own_inv (fam f s) -> own_inv (fam f s').
Proof.
  intros [Hl Hn] [_ Tc Ta _ _ Tn Tp Tu _ _ _ _] Hp Ho.
  apply (li_avail _ _ Hl) in Ta as (_ & Hnu & _).
  eapply own_assign; [done|done|done| |done|done|apply Tu; by left|intros v; rewrite Tu; tauto|done].
  intros nic' ip' Hl' E. destruct Hnu. rewrite <-E. by eapply (ow_using _ Ho).
Qed.

(** The release after a MAC conflict undoes the allocation. *)
Lemma undo_alloc f pod nic ip s s1 : inv s -> inv s1 -> take_post f pod nic ip s s1 ->
  exists s2, release_fam iter f pod nic s1 = Done s2 /\ alloc_step f pod nic s s2 /\
    (no_comma pod -> unchanged f s s2 /\ fNicToIP (fam f s2) = delete nic (fNicToIP (fam f s))).
Proof.
  intros H H1 T. destruct (release_fam_inv f pod nic s1 H1) as (s2 & E2 & H2 & Eo & Hsp & Hop & Hips & Hfr).
  exists s2. split; [done|]. pose proof (release_fam_spec f pod nic s1 (H1 f)) as Hr.
  rewrite (tp_nics _ _ _ _ _ _ T), lookup_insert_eq in Hr. cbv zeta in Hr.
  rewrite (go_get_Some _ _ _ pod) in Hr by (by rewrite (tp_pods _ _ _ _ _ _ T), lookup_insert_eq).
  destruct Hr as (s2' & E & Hr). rewrite E2 in E. injection E as <-.
  assert (Hnc : no_comma pod -> rel_post f nic ip s1 s2).
  { intros Hp. unfold no_comma in Hp. rewrite Hp in Hr. done. }
  split; [constructor; try done|].
  - rewrite Eo. apply T.
  - rewrite Hop. apply T.
  - destruct (tp_space _ _ _ _ _ _ T), Hsp. split; congruence.
  - rewrite Hips. apply T.
  - intros nic' Hne. rewrite Hfr by done. rewrite (tp_nics _ _ _ _ _ _ T). by rewrite lookup_insert_ne.
  - intros Hp Ho. eapply own_release; [apply H1| |by apply Hnc|].
    + by rewrite (tp_nics _ _ _ _ _ _ T), lookup_insert_eq.
    + by eapply own_take; [apply H| | |].
  - intros Hp. split; [eapply take_release_at; [apply H|done|done|by apply Hnc]|].
    rewrite (rp_nics _ _ _ _ _ (Hnc Hp)), (tp_nics _ _ _ _ _ _ T). apply delete_insert_eq.
Qed.

Lemma same_view_inv s s' : same_view s s' -> inv s -> inv s'.
Proof. intros [? ?] ?. by eapply inv_ext. Qed.

Lemma same_view_push pod nic s : same_view s (pushPodNic pod nic s).
Proof. split; intros; by view. Qed.

Lemma same_view_pop pod nic s : same_view s (popPodNic pod nic s).
Proof. split; intros; by view. Qed.

Lemma same_view_trans s1 s2 s3 : same_view s1 s2 -> same_view s2 s3 -> same_view s1 s3.
Proof. intros [A1 B1] [A2 B2]. split; intros f; [rewrite A2|rewrite B2]; auto. Qed.

Lemma alloc_step_view f pod nic s s1 s2 :
  alloc_step f pod nic s s1 -> same_view s1 s2 -> alloc_step f pod nic s s2.
Proof.
  intros [A1 A2 A3 A4 A5 A6 A7] V. pose proof V as [V1 V2].
  constructor; rewrite ?V1, ?V2, ?(pool_ips_eq _ _ _ (V2 f)); try done.
  by eapply same_view_inv.
Qed.

(** Refilling [Free] from [Released] is not visible in the subnet's lists. *)
Lemma refill_step f k p s : inv s -> sIPPools s !! k = Some p ->
  let s1 := put_pool f k (refill (pool_fam f p)) s in
  inv s1 /\ fam f s1 = fam f s /\ pool_ips f s1 = pool_ips f s /\ fam (other f) s1 = fam (other f) s /\
  pools (other f) s1 = pools (other f) s /\
  sIPPools s1 !! k = Some (set_pool_fam f (refill (pool_fam f p)) p) /\
  pool_fam f (set_pool_fam f (refill (pool_fam f p)) p) = refill (pool_fam f p).
Proof.
  intros H Hk s1. pose proof (pools_lookup f s k p Hk) as Hq. destruct (H f) as [Hl Hn].
  destruct (refill_ok _ _ _ _ Hl Hq) as [Hr _].
  subst s1. view. split; [|split_and!; try done].
  - apply (inv_step f s); view; try done. rewrite (pools_put _ _ _ _ p) by done. done.
  - apply (pool_ips_put _ _ _ _ p); [done|]. unfold refill. by destruct (_ =? _)%nat.
  - rewrite IPPools_put, lookup_alter_eq, Hk. done.
  - by destruct f.
Qed.

Lemma alloc_step_same f pod nic s s1 : inv s1 -> fam f s1 = fam f s ->
  pool_ips f s1 = pool_ips f s -> fam (other f) s1 = fam (other f) s ->
  pools (other f) s1 = pools (other f) s -> alloc_step f pod nic s s1.
Proof. intros H E1 E0 E2 E3. constructor; rewrite ?E1; try done. Qed.

Lemma unchanged_eq f s s1 : fam f s1 = fam f s -> unchanged f s s1.
Proof. intros E. unfold unchanged. by rewrite E. Qed.

Lemma take_step f pod nic ip s s1 : inv s -> take_post f pod nic ip s s1 -> alloc_step f pod nic s s1.
Proof.
  intros H T. constructor; try apply T.
  - apply (inv_step f s); try done; apply T.
  - intros nic' Hne. rewrite (tp_nics _ _ _ _ _ _ T). by rewrite lookup_insert_ne.
  - intros Hp Ho. by eapply own_take; [apply H| | |].
Qed.

(** The allocation after the cached address was dealt with. *)
Lemma allocate_random_spec f k pod nic mac sk cc s rnd :
  inv s -> clean_skipped sk ->
  holds (allocate_random iter f k pod nic mac sk cc s rnd) (fun '(s', rnd', r) =>
    alloc_step f pod nic s s' /\ alloc_post f k pod nic sk s s' r).
Proof.
  intros H Hsk. unfold allocate_random. destruct (sIPPools s !! k) as [p|] eqn:Hk.
  2:{ split; [by apply alloc_step_same|]. split; [by apply unchanged_eq|]. split; [done|].
      intros q Hq. apply pools_lookup_inv in Hq as (? & ? & _). congruence. }
  destruct (refill_step f k p s H Hk) as (H1 & E1 & E0 & E2 & E3 & Hk1 & Ep).
  set (s1 := put_pool f k (refill (pool_fam f p)) s) in *.
  pose proof (pools_lookup f s k p Hk) as Hq.
  destruct (refill_ok _ _ _ _ (proj1 (H f)) Hq) as [_ Hemp].
  unfold IPRangeList_Len. destruct (Nat.eqb_spec (length (pFree (refill (pool_fam f p)))) 0) as [Hz|Hz].
  { split; [by apply alloc_step_same|]. split; [by apply unchanged_eq|]. split; [by rewrite E1|].
    intros q. rewrite Hq. intros [= <-]. by apply Hemp, nil_length_inv. }
  pose proof (pools_lookup f s1 k _ Hk1) as Hq1. rewrite Ep in Hq1.
  pose proof (li_pool _ _ (proj1 (H1 f)) k _ Hq1) as [[W1 W2 W3 W4 W5 W6] P1 P2 _ _ _ _ _].
  pose proof (IPRangeList_Allocate_ok _ _ W2 Hsk) as Ha.
  destruct (IPRangeList_Allocate _ _) as [free ip].
  destruct Ha as [(-> & -> & _)|(Hnn & Hc & Hm & Hns & _ & Wf & Mf)].
  { split; [by apply alloc_step_same|]. split; [done|]. intros _. split; [by apply unchanged_eq|].
    intros _. by rewrite E1. }
  destruct ip as [|b0 ip0] eqn:Eip; [done|]. rewrite <-Eip in *. clear Eip b0 ip0 Hnn.
  assert (isNil ip = false) as -> by (destruct Hc as [[_ [L|L]] _]; by destruct ip).
  pose proof (take_random_ok f k pod nic _ free ip s1 (H1 f) Hk1 Hc Wf) as T. rewrite Ep in T.
  specialize (T Hm Mf). set (s2 := take_random _ _ _ _ _ _ _ _) in *.
  set (s3 := pushPodNic pod nic s2).
  assert (Hin : exists q, pools f s !! k = Some q /\ mem (pAvailable q) (ipv ip)).
  { exists (pool_fam f p). split; [done|]. assert (Ha : mem (pAvailable (refill (pool_fam f p))) (ipv ip))
      by (apply P2; by left). unfold refill in Ha. by destruct (_ =? _)%nat. }
  assert (Hgen : forall s', same_view s3 s' -> take_post f pod nic ip s s').
  { intros s' V. eapply take_post_ext; [done..| |exact T].
    eapply same_view_trans; [apply same_view_push|exact V]. }
  destruct mac as [m|].
  - pose proof (fun g => GetStaticMac_view pod nic m cc s3 g) as V.
    destruct (GetStaticMac s3 pod nic m cc) as [s4 [e|]] eqn:Em; cbn [fst] in V.
    + assert (Ee : e = ErrConflict).
      { unfold GetStaticMac in Em. destruct (bool_decide _); [done|]. destruct (cc && _); [congruence|].
        destruct (_ && _); congruence. }
      assert (T4 : take_post f pod nic ip s s4) by (apply Hgen; split; apply V).
      assert (H4 : inv s4) by exact (as_inv _ _ _ _ _ (take_step _ _ _ _ _ _ H T4)).
      destruct (undo_alloc f pod nic ip s s4 H H4 T4) as (s5 & -> & Hst & Hun). cbn [mbind outcome_bind holds].
      split; [eapply alloc_step_view; [done|apply same_view_pop]|]. subst e. split; [done|].
      intros Hp. unfold unchanged. view. destruct (Hun Hp) as [Hu Hd]. split; [done|]. intros Hno.
      rewrite Hd. by apply delete_id.
    + assert (T4 : take_post f pod nic ip s s4) by (apply Hgen; split; apply V).
      split; [by eapply take_step|done].
  - apply holds_bind. eapply holds_mono; [apply GetRandomMac_view|]. intros [[s4 rnd'] m] V.
    cbn [holds]. assert (T4 : take_post f pod nic ip s s4) by (by apply Hgen).
    split; [by eapply take_step|done].
Qed.

End Release.
