(* ===== verification/SubnetAlloc.v ===== *)
(** * Allocation and release keep the invariant *)
From S2P Require Import Prelude GoStrings GoNet GoNetText Ip IpRange IpRangeList IpRangeListFacts UtilNet Hosts Subnet SubnetInv.

Local Open Scope Z_scope.

Section Allocation.

Context (iter : gmap string IPPool -> list (string * IPPool)).
Hypothesis iter_ok : forall m, iter m ≡ₚ map_to_list m.

Lemma alloc_step_trans f pod nic s1 s2 s3 :
  alloc_step f pod nic s1 s2 -> alloc_step f pod nic s2 s3 -> alloc_step f pod nic s1 s3.
Proof.
  intros [A1 A2 A3 [A4 A4'] A0 A5 A6] [B1 B2 B3 [B4 B4'] B0 B5 B6]. constructor; auto; try congruence.
  - split; congruence.
  - intros nic' Hne. by rewrite B5, A5.
Qed.

Lemma alloc_step_refl f pod nic s : inv s -> alloc_step f pod nic s s.
Proof. intros H. by apply alloc_step_same. Qed.

(** A release is a step; it removes the record of the nic when the address
    has one owner. *)
Lemma release_step f pod nic s : inv s ->
  exists s1, release_fam iter f pod nic s = Done s1 /\ alloc_step f pod nic s s1.
Proof.
  intros H. destruct (release_fam_inv iter iter_ok f pod nic s H) as (s1 & E & H1 & Eo & Hsp & Hop & Hips & Hfr).
  exists s1. split; [done|]. constructor; try done. intros _ Ho.
  destruct (fNicToIP (fam f s) !! nic) as [ip|] eqn:En.
  - destruct (release_fam_own iter iter_ok f pod nic s ip (H f) Ho En) as (s2 & E2 & _ & Ho2). congruence.
  - pose proof (release_fam_spec iter iter_ok f pod nic s (H f)) as Hr. rewrite En in Hr. congruence.
Qed.

Lemma NicIP_Some f s nic : isNil (NicIP f s nic) = false ->
  fNicToIP (fam f s) !! nic = Some (NicIP f s nic).
Proof. unfold NicIP, go_get. by destruct (_ !! _). Qed.

(** What [getV4RandomAddress] and [getV6RandomAddress] return. *)
Definition get_post (f : family) (k pod nic : string) (sk : list string) (s s' : Subnet)
    (r : result (IP * string)) : Prop :=
  match r with
  | Ok (ip, _) =>
      fNicToIP (fam f s') !! nic = Some ip /\ canon ip /\
      (s' = s /\ slice_contains sk (IP_String ip) = false \/
       exists s1, (fNicToIP (fam f s) !! nic = None -> s1 = s) /\
         alloc_step f pod nic s s1 /\ alloc_post f k pod nic sk s1 s' r)
  | Err e => (e = ErrNoAvailable \/ e = ErrConflict) /\
      (no_comma pod -> fNicToIP (fam f s) !! nic = None ->
       unchanged f s s' /\ fNicToIP (fam f s') = fNicToIP (fam f s))
  end.

Lemma allocate_get f k pod nic mac sk cc s s1 rnd :
  alloc_step f pod nic s s1 -> (fNicToIP (fam f s) !! nic = None -> s1 = s) -> clean_skipped sk ->
  holds (allocate_random iter f k pod nic mac sk cc s1 rnd) (fun '(s', _, r) =>
    alloc_step f pod nic s s' /\ get_post f k pod nic sk s s' r).
Proof.
  intros Hs Hno Hsk. eapply holds_mono; [apply (allocate_random_spec iter iter_ok); [apply Hs|done]|].
  intros [[s' rnd'] r] [Ha Hp]. split; [by eapply alloc_step_trans|].
  destruct r as [[ip m]|e]; cbn [get_post alloc_post] in *.
  - destruct Hp as (T & Hp). split; [by rewrite (tp_nics _ _ _ _ _ _ T), lookup_insert_eq|].
    split; [apply T|]. right. exists s1. auto.
  - assert (Hp' : no_comma pod -> fNicToIP (fam f s1) !! nic = None ->
      unchanged f s1 s' /\ fNicToIP (fam f s') = fNicToIP (fam f s1)).
    { intros Hc Hn. destruct e; try (destruct Hp as [Hp _]; discriminate Hp).
      - destruct Hp as [_ Hp]. destruct (Hp Hc) as [? ?]. auto.
      - by destruct Hp as (? & ? & _). }
    split; [destruct e; try (destruct Hp as [Hp _]; discriminate Hp); auto|].
    intros Hc Hn. specialize (Hno Hn). subst s1. by apply Hp'.
Qed.

Lemma get_random_spec f k pod nic mac sk cc s rnd :
  inv s -> clean_skipped sk ->
  holds (get_random iter f k pod nic mac sk cc s rnd) (fun '(s', _, r) =>
    alloc_step f pod nic s s' /\ get_post f k pod nic sk s s' r).
Proof.
  intros H Hsk. unfold get_random. destruct (isNil (NicIP f s nic)) eqn:En; cbn [negb andb].
  { apply allocate_get; [by apply alloc_step_refl|done|done]. }
  destruct (_ || _); [|apply allocate_get; [by apply alloc_step_refl|done|done]].
  pose proof (NicIP_Some f s nic En) as Hnic.
  destruct (slice_contains sk (IP_String (NicIP f s nic))) eqn:Hsl; cbn [negb].
  - destruct (release_step f pod nic s H) as (s1 & -> & Hs). cbn [mbind outcome_bind].
    apply allocate_get; [done|congruence|done].
  - split; [by apply alloc_step_refl|]. split; [done|]. split; [by apply (H f) in Hnic as [? _]|]. by left.
Qed.

(** Two steps on both families for one nic. *)
Record nic_step (pod nic : string) (s s' : Subnet) : Prop := {
  ns_inv : inv s';
  ns_space : forall f, same_space (fam f s) (fam f s');
  ns_frame : forall f nic', nic' <> nic -> fNicToIP (fam f s') !! nic' = fNicToIP (fam f s) !! nic';
  ns_own : no_comma pod -> own s -> own s'
}.

Lemma alloc_nic_step f pod nic s s' : alloc_step f pod nic s s' -> nic_step pod nic s s'.
Proof.
  intros [A1 A2 A3 A4 A0 A5 A6]. constructor; try done.
  - refine (family_cases _ f _ _); [done|]. by rewrite A2.
  - refine (family_cases _ f _ _); [done|]. intros nic' _. by rewrite A2.
  - intros Hp Ho. unfold own. apply (family_cases _ f); [by apply A6|]. rewrite A2. apply Ho.
Qed.

Lemma nic_step_trans pod nic s1 s2 s3 :
  nic_step pod nic s1 s2 -> nic_step pod nic s2 s3 -> nic_step pod nic s1 s3.
Proof.
  intros [A1 A2 A3 A4] [B1 B2 B3 B4]. constructor; auto.
  - intros f. destruct (A2 f), (B2 f). split; congruence.
  - intros f nic' Hne. by rewrite B3, A3.
Qed.

Lemma nic_step_view pod nic s s1 s2 : nic_step pod nic s s1 -> same_view s1 s2 -> nic_step pod nic s s2.
Proof.
  intros [A1 A2 A3 A4] V. pose proof V as [V1 V2]. constructor.
  - by eapply same_view_inv.
  - intros f. rewrite V1. apply A2.
  - intros f nic' Hne. rewrite V1. by apply A3.
  - intros Hp Ho f. rewrite V1. by apply A4.
Qed.

Lemma nic_step_refl pod nic s : inv s -> nic_step pod nic s s.
Proof. intros H. constructor; done. Qed.

Lemma release_nic_step f pod nic s : inv s ->
  exists s1, release_fam iter f pod nic s = Done s1 /\ nic_step pod nic s s1.
Proof.
  intros H. destruct (release_step f pod nic s H) as (s1 & E & Hs). exists s1. split; [done|].
  by eapply alloc_nic_step.
Qed.

(** ** Both families *)

Lemma IP_Equal_refl a : IP_Equal a a = true.
Proof. unfold IP_Equal, netIP_Equal. rewrite Nat.eqb_refl. by apply bool_decide_true. Qed.

(** The result of a dual-stack allocation. *)
Definition dual_post (nic : string) (s s' : Subnet) (r : result GetRes) : Prop :=
  match r with
  | Ok (v4, v6, _) =>
      fNicToIP (sV4 s') !! nic = Some v4 /\ fNicToIP (sV6 s') !! nic = Some v6
  | Err e =>
      (e = ErrNoAvailable \/ e = ErrConflict) /\
      (fNicToIP (sV4 s) !! nic = None -> fNicToIP (sV6 s) !! nic = None ->
       (unchanged V4 s s' /\ fNicToIP (sV4 s') = fNicToIP (sV4 s)) /\
       (unchanged V6 s s' /\ fNicToIP (sV6 s') = fNicToIP (sV6 s)))
  end.

Lemma unchanged_same f s s' : fam f s' = fam f s ->
  unchanged f s s' /\ fNicToIP (fam f s') = fNicToIP (fam f s).
Proof. intros E. split; [by apply unchanged_eq|by rewrite E]. Qed.


(** The first half undone after the second one failed. *)
Lemma dual_undo k pod nic sk s s1 s2 v4 m :
  inv s -> get_post V4 k pod nic sk s s1 (Ok (v4, m)) -> alloc_step V6 pod nic s1 s2 ->
  exists s3, release_fam iter V4 pod nic s2 = Done s3 /\ nic_step pod nic s2 s3 /\ fam V6 s3 = fam V6 s2 /\
    (no_comma pod -> fNicToIP (sV4 s) !! nic = None ->
     unchanged V4 s s3 /\ fNicToIP (sV4 s3) = fNicToIP (sV4 s)).
Proof.
  intros H P1 A2. destruct (release_step V4 pod nic s2 (as_inv _ _ _ _ _ A2)) as (s3 & E3 & A3).
  exists s3. split; [done|]. split; [by eapply alloc_nic_step|].
  split; [apply (as_other _ _ _ _ _ A3)|]. intros Hp Hn.
  destruct P1 as (Hnic & Hc & [[-> _]|(s0 & E0 & A0 & T & _)]); [cbn [fam] in Hnic; congruence|].
  rewrite (E0 Hn) in *. clear E0. pose proof (as_other _ _ _ _ _ A2) as Ef. cbn [other] in Ef.
  pose proof (release_fam_spec iter iter_ok V4 pod nic s2 (as_inv _ _ _ _ _ A2 V4)) as Hr.
  rewrite Ef, Hnic in Hr. cbv zeta in Hr.
  rewrite (go_get_Some _ _ _ pod) in Hr by (by rewrite (tp_pods _ _ _ _ _ _ T), lookup_insert_eq).
  rewrite Hp in Hr. destruct Hr as (s3' & E & R). assert (s3' = s3) as -> by congruence. cbn in R.
  split; [by eapply take_release_at; [apply H|exact T|exact Ef|exact R]|].
  change (sV4 s3) with (fam V4 s3). rewrite (rp_nics _ _ _ _ _ R), Ef, (tp_nics _ _ _ _ _ _ T).
  rewrite delete_insert_eq. by apply delete_id.
Qed.

Lemma getDual_spec k pod nic mac sk cc s rnd :
  inv s -> clean_skipped sk ->
  holds (getDualRandomAddress iter k pod nic mac sk cc s rnd) (fun '(s', _, r) =>
    nic_step pod nic s s' /\ (no_comma pod -> dual_post nic s s' r)).
Proof.
  intros H Hsk. unfold getDualRandomAddress, getV4RandomAddress, getV6RandomAddress, releaseV4Addr.
  apply holds_bind. eapply holds_mono; [by apply get_random_spec|]. intros [[s1 rnd1] [[v4 m]|e]] [A1 P1].
  2:{ split; [by eapply alloc_nic_step|]. intros Hp. destruct P1 as [P1 P2]. split; [done|]. intros Hn4 Hn6.
      split; [by apply P2|]. apply (unchanged_same V6). apply A1. }
  apply holds_bind. eapply holds_mono; [apply get_random_spec; [apply A1|done]|].
  intros [[s2 rnd2] [[v6 m']|e]] [A2 P2].
  - pose proof (as_other _ _ _ _ _ A2) as Ef. cbn [other] in Ef.
    assert (E4 : fNicToIP (fam V4 s2) !! nic = Some v4) by (rewrite Ef; apply P1).
    unfold NicIP. rewrite (go_get_Some _ _ _ _ E4), IP_Equal_refl. cbn [negb].
    split; [eapply nic_step_trans; by eapply alloc_nic_step|]. intros _. split; [done|apply P2].
  - destruct P2 as [He P2]. destruct (isNil (NicIP V4 s nic) || _) eqn:Ex.
    + destruct (dual_undo k pod nic sk s s1 s2 v4 m H P1 A2) as (s3 & -> & N3 & E6 & U).
      cbn [mbind outcome_bind holds]. split.
      { eapply nic_step_view; [|apply same_view_pop]. eapply nic_step_trans; [|exact N3].
        eapply nic_step_trans; by eapply alloc_nic_step. }
      intros Hp. split; [done|]. intros Hn4 Hn6.
      change (sV4 (popPodNic pod nic s3)) with (fam V4 (popPodNic pod nic s3)).
      change (sV6 (popPodNic pod nic s3)) with (fam V6 (popPodNic pod nic s3)).
      unfold unchanged. view. split; [by apply U|].
      pose proof (as_other _ _ _ _ _ A1) as E61. cbn [other] in E61.
      destruct (P2 Hp) as [U6 N6]; [by rewrite E61|]. rewrite E6. unfold unchanged in U6. by rewrite E61 in *.
    + split; [eapply nic_step_trans; by eapply alloc_nic_step|]. intros Hp. split; [done|]. intros Hn4 _.
      exfalso. apply orb_false_iff in Ex as [Ex _]. apply NicIP_Some in Ex. cbn [fam] in Ex. congruence.
Qed.

Lemma getMacOnly_view pod nic mac cc s rnd :
  holds (getMacOnlyAddress pod nic mac cc s rnd) (fun '(s', _, _) => same_view s s').
Proof.
  unfold getMacOnlyAddress.
  assert (Hr : holds ('(s1, rnd', m) ← GetRandomMac s pod nic rnd; Done (s1, rnd', Ok (([] : IP), ([] : IP), m)))
                     (fun '(s', _, _) => same_view s s')).
  { apply holds_bind. eapply holds_mono; [apply GetRandomMac_view|]. by intros [[s1 rnd1] m]. }
  destruct mac as [[|c m]|]; [done| |done].
  pose proof (fun g => GetStaticMac_view pod nic (String c m) cc s g) as V.
  destruct (GetStaticMac s pod nic (String c m) cc) as [s1 [e|]]; cbn [fst holds] in *; split; apply V.
Qed.

(** [GetRandomAddressWithFamily] keeps the invariant, touches one nic only and
    keeps ownership exclusive. *)
Lemma GetRandomAddressWithFamily_step k pod nic mac fam_ sk cc s rnd :
  inv s -> clean_skipped sk ->
  holds (GetRandomAddressWithFamily iter k pod nic mac fam_ sk cc s rnd) (fun '(s', _, _) => nic_step pod nic s s').
Proof.
  intros H Hsk. unfold GetRandomAddressWithFamily. apply holds_bind.
  assert (Hb : holds (get_random_body iter k pod nic mac fam_ sk cc s rnd) (fun '(s', _, _) => nic_step pod nic s s')).
  { assert (Hf : forall f, holds ('(s1, rnd1, r) ← get_random iter f k pod nic mac sk cc s rnd; Done (s1, rnd1, place f r))
                  (fun '(s', _, _) => nic_step pod nic s s')).
    { intros f. apply holds_bind. eapply holds_mono; [by apply get_random_spec|].
      intros [[s1 rnd1] r] [A _]. by eapply alloc_nic_step. }
    unfold get_random_body, getV4RandomAddress, getV6RandomAddress.
    destruct (_ && _ && _ && _); [by apply nic_step_refl|].
    destruct (bool_decide (sProtocol s = ProtocolMac)).
    { eapply holds_mono; [apply getMacOnly_view|]. intros [[s1 rnd1] r] V.
      eapply nic_step_view; [by apply nic_step_refl|done]. }
    destruct (bool_decide (sProtocol s = ProtocolDual)).
    { destruct (bool_decide _); [apply (Hf V4)|]. destruct (bool_decide _); [apply (Hf V6)|].
      eapply holds_mono; [by apply getDual_spec|]. by intros [[s1 rnd1] r] [? _]. }
    destruct (bool_decide _); [apply (Hf V4)|apply (Hf V6)]. }
  eapply holds_mono; [exact Hb|]. intros [[s1 rnd1] r] Hs. cbn [holds].
  eapply nic_step_view; [done|apply same_view_push].
Qed.

(** ** Static allocation *)

Lemma find_pool_Some f ip order k : find_pool f ip order = Some k ->
  exists p, (k, p) ∈ order /\ IPRangeList_Contains (pIPs (pool_fam f p)) ip = true.
Proof.
  induction order as [|[j p] order IH]; [done|]. cbn [find_pool].
  destruct (IPRangeList_Contains _ ip) eqn:E.
  - intros [= <-]. exists p. split; [left|done].
  - intros Hf. destruct (IH Hf) as (q & ? & ?). exists q. split; [by right|done].
Qed.

Lemma find_pool_None f ip order : find_pool f ip order = None ->
  forall k p, (k, p) ∈ order -> IPRangeList_Contains (pIPs (pool_fam f p)) ip = false.
Proof.
  induction order as [|[j q] order IH]; intros Hf k p Hin; [by apply elem_of_nil in Hin|].
  cbn [find_pool] in Hf. destruct (IPRangeList_Contains (pIPs (pool_fam f q)) ip) eqn:E; [done|].
  apply elem_of_cons in Hin as [[= -> ->]|Hin]; [done|by eapply IH].
Qed.

(** The family, the network and the pool of a static address. *)
Lemma static_family_ok ip cc s f k :
  inv s -> canon ip -> staticAddressFamilyForIP iter ip cc s = Ok (f, k) ->
  exists p, sIPPools s !! k = Some p /\ mem (pIPs (pool_fam f p)) (ipv ip) /\ fCIDR (fam f s) <> None /\
    (cc = true -> netIP_Equal ip (ParseIP (fGw (fam f s))) = false).
Proof.
  intros H Hc. unfold staticAddressFamilyForIP. set (g := if negb _ then V4 else V6). clearbody g.
  destruct (fCIDR (fam g s)) as [cidr|] eqn:Ec; [|done]. destruct (negb _); [done|].
  destruct (find_pool g ip (iter (sIPPools s))) as [j|] eqn:Ef; [|done].
  destruct (cc && _) eqn:Eg; [done|]. intros [= <- <-].
  apply find_pool_Some in Ef as (p & Hin & Hm). apply (elem_of_iter _ iter_ok) in Hin. exists p.
  split; [done|]. split; [|split; [congruence|]].
  - pose proof (li_pool _ _ (proj1 (H g)) j _ (pools_lookup g s j p Hin)) as [W _ _ _ _ _ _ _].
    rewrite IPRangeList_Contains_mem in Hm by (auto with ip; apply W). by apply bool_decide_eq_true in Hm.
  - intros ->. done.
Qed.

(** The state after the switch of [allocateStaticAddress], the record of the
    nic, and the counters: the address is taken out of its pool. *)
Record static_post (f : family) (pod nic : string) (ip : IP) (s s' : Subnet) : Prop := {
  sp_inv : fam_inv (fam f s') (pools f s');
  sp_usable : mem (fAvailable (fam f s)) (ipv ip) \/ mem (fReserved (fam f s)) (ipv ip);
  sp_space : same_space (fam f s) (fam f s');
  sp_nics : fNicToIP (fam f s') = <[nic := ip]> (fNicToIP (fam f s));
  sp_pods : fIPToPod (fam f s') = <[IP_String ip := pod]> (fIPToPod (fam f s));
  sp_using : forall v, mem (fUsing (fam f s')) v <-> v = ipv ip \/ mem (fUsing (fam f s)) v;
  sp_avail : forall v, mem (fAvailable (fam f s')) v <-> mem (fAvailable (fam f s)) v /\ v <> ipv ip;
  sp_ips : pool_ips f s' = pool_ips f s;
  sp_other : fam (other f) s' = fam (other f) s;
  sp_other_pools : pools (other f) s' = pools (other f) s
}.

(** The lists after the [switch]: [Free] lists without the address. *)
Record switched (f : family) (k : string) (ip : IP) (q : PoolFam) (s sa : Subnet)
    (sfree pfree prel : IPRangeList) : Prop := {
  sw_fam : fam f sa = mkFam (fCIDR (fam f s)) sfree (fReserved (fam f s)) (fAvailable (fam f s))
             (fUsing (fam f s)) (fNicToIP (fam f s)) (fIPToPod (fam f s)) (fGw (fam f s));
  sw_pool : exists p', sIPPools sa !! k = Some p' /\
    pool_fam f p' = mkPoolFam (pIPs q) pfree (pAvailable q) (pReserved q) prel (pUsing q);
  sw_pools : pools f sa = <[k := mkPoolFam (pIPs q) pfree (pAvailable q) (pReserved q) prel (pUsing q)]> (pools f s);
  sw_other : fam (other f) sa = fam (other f) s /\ pools (other f) sa = pools (other f) s;
  sw_wf : wf sfree /\ wf pfree /\ wf prel;
  sw_free : forall v, mem sfree v -> mem (fFree (fam f s)) v /\ v <> ipv ip;
  sw_pfree : forall v, mem pfree v <-> mem (pFree q) v /\ v <> ipv ip;
  sw_prel : forall v, mem prel v <-> mem (pReleased q) v /\ v <> ipv ip;
  sw_usable : mem (fAvailable (fam f s)) (ipv ip) \/ mem (fReserved (fam f s)) (ipv ip)
}.

Lemma fam_eta x : x = mkFam (fCIDR x) (fFree x) (fReserved x) (fAvailable x) (fUsing x)
                        (fNicToIP x) (fIPToPod x) (fGw x).
Proof. by destruct x. Qed.

Lemma pool_eta q : q = mkPoolFam (pIPs q) (pFree q) (pAvailable q) (pReserved q) (pReleased q) (pUsing q).
Proof. by destruct q. Qed.

Lemma set_pool_fam_get f x p : pool_fam f (set_pool_fam f x p) = x.
Proof. by destruct f. Qed.

Lemma put_lookup f k x s p : sIPPools s !! k = Some p ->
  sIPPools (put_pool f k x s) !! k = Some (set_pool_fam f x p).
Proof. intros H. by rewrite IPPools_put, lookup_alter_eq, H. Qed.

Lemma take_static_ok f k ip s sa p :
  inv s -> canon ip -> sIPPools s !! k = Some p -> mem (pIPs (pool_fam f p)) (ipv ip) ->
  take_static f k ip s = Some sa ->
  exists sfree pfree prel, switched f k ip (pool_fam f p) s sa sfree pfree prel.
Proof.
  intros H Hc Hk Hip. unfold take_static. rewrite Hk. set (q := pool_fam f p) in *. set (x := fam f s).
  pose proof (pools_lookup f s k p Hk) as Hq. fold q in Hq. pose proof (proj1 (H f)) as Hl. fold x in Hl.
  destruct (li_pool _ _ Hl k q Hq) as [[W1 W2 W3 W4 W5 W6] P1 P2 P3 P4 P5 P6 P7].
  rewrite IPRangeList_Contains_mem by auto with ip.
  destruct (Remove_set (pFree q) ip W2 Hc) as (F1 & F2 & F3).
  destruct (Remove_set (pReleased q) ip W5 Hc) as (R1 & R2 & R3).
  destruct (Remove_set (fFree x) ip (li_wf_free _ _ Hl) Hc) as (S1 & S2 & _).
  assert (Hno : ~ mem (fAvailable x) (ipv ip) -> forall v, mem (fFree x) v -> v <> ipv ip).
  { intros Hna v Hv ->. apply Hna. by apply (li_free _ _ Hl). }
  destruct (bool_decide_reflect (mem (pReserved q) (ipv ip))) as [Hr|Hr].
  { intros [= <-]. exists (fFree x), (pFree q), (pReleased q). apply P5 in Hr.
    assert (Hna : ~ mem (fAvailable x) (ipv ip)) by (rewrite (li_avail _ _ Hl); tauto).
    assert (Hpa : ~ mem (pAvailable q) (ipv ip)) by (rewrite P1; tauto). rewrite P2 in Hpa.
    constructor; try done.
    - by rewrite <-fam_eta.
    - exists p. split; [done|]. apply pool_eta.
    - rewrite <-pool_eta. by rewrite insert_id.
    - split; [apply Hl|done].
    - intros v Hv. split; [done|]. by apply Hno.
    - intros v. split; [|tauto]. intros Hv. split; [done|]. intros ->. tauto.
    - intros v. split; [|tauto]. intros Hv. split; [done|]. intros ->. tauto.
    - by right. }
  destruct (IPRangeList_Remove (pFree q) ip) as [free ok]. cbn [fst snd] in *. subst ok.
  destruct (bool_decide_reflect (mem (pFree q) (ipv ip))) as [Hf|Hf].
  { intros [= <-]. exists (fst (IPRangeList_Remove (fFree x) ip)), free, (pReleased q).
    assert (Ha : mem (pAvailable q) (ipv ip)) by (apply P2; by left). apply P1 in Ha as [Ha _].
    unfold set_free. constructor; view; try done.
    - eexists. split; [by apply put_lookup|]. apply set_pool_fam_get.
    - by erewrite pools_put.
    - by intros v ?%S2.
    - intros v. split; [|tauto]. intros Hv. split; [done|]. intros ->. by apply (P3 (ipv ip)).
    - by left. }
  destruct (IPRangeList_Remove (pReleased q) ip) as [rel ok]. cbn [fst snd] in *. subst ok.
  destruct (bool_decide_reflect (mem (pReleased q) (ipv ip))) as [Hrl|Hrl]; [|done]. intros [= <-]. exists (fFree x), (pFree q), rel.
  assert (Ha : mem (pAvailable q) (ipv ip)) by (apply P2; by right). apply P1 in Ha as [Ha _].
  constructor; view; try done.
  - by rewrite <-fam_eta.
  - eexists. split; [by apply put_lookup|]. apply set_pool_fam_get.
  - by erewrite pools_put.
  - split; [apply Hl|done].
  - intros v Hv. split; [done|]. intros ->. by apply (P7 (ipv ip)).
  - intros v. split; [|tauto]. intros Hv. split; [done|]. by intros ->.
  - by left.
Qed.

Lemma available_usable x ps v : lists_inv x ps ->
  mem (fAvailable x) v \/ mem (fReserved x) v -> mem (hosts_of x) v \/ mem (fReserved x) v.
Proof. intros H [Hv|?]; [|by right]. apply (li_avail _ _ H) in Hv. tauto. Qed.

(** Taking a static address. *)
Lemma take_static_post f k pod nic ip s sa p :
  inv s -> canon ip -> fCIDR (fam f s) <> None -> sIPPools s !! k = Some p ->
  mem (pIPs (pool_fam f p)) (ipv ip) -> take_static f k ip s = Some sa ->
  static_post f pod nic ip s (markStaticAddressAllocated f k ip (assign f nic pod ip sa)).
Proof.
  intros H Hc Hcidr Hk Hip Ht. destruct (take_static_ok f k ip s sa p H Hc Hk Hip Ht)
    as (sfree & pfree & prel & [Ef (p' & Hk' & Ep') Eps [Eo1 Eo2] (W1 & W2 & W3) M1 M2 M3 Hu]).
  pose proof (proj1 (H f)) as Hl. pose proof (available_usable _ _ _ Hl Hu) as Hu'.
  pose proof (usable_safe _ _ _ Hl Hu') as Hs.
  pose proof (take_spec _ _ k _ ip sfree pfree prel Hl (pools_lookup f s k p Hk) Hc Hs W1 W2 W3 M1 M2 M3) as T.
  pose proof (lists_take _ _ _ _ _ _ _ Hl (pools_lookup f s k p Hk) Hip Hu' T) as L.
  unfold markStaticAddressAllocated, assign. view. rewrite Hk'.
  constructor; view; rewrite ?Ef; try done.
  - erewrite pools_put by (view; exact Hk'). view. rewrite Eps, insert_insert_eq, Ep'.
    split.
    + change (lists_inv (with_maps (<[nic:=ip]> (fNicToIP (fam f s))) (<[IP_String ip:=pod]> (fIPToPod (fam f s)))
        (take_fam sfree ip (fam f s)))
        (<[k := take_pool pfree ip (mkPoolFam (pIPs (pool_fam f p)) (pFree (pool_fam f p)) (pAvailable (pool_fam f p))
           (pReserved (pool_fam f p)) prel (pUsing (pool_fam f p)))]> (pools f s))).
      by apply lists_inv_maps.
    + intros nic' ip'. cbn. intros [[<- <-]|[_ Hn]]%lookup_insert_Some; [done|]. by apply (H f) in Hn.
  - cbn. apply T.
  - cbn. apply T.
  - unfold pool_ips. erewrite pools_put by (view; exact Hk'). view. rewrite Eps, insert_insert_eq, Ep'.
    eapply ips_insert; [by apply pools_lookup|done].
Qed.

(** The result of the allocation proper. *)
Definition static_result (f : family) (pod nic : string) (ip : IP) (cc force : bool) (s s' : Subnet) (r : result bool) : Prop :=
  match r with
  | Ok true => static_post f pod nic ip s s' /\
      (force = true \/ fIPToPod (fam f s) !! IP_String ip = None)
  | Ok false => s' = s \/ cc = false
  | Err e => s' = s
  end.

Definition finish_static (f : family) (k : string) (ip : IP) (sr : Subnet * result bool) : Subnet :=
  match snd sr with Ok true => markStaticAddressAllocated f k ip (fst sr) | _ => fst sr end.

Lemma nic_inv_assign f pods nic ip s :
  inv s -> canon ip -> fCIDR (fam f s) <> None ->
  (mem (hosts_of (fam f s)) (ipv ip) \/ mem (fReserved (fam f s)) (ipv ip)) ->
  inv (assign f nic pods ip s).
Proof.
  intros H Hc Hcidr Hu. unfold assign. apply (inv_step f s); view; try done.
  split; [apply lists_inv_maps, H|]. intros nic' ip'. cbn.
  intros [[<- <-]|[_ Hn]]%lookup_insert_Some; [done|]. by apply (H f) in Hn.
Qed.

Lemma static_nic_step f pod nic ip s s' :
  inv s -> static_post f pod nic ip s s' ->
  (own_inv (fam f s) -> forall nic' ip', fNicToIP (fam f s) !! nic' = Some ip' -> ipv ip' = ipv ip -> nic' = nic) ->
  canon ip -> nic_step pod nic s s'.
Proof.
  intros H P Hfree Hc. apply (alloc_nic_step f). constructor; try apply P.
  - apply (inv_step f s); try done; apply P.
  - intros nic' Hne. rewrite (sp_nics _ _ _ _ _ _ P). by rewrite lookup_insert_ne.
  - intros Hp Ho. eapply own_assign; [apply (H f)|done|done|by apply Hfree|apply P|apply P| |intros v; rewrite (sp_using _ _ _ _ _ _ P); tauto|done].
    apply (sp_using _ _ _ _ _ _ P). by left.
Qed.

Lemma static_mac_view pod nic mac cc s rnd :
  holds (static_mac pod nic mac cc s rnd) (fun '(s', _, r) => same_view s s' /\
    match r with Err e => e = ErrConflict | Ok _ => True end).
Proof.
  unfold static_mac. destruct mac as [m|].
  - pose proof (fun g => GetStaticMac_view pod nic m cc s g) as V.
    destruct (GetStaticMac s pod nic m cc) as [s1 [e|]] eqn:E; cbn [fst holds] in *; (split; [split; apply V|]); [|done].
    unfold GetStaticMac in E. destruct (bool_decide _); [done|]. destruct (cc && _); [congruence|].
    destruct (_ && _); congruence.
  - destruct (sNicToMac s !! nic); [done|]. apply holds_bind.
    eapply holds_mono; [apply GetRandomMac_view|]. by intros [[s1 rnd1] m].
Qed.

Lemma releaseCurrent_step f pod nic ip s : inv s ->
  exists s1, releaseCurrentStaticAddress iter f pod nic ip s = Done s1 /\ alloc_step f pod nic s s1.
Proof.
  intros H. unfold releaseCurrentStaticAddress. destruct (_ && _).
  - by apply release_step.
  - exists s. split; [done|by apply alloc_step_refl].
Qed.

(** An address without an owner is not recorded for any nic. *)
Lemma unowned_free f s ip :
  inv s -> own_inv (fam f s) -> canon ip -> fIPToPod (fam f s) !! IP_String ip = None ->
  forall nic' ip', fNicToIP (fam f s) !! nic' = Some ip' -> ipv ip' <> ipv ip.
Proof.
  intros H Ho Hc Hn nic' ip' Hl E. destruct (proj2 (H f) _ _ Hl) as [Hc' _].
  rewrite (canon_inj _ _ Hc' Hc E) in Hl. destruct (ow_pod _ Ho _ _ Hl) as (pod & Hp & _). congruence.
Qed.

(** The outcome of the allocation proper. *)
Lemma allocateStatic_step f k pod nic ip force cc s p :
  inv s -> canon ip -> fCIDR (fam f s) <> None -> sIPPools s !! k = Some p ->
  mem (pIPs (pool_fam f p)) (ipv ip) ->
  (cc = false -> mem (hosts_of (fam f s)) (ipv ip) \/ mem (fReserved (fam f s)) (ipv ip)) ->
  let sr := allocateStaticAddress f k pod nic ip force cc s in
  let s' := finish_static f k ip sr in
  inv s' /\ (forall g, same_space (fam g s) (fam g s')) /\ (force = false -> cc = true -> nic_step pod nic s s') /\
  (force = false -> snd sr = Ok true -> fIPToPod (fam f s) !! IP_String ip = None /\ static_post f pod nic ip s s').
Proof.
  intros H Hc Hcidr Hk Hip Hsh. unfold allocateStaticAddress.
  assert (Htake : fIPToPod (fam f s) !! IP_String ip = None \/ force = true ->
    let sr := match take_static f k ip s with
              | Some s' => (assign f nic pod ip s', Ok true) | None => (s, Err ErrNoAvailable) end in
    let s' := finish_static f k ip sr in
    inv s' /\ (forall g, same_space (fam g s) (fam g s')) /\ (force = false -> cc = true -> nic_step pod nic s s') /\
    (force = false -> snd sr = Ok true -> fIPToPod (fam f s) !! IP_String ip = None /\ static_post f pod nic ip s s')).
  { intros Hn. destruct (take_static f k ip s) as [sa|] eqn:Et.
    2:{ split; [done|]. split; [done|]. split; [intros; by apply nic_step_refl|done]. }
    pose proof (take_static_post f k pod nic ip s sa p H Hc Hcidr Hk Hip Et) as P.
    cbv zeta. unfold finish_static. cbn [fst snd]. split; [apply (inv_step f s); try done; apply P|].
    split; [refine (family_cases _ f _ _); [apply P|by rewrite (sp_other _ _ _ _ _ _ P)]|].
    split; intros -> _; (destruct Hn as [Hn|Hn]; [|discriminate Hn]); [|done].
    eapply static_nic_step; [done|exact P| |done]. intros Ho nic' ip' Hl E.
    by destruct (unowned_free f s ip H Ho Hc Hn _ _ Hl). }
  destruct (fIPToPod (fam f s) !! IP_String ip) as [ex|] eqn:Ex; [|apply Htake; by left].
  destruct (negb (slice_contains _ _)).
  - destruct cc; cbn [negb]; unfold finish_static; cbn [fst snd].
    + split; [done|]. split; [done|]. split; [intros; by apply nic_step_refl|done].
    + split; [apply nic_inv_assign; auto|]. split; [|done]. unfold assign.
      refine (family_cases _ f _ _); by view.
  - destruct force; cbn [negb]; [apply Htake; by right|]. unfold finish_static; cbn [fst snd].
    split; [done|]. split; [done|]. split; [intros; by apply nic_step_refl|done].
Qed.

(** A shared static address has to be an assignable or a reserved one. *)
Definition shareable (s : Subnet) (ip : IP) : Prop :=
  let x := fam (if negb (isNil (To4 ip)) then V4 else V6) s in
  mem (hosts_of x) (ipv ip) \/ mem (fReserved x) (ipv ip).

Lemma static_family_of ip cc s f k : staticAddressFamilyForIP iter ip cc s = Ok (f, k) ->
  f = if negb (isNil (To4 ip)) then V4 else V6.
Proof.
  unfold staticAddressFamilyForIP. set (g := if negb _ then V4 else V6). clearbody g.
  destruct (fCIDR (fam g s)); [|done]. destruct (negb _); [done|]. destruct (find_pool _ _ _); [|done].
  destruct (_ && _); [done|]. by intros [= <- _].
Qed.

(** [GetStaticAddress] keeps the invariant; without sharing it touches one nic
    and keeps ownership exclusive. *)
Lemma GetStaticAddress_step pod nic ip mac force cc s rnd :
  inv s -> canon ip -> (cc = false -> shareable s ip) ->
  holds (GetStaticAddress iter pod nic ip mac force cc s rnd) (fun '(s', _, _) =>
    inv s' /\ (forall f, same_space (fam f s) (fam f s')) /\ (force = false -> cc = true -> nic_step pod nic s s')).
Proof.
  intros H Hc Hsh. unfold GetStaticAddress.
  destruct (staticAddressFamilyForIP iter ip cc s) as [[f k]|e] eqn:Ef.
  2:{ split; [done|]. split; [done|]. intros. by apply nic_step_refl. }
  destruct (static_family_ok ip cc s f k H Hc Ef) as (p & Hk & Hip & Hcidr & _).
  apply static_family_of in Ef.
  destruct (releaseCurrent_step f pod nic ip s H) as (s1 & -> & A1). cbn [mbind outcome_bind].
  apply holds_bind. eapply holds_mono; [apply static_mac_view|]. intros [[s2 rnd2] rm] [V _].
  assert (H2 : inv s2) by (eapply same_view_inv; [done|apply A1]).
  assert (N2 : nic_step pod nic s s2) by (eapply nic_step_view; [by eapply alloc_nic_step|done]).
  assert (Hfin : forall s3, inv s3 -> (forall g, same_space (fam g s2) (fam g s3)) ->
    (force = false -> cc = true -> nic_step pod nic s2 s3) ->
    inv (pushPodNic pod nic s3) /\ (forall g, same_space (fam g s) (fam g (pushPodNic pod nic s3))) /\
    (force = false -> cc = true -> nic_step pod nic s (pushPodNic pod nic s3))).
  { intros s3 I S N. split; [by apply inv_push|]. split.
    - intros g. view. destruct (ns_space _ _ _ _ N2 g), (S g). split; congruence.
    - intros Hf Hcc. eapply nic_step_view; [|apply same_view_push]. eapply nic_step_trans; [done|by apply N]. }
  destruct rm as [m|e].
  2:{ apply Hfin; [done|done|]. intros. by apply nic_step_refl. }
  pose proof V as [V1 V2].
  destruct (pool_ips_lookup f s s2 k p) as (p2 & Hk2 & Ep2);
    [rewrite (pool_ips_eq _ s1) by done; apply A1|done|].
  pose proof (ns_space _ _ _ _ N2 f) as Hsp. pose proof (same_hosts _ _ Hsp) as Eh. destruct Hsp as [Ec Er].
  pose proof (allocateStatic_step f k pod nic ip force cc s2 p2 H2 Hc) as Ha.
  rewrite Ec, Ep2, Eh, Er in Ha. specialize (Ha Hcidr Hk2 Hip).
  destruct Ha as (I & S & N & _). { intros Hcc. rewrite Ef. by apply Hsh. }
  unfold finish_static in I, S, N.
  destruct (allocateStaticAddress f k pod nic ip force cc s2) as [s3 [[]|e]]; cbn [fst snd] in I, S, N;
    apply Hfin; done.
Qed.

(** ** Release of a nic *)

(** A released family has no record of the nic, and its address is available
    again unless it is reserved. *)
Definition freed (f : family) (nic : string) (s s' : Subnet) : Prop :=
  fNicToIP (fam f s') !! nic = None /\
  forall ip, fNicToIP (fam f s) !! nic = Some ip ->
    fIPToPod (fam f s') !! IP_String ip = None /\ ~ mem (fUsing (fam f s')) (ipv ip) /\
    (~ mem (fReserved (fam f s)) (ipv ip) -> mem (fAvailable (fam f s')) (ipv ip)).

Lemma release_freed f pod nic s : inv s -> own_inv (fam f s) ->
  exists s1, release_fam iter f pod nic s = Done s1 /\ alloc_step f pod nic s s1 /\ freed f nic s s1.
Proof.
  intros H Ho. destruct (release_step f pod nic s H) as (s1 & E & A). exists s1. split; [done|]. split; [done|].
  destruct (fNicToIP (fam f s) !! nic) as [ip|] eqn:En.
  - destruct (release_fam_own iter iter_ok f pod nic s ip (H f) Ho En) as (s2 & E2 & R & _).
    assert (s2 = s1) as -> by congruence. destruct R as [_ _ _ Rn Rp Ru Ra _ _ _].
    split; [by rewrite Rn, lookup_delete_eq|]. rewrite En. intros ip' [= <-]. split; [by rewrite Rp, lookup_delete_eq|].
    split; [rewrite Ru; tauto|]. intros Hr. apply Ra. by left.
  - pose proof (release_fam_spec iter iter_ok f pod nic s (H f)) as Hr. rewrite En in Hr.
    assert (s1 = s) as -> by congruence. split; [done|]. intros ip. by rewrite En.
Qed.

Lemma freed_ext f nic s1 s2 s3 s4 : fam f s1 = fam f s2 -> fam f s4 = fam f s3 ->
  freed f nic s2 s3 -> freed f nic s1 s4.
Proof. unfold freed. by intros -> ->. Qed.

Lemma releaseAddr_step pod nic s : inv s ->
  exists s', releaseAddr iter pod nic s = Done s' /\ nic_step pod nic s s'.
Proof.
  intros H. destruct (release_nic_step V4 pod nic s H) as (s1 & E1 & N1).
  destruct (release_nic_step V6 pod nic s1 (ns_inv _ _ _ _ N1)) as (s2 & E2 & N2).
  pose proof (nic_step_trans _ _ _ _ _ N1 N2) as N.
  unfold releaseAddr, releaseV4Addr, releaseV6Addr. rewrite E1. cbn. rewrite E2. cbn.
  destruct (fNicToIP (sV4 s2) !! nic), (fNicToIP (sV6 s2) !! nic); eauto.
  destruct (sNicToMac s2 !! nic); eauto. eexists. split; [done|].
  eapply nic_step_view; [done|]. split; intros; by view.
Qed.

(** Without sharing, [releaseAddr] frees both families and the MAC. *)
Lemma releaseAddr_freed pod nic s : inv s -> own s ->
  exists s', releaseAddr iter pod nic s = Done s' /\ nic_step pod nic s s' /\
    (forall f, freed f nic s s') /\ sNicToMac s' !! nic = None.
Proof.
  intros H Ho. destruct (releaseAddr_step pod nic s H) as (s' & E & N). exists s'. split; [done|].
  split; [done|].
  destruct (release_freed V4 pod nic s H (Ho V4)) as (s1 & E1 & A1 & F1).
  pose proof (as_other _ _ _ _ _ A1) as O1. cbn [other] in O1.
  destruct (release_freed V6 pod nic s1 (as_inv _ _ _ _ _ A1)) as (s2 & E2 & A2 & F2); [rewrite O1; apply Ho|].
  pose proof (as_other _ _ _ _ _ A2) as O2. cbn [other] in O2.
  unfold releaseAddr, releaseV4Addr, releaseV6Addr in E. rewrite E1 in E. cbn in E. rewrite E2 in E. cbn in E.
  assert (F4 : fNicToIP (sV4 s2) !! nic = None) by (change (sV4 s2) with (fam V4 s2); rewrite O2; apply F1).
  assert (F6 : fNicToIP (sV6 s2) !! nic = None) by apply F2.
  rewrite F4, F6 in E.
  assert (Hv : same_view s2 s' /\ sNicToMac s' !! nic = None).
  { destruct (sNicToMac s2 !! nic) eqn:Em; injection E as <-.
    - split; [split; intros; by view|]. destruct s2; cbn. by rewrite lookup_delete_eq.
    - done. }
  destruct Hv as [[V1 V2] Hm]. split; [|done]. intros [|].
  - apply (freed_ext _ _ _ s s1); [done|by rewrite V1|done].
  - apply (freed_ext _ _ _ s1 s2); [done|by rewrite V1|done].
Qed.

Lemma ReleaseAddressWithNicName_step pod nic s : inv s ->
  exists s', ReleaseAddressWithNicName iter pod nic s = Done s' /\ nic_step pod nic s s'.
Proof.
  intros H. unfold ReleaseAddressWithNicName. destruct (releaseAddr_step pod nic s H) as (s1 & -> & N).
  cbn. eexists. split; [done|]. eapply nic_step_view; [done|apply same_view_pop].
Qed.

(** Releasing all nics of a pod. *)
Record pod_step (pod : string) (nics : list string) (s s' : Subnet) : Prop := {
  ps_inv : inv s';
  ps_space : forall f, same_space (fam f s) (fam f s');
  ps_frame : forall f nic', nic' ∉ nics -> fNicToIP (fam f s') !! nic' = fNicToIP (fam f s) !! nic';
  ps_own : no_comma pod -> own s -> own s'
}.

Lemma release_nics_step pod nics s : inv s ->
  exists s', release_nics iter pod nics s = Done s' /\ pod_step pod nics s s'.
Proof.
  revert s. induction nics as [|nic nics IH]; intros s H; [exists s; by split|]. cbn [release_nics].
  destruct (releaseAddr_step pod nic s H) as (s1 & -> & N). cbn [mbind outcome_bind].
  pose proof (nic_step_view _ _ _ _ _ N (same_view_pop pod nic s1)) as [N1 N2 N3 N4].
  destruct (IH _ N1) as (s' & E & [P1 P2 P3 P4]). exists s'. split; [done|]. constructor; auto.
  - intros f. destruct (N2 f), (P2 f). split; congruence.
  - intros f nic' Hn. rewrite P3 by set_solver. apply N3. set_solver.
Qed.

(** Without sharing every nic of the list is freed. *)
Lemma release_nics_freed pod nics s : inv s -> own s -> no_comma pod ->
  exists s', release_nics iter pod nics s = Done s' /\ pod_step pod nics s s' /\
    forall nic f, nic ∈ nics -> fNicToIP (fam f s') !! nic = None.
Proof.
  intros H Ho Hp. destruct (release_nics_step pod nics s H) as (s' & E & P). exists s'. split; [done|]. split; [done|].
  clear P. revert s s' H Ho E. induction nics as [|nic nics IH]; intros s s' H Ho E; [intros ? ? Hn; by apply elem_of_nil in Hn|].
  cbn [release_nics] in E. destruct (releaseAddr_freed pod nic s H Ho) as (s1 & E1 & N & F & _).
  rewrite E1 in E. cbn [mbind outcome_bind] in E.
  pose proof (nic_step_view _ _ _ _ _ N (same_view_pop pod nic s1)) as N'.
  intros n f Hin. destruct (decide (n ∈ nics)) as [Hn|Hn].
  - eapply IH; [apply N'|by apply N'|exact E|done].
  - apply elem_of_cons in Hin as [->|]; [|done].
    destruct (release_nics_step pod nics _ (ns_inv _ _ _ _ N')) as (s2 & E2 & [_ _ P3 _]).
    assert (s2 = s') as -> by congruence. rewrite P3 by done. view. apply F.
Qed.

End Allocation.

(** ** MAC addresses of a subnet: the draws [GetRandomMac] makes *)

(** ** Drawing *)

(** A draw the subnet can use: neither excluded nor taken by a pod. *)
Definition usable (ex : list string) (m : gmap string string) (buf : bytes) : Prop :=
  (GenerateMac buf ∉ ex) /\ m !! GenerateMac buf = None.

#[export] Instance usable_dec ex m buf : Decision (usable ex m buf).
Proof. unfold usable. apply _. Defined.

Lemma GenerateMacWithExclusion_app ex pre rnd :
  Forall (fun b => GenerateMac b ∈ ex) pre ->
  GenerateMacWithExclusion ex (pre ++ rnd) = GenerateMacWithExclusion ex rnd.
Proof.
  induction 1 as [|b pre Hb _ IH]; simpl; [done|].
  unfold slice_contains. by rewrite bool_decide_true, IH.
Qed.

Lemma GenerateMacWithExclusion_head ex buf rnd :
  (GenerateMac buf ∉ ex) ->
  GenerateMacWithExclusion ex (buf :: rnd) = Done (GenerateMac buf, rnd).
Proof. intros Hb. simpl. unfold slice_contains. by rewrite bool_decide_false. Qed.

(** The loop returns the first usable draw, whatever comes before it. *)
Lemma random_mac_first ex m pre buf rest fuel :
  Forall (fun b => ~ usable ex m b) pre -> usable ex m buf ->
  (length pre < fuel)%nat ->
  random_mac fuel ex m (pre ++ buf :: rest) = Done (GenerateMac buf, rest).
Proof.
  intros Hpre [Hex Hm]. revert fuel.
  induction pre as [|b pre IH]; intros fuel Hf; destruct fuel as [|fuel]; simpl in Hf; try lia.
  { cbn [random_mac app]. rewrite GenerateMacWithExclusion_head by done. simpl. by rewrite Hm. }
  apply Forall_cons in Hpre as [Hb Hpre].
  destruct (decide (GenerateMac b ∈ ex)) as [Hin|Hin].
  { cbn [random_mac app].
    change (b :: pre ++ buf :: rest) with ([b] ++ (pre ++ buf :: rest)).
    rewrite GenerateMacWithExclusion_app by (by repeat constructor).
    specialize (IH Hpre (S fuel) ltac:(lia)). exact IH. }
  cbn [random_mac app]. rewrite GenerateMacWithExclusion_head by done. simpl.
  destruct (m !! GenerateMac b) eqn:E; [apply IH; [done|lia]|].
  destruct Hb. by split.
Qed.

(** Without a usable draw it waits for more randomness. *)
Lemma random_mac_starved ex m rnd fuel :
  Forall (fun b => ~ usable ex m b) rnd ->
  random_mac fuel ex m rnd = Starved.
Proof.
  intros H. revert fuel. induction H as [|b rnd Hb _ IH]; intros [|fuel]; try done.
  cbn [random_mac]. destruct (decide (GenerateMac b ∈ ex)) as [Hin|Hin].
  { change (b :: rnd) with ([b] ++ rnd).
    rewrite GenerateMacWithExclusion_app by (by repeat constructor). apply (IH (S fuel)). }
  rewrite GenerateMacWithExclusion_head by done. simpl.
  destruct (m !! GenerateMac b) eqn:E; [apply IH|]. destruct Hb. by split.
Qed.

(** ** How many draws a request needs

    A draw is fresh for a subnet when its MAC is neither the gateway's nor a
    pod's.  [draws n s0 rnd o Q] says of a computation [o] started with the
    draws [rnd] that it uses up at most [n] draws fresh for [s0], that it can
    only wait for more randomness when there were fewer than [n], and that
    its result satisfies [Q]. *)

(** The MACs a random draw must avoid. *)
Definition avoided (s : Subnet) : list string :=
  if bool_decide (sGatewayMAC s = "") then [] else [sGatewayMAC s].

Definition fresh_draws (s : Subnet) (rnd : list bytes) : nat :=
  length (filter (usable (avoided s) (sMacToPod s)) rnd).

Definition draws {A} (n : nat) (s0 : Subnet) (rnd : list bytes) (o : outcome (Subnet * list bytes * A))
    (Q : Subnet -> A -> Prop) : Prop :=
  match o with
  | Done (s', rnd', a) => (fresh_draws s0 rnd <= n + fresh_draws s0 rnd')%nat /\ Q s' a
  | Panic => True
  | Starved => (fresh_draws s0 rnd < n)%nat
  end.

Lemma draws_bind {A B} n1 n2 s0 rnd o (k : Subnet * list bytes * A -> outcome (Subnet * list bytes * B)) Q Q' :
  draws n1 s0 rnd o Q ->
  (forall s' rnd' a, Q s' a -> draws n2 s0 rnd' (k (s', rnd', a)) Q') ->
  draws (n1 + n2) s0 rnd (o ≫= k) Q'.
Proof.
  destruct o as [[[s' rnd'] a]| |]; cbn; [intros [Hc Hq] Hk|done|lia].
  specialize (Hk s' rnd' a Hq). unfold draws in *. destruct (k _) as [[[s2 rnd2] b]| |]; [|done|lia].
  split; [lia|tauto].
Qed.

Lemma draws_mono {A} n n' s0 rnd o (Q Q' : Subnet -> A -> Prop) :
  (n <= n')%nat -> draws n s0 rnd o Q -> (forall s' a, Q s' a -> Q' s' a) -> draws n' s0 rnd o Q'.
Proof.
  intros Hn H HQ. unfold draws in *. destruct o as [[[s' rnd'] a]| |]; [|done|lia].
  split; [lia|]. apply HQ, H.
Qed.

Lemma draws_done {A} s0 rnd s (a : A) (Q : Subnet -> A -> Prop) :
  Q s a -> draws 0 s0 rnd (Done (s, rnd, a)) Q.
Proof. intros H. split; [lia|done]. Qed.

(** A list either has no element of a kind or a first one. *)
Lemma first_split {A} (P : A -> Prop) `{forall x, Decision (P x)} l :
  Forall (fun x => ~ P x) l \/ exists pre x rest, l = pre ++ x :: rest /\ Forall (fun x => ~ P x) pre /\ P x.
Proof.
  destruct (list_find P l) as [[i x]|] eqn:E; [right|left].
  - apply list_find_Some in E as (Hl & Hx & Hb). exists (take i l), x, (drop (S i) l).
    split; [by rewrite take_drop_middle|]. split; [|done]. apply Forall_lookup. intros j y Hj.
    apply lookup_take_Some in Hj as [Hj Hi]. by eapply Hb.
  - by apply list_find_None in E.
Qed.

(** ** The MACs of a subnet while a nic is served *)

Definition macs (s : Subnet) : gmap string string * gmap string string * string :=
  (sNicToMac s, sMacToPod s, sGatewayMAC s).

(** Every MAC taken was taken in [s0] or is the one of the nic. *)
Record macs_from (nic : string) (s0 s : Subnet) : Prop := {
  mf_gw : sGatewayMAC s = sGatewayMAC s0;
  mf_taken : forall m, is_Some (sMacToPod s !! m) ->
    is_Some (sMacToPod s0 !! m) \/ sNicToMac s !! nic = Some m
}.

Lemma macs_from_refl nic s : macs_from nic s s.
Proof. split; auto. Qed.

Lemma macs_from_ext nic s0 s s' : macs s' = macs s -> macs_from nic s0 s -> macs_from nic s0 s'.
Proof. intros [= E1 E2 E3] [H1 H2]. split; [congruence|]. by rewrite E1, E2. Qed.

Lemma macs_set_fam f x s : macs (set_fam f x s) = macs s.
Proof. by destruct f, s. Qed.
Lemma macs_set_pools ps s : macs (set_pools ps s) = macs s.
Proof. by destruct s. Qed.
Lemma macs_set_nics pn s : macs (set_nics pn s) = macs s.
Proof. by destruct s. Qed.
Lemma macs_put_pool f k x s : macs (put_pool f k x s) = macs s.
Proof. apply macs_set_pools. Qed.
Lemma NicToMac_macs nm mp s : sNicToMac (set_macs nm mp s) = nm.
Proof. by destruct s. Qed.
Lemma MacToPod_macs nm mp s : sMacToPod (set_macs nm mp s) = mp.
Proof. by destruct s. Qed.
Lemma GatewayMAC_macs nm mp s : sGatewayMAC (set_macs nm mp s) = sGatewayMAC s.
Proof. by destruct s. Qed.
#[local] Hint Rewrite macs_set_fam macs_set_pools macs_set_nics macs_put_pool
  NicToMac_macs MacToPod_macs GatewayMAC_macs : view.

Lemma macs_push pod nic s : macs (pushPodNic pod nic s) = macs s.
Proof. unfold pushPodNic. destruct (_ || _); by view. Qed.
Lemma macs_pop pod nic s : macs (popPodNic pod nic s) = macs s.
Proof. unfold popPodNic. by view. Qed.
Lemma macs_take f k pod nic x free ip s : macs (take_random f k pod nic x free ip s) = macs s.
Proof. unfold take_random, assign. by view. Qed.
Lemma macs_release_pools f ip ch l s : macs (release_pools f ip ch l s) = macs s.
Proof. induction l as [|[k p] l IH]; [done|]. cbn. destruct (snd _); by view. Qed.
Lemma fam_release_pools g f ip ch l s : fam g (release_pools f ip ch l s) = fam g s.
Proof. induction l as [|[k p] l IH]; [done|]. cbn. destruct (snd _); by view. Qed.
Lemma NicToMac_release_pools f ip ch l s : sNicToMac (release_pools f ip ch l s) = sNicToMac s.
Proof. by injection (macs_release_pools f ip ch l s). Qed.
Lemma macs_take_static f k ip s s' : take_static f k ip s = Some s' -> macs s' = macs s.
Proof.
  unfold take_static, set_free. destruct (_ !! _); [|done]. destruct (IPRangeList_Contains _ _); [congruence|].
  repeat destruct (IPRangeList_Remove _ _) as [? []]; intros [= <-]; by view.
Qed.
#[local] Hint Rewrite macs_push macs_pop macs_take macs_release_pools : view.

Lemma macs_allocate_static f k pod nic ip force cc s :
  macs (fst (allocateStaticAddress f k pod nic ip force cc s)) = macs s.
Proof.
  unfold allocateStaticAddress, assign. destruct (take_static _ _ _ _) as [s'|] eqn:E;
    [apply macs_take_static in E|]; destruct (_ !! _); [destruct (negb _), (negb _)| |destruct (negb _), (negb _)|];
    cbn [fst]; view; done.
Qed.
Lemma macs_mark f k ip s : macs (markStaticAddressAllocated f k ip s) = macs s.
Proof. unfold markStaticAddressAllocated. destruct (_ !! _); by view. Qed.

(** A draw fresh for the state the request met is usable whenever the nic
    has no MAC. *)
Lemma fresh_usable nic s0 s b : macs_from nic s0 s -> sNicToMac s !! nic = None ->
  usable (avoided s0) (sMacToPod s0) b -> usable (avoided s) (sMacToPod s) b.
Proof.
  intros [Hg Ht] Hn [Ha Hm]. split; [unfold avoided in *; by rewrite Hg|].
  destruct (sMacToPod s !! GenerateMac b) eqn:E; [|done].
  destruct (Ht (GenerateMac b)) as [[? ?]|?]; [by rewrite E|congruence..].
Qed.

Lemma GetRandomMac_draws s0 s pod nic rnd : macs_from nic s0 s ->
  draws 1 s0 rnd (GetRandomMac s pod nic rnd)
    (fun s' m => macs_from nic s0 s' /\ sNicToMac s' !! nic = Some m /\ forall f, fam f s' = fam f s).
Proof.
  intros H. unfold GetRandomMac. destruct (sNicToMac s !! nic) as [m|] eqn:En; [split; [lia|done]|].
  fold (avoided s). pose proof (fun b => fresh_usable nic s0 s b H En) as Hu.
  destruct (first_split (usable (avoided s) (sMacToPod s)) rnd) as [Hn|(pre & b & rest & -> & Hpre & Hb)].
  - rewrite random_mac_starved by done. cbn. unfold fresh_draws. rewrite filter_none; [cbn; lia|].
    eapply Forall_impl; [exact Hn|]. auto.
  - rewrite (random_mac_first (avoided s)); [|done..|rewrite length_app; simpl; lia]. cbn. split.
    + unfold fresh_draws. rewrite filter_app, (filter_none _ pre) by (eapply Forall_impl; [exact Hpre|]; auto).
      cbn [app]. rewrite filter_cons. destruct (decide _); cbn [length]; lia.
    + destruct H as [Hg Ht]. split; [|split; [view; by rewrite lookup_insert_eq|intros f; by view]].
      split; [by view|]. intros m. view. rewrite lookup_insert_is_Some, lookup_insert_eq.
      intros [->|[_ Hm]]; [by right|]. left. destruct (Ht m Hm); congruence.
Qed.

Lemma macs_from_release_mac f nic s0 s : macs_from nic s0 s -> macs_from nic s0 (release_mac f nic s).
Proof.
  intros H. unfold release_mac. destruct (sNicToMac s !! nic) as [m|] eqn:En; [|done].
  destruct (fNicToIP (fam (other f) s) !! nic); [exact H|]. destruct H as [Hg Ht]. split; [by view|].
  intros m'. view. rewrite lookup_delete_is_Some. intros [Hne Hm]. left. destruct (Ht m' Hm); [done|congruence].
Qed.

(** Releasing one family of a nic that has an address of the other one. *)
Lemma release_fam_macs iter f pod nic s0 s : macs_from nic s0 s ->
  match release_fam iter f pod nic s with
  | Done s' => macs_from nic s0 s' /\ fam (other f) s' = fam (other f) s /\
      (is_Some (fNicToIP (fam (other f) s) !! nic) -> sNicToMac s' !! nic = sNicToMac s !! nic)
  | Panic => True
  | Starved => False
  end.
Proof.
  intros H. unfold release_fam. destruct (fNicToIP _ !! _) as [ip|]; [|done]. destruct (1 <? _)%nat.
  { cbn. split; [eapply macs_from_ext; [|exact H]; by view|]. split; [by view|]. intros _. by view. }
  destruct (fCIDR _) as [c|]; [|done]. cbn. set (s1 := set_fam f _ s).
  assert (H1 : macs_from nic s0 s1) by (eapply macs_from_ext; [|exact H]; subst s1; by view).
  split; [eapply macs_from_ext; [|by apply (macs_from_release_mac f), H1]; by view|]. split.
  - rewrite fam_release_pools. view. subst s1. by view.
  - intros [a Ha]. rewrite NicToMac_release_pools. view. unfold release_mac.
    assert (E : fam (other f) s1 = fam (other f) s) by (subst s1; by view). rewrite E, Ha.
    assert (Em : sNicToMac s1 = sNicToMac s) by (subst s1; by view). rewrite Em. by destruct (sNicToMac s !! nic) eqn:En; rewrite Em, En.
Qed.

(** ** Draws of the allocations *)

Definition is_ok {A} (r : result A) : Prop := match r with Ok _ => True | Err _ => False end.

(** The nic has a MAC, and an address of the family. *)
Definition served (f : family) (nic : string) (s : Subnet) : Prop :=
  is_Some (sNicToMac s !! nic) /\ is_Some (fNicToIP (fam f s) !! nic).

Lemma fam_take f k pod nic x free ip s :
  is_Some (fNicToIP (fam f (take_random f k pod nic x free ip s)) !! nic) /\
  fam (other f) (take_random f k pod nic x free ip s) = fam (other f) s.
Proof. unfold take_random, assign. view. cbn. by rewrite lookup_insert_eq. Qed.

(** The draws a nic needs: none when it has a MAC. *)
Definition needed (nic : string) (s : Subnet) : nat :=
  match sNicToMac s !! nic with Some _ => 0 | None => 1 end.

(** What an allocation of a family leaves. *)
Record allotted (f : family) (nic : string) (s0 s s' : Subnet) (r : result (IP * string)) : Prop := {
  dr_from : macs_from nic s0 s';
  dr_other : fam (other f) s' = fam (other f) s;
  dr_mac : is_Some (sNicToMac s !! nic) -> is_Some (sNicToMac s' !! nic);
  dr_served : is_ok r -> served f nic s'
}.

(** Without a given MAC: one draw, and none when the nic has a MAC. *)
Lemma allocate_random_draws iter f k pod nic sk cc s0 s rnd : macs_from nic s0 s ->
  draws (needed nic s) s0 rnd (allocate_random iter f k pod nic None sk cc s rnd) (allotted f nic s0 s).
Proof.
  intros H. unfold allocate_random. destruct (sIPPools s !! k) as [p|]; [|split; [lia|done]].
  set (s1 := put_pool f k _ s). assert (E1 : macs s1 = macs s) by (subst s1; by view).
  assert (N1 : sNicToMac s1 = sNicToMac s) by by injection E1.
  assert (D1 : forall e, draws (needed nic s) s0 rnd (Done (s1, rnd, Err e)) (allotted f nic s0 s)).
  { intros e. split; [lia|]. split; [by eapply macs_from_ext|subst s1; by view|by rewrite N1|done]. }
  destruct (_ =? 0)%nat; [apply D1|]. destruct (IPRangeList_Allocate _ _) as [free ip].
  destruct (isNil ip); [apply D1|].
  set (s2 := pushPodNic pod nic _). assert (E2 : macs s2 = macs s1) by (subst s2; by view).
  assert (N2 : sNicToMac s2 = sNicToMac s) by (injection E2; congruence).
  assert (H2 : macs_from nic s0 s2) by (eapply macs_from_ext; [|exact H]; congruence).
  assert (F2 : is_Some (fNicToIP (fam f s2) !! nic) /\ fam (other f) s2 = fam (other f) s).
  { subst s2 s1. rewrite !fam_push. destruct (fam_take f k pod nic (refill (pool_fam f p)) free ip
      (put_pool f k (refill (pool_fam f p)) s)) as [? ->]. by view. }
  destruct F2 as [F2 O2]. unfold needed. destruct (sNicToMac s !! nic) as [m|] eqn:Em.
  - unfold GetRandomMac. rewrite N2, Em. cbn. split; [lia|]. split; [done..|by rewrite N2, Em|].
    split; [by rewrite N2, Em|done].
  - eapply (draws_bind 1 0); [by apply GetRandomMac_draws|]. intros s' rnd' m (H' & M' & F'). apply draws_done.
    split; [done|by rewrite F'|by rewrite M'|]. intros _. split; [by rewrite M'|by rewrite F'].
Qed.

(** With a given MAC nothing is allotted. *)
Lemma allocate_given_draws iter f k pod nic m sk cc s0 s rnd :
  draws 0 s0 rnd (allocate_random iter f k pod nic (Some m) sk cc s rnd) (fun _ _ => True).
Proof.
  unfold allocate_random. destruct (sIPPools s !! k) as [p|]; [|by apply draws_done].
  destruct (_ =? 0)%nat; [by apply draws_done|]. destruct (IPRangeList_Allocate _ _) as [free ip].
  destruct (isNil ip); [by apply draws_done|]. destruct (GetStaticMac _ _ _ _ _) as [s3 [e|]]; [|by apply draws_done].
  pose proof (release_fam_macs iter f pod nic s3 s3 (macs_from_refl _ _)) as Hr.
  destruct (release_fam iter f pod nic s3); [|done..]. by apply draws_done.
Qed.

Lemma get_given_draws iter f k pod nic m sk cc s0 s rnd :
  draws 0 s0 rnd (get_random iter f k pod nic (Some m) sk cc s rnd) (fun _ _ => True).
Proof.
  unfold get_random. destruct (_ && _); [|apply allocate_given_draws].
  destruct (negb _); [by apply draws_done|].
  pose proof (release_fam_macs iter f pod nic s s (macs_from_refl _ _)) as Hr.
  destruct (release_fam iter f pod nic s); [|done..]. apply allocate_given_draws.
Qed.

(** The nic keeps an address it may keep. *)
Lemma kept_served f nic s : isNil (NicIP f s nic) = false -> go_get "" (sNicToMac s) nic <> "" -> served f nic s.
Proof. unfold NicIP, go_get, served. intros H1 H2. destruct (_ !! _), (_ !! _); naive_solver. Qed.

Lemma get_random_draws iter f k pod nic sk cc s0 s rnd : macs_from nic s0 s ->
  draws 1 s0 rnd (get_random iter f k pod nic None sk cc s rnd)
    (fun s' r => macs_from nic s0 s' /\ (is_ok r -> served f nic s')).
Proof.
  intros H. assert (Ha : forall s1, macs_from nic s0 s1 ->
    draws 1 s0 rnd (allocate_random iter f k pod nic None sk cc s1 rnd)
      (fun s' r => macs_from nic s0 s' /\ (is_ok r -> served f nic s'))).
  { intros s1 H1. eapply draws_mono; [|by apply allocate_random_draws|by intros s' r []].
    unfold needed. destruct (_ !! _); lia. }
  unfold get_random. destruct (isNil _) eqn:En; [by apply Ha|]. cbn [negb andb].
  destruct (bool_decide_reflect (go_get "" (sNicToMac s) nic = "")) as [Em|Em]; [by apply Ha|]. cbn [negb orb].
  destruct (negb _); [split; [lia|split; [done|]]; intros _; by apply kept_served|].
  pose proof (release_fam_macs iter f pod nic s0 s H) as Hr.
  destruct (release_fam iter f pod nic s); [|done..]. apply Ha, Hr.
Qed.

(** A nic with a MAC and an address of the other family draws nothing. *)
Lemma get_ready_draws iter f k pod nic sk cc s0 s rnd : macs_from nic s0 s -> served (other f) nic s ->
  draws 0 s0 rnd (get_random iter f k pod nic None sk cc s rnd)
    (fun s' r => macs_from nic s0 s' /\ (is_ok r -> served f nic s')).
Proof.
  intros H [Hm Ho].
  assert (Ha : forall s1, macs_from nic s0 s1 -> is_Some (sNicToMac s1 !! nic) ->
    draws 0 s0 rnd (allocate_random iter f k pod nic None sk cc s1 rnd)
      (fun s' r => macs_from nic s0 s' /\ (is_ok r -> served f nic s'))).
  { intros s1 H1 [m M1]. eapply draws_mono; [|by apply allocate_random_draws|by intros s' r []].
    unfold needed. by rewrite M1. }
  unfold get_random. destruct (_ && _) eqn:Eb; [|by apply Ha]. destruct (negb (slice_contains _ _)).
  - split; [lia|]. split; [done|]. intros _. split; [done|]. apply andb_true_iff in Eb as [En _].
    unfold NicIP, go_get in En. destruct (fNicToIP (fam f s) !! nic); [by eexists|done].
  - pose proof (release_fam_macs iter f pod nic s0 s H) as Hr.
    destruct (release_fam iter f pod nic s) as [s1| |]; [|done..]. destruct Hr as (H1 & _ & M1).
    apply Ha; [done|]. by rewrite M1.
Qed.

(** Both cases of the MAC: what a request for a family leaves. *)
Definition got (f : family) (nic : string) (mac : option string) (s0 s' : Subnet) (r : result (IP * string)) : Prop :=
  mac = None -> macs_from nic s0 s' /\ (is_ok r -> served f nic s').

Lemma get_draws iter f k pod nic mac sk cc s0 s rnd : (mac = None -> macs_from nic s0 s) ->
  draws 1 s0 rnd (get_random iter f k pod nic mac sk cc s rnd) (got f nic mac s0).
Proof.
  intros H. destruct mac as [m|].
  - eapply draws_mono; [|apply get_given_draws|]; [lia|done].
  - eapply draws_mono; [|by apply get_random_draws, H|]; [lia|]. by intros s' r H' _.
Qed.

Lemma get_again_draws iter f k pod nic mac sk cc s0 s rnd :
  (mac = None -> macs_from nic s0 s /\ served (other f) nic s) ->
  draws 0 s0 rnd (get_random iter f k pod nic mac sk cc s rnd) (got f nic mac s0).
Proof.
  intros H. destruct mac as [m|].
  - eapply draws_mono; [|apply get_given_draws|]; [lia|done].
  - eapply draws_mono; [|by apply get_ready_draws; apply H|]; [lia|]. by intros s' r H' _.
Qed.

(** A request for both families draws at most once. *)
Lemma getDual_draws iter k pod nic mac sk cc s rnd :
  draws 1 s rnd (getDualRandomAddress iter k pod nic mac sk cc s rnd) (fun _ _ => True).
Proof.
  unfold getDualRandomAddress, getV4RandomAddress, getV6RandomAddress, releaseV4Addr.
  eapply (draws_bind 1 0); [apply get_draws; intros; apply macs_from_refl|].
  intros s1 rnd1 [[ip m]|e] G1; [|by apply draws_done].
  eapply (draws_bind 0 0); [apply get_again_draws; intros E; destruct (G1 E) as [? Hs]; split; [done|by apply Hs]|].
  intros s2 rnd2 [[ip6 m6]|e] G2.
  - destruct (negb _); [|by apply draws_done].
    eapply (draws_bind 0 0); [apply get_again_draws; intros E; destruct (G2 E) as [? Hs]; split; [done|by apply Hs]|].
    intros. by apply draws_done.
  - destruct (_ || _); [|by apply draws_done].
    pose proof (release_fam_macs iter V4 pod nic s2 s2 (macs_from_refl _ _)) as Hr.
    destruct (release_fam iter V4 pod nic s2); [|done..]. by apply draws_done.
Qed.

Lemma GetRandomAddress_draws iter k pod nic mac fam' sk cc s rnd :
  draws 1 s rnd (GetRandomAddressWithFamily iter k pod nic mac fam' sk cc s rnd) (fun _ _ => True).
Proof.
  unfold GetRandomAddressWithFamily. eapply (draws_bind 1 0); [|by intros; apply draws_done].
  instantiate (1 := fun _ _ => True).
  assert (H1 : forall f, draws 1 s rnd
    ('(s1, rnd1, r) ← get_random iter f k pod nic mac sk cc s rnd; Done (s1, rnd1, place f r)) (fun _ _ => True)).
  { intros f. eapply (draws_bind 1 0); [apply get_draws; intros; apply macs_from_refl|]. intros. by apply draws_done. }
  unfold get_random_body. destruct (_ && _); [by split; [lia|]|].
  repeat destruct (bool_decide _); try apply getDual_draws; try apply (H1 V4); try apply (H1 V6).
  all: unfold getMacOnlyAddress; destruct mac as [[|c m]|].
  all: try (destruct (GetStaticMac _ _ _ _ _) as [? [?|]]; by split; [lia|]).
  all: eapply (draws_bind 1 0); [apply GetRandomMac_draws, macs_from_refl|]; intros; by apply draws_done.
Qed.

Lemma static_mac_draws pod nic mac cc s0 s rnd : (mac = None -> macs_from nic s0 s) ->
  draws 1 s0 rnd (static_mac pod nic mac cc s rnd) (fun s' _ => mac = None -> macs_from nic s0 s').
Proof.
  intros H. unfold static_mac. destruct mac as [m|].
  { destruct (GetStaticMac _ _ _ _ _) as [? [?|]]; split; (lia || done). }
  specialize (H eq_refl). destruct (sNicToMac s !! nic); [by split; [lia|]|].
  eapply (draws_bind 1 0); [by apply GetRandomMac_draws|]. intros s' rnd' m (H' & _). by apply draws_done.
Qed.

(** A static request draws at most once per address. *)
Lemma GetStaticAddress_draws iter pod nic ip mac force cc s0 s rnd : (mac = None -> macs_from nic s0 s) ->
  draws 1 s0 rnd (GetStaticAddress iter pod nic ip mac force cc s rnd)
    (fun s' _ => mac = None -> macs_from nic s0 s').
Proof.
  intros H. unfold GetStaticAddress. destruct (staticAddressFamilyForIP _ _ _ _) as [[f k]|e]; [|by split; [lia|]].
  assert (Hk : forall s1, (mac = None -> macs_from nic s0 s1) -> draws 1 s0 rnd
    ('(s2, rnd2, rm) ← static_mac pod nic mac cc s1 rnd;
     match rm with
     | Err e => Done (pushPodNic pod nic s2, rnd2, Err e)
     | Ok macStr =>
         let '(s3, ra) := allocateStaticAddress f k pod nic ip force cc s2 in
         match ra with
         | Err e => Done (pushPodNic pod nic s3, rnd2, Err e)
         | Ok allocated =>
             let s4 := if allocated then markStaticAddressAllocated f k ip s3 else s3 in
             Done (pushPodNic pod nic s4, rnd2, Ok (ip, macStr))
         end
     end) (fun s' _ => mac = None -> macs_from nic s0 s')).
  { intros s1 H1. eapply (draws_bind 1 0); [by apply static_mac_draws|]. intros s2 rnd2 rm H2.
    assert (Hp : forall s3, macs s3 = macs s2 -> mac = None -> macs_from nic s0 (pushPodNic pod nic s3)).
    { intros s3 E3 E. eapply macs_from_ext; [|by apply H2]. by view. }
    destruct rm as [m|e]; [|by apply draws_done, Hp].
    pose proof (macs_allocate_static f k pod nic ip force cc s2) as E3.
    destruct (allocateStaticAddress _ _ _ _ _ _ _ _) as [s3 [[]|e]]; apply draws_done, Hp; try done.
    by rewrite macs_mark. }
  unfold releaseCurrentStaticAddress. destruct (_ && _); [|by apply Hk].
  pose proof (release_fam_macs iter f pod nic) as Hr.
  destruct (release_fam iter f pod nic s) as [s1| |] eqn:Er; [|done|].
  - apply Hk. intros E. specialize (Hr s0 s (H E)). rewrite Er in Hr. apply Hr.
  - specialize (Hr s s (macs_from_refl _ _)). by rewrite Er in Hr.
Qed.

(** Releases draw nothing. *)
Lemma release_nic_draws iter pod nic s : ReleaseAddressWithNicName iter pod nic s <> Starved.
Proof.
  unfold ReleaseAddressWithNicName, releaseAddr, releaseV4Addr, releaseV6Addr.
  pose proof (release_fam_macs iter V4 pod nic s s (macs_from_refl _ _)) as H4.
  destruct (release_fam iter V4 pod nic s) as [s1| |]; [|done..]. cbn [mbind outcome_bind].
  pose proof (release_fam_macs iter V6 pod nic s1 s1 (macs_from_refl _ _)) as H6.
  destruct (release_fam iter V6 pod nic s1) as [s2| |]; [|done..]. cbn [mbind outcome_bind].
  by repeat destruct (_ !! _).
Qed.

(** ** The bits of a generated address *)

(** The first octet after [|0x02 & 0xfe]: unicast and locally administered. *)
Lemma local_octet b :
  Z.testbit (Z.land (Z.lor b 2) 254) 0 = false /\ Z.testbit (Z.land (Z.lor b 2) 254) 1 = true.
Proof. split; rewrite Z.land_spec, Z.lor_spec; simpl; [apply andb_false_r|by rewrite orb_true_r]. Qed.
