(* ===== verification/SubnetPools.v ===== *)
(** * Pools and new subnets keep the invariant *)
From S2P Require Import Prelude.
From S2P Require Import GoStrings.
From S2P Require Import GoNet.
From S2P Require Import Ip.
From S2P Require Import IpRange.
From S2P Require Import IpRangeList.
From S2P Require Import IpRangeListFacts.
From S2P Require Import UtilNet.
From S2P Require Import Hosts.
From S2P Require Import Subnet.
From S2P Require Import SubnetInv.

Local Open Scope Z_scope.

(** ** Adding a pool *)

(** The lists of a pool with the addresses [ips] of the subnet [x]. *)
Record pool_of (x : FamState) (ips : IPRangeList) (p : PoolFam) : Prop := {
  po_wf : pool_wf p;
  po_ips : pIPs p = ips;
  po_free : forall v, mem (pFree p) v <->
    mem (hosts_of x) v /\ mem ips v /\ ~ mem (fUsing x) v /\ ~ mem (fReserved x) v;
  po_avail : pAvailable p = pFree p;
  po_res : forall v, mem (pReserved p) v <-> mem (fReserved x) v /\ mem ips v;
  po_rel : pReleased p = [];
  po_using : forall v, mem (pUsing p) v <-> mem (fUsing x) v /\ mem ips v
}.

Lemma pool_of_inv x ps ips p : lists_inv x ps -> pool_of x ips p -> pool_inv x p.
Proof.
  intros H [W Ei F A R L U]. constructor; try done; intros v; rewrite ?A, ?Ei, ?L, ?F, ?U, ?R; cbn [mem]; try tauto.
  rewrite (li_avail _ _ H). tauto.
Qed.

Lemma merge_opt (o : option PoolFam) (sel : PoolFam -> IPRangeList) d :
  wf (sel d) -> (forall p, o = Some p -> wf (sel p)) ->
  let l := match o with Some p => IPRangeList_Merge (sel d) (sel p) | None => sel d end in
  wf l /\ forall v, mem l v <-> mem (sel d) v \/ exists p, o = Some p /\ mem (sel p) v.
Proof.
  intros Hd Ho. destruct o as [p|].
  - destruct (IPRangeList_Merge_ok (sel d) (sel p) Hd (Ho p eq_refl)) as [W M]. split; [done|].
    intros v. rewrite M. split; [intros [?|?]; [by left|right; by exists p]|].
    intros [?|(q & [= <-] & ?)]; auto.
  - split; [done|]. intros v. split; [by left|]. intros [?|(q & ? & _)]; done.
Qed.

(** The default pool without the addresses of the new pool. *)
Lemma shrink_default_spec x ps name ips new d :
  lists_inv x ps -> ps !! "" = Some d -> wf ips -> pool_of x ips new ->
  let d' := shrink_default (fReserved x) (ps !! name) new d in
  pool_inv x d' /\
  forall v, mem (pIPs d') v <->
    (mem (pIPs d) v \/ exists p, ps !! name = Some p /\ mem (pIPs p) v) /\ ~ mem ips v.
Proof.
  intros H Hd Wi Hn d'. pose proof Hn as [[N1 N2 N3 N4 N5 N6] Ei F A R L U].
  pose proof (li_pool _ _ H _ _ Hd) as Pd.
  assert (Po : forall p, ps !! name = Some p -> pool_inv x p) by (intros p; apply (li_pool _ _ H)).
  destruct (merge_opt (ps !! name) pIPs d) as [W1 M1]; [apply Pd|intros p Hp; apply (Po p Hp)|].
  destruct (merge_opt (ps !! name) pAvailable d) as [W2 M2]; [apply Pd|intros p Hp; apply (Po p Hp)|].
  destruct (merge_opt (ps !! name) pReserved d) as [W3 M3]; [apply Pd|intros p Hp; apply (Po p Hp)|].
  destruct (merge_opt (ps !! name) pUsing d) as [W4 M4]; [apply Pd|intros p Hp; apply (Po p Hp)|].
  destruct (IPRangeList_Separate_ok _ _ W1 N1) as [V1 S1].
  destruct (IPRangeList_Separate_ok _ _ W2 N2) as [V2 S2].
  destruct (IPRangeList_Separate_ok _ _ V2 (li_wf_res _ _ H)) as [V2' S2'].
  destruct (IPRangeList_Separate_ok _ _ W3 N4) as [V3 S3].
  destruct (IPRangeList_Separate_ok _ _ W4 N6) as [V4 S4].
  assert (E : d' = mkPoolFam
    (IPRangeList_Separate (match ps !! name with Some p => IPRangeList_Merge (pIPs d) (pIPs p) | None => pIPs d end) (pIPs new))
    (IPRangeList_Separate (IPRangeList_Separate (match ps !! name with Some p => IPRangeList_Merge (pAvailable d) (pAvailable p) | None => pAvailable d end) (pFree new)) (fReserved x))
    (IPRangeList_Separate (IPRangeList_Separate (match ps !! name with Some p => IPRangeList_Merge (pAvailable d) (pAvailable p) | None => pAvailable d end) (pFree new)) (fReserved x))
    (IPRangeList_Separate (match ps !! name with Some p => IPRangeList_Merge (pReserved d) (pReserved p) | None => pReserved d end) (pReserved new))
    []
    (IPRangeList_Separate (match ps !! name with Some p => IPRangeList_Merge (pUsing d) (pUsing p) | None => pUsing d end) (pUsing new))).
  { subst d'. unfold shrink_default. by rewrite IPRangeList_Clone_id. }
  rewrite E. clear E d'. split.
  - assert (Ma : forall v, mem (fAvailable x) v -> ~ mem (fReserved x) v) by (intros v; rewrite (li_avail _ _ H); tauto).
    constructor; [by constructor|..]; cbn [pIPs pFree pAvailable pReserved pReleased pUsing mem]; intros v.
    + rewrite S2', S2, M2, S1, M1, Ei, F. specialize (Ma v).
      setoid_rewrite (pi_avail _ _ Pd v). split.
      * intros [[[[Ha Hi]|(p & Hp & Ha)] Hf] Hr].
        { split; [done|]. split; [by left|]. apply (li_avail _ _ H) in Ha. tauto. }
        { apply (pi_avail _ _ (Po p Hp)) in Ha as [Ha Hi]. split; [done|]. split; [right; by exists p|].
          apply (li_avail _ _ H) in Ha. tauto. }
      * intros [Ha [Hi Hni]]. split; [|by apply Ma]. split; [|tauto].
        destruct Hi as [Hi|(p & Hp & Hi)]; [by left|]. right. exists p. split; [done|].
        by apply (pi_avail _ _ (Po p Hp)).
    + tauto.
    + done.
    + rewrite S4, M4, S1, M1, Ei, U. setoid_rewrite (pi_using _ _ Pd v). split.
      * intros [[[Ha Hi]|(p & Hp & Ha)] Hf]; [tauto|].
        apply (pi_using _ _ (Po p Hp)) in Ha as [Ha Hi]. split; [done|]. split; [right; by exists p|]. tauto.
      * intros [Ha [[Hi|(p & Hp & Hi)] Hni]]; (split; [|tauto]); [by left|]. right. exists p. split; [done|].
        by apply (pi_using _ _ (Po p Hp)).
    + rewrite S3, M3. intros [[Ha|(p & Hp & Ha)] _]; [by apply (pi_res_sub _ _ Pd)|by apply (pi_res_sub _ _ (Po p Hp))].
    + rewrite S3, M3, S1, M1, Ei, R. intros Hr [[Hi|(p & Hp & Hi)] Hni]; (split; [|tauto]).
      * left. by apply (pi_res _ _ Pd).
      * right. exists p. split; [done|]. by apply (pi_res _ _ (Po p Hp)).
    + done.
  - cbn [pIPs]. intros v. rewrite S1, M1, Ei. done.
Qed.

(** The pools after [AddOrUpdateIPPool]. *)
Lemma lists_add_pool x ps name ips new d :
  lists_inv x ps -> name <> "" -> ps !! "" = Some d -> wf ips -> pool_of x ips new ->
  (forall k p v, ps !! k = Some p -> k <> "" -> k <> name -> mem (pIPs p) v -> ~ mem ips v) ->
  lists_inv x (<[name := new]> (<["" := shrink_default (fReserved x) (ps !! name) new d]> ps)).
Proof.
  intros H Hne Hd Wi Hn Hdis.
  destruct (shrink_default_spec x ps name ips new d H Hd Wi Hn) as [Pd Md].
  set (d' := shrink_default _ _ _ _) in *. clearbody d'.
  pose proof (po_ips _ _ _ Hn) as Ei.
  assert (Hlk : forall k q, <[name:=new]> (<["":=d']> ps) !! k = Some q ->
    k = name /\ q = new \/ k = "" /\ q = d' \/ k <> name /\ k <> "" /\ ps !! k = Some q).
  { intros k q. intros [[<- <-]|[? Hk]]%lookup_insert_Some; [by left|].
    apply lookup_insert_Some in Hk as [[<- <-]|[? Hk]]; auto. }
  destruct H as [H1 H2 H3 H4 H5 H6 H7 H8 H9 H10 H11 H12] eqn:EH. clear EH. pose proof H as Hinv.
  constructor; try done.
  - intros k q Hk. destruct (Hlk _ _ Hk) as [[_ ->]|[[_ ->]|(_ & _ & Hk')]]; [|done|by eapply H9].
    by eapply pool_of_inv.
  - intros k1 k2 p1 p2 v L1 L2 M1 M2.
    destruct (Hlk _ _ L1) as [[-> ->]|[[-> ->]|(D1 & D1' & L1')]], (Hlk _ _ L2) as [[-> ->]|[[-> ->]|(D2 & D2' & L2')]];
      try done; rewrite ?Ei in *; rewrite ?Md in *.
    + tauto.
    + by destruct (Hdis _ _ _ L2' D2' D2 M2).
    + tauto.
    + destruct M1 as [[M1|(p & Hp & M1)] _]; [by destruct (H10 _ _ _ _ v Hd L2' M1 M2)|].
      by destruct (H10 _ _ _ _ v Hp L2' M1 M2).
    + by destruct (Hdis _ _ _ L1' D1' D1 M1).
    + destruct M2 as [[M2|(p & Hp & M2)] _]; [by destruct (H10 _ _ _ _ v Hd L1' M2 M1)|].
      by destruct (H10 _ _ _ _ v Hp L1' M2 M1).
    + by eapply H10.
  - rewrite lookup_insert_ne, lookup_insert_eq by done. done.
  - intros v Hv. destruct (H12 v Hv) as (k & p & Hk & Hm).
    destruct (decide (mem ips v)) as [Hi|Hi]; [exists name, new; by rewrite lookup_insert_eq, Ei|].
    destruct (decide (k = name)) as [->|Hk1]; [|destruct (decide (k = "")) as [->|Hk2]].
    + exists "", d'. rewrite lookup_insert_ne, lookup_insert_eq by done. split; [done|]. apply Md. split; [|done].
      right. by exists p.
    + exists "", d'. rewrite lookup_insert_ne, lookup_insert_eq by done. split; [done|]. apply Md. split; [|done].
      left. congruence.
    + exists k, p. by rewrite !lookup_insert_ne.
Qed.

(** ** Removing a pool *)

Lemma lists_remove_pool x ps name d p :
  lists_inv x ps -> name <> "" -> ps !! "" = Some d -> ps !! name = Some p ->
  lists_inv x (delete name (<["" := grow_default d p]> ps)).
Proof.
  intros H Hne Hd Hp. destruct (li_pool _ _ H _ _ Hd) as [[A1 A2 A3 A4 A5 A6] D1 D2 D3 D4 D5 D6 D7].
  destruct (li_pool _ _ H _ _ Hp) as [[B1 B2 B3 B4 B5 B6] P1 P2 P3 P4 P5 P6 P7].
  destruct (IPRangeList_Merge_ok _ _ A1 B1) as [V1 M1]. destruct (IPRangeList_Merge_ok _ _ A2 B2) as [V2 M2].
  destruct (IPRangeList_Merge_ok _ _ A3 B3) as [V3 M3]. destruct (IPRangeList_Merge_ok _ _ A4 B4) as [V4 M4].
  destruct (IPRangeList_Merge_ok _ _ A5 B5) as [V5 M5]. destruct (IPRangeList_Merge_ok _ _ A6 B6) as [V6 M6].
  pose proof (fun v => li_disj _ _ H "" name d p v Hd Hp) as Hdis.
  assert (Hlk : forall k q, delete name (<["":=grow_default d p]> ps) !! k = Some q ->
    k <> name /\ (k = "" /\ q = grow_default d p \/ k <> "" /\ ps !! k = Some q)).
  { intros k q [? Hk]%lookup_delete_Some. apply lookup_insert_Some in Hk as [[<- <-]|[? Hk]]; auto. }
  pose proof H as [H1 H2 H3 H4 H5 H6 H7 H8 H9 H10 H11 H12].
  constructor; try done.
  - intros k q Hk. destruct (Hlk _ _ Hk) as [_ [[_ ->]|(_ & Hk')]]; [|by eapply H9].
    constructor; [by constructor|..]; cbn [pIPs pFree pAvailable pReserved pReleased pUsing grow_default]; intros v.
    + rewrite M3, M1, D1, P1. tauto.
    + rewrite M3, M2, M5, D2, P2. tauto.
    + rewrite M2, M5. intros [F|F] [R|R]; [by eapply D3| | |by eapply P3].
      * assert (mem (pAvailable d) v) as [_ I1]%D1 by (apply D2; by left).
        assert (mem (pAvailable p) v) as [_ I2]%P1 by (apply P2; by right). by destruct (Hdis v I1 I2).
      * assert (mem (pAvailable d) v) as [_ I1]%D1 by (apply D2; by right).
        assert (mem (pAvailable p) v) as [_ I2]%P1 by (apply P2; by left). by destruct (Hdis v I1 I2).
    + rewrite M6, M1, D4, P4. tauto.
    + rewrite M4. intros [?|?]; auto.
    + rewrite M4, M1. intros ? [?|?]; auto.
    + rewrite M5. intros [?|?]; auto.
  - intros k1 k2 q1 q2 v L1 L2 I1 I2.
    destruct (Hlk _ _ L1) as [N1 [[-> ->]|(E1 & L1')]], (Hlk _ _ L2) as [N2 [[-> ->]|(E2 & L2')]]; try done.
    + cbn [pIPs grow_default] in I1. rewrite M1 in I1. destruct I1 as [I1|I1]; [by eapply H10|].
      by destruct N2; eapply H10.
    + cbn [pIPs grow_default] in I2. rewrite M1 in I2. destruct I2 as [I2|I2]; [by eapply H10|].
      by destruct N1; eapply H10.
    + by eapply H10.
  - rewrite lookup_delete_ne, lookup_insert_eq by done. done.
  - intros v Hv. destruct (H12 v Hv) as (k & q & Hk & Hm).
    destruct (decide (k = name)) as [->|Hk1]; [|destruct (decide (k = "")) as [->|Hk2]].
    + exists "", (grow_default d p). rewrite lookup_delete_ne, lookup_insert_eq by done. split; [done|].
      cbn [pIPs grow_default]. apply M1. right. congruence.
    + exists "", (grow_default d p). rewrite lookup_delete_ne, lookup_insert_eq by done. split; [done|].
      cbn [pIPs grow_default]. apply M1. left. congruence.
    + exists k, q. by rewrite lookup_delete_ne, lookup_insert_ne.
Qed.

(** ** The operations *)

Section Pools.

Context (iter : gmap string IPPool -> list (string * IPPool)).
Hypothesis iter_ok : forall m, iter m ≡ₚ map_to_list m.

Lemma pool_conflict_None f name ips order :
  wf ips -> (forall k p, (k, p) ∈ order -> wf (pIPs (pool_fam f p))) ->
  pool_conflict f name ips order = None ->
  forall k p v, (k, p) ∈ order -> k <> "" -> k <> name -> mem (pIPs (pool_fam f p)) v -> ~ mem ips v.
Proof.
  intros Hi. induction order as [|[j q] order IH]; intros Hw Hn k p v Hin; [by apply elem_of_nil in Hin|].
  cbn [pool_conflict] in Hn.
  assert (Hw' : forall k p, (k, p) ∈ order -> wf (pIPs (pool_fam f p))) by (intros k' p' ?; eapply Hw; by right).
  destruct (bool_decide_reflect (j = "")) as [Ej|Ej]; [|destruct (bool_decide_reflect (j = name)) as [En|En]];
    cbn [orb] in Hn.
  - apply elem_of_cons in Hin as [[= -> ->]|Hin]; [done|by eapply IH].
  - apply elem_of_cons in Hin as [[= -> ->]|Hin]; [done|by eapply IH].
  - unfold IPRangeList_Len in Hn.
    destruct (IPRangeList_Intersect_ok ips (pIPs (pool_fam f q)) Hi) as [W M]; [eapply Hw; left|].
    destruct (IPRangeList_Intersect ips (pIPs (pool_fam f q))) as [|r l]; [|done]. cbn [length Nat.eqb negb] in Hn.
    apply elem_of_cons in Hin as [[= -> ->]|Hin]; [|by eapply IH]. intros _ _ Hm Hx. by apply (M v).
Qed.

Lemma new_pool_fam_ok f name ips s :
  inv s -> Forall clean_entry ips ->
  match new_pool_fam iter f name ips s with
  | Done (Ok p) => exists l, wf l /\ pool_of (fam f s) l p /\
      (fCIDR (fam f s) <> None -> NewIPRangeListFrom ips = Ok l) /\
      forall k q v, pools f s !! k = Some q -> k <> "" -> k <> name -> mem (pIPs q) v -> ~ mem l v
  | Done (Err _) => True
  | _ => False
  end.
Proof.
  intros H Hc. destruct (H f) as [Hl Hn]. unfold new_pool_fam.
  destruct (fCIDR (fam f s)) as [cidr|] eqn:Ec.
  2:{ exists []. split; [apply wf_nil|]. split; [|split; [done|by intros ? ? ? _ _ _ _ []]].
      assert (Eh : hosts_of (fam f s) = []) by (unfold hosts_of; by rewrite Ec).
      constructor; try done; rewrite ?Eh; cbn; tauto. }
  destruct (NewIPRangeListFrom ips) as [l|e] eqn:El; [|done].
  destruct (NewIPRangeListFrom_ok ips l Hc El) as [Wl _].
  destruct (pool_conflict f name l (iter (sIPPools s))) eqn:Epc; [done|].
  pose proof (li_cidr _ _ Hl) as Hcl. unfold cidr_ok in Hcl. rewrite Ec in Hcl.
  rewrite (host_list_clean _ _ _ (ParseCIDR_IPNet_String _ Hcl) Hcl). cbn [mbind outcome_bind].
  destruct (IPRangeList_Intersect_ok _ _ (li_wf_res _ _ Hl) Wl) as [W1 M1].
  destruct (IPRangeList_Intersect_ok _ _ (li_wf_using _ _ Hl) Wl) as [W2 M2].
  destruct (IPRangeList_Intersect_ok _ _ (hosts_wf _ Hcl) Wl) as [W3 M3].
  destruct (IPRangeList_Separate_ok _ _ W3 W2) as [W4 M4].
  destruct (IPRangeList_Separate_ok _ _ W4 W1) as [W5 M5].
  exists l. split; [done|]. split; [|split; [done|]].
  - constructor; cbn [pIPs pFree pAvailable pReserved pReleased pUsing]; try done.
    + constructor; cbn [pIPs pFree pAvailable pReserved pReleased pUsing]; rewrite ?IPRangeList_Clone_id; done.
    + intros v. rewrite M5, M4, M3, M2, M1. unfold hosts_of. rewrite Ec. tauto.
    + apply IPRangeList_Clone_id.
  - intros k q v Hk H1 H2. apply pools_lookup_inv in Hk as (p & Hp & ->).
    eapply (pool_conflict_None f name l (iter (sIPPools s))); eauto.
    + intros j r Hj%(elem_of_iter iter iter_ok). eapply (pi_wf (fam f s)), (li_pool _ _ Hl). by apply pools_lookup.
    + by apply (elem_of_iter iter iter_ok).
Qed.

Lemma fam_set_pools f ps s : fam f (set_pools ps s) = fam f s.
Proof. by destruct f, s. Qed.

Lemma pools_set_pools f ps s : pools f (set_pools ps s) = pool_fam f <$> ps.
Proof. by destruct s. Qed.

Lemma default_pool s : inv s -> exists d, sIPPools s !! "" = Some d.
Proof.
  intros H. destruct (li_default _ _ (proj1 (H V4))) as [x Hx].
  apply pools_lookup_inv in Hx as (d & Hd & _). eauto.
Qed.

(** Entries that belong to one family stay clean. *)
Lemma SplitIps_clean (P : string -> Prop) l : Forall P l ->
  Forall P (fst (SplitIpsByProtocol l)) /\ Forall P (snd (SplitIpsByProtocol l)).
Proof.
  unfold SplitIpsByProtocol. assert (Hg : forall a b, Forall P a -> Forall P b -> Forall P l ->
    let r := foldl (fun '(v4, v6) ex => if is_v4_entry ex then (v4 ++ [ex], v6) else (v4, v6 ++ [ex])) (a, b) l in
    Forall P (fst r) /\ Forall P (snd r)).
  { induction l as [|e l IH]; intros a b Ha Hb Hl; [done|]. inversion Hl; subst. cbn [foldl].
    destruct (is_v4_entry e); apply IH; auto; apply Forall_app; auto. }
  intros H. by apply Hg.
Qed.

(** [AddOrUpdateIPPool] does not panic, changes only the pools, and keeps the
    invariant. *)
Lemma AddOrUpdateIPPool_inv name ips s :
  inv s -> name <> "" -> Forall clean_entry ips ->
  exists s' e, AddOrUpdateIPPool iter name ips s = Done (s', e) /\ inv s' /\
    (forall f, fam f s' = fam f s) /\ (e <> None -> s' = s).
Proof.
  intros H Hne Hc. unfold AddOrUpdateIPPool.
  destruct (SplitIps_clean _ _ Hc) as [C4 C6]. destruct (SplitIpsByProtocol ips) as [v4 v6]. cbn [fst snd] in *.
  pose proof (new_pool_fam_ok V4 name v4 s H C4) as N4. pose proof (new_pool_fam_ok V6 name v6 s H C6) as N6.
  destruct (new_pool_fam iter V4 name v4 s) as [[p4|e4]| |]; [|by exists s, (Some e4)|done|done].
  cbn [mbind outcome_bind]. destruct (new_pool_fam iter V6 name v6 s) as [[p6|e6]| |]; [|by exists s, (Some e6)|done|done].
  destruct (default_pool s H) as [d Hd]. cbn [mbind outcome_bind]. rewrite Hd. cbn [of_option mbind outcome_bind].
  eexists _, None. split; [done|].
  split; [|split; [intros f; by rewrite fam_set_pools|done]].
  destruct N4 as (l4 & W4 & P4 & _ & D4), N6 as (l6 & W6 & P6 & _ & D6). intros f. rewrite fam_set_pools, pools_set_pools.
  rewrite !fmap_insert. split; [|apply H].
  assert (Hopt : forall g, pool_fam g <$> sIPPools s !! name = pools g s !! name) by (intros g; unfold pools; by rewrite lookup_fmap).
  destruct f; cbn [pool_fam fam].
  - change (pool4 <$> sIPPools s !! name) with (pool_fam V4 <$> sIPPools s !! name). rewrite Hopt.
    apply (lists_add_pool _ _ name l4); try done; [apply (H V4)|by apply (pools_lookup V4)].
  - change (pool6 <$> sIPPools s !! name) with (pool_fam V6 <$> sIPPools s !! name). rewrite Hopt.
    apply (lists_add_pool _ _ name l6); try done; [apply (H V6)|by apply (pools_lookup V6)].
Qed.

Lemma RemoveIPPool_inv name s : inv s -> name <> "" ->
  exists s', RemoveIPPool name s = Done s' /\ inv s' /\ (forall f, fam f s' = fam f s).
Proof.
  intros H Hne. unfold RemoveIPPool. destruct (sIPPools s !! name) as [p|] eqn:Hp; [|by exists s].
  destruct (default_pool s H) as [d Hd]. rewrite Hd. cbn [of_option mbind outcome_bind].
  eexists. split; [done|]. split; [|intros f; by rewrite fam_set_pools].
  intros f. rewrite fam_set_pools, pools_set_pools, fmap_delete, fmap_insert. split; [|apply H].
  pose proof (pools_lookup f s _ _ Hp) as Hp'. pose proof (pools_lookup f s _ _ Hd) as Hd'.
  destruct f; by apply lists_remove_pool; [apply H| | |].
Qed.

End Pools.
