(* ===== verification/SubnetNew.v ===== *)
(** * New subnets satisfy the invariant *)
From Stdlib Require Import Ascii.
From S2P Require Import Prelude.
From S2P Require Import GoStrings.
From S2P Require Import GoNet.
From S2P Require Import GoNetText.
From S2P Require Import Ip.
From S2P Require Import IpRange.
From S2P Require Import IpRangeList.
From S2P Require Import IpRangeListFacts.
From S2P Require Import CidrFacts.
From S2P Require Import UtilNet.
From S2P Require Import Hosts.
From S2P Require Import Subnet.
From S2P Require Import SubnetInv.
From S2P Require Import SubnetPools.

Local Open Scope Z_scope.

Lemma new_fam_inv cidr ips reserved :
  (match cidr with Some n => clean_net n /\ ips = hosts n | None => ips = [] end) -> wf reserved ->
  let '(x, p) := new_fam cidr ips reserved in
  fam_inv x {[ "" := p ]} /\ own_inv x /\ fCIDR x = cidr /\ fReserved x = reserved /\
  (forall v, mem (fAvailable x) v <-> mem ips v /\ ~ mem reserved v).
Proof.
  intros Hc Hr. unfold new_fam. rewrite !IPRangeList_Clone_id.
  assert (Wi : wf ips) by (destruct cidr as [n|]; [destruct Hc as [? ->]; by apply hosts_wf|by subst]).
  destruct (IPRangeList_Separate_ok ips reserved Wi Hr) as [W M].
  set (x := mkFam _ _ _ _ _ _ _ _). set (p := mkPoolFam _ _ _ _ _ _).
  assert (Eh : hosts_of x = ips) by (unfold hosts_of, x; cbn; destruct cidr as [n|]; [by destruct Hc|done]).
  split; [|split; [by constructor|split; [done|split; [done|exact M]]]].
  split; [|done].
  assert (Hlk : forall k q, ({[ "" := p ]} : gmap string PoolFam) !! k = Some q -> k = "" /\ q = p).
  { intros k q Hk. by apply lookup_singleton_Some in Hk as [<- <-]. }
  constructor; rewrite ?Eh; try done; cbn [x p fFree fReserved fAvailable fUsing mem].
  - unfold cidr_ok, x. cbn. destruct cidr; [apply Hc|done].
  - intros v. rewrite M. tauto.
  - intros k q Hk. destruct (Hlk _ _ Hk) as [_ ->]. constructor; try done; cbn; try tauto.
    intros v. rewrite M. tauto.
  - intros k1 k2 p1 p2 v H1 H2 _ _. destruct (Hlk _ _ H1) as [-> _], (Hlk _ _ H2) as [-> _]. done.
  - intros v [Hv|[]]. exists "", p. by rewrite lookup_singleton_eq.
Qed.

(** A CIDR text the allocator accepts: one clean block, or two. *)
Definition clean_blocks (cidrStr : string) : Prop :=
  match Split cidrStr "," with
  | [a] => clean_cidr cidrStr
  | [a; b] => clean_cidr a /\ clean_cidr b
  | _ => False
  end.

#[global] Instance clean_blocks_dec s : Decision (clean_blocks s).
Proof. unfold clean_blocks. destruct (Split s ",") as [|a [|b [|]]]; apply _. Defined.

Lemma Split_single s a : Split s "," = [a] -> a = s.
Proof. intros H. pose proof (Join_Split ","%char s) as J. change (sep1 ","%char) with "," in J. by rewrite H in J. Qed.

Lemma first_piece_Cut c s : first_piece s (sep1 c) = fst (fst (Cut c s)).
Proof.
  unfold first_piece. induction s as [|x s IH]; [done|]. cbn [Cut].
  destruct (decide (x = c)) as [->|Hne].
  - rewrite Split_cons_sep, bool_decide_true by done. done.
  - rewrite Split_cons_other, bool_decide_false by done. destruct (Cut c s) as [[a b] found]. cbn [fst] in *.
    destruct (Split s (sep1 c)) as [|h t] eqn:E; cbn in *; [|by subst].
    by destruct (split_skip_nonempty (sep1 c) 0 s).
Qed.

(** A text that parses as one CIDR has one of the two protocols. *)
Lemma CheckProtocol_cidr s ip n : Split s "," = [s] -> ParseCIDR s = Some (ip, n) ->
  CheckProtocol s = if isNil (To4 ip) then ProtocolIPv6 else ProtocolIPv4.
Proof.
  intros Hs Hp. unfold CheckProtocol. rewrite Hs.
  assert (bool_decide (s = "") = false) as -> by (apply bool_decide_false; by intros ->).
  change "/" with (sep1 "/"%char). rewrite first_piece_Cut. unfold ParseCIDR in Hp.
  destruct (Cut "/"%char s) as [[addr mask] found]. cbn [fst]. destruct (negb found); [done|].
  unfold ParseIP. destruct (parse_addr addr) as [b|] eqn:Ea; [|done].
  apply parse_addr_valid in Ea as [Hv _]. destruct (To16_valid b Hv) as [B16 L16].
  destruct (dtoi mask) as [[ones [|]]|]; try done. destruct (_ <? _); [done|]. injection Hp as <- _.
  destruct (isNil (To16 b)) eqn:En; [by destruct (To16 b)|].
  destruct (isNil (To4 (To16 b))); cbn [negb]; [|done].
  rewrite (To16_16 (To16 b)) by done. by rewrite En.
Qed.

(** ** Excluded addresses *)

Lemma dots_ok_no_contains a : dots_ok false a = true -> str_contains a ".." = false.
Proof.
  induction a as [|c a IH]; intros H; [done|]. cbn [str_contains dots_ok] in *.
  assert (Hp : has_prefix ".." (String c a) = false).
  { destruct a as [|d a]; [apply has_prefix_dots_1|]. rewrite has_prefix_dots.
    destruct (code c =? 46); [|done]. cbn [dots_ok] in H. by destruct (code d =? 46). }
  rewrite Hp. cbn [orb]. apply IH. destruct (code c =? 46); [|done].
  apply andb_true_iff in H as [_ H]. by apply dots_ok_false.
Qed.

Lemma range_of_single a : canon a -> range_of_entry (IP_String a) = Ok (NewIPRange a a).
Proof.
  intros Ha. unfold range_of_entry. rewrite dots_ok_no_contains by auto using IP_String_dots with ip.
  rewrite IP_String_no_char by (auto with ip). rewrite NewIP_String by done. cbn. by rewrite IP_Clone_id.
Qed.

(** Entries that hold only assignable addresses of the network. *)
Definition within (n : IPNet) (s : string) : Prop :=
  exists r, range_of_entry s = Ok r /\ range_ok r /\ first_host n <= lo r /\ hi r <= last_host n.

Lemma within_clean n s : within n s -> clean_entry s.
Proof. intros (r & E & H & _). unfold clean_entry. by rewrite E. Qed.

(** In a clean network integers and values differ by a constant. *)
Lemma ip_int_shift n : clean_net n ->
  exists c, forall v, net_lo n - 1 <= v <= net_hi n + 1 -> ip_int v = v - c.
Proof.
  intros Hn. exists (if v4_val (net_lo n) then V4B else 0). intros v Hv. unfold ip_int.
  destruct (clean_net_in n v Hn Hv) as [_ ->]. destruct (v4_val (net_lo n)); lia.
Qed.

(** The integer of an assignable address, back to the address. *)
Lemma host_of_int n z : clean_net n -> ip_int (first_host n) <= z <= ip_int (last_host n) ->
  exists v, z = ip_int v /\ first_host n <= v <= last_host n /\ host_bits n <> 0.
Proof.
  intros Hn Hz. destruct (host_bounds n Hn) as (B1 & B2 & B3 & B4). destruct (ip_int_shift n Hn) as [c E].
  rewrite (E (first_host n)), (E (last_host n)) in Hz by lia. exists (z + c).
  assert (host_bits n <> 0) as H0 by (intros H0; specialize (B3 H0); lia).
  split; [rewrite E; lia|]. split; [lia|done].
Qed.

Lemma host_ip n v : clean_net n -> first_host n <= v <= last_host n ->
  canon (ip_of v) /\ ipv (ip_of v) = v /\ BigInt2Ip (ip_int v) = Done (IP_String (ip_of v)).
Proof.
  intros Hn Hv. destruct (host_bounds n Hn) as (B1 & B2 & _). assert (Hr : net_lo n - 1 <= v <= net_hi n + 1) by lia.
  destruct (clean_ip_of n v Hn Hr) as [Hc E]. destruct (clean_net_in n v Hn Hr) as [Hp _].
  split; [done|]. split; [done|]. by apply BigInt2Ip_val.
Qed.

(** Part of the assignable addresses, as a range. *)
Lemma host_range_ok n u v : clean_net n -> first_host n <= u -> u <= v -> v <= last_host n ->
  range_ok (NewIPRange (ip_of u) (ip_of v)).
Proof.
  intros Hn Hu Huv Hv. destruct (host_ip n u Hn) as (C1 & E1 & _); [lia|].
  destruct (host_ip n v Hn) as (C2 & E2 & _); [lia|]. destruct (host_bounds n Hn) as (B1 & B2 & B3 & _).
  assert (H0 : host_bits n <> 0) by (intros H0; specialize (B3 H0); lia).
  destruct (clean_ip_of n (first_host n) Hn) as [_ F1]; [lia|].
  destruct (clean_ip_of n (last_host n) Hn) as [_ F2]; [lia|].
  apply (range_ok_sub _ _ _ (hosts_range_ok n Hn H0)); cbn [r_start r_end]; rewrite ?E1, ?E2, ?F1, ?F2; auto.
Qed.

Lemma expand_block_within p0 b ip n s e : ParseCIDR b = Some (ip, n) -> clean_net n ->
  exists l, expand_block p0 b s e = Done l /\ Forall (within n) l.
Proof.
  intros Ep Hn. unfold expand_block. destruct (negb _); [by exists []|].
  rewrite (FirstIP_clean _ _ _ Ep Hn), (LastIP_clean _ _ _ Ep Hn). cbn [mbind outcome_bind].
  destruct (host_bounds n Hn) as (B1 & B2 & _).
  destruct (clean_ip_of n (first_host n) Hn) as [C1 F1]; [lia|].
  destruct (clean_ip_of n (last_host n) Hn) as [C2 F2]; [lia|].
  rewrite !IP2BigInt_String, F1, F2 by auto with ip.
  set (s1 := if s <? _ then _ else s). set (e1 := if _ <? e then _ else e).
  assert (Hs1 : ip_int (first_host n) <= s1) by (subst s1; zbool; lia).
  assert (He1 : e1 <= ip_int (last_host n)) by (subst e1; zbool; lia). clearbody s1 e1.
  destruct (Z.eqb_spec s1 e1) as [E|E].
  - destruct (host_of_int n s1 Hn) as (v & -> & Hv & _); [lia|].
    destruct (host_ip n v Hn Hv) as (Hc & Ev & ->). cbn. eexists. split; [done|]. constructor; [|done].
    exists (NewIPRange (ip_of v) (ip_of v)). split; [by apply range_of_single|].
    split; [apply (host_range_ok n); auto; lia|]. cbn. lia.
  - destruct (Z.ltb_spec s1 e1); [|by exists []].
    destruct (host_of_int n s1 Hn) as (u & Eu & Hu & _); [lia|].
    destruct (host_of_int n e1 Hn) as (v & Ev & Hv & _); [lia|]. subst s1 e1.
    destruct (host_ip n u Hn Hu) as (Cu & Eu & ->), (host_ip n v Hn Hv) as (Cv & Ev & ->). cbn.
    assert (u <= v) by (destruct (ip_int_shift n Hn) as [c Hm]; rewrite (Hm u), (Hm v) in * by lia; lia).
    eexists. split; [done|]. constructor; [|done].
    exists (NewIPRange (ip_of u) (ip_of v)). split; [apply range_of_text; auto; lia|].
    split; [apply (host_range_ok n); auto; lia|]. cbn. lia.
Qed.

Definition clean_exclude (e : string) : Prop := str_contains e ".." = true \/ clean_entry e.

#[global] Instance clean_exclude_dec e : Decision (clean_exclude e).
Proof. unfold clean_exclude. apply _. Defined.

Lemma SubnetBroadcast_clean b ip n : ParseCIDR b = Some (ip, n) -> clean_net n ->
  exists t, SubnetBroadcast b = Done t.
Proof.
  intros Ep Hn. unfold SubnetBroadcast. rewrite Ep. destruct (clean_net_size n Hn) as (-> & Hh & _).
  set (ones := fst _) in *. clearbody ones. destruct (_ =? _); [eauto|]. rewrite <-Hh.
  destruct (clean_net_le n Hn) as [Hle Hnn]. rewrite Z.shiftl_mul_pow2, Z.mul_1_l by done.
  rewrite BigInt2Ip_off by (auto; unfold net_hi; lia). eauto.
Qed.

Lemma expand_entry_clean cidr e : Forall clean_cidr (Split cidr ",") -> clean_exclude e ->
  exists l, expand_entry cidr e = Done l /\ Forall clean_entry l.
Proof.
  intros Hb He. unfold expand_entry. destruct (str_contains e "..") eqn:Ed.
  - destruct (Split e "..") as [|p0 [|p1 [|]]]; try (by exists []). destruct (negb _); [by exists []|].
    destruct (_ <? _); [by exists []|]. clear He Ed. induction Hb as [|b bs Hb Hbs IH]; [by exists []|].
    cbn [expand_blocks]. unfold clean_cidr in Hb. destruct (ParseCIDR b) as [[ip n]|] eqn:Ep; [|done].
    destruct (expand_block_within p0 b ip n (IP2BigInt p0) (IP2BigInt p1) Ep Hb) as (l & -> & Hl).
    destruct IH as (l' & -> & Hl'). cbn. eexists. split; [done|]. apply Forall_app. split; [|done].
    eapply Forall_impl; [exact Hl|]. by apply within_clean.
  - destruct He as [He|He]; [congruence|]. induction Hb as [|b bs Hb Hbs IH]; [by exists []|].
    cbn [expand_single]. unfold clean_cidr in Hb. destruct (ParseCIDR b) as [[ip n]|] eqn:Ep; [|done].
    destruct (SubnetBroadcast_clean b ip n Ep Hb) as [t Et].
    destruct (same_protocol b e); [|done]. destruct (_ && _); [|done]. rewrite Et. cbn [mbind outcome_bind].
    destruct (negb _); [|done]. eexists. split; [done|]. by constructor.
Qed.

(** [ExpandExcludeIPs] on clean CIDRs does not panic and returns clean entries. *)
Lemma ExpandExcludeIPs_clean ex cidr : Forall clean_cidr (Split cidr ",") -> Forall clean_exclude ex ->
  exists l, ExpandExcludeIPs ex cidr = Done l /\ Forall clean_entry l.
Proof.
  intros Hb He. induction He as [|e ex He Hex IH]; [by exists []|]. cbn [ExpandExcludeIPs].
  destruct (expand_entry_clean cidr e Hb He) as (l & -> & Hl). destruct IH as (l' & -> & Hl'). cbn.
  eexists. split; [done|]. by apply Forall_app.
Qed.

(** ** The constructor *)

Lemma clean_blocks_Forall c : clean_blocks c -> Forall clean_cidr (Split c ",").
Proof.
  unfold clean_blocks. destruct (Split c ",") as [|a [|b [|]]] eqn:E; try done.
  - rewrite (Split_single _ _ E). auto.
  - intros [? ?]. auto.
Qed.

Lemma parse_cidrs_clean bs : Forall clean_cidr bs ->
  exists ns, parse_cidrs bs = Ok ns /\ Forall2 (fun b n => (exists ip, ParseCIDR b = Some (ip, n)) /\ clean_net n) bs ns.
Proof.
  induction 1 as [|b bs Hb _ IH]; [by exists []|]. unfold clean_cidr in Hb. cbn [parse_cidrs].
  destruct (ParseCIDR b) as [[ip n]|] eqn:E; [|done]. destruct IH as (ns & -> & H2). cbn.
  exists (n :: ns). split; [done|]. constructor; eauto.
Qed.

Lemma inv_new name cidr protocol x4 p4 x6 p6 nm mp pn g :
  fam_inv x4 {[ "" := p4 ]} -> fam_inv x6 {[ "" := p6 ]} ->
  inv (mkSubnet name cidr protocol x4 x6 nm mp pn g {[ "" := mkPool p4 p6 ]}).
Proof. intros H4 H6 f. unfold pools. cbn. rewrite map_fmap_singleton. by destruct f. Qed.

(** What a new subnet is: nothing in use, everything assignable and not
    reserved available. *)
Definition fresh (s : Subnet) : Prop :=
  inv s /\ own s /\ (forall f, fUsing (fam f s) = [] /\ fNicToIP (fam f s) = ∅) /\
  sNicToMac s = ∅ /\ sMacToPod s = ∅ /\ sPodToNicList s = ∅.

Lemma fresh_build name cidrStr protocol c4 i4 r4 c6 i6 r6 :
  (match c4 with Some n => clean_net n /\ i4 = hosts n | None => i4 = [] end) -> wf r4 ->
  (match c6 with Some n => clean_net n /\ i6 = hosts n | None => i6 = [] end) -> wf r6 ->
  let '(s4, p4) := new_fam c4 i4 r4 in
  let '(s6, p6) := new_fam c6 i6 r6 in
  fresh (mkSubnet name cidrStr protocol s4 s6 ∅ ∅ ∅ "" {[ "" := mkPool p4 p6 ]}).
Proof.
  intros H4 W4 H6 W6. pose proof (new_fam_inv c4 i4 r4 H4 W4) as N4. pose proof (new_fam_inv c6 i6 r6 H6 W6) as N6.
  unfold new_fam in *. destruct N4 as (I4 & O4 & _), N6 as (I6 & O6 & _).
  split; [by apply inv_new|]. split; [by intros []|]. split; [by intros []|]. done.
Qed.

Lemma NewSubnet_fresh name cidrStr ex :
  clean_blocks cidrStr -> Forall clean_exclude ex ->
  exists r, NewSubnet name cidrStr ex = Done r /\
    match r with Ok s => fresh s /\ sProtocol s = CheckProtocol cidrStr | Err _ => True end.
Proof.
  intros Hb He. pose proof (clean_blocks_Forall _ Hb) as Hall. unfold NewSubnet.
  destruct (parse_cidrs_clean _ Hall) as (ns & -> & H2).
  destruct (ExpandExcludeIPs_clean ex cidrStr Hall He) as (excl & -> & Hx). cbn [mbind outcome_bind].
  assert (Hsp : Forall clean_entry (fst (SplitIpsByProtocol excl)) /\ Forall clean_entry (snd (SplitIpsByProtocol excl)))
    by (by apply SplitIps_clean).
  destruct (SplitIpsByProtocol excl) as [e4 e6]. destruct Hsp as [He4 He6]. cbn [fst snd] in *.
  destruct (NewIPRangeListFrom e4) as [r4|e] eqn:E4; [|by eexists]. destruct (NewIPRangeListFrom_ok _ _ He4 E4) as [W4 _].
  destruct (NewIPRangeListFrom e6) as [r6|e] eqn:E6; [|by eexists]. destruct (NewIPRangeListFrom_ok _ _ He6 E6) as [W6 _].
  unfold clean_blocks in Hb. destruct (Split cidrStr ",") as [|a [|b [|]]] eqn:Es; try done.
  - pose proof (Split_single _ _ Es) as ->. apply Forall2_cons_inv_l in H2 as (n & ns' & [[ip Ep] Hn] & H2' & ->).
    apply Forall2_nil_inv_l in H2' as ->. rewrite (host_list_clean _ _ _ Ep Hn).
    rewrite (CheckProtocol_cidr _ _ _ Es Ep). cbn [lookup list_lookup of_option mbind outcome_bind].
    destruct (isNil (To4 ip)); cbn [bool_decide].
    + rewrite bool_decide_false, bool_decide_true by done.
      pose proof (fresh_build name cidrStr ProtocolIPv6 None [] r4 (Some n) (hosts n) r6) as F.
      destruct (new_fam None [] r4) as [x4 p4], (new_fam (Some n) (hosts n) r6) as [x6 p6].
      eexists. split; [done|]. split; [by apply F|done].
    + rewrite bool_decide_true by done.
      pose proof (fresh_build name cidrStr ProtocolIPv4 (Some n) (hosts n) r4 None [] r6) as F.
      destruct (new_fam (Some n) (hosts n) r4) as [x4 p4], (new_fam None [] r6) as [x6 p6].
      eexists. split; [done|]. split; [by apply F|done].
  - apply Forall2_cons_inv_l in H2 as (n & ns' & [[ip Ep] Hn] & H2' & ->).
    apply Forall2_cons_inv_l in H2' as (n' & ns'' & [[ip' Ep'] Hn'] & H2'' & ->).
    apply Forall2_nil_inv_l in H2'' as ->. cbn [lookup list_lookup of_option mbind outcome_bind].
    rewrite (host_list_clean _ _ _ Ep Hn), (host_list_clean _ _ _ Ep' Hn').
    assert (Hnot : CheckProtocol cidrStr <> ProtocolIPv4 /\ CheckProtocol cidrStr <> ProtocolIPv6).
    { unfold CheckProtocol. rewrite Es. destruct (bool_decide (cidrStr = "")); [done|].
      destruct (_ || _); [done|]. destruct (_ && _ && _); [done|]. by destruct (_ && _ && _). }
    destruct Hnot. rewrite !bool_decide_false by done. cbn [mbind outcome_bind].
    pose proof (fresh_build name cidrStr (CheckProtocol cidrStr) (Some n) (hosts n) r4 (Some n') (hosts n') r6) as F.
    destruct (new_fam (Some n) (hosts n) r4) as [x4 p4], (new_fam (Some n') (hosts n') r6) as [x6 p6].
    eexists. split; [done|]. split; [by apply F|done].
Qed.

Lemma NewMacOnlySubnet_fresh name : fresh (NewMacOnlySubnet name).
Proof. apply (fresh_build name "" ProtocolMac None [] [] None [] []); done. Qed.
