(* ===== verification/Ipam.v ===== *)
(** * [pkg/ipam/ipam.go]: the table of subnets

    Every method of [IPAM] takes the mutex for its whole body, so a method is
    one atomic step on the table.  [order] is the order in which Go ranges
    over a map; the random source is threaded through the calls that draw
    from it. *)
From S2P Require Import Prelude.
From S2P Require Import GoStrings.
From S2P Require Import GoNet.
From S2P Require Import Ip.
From S2P Require Import IpRange.
From S2P Require Import IpRangeList.
From S2P Require Import UtilNet.
From S2P Require Import Hosts.
From S2P Require Import Subnet.

Local Open Scope Z_scope.

Abbreviation IPAM := (gmap string Subnet).

Definition NewIPAM : IPAM := ∅.

(** The address texts and the MAC of a request. *)
Definition Addrs := (string * string * string)%type.

(** [v4IP.String()] unless the address is nil. *)
Definition opt_String (ip : IP) : string := if isNil ip then "" else IP_String ip.

Definition validateRequestedIPFamily (ipFamily : string) : option err :=
  let f := NormalizeIPFamily ipFamily in
  if bool_decide (f = "") || bool_decide (f = ProtocolIPv4) || bool_decide (f = ProtocolIPv6)
  then None else Some ErrInvalidIPFamily.

Section Ipam.

Context (order : forall A, gmap string A -> list (string * A)).

(** ** Allocation *)

Definition IPAM_GetRandomAddressWithFamily (podName nicName : string) (mac : option string)
    (subnetName poolName ipFamily0 : string) (skippedAddrs : list string) (checkConflict : bool)
    (ipam : IPAM) (rnd : list bytes) : outcome (IPAM * list bytes * result Addrs) :=
  let ipFamily := NormalizeIPFamily ipFamily0 in
  match validateRequestedIPFamily ipFamily with
  | Some e => Done (ipam, rnd, Err e)
  | None =>
      match ipam !! subnetName with
      | None => Done (ipam, rnd, Err ErrNoSubnet)
      | Some subnet =>
          '(subnet', rnd', r) ← GetRandomAddressWithFamily (order IPPool) poolName podName nicName mac
                                  ipFamily skippedAddrs checkConflict subnet rnd;
          Done (<[subnetName := subnet']> ipam, rnd',
                match r with
                | Ok (v4IP, v6IP, macStr) => Ok (opt_String v4IP, opt_String v6IP, macStr)
                | Err e => Err e
                end)
      end
  end.

Definition IPAM_GetRandomAddress (podName nicName : string) (mac : option string)
    (subnetName poolName : string) (skippedAddrs : list string) (checkConflict : bool)
    (ipam : IPAM) (rnd : list bytes) : outcome (IPAM * list bytes * result Addrs) :=
  IPAM_GetRandomAddressWithFamily podName nicName mac subnetName poolName "" skippedAddrs checkConflict ipam rnd.

(** The first loop of [GetStaticAddressWithFamily]. *)
Fixpoint parse_static (ipFamily : string) (pieces : list string) : result (list IP) :=
  match pieces with
  | [] => Ok []
  | ipStr :: pieces' =>
      ip ← NewIP ipStr;
      if negb (bool_decide (ipFamily = "")) && negb (bool_decide (CheckProtocol (IP_String ip) = ipFamily))
      then Err ErrInvalidIPFamily
      else rest ← parse_static ipFamily pieces'; Ok (ip :: rest)
  end.

(** The second loop: the addresses already taken are released when one fails.
    [ips] and [macStr] are the results so far. *)
Fixpoint take_static_ips (podName nicName : string) (mac : option string) (checkConflict : bool)
    (staticIPs : list IP) (ips : list IP) (macStr : string) (subnet : Subnet) (rnd : list bytes)
    : outcome (Subnet * list bytes * result (list IP * string)) :=
  match staticIPs with
  | [] => Done (subnet, rnd, Ok (ips, macStr))
  | ip :: staticIPs' =>
      '(s1, rnd1, r) ← GetStaticAddress (order IPPool) podName nicName ip mac false checkConflict subnet rnd;
      match r with
      | Err e =>
          if negb (length ips =? 0)%nat then
            s2 ← ReleaseAddressWithNicName (order IPPool) podName nicName s1;
            Done (s2, rnd1, Err e)
          else Done (s1, rnd1, Err e)
      | Ok (ipAddr, m) =>
          take_static_ips podName nicName mac checkConflict staticIPs' (ips ++ [ipAddr]) m s1 rnd1
      end
  end.

Definition checkAndAppendIpsForDual (ips : list IP) (mac podName nicName : string) (checkConflict : bool)
    (subnet : Subnet) (rnd : list bytes) : outcome (Subnet * list bytes * result (list IP)) :=
  if negb (bool_decide (sProtocol subnet = ProtocolDual)) || (length ips =? 2)%nat
  then Done (subnet, rnd, Ok ips)
  else
    ip0 ← of_option (ips !! 0%nat);
    let p := CheckProtocol (IP_String ip0) in
    if bool_decide (p = ProtocolIPv4) then
      '(s1, rnd1, r) ← getV6RandomAddress (order IPPool) "" podName nicName (Some mac) [] checkConflict subnet rnd;
      Done (s1, rnd1, match r with Ok (ipAddr, _) => Ok (ips ++ [ipAddr]) | Err e => Err e end)
    else if bool_decide (p = ProtocolIPv6) then
      '(s1, rnd1, r) ← getV4RandomAddress (order IPPool) "" podName nicName (Some mac) [] checkConflict subnet rnd;
      Done (s1, rnd1, match r with Ok (ipAddr, _) => Ok (ipAddr :: ips) | Err e => Err e end)
    else Done (subnet, rnd, Ok []).

(** The final [switch] on the protocol of the subnet. *)
Definition static_result (protocol ip : string) (ips : list IP) (macStr : string) : result Addrs :=
  if bool_decide (protocol = ProtocolIPv4) then Ok (ip, "", macStr)
  else if bool_decide (protocol = ProtocolIPv6) then Ok ("", ip, macStr)
  else if bool_decide (protocol = ProtocolDual) then
    let '(v4, v6) := foldl (fun '(v4, v6) a =>
        let t := IP_String a in
        let p := CheckProtocol t in
        if bool_decide (p = ProtocolIPv4) then (t, v6)
        else if bool_decide (p = ProtocolIPv6) then (v4, t) else (v4, v6)) ("", "") ips in
    Ok (v4, v6, macStr)
  else Err ErrNoAvailable.

(** The body of [GetStaticAddressWithFamily] on the subnet. *)
Definition static_body (podName nicName ip : string) (mac : option string) (ipFamily : string)
    (checkConflict : bool) (subnet : Subnet) (rnd : list bytes)
    : outcome (Subnet * list bytes * result Addrs) :=
  if bool_decide (ip = "") && bool_decide (sProtocol subnet = ProtocolMac) then
    '(s1, rnd1, r) ← GetRandomAddress (order IPPool) "" podName nicName mac [] checkConflict subnet rnd;
    Done (s1, rnd1, match r with Ok (_, _, macStr) => Ok ("", "", macStr) | Err e => Err e end)
  else
    match parse_static ipFamily (Split ip ",") with
    | Err e => Done (subnet, rnd, Err e)
    | Ok staticIPs =>
        '(s1, rnd1, r) ← take_static_ips podName nicName mac checkConflict staticIPs [] "" subnet rnd;
        match r with
        | Err e => Done (s1, rnd1, Err e)
        | Ok (ips, macStr) =>
            '(s2, rnd2, r2) ← (if bool_decide (ipFamily = "")
                               then checkAndAppendIpsForDual ips macStr podName nicName checkConflict s1 rnd1
                               else Done (s1, rnd1, Ok ips));
            match r2 with
            | Err e => Done (s2, rnd2, Err e)
            | Ok ips' => Done (s2, rnd2, static_result (sProtocol s2) ip ips' macStr)
            end
        end
    end.

Definition IPAM_GetStaticAddressWithFamily (podName nicName ip : string) (mac : option string)
    (subnetName ipFamily0 : string) (checkConflict : bool) (ipam : IPAM) (rnd : list bytes)
    : outcome (IPAM * list bytes * result Addrs) :=
  let ipFamily := NormalizeIPFamily ipFamily0 in
  match validateRequestedIPFamily ipFamily with
  | Some e => Done (ipam, rnd, Err e)
  | None =>
      match ipam !! subnetName with
      | None => Done (ipam, rnd, Err ErrNoSubnet)
      | Some subnet =>
          '(subnet', rnd', r) ← static_body podName nicName ip mac ipFamily checkConflict subnet rnd;
          Done (<[subnetName := subnet']> ipam, rnd', r)
      end
  end.

Definition IPAM_GetStaticAddress (podName nicName ip : string) (mac : option string) (subnetName : string)
    (checkConflict : bool) (ipam : IPAM) (rnd : list bytes) : outcome (IPAM * list bytes * result Addrs) :=
  IPAM_GetStaticAddressWithFamily podName nicName ip mac subnetName "" checkConflict ipam rnd.

(** ** Release *)

(** Apply an operation to one subnet, or to every subnet when no name is
    given. *)
Fixpoint on_all (op : Subnet -> outcome Subnet) (l : list (string * Subnet)) (ipam : IPAM) : outcome IPAM :=
  match l with
  | [] => Done ipam
  | (k, s) :: l' => s' ← op s; on_all op l' (<[k := s']> ipam)
  end.

Definition on_subnets (op : Subnet -> outcome Subnet) (subnetName : string) (ipam : IPAM) : outcome IPAM :=
  if negb (bool_decide (subnetName = "")) then
    match ipam !! subnetName with
    | Some s => s' ← op s; Done (<[subnetName := s']> ipam)
    | None => Done ipam
    end
  else on_all op (order Subnet ipam) ipam.

Definition ReleaseAddressByPod (podName subnetName : string) (ipam : IPAM) : outcome IPAM :=
  on_subnets (ReleaseAddress (order IPPool) podName) subnetName ipam.

Definition ReleaseAddressByNic (podName nicName subnetName : string) (ipam : IPAM) : outcome IPAM :=
  on_subnets (ReleaseAddressWithNicName (order IPPool) podName nicName) subnetName ipam.

(** ** Subnets *)

(** [(n *net.IPNet).String()], which accepts a nil receiver. *)
Definition cidr_String (n : option IPNet) : string :=
  match n with Some n => IPNet_String n | None => "<nil>" end.

(** The records of the nics whose address is in [ips]. *)
Definition keep_nics (ips : IPRangeList) (nics : gmap string IP) : gmap string IP :=
  filter (fun '(_, ip) => IPRangeList_Contains ips ip = true) nics.

(** The owners, without those of the dropped addresses. *)
Definition keep_pods (ips : IPRangeList) (nics : gmap string IP) (pods : gmap string string)
    : gmap string string :=
  foldl (fun m '(_, ip) => if negb (IPRangeList_Contains ips ip) then delete (IP_String ip) m else m)
        pods (order IP nics).

(** A named pool after its subnet changed. *)
Definition rebuild_pool (ips reserved : IPRangeList) (p : PoolFam) : PoolFam :=
  let used := IPRangeList_Intersect (pUsing p) ips in
  let res := IPRangeList_Intersect reserved (pIPs p) in
  let free := IPRangeList_Separate (IPRangeList_Separate (IPRangeList_Intersect ips (pIPs p)) used) res in
  mkPoolFam (pIPs p) free (IPRangeList_Clone free) res NewEmptyIPRangeList used.

(** The default pool without what a named pool, already rebuilt, holds. *)
Definition carve_default (p d : PoolFam) : PoolFam :=
  mkPoolFam (IPRangeList_Separate (pIPs d) (pIPs p)) (IPRangeList_Separate (pFree d) (pIPs p))
            (pAvailable d) (IPRangeList_Separate (pReserved d) (pReserved p)) (pReleased d)
            (IPRangeList_Separate (pUsing d) (pUsing p)).

(** The loop over the named pools: the default pool and the pools. *)
Fixpoint rebuild_pools (f : family) (ips reserved : IPRangeList) (l : list (string * IPPool))
    (d : PoolFam) (ps : gmap string IPPool) : PoolFam * gmap string IPPool :=
  match l with
  | [] => (d, ps)
  | (k, p) :: l' =>
      if bool_decide (k = "") then rebuild_pools f ips reserved l' d ps
      else
        let p' := rebuild_pool ips reserved (pool_fam f p) in
        rebuild_pools f ips reserved l' (carve_default p' d) (<[k := set_pool_fam f p' p]> ps)
  end.

(** One family of an existing subnet gets a new network, gateway or list of
    reserved addresses. *)
Definition update_fam (f : family) (cidrStr gw : string) (reserved : IPRangeList) (s : Subnet) : outcome Subnet :=
  let x := fam f s in
  let cidr := snd <$> ParseCIDR cidrStr in
  ips ← host_list cidrStr;
  let used := IPRangeList_Intersect (fUsing x) ips in
  let free := IPRangeList_Separate (IPRangeList_Separate ips reserved) used in
  pool ← of_option (sIPPools s !! "");
  let d0 := mkPoolFam ips (IPRangeList_Clone free) (pAvailable (pool_fam f pool)) (IPRangeList_Clone reserved)
                      NewEmptyIPRangeList (IPRangeList_Clone used) in
  let '(d, ps) := rebuild_pools f ips reserved (order IPPool (sIPPools s)) d0 (sIPPools s) in
  let d' := mkPoolFam (pIPs d) (pFree d) (IPRangeList_Clone (pFree d)) (pReserved d) (pReleased d) (pUsing d) in
  let x' := mkFam cidr free reserved (IPRangeList_Clone free) used
                  (keep_nics ips (fNicToIP x)) (keep_pods ips (fNicToIP x) (fIPToPod x)) gw in
  Done (set_fam f x' (set_pools (<["" := set_pool_fam f d' pool]> ps) s)).

(** The family is updated when the protocol has it and something changed. *)
Definition maybe_update (f : family) (protocol proto_f cidrStr gw : string) (reserved : IPRangeList) (s : Subnet)
    : outcome Subnet :=
  let x := fam f s in
  if (bool_decide (protocol = ProtocolDual) || bool_decide (protocol = proto_f)) &&
     (negb (bool_decide (cidr_String (fCIDR x) = cidrStr)) || negb (bool_decide (fGw x = gw)) ||
      negb (IPRangeList_Equal (fReserved x) reserved))
  then update_fam f cidrStr gw reserved s
  else Done s.

(** The MACs of nics without an address are dropped. *)
Definition drop_macs (s : Subnet) : Subnet :=
  let gone nic := isNil (NicIP V4 s nic) && isNil (NicIP V6 s nic) in
  set_macs (filter (fun '(nic, _) => gone nic = false) (sNicToMac s))
           (foldl (fun m '(nic, mac) => if gone nic then delete mac m else m) (sMacToPod s)
                  (order string (sNicToMac s))) s.

Definition set_protocol (p : string) (s : Subnet) : Subnet :=
  match s with mkSubnet n c _ a b nm mp pn g ps => mkSubnet n c p a b nm mp pn g ps end.

Definition set_gws (v4Gw v6Gw : string) (s : Subnet) : Subnet :=
  let put gw x := mkFam (fCIDR x) (fFree x) (fReserved x) (fAvailable x) (fUsing x) (fNicToIP x) (fIPToPod x) gw in
  set_fam V4 (put v4Gw (sV4 s)) (set_fam V6 (put v6Gw (sV6 s)) s).

(** An existing subnet: the protocol is set before the lists are parsed. *)
Definition update_subnet (protocol v4cidrStr v6cidrStr v4Gw v6Gw : string) (excl : list string) (s0 : Subnet)
    : outcome (Subnet * option err) :=
  let s := set_protocol protocol s0 in
  let '(v4ExcludeIps, v6ExcludeIps) := SplitIpsByProtocol excl in
  match NewIPRangeListFrom v4ExcludeIps with
  | Err e => Done (s, Some e)
  | Ok v4Reserved =>
      match NewIPRangeListFrom v6ExcludeIps with
      | Err e => Done (s, Some e)
      | Ok v6Reserved =>
          s1 ← maybe_update V4 protocol ProtocolIPv4 v4cidrStr v4Gw v4Reserved s;
          s2 ← maybe_update V6 protocol ProtocolIPv6 v6cidrStr v6Gw v6Reserved s1;
          Done (drop_macs s2, None)
      end
  end.

(** The texts of the networks and the gateways, by protocol. *)
Definition cidr_gws (protocol gw name : string) (cidrs : list IPNet)
    : outcome (result (string * string * string * string)) :=
  if bool_decide (protocol = ProtocolDual) then
    c0 ← of_option (cidrs !! 0%nat);
    c1 ← of_option (cidrs !! 1%nat);
    match Split gw "," with
    | [g4; g6] => Done (Ok (IPNet_String c0, IPNet_String c1, g4, g6))
    | _ => Done (Err (Errorf "dual subnet %s invalid gw %s" [name; gw]))
    end
  else if bool_decide (protocol = ProtocolIPv4) then
    c0 ← of_option (cidrs !! 0%nat); Done (Ok (IPNet_String c0, "", gw, ""))
  else if bool_decide (protocol = ProtocolIPv6) then
    c0 ← of_option (cidrs !! 0%nat); Done (Ok ("", IPNet_String c0, "", gw))
  else if bool_decide (protocol = "") then Done (Err ErrInvalidCIDR)
  else Done (Ok ("", "", "", "")).

Definition AddOrUpdateSubnet (name cidrStr gw : string) (excludeIps : list string) (ipam : IPAM)
    : outcome (IPAM * option err) :=
  if bool_decide (cidrStr = "") then
    match ipam !! name with
    | Some s =>
        match fCIDR (sV4 s), fCIDR (sV6 s) with
        | None, None => Done (<[name := set_protocol ProtocolMac s]> ipam, None)
        | _, _ => Done (ipam, Some ErrInvalidCIDR)
        end
    | None => Done (<[name := NewMacOnlySubnet name]> ipam, None)
    end
  else
    excl ← ExpandExcludeIPs excludeIps cidrStr;
    match parse_cidrs (Split cidrStr ",") with
    | Err e => Done (ipam, Some e)
    | Ok cidrs =>
        let protocol := CheckProtocol cidrStr in
        r ← cidr_gws protocol gw name cidrs;
        match r with
        | Err e => Done (ipam, Some e)
        | Ok (v4cidrStr, v6cidrStr, v4Gw, v6Gw) =>
            match ipam !! name with
            | Some s =>
                '(s', e) ← update_subnet protocol v4cidrStr v6cidrStr v4Gw v6Gw excl s;
                Done (<[name := s']> ipam, e)
            | None =>
                rs ← NewSubnet name cidrStr excl;
                match rs with
                | Err e => Done (ipam, Some e)
                | Ok s => Done (<[name := set_gws v4Gw v6Gw s]> ipam, None)
                end
            end
        end
    end.

Definition DeleteSubnet (subnetName : string) (ipam : IPAM) : IPAM := delete subnetName ipam.

(** ** Pools and MACs *)

Definition IPAM_AddOrUpdateIPPool (subnet ippool : string) (ips : list string) (ipam : IPAM)
    : outcome (IPAM * option err) :=
  match ipam !! subnet with
  | None => Done (ipam, Some (Errorf "subnet %s does not exist in IPAM" [subnet]))
  | Some s =>
      '(s', e) ← AddOrUpdateIPPool (order IPPool) ippool ips s;
      Done (<[subnet := s']> ipam, e)
  end.

Definition IPAM_RemoveIPPool (subnet ippool : string) (ipam : IPAM) : outcome IPAM :=
  match ipam !! subnet with
  | None => Done ipam
  | Some s => s' ← RemoveIPPool ippool s; Done (<[subnet := s']> ipam)
  end.

Definition RecordGatewayMAC (subnetName gatewayMAC : string) (ipam : IPAM) : IPAM * option err :=
  match ipam !! subnetName with
  | None => (ipam, Some (Errorf "subnet %s not found in ipam" [subnetName]))
  | Some (mkSubnet n c p a b nm mp pn _ ps) =>
      (<[subnetName := mkSubnet n c p a b nm mp pn gatewayMAC ps]> ipam, None)
  end.

(** ** Queries *)

Record SubnetAddress := mkSubnetAddress { saSubnet : string; saIP : string; saMac : string }.

(** The addresses of one nic; a nil address prints as ["<nil>"]. *)
Definition nic_addresses (k nicName : string) (s : Subnet) : list SubnetAddress :=
  let '(v4IP, v6IP, mac, protocol) := GetPodAddress nicName s in
  if bool_decide (protocol = ProtocolIPv4) then [mkSubnetAddress k (IP_String v4IP) mac]
  else if bool_decide (protocol = ProtocolIPv6) then [mkSubnetAddress k (IP_String v6IP) mac]
  else [mkSubnetAddress k (IP_String v4IP) mac; mkSubnetAddress k (IP_String v6IP) mac].

Definition IPAM_GetPodAddress (podName : string) (ipam : IPAM) : list SubnetAddress :=
  order Subnet ipam ≫= fun '(k, s) =>
    go_get [] (sPodToNicList s) podName ≫= fun nicName => nic_addresses k nicName s.

Definition IPAM_ContainAddress (address : string) (ipam : IPAM) : bool :=
  match NewIP address with
  | Err _ => false
  | Ok ip => existsb (fun '(_, s) => ContainAddress ip s) (order Subnet ipam)
  end.

Definition IsIPAssignedToOtherPod (ip subnetName podName : string) (ipam : IPAM) : string * bool :=
  match ipam !! subnetName with
  | None => ("", false)
  | Some s => isIPAssignedToOtherPod ip podName s
  end.

(** A subnet without an IPv4 network makes the call dereference nil. *)
Definition GetSubnetV4Mask (subnetName : string) (ipam : IPAM) : outcome (result string) :=
  match ipam !! subnetName with
  | Some s => n ← of_option (fCIDR (sV4 s)); Done (Ok (Itoa (fst (Mask_Size (nMask n)))))
  | None => Done (Err ErrNoAvailable)
  end.

(** A nil list of reserved addresses separates nothing. *)
Definition list_or_nil (r : result IPRangeList) : IPRangeList := match r with Ok l => l | Err _ => [] end.

(** Using and available ranges, v4 and v6: [(v4Using, v6Using, v4Available, v6Available)]. *)
Definition GetSubnetIPRangeString (subnetName : string) (excludeIps : list string) (ipam : IPAM)
    : string * string * string * string :=
  let '(v4ExcludeIps, v6ExcludeIps) := SplitIpsByProtocol excludeIps in
  match ipam !! subnetName with
  | None => ("", "", "", "")
  | Some s =>
      let v4Reserved := list_or_nil (NewIPRangeListFrom v4ExcludeIps) in
      let v6Reserved := list_or_nil (NewIPRangeListFrom v6ExcludeIps) in
      let show l r := IPRangeList_String (IPRangeList_Separate l r) in
      (show (fUsing (sV4 s)) v4Reserved, show (fUsing (sV6 s)) v6Reserved,
       show (fAvailable (sV4 s)) v4Reserved, show (fAvailable (sV6 s)) v6Reserved)
  end.

Definition IPAM_IPPoolStatistics (subnet ippool : string) (ipam : IPAM) : PoolStatistics :=
  match ipam !! subnet with
  | None => mkStats 0 0 0 0 "" "" "" ""
  | Some s => IPPoolStatistics ippool s
  end.

End Ipam.
