(* ===== verification/IpamInv.v ===== *)
(** * The table of subnets keeps the invariant of every subnet

    The update of an existing subnet rebuilds the lists of the subnet and of
    its pools from the new network; it is the one operation that does not
    move single addresses.  Every operation of the table is then a step that
    keeps the invariant, in any order of calls. *)
From S2P Require Import Prelude GoStrings GoNet GoNetText Ip IpRange IpRangeList IpRangeListFacts UtilNet CidrFacts Hosts Subnet SubnetInv SubnetAlloc SubnetPools SubnetNew Ipam.

Local Open Scope Z_scope.

(** ** Rebuilding the pools of a family *)

Lemma rebuild_pool_spec ips reserved p :
  wf ips -> wf reserved -> pool_wf p ->
  let q := rebuild_pool ips reserved p in
  pool_wf q /\ pIPs q = pIPs p /\ pAvailable q = pFree q /\ pReleased q = [] /\
  (forall v, mem (pUsing q) v <-> mem (pUsing p) v /\ mem ips v) /\
  (forall v, mem (pReserved q) v <-> mem reserved v /\ mem (pIPs p) v) /\
  (forall v, mem (pFree q) v <-> mem ips v /\ mem (pIPs p) v /\
     ~ (mem (pUsing p) v /\ mem ips v) /\ ~ (mem reserved v /\ mem (pIPs p) v)).
Proof.
  intros Wi Wr [P1 P2 P3 P4 P5 P6] q.
  destruct (IPRangeList_Intersect_ok _ _ P6 Wi) as [W1 M1].
  destruct (IPRangeList_Intersect_ok _ _ Wr P1) as [W2 M2].
  destruct (IPRangeList_Intersect_ok _ _ Wi P1) as [W3 M3].
  destruct (IPRangeList_Separate_ok _ _ W3 W1) as [W4 M4].
  destruct (IPRangeList_Separate_ok _ _ W4 W2) as [W5 M5].
  subst q. unfold rebuild_pool. rewrite IPRangeList_Clone_id. cbn [pIPs pFree pAvailable pReserved pReleased pUsing].
  split; [by constructor|]. repeat (split; [done|]). intros v. rewrite M5, M4, M3, M2, M1. tauto.
Qed.

(** The values outside every named pool of a list. *)
Definition outside (f : family) (l : list (string * IPPool)) (sel : PoolFam -> IPRangeList) (v : Z) : Prop :=
  forall k p, (k, p) ∈ l -> k <> "" -> ~ mem (sel (pool_fam f p)) v.

Lemma outside_cons f k p l sel v : k <> "" ->
  outside f ((k, p) :: l) sel v <-> ~ mem (sel (pool_fam f p)) v /\ outside f l sel v.
Proof.
  intros Hk. unfold outside. split.
  - intros H. split; [apply (H k p); [left|done]|]. intros k' p' ? ?. apply (H k' p'); [by right|done].
  - intros [H1 H2] k' p' [[= -> ->]|Hin]%elem_of_cons; [done|by apply H2].
Qed.

Lemma outside_skip f p l sel v : outside f (("", p) :: l) sel v <-> outside f l sel v.
Proof.
  unfold outside. split.
  - intros H k' p' ? ?. apply (H k' p'); [by right|done].
  - intros H k' p' [[= -> ->]|Hin]%elem_of_cons; [done|by apply H].
Qed.

Lemma rebuild_default_spec f ips reserved l d0 ps0 :
  wf ips -> wf reserved -> (forall k p, (k, p) ∈ l -> pool_wf (pool_fam f p)) ->
  wf (pIPs d0) -> wf (pFree d0) -> wf (pReserved d0) -> wf (pUsing d0) ->
  let d := fst (rebuild_pools f ips reserved l d0 ps0) in
  let rb sel p := sel (rebuild_pool ips reserved p) in
  (wf (pIPs d) /\ wf (pFree d) /\ wf (pReserved d) /\ wf (pUsing d)) /\ pReleased d = pReleased d0 /\
  (forall v, mem (pIPs d) v <-> mem (pIPs d0) v /\ outside f l pIPs v) /\
  (forall v, mem (pFree d) v <-> mem (pFree d0) v /\ outside f l pIPs v) /\
  (forall v, mem (pReserved d) v <-> mem (pReserved d0) v /\ outside f l (rb pReserved) v) /\
  (forall v, mem (pUsing d) v <-> mem (pUsing d0) v /\ outside f l (rb pUsing) v).
Proof.
  intros Wi Wr. revert d0 ps0. induction l as [|[k p] l IH]; intros d0 ps0 Hw W1 W2 W3 W4; cbv zeta.
  { assert (Ho : forall sel v, outside f [] sel v) by (intros sel v k p Hin; by apply elem_of_nil in Hin).
    split; [done|]. split; [done|]. repeat split; try tauto; auto; apply Ho. }
  cbn [rebuild_pools]. assert (Hw' : forall k p, (k, p) ∈ l -> pool_wf (pool_fam f p)) by (intros ? ? ?; eapply Hw; by right).
  destruct (bool_decide_reflect (k = "")) as [->|Hk].
  { destruct (IH d0 ps0 Hw' W1 W2 W3 W4) as (V & R & M1 & M2 & M3 & M4). split; [done|]. split; [done|].
    split_and!; intros v; rewrite outside_skip; auto. }
  destruct (rebuild_pool_spec ips reserved (pool_fam f p) Wi Wr) as ([Q1 Q2 Q3 Q4 Q5 Q6] & Ei & _); [eapply Hw; left|].
  set (p' := rebuild_pool ips reserved (pool_fam f p)) in *.
  destruct (IPRangeList_Separate_ok _ _ W1 Q1) as [V1 S1]. destruct (IPRangeList_Separate_ok _ _ W2 Q1) as [V2 S2].
  destruct (IPRangeList_Separate_ok _ _ W3 Q4) as [V3 S3]. destruct (IPRangeList_Separate_ok _ _ W4 Q6) as [V4 S4].
  destruct (IH (carve_default p' d0) (<[k := set_pool_fam f p' p]> ps0) Hw' V1 V2 V3 V4) as (V & R & M1 & M2 & M3 & M4).
  split; [done|]. split; [done|]. cbn [carve_default pIPs pFree pReserved pUsing] in M1, M2, M3, M4.
  split_and!; intros v; rewrite outside_cons by done.
  - rewrite M1, S1, Ei. tauto.
  - rewrite M2, S2, Ei. tauto.
  - rewrite M3, S3. fold p'. tauto.
  - rewrite M4, S4. fold p'. tauto.
Qed.

Lemma rebuild_named_spec f ips reserved (m : gmap string IPPool) l d0 ps0 :
  (forall k p, (k, p) ∈ l -> m !! k = Some p) ->
  let ps := snd (rebuild_pools f ips reserved l d0 ps0) in
  (forall k p, (k, p) ∈ l -> k <> "" ->
     ps !! k = Some (set_pool_fam f (rebuild_pool ips reserved (pool_fam f p)) p)) /\
  (forall k, (forall p, (k, p) ∈ l -> k = "") -> ps !! k = ps0 !! k).
Proof.
  revert d0 ps0. induction l as [|[k p] l IH]; intros d0 ps0 Hm; cbv zeta.
  { split; [|done]. intros k p Hin. by apply elem_of_nil in Hin. }
  cbn [rebuild_pools]. assert (Hm' : forall k p, (k, p) ∈ l -> m !! k = Some p) by (intros ? ? ?; apply Hm; by right).
  destruct (bool_decide_reflect (k = "")) as [->|Hk].
  { destruct (IH d0 ps0 Hm') as [I1 I2]. split.
    - intros k' p' [[= -> ->]|Hin]%elem_of_cons Hne; [done|by apply I1].
    - intros k' Hk'. apply I2. intros p' Hin. apply (Hk' p'). by right. }
  match goal with |- context [rebuild_pools f ips reserved l ?d ?ps] => destruct (IH d ps Hm') as [I1 I2] end.
  split.
  - intros k' p' [[= -> ->]|Hin]%elem_of_cons Hne; [|by apply I1].
    destruct (decide (k ∈ l.*1)) as [Hin|Hno].
    + apply list_elem_of_fmap in Hin as ([k2 q] & -> & Hq). cbn in *.
      assert (q = p) as -> by (pose proof (Hm' _ _ Hq); specialize (Hm k2 p ltac:(left)); congruence). by apply I1.
    + rewrite I2, lookup_insert_eq; [done|]. intros q Hq. destruct Hno. apply list_elem_of_fmap. by exists (k, q).
  - intros k' Hk'. rewrite I2 by (intros q Hq; apply (Hk' q); by right).
    apply lookup_insert_ne. intros <-. destruct Hk. apply (Hk' p). left.
Qed.

(** The lists of a family after the update. *)
Lemma lists_update f x cidr ips reserved free used nics pods gw s d d' ps :
  inv s -> x = fam f s -> clean_net cidr -> ips = hosts cidr -> wf reserved -> wf free -> wf used ->
  (forall v, mem used v <-> mem (fUsing x) v /\ mem ips v) ->
  (forall v, mem free v <-> mem ips v /\ ~ mem reserved v /\ ~ mem used v) ->
  pool_wf d' -> pAvailable d' = pFree d' -> pReleased d' = [] ->
  (forall v, mem (pIPs d') v <-> mem ips v /\ forall k p, pools f s !! k = Some p -> k <> "" -> ~ mem (pIPs p) v) ->
  (forall v, mem (pFree d') v <-> mem free v /\ mem (pIPs d') v) ->
  (forall v, mem (pReserved d') v -> mem reserved v) ->
  (forall v, mem reserved v -> mem (pIPs d') v -> mem (pReserved d') v) ->
  (forall v, mem (pUsing d') v <-> mem used v /\ mem (pIPs d') v) ->
  ps !! "" = Some d ->
  (forall k q, ps !! k = Some q -> k <> "" ->
     exists p, pools f s !! k = Some p /\ q = rebuild_pool ips reserved p) ->
  (forall k p, pools f s !! k = Some p -> k <> "" -> ps !! k = Some (rebuild_pool ips reserved p)) ->
  d = d' ->
  lists_inv (mkFam (Some cidr) free reserved free used nics pods gw) ps.
Proof.
  intros H Ex Hn Ei Wr Wf Wu Mu Mf Wd Ea Er Md1 Md2 Md3 Md3' Md4 Hd Hnamed Hnamed' ->. subst x.
  pose proof (proj1 (H f)) as Hl. set (x' := mkFam _ _ _ _ _ _ _ _).
  assert (Eh : hosts_of x' = ips) by (by subst).
  assert (Wi : wf ips) by (subst ips; by apply hosts_wf).
  assert (Hpools : forall k q, ps !! k = Some q -> k = "" /\ q = d' \/
    k <> "" /\ exists p, pools f s !! k = Some p /\ pIPs q = pIPs p /\ q = rebuild_pool ips reserved p).
  { intros k q Hk. destruct (decide (k = "")) as [->|Hne]; [left; split; congruence|right]. split; [done|].
    destruct (Hnamed k q Hk Hne) as (p & Hp & ->). exists p. split; [done|].
    destruct (rebuild_pool_spec ips reserved p Wi Wr) as (_ & E & _); [apply (pi_wf (fam f s)), (li_pool _ _ Hl _ _ Hp)|done]. }
  constructor; rewrite ?Eh; try done; cbn [x' fFree fReserved fAvailable fUsing].
  - intros v. rewrite Mf. tauto.
  - intros v Hv. left. by apply Mu.
  - intros k q Hk. destruct (Hpools k q Hk) as [[-> ->]|(Hne & p & Hp & E & Eq)].
    + constructor; try done; cbn [x' fFree fReserved fAvailable fUsing]; intros v; rewrite ?Ea, ?Er; cbn [mem]; auto; tauto.
    + destruct (li_pool _ _ Hl _ _ Hp) as [Wp _ _ _ Pu _ _ _].
      destruct (rebuild_pool_spec ips reserved p Wi Wr Wp) as (Wq & Ei' & Ea' & Er' & R1 & R2 & R3). rewrite <-Eq in *.
      constructor; try done; cbn [x' fFree fReserved fAvailable fUsing]; intros v; rewrite ?Ea', ?Er', ?E; cbn [mem].
      * rewrite R3, Mf, Mu, Pu. tauto.
      * tauto.
      * tauto.
      * rewrite R1, Mu, Pu. tauto.
      * rewrite R2. tauto.
      * rewrite R2. tauto.
      * tauto.
  - intros k1 k2 p1 p2 v L1 L2 M1 M2.
    destruct (Hpools _ _ L1) as [[-> ->]|(N1 & q1 & Q1 & E1 & _)], (Hpools _ _ L2) as [[-> ->]|(N2 & q2 & Q2 & E2 & _)]; try done.
    + apply Md1 in M1 as [_ M1]. rewrite E2 in M2. by destruct (M1 _ _ Q2 N2).
    + apply Md1 in M2 as [_ M2]. rewrite E1 in M1. by destruct (M2 _ _ Q1 N1).
    + rewrite E1 in M1. rewrite E2 in M2. by eapply (li_disj _ _ Hl).
  - intros v Hv. assert (Hi : mem ips v) by (destruct Hv as [?|Hv]; [done|by apply Mu in Hv as [_ ?]]). clear Hv.
    destruct (decide (map_Exists (fun k p => k <> "" /\ mem (pIPs p) v) (pools f s))) as [(k & p & Hp & Hne & Hm)|Hno].
    + exists k, (rebuild_pool ips reserved p). split; [by apply Hnamed'|].
      destruct (rebuild_pool_spec ips reserved p Wi Wr) as (_ & -> & _); [apply (pi_wf (fam f s)), (li_pool _ _ Hl _ _ Hp)|done].
    + exists "", d'. split; [done|]. apply Md1. split; [done|]. intros k p Hp Hne Hm. apply Hno. by exists k, p.
Qed.

Section Update.

Context (order : forall A, gmap string A -> list (string * A)).
Hypothesis order_ok : forall A m, order A m ≡ₚ map_to_list m.

Lemma elem_of_order A (m : gmap string A) k a : (k, a) ∈ order A m <-> m !! k = Some a.
Proof. by rewrite order_ok, elem_of_map_to_list. Qed.

Lemma keep_nics_Some ips nics nic ip :
  keep_nics ips nics !! nic = Some ip <-> nics !! nic = Some ip /\ IPRangeList_Contains ips ip = true.
Proof. unfold keep_nics. rewrite map_lookup_filter_Some. done. Qed.

Lemma keep_pods_lookup ips nics pods key :
  (forall nic ip, nics !! nic = Some ip -> IPRangeList_Contains ips ip = false -> IP_String ip <> key) ->
  keep_pods order ips nics pods !! key = pods !! key.
Proof.
  intros H. unfold keep_pods.
  assert (H' : forall nic ip, (nic, ip) ∈ order IP nics -> IPRangeList_Contains ips ip = false -> IP_String ip <> key)
    by (intros nic ip Hin; apply (H nic), elem_of_order, Hin).
  clear H. revert pods. induction (order IP nics) as [|[nic ip] l IH]; intros pods; [done|]. cbn [foldl].
  rewrite IH by (intros n i Hin; apply (H' n); by right).
  destruct (IPRangeList_Contains ips ip) eqn:E; cbn [negb]; [done|].
  apply lookup_delete_ne. apply (H' nic); [left|done].
Qed.

Lemma update_fam_ok f cidrStr gw reserved ip n s :
  inv s -> ParseCIDR cidrStr = Some (ip, n) -> clean_net n -> wf reserved ->
  exists s', update_fam order f cidrStr gw reserved s = Done s' /\ inv s' /\
    fam (other f) s' = fam (other f) s /\ (own_inv (fam f s) -> own_inv (fam f s')) /\
    fCIDR (fam f s') = Some n /\ fReserved (fam f s') = reserved /\ fGw (fam f s') = gw /\
    (forall nic, fNicToIP (fam f s') !! nic = fNicToIP (fam f s) !! nic \/ fNicToIP (fam f s') !! nic = None).
Proof.
  intros H Ep Hn Wr. unfold update_fam. rewrite Ep, (host_list_clean _ _ _ Ep Hn). cbn [mbind outcome_bind fmap option_fmap option_map snd].
  destruct (default_pool s H) as [pool Hd]. rewrite Hd. cbn [of_option mbind outcome_bind].
  set (x := fam f s). set (ips := hosts n). destruct (H f) as [Hl Hni]. fold x in Hl, Hni.
  assert (Wi : wf ips) by (by apply hosts_wf).
  destruct (IPRangeList_Intersect_ok _ _ (li_wf_using _ _ Hl) Wi) as [Wu Mu].
  destruct (IPRangeList_Separate_ok _ _ Wi Wr) as [W1 M1]. destruct (IPRangeList_Separate_ok _ _ W1 Wu) as [W2 M2].
  set (used := IPRangeList_Intersect (fUsing x) ips) in *.
  set (free := IPRangeList_Separate (IPRangeList_Separate ips reserved) used) in *.
  rewrite !IPRangeList_Clone_id.
  set (d0 := mkPoolFam ips free (pAvailable (pool_fam f pool)) reserved NewEmptyIPRangeList used).
  assert (Hw : forall k p, (k, p) ∈ order IPPool (sIPPools s) -> pool_wf (pool_fam f p)).
  { intros k p Hin%elem_of_order. apply (pi_wf x), (li_pool _ _ Hl k). by apply pools_lookup. }
  destruct (rebuild_default_spec f ips reserved (order IPPool (sIPPools s)) d0 (sIPPools s) Wi Wr Hw Wi W2 Wr Wu)
    as ((V1 & V2 & V3 & V4) & Er & D1 & D2 & D3 & D4).
  destruct (rebuild_named_spec f ips reserved (sIPPools s) (order IPPool (sIPPools s)) d0 (sIPPools s)) as [N1 N2];
    [by intros k p ?%elem_of_order|].
  destruct (rebuild_pools f ips reserved (order IPPool (sIPPools s)) d0 (sIPPools s)) as [d ps]. cbn [fst snd] in *.
  rewrite IPRangeList_Clone_id. set (d' := mkPoolFam _ _ _ _ _ _).
  set (x' := mkFam _ _ _ _ _ _ _ _). set (s' := set_fam f x' _).
  assert (Hout : forall sel v, outside f (order IPPool (sIPPools s)) sel v <->
    forall k p, pools f s !! k = Some p -> k <> "" -> ~ mem (sel p) v).
  { intros sel v. unfold outside. split.
    - intros Ho k q Hq Hne. apply pools_lookup_inv in Hq as (p & Hp & ->). apply (Ho k p); [by apply elem_of_order|done].
    - intros Ho k p Hin%elem_of_order Hne. apply (Ho k); [by apply pools_lookup|done]. }
  assert (Ef : fam f s' = x') by (subst s'; by view).
  assert (Eo : fam (other f) s' = fam (other f) s) by (subst s'; view; apply fam_set_pools).
  assert (Eps : forall g, pools g s' = pool_fam g <$> <["" := set_pool_fam f d' pool]> ps)
    by (intros g; subst s'; view; apply pools_set_pools).
  assert (Hps : forall k, k <> "" -> ps !! k =
    (fun p => set_pool_fam f (rebuild_pool ips reserved (pool_fam f p)) p) <$> sIPPools s !! k).
  { intros k Hk. destruct (sIPPools s !! k) as [p|] eqn:Hp; cbn.
    - apply N1; [by apply elem_of_order|done].
    - rewrite N2; [done|]. intros q Hq%elem_of_order. congruence. }
  assert (Hps' : forall k, k <> "" -> pools f s' !! k = rebuild_pool ips reserved <$> pools f s !! k).
  { intros k Hk. rewrite Eps, lookup_fmap, lookup_insert_ne, Hps by done. unfold pools. rewrite lookup_fmap.
    destruct (sIPPools s !! k); [|done]. cbn. by rewrite set_pool_fam_get. }
  assert (Hd' : pools f s' !! "" = Some d') by (rewrite Eps, lookup_fmap, lookup_insert_eq; cbn; by rewrite set_pool_fam_get).
  assert (L : lists_inv x' (pools f s')).
  { eapply (lists_update f x n ips reserved free used _ _ _ s d' d' (pools f s')); try done.
    - intros v. subst free. rewrite M2, M1. tauto.
    - constructor; cbn [d' pIPs pFree pAvailable pReserved pReleased pUsing]; rewrite ?Er; done.
    - intros v. cbn [d' pIPs]. rewrite D1, Hout. done.
    - intros v. cbn [d' pFree pIPs]. rewrite D2, D1. cbn [d0 pFree pIPs]. subst free. rewrite M2, M1. tauto.
    - intros v. cbn [d' pReserved]. rewrite D3. tauto.
    - intros v Hr Hi. cbn [d' pReserved pIPs] in *. rewrite D3. split; [done|]. rewrite D1 in Hi. destruct Hi as [_ Hi].
      rewrite Hout in Hi |- *. intros k p Hp Hne. destruct (li_pool _ _ Hl _ _ Hp) as [Wp _ _ _ _ _ _ _].
      destruct (rebuild_pool_spec ips reserved p Wi Wr Wp) as (_ & _ & _ & _ & _ & R2 & _). rewrite R2.
      intros [_ Hm]. by eapply Hi.
    - intros v. cbn [d' pUsing pIPs]. rewrite D4, D1. cbn [d0 pUsing pIPs]. rewrite !Hout. split.
      + intros [Hu Ho]. split; [done|]. split; [by apply Mu in Hu as [_ ?]|]. intros k p Hp Hne Hm.
        destruct (li_pool _ _ Hl _ _ Hp) as [Wp _ _ _ Pu _ _ _].
        destruct (rebuild_pool_spec ips reserved p Wi Wr Wp) as (_ & _ & _ & _ & R1 & _).
        apply (Ho k p Hp Hne), R1. apply Mu in Hu as [Hu ?]. split; [by apply Pu|done].
      + intros [Hu [_ Ho]]. split; [done|]. intros k p Hp Hne.
        destruct (li_pool _ _ Hl _ _ Hp) as [Wp _ _ _ Pu _ _ _].
        destruct (rebuild_pool_spec ips reserved p Wi Wr Wp) as (_ & _ & _ & _ & R1 & _). rewrite R1, Pu.
        intros [[_ Hm] _]. by eapply Ho.
    - intros k q Hk Hne. rewrite Hps' in Hk by done. destruct (pools f s !! k) as [p|] eqn:Hp; [|done].
      injection Hk as <-. by exists p.
    - intros k p Hp Hne. rewrite Hps', Hp by done. done. }
  exists s'. split; [done|]. rewrite Ef, Eo.
  split; [|split; [done|split; [|split; [done|split; [done|split; [done|]]]]]].
  - apply (inv_step f s); [done| |done|].
    + rewrite Ef. split; [done|]. intros nic ip'. cbn [x' fNicToIP fCIDR]. rewrite keep_nics_Some. intros [Hnic Hk].
      destruct (Hni _ _ Hnic) as [Hc _]. split; [done|]. split; [done|]. left.
      rewrite IPRangeList_Contains_mem in Hk by auto with ip. by apply bool_decide_eq_true in Hk.
    + rewrite Eps. apply map_eq. intros k. rewrite lookup_fmap. unfold pools. rewrite lookup_fmap.
      destruct (decide (k = "")) as [->|Hne].
      * rewrite lookup_insert_eq, Hd. cbn. f_equal. by destruct f.
      * rewrite lookup_insert_ne, Hps by done. destruct (sIPPools s !! k); [|done]. cbn. f_equal. by destruct f.
  - intros [O1 O2 O3]. constructor; cbn [x' fNicToIP fUsing fIPToPod].
    + intros nic ip' [Hnic Hk]%keep_nics_Some. destruct (Hni _ _ Hnic) as [Hc _].
      rewrite IPRangeList_Contains_mem in Hk by auto with ip. apply bool_decide_eq_true in Hk.
      apply Mu. split; [by eapply O1|done].
    + intros n1 n2 ip' [? _]%keep_nics_Some [? _]%keep_nics_Some. by eapply O2.
    + intros nic ip' [Hnic Hk]%keep_nics_Some. rewrite keep_pods_lookup; [by eapply O3|].
      intros nic2 ip2 Hn2 Hk2 E. destruct (Hni _ _ Hnic) as [Hc _], (Hni _ _ Hn2) as [Hc2 _].
      rewrite (IP_String_canon_inj _ _ Hc2 Hc E) in Hk2. congruence.
  - intros nic. cbn [x' fNicToIP]. destruct (keep_nics ips (fNicToIP x) !! nic) as [i|] eqn:E; [|by right].
    left. by apply keep_nics_Some in E as [-> _].
Qed.

(** ** Updating an existing subnet *)

Lemma drop_macs_view s : same_view s (drop_macs order s).
Proof. unfold drop_macs. split; intros; by view. Qed.

Lemma set_protocol_view p s : same_view s (set_protocol p s).
Proof. split; intros []; by destruct s. Qed.

(** Both states satisfy the invariant and ownership is passed on. *)
Definition keeps (s s' : Subnet) : Prop := inv s' /\ (own s -> own s').

Lemma keeps_view s s' : inv s -> same_view s s' -> keeps s s'.
Proof.
  intros H V. split; [by eapply same_view_inv|]. intros Ho f. destruct V as [-> _]. apply Ho.
Qed.

Lemma keeps_trans s1 s2 s3 : keeps s1 s2 -> keeps s2 s3 -> keeps s1 s3.
Proof. intros [_ K1] [I K2]. split; auto. Qed.

Lemma keeps_nic_step pod nic s s' : nic_step pod nic s s' -> no_comma pod -> keeps s s'.
Proof. intros [I _ _ O] Hp. split; auto. Qed.

Lemma maybe_update_ok f protocol pf cidrStr gw reserved s :
  inv s -> (protocol = ProtocolDual \/ protocol = pf -> clean_cidr cidrStr) -> wf reserved ->
  exists s', maybe_update order f protocol pf cidrStr gw reserved s = Done s' /\ keeps s s'.
Proof.
  intros H Hc Wr. unfold maybe_update. destruct (_ && _) eqn:E; [|exists s; by split].
  apply andb_true_iff in E as [E _]. apply orb_true_iff in E. rewrite !bool_decide_eq_true in E. specialize (Hc E).
  unfold clean_cidr in Hc. destruct (ParseCIDR cidrStr) as [[ip n]|] eqn:Ep; [|done].
  destruct (update_fam_ok f cidrStr gw reserved ip n s H Ep Hc Wr) as (s' & -> & I & Eo & O & _).
  exists s'. split; [done|]. split; [done|]. intros Ho. unfold own. apply (family_cases _ f); [by apply O|].
  rewrite Eo. apply Ho.
Qed.

Lemma update_subnet_ok protocol c4 c6 g4 g6 excl s :
  inv s -> (protocol = ProtocolDual \/ protocol = ProtocolIPv4 -> clean_cidr c4) ->
  (protocol = ProtocolDual \/ protocol = ProtocolIPv6 -> clean_cidr c6) -> Forall clean_entry excl ->
  exists s' e, update_subnet order protocol c4 c6 g4 g6 excl s = Done (s', e) /\ keeps s s'.
Proof.
  intros H H4 H6 Hx. unfold update_subnet. set (s0 := set_protocol protocol s).
  assert (K0 : keeps s s0) by (apply keeps_view; [done|apply set_protocol_view]).
  destruct (SplitIps_clean _ _ Hx) as [X4 X6]. destruct (SplitIpsByProtocol excl) as [e4 e6]. cbn [fst snd] in *.
  destruct (NewIPRangeListFrom e4) as [r4|e] eqn:E4; [|by exists s0, (Some e)].
  destruct (NewIPRangeListFrom_ok _ _ X4 E4) as [W4 _].
  destruct (NewIPRangeListFrom e6) as [r6|e] eqn:E6; [|by exists s0, (Some e)].
  destruct (NewIPRangeListFrom_ok _ _ X6 E6) as [W6 _].
  destruct (maybe_update_ok V4 protocol ProtocolIPv4 c4 g4 r4 s0 (proj1 K0) H4 W4) as (s1 & -> & K1).
  cbn [mbind outcome_bind].
  destruct (maybe_update_ok V6 protocol ProtocolIPv6 c6 g6 r6 s1 (proj1 K1) H6 W6) as (s2 & -> & K2).
  cbn [mbind outcome_bind]. eexists _, None. split; [done|].
  eapply keeps_trans; [exact K0|]. eapply keeps_trans; [exact K1|]. eapply keeps_trans; [exact K2|].
  apply keeps_view; [apply K2|apply drop_macs_view].
Qed.

Lemma set_gws_keeps g4 g6 s : inv s -> keeps s (set_gws g4 g6 s).
Proof.
  intros H. split.
  - intros []; destruct s; cbn; apply fam_inv_gw; [apply (H V4)|apply (H V6)].
  - intros Ho []; destruct s; cbn; [destruct (Ho V4)|destruct (Ho V6)]; by constructor.
Qed.

(** ** Static requests *)

Definition clean_static (ip : string) : Prop :=
  Forall (fun t => match NewIP t with Ok a => canon a | Err _ => True end) (Split ip ",").

Lemma parse_static_canon fam_ l ips :
  Forall (fun t => match NewIP t with Ok a => canon a | Err _ => True end) l ->
  parse_static fam_ l = Ok ips -> Forall canon ips.
Proof.
  intros H. revert ips. induction H as [|t l Ht _ IH]; intros ips; cbn [parse_static]; [by intros [= <-]|].
  destruct (NewIP t) as [a|]; [|done]. cbn [mbind result_bind]. destruct (_ && _); [done|].
  destruct (parse_static fam_ l) as [rest|]; [|done]. cbn. intros [= <-]. auto.
Qed.

Lemma shareable_space s s' ip : (forall f, same_space (fam f s) (fam f s')) -> shareable s ip -> shareable s' ip.
Proof.
  intros S. unfold shareable. set (f := if negb _ then V4 else V6). rewrite (same_hosts _ _ (S f)).
  by destruct (S f) as [_ ->].
Qed.

(** A call that keeps the invariant; ownership when nothing is shared. *)
Definition call_ok (pod : string) (cc : bool) (s s' : Subnet) : Prop :=
  inv s' /\ (forall f, same_space (fam f s) (fam f s')) /\ (cc = true -> no_comma pod -> own s -> own s').

Lemma call_ok_trans pod cc s1 s2 s3 : call_ok pod cc s1 s2 -> call_ok pod cc s2 s3 -> call_ok pod cc s1 s3.
Proof.
  intros (I1 & S1 & O1) (I2 & S2 & O2). split; [done|]. split; [|auto].
  intros f. destruct (S1 f), (S2 f). split; congruence.
Qed.

Lemma nic_step_call pod nic cc s s' : nic_step pod nic s s' -> call_ok pod cc s s'.
Proof. intros [I S _ O]. split; [done|]. split; auto. Qed.

Lemma call_ok_refl pod cc s : inv s -> call_ok pod cc s s.
Proof. intros H. by split. Qed.

Lemma take_static_ips_ok pod nic mac cc ips acc m s rnd :
  inv s -> Forall canon ips -> (cc = false -> Forall (shareable s) ips) ->
  holds (take_static_ips order pod nic mac cc ips acc m s rnd) (fun '(s', _, _) => call_ok pod cc s s').
Proof.
  intros H Hc. revert acc m s rnd H. induction Hc as [|ip ips Hip _ IH]; intros acc m s rnd H Hsh; [by apply call_ok_refl|].
  cbn [take_static_ips]. apply holds_bind.
  eapply holds_mono; [apply (GetStaticAddress_step (order IPPool) (order_ok IPPool)); [done|done|]|].
  { intros Hcc. by specialize (Hsh Hcc); inversion Hsh. }
  intros [[s1 rnd1] r] (I1 & S1 & N1).
  assert (C1 : call_ok pod cc s s1) by (split; [done|]; split; [done|]; intros Hcc Hp Ho; by apply N1).
  destruct r as [[ipAddr m']|e].
  - eapply holds_mono; [apply IH; [done|]|].
    + intros Hcc. specialize (Hsh Hcc). inversion Hsh; subst. eapply Forall_impl; [done|].
      intros i. by apply shareable_space.
    + intros [[s2 rnd2] r2] C2. by eapply call_ok_trans.
  - destruct (negb _); [|done].
    destruct (ReleaseAddressWithNicName_step (order IPPool) (order_ok IPPool) pod nic s1 I1) as (s2 & -> & N2).
    cbn. eapply call_ok_trans; [done|]. by eapply nic_step_call.
Qed.

(** The addresses taken are as many as the addresses asked for. *)
Lemma take_static_ips_length pod nic mac cc ips acc m s rnd s' rnd' ips' m' :
  take_static_ips order pod nic mac cc ips acc m s rnd = Done (s', rnd', Ok (ips', m')) ->
  length ips' = (length acc + length ips)%nat.
Proof.
  revert acc m s rnd. induction ips as [|ip ips IH]; intros acc m s rnd; cbn [take_static_ips].
  { intros [= _ _ <- _]. cbn. lia. }
  destruct (GetStaticAddress _ _ _ _ _ _ _ _ _) as [[[s1 rnd1] [[a m1]|e]]| |]; cbn; try done.
  - intros E%IH. rewrite length_app in E. cbn in E. lia.
  - destruct (negb _); [|done]. by destruct (ReleaseAddressWithNicName _ _ _ _).
Qed.

Lemma parse_static_length fam_ l ips : parse_static fam_ l = Ok ips -> length ips = length l.
Proof.
  revert ips. induction l as [|t l IH]; intros ips; cbn [parse_static]; [by intros [= <-]|].
  destruct (NewIP t); [|done]. cbn. destruct (_ && _); [done|]. destruct (parse_static fam_ l); [|done]. cbn.
  intros [= <-]. cbn. f_equal. auto.
Qed.

Lemma holds_and {A} (o : outcome A) (P Q : A -> Prop) :
  holds o P -> (forall a, o = Done a -> Q a) -> holds o (fun a => P a /\ Q a).
Proof. destruct o; simpl; auto. Qed.

Lemma get_random_call f k pod nic mac sk cc cc' s rnd : inv s -> clean_skipped sk ->
  holds (get_random (order IPPool) f k pod nic mac sk cc s rnd) (fun '(s', _, _) => call_ok pod cc' s s').
Proof.
  intros H Hsk. eapply holds_mono; [by apply (get_random_spec (order IPPool) (order_ok IPPool))|].
  intros [[s1 rnd1] r] [A _]. eapply nic_step_call, alloc_nic_step, A.
Qed.

Lemma checkAndAppend_ok ips m pod nic cc s rnd : inv s -> (length ips > 0)%nat ->
  holds (checkAndAppendIpsForDual order ips m pod nic cc s rnd) (fun '(s', _, _) => call_ok pod cc s s').
Proof.
  intros H Hl. unfold checkAndAppendIpsForDual. destruct (_ || _); [by apply call_ok_refl|].
  destruct ips as [|ip ips]; [cbn in Hl; lia|]. cbn [lookup list_lookup of_option mbind outcome_bind].
  assert (Hnil : clean_skipped []) by constructor.
  destruct (bool_decide _); [|destruct (bool_decide _)]; [| |by apply call_ok_refl].
  - apply holds_bind. eapply holds_mono; [by apply (get_random_call V6)|]. by intros [[s1 rnd1] r].
  - apply holds_bind. eapply holds_mono; [by apply (get_random_call V4)|]. by intros [[s1 rnd1] r].
Qed.

(** The shared addresses of a static request are usable ones. *)
Definition share_ok (ip : string) (cc : bool) (s : Subnet) : Prop :=
  cc = false -> Forall (fun t => match NewIP t with Ok a => shareable s a | Err _ => True end) (Split ip ",").

Lemma parse_static_share s fam_ l ips :
  Forall (fun t => match NewIP t with Ok a => shareable s a | Err _ => True end) l ->
  parse_static fam_ l = Ok ips -> Forall (shareable s) ips.
Proof.
  intros H. revert ips. induction H as [|t l Ht _ IH]; intros ips; cbn [parse_static]; [by intros [= <-]|].
  destruct (NewIP t) as [a|]; [|done]. cbn [mbind result_bind]. destruct (_ && _); [done|].
  destruct (parse_static fam_ l) as [rest|]; [|done]. cbn. intros [= <-]. auto.
Qed.

Lemma static_body_ok pod nic ip mac fam_ cc s rnd :
  inv s -> clean_static ip -> share_ok ip cc s ->
  holds (static_body order pod nic ip mac fam_ cc s rnd) (fun '(s', _, _) => call_ok pod cc s s').
Proof.
  intros H Hc Hsh. unfold static_body. destruct (_ && _).
  { apply holds_bind. eapply holds_mono;
      [apply (GetRandomAddressWithFamily_step (order IPPool) (order_ok IPPool)); [done|constructor]|].
    intros [[s1 rnd1] r] N. cbn. by eapply nic_step_call. }
  destruct (parse_static fam_ (Split ip ",")) as [ips|e] eqn:Ep; [|by apply call_ok_refl].
  pose proof (parse_static_canon _ _ _ Hc Ep) as Hcan. pose proof (parse_static_length _ _ _ Ep) as Hlen.
  assert (Hne : (length ips > 0)%nat).
  { rewrite Hlen. pose proof (split_skip_nonempty "," 0 ip) as Hn. unfold Split. destruct (split_skip "," 0 ip); [done|cbn; lia]. }
  apply holds_bind. eapply holds_mono.
  { apply (holds_and _ (fun '(s', _, _) => call_ok pod cc s s') (fun '(s', _, r) => match r with Ok (l, _) => (length l > 0)%nat | Err _ => True end)).
    - apply take_static_ips_ok; [done|done|]. intros Hcc. by apply (parse_static_share s fam_ (Split ip ",")); [apply Hsh|].
    - intros [[s1 rnd1] [[l m]|e]] E; [|done]. apply take_static_ips_length in E. cbn in E. lia. }
  intros [[s1 rnd1] [[l m]|e]] [C1 Hl]; [|done]. apply holds_bind. eapply holds_mono.
  { instantiate (1 := fun '(s', _, _) => call_ok pod cc s1 s').
    destruct (bool_decide _); [apply checkAndAppend_ok; [apply C1|done]|]. apply call_ok_refl, C1. }
  intros [[s2 rnd2] [l'|e]] C2; cbn; by eapply call_ok_trans.
Qed.

(** ** Adding or updating a subnet *)

Lemma clean_cidr_String n : clean_net n -> clean_cidr (IPNet_String n).
Proof. intros H. unfold clean_cidr. by rewrite (ParseCIDR_IPNet_String _ H). Qed.

Lemma CheckProtocol_dual s : CheckProtocol s = ProtocolDual -> exists a b, Split s "," = [a; b].
Proof.
  unfold CheckProtocol. destruct (bool_decide _); [done|]. destruct (Split s ",") as [|a [|b [|]]]; eauto;
    (destruct (isNil _); [done|]; destruct (negb _); [done|]; by destruct (negb _)).
Qed.

Lemma cidr_gws_ok protocol cidrStr gw name ns :
  protocol = CheckProtocol cidrStr -> parse_cidrs (Split cidrStr ",") = Ok ns -> Forall clean_net ns ->
  length ns = length (Split cidrStr ",") ->
  exists r, cidr_gws protocol gw name ns = Done r /\
    match r with
    | Ok (c4, c6, _, _) => (protocol = ProtocolDual \/ protocol = ProtocolIPv4 -> clean_cidr c4) /\
                           (protocol = ProtocolDual \/ protocol = ProtocolIPv6 -> clean_cidr c6)
    | Err _ => True
    end.
Proof.
  intros Hp Ep Hn Hl. unfold cidr_gws.
  assert (H0 : exists n ns', ns = n :: ns').
  { pose proof (split_skip_nonempty "," 0 cidrStr) as Hne. unfold Split in Hl.
    destruct ns as [|n ns']; [by destruct (split_skip "," 0 cidrStr)|]. by exists n, ns'. }
  destruct H0 as (n & ns' & ->). apply Forall_cons in Hn as [Hn Hns].
  destruct (bool_decide_reflect (protocol = ProtocolDual)) as [E|E].
  { subst protocol. destruct (CheckProtocol_dual _ E) as (a & b & Es). rewrite Es in Hl.
    destruct ns' as [|n' [|]]; try done. apply Forall_cons in Hns as [Hn' _].
    cbn. destruct (Split gw ",") as [|g4 [|g6 [|]]]; eexists; (split; [done|]); [done|done| |done].
    by split; intros _; apply clean_cidr_String. }
  destruct (bool_decide_reflect (protocol = ProtocolIPv4)) as [E4|E4].
  { cbn. eexists. split; [done|]. split; [intros _; by apply clean_cidr_String|]. rewrite E4. by intros [|]. }
  destruct (bool_decide_reflect (protocol = ProtocolIPv6)) as [E6|E6].
  { cbn. eexists. split; [done|]. split; [|intros _; by apply clean_cidr_String]. rewrite E6. by intros [|]. }
  destruct (bool_decide _); eexists; (split; [done|]); [done|]. split; intros [|]; done.
Qed.

(** ** The table *)

Definition table_inv (ipam : IPAM) : Prop := forall k s, ipam !! k = Some s -> inv s.
Definition table_own (ipam : IPAM) : Prop := forall k s, ipam !! k = Some s -> own s.

Lemma table_insert k s' ipam : table_inv ipam -> inv s' -> table_inv (<[k := s']> ipam).
Proof. intros H Hs j s [[<- <-]|[_ Hj]]%lookup_insert_Some; [done|by eapply H]. Qed.

Lemma table_own_insert k s' ipam : table_own ipam -> own s' -> table_own (<[k := s']> ipam).
Proof. intros H Hs j s [[<- <-]|[_ Hj]]%lookup_insert_Some; [done|by eapply H]. Qed.

(** The table after a call, for every outcome of the call. *)
Definition table_keeps (ipam ipam' : IPAM) : Prop := table_inv ipam' /\ (table_own ipam -> table_own ipam').

Lemma table_keeps_insert ipam k s s' : table_inv ipam -> ipam !! k = Some s -> keeps s s' ->
  table_keeps ipam (<[k := s']> ipam).
Proof.
  intros H Hk [I O]. split; [by apply table_insert|]. intros Ho. apply table_own_insert; [done|]. apply O. by eapply Ho.
Qed.

Lemma table_keeps_fresh ipam k s' : table_inv ipam -> inv s' -> own s' -> table_keeps ipam (<[k := s']> ipam).
Proof. intros H I O. split; [by apply table_insert|]. intros Ho. by apply table_own_insert. Qed.

Lemma AddOrUpdateSubnet_ok name cidrStr gw ex ipam :
  table_inv ipam -> (cidrStr <> "" -> clean_blocks cidrStr) -> Forall clean_exclude ex ->
  exists ipam' e, AddOrUpdateSubnet order name cidrStr gw ex ipam = Done (ipam', e) /\ table_keeps ipam ipam'.
Proof.
  intros H Hc Hx. unfold AddOrUpdateSubnet. destruct (bool_decide_reflect (cidrStr = "")) as [E|E].
  { destruct (ipam !! name) as [s|] eqn:Hs.
    - destruct (fCIDR (sV4 s)), (fCIDR (sV6 s)); eexists _, _; (split; [done|]); try by split.
      eapply table_keeps_insert; [done..|]. apply keeps_view; [by eapply H|apply set_protocol_view].
    - eexists _, _. split; [done|]. destruct (NewMacOnlySubnet_fresh name) as (I & O & _). by apply table_keeps_fresh. }
  specialize (Hc E). pose proof (clean_blocks_Forall _ Hc) as Hall.
  destruct (ExpandExcludeIPs_clean ex cidrStr Hall Hx) as (excl & -> & Hex). cbn [mbind outcome_bind].
  destruct (parse_cidrs_clean _ Hall) as (ns & Ens & H2). rewrite Ens.
  assert (Hns : Forall clean_net ns) by (clear -H2; induction H2 as [|? ? ? ? [_ ?]]; constructor; auto).
  destruct (cidr_gws_ok _ cidrStr gw name ns eq_refl Ens Hns (eq_sym (Forall2_length _ _ _ H2))) as (r & -> & Hr).
  cbn [mbind outcome_bind]. destruct r as [[[[c4 c6] g4] g6]|e]; [|by eexists _, _; split].
  destruct Hr as [H4 H6]. destruct (ipam !! name) as [s|] eqn:Hs.
  - destruct (update_subnet_ok (CheckProtocol cidrStr) c4 c6 g4 g6 excl s) as (s' & e & -> & K); [by eapply H|done..|].
    cbn. eexists _, _. split; [done|]. by eapply table_keeps_insert.
  - destruct (NewSubnet_fresh name cidrStr excl Hc) as (r & -> & Hr).
    { eapply Forall_impl; [exact Hex|]. by right. }
    cbn. destruct r as [s|e]; [|by eexists _, _; split]. destruct Hr as [(I & O & _) _].
    eexists _, _. split; [done|]. destruct (set_gws_keeps g4 g6 s I) as [I' O']. apply table_keeps_fresh; auto.
Qed.

Lemma on_all_ok op l ipam0 ipam :
  (forall s, inv s -> exists s', op s = Done s' /\ inv s' /\ (own s -> own s')) ->
  table_inv ipam0 -> (forall k s, (k, s) ∈ l -> ipam0 !! k = Some s) -> table_keeps ipam0 ipam ->
  exists ipam', on_all op l ipam = Done ipam' /\ table_keeps ipam0 ipam'.
Proof.
  intros Hop H0. revert ipam. induction l as [|[k s] l IH]; intros ipam Hl K; [by exists ipam|].
  cbn [on_all]. pose proof (Hl k s ltac:(left)) as Hk.
  destruct (Hop s (H0 _ _ Hk)) as (s' & -> & I & O). cbn [mbind outcome_bind].
  apply IH; [intros ? ? ?; apply Hl; by right|]. destruct K as [K1 K2]. split; [by apply table_insert|].
  intros Ho. apply table_own_insert; [by apply K2|]. apply O. by eapply Ho.
Qed.

Lemma on_subnets_ok op name ipam :
  (forall s, inv s -> exists s', op s = Done s' /\ inv s' /\ (own s -> own s')) -> table_inv ipam ->
  exists ipam', on_subnets order op name ipam = Done ipam' /\ table_keeps ipam ipam'.
Proof.
  intros Hop H. unfold on_subnets. destruct (negb _).
  - destruct (ipam !! name) as [s|] eqn:Hs; [|by eexists; split].
    destruct (Hop s (H _ _ Hs)) as (s' & -> & K). cbn. eexists. split; [done|]. by eapply table_keeps_insert.
  - apply (on_all_ok op _ ipam); [done|done| |done]. intros k s. apply elem_of_order.
Qed.

Lemma release_pod_op pod s : no_comma pod -> inv s ->
  exists s', ReleaseAddress (order IPPool) pod s = Done s' /\ inv s' /\ (own s -> own s').
Proof.
  intros Hp H. unfold ReleaseAddress.
  destruct (release_nics_step (order IPPool) (order_ok IPPool) pod (go_get [] (sPodToNicList s) pod) s H) as (s' & E & [I _ _ O]).
  exists s'. auto.
Qed.

Lemma release_nic_op pod nic s : no_comma pod -> inv s ->
  exists s', ReleaseAddressWithNicName (order IPPool) pod nic s = Done s' /\ inv s' /\ (own s -> own s').
Proof.
  intros Hp H. destruct (ReleaseAddressWithNicName_step (order IPPool) (order_ok IPPool) pod nic s H) as (s' & E & [I _ _ O]).
  exists s'. auto.
Qed.

End Update.

(** ** Requests

    The calls that change the table, as data. *)
Inductive request :=
  | ReqRandom (podName nicName : string) (mac : option string) (subnetName poolName ipFamily : string)
      (skippedAddrs : list string) (checkConflict : bool)
  | ReqStatic (podName nicName ip : string) (mac : option string) (subnetName ipFamily : string) (checkConflict : bool)
  | ReqReleasePod (podName subnetName : string)
  | ReqReleaseNic (podName nicName subnetName : string)
  | ReqSubnet (name cidrStr gw : string) (excludeIps : list string)
  | ReqDeleteSubnet (name : string)
  | ReqPool (subnet ippool : string) (ips : list string)
  | ReqRemovePool (subnet ippool : string)
  | ReqGatewayMAC (subnetName gatewayMAC : string).

(** One call; the result of the call is dropped, the table and the draws that
    are left are kept. *)
Definition serve (order : forall A, gmap string A -> list (string * A)) (q : request) (ipam : IPAM) (rnd : list bytes)
    : outcome (IPAM * list bytes) :=
  match q with
  | ReqRandom pod nic mac sn pool f sk cc =>
      '(ipam', rnd', _) ← IPAM_GetRandomAddressWithFamily order pod nic mac sn pool f sk cc ipam rnd; Done (ipam', rnd')
  | ReqStatic pod nic ip mac sn f cc =>
      '(ipam', rnd', _) ← IPAM_GetStaticAddressWithFamily order pod nic ip mac sn f cc ipam rnd; Done (ipam', rnd')
  | ReqReleasePod pod sn => ipam' ← ReleaseAddressByPod order pod sn ipam; Done (ipam', rnd)
  | ReqReleaseNic pod nic sn => ipam' ← ReleaseAddressByNic order pod nic sn ipam; Done (ipam', rnd)
  | ReqSubnet name c gw ex => '(ipam', _) ← AddOrUpdateSubnet order name c gw ex ipam; Done (ipam', rnd)
  | ReqDeleteSubnet name => Done (DeleteSubnet name ipam, rnd)
  | ReqPool sn p ips => '(ipam', _) ← IPAM_AddOrUpdateIPPool order sn p ips ipam; Done (ipam', rnd)
  | ReqRemovePool sn p => ipam' ← IPAM_RemoveIPPool sn p ipam; Done (ipam', rnd)
  | ReqGatewayMAC sn m => Done (fst (RecordGatewayMAC sn m ipam), rnd)
  end.

(** ** The draws of a request *)

(** The MACs a request may have to draw: one for a random request, one per
    address for a static one. *)
Definition demand (q : request) : nat :=
  match q with
  | ReqRandom _ _ _ _ _ _ _ _ => 1
  | ReqStatic _ _ ip _ _ _ _ => length (Split ip ",")
  | _ => 0
  end.

(** The subnet a request is about. *)
Definition subnet_of (q : request) : string :=
  match q with
  | ReqRandom _ _ _ sn _ _ _ _ | ReqStatic _ _ _ _ sn _ _ | ReqReleasePod _ sn | ReqReleaseNic _ _ sn
  | ReqSubnet sn _ _ _ | ReqDeleteSubnet sn | ReqPool sn _ _ | ReqRemovePool sn _ | ReqGatewayMAC sn _ => sn
  end.

Lemma take_static_draws order pod nic mac cc s0 staticIPs ips m s rnd : (mac = None -> macs_from nic s0 s) ->
  draws (length staticIPs) s0 rnd (take_static_ips order pod nic mac cc staticIPs ips m s rnd) (fun _ _ => True).
Proof.
  revert ips m s rnd. induction staticIPs as [|ip l IH]; intros ips m s rnd H; [by apply draws_done|].
  cbn [take_static_ips length]. apply (draws_bind 1 (length l) _ _ _ _ _ _ (GetStaticAddress_draws _ _ _ _ _ _ _ _ _ _ H)).
  intros s1 rnd1 [[a m1]|e] H1; [by apply IH|]. destruct (negb _); [|by split; [lia|]].
  pose proof (release_nic_draws (order IPPool) pod nic s1). destruct (ReleaseAddressWithNicName _ _ _ _); [|done..].
  by split; [lia|].
Qed.

Lemma append_dual_draws order ips m pod nic cc s0 s rnd :
  draws 0 s0 rnd (checkAndAppendIpsForDual order ips m pod nic cc s rnd) (fun _ _ => True).
Proof.
  unfold checkAndAppendIpsForDual, getV4RandomAddress, getV6RandomAddress.
  destruct (_ || _); [by apply draws_done|]. destruct (ips !! 0%nat); [|done]. cbn [of_option mbind outcome_bind].
  repeat destruct (bool_decide _); try by apply draws_done.
  all: eapply (draws_bind 0 0); [apply get_given_draws|]; intros; by apply draws_done.
Qed.

Lemma static_body_draws order pod nic ip mac f cc s rnd :
  draws (length (Split ip ",")) s rnd (static_body order pod nic ip mac f cc s rnd) (fun _ _ => True).
Proof.
  unfold static_body. destruct (_ && _) eqn:Eb.
  { apply andb_true_iff in Eb as [->%bool_decide_eq_true _].
    eapply (draws_bind 1 0); [apply GetRandomAddress_draws|]. intros. by apply draws_done. }
  destruct (parse_static f (Split ip ",")) as [l|] eqn:El; [|by split; [lia|]].
  rewrite <- (parse_static_length _ _ _ El), <- (Nat.add_0_r (length l)).
  eapply draws_bind; [by apply take_static_draws; intros; apply macs_from_refl|].
  intros s1 rnd1 [[a m]|] _; [|by apply draws_done].
  eapply (draws_bind 0 0); [|intros s2 rnd2 [] _; by apply draws_done].
  instantiate (1 := fun _ _ => True). destruct (bool_decide (f = "")); [apply append_dual_draws|by apply draws_done].
Qed.

Lemma Split_pos t : (0 < length (Split t ","))%nat.
Proof. pose proof (split_skip_nonempty "," 0 t). unfold Split. destruct (split_skip _ _ _); cbn; [done|lia]. Qed.

(** A request that waits for randomness is an allocation in a subnet for
    which fewer draws are fresh than it may need. *)
Lemma alloc_draws order q ipam rnd : (0 < demand q)%nat -> serve order q ipam rnd = Starved ->
  exists s, ipam !! subnet_of q = Some s /\ (fresh_draws s rnd < demand q)%nat.
Proof.
  intros Hd. destruct q; try by (cbn in Hd; lia).
  all: cbn [serve demand subnet_of]; unfold IPAM_GetRandomAddressWithFamily, IPAM_GetStaticAddressWithFamily.
  all: destruct (validateRequestedIPFamily _); [done|]; destruct (ipam !! subnetName) as [s|]; [|done].
  - pose proof (GetRandomAddress_draws (order IPPool) poolName podName nicName mac (NormalizeIPFamily ipFamily)
      skippedAddrs checkConflict s rnd) as Hs.
    destruct (GetRandomAddressWithFamily _ _ _ _ _ _ _ _ _ _) as [[[? ?] ?]| |]; [done..|]. by exists s.
  - pose proof (static_body_draws order podName nicName ip mac (NormalizeIPFamily ipFamily) checkConflict s rnd) as Hs.
    destruct (static_body _ _ _ _ _ _ _ _ _) as [[[? ?] ?]| |]; [done..|]. by exists s.
Qed.

(** The texts of a request denote ordinary addresses and networks. *)
Definition clean_request (ipam : IPAM) (q : request) : Prop :=
  match q with
  | ReqRandom pod _ _ _ _ _ sk _ => no_comma pod /\ clean_skipped sk
  | ReqStatic pod _ ip _ sn _ cc =>
      no_comma pod /\ clean_static ip /\ forall s, ipam !! sn = Some s -> share_ok ip cc s
  | ReqReleasePod pod _ | ReqReleaseNic pod _ _ => no_comma pod
  | ReqSubnet _ c _ ex => (c <> "" -> clean_blocks c) /\ Forall clean_exclude ex
  | ReqDeleteSubnet _ | ReqGatewayMAC _ _ => True
  | ReqPool _ p ips => p <> "" /\ Forall clean_entry ips
  | ReqRemovePool _ p => p <> ""
  end.

(** No sharing: static requests check for conflicts. *)
Definition exclusive (q : request) : Prop :=
  match q with ReqStatic _ _ _ _ _ _ cc => cc = true | _ => True end.

(** ** The allocator as a transition system

    A state of the system is a table of subnets; a step serves one request
    with some iteration order of the Go maps and some draws of the random
    source.  The invariant holds in every reachable state. *)

(** ** Iteration orders

    What the Go specification promises of ranging over a map: every entry is
    visited once, in some order. *)
Class GoOrder (order : forall A, gmap string A -> list (string * A)) : Prop :=
  go_order : forall A (m : gmap string A), order A m ≡ₚ map_to_list m.

#[global] Instance map_to_list_order : GoOrder (fun A => map_to_list).
Proof. by intros A m. Qed.

#[global] Instance reverse_order : GoOrder (fun A m => reverse (map_to_list m)).
Proof. intros A m. apply reverse_Permutation. Qed.

Section System.

Context (order : forall A, gmap string A -> list (string * A)) `{GoOrder order}.

Lemma call_table pod cc ipam k s s' (P : Prop) :
  table_inv ipam -> ipam !! k = Some s -> call_ok pod cc s s' -> no_comma pod -> (P -> cc = true) ->
  table_inv (<[k := s']> ipam) /\ (P -> table_own ipam -> table_own (<[k := s']> ipam)).
Proof.
  intros Hi Hk (I & _ & O) Hp Hcc. split; [by apply table_insert|]. intros HP Ho.
  apply table_own_insert; [done|]. apply O; auto. by eapply Ho.
Qed.

(** A clean request does not panic and keeps the invariant. *)
Lemma serve_keeps q ipam rnd : table_inv ipam -> clean_request ipam q ->
  holds (serve order q ipam rnd) (fun '(ipam', _) =>
    table_inv ipam' /\ (exclusive q -> table_own ipam -> table_own ipam')).
Proof.
  intros Hi Hq.
  assert (Hsame : table_inv ipam /\ (exclusive q -> table_own ipam -> table_own ipam)) by done.
  assert (Hk : forall ipam', table_keeps ipam ipam' -> table_inv ipam' /\ (exclusive q -> table_own ipam -> table_own ipam'))
    by (intros ipam' [? ?]; auto).
  destruct q as [pod nic mac sn pool f sk cc|pod nic ip mac sn f cc|pod sn|pod nic sn|name c gw ex|name|sn p ips|sn p|sn m];
    cbn [serve clean_request] in *.
  - destruct Hq as [Hp Hsk]. unfold IPAM_GetRandomAddressWithFamily. apply holds_bind.
    destruct (validateRequestedIPFamily _); [done|]. destruct (ipam !! sn) as [s|] eqn:Hs; [|done].
    apply holds_bind. eapply holds_mono; [apply (GetRandomAddressWithFamily_step _ (go_order IPPool)); [by eapply Hi|done]|].
    intros [[s' rnd'] r] N. cbn [holds]. eapply (call_table pod true); [done|done|by eapply nic_step_call|done|done].
  - destruct Hq as (Hp & Hst & Hsh). unfold IPAM_GetStaticAddressWithFamily. apply holds_bind.
    destruct (validateRequestedIPFamily _); [done|]. destruct (ipam !! sn) as [s|] eqn:Hs; [|done].
    apply holds_bind. eapply holds_mono; [apply (static_body_ok order go_order); [by eapply Hi|done|by apply Hsh]|].
    intros [[s' rnd'] r] C. cbn [holds]. by eapply (call_table pod cc).
  - unfold ReleaseAddressByPod. destruct (on_subnets_ok order go_order (ReleaseAddress (order IPPool) pod) sn ipam) as (ipam' & -> & K);
      [intros s; by apply (release_pod_op order go_order)|done|]. cbn. auto.
  - unfold ReleaseAddressByNic. destruct (on_subnets_ok order go_order (ReleaseAddressWithNicName (order IPPool) pod nic) sn ipam) as (ipam' & -> & K);
      [intros s; by apply (release_nic_op order go_order)|done|]. cbn. auto.
  - destruct Hq as [Hc Hx]. destruct (AddOrUpdateSubnet_ok order go_order name c gw ex ipam Hi Hc Hx) as (ipam' & e & -> & K). cbn. auto.
  - cbn. unfold DeleteSubnet. split.
    + intros k s [_ Hs]%lookup_delete_Some. by eapply Hi.
    + intros _ Ho k s [_ Hs]%lookup_delete_Some. by eapply Ho.
  - destruct Hq as [Hp Hc]. unfold IPAM_AddOrUpdateIPPool. destruct (ipam !! sn) as [s|] eqn:Hs; [|done].
    destruct (AddOrUpdateIPPool_inv _ (go_order IPPool) p ips s) as (s' & e & -> & I & Ef & _); [by eapply Hi|done|done|].
    cbn. apply Hk. eapply table_keeps_insert; [done|done|]. split; [done|]. intros Ho g. rewrite Ef. apply Ho.
  - unfold IPAM_RemoveIPPool. destruct (ipam !! sn) as [s|] eqn:Hs; [|done].
    destruct (RemoveIPPool_inv p s) as (s' & -> & I & Ef); [by eapply Hi|done|].
    cbn. apply Hk. eapply table_keeps_insert; [done|done|]. split; [done|]. intros Ho g. rewrite Ef. apply Ho.
  - unfold RecordGatewayMAC. destruct (ipam !! sn) as [s|] eqn:Hs; [|done]. destruct s. cbn. apply Hk.
    eapply table_keeps_insert; [done|done|]. apply keeps_view; [by eapply Hi|]. by split; intros [].
Qed.

End System.

(** ** Reachable tables *)

(** One step: a clean request, served with some order and some draws. *)
Inductive step (ok : request -> Prop) (ipam : IPAM) : IPAM -> Prop :=
  | step_serve order q rnd ipam' rnd' :
      GoOrder order -> ok q -> clean_request ipam q -> serve order q ipam rnd = Done (ipam', rnd') ->
      step ok ipam ipam'.

Definition reachable (ok : request -> Prop) (ipam : IPAM) : Prop := rtc (step ok) NewIPAM ipam.

Lemma table_inv_new : table_inv NewIPAM.
Proof. by intros k s. Qed.

Lemma table_own_new : table_own NewIPAM.
Proof. by intros k s. Qed.

Lemma step_inv ok ipam ipam' : table_inv ipam -> step ok ipam ipam' ->
  table_inv ipam' /\ ((forall q, ok q -> exclusive q) -> table_own ipam -> table_own ipam').
Proof.
  intros Hi [order q rnd ipam'' rnd' Ho Hok Hc E]. pose proof (serve_keeps order q ipam rnd Hi Hc) as Hk.
  rewrite E in Hk. destruct Hk as [I O]. split; [done|]. intros Hex. by apply O, Hex.
Qed.

Lemma reachable_table ok ipam : reachable ok ipam ->
  table_inv ipam /\ ((forall q, ok q -> exclusive q) -> table_own ipam).
Proof.
  unfold reachable. intros Hr.
  assert (Hg : forall x, rtc (step ok) x ipam -> table_inv x -> ((forall q, ok q -> exclusive q) -> table_own x) ->
    table_inv ipam /\ ((forall q, ok q -> exclusive q) -> table_own ipam)).
  { clear Hr. intros x Hr. induction Hr as [|x y z Hs _ IH]; intros I O; [done|].
    destruct (step_inv ok x y I Hs) as [I' O']. apply IH; auto. }
  apply (Hg NewIPAM Hr table_inv_new). intros _. apply table_own_new.
Qed.
