(* ===== verification/IpPool.v ===== *)
(** * [pkg/util/ippool.go] and [ToCIDRs]: pool entries as CIDR blocks

    The entries of an IP pool (addresses, ranges, CIDRs) are turned into the
    CIDR blocks of an OVN address set.  [IPRangeToCIDRs] splits a range
    greedily; [ToCIDRs] of [pkg/ipam/ip_range_list.go] carries its own copy of
    the loop. *)
From stdpp Require Import sorting.
From Stdlib Require Import Ascii.
From S2P Require Import Prelude.
From S2P Require Import GoStrings.
From S2P Require Import GoNet.
From S2P Require Import Ip.
From S2P Require Import IpRange.
From S2P Require Import IpRangeList.

Local Open Scope Z_scope.

(** ** Sorting strings *)

(** The order of [sort.Strings]: bytewise. *)
Fixpoint str_leb (a b : string) : bool :=
  match a, b with
  | EmptyString, _ => true
  | String _ _, EmptyString => false
  | String x a', String y b' =>
      if code x <? code y then true else if code y <? code x then false else str_leb a' b'
  end.

Definition str_le (a b : string) : Prop := str_leb a b = true.

#[global] Instance str_le_dec : RelDecision str_le.
Proof. intros a b. unfold str_le. apply _. Defined.

Definition sort_Strings (l : list string) : list string := merge_sort str_le l.

(** ** Blocks of a range *)

Fixpoint count_zeros (fuel : nat) (value zeros totalBits : Z) : Z :=
  match fuel with
  | O => zeros
  | S k => if (zeros <? totalBits) && negb (Z.testbit value zeros)
           then count_zeros k value (zeros + 1) totalBits else zeros
  end.

(** The loop runs at most [totalBits] times. *)
Definition countTrailingZeros (value totalBits : Z) : Z :=
  if value =? 0 then totalBits else count_zeros (Z.to_nat totalBits) value 0 totalBits.

(** [BitLen] of a [big.Int]. *)
Definition BitLen (z : Z) : Z := if z =? 0 then 0 else Z.log2 (Z.abs z) + 1.

Definition ipToBigInt (ip : netIP) : Z := be_val ip.

Definition bigIntToIP (value : Z) (len : nat) : netIP :=
  let b := big_Bytes value in
  let b' := if (length b <? len)%nat then replicate (len - length b) 0 ++ b
            else if (len <? length b)%nat then drop (length b - len) b
            else b in
  if (len =? 4)%nat then To4 b' else b'.

(** The size of the block that starts at [startInt]: the whole body of the
    loop up to [size]. *)
Definition block_size (totalBits startInt endInt : Z) : result Z :=
  let zeros := countTrailingZeros startInt totalBits in
  if totalBits <? zeros
  then Err (Errorf "trailing zero count %d exceeds total bits %d" [Itoa zeros; Itoa totalBits])
  else
    let diff := endInt - startInt + 1 in
    let bits := BitLen diff in
    let maxDiff := if 0 <? bits then bits - 1 else 0 in
    let size := Z.min (Z.min zeros maxDiff) totalBits in
    if size <? 0 then Err (Errorf "calculated negative prefix size %d" [Itoa size]) else Ok size.

(** The loop; [None] when [fuel] rounds are not enough. *)
Fixpoint cidr_loop (fuel : nat) (len : nat) (totalBits startInt endInt : Z)
    : option (result (list string)) :=
  if endInt <? startInt then Some (Ok [])
  else match fuel with
       | O => None
       | S k =>
           match block_size totalBits startInt endInt with
           | Err e => Some (Err e)
           | Ok size =>
               let network := mkIPNet (bigIntToIP startInt len)
                                      (CIDRMask (Z.to_nat (totalBits / 8)) (totalBits - size)) in
               rest ← cidr_loop k len totalBits (startInt + Z.shiftl 1 size) endInt;
               Some (match rest with Ok l => Ok (IPNet_String network :: l) | Err e => Err e end)
           end
       end.

(** Enough rounds: one per bit while the blocks grow, one per bit while they
    shrink. *)
Definition rounds (totalBits : Z) : nat := Z.to_nat (2 * totalBits + 2).

Definition IPRangeToCIDRs (start end_ : netIP) : option (result (list string)) :=
  let v6 := isNil (To4 start) in
  let len := if v6 then 16%nat else 4%nat in
  let totalBits := if v6 then 128 else 32 in
  let startInt := ipToBigInt start in
  let endInt := ipToBigInt end_ in
  if endInt <? startInt
  then Some (Err (Errorf "range %s..%s start is greater than end" [netIP_String start; netIP_String end_]))
  else cidr_loop (rounds totalBits) len totalBits startInt endInt.

(** ** Entries of a pool *)

Definition NormalizeIP (value : string) : result netIP :=
  let ip := ParseIP (TrimSpace value) in
  if isNil ip then Err (Errorf "invalid IP address %q" [value])
  else if negb (isNil (To4 ip)) then Ok (To4 ip) else Ok (To16 ip).

Definition compareIP (a b : netIP) : Z := bytes_compare a b.

(** An error wrapped with [%w] keeps the message and the cause's arguments. *)
Definition wrap (fmt : string) (args : list string) (e : err) : err :=
  match e with Errorf f a => Errorf (fmt +:+ f) (args ++ a) | _ => e end.

Definition expandIPRange (value : string) : option (result (list string)) :=
  match Split value ".." with
  | [p0; p1] =>
      match NormalizeIP p0 with
      | Err e => Some (Err (wrap "invalid range start %q: " [p0] e))
      | Ok start =>
          match NormalizeIP p1 with
          | Err e => Some (Err (wrap "invalid range end %q: " [p1] e))
          | Ok end_ =>
              if negb (eqb (isNil (To4 start)) (isNil (To4 end_)))
              then Some (Err (Errorf "range %q mixes IPv4 and IPv6 addresses" [value]))
              else if 0 <? compareIP start end_
              then Some (Err (Errorf "range %q start is greater than end" [value]))
              else r ← IPRangeToCIDRs start end_;
                   Some (match r with
                         | Ok cidrs => Ok cidrs
                         | Err e => Err (wrap "failed to convert IP range %q to CIDRs: " [value] e)
                         end)
          end
      end
  | _ => Some (Err (Errorf "invalid IP range %q" [value]))
  end.

Definition normalizeCIDR (value : string) : result string :=
  match ParseCIDR value with
  | None => Err (Errorf "invalid CIDR %q: %w" [value])
  | Some (_, network) => Ok (IPNet_String network)
  end.

Definition ipToCIDR (value : string) : result string :=
  match NormalizeIP value with
  | Err e => Err (wrap "invalid IP address %q: " [value] e)
  | Ok ip => Ok (netIP_String ip +:+ "/" +:+ Itoa (if isNil (To4 ip) then 128 else 32))
  end.

Definition simplifyOVNAddress (cidr : string) : string :=
  match CutSuffix cidr "/32" with
  | Some before => before
  | None => match CutSuffix cidr "/128" with Some before => before | None => cidr end
  end.

(** The blocks of one trimmed, non-empty entry: the [switch]. *)
Definition expand_pool_entry (value : string) : option (result (list string)) :=
  if str_contains value ".." then expandIPRange value
  else if contains_char (Ascii.ascii_of_nat 47) value
  then Some (c ← normalizeCIDR value; Ok [c])
  else Some (c ← ipToCIDR value; Ok [c]).

(** The loop over the entries: the set [seen]. *)
Fixpoint expand_pool_entries (entries : list string) (seen : gset string)
    : option (result (gset string)) :=
  match entries with
  | [] => Some (Ok seen)
  | raw :: entries' =>
      let value := TrimSpace raw in
      if bool_decide (value = "") then expand_pool_entries entries' seen
      else r ← expand_pool_entry value;
           match r with
           | Err e => Some (Err e)
           | Ok cidrs => expand_pool_entries entries' (seen ∪ list_to_set cidrs)
           end
  end.

(** [hasIPv6] and [hasIPv4] of a set of blocks. *)
Definition is_v6_text (cidr : string) : bool := contains_char ":"%char cidr.

Definition expandIPPoolAddressesInternal (entries : list string) (checkMixedIPFamily : bool)
    : option (result (list string)) :=
  if (length entries =? 0)%nat then Some (Ok [])
  else
    r ← expand_pool_entries entries ∅;
    Some (match r with
          | Err e => Err e
          | Ok seen =>
              if checkMixedIPFamily && existsb (fun c => negb (is_v6_text c)) (elements seen)
                 && existsb is_v6_text (elements seen)
              then Err (Errorf "mixed IPv4 and IPv6 addresses are not supported in OVN address set" [])
              else Ok (sort_Strings (elements seen))
          end).

Definition ExpandIPPoolAddresses (entries : list string) : option (result (list string)) :=
  expandIPPoolAddressesInternal entries false.

Definition ExpandIPPoolAddressesForOVN (entries : list string) : option (result (list string)) :=
  match expandIPPoolAddressesInternal entries true with
  | Some (Ok addresses) => Some (Ok (map simplifyOVNAddress addresses))
  | other => other
  end.

Definition CanonicalizeIPPoolEntries (entries : list string) : option (result (gset string)) :=
  match ExpandIPPoolAddresses entries with
  | Some (Ok expanded) => Some (Ok (list_to_set expanded))
  | Some (Err e) => Some (Err e)
  | None => None
  end.

(** [strings.Fields], on ASCII white space: [cur] is the field being read. *)
Fixpoint fields_from (cur s : string) : list string :=
  match s with
  | EmptyString => if bool_decide (cur = "") then [] else [cur]
  | String c s' =>
      if is_space c then (if bool_decide (cur = "") then [] else [cur]) ++ fields_from "" s'
      else fields_from (cur +:+ String c EmptyString) s'
  end.

Definition Fields (s : string) : list string := fields_from "" s.

Definition NormalizeAddressSetEntries (raw : string) : gset string :=
  let clean := replace_char (Ascii.ascii_of_nat 34) "" raw in
  list_to_set (Fields (TrimSpace clean)).

Definition IPPoolAddressSetName (name : string) : string :=
  replace_char (Ascii.ascii_of_nat 45) "." name.

(** ** [ToCIDRs] *)

(** One range of the list. *)
Definition range_cidrs (r : IPRange) : option (result (list string)) :=
  let start := r_start r in
  let end_ := r_end r in
  if IP_Equal start end_ then
    let bits := if (length start =? 16)%nat then 128 else 32 in
    Some (Ok [IP_String start +:+ "/" +:+ Itoa bits])
  else
    let v6 := isNil (To4 start) in
    let len := if v6 then 16%nat else 4%nat in
    let totalBits := if v6 then 128 else 32 in
    let startInt := be_val start in
    let endInt := be_val end_ in
    if endInt <? startInt
    then Some (Err (Errorf "range %s..%s start is greater than end" [IP_String start; IP_String end_]))
    else cidr_loop (rounds totalBits) len totalBits startInt endInt.

Fixpoint ranges_cidrs (l : IPRangeList) : option (result (list string)) :=
  match l with
  | [] => Some (Ok [])
  | r :: l' =>
      c ← range_cidrs r;
      match c with
      | Err e => Some (Err e)
      | Ok cs => rest ← ranges_cidrs l';
                 Some (match rest with Ok more => Ok (cs ++ more) | Err e => Err e end)
      end
  end.

Definition ToCIDRs (l : IPRangeList) : option (result (list string)) :=
  if (IPRangeList_Len l =? 0)%nat then Some (Ok [])
  else r ← ranges_cidrs l;
       Some (match r with Ok cidrs => Ok (sort_Strings cidrs) | Err e => Err e end).
