(* ===== verification/IpPoolFacts.v ===== *)
(** * Splitting a range into CIDR blocks: exact, terminating, minimal

    Blocks are pairs of a first value and a size in bits.  The loop produces
    the greedy tiling of the range, [rounds] are enough, and no tiling by
    aligned blocks is shorter. *)
From stdpp Require Import sorting.
From S2P Require Import Prelude.
From S2P Require Import GoStrings.
From S2P Require Import GoNet.
From S2P Require Import GoNet.
From S2P Require Import GoNetText.
From S2P Require Import Ip.
From S2P Require Import IpRange.
From S2P Require Import IpRangeList.
From S2P Require Import CidrFacts.
From S2P Require Import Hosts.
From S2P Require Import IpPool.

Local Open Scope Z_scope.

(** ** Trailing zeros *)

Lemma low_bits_divide v r : 0 <= r -> (forall i, 0 <= i < r -> Z.testbit v i = false) -> (2 ^ r | v).
Proof.
  intros Hr H. apply Z.mod_divide; [pose proof (pow2_pos r); lia|].
  apply Z.bits_inj'. intros i Hi. rewrite Z.bits_0. destruct (decide (i < r)).
  - rewrite Z.mod_pow2_bits_low by lia. apply H. lia.
  - apply Z.mod_pow2_bits_high. lia.
Qed.

Lemma set_bit_not_divide v r : 0 <= r -> Z.testbit v r = true -> ~ (2 ^ (r + 1) | v).
Proof. intros Hr H [q ->]. rewrite Z.mul_pow2_bits_low in H by lia. done. Qed.

Lemma count_zeros_spec fuel v z B :
  0 <= z <= B -> B - z <= Z.of_nat fuel -> (forall i, 0 <= i < z -> Z.testbit v i = false) ->
  let r := count_zeros fuel v z B in
  z <= r <= B /\ (forall i, 0 <= i < r -> Z.testbit v i = false) /\ (r < B -> Z.testbit v r = true).
Proof.
  revert z. induction fuel as [|k IH]; intros z Hz Hf Hv; cbn [count_zeros].
  { split; [lia|]. split; [done|lia]. }
  destruct (Z.ltb_spec z B) as [Hlt|Hge]; cbn [andb].
  2:{ split; [lia|]. split; [done|lia]. }
  destruct (Z.testbit v z) eqn:E; cbn [negb]; [split; [lia|]; split; [done|done]|].
  destruct (IH (z + 1)) as (H1 & H2 & H3); [lia|lia| |split; [lia|done]].
  intros i Hi. destruct (decide (i = z)) as [->|]; [done|apply Hv; lia].
Qed.

(** The largest power of two that divides a non-zero value. *)
Lemma countTrailingZeros_spec v B : 0 <= B -> 0 <= v < 2 ^ B ->
  let z := countTrailingZeros v B in
  0 <= z <= B /\ (2 ^ z | v) /\ (v = 0 -> z = B) /\ (v <> 0 -> forall j, 0 <= j -> (2 ^ j | v) -> j <= z).
Proof.
  intros HB Hv. unfold countTrailingZeros. destruct (Z.eqb_spec v 0) as [->|Hne].
  { split; [lia|]. split; [apply Z.divide_0_r|]. split; [done|lia]. }
  destruct (count_zeros_spec (Z.to_nat B) v 0 B) as (H1 & H2 & H3); [lia..|].
  set (z := count_zeros _ _ _ _) in *. pose proof (low_bits_divide v z ltac:(lia) H2) as Hd.
  split; [lia|]. split; [done|]. split; [lia|]. intros _ j Hj Hdj.
  destruct (decide (j <= z)) as [|Hgt]; [done|exfalso].
  assert (Hz : z < B).
  { destruct (decide (z < B)); [done|]. replace z with B in Hd by lia.
    apply Z.divide_pos_le in Hd; lia. }
  apply (set_bit_not_divide v z ltac:(lia) (H3 Hz)). etransitivity; [|exact Hdj].
  exists (2 ^ (j - (z + 1))). rewrite <-Z.pow_add_r by lia. f_equal. lia.
Qed.

(** ** Tilings *)

Abbreviation block := (Z * Z)%type.

(** Aligned blocks that follow each other from [first] to [last_]. *)
Fixpoint tile (first last_ : Z) (bs : list block) : Prop :=
  match bs with
  | [] => first = last_ + 1
  | (s, k) :: bs' =>
      s = first /\ 0 <= k /\ (2 ^ k | s) /\ s + 2 ^ k - 1 <= last_ /\ tile (s + 2 ^ k) last_ bs'
  end.

(** No larger aligned block starts at [first]. *)
Definition maximal (first last_ k : Z) : Prop :=
  forall j, 0 <= j -> (2 ^ j | first) -> first + 2 ^ j - 1 <= last_ -> j <= k.

Fixpoint greedy (first last_ : Z) (bs : list block) : Prop :=
  match bs with
  | [] => first = last_ + 1
  | (s, k) :: bs' =>
      s = first /\ 0 <= k /\ (2 ^ k | s) /\ s + 2 ^ k - 1 <= last_ /\ maximal s last_ k /\ greedy (s + 2 ^ k) last_ bs'
  end.

Lemma greedy_tile first last_ bs : greedy first last_ bs -> tile first last_ bs.
Proof. revert first. induction bs as [|[s k] bs IH]; intros first; simpl; [done|].
  intros (-> & Hk & Hd & Hle & _ & Hg). auto 10. Qed.

Lemma pow2_divide j k : 0 <= j <= k -> (2 ^ j | 2 ^ k).
Proof. intros H. exists (2 ^ (k - j)). rewrite <-Z.pow_add_r by lia. f_equal. lia. Qed.

(** Multiples of a power of two are that far apart. *)
Lemma multiples_apart p a b : 0 < p -> (p | a) -> (p | b) -> a < b -> a + p <= b.
Proof. intros Hp [x ->] [y ->] H. assert (x + 1 <= y) by nia. nia. Qed.

(** A block of a tiling that starts inside a maximal block ends inside it. *)
Lemma nested_end first last_ k a j :
  0 <= k -> (2 ^ k | first) -> maximal first last_ k -> first <= a < first + 2 ^ k ->
  0 <= j -> (2 ^ j | a) -> a + 2 ^ j - 1 <= last_ -> a + 2 ^ j <= first + 2 ^ k.
Proof.
  intros Hk Hd Hm Ha Hj Hdj Hle. pose proof (pow2_pos j Hj). pose proof (pow2_pos k Hk).
  assert (Hjk : j <= k).
  { destruct (decide (a = first)) as [->|Hne]; [by apply Hm|].
    destruct (decide (j <= k)); [done|exfalso].
    assert (Hka : (2 ^ k | a)) by (etransitivity; [apply (pow2_divide k j); lia|done]).
    pose proof (multiples_apart (2 ^ k) first a ltac:(lia) Hd Hka ltac:(lia)). lia. }
  apply multiples_apart; [done|done| |lia].
  apply Z.divide_add_r; [|by apply pow2_divide].
  etransitivity; [by apply pow2_divide|done].
Qed.

(** What a tiling has left after the maximal block. *)
Lemma tile_skip first last_ k ts a :
  0 <= k -> (2 ^ k | first) -> maximal first last_ k -> first + 2 ^ k - 1 <= last_ ->
  first <= a < first + 2 ^ k -> tile a last_ ts ->
  exists ts', tile (first + 2 ^ k) last_ ts' /\ (length ts' < length ts)%nat.
Proof.
  intros Hk Hd Hm Hle. revert a. induction ts as [|[s j] ts IH]; intros a Ha; simpl; [lia|].
  intros (-> & Hj & Hdj & Hlej & Ht).
  pose proof (nested_end first last_ k a j Hk Hd Hm Ha Hj Hdj Hlej) as Hend. pose proof (pow2_pos j Hj).
  destruct (decide (a + 2 ^ j = first + 2 ^ k)) as [E|Hne].
  - rewrite E in Ht. exists ts. split; [done|lia].
  - destruct (IH (a + 2 ^ j)) as (ts' & Ht' & Hl); [lia|done|]. exists ts'. split; [done|lia].
Qed.

(** No tiling has fewer blocks than the greedy one. *)
Lemma greedy_minimal first last_ bs ts : greedy first last_ bs -> tile first last_ ts -> (length bs <= length ts)%nat.
Proof.
  revert first ts. induction bs as [|[s k] bs IH]; intros first ts; simpl; [lia|].
  intros (-> & Hk & Hd & Hle & Hm & Hg) Ht. pose proof (pow2_pos k Hk).
  destruct (tile_skip first last_ k ts first Hk Hd Hm Hle ltac:(lia) Ht) as (ts' & Ht' & Hl).
  specialize (IH _ _ Hg Ht'). lia.
Qed.

(** ** The loop *)

Section Loop.

Context (B last_ : Z).
Hypothesis HB : 0 <= B.
Hypothesis Hhi : last_ < 2 ^ B.

(** The size the loop chooses. *)
Definition chosen (first : Z) : Z := Z.min (countTrailingZeros first B) (Z.log2 (last_ - first + 1)).

Lemma log2_room first : 0 <= first <= last_ ->
  0 <= Z.log2 (last_ - first + 1) <= B /\ 2 ^ Z.log2 (last_ - first + 1) <= last_ - first + 1 < 2 ^ (Z.log2 (last_ - first + 1) + 1).
Proof.
  intros H. pose proof (Z.log2_spec (last_ - first + 1) ltac:(lia)) as Hs. pose proof (Z.log2_nonneg (last_ - first + 1)).
  split; [|done]. split; [done|]. apply (Z.pow_le_mono_r_iff 2); lia.
Qed.

Lemma block_size_ok first : 0 <= first <= last_ -> block_size B first last_ = Ok (chosen first).
Proof.
  intros H. destruct (countTrailingZeros_spec first B HB ltac:(lia)) as (Hz & _).
  destruct (log2_room first H) as [Hm _]. unfold block_size, chosen, BitLen.
  set (z := countTrailingZeros first B) in *. rewrite (proj2 (Z.ltb_ge B z)) by lia.
  rewrite (proj2 (Z.eqb_neq (last_ - first + 1) 0)), Z.abs_eq by lia.
  rewrite (proj2 (Z.ltb_lt 0 _)) by lia. replace (Z.log2 (last_ - first + 1) + 1 - 1) with (Z.log2 (last_ - first + 1)) by lia.
  rewrite (Z.min_l _ B) by lia. rewrite (proj2 (Z.ltb_ge _ 0)) by lia. done.
Qed.

Lemma chosen_ok first : 0 <= first <= last_ ->
  0 <= chosen first <= B /\ (2 ^ chosen first | first) /\ first + 2 ^ chosen first - 1 <= last_ /\ maximal first last_ (chosen first).
Proof.
  intros H. destruct (countTrailingZeros_spec first B HB ltac:(lia)) as (Hz & Hd & H0 & Hmax).
  destruct (log2_room first H) as [Hm [Hlo Hup]]. unfold chosen.
  set (z := countTrailingZeros first B) in *. set (m := Z.log2 (last_ - first + 1)) in *.
  pose proof (Z.pow_le_mono_r 2 (Z.min z m) m ltac:(lia) ltac:(lia)).
  split; [lia|]. split; [etransitivity; [apply (pow2_divide _ z); lia|done]|]. split; [lia|].
  intros j Hj Hdj Hle. assert (j <= m) by (apply Z.log2_le_pow2; lia).
  destruct (decide (first = 0)) as [E|E]; [rewrite H0 by done; lia|]. specialize (Hmax E j Hj Hdj). lia.
Qed.

(** The rounds that are left: blocks grow while the alignment is the limit,
    then shrink. *)
Definition left_rounds (first : Z) : Z :=
  let z := countTrailingZeros first B in
  let m := Z.log2 (last_ - first + 1) in
  if z <=? m then 2 * m - z + 2 else m + 1.

Lemma left_rounds_bound first : 0 <= first <= last_ -> 0 < left_rounds first <= 2 * B + 2.
Proof.
  intros H. destruct (countTrailingZeros_spec first B HB ltac:(lia)) as (Hz & _).
  destruct (log2_room first H) as [Hm _]. unfold left_rounds. destruct (Z.leb_spec (countTrailingZeros first B) (Z.log2 (last_ - first + 1))); lia.
Qed.

(** Adding the largest power of two that divides a value raises it. *)
Lemma zeros_grow first : 0 < first -> first < 2 ^ B ->
  (2 ^ (countTrailingZeros first B + 1) | first + 2 ^ countTrailingZeros first B).
Proof.
  intros H0 H. destruct (countTrailingZeros_spec first B HB ltac:(lia)) as (Hz & [q Hq] & _ & Hmax).
  set (z := countTrailingZeros first B) in *. rewrite Z.pow_add_r by lia. change (2 ^ 1) with 2.
  destruct (Z.Even_or_Odd q) as [[r Er]|[r Er]].
  - exfalso. assert (Hd : (2 ^ (z + 1) | first)).
    { exists r. rewrite Z.pow_add_r by lia. rewrite Hq, Er. change (2 ^ 1) with 2. ring. }
    specialize (Hmax ltac:(lia) (z + 1) ltac:(lia) Hd). lia.
  - exists (r + 1). rewrite Hq at 1. rewrite Er. ring.
Qed.

Lemma left_rounds_next first : 0 <= first <= last_ -> first + 2 ^ chosen first <= last_ ->
  left_rounds (first + 2 ^ chosen first) < left_rounds first.
Proof.
  intros H Hn. destruct (chosen_ok first H) as (Hc & Hd & _). pose proof (pow2_pos (chosen first) ltac:(lia)).
  destruct (countTrailingZeros_spec first B HB ltac:(lia)) as (Hz & _ & Hz0 & _).
  set (first' := first + 2 ^ chosen first) in *.
  destruct (countTrailingZeros_spec first' B HB ltac:(lia)) as (Hz' & _ & _ & Hmax).
  specialize (Hmax ltac:(lia)). destruct (log2_room first H) as [Hm [Hlo Hup]].
  assert (Hmm : Z.log2 (last_ - first' + 1) <= Z.log2 (last_ - first + 1)) by (apply Z.log2_le_mono; lia).
  destruct (log2_room first' ltac:(lia)) as [Hm' [Hlo' Hup']].
  unfold left_rounds. destruct (Z.leb_spec (countTrailingZeros first B) (Z.log2 (last_ - first + 1))) as [Hle|Hgt].
  - assert (Ec : chosen first = countTrailingZeros first B) by (unfold chosen; lia).
    assert (Hpos : 0 < first).
    { destruct (decide (first = 0)) as [E|]; [|lia]. rewrite Hz0 in Ec by done. subst first'. rewrite Ec, E in *. lia. }
    pose proof (zeros_grow first Hpos ltac:(lia)) as Hg. rewrite <-Ec in Hg. fold first' in Hg.
    specialize (Hmax (chosen first + 1) ltac:(lia) Hg). destruct (Z.leb_spec (countTrailingZeros first' B) (Z.log2 (last_ - first' + 1))); lia.
  - assert (Ec : chosen first = Z.log2 (last_ - first + 1)) by (unfold chosen; lia).
    assert (Hlt : Z.log2 (last_ - first' + 1) < Z.log2 (last_ - first + 1)).
    { apply Z.log2_lt_pow2; [lia|]. subst first'. rewrite Ec. rewrite Z.pow_add_r in Hup by lia. lia. }
    assert (Hd' : (2 ^ chosen first | first')) by (apply Z.divide_add_r; [done|apply Z.divide_refl]).
    specialize (Hmax (chosen first) ltac:(lia) Hd').
    destruct (Z.leb_spec (countTrailingZeros first' B) (Z.log2 (last_ - first' + 1))); lia.
Qed.

(** The network of a block. *)
Definition block_net (len : nat) (b : block) : IPNet :=
  mkIPNet (bigIntToIP (fst b) len) (CIDRMask (Z.to_nat (B / 8)) (B - snd b)).

(** The loop writes out the greedy tiling. *)
Lemma cidr_loop_ok len fuel first : 0 <= first <= last_ + 1 -> (first <= last_ -> left_rounds first <= Z.of_nat fuel) ->
  exists bs, cidr_loop fuel len B first last_ = Some (Ok (IPNet_String <$> (block_net len <$> bs))) /\
    greedy first last_ bs /\ Forall (fun b => 0 <= fst b < 2 ^ B /\ 0 <= snd b <= B /\ (2 ^ snd b | fst b)) bs.
Proof.
  revert first. induction fuel as [|fuel IH]; intros first Hlo Hf; cbn [cidr_loop].
  all: destruct (Z.ltb_spec last_ first); [exists []; repeat split; [simpl; lia|constructor]|].
  { pose proof (left_rounds_bound first ltac:(lia)). lia. }
  rewrite block_size_ok by lia. destruct (chosen_ok first ltac:(lia)) as (Hc & Hd & Hle & Hm).
  rewrite Z.shiftl_1_l. pose proof (pow2_pos (chosen first) ltac:(lia)).
  destruct (IH (first + 2 ^ chosen first)) as (bs & E & Hg & Hbs); [lia| |].
  { intros Hn. pose proof (left_rounds_next first ltac:(lia) Hn). lia. }
  rewrite E. exists ((first, chosen first) :: bs). split; [done|]. split; [simpl; auto 10 with lia|].
  constructor; [simpl; split_and!; try lia; done|done].
Qed.

Lemma rounds_enough first : 0 <= first <= last_ -> left_rounds first <= Z.of_nat (rounds B).
Proof. intros H. pose proof (left_rounds_bound first H). unfold rounds. lia. Qed.

End Loop.

(** ** Blocks as networks *)

(** The two widths. *)
Definition width (len : nat) (B : Z) : Prop := (len = 4%nat /\ B = 32) \/ (len = 16%nat /\ B = 128).

Lemma bigIntToIP_spec v len B : width len B -> 0 <= v < 2 ^ B ->
  Forall byte (bigIntToIP v len) /\ length (bigIntToIP v len) = len /\ be_val (bigIntToIP v len) = v.
Proof.
  intros Hw Hv.
  assert (E : bigIntToIP v len = bytes2IP (big_Bytes v) len).
  { unfold bigIntToIP. fold (bytes2IP (big_Bytes v) len).
    destruct (bytes2IP_spec (big_Bytes v) len (big_Bytes_byte v)) as (_ & L & _).
    destruct (Nat.eqb_spec len 4) as [->|]; [by apply To4_4|done]. }
  rewrite E. destruct (bytes2IP_spec (big_Bytes v) len (big_Bytes_byte v)) as (H1 & H2 & H3).
  split; [done|]. split; [done|]. rewrite H3, be_val_big_Bytes, Z.abs_eq by lia.
  apply Z.mod_small. destruct Hw as [[-> ->]|[-> ->]]; done.
Qed.

Lemma block_net_ok len B s k : width len B -> 0 <= s < 2 ^ B -> 0 <= k <= B -> (2 ^ k | s) ->
  let n := block_net B len (s, k) in
  net_of n (nIP n) (B - k) /\ length (nIP n) = len /\ be_val (nIP n) = s /\ host_bits n = k.
Proof.
  intros Hw Hs Hk Hd n. destruct (bigIntToIP_spec s len B Hw Hs) as (Hb & Hl & Hv).
  assert (Hbits : 8 * Z.of_nat len = B) by (destruct Hw as [[-> ->]|[-> ->]]; done).
  assert (Hlen : Z.to_nat (B / 8) = len) by (destruct Hw as [[-> ->]|[-> ->]]; done).
  assert (Hn : net_of n (nIP n) (B - k)).
  { constructor; cbn [n block_net nIP nMask fst snd]; rewrite ?Hl, ?Hlen; [|lia|done|].
    - split; [done|]. rewrite Hl. destruct Hw as [[-> _]|[-> _]]; auto.
    - apply be_val_inj; [done|by apply land_bytes_byte| |].
      + rewrite <-Hl at 3. by rewrite length_land_bytes.
      + rewrite <-Hl at 3. rewrite be_val_mask by (done || (rewrite Hl; lia)).
        rewrite Hl, Hbits, Hv. replace (B - (B - k)) with k by lia.
        destruct Hd as [q ->]. rewrite Z.div_mul by (pose proof (pow2_pos k); lia). done. }
  split; [done|]. split; [done|]. split; [done|].
  rewrite (net_host_bits _ _ _ Hn). cbn [n block_net nIP fst]. rewrite Hl. lia.
Qed.

(** Networks that follow each other from [first] to [last_]. *)
Fixpoint net_tile (first last_ : Z) (nets : list IPNet) : Prop :=
  match nets with
  | [] => first = last_ + 1
  | n :: nets' =>
      net_lo n = first /\ (exists b ones, net_of n b ones) /\ net_hi n <= last_ /\
      net_tile (net_hi n + 1) last_ nets'
  end.

(** A tiling holds exactly the values of its range. *)
Lemma net_tile_cover first last_ nets v : net_tile first last_ nets ->
  (first <= v <= last_ <-> exists n, n ∈ nets /\ net_lo n <= v <= net_hi n).
Proof.
  revert first. induction nets as [|n nets IH]; intros first; simpl.
  - intros ->. split; [lia|]. by intros (? & []%elem_of_nil & _).
  - intros (<- & (b & ones & Hn) & Hle & Ht). specialize (IH _ Ht).
    pose proof (pow2_pos _ (net_host_bits_nonneg _ _ _ Hn)).
    split.
    + intros Hv. destruct (decide (v <= net_hi n)); [exists n; split; [by left|lia]|].
      destruct (proj1 IH ltac:(lia)) as (m & Hm & ?). exists m. split; [by right|done].
    + intros (m & [->|Hm]%elem_of_cons & Hv); [lia|].
      assert (net_hi n + 1 <= v <= last_) by (apply IH; eauto). unfold net_hi in *. lia.
Qed.

(** The first value of a network is a multiple of its size. *)
Lemma net_lo_aligned n b ones : net_of n b ones -> (2 ^ host_bits n | net_lo n).
Proof.
  intros H. destruct (net_be_val n b ones H) as [q Hq]. destruct (net_valid_ip n b ones H) as [[Hb Hl] _].
  pose proof (net_host_bits_nonneg _ _ _ H). unfold net_lo. destruct Hl as [L|L].
  - rewrite be_val_To4 by done. apply Z.divide_add_r; [|by exists q].
    assert (host_bits n <= 32).
    { pose proof (net_ones _ _ _ H). rewrite (net_host_bits _ _ _ H).
      destruct (net_valid_ip n b ones H) as [_ <-]. rewrite L. lia. }
    etransitivity; [by apply (pow2_divide _ 32)|]. by exists 65535.
  - destruct (ipv_16 (nIP n) Hb L) as [_ ->]. by exists q.
Qed.

(** A tiling by networks is a tiling by blocks. *)
Lemma net_tile_tile first last_ nets : net_tile first last_ nets ->
  tile first last_ ((fun n => (net_lo n, host_bits n)) <$> nets).
Proof.
  revert first. induction nets as [|n nets IH]; intros first; simpl; [done|].
  intros (<- & (b & ones & Hn) & Hle & Ht). specialize (IH _ Ht). unfold net_hi in *.
  split; [done|]. split; [by eapply net_host_bits_nonneg|]. split; [by eapply net_lo_aligned|].
  split; [done|]. replace (net_lo n + 2 ^ host_bits n - 1 + 1) with (net_lo n + 2 ^ host_bits n) in IH by lia. done.
Qed.

(** ** Ranges of addresses *)

(** Where the values of a width start. *)
Definition base (len : nat) : Z := if (len =? 4)%nat then V4B else 0.

Lemma base_aligned len B : width len B -> (2 ^ B | base len).
Proof. intros [[-> ->]|[-> ->]]; [by exists 65535|by exists 0]. Qed.

Lemma base_val len B a : width len B -> Forall byte a -> length a = len -> ipv a = base len + be_val a.
Proof.
  intros [[-> ->]|[-> ->]] Hb Hl; [by rewrite be_val_To4|]. by destruct (ipv_16 a Hb Hl) as [_ ->].
Qed.

Definition shift (c : Z) (b : block) : block := (c + fst b, snd b).

Lemma greedy_shift c B first last_ bs : 0 <= B -> (2 ^ B | c) -> 0 <= first -> last_ < 2 ^ B ->
  greedy first last_ bs -> greedy (c + first) (c + last_) (shift c <$> bs).
Proof.
  intros HB Hc H0 Hl. revert first H0. induction bs as [|[s k] bs IH]; intros first H0; simpl; [lia|].
  intros (-> & Hk & Hd & Hle & Hm & Hg). pose proof (pow2_pos k Hk).
  assert (Hup : forall j, 0 <= j -> first + 2 ^ j - 1 <= last_ -> (2 ^ j | c)).
  { intros j Hj Hj'. etransitivity; [apply (pow2_divide j B)|done]. split; [done|].
    apply (Z.pow_le_mono_r_iff 2); lia. }
  split; [done|]. split; [done|]. split; [by apply Z.divide_add_r; [apply Hup|]|]. split; [lia|]. split.
  - intros j Hj Hdj Hle'. apply Hm; [done| |lia].
    replace first with (c + first - c) by lia. apply Z.divide_sub_r; [done|apply Hup; lia].
  - replace (c + first + 2 ^ k) with (c + (first + 2 ^ k)) by lia. apply IH; [lia|done].
Qed.

(** The networks of the greedy blocks tile the addresses. *)
Lemma blocks_net_tile len B first last_ bs : width len B -> 0 <= first ->
  Forall (fun b => 0 <= fst b < 2 ^ B /\ 0 <= snd b <= B /\ (2 ^ snd b | fst b)) bs ->
  greedy first last_ bs -> net_tile (base len + first) (base len + last_) (block_net B len <$> bs).
Proof.
  intros Hw H0 Hbs. revert first H0. induction Hbs as [|[s k] bs (Hs & Hk & Hd) _ IH]; intros first H0.
  { simpl. lia. }
  cbn [greedy fst snd] in *. intros (-> & _ & _ & Hle & _ & Hg).
  destruct (block_net_ok len B first k Hw Hs Hk Hd) as (Hn & Hlen & Hv & Hh).
  assert (Hlo : net_lo (block_net B len (first, k)) = base len + first).
  { unfold net_lo. rewrite <-Hv at 2. apply (base_val len B); [done|apply (net_valid_ip _ _ _ Hn)|done]. }
  pose proof (pow2_pos k ltac:(lia)). rewrite fmap_cons. cbn [net_tile]. unfold net_hi. rewrite Hlo, Hh.
  split; [done|]. split; [eauto|]. split; [lia|].
  replace (base len + first + 2 ^ k - 1 + 1) with (base len + (first + 2 ^ k)) by lia. apply IH; [lia|done].
Qed.

(** The networks of a range: a tiling, and one of least length. *)
Record splits (a b : Z) (nets : list IPNet) : Prop := {
  sp_tile : net_tile a b nets;
  sp_minimal : forall nets', net_tile a b nets' -> (length nets <= length nets')%nat
}.

Lemma cidr_loop_splits len B first last_ : width len B -> 0 <= first <= last_ -> last_ < 2 ^ B ->
  exists nets, cidr_loop (rounds B) len B first last_ = Some (Ok (IPNet_String <$> nets)) /\
    splits (base len + first) (base len + last_) nets.
Proof.
  intros Hw Hf Hl. assert (HB : 0 <= B) by (destruct Hw as [[_ ->]|[_ ->]]; done).
  destruct (cidr_loop_ok B last_ HB Hl len (rounds B) first) as (bs & E & Hg & Hbs);
    [lia|intros _; by apply rounds_enough|].
  exists (block_net B len <$> bs). split; [done|]. constructor.
  - by apply blocks_net_tile; [|lia|..].
  - intros nets' Ht%net_tile_tile. rewrite length_fmap.
    pose proof (greedy_shift (base len) B first last_ bs HB (base_aligned len B Hw) ltac:(lia) Hl Hg) as Hg'.
    pose proof (greedy_minimal _ _ _ _ Hg' Ht) as Hlen. by rewrite !length_fmap in Hlen.
Qed.

(** The width of a canonical address. *)
Lemma canon_width a : canon a ->
  width (if isNil (To4 a) then 16%nat else 4%nat) (if isNil (To4 a) then 128 else 32) /\
  length a = (if isNil (To4 a) then 16%nat else 4%nat) /\ isNil (To4 a) = negb (v4_val (ipv a)).
Proof.
  intros [Hv Hl]. destruct (To4_spec a Hv) as [(E & -> & _)|(E & -> & _)]; rewrite E in *; cbn.
  - split; [by left|done].
  - split; [by right|done].
Qed.

(** [IPRangeToCIDRs] on canonical bounds of one family. *)
Lemma IPRangeToCIDRs_splits a b : canon a -> canon b -> v4_val (ipv a) = v4_val (ipv b) -> ipv a <= ipv b ->
  exists nets, IPRangeToCIDRs a b = Some (Ok (IPNet_String <$> nets)) /\ splits (ipv a) (ipv b) nets.
Proof.
  intros Ha Hb Hf Hle. destruct (canon_width a Ha) as (Hw & La & Ea), (canon_width b Hb) as (_ & Lb & Eb).
  rewrite Eb, <-Hf, <-Ea in Lb. unfold IPRangeToCIDRs, ipToBigInt.
  set (len := if isNil (To4 a) then 16%nat else 4%nat) in *.
  set (B := if isNil (To4 a) then 128 else 32) in *.
  rewrite (base_val len B a) in * by (done || apply Ha).
  rewrite (base_val len B b) in * by (done || apply Hb).
  pose proof (be_val_bound a (proj1 (proj1 Ha))). pose proof (be_val_bound b (proj1 (proj1 Hb))) as Hbb.
  assert (256 ^ Z.of_nat (length b) = 2 ^ B) as Hp by (rewrite Lb; destruct Hw as [[-> ->]|[-> ->]]; done).
  rewrite (proj2 (Z.ltb_ge _ _)) by lia. apply cidr_loop_splits; [done|lia|lia].
Qed.

(** The copy of the loop in [ToCIDRs] agrees with [IPRangeToCIDRs]. *)
Lemma range_cidrs_eq r : IP_Equal (r_start r) (r_end r) = false ->
  range_cidrs r = IPRangeToCIDRs (r_start r) (r_end r).
Proof. intros E. unfold range_cidrs, IPRangeToCIDRs. by rewrite E. Qed.

(** The text of the block of one address. *)
Lemma host_net_String a : canon a ->
  IPNet_String (mkIPNet a (CIDRMask (length a) (8 * Z.of_nat (length a)))) =
  IP_String a +:+ "/" +:+ Itoa (8 * Z.of_nat (length a)).
Proof.
  intros Ha. destruct (canon_width a Ha) as (_ & Hl & _). unfold IPNet_String, networkNumberAndMask.
  cbn [nIP nMask]. rewrite length_CIDRMask.
  assert (E : (if isNil (To4 a) then a else To4 a) = a).
  { destruct (isNil (To4 a)) eqn:En; [done|]. by apply To4_4. }
  rewrite E. assert (Hn : isNil a = false) by (destruct a; [by destruct (isNil _)|done]).
  assert (Hs : simpleMaskLength (CIDRMask (length a) (8 * Z.of_nat (length a))) = Some (8 * Z.of_nat (length a))).
  { apply simpleMaskLength_CIDRMask; [destruct (isNil (To4 a)); auto|lia]. }
  destruct (isNil (To4 a)); rewrite Hl in *; cbn [Nat.eqb negb andb]; rewrite Hn, Hs; done.
Qed.

Lemma bigIntToIP_be_val a len B : width len B -> Forall byte a -> length a = len ->
  bigIntToIP (be_val a) len = a.
Proof.
  intros Hw Hb Hl. pose proof (be_val_bound a Hb) as Hv.
  assert (256 ^ Z.of_nat (length a) = 2 ^ B) as E by (rewrite Hl; destruct Hw as [[-> ->]|[-> ->]]; done).
  rewrite E in Hv. destruct (bigIntToIP_spec (be_val a) len B Hw Hv) as (H1 & H2 & H3).
  apply be_val_inj; [done|done|by rewrite Hl|done].
Qed.

(** One address is its own block. *)
Lemma IPRangeToCIDRs_single a : canon a ->
  IPRangeToCIDRs a a = Some (Ok [IP_String a +:+ "/" +:+ Itoa (8 * Z.of_nat (length a))]).
Proof.
  intros Ha. destruct (canon_width a Ha) as (Hw & La & _). unfold IPRangeToCIDRs, ipToBigInt.
  set (len := if isNil (To4 a) then 16%nat else 4%nat) in *.
  set (B := if isNil (To4 a) then 128 else 32) in *.
  assert (HB : 8 * Z.of_nat len = B /\ 0 <= B /\ Z.to_nat (B / 8) = len)
    by (destruct Hw as [[-> ->]|[-> ->]]; done).
  destruct HB as (HB & HB0 & HB8). rewrite Z.ltb_irrefl.
  pose proof (be_val_bound a (proj1 (proj1 Ha))) as Hv.
  assert (256 ^ Z.of_nat (length a) = 2 ^ B) as Hp by (rewrite La; destruct Hw as [[-> ->]|[-> ->]]; done).
  assert (Hr : exists k, rounds B = S k) by (exists (pred (rounds B)); unfold rounds; lia).
  destruct Hr as [k ->]. cbn [cidr_loop]. rewrite Z.ltb_irrefl.
  rewrite (block_size_ok B (be_val a)) by lia.
  assert (Hc : chosen B (be_val a) (be_val a) = 0).
  { destruct (chosen_ok B (be_val a) HB0 ltac:(lia) (be_val a) ltac:(lia)) as ((? & _) & _ & _ & _).
    unfold chosen in *. replace (be_val a - be_val a + 1) with 1 in * by lia.
    change (Z.log2 1) with 0 in *. lia. }
  rewrite Hc. change (Z.shiftl 1 0) with 1.
  assert (Hend : cidr_loop k len B (be_val a + 1) (be_val a) = Some (Ok [])).
  { destruct k; cbn [cidr_loop]; rewrite (proj2 (Z.ltb_lt _ _)) by lia; done. }
  rewrite Hend, HB8, Z.sub_0_r, <-HB, <-La. cbn [mbind option_bind].
  rewrite (bigIntToIP_be_val a (length a) B) by (rewrite ?La; done || apply Ha).
  by rewrite host_net_String.
Qed.

(** [ToCIDRs] treats every range as [IPRangeToCIDRs] does. *)
Lemma range_cidrs_agree r : range_ok r -> range_cidrs r = IPRangeToCIDRs (r_start r) (r_end r).
Proof.
  intros H. destruct (IP_Equal (r_start r) (r_end r)) eqn:E; [|by apply range_cidrs_eq].
  pose proof H as [Hs He _ _ _ _]. rewrite IP_Equal_val in E by (apply Hs || apply He).
  apply Z.eqb_eq in E. apply canon_inj in E; [|done..]. unfold range_cidrs. rewrite <-E, IPRangeToCIDRs_single by done.
  rewrite IP_Equal_val by apply Hs. rewrite Z.eqb_refl. destruct (canon_width _ Hs) as (_ & Hl & _).
  destruct (isNil (To4 (r_start r))); rewrite Hl; done.
Qed.

(** ** [ToCIDRs] *)

Definition in_nets (nets : list IPNet) (v : Z) : Prop := exists n, n ∈ nets /\ net_lo n <= v <= net_hi n.

Lemma ranges_cidrs_ok l : Forall range_ok l ->
  exists nets, ranges_cidrs l = Some (Ok (IPNet_String <$> nets)) /\
    (forall v, in_nets nets v <-> exists r, r ∈ l /\ ipv (r_start r) <= v <= ipv (r_end r)).
Proof.
  induction 1 as [|r l Hr _ (nets' & E' & M')]; simpl.
  { exists []. split; [done|]. intros v. split; intros (? & []%elem_of_nil & _). }
  rewrite range_cidrs_agree by done. pose proof Hr as [Hs He Hle _ _ Hz].
  destruct (IPRangeToCIDRs_splits (r_start r) (r_end r) Hs He) as (nets & E & [Ht _]);
    [by rewrite !v4_val_zone, Hz|done|].
  rewrite E. cbn [mbind option_bind]. rewrite E'. cbn [mbind option_bind].
  exists (nets ++ nets'). split; [by rewrite fmap_app|]. intros v. specialize (M' v).
  pose proof (net_tile_cover _ _ _ v Ht) as Hc. unfold in_nets in *. split.
  - intros (n & [Hn|Hn]%elem_of_app & Hv).
    + exists r. split; [by left|]. apply Hc. eauto.
    + destruct (proj1 M') as (r' & Hr' & Hv'); [eauto|]. exists r'. split; [by right|done].
  - intros (r' & [->|Hr']%elem_of_cons & Hv).
    + destruct (proj1 Hc Hv) as (n & Hn & ?). exists n. rewrite elem_of_app. auto.
    + destruct (proj2 M') as (n & Hn & ?); [eauto|]. exists n. rewrite elem_of_app. auto.
Qed.

(** ** The order of strings *)

Lemma code_inj a b : code a = code b -> a = b.
Proof.
  unfold code. intros H%N2Z.inj. by rewrite <-(Ascii.ascii_N_embedding a), H, Ascii.ascii_N_embedding.
Qed.

#[global] Instance str_le_total : Total str_le.
Proof.
  unfold str_le. intros a. induction a as [|x a IH]; intros [|y b]; simpl; auto.
  destruct (Z.ltb_spec (code x) (code y)), (Z.ltb_spec (code y) (code x)); auto.
Qed.

#[global] Instance str_le_trans : Transitive str_le.
Proof.
  unfold str_le. intros a. induction a as [|x a IH]; intros [|y b] [|z c]; simpl; auto; try done.
  destruct (Z.ltb_spec (code x) (code y)), (Z.ltb_spec (code y) (code z)),
    (Z.ltb_spec (code y) (code x)), (Z.ltb_spec (code z) (code y)),
    (Z.ltb_spec (code x) (code z)), (Z.ltb_spec (code z) (code x)); try done; try lia. apply IH.
Qed.

#[global] Instance str_le_antisym : AntiSymm (=) str_le.
Proof.
  unfold str_le. intros a. induction a as [|x a IH]; intros [|y b]; simpl; try done.
  destruct (Z.ltb_spec (code x) (code y)), (Z.ltb_spec (code y) (code x)); try done; try lia.
  intros H1 H2. f_equal; [apply code_inj; lia|by apply IH].
Qed.

Lemma sort_Strings_spec l : StronglySorted str_le (sort_Strings l) /\ sort_Strings l ≡ₚ l.
Proof. split; [apply (StronglySorted_merge_sort str_le)|apply (merge_sort_Permutation str_le)]. Qed.

(** ** Entries *)

Lemma NormalizeIP_canon s a : NormalizeIP s = Ok a -> canon a.
Proof.
  unfold NormalizeIP, ParseIP. destruct (parse_addr (TrimSpace s)) as [r|] eqn:E; [|done].
  apply parse_addr_valid in E as [Hv _]. destruct (To16_valid r Hv) as [Hb Hl].
  assert (Hv16 : valid_ip (To16 r)) by (split; auto).
  destruct (isNil (To16 r)); [done|].
  destruct (To4_spec (To16 r) Hv16) as [(Ev & -> & L4 & B4 & V4 & _)|(Ev & -> & _)]; cbn [isNil negb]; intros [= <-].
  - destruct (ipv_4 (To4 (To16 r)) B4 L4) as [Hv4 Ei]. split; [done|]. rewrite Ei, V4, L4.
    replace (V4B + (ipv (To16 r) - V4B)) with (ipv (To16 r)) by lia. by rewrite Ev.
  - rewrite To16_16 by done. split; [done|]. by rewrite Ev.
Qed.

Lemma compareIP_val a b : canon a -> canon b -> v4_val (ipv a) = v4_val (ipv b) ->
  (0 <? compareIP a b) = (ipv b <? ipv a).
Proof.
  intros Ha Hb Hf. destruct (canon_width a Ha) as (Hw & La & Ea), (canon_width b Hb) as (_ & Lb & Eb).
  rewrite Eb, <-Hf, <-Ea in Lb. unfold compareIP.
  rewrite bytes_compare_val by (congruence || apply Ha || apply Hb).
  rewrite (base_val _ _ a Hw) by (done || apply Ha). rewrite (base_val _ _ b Hw) by (done || apply Hb).
  destruct (Z.compare_spec (be_val a) (be_val b)), (Z.ltb_spec (base (if isNil (To4 a) then 16%nat else 4%nat) + be_val b)
    (base (if isNil (To4 a) then 16%nat else 4%nat) + be_val a)); simpl; done || lia.
Qed.

(** A range entry never runs out of rounds, and its blocks tile the range. *)
Lemma expandIPRange_ok value : exists r, expandIPRange value = Some r /\
  forall cidrs, r = Ok cidrs ->
    exists a b nets, canon a /\ canon b /\ cidrs = IPNet_String <$> nets /\ splits (ipv a) (ipv b) nets.
Proof.
  unfold expandIPRange. destruct (Split value "..") as [|p0 [|p1 [|]]]; try (by eexists).
  destruct (NormalizeIP p0) as [a|] eqn:Ea; [|by eexists]. apply NormalizeIP_canon in Ea.
  destruct (NormalizeIP p1) as [b|] eqn:Eb; [|by eexists]. apply NormalizeIP_canon in Eb.
  destruct (negb (eqb _ _)) eqn:Ef; [by eexists|].
  assert (Hf : v4_val (ipv a) = v4_val (ipv b)).
  { apply negb_false_iff, eqb_prop in Ef. destruct (canon_width a Ea) as (_ & _ & Xa), (canon_width b Eb) as (_ & _ & Xb).
    rewrite Xa, Xb in Ef. by destruct (v4_val (ipv a)), (v4_val (ipv b)). }
  rewrite compareIP_val by done. destruct (Z.ltb_spec (ipv b) (ipv a)); [by eexists|].
  destruct (IPRangeToCIDRs_splits a b Ea Eb Hf) as (nets & E & Hs); [done|]. rewrite E. cbn [mbind option_bind].
  eexists. split; [done|]. intros cidrs [= <-]. exists a, b, nets. done.
Qed.

Lemma expand_pool_entry_total value : exists r, expand_pool_entry value = Some r.
Proof.
  unfold expand_pool_entry. destruct (str_contains value ".."); [|by destruct (contains_char _ _); eexists].
  destruct (expandIPRange_ok value) as (r & -> & _). by eexists.
Qed.

Lemma expand_pool_entries_total entries seen : exists r, expand_pool_entries entries seen = Some r.
Proof.
  revert seen. induction entries as [|e entries IH]; intros seen; cbn [expand_pool_entries]; [by eexists|].
  destruct (bool_decide _); [apply IH|].
  destruct (expand_pool_entry_total (TrimSpace e)) as [[cs|er] ->]; cbn [mbind option_bind]; [apply IH|by eexists].
Qed.

(** The blocks of the entries, once all of them are accepted. *)
Definition entry_blocks (raw : string) : list string :=
  if bool_decide (TrimSpace raw = "") then []
  else match expand_pool_entry (TrimSpace raw) with Some (Ok cs) => cs | _ => [] end.

Lemma expand_pool_entries_elem entries seen r : expand_pool_entries entries seen = Some (Ok r) ->
  forall c, c ∈ r <-> c ∈ seen \/ exists e, e ∈ entries /\ c ∈ entry_blocks e.
Proof.
  revert seen. induction entries as [|e entries IH]; intros seen; cbn [expand_pool_entries].
  { intros [= <-] c. split; [auto|]. intros [|(? & []%elem_of_nil & _)]; done. }
  assert (Hb : forall c cs, entry_blocks e = cs -> (exists e', e' ∈ e :: entries /\ c ∈ entry_blocks e') <->
    c ∈ cs \/ exists e', e' ∈ entries /\ c ∈ entry_blocks e').
  { intros c cs <-. split.
    - intros (e' & [->|He]%elem_of_cons & Hc); [by left|right; eauto].
    - intros [Hc|(e' & He & Hc)]; [exists e; split; [by left|done]|exists e'; split; [by right|done]]. }
  destruct (bool_decide (TrimSpace e = "")) eqn:Et.
  - intros H c. rewrite (IH _ H), (Hb c []) by (unfold entry_blocks; by rewrite Et).
    rewrite elem_of_nil. tauto.
  - destruct (expand_pool_entry (TrimSpace e)) as [[cs|]|] eqn:Ee; cbn [mbind option_bind]; try done.
    intros H c. rewrite (IH _ H), (Hb c cs) by (unfold entry_blocks; by rewrite Et, Ee).
    rewrite elem_of_union, elem_of_list_to_set. tauto.
Qed.
