(* ===== verification/Validator.v ===== *)
(** * [pkg/util/validator.go]: admission of subnets and VPCs

    A validation returns the first failed check ([option err]); checks that
    compute a broadcast address may panic, so a check is an [outcome].  The
    service address of the API server, which the code reads from the
    environment, is an argument. *)
From Stdlib Require Import Ascii.
From S2P Require Import Prelude.
From S2P Require Import GoStrings.
From S2P Require Import GoNet.
From S2P Require Import UtilNet.

Local Open Scope Z_scope.

(** ** Checks in order *)

Abbreviation check := (outcome (option err)).

(** Run the checks until one fails. *)
Fixpoint first_fail (cs : list check) : check :=
  match cs with
  | [] => Done None
  | c :: cs' =>
      r ← c;
      match r with Some e => Done (Some e) | None => first_fail cs' end
  end.

Definition fail_if (b : bool) (e : err) : check := Done (if b then Some e else None).

(** Checks that apply only under a condition. *)
Definition only_if (b : bool) (c : check) : check := if b then c else Done None.

(** [fmt.Errorf] with [%w]: the text of the cause is not kept. *)
Definition wrapped (fmt : string) (args : list string) (c : check) : check :=
  r ← c; Done (match r with Some e => Some (Errorf fmt args) | None => None end).

Definition nonempty (s : string) : bool := negb (bool_decide (s = "")).

Lemma nonempty_iff s : nonempty s = true <-> s <> "".
Proof. unfold nonempty. rewrite negb_true_iff, bool_decide_eq_false. done. Qed.

(** ** The fields of a subnet that are validated *)

Record NatMatch := mkNatMatch { SrcIPs : string; DstIPs : string }.

Record SubnetSpec := mkSpec {
  Name : string;
  Vpc : string;
  Vlan : string;
  CIDRBlock : string;
  Gateway : string;
  Protocol : string;
  GatewayType : string;
  ExcludeIps : list string;
  AllowSubnets : list string;
  Vips : list string;
  Mtu : Z;
  NatOutgoing : bool;
  ExternalEgressGateway : string;
  PolicyRoutingTableID : Z;
  LogicalGateway : bool;
  U2OInterconnection : bool;
  U2OInterconnectionIP : string;
  OverlayOnlyRouting : bool;
  NatOutgoingPolicyRules : list NatMatch;
  Provider : string
}.

Definition IPv6MinMTU : Z := 1280.
Definition DefaultVpc : string := "ovn-cluster".
Definition GWDistributedType : string := "distributed".
Definition GWCentralizedType : string := "centralized".

(** ** Broadcast addresses *)

(** One block against one address. *)
Definition check_broadcast (cidrBlock ipAddr : string) : check :=
  if negb (same_protocol cidrBlock ipAddr) then Done None
  else match ParseCIDR cidrBlock with
       | None => Done None
       | Some (_, network) =>
           if AddressCountBigInt network =? 1
           then Done (Some (Errorf "subnet %s is configured with /32 or /128 netmask" [cidrBlock]))
           else
             let ipStr := IPToString ipAddr in
             isBroadcast ← (if bool_decide (CheckProtocol cidrBlock = ProtocolIPv4)
                            then b ← SubnetBroadcast cidrBlock; Done (bool_decide (b = ipStr))
                            else Done false);
             if (isBroadcast : bool) then Done (Some (Errorf "%s is the broadcast ip in cidr %s" [ipStr; cidrBlock]))
             else fail_if (bool_decide (SubnetNumber cidrBlock = ipStr))
                          (Errorf "%s is the network number ip in cidr %s" [ipStr; cidrBlock])
       end.

Definition ValidateNetworkBroadcast (cidr ip : string) : check :=
  if bool_decide (cidr = "") || bool_decide (ip = "") then Done None
  else first_fail (cidrBlock ← Split cidr ","; ipAddr ← Split ip ","; [check_broadcast cidrBlock ipAddr]).

(** ** Subnets *)

Definition validateMacOnlySubnet (subnet : SubnetSpec) : option err :=
  if nonempty (Gateway subnet)
  then Some (Errorf "gateway must be empty for underlay subnet %s without cidrBlock" [Name subnet])
  else if negb (length (ExcludeIps subnet) =? 0)%nat
  then Some (Errorf "excludeIps must be empty for underlay subnet %s without cidrBlock" [Name subnet])
  else None.

Definition validateSubnetCIDR (subnet : SubnetSpec) : check :=
  first_fail
    [ only_if (nonempty (Gateway subnet)) (first_fail
        [ fail_if (ContainsUppercase (Gateway subnet))
            (Errorf "subnet gateway %s v6 ip address can not contain upper case" [Gateway subnet]);
          fail_if (negb (CIDRContainIP (CIDRBlock subnet) (Gateway subnet)))
            (Errorf "gateway %s is not in cidr %s" [Gateway subnet; CIDRBlock subnet]);
          wrapped "validate gateway %s for cidr %s failed: %w" [Gateway subnet; CIDRBlock subnet]
            (ValidateNetworkBroadcast (CIDRBlock subnet) (Gateway subnet)) ]);
      Done (CIDRGlobalUnicast (CIDRBlock subnet));
      fail_if (bool_decide (CheckProtocol (CIDRBlock subnet) = ""))
        (Errorf "CIDRBlock: %q format error" [CIDRBlock subnet]) ].

(** One block of the CIDR. *)
Definition check_cidr_block (subnet : SubnetSpec) (cidr : string) : option err :=
  if ContainsUppercase (CIDRBlock subnet)
  then Some (Errorf "subnet cidr block %s v6 ip address can not contain upper case" [CIDRBlock subnet])
  else match InvalidSpecialCIDR cidr with
       | Some e => Some e
       | None =>
           match ParseCIDR cidr with
           | None => Some (Errorf "subnet %s cidr %s is invalid, due to %w" [Name subnet; cidr])
           | Some (_, network) =>
               match InvalidNetworkMask network with
               | Some e => Some (Errorf "subnet %s cidr %s mask is invalid, due to %w" [Name subnet; cidr])
               | None => None
               end
           end
       end.

Definition validateSubnetCIDRBlocks (subnet : SubnetSpec) : option err :=
  first_err (check_cidr_block subnet) (Split (CIDRBlock subnet) ",").

(** One excluded address or range. *)
Definition check_exclude (ipr : string) : option err :=
  if ContainsUppercase ipr then Some (Errorf "subnet exclude ip %s can not contain upper case" [ipr])
  else
    match Split ipr ".." with
    | [a] => if isNil (ParseIP a) then Some (Errorf "ip %s in excludeIps is not a valid address" [a]) else None
    | [a; b] =>
        if isNil (ParseIP a) then Some (Errorf "ip %s in excludeIps is not a valid address" [a])
        else if isNil (ParseIP b) then Some (Errorf "ip %s in excludeIps is not a valid address" [b])
        else if IP2BigInt b <? IP2BigInt a then Some (Errorf "%s in excludeIps is not a valid ip range" [ipr])
        else None
    | _ => Some (Errorf "%s in excludeIps is not a valid ip range" [ipr])
    end.

Definition check_allow (subnet : SubnetSpec) (cidr : string) : option err :=
  if ContainsUppercase cidr
  then Some (Errorf "subnet %s allow subnet %s v6 ip address can not contain upper case" [Name subnet; cidr])
  else match ParseCIDR cidr with
       | None => Some (Errorf "%s in allowSubnets is not a valid address" [cidr])
       | Some _ => None
       end.

Definition check_vip (subnet : SubnetSpec) (vip : string) : option err :=
  if ContainsUppercase vip
  then Some (Errorf "subnet %s vips %s v6 ip address can not contain upper case" [Name subnet; vip])
  else if negb (CIDRContainIP (CIDRBlock subnet) vip)
  then Some (Errorf "vip %s conflicts with subnet %s cidr %s" [vip; Name subnet; CIDRBlock subnet])
  else None.

(** *** Outgoing NAT rules *)

(** The loop over the items: [lastProtocol] so far. *)
Fixpoint nat_items (matchIPStr lastProtocol : string) (ipItems : list string) : result string :=
  match ipItems with
  | [] => Ok lastProtocol
  | ipItem :: ipItems' =>
      let text := match ParseCIDR ipItem with
                  | Some (_, ipCidr) => Some (IPNet_String ipCidr)
                  | None => if IsValidIP ipItem then Some ipItem else None
                  end in
      match text with
      | None => Err (Errorf "match ips %s is not ip or ipcidr" [matchIPStr])
      | Some t =>
          let current := CheckProtocol t in
          if nonempty lastProtocol && negb (bool_decide (lastProtocol = current))
          then Err (Errorf "match ips %s protocol is not consistent" [matchIPStr])
          else nat_items matchIPStr current ipItems'
      end
  end.

Definition validateNatOutgoingPolicyRuleIPs (matchIPStr0 : string) : result string :=
  let matchIPStr := TrimSpace matchIPStr0 in
  if bool_decide (matchIPStr = "") then Err (Errorf "IPStr should not be empty" [])
  else nat_items matchIPStr "" (Split matchIPStr ",").

(** The protocol of one side of a rule; an empty side has none. *)
Definition nat_side (fmt ips : string) : result string :=
  if nonempty ips then
    match validateNatOutgoingPolicyRuleIPs ips with Ok p => Ok p | Err _ => Err (Errorf fmt [ips]) end
  else Ok "".

Definition check_nat_rule (rule : NatMatch) : option err :=
  match nat_side "validate nat policy rules src ips %s failed with err %w" (SrcIPs rule) with
  | Err e => Some e
  | Ok srcProtocol =>
      match nat_side "validate nat policy rules dst ips %s failed with err %w" (DstIPs rule) with
      | Err e => Some e
      | Ok dstProtocol =>
          if nonempty srcProtocol && nonempty dstProtocol && negb (bool_decide (srcProtocol = dstProtocol))
          then Some (Errorf "Match.SrcIPS protocol %s not equal to Match.DstIPs protocol %s" [srcProtocol; dstProtocol])
          else None
      end
  end.

Definition validateNatOutgoingPolicyRules (subnet : SubnetSpec) : option err :=
  first_err check_nat_rule (NatOutgoingPolicyRules subnet).

(** *** The egress gateway and the interconnection address *)

Definition check_egress (noCIDR : bool) (subnet : SubnetSpec) : option err :=
  let egw := ExternalEgressGateway subnet in
  if bool_decide (egw = "") then None
  else if NatOutgoing subnet then Some (Errorf "conflict configuration: natOutgoing and externalEgressGateway" [])
  else if ContainsUppercase egw
  then Some (Errorf "subnet %s external egress gateway %s v6 ip address can not contain upper case" [Name subnet; egw])
  else
    let ips := Split egw "," in
    if (2 <? length ips)%nat then Some (Errorf "invalid external egress gateway configuration" [])
    else
      match first_err (fun ip => if isNil (ParseIP ip)
                         then Some (Errorf "IP %s in externalEgressGateway is not a valid address" [ip]) else None) ips with
      | Some e => Some e
      | None =>
          let egwProtocol := CheckProtocol egw in
          let cidrProtocol := CheckProtocol (CIDRBlock subnet) in
          if negb noCIDR && negb (bool_decide (egwProtocol = cidrProtocol)) &&
             negb (bool_decide (cidrProtocol = ProtocolDual))
          then Some (Errorf "invalid external egress gateway configuration: address family is conflict with CIDR" [])
          else None
      end.

Definition check_u2o (noCIDR : bool) (subnet : SubnetSpec) : option err :=
  let u2o := U2OInterconnectionIP subnet in
  if bool_decide (u2o = "") then None
  else if noCIDR
  then Some (Errorf "u2oInterconnectionIP is not supported for underlay subnet %s without cidrBlock" [Name subnet])
  else if ContainsUppercase u2o
  then Some (Errorf "subnet %s U2O interconnection ip %s v6 ip address can not contain upper case" [Name subnet; u2o])
  else if negb (CIDRContainIP (CIDRBlock subnet) u2o)
  then Some (Errorf "u2oInterconnectionIP %s is not in subnet %s cidr %s" [u2o; Name subnet; CIDRBlock subnet])
  else
    let '(gatewayV4, gatewayV6) := SplitStringIP (Gateway subnet) in
    let '(u2oV4, u2oV6) := SplitStringIP u2o in
    let same a b := negb (isNil (ParseIP a)) && negb (isNil (ParseIP b)) && netIP_Equal (ParseIP a) (ParseIP b) in
    if same u2oV4 gatewayV4 || same u2oV6 gatewayV6
    then Some (Errorf "u2oInterconnectionIP %s conflicts with subnet gateway %s" [u2o; Gateway subnet])
    else None.

(** *** The whole validation *)

Definition valid_gateway_type (t : string) : bool :=
  bool_decide (t = "") || bool_decide (t = GWDistributedType) || bool_decide (t = GWCentralizedType).

Definition valid_protocol (p : string) : bool :=
  bool_decide (p = "") || bool_decide (p = ProtocolIPv4) || bool_decide (p = ProtocolIPv6) ||
  bool_decide (p = ProtocolDual) || bool_decide (p = ProtocolMac).

Definition low_mtu (subnet : SubnetSpec) : bool :=
  (0 <? Mtu subnet) && (Mtu subnet <? IPv6MinMTU) &&
  (bool_decide (CheckProtocol (CIDRBlock subnet) = ProtocolIPv6) ||
   bool_decide (CheckProtocol (CIDRBlock subnet) = ProtocolDual)).

Definition isUnderlayWithoutCIDR (subnet : SubnetSpec) : bool :=
  nonempty (Vlan subnet) && bool_decide (CIDRBlock subnet = "").

Definition ValidateSubnet (k8sAPIServer : string) (subnet : SubnetSpec) : check :=
  let noCIDR := isUnderlayWithoutCIDR subnet in
  first_fail
    [ (if noCIDR then Done (validateMacOnlySubnet subnet) else validateSubnetCIDR subnet);
      Done (first_err check_exclude (ExcludeIps subnet));
      only_if (negb noCIDR) (Done (validateSubnetCIDRBlocks subnet));
      Done (first_err (check_allow subnet) (AllowSubnets subnet));
      fail_if (negb (valid_gateway_type (GatewayType subnet)))
        (Errorf "%s is not a valid gateway type" [GatewayType subnet]);
      fail_if (negb (valid_protocol (Protocol subnet)))
        (Errorf "%s is not a valid protocol type" [Protocol subnet]);
      fail_if (low_mtu subnet)
        (Errorf "subnet %s mtu %d is below the IPv6 minimum %d" [Name subnet; Itoa (Mtu subnet); Itoa IPv6MinMTU]);
      fail_if (bool_decide (Vpc subnet = Name subnet))
        (Errorf "subnet %s and vpc %s cannot have the same name" [Name subnet; Vpc subnet]);
      fail_if (negb noCIDR && bool_decide (Vpc subnet = DefaultVpc) && nonempty k8sAPIServer &&
               CIDRContainIP (CIDRBlock subnet) k8sAPIServer)
        (Errorf "subnet %s cidr %s conflicts with k8s apiserver svc ip %s" [Name subnet; CIDRBlock subnet; k8sAPIServer]);
      Done (check_egress noCIDR subnet);
      only_if (negb (length (Vips subnet) =? 0)%nat)
        (if noCIDR
         then Done (Some (Errorf "vips are not supported for underlay subnet %s without cidrBlock" [Name subnet]))
         else Done (first_err (check_vip subnet) (Vips subnet)));
      fail_if (LogicalGateway subnet && U2OInterconnection subnet)
        (Errorf "logicalGateway and u2oInterconnection can't be opened at the same time" []);
      only_if (OverlayOnlyRouting subnet) (first_fail
        [ fail_if (negb (U2OInterconnection subnet))
            (Errorf "u2oFeatures.overlayOnlyRouting can only be enabled when u2OInterconnection is true" []);
          fail_if (bool_decide (Vlan subnet = ""))
            (Errorf "u2oFeatures.overlayOnlyRouting can only be enabled on underlay subnets (vlan must be set)" []) ]);
      only_if (negb (length (NatOutgoingPolicyRules subnet) =? 0)%nat)
        (Done (validateNatOutgoingPolicyRules subnet));
      Done (check_u2o noCIDR subnet) ].

(** ** Conflicts between subnets *)

Definition check_conflict (subnet sub : SubnetSpec) : option err :=
  if negb (bool_decide (Vpc sub = Vpc subnet)) || negb (bool_decide (Vlan sub = Vlan subnet)) ||
     bool_decide (Name sub = Name subnet)
  then None
  else if nonempty (CIDRBlock subnet) && nonempty (CIDRBlock sub) && CIDROverlap (CIDRBlock sub) (CIDRBlock subnet)
  then Some (Errorf "subnet %s cidr %s is conflict with subnet %s cidr %s"
                    [Name subnet; CIDRBlock subnet; Name sub; CIDRBlock sub])
  else if nonempty (ExternalEgressGateway subnet) && nonempty (ExternalEgressGateway sub) &&
          (PolicyRoutingTableID subnet =? PolicyRoutingTableID sub)
  then Some (Errorf "subnet %s policy routing table ID %d is conflict with subnet %s policy routing table ID %d"
                    [Name subnet; Itoa (PolicyRoutingTableID subnet); Name sub; Itoa (PolicyRoutingTableID sub)])
  else None.

Definition ValidateCidrConflict (subnet : SubnetSpec) (subnetList : list SubnetSpec) : option err :=
  first_err (check_conflict subnet) subnetList.

(** ** VPCs *)

Record StaticRoute := mkStaticRoute { srPolicy : string; srCIDR : string; srNextHopIP : string }.
Record PolicyRoute := mkPolicyRoute { prAction : string; prNextHopIP : string }.
Record VpcSpec := mkVpc {
  StaticRoutes : list StaticRoute;
  PolicyRoutes : list PolicyRoute;
  VpcPeerings : list string
}.

Definition check_static_route (item : StaticRoute) : option err :=
  if nonempty (srPolicy item) && negb (bool_decide (srPolicy item = "policyDst")) &&
     negb (bool_decide (srPolicy item = "policySrc"))
  then Some (Errorf "unknown policy type: %s" [srPolicy item])
  else if contains_char "/"%char (srCIDR item) && bool_decide (ParseCIDR (srCIDR item) = None)
  then Some (Errorf "invalid cidr %s: %w" [srCIDR item])
  else if negb (contains_char "/"%char (srCIDR item)) && isNil (ParseIP (srCIDR item))
  then Some (Errorf "invalid IP %s" [srCIDR item])
  else if isNil (ParseIP (srNextHopIP item)) then Some (Errorf "invalid next hop IP %s" [srNextHopIP item])
  else None.

Definition check_policy_route (item : PolicyRoute) : option err :=
  if negb (bool_decide (prAction item = "reroute")) && negb (bool_decide (prAction item = "allow")) &&
     negb (bool_decide (prAction item = "drop"))
  then Some (Errorf "unknown policy action: %s" [prAction item])
  else if bool_decide (prAction item = "reroute") && existsb (fun ip => isNil (ParseIP ip)) (Split (prNextHopIP item) ",")
  then Some (Errorf "invalid next hop ips: %s" [prNextHopIP item])
  else None.

Definition check_peering (localConnectIP : string) : option err :=
  match CheckCidrs localConnectIP with
  | Some _ => Some (Errorf "invalid cidr %s" [localConnectIP])
  | None => None
  end.

Definition ValidateVpc (vpc : VpcSpec) : option err :=
  match first_err check_static_route (StaticRoutes vpc) with
  | Some e => Some e
  | None =>
      match first_err check_policy_route (PolicyRoutes vpc) with
      | Some e => Some e
      | None => first_err check_peering (VpcPeerings vpc)
      end
  end.
