(* ===== verification/ValidatorFacts.v ===== *)
(** * What an accepted subnet guarantees

    The admission checks of [pkg/util/validator.go] against the preconditions
    of the allocator: the networks of an accepted subnet are the ones
    [pkg/ipam] can work with. *)
From S2P Require Import Prelude GoStrings GoNet GoNetText Ip IpRange IpRangeList IpRangeListFacts UtilNet CidrFacts Hosts Subnet SubnetInv SubnetAlloc SubnetNew IpPool IpPoolFacts Validator.

Local Open Scope Z_scope.

(** ** Networks as intervals, and lists of networks

    What [IPNet_Contains], [CheckProtocol] and [CIDROverlap] mean for networks
    that lie in one block of values. *)

(** ** Addresses in networks *)

Definition in_net (n : IPNet) (v : Z) : Prop := net_lo n <= v <= net_hi n.

(** The address of a parsed CIDR lies in its network. *)
Lemma ParseCIDR_in s ip n : ParseCIDR s = Some (ip, n) -> valid_ip ip /\ in_net n (ipv ip).
Proof.
  intros E. destruct (ParseCIDR_net _ _ _ E) as (b & ones & -> & Hn).
  pose proof (net_valid _ _ _ Hn) as Hb. destruct (To16_valid b Hb) as [B16 L16].
  destruct (net_valid_ip _ _ _ Hn) as [Hni Hlen].
  assert (Ev : ipv (To16 b) = ipv b) by (unfold ipv; by rewrite (To16_16 (To16 b))).
  assert (Hw : exists B, width (length b) B) by (destruct Hb as [_ [->| ->]]; eexists; [by left|by right]).
  destruct Hw as [B Hw]. pose proof (net_host_bits _ _ _ Hn) as Hh. pose proof (net_ones _ _ _ Hn) as Ho.
  pose proof (be_val_mask b ones (proj1 Hb) Ho) as Hm. cbn zeta in Hm. rewrite <-Hh in Hm.
  rewrite Ev. split; [split; auto|]. unfold in_net, net_hi, net_lo.
  rewrite (base_val _ _ (nIP n) Hw) by (apply Hni || done). rewrite (base_val _ _ b Hw) by (apply Hb || done).
  rewrite (net_ip _ _ _ Hn), Hm. pose proof (pow2_pos (host_bits n) ltac:(lia)).
  pose proof (Z.div_mod (be_val b) (2 ^ host_bits n) ltac:(lia)).
  pose proof (Z.mod_pos_bound (be_val b) (2 ^ host_bits n) ltac:(lia)). nia.
Qed.

Lemma ParseCIDR_own s ip n : ParseCIDR s = Some (ip, n) -> clean_net n ->
  valid_ip ip /\ in_net n (ipv ip) /\ v4_val (ipv ip) = v4_val (net_lo n).
Proof.
  intros E Hc. destruct (ParseCIDR_in s ip n E) as [Hv Hin]. split; [done|]. split; [done|].
  destruct (clean_net_in n (ipv ip) Hc) as [_ ->]; [unfold in_net in Hin; lia|done].
Qed.

(** The bounds of a parsed network. *)
Lemma net_bounds n b ones : net_of n b ones ->
  base (length (nIP n)) <= net_lo n /\
  net_hi n < base (length (nIP n)) + 256 ^ Z.of_nat (length (nIP n)).
Proof.
  intros Hn. destruct (net_valid_ip _ _ _ Hn) as [[Hb Hl] Hlen].
  assert (Hw : exists B, width (length (nIP n)) B) by (destruct Hl as [->| ->]; eexists; [by left|by right]).
  destruct Hw as [B Hw]. pose proof (be_val_bound _ Hb) as Hv. destruct (net_be_val _ _ _ Hn) as [q Hq].
  pose proof (net_host_bits_nonneg _ _ _ Hn) as Hh0. pose proof (pow2_pos _ Hh0).
  assert (HB : 256 ^ Z.of_nat (length (nIP n)) = 2 ^ B /\ B = 8 * Z.of_nat (length (nIP n)))
    by (destruct Hw as [[-> ->]|[-> ->]]; done). destruct HB as [HB HB8].
  assert (Hle : host_bits n <= B).
  { rewrite (net_host_bits _ _ _ Hn), HB8, Hlen. pose proof (net_ones _ _ _ Hn). lia. }
  unfold net_hi, net_lo. rewrite (base_val _ _ (nIP n) Hw) by done. rewrite HB in *.
  pose proof (multiples_apart (2 ^ host_bits n) (be_val (nIP n)) (2 ^ B) ltac:(lia) ltac:(by exists q)
    ltac:(apply pow2_divide; lia) ltac:(lia)). lia.
Qed.

Lemma land_bytes_idem a m : land_bytes (land_bytes a m) m = land_bytes a m.
Proof.
  unfold land_bytes. revert m. induction a as [|x a IH]; intros [|y m]; try done.
  simpl. rewrite IH. f_equal. by rewrite <-Z.land_assoc, Z.land_diag.
Qed.

(** A network is the network of its own first address. *)
Lemma net_of_self n b ones : net_of n b ones -> net_of n (nIP n) (fst (Mask_Size (nMask n))).
Proof.
  intros Hn. pose proof Hn as [Hv Ho Hm Hi]. destruct (net_valid_ip _ _ _ Hn) as [Hni Hlen].
  rewrite Hm, Mask_Size_CIDRMask by (done || apply Hv). cbn [fst].
  constructor; rewrite ?Hlen; try done. rewrite Hi at 1. rewrite Hi. by rewrite land_bytes_idem.
Qed.

(** Membership in a clean network, for an address that may be of any family. *)
Lemma Contains_in_net n a : clean_net n -> valid_ip a -> IPNet_Contains n a = true <-> in_net n (ipv a).
Proof.
  intros Hc Ha. rewrite (IPNet_Contains_val _ _ _ _ (cn_net _ Hc) Ha). unfold in_net.
  rewrite !andb_true_iff, !Z.leb_le, eqb_true_iff. split; [tauto|]. intros Hv. split; [|lia]. split; [|lia].
  destruct (clean_net_in n (ipv a) Hc ltac:(lia)) as [_ ->]. done.
Qed.

(** Two aligned blocks that share a value are nested. *)
Lemma nested_blocks a h b k v : 0 <= h <= k -> (2 ^ h | a) -> (2 ^ k | b) ->
  a <= v < a + 2 ^ h -> b <= v < b + 2 ^ k -> b <= a /\ a + 2 ^ h <= b + 2 ^ k.
Proof.
  intros Hhk Ha Hb Hv1 Hv2. pose proof (pow2_pos h ltac:(lia)). pose proof (pow2_pos k ltac:(lia)).
  assert (Hb' : (2 ^ h | b)) by (etransitivity; [apply (pow2_divide h k); lia|done]).
  assert (He : (2 ^ h | b + 2 ^ k)) by (apply Z.divide_add_r; [done|apply pow2_divide; lia]).
  split.
  - destruct (decide (b <= a)); [done|]. pose proof (multiples_apart (2 ^ h) a b ltac:(lia) Ha Hb' ltac:(lia)). lia.
  - destruct (decide (a < b + 2 ^ k)); [by apply multiples_apart|lia].
Qed.

Lemma nets_nested n m v : clean_net n -> clean_net m -> host_bits n <= host_bits m ->
  in_net n v -> in_net m v -> forall w, in_net n w -> in_net m w.
Proof.
  intros Hn Hm Hle Hv1 Hv2 w Hw. destruct (clean_net_le n Hn) as [_ H0]. unfold in_net, net_hi in *.
  pose proof (nested_blocks (net_lo n) (host_bits n) (net_lo m) (host_bits m) v ltac:(lia)
    (net_lo_aligned _ _ _ (cn_net _ Hn)) (net_lo_aligned _ _ _ (cn_net _ Hm)) ltac:(lia) ltac:(lia)). lia.
Qed.

(** The protocol of a clean CIDR tells the family of its network. *)
Lemma clean_protocol s ip n : Split s "," = [s] -> ParseCIDR s = Some (ip, n) -> clean_net n ->
  CheckProtocol s = if v4_val (net_lo n) then ProtocolIPv4 else ProtocolIPv6.
Proof.
  intros Hs E Hc. rewrite (CheckProtocol_cidr s ip n Hs E). destruct (ParseCIDR_own s ip n E Hc) as (Hv & _ & <-).
  destruct (To4_spec ip Hv) as [(-> & -> & _)|(-> & -> & _)]; done.
Qed.

(** ** Lists of networks *)

(** The addresses of a comma-separated list of networks. *)
Definition covers (cidr : string) (v : Z) : Prop :=
  exists b ip n, b ∈ Split cidr "," /\ ParseCIDR b = Some (ip, n) /\ in_net n v.

Lemma Split_piece s b : b ∈ Split s "," -> Split b "," = [b].
Proof.
  intros Hb. pose proof (Split_pieces (Ascii.ascii_of_nat 44) s) as Hp. rewrite Forall_forall in Hp.
  apply (Split_none (Ascii.ascii_of_nat 44)), Hp, Hb.
Qed.

(** The test of one pair of blocks. *)
Lemma overlap_pair a b ia na ib nb :
  Split a "," = [a] -> Split b "," = [b] -> ParseCIDR a = Some (ia, na) -> ParseCIDR b = Some (ib, nb) ->
  clean_net na -> clean_net nb ->
  overlap_inner a [b] = Some true /\ (exists v, in_net na v /\ in_net nb v) \/
  overlap_inner a [b] = None /\ ~ (exists v, in_net na v /\ in_net nb v).
Proof.
  intros Sa Sb Ea Eb Ca Cb. cbn [overlap_inner].
  destruct (ParseCIDR_own a ia na Ea Ca) as (Va & Ia & Fa), (ParseCIDR_own b ib nb Eb Cb) as (Vb & Ib & Fb).
  unfold same_protocol. rewrite (clean_protocol a ia na Sa Ea Ca), (clean_protocol b ib nb Sb Eb Cb), Ea, Eb.
  assert (Hfam : forall v, in_net na v -> in_net nb v -> v4_val (net_lo na) = v4_val (net_lo nb)).
  { intros v Hv1 Hv2. destruct (clean_net_in na v Ca ltac:(unfold in_net in *; lia)) as [_ <-].
    by destruct (clean_net_in nb v Cb ltac:(unfold in_net in *; lia)) as [_ <-]. }
  destruct (IPNet_Contains na ib || IPNet_Contains nb ia) eqn:Ec.
  - assert (Hex : exists v, in_net na v /\ in_net nb v).
    { apply orb_true_iff in Ec as [Ec|Ec]; apply Contains_in_net in Ec; eauto. }
    left. split; [|done]. destruct Hex as (v & H1 & H2). by rewrite (Hfam v H1 H2), bool_decide_true.
  - right. split; [by destruct (negb _)|]. intros (v & H1 & H2).
    apply orb_false_iff in Ec as [E1 E2]. apply not_true_iff_false in E1, E2.
    rewrite Contains_in_net in E1, E2 by done.
    destruct (decide (host_bits na <= host_bits nb)).
    + apply E2, (nets_nested na nb v); done.
    + apply E1, (nets_nested nb na v); done || lia.
Qed.

Lemma overlap_inner_cons a b bs : overlap_inner a (b :: bs) =
  match overlap_inner a [b] with Some r => Some r | None => overlap_inner a bs end.
Proof.
  cbn [overlap_inner]. destruct (negb _); [done|]. destruct (ParseCIDR a) as [[ia na]|]; [|done].
  destruct (ParseCIDR b) as [[ib nb]|]; [|done]. by destruct (_ || _).
Qed.

(** The blocks of a list, with what is known of each. *)
Definition clean_piece (b : string) : Prop := Split b "," = [b] /\ clean_cidr b.

Definition shares (b : string) (v : Z) : Prop := exists ip n, ParseCIDR b = Some (ip, n) /\ in_net n v.

Lemma overlap_inner_iff a bs : clean_piece a -> Forall clean_piece bs ->
  overlap_inner a bs = Some true /\ (exists b v, b ∈ bs /\ shares a v /\ shares b v) \/
  overlap_inner a bs = None /\ ~ (exists b v, b ∈ bs /\ shares a v /\ shares b v).
Proof.
  intros [Sa Ca]. unfold clean_cidr in Ca. destruct (ParseCIDR a) as [[ia na]|] eqn:Ea; [|done].
  induction 1 as [|b bs [Sb Cb] _ IH].
  { right. split; [done|]. by intros (? & ? & []%elem_of_nil & _). }
  unfold clean_cidr in Cb. destruct (ParseCIDR b) as [[ib nb]|] eqn:Eb; [|done].
  rewrite overlap_inner_cons. destruct (overlap_pair a b ia na ib nb Sa Sb Ea Eb Ca Cb) as [[-> (v & H1 & H2)]|[-> Hno]].
  - left. split; [done|]. exists b, v. split; [by left|]. split; [by exists ia, na|by exists ib, nb].
  - destruct IH as [[-> (b' & v & Hin & Hs)]|[-> Hn]].
    + left. split; [done|]. exists b', v. split; [by right|done].
    + right. split; [done|]. intros (b' & v & [->|Hin]%elem_of_cons & (i1 & n1 & E1 & H1) & (i2 & n2 & E2 & H2)).
      * apply Hno. exists v. rewrite Ea in E1. rewrite Eb in E2. injection E1 as <- <-. injection E2 as <- <-. done.
      * apply Hn. exists b', v. split; [done|]. split; [by exists i1, n1|by exists i2, n2].
Qed.

Lemma overlap_outer_iff as_ bs : Forall clean_piece as_ -> Forall clean_piece bs ->
  overlap_outer as_ bs = true <-> exists a b v, a ∈ as_ /\ b ∈ bs /\ shares a v /\ shares b v.
Proof.
  intros Ha Hb. induction Ha as [|a as_ Pa _ IH]; cbn [overlap_outer].
  { split; [done|]. by intros (? & ? & ? & []%elem_of_nil & _). }
  destruct (overlap_inner_iff a bs Pa Hb) as [[-> (b & v & Hin & Hs)]|[-> Hn]].
  - split; [|done]. intros _. exists a, b, v. split; [by left|done].
  - rewrite IH. split.
    + intros (a' & b & v & Hin & Hr). exists a', b, v. split; [by right|done].
    + intros (a' & b & v & [->|Hin]%elem_of_cons & Hr); [exfalso; apply Hn; eauto|exists a', b, v; done].
Qed.

Lemma clean_pieces s : Forall clean_cidr (Split s ",") -> Forall clean_piece (Split s ",").
Proof.
  intros H. apply Forall_forall. intros b Hb. split; [by eapply Split_piece|].
  rewrite Forall_forall in H. by apply H.
Qed.

Lemma CIDROverlap_iff a b : Forall clean_cidr (Split a ",") -> Forall clean_cidr (Split b ",") ->
  CIDROverlap a b = true <-> exists v, covers a v /\ covers b v.
Proof.
  intros Ha%clean_pieces Hb%clean_pieces. unfold CIDROverlap, covers. rewrite overlap_outer_iff by done. split.
  - intros (x & y & v & Hx & Hy & (i1 & n1 & ?) & (i2 & n2 & ?)). exists v. split; [exists x, i1, n1|exists y, i2, n2]; done.
  - intros (v & (x & i1 & n1 & Hx & ?) & (y & i2 & n2 & Hy & ?)). exists x, y, v.
    split; [done|]. split; [done|]. split; [by exists i1, n1|by exists i2, n2].
Qed.

(** ** Passing a list of checks *)

Lemma first_fail_None cs : first_fail cs = Done None <-> Forall (fun c => c = Done None) cs.
Proof.
  induction cs as [|c cs IH]; cbn [first_fail]; [split; [constructor|done]|].
  rewrite Forall_cons, <-IH. destruct c as [[e|]| |]; cbn [mbind outcome_bind];
    (split; [intros H; by split|by intros [? ?]]).
Qed.

Lemma first_err_None {A} (f : A -> option err) l : first_err f l = None <-> Forall (fun x => f x = None) l.
Proof.
  induction l as [|x l IH]; cbn [first_err]; [split; [constructor|done]|].
  rewrite Forall_cons, <-IH. destruct (f x); (split; [intros H; by split|by intros [? ?]]).
Qed.

Lemma fail_if_None b e : fail_if b e = Done None <-> b = false.
Proof. unfold fail_if. destruct b; naive_solver. Qed.

Lemma only_if_None b c : only_if b c = Done None <-> (b = true -> c = Done None).
Proof. unfold only_if. destruct b; naive_solver. Qed.

Lemma wrapped_None fmt args c : wrapped fmt args c = Done None <-> c = Done None.
Proof. unfold wrapped. destruct c as [[e|]| |]; cbn; naive_solver. Qed.

(** ** The CIDR of an accepted subnet *)

Lemma check_blocks_None cidr blk blocks : check_blocks cidr blk blocks = None ->
  Forall (fun '(r, _) => CIDROverlap blk r = false) blocks.
Proof.
  induction blocks as [|[r msg] blocks IH]; cbn [check_blocks]; [constructor|].
  destruct (CIDROverlap blk r) eqn:E; [done|]. intros H. constructor; auto.
Qed.

(** A block that passes [CIDRGlobalUnicast] stays clear of a reserved one. *)
Lemma unreserved blk r ib nb ir nr :
  CIDROverlap blk r = false -> Split blk "," = [blk] -> Split r "," = [r] ->
  same_protocol blk r = true -> ParseCIDR blk = Some (ib, nb) -> ParseCIDR r = Some (ir, nr) ->
  IPNet_Contains nb ir = false /\ IPNet_Contains nr ib = false.
Proof.
  unfold CIDROverlap. intros Ho Sb Sr Hp Eb Er. rewrite Sb, Sr in Ho. cbn [overlap_outer overlap_inner] in Ho.
  rewrite Hp, Eb, Er in Ho. cbn [negb] in Ho. destruct (IPNet_Contains nb ir), (IPNet_Contains nr ib); done.
Qed.

(** The blocks the allocator can work with as they are written: IPv4, or IPv6
    above the IPv4-mapped addresses. *)
Definition plain_block (b : string) : Prop :=
  match ParseCIDR b with
  | Some (_, n) => length (nIP n) = 4%nat \/ V4M + 2 <= net_lo n
  | None => True
  end.

#[global] Instance plain_block_dec b : Decision (plain_block b).
Proof. unfold plain_block. destruct (ParseCIDR b) as [[? ?]|]; apply _. Defined.

(** The network of a reserved block, computed from its text. *)
Definition net_read (s : string) : IPNet := match ParseCIDR s with Some (_, n) => n | None => mkIPNet [] [] end.
Definition addr_read (s : string) : netIP := match ParseCIDR s with Some (ip, _) => ip | None => [] end.

Lemma net_v4 n b ones : net_of n b ones -> length (nIP n) = 4%nat -> v4_val (net_lo n) = true.
Proof.
  intros Hn Hl. destruct (net_bounds _ _ _ Hn) as [H1 H2]. pose proof (net_host_bits_nonneg _ _ _ Hn) as Hh.
  pose proof (pow2_pos _ Hh). rewrite Hl in *. change (base 4) with V4B in *. change (256 ^ Z.of_nat 4) with 4294967296 in H2.
  unfold net_hi in H2. unfold v4_val. consts. apply andb_true_iff. rewrite !Z.leb_le. lia.
Qed.

(** An IPv4 block clear of 0.0.0.0 and 255.255.255.255. *)
Lemma clean_v4 b ip n : Split b "," = [b] -> ParseCIDR b = Some (ip, n) -> length (nIP n) = 4%nat ->
  CIDROverlap b IPv4Zero = false -> CIDROverlap b IPv4Broadcast = false -> clean_net n.
Proof.
  intros Sb E Hl Hz Hbc. destruct (ParseCIDR_net _ _ _ E) as (b0 & ones & Ei & Hn).
  destruct (net_valid_ip _ _ _ Hn) as [Hni Hlen]. pose proof (net_v4 _ _ _ Hn Hl) as H4.
  destruct (net_bounds _ _ _ Hn) as [H1 H2]. rewrite Hl in H1, H2. change (base 4) with V4B in *.
  change (256 ^ Z.of_nat 4) with 4294967296 in H2. pose proof (net_host_bits_nonneg _ _ _ Hn) as Hh. pose proof (pow2_pos _ Hh).
  assert (Hp : CheckProtocol b = ProtocolIPv4).
  { rewrite (CheckProtocol_cidr b ip n Sb E), Ei. rewrite Hlen in Hl. rewrite To16_4 by done.
    rewrite To4_16 by (rewrite length_app, Hl; done). rewrite bool_decide_true by done.
    by destruct b0 as [|x0 b0]. }
  assert (Hsp : forall r, CheckProtocol r = ProtocolIPv4 -> same_protocol b r = true).
  { intros r Er. unfold same_protocol. by rewrite Hp, Er, bool_decide_true. }
  destruct (unreserved b IPv4Zero ip n (To16 [0; 0; 0; 0]) (mkIPNet [0; 0; 0; 0] [255; 255; 255; 255]) Hz Sb) as [C0 _];
    [by vm_compute|apply Hsp; by vm_compute|done|by vm_compute|].
  destruct (unreserved b IPv4Broadcast ip n (To16 [255; 255; 255; 255])
    (mkIPNet [255; 255; 255; 255] [255; 255; 255; 255]) Hbc Sb) as [C1 _];
    [by vm_compute|apply Hsp; by vm_compute|done|by vm_compute|].
  rewrite (IPNet_Contains_val n b0 ones) in C0, C1 by (done || (apply (bool_decide_unpack _); by vm_compute)).
  rewrite H4 in C0, C1. change (ipv (To16 [0; 0; 0; 0])) with V4B in C0.
  change (ipv (To16 [255; 255; 255; 255])) with V4M in C1.
  change (v4_val V4B) with true in C0. change (v4_val V4M) with true in C1. cbn [eqb andb] in C0, C1.
  apply andb_false_iff in C0, C1. rewrite !Z.leb_gt in C0, C1. unfold net_hi in *. consts.
  assert (Hlo : 281470681743360 < net_lo n) by lia.
  assert (Hhi : net_lo n + 2 ^ host_bits n - 1 < 281474976710655) by lia.
  constructor; unfold net_hi.
  - by eapply net_of_self.
  - split; [done|]. fold (net_lo n). by rewrite H4.
  - unfold safe. consts. lia.
  - unfold safe. consts. lia.
  - unfold zone. consts. zbool; lia.
  - left. unfold v4_val. consts. apply andb_true_iff. rewrite !Z.leb_le. lia.
Qed.

(** An IPv6 block above the mapped addresses and clear of the multicast ones. *)
Lemma clean_v6 b ip n : Split b "," = [b] -> ParseCIDR b = Some (ip, n) -> V4M + 2 <= net_lo n ->
  CIDROverlap b IPv6Multicast = false -> clean_net n.
Proof.
  intros Sb E Hlo Hmc. destruct (ParseCIDR_net _ _ _ E) as (b0 & ones & _ & Hn).
  destruct (ParseCIDR_in _ _ _ E) as [Vip Iip].
  destruct (net_valid_ip _ _ _ Hn) as [Hni Hlen]. pose proof (net_host_bits_nonneg _ _ _ Hn) as Hh. pose proof (pow2_pos _ Hh).
  assert (H6 : v4_val (net_lo n) = false) by (unfold v4_val; consts; apply andb_false_iff; rewrite !Z.leb_gt; lia).
  assert (H6' : v4_val (ipv ip) = false).
  { unfold in_net in Iip. unfold v4_val. consts. apply andb_false_iff. rewrite !Z.leb_gt. lia. }
  assert (Hl : length (nIP n) = 16%nat).
  { destruct Hni as [_ [Hl|]]; [|done]. pose proof (net_v4 _ _ _ Hn Hl). congruence. }
  assert (Hp : CheckProtocol b = ProtocolIPv6).
  { rewrite (CheckProtocol_cidr b ip n Sb E). destruct (To4_spec ip Vip) as [(? & _)|(_ & -> & _)]; [congruence|done]. }
  set (mc := mkIPNet [255;0;0;0;0;0;0;0;0;0;0;0;0;0;0;0] [255;0;0;0;0;0;0;0;0;0;0;0;0;0;0;0]).
  destruct (unreserved b IPv6Multicast ip n (nIP mc) mc Hmc Sb) as [C0 C1];
    [by vm_compute|unfold same_protocol; rewrite Hp; by vm_compute|done|by vm_compute|].
  assert (Hm : net_of mc (nIP mc) 8) by (apply (bool_decide_unpack _); by vm_compute).
  rewrite (IPNet_Contains_val n b0 ones) in C0 by (done || (apply (bool_decide_unpack _); by vm_compute)).
  rewrite (IPNet_Contains_val mc (nIP mc) 8) in C1 by done.
  rewrite H6 in C0. rewrite H6' in C1.
  change (ipv (nIP mc)) with 338953138925153547590470800371487866880 in C0.
  change (v4_val 338953138925153547590470800371487866880) with false in C0.
  change (net_lo mc) with 338953138925153547590470800371487866880 in C1.
  change (v4_val 338953138925153547590470800371487866880) with false in C1.
  assert (Ehi : net_hi mc = TOP - 1) by (by vm_compute). rewrite Ehi in C1. cbn [eqb andb] in C0, C1.
  apply andb_false_iff in C0, C1. rewrite !Z.leb_gt in C0, C1.
  pose proof (ipv_bound ip Vip). unfold in_net, net_hi in *. consts.
  assert (Hhi : net_lo n + 2 ^ host_bits n - 1 < 338953138925153547590470800371487866880) by lia.
  constructor; unfold net_hi.
  - by eapply net_of_self.
  - split; [done|]. fold (net_lo n). by rewrite H6.
  - unfold safe. consts. lia.
  - unfold safe. consts. lia.
  - unfold zone. consts. zbool; lia.
  - right. consts. lia.
Qed.

(** ** Accepted subnets *)

Record accepted (subnet : SubnetSpec) : Prop := {
  ac_gateway : Gateway subnet <> "" ->
    CIDRContainIP (CIDRBlock subnet) (Gateway subnet) = true /\
    ValidateNetworkBroadcast (CIDRBlock subnet) (Gateway subnet) = Done None;
  ac_blocks : forall b, b ∈ Split (CIDRBlock subnet) "," ->
    (exists ip n, ParseCIDR b = Some (ip, n) /\ InvalidNetworkMask n = None) /\
    Forall (fun '(r, _) => CIDROverlap b r = false) reserved_blocks;
  ac_protocol : CheckProtocol (CIDRBlock subnet) <> "";
  ac_excludes : Forall (fun e => check_exclude e = None) (ExcludeIps subnet)
}.

Lemma ValidateSubnet_accepted api subnet :
  ValidateSubnet api subnet = Done None -> isUnderlayWithoutCIDR subnet = false -> accepted subnet.
Proof.
  intros H Hu. unfold ValidateSubnet in H. rewrite Hu in H. apply first_fail_None in H.
  rewrite !Forall_cons in H. destruct H as (H1 & H2 & H3 & _).
  unfold validateSubnetCIDR in H1. apply first_fail_None in H1. rewrite !Forall_cons in H1.
  destruct H1 as (Hg & Hgl & Hp & _). rewrite only_if_None in Hg. rewrite fail_if_None in Hp.
  injection Hgl as Hgl. apply first_err_None in Hgl. injection H2 as H2. apply first_err_None in H2.
  rewrite only_if_None in H3. specialize (H3 eq_refl). injection H3 as H3. apply first_err_None in H3.
  rewrite Forall_forall in Hgl, H3. constructor.
  - intros Hne. unfold nonempty in Hg. rewrite bool_decide_false in Hg by done. specialize (Hg eq_refl).
    apply first_fail_None in Hg. rewrite !Forall_cons in Hg. destruct Hg as (_ & Hc & Hb & _).
    apply fail_if_None, negb_false_iff in Hc. by apply wrapped_None in Hb.
  - intros b Hb. split; [|apply (check_blocks_None (CIDRBlock subnet)), Hgl, Hb].
    specialize (H3 b Hb). revert H3. unfold check_cidr_block. destruct (ContainsUppercase (CIDRBlock subnet)); [done|].
    destruct (InvalidSpecialCIDR b); [done|]. destruct (ParseCIDR b) as [[ip n]|]; [|done].
    intros H3. exists ip, n. split; [done|]. by destruct (InvalidNetworkMask n).
  - by apply bool_decide_eq_false in Hp.
  - done.
Qed.

(** The networks of an accepted subnet are clean. *)
Lemma accepted_clean subnet : accepted subnet -> Forall plain_block (Split (CIDRBlock subnet) ",") ->
  Forall clean_cidr (Split (CIDRBlock subnet) ",").
Proof.
  intros [_ Hb _ _] Hp. rewrite !Forall_forall in *. intros b Hin.
  destruct (Hb b Hin) as [(ip & n & E & _) Hr]. specialize (Hp b Hin). unfold plain_block, clean_cidr in *.
  rewrite E in *. pose proof (Split_piece _ _ Hin) as Sb. unfold reserved_blocks in Hr. rewrite !Forall_cons in Hr.
  destruct Hr as (Hbc & _ & _ & Hz & _ & _ & _ & Hmc & _).
  destruct Hp as [Hl|Hl]; [by apply (clean_v4 b ip n)|by apply (clean_v6 b ip n)].
Qed.

Lemma accepted_clean_blocks subnet : accepted subnet ->
  Forall plain_block (Split (CIDRBlock subnet) ",") -> (length (Split (CIDRBlock subnet) ",") <= 2)%nat ->
  clean_blocks (CIDRBlock subnet).
Proof.
  intros Ha Hp Hl. pose proof (accepted_clean subnet Ha Hp) as Hc. unfold clean_blocks.
  destruct (Split (CIDRBlock subnet) ",") as [|a [|b [|]]] eqn:E; simpl in Hl; try lia.
  - by destruct (split_skip_nonempty "," 0 (CIDRBlock subnet)).
  - apply Split_single in E. subst a. by apply Forall_cons in Hc as [? _].
  - rewrite !Forall_cons in Hc. tauto.
Qed.
