(* ===== verification/GoText.v ===== *)
(** * More of [strings], [strconv], [errors] and [time]

    What the BFD supervisor uses of the standard library.  An [error] is its
    text; a [time.Time] is the number of nanoseconds since the zero time, a
    [time.Duration] a number of nanoseconds. *)
From Stdlib Require Import Ascii.
From S2P Require Import Prelude GoStrings GoNet GoNetText.

Local Open Scope Z_scope.

(** ** Errors *)

Abbreviation error := string.

(** [(T, error)]. *)
Abbreviation orError A := (A + error)%type.

Definition newline : string := String (chr 10) EmptyString.

(** [errors.Join]: nil when every argument is nil. *)
Definition errors_Join (es : list (option error)) : option error :=
  match omap id es with
  | [] => None
  | l => Some (Join l newline)
  end.

(** ** Text *)

(** The escapes of [strconv.Quote] for ASCII text. *)
Definition quote_char (c : ascii) : string :=
  let z := code c in
  let esc (x : string) := String (chr 92) x in
  if z =? 34 then esc (String c EmptyString)
  else if z =? 92 then esc (String c EmptyString)
  else if z =? 7 then esc "a" else if z =? 8 then esc "b" else if z =? 12 then esc "f"
  else if z =? 10 then esc "n" else if z =? 13 then esc "r" else if z =? 9 then esc "t"
  else if z =? 11 then esc "v"
  else if (z <? 32) || (z =? 127)
  then esc (String "x" (String (hex_digit (z / 16)) (String (hex_digit (z mod 16)) EmptyString)))
  else String c EmptyString.

Fixpoint quote_body (s : string) : string :=
  match s with EmptyString => EmptyString | String c s' => quote_char c +:+ quote_body s' end.

Definition Quote (s : string) : string :=
  String (chr 34) (quote_body s +:+ String (chr 34) EmptyString).

(** [strings.TrimPrefix] and [strings.TrimSuffix]. *)
Fixpoint strip_prefix (p s : string) : option string :=
  match p, s with
  | EmptyString, _ => Some s
  | String a p', String b s' => if bool_decide (a = b) then strip_prefix p' s' else None
  | String _ _, EmptyString => None
  end.

Definition TrimPrefix (s p : string) : string := default s (strip_prefix p s).
Definition TrimSuffix (s suf : string) : string := default s (CutSuffix s suf).

(** [strings.Fields]: the maximal runs without white space; [cur] is the run
    being read. *)
Fixpoint fields_from (cur : string) (s : string) : list string :=
  let flush := if bool_decide (cur = EmptyString) then [] else [cur] in
  match s with
  | EmptyString => flush
  | String c s' =>
      if is_space c then flush ++ fields_from EmptyString s'
      else fields_from (cur +:+ String c EmptyString) s'
  end.

Definition Fields (s : string) : list string := fields_from EmptyString s.

(** [strconv.ParseUint(s, 10, bits)]. *)
Definition ParseUint (s : string) (bits : Z) : option Z :=
  match s with
  | EmptyString => None
  | _ => n ← atoi_digits s 0; if n <? 2 ^ bits then Some n else None
  end.

(** ** Time *)

Abbreviation Time := Z.
Abbreviation Duration := Z.

Definition zeroTime : Time := 0.
Definition IsZero (t : Time) : bool := t =? 0.
Definition Before (a b : Time) : bool := a <? b.

Definition Second : Duration := 1000000000.
Definition Minute : Duration := 60 * Second.
Definition Hour : Duration := 60 * Minute.
Definition Millisecond : Duration := 1000000.

(** ** Slices *)

(** [l[i]]: a run-time panic out of range. *)
Definition at_index {A} (l : list A) (i : Z) : outcome A :=
  if i <? 0 then Panic else of_option (l !! Z.to_nat i).

Definition len {A} (l : list A) : Z := Z.of_nat (length l).

Arguments at_index : simpl never.
Arguments len : simpl never.

(** ** Integers *)

(** Wrap-around of a 64-bit [int] or [time.Duration]. *)
Definition int64 (z : Z) : Z := (z + 2 ^ 63) mod 2 ^ 64 - 2 ^ 63.

(** The value [strconv.Atoi] returns next to its error: the largest integer of
    the sign when the number is out of range, zero when it is not a number. *)
Definition Atoi_value (s : string) : Z :=
  match Atoi s with
  | Some n => n
  | None =>
      let neg := has_prefix "-" s in
      let body := match s with
                  | String c s' => if (code c =? 45) || (code c =? 43) then s' else s
                  | EmptyString => s
                  end in
      match body, atoi_digits body 0 with
      | EmptyString, _ | _, None => 0
      | _, Some _ => if neg then - 2 ^ 63 else 2 ^ 63 - 1
      end
  end.

(** ** [net.ParseMAC] *)

(** Groups of hexadecimal bytes, [width] bytes each, separated by [sep]. *)
Fixpoint mac_bytes (sep : ascii) (width left : nat) (s : string) : option (list Z) :=
  match s with
  | String a (String b rest) =>
      x ← hex_value a; y ← hex_value b;
      match left, rest with
      | S O, EmptyString => Some [16 * x + y]
      | S O, String c rest' =>
          if bool_decide (c = sep) then l ← mac_bytes sep width width rest'; Some (16 * x + y :: l) else None
      | S left', _ => l ← mac_bytes sep width left' rest; Some (16 * x + y :: l)
      | O, _ => None
      end
  | _ => None
  end.

(** Six, eight or twenty bytes in one of the three notations. *)
Definition ParseMAC (s : string) : option (list Z) :=
  hw ← match mac_bytes (chr 58) 1 1 s with
       | Some hw => Some hw
       | None => match mac_bytes (chr 45) 1 1 s with
                 | Some hw => Some hw
                 | None => mac_bytes (chr 46) 2 2 s
                 end
       end;
  if bool_decide (length hw = 6%nat \/ length hw = 8%nat \/ length hw = 20%nat) then Some hw else None.

(** ** Lemmas *)

Lemma int64_id z : - 2 ^ 63 <= z < 2 ^ 63 -> int64 z = z.
Proof. intros Hz. unfold int64. rewrite Z.mod_small by lia. lia. Qed.

Lemma at_index_in {A} (l : list A) i : 0 <= i < len l ->
  exists x, at_index l i = Done x /\ x ∈ l.
Proof.
  unfold at_index, len. intros H. replace (i <? 0) with false by lia.
  destruct (lookup_lt_is_Some_2 l (Z.to_nat i)) as [x Hx]; [lia|]. rewrite Hx.
  exists x. split; [done|]. by eapply list_elem_of_lookup_2.
Qed.

Lemma errors_Join_None es : errors_Join es = None <-> Forall (fun e => e = None) es.
Proof.
  unfold errors_Join. induction es as [|[e|] es IH]; simpl; [done|..].
  - split; [done|]. intros H. by inversion H.
  - rewrite Forall_cons. tauto.
Qed.

(** A text without a minus sign has no negative value. *)
Lemma Atoi_value_nonneg s : contains_char "-"%char s = false -> 0 <= Atoi_value s.
Proof.
  assert (Hd : forall t n z, 0 <= n -> atoi_digits t n = Some z -> 0 <= z).
  { induction t as [|a t IH]; simpl; intros n z Hn; [by intros [= <-]|]. destruct (is_digit a) eqn:Ed; [|done].
    apply IH. unfold is_digit in Ed. apply andb_true_iff in Ed as [? _]. lia. }
  intros Hs. assert (Hp : has_prefix "-" s = false).
  { destruct s as [|a s]; [done|]. simpl in Hs. apply orb_false_iff in Hs as [Hs _]. cbn [has_prefix].
    apply bool_decide_eq_false in Hs. rewrite bool_decide_false by (intros E; by apply Hs). done. }
  unfold Atoi_value, Atoi. rewrite Hp. cbv zeta.
  set (body := match s with String c0 s' => _ | EmptyString => s end).
  destruct body as [|a t] eqn:Eb; [done|]. rewrite <-Eb. destruct (atoi_digits body 0) as [n|] eqn:En; [|done]. cbn.
  apply Hd in En; [|done]. destruct (n <? 2 ^ 63); simpl; lia.
Qed.

(** ** Addresses of [net/netip]

    [netip.Addr] as the BFD supervisor and the egress observer use it: an IPv4
    address of 4 bytes, or an IPv6 address of 16 bytes with a zone (the empty
    string when there is none).  Unlike [net.IP], an IPv4-mapped address stays
    an IPv6 address.  Printing is undone by parsing. *)

Inductive Addr :=
  | AddrV4 (b : bytes)
  | AddrV6 (b : bytes) (zone : string).

#[global] Instance Addr_eq_dec : EqDecision Addr.
Proof. solve_decision. Defined.

(** [netip.ParseAddr]: the text up to the first ['%'] is the address of an
    IPv6 text, what follows is its zone, which must not be empty. *)
Definition ParseAddr (s : string) : option Addr :=
  match first_special s with
  | Some 46 => AddrV4 <$> v4_fields s 0 O []
  | Some 58 =>
      let '(a, zone, found) := Cut "%"%char s in
      if found && bool_decide (zone = EmptyString) then None
      else (fun b => AddrV6 b zone) <$> parse_v6 a
  | _ => None
  end.

Definition Is4 (a : Addr) : bool := match a with AddrV4 _ => true | AddrV6 _ _ => false end.

Definition Is4In6 (b : bytes) : bool := bool_decide (take 12 b = v4InV6Prefix).

Definition with_zone (s zone : string) : string :=
  if bool_decide (zone = EmptyString) then s else s +:+ "%" +:+ zone.

(** [netip.Addr.String]. *)
Definition Addr_String (a : Addr) : string :=
  match a with
  | AddrV4 b => string4 b
  | AddrV6 b zone =>
      with_zone (if Is4In6 b then "::ffff:" +:+ string4 (drop 12 b) else string6 b) zone
  end.

(** What [ParseAddr] returns. *)
Definition valid_addr (a : Addr) : Prop :=
  match a with
  | AddrV4 b => Forall byte b /\ length b = 4%nat
  | AddrV6 b _ => Forall byte b /\ length b = 16%nat
  end.

(** ** Round trip *)

Lemma first_special_app s t z : first_special s = Some z -> first_special (s +:+ t) = Some z.
Proof.
  induction s as [|c s IH]; [done|]. rewrite app_str_cons. simpl.
  by destruct (_ || _ || _); [|apply IH].
Qed.

(** The decimal digits of a byte, read as hexadecimal ones. *)
Lemma scan_hex_dec b rest : byte b ->
  exists v k, scan_hex (dec_byte b +:+ "." +:+ rest) 0 0 = Some (v, S k, "." +:+ rest).
Proof.
  unfold byte. intros H. unfold dec_byte.
  assert (Hd : forall d, 0 <= d < 10 -> chr (48 + d) = hex_digit d).
  { intros d Hd. unfold hex_digit. by replace (d <? 10) with true by lia. }
  rewrite !Hd by zdm.
  destruct (Z.leb_spec 100 b), (Z.leb_spec 10 b); try lia;
    rewrite ?Hd by zdm; rewrite ?app_str_cons, ?app_str_nil_l;
    rewrite ?scan_hex_step by (first [lia|zdm]); eauto.
Qed.

Lemma parse_v6_mapped ip : Forall byte ip -> length ip = 4%nat ->
  parse_v6 ("::ffff:" +:+ string4 ip) = Some (v4InV6Prefix ++ ip).
Proof.
  intros H Hl. destruct ip as [|a [|b [|c [|d [|]]]]]; try discriminate Hl.
  pose proof H as Hall. rewrite !Forall_cons in H. destruct H as (Ha & Hb & Hc & Hd & _).
  pose proof (string4_fields a b c d Ha Hb Hc Hd) as Hf.
  assert (Hno : contains_char "%"%char (string4 [a; b; c; d]) = false)
    by (apply (all_chars_not_contains v4_char); [done|by apply string4_chars]).
  unfold parse_v6. rewrite contains_char_app, Hno. cbn [orb contains_char].
  change (string4 [a; b; c; d]) with
    (dec_byte a +:+ "." +:+ dot_join (dec_byte <$> [b; c; d])) in *.
  destruct (scan_hex_dec a (dot_join (dec_byte <$> [b; c; d])) Ha) as (v & k & Hs).
  set (t := dec_byte a +:+ "." +:+ dot_join (dec_byte <$> [b; c; d])) in *.
  assert (Hh : exists x t', t = String x t' /\ (code x =? 58) = false).
  { subst t. unfold dec_byte. unfold byte in Ha.
    destruct (Z.leb_spec 100 a), (Z.leb_spec 10 a); try lia; rewrite ?app_str_cons;
      do 2 eexists; (split; [reflexivity|]); rewrite code_chr by zdm; zdm. }
  destruct Hh as (x & t' & Et & Hx).
  change ("::ffff:" +:+ t) with (String ":" (String ":" ("ffff:" +:+ t))).
  cbv beta iota. change ((code ":" =? 58) && (code ":" =? 58)) with true. cbv iota.
  change ("ffff:" +:+ t) with (String "f" ("fff:" +:+ t)). cbv iota.
  change (String "f" ("fff:" +:+ t)) with ("ffff" +:+ String ":" t).
  unfold v6_loop at 1. fold v6_loop.
  replace (scan_hex ("ffff" +:+ String ":" t) 0 0) with (Some (65535, 4%nat, String ":" t)) by done.
  cbn -[v6_loop t v6_finish]. rewrite Et. rewrite Hx, <-Et.
  cbn [v6_loop]. rewrite Hs. cbn -[t v4_fields v6_finish]. rewrite Hf. done.
Qed.

Lemma mapped_split b : length b = 16%nat -> Is4In6 b = true -> b = v4InV6Prefix ++ drop 12 b.
Proof.
  unfold Is4In6. intros Hl H. apply bool_decide_eq_true in H.
  by rewrite <-H at 1; rewrite take_drop.
Qed.

(** The printed address without its zone: an IPv6 text that parses. *)
Lemma v6_text_parses b : Forall byte b -> length b = 16%nat ->
  let t := if Is4In6 b then "::ffff:" +:+ string4 (drop 12 b) else string6 b in
  first_special t = Some 58 /\ contains_char "%"%char t = false /\ parse_v6 t = Some b.
Proof.
  intros Hb Hl. destruct (Is4In6 b) eqn:E; cbv zeta.
  - assert (H4 : Forall byte (drop 12 b)) by auto using Forall_drop.
    split; [done|]. rewrite contains_char_app.
    rewrite (all_chars_not_contains v4_char _ (string4 _)) by (done || by apply string4_chars). split; [done|].
    rewrite parse_v6_mapped by (done || rewrite length_drop; lia). f_equal. symmetry.
    by apply mapped_split.
  - split; [by apply first_special_v6; [apply string6_chars|apply string6_has_colon]|].
    split; [apply (all_chars_not_contains v6_char); [done|by apply string6_chars]|].
    by apply parse_v6_string6.
Qed.

Theorem ParseAddr_String a : valid_addr a -> ParseAddr (Addr_String a) = Some a.
Proof.
  destruct a as [b|b zone]; intros [Hb Hl]; unfold ParseAddr, Addr_String.
  - pose proof (parse_addr_string4 b Hb Hl) as H. unfold parse_addr in H.
    destruct (first_special (string4 b)) as [z|] eqn:E; [|done].
    destruct (decide (z = 46)) as [->|Hz]; [by rewrite H|].
    exfalso. destruct b as [|x [|y [|z' [|w [|]]]]]; try discriminate Hl.
    change (string4 [x; y; z'; w]) with (dec_byte x +:+ "." +:+ dot_join (dec_byte <$> [y; z'; w])) in E.
    rewrite first_special_digits in E by (apply dec_byte_digits; by inversion Hb).
    injection E as <-. done.
  - destruct (v6_text_parses b Hb Hl) as (Hf & Hno & Hp). unfold with_zone.
    case_bool_decide as Hz.
    + subst zone. by rewrite Hf, Cut_none, Hp by done.
    + rewrite (first_special_app _ _ _ Hf).
      match goal with |- context [Cut _ (?t +:+ "%" +:+ zone)] =>
        change (t +:+ "%" +:+ zone) with (t +:+ String "%" zone) end.
      rewrite Cut_app by done. rewrite bool_decide_false by done. simpl. by rewrite Hp.
Qed.

Lemma ParseAddr_valid s a : ParseAddr s = Some a -> valid_addr a.
Proof.
  unfold ParseAddr. destruct (first_special s) as [z|]; [|done].
  assert (z = 46 \/ z = 58 \/ (z <> 46 /\ z <> 58)) as [->|[->|[H1 H2]]] by lia; intros H.
  - destruct (v4_fields s 0 0 []) as [b|] eqn:E; [|done]. injection H as <-.
    apply v4_fields_valid in E as [Hb Hl]; [done|unfold byte; lia|constructor|simpl; lia].
  - destruct (Cut _ s) as [[t zone] found]. destruct (found && _); [done|].
    destruct (parse_v6 t) as [b|] eqn:E; [|done]. injection H as <-.
    by apply parse_v6_valid in E.
  - exfalso. destruct z as [|p|p]; try done. repeat (destruct p as [p|p|]; try done).
Qed.

(** Printing a parsed address gives a text that parses to the same address. *)
Corollary ParseAddr_normal s a : ParseAddr s = Some a -> ParseAddr (Addr_String a) = Some a.
Proof. eauto using ParseAddr_String, ParseAddr_valid. Qed.
