(* ===== verification/BfdControl.v ===== *)
(** * The client of the OpenBFDD control program ([pkg/bfddsupervisor/control.go])

    The control program is run as a command; what it prints and how it ends
    is decided by an environment of type [W].  The client parses the printed
    sessions, resets a session and checks that it was reset, and sends the
    configuration command by command. *)
From S2P Require Import Prelude GoStrings GoNet GoText.

Local Open Scope Z_scope.

(** ** Data *)

Definition SessionUp : string := "Up".
Definition SessionDown : string := "Down".
Definition SessionInit : string := "Init".
Definition SessionAdminDown : string := "AdminDown".

Record Session := mkSession { sID : Z; sLocal : string; sRemote : string; sState : string }.
Record SessionPair := mkPair { pLocal : string; pRemote : string }.

Record DaemonConfig := mkDaemon {
  MinTXMilliseconds : Z; MinRXMilliseconds : Z; Multiplier : Z; PeerIPs : list string }.

#[global] Instance Session_eq_dec : EqDecision Session.
Proof. solve_decision. Defined.
#[global] Instance SessionPair_eq_dec : EqDecision SessionPair.
Proof. solve_decision. Defined.

(** What the supervisor expects of a control client (the interface
    [ControlAdapter] of recovery.go); the context is part of the environment. *)
Class ControlAdapter (W : Type) := {
  Control_Status : W -> orError (list Session) * W;
  Control_Configure : DaemonConfig -> W -> option error * W;
  Control_Reset : SessionPair -> W -> option error * W
}.

(** Running a command ([exec.CommandContext] and [CombinedOutput]): its
    output, its error and the error of the command's context. *)
Class Exec (W : Type) := exec_command : list string -> W -> (string * option error * option error) * W.

(** ** Parsing the status *)

(** The attributes of a status line: the last occurrence of each counts. *)
Record line_fields := mkLine { l_id : string; l_local : string; l_remote : string; l_state : string }.

Definition read_field (x : line_fields) (field : string) : line_fields :=
  if has_prefix "id=" field then mkLine (TrimPrefix field "id=") (l_local x) (l_remote x) (l_state x)
  else if has_prefix "local=" field then mkLine (l_id x) (TrimPrefix field "local=") (l_remote x) (l_state x)
  else if has_prefix "remote=" field then mkLine (l_id x) (l_local x) (TrimPrefix field "remote=") (l_state x)
  else if has_prefix "state=" field then mkLine (l_id x) (l_local x) (l_remote x) (TrimPrefix field "state=")
  else x.

Definition valid_state (st : string) : bool :=
  bool_decide (st = SessionUp) || bool_decide (st = SessionDown) ||
  bool_decide (st = SessionInit) || bool_decide (st = SessionAdminDown).

(** One line of the listing; [None] for a line that is passed over. *)
Definition parse_line (line : string) : orError (option Session) :=
  let trimmed := TrimSpace line in
  if bool_decide (trimmed = "") || has_prefix "Session " trimmed then inl None
  else
    let x := foldl read_field (mkLine "" "" "" "") (Fields line) in
    match ParseAddr (l_local x), ParseAddr (l_remote x), ParseUint (l_id x) 32 with
    | Some localAddr, Some remoteAddr, Some id =>
        if bool_decide (l_state x = "") then inr ("invalid bfdd session status line " +:+ Quote line)
        else if valid_state (l_state x)
        then inl (Some (mkSession id (Addr_String localAddr) (Addr_String remoteAddr) (l_state x)))
        else inr ("invalid BFD session state " +:+ Quote (l_state x))
    | _, _, _ => inr ("invalid bfdd session status line " +:+ Quote line)
    end.

Fixpoint parse_lines (lines : list string) : orError (list Session) :=
  match lines with
  | [] => inl []
  | line :: rest =>
      match parse_line line with
      | inr e => inr e
      | inl o =>
          match parse_lines rest with
          | inr e => inr e
          | inl ss => inl (match o with Some s => s :: ss | None => ss end)
          end
      end
  end.

(** The body of [ControlClient.Status] after the command. *)
Definition parse_status (output : string) : orError (list Session) :=
  match Split (TrimSpace output) newline with
  | [] => inr ("unexpected bfdd status response " +:+ Quote output)
  | header :: lines =>
      if negb (has_prefix "There are " header) || negb (HasSuffix header " sessions:")
      then inr ("unexpected bfdd status response " +:+ Quote output)
      else
        let countText := TrimSuffix (TrimPrefix header "There are ") " sessions:" in
        match Atoi countText with
        | None => inr ("invalid bfdd session count " +:+ Quote countText)
        | Some expected =>
            if expected <? 0 then inr ("invalid bfdd session count " +:+ Quote countText)
            else match parse_lines lines with
                 | inr e => inr e
                 | inl sessions =>
                     if negb (len sessions =? expected)
                     then inr ("bfdd reported " +:+ Itoa expected +:+ " sessions but returned " +:+ Itoa (len sessions))
                     else inl sessions
                 end
        end
  end.

(** ** Pairs of addresses *)

Definition normalizePair (pair : SessionPair) : orError SessionPair :=
  match ParseAddr (pLocal pair) with
  | None => inr ("invalid local BFD IP " +:+ Quote (pLocal pair))
  | Some local =>
      match ParseAddr (pRemote pair) with
      | None => inr ("invalid remote BFD IP " +:+ Quote (pRemote pair))
      | Some remote =>
          if negb (eqb (Is4 local) (Is4 remote))
          then inr ("BFD address family mismatch local=" +:+ Addr_String local +:+ " remote=" +:+ Addr_String remote)
          else inl (mkPair (Addr_String local) (Addr_String remote))
      end
  end.

(** ** The configuration as commands *)

(** A command and the start of the response it must get. *)
Abbreviation command := (list string * string)%type.

Fixpoint allow_commands (peers : list string) : orError (list command) :=
  match peers with
  | [] => inl []
  | peer :: rest =>
      match ParseAddr peer with
      | None => inr ("invalid BFD peer IP " +:+ Quote peer)
      | Some address =>
          match allow_commands rest with
          | inr e => inr e
          | inl cs => inl ((["allow"; Addr_String address], "Allowing connections from " +:+ Addr_String address) :: cs)
          end
      end
  end.

Definition config_commands (config : DaemonConfig) : orError (list command) :=
  if (MinTXMilliseconds config <=? 0) || (MinRXMilliseconds config <=? 0)
  then inr ("invalid BFD intervals mintx=" +:+ Itoa (MinTXMilliseconds config) +:+ " minrx=" +:+ Itoa (MinRXMilliseconds config))
  else if (Multiplier config <? 1) || (255 <? Multiplier config)
  then inr ("invalid BFD multiplier " +:+ Itoa (Multiplier config))
  else match allow_commands (PeerIPs config) with
       | inr e => inr e
       | inl allow =>
           inl ([ (["session"; "new"; "set"; "mintx"; Itoa (MinTXMilliseconds config); "ms"], "Attempting to set mintx to ");
                  (["session"; "new"; "set"; "minrx"; Itoa (MinRXMilliseconds config); "ms"], "Attempting to set minrx to ");
                  (["session"; "new"; "set"; "multi"; Itoa (Multiplier config)], "Attempting to set multi to ") ]
                ++ allow ++ [ (["log"; "type"; "command"; "no"], "Log type command set to no") ])
       end.

(** ** The client *)

Definition rejections : list string :=
  ["Unable to complete "; "Unknown command "; "No session "; "Failed to "; "Must "].

Section Client.
  Context {W : Type} `{Exec W}.

(** [ControlClient.run]: the trimmed output, and an error when the command
    timed out, failed, or printed a rejection. *)
Definition run_control (args : list string) (w : W) : (string * option error) * W :=
  let '((output, err, ctxErr), w') := exec_command args w in
  let response := TrimSpace output in
  let what := "bfdd-control " +:+ Quote (Join args " ") in
  match ctxErr with
  | Some e => ((response, Some (what +:+ " timed out: " +:+ e)), w')
  | None =>
      match err with
      | Some e => ((response, Some (what +:+ " failed: " +:+ e +:+ ": " +:+ response)), w')
      | None =>
          if existsb (fun line => existsb (fun prefix => has_prefix prefix line) rejections) (Split response newline)
          then ((response, Some (what +:+ " rejected: " +:+ response)), w')
          else ((response, None), w')
      end
  end.

Definition Client_Status (w : W) : orError (list Session) * W :=
  let '((output, err), w') := run_control ["status"] w in
  match err with
  | Some e => (inr e, w')
  | None => (parse_status output, w')
  end.

Definition same_pair (p : SessionPair) (s : Session) : bool :=
  bool_decide (sLocal s = pLocal p) && bool_decide (sRemote s = pRemote p).

Definition session_text (p : SessionPair) : string :=
  "BFD session local=" +:+ pLocal p +:+ " remote=" +:+ pRemote p.

Definition Client_Reset (pair : SessionPair) (w0 : W) : option error * W :=
  match normalizePair pair with
  | inr e => (Some e, w0)
  | inl normalized =>
      let '(r, w1) := Client_Status w0 in
      match r with
      | inr e => (Some e, w1)
      | inl before =>
          let previousID := default 0 (sID <$> head (filter (fun s => same_pair normalized s = true) before)) in
          if previousID =? 0 then (Some (session_text normalized +:+ " does not exist"), w1)
          else
            let '((response, err), w2) :=
              run_control ["session"; "local"; pLocal normalized; "remote"; pRemote normalized; "reset"] w1 in
            match err with
            | Some e => (Some e, w2)
            | None =>
                if negb (has_prefix "Attempting to reset session(s)." response)
                then (Some ("unexpected bfdd reset response " +:+ Quote response), w2)
                else
                  let '(r', w3) := Client_Status w2 in
                  match r' with
                  | inr e => (Some e, w3)
                  | inl after =>
                      if existsb (fun s => same_pair normalized s && (sID s =? previousID)) after
                      then (Some (session_text normalized +:+ " did not reset"), w3)
                      else (None, w3)
                  end
            end
      end
  end.

Fixpoint run_commands (cs : list command) (w : W) : option error * W :=
  match cs with
  | [] => (None, w)
  | (args, wantPrefix) :: rest =>
      let '((response, err), w') := run_control args w in
      match err with
      | Some e => (Some e, w')
      | None =>
          if negb (has_prefix wantPrefix response)
          then (Some ("unexpected bfdd-control " +:+ Quote (Join args " ") +:+ " response " +:+ Quote response), w')
          else run_commands rest w'
      end
  end.

Definition Client_Configure (config : DaemonConfig) (w : W) : option error * W :=
  match config_commands config with
  | inr e => (Some e, w)
  | inl cs => run_commands cs w
  end.

#[global] Instance ControlClient : ControlAdapter W :=
  {| Control_Status := Client_Status; Control_Configure := Client_Configure; Control_Reset := Client_Reset |}.
End Client.

(** ** Facts *)

(** A normal text of an address: what [Addr_String] prints. *)
Definition normal_text (t : string) : Prop := exists a, t = Addr_String a /\ ParseAddr t = Some a.

Record session_ok (s : Session) : Prop := {
  so_local : normal_text (sLocal s);
  so_remote : normal_text (sRemote s);
  so_state : valid_state (sState s) = true;
  so_id : 0 <= sID s < 2 ^ 32
}.

Lemma normal_text_inj a b : normal_text a -> normal_text b -> ParseAddr a = ParseAddr b -> a = b.
Proof. intros (x & -> & Hx) (y & -> & Hy) E. congruence. Qed.

Lemma atoi_digits_nonneg s n z : 0 <= n -> atoi_digits s n = Some z -> 0 <= z.
Proof.
  revert n. induction s as [|c s IH]; intros n Hn; simpl; [congruence|].
  destruct (is_digit c) eqn:E; [|done]. apply IH. unfold is_digit in E. lia.
Qed.

Lemma ParseUint_bound s bits n : ParseUint s bits = Some n -> 0 <= n < 2 ^ bits.
Proof.
  unfold ParseUint. destruct s as [|c s]; [done|].
  destruct (atoi_digits (String c s) 0) as [z|] eqn:E; [|done]. cbn [mbind option_bind].
  apply atoi_digits_nonneg in E; [|lia]. destruct (Z.ltb_spec z (2 ^ bits)); [|done]. intros [= <-]. lia.
Qed.

Lemma parse_line_ok line s : parse_line line = inl (Some s) -> session_ok s.
Proof.
  unfold parse_line. destruct (_ || _); [done|]. cbv zeta.
  destruct (ParseAddr _) as [a|] eqn:Ea; [|done]. destruct (ParseAddr (l_remote _)) as [b|] eqn:Eb; [|done].
  destruct (ParseUint _ _) as [id|] eqn:Ei; [|done]. case_bool_decide; [done|].
  destruct (valid_state _) eqn:Ev; [|done]. intros [= <-].
  constructor; simpl; [exists a|exists b|done|by eapply ParseUint_bound]; eauto using ParseAddr_normal.
Qed.

Lemma parse_lines_ok lines ss : parse_lines lines = inl ss -> Forall session_ok ss.
Proof.
  revert ss. induction lines as [|line rest IH]; simpl; intros ss; [by intros [= <-]|].
  destruct (parse_line line) as [[s|]|] eqn:E; [..|done]; (destruct (parse_lines rest) as [r|]; [|done]); intros [= <-].
  - constructor; [by eapply parse_line_ok|by apply IH].
  - by apply IH.
Qed.

Lemma parse_status_ok output ss : parse_status output = inl ss -> Forall session_ok ss.
Proof.
  unfold parse_status. destruct (Split _ _) as [|header lines]; [done|]. cbv zeta.
  destruct (_ || _); [done|]. destruct (Atoi _) as [n|]; [|done]. destruct (n <? 0); [done|].
  destruct (parse_lines lines) as [r|] eqn:E; [|done]. destruct (negb _); [done|]. intros [= <-].
  by eapply parse_lines_ok.
Qed.

Lemma normalizePair_ok pair n : normalizePair pair = inl n ->
  normal_text (pLocal n) /\ normal_text (pRemote n) /\ normalizePair n = inl n.
Proof.
  unfold normalizePair. destruct (ParseAddr (pLocal pair)) as [a|] eqn:Ea; [|done].
  destruct (ParseAddr (pRemote pair)) as [b|] eqn:Eb; [|done].
  destruct (negb _) eqn:Ef; [done|]. intros [= <-]. simpl.
  rewrite (ParseAddr_normal _ _ Ea), (ParseAddr_normal _ _ Eb), Ef.
  split_and!; [exists a|exists b|]; eauto using ParseAddr_normal.
Qed.

Section ResetFacts.
  Context {W : Type} `{Exec W}.

(** A reset that succeeds has seen the session with a number, and sees no
    session of the pair with this number afterwards. *)
Lemma Client_Reset_ok pair (w w' : W) : Client_Reset pair w = (None, w') ->
  exists n w1 w2 before after s0, normalizePair pair = inl n /\
    Client_Status w = (inl before, w1) /\ Client_Status w2 = (inl after, w') /\
    s0 ∈ before /\ same_pair n s0 = true /\ sID s0 <> 0 /\
    forall s, s ∈ after -> same_pair n s = true -> sID s <> sID s0.
Proof.
  unfold Client_Reset. destruct (normalizePair pair) as [n|]; [|done].
  destruct (Client_Status w) as [[before|] w1]; [|done].
  destruct (head _) as [s0|] eqn:Eh; [|done]. simpl. destruct (Z.eqb_spec (sID s0) 0) as [|Hid]; [done|].
  destruct (run_control _ w1) as [[response [e|]] w2]; [done|]. destruct (negb _); [done|].
  destruct (Client_Status w2) as [[after|] w3] eqn:E2; [|done].
  destruct (existsb _ after) eqn:Ex; [done|]. intros [= <-].
  exists n, w1, w2, before, after, s0.
  assert (Hin : s0 ∈ filter (fun s => same_pair n s = true) before)
    by (apply head_Some in Eh as [l ->]; by left).
  apply list_elem_of_filter in Hin as [Hp Hin]. split_and!; try done.
  intros s Hs Hsp Heq. apply not_true_iff_false in Ex. apply Ex. apply existsb_exists.
  exists s. split; [by apply list_elem_of_In|]. rewrite Hsp. simpl. lia.
Qed.
End ResetFacts.

Lemma normalizePair_parse pair n : normalizePair pair = inl n ->
  ParseAddr (pLocal n) = ParseAddr (pLocal pair) /\ ParseAddr (pRemote n) = ParseAddr (pRemote pair).
Proof.
  unfold normalizePair. destruct (ParseAddr (pLocal pair)) as [a|] eqn:Ea; [|done].
  destruct (ParseAddr (pRemote pair)) as [b|] eqn:Eb; [|done].
  destruct (negb _); [done|]. intros [= <-]. simpl.
  by rewrite (ParseAddr_normal _ _ Ea), (ParseAddr_normal _ _ Eb).
Qed.
