(* ===== verification/BfdSupervisor.v ===== *)
(** * The recovery of BFD sessions ([pkg/bfddsupervisor/recovery.go])

    The supervisor polls the sessions of the OpenBFDD daemon and repairs them:
    it replays the configuration, resets a session, or restarts the daemon,
    with growing pauses and a circuit breaker per session and one for the
    daemon.  The planning is a pure function of the time and the observed
    sessions; the calls of the clock, the control client, the child process
    and the state file go through an environment of type [W], so a method is a
    function of the supervisor and the environment.  The two mutexes are not
    modelled: [reconcileMutex] is held during all of [Reconcile] and
    [StartChild]. *)
From stdpp Require Import sorting.
From S2P Require Import Prelude GoStrings GoNet IpPool GoText BfdControl.

Local Open Scope Z_scope.

(** ** Data *)

Definition RecoveryUp : string := "Up".
Definition RecoveryGrace : string := "Grace".
Definition RecoveryBackoff : string := "Backoff".
Definition RecoveryCircuitOpen : string := "CircuitOpen".

Definition RecoveryNone : string := "None".
Definition RecoveryReplay : string := "ReplayConfiguration".
Definition RecoveryReset : string := "ResetSession".
Definition RecoveryRestartChild : string := "RestartChild".

Record SupervisorConfig := mkConfig {
  Daemon : DaemonConfig;
  PodIPs : list string;
  GracePeriod : Duration;
  StablePeriod : Duration;
  Backoffs : list Duration;
  ChildBackoffs : list Duration;
  CircuitOpen : Duration;
  StatePath : string
}.

Record SessionRecoveryStatus := mkRecovery {
  rPair : SessionPair;
  rState : string;
  rPhase : string;
  rAttempts : Z;
  rLastAction : string;
  rLastResult : string;
  rNextRetry : Time
}.

(** [recoveryEpisode], and [persistentEpisode] with the same fields. *)
Record recoveryEpisode := mkEpisode {
  eStatus : SessionRecoveryStatus;
  failingSince : Time;
  stableSince : Time;
  circuitUntil : Time
}.

Record SupervisorStatus := mkStatus {
  Live : bool;
  Ready : bool;
  Sessions : list SessionRecoveryStatus;
  ControlFailures : Z;
  LastControlError : string;
  ChildRestarts : Z;
  ChildRecoveryAttempts : Z;
  ChildNextRetry : Time;
  ChildCircuitOpen : bool
}.

Record persistentState := mkPersistent {
  psEpisodes : gmap string recoveryEpisode;
  psChildRestarts : Z;
  psChildRecoveryAttempts : Z;
  psChildNextRetry : Time;
  psChildCircuitUntil : Time
}.

Record Supervisor := mkSupervisor {
  config : SupervisorConfig;
  expected : list SessionPair;
  episodes : gmap string recoveryEpisode;
  status : SupervisorStatus;
  controlFailures : Z;
  childRecoveryAttempts : Z;
  childNextRetry : Time;
  childCircuitUntil : Time;
  childBootstrapAttempted : bool;
  inheritedCircuitUntil : Time
}.

(** [pendingRecoveryAction]; the episode is a pointer into the table, so its
    key is kept, [None] for the nil pointer of the half-open restart. *)
Record pendingRecoveryAction := mkPending {
  paEpisode : option string;
  paPair : SessionPair;
  paAction : string;
  childHalfOpen : bool
}.

#[global] Instance SessionRecoveryStatus_eq_dec : EqDecision SessionRecoveryStatus.
Proof. solve_decision. Defined.
#[global] Instance recoveryEpisode_eq_dec : EqDecision recoveryEpisode.
Proof. solve_decision. Defined.

(** *** Field updates *)

Definition set_rState v r := mkRecovery (rPair r) v (rPhase r) (rAttempts r) (rLastAction r) (rLastResult r) (rNextRetry r).
Definition set_rPhase v r := mkRecovery (rPair r) (rState r) v (rAttempts r) (rLastAction r) (rLastResult r) (rNextRetry r).
Definition set_rResult v r := mkRecovery (rPair r) (rState r) (rPhase r) (rAttempts r) (rLastAction r) v (rNextRetry r).
Definition set_rNextRetry v r := mkRecovery (rPair r) (rState r) (rPhase r) (rAttempts r) (rLastAction r) (rLastResult r) v.

Definition on_status (f : SessionRecoveryStatus -> SessionRecoveryStatus) (e : recoveryEpisode) : recoveryEpisode :=
  mkEpisode (f (eStatus e)) (failingSince e) (stableSince e) (circuitUntil e).
Definition set_failing v e := mkEpisode (eStatus e) v (stableSince e) (circuitUntil e).
Definition set_stable v e := mkEpisode (eStatus e) (failingSince e) v (circuitUntil e).

Definition set_Live v t := mkStatus v (Ready t) (Sessions t) (ControlFailures t) (LastControlError t) (ChildRestarts t) (ChildRecoveryAttempts t) (ChildNextRetry t) (ChildCircuitOpen t).
Definition set_Ready v t := mkStatus (Live t) v (Sessions t) (ControlFailures t) (LastControlError t) (ChildRestarts t) (ChildRecoveryAttempts t) (ChildNextRetry t) (ChildCircuitOpen t).
Definition set_Failures n e t := mkStatus (Live t) (Ready t) (Sessions t) n e (ChildRestarts t) (ChildRecoveryAttempts t) (ChildNextRetry t) (ChildCircuitOpen t).
Definition set_Restarts n t := mkStatus (Live t) (Ready t) (Sessions t) (ControlFailures t) (LastControlError t) n (ChildRecoveryAttempts t) (ChildNextRetry t) (ChildCircuitOpen t).
Definition set_Report ss a n c t := mkStatus (Live t) (Ready t) ss (ControlFailures t) (LastControlError t) (ChildRestarts t) a n c.

Definition on_sup_status (f : SupervisorStatus -> SupervisorStatus) (s : Supervisor) : Supervisor :=
  mkSupervisor (config s) (expected s) (episodes s) (f (status s)) (controlFailures s) (childRecoveryAttempts s)
    (childNextRetry s) (childCircuitUntil s) (childBootstrapAttempted s) (inheritedCircuitUntil s).
Definition set_episodes v (s : Supervisor) : Supervisor :=
  mkSupervisor (config s) (expected s) v (status s) (controlFailures s) (childRecoveryAttempts s)
    (childNextRetry s) (childCircuitUntil s) (childBootstrapAttempted s) (inheritedCircuitUntil s).
Definition set_failures v (s : Supervisor) : Supervisor :=
  mkSupervisor (config s) (expected s) (episodes s) (status s) v (childRecoveryAttempts s)
    (childNextRetry s) (childCircuitUntil s) (childBootstrapAttempted s) (inheritedCircuitUntil s).
Definition set_child a n c (s : Supervisor) : Supervisor :=
  mkSupervisor (config s) (expected s) (episodes s) (status s) (controlFailures s) a n c
    (childBootstrapAttempted s) (inheritedCircuitUntil s).
Definition set_bootstrap v (s : Supervisor) : Supervisor :=
  mkSupervisor (config s) (expected s) (episodes s) (status s) (controlFailures s) (childRecoveryAttempts s)
    (childNextRetry s) (childCircuitUntil s) v (inheritedCircuitUntil s).
Definition set_inherited v (s : Supervisor) : Supervisor :=
  mkSupervisor (config s) (expected s) (episodes s) (status s) (controlFailures s) (childRecoveryAttempts s)
    (childNextRetry s) (childCircuitUntil s) (childBootstrapAttempted s) v.

Definition pairKey (pair : SessionPair) : string := pLocal pair +:+ "|" +:+ pRemote pair.

Definition put_episode (key : string) (e : recoveryEpisode) (s : Supervisor) : Supervisor :=
  set_episodes (<[key := e]> (episodes s)) s.

(** ** The circuit breaker of the child *)

Definition childCircuitOpenLocked (now : Time) (s : Supervisor) : bool :=
  negb (IsZero (childCircuitUntil s)) && Before now (childCircuitUntil s).

Definition childCircuitFailsLivenessLocked (now : Time) (s : Supervisor) : bool :=
  if negb (childCircuitOpenLocked now s) then false
  else IsZero (inheritedCircuitUntil s) || negb (childCircuitUntil s =? inheritedCircuitUntil s).

Definition childHalfOpenDueLocked (now : Time) (s : Supervisor) : bool :=
  (len (ChildBackoffs (config s)) <? childRecoveryAttempts s) &&
  negb (IsZero (childNextRetry s)) && negb (Before now (childNextRetry s)).

(** Ask for a restart of the child: false while the pause lasts. *)
Definition reserveChildRestartLocked (now : Time) (s : Supervisor) : outcome (bool * Supervisor) :=
  if negb (IsZero (childNextRetry s)) && Before now (childNextRetry s) then Done (false, s)
  else
    let attempts := childRecoveryAttempts s + 1 in
    if len (ChildBackoffs (config s)) <? attempts then
      let until := now + CircuitOpen (config s) in
      Done (true, set_child attempts until until s)
    else
      let backoffIndex := Z.min (attempts - 1) (len (ChildBackoffs (config s)) - 1) in
      b ← at_index (ChildBackoffs (config s)) backoffIndex;
      Done (true, set_child attempts (now + b) zeroTime s).

(** ** Planning for one session *)

Definition markEpisodeUpLocked (c : SupervisorConfig) (now : Time) (pair : SessionPair) (e0 : recoveryEpisode)
    : recoveryEpisode :=
  let e := on_status (set_rPhase RecoveryUp) e0 in
  if IsZero (stableSince e) then set_stable now e
  else if Before now (stableSince e + StablePeriod c) then e
  else mkEpisode (mkRecovery pair SessionUp RecoveryUp 0 RecoveryNone "" zeroTime) zeroTime (stableSince e) zeroTime.

Definition markEpisodeWaitingLocked (now : Time) (e : recoveryEpisode) : recoveryEpisode :=
  on_status (set_rPhase
    (if negb (IsZero (circuitUntil e)) && Before now (circuitUntil e) then RecoveryCircuitOpen else RecoveryBackoff)) e.

Definition selectRecoveryAction (c : SupervisorConfig) (attempts : Z) (exists_ allUnhealthy : bool) : string :=
  if (len (Backoffs c) <=? attempts) || (attempts =? 0) then RecoveryReplay
  else if (attempts =? 1) && exists_ then RecoveryReset
  else if (attempts =? 1) && allUnhealthy then RecoveryRestartChild
  else if attempts =? 1 then RecoveryReplay
  else if (attempts =? 2) && allUnhealthy then RecoveryRestartChild
  else if (attempts =? 2) && exists_ then RecoveryReset
  else if attempts =? 2 then RecoveryReplay
  else RecoveryNone.

Definition scheduleEpisodeActionLocked (c : SupervisorConfig) (now : Time) (action : string) (e : recoveryEpisode)
    : outcome recoveryEpisode :=
  let r := eStatus e in
  let attempts := rAttempts r + 1 in
  if len (Backoffs c) <? attempts then
    let until := now + CircuitOpen c in
    Done (mkEpisode (mkRecovery (rPair r) (rState r) RecoveryCircuitOpen attempts action "in_progress" until)
                    (failingSince e) (stableSince e) until)
  else
    let backoffIndex := Z.min (attempts - 1) (len (Backoffs c) - 1) in
    b ← at_index (Backoffs c) backoffIndex;
    Done (mkEpisode (mkRecovery (rPair r) (rState r) RecoveryBackoff attempts action "in_progress" (now + b))
                    (failingSince e) (stableSince e) (circuitUntil e)).

Definition is_up (session : option Session) : bool :=
  match session with Some x => bool_decide (sState x = SessionUp) | None => false end.

Definition is_some {A} (o : option A) : bool := match o with Some _ => true | None => false end.

Definition planEpisodeRecoveryLocked (now : Time) (pair : SessionPair) (session : option Session)
    (allUnhealthy : bool) (s0 : Supervisor) : outcome (option pendingRecoveryAction * Supervisor) :=
  let key := pairKey pair in
  e0 ← of_option (episodes s0 !! key);
  let e := on_status (set_rState (match session with Some x => sState x | None => "" end)) e0 in
  if is_up session then Done (None, put_episode key (markEpisodeUpLocked (config s0) now pair e) s0)
  else
    let s := on_sup_status (set_Ready false) s0 in
    let e := set_stable zeroTime e in
    if IsZero (failingSince e)
    then Done (None, put_episode key (on_status (set_rPhase RecoveryGrace) (set_failing now e)) s)
    else if Before now (failingSince e + GracePeriod (config s))
    then Done (None, put_episode key (on_status (set_rPhase RecoveryGrace) e) s)
    else if negb (IsZero (rNextRetry (eStatus e))) && Before now (rNextRetry (eStatus e))
    then Done (None, put_episode key (markEpisodeWaitingLocked now e) s)
    else
      let action := selectRecoveryAction (config s) (rAttempts (eStatus e)) (is_some session) allUnhealthy in
      if bool_decide (action = RecoveryNone) then Done (None, put_episode key e s)
      else
        '(ok, s') ← (if bool_decide (action = RecoveryRestartChild) then reserveChildRestartLocked now s
                     else Done (true, s));
        if negb ok
        then Done (None, put_episode key
               (markEpisodeWaitingLocked now (on_status (set_rNextRetry (childNextRetry s')) e)) s')
        else
          e' ← scheduleEpisodeActionLocked (config s') now action e;
          Done (Some (mkPending (Some key) pair action false), put_episode key e' s').

(** ** Planning for all sessions *)

Definition observed (sessions : list Session) : gmap string Session :=
  foldl (fun m x => <[pairKey (mkPair (sLocal x) (sRemote x)) := x]> m) ∅ sessions.

(** The loop over the expected pairs stops at the first action. *)
Fixpoint plan_pairs (now : Time) (obs : gmap string Session) (allUnhealthy : bool)
    (pairs : list SessionPair) (s : Supervisor) : outcome (option pendingRecoveryAction * Supervisor) :=
  match pairs with
  | [] => Done (None, s)
  | pr :: rest =>
      '(p, s') ← planEpisodeRecoveryLocked now pr (obs !! pairKey pr) allUnhealthy s;
      match p with
      | Some _ => Done (p, s')
      | None => plan_pairs now obs allUnhealthy rest s'
      end
  end.

Fixpoint stable_pairs (now : Time) (pairs : list SessionPair) (s : Supervisor) : outcome bool :=
  match pairs with
  | [] => Done true
  | pr :: rest =>
      e ← of_option (episodes s !! pairKey pr);
      if negb (bool_decide (rState (eStatus e) = SessionUp)) || IsZero (stableSince e) ||
         Before now (stableSince e + StablePeriod (config s))
      then Done false
      else stable_pairs now rest s
  end.

Definition allExpectedSessionsStableLocked (now : Time) (s : Supervisor) : outcome bool :=
  stable_pairs now (expected s) s.

Definition all_unhealthy (obs : gmap string Session) (pairs : list SessionPair) : bool :=
  forallb (fun pair => negb (is_up (obs !! pairKey pair))) pairs.

(** [planSessionRecovery] up to the update of the liveness. *)
Definition plan_sessions (now : Time) (sessions : list Session) (s0 : Supervisor)
    : outcome (option pendingRecoveryAction * Supervisor) :=
  let obs := observed sessions in
  let allUnhealthy := all_unhealthy obs (expected s0) in
  let s1 := on_sup_status (set_Ready true) s0 in
  '(pending, s2) ←
    (if allUnhealthy && childHalfOpenDueLocked now s1 then
       '(ok, s) ← reserveChildRestartLocked now (on_sup_status (set_Ready false) s1);
       Done (if ok : bool then Some (mkPending None (mkPair "" "") RecoveryRestartChild true) else None, s)
     else plan_pairs now obs allUnhealthy (expected s1) s1);
  if allUnhealthy then Done (pending, s2)
  else
    stable ← allExpectedSessionsStableLocked now s2;
    Done (pending, if stable : bool then set_inherited zeroTime (set_child 0 zeroTime zeroTime s2) else s2).

(** ** The environment *)

Class Clock (W : Type) := Clock_Now : W -> Time * W.

(** The interface [ChildController]. *)
Class ChildController (W : Type) := {
  Child_Running : W -> bool * W;
  Child_Restart : W -> option error * W
}.

Inductive read_result (Data : Type) :=
  | NotExist
  | ReadError (e : error)
  | Content (d : Data).
Arguments NotExist {Data}.
Arguments ReadError {Data} _.
Arguments Content {Data} _.

(** The calls on the state file: [os.ReadFile], [os.Rename], the creation of
    the directory of a path, and [fileutil.AtomicWriteFile]. *)
Class StateFile (W Data : Type) := {
  File_Read : string -> W -> read_result Data * W;
  File_Rename : string -> string -> W -> option error * W;
  File_MkdirAll : string -> W -> option error * W;
  File_AtomicWrite : string -> Data -> W -> option error * W
}.

(** [json.Marshal] and [json.Unmarshal] of the persistent state. *)
Class Codec (Data : Type) := {
  Marshal : persistentState -> orError Data;
  Unmarshal : Data -> orError persistentState
}.

(** ** The persistent state *)

Definition persistentStateLocked (s : Supervisor) : persistentState :=
  mkPersistent (episodes s) (ChildRestarts (status s)) (childRecoveryAttempts s) (childNextRetry s) (childCircuitUntil s).

(** The episodes of the file that belong to a known pair replace the new ones. *)
Definition load_episodes (saved known : gmap string recoveryEpisode) : gmap string recoveryEpisode :=
  map_imap (fun key e =>
    Some match saved !! key with
         | Some x => if bool_decide (rPair (eStatus x) = rPair (eStatus e)) then x else e
         | None => e
         end) known.

Definition load_persistent (st : persistentState) (s : Supervisor) : Supervisor :=
  set_child (psChildRecoveryAttempts st) (psChildNextRetry st) (psChildCircuitUntil st)
    (on_sup_status (set_Restarts (psChildRestarts st))
       (set_episodes (load_episodes (psEpisodes st) (episodes s)) s)).

(** ** Methods *)

Section Methods.
  Context {W Data : Type} `{Clock W} `{ControlAdapter W} `{ChildController W} `{StateFile W Data} `{Codec Data}.

(** A method: the receiver and the environment are updated, and it may panic. *)
Definition method (A : Type) := Supervisor -> W -> outcome (A * Supervisor * W).

#[local] Instance method_ret : MRet method := fun A a s w => Done (a, s, w).
#[local] Instance method_bind : MBind method :=
  fun A B f m s w => '(a, s', w') ← m s w; f a s' w'.

Definition call {A} (f : W -> A * W) : method A := fun s w => let '(a, w') := f w in Done (a, s, w').
Definition get : method Supervisor := fun s w => Done (s, s, w).
Definition modify (f : Supervisor -> Supervisor) : method unit := fun s w => Done (tt, f s, w).
Definition plan {A} (f : Supervisor -> outcome (A * Supervisor)) : method A :=
  fun s w => '(a, s') ← f s; Done (a, s', w).
Definition read {A} (f : Supervisor -> outcome A) : method A := fun s w => a ← f s; Done (a, s, w).

Definition expected_statuses (s : Supervisor) : outcome (list SessionRecoveryStatus) :=
  of_option (mapM (fun pair => eStatus <$> episodes s !! pairKey pair) (expected s)).

Definition refreshStatusLocked : method unit :=
  ss ← read expected_statuses;
  now ← call Clock_Now;
  modify (fun s => on_sup_status (set_Report ss (childRecoveryAttempts s) (childNextRetry s)
                                   (childCircuitOpenLocked now s)) s).

Definition updateLivenessLocked (now : Time) : method unit :=
  modify (fun s => on_sup_status (set_Live (negb (childCircuitFailsLivenessLocked now s))) s).

Definition updateChildRunningLivenessLocked (now : Time) : method unit :=
  running ← call Child_Running;
  modify (fun s => on_sup_status (set_Live (running && negb (childCircuitFailsLivenessLocked now s))) s).

Definition updateControlFailureLivenessLocked (now : Time) : method unit :=
  running ← call Child_Running;
  if running : bool then updateLivenessLocked now
  else modify (fun s =>
    on_sup_status (set_Live
      (if childCircuitFailsLivenessLocked now s then false
       else negb (IsZero (childNextRetry s)) && Before now (childNextRetry s))) s).

Definition saveState (st : persistentState) : method (option error) :=
  s ← get;
  if bool_decide (StatePath (config s) = "") then mret None
  else match Marshal st with
       | inr e => mret (Some ("failed to encode BFD recovery state: " +:+ e))
       | inl data =>
           r ← call (File_MkdirAll (StatePath (config s)));
           match r with
           | Some e => mret (Some ("failed to create BFD recovery state directory: " +:+ e))
           | None =>
               r' ← call (File_AtomicWrite (StatePath (config s)) data);
               match r' with
               | Some e => mret (Some ("failed to persist BFD recovery state: " +:+ e))
               | None => mret None
               end
           end
       end.

Definition loadState : method (option error) :=
  s ← get;
  if bool_decide (StatePath (config s) = "") then mret None
  else
    d ← call (File_Read (StatePath (config s)));
    match d with
    | NotExist => mret None
    | ReadError e => mret (Some ("failed to read BFD recovery state: " +:+ e))
    | Content data =>
        match Unmarshal data with
        | inr e =>
            r ← call (File_Rename (StatePath (config s)) (StatePath (config s) +:+ ".corrupt"));
            match r with
            | Some e' => mret (errors_Join [Some ("failed to decode BFD recovery state: " +:+ e);
                                            Some ("failed to isolate corrupt BFD recovery state: " +:+ e')])
            | None => mret None
            end
        | inl st => _ ← modify (load_persistent st); mret None
        end
    end.

Definition reconcileControlFailure (now : Time) (statusErr : error) : method (option error) :=
  _ ← modify (fun s => on_sup_status (set_Failures (controlFailures s + 1) statusErr)
                         (set_failures (controlFailures s + 1) s));
  _ ← modify (on_sup_status (set_Ready false));
  _ ← updateControlFailureLivenessLocked now;
  _ ← refreshStatusLocked;
  mret None.

Definition planSessionRecovery (now : Time) (sessions : list Session)
    : method (option pendingRecoveryAction * persistentState) :=
  pending ← plan (plan_sessions now sessions);
  _ ← updateChildRunningLivenessLocked now;
  _ ← refreshStatusLocked;
  s ← get;
  mret (pending, persistentStateLocked s).

Definition executeRecoveryAction (p : pendingRecoveryAction) : method (option error) :=
  if bool_decide (paAction p = RecoveryReplay) then s ← get; call (Control_Configure (Daemon (config s)))
  else if bool_decide (paAction p = RecoveryReset) then call (Control_Reset (paPair p))
  else if bool_decide (paAction p = RecoveryRestartChild) then call Child_Restart
  else mret (Some ("unknown BFD recovery action " +:+ Quote (paAction p))).

Definition set_result (key : string) (r : string) (s : Supervisor) : Supervisor :=
  set_episodes (alter (on_status (set_rResult r)) key (episodes s)) s.

Definition recordRecoveryResult (p : pendingRecoveryAction) (actionErr : option error) : method persistentState :=
  _ ← (match paEpisode p with
       | Some key => modify (set_result key (default "success" actionErr))
       | None => mret tt
       end);
  let restart := bool_decide (paAction p = RecoveryRestartChild) in
  _ ← (if negb (is_some actionErr) && restart
       then modify (fun s => on_sup_status (set_Restarts (ChildRestarts (status s) + 1)) s)
       else mret tt);
  now ← call Clock_Now;
  _ ← (if restart && is_some actionErr then updateLivenessLocked now else updateChildRunningLivenessLocked now);
  _ ← refreshStatusLocked;
  s ← get;
  mret (persistentStateLocked s).

Definition Reconcile : method (option error) :=
  now ← call Clock_Now;
  r ← call Control_Status;
  match r with
  | inr e => reconcileControlFailure now e
  | inl sessions =>
      _ ← modify (fun s => on_sup_status (set_Failures 0 "") (set_failures 0 s));
      '(pending, st) ← planSessionRecovery now sessions;
      e ← saveState st;
      match e with
      | Some e => mret (Some e)
      | None =>
          match pending with
          | None => mret None
          | Some p =>
              actionErr ← executeRecoveryAction p;
              st' ← recordRecoveryResult p actionErr;
              saveErr ← saveState st';
              mret (match actionErr with
                    | None => saveErr
                    | Some e =>
                        errors_Join [saveErr;
                          Some (if childHalfOpen p
                                then "failed to half-open OpenBFDD child recovery circuit: " +:+ e
                                else "failed to execute BFD recovery action " +:+ paAction p +:+ ": " +:+ e)]
                    end)
          end
      end
  end.

Definition StartChild : method (option error) :=
  now ← call Clock_Now;
  s ← get;
  if childBootstrapAttempted s then mret None
  else
    _ ← modify (set_bootstrap true);
    s1 ← get;
    let bootstrapHalfOpen := childHalfOpenDueLocked now s1 in
    e ← saveState (persistentStateLocked s1);
    match e with
    | Some e => _ ← modify (set_bootstrap false); mret (Some e)
    | None =>
        startErr ← call Child_Restart;
        s2 ← get;
        _ ← (if is_some startErr && negb (childCircuitOpenLocked now s2) &&
                (IsZero (childNextRetry s2) || negb (Before now (childNextRetry s2)))
             then plan (reserveChildRestartLocked now) else mret true);
        _ ← (if negb (is_some startErr) && bootstrapHalfOpen
             then _ ← plan (reserveChildRestartLocked now);
                  modify (fun s => set_inherited (childCircuitUntil s) s)
             else mret tt);
        _ ← (if is_some startErr then updateLivenessLocked now else updateChildRunningLivenessLocked now);
        _ ← modify (on_sup_status (set_Ready false));
        _ ← refreshStatusLocked;
        s3 ← get;
        e' ← saveState (persistentStateLocked s3);
        match e' with
        | Some e => mret (Some e)
        | None => mret ((fun x => "failed to start OpenBFDD child: " +:+ x) <$> startErr)
        end
    end.

(** ** Construction *)

Fixpoint parseAddresses (values : list string) (kind : string) : orError (list Addr) :=
  match values with
  | [] => inl []
  | v :: rest =>
      match ParseAddr v with
      | None => inr ("invalid " +:+ kind +:+ " IP " +:+ Quote v)
      | Some a => match parseAddresses rest kind with inr e => inr e | inl l => inl (a :: l) end
      end
  end.

(** The pairs of one family, in the order of the two loops. *)
Definition family_pairs (podIPs peerIPs : list Addr) : list SessionPair :=
  local ← podIPs; remote ← peerIPs;
  if eqb (Is4 local) (Is4 remote) then [mkPair (Addr_String local) (Addr_String remote)] else [].

Definition pair_leb (a b : SessionPair) : bool :=
  if bool_decide (pLocal a = pLocal b) then str_leb (pRemote a) (pRemote b) else str_leb (pLocal a) (pLocal b).

Definition pair_le (a b : SessionPair) : Prop := pair_leb a b = true.

#[local] Instance pair_le_dec : RelDecision pair_le := fun a b => decide (pair_leb a b = true).

Definition new_episode (pair : SessionPair) : recoveryEpisode :=
  mkEpisode (mkRecovery pair "" RecoveryGrace 0 RecoveryNone "" zeroTime) zeroTime zeroTime zeroTime.

Definition new_episodes (pairs : list SessionPair) : gmap string recoveryEpisode :=
  foldl (fun m pair => <[pairKey pair := new_episode pair]> m) ∅ pairs.

Definition zero_status : SupervisorStatus := mkStatus false false [] 0 "" 0 0 zeroTime false.

Definition with_child_backoffs (c : SupervisorConfig) : SupervisorConfig :=
  if len (ChildBackoffs c) =? 0
  then mkConfig (Daemon c) (PodIPs c) (GracePeriod c) (StablePeriod c) (Backoffs c) (Backoffs c) (CircuitOpen c) (StatePath c)
  else c.

(** The dependencies are instances here, so they are never nil. *)
Definition NewSupervisor (config0 : SupervisorConfig) (w : W) : outcome (orError Supervisor * W) :=
  let c := with_child_backoffs config0 in
  if (GracePeriod c <=? 0) || (StablePeriod c <=? 0) || (CircuitOpen c <=? 0) ||
     (len (Backoffs c) =? 0) || (len (ChildBackoffs c) =? 0)
  then Done (inr "invalid supervisor recovery timing", w)
  else match parseAddresses (PodIPs c) "pod" with
  | inr e => Done (inr e, w)
  | inl podIPs =>
      match parseAddresses (PeerIPs (Daemon c)) "peer" with
      | inr e => Done (inr e, w)
      | inl peerIPs =>
          let pairs := family_pairs podIPs peerIPs in
          if len pairs =? 0 then Done (inr "no same-family BFD session pairs", w)
          else
            let pairs := merge_sort pair_le pairs in
            let s := mkSupervisor c pairs (new_episodes pairs) zero_status 0 0 zeroTime zeroTime false zeroTime in
            '(e, s1, w1) ← loadState s w;
            match e with
            | Some e => Done (inr e, w1)
            | None =>
                '(_, s2, w2) ←
                  (now ← call Clock_Now;
                   _ ← modify (fun s => if childCircuitOpenLocked now s
                                        then set_inherited (childCircuitUntil s) s else s);
                   refreshStatusLocked) s1 w1;
                Done (inl s2, w2)
            end
      end
  end.
End Methods.
