(* ===== verification/BfdFacts.v ===== *)
(** * Facts about the BFD supervisor

    The invariant of the supervisor, what planning does for one session and
    for all of them, and the polling machine that [Reconcile] implements. *)
From stdpp Require Import sorting.
From S2P Require Import Prelude GoStrings GoNet IpPool IpPoolFacts GoText BfdControl BfdSupervisor.

Local Open Scope Z_scope.

(** ** Invariant *)

Definition config_ok (c : SupervisorConfig) : Prop :=
  0 < GracePeriod c /\ 0 < StablePeriod c /\ 0 < CircuitOpen c /\ 0 < len (Backoffs c) /\ 0 < len (ChildBackoffs c).

(** Every expected pair has its episode, every episode belongs to an expected
    pair, and the counter of the child is a count. *)
Record sup_inv (s : Supervisor) : Prop := {
  inv_config : config_ok (config s);
  inv_some : expected s <> [];
  inv_pairs : forall pr, pr ∈ expected s -> is_Some (episodes s !! pairKey pr);
  inv_keys : forall k e, episodes s !! k = Some e ->
    rPair (eStatus e) ∈ expected s /\ pairKey (rPair (eStatus e)) = k;
  inv_attempts : 0 <= childRecoveryAttempts s
}.

(** The fields planning reads of the child. *)
Definition child_of (s : Supervisor) : Z * Time * Time :=
  (childRecoveryAttempts s, childNextRetry s, childCircuitUntil s).

(** What planning never changes. *)
Definition same_frame (s s' : Supervisor) : Prop :=
  config s' = config s /\ expected s' = expected s /\ inheritedCircuitUntil s' = inheritedCircuitUntil s.

Lemma reserve_spec now s : sup_inv s ->
  (exists s', reserveChildRestartLocked now s = Done (true, s') /\
     (childNextRetry s = 0 \/ childNextRetry s <= now) /\
     childRecoveryAttempts s' = childRecoveryAttempts s + 1 /\
     (exists d, (d = CircuitOpen (config s) \/ d ∈ ChildBackoffs (config s)) /\ childNextRetry s' = now + d) /\
     episodes s' = episodes s /\ status s' = status s /\ same_frame s s') \/
  (reserveChildRestartLocked now s = Done (false, s) /\ childNextRetry s <> 0 /\ now < childNextRetry s).
Proof.
  intros [(_ & _ & _ & _ & Hc) _ _ _ Ha]. unfold reserveChildRestartLocked, IsZero, Before, same_frame.
  destruct (Z.eqb_spec (childNextRetry s) 0), (Z.ltb_spec now (childNextRetry s)); cbn [negb andb]; cbv zeta.
  3: by right.
  all: left; destruct (Z.ltb_spec (len (ChildBackoffs (config s))) (childRecoveryAttempts s + 1));
    [|destruct (at_index_in (ChildBackoffs (config s))
        (Z.min (childRecoveryAttempts s + 1 - 1) (len (ChildBackoffs (config s)) - 1))) as (b & -> & Hb); [lia|]];
    eexists; (split; [reflexivity|]); simpl; repeat split; eauto.
Qed.

Lemma at_index_elem {A} (l : list A) i x : at_index l i = Done x -> x ∈ l.
Proof.
  unfold at_index. destruct (i <? 0); [done|]. destruct (l !! Z.to_nat i) eqn:E; [|done].
  intros [= ->]. by eapply list_elem_of_lookup_2.
Qed.

Lemma reserve_true now s s' : reserveChildRestartLocked now s = Done (true, s') ->
  (childNextRetry s = 0 \/ childNextRetry s <= now) /\
  childRecoveryAttempts s' = childRecoveryAttempts s + 1 /\
  (exists d, (d = CircuitOpen (config s) \/ d ∈ ChildBackoffs (config s)) /\ childNextRetry s' = now + d).
Proof.
  unfold reserveChildRestartLocked, IsZero, Before. cbv zeta.
  destruct (Z.eqb_spec (childNextRetry s) 0), (Z.ltb_spec now (childNextRetry s)); cbn [negb andb]; try done;
    (destruct (_ <? _); [|destruct (at_index _ _) eqn:E; [|done|done]; apply at_index_elem in E]);
    cbn [mbind outcome_bind]; intros [= <-]; simpl; (split; [lia|split; [done|eauto]]).
Qed.

(** ** Planning for one session *)

(** How an episode moves in one round: its failure goes on, is over, or starts
    now. *)
Definition evolves (now : Time) (e e' : recoveryEpisode) : Prop :=
  failingSince e' = failingSince e \/ failingSince e' = 0 \/ failingSince e' = now.

(** The pause a session gets with its [n]-th action. *)
Definition pause (c : SupervisorConfig) (n : Z) (d : Duration) : Prop :=
  if len (Backoffs c) <? n then d = CircuitOpen c else at_index (Backoffs c) (n - 1) = Done d.

(** The guards of an action for the pair [pr] on the episode [e]. *)
Record acts (now : Time) (pr : SessionPair) (session : option Session) (allUnhealthy : bool)
    (s : Supervisor) (e e' : recoveryEpisode) (q : pendingRecoveryAction) : Prop := {
  act_pending : q = mkPending (Some (pairKey pr)) pr (paAction q) false;
  act_select : paAction q =
    selectRecoveryAction (config s) (rAttempts (eStatus e)) (is_some session) allUnhealthy;
  act_some : paAction q <> RecoveryNone;
  act_down : is_up session = false;
  act_grace : failingSince e <> 0 /\ failingSince e + GracePeriod (config s) <= now;
  act_due : rNextRetry (eStatus e) = 0 \/ rNextRetry (eStatus e) <= now;
  act_counts : rAttempts (eStatus e') = rAttempts (eStatus e) + 1;
  act_failing : failingSince e' = failingSince e;
  act_pause : exists d, pause (config s) (rAttempts (eStatus e')) d /\ rNextRetry (eStatus e') = now + d
}.

Lemma select_attempts c n ex au : 0 < len (Backoffs c) -> selectRecoveryAction c n ex au <> RecoveryNone -> 0 <= n.
Proof.
  unfold selectRecoveryAction. intros Hc.
  destruct (Z.leb_spec (len (Backoffs c)) n), (Z.eqb_spec n 0), (Z.eqb_spec n 1), (Z.eqb_spec n 2); simpl; try lia.
  by intros [].
Qed.

Lemma schedule_spec c now action e : 0 < len (Backoffs c) -> 0 <= rAttempts (eStatus e) ->
  exists e', scheduleEpisodeActionLocked c now action e = Done e' /\
    rAttempts (eStatus e') = rAttempts (eStatus e) + 1 /\ rPair (eStatus e') = rPair (eStatus e) /\
    rState (eStatus e') = rState (eStatus e) /\ failingSince e' = failingSince e /\
    exists d, pause c (rAttempts (eStatus e')) d /\ rNextRetry (eStatus e') = now + d.
Proof.
  intros Hc Hn. unfold scheduleEpisodeActionLocked, pause. cbv zeta.
  destruct (Z.ltb_spec (len (Backoffs c)) (rAttempts (eStatus e) + 1)) as [Hl|Hl].
  - eexists. split; [reflexivity|]. simpl. repeat split.
    replace (len (Backoffs c) <? rAttempts (eStatus e) + 1) with true by lia. eauto.
  - replace (Z.min _ _) with (rAttempts (eStatus e) + 1 - 1) by lia.
    destruct (at_index_in (Backoffs c) (rAttempts (eStatus e) + 1 - 1)) as (b & E & _); [lia|].
    rewrite E. eexists. split; [reflexivity|]. simpl. repeat split.
    replace (len (Backoffs c) <? rAttempts (eStatus e) + 1) with false by lia. eauto.
Qed.

(** The state of a session as the episode records it. *)
Definition seen (session : option Session) : string :=
  match session with Some x => sState x | None => "" end.

(** What one call of [planEpisodeRecoveryLocked] does. *)
Record planned (now : Time) (pr : SessionPair) (session : option Session) (allUnhealthy : bool)
    (s s' : Supervisor) (e e' : recoveryEpisode) (p : option pendingRecoveryAction) : Prop := {
  pl_episode : episodes s !! pairKey pr = Some e;
  pl_put : episodes s' = <[pairKey pr := e']> (episodes s);
  pl_frame : same_frame s s';
  pl_evolves : evolves now e e';
  pl_state : rState (eStatus e') = seen session;
  pl_pair : rPair (eStatus e') = rPair (eStatus e) \/ rPair (eStatus e') = pr;
  pl_ready : Ready (status s') = Ready (status s) && is_up session;
  pl_up : is_up session = true -> p = None /\
    e' = markEpisodeUpLocked (config s) now pr (on_status (set_rState (seen session)) e);
  pl_child : (child_of s' = child_of s /\ forall q, p = Some q -> paAction q <> RecoveryRestartChild) \/
    exists q s1 s2, p = Some q /\ paAction q = RecoveryRestartChild /\ child_of s1 = child_of s /\ same_frame s s1 /\
      reserveChildRestartLocked now s1 = Done (true, s2) /\ child_of s' = child_of s2;
  pl_acts : forall q, p = Some q -> acts now pr session allUnhealthy s e e' q
}.

Lemma seen_up session : is_up session = true -> seen session = SessionUp.
Proof. destruct session; simpl; [|done]. apply bool_decide_eq_true. Qed.

Lemma mark_up_facts c now pr e :
  evolves now e (markEpisodeUpLocked c now pr e) /\
  (rPair (eStatus (markEpisodeUpLocked c now pr e)) = rPair (eStatus e) \/
   rPair (eStatus (markEpisodeUpLocked c now pr e)) = pr) /\
  (rState (eStatus e) = SessionUp -> rState (eStatus (markEpisodeUpLocked c now pr e)) = SessionUp).
Proof. unfold markEpisodeUpLocked, evolves. repeat case_match; simpl; auto. Qed.

Lemma sup_inv_ready s b : sup_inv s -> sup_inv (on_sup_status (set_Ready b) s).
Proof. intros []. by constructor. Qed.

(** A round without an action for a session that is down. *)
Lemma planned_quiet now pr session au s e e' : episodes s !! pairKey pr = Some e -> is_up session = false ->
  evolves now e e' -> rState (eStatus e') = seen session -> rPair (eStatus e') = rPair (eStatus e) ->
  planned now pr session au s (put_episode (pairKey pr) e' (on_sup_status (set_Ready false) s)) e e' None.
Proof.
  intros He Hup Hev Hst Hpr. constructor; simpl; auto; try done.
  - by rewrite Hup, andb_false_r.
  - by rewrite Hup.
Qed.

Lemma plan_episode now pr session au s : sup_inv s -> pr ∈ expected s ->
  exists p s' e e', planEpisodeRecoveryLocked now pr session au s = Done (p, s') /\
    planned now pr session au s s' e e' p.
Proof.
  intros Hinv Hin. destruct (inv_pairs s Hinv pr Hin) as [e He].
  unfold planEpisodeRecoveryLocked. cbv zeta. rewrite He. cbn [of_option mbind outcome_bind].
  fold (seen session).
  destruct (is_up session) eqn:Hup.
  { eexists _, _, e, _. split; [reflexivity|].
    destruct (mark_up_facts (config s) now pr (on_status (set_rState (seen session)) e)) as (Hev & Hpr & Hst).
    constructor; cbn [episodes put_episode set_episodes status]; auto; try done.
    - rewrite Hst; [symmetry|]; by apply seen_up.
    - by rewrite Hup, andb_true_r. }
  set (s1 := on_sup_status (set_Ready false) s).
  assert (Hs1 : sup_inv s1) by by apply sup_inv_ready.
  set (e1 := set_stable zeroTime (on_status (set_rState (seen session)) e)).
  destruct (IsZero (failingSince e1)) eqn:Hz.
  { apply Z.eqb_eq in Hz. eexists _, _, e, _. split; [reflexivity|].
    apply planned_quiet; auto. by right; right. }
  apply Z.eqb_neq in Hz.
  destruct (Before now (failingSince e1 + GracePeriod (config s1))) eqn:Hg.
  { eexists _, _, e, _. split; [reflexivity|]. apply planned_quiet; auto; by left. }
  apply Z.ltb_ge in Hg.
  destruct (negb (IsZero (rNextRetry (eStatus e1))) && Before now (rNextRetry (eStatus e1))) eqn:Hd.
  { eexists _, _, e, _. split; [reflexivity|]. apply planned_quiet; auto; by left. }
  assert (Hdue : rNextRetry (eStatus e) = 0 \/ rNextRetry (eStatus e) <= now).
  { unfold IsZero, Before in Hd. cbn in Hd. lia. }
  set (action := selectRecoveryAction _ _ _ _).
  case_bool_decide as Hnone.
  { eexists _, _, e, _. split; [reflexivity|]. apply planned_quiet; auto. by left. }
  assert (Hatt : 0 <= rAttempts (eStatus e1)).
  { eapply select_attempts; [|apply Hnone]. apply (inv_config _ Hs1). }
  assert (Hsched : forall s2, config s2 = config s ->
    exists e', scheduleEpisodeActionLocked (config s2) now action e1 = Done e' /\
      rState (eStatus e') = seen session /\ rPair (eStatus e') = rPair (eStatus e) /\ evolves now e e' /\
      acts now pr session au s e e' (mkPending (Some (pairKey pr)) pr action false)).
  { intros s2 Hc2. destruct (schedule_spec (config s2) now action e1) as (e' & E & Ha & Hq & Hr & Hf & Hp);
      [rewrite Hc2; apply (inv_config _ Hinv)|done|].
    exists e'. split_and!; try done; [by left|].
    rewrite Hc2 in Hp. constructor; simpl; auto. }
  case_bool_decide as Hrestart.
  - destruct (reserve_spec now s1 Hs1) as [(s2 & E & Hn & Ha & Hd2 & He2 & Hst2 & Hf2)|(E & Hn & Hlt)];
      rewrite E; cbn [mbind outcome_bind negb].
    + destruct (Hsched s2) as (e' & E' & Hr & Hpr & Hev' & Hacts); [apply Hf2|]. rewrite E'. cbn [mbind outcome_bind].
      eexists _, _, e, e'. split; [reflexivity|].
      constructor; cbn [episodes put_episode set_episodes]; auto; try done.
      * by rewrite He2.
      * cbn [status put_episode set_episodes]. rewrite Hst2. by rewrite Hup, andb_false_r.
      * by rewrite Hup.
      * right. exists (mkPending (Some (pairKey pr)) pr action false), s1, s2. done.
      * by intros q [= <-].
    + eexists _, _, e, _. split; [reflexivity|]. apply planned_quiet; auto; by left.
  - destruct (Hsched s1) as (e' & E' & Hr & Hpr & Hev' & Hacts); [done|]. cbn [mbind outcome_bind negb]. rewrite E'.
    eexists _, _, e, e'. split; [reflexivity|].
    constructor; cbn [episodes put_episode set_episodes]; auto; try done.
    * by rewrite Hup, andb_false_r.
    * by rewrite Hup.
    * left. split; [done|]. by intros q [= <-].
    * by intros q [= <-].
Qed.

(** ** Planning for all sessions *)

#[global] Instance evolves_refl now : Reflexive (evolves now).
Proof. by left. Qed.
#[global] Instance evolves_trans now : Transitive (evolves now).
Proof. unfold evolves. intros x y z ? ?. lia. Qed.

#[global] Instance same_frame_refl : Reflexive same_frame.
Proof. done. Qed.
#[global] Instance same_frame_trans : Transitive same_frame.
Proof. unfold same_frame. intros x y z ? ?. intuition congruence. Qed.

(** An episode seen up whose stable period is over has no failure left. *)
Definition settled (c : SupervisorConfig) (now : Time) (e : recoveryEpisode) : Prop :=
  stableSince e <> 0 -> stableSince e + StablePeriod c <= now -> failingSince e = 0.

Lemma mark_up_settled c now pr e : 0 < StablePeriod c -> settled c now (markEpisodeUpLocked c now pr e).
Proof.
  unfold markEpisodeUpLocked, settled, IsZero, Before. intros Hc. cbn.
  destruct (Z.eqb_spec (stableSince e) 0); cbn; [lia|].
  destruct (Z.ltb_spec now (stableSince e + StablePeriod c)); cbn; [lia|done].
Qed.

(** The result of a sweep over some of the expected pairs. *)
Record swept (now : Time) (obs : gmap string Session) (au : bool) (pairs : list SessionPair)
    (s s' : Supervisor) (p : option pendingRecoveryAction) : Prop := {
  sw_inv : sup_inv s';
  sw_frame : same_frame s s';
  sw_other : forall k, (k ∉ (pairKey <$> pairs)) -> episodes s' !! k = episodes s !! k;
  sw_evolves : forall k, option_Forall2 (evolves now) (episodes s !! k) (episodes s' !! k);
  sw_child : (child_of s' = child_of s /\ forall q, p = Some q -> paAction q <> RecoveryRestartChild) \/
    exists q s1 s2, p = Some q /\ paAction q = RecoveryRestartChild /\ child_of s1 = child_of s /\ same_frame s s1 /\
      reserveChildRestartLocked now s1 = Done (true, s2) /\ child_of s' = child_of s2;
  sw_none : p = None ->
    Ready (status s') = Ready (status s) && forallb (fun pr => is_up (obs !! pairKey pr)) pairs /\
    forall pr, pr ∈ pairs -> exists e', episodes s' !! pairKey pr = Some e' /\
      rState (eStatus e') = seen (obs !! pairKey pr) /\ (is_up (obs !! pairKey pr) = true -> settled (config s) now e');
  sw_some : forall q, p = Some q -> Ready (status s') = false /\
    exists pre pr post s1 e e', pairs = pre ++ pr :: post /\ same_frame s s1 /\
      (forall k, (k ∉ (pairKey <$> pre)) -> episodes s1 !! k = episodes s !! k) /\
      option_Forall2 (evolves now) (episodes s !! pairKey pr) (Some e) /\
      episodes s1 !! pairKey pr = Some e /\ episodes s' !! pairKey pr = Some e' /\
      rState (eStatus e') = seen (obs !! pairKey pr) /\
      acts now pr (obs !! pairKey pr) au s1 e e' q
}.

Lemma planned_inv now pr session au s s' e e' p : sup_inv s -> pr ∈ expected s ->
  planned now pr session au s s' e e' p -> sup_inv s'.
Proof.
  intros [Hc Hne Hp Hk Ha] Hpr H. destruct (pl_frame _ _ _ _ _ _ _ _ _ H) as (Ec & Ex & _). constructor.
  - by rewrite Ec.
  - by rewrite Ex.
  - intros pr'. rewrite Ex, (pl_put _ _ _ _ _ _ _ _ _ H). intros Hin.
    destruct (decide (pairKey pr' = pairKey pr)) as [->|Hne'].
    + rewrite lookup_insert_eq. eauto.
    + rewrite lookup_insert_ne by done. auto.
  - intros k x. rewrite Ex, (pl_put _ _ _ _ _ _ _ _ _ H). destruct (decide (k = pairKey pr)) as [->|Hne'].
    + rewrite lookup_insert_eq. intros [= <-].
      destruct (pl_pair _ _ _ _ _ _ _ _ _ H) as [-> | ->]; [|done]. apply Hk, (pl_episode _ _ _ _ _ _ _ _ _ H).
    + rewrite lookup_insert_ne by done. apply Hk.
  - destruct (pl_child _ _ _ _ _ _ _ _ _ H) as [[E _]|(q & s1 & s2 & _ & _ & E1 & _ & Er & E2)];
      unfold child_of in *; [injection E as -> _ _; done|].
    apply reserve_true in Er as (_ & Er & _). injection E1 as E1 _ _. injection E2 as -> _ _. lia.
Qed.

Lemma planned_step now obs au pr rest s s1 e e' :
  sup_inv s -> pr ∈ expected s -> planned now pr (obs !! pairKey pr) au s s1 e e' None ->
  forall s' p, swept now obs au rest s1 s' p -> swept now obs au (pr :: rest) s s' p.
Proof.
  intros Hinv Hpr H s' p Hs.
  destruct H as [He Hput Hf Hev Hst _ Hrdy Hup Hch _].
  destruct Hs as [Hinv' Hf' Ho Hev' Hch' Hnone Hsome].
  assert (Hc1 : child_of s1 = child_of s) by (destruct Hch as [[]|(? & ? & ? & ? & _)]; [done|congruence]).
  assert (Hev1 : forall k, option_Forall2 (evolves now) (episodes s !! k) (episodes s1 !! k)).
  { intros k. rewrite Hput. destruct (decide (k = pairKey pr)) as [->|Hne].
    - rewrite lookup_insert_eq, He. by constructor.
    - rewrite lookup_insert_ne by done. destruct (episodes s !! k); by constructor. }
  assert (Hno : forall k, k <> pairKey pr -> episodes s1 !! k = episodes s !! k).
  { intros k Hk. by rewrite Hput, lookup_insert_ne by done. }
  constructor; auto.
  - by transitivity s1.
  - intros k Hk. rewrite fmap_cons, not_elem_of_cons in Hk. rewrite Ho by apply Hk. by apply Hno, Hk.
  - intros k. by transitivity (episodes s1 !! k).
  - rewrite <-Hc1. destruct Hch' as [|(q & a & b & ? & ? & ? & ? & ? & ?)]; [by left|].
    right. exists q, a, b. split_and!; try done; by transitivity s1.
  - intros Hp. destruct (Hnone Hp) as [Hr' Hall]. split.
    { rewrite Hr', Hrdy. cbn [forallb]. by rewrite andb_assoc. }
    intros pr' Hin. destruct (decide (pairKey pr' ∈ (pairKey <$> rest))) as [Hk|Hk].
    + apply list_elem_of_fmap in Hk as (pr'' & -> & Hin''). destruct Hf as (<- & _).
      by apply Hall.
    + assert (pr' = pr) as ->.
      { apply elem_of_cons in Hin as [|Hin]; [done|]. exfalso. by apply Hk, list_elem_of_fmap_2. }
      exists e'. rewrite Ho, Hput, lookup_insert_eq by done. split_and!; try done.
      intros Hu. destruct (Hup Hu) as [_ ->]. apply mark_up_settled, (inv_config _ Hinv).
  - intros q Hq. destruct (Hsome q Hq) as (Hr' & pre & pr' & post & s2 & x & x' & -> & Hf2 & Ho2 & Hx & Hx2 & Hx3 & Hx4 & Ha).
    split; [done|]. exists (pr :: pre), pr', post, s2, x, x'. split_and!; try done.
    + by transitivity s1.
    + intros k Hk. rewrite fmap_cons, not_elem_of_cons in Hk. rewrite Ho2 by apply Hk. by apply Hno, Hk.
    + by transitivity (episodes s1 !! pairKey pr').
Qed.

Lemma sweep now obs au pairs s : sup_inv s -> (forall pr, pr ∈ pairs -> pr ∈ expected s) ->
  exists p s', plan_pairs now obs au pairs s = Done (p, s') /\ swept now obs au pairs s s' p.
Proof.
  revert s. induction pairs as [|pr rest IH]; intros s Hinv Hsub.
  - exists None, s. split; [done|]. constructor; auto; try done.
    + intros _. split; [by rewrite andb_true_r|]. intros pr Hin. by apply elem_of_nil in Hin.
  - destruct (plan_episode now pr (obs !! pairKey pr) au s) as (p & s1 & e & e' & E & H);
      [done|apply Hsub; by left|].
    cbn [plan_pairs]. rewrite E. cbn [mbind outcome_bind].
    pose proof (planned_inv _ _ _ _ _ _ _ _ _ Hinv (Hsub pr ltac:(by left)) H) as Hinv1. destruct p as [q|].
    + exists (Some q), s1. split; [done|]. destruct H as [He Hput Hf Hev Hst _ Hrdy Hup Hch Ha]. constructor; auto; try done.
      * intros k Hk. rewrite fmap_cons, not_elem_of_cons in Hk. rewrite Hput. apply lookup_insert_ne. intros <-. by destruct Hk.
      * intros k. rewrite Hput. destruct (decide (k = pairKey pr)) as [->|Hne].
        -- rewrite lookup_insert_eq, He. by constructor.
        -- rewrite lookup_insert_ne by done. destruct (episodes s !! k); by constructor.
      * intros q' [= <-]. specialize (Ha q eq_refl). split.
        { rewrite Hrdy, (act_down _ _ _ _ _ _ _ _ Ha). apply andb_false_r. }
        exists [], pr, rest, s, e, e'. split_and!; try done.
        -- rewrite He. by constructor.
        -- by rewrite Hput, lookup_insert_eq.
    + destruct (IH s1 Hinv1) as (p & s' & E' & H').
      { intros pr' Hin. destruct (pl_frame _ _ _ _ _ _ _ _ _ H) as (_ & -> & _). apply Hsub. by right. }
      exists p, s'. split; [done|]. eapply planned_step; eauto. apply Hsub. by left.
Qed.

(** ** One round of planning *)

(** The child gets a restart: only when every session is down and the pause is
    over, and a new pause starts. *)
Definition restarts (now : Time) (obs : gmap string Session) (s s' : Supervisor) : Prop :=
  all_unhealthy obs (expected s) = true /\
  (childNextRetry s = 0 \/ childNextRetry s <= now) /\
  childRecoveryAttempts s' = childRecoveryAttempts s + 1 /\
  exists d, (d = CircuitOpen (config s) \/ d ∈ ChildBackoffs (config s)) /\ childNextRetry s' = now + d.

(** Up for at least the stable period. *)
Definition steady (c : SupervisorConfig) (now : Time) (e : recoveryEpisode) : Prop :=
  stableSince e <> 0 /\ stableSince e + StablePeriod c <= now.

(** The circuit breaker is closed: every session has been up for the stable period. *)
Definition closes (now : Time) (obs : gmap string Session) (s' : Supervisor) : Prop :=
  child_of s' = (0, 0, 0) /\ inheritedCircuitUntil s' = 0 /\
  (forall pr, pr ∈ expected s' -> is_up (obs !! pairKey pr) = true) /\
  (forall pr e, pr ∈ expected s' -> episodes s' !! pairKey pr = Some e -> failingSince e = 0 /\ steady (config s') now e).

Record round (now : Time) (obs : gmap string Session) (s s' : Supervisor) (p : option pendingRecoveryAction) : Prop := {
  rd_inv : sup_inv s';
  rd_config : config s' = config s /\ expected s' = expected s;
  rd_evolves : forall k, option_Forall2 (evolves now) (episodes s !! k) (episodes s' !! k);
  rd_ready : Ready (status s') = forallb (fun pr => is_up (obs !! pairKey pr)) (expected s);
  rd_child : match p with
    | Some q => if decide (paAction q = RecoveryRestartChild) then restarts now obs s s' else child_of s' = child_of s
    | None => child_of s' = child_of s \/ closes now obs s'
    end;
  rd_some : forall q, p = Some q ->
    (q = mkPending None (mkPair "" "") RecoveryRestartChild true /\ childHalfOpenDueLocked now s = true) \/
    exists pr s1 e e', pr ∈ expected s /\ same_frame s s1 /\
      (NoDup (pairKey <$> expected s) -> episodes s !! pairKey pr = Some e) /\
      option_Forall2 (evolves now) (episodes s !! pairKey pr) (Some e) /\
      episodes s' !! pairKey pr = Some e' /\
      acts now pr (obs !! pairKey pr) (all_unhealthy obs (expected s)) s1 e e' q
}.

Lemma stable_spec now s pairs : sup_inv s -> (forall pr, pr ∈ pairs -> pr ∈ expected s) ->
  exists b, stable_pairs now pairs s = Done b /\
    (b = true <-> forall pr e, pr ∈ pairs -> episodes s !! pairKey pr = Some e ->
       rState (eStatus e) = SessionUp /\ stableSince e <> 0 /\ stableSince e + StablePeriod (config s) <= now).
Proof.
  intros Hinv. induction pairs as [|pr rest IH]; intros Hsub; simpl.
  { exists true. split; [done|]. split; [|done]. intros _ pr e Hin. by apply elem_of_nil in Hin. }
  destruct (inv_pairs s Hinv pr) as [e He]; [apply Hsub; by left|]. rewrite He. cbn [of_option mbind outcome_bind].
  destruct (negb _ || _ || _) eqn:E.
  - exists false. split; [done|]. split; [done|]. intros H. exfalso.
    destruct (H pr e) as (H1 & H2 & H3); [by left|done|].
    unfold IsZero, Before in E. rewrite bool_decide_true in E by done. simpl in E. lia.
  - destruct IH as (b & Eb & Hb); [intros; apply Hsub; by right|]. exists b. split; [done|].
    rewrite Hb. unfold IsZero, Before in E. apply orb_false_iff in E as [E1 E3]. apply orb_false_iff in E1 as [E1 E2].
    apply negb_false_iff, bool_decide_eq_true in E1. split; [|intros H pr' e' Hin; apply H; by right].
    intros H pr' e' Hin He'. apply elem_of_cons in Hin as [->|Hin]; [|eauto].
    rewrite He in He'. injection He' as <-. split; [done|]. lia.
Qed.

Lemma all_unhealthy_spec obs pairs :
  all_unhealthy obs pairs = true <-> forall pr, pr ∈ pairs -> is_up (obs !! pairKey pr) = false.
Proof.
  unfold all_unhealthy. rewrite forallb_forall. split; intros H pr Hin.
  - apply negb_true_iff, H. by apply list_elem_of_In.
  - apply negb_true_iff, H. by apply list_elem_of_In.
Qed.

Lemma restart_unhealthy c n ex au : selectRecoveryAction c n ex au = RecoveryRestartChild -> au = true.
Proof. unfold selectRecoveryAction. destruct au; [done|]. rewrite !andb_false_r. repeat case_match; discriminate. Qed.

(** The sweep over all pairs, as a part of a round. *)
Lemma swept_round now obs s s' p : sup_inv s ->
  swept now obs (all_unhealthy obs (expected s)) (expected s) (on_sup_status (set_Ready true) s) s' p ->
  sup_inv s' /\ same_frame s s' /\
  (forall k, option_Forall2 (evolves now) (episodes s !! k) (episodes s' !! k)) /\
  Ready (status s') = forallb (fun pr => is_up (obs !! pairKey pr)) (expected s) /\
  match p with
  | Some q => if decide (paAction q = RecoveryRestartChild) then restarts now obs s s' else child_of s' = child_of s
  | None => child_of s' = child_of s
  end /\
  (forall q, p = Some q ->
    exists pr s1 e e', pr ∈ expected s /\ same_frame s s1 /\
      (NoDup (pairKey <$> expected s) -> episodes s !! pairKey pr = Some e) /\
      option_Forall2 (evolves now) (episodes s !! pairKey pr) (Some e) /\
      episodes s' !! pairKey pr = Some e' /\ rState (eStatus e') = seen (obs !! pairKey pr) /\
      acts now pr (obs !! pairKey pr) (all_unhealthy obs (expected s)) s1 e e' q).
Proof.
  intros Hinv [Hinv' Hf Ho Hev Hch Hnone Hsome].
  assert (Hq : forall q, p = Some q -> Ready (status s') = false /\
    exists pr s1 e e', pr ∈ expected s /\ same_frame s s1 /\
      (NoDup (pairKey <$> expected s) -> episodes s !! pairKey pr = Some e) /\
      option_Forall2 (evolves now) (episodes s !! pairKey pr) (Some e) /\
      episodes s' !! pairKey pr = Some e' /\ rState (eStatus e') = seen (obs !! pairKey pr) /\
      acts now pr (obs !! pairKey pr) (all_unhealthy obs (expected s)) s1 e e' q).
  { intros q Hq. destruct (Hsome q Hq) as (Hr & pre & pr & post & s1 & e & e' & Hx & Hf1 & Ho1 & He & He1 & He2 & Hs & Ha).
    split; [done|]. exists pr, s1, e, e'. split_and!; try done.
    - rewrite Hx. apply elem_of_app. right. by left.
    - intros Hnd. rewrite <-He1. symmetry. apply Ho1. rewrite Hx, fmap_app, fmap_cons in Hnd.
      apply NoDup_app in Hnd as (_ & Hd & _). intros Hin. apply (Hd _ Hin). by left. }
  split_and!; try done.
  - destruct p as [q|]; [|by apply Hnone].
    destruct (Hq q eq_refl) as (-> & pr & s1 & e & e' & Hin & _ & _ & _ & _ & _ & Ha). symmetry.
    apply not_true_iff_false. intros Hall. rewrite forallb_forall in Hall.
    pose proof (act_down _ _ _ _ _ _ _ _ Ha) as Hd. rewrite (Hall pr) in Hd; [done|]. by apply list_elem_of_In.
  - destruct Hch as [[E Hnr]|(q & s1 & s2 & -> & Hact & E1 & (Ec & _) & Er & E2)].
    + destruct p as [q|]; [|done]. case_decide as Hact; [|done]. by destruct (Hnr q eq_refl).
    + rewrite decide_True by done. destruct (Hq q eq_refl) as (_ & pr & s3 & e & e' & _ & _ & _ & _ & _ & _ & Ha).
      apply reserve_true in Er as (Hn & Hat & d & Hd & Hnx).
      unfold child_of in E1, E2. cbn in E1. injection E1 as E1a E1n E1c. injection E2 as E2a E2n E2c.
      split.
      { eapply restart_unhealthy. rewrite <-Hact. symmetry. apply (act_select _ _ _ _ _ _ _ _ Ha). }
      rewrite Ec in Hd. split_and!; [lia|lia|]. exists d. split; [done|lia].
  - intros q Hq'. by apply Hq.
Qed.

Lemma plan_sessions_spec now sessions s : sup_inv s ->
  exists p s', plan_sessions now sessions s = Done (p, s') /\ round now (observed sessions) s s' p.
Proof.
  intros Hinv. unfold plan_sessions. cbv zeta. set (obs := observed sessions).
  set (s1 := on_sup_status (set_Ready true) s).
  assert (Hs1 : sup_inv s1) by by apply sup_inv_ready.
  destruct (all_unhealthy obs (expected s) && childHalfOpenDueLocked now s1) eqn:Ehalf.
  - apply andb_true_iff in Ehalf as [Hau Hdue]. rewrite Hau.
    destruct (reserve_spec now (on_sup_status (set_Ready false) s1)) as
      [(s2 & E & Hn & Ha & Hd & He & Hst & Hf)|(E & Hn & Hlt)]; [by apply sup_inv_ready|..]; rewrite E; cbn [mbind outcome_bind].
    + eexists _, s2. split; [reflexivity|]. destruct Hf as (Ec & Ex & _). constructor; auto.
      * destruct Hinv as [Hc Hne Hp Hk Hat]. constructor; [by rewrite Ec|by rewrite Ex|by rewrite Ex, He|by rewrite Ex, He|].
        cbn in Ha. lia.
      * intros k. rewrite He. reflexivity.
      * rewrite Hst. simpl. symmetry. apply not_true_iff_false. intros Hall. rewrite forallb_forall in Hall.
        destruct (expected s) as [|pr rest] eqn:Hx; [by apply (inv_some s Hinv)|].
        rewrite all_unhealthy_spec in Hau. specialize (Hall pr ltac:(by left)). rewrite Hau in Hall; [done|by left].
      * by rewrite decide_True by done.
      * intros q [= <-]. by left.
    + exfalso. unfold childHalfOpenDueLocked, IsZero, Before in Hdue. cbn in Hdue, Hn, Hlt. lia.
  - destruct (sweep now obs (all_unhealthy obs (expected s)) (expected s1) s1 Hs1) as (p & s2 & E & Hs); [done|].
    rewrite E. cbn [mbind outcome_bind]. apply (swept_round now obs s s2 p Hinv) in Hs as Hr.
    destruct Hr as (Hinv2 & (Ec & Ex & Ei) & Hev & Hrdy & Hch & Hsome).
    assert (Hrd : round now obs s s2 p).
    { constructor; auto.
      - destruct p; [done|by left].
      - intros q Hq. right. destruct (Hsome q Hq) as (pr & a & e & e' & ? & ? & ? & ? & ? & _ & ?).
        exists pr, a, e, e'. done. }
    destruct (all_unhealthy obs (expected s)) eqn:Hau; [by eexists _, _|].
    unfold allExpectedSessionsStableLocked.
    destruct (stable_spec now s2 (expected s2) Hinv2) as (b & Eb & Hb); [done|]. rewrite Eb. cbn [mbind outcome_bind].
    destruct b; [|by eexists _, _]. pose proof (proj1 Hb eq_refl) as Hst. clear Hb.
    eexists p, _. split; [reflexivity|].
    assert (Hp : p = None).
    { destruct p as [q|]; [|done]. exfalso.
      destruct (Hsome q eq_refl) as (pr & a & e & e' & Hin & _ & _ & _ & He' & Hse & Hact).
      destruct (Hst pr e') as (Hup & _); [by rewrite Ex|done|].
      pose proof (act_down _ _ _ _ _ _ _ _ Hact) as Hd. rewrite Hse in Hup. unfold seen in Hup.
      destruct (obs !! pairKey pr); [|done]. simpl in Hd. by rewrite bool_decide_true in Hd. }
    subst p. destruct (sw_none _ _ _ _ _ _ _ Hs eq_refl) as [_ Hall].
    assert (Hup : forall pr e, pr ∈ expected s2 -> episodes s2 !! pairKey pr = Some e ->
      is_up (obs !! pairKey pr) = true /\ failingSince e = 0 /\ steady (config s2) now e).
    { intros pr e Hin He. destruct (Hst pr e Hin He) as (Hu & Hz & Hle). rewrite Ex in Hin.
      destruct (Hall pr Hin) as (e' & He' & Hse & Hset). rewrite He in He'. injection He' as <-.
      assert (Hu' : is_up (obs !! pairKey pr) = true).
      { rewrite Hse in Hu. unfold seen in Hu. destruct (obs !! pairKey pr); [|done]. by apply bool_decide_eq_true. }
      split; [done|]. split; [|done]. apply Hset; [done|done|]. cbn. congruence. }
    constructor; auto; try done.
    + destruct Hinv2 as [? ? ? ? ?]. constructor; done || (simpl; lia).
    + right. split_and!; try done.
      * intros pr Hin. destruct (inv_pairs _ Hinv2 pr Hin) as [e He]. by eapply Hup.
      * intros pr e Hin He. by eapply Hup.
Qed.

(** ** Closing the circuit *)

Lemma mark_up_steady c now pr e : steady c now e -> steady c now (markEpisodeUpLocked c now pr e).
Proof.
  unfold steady, markEpisodeUpLocked, IsZero, Before. intros [Hz Hle]. cbn.
  replace (stableSince e =? 0) with false by lia.
  by replace (now <? stableSince e + StablePeriod c) with false by lia.
Qed.

Lemma sweep_steady now obs au pairs s p s' : sup_inv s -> (forall pr, pr ∈ pairs -> pr ∈ expected s) ->
  (forall pr, pr ∈ pairs -> is_up (obs !! pairKey pr) = true) ->
  (forall k e, episodes s !! k = Some e -> steady (config s) now e) ->
  plan_pairs now obs au pairs s = Done (p, s') ->
  p = None /\ forall k e, episodes s' !! k = Some e -> steady (config s) now e.
Proof.
  revert s. induction pairs as [|x rest IH]; intros s Hinv Hsub Hup Hst E; [by injection E as <- <-|].
  assert (Hx : x ∈ expected s) by (apply Hsub; by left).
  destruct (plan_episode now x (obs !! pairKey x) au s Hinv Hx) as (q & s1 & e0 & e1 & E1 & H).
  cbn [plan_pairs] in E. rewrite E1 in E. cbn [mbind outcome_bind] in E.
  destruct (pl_up _ _ _ _ _ _ _ _ _ H) as [-> He1]; [apply Hup; by left|].
  destruct (pl_frame _ _ _ _ _ _ _ _ _ H) as (Ec & Ex & _). rewrite <-Ec.
  apply (IH s1 (planned_inv _ _ _ _ _ _ _ _ _ Hinv Hx H)); [..|done].
  - intros pr Hin. rewrite Ex. apply Hsub. by right.
  - intros pr Hin. apply Hup. by right.
  - intros k e. rewrite (pl_put _ _ _ _ _ _ _ _ _ H), Ec. destruct (decide (k = pairKey x)) as [->|Hne].
    + rewrite lookup_insert_eq, He1. intros [= <-]. apply mark_up_steady.
      exact (Hst (pairKey x) e0 (pl_episode _ _ _ _ _ _ _ _ _ H)).
    + rewrite lookup_insert_ne by done. apply Hst.
Qed.

Lemma plan_closes now sessions s : sup_inv s ->
  (forall pr, pr ∈ expected s -> is_up (observed sessions !! pairKey pr) = true) ->
  (forall pr e, pr ∈ expected s -> episodes s !! pairKey pr = Some e -> steady (config s) now e) ->
  exists s', plan_sessions now sessions s = Done (None, s') /\ child_of s' = (0, 0, 0).
Proof.
  intros Hinv Hup Hst. unfold plan_sessions. cbv zeta. set (obs := observed sessions) in *.
  assert (Hau : all_unhealthy obs (expected s) = false).
  { apply not_true_iff_false. rewrite all_unhealthy_spec. intros Hall.
    destruct (expected s) as [|pr rest] eqn:Ex; [by apply (inv_some s Hinv)|].
    assert (pr ∈ pr :: rest) as Hin by by left. specialize (Hup pr Hin). by rewrite (Hall pr Hin) in Hup. }
  rewrite Hau. cbn [andb]. set (s0 := on_sup_status (set_Ready true) s).
  assert (Hs0 : sup_inv s0) by by apply sup_inv_ready.
  destruct (sweep now obs false (expected s0) s0 Hs0) as (p & s1 & E & Hsw); [done|]. rewrite E. cbn [mbind outcome_bind].
  destruct (sweep_steady now obs false (expected s0) s0 p s1 Hs0) as [-> Hst1]; try done.
  { intros k e He. destruct (inv_keys s Hinv k e He) as [Hin Hk]. eapply Hst; [done|]. by rewrite Hk. }
  destruct (stable_spec now s1 (expected s1) (sw_inv _ _ _ _ _ _ _ Hsw)) as (b & Eb & Hb); [done|].
  unfold allExpectedSessionsStableLocked. rewrite Eb. cbn [mbind outcome_bind].
  destruct (sw_frame _ _ _ _ _ _ _ Hsw) as (Ec & Ex & _).
  destruct (sw_none _ _ _ _ _ _ _ Hsw eq_refl) as [_ Hall].
  replace b with true; [by eexists|]. symmetry. apply Hb. intros pr e Hin He. rewrite Ec.
  destruct (Hst1 _ _ He). rewrite Ex in Hin. destruct (Hall pr Hin) as (e' & He' & Hse & _).
  rewrite He in He'. injection He' as <-. split_and!; try done. rewrite Hse. by apply seen_up, Hup.
Qed.
