(* ===== verification/BfdReconcile.v ===== *)
(** * The methods of the BFD supervisor

    A weakest-precondition calculus for the methods, and what [Reconcile],
    [StartChild] and [NewSupervisor] do to the planning state: they never
    panic, keep the invariant, and follow the planning function. *)
From stdpp Require Import sorting.
From S2P Require Import Prelude GoStrings GoNet IpPool IpPoolFacts GoText BfdControl BfdSupervisor BfdFacts.

Local Open Scope Z_scope.

(** ** Planning state *)

Definition forget_result : recoveryEpisode -> recoveryEpisode := on_status (set_rResult "").

(** Two supervisors that plan alike: they may differ in what they report. *)
Definition same_plan (s s' : Supervisor) : Prop :=
  config s = config s' /\ expected s = expected s' /\ child_of s = child_of s' /\
  forall k, forget_result <$> episodes s !! k = forget_result <$> episodes s' !! k.

#[global] Instance same_plan_equiv : Equivalence same_plan.
Proof.
  unfold same_plan. split.
  - by intros s.
  - intros s s' (? & ? & ? & ?). auto.
  - intros a b c (? & ? & ? & Hab) (? & ? & ? & Hbc). split_and!; try congruence.
Qed.

Lemma forget_None (s s' : Supervisor) k : forget_result <$> episodes s !! k = forget_result <$> episodes s' !! k ->
  is_Some (episodes s !! k) -> is_Some (episodes s' !! k).
Proof. intros H [e He]. rewrite He in H. destruct (episodes s' !! k); [eauto|done]. Qed.

#[global] Instance sup_inv_proper : Proper (same_plan ==> iff) sup_inv.
Proof.
  assert (Hdir : forall s s', same_plan s s' -> sup_inv s -> sup_inv s').
  { intros s s' (Ec & Ex & Eh & He) [Hc Hne Hp Hk Ha]. unfold child_of in Eh. injection Eh as Ea _ _.
    constructor; [by rewrite <-Ec|by rewrite <-Ex|..|lia]; rewrite <-Ex.
    - intros pr Hin. eapply forget_None; [apply He|]. by apply Hp.
    - intros k e' Hk'. specialize (He k). rewrite Hk' in He. destruct (episodes s !! k) as [e|] eqn:E; [|done].
      injection He as He1 _. destruct (Hk k e E). by rewrite <-He1. }
  intros s s' H. split; [by apply Hdir|]. apply Hdir. by symmetry.
Qed.

(** Updates of the report do not change the planning state. *)
Lemma same_plan_status f s : same_plan s (on_sup_status f s).
Proof. by split_and!. Qed.
Lemma same_plan_failures n s : same_plan s (set_failures n s).
Proof. by split_and!. Qed.
Lemma same_plan_bootstrap b s : same_plan s (set_bootstrap b s).
Proof. by split_and!. Qed.
Lemma same_plan_inherited t s : same_plan s (set_inherited t s).
Proof. by split_and!. Qed.
Lemma same_plan_result key r s : same_plan s (set_result key r s).
Proof.
  split_and!; try done. intros k. simpl. destruct (decide (k = key)) as [->|Hne].
  - rewrite lookup_alter_eq. by destruct (episodes s !! key).
  - by rewrite lookup_alter_ne.
Qed.

Create HintDb plans discriminated.
#[export] Hint Resolve same_plan_status same_plan_failures same_plan_bootstrap same_plan_inherited same_plan_result : plans.

(** ** Weakest preconditions *)

Section Wp.
  Context {W Data : Type} `{Clock W} `{ControlAdapter W} `{ChildController W} `{StateFile W Data} `{Codec Data}.

#[local] Existing Instance method_bind.
#[local] Existing Instance method_ret.

Definition wp {A} (m : method (W:=W) A) (s : Supervisor) (w : W) (Q : A -> Supervisor -> Prop) : Prop :=
  match m s w with Done (a, s', _) => Q a s' | _ => False end.

Lemma wp_bind {A B} (m : method (W:=W) A) (f : A -> method (W:=W) B) s w Q :
  wp m s w (fun a s' => forall w', wp (f a) s' w' Q) -> wp (m ≫= f) s w Q.
Proof.
  unfold wp, mbind, method_bind. destruct (m s w) as [[[a s'] w']| |]; cbn; try done.
  intros Hf. apply Hf.
Qed.

Lemma wp_mono {A} (m : method (W:=W) A) s w (P Q : A -> Supervisor -> Prop) :
  wp m s w P -> (forall a s', P a s' -> Q a s') -> wp m s w Q.
Proof. unfold wp. destruct (m s w) as [[[a s'] w']| |]; auto. Qed.

Lemma wp_ret {A} (a : A) s w (Q : A -> Supervisor -> Prop) : Q a s -> wp (mret a) s w Q.
Proof. done. Qed.

Lemma wp_call {A} (f : W -> A * W) s w (Q : A -> Supervisor -> Prop) : (forall a, Q a s) -> wp (call f) s w Q.
Proof. unfold wp, call. destruct (f w). auto. Qed.

Lemma wp_modify f s w (Q : unit -> Supervisor -> Prop) : Q tt (f s) -> wp (modify f) s w Q.
Proof. done. Qed.

Lemma wp_get s w (Q : Supervisor -> Supervisor -> Prop) : Q s s -> wp get s w Q.
Proof. done. Qed.

Lemma wp_plan {A} (f : Supervisor -> outcome (A * Supervisor)) s w a s' (Q : A -> Supervisor -> Prop) :
  f s = Done (a, s') -> Q a s' -> wp (plan f) s w Q.
Proof. unfold wp, plan. by intros ->. Qed.
End Wp.

Ltac wp_step :=
  lazymatch goal with
  | |- wp (_ ≫= _) _ _ _ => apply wp_bind
  | |- wp (mret _) _ _ _ => apply wp_ret
  | |- wp (call _) _ _ _ => apply wp_call; intros ?
  | |- wp (modify _) _ _ _ => apply wp_modify
  | |- wp get _ _ _ => apply wp_get
  end.
Ltac wp_steps := repeat (wp_step || intros ?).

(** ** The methods *)

Section Specs.
  Context {W Data : Type} `{Clock W} `{ControlAdapter W} `{ChildController W} `{StateFile W Data} `{Codec Data}.

#[local] Existing Instance method_bind.
#[local] Existing Instance method_ret.

(** The report lists the episodes of the expected pairs. *)
Definition reported (s : Supervisor) : Prop := expected_statuses s = Done (Sessions (status s)).

Lemma statuses_total s : sup_inv s -> exists ss, expected_statuses s = Done ss.
Proof.
  intros Hinv. unfold expected_statuses.
  destruct (mapM_is_Some_2 (fun pr => eStatus <$> episodes s !! pairKey pr) (expected s)) as [ss ->]; [|by eauto].
  apply Forall_forall. intros pr Hin. destruct (inv_pairs s Hinv pr Hin) as [e He]. exists (eStatus e). by rewrite He.
Qed.

Lemma refresh_wp s w (Q : unit -> Supervisor -> Prop) : sup_inv s ->
  (forall s', same_plan s s' -> reported s' -> Ready (status s') = Ready (status s) -> Q tt s') ->
  wp refreshStatusLocked s w Q.
Proof.
  intros Hinv HQ. destruct (statuses_total s Hinv) as [ss Hss]. unfold refreshStatusLocked.
  apply wp_bind. unfold wp at 1, read. rewrite Hss. cbn. intros w'. wp_steps.
  by apply HQ; [auto with plans|..].
Qed.

(** Updates of the liveness. *)
Definition quiet (m : method (W:=W) unit) : Prop := forall s w,
  wp m s w (fun _ s' => same_plan s s' /\ Ready (status s') = Ready (status s)).

Lemma liveness_quiet now : quiet (updateLivenessLocked now).
Proof. intros s w. unfold updateLivenessLocked. wp_steps. auto with plans. Qed.

Lemma running_quiet now : quiet (updateChildRunningLivenessLocked now).
Proof. intros s w. unfold updateChildRunningLivenessLocked. wp_steps. auto with plans. Qed.

Lemma failure_quiet now : quiet (updateControlFailureLivenessLocked now).
Proof.
  intros s w. unfold updateControlFailureLivenessLocked. wp_step. wp_step. intros w'.
  destruct a; [apply liveness_quiet|]. wp_steps. auto with plans.
Qed.

Lemma save_wp st s w (Q : option error -> Supervisor -> Prop) : (forall e, Q e s) -> wp (saveState st) s w Q.
Proof.
  intros HQ. unfold saveState. wp_step. wp_step. intros w1. case_bool_decide; [by wp_step|].
  destruct (Marshal st); [|by wp_step]. wp_steps. destruct a; [by wp_step|]. wp_steps. destruct a; by wp_step.
Qed.

Lemma execute_wp p s w (Q : option error -> Supervisor -> Prop) :
  (forall e, Q e s) -> wp (executeRecoveryAction p) s w Q.
Proof.
  intros HQ. unfold executeRecoveryAction. repeat case_bool_decide; wp_steps; apply HQ.
Qed.

Lemma record_wp p r s w (Q : persistentState -> Supervisor -> Prop) : sup_inv s ->
  (forall st s', same_plan s s' -> reported s' -> Ready (status s') = Ready (status s) -> Q st s') ->
  wp (recordRecoveryResult p r) s w Q.
Proof.
  intros Hinv HQ. unfold recordRecoveryResult. wp_step.
  apply (wp_mono _ _ _ (fun _ s1 => same_plan s s1 /\ Ready (status s1) = Ready (status s))).
  { destruct (paEpisode p); wp_steps; auto with plans. by split. }
  intros _ s1 [Hp1 Hr1] w1. wp_step.
  apply (wp_mono _ _ _ (fun _ s2 => same_plan s s2 /\ Ready (status s2) = Ready (status s))).
  { destruct (negb _ && _); wp_steps; [|done]. split; [|done]. rewrite Hp1. auto with plans. }
  intros _ s2 [Hp2 Hr2] w2. wp_step. wp_step. intros w3. wp_step.
  apply (wp_mono _ _ _ (fun _ s3 => same_plan s2 s3 /\ Ready (status s3) = Ready (status s2))).
  { destruct (_ && _); [apply liveness_quiet|apply running_quiet]. }
  intros _ s3 [Hp3 Hr3] w4. rewrite <-Hp2 in Hp3. wp_step. apply refresh_wp; [by rewrite <-Hp3|].
  intros s4 Hp4 Hrep Hr4 w5. wp_steps. apply HQ; [by rewrite Hp3|done|congruence].
Qed.

(** What a call of [Reconcile] does to the planning state: a failed query
    changes nothing, and otherwise one round is planned. *)
Definition reconciled (now : Time) (r : orError (list Session)) (s s' : Supervisor) (e : option error) : Prop :=
  sup_inv s' /\ reported s' /\
  match r with
  | inr _ => same_plan s s' /\ e = None /\ Ready (status s') = false
  | inl sessions => exists p s0 s1, same_plan s s0 /\ plan_sessions now sessions s0 = Done (p, s1) /\
      same_plan s1 s' /\ Ready (status s') = Ready (status s1)
  end.

(** A call whose answer matters: the environment moves on to the next. *)
Lemma wp_call_bind {A B} (g : W -> A * W) (f : A -> method (W:=W) B) s w Q :
  wp (f (fst (g w))) s (snd (g w)) Q -> wp (call g ≫= f) s w Q.
Proof. unfold wp, mbind, method_bind, call. by destruct (g w). Qed.

Lemma plan_recovery_wp now sessions s w (Q : option pendingRecoveryAction * persistentState -> Supervisor -> Prop) :
  sup_inv s ->
  (forall p s1 s' st, plan_sessions now sessions s = Done (p, s1) -> sup_inv s' -> same_plan s1 s' -> reported s' ->
     Ready (status s') = Ready (status s1) -> Q (p, st) s') ->
  wp (planSessionRecovery now sessions) s w Q.
Proof.
  intros Hinv HQ. destruct (plan_sessions_spec now sessions s Hinv) as (p & s1 & E & Hrd).
  pose proof (rd_inv _ _ _ _ _ Hrd) as Hinv1. unfold planSessionRecovery. wp_step.
  apply (wp_plan _ _ _ _ _ _ E). intros w1. wp_step.
  eapply wp_mono; [apply running_quiet|]. intros _ s2 [Hp2 Hr2] w2. wp_step.
  apply refresh_wp; [by rewrite <-Hp2|]. intros s3 Hp3 Hrep Hr3 w3. wp_steps. rewrite <-Hp2 in Hp3.
  eapply HQ; [done|by rewrite <-Hp3|done|done|congruence].
Qed.

Lemma control_failure_wp now err s w (Q : option error -> Supervisor -> Prop) : sup_inv s ->
  (forall s', same_plan s s' -> reported s' -> Ready (status s') = false -> Q None s') ->
  wp (reconcileControlFailure now err) s w Q.
Proof.
  intros Hinv HQ. unfold reconcileControlFailure. wp_steps.
  match goal with |- wp _ ?x _ _ => assert (Hp1 : same_plan s x)
    by (transitivity (set_failures (controlFailures s + 1) s); [auto with plans|];
        transitivity (on_sup_status (set_Failures (controlFailures s + 1) err) (set_failures (controlFailures s + 1) s));
        auto with plans); assert (Hr1 : Ready (status x) = false) by done end.
  eapply wp_mono; [apply failure_quiet|]. intros _ s2 [Hp2 Hr2] w3. rewrite <-Hp1 in Hp2. wp_step.
  apply refresh_wp; [by rewrite <-Hp2|]. intros s3 Hp3 Hrep Hr3 w4. wp_steps.
  apply HQ; [by rewrite Hp2|done|congruence].
Qed.

Theorem Reconcile_spec s w : sup_inv s ->
  wp Reconcile s w (fun e s' =>
    reconciled (fst (Clock_Now w)) (fst (Control_Status (snd (Clock_Now w)))) s s' e).
Proof.
  intros Hinv. unfold Reconcile. apply wp_call_bind. apply wp_call_bind.
  destruct (fst (Control_Status (snd (Clock_Now w)))) as [sessions|err].
  - wp_step. wp_step. intros w1.
    match goal with |- wp _ ?x _ _ => assert (Hp0 : same_plan s x)
      by (transitivity (set_failures 0 s); auto with plans) end.
    wp_step. apply plan_recovery_wp; [by rewrite <-Hp0|].
    intros p s1 s2 st Hplan Hinv2 Hp2 Hrep2 Hr2 w2.
    assert (Hdone : forall e, reconciled (fst (Clock_Now w)) (inl sessions) s s2 e).
    { intros e. split_and!; try done. eauto 10. }
    wp_step. apply save_wp. intros [e|] w3; [by wp_step|]. destruct p as [p|]; [|by wp_step].
    wp_step. apply execute_wp. intros r w4. wp_step. apply record_wp; [done|].
    intros st' s3 Hp3 Hrep3 Hr3 w5. wp_step. apply save_wp. intros e w6. wp_step.
    split_and!; [by rewrite <-Hp3|done|]. exists (Some p), (on_sup_status (set_Failures 0 "") (set_failures 0 s)), s1.
    split_and!; [done|done|by rewrite Hp2|congruence].
  - apply control_failure_wp; [done|]. intros s' Hp Hrep Hr. split_and!; try done. by rewrite <-Hp.
Qed.

(** ** Starting *)

Lemma reserve_inv now s b s' : sup_inv s -> reserveChildRestartLocked now s = Done (b, s') -> sup_inv s'.
Proof.
  intros Hinv E. destruct (reserve_spec now s Hinv) as [(s2 & E2 & _ & Ha & _ & He & _ & Ec & Ex & _)|(E2 & _)];
    rewrite E2 in E; injection E as <- <-; [|done].
  destruct Hinv as [Hc Hne Hp Hk Hat]. constructor; rewrite ?Ec, ?Ex, ?He; auto. lia.
Qed.

Lemma reserve_wp now s (w : W) (Q : bool -> Supervisor -> Prop) : sup_inv s ->
  (forall b s', sup_inv s' -> Q b s') -> wp (plan (reserveChildRestartLocked now)) s w Q.
Proof.
  intros Hinv HQ.
  destruct (reserve_spec now s Hinv) as [(s2 & E & _)|(E & _)]; apply (wp_plan _ _ _ _ _ _ E);
    apply HQ; by eapply reserve_inv.
Qed.

(** [StartChild] tries once; it never panics and keeps the invariant. *)
Theorem StartChild_spec s w : sup_inv s ->
  wp StartChild s w (fun e s' => sup_inv s' /\ (childBootstrapAttempted s = true -> s' = s /\ e = None)).
Proof.
  intros Hinv. unfold StartChild. apply wp_call_bind. set (now := fst (Clock_Now w)). wp_step. wp_step. intros w1.
  destruct (childBootstrapAttempted s) eqn:Hb; [by wp_steps|].
  apply (wp_mono _ _ _ (fun _ s' => sup_inv s')); [|by auto].
  wp_step. wp_step. intros w2. wp_step. wp_step. intros w3.
  assert (Hinv1 : sup_inv (set_bootstrap true s)) by by rewrite <-same_plan_bootstrap.
  wp_step. apply save_wp. intros [e|] w4.
  { wp_steps. by rewrite <-same_plan_bootstrap. }
  wp_step. wp_step. intros w5. wp_step. wp_step. intros w6. wp_step.
  apply (wp_mono _ _ _ (fun _ s' => sup_inv s')).
  { destruct (_ && _ && _); [by apply reserve_wp|by wp_steps]. }
  intros _ s2 Hinv2 w7. wp_step.
  apply (wp_mono _ _ _ (fun _ s' => sup_inv s')).
  { destruct (_ && _); [|by wp_steps]. wp_step. apply reserve_wp; [done|]. intros _ s3 Hinv3 w8. wp_steps.
    by rewrite <-same_plan_inherited. }
  intros _ s3 Hinv3 w8. wp_step.
  apply (wp_mono _ _ _ (fun _ s' => same_plan s3 s' /\ Ready (status s') = Ready (status s3))).
  { destruct (is_some _); [apply liveness_quiet|apply running_quiet]. }
  intros _ s4 [Hp4 _] w9. wp_step. wp_step. intros w10.
  assert (Hinv4 : sup_inv (on_sup_status (set_Ready false) s4)) by by rewrite <-same_plan_status, <-Hp4.
  wp_step. apply refresh_wp; [done|]. intros s5 Hp5 _ _ w11. wp_step. wp_step. intros w12.
  wp_step. apply save_wp. intros [e|] w13; wp_step; by rewrite <-Hp5.
Qed.

Lemma load_wp s w (Q : option error -> Supervisor -> Prop) :
  (forall e, Q e s) -> (forall st, Q None (load_persistent st s)) -> wp loadState s w Q.
Proof.
  intros HQ HL. unfold loadState. wp_step. wp_step. intros w1. case_bool_decide; [by wp_step|].
  wp_step. wp_step. intros w2. destruct a as [|e|d]; [by wp_step|by wp_step|].
  destruct (Unmarshal d); [by wp_steps|]. wp_steps. destruct a; wp_steps; apply HQ.
Qed.
End Specs.

(** ** Construction and the persistent state *)

Lemma new_episodes_snoc pairs pr :
  new_episodes (pairs ++ [pr]) = <[pairKey pr := new_episode pr]> (new_episodes pairs).
Proof. unfold new_episodes. by rewrite foldl_app. Qed.

Lemma new_episodes_lookup pairs k e : new_episodes pairs !! k = Some e ->
  exists pr, pr ∈ pairs /\ pairKey pr = k /\ e = new_episode pr.
Proof.
  induction pairs as [|pr pairs IH] using rev_ind; [done|]. rewrite new_episodes_snoc.
  destruct (decide (k = pairKey pr)) as [->|Hne].
  - rewrite lookup_insert_eq. intros [= <-]. exists pr. rewrite elem_of_app. split_and!; [right; by left|done..].
  - rewrite lookup_insert_ne by done. intros He. destruct (IH He) as (x & ? & ? & ?).
    exists x. rewrite elem_of_app. auto.
Qed.

Lemma new_episodes_total pairs pr : pr ∈ pairs -> is_Some (new_episodes pairs !! pairKey pr).
Proof.
  induction pairs as [|x pairs IH] using rev_ind; intros Hin; [by apply elem_of_nil in Hin|].
  rewrite new_episodes_snoc. destruct (decide (pairKey pr = pairKey x)) as [->|Hne].
  - rewrite lookup_insert_eq. eauto.
  - rewrite lookup_insert_ne by done. apply IH. apply elem_of_app in Hin as [|Hin]; [done|].
    apply list_elem_of_singleton in Hin. congruence.
Qed.

Lemma load_episodes_lookup saved known k : load_episodes saved known !! k =
  (fun e => match saved !! k with
            | Some x => if bool_decide (rPair (eStatus x) = rPair (eStatus e)) then x else e
            | None => e
            end) <$> known !! k.
Proof. unfold load_episodes. rewrite map_lookup_imap. by destruct (known !! k). Qed.

Lemma load_inv st s : sup_inv s -> 0 <= psChildRecoveryAttempts st -> sup_inv (load_persistent st s).
Proof.
  intros [Hc Hne Hp Hk Ha] Hst. constructor; try done; simpl.
  - intros pr Hin. rewrite load_episodes_lookup. by apply fmap_is_Some, Hp.
  - intros k e. rewrite load_episodes_lookup. destruct (episodes s !! k) as [x|] eqn:E; [|done].
    simpl. intros [= <-]. destruct (psEpisodes st !! k) as [y|]; [|by apply Hk].
    case_bool_decide as Hy; [rewrite Hy|]; by apply Hk.
Qed.

(** A saved supervisor is restored: on the same pairs, loading what was saved
    gives back every episode and the state of the child. *)
Lemma load_save (s fresh : Supervisor) : sup_inv s -> expected fresh = expected s ->
  (forall a b, a ∈ expected s -> b ∈ expected s -> pairKey a = pairKey b -> a = b) ->
  episodes fresh = new_episodes (expected s) ->
  let r := load_persistent (persistentStateLocked s) fresh in
  episodes r = episodes s /\ child_of r = child_of s /\ ChildRestarts (status r) = ChildRestarts (status s).
Proof.
  intros [Hc Hne Hp Hk Ha] Ex Hinj Ee. cbv zeta. split_and!; [|done|done].
  simpl. apply map_eq. intros k. rewrite load_episodes_lookup, Ee.
  destruct (episodes s !! k) as [e|] eqn:E.
  - destruct (Hk k e E) as [Hin <-]. destruct (new_episodes_total _ _ Hin) as [x Hx]. rewrite Hx. simpl.
    apply new_episodes_lookup in Hx as (pr & Hpr & Hkey & ->). simpl.
    by rewrite bool_decide_true by (symmetry; by apply Hinj).
  - destruct (new_episodes (expected s) !! k) as [x|] eqn:Hx; [|done].
    apply new_episodes_lookup in Hx as (pr & Hpr & <- & ->). destruct (Hp pr Hpr). congruence.
Qed.

(** ** Files and codecs *)

(** What the supervisor relies on of the state file: a successful write is
    what the next read returns. *)
Class FileStore (W Data : Type) `{StateFile W Data} := {
  file_at : W -> string -> option Data;
  read_content : forall path w d, file_at w path = Some d -> fst (File_Read path w) = Content d;
  write_content : forall path d w w', File_AtomicWrite path d w = (None, w') -> file_at w' path = Some d
}.

(** Decoding undoes encoding. *)
Class CodecOk (Data : Type) `{Codec Data} :=
  codec_ok : forall st d, Marshal st = inl d -> Unmarshal d = inl st.

Section Persist.
  Context {W Data : Type} `{FileStore W Data} `{CodecOk Data}.

Lemma save_file st (s s' : Supervisor) (w w' : W) : StatePath (config s) <> "" ->
  saveState st s w = Done (None, s', w') ->
  exists d, Marshal st = inl d /\ file_at w' (StatePath (config s)) = Some d.
Proof.
  intros Hpath. unfold saveState, mbind, method_bind, get. cbn [mbind outcome_bind].
  rewrite bool_decide_false by done. destruct (Marshal st) as [d|]; [|done].
  unfold call. destruct (File_MkdirAll _ _) as [[|] w1]; cbn [mbind outcome_bind]; [done|].
  destruct (File_AtomicWrite _ _ _) as [[|] w2] eqn:E; cbn; [done|]. intros [= _ <-].
  exists d. split; [done|]. by eapply write_content.
Qed.

Lemma load_file st d (s : Supervisor) (w : W) : StatePath (config s) <> "" ->
  file_at w (StatePath (config s)) = Some d -> Marshal st = inl d ->
  exists w', loadState s w = Done (None, load_persistent st s, w').
Proof.
  intros Hpath Hf Hm. unfold loadState, mbind, method_bind, get. cbn [mbind outcome_bind].
  rewrite bool_decide_false by done. unfold call. apply read_content in Hf.
  destruct (File_Read _ _) as [r w1]. simpl in Hf. subst r. cbn [mbind outcome_bind].
  rewrite (codec_ok st d Hm). cbn. eauto.
Qed.
End Persist.

(** ** The constructor *)

Section New.
  Context {W Data : Type} `{Clock W} `{ControlAdapter W} `{ChildController W} `{StateFile W Data} `{Codec Data}.

#[local] Existing Instance method_bind.
#[local] Existing Instance method_ret.
#[local] Existing Instance pair_le_dec.

Lemma fresh_inv c pairs : config_ok c -> pairs <> [] ->
  sup_inv (mkSupervisor c pairs (new_episodes pairs) zero_status 0 0 zeroTime zeroTime false zeroTime).
Proof.
  intros Hc Hne. constructor; simpl; try done.
  - apply new_episodes_total.
  - intros k e He. apply new_episodes_lookup in He as (pr & Hin & <- & ->). done.
Qed.

Lemma sup_inv_attempts st s : sup_inv s -> sup_inv (set_child 0 zeroTime zeroTime (load_persistent st s)).
Proof.
  intros Hinv. pose proof (load_inv (mkPersistent (psEpisodes st) 0 0 0 0) s Hinv ltac:(done)) as [Hc Hne Hp Hk Ha].
  by constructor.
Qed.

(** The part of the constructor after loading. *)
Lemma finish_new s (w : W) : sup_inv (set_child 0 zeroTime zeroTime s) ->
  exists s2 w2,
    (now ← call Clock_Now;
     _ ← modify (fun s => if childCircuitOpenLocked now s then set_inherited (childCircuitUntil s) s else s);
     refreshStatusLocked) s w = Done (tt, s2, w2) /\ same_plan s s2.
Proof.
  intros Hinv.
  assert (Hst : exists ss, expected_statuses s = Done ss).
  { destruct (statuses_total _ Hinv) as [ss Hss]. by exists ss. }
  destruct Hst as [ss Hss]. unfold mbind, method_bind, call, modify, refreshStatusLocked, read.
  destruct (Clock_Now w) as [now w1]. cbn [mbind outcome_bind].
  set (s1 := if childCircuitOpenLocked now s then _ else _).
  assert (Hs1 : same_plan s s1) by (subst s1; destruct (childCircuitOpenLocked now s); [auto with plans|reflexivity]).
  assert (Hss1 : expected_statuses s1 = Done ss) by (subst s1; by destruct (childCircuitOpenLocked now s)).
  unfold mbind, method_bind, call, modify. rewrite Hss1. cbn [mbind outcome_bind].
  destruct (Clock_Now w1) as [now2 w2]. cbn [mbind outcome_bind].
  eexists _, _. split; [reflexivity|]. rewrite Hs1. auto with plans.
Qed.

Theorem NewSupervisor_spec config0 (w : W) :
  exists r w', NewSupervisor config0 w = Done (r, w') /\
    forall s, r = inl s -> 0 <= childRecoveryAttempts s -> sup_inv s.
Proof.
  unfold NewSupervisor. cbv zeta. set (c := with_child_backoffs config0).
  destruct (_ || _) eqn:Ecfg; [by eexists _, _|].
  assert (Hc : config_ok c).
  { unfold config_ok, len in *. lia. }
  destruct (parseAddresses (PodIPs c) "pod") as [podIPs|]; [|by eexists _, _].
  destruct (parseAddresses (PeerIPs (Daemon c)) "peer") as [peerIPs|]; [|by eexists _, _].
  destruct (len (family_pairs podIPs peerIPs) =? 0) eqn:El; [by eexists _, _|].
  set (pairs := merge_sort pair_le (family_pairs podIPs peerIPs)).
  assert (Hne : pairs <> []).
  { intros E. pose proof (merge_sort_Permutation pair_le (family_pairs podIPs peerIPs)) as Hp.
    fold pairs in Hp. rewrite E in Hp. apply Permutation_nil in Hp. by rewrite Hp in El. }
  pose proof (fresh_inv c pairs Hc Hne) as Hfresh.
  set (s0 := mkSupervisor _ _ _ _ _ _ _ _ _ _) in *.
  pose proof (load_wp s0 w (fun e s => sup_inv (set_child 0 zeroTime zeroTime s) /\
    (0 <= childRecoveryAttempts s -> sup_inv s))) as Hl.
  unfold wp in Hl. destruct (loadState s0 w) as [[[e s1] w1]| |].
  2-3: exfalso; apply Hl; [by intros _; split|]; intros st; split; [by apply sup_inv_attempts|by apply load_inv].
  cbn [mbind outcome_bind].
  destruct Hl as [Hz Hpos]; [by intros _; split|intros st; split; [by apply sup_inv_attempts|by apply load_inv]|].
  destruct e as [e|]; [by eexists _, _|].
  destruct (finish_new s1 w1 Hz) as (s2 & w2 & -> & Hp). cbn [mbind outcome_bind].
  eexists _, _. split; [reflexivity|]. intros s [= <-] Ha. rewrite <-Hp. apply Hpos.
  destruct Hp as (_ & _ & Hch & _). unfold child_of in Hch. injection Hch as -> _ _. done.
Qed.
(** The pairs of a configuration: a pod address and a peer address of one family. *)
Definition is_pair (pods peers : list Addr) (pr : SessionPair) : Prop :=
  exists l p, l ∈ pods /\ p ∈ peers /\ Is4 l = Is4 p /\ pr = mkPair (Addr_String l) (Addr_String p).

Lemma elem_family_pairs pods peers pr : pr ∈ family_pairs pods peers <-> is_pair pods peers pr.
Proof.
  unfold family_pairs, is_pair. rewrite list_elem_of_bind. split.
  - intros (l & Hin & Hl). apply list_elem_of_bind in Hin as (p & Hin & Hp). destruct (eqb _ _) eqn:E; [|by apply elem_of_nil in Hin].
    apply list_elem_of_singleton in Hin as ->. apply eqb_prop in E. by exists l, p.
  - intros (l & p & Hl & Hp & E & ->). exists l. split; [|done]. apply list_elem_of_bind. exists p. split; [|done]. rewrite E, eqb_reflx. by left.
Qed.

(** The state file keeps the supervisor from starting. *)
Definition state_unreadable (path : string) (w : W) : Prop :=
  path <> "" /\ match fst (File_Read path w) with
                | NotExist => False
                | ReadError _ => True
                | Content d => exists e, Unmarshal d = inr e
                end.

Lemma loadState_error s (w : W) e s' w' : loadState s w = Done (Some e, s', w') -> state_unreadable (StatePath (config s)) w.
Proof.
  unfold loadState, mbind, method_bind, get, call, state_unreadable. cbn [mbind outcome_bind]. case_bool_decide as Hp; [done|].
  destruct (File_Read _ _) as [[|e0|d] w1]; cbn [mbind outcome_bind fst]; [done|done|].
  destruct (Unmarshal d) as [st|e1]; [done|]. intros _. split; [done|]. by exists e1.
Qed.

Lemma loadState_keeps s (w : W) e s' w' : sup_inv s -> loadState s w = Done (e, s', w') ->
  config s' = config s /\ expected s' = expected s /\ sup_inv (set_child 0 zeroTime zeroTime s').
Proof.
  intros Hinv E. pose proof (load_wp s w (fun _ s' => config s' = config s /\ expected s' = expected s /\ sup_inv (set_child 0 zeroTime zeroTime s'))) as Hl.
  unfold wp in Hl. rewrite E in Hl. apply Hl.
  - intros _. split_and!; [done..|]. destruct Hinv as [Hc Hne Hp Hk Ha]. by constructor.
  - intros st. split_and!; [done..|]. by apply sup_inv_attempts.
Qed.

(** A configuration with valid timing whose addresses parse is refused only
    without a pair of one family or because of the state file. *)
Theorem NewSupervisor_accepts c (w : W) pods peers :
  config_ok c -> parseAddresses (PodIPs c) "pod" = inl pods -> parseAddresses (PeerIPs (Daemon c)) "peer" = inl peers ->
  exists r w', NewSupervisor c w = Done (r, w') /\
    match r with
    | inl s => config s = c /\ expected s <> [] /\ forall pr, pr ∈ expected s <-> is_pair pods peers pr
    | inr _ => (forall pr, ~ is_pair pods peers pr) \/ state_unreadable (StatePath c) w
    end.
Proof.
  intros Hc Hpod Hpeer. destruct (NewSupervisor_spec c w) as (r & w' & E & _). exists r, w'. split; [done|]. revert E.
  assert (Ec : with_child_backoffs c = c).
  { unfold with_child_backoffs. destruct Hc as (_ & _ & _ & _ & Hb). destruct (Z.eqb_spec (len (ChildBackoffs c)) 0); [exfalso; lia|done]. }
  unfold NewSupervisor. rewrite Ec, Hpod, Hpeer. cbv zeta. destruct (_ || _) eqn:Et; [exfalso; destruct Hc as (? & ? & ? & ? & ?); rewrite !orb_true_iff in Et; lia|].
  destruct (len (family_pairs pods peers) =? 0) eqn:El.
  { intros [= <- _]. left. intros pr Hpr%elem_family_pairs. destruct (family_pairs pods peers); [by apply elem_of_nil in Hpr|]. done. }
  set (pairs := merge_sort pair_le (family_pairs pods peers)).
  assert (Hpairs : forall pr, pr ∈ pairs <-> is_pair pods peers pr) by (intros pr; unfold pairs; by rewrite merge_sort_Permutation, elem_family_pairs).
  assert (Hne : pairs <> []).
  { intros Hn. pose proof (merge_sort_Permutation pair_le (family_pairs pods peers)) as Hp. fold pairs in Hp. rewrite Hn in Hp. apply Permutation_nil in Hp. by rewrite Hp in El. }
  pose proof (fresh_inv c pairs Hc Hne) as Hfresh. set (s0 := mkSupervisor _ _ _ _ _ _ _ _ _ _) in *.
  destruct (loadState s0 w) as [[[e s1] w1]| |] eqn:Eload; [|done..]. cbn [mbind outcome_bind]. destruct e as [e|].
  { intros [= <- _]. right. exact (loadState_error _ _ _ _ _ Eload). }
  destruct (loadState_keeps _ _ _ _ _ Hfresh Eload) as (Ec1 & Ex1 & Hs1).
  destruct (finish_new s1 w1 Hs1) as (s2 & w2 & -> & Ec2 & Ex2 & _). cbn [mbind outcome_bind].
  intros [= <- _]. rewrite <-Ec2, <-Ex2, Ec1, Ex1. done.
Qed.
End New.
