(* ===== verification/FileUtil.v ===== *)
(** * Atomic replacement of a file ([pkg/fileutil/file.go])

    [AtomicWriteFile] as a sequence of file-system calls, each of which may
    fail.  The model returns every state of the file system on the way, in
    order: what a concurrent reader can see and what a crash of the process can
    leave (what a crash of the machine leaves of unsynced data is not modelled).  The
    contents of a file are its bytes; the calls that change no content
    (permissions, syncing, opening the directory) only succeed or fail. *)
From S2P Require Import Prelude GoStrings GoNet GoText.

Local Open Scope Z_scope.

Abbreviation FS := (gmap string bytes).

(** Which call fails, and how; a failing write has written some bytes. *)
Record faults := mkFaults {
  f_create : option error;
  f_chmod : option error;
  f_write : option (nat * error);
  f_sync : option error;
  f_close : option error;
  f_rename : option error;
  f_opendir : option error;
  f_syncdir : option error;
  f_closedir : option error;
  f_remove : option error
}.

(** The states of a write of [n] bytes to the file [tmp]. *)
Definition writing (tmp : string) (data : bytes) (n : nat) (fs : FS) : list FS :=
  (fun k => <[tmp := take k data]> fs) <$> seq 0 (S n).

(** The deferred function: close the file when it is still open, remove it
    when it is still there. *)
Definition cleanup (o : faults) (tmp : string) (tmpClosed : bool) (fs : FS) (resultErr : option error)
    : FS * option error :=
  let r1 := if tmpClosed then resultErr
            else match f_close o with
                 | Some e => errors_Join [resultErr; Some ("failed to close temporary file " +:+ Quote tmp +:+ ": " +:+ e)]
                 | None => resultErr
                 end in
  match fs !! tmp with
  | None => (fs, r1)
  | Some _ =>
      match f_remove o with
      | Some e => (fs, errors_Join [r1; Some ("failed to remove temporary file " +:+ Quote tmp +:+ ": " +:+ e)])
      | None => (delete tmp fs, r1)
      end
  end.

(** The states passed through, from the one before the call; the final state;
    the error. *)
Definition AtomicWriteFile (o : faults) (tmp path : string) (data : bytes) (fs : FS)
    : list FS * FS * option error :=
  match f_create o with
  | Some e => ([fs], fs, Some e)
  | None =>
      let fs1 := <[tmp := []]> fs in
      let finish (trace : list FS) closed fs' err :=
        let '(fs'', err') := cleanup o tmp closed fs' err in (trace ++ [fs''], fs'', err') in
      let failed what e := Some (what +:+ ": " +:+ e) in
      match f_chmod o with
      | Some e => finish [fs; fs1] false fs1 (failed "failed to set temporary file permissions" e)
      | None =>
          match f_write o with
          | Some (n, e) =>
              finish (fs :: writing tmp data n fs) false (<[tmp := take n data]> fs)
                     (failed "failed to write temporary file" e)
          | None =>
              let trace := fs :: writing tmp data (length data) fs in
              let fs2 := <[tmp := data]> fs in
              match f_sync o with
              | Some e => finish trace false fs2 (failed "failed to sync temporary file" e)
              | None =>
                  match f_close o with
                  | Some e => finish trace true fs2 (failed "failed to close temporary file" e)
                  | None =>
                      match f_rename o with
                      | Some e => finish trace true fs2 (failed "failed to replace target file" e)
                      | None =>
                          let fs3 := <[path := data]> (delete tmp fs2) in
                          match f_opendir o with
                          | Some e => finish (trace ++ [fs3]) true fs3 (failed "failed to open target directory" e)
                          | None =>
                              finish (trace ++ [fs3]) true fs3
                                (errors_Join [(fun e => "failed to sync target directory: " +:+ e) <$> f_syncdir o;
                                              (fun e => "failed to close target directory: " +:+ e) <$> f_closedir o])
                          end
                      end
                  end
              end
          end
      end
  end.

(** ** Facts *)

Section Facts.
  Context (tmp path : string) (data : bytes) (fs : FS).
  Hypothesis tmp_path : tmp <> path.
  Hypothesis tmp_fresh : fs !! tmp = None.

(** The target is untouched, or holds all of the data; nothing else changed. *)
Definition old_or_new (fs' : FS) : Prop :=
  (fs' !! path = fs !! path \/ fs' !! path = Some data) /\
  forall k, k <> path -> k <> tmp -> fs' !! k = fs !! k.

Lemma old_or_new_tmp b : old_or_new (<[tmp := b]> fs).
Proof. split; [left|]; intros; by rewrite lookup_insert_ne. Qed.

Lemma old_or_new_refl : old_or_new fs.
Proof. split; auto. Qed.

Lemma writing_ok n : Forall old_or_new (writing tmp data n fs).
Proof.
  unfold writing. apply Forall_fmap, Forall_forall. intros k _. apply old_or_new_tmp.
Qed.

Lemma cleanup_ok o closed fs' e fs'' e' : old_or_new fs' -> cleanup o tmp closed fs' e = (fs'', e') ->
  old_or_new fs'' /\ fs'' !! path = fs' !! path /\ (f_remove o = None -> fs'' !! tmp = None) /\
  (e <> None -> e' <> None).
Proof.
  intros [Hp Ho]. unfold cleanup. cbv zeta.
  set (r1 := if closed then e else _).
  assert (Hr1 : e <> None -> r1 <> None).
  { intros He. subst r1. destruct closed; [done|]. destruct (f_close o); [|done]. by destruct e. }
  destruct (fs' !! tmp) eqn:Et; [destruct (f_remove o) eqn:Er|]; intros [= <- <-].
  - split_and!; try done. by destruct r1.
  - split; [split; [|intros k Hk Hk'; rewrite lookup_delete_ne by done; by apply Ho]|].
    + rewrite lookup_delete_ne by done. done.
    + split_and!; [by rewrite lookup_delete_ne|intros _; apply lookup_delete_eq|done].
  - done.
Qed.

(** Every state on the way shows the old or the new file.  Without an error
    the file is the new one; the temporary file is gone unless its removal
    failed; an error before the rename leaves the old file. *)
Lemma AtomicWriteFile_ok o trace fs' e :
  AtomicWriteFile o tmp path data fs = (trace, fs', e) ->
  Forall old_or_new trace /\ last trace = Some fs' /\
  (e = None -> fs' !! path = Some data) /\
  (f_remove o = None -> fs' !! tmp = None).
Proof.
  assert (Hfin : forall tr closed fs0 err tr' fs0' err', Forall old_or_new tr -> old_or_new fs0 ->
    (err = None -> fs0 !! path = Some data) ->
    (let '(fs'', err') := cleanup o tmp closed fs0 err in (tr ++ [fs''], fs'', err')) = (tr', fs0', err') ->
    Forall old_or_new tr' /\ last tr' = Some fs0' /\ (err' = None -> fs0' !! path = Some data) /\
    (f_remove o = None -> fs0' !! tmp = None)).
  { intros tr closed fs0 err tr' fs0' err' Htr H0 Herr. destruct (cleanup _ _ _ _ _) as [a b] eqn:E. intros [= <- <- <-].
    destruct (cleanup_ok _ _ _ _ _ _ H0 E) as (H1 & H2 & H3 & H4). split_and!; try done.
    - apply Forall_app. auto.
    - by rewrite last_snoc.
    - intros ->. rewrite H2. apply Herr. destruct err; [|done]. by destruct (H4 ltac:(done)). }
  pose proof old_or_new_refl as Hr. pose proof old_or_new_tmp as Ht. pose proof writing_ok as Hw.
  assert (H3 : old_or_new (<[path := data]> (delete tmp (<[tmp := data]> fs)))).
  { split; [right; apply lookup_insert_eq|]. intros k Hk Hk'.
    by rewrite lookup_insert_ne, lookup_delete_ne, lookup_insert_ne by done. }
  unfold AtomicWriteFile. cbv zeta.
  destruct (f_create o).
  { intros [= <- <- <-]. split_and!; try done; auto. }
  destruct (f_chmod o); [by apply Hfin; auto|].
  destruct (f_write o) as [[n err]|]; [by apply Hfin; auto|].
  destruct (f_sync o); [by apply Hfin; auto|].
  destruct (f_close o); [by apply Hfin; auto|].
  destruct (f_rename o); [by apply Hfin; auto|].
  destruct (f_opendir o); apply Hfin; auto; try (apply Forall_app; auto); intros _; apply lookup_insert_eq.
Qed.
End Facts.
