(* ===== verification/BfdPolls.v ===== *)
(** * The polling machine of the BFD supervisor

    An abstract machine whose steps are rounds of planning; [Reconcile]
    implements it.  Restarts of the child are spaced, and a session that is
    due gets an action. *)
From stdpp Require Import sorting.
From S2P Require Import Prelude GoStrings GoNet IpPool GoText BfdControl BfdSupervisor BfdFacts BfdReconcile FileUtil.

Local Open Scope Z_scope.

(** A step reports, or plans a round at a time; the trace keeps the rounds. *)
Inductive polls : Supervisor -> list (Time * option pendingRecoveryAction) -> Supervisor -> Prop :=
  | polls_done s : polls s [] s
  | polls_report s s' s'' tr : same_plan s s' -> polls s' tr s'' -> polls s tr s''
  | polls_round s s1 s' now sessions p tr :
      plan_sessions now sessions s = Done (p, s1) -> polls s1 tr s' -> polls s ((now, p) :: tr) s'.

Lemma polls_app s s1 s2 t1 t2 : polls s t1 s1 -> polls s1 t2 s2 -> polls s (t1 ++ t2) s2.
Proof. induction 1; intros; simpl; eauto using polls. Qed.

Lemma polls_inv s tr s' : polls s tr s' -> sup_inv s -> sup_inv s' /\ config s' = config s.
Proof.
  induction 1 as [s|s s1 s2 tr Hp _ IH|s s1 s2 now sessions p tr E _ IH]; intros Hinv; [done|..].
  - destruct IH as [Hi Hc]; [by rewrite <-Hp|]. destruct Hp as (Ec & _). split; congruence.
  - destruct (plan_sessions_spec now sessions s Hinv) as (p' & s1' & E' & Hrd). rewrite E in E'. injection E' as <- <-.
    destruct (IH (rd_inv _ _ _ _ _ Hrd)) as [Hi Hc]. split; [done|]. rewrite Hc. apply (rd_config _ _ _ _ _ Hrd).
Qed.

(** ** Spacing of restarts *)

Definition is_restart (p : option pendingRecoveryAction) : Prop :=
  exists q, p = Some q /\ paAction q = RecoveryRestartChild.

#[global] Instance is_restart_dec p : Decision (is_restart p).
Proof.
  refine (match p with
          | Some q => match decide (paAction q = RecoveryRestartChild) with left H => left _ | right H => right _ end
          | None => right _
          end); [by exists q|by intros (? & [= <-] & ?)|by intros (? & ? & ?)].
Defined.

(** The least pause after a restart. *)
Definition min_gap (c : SupervisorConfig) : Duration :=
  foldr Z.min (Z.min (GracePeriod c) (CircuitOpen c)) (ChildBackoffs c).

Lemma foldr_min_le b l : foldr Z.min b l <= b /\ (forall x, x ∈ l -> foldr Z.min b l <= x).
Proof.
  induction l as [|y l [IH1 IH2]]; simpl; [split; [lia|]; intros x Hx; by apply elem_of_nil in Hx|].
  split; [lia|]. intros x Hx. apply elem_of_cons in Hx as [->|Hx]; [lia|]. specialize (IH2 x Hx). lia.
Qed.

Lemma foldr_min_pos b l : 0 < b -> Forall (fun x => 0 < x) l -> 0 < foldr Z.min b l.
Proof. intros Hb H. induction H; simpl; lia. Qed.

Lemma min_gap_le c d : d = CircuitOpen c \/ d = GracePeriod c \/ d ∈ ChildBackoffs c -> min_gap c <= d.
Proof.
  unfold min_gap. destruct (foldr_min_le (Z.min (GracePeriod c) (CircuitOpen c)) (ChildBackoffs c)) as [Hb Hl].
  intros [->|[->|Hd]]; [lia|lia|auto].
Qed.

(** After a restart at [t] either its pause lasts, or the circuit was closed
    and a session must fail anew. *)
Definition calm (t : Time) (s : Supervisor) : Prop :=
  t + min_gap (config s) <= childNextRetry s \/
  (childRecoveryAttempts s <= len (ChildBackoffs (config s)) /\
   forall pr e, pr ∈ expected s -> episodes s !! pairKey pr = Some e -> failingSince e = 0 \/ t <= failingSince e).

Lemma calm_report t s s' : same_plan s s' -> calm t s -> calm t s'.
Proof.
  intros (Ec & Ex & Eh & He). unfold child_of in Eh. injection Eh as Ea En Eu. unfold calm.
  rewrite <-Ec, <-Ex, <-Ea, <-En. intros [Hn|[Ha Hf]]; [by left|right]. split; [done|].
  intros pr e Hin He'. specialize (He (pairKey pr)). rewrite He' in He.
  destruct (episodes s !! pairKey pr) as [x|] eqn:E; [|done]. destruct (Hf pr x Hin E); injection He as _ Hfs _ _; lia.
Qed.

(** A round that restarts the child comes late enough, and one that does not
    keeps the state calm. *)
Lemma calm_round t now obs s s' p : sup_inv s -> Forall (fun d => 0 < d) (ChildBackoffs (config s)) ->
  0 < t -> t <= now -> round now obs s s' p -> calm t s ->
  (is_restart p -> t + min_gap (config s) <= now) /\ (~ is_restart p -> calm t s').
Proof.
  intros Hinv Hpos Ht Hnow [Hinv' [Ec Ex] Hev _ Hch Hsome] Hcalm.
  assert (Hm : 0 < min_gap (config s)).
  { apply foldr_min_pos; [|done]. destruct (inv_config s Hinv) as (? & ? & ? & _). lia. }
  split.
  - intros (q & -> & Hq). rewrite decide_True in Hch by done. destruct Hch as (_ & Hn & _).
    destruct Hcalm as [Hc|[Ha Hf]]; [lia|].
    destruct (Hsome q eq_refl) as [[_ Hdue]|(pr & s1 & e & e' & Hin & (Ec1 & _) & _ & He & _ & Hact)].
    { unfold childHalfOpenDueLocked in Hdue. lia. }
    destruct (act_grace _ _ _ _ _ _ _ _ Hact) as [Hz Hg]. rewrite Ec1 in Hg.
    inversion He as [x y Hxy Ex1 Ey|]; subst. symmetry in Ex1.
    pose proof (min_gap_le (config s) (GracePeriod (config s)) ltac:(auto)) as Hle.
    destruct (Hf pr x Hin Ex1); destruct Hxy as [|[|]]; lia.
  - intros Hno. unfold calm. rewrite Ec, Ex.
    assert (Hch' : child_of s' = child_of s \/ closes now obs s').
    { destruct p as [q|]; [|done]. left. case_decide; [|done]. exfalso. apply Hno. by exists q. }
    destruct Hch' as [E|(E & _ & _ & Hf)].
    + unfold child_of in E. injection E as Ea En _. rewrite Ea, En.
      destruct Hcalm as [Hc|[Ha Hf]]; [by left|right]. split; [done|].
      intros pr e' Hin He'. specialize (Hev (pairKey pr)). rewrite He' in Hev.
      inversion Hev as [x y Hxy Ex1 Ey|]; subst. symmetry in Ex1.
      destruct (Hf pr x Hin Ex1); destruct Hxy as [|[|]]; lia.
    + right. unfold child_of in E. injection E as -> _ _. unfold len. split; [lia|].
      intros pr e Hin He. left. eapply (Hf pr e); [by rewrite Ex|done].
Qed.

Lemma calm_restart now obs s s' p : round now obs s s' p -> is_restart p -> calm now s'.
Proof.
  intros [_ [Ec _] _ _ Hch _] (q & -> & Hq). rewrite decide_True in Hch by done.
  destruct Hch as (_ & _ & _ & d & Hd & Hn). left. rewrite Ec.
  pose proof (min_gap_le (config s) d ltac:(destruct Hd; auto)). lia.
Qed.

(** All restarts of a run after a calm state at [t]. *)
Lemma polls_spaced s tr s' : polls s tr s' -> forall t, sup_inv s ->
  Forall (fun d => 0 < d) (ChildBackoffs (config s)) -> 0 < t -> StronglySorted Z.le (t :: tr.*1) -> calm t s ->
  forall i now p, tr !! i = Some (now, p) -> is_restart p -> t + min_gap (config s) <= now.
Proof.
  induction 1 as [s|s s1 s2 tr Hp _ IH|s s1 s2 now sessions p tr E _ IH]; intros t Hinv Hpos Ht Hs Hcalm; [done|..].
  - assert (Hinv1 : sup_inv s1) by by rewrite <-Hp. pose proof (calm_report _ _ _ Hp Hcalm) as Hcalm1.
    destruct Hp as (Ec & _). rewrite Ec in Hpos |- *. exact (IH t Hinv1 Hpos Ht Hs Hcalm1).
  - destruct (plan_sessions_spec now sessions s Hinv) as (p' & s1' & E' & Hrd). rewrite E in E'. injection E' as <- <-.
    apply StronglySorted_inv in Hs as [Hs Hle]. simpl in Hs, Hle.
    assert (Htn : t <= now) by by inversion Hle.
    destruct (calm_round _ _ _ _ _ _ Hinv Hpos Ht Htn Hrd Hcalm) as [Hr Hn].
    destruct (rd_config _ _ _ _ _ Hrd) as [Ec _]. rewrite <-Ec in Hpos, Hr |- *.
    pose proof (rd_inv _ _ _ _ _ Hrd) as Hinv1.
    intros [|i] now' p'; simpl; [by intros [= <- <-]|]. intros Hi Hp'.
    destruct (decide (is_restart p)) as [Hres|Hno].
    + pose proof (IH now Hinv1 Hpos ltac:(lia) Hs (calm_restart _ _ _ _ _ Hrd Hres) i now' p' Hi Hp'). lia.
    + apply (IH t Hinv1 Hpos Ht) with (i := i) (p := p'); auto.
      constructor; [by apply StronglySorted_inv in Hs as []|by inversion Hle].
Qed.

Lemma polls_restarts s tr s' : polls s tr s' -> sup_inv s ->
  Forall (fun d => 0 < d) (ChildBackoffs (config s)) ->
  Forall (fun t => 0 < t) tr.*1 -> StronglySorted Z.le tr.*1 ->
  forall i j t1 t2 p1 p2, (i < j)%nat -> tr !! i = Some (t1, p1) -> tr !! j = Some (t2, p2) ->
    is_restart p1 -> is_restart p2 -> t1 + min_gap (config s) <= t2.
Proof.
  induction 1 as [s|s s1 s2 tr Hp _ IH|s s1 s2 now sessions p tr E Hpl IH]; intros Hinv Hpos Hts Hs; [done|..].
  - assert (Hinv1 : sup_inv s1) by by rewrite <-Hp. destruct Hp as (Ec & _). rewrite Ec in Hpos |- *. exact (IH Hinv1 Hpos Hts Hs).
  - destruct (plan_sessions_spec now sessions s Hinv) as (p' & s1' & E' & Hrd). rewrite E in E'. injection E' as <- <-.
    destruct (rd_config _ _ _ _ _ Hrd) as [Ec _]. rewrite <-Ec in Hpos |- *.
    pose proof (rd_inv _ _ _ _ _ Hrd) as Hinv1. simpl in Hts, Hs.
    intros [|i] [|j] t1 t2 p1 p2 Hij; simpl; try lia.
    + intros [= <- <-] Hj Hr1 Hr2. eapply polls_spaced; eauto; [by inversion Hts|].
      by eapply calm_restart.
    + intros Hi Hj Hr1 Hr2. eapply (IH Hinv1 Hpos); [by inversion Hts|by apply StronglySorted_inv in Hs as []| |done..].
      lia.
Qed.

(** ** A session that is due *)

(** The session is down, its grace period and its pause are over. *)
Definition due (c : SupervisorConfig) (now : Time) (session : option Session) (e : recoveryEpisode) : Prop :=
  is_up session = false /\ failingSince e <> 0 /\ failingSince e + GracePeriod c <= now /\
  (rNextRetry (eStatus e) = 0 \/ rNextRetry (eStatus e) <= now) /\ 0 <= rAttempts (eStatus e).

(** With at most three pauses there is an action for every number of attempts. *)
Lemma select_some c n ex au : len (Backoffs c) <= 3 -> 0 <= n -> selectRecoveryAction c n ex au <> RecoveryNone.
Proof.
  unfold selectRecoveryAction. intros Hc Hn.
  destruct (Z.leb_spec (len (Backoffs c)) n), (Z.eqb_spec n 0), (Z.eqb_spec n 1), (Z.eqb_spec n 2), ex, au; simpl;
    try lia; discriminate.
Qed.

Lemma due_episode now pr session au s s' e : len (Backoffs (config s)) <= 3 ->
  episodes s !! pairKey pr = Some e -> due (config s) now session e ->
  planEpisodeRecoveryLocked now pr session au s = Done (None, s') -> now < childNextRetry s.
Proof.
  intros Hb He (Hup & Hz & Hg & Hd & Hn). unfold planEpisodeRecoveryLocked. cbv zeta.
  rewrite He, Hup. cbn [of_option mbind outcome_bind]. unfold IsZero, Before. cbn.
  replace (failingSince e =? 0) with false by lia.
  replace (now <? failingSince e + GracePeriod (config s)) with false by lia.
  replace (negb (rNextRetry (eStatus e) =? 0) && (now <? rNextRetry (eStatus e))) with false by lia.
  rewrite bool_decide_false by by apply select_some.
  set (s1 := on_sup_status (set_Ready false) s). case_bool_decide.
  - unfold reserveChildRestartLocked, IsZero, Before. cbv zeta. cbn [childNextRetry s1 on_sup_status].
    destruct (Z.eqb_spec (childNextRetry s) 0), (Z.ltb_spec now (childNextRetry s)); cbn [negb andb]; [| |by intros|];
      destruct (_ <? _); cbn [mbind outcome_bind negb];
      (try (destruct (at_index _ _); cbn [mbind outcome_bind negb]; try done));
      destruct (scheduleEpisodeActionLocked _ _ _ _); done.
  - cbn [mbind outcome_bind negb]. by destruct (scheduleEpisodeActionLocked _ _ _ _).
Qed.

Lemma due_sweep now obs au pairs s s' : sup_inv s -> (forall pr, pr ∈ pairs -> pr ∈ expected s) ->
  len (Backoffs (config s)) <= 3 -> NoDup (pairKey <$> pairs) ->
  plan_pairs now obs au pairs s = Done (None, s') ->
  forall pr e, pr ∈ pairs -> episodes s !! pairKey pr = Some e -> due (config s) now (obs !! pairKey pr) e ->
  now < childNextRetry s.
Proof.
  revert s. induction pairs as [|x rest IH]; intros s Hinv Hsub Hb Hnd Hpl pr e Hin He Hdue.
  { by apply elem_of_nil in Hin. }
  assert (Hx : x ∈ expected s) by (apply Hsub; by left).
  destruct (plan_episode now x (obs !! pairKey x) au s Hinv Hx) as (p & s1 & e0 & e1 & E & H).
  cbn [plan_pairs] in Hpl. rewrite E in Hpl. cbn [mbind outcome_bind] in Hpl. destruct p; [done|].
  rewrite fmap_cons, NoDup_cons in Hnd. destruct Hnd as [Hxn Hnd].
  apply elem_of_cons in Hin as [->|Hin]; [by eapply due_episode|].
  destruct (pl_frame _ _ _ _ _ _ _ _ _ H) as (Ec & Ex & _).
  assert (Hch : child_of s1 = child_of s)
    by (destruct (pl_child _ _ _ _ _ _ _ _ _ H) as [[]|(? & ? & ? & ? & _)]; [done|congruence]).
  unfold child_of in Hch. injection Hch as _ <- _. rewrite <-Ec in Hb, Hdue.
  eapply (IH s1 (planned_inv _ _ _ _ _ _ _ _ _ Hinv Hx H)); try done.
  - intros pr' Hin'. rewrite Ex. apply Hsub. by right.
  - rewrite (pl_put _ _ _ _ _ _ _ _ _ H), lookup_insert_ne; [done|].
    intros Heq. apply Hxn. rewrite Heq. by apply list_elem_of_fmap_2.
Qed.

(** ** [Reconcile] implements the machine *)

Section Implementation.
  Context {W Data : Type} `{Clock W} `{ControlAdapter W} `{ChildController W} `{StateFile W Data} `{Codec Data}.

Fixpoint reconcile_n (n : nat) (s : Supervisor) (w : W) : outcome (Supervisor * W) :=
  match n with
  | O => Done (s, w)
  | S k => '(_, s', w') ← Reconcile s w; reconcile_n k s' w'
  end.

Lemma reconciled_polls now r s s' e : reconciled now r s s' e -> exists tr, polls s tr s' /\ (length tr <= 1)%nat.
Proof.
  intros (_ & _ & Hr). destruct r as [sessions|].
  - destruct Hr as (p & s0 & s1 & Ha & Hp & Hb & _). exists [(now, p)]. split; [|simpl; lia].
    eapply polls_report; [done|]. eapply polls_round; [done|]. eapply polls_report; [done|constructor].
  - exists []. split; [|simpl; lia]. eapply polls_report; [apply Hr|constructor].
Qed.

Lemma reconcile_n_polls n s w : sup_inv s ->
  exists s' w' tr, reconcile_n n s w = Done (s', w') /\ polls s tr s' /\ (length tr <= n)%nat /\ sup_inv s'.
Proof.
  revert s w. induction n as [|n IH]; intros s w Hinv.
  - exists s, w, []. split_and!; [done|constructor|done|done].
  - pose proof (Reconcile_spec s w Hinv) as Hs. unfold wp in Hs. simpl.
    destruct (Reconcile s w) as [[[e s1] w1]| |]; try done. cbn [mbind outcome_bind].
    destruct (reconciled_polls _ _ _ _ _ Hs) as (t1 & Ht1 & Hl1).
    destruct (IH s1 w1) as (s2 & w2 & t2 & E & Ht2 & Hl2 & Hinv2); [apply Hs|].
    exists s2, w2, (t1 ++ t2). split_and!; [done|by eapply polls_app|rewrite length_app; lia|done].
Qed.

Lemma reconcile_n_reported n s w s' w' : n <> 0%nat -> sup_inv s -> reconcile_n n s w = Done (s', w') -> reported s'.
Proof.
  revert s w. induction n as [|n IH]; intros s w Hn Hinv E; [done|]. simpl in E.
  pose proof (Reconcile_spec s w Hinv) as Hs. unfold wp in Hs.
  destruct (Reconcile s w) as [[[e s1] w1]| |]; try done. cbn [mbind outcome_bind] in E.
  destruct Hs as (Hinv1 & Hrep & _). destruct n as [|n]; [simpl in E; by injection E as <- _|].
  by eapply (IH s1 w1).
Qed.
End Implementation.

(** ** A disk for the state file

    The file calls of the supervisor on a file system where each atomic write
    runs [AtomicWriteFile] with a temporary name and failures of its own: the
    promise the supervisor relies on ([FileStore]) is met whatever fails. *)

(** The files, and the temporary name and the failures of each write to come. *)
Record disk := mkDisk { files : FS; fates : list (string * faults) }.

Definition no_faults : faults := mkFaults None None None None None None None None None None.

(** [os.CreateTemp] refuses a name that is taken. *)
Definition disk_write (path : string) (data : bytes) (w : disk) : option error * disk :=
  match fates w with
  | [] => (Some "no temporary name", w)
  | (tmp, o) :: rest =>
      if bool_decide (tmp = path) || is_some (files w !! tmp) then (Some "temporary file exists", mkDisk (files w) rest)
      else let '(_, fs, e) := AtomicWriteFile o tmp path data (files w) in (e, mkDisk fs rest)
  end.

#[global] Instance disk_files : StateFile disk bytes :=
  {| File_Read := fun path w => (match files w !! path with Some d => Content d | None => NotExist end, w);
     File_Rename := fun old new w =>
       match files w !! old with
       | Some d => (None, mkDisk (<[new := d]> (delete old (files w))) (fates w))
       | None => (Some "no such file", w)
       end;
     File_MkdirAll := fun _ w => (None, w);
     File_AtomicWrite := disk_write |}.

#[global] Instance disk_store : FileStore disk bytes.
Proof.
  refine {| file_at := fun w path => files w !! path |}.
  - intros path w d Hd. simpl. by rewrite Hd.
  - intros path d [fs [|[tmp o] rest]] w'; simpl; [done|]. unfold disk_write. simpl.
    destruct (bool_decide (tmp = path) || is_some (fs !! tmp)) eqn:Hb; [done|].
    apply orb_false_iff in Hb as [Hne Hf]. apply bool_decide_eq_false in Hne.
    destruct (AtomicWriteFile o tmp path d fs) as [[tr fs'] e] eqn:E. intros [= -> <-].
    eapply (AtomicWriteFile_ok tmp path d fs Hne) in E as (_ & _ & Hok & _); [by apply Hok|].
    by destruct (fs !! tmp).
Defined.
