(* ===== verification/BfdMain.v ===== *)
(** * The supervised child and the configuration of the supervisor

    [pkg/bfddsupervisor/managed_child.go]: a child process counts as started
    when its control answers and takes the configuration, and is stopped
    otherwise.  [cmd/bfdd_supervisor/bfdd_supervisor.go]: the configuration
    read from the environment variables, with Go's 64-bit arithmetic. *)
From S2P Require Import Prelude GoStrings GoNet GoText BfdControl BfdSupervisor.

Local Open Scope Z_scope.

(** ** The managed child *)

(** The interface [processLifecycle]. *)
Class ProcessLifecycle (W : Type) := {
  Process_Start : W -> option error * W;
  Process_Running : W -> bool * W;
  Process_Restart : W -> option error * W;
  Process_Stop : W -> option error * W
}.

(** Waiting for the next tick: the error of the context when it ended first. *)
Class Ticker (W : Type) := next_tick : W -> option error * W.

Section Child.
  Context {W : Type} `{ProcessLifecycle W} `{ControlAdapter W} `{Ticker W}.
  Variable daemon : DaemonConfig.

(** [waitAndConfigure]: poll the status until it answers, then configure.
    [None] when [fuel] polls were not enough. *)
Fixpoint waitAndConfigure (fuel : nat) (w : W) : option (option error * W) :=
  match fuel with
  | O => None
  | S k =>
      let '(st, w1) := Control_Status w in
      match st with
      | inl _ =>
          let '(e, w2) := Control_Configure daemon w1 in
          Some ((fun x => "failed to configure OpenBFDD: " +:+ x) <$> e, w2)
      | inr lastStatusErr =>
          let '(done_, w2) := next_tick w1 in
          match done_ with
          | Some ctxErr =>
              Some (errors_Join [Some ("OpenBFDD control did not become ready: " +:+ ctxErr);
                                 Some ("last OpenBFDD control status error: " +:+ lastStatusErr)], w2)
          | None => waitAndConfigure k w2
          end
      end
  end.

Definition stopAfterStartFailure (startErr : error) (w : W) : option error * W :=
  let '(e, w') := Process_Stop w in
  match e with
  | Some x => (errors_Join [Some startErr; Some ("failed to stop OpenBFDD after start failure: " +:+ x)], w')
  | None => (Some startErr, w')
  end.

(** [Start] and [Restart] differ in the call that starts the process. *)
Definition start_with (launch : W -> option error * W) (fuel : nat) (w : W) : option (option error * W) :=
  let '(e, w1) := launch w in
  match e with
  | Some x => Some (Some x, w1)
  | None =>
      match waitAndConfigure fuel w1 with
      | None => None
      | Some (None, w2) => Some (None, w2)
      | Some (Some x, w2) => Some (stopAfterStartFailure x w2)
      end
  end.

Definition Managed_Start := start_with Process_Start.
Definition Managed_Restart := start_with Process_Restart.
Definition Managed_Running := Process_Running.
Definition Managed_Stop := Process_Stop.
End Child.

(** ** The configuration *)

Definition defaultStatePath : string := "/var/run/kube-ovn/bfdd-supervisor/state.json".

Fixpoint parse_ips (parts : list string) : option (list string) :=
  match parts with
  | [] => Some []
  | part :: rest => a ← ParseAddr (TrimSpace part); l ← parse_ips rest; Some (Addr_String a :: l)
  end.

Definition parseIPList (value : string) : option (list string) := parse_ips (Split value ",").

Section Environment.
  (** [os.Getenv]. *)
  Variable getenv : string -> string.

Definition positiveEnvironmentInt (name : string) (defaultValue : Z) : orError Z :=
  let value := getenv name in
  if bool_decide (value = "") then inl defaultValue
  else match Atoi value with
       | Some parsed => if parsed <=? 0 then inr ("invalid " +:+ name +:+ " " +:+ Quote value) else inl parsed
       | None => inr ("invalid " +:+ name +:+ " " +:+ Quote value)
       end.

Definition environmentOrDefault (name defaultValue : string) : string :=
  if bool_decide (getenv name = "") then defaultValue else getenv name.

(** The part of [configFromEnvironment] that configures the supervisor. *)
Definition configFromEnvironment : orError SupervisorConfig :=
  match parseIPList (getenv "POD_IPS") with
  | None => inr "invalid POD_IPS"
  | Some podIPs =>
      match parseIPList (getenv "BFD_PEER_IPS") with
      | None => inr "invalid BFD_PEER_IPS"
      | Some peerIPs =>
          match positiveEnvironmentInt "BFD_MIN_TX" 1000 with
          | inr e => inr e
          | inl minTX =>
              match positiveEnvironmentInt "BFD_MIN_RX" 1000 with
              | inr e => inr e
              | inl minRX =>
                  let bad := inr ("invalid BFD_MULTI " +:+ Quote (getenv "BFD_MULTI")) in
                  match positiveEnvironmentInt "BFD_MULTI" 3 with
                  | inr _ => bad
                  | inl multiplier =>
                      if 255 <? multiplier then bad
                      else
                        let detectionTime := int64 (int64 (multiplier * Z.max minTX minRX) * Millisecond) in
                        let gracePeriod := Z.max Minute (int64 (10 * detectionTime)) in
                        let stablePeriod := Z.max Minute (int64 (2 * detectionTime)) in
                        inl (mkConfig (mkDaemon minTX minRX multiplier peerIPs) podIPs gracePeriod stablePeriod
                               [Minute; 5 * Minute; 30 * Minute] [5 * Second; 15 * Second; 30 * Second] Hour
                               (environmentOrDefault "BFDD_SUPERVISOR_STATE" defaultStatePath))
                  end
              end
          end
      end
  end.
End Environment.

(** ** Facts *)

Lemma parse_ips_parse l ips : parse_ips l = Some ips -> Forall (fun ip => exists a, ParseAddr ip = Some a) ips.
Proof.
  revert ips. induction l as [|p l IH]; simpl; intros ips H; [injection H as <-; constructor|].
  destruct (ParseAddr (TrimSpace p)) as [a|] eqn:E; [|done]. destruct (parse_ips l) as [r|]; [|done].
  injection H as <-. constructor; [|by apply IH]. exists a. by eapply ParseAddr_normal.
Qed.

Lemma parseAddresses_ok kind ips : Forall (fun ip => exists a, ParseAddr ip = Some a) ips ->
  exists l, parseAddresses ips kind = inl l.
Proof. induction 1 as [|ip ips [a Ha] _ [l Hl]]; simpl; [eauto|]. rewrite Ha, Hl. eauto. Qed.

Lemma env_int_pos getenv name d n : 0 < d -> positiveEnvironmentInt getenv name d = inl n -> 0 < n.
Proof.
  unfold positiveEnvironmentInt. intros Hd. case_bool_decide; [intros [= <-]; done|].
  destruct (Atoi _) as [z|]; [|done]. destruct (Z.leb_spec z 0); [done|]. by intros [= <-].
Qed.

(** A started child answers and is configured, or was stopped again. *)
Lemma start_with_ok {W} `{ProcessLifecycle W} `{ControlAdapter W} `{Ticker W} daemon launch fuel (w w' : W) e :
  start_with daemon launch fuel w = Some (e, w') ->
  (exists x w1, launch w = (Some x, w1) /\ e = Some x /\ w' = w1) \/
  (e = None /\ exists ss w1 w2, Control_Status w1 = (inl ss, w2) /\ Control_Configure daemon w2 = (None, w')) \/
  (e <> None /\ exists w1, snd (Process_Stop w1) = w').
Proof.
  unfold start_with. destruct (launch w) as [[x|] w1]; [intros [= <- <-]; left; eauto|].
  destruct (waitAndConfigure daemon fuel w1) as [[[x|] w2]|] eqn:E; [| |done].
  - intros [= E']. right; right. unfold stopAfterStartFailure in E'.
    destruct (Process_Stop w2) as [[y|] w3] eqn:Es; injection E' as <- <-; (split; [done|]); exists w2; by rewrite Es.
  - intros [= <- <-]. right; left. split; [done|]. revert w1 E.
    induction fuel as [|fuel IH]; intros w1; simpl; [done|].
    destruct (Control_Status w1) as [[ss|err] w3] eqn:Es.
    + destruct (Control_Configure daemon w3) as [[y|] w4] eqn:Ec; intros [= <-]; eauto 6.
    + destruct (next_tick w3) as [[y|] w4]; [done|]. apply IH.
Qed.
