(* ===== verification/ServiceCIDR.v ===== *)
(** * The store of Service CIDRs ([pkg/util/servicecidr_store.go])

    The store merges the CIDRs of the command line with those of the
    ServiceCIDR objects, caches the sorted result and notifies handlers of a
    change after a pause.  Each definition is one critical section of the
    store's mutex; the interleavings of the calls are the step relation of
    ServiceCIDRFacts.v. *)
From stdpp Require Import sorting.
From S2P Require Import Prelude GoStrings GoNet UtilNet GoText IpPool.

Local Open Scope Z_scope.

(** ** Objects of the API *)

Definition ServiceCIDRConditionReady : string := "Ready".
Definition ConditionTrue : string := "True".

(** The fields of a ServiceCIDR object that are read: the conditions (type and
    status) and the CIDRs. *)
Record ServiceCIDR := mkServiceCIDR { scConditions : list (string * string); scCIDRs : list string }.

Definition ReadyServiceCIDRs (sc : option ServiceCIDR) : list string :=
  match sc with
  | None => []
  | Some x =>
      match list_find (fun c => fst c = ServiceCIDRConditionReady) (scConditions x) with
      | Some (_, (_, st)) => if bool_decide (st = ConditionTrue) then scCIDRs x else []
      | None => []
      end
  end.

(** ** The store *)

(** A handler is known by a number; [debounce] is the time at which a running
    timer expires. *)
Record ServiceCIDRStore := mkStore {
  fallback : list string;
  fromAPI : gmap string (list string);
  handlers : list nat;
  debounce : option Time;
  cached : list string;
  debounceInterval : Duration
}.

(** The closure [add] of [merged]. *)
Definition add_cidr (out : list string) (cidr : string) : list string :=
  let c := TrimSpace cidr in
  if bool_decide (c = "") then out
  else if bool_decide (CheckProtocol c = "") then out
  else if bool_decide (c ∈ out) then out
  else out ++ [c].

(** [merged], given the objects in the order of the map iteration. *)
Definition merged_of (fb : list string) (apis : list (list string)) : list string :=
  let out := foldl add_cidr [] (concat apis) in
  let out := if (length out =? 0)%nat then foldl add_cidr out fb else out in
  sort_Strings out.

Definition merged (s : ServiceCIDRStore) : list string :=
  merged_of (fallback s) (snd <$> map_to_list (fromAPI s)).

Definition NewServiceCIDRStore (flagValue : string) : ServiceCIDRStore :=
  let '(v4, v6) := SplitStringIP flagValue in
  let fb := (if bool_decide (v4 = "") then [] else [v4]) ++ (if bool_decide (v6 = "") then [] else [v6]) in
  let s := mkStore fb ∅ [] None [] Second in
  mkStore fb ∅ [] None (merged s) Second.

Definition AllCIDRs (s : ServiceCIDRStore) : list string := cached s.

Definition byProtocol (s : ServiceCIDRStore) (proto : string) : list string :=
  filter (fun cidr => CheckProtocol cidr = proto) (cached s).

Definition V4CIDRs (s : ServiceCIDRStore) : list string := byProtocol s ProtocolIPv4.
Definition V6CIDRs (s : ServiceCIDRStore) : list string := byProtocol s ProtocolIPv6.

(** The text that [Hash] digests: every CIDR followed by a zero byte. *)
Fixpoint hash_input (l : list string) : string :=
  match l with
  | [] => EmptyString
  | c :: l' => c +:+ String (chr 0) (hash_input l')
  end.

Definition Hash (sha256 : string -> string) (s : ServiceCIDRStore) : string := sha256 (hash_input (cached s)).

Definition set_cached (l : list string) (s : ServiceCIDRStore) : ServiceCIDRStore :=
  mkStore (fallback s) (fromAPI s) (handlers s) (debounce s) l (debounceInterval s).
Definition set_fromAPI (m : gmap string (list string)) (s : ServiceCIDRStore) : ServiceCIDRStore :=
  mkStore (fallback s) m (handlers s) (debounce s) (cached s) (debounceInterval s).
Definition set_debounce (t : option Time) (s : ServiceCIDRStore) : ServiceCIDRStore :=
  mkStore (fallback s) (fromAPI s) (handlers s) t (cached s) (debounceInterval s).

Definition recomputeLocked (s : ServiceCIDRStore) : ServiceCIDRStore * bool :=
  let next := merged s in
  if bool_decide (cached s = next) then (s, false) else (set_cached next s, true).

(** [UpsertFromAPI] and [DeleteFromAPI] up to the unlock; the answer says
    whether [scheduleFire] is called next. *)
Definition UpsertFromAPI (name : string) (cidrs : list string) (s : ServiceCIDRStore) : ServiceCIDRStore * bool :=
  let cleaned := filter (fun c => c <> "") (TrimSpace <$> cidrs) in
  if bool_decide (default [] (fromAPI s !! name) = cleaned) then (s, false)
  else recomputeLocked (set_fromAPI (<[name := cleaned]> (fromAPI s)) s).

Definition DeleteFromAPI (name : string) (s : ServiceCIDRStore) : ServiceCIDRStore * bool :=
  match fromAPI s !! name with
  | None => (s, false)
  | Some _ => recomputeLocked (set_fromAPI (delete name (fromAPI s)) s)
  end.

Definition OnChange (h : nat) (s : ServiceCIDRStore) : ServiceCIDRStore :=
  mkStore (fallback s) (fromAPI s) (handlers s ++ [h]) (debounce s) (cached s) (debounceInterval s).

(** A running timer is stopped and a new one is started. *)
Definition scheduleFire (now : Time) (s : ServiceCIDRStore) : ServiceCIDRStore :=
  set_debounce (Some (now + debounceInterval s)) s.

(** The handlers [fireOnChange] starts. *)
Definition fireOnChange (s : ServiceCIDRStore) : list nat := handlers s.
