(* ===== verification/ServiceCIDRFacts.v ===== *)
(** * Facts about the store of Service CIDRs

    The merged set does not depend on the order of the map, the cache is the
    merged set in every interleaving, and no change goes unnoticed. *)
From Stdlib Require Import Ascii.
From stdpp Require Import sorting.
From S2P Require Import Prelude GoStrings GoNet UtilNet GoText IpPool IpPoolFacts ServiceCIDR.

Local Open Scope Z_scope.

(** ** The merged set *)

(** An entry that counts. *)
Definition counts (c : string) : Prop := TrimSpace c <> "" /\ CheckProtocol (TrimSpace c) <> "".

#[global] Instance counts_dec c : Decision (counts c).
Proof. unfold counts. apply _. Defined.

Lemma add_cidr_spec out c x : x ∈ add_cidr out c <-> x ∈ out \/ (counts c /\ x = TrimSpace c).
Proof.
  unfold add_cidr, counts. cbv zeta. repeat case_bool_decide; rewrite ?elem_of_app, ?list_elem_of_singleton;
    split; try tauto; intros [|[? ->]]; tauto.
Qed.

Lemma add_cidr_NoDup out c : NoDup out -> NoDup (add_cidr out c).
Proof.
  unfold add_cidr. cbv zeta. intros Hd. repeat case_bool_decide; try done.
  apply NoDup_app. split_and!; [done| |apply NoDup_singleton].
  intros x Hx Hx'. apply list_elem_of_singleton in Hx'. congruence.
Qed.

Lemma add_all_spec l out x : x ∈ foldl add_cidr out l <-> x ∈ out \/ exists c, c ∈ l /\ counts c /\ x = TrimSpace c.
Proof.
  revert out. induction l as [|c l IH]; intros out; simpl.
  - split; [auto|]. intros [|(c & Hc & _)]; [done|]. by apply elem_of_nil in Hc.
  - rewrite IH, add_cidr_spec. split.
    + intros [[|[]]|(c' & ? & ?)]; [by left|right; exists c; split; [by left|done]|].
      right. exists c'. split; [by right|done].
    + intros [|(c' & Hc & Hx)]; [auto|]. apply elem_of_cons in Hc as [->|]; [auto|]. right. eauto.
Qed.

Lemma add_all_NoDup l out : NoDup out -> NoDup (foldl add_cidr out l).
Proof. revert out. induction l; simpl; intros; auto using add_cidr_NoDup. Qed.

Lemma length_zero {A} (l : list A) : (length l =? 0)%nat = bool_decide (l = []).
Proof. by destruct l. Qed.

(** The entries that make up the merged set: those of the objects, or the
    fallback when no object has any. *)
Definition sources (fb : list string) (apis : list (list string)) : list string :=
  if decide (Exists counts (concat apis)) then concat apis else fb.

Theorem merged_of_spec fb apis :
  StronglySorted str_le (merged_of fb apis) /\ NoDup (merged_of fb apis) /\
  forall x, x ∈ merged_of fb apis <-> exists c, c ∈ sources fb apis /\ counts c /\ x = TrimSpace c.
Proof.
  unfold merged_of, sources. cbv zeta. rewrite length_zero.
  set (out := foldl add_cidr [] (concat apis)).
  assert (Hout : out = [] <-> ~ Exists counts (concat apis)).
  { rewrite Exists_exists. split.
    - intros E (c & Hc & Hg). assert (TrimSpace c ∈ out) as Hin by (apply add_all_spec; eauto).
      rewrite E in Hin. by apply elem_of_nil in Hin.
    - intros Hno. destruct out as [|y out'] eqn:E; [done|]. exfalso. apply Hno.
      assert (y ∈ out) as Hy by (rewrite E; by left). apply add_all_spec in Hy as [Hy|(c & ? & ? & _)]; [|eauto].
      by apply elem_of_nil in Hy. }
  assert (Hbase : forall l, let r := foldl add_cidr [] l in
    StronglySorted str_le (sort_Strings r) /\ NoDup (sort_Strings r) /\
    forall x, x ∈ sort_Strings r <-> exists c, c ∈ l /\ counts c /\ x = TrimSpace c).
  { intros l r. destruct (sort_Strings_spec r) as [Hs Hp]. split_and!; [done| |].
    - rewrite Hp. apply add_all_NoDup, NoDup_nil_2.
    - intros x. rewrite Hp. subst r. rewrite add_all_spec. split; [intros [Hx|]; [by apply elem_of_nil in Hx|done]|auto]. }
  case_decide as Hd.
  - rewrite bool_decide_false by tauto. apply Hbase.
  - rewrite bool_decide_true by tauto. assert (out = []) as -> by tauto. apply Hbase.
Qed.

(** The usable CIDRs of the sources. *)
Lemma sources_usable fb apis c : (exists e, e ∈ sources fb apis /\ counts e /\ c = TrimSpace e) <->
  (exists e, e ∈ concat apis /\ counts e /\ c = TrimSpace e) \/
  (forall c', ~ exists e, e ∈ concat apis /\ counts e /\ c' = TrimSpace e) /\ (exists e, e ∈ fb /\ counts e /\ c = TrimSpace e).
Proof.
  unfold sources. destruct (decide (Exists counts (concat apis))) as [Hx|Hx]; rewrite Exists_exists in Hx; split.
  - by left.
  - intros [|[Hno _]]; [done|]. destruct Hx as (e & He & Hc). exfalso. apply (Hno (TrimSpace e)). by exists e.
  - right. split; [|done]. intros c' (e & He & Hc & _). apply Hx. by exists e.
  - intros [(e & He & Hc & _)|[_ H]]; [exfalso; apply Hx; by exists e|done].
Qed.

(** Sorted lists without duplicates are determined by their elements. *)
Lemma sorted_set_eq l k : StronglySorted str_le l -> NoDup l -> StronglySorted str_le k -> NoDup k ->
  (forall x, x ∈ l <-> x ∈ k) -> l = k.
Proof.
  intros Sl Nl Sk Nk H. apply (StronglySorted_unique str_le); [done|done|]. by apply NoDup_Permutation.
Qed.

(** The order in which the map is iterated does not matter. *)
Theorem merged_order fb apis apis' : apis ≡ₚ apis' -> merged_of fb apis = merged_of fb apis'.
Proof.
  intros Hp. destruct (merged_of_spec fb apis) as (S1 & N1 & M1), (merged_of_spec fb apis') as (S2 & N2 & M2).
  apply sorted_set_eq; try done. intros x. rewrite M1, M2.
  assert (Hc : forall c, c ∈ concat apis <-> c ∈ concat apis').
  { intros c. rewrite !list_elem_of_In, !in_concat.
    split; intros (l & Hl & Hin); exists l; (split; [|done]); revert Hl; apply Permutation_in; by rewrite Hp. }
  assert (Hsrc : forall c, c ∈ sources fb apis <-> c ∈ sources fb apis').
  { intros c. unfold sources.
    destruct (decide (Exists counts (concat apis))) as [E1|E1], (decide (Exists counts (concat apis'))) as [E2|E2];
      try done; exfalso; rewrite Exists_exists in E1, E2;
      [apply E2; destruct E1 as (y & Hy & Hg)|apply E1; destruct E2 as (y & Hy & Hg)]; exists y; (split; [by apply Hc|done]). }
  split; intros (c & Hin & ?); exists c; split; [by apply Hsrc|done|by apply Hsrc|done].
Qed.

(** ** Entries of an object *)

Lemma trim_right_idem s : trim_right (trim_right s) = trim_right s.
Proof.
  induction s as [|c s IH]; [done|]. cbn [trim_right]. destruct (trim_right s) as [|c' t] eqn:E.
  - destruct (is_space c) eqn:Hc; [done|]. cbn [trim_right]. by rewrite Hc.
  - cbn [trim_right] in IH |- *. by rewrite IH.
Qed.

Lemma trim_left_right s : (exists c t, s = String c t /\ is_space c = false) \/ s = "" -> trim_left (trim_right s) = trim_right s.
Proof.
  intros [(c & t & -> & Hc)| ->]; [|done]. cbn [trim_right]. destruct (trim_right t); [rewrite Hc|]; cbn [trim_left]; by rewrite Hc.
Qed.

Lemma TrimSpace_idem s : TrimSpace (TrimSpace s) = TrimSpace s.
Proof.
  unfold TrimSpace. rewrite trim_left_right; [apply trim_right_idem|]. induction s as [|c s IH]; [by right|]. cbn [trim_left].
  destruct (is_space c) eqn:Hc; [done|]. left. by exists c, s.
Qed.

(** What the store keeps of the CIDRs of an object. *)
Definition cleaned (cidrs : list string) : list string := filter (fun c => c <> "") (TrimSpace <$> cidrs).

(** A usable CIDR of a list. *)
Definition usable_in (cidrs : list string) (c : string) : Prop := exists e, e ∈ cidrs /\ counts e /\ c = TrimSpace e.

Lemma usable_cleaned cidrs c : usable_in (cleaned cidrs) c <-> usable_in cidrs c.
Proof.
  unfold usable_in, cleaned, counts. split.
  - intros (e & [_ (e0 & -> & Hin)%list_elem_of_fmap]%list_elem_of_filter & Hc & ->). rewrite TrimSpace_idem in *. by exists e0.
  - intros (e & Hin & Hc & ->). exists (TrimSpace e). rewrite TrimSpace_idem. split_and!; [|apply Hc..|done].
    apply list_elem_of_filter. split; [apply Hc|]. apply list_elem_of_fmap. by exists e.
Qed.

(** ** The store in use *)

(** The cache is the merged set. *)
Definition store_ok (s : ServiceCIDRStore) : Prop := cached s = merged s.

Lemma new_store_ok flag : store_ok (NewServiceCIDRStore flag).
Proof. unfold store_ok, NewServiceCIDRStore. by destruct (SplitStringIP flag). Qed.

Lemma recompute_ok s s' b : recomputeLocked s = (s', b) ->
  store_ok s' /\ (b = false -> cached s' = cached s) /\ (b = true -> cached s' <> cached s) /\ debounce s' = debounce s /\
  handlers s' = handlers s.
Proof.
  unfold recomputeLocked. case_bool_decide as H; intros [= <- <-]; split_and!; try done.
Qed.

Lemma upsert_ok name cidrs s s' b : store_ok s -> UpsertFromAPI name cidrs s = (s', b) ->
  store_ok s' /\ (b = false -> cached s' = cached s) /\ (b = true -> cached s' <> cached s) /\ debounce s' = debounce s /\
  handlers s' = handlers s.
Proof.
  intros Hs. unfold UpsertFromAPI. case_bool_decide; [by intros [= <- <-]|]. intros E. exact (recompute_ok _ _ _ E).
Qed.

Lemma delete_ok name s s' b : store_ok s -> DeleteFromAPI name s = (s', b) ->
  store_ok s' /\ (b = false -> cached s' = cached s) /\ (b = true -> cached s' <> cached s) /\ debounce s' = debounce s /\
  handlers s' = handlers s.
Proof.
  intros Hs. unfold DeleteFromAPI. destruct (fromAPI s !! name); [|by intros [= <- <-]]. intros E. exact (recompute_ok _ _ _ E).
Qed.

(** The store and the calls under way: [owing] callers are between the update
    and [scheduleFire], [firing] expired timers have not run [fireOnChange]
    yet, [running] are the goroutines of handlers that have not read the store
    yet; [seen] is what each handler last read.  A client reads the store when
    it registers its handler.  [objects] is the history of the API: the CIDRs of
    every object that was reported and not deleted since.  No call reads it. *)
Record sys := mkSys {
  store : ServiceCIDRStore;
  owing : nat;
  firing : nat;
  running : list nat;
  seen : gmap nat (list string);
  clock : Time;
  objects : gmap string (list string)
}.

Definition owe (b : bool) (n : nat) : nat := if b then S n else n.

Definition with_store (s : ServiceCIDRStore) (b : bool) (objs : gmap string (list string)) (x : sys) : sys :=
  mkSys s (owe b (owing x)) (firing x) (running x) (seen x) (clock x) objs.

Inductive step : sys -> sys -> Prop :=
  | step_upsert x name cidrs s' b : UpsertFromAPI name cidrs (store x) = (s', b) -> step x (with_store s' b (<[name := cidrs]> (objects x)) x)
  | step_delete x name s' b : DeleteFromAPI name (store x) = (s', b) -> step x (with_store s' b (delete name (objects x)) x)
  | step_on_change x h :
      step x (mkSys (OnChange h (store x)) (owing x) (firing x) (running x)
                (<[h := AllCIDRs (store x)]> (seen x)) (clock x) (objects x))
  | step_schedule x n : owing x = S n ->
      step x (mkSys (scheduleFire (clock x) (store x)) n (firing x) (running x) (seen x) (clock x) (objects x))
  | step_expire x d : debounce (store x) = Some d -> d <= clock x ->
      step x (mkSys (set_debounce None (store x)) (owing x) (S (firing x)) (running x) (seen x) (clock x) (objects x))
  | step_fire x n : firing x = S n ->
      step x (mkSys (store x) (owing x) n (running x ++ fireOnChange (store x)) (seen x) (clock x) (objects x))
  | step_run x h l k : running x = l ++ h :: k ->
      step x (mkSys (store x) (owing x) (firing x) (l ++ k) (<[h := AllCIDRs (store x)]> (seen x)) (clock x) (objects x))
  | step_wait x t : clock x <= t -> step x (mkSys (store x) (owing x) (firing x) (running x) (seen x) t (objects x)).

Definition start (flag : string) (now : Time) : sys := mkSys (NewServiceCIDRStore flag) 0 0 [] ∅ now ∅.

(** A round of the handlers is still to come. *)
Definition under_way (x : sys) : Prop := debounce (store x) <> None \/ (0 < owing x)%nat \/ (0 < firing x)%nat.

(** Nothing is left to do. *)
Definition idle (x : sys) : Prop := ~ under_way x /\ running x = [].

Definition up_to_date (x : sys) (h : nat) : Prop := seen x !! h = Some (AllCIDRs (store x)).

Record sys_inv (x : sys) : Prop := {
  sys_cache : store_ok (store x);
  sys_noticed : forall h, h ∈ handlers (store x) -> up_to_date x h \/ h ∈ running x \/ under_way x
}.

Lemma start_inv flag now : sys_inv (start flag now).
Proof.
  constructor; [apply new_store_ok|]. unfold start, NewServiceCIDRStore. destruct (SplitStringIP flag). simpl.
  intros h Hh. by apply elem_of_nil in Hh.
Qed.

Lemma updated_inv x s' b objs : sys_inv x -> store_ok s' -> (b = false -> cached s' = cached (store x)) ->
  debounce s' = debounce (store x) -> handlers s' = handlers (store x) -> sys_inv (with_store s' b objs x).
Proof.
  intros [Hc Hn] Hs Hf Hd Hh. constructor; [done|]. simpl. rewrite Hh. intros h Hin.
  unfold up_to_date, under_way, AllCIDRs in *. simpl.
  destruct b; simpl; [right; right; right; left; lia|]. rewrite Hf, Hd by done. by apply Hn.
Qed.

Lemma sys_step_inv x y : step x y -> sys_inv x -> sys_inv y.
Proof.
  intros Hstep Hinv. pose proof Hinv as [Hc Hn].
  destruct Hstep as [x name cidrs s' b E|x name s' b E|x h|x n E|x d E Hle|x n E|x h l k E|x t Hle].
  - destruct (upsert_ok _ _ _ _ _ Hc E) as (? & ? & _ & ? & ?). by apply updated_inv.
  - destruct (delete_ok _ _ _ _ Hc E) as (? & ? & _ & ? & ?). by apply updated_inv.
  - constructor; [done|]. unfold up_to_date, under_way in *. simpl. intros g Hg.
    destruct (decide (g = h)) as [->|Hne]; [left; by rewrite lookup_insert_eq|].
    rewrite lookup_insert_ne by done. apply elem_of_app in Hg as [Hg|Hg%list_elem_of_singleton]; [by apply Hn|done].
  - constructor; [done|]. intros g _. right; right. by left.
  - constructor; [done|]. intros g _. right; right; right; right. simpl. lia.
  - constructor; [done|]. simpl. intros g Hg. right; left. apply elem_of_app. by right.
  - constructor; [done|]. unfold up_to_date, under_way in *. simpl. intros g Hg.
    destruct (decide (g = h)) as [->|Hne]; [left; by rewrite lookup_insert_eq|]. rewrite lookup_insert_ne by done.
    destruct (Hn g Hg) as [|[Hr|]]; [by left| |by right; right]. right; left. rewrite E, elem_of_app, elem_of_cons in Hr.
    rewrite elem_of_app. tauto.
  - constructor; [done|]. intros g Hg. by apply Hn.
Qed.

Lemma steps_inv x y : rtc step x y -> sys_inv x -> sys_inv y.
Proof. induction 1; eauto using sys_step_inv. Qed.

Lemma idle_seen x h : sys_inv x -> idle x -> h ∈ handlers (store x) -> up_to_date x h.
Proof.
  intros [_ Hn] [Hu Hr] Hh. destruct (Hn h Hh) as [|[Hin|]]; [done| |done]. rewrite Hr in Hin. by apply elem_of_nil in Hin.
Qed.

(** ** The store and the history of the API *)

(** The CIDRs of the command line. *)
Definition flag_cidrs (flag : string) : list string := filter (fun c => c <> "") [(SplitStringIP flag).1; (SplitStringIP flag).2].

(** The store holds, cleaned, what the objects of the API hold. *)
Definition tracks (flag : string) (x : sys) : Prop :=
  fallback (store x) = flag_cidrs flag /\ forall name, default [] (fromAPI (store x) !! name) = cleaned (default [] (objects x !! name)).

Lemma recompute_api s s' b : recomputeLocked s = (s', b) -> fallback s' = fallback s /\ fromAPI s' = fromAPI s.
Proof. unfold recomputeLocked. case_bool_decide; by intros [= <- <-]. Qed.

Lemma upsert_api name cidrs s s' b : UpsertFromAPI name cidrs s = (s', b) ->
  fallback s' = fallback s /\ forall n, default [] (fromAPI s' !! n) = if decide (n = name) then cleaned cidrs else default [] (fromAPI s !! n).
Proof.
  unfold UpsertFromAPI. fold (cleaned cidrs). case_bool_decide as Hd.
  - intros [= <- <-]. split; [done|]. intros n. case_decide; congruence.
  - intros [-> ->]%recompute_api. split; [done|]. intros n. cbn. case_decide as Hn; [subst; by rewrite lookup_insert_eq|by rewrite lookup_insert_ne].
Qed.

Lemma delete_api name s s' b : DeleteFromAPI name s = (s', b) ->
  fallback s' = fallback s /\ forall n, default [] (fromAPI s' !! n) = if decide (n = name) then [] else default [] (fromAPI s !! n).
Proof.
  unfold DeleteFromAPI. destruct (fromAPI s !! name) eqn:E.
  - intros [-> ->]%recompute_api. split; [done|]. intros n. cbn. case_decide as Hn; [subst; by rewrite lookup_delete_eq|by rewrite lookup_delete_ne].
  - intros [= <- <-]. split; [done|]. intros n. case_decide as Hn; [subst; by rewrite E|done].
Qed.

Lemma step_tracks flag x y : step x y -> tracks flag x -> tracks flag y.
Proof.
  intros Hs [Hf Ht]. destruct Hs as [x name cidrs s' b E|x name s' b E|x h|x n E|x d E Hle|x n E|x h l k E|x t Hle]; try done.
  - destruct (upsert_api _ _ _ _ _ E) as [Ef Ha]. split; [cbn; by rewrite Ef|]. intros n. cbn. rewrite Ha. case_decide as Hn; [subst; by rewrite lookup_insert_eq|by rewrite lookup_insert_ne].
  - destruct (delete_api _ _ _ _ E) as [Ef Ha]. split; [cbn; by rewrite Ef|]. intros n. cbn. rewrite Ha. case_decide as Hn; [subst; by rewrite lookup_delete_eq|by rewrite lookup_delete_ne].
Qed.

Lemma start_tracks flag now : tracks flag (start flag now).
Proof.
  unfold tracks, start, NewServiceCIDRStore, flag_cidrs. destruct (SplitStringIP flag) as [v4 v6]. cbn. split; [|done].
  repeat case_bool_decide; repeat case_decide; done || congruence.
Qed.

Lemma steps_tracks flag x y : rtc step x y -> tracks flag x -> tracks flag y.
Proof. induction 1; eauto using step_tracks. Qed.

(** A usable CIDR of an object that exists. *)
Definition api_cidr (objs : gmap string (list string)) (c : string) : Prop := exists name cidrs, objs !! name = Some cidrs /\ usable_in cidrs c.

Lemma tracked_api flag x c : tracks flag x -> usable_in (concat (map_to_list (fromAPI (store x))).*2) c <-> api_cidr (objects x) c.
Proof.
  intros [_ Ht]. transitivity (exists name, usable_in (default [] (fromAPI (store x) !! name)) c).
  - unfold usable_in. split.
    + intros (e & Hin & He). apply list_elem_of_In, in_concat in Hin as (l & Hl & Hin). apply list_elem_of_In, list_elem_of_fmap in Hl as ([name l'] & -> & Hl).
      apply elem_of_map_to_list in Hl. exists name, e. rewrite Hl. split; [by apply list_elem_of_In|done].
    + intros (name & e & Hin & He). destruct (fromAPI (store x) !! name) as [l|] eqn:E; [|by apply elem_of_nil in Hin]. exists e. split; [|done].
      apply list_elem_of_In, in_concat. exists l. split; [|by apply list_elem_of_In]. apply list_elem_of_In, list_elem_of_fmap. exists (name, l). split; [done|]. by apply elem_of_map_to_list.
  - unfold api_cidr. split.
    + intros (name & Hu). rewrite Ht, usable_cleaned in Hu. exists name. destruct (objects x !! name) as [l|]; [by exists l|]. destruct Hu as (e & He & _). by apply elem_of_nil in He.
    + intros (name & l & E & Hu). exists name. rewrite Ht, E. by apply usable_cleaned.
Qed.

(** ** Progress *)

(** The same CIDRs and handlers: no update came in between. *)
Definition same_set (x y : sys) : Prop :=
  cached (store y) = cached (store x) /\ handlers (store y) = handlers (store x).

Lemma same_set_trans x y z : same_set x y -> same_set y z -> same_set x z.
Proof. intros [? ?] [? ?]. split; congruence. Qed.

(** Every caller finishes [scheduleFire]. *)
Lemma schedule_all n : forall x, owing x = n -> exists y, rtc step x y /\ owing y = 0%nat /\ same_set x y.
Proof.
  induction n as [|n IH]; intros x Hn; [by exists x|].
  destruct (IH (mkSys (scheduleFire (clock x) (store x)) n (firing x) (running x) (seen x) (clock x) (objects x)) eq_refl)
    as (y & ? & ? & ?).
  exists y. split_and!; [|done|done]. eapply rtc_l; [by apply step_schedule|done].
Qed.

(** A running timer expires. *)
Lemma expire_timer x : owing x = 0%nat ->
  exists y, rtc step x y /\ owing y = 0%nat /\ debounce (store y) = None /\ same_set x y.
Proof.
  intros Ho. destruct (debounce (store x)) as [d|] eqn:Hd; [|by exists x].
  set (y := mkSys (store x) (owing x) (firing x) (running x) (seen x) (Z.max d (clock x)) (objects x)).
  eexists. split; [eapply rtc_l; [apply (step_wait x (Z.max d (clock x))); lia|]|].
  { eapply rtc_l; [apply (step_expire y d); [done|simpl; lia]|apply rtc_refl]. }
  by split_and!.
Qed.

Lemma fire_all n : forall x, firing x = n -> owing x = 0%nat -> debounce (store x) = None ->
  exists y, rtc step x y /\ ~ under_way y /\ same_set x y.
Proof.
  induction n as [|n IH]; intros x Hn Ho Hd.
  - exists x. unfold under_way. rewrite Ho, Hn, Hd. split_and!; [done|intros [|[|]]; lia || done|done].
  - destruct (IH (mkSys (store x) (owing x) n (running x ++ fireOnChange (store x)) (seen x) (clock x) (objects x)) eq_refl Ho Hd)
      as (y & ? & ? & ?).
    exists y. split_and!; [|done|done]. eapply rtc_l; [by apply step_fire|done].
Qed.

Lemma run_all l : forall x, running x = l -> ~ under_way x -> exists y, rtc step x y /\ idle y /\ same_set x y.
Proof.
  induction l as [|h l IH]; intros x Hl Hu; [by exists x|].
  destruct (IH (mkSys (store x) (owing x) (firing x) ([] ++ l) (<[h := AllCIDRs (store x)]> (seen x)) (clock x) (objects x)) eq_refl Hu)
    as (y & ? & ? & ?).
  exists y. split_and!; [|done|done]. eapply rtc_l; [by apply (step_run x h [] l)|done].
Qed.

(** From any state the calls under way can finish, without another update. *)
Lemma catch_up x : exists y, rtc step x y /\ idle y /\ same_set x y.
Proof.
  destruct (schedule_all _ x eq_refl) as (y & Hxy & Ho & S1). destruct (expire_timer y Ho) as (z & Hyz & Hz & Hd & S2).
  destruct (fire_all _ z eq_refl Hz Hd) as (u & Hzu & Hu & S3). destruct (run_all _ u eq_refl Hu) as (v & Huv & Hv & S4).
  exists v. split_and!; [|done|eauto using same_set_trans].
  transitivity y; [done|]. transitivity z; [done|]. by transitivity u.
Qed.

(** ** The digest *)

Lemma hash_input_inj l k : Forall (fun c => contains_char (chr 0) c = false) l ->
  Forall (fun c => contains_char (chr 0) c = false) k -> hash_input l = hash_input k -> l = k.
Proof.
  intros Hl. revert k. induction Hl as [|c l Hc Hl IH]; intros k Hk; destruct Hk as [|d k Hd Hk]; simpl; [done|..].
  - intros E. by destruct d.
  - intros E. by destruct c.
  - intros E. apply (f_equal (Cut (chr 0))) in E. rewrite !Cut_app in E by done.
    injection E as -> E. f_equal. by apply IH.
Qed.
