(* ===== verification/PodAddress.v ===== *)
(** * Addresses for pods ([pkg/controller/pod.go], [pkg/controller/vip.go])

    [acquireAddress] and the functions it calls: how the controller turns the
    annotations of a pod and the objects of the cluster into calls of the
    allocator.  The caches of the controller are a record the functions read;
    the write of a VIP label goes to the API server, whose answer is a field of
    that record.  The loops that draw addresses until one is acceptable take a
    number of rounds, and answer [None] when it does not suffice. *)
From Stdlib Require Import Ascii.
From S2P Require Import Prelude GoStrings GoNet Ip UtilNet Subnet Ipam Validator GoText.

Local Open Scope Z_scope.

(** ** Objects *)

Record OwnerReference := mkOwner { owner_Kind : string; owner_APIVersion : string; owner_Name : string }.

(** The fields of a pod that are read. *)
Record Pod := mkPod {
  Pod_Namespace : string;
  Pod_Name : string;
  Pod_Annotations : gmap string string;
  Pod_Owners : list OwnerReference
}.

Record kubeovnNet := mkNet {
  ProviderName : string;
  net_Subnet : SubnetSpec;
  IsDefault : bool;
  AllowLiveMigration : bool;
  NadName : string;
  NadNamespace : string;
  InterfaceName : string
}.

(** The IPPool object: its subnet and the counts of its status. *)
Record IPPoolObject := mkPoolObject { pool_Subnet : string; V4AvailableIPs : Z; V6AvailableIPs : Z }.

Record VipObject := mkVip {
  vip_Subnet : string;
  vip_Labels : gmap string string;
  vip_V4ip : string;
  vip_V6ip : string;
  vip_Mac : string
}.

(** The informer caches, the configuration, and the answer of the API server to
    the patch of a VIP.  A namespace has its annotations, which may be nil; a
    node its addresses with their types. *)
Record Cluster := mkCluster {
  c_subnets : gmap string SubnetSpec;
  c_namespaces : gmap string (option (gmap string string));
  c_ippools : gmap string IPPoolObject;
  c_vips : gmap string VipObject;
  c_nodes : list (list (string * string));
  ClusterRouter : string;
  EnableKeepVMIP : bool;
  patch_vip : string -> string -> option err
}.

Definition Get {A} (m : gmap string A) (name : string) : result A :=
  match m !! name with Some a => Ok a | None => Err (Errorf "%s not found" [name]) end.

Definition annotation (pod : Pod) (key : string) : string := default "" (Pod_Annotations pod !! key).

(** ** Names and keys *)

Definition OvnProvider : string := "ovn".
Definition IPPoolAnnotation : string := "ovn.kubernetes.io/ip_pool".
Definition VipAnnotation : string := "ovn.kubernetes.io/vip".
Definition LogicalSwitchAnnotation : string := "ovn.kubernetes.io/logical_switch".
Definition IPReservedLabel : string := "ovn.kubernetes.io/ip_reserved".
Definition KindStatefulSet : string := "StatefulSet".
Definition KindVirtualMachineInstance : string := "VirtualMachineInstance".

(** [fmt.Sprintf] of an annotation template such as ["%s.kubernetes.io/mac_address"]. *)
Definition template (provider name : string) : string := provider +:+ ".kubernetes.io/" +:+ name.

Definition perInterfaceIPAnnotationKey (nadName nadNamespace ifaceName : string) : string :=
  nadName +:+ "." +:+ nadNamespace +:+ ".kubernetes.io/ip_address." +:+ ifaceName.
Definition perInterfaceMACAnnotationKey (nadName nadNamespace ifaceName : string) : string :=
  nadName +:+ "." +:+ nadNamespace +:+ ".kubernetes.io/mac_address." +:+ ifaceName.

Definition PodNameToPortName (pod namespace provider : string) : string :=
  if bool_decide (provider = OvnProvider) then pod +:+ "." +:+ namespace
  else pod +:+ "." +:+ namespace +:+ "." +:+ provider.

(** [cache.ObjectName.String]. *)
Definition ObjectName (namespace name : string) : string :=
  if nonempty namespace then namespace +:+ "/" +:+ name else name.

Definition IsOvnProvider (provider : string) : bool :=
  bool_decide (provider = "") || bool_decide (provider = OvnProvider) ||
  match Split provider "." with [_; _; f] => bool_decide (f = OvnProvider) | _ => false end.

Definition isOvnSubnet (subnet : SubnetSpec) : bool := IsOvnProvider (Provider subnet).

Definition isStatefulSetPod (pod : Pod) : bool :=
  existsb (fun o => bool_decide (owner_Kind o = KindStatefulSet) && has_prefix "apps/" (owner_APIVersion o) &&
                    has_prefix (owner_Name o) (Pod_Name pod)) (Pod_Owners pod).

(** The name of the virtual machine, when the pod has one. *)
Definition isVMPod (pod : Pod) : option string :=
  owner_Name ∘ snd <$> list_find (fun o =>
    bool_decide (owner_Kind o = KindVirtualMachineInstance) && has_prefix "kubevirt.io/" (owner_APIVersion o) = true)
    (Pod_Owners pod).

Section Controller.

Context (order : forall A, gmap string A -> list (string * A)) (c : Cluster).

Definition getNameByPod (pod : Pod) : string :=
  match isVMPod pod with
  | Some vmName => if EnableKeepVMIP c then vmName else Pod_Name pod
  | None => Pod_Name pod
  end.

(** ** Checks *)

Definition podNetRequestedIPFamily (pod : Pod) (podNet : kubeovnNet) : string :=
  NormalizeIPFamily (annotation pod (template (ProviderName podNet) "ip_family")).

Definition validateRequestedIPFamilyForSubnet (ipFamily : string) (subnet : SubnetSpec) : option err :=
  if bool_decide (ipFamily = "") || bool_decide (Protocol subnet = ProtocolDual) ||
     bool_decide (Protocol subnet = ProtocolMac) then None
  else if negb (bool_decide (ipFamily = Protocol subnet))
  then Some (Errorf "requested ip family %s does not match subnet %s protocol %s" [ipFamily; Name subnet; Protocol subnet])
  else None.

(** [Int64() != 0] of a big integer, which looks at its low 64 bits. *)
Definition some_left (n : Z) : bool := negb (int64 n =? 0).

Definition ippoolHasAvailableIPFamily (ippool : IPPoolObject) (subnetProtocol ipFamily : string) : bool :=
  if bool_decide (ipFamily = ProtocolIPv4) then some_left (V4AvailableIPs ippool)
  else if bool_decide (ipFamily = ProtocolIPv6) then some_left (V6AvailableIPs ippool)
  else if bool_decide (subnetProtocol = ProtocolDual)
  then some_left (V4AvailableIPs ippool) && some_left (V6AvailableIPs ippool)
  else if bool_decide (subnetProtocol = ProtocolIPv4) then some_left (V4AvailableIPs ippool)
  else some_left (V6AvailableIPs ippool).

Definition GetNodeInternalIP (node : list (string * string)) : string * string :=
  SplitStringIP (Join (snd <$> filter (fun a => fst a = "InternalIP") node) ",").

(** The loop over the nodes of [validatePodIP]. *)
Fixpoint check_nodes (nodes : list (list (string * string))) (ipv4 ipv6 : string) : bool * bool :=
  match nodes with
  | [] => (true, true)
  | node :: rest =>
      let '(nodeIPv4, nodeIPv6) := GetNodeInternalIP node in
      if nonempty ipv4 && bool_decide (ipv4 = nodeIPv4) then (false, true)
      else if nonempty ipv6 && bool_decide (ipv6 = nodeIPv6) then (true, false)
      else check_nodes rest ipv4 ipv6
  end.

Definition validatePodIP (subnetName ipv4 ipv6 : string) : result (bool * bool) :=
  subnet ← Get (c_subnets c) subnetName;
  if bool_decide (Vlan subnet = "") && bool_decide (Vpc subnet = ClusterRouter c)
  then Ok (check_nodes (c_nodes c) ipv4 ipv6)
  else Ok (true, true).

(** ** MAC annotations *)

Definition has_interface (podNet : kubeovnNet) : bool :=
  nonempty (NadName podNet) && nonempty (NadNamespace podNet) && nonempty (InterfaceName podNet).

(** The MAC of an annotation, which has to parse. *)
Definition mac_annotation (pod : Pod) (key : string) : result (option string) :=
  let macStr := annotation pod key in
  if nonempty macStr then
    match ParseMAC macStr with
    | None => Err (Errorf "address %s: invalid MAC address" [macStr])
    | Some _ => Ok (Some macStr)
    end
  else Ok None.

Definition interface_mac (pod : Pod) (podNet : kubeovnNet) : result (option string) :=
  if has_interface podNet
  then mac_annotation pod (perInterfaceMACAnnotationKey (NadName podNet) (NadNamespace podNet) (InterfaceName podNet))
  else Ok None.

Definition provider_mac (pod : Pod) (podNet : kubeovnNet) : result (option string) :=
  mac_annotation pod (template (ProviderName podNet) "mac_address").

(** [macPointer] of [acquireAddress]. *)
Definition mac_pointer (pod : Pod) (podNet : kubeovnNet) : result (option string) :=
  m ← interface_mac pod podNet;
  match m with
  | Some _ => Ok m
  | None => if isOvnSubnet (net_Subnet podNet) then provider_mac pod podNet else Ok (Some "")
  end.

(** ** Subnets and pools of a namespace *)

(** The loop of [getNsAvailableSubnets] over the names of the annotation. *)
Fixpoint ns_subnets (names : list string) (podNet : kubeovnNet) : result (list kubeovnNet) :=
  match names with
  | [] => Ok []
  | name :: rest =>
      if bool_decide (name = "") || bool_decide (name = Name (net_Subnet podNet)) then ns_subnets rest podNet
      else
        subnet ← Get (c_subnets c) name;
        nets ← ns_subnets rest podNet;
        Ok (mkNet (Provider subnet) subnet false false "" "" "" :: nets)
  end.

(** The nets of the namespace.  The first of them is the pod's own net, by
    pointer: [Some rest] stands for it and the others, [None] for no net. *)
Definition getNsAvailableSubnets (pod : Pod) (podNet : kubeovnNet) : result (option (list kubeovnNet)) :=
  ns ← Get (c_namespaces c) (Pod_Namespace pod);
  match ns with
  | None => Ok None
  | Some annotations =>
      nets ← ns_subnets (Split (default "" (annotations !! LogicalSwitchAnnotation)) ",") podNet;
      Ok (Some nets)
  end.

Definition ns_nets (podNet : kubeovnNet) (rest : option (list kubeovnNet)) : list kubeovnNet :=
  match rest with Some nets => podNet :: nets | None => [] end.

Definition set_net_subnet (subnet : SubnetSpec) (n : kubeovnNet) : kubeovnNet :=
  mkNet (ProviderName n) subnet (IsDefault n) (AllowLiveMigration n) (NadName n) (NadNamespace n) (InterfaceName n).

(** The names of the subnets to search; the subnet of the annotation replaces
    the others, and becomes the subnet of the pod's net. *)
Fixpoint subnet_names (subnetStr : string) (nets : list kubeovnNet) (names : list string)
    : list string * option SubnetSpec :=
  match nets with
  | [] => (names, None)
  | n :: rest =>
      if bool_decide (Name (net_Subnet n) = subnetStr) then ([Name (net_Subnet n)], Some (net_Subnet n))
      else subnet_names subnetStr rest (names ++ [Name (net_Subnet n)])
  end.

(** The loop over the pools of the namespace: the first pool with an address
    left in one of the subnets. *)
Fixpoint choose_pool (pools : list string) (protocol family : string) (nets : list kubeovnNet) (names : list string)
    : result (option (string * SubnetSpec)) :=
  match pools with
  | [] => Ok None
  | poolName :: rest =>
      ippool ← Get (c_ippools c) poolName;
      if negb (ippoolHasAvailableIPFamily ippool protocol family) then choose_pool rest protocol family nets names
      else
        match list_find (fun n => Name (net_Subnet n) = pool_Subnet ippool /\ Name (net_Subnet n) ∈ names) nets with
        | Some (_, n) => Ok (Some (poolName, net_Subnet n))
        | None => choose_pool rest protocol family nets names
        end
  end.

(** The pool and the net to allocate from, when the pod does not name a pool. *)
Definition namespace_pool (pod : Pod) (podNet0 : kubeovnNet) (rest : option (list kubeovnNet))
    (subnetStr family : string) : kubeovnNet * result string :=
  match Get (c_namespaces c) (Pod_Namespace pod) with
  | Err e => (podNet0, Err e)
  | Ok ns =>
      let '(names, own) := subnet_names subnetStr (ns_nets podNet0 rest) [] in
      let podNet := match own with Some s => set_net_subnet s podNet0 | None => podNet0 end in
      if bool_decide (subnetStr = "") || slice_contains names subnetStr then
        match ns ≫= lookup IPPoolAnnotation with
        | None => (podNet, Ok "")
        | Some ipPoolList =>
            match choose_pool (Split ipPoolList ",") (Protocol (net_Subnet podNet)) family (ns_nets podNet rest) names with
            | Err e => (podNet, Err e)
            | Ok None => (podNet, Err ErrNoAvailable)
            | Ok (Some (pool, subnet)) => (set_net_subnet subnet podNet, Ok pool)
            end
        end
      else (podNet, Ok "")
  end.

(** ** Calls of the allocator *)

(** The addresses, or the error, and the subnet returned with them. *)
Definition answer := (SubnetSpec * result Addrs)%type.

Definition run (A : Type) := IPAM -> list bytes -> outcome (IPAM * list bytes * A).

(** The loop that draws an address until no node has it. *)
Fixpoint acquire_random (fuel : nat) (key portName : string) (mac : option string)
    (subnet pool family : string) (skipped : list string) (checkConflict : bool) (validated : string)
    (ipam : IPAM) (rnd : list bytes) : option (outcome (IPAM * list bytes * result Addrs)) :=
  match fuel with
  | O => None
  | S fuel' =>
      match IPAM_GetRandomAddressWithFamily order key portName mac subnet pool family skipped checkConflict ipam rnd with
      | Panic => Some Panic
      | Starved => Some Starved
      | Done (ipam', rnd', Err e) => Some (Done (ipam', rnd', Err e))
      | Done (ipam', rnd', Ok (ipv4, ipv6, m)) =>
          match validatePodIP validated ipv4 ipv6 with
          | Err e => Some (Done (ipam', rnd', Err e))
          | Ok (ipv4OK, ipv6OK) =>
              if ipv4OK && ipv6OK then Some (Done (ipam', rnd', Ok (ipv4, ipv6, m)))
              else
                let skipped' := (if ipv4OK then skipped else skipped ++ [ipv4]) in
                let skipped'' := (if ipv6OK then skipped' else skipped' ++ [ipv6]) in
                acquire_random fuel' key portName mac subnet pool family skipped'' checkConflict validated ipam' rnd'
          end
      end
  end.

Definition acquireStaticAddress (key nicName ip : string) (mac : option string) (subnet : string)
    (liveMigration : bool) (family : string) : run (result Addrs) := fun ipam rnd =>
  match list_find (fun t => isNil (ParseIP t) = true) (Split ip ",") with
  | Some (_, t) => Done (ipam, rnd, Err (Errorf "failed to parse IP %s" [t]))
  | None => IPAM_GetStaticAddressWithFamily order key nicName ip mac subnet family (negb liveMigration) ipam rnd
  end.

(** Try the candidates in order: the first that succeeds, or the last error. *)
Fixpoint try_each {C} (op : C -> run (result Addrs)) (cs : list C) (last : option err) (ipam : IPAM) (rnd : list bytes)
    : outcome (IPAM * list bytes * ((C * Addrs) + option err)) :=
  match cs with
  | [] => Done (ipam, rnd, inr last)
  | x :: cs' =>
      '(ipam', rnd', r) ← op x ipam rnd;
      match r with
      | Ok a => Done (ipam', rnd', inl (x, a))
      | Err e => try_each op cs' (Some e) ipam' rnd'
      end
  end.

(** A static address in one of the nets; without nets there is no error. *)
Definition static_in_nets (key portName ip : string) (mac : option string) (family : string) (podNet : kubeovnNet)
    (nets : list kubeovnNet) : run answer := fun ipam rnd =>
  '(ipam', rnd', r) ← try_each (fun n => acquireStaticAddress key portName ip mac (Name (net_Subnet n))
                                           (AllowLiveMigration n) family) nets None ipam rnd;
  Done (ipam', rnd', match r with
                     | inl (n, a) => (net_Subnet n, Ok a)
                     | inr (Some e) => (net_Subnet podNet, Err e)
                     | inr None => (net_Subnet podNet, Ok ("", "", ""))
                     end).

(** The entries of a pool annotation. *)
Definition pool_entries (ippoolStr : string) : list string :=
  TrimSpace <$>
    (if contains_char ";"%char ippoolStr then Split ippoolStr ";"
     else match Split ippoolStr "," with
          | [a; b] => if bool_decide (CheckProtocol a = CheckProtocol b) then [a; b] else [ippoolStr]
          | l => l
          end).

(** A static address of the list that no other pod has, in one of the nets. *)
Definition listed_address (key portName : string) (mac : option string) (family : string)
    (x : kubeovnNet * string) : run (result Addrs) := fun ipam rnd =>
  let '(n, staticIP) := x in
  let checkIP := if bool_decide (CheckProtocol staticIP = ProtocolDual)
                 then default "" (head (Split staticIP ",")) else staticIP in
  let '(_, assigned) := IsIPAssignedToOtherPod checkIP (Name (net_Subnet n)) key ipam in
  if assigned then Done (ipam, rnd, Err ErrConflict)
  else acquireStaticAddress key portName staticIP mac (Name (net_Subnet n)) (AllowLiveMigration n) family ipam rnd.

(** The answer of the loops over a list of addresses: an error when one failed,
    and [ErrNoAvailable] when there was none to try. *)
Definition listed_answer (subnet : SubnetSpec) {C} (net_of : C -> kubeovnNet) (r : (C * Addrs) + option err) : answer :=
  match r with
  | inl (x, a) => (net_Subnet (net_of x), Ok a)
  | inr (Some e) => (subnet, Err e)
  | inr None => (subnet, Err ErrNoAvailable)
  end.

(** The ordinal of a pod of a stateful set. *)
Definition pod_index (pod : Pod) : Z := Atoi_value (default "" (last (Split (Pod_Name pod) "-"))).

(** Addresses listed in the annotation: any free one, or the one of the pod's
    ordinal for a stateful set. *)
Definition acquire_listed (pod : Pod) (podNet : kubeovnNet) (portName : string) (mac : option string)
    (nets : list kubeovnNet) (isStsPod : bool) (key family : string) (ipPool : list string) : run answer := fun ipam rnd =>
  if negb isStsPod then
    '(ipam', rnd', r) ← try_each (listed_address key portName mac family)
                          (nets ≫= fun n => pair n <$> ipPool) None ipam rnd;
    Done (ipam', rnd', listed_answer (net_Subnet podNet) fst r)
  else if pod_index pod <? len ipPool then
    ip ← at_index ipPool (pod_index pod);
    '(ipam', rnd', r) ← try_each (fun n => acquireStaticAddress key portName ip mac (Name (net_Subnet n))
                                             (AllowLiveMigration n) family) nets None ipam rnd;
    Done (ipam', rnd', listed_answer (net_Subnet podNet) id r)
  else Done (ipam, rnd, (net_Subnet podNet, Err ErrNoAvailable)).

Definition acquireStaticAddressHelper (fuel : nat) (pod : Pod) (podNet : kubeovnNet) (portName : string)
    (mac : option string) (ippoolStr : string) (nets : list kubeovnNet) (isStsPod : bool) (key family : string)
    (ipam : IPAM) (rnd : list bytes) : option (outcome (IPAM * list bytes * answer)) :=
  let own := if has_interface podNet
             then annotation pod (perInterfaceIPAnnotationKey (NadName podNet) (NadNamespace podNet) (InterfaceName podNet))
             else "" in
  let ipStr := annotation pod (template (ProviderName podNet) "ip_address") in
  if nonempty own then Some (static_in_nets key portName own mac family podNet nets ipam rnd)
  else if nonempty ipStr then Some (static_in_nets key portName ipStr mac family podNet nets ipam rnd)
  else if nonempty ippoolStr then
    let ipPool := pool_entries ippoolStr in
    match ipPool with
    | [name] =>
        if negb (contains_char ","%char name) && isNil (ParseIP name) then
          match Get (c_ippools c) name with
          | Err e => Some (Done (ipam, rnd, (net_Subnet podNet, Err e)))
          | Ok pool =>
              o ← acquire_random fuel key portName mac (pool_Subnet pool) name family []
                    (negb (AllowLiveMigration podNet)) (Name (net_Subnet podNet)) ipam rnd;
              Some ('(ipam', rnd', r) ← o; Done (ipam', rnd', (net_Subnet podNet, r)))
          end
        else Some (acquire_listed pod podNet portName mac nets isStsPod key family ipPool ipam rnd)
    | _ => Some (acquire_listed pod podNet portName mac nets isStsPod key family ipPool ipam rnd)
    end
  else Some (Done (ipam, rnd, (net_Subnet podNet, Err ErrNoAvailable))).

(** ** Virtual addresses and MAC-only networks *)

Definition podReuseVip (vipName portName : string) (keepVIP : bool) (ipam : IPAM) : outcome (IPAM * option err) :=
  match c_vips c !! vipName with
  | None => Done (ipam, None)
  | Some vip =>
      let reserved := default "" (vip_Labels vip !! IPReservedLabel) in
      if nonempty reserved then
        if keepVIP && bool_decide (reserved = portName) then Done (ipam, None)
        else Done (ipam, Some (Errorf "vip '%s' is in use by pod %s" [vipName; reserved]))
      else
        match patch_vip c vipName portName with
        | Some e => Done (ipam, Some e)
        | None => ipam' ← ReleaseAddressByPod order vipName (vip_Subnet vip) ipam; Done (ipam', None)
        end
  end.

Definition acquireMacOnlyAddress (pod : Pod) (podNet : kubeovnNet) (key portName : string) : run answer :=
  fun ipam rnd =>
  match (m ← interface_mac pod podNet;
         match m with Some _ => Ok m | None => provider_mac pod podNet end) with
  | Err e => Done (ipam, rnd, (net_Subnet podNet, Err e))
  | Ok mac =>
      '(ipam', rnd', r) ← IPAM_GetRandomAddress order key portName mac (Name (net_Subnet podNet)) "" []
                            (negb (AllowLiveMigration podNet)) ipam rnd;
      Done (ipam', rnd', (net_Subnet podNet, '(_, _, m) ← r; Ok ("", "", m)))
  end.

(** ** The entry point *)

Definition acquireAddress (fuel : nat) (pod : Pod) (podNet0 : kubeovnNet) (ipam : IPAM) (rnd : list bytes)
    : option (outcome (IPAM * list bytes * answer)) :=
  let podName := getNameByPod pod in
  let key := ObjectName (Pod_Namespace pod) podName in
  let portName := PodNameToPortName podName (Pod_Namespace pod) (ProviderName podNet0) in
  let subnet := net_Subnet podNet0 in
  let fail e := Some (Done (ipam, rnd, (subnet, Err e))) in
  if nonempty (Vlan subnet) && bool_decide (CIDRBlock subnet = "")
  then Some (acquireMacOnlyAddress pod podNet0 key portName ipam rnd)
  else
  let family := podNetRequestedIPFamily pod podNet0 in
  match validateRequestedIPFamilyForSubnet family subnet with
  | Some e => fail e
  | None =>
  let isStsPod := isStatefulSetPod pod in
  let vipName := annotation pod VipAnnotation in
  if nonempty vipName then
    match Get (c_vips c) vipName with
    | Err e => fail e
    | Ok vip =>
        let checkVMPod := EnableKeepVMIP c && bool_decide (is_Some (isVMPod pod)) in
        Some ('(ipam', e) ← podReuseVip vipName portName (isStsPod || checkVMPod) ipam;
              Done (ipam', rnd, (subnet, match e with
                                         | Some e => Err e
                                         | None => Ok (vip_V4ip vip, vip_V6ip vip, vip_Mac vip)
                                         end)))
    end
  else
  match mac_pointer pod podNet0 with
  | Err e => fail e
  | Ok mac =>
  let ippool := annotation pod (template (ProviderName podNet0) "ip_pool") in
  let subnetStr := annotation pod (template (ProviderName podNet0) "logical_switch") in
  match (if nonempty subnetStr then Ok (Some []) else getNsAvailableSubnets pod podNet0) with
  | Err e => fail e
  | Ok rest =>
  match (if bool_decide (ippool = "") && IsDefault podNet0
         then namespace_pool pod podNet0 rest subnetStr family else (podNet0, Ok ippool)) with
  | (podNet, Err e) => Some (Done (ipam, rnd, (net_Subnet podNet, Err e)))
  | (podNet, Ok ippoolStr) =>
      let own := if has_interface podNet
                 then annotation pod (perInterfaceIPAnnotationKey (NadName podNet) (NadNamespace podNet) (InterfaceName podNet))
                 else "" in
      if bool_decide (annotation pod (template (ProviderName podNet) "ip_address") = "") &&
         bool_decide (ippoolStr = "") && bool_decide (own = "")
      then
        o ← acquire_random fuel key portName mac (Name (net_Subnet podNet)) "" family []
              (negb (AllowLiveMigration podNet)) (Name (net_Subnet podNet)) ipam rnd;
        Some ('(ipam', rnd', r) ← o; Done (ipam', rnd', (net_Subnet podNet, r)))
      else acquireStaticAddressHelper fuel pod podNet portName mac ippoolStr (ns_nets podNet rest) isStsPod key family ipam rnd
  end end end end.

End Controller.
