(* ===== verification/PodAddressFacts.v ===== *)
(** * Facts about the addresses of pods

    Each round of the drawing loops returns an address that was not skipped,
    so the loops end; and everything the controller does to the allocator is a
    sequence of requests of the transition system. *)
From Stdlib Require Import Ascii.
From S2P Require Import Prelude GoStrings GoNet Ip IpRange IpRangeList IpRangeListFacts UtilNet Hosts Subnet.
From S2P Require Import SubnetInv SubnetAlloc Ipam IpamInv Validator GoText PodAddress.

Local Open Scope Z_scope.

(** ** Skipped addresses *)

(** The texts of the addresses drawn so far. *)
Definition texts (ips : list IP) : list string := IP_String <$> ips.

Lemma canon_isNil ip : canon ip -> isNil ip = false.
Proof. intros [[_ [L|L]] _]; by destruct ip. Qed.

Lemma parse_texts ips : Forall canon ips -> parse_skipped (texts ips) = ips.
Proof.
  unfold parse_skipped, texts. induction 1 as [|ip ips Hc _ IH]; [done|]. cbn [fmap list_fmap mbind list_bind].
  rewrite (NewIP_String _ Hc), (canon_isNil _ Hc). simpl. f_equal. exact IH.
Qed.

Lemma not_in_texts ips ip : Forall canon ips -> canon ip -> slice_contains (texts ips) (IP_String ip) = false ->
  ipv ip ∉ (ipv <$> ips).
Proof.
  intros Hc Hip Hs Hin. apply list_elem_of_fmap in Hin as (a & Ha & Hin). rewrite Forall_forall in Hc.
  assert (ip = a) as -> by (apply canon_inj; auto). unfold slice_contains in Hs. apply bool_decide_eq_false in Hs.
  apply Hs. by apply list_elem_of_fmap_2.
Qed.

(** ** The addresses a subnet can hand out *)

Definition usable (f : family) (s : Subnet) (ip : IP) : Prop :=
  mem (hosts_of (fam f s)) (ipv ip) \/ mem (fReserved (fam f s)) (ipv ip).

Lemma usable_space f s s' ip : same_space (fam f s) (fam f s') -> usable f s' ip <-> usable f s ip.
Proof. intros Hs. unfold usable. rewrite (same_hosts _ _ Hs). destruct Hs as [_ ->]. done. Qed.

(** An address that a request drew: new, usable and recorded for the nic. *)
Record drawn (f : family) (nic : string) (ips : list IP) (s s' : Subnet) (ip : IP) : Prop := {
  dr_canon : canon ip;
  dr_usable : usable f s ip;
  dr_new : ipv ip ∉ (ipv <$> ips);
  dr_nic : fNicToIP (fam f s') !! nic = Some ip
}.

Definition skips_ok (s : Subnet) (ips : list IP) : Prop :=
  Forall (fun ip => canon ip /\ exists f, usable f s ip) ips.

Lemma skips_canon s ips : skips_ok s ips -> Forall canon ips.
Proof. intros Hs. eapply Forall_impl; [exact Hs|]. by intros ip [? _]. Qed.

Lemma skips_clean s ips : inv s -> skips_ok s ips -> clean_skipped (texts ips).
Proof.
  intros H Hs. unfold clean_skipped. rewrite parse_texts by by eapply skips_canon.
  eapply Forall_impl; [exact Hs|]. intros ip [Hc [f Hu]]. split; [done|]. eapply usable_safe; [apply (H f)|done].
Qed.

Section Drawing.

Context (iter : gmap string IPPool -> list (string * IPPool)).
Hypothesis iter_ok : forall m, iter m ≡ₚ map_to_list m.

Lemma get_random_drawn f k pod nic mac ips cc s rnd : inv s -> skips_ok s ips ->
  holds (get_random iter f k pod nic mac (texts ips) cc s rnd) (fun '(s', _, r) =>
    alloc_step f pod nic s s' /\ match r with Ok (ip, _) => drawn f nic ips s s' ip | Err _ => True end).
Proof.
  intros H Hs. pose proof (skips_canon _ _ Hs) as Hc.
  eapply holds_mono; [apply (get_random_spec iter iter_ok); [done|by eapply skips_clean]|].
  intros [[s' rnd'] [[ip m]|e]] [A P]; [|done]. split; [done|]. destruct P as (Hnic & Hip & [[-> Hn]|(s1 & _ & A1 & P)]).
  - constructor; [done| |by apply not_in_texts|done]. by apply (H f) in Hnic as (_ & _ & Hu).
  - destruct P as (T & Hnew & q & Hq & Hm). constructor; [done| |by rewrite parse_texts in Hnew|done].
    rewrite <-(usable_space f s s1 ip) by apply A1. left.
    apply (pi_avail _ _ (li_pool _ _ (proj1 (as_inv _ _ _ _ _ A1 f)) _ _ Hq)) in Hm as [Hm _].
    by apply (li_avail _ _ (proj1 (as_inv _ _ _ _ _ A1 f))) in Hm as [? _].
Qed.

(** The addresses of an answer, by family. *)
Definition address_of (f : family) (r : GetRes) : IP := match f, r with V4, (v4, _, _) => v4 | V6, (_, v6, _) => v6 end.

(** Every address of the answer was drawn. *)
Definition all_drawn (nic : string) (ips : list IP) (s s' : Subnet) (r : result GetRes) : Prop :=
  match r with
  | Ok a => forall f, address_of f a <> [] -> drawn f nic ips s s' (address_of f a)
  | Err _ => True
  end.

Lemma drawn_after f nic ips s s1 s2 ip : drawn f nic ips s s1 ip -> fam f s2 = fam f s1 -> drawn f nic ips s s2 ip.
Proof. intros [? ? ? ?] E. constructor; try done. by rewrite E. Qed.

Lemma drawn_before f nic ips s s1 s2 ip : same_space (fam f s) (fam f s1) -> drawn f nic ips s1 s2 ip -> drawn f nic ips s s2 ip.
Proof. intros Hs [? Hu ? ?]. constructor; try done. by apply (usable_space f s s1). Qed.

Lemma skips_space s s' ips : (forall f, same_space (fam f s) (fam f s')) -> skips_ok s ips -> skips_ok s' ips.
Proof.
  intros Hs Hk. eapply Forall_impl; [exact Hk|]. intros ip [? [f Hu]]. split; [done|]. exists f. by apply (usable_space f s).
Qed.

Lemma dual_drawn k pod nic mac ips cc s rnd : inv s -> skips_ok s ips ->
  holds (getDualRandomAddress iter k pod nic mac (texts ips) cc s rnd) (fun '(s', _, r) => all_drawn nic ips s s' r).
Proof.
  intros H Hs. unfold getDualRandomAddress, getV4RandomAddress, getV6RandomAddress.
  apply holds_bind. eapply holds_mono; [by apply get_random_drawn|]. intros [[s1 rnd1] [[v4 m]|e]] [A1 D1]; [|done].
  pose proof (ns_space _ _ _ _ (alloc_nic_step _ _ _ _ _ A1)) as Hsp.
  apply holds_bind. eapply holds_mono; [apply get_random_drawn; [apply A1|by eapply skips_space]|].
  intros [[s2 rnd2] [[v6 m']|e]] [A2 D2].
  - pose proof (as_other _ _ _ _ _ A2) as Ef. cbn [other] in Ef. pose proof (drawn_after _ _ _ _ _ _ _ D1 Ef) as D1'.
    unfold NicIP. rewrite (go_get_Some _ _ _ _ (dr_nic _ _ _ _ _ _ D1')), IP_Equal_refl. cbn [negb holds all_drawn].
    intros [|] _; [done|]. eapply drawn_before; [apply Hsp|done].
  - unfold releaseV4Addr. destruct (_ || _); [|done].
    destruct (release_fam_inv iter iter_ok V4 pod nic s2 (as_inv _ _ _ _ _ A2)) as (s3 & -> & _). done.
Qed.

Lemma same_view_drawn nic ips s s1 s2 r : same_view s1 s2 -> all_drawn nic ips s s1 r -> all_drawn nic ips s s2 r.
Proof. intros [V _]. destruct r as [a|]; [|done]. intros Hd f Hn. eapply drawn_after; [by apply Hd|apply V]. Qed.

Lemma GetRandomAddressWithFamily_drawn k pod nic mac fam_ ips cc s rnd : inv s -> skips_ok s ips ->
  holds (GetRandomAddressWithFamily iter k pod nic mac fam_ (texts ips) cc s rnd) (fun '(s', _, r) => all_drawn nic ips s s' r).
Proof.
  intros H Hs. unfold GetRandomAddressWithFamily. apply holds_bind.
  eapply (holds_mono _ (fun '(s', _, r) => all_drawn nic ips s s' r)).
  2:{ intros [[s1 rnd1] r] Hd. cbn [holds]. eapply same_view_drawn; [apply same_view_push|done]. }
  assert (Hf : forall f, holds ('(s1, rnd1, r) ← get_random iter f k pod nic mac (texts ips) cc s rnd; Done (s1, rnd1, place f r))
                (fun '(s', _, r) => all_drawn nic ips s s' r)).
  { intros f. apply holds_bind. eapply holds_mono; [by apply get_random_drawn|].
    intros [[s1 rnd1] [[ip m]|e]] [_ D]; [|done]. cbn [holds place all_drawn]. intros g. by destruct f, g. }
  unfold get_random_body, getV4RandomAddress, getV6RandomAddress. destruct (_ && _ && _ && _); [done|].
  destruct (bool_decide (sProtocol s = ProtocolMac)).
  { unfold getMacOnlyAddress. destruct mac as [[|c0 m]|].
    - apply holds_bind. eapply holds_mono; [apply GetRandomMac_view|]. intros [[s1 rnd1] m] _. by intros [|].
    - destruct (GetStaticMac _ _ _ _ _) as [s1 [e|]]; [done|]. by intros [|].
    - apply holds_bind. eapply holds_mono; [apply GetRandomMac_view|]. intros [[s1 rnd1] m] _. by intros [|]. }
  destruct (bool_decide (sProtocol s = ProtocolDual)); [|destruct (bool_decide _); [apply (Hf V4)|apply (Hf V6)]].
  destruct (bool_decide _); [apply (Hf V4)|]. destruct (bool_decide _); [apply (Hf V6)|by apply dual_drawn].
Qed.

End Drawing.

(** ** The number of rounds *)

Definition universe (s : Subnet) : list Z :=
  values (hosts_of (sV4 s)) ++ values (fReserved (sV4 s)) ++ values (hosts_of (sV6 s)) ++ values (fReserved (sV6 s)).

(** How many addresses the subnet can hand out or has reserved. *)
Definition room (s : Subnet) : nat := length (universe s).

Lemma universe_usable s ip f : usable f s ip -> ipv ip ∈ universe s.
Proof.
  unfold usable, universe. rewrite !elem_of_app, !elem_of_values. destruct f; simpl; tauto.
Qed.

Lemma room_space s s' : (forall f, same_space (fam f s) (fam f s')) -> room s' = room s.
Proof.
  intros Hs. pose proof (Hs V4) as H4. pose proof (Hs V6) as H6. unfold room, universe.
  pose proof (same_hosts _ _ H4) as E4. pose proof (same_hosts _ _ H6) as E6. cbn [fam] in *.
  rewrite E4, E6. destruct H4 as [_ ->], H6 as [_ ->]. done.
Qed.

Lemma skips_room s ips : skips_ok s ips -> NoDup (ipv <$> ips) -> (length ips <= room s)%nat.
Proof.
  intros Hs Hn. rewrite <-(length_fmap ipv ips). unfold room. apply submseteq_length, NoDup_submseteq; [done|].
  intros v Hv. apply list_elem_of_fmap in Hv as (ip & -> & Hin). unfold skips_ok in Hs. rewrite Forall_forall in Hs.
  destruct (Hs ip Hin) as [_ [f Hu]]. by eapply universe_usable.
Qed.

(** A drawn address joins the skipped ones and leaves less room. *)
Lemma skips_more f nic ips s s' ip : NoDup (ipv <$> ips) -> skips_ok s ips ->
  (forall f, same_space (fam f s) (fam f s')) -> drawn f nic ips s s' ip ->
  NoDup (ipv <$> ips ++ [ip]) /\ skips_ok s' (ips ++ [ip]) /\
  (room s' = room s /\ length (ips ++ [ip]) = S (length ips))%nat.
Proof.
  intros Hn Hs Hsp [D1 D2 D3 D4]. rewrite fmap_app, length_app, (room_space s s' Hsp). split_and!; [| |done|simpl; lia].
  - apply NoDup_app. split_and!; [done| |apply NoDup_singleton]. intros v Hv1 Hv2.
    apply list_elem_of_singleton in Hv2 as ->. done.
  - apply Forall_app. split; [by eapply skips_space|]. constructor; [|constructor]. split; [done|].
    exists f. by apply (usable_space f s s').
Qed.

(** The size of the room, by the counts of the lists. *)
Lemma room_count s : inv s ->
  Z.of_nat (room s) = IPRangeList_Count (hosts_of (sV4 s)) + IPRangeList_Count (fReserved (sV4 s)) +
                      IPRangeList_Count (hosts_of (sV6 s)) + IPRangeList_Count (fReserved (sV6 s)).
Proof.
  intros H. assert (Hw : forall f, wf (hosts_of (fam f s)) /\ wf (fReserved (fam f s))).
  { intros f. destruct (H f) as [Hl _]. split; [|apply Hl]. pose proof (li_cidr _ _ Hl) as Hc. unfold cidr_ok, hosts_of in *.
    destruct (fCIDR (fam f s)); [by apply hosts_wf|apply wf_nil]. }
  destruct (Hw V4) as [? ?], (Hw V6) as [? ?]. cbn [fam] in *. unfold room, universe.
  rewrite !length_app, !IPRangeList_Count_ok by done. lia.
Qed.

(** ** The nodes of the cluster *)

(** No node has the addresses. *)
Definition off_nodes (nodes : list (list (string * string))) (v4 v6 : string) : Prop :=
  forall node, node ∈ nodes ->
    (v4 <> "" -> v4 <> fst (GetNodeInternalIP node)) /\ (v6 <> "" -> v6 <> snd (GetNodeInternalIP node)).

Lemma check_nodes_spec nodes v4 v6 :
  match check_nodes nodes v4 v6 with
  | (true, true) => off_nodes nodes v4 v6
  | (false, true) => v4 <> ""
  | (true, false) => v6 <> ""
  | (false, false) => False
  end.
Proof.
  induction nodes as [|node nodes IH]; simpl; [by intros node Hn%elem_of_nil|].
  destruct (GetNodeInternalIP node) as [n4 n6] eqn:En.
  destruct (nonempty v4 && bool_decide (v4 = n4)) eqn:E4; [by apply andb_true_iff in E4 as [E4%nonempty_iff _]|].
  destruct (nonempty v6 && bool_decide (v6 = n6)) eqn:E6; [by apply andb_true_iff in E6 as [E6%nonempty_iff _]|].
  destruct (check_nodes nodes v4 v6) as [[|] [|]]; try done.
  intros m Hm. apply elem_of_cons in Hm as [->|Hm]; [|by apply IH]. rewrite En. simpl.
  rewrite andb_false_iff, bool_decide_eq_false in E4, E6. split; intros Hne.
  - destruct E4 as [E4|]; [|done]. apply nonempty_iff in Hne. congruence.
  - destruct E6 as [E6|]; [|done]. apply nonempty_iff in Hne. congruence.
Qed.

Section Loop.

Context (order : forall A, gmap string A -> list (string * A)) `{GoOrder order} (c : Cluster).

(** The subnet is not one whose addresses nodes may have. *)
Definition node_safe (subnetName v4 v6 : string) : Prop :=
  forall x, c_subnets c !! subnetName = Some x -> Vlan x = "" -> Vpc x = ClusterRouter c -> off_nodes (c_nodes c) v4 v6.

Lemma validatePodIP_spec sn v4 v6 :
  match validatePodIP c sn v4 v6 with
  | Ok (true, true) => node_safe sn v4 v6
  | Ok (false, true) => v4 <> ""
  | Ok (true, false) => v6 <> ""
  | Ok (false, false) => False
  | Err _ => True
  end.
Proof.
  unfold validatePodIP, Get, node_safe. destruct (c_subnets c !! sn) as [x|]; [|done]. cbn [mbind result_bind].
  destruct (_ && _) eqn:E.
  - pose proof (check_nodes_spec (c_nodes c) v4 v6) as Hn. destruct (check_nodes _ _ _) as [[|] [|]]; done.
  - intros y [= <-] Hv Hp. rewrite Hv, Hp, !bool_decide_true in E by done. done.
Qed.

(** The addresses of an answer are recorded for the port. *)
Definition recorded (port sn : string) (ipam : IPAM) (v4 v6 : string) : Prop :=
  exists s, ipam !! sn = Some s /\ forall f t, (f, t) ∈ [(V4, v4); (V6, v6)] -> t <> "" ->
    exists ip, fNicToIP (fam f s) !! port = Some ip /\ IP_String ip = t.

Definition serves (ipam ipam' : IPAM) : Prop := rtc (step exclusive) ipam ipam'.

Lemma opt_String_nonempty ip : opt_String ip <> "" -> ip <> [] /\ opt_String ip = IP_String ip.
Proof. unfold opt_String. by destruct ip. Qed.

(** One round of the loop. *)
Lemma random_round key port mac sn pool family_ ips cc ipam rnd : table_inv ipam -> no_comma key ->
  (forall s, ipam !! sn = Some s -> skips_ok s ips) -> (ipam !! sn = None -> ips = []) ->
  holds (IPAM_GetRandomAddressWithFamily order key port mac sn pool family_ (texts ips) cc ipam rnd)
    (fun '(ipam', _, r) => serves ipam ipam' /\ table_inv ipam' /\
      match r with
      | Err _ => True
      | Ok (v4, v6, m) => exists s s' a4 a6, ipam !! sn = Some s /\ ipam' !! sn = Some s' /\
          (forall f, same_space (fam f s) (fam f s')) /\ v4 = opt_String a4 /\ v6 = opt_String a6 /\
          all_drawn port ips s s' (Ok (a4, a6, m))
      end).
Proof.
  intros Hi Hk Hs Hno. set (q := ReqRandom key port mac sn pool family_ (texts ips) cc).
  assert (Hq : clean_request ipam q).
  { split; [done|]. destruct (ipam !! sn) as [s|] eqn:E; [|rewrite Hno by done; constructor].
    eapply skips_clean; [by eapply Hi|by apply Hs]. }
  pose proof (serve_keeps order q ipam rnd Hi Hq) as Hserve. cbn [serve q] in Hserve.
  destruct (IPAM_GetRandomAddressWithFamily _ _ _ _ _ _ _ _ _ ipam rnd) as [[[ipam' rnd'] r]| |] eqn:E; try done.
  destruct Hserve as [Hi' _]. cbn [holds]. split; [|split; [done|]].
  { apply rtc_once. eapply (step_serve _ _ order q rnd ipam' rnd'); try done. cbn [serve q]. by rewrite E. }
  destruct r as [[[v4 v6] m]|e]; [|done]. revert E. unfold IPAM_GetRandomAddressWithFamily.
  destruct (validateRequestedIPFamily _); [done|]. destruct (ipam !! sn) as [s|] eqn:Esn; [|done].
  pose proof (GetRandomAddressWithFamily_drawn (order IPPool) (go_order IPPool) pool key port mac (NormalizeIPFamily family_)
    ips cc s rnd (Hi _ _ Esn) (Hs s eq_refl)) as Hd.
  pose proof (GetRandomAddressWithFamily_step (order IPPool) (go_order IPPool) pool key port mac (NormalizeIPFamily family_)
    (texts ips) cc s rnd (Hi _ _ Esn) (skips_clean _ _ (Hi _ _ Esn) (Hs s eq_refl))) as Hn.
  destruct (GetRandomAddressWithFamily _ _ _ _ _ _ _ _ s rnd) as [[[s' rnd1] [[[a4 a6] m']|e]]| |]; try done.
  cbn [mbind outcome_bind]. intros [= <- <- <- <- <-]. exists s, s', a4, a6. rewrite lookup_insert_eq.
  split_and!; try done. apply Hn.
Qed.

Lemma acquire_random_total key port mac sn pool family_ cc validated fuel : no_comma key -> forall ips ipam rnd,
  table_inv ipam -> NoDup (ipv <$> ips) ->
  match ipam !! sn with
  | Some s => skips_ok s ips /\ (room s < fuel + length ips)%nat
  | None => ips = [] /\ (0 < fuel)%nat
  end ->
  exists o, acquire_random order c fuel key port mac sn pool family_ (texts ips) cc validated ipam rnd = Some o /\
    holds o (fun '(ipam', _, r) => serves ipam ipam' /\ table_inv ipam' /\
      match r with
      | Ok (v4, v6, _) => recorded port sn ipam' v4 v6 /\ node_safe validated v4 v6
      | Err _ => True
      end).
Proof.
  intros Hk. induction fuel as [|fuel IH]; intros ips ipam rnd Hi Hn Hroom.
  { exfalso. destruct (ipam !! sn); [|lia]. destruct Hroom as [Hs Hlt]. pose proof (skips_room _ _ Hs Hn). lia. }
  cbn [acquire_random].
  pose proof (random_round key port mac sn pool family_ ips cc ipam rnd Hi Hk) as Hr.
  destruct (IPAM_GetRandomAddressWithFamily _ _ _ _ _ _ _ _ _ ipam rnd) as [[[ipam' rnd'] r]| |] eqn:E.
  2:{ exfalso. apply Hr; [intros s Es; rewrite Es in Hroom; apply Hroom|intros Es; rewrite Es in Hroom; apply Hroom]. }
  2:{ by eexists. }
  destruct Hr as (Hsv & Hi' & Hr); [intros s Es; rewrite Es in Hroom; apply Hroom|intros Es; rewrite Es in Hroom; apply Hroom|].
  destruct r as [[[v4 v6] m]|e]; [|by eexists].
  destruct Hr as (s & s' & a4 & a6 & Es & Es' & Hsp & -> & -> & Hd). rewrite Es in Hroom. destruct Hroom as [Hs Hlt].
  assert (Hrec : recorded port sn ipam' (opt_String a4) (opt_String a6)).
  { exists s'. split; [done|]. intros f t Hin Hne. rewrite !elem_of_cons, elem_of_nil in Hin.
    destruct Hin as [[= -> ->]|[[= -> ->]|[]]]; apply opt_String_nonempty in Hne as [Hne ->].
    - exists a4. split; [|done]. by apply (Hd V4).
    - exists a6. split; [|done]. by apply (Hd V6). }
  pose proof (validatePodIP_spec validated (opt_String a4) (opt_String a6)) as Hv.
  assert (Hnext : forall ip, NoDup (ipv <$> ips ++ [ip]) -> skips_ok s' (ips ++ [ip]) ->
    (room s' < fuel + length (ips ++ [ip]))%nat -> exists o,
    acquire_random order c fuel key port mac sn pool family_ (texts ips ++ [IP_String ip]) cc validated ipam' rnd' = Some o /\
    holds o (fun '(ipam'', _, r) => serves ipam ipam'' /\ table_inv ipam'' /\
      match r with Ok (v4, v6, _) => recorded port sn ipam'' v4 v6 /\ node_safe validated v4 v6 | Err _ => True end)).
  { intros ip H1 H2 H3. destruct (IH (ips ++ [ip]) ipam' rnd' Hi' H1) as (o & Eo & Ho); [by rewrite Es'|].
    exists o. unfold texts in Eo at 1. rewrite fmap_app in Eo. split; [done|]. eapply holds_mono; [exact Ho|].
    intros [[ipam'' rnd''] r] (S1 & ? & ?). split_and!; [|done|done]. unfold serves. by etrans. }
  destruct (validatePodIP _ _ _ _) as [[[|] [|]]|e]; cbn [andb]; try done.
  - by eexists.
  - apply opt_String_nonempty in Hv as [Hne ->]. destruct (skips_more V6 port ips s s' a6) as (? & ? & ?); [done|done|done|by apply (Hd V6)|]. apply Hnext; [done|done|lia].
  - apply opt_String_nonempty in Hv as [Hne ->]. destruct (skips_more V4 port ips s s' a4) as (? & ? & ?); [done|done|done|by apply (Hd V4)|]. apply Hnext; [done|done|lia].
  - by eexists.
Qed.

(** ** Static addresses *)

(** The call serves requests and keeps the invariant. *)
Definition good {A} (ipam : IPAM) (o : outcome (IPAM * list bytes * A)) : Prop :=
  holds o (fun '(ipam', _, _) => serves ipam ipam' /\ table_inv ipam').

Lemma good_done {A} ipam rnd (a : A) : table_inv ipam -> good ipam (Done (ipam, rnd, a)).
Proof. intros Hi. split; [apply rtc_refl|done]. Qed.

Lemma good_bind {A B} ipam (o : outcome (IPAM * list bytes * A)) (g : IPAM * list bytes * A -> outcome (IPAM * list bytes * B)) :
  good ipam o -> (forall ipam' rnd' a, table_inv ipam' -> good ipam' (g (ipam', rnd', a))) -> good ipam (o ≫= g).
Proof.
  intros Ho Hg. apply holds_bind. eapply holds_mono; [exact Ho|]. intros [[ipam' rnd'] a] [S1 I1].
  eapply holds_mono; [by apply Hg|]. intros [[ipam'' rnd''] b] [S2 I2]. split; [|done]. unfold serves. by etrans.
Qed.

Lemma static_good key nic ip mac sn family_ ipam rnd : table_inv ipam -> no_comma key -> clean_static ip ->
  good ipam (acquireStaticAddress order key nic ip mac sn false family_ ipam rnd).
Proof.
  intros Hi Hk Hc. unfold acquireStaticAddress. destruct (list_find _ _) as [[? t]|]; [by apply good_done|]. cbn [negb].
  set (q := ReqStatic key nic ip mac sn family_ true).
  assert (Hq : clean_request ipam q) by (split_and!; [done|done|by intros s _ [=]]).
  pose proof (serve_keeps order q ipam rnd Hi Hq) as Hserve. cbn [serve q] in Hserve.
  destruct (IPAM_GetStaticAddressWithFamily _ _ _ _ _ _ _ _ ipam rnd) as [[[ipam' rnd'] r]| |] eqn:E; try done.
  destruct Hserve as [Hi' _]. split; [|done]. apply rtc_once.
  eapply (step_serve _ _ order q rnd ipam' rnd'); try done. cbn [serve q]. by rewrite E.
Qed.

Lemma try_each_good {C} (op : C -> run (result Addrs)) cs last ipam rnd : table_inv ipam ->
  (forall x ipam rnd, x ∈ cs -> table_inv ipam -> good ipam (op x ipam rnd)) -> good ipam (try_each op cs last ipam rnd).
Proof.
  revert last ipam rnd. induction cs as [|x cs IH]; intros last ipam rnd Hi Hop; [by apply good_done|].
  cbn [try_each]. apply good_bind; [apply Hop; [by left|done]|]. intros ipam' rnd' [a|e] Hi'; [by apply good_done|].
  apply IH; [done|]. intros y ipam1 rnd1 Hy. apply Hop. by right.
Qed.

Definition still (n : kubeovnNet) : Prop := AllowLiveMigration n = false.

Lemma static_in_nets_good key port ip mac family_ podNet nets ipam rnd : table_inv ipam -> no_comma key ->
  clean_static ip -> Forall still nets -> good ipam (static_in_nets order key port ip mac family_ podNet nets ipam rnd).
Proof.
  intros Hi Hk Hc Hs. unfold static_in_nets. apply good_bind; [|intros; by apply good_done].
  apply try_each_good; [done|]. intros n ipam1 rnd1 Hn Hi1. rewrite Forall_forall in Hs. rewrite (Hs n Hn).
  by apply static_good.
Qed.

Lemma pod_index_nonneg pod : 0 <= pod_index pod.
Proof.
  unfold pod_index. destruct (last (Split (Pod_Name pod) "-")) as [t|] eqn:E; [|done]. simpl.
  assert (Ht : contains_char "-"%char t = false).
  { pose proof (Split_pieces "-"%char (Pod_Name pod)) as Hp. rewrite Forall_forall in Hp. apply Hp.
    apply last_Some in E as [l E]. change (sep1 "-"%char) with "-". rewrite E. apply elem_of_app. right. by left. }
  by apply Atoi_value_nonneg.
Qed.

Lemma acquire_listed_good pod podNet port mac nets sts key family_ ipPool ipam rnd : table_inv ipam -> no_comma key ->
  Forall clean_static ipPool -> Forall still nets ->
  good ipam (acquire_listed order pod podNet port mac nets sts key family_ ipPool ipam rnd).
Proof.
  intros Hi Hk Hc Hs. rewrite Forall_forall in Hc. unfold acquire_listed. destruct sts; cbn [negb].
  - destruct (Z.ltb_spec (pod_index pod) (len ipPool)) as [Hlt|]; [|by apply good_done]. unfold at_index, len in *.
    pose proof (pod_index_nonneg pod) as H0. destruct (Z.ltb_spec (pod_index pod) 0); [lia|].
    destruct (lookup_lt_is_Some_2 ipPool (Z.to_nat (pod_index pod))) as [ip Hip]; [lia|]. rewrite Hip.
    cbn [of_option mbind outcome_bind]. apply good_bind; [|intros; by apply good_done].
    apply try_each_good; [done|]. intros n ipam1 rnd1 Hn Hi1. rewrite Forall_forall in Hs. rewrite (Hs n Hn).
    apply static_good; [done|done|]. apply Hc. by eapply list_elem_of_lookup_2.
  - apply good_bind; [|intros; by apply good_done]. apply try_each_good; [done|]. intros [n ip] ipam1 rnd1 Hn Hi1.
    apply list_elem_of_bind in Hn as (n' & Hn & Hin). apply list_elem_of_fmap in Hn as (ip' & [= -> ->] & Hip).
    rewrite Forall_forall in Hs. unfold listed_address. destruct (IsIPAssignedToOtherPod _ _ _ _) as [? [|]]; [by apply good_done|].
    rewrite (Hs _ Hin). apply static_good; [done|done|by apply Hc].
Qed.

(** ** The whole acquisition *)

(** Texts whose addresses are written in the usual way. *)
Definition clean_text (t : string) : Prop := clean_static t /\ Forall clean_static (pool_entries t).

Definition clean_pod (pod : Pod) : Prop := forall k t, Pod_Annotations pod !! k = Some t -> clean_text t.

Definition clean_pools : Prop := forall name, is_Some (c_ippools c !! name) -> clean_text name.

Lemma annotation_clean pod k : clean_pod pod -> nonempty (annotation pod k) = true -> clean_text (annotation pod k).
Proof.
  intros Hp. unfold annotation. destruct (Pod_Annotations pod !! k) eqn:E; [|done]. simpl. intros _. by eapply Hp.
Qed.

(** The rounds suffice for every subnet. *)
Definition enough (fuel : nat) (ipam : IPAM) : Prop :=
  (0 < fuel)%nat /\ forall sn s, ipam !! sn = Some s -> (room s < fuel)%nat.

Lemma random_good key port mac sn pool family_ cc validated fuel ipam rnd : table_inv ipam -> no_comma key ->
  enough fuel ipam -> exists o, acquire_random order c fuel key port mac sn pool family_ [] cc validated ipam rnd = Some o /\
    good ipam o.
Proof.
  intros Hi Hk [H0 Hf]. destruct (acquire_random_total key port mac sn pool family_ cc validated fuel Hk [] ipam rnd Hi) as (o & E & Ho).
  - constructor.
  - destruct (ipam !! sn) as [s|] eqn:Es; [|done]. split; [constructor|]. simpl. specialize (Hf sn s Es). lia.
  - exists o. split; [done|]. eapply holds_mono; [exact Ho|]. intros [[ipam' rnd'] r] (? & ? & _). done.
Qed.

Lemma helper_total fuel pod podNet port mac ippoolStr nets sts key family_ ipam rnd : table_inv ipam -> no_comma key ->
  enough fuel ipam -> clean_pod pod -> (ippoolStr <> "" -> clean_text ippoolStr) -> Forall still nets ->
  exists o, acquireStaticAddressHelper order c fuel pod podNet port mac ippoolStr nets sts key family_ ipam rnd = Some o /\
    good ipam o.
Proof.
  intros Hi Hk Hf Hp Hpool Hs. unfold acquireStaticAddressHelper. cbv zeta.
  set (own := if has_interface podNet then _ else _).
  destruct (nonempty own) eqn:Eown.
  { eexists. split; [done|]. apply static_in_nets_good; [done|done| |done]. subst own.
    destruct (has_interface podNet); [|done]. by apply annotation_clean. }
  destruct (nonempty (annotation pod _)) eqn:Eip.
  { eexists. split; [done|]. apply static_in_nets_good; [done|done| |done]. by apply annotation_clean. }
  destruct (nonempty ippoolStr) eqn:Epool; [|eexists; split; [done|by apply good_done]].
  apply nonempty_iff in Epool. destruct (Hpool Epool) as [_ Hc].
  assert (Hlist : good ipam (acquire_listed order pod podNet port mac nets sts key family_ (pool_entries ippoolStr) ipam rnd))
    by by apply acquire_listed_good.
  destruct (pool_entries ippoolStr) as [|name [|]]; [by eexists| |by eexists].
  destruct (negb _ && _); [|by eexists]. destruct (Get (c_ippools c) name) as [pool|e]; [|eexists; split; [done|by apply good_done]].
  destruct (random_good key port mac (pool_Subnet pool) name family_ (negb (AllowLiveMigration podNet)) (Name (net_Subnet podNet))
    fuel ipam rnd Hi Hk Hf) as (o & -> & Ho). cbn [mbind option_bind]. eexists. split; [done|].
  apply good_bind; [done|]. intros. by apply good_done.
Qed.

Lemma ns_subnets_still names podNet nets : ns_subnets c names podNet = Ok nets -> Forall still nets.
Proof.
  revert nets. induction names as [|name names IH]; simpl; intros nets; [intros [= <-]; constructor|].
  destruct (_ || _); [apply IH|]. destruct (Get _ _) as [x|]; [|done]. simpl.
  destruct (ns_subnets c names podNet) as [l|]; [|done]. intros [= <-]. constructor; [done|]. by apply IH.
Qed.

Lemma getNs_still pod podNet rest : getNsAvailableSubnets c pod podNet = Ok rest -> forall n, rest = Some n -> Forall still n.
Proof.
  unfold getNsAvailableSubnets. destruct (Get _ _) as [[a|]|]; simpl; [|by intros [= <-]|done].
  destruct (ns_subnets _ _ _) as [l|] eqn:E; [|done]. intros [= <-] n [= <-]. by eapply ns_subnets_still.
Qed.

Lemma choose_pool_known pools protocol family_ nets names pool subnet :
  choose_pool c pools protocol family_ nets names = Ok (Some (pool, subnet)) -> is_Some (c_ippools c !! pool).
Proof.
  induction pools as [|p pools IH]; simpl; [done|]. unfold Get. destruct (c_ippools c !! p) as [x|] eqn:E; [|done]. simpl.
  destruct (negb _); [done|]. destruct (list_find _ _) as [[? n]|]; [|done]. intros [= <- <-]. by rewrite E.
Qed.

Lemma namespace_pool_ok pod podNet rest subnetStr family_ podNet' r :
  clean_pools -> namespace_pool c pod podNet rest subnetStr family_ = (podNet', r) ->
  AllowLiveMigration podNet' = AllowLiveMigration podNet /\
  forall pool, r = Ok pool -> pool <> "" -> clean_text pool.
Proof.
  intros Hc. unfold namespace_pool. destruct (Get _ _) as [ns|e]; [|by intros [= <- <-]].
  destruct (subnet_names _ _ _) as [names own].
  set (p1 := match own with Some s => _ | None => _ end).
  assert (Hp1 : AllowLiveMigration p1 = AllowLiveMigration podNet) by (subst p1; by destruct own).
  destruct (_ || _); [|by intros [= <- <-]; split; [done|intros pool [= <-]]].
  destruct (ns ≫= _); [|by intros [= <- <-]; split; [done|intros pool [= <-]]].
  destruct (choose_pool _ _ _ _ _ _) as [[[pool subnet]|]|e] eqn:E; intros [= <- <-]; try done.
  split; [done|]. intros pool' [= <-] _. apply Hc. by eapply choose_pool_known.
Qed.

Lemma reuse_vip_good vipName portName keep ipam rnd (a : option err -> answer) : table_inv ipam -> no_comma vipName ->
  good ipam ('(ipam', e) ← podReuseVip order c vipName portName keep ipam; Done (ipam', rnd, a e)).
Proof.
  intros Hi Hn. unfold podReuseVip. destruct (c_vips c !! vipName) as [vip|]; [|by apply good_done]. cbv zeta.
  destruct (nonempty _); [destruct (keep && _); by apply good_done|].
  destruct (patch_vip c vipName portName); [by apply good_done|].
  set (q := ReqReleasePod vipName (vip_Subnet vip)). pose proof (serve_keeps order q ipam rnd Hi Hn) as Hserve.
  cbn [serve q] in Hserve. destruct (ReleaseAddressByPod order vipName (vip_Subnet vip) ipam) as [ipam'| |] eqn:E; try done.
  destruct Hserve as [Hi' _]. split; [|done]. apply rtc_once. eapply (step_serve _ _ order q rnd ipam' rnd); try done.
  cbn [serve q]. by rewrite E.
Qed.

Lemma mac_only_good pod podNet key port ipam rnd : table_inv ipam -> no_comma key ->
  good ipam (acquireMacOnlyAddress order pod podNet key port ipam rnd).
Proof.
  intros Hi Hk. unfold acquireMacOnlyAddress. destruct (_ ≫= _) as [mac|e]; [|by apply good_done].
  apply good_bind; [|intros; by apply good_done]. unfold IPAM_GetRandomAddress.
  pose proof (random_round key port mac (Name (net_Subnet podNet)) "" "" [] (negb (AllowLiveMigration podNet)) ipam rnd Hi Hk) as Hr.
  eapply holds_mono; [apply Hr; [intros s _; constructor|done]|]. by intros [[ipam' rnd'] r] (? & ? & _).
Qed.

(** What the pod asks for is well formed. *)
Record clean_ask (pod : Pod) (podNet : kubeovnNet) : Prop := {
  ca_texts : clean_pod pod;
  ca_pools : clean_pools;
  ca_key : no_comma (ObjectName (Pod_Namespace pod) (getNameByPod c pod));
  ca_vip : no_comma (annotation pod VipAnnotation);
  ca_still : AllowLiveMigration podNet = false
}.

Lemma acquire_total fuel pod podNet ipam rnd : table_inv ipam -> enough fuel ipam -> clean_ask pod podNet ->
  exists o, acquireAddress order c fuel pod podNet ipam rnd = Some o /\ good ipam o.
Proof.
  intros Hi Hf [Ht Hpools Hk Hvip Hst]. unfold acquireAddress. cbv zeta.
  assert (Hfail : forall (a : answer), exists o, Some (Done (ipam, rnd, a)) = Some o /\ good ipam o)
    by (intros a; eexists; split; [done|by apply good_done]).
  destruct (nonempty (Vlan _) && _); [eexists; split; [done|by apply mac_only_good]|].
  destruct (validateRequestedIPFamilyForSubnet _ _); [apply Hfail|].
  destruct (nonempty (annotation pod VipAnnotation)).
  { destruct (Get (c_vips c) _) as [vip|e]; [|apply Hfail]. eexists. split; [done|]. by apply reuse_vip_good. }
  destruct (mac_pointer pod podNet) as [mac|e]; [|apply Hfail].
  set (subnetStr := annotation pod (template (ProviderName podNet) "logical_switch")).
  destruct (if nonempty subnetStr then _ else _) as [rest|e] eqn:Er; [|apply Hfail].
  assert (Hrest : forall n, rest = Some n -> Forall still n).
  { destruct (nonempty subnetStr); [injection Er as <-; intros n [= <-]; constructor|by eapply getNs_still]. }
  set (ippool := annotation pod (template (ProviderName podNet) "ip_pool")) in *.
  destruct (if bool_decide (ippool = "") && IsDefault podNet then _ else _) as [podNet' r] eqn:Ep.
  assert (Hok : AllowLiveMigration podNet' = false /\ forall pool, r = Ok pool -> pool <> "" -> clean_text pool).
  { destruct (bool_decide (ippool = "") && IsDefault podNet).
    - rewrite <-Hst. by eapply namespace_pool_ok.
    - injection Ep as <- <-. split; [done|]. intros pool [= <-] Hne. apply annotation_clean; [done|]. by apply nonempty_iff. }
  destruct Hok as [Hst' Hpool]. destruct r as [ippoolStr|e]; [|apply Hfail].
  destruct (_ && _ && _).
  - destruct (random_good (ObjectName (Pod_Namespace pod) (getNameByPod c pod))
      (PodNameToPortName (getNameByPod c pod) (Pod_Namespace pod) (ProviderName podNet)) mac (Name (net_Subnet podNet')) ""
      (podNetRequestedIPFamily pod podNet) (negb (AllowLiveMigration podNet')) (Name (net_Subnet podNet')) fuel ipam rnd Hi Hk Hf)
      as (o & -> & Ho). cbn [mbind option_bind]. eexists. split; [done|]. apply good_bind; [done|]. intros. by apply good_done.
  - apply helper_total; try done; [by apply Hpool|]. destruct rest as [n|]; [|constructor]. constructor; [done|by apply Hrest].
Qed.

End Loop.
