(* ===== verification/PodNetwork.v ===== *)
(** * Admission of pods: [ValidatePodNetwork] of [pkg/util/validator.go]

    The errors are collected in a list; no error is an empty list, which the
    code turns into nil.  The loops over the annotations follow the order of a
    Go map, which is an argument. *)
From Stdlib Require Import Ascii.
From S2P Require Import Prelude GoStrings GoNet UtilNet Validator GoText PodAddress.

Local Open Scope Z_scope.

Definition MacAddressAnnotation : string := "ovn.kubernetes.io/mac_address".
Definition IPAddressAnnotation : string := "ovn.kubernetes.io/ip_address".
Definition IPFamilyAnnotation : string := "ovn.kubernetes.io/ip_family".
Definition CidrAnnotation : string := "ovn.kubernetes.io/cidr".

Abbreviation annotations_map := (gmap string string).

Definition at_key (annotations : annotations_map) (key : string) : string := default "" (annotations !! key).

(** ** Keys of the address families *)

Definition isIPFamilyAnnotationKey (key : string) : bool :=
  bool_decide (key = IPFamilyAnnotation) || HasSuffix key ".kubernetes.io/ip_family".

Definition ipAddressAnnotationKeyForIPFamily (key : string) : string :=
  if bool_decide (key = IPFamilyAnnotation) then IPAddressAnnotation
  else TrimSuffix key "/ip_family" +:+ "/ip_address".

Definition ipAddressAnnotationKeysForIPFamily (key : string) : list string :=
  let keys := [ipAddressAnnotationKeyForIPFamily key] in
  match CutSuffix key ".kubernetes.io/ip_family" with
  | None => keys
  | Some provider =>
      match Split provider "." with
      | a :: b :: o :: x :: rest =>
          if bool_decide (o = OvnProvider)
          then keys ++ [a +:+ "." +:+ b +:+ ".kubernetes.io/ip_address." +:+ List.last rest x]
          else keys
      | _ => keys
      end
  end.

Section Order.

Context (order : annotations_map -> list (string * string)).

Definition ipAddressAnnotationsForIPFamily (annotations : annotations_map) (key : string) : list string :=
  let keys := ipAddressAnnotationKeysForIPFamily key in
  snd <$> filter (fun a => snd a <> "" /\ Exists (fun k => fst a = k \/ has_prefix (k +:+ ".") (fst a) = true) keys)
                 (order annotations).

(** ** The checks *)

(** One annotation of the first loop. *)
Definition family_errors (annotations : annotations_map) (a : string * string) : list err :=
  let '(key, family) := a in
  if negb (isIPFamilyAnnotationKey key) || bool_decide (family = "") then []
  else if negb (bool_decide (family = ToLower ProtocolIPv4)) && negb (bool_decide (family = ToLower ProtocolIPv6))
  then [Errorf "%s is not a valid %s" [family; key]]
  else
    ipAddress ← ipAddressAnnotationsForIPFamily annotations key;
    ip ← Split ipAddress ",";
    if bool_decide (CheckProtocol ip = NormalizeIPFamily family) then []
    else [Errorf "%s does not match %s %s" [ip; key; family]].

(** One address of the annotation. *)
Definition address_errors (cidrStr ip : string) : list err :=
  if (if contains_char "/"%char ip then bool_decide (ParseCIDR ip = None) else isNil (ParseIP ip))
  then [Errorf "%s is not a valid %s" [ip; IPAddressAnnotation]]
  else if nonempty cidrStr then
    match CheckCidrs cidrStr with
    | Some _ => [Errorf "invalid cidr %s" [cidrStr]]
    | None => if CIDRContainIP cidrStr ip then [] else [Errorf "%s not in cidr %s" [ip; cidrStr]]
    end
  else [].

(** The addresses of one group of the pool; the second component tells whether
    one of them is acceptable, at which the loop stops. *)
Fixpoint group_errors (cidrStr : string) (ips : list string) : list err * bool :=
  match ips with
  | [] => ([], false)
  | ip :: rest =>
      let bad := if isNil (ParseIP (TrimSpace ip))
                 then [Errorf "%s in %s is not a valid address" [ip; IPPoolAnnotation]] else [] in
      if bool_decide (cidrStr = "") || CIDRContainIP cidrStr ip then (bad, true)
      else let '(errs, found) := group_errors cidrStr rest in (bad ++ errs, found)
  end.

Definition pool_errors (cidrStr ipPool : string) : list err :=
  if contains_char ";"%char ipPool || contains_char ","%char ipPool || negb (isNil (ParseIP ipPool)) then
    ips ← Split ipPool ";";
    let '(errs, found) := group_errors cidrStr (Split ips ",") in
    errs ++ (if found then [] else [Errorf "%s not in cidr %s" [ips; cidrStr]])
  else [].

Definition bandwidthSuffixes : list string :=
  [".kubernetes.io/ingress_rate"; ".kubernetes.io/egress_rate";
   ".kubernetes.io/ingress_burst"; ".kubernetes.io/egress_burst"].

Definition bandwidth_errors (a : string * string) : list err :=
  let '(k, v) := a in
  if bool_decide (v = "") then []
  else if negb (existsb (HasSuffix k) bandwidthSuffixes) then []
  else match Atoi v with
       | Some n => if n <? 0 then [Errorf "%s is not a valid %s" [v; k]] else []
       | None => [Errorf "%s is not a valid %s" [v; k]]
       end.

Definition ValidatePodNetwork (annotations : annotations_map) : list err :=
  let cidrStr := at_key annotations CidrAnnotation in
  let ipAddress := at_key annotations IPAddressAnnotation in
  let mac := at_key annotations MacAddressAnnotation in
  let ipPool := at_key annotations IPPoolAnnotation in
  (order annotations ≫= family_errors annotations) ++
  (if nonempty ipAddress then Split ipAddress "," ≫= address_errors cidrStr else []) ++
  (if nonempty mac && bool_decide (ParseMAC mac = None)
   then [Errorf "%s is not a valid %s" [mac; MacAddressAnnotation]] else []) ++
  (if nonempty ipPool then pool_errors cidrStr ipPool else []) ++
  (order annotations ≫= bandwidth_errors).

End Order.

(** ** What is accepted *)

Lemma bind_nil_iff {A B} (f : A -> list B) l : l ≫= f = [] <-> forall x, x ∈ l -> f x = [].
Proof.
  induction l as [|a l IH]; simpl; [split; [by intros _ x Hx%elem_of_nil|done]|].
  change (mbind f l) with (l ≫= f) in *. split.
  - intros [Ha Hl]%app_nil. intros x Hx. apply elem_of_cons in Hx as [->|Hx]; [done|]. by apply IH.
  - intros Hx. apply app_nil. split; [apply Hx; by left|]. apply IH. intros x Hin. apply Hx. by right.
Qed.

(** The annotation [k] holds addresses of the family annotation [key]. *)
Definition governs (key k : string) : Prop :=
  exists k0, k0 ∈ ipAddressAnnotationKeysForIPFamily key /\ (k = k0 \/ has_prefix (k0 +:+ ".") k = true).

Definition valid_address (ip : string) : Prop :=
  if contains_char "/"%char ip then ParseCIDR ip <> None else isNil (ParseIP ip) = false.

(** The pool is a list of addresses, not the name of a pool. *)
Definition listed (ipPool : string) : bool :=
  contains_char ";"%char ipPool || contains_char ","%char ipPool || negb (isNil (ParseIP ipPool)).

Definition inside (cidrStr ip : string) : bool := bool_decide (cidrStr = "") || CIDRContainIP cidrStr ip.

(** A group is accepted when an address is inside and it and all before it parse. *)
Definition group_ok (cidrStr : string) (ips : list string) : Prop :=
  exists l ip r, ips = l ++ ip :: r /\ inside cidrStr ip = true /\ Forall (fun x => inside cidrStr x = false) l /\
    Forall (fun x => isNil (ParseIP (TrimSpace x)) = false) (l ++ [ip]).

Record accepted (m : annotations_map) : Prop := {
  acc_family : forall key family, m !! key = Some family -> isIPFamilyAnnotationKey key = true -> family <> "" ->
    (family = "ipv4" \/ family = "ipv6") /\
    forall k addr, m !! k = Some addr -> addr <> "" -> governs key k ->
      Forall (fun ip => CheckProtocol ip = NormalizeIPFamily family) (Split addr ",");
  acc_address : at_key m IPAddressAnnotation <> "" ->
    Forall (fun ip => valid_address ip /\
      (at_key m CidrAnnotation <> "" ->
       CheckCidrs (at_key m CidrAnnotation) = None /\ CIDRContainIP (at_key m CidrAnnotation) ip = true))
      (Split (at_key m IPAddressAnnotation) ",");
  acc_mac : at_key m MacAddressAnnotation <> "" -> ParseMAC (at_key m MacAddressAnnotation) <> None;
  acc_pool : listed (at_key m IPPoolAnnotation) = true ->
    Forall (fun ips => group_ok (at_key m CidrAnnotation) (Split ips ",")) (Split (at_key m IPPoolAnnotation) ";");
  acc_bandwidth : forall k v, m !! k = Some v -> v <> "" -> existsb (HasSuffix k) bandwidthSuffixes = true ->
    exists n, Atoi v = Some n /\ 0 <= n
}.

Lemma group_errors_spec cidr ips errs found : group_errors cidr ips = (errs, found) ->
  errs = [] /\ found = true <-> group_ok cidr ips.
Proof.
  revert errs found. induction ips as [|ip ips IH]; simpl; intros errs found.
  { intros [= <- <-]. split; [by intros [_ [=]]|]. intros (l & ip & r & E & _). by destruct l. }
  fold (inside cidr ip). destruct (inside cidr ip) eqn:Ei.
  - intros [= <- <-]. split.
    + intros [Hb _]. exists [], ip, ips. split_and!; [done|done|constructor|]. constructor; [|constructor].
      by destruct (isNil (ParseIP (TrimSpace ip))).
    + intros (l & x & r & E & Hx & Hl & Hp). destruct l as [|y l].
      * injection E as <- <-. inversion Hp as [|? ? Hip]. by rewrite Hip.
      * injection E as <- ->. inversion Hl. congruence.
  - destruct (group_errors cidr ips) as [errs' found'] eqn:E'. intros [= <- <-].
    specialize (IH _ _ eq_refl). split.
    + intros [Hb ->]. apply app_nil in Hb as [Hb He]. destruct IH as [IH _].
      destruct IH as (l & x & r & -> & Hx & Hl & Hp); [done|]. exists (ip :: l), x, r.
      split_and!; [done|done|by constructor|]. constructor; [|done]. by destruct (isNil (ParseIP (TrimSpace ip))).
    + intros (l & x & r & E & Hx & Hl & Hp). destruct l as [|y l]; [injection E as <- <-; congruence|].
      injection E as <- ->. inversion Hl as [|? ? _ Hl']. inversion Hp as [|? ? Hy Hp']. subst.
      destruct IH as [_ IH]. destruct IH as [-> ->]; [by exists l, x, r|]. by rewrite Hy.
Qed.

Lemma address_errors_nil cidr ip : address_errors cidr ip = [] <->
  valid_address ip /\ (cidr <> "" -> CheckCidrs cidr = None /\ CIDRContainIP cidr ip = true).
Proof.
  unfold address_errors, valid_address, nonempty.
  destruct (contains_char "/"%char ip); [destruct (ParseCIDR ip); cbn [bool_decide]|destruct (isNil (ParseIP ip))].
  all: rewrite ?bool_decide_true, ?bool_decide_false by done.
  all: try (split; [done|]; intros [? _]; congruence).
  all: destruct (decide (cidr = "")) as [->|Hne]; [by rewrite bool_decide_true|rewrite bool_decide_false by done]; cbn [negb].
  all: destruct (CheckCidrs cidr); [split; [done|]; intros [_ Hin]; by destruct (Hin Hne)|].
  all: destruct (CIDRContainIP cidr ip); [done|]; split; [done|]; intros [_ Hin]; by destruct (Hin Hne).
Qed.

Lemma pool_errors_nil cidr pool : pool_errors cidr pool = [] <->
  (listed pool = true -> Forall (fun ips => group_ok cidr (Split ips ",")) (Split pool ";")).
Proof.
  unfold pool_errors. fold (listed pool). destruct (listed pool); [|done].
  rewrite bind_nil_iff, Forall_forall. split.
  - intros H _ ips Hin. specialize (H ips Hin). destruct (group_errors cidr (Split ips ",")) as [errs found] eqn:E.
    apply app_nil in H as [He Hf]. apply (group_errors_spec _ _ _ _ E). split; [done|]. by destruct found.
  - intros H ips Hin. specialize (H eq_refl ips Hin). destruct (group_errors cidr (Split ips ",")) as [errs found] eqn:E.
    apply (group_errors_spec _ _ _ _ E) in H as [-> ->]. done.
Qed.

Lemma bandwidth_errors_nil k v : bandwidth_errors (k, v) = [] <->
  (v <> "" -> existsb (HasSuffix k) bandwidthSuffixes = true -> exists n, Atoi v = Some n /\ 0 <= n).
Proof.
  unfold bandwidth_errors. destruct (decide (v = "")) as [->|Hv]; [by rewrite bool_decide_true|].
  rewrite bool_decide_false by done. destruct (existsb _ _); cbn [negb]; [|done].
  destruct (Atoi v) as [n|]; [|split; [done|intros H; by destruct (H Hv eq_refl) as (? & ? & _)]].
  destruct (Z.ltb_spec n 0) as [Hlt|]; [split; [done|]; intros Hn; destruct (Hn Hv eq_refl) as (? & [= <-] & ?); lia|].
  split; [|done]. intros _ _ _. by exists n.
Qed.

Section Accepted.

Context (order : annotations_map -> list (string * string)).
Hypothesis order_ok : forall m, order m ≡ₚ map_to_list m.

Lemma elem_of_ordered m k v : (k, v) ∈ order m <-> m !! k = Some v.
Proof. by rewrite order_ok, elem_of_map_to_list. Qed.

Lemma governed m key addr : addr ∈ ipAddressAnnotationsForIPFamily order m key <->
  addr <> "" /\ exists k, m !! k = Some addr /\ governs key k.
Proof.
  unfold ipAddressAnnotationsForIPFamily, governs. rewrite list_elem_of_fmap. split.
  - intros ([k v] & -> & Hin). apply list_elem_of_filter in Hin as [[Hne He] Hin]. apply elem_of_ordered in Hin.
    apply Exists_exists in He as (k0 & Hk0 & ?). split; [done|]. exists k. split; [done|]. by exists k0.
  - intros (Hne & k & Hk & k0 & Hk0 & ?). exists (k, addr). split; [done|]. apply list_elem_of_filter.
    split; [|by apply elem_of_ordered]. split; [done|]. apply Exists_exists. by exists k0.
Qed.

Lemma family_errors_nil m key family : family_errors order m (key, family) = [] <->
  (isIPFamilyAnnotationKey key = true -> family <> "" -> (family = "ipv4" \/ family = "ipv6") /\
   forall k addr, m !! k = Some addr -> addr <> "" -> governs key k ->
     Forall (fun ip => CheckProtocol ip = NormalizeIPFamily family) (Split addr ",")).
Proof.
  unfold family_errors. destruct (isIPFamilyAnnotationKey key); cbn [negb orb]; [|done].
  destruct (decide (family = "")) as [->|Hf]; [by rewrite bool_decide_true|]. rewrite (bool_decide_false (family = "")) by done.
  change (ToLower ProtocolIPv4) with "ipv4". change (ToLower ProtocolIPv6) with "ipv6".
  destruct (negb (bool_decide (family = "ipv4")) && negb (bool_decide (family = "ipv6"))) eqn:E.
  { split; [done|]. intros H. apply andb_true_iff in E as [E4 E6]. rewrite negb_true_iff, bool_decide_eq_false in E4, E6.
    destruct (H eq_refl Hf) as [[|] _]; done. }
  assert (Hfam : family = "ipv4" \/ family = "ipv6").
  { rewrite andb_false_iff, !negb_false_iff, !bool_decide_eq_true in E. done. }
  rewrite bind_nil_iff. split.
  - intros H _ _. split; [done|]. intros k addr Hk Hne Hg. specialize (H addr). rewrite bind_nil_iff, governed in H.
    apply Forall_forall. intros ip Hip. specialize (H (conj Hne (ex_intro _ k (conj Hk Hg))) ip Hip).
    by case_bool_decide.
  - intros H addr (Hne & k & Hk & Hg)%governed. rewrite bind_nil_iff. intros ip Hip.
    destruct (H eq_refl Hf) as [_ H']. specialize (H' k addr Hk Hne Hg). rewrite Forall_forall in H'.
    by rewrite bool_decide_true by by apply H'.
Qed.

(** The checks accept exactly these annotations, whatever the order of the map. *)
Lemma ValidatePodNetwork_nil m : ValidatePodNetwork order m = [] <-> accepted m.
Proof.
  unfold ValidatePodNetwork. cbv zeta. rewrite !app_nil, !bind_nil_iff. split.
  - intros (Hfam & Hip & Hmac & Hpool & Hbw). constructor.
    + intros key family Hk. apply elem_of_ordered in Hk. exact (proj1 (family_errors_nil m key family) (Hfam _ Hk)).
    + intros Hne%nonempty_iff. rewrite Hne, bind_nil_iff in Hip. apply Forall_forall. intros ip Hin. by apply address_errors_nil, Hip.
    + intros Hne%nonempty_iff Hp. rewrite Hne, Hp in Hmac. done.
    + intros Hl. destruct (nonempty (at_key m IPPoolAnnotation)) eqn:E; [by apply (proj1 (pool_errors_nil _ _) Hpool)|].
      unfold nonempty in E. apply negb_false_iff, bool_decide_eq_true in E. by rewrite E in Hl.
    + intros k v Hk. apply elem_of_ordered in Hk. exact (proj1 (bandwidth_errors_nil k v) (Hbw _ Hk)).
  - intros [Hfam Hip Hmac Hpool Hbw]. split_and!.
    + intros [key family] Hk%elem_of_ordered. apply family_errors_nil. by apply Hfam.
    + destruct (nonempty _) eqn:E; [|done]. apply nonempty_iff in E. rewrite bind_nil_iff. intros ip Hin.
      specialize (Hip E). rewrite Forall_forall in Hip. by apply address_errors_nil, Hip.
    + destruct (nonempty _) eqn:E; [|done]. apply nonempty_iff in E. cbn [andb]. by rewrite bool_decide_false by by apply Hmac.
    + destruct (nonempty _) eqn:E; [|done]. by apply pool_errors_nil.
    + intros [k v] Hk%elem_of_ordered. apply bandwidth_errors_nil. by apply Hbw.
Qed.

End Accepted.
