(* ===== verification/AclMatch.v ===== *)
(** * Matches of access control lists ([pkg/ovs/util.go])

    A match is built as a tree and handed to OVN as text.  This file has the
    trees and their printer, and a reading of the texts by the documented
    grammar of OVN expressions (conjunctions and disjunctions do not mix without
    parentheses), with the proof that the text of a well-grouped tree is read
    back with the meaning of the tree. *)
From Stdlib Require Import Ascii.
From S2P Require Import Prelude GoStrings.

(** ** Trees and their text *)

#[warnings="-register-all"]
Inductive ACLMatch :=
  | AndACLMatch (matches : list ACLMatch)
  | OrACLMatch (matches : list ACLMatch)
  | aclMatch (key effect value maxValue : string)
  | groupACLMatch (m : ACLMatch).

Definition NewAndACLMatch (matches : list ACLMatch) : ACLMatch := AndACLMatch matches.
Definition NewOrACLMatch (matches : list ACLMatch) : ACLMatch := OrACLMatch matches.
Definition NewACLMatch (key effect value maxValue : string) : ACLMatch := aclMatch key effect value maxValue.
Definition NewGroupACLMatch (m : ACLMatch) : ACLMatch := groupACLMatch m.

(** [aclMatch.Match]. *)
Definition atom_Match (key effect value maxValue : string) : result string :=
  if bool_decide (key = "") then Err (Errorf "acl rule key is required" [])
  else if bool_decide (effect = "") || bool_decide (value = "") then Ok key
  else if bool_decide (maxValue = "") then Ok (key +:+ " " +:+ effect +:+ " " +:+ value)
  else Ok (value +:+ " " +:+ effect +:+ " " +:+ key +:+ " " +:+ effect +:+ " " +:+ maxValue).

(** The parentheses of [OrACLMatch.Match]. *)
Definition parens (t : string) : string := "(" +:+ t +:+ ")".
Definition or_operand (t : string) : string :=
  if str_contains t "&&" || str_contains t "||" then parens t else t.

(** A part that fails is reported with its (empty) text. *)
Definition in_part (r : result string) : result string :=
  match r with Ok t => Ok t | Err _ => Err (Errorf "generate match %s: %w" [""]) end.

Fixpoint Match (m : ACLMatch) : result string :=
  let fix texts (ms : list ACLMatch) : result (list string) :=
    match ms with
    | [] => Ok []
    | r :: ms' => t ← in_part (Match r); ts ← texts ms'; Ok (t :: ts)
    end in
  match m with
  | AndACLMatch ms => ts ← texts ms; Ok (Join ts " && ")
  | OrACLMatch ms => ts ← texts ms; Ok (Join (or_operand <$> ts) " || ")
  | aclMatch key effect value maxValue => atom_Match key effect value maxValue
  | groupACLMatch m' => t ← Match m'; Ok (parens t)
  end.

(** [String], which drops the error. *)
Definition ACLMatch_String (m : ACLMatch) : string := match Match m with Ok t => t | Err _ => "" end.

(** ** Meaning of trees *)

Section Meaning.

Context (atom : string -> string -> string -> string -> Prop).

Fixpoint denote (m : ACLMatch) : Prop :=
  match m with
  | AndACLMatch ms => (fix all ms := match ms with [] => True | r :: ms' => denote r /\ all ms' end) ms
  | OrACLMatch ms => (fix some ms := match ms with [] => False | r :: ms' => denote r \/ some ms' end) ms
  | aclMatch key effect value maxValue => atom key effect value maxValue
  | groupACLMatch m' => denote m'
  end.

Lemma denote_And ms : denote (AndACLMatch ms) <-> Forall denote ms.
Proof. induction ms as [|r ms IH]; [by split|]. rewrite Forall_cons, <-IH. done. Qed.

Lemma denote_Or ms : denote (OrACLMatch ms) <-> Exists denote ms.
Proof. induction ms as [|r ms IH]; [rewrite Exists_nil; done|]. rewrite Exists_cons, <-IH. done. Qed.

End Meaning.

(** ** Reading the text *)

Inductive token := LP | RP | AND | OR | ATOM (text : string).

#[global] Instance token_eq_dec : EqDecision token.
Proof. solve_decision. Defined.

Definition flush (acc : string) : list token :=
  let t := TrimSpace acc in if bool_decide (t = "") then [] else [ATOM t].

Fixpoint scan (acc s : string) : list token :=
  match s with
  | EmptyString => flush acc
  | String c s' =>
      if bool_decide (c = "("%char) then flush acc ++ LP :: scan "" s'
      else if bool_decide (c = ")"%char) then flush acc ++ RP :: scan "" s'
      else
        match s' with
        | String d s'' =>
            if bool_decide (c = "&"%char /\ d = "&"%char) then flush acc ++ AND :: scan "" s''
            else if bool_decide (c = "|"%char /\ d = "|"%char) then flush acc ++ OR :: scan "" s''
            else scan (acc +:+ String c "") s'
        | EmptyString => scan (acc +:+ String c "") s'
        end
  end.

Definition tokenize (s : string) : list token := scan "" s.

#[warnings="-register-all"]
Inductive expr := EAtom (text : string) | EAnd (es : list expr) | EOr (es : list expr).

(** A term is an atom or a parenthesised expression; an expression is a term or
    a sequence of terms with one operator. *)
Fixpoint parse_term (n : nat) (ts : list token) : option (expr * list token) :=
  match n with
  | O => None
  | S n' =>
      match ts with
      | ATOM a :: r => Some (EAtom a, r)
      | LP :: r => match parse_seq n' r with Some (e, RP :: r') => Some (e, r') | _ => None end
      | _ => None
      end
  end
with parse_seq (n : nat) (ts : list token) : option (expr * list token) :=
  match n with
  | O => None
  | S n' =>
      match parse_term n' ts with
      | Some (e, AND :: r) => '(es, r') ← parse_more n' AND r; Some (EAnd (e :: es), r')
      | Some (e, OR :: r) => '(es, r') ← parse_more n' OR r; Some (EOr (e :: es), r')
      | x => x
      end
  end
with parse_more (n : nat) (op : token) (ts : list token) : option (list expr * list token) :=
  match n with
  | O => None
  | S n' =>
      match parse_term n' ts with
      | Some (e, t :: r) =>
          if bool_decide (t = op) then '(es, r') ← parse_more n' op r; Some (e :: es, r') else Some ([e], t :: r)
      | Some (e, []) => Some ([e], [])
      | None => None
      end
  end.

(** The whole text has to be read. *)
Definition parse (s : string) : option expr :=
  let ts := tokenize s in
  match parse_seq (S (length ts)) ts with Some (e, []) => Some e | _ => None end.

Fixpoint reads (truth : string -> Prop) (e : expr) : Prop :=
  match e with
  | EAtom a => truth a
  | EAnd es => (fix all es := match es with [] => True | e :: es' => reads truth e /\ all es' end) es
  | EOr es => (fix some es := match es with [] => False | e :: es' => reads truth e \/ some es' end) es
  end.

Lemma reads_And truth es : reads truth (EAnd es) <-> Forall (reads truth) es.
Proof. induction es as [|r es IH]; [by split|]. rewrite Forall_cons, <-IH. done. Qed.

Lemma reads_Or truth es : reads truth (EOr es) <-> Exists (reads truth) es.
Proof. induction es as [|r es IH]; [rewrite Exists_nil; done|]. rewrite Exists_cons, <-IH. done. Qed.

(** ** Tokens of a text *)

Lemma string_strong_ind (P : string -> Prop) :
  (forall s, (forall s', (String.length s' < String.length s)%nat -> P s') -> P s) -> forall s, P s.
Proof.
  intros IH s. remember (String.length s) as n eqn:En. revert s En.
  induction n as [n IHn] using lt_wf_ind. intros s ->. apply IH. intros s' Hs'. by eapply IHn.
Qed.

Lemma trim_right_space s : trim_right (s +:+ " ") = trim_right s.
Proof. induction s as [|c s IH]; [done|]. rewrite app_str_cons. cbn [trim_right]. by rewrite IH. Qed.

Lemma TrimSpace_after s : TrimSpace (s +:+ " ") = TrimSpace s.
Proof.
  unfold TrimSpace. induction s as [|c s IH]; [done|]. rewrite app_str_cons. cbn [trim_left].
  destruct (is_space c); [done|]. rewrite <-(trim_right_space (String c s)). by rewrite app_str_cons.
Qed.

Lemma flush_after acc : flush (acc +:+ " ") = flush acc.
Proof. unfold flush. by rewrite TrimSpace_after. Qed.

Lemma flush_before acc : flush (String " " acc) = flush acc.
Proof. done. Qed.

Lemma scan_before s : forall acc, scan (String " " acc) s = scan acc s.
Proof.
  induction s as [s IH] using string_strong_ind. intros acc. destruct s as [|c s]; [done|]. cbn [scan].
  rewrite flush_before, app_str_cons. destruct (bool_decide (c = "("%char)); [done|]. destruct (bool_decide (c = ")"%char)); [done|].
  destruct s as [|d s]; [by apply IH; simpl; lia|].
  destruct (bool_decide _); [done|]. destruct (bool_decide _); [done|]. apply IH. simpl. lia.
Qed.

(** The tokens before the last atom, and the text of that atom. *)
Fixpoint scan_open (acc s : string) : list token * string :=
  match s with
  | EmptyString => ([], acc)
  | String c s' =>
      if bool_decide (c = "("%char) then let '(ts, a) := scan_open "" s' in (flush acc ++ LP :: ts, a)
      else if bool_decide (c = ")"%char) then let '(ts, a) := scan_open "" s' in (flush acc ++ RP :: ts, a)
      else
        match s' with
        | String d s'' =>
            if bool_decide (c = "&"%char /\ d = "&"%char) then let '(ts, a) := scan_open "" s'' in (flush acc ++ AND :: ts, a)
            else if bool_decide (c = "|"%char /\ d = "|"%char) then let '(ts, a) := scan_open "" s'' in (flush acc ++ OR :: ts, a)
            else scan_open (acc +:+ String c "") s'
        | EmptyString => scan_open (acc +:+ String c "") s'
        end
  end.

(** A character that is no half of an operator. *)
Definition closed (u : string) : Prop := match u with String c _ => c <> "&"%char /\ c <> "|"%char | EmptyString => True end.

Lemma scan_app t u : closed u -> forall acc,
  scan acc (t +:+ u) = (scan_open acc t).1 ++ scan (scan_open acc t).2 u.
Proof.
  intros Hu. induction t as [t IH] using string_strong_ind. intros acc. destruct t as [|c t]; [done|].
  rewrite app_str_cons. cbn [scan scan_open].
  destruct (bool_decide (c = "("%char)).
  { rewrite IH by (simpl; lia). destruct (scan_open "" t). simpl. by rewrite <-app_assoc. }
  destruct (bool_decide (c = ")"%char)).
  { rewrite IH by (simpl; lia). destruct (scan_open "" t). simpl. by rewrite <-app_assoc. }
  destruct t as [|d t].
  - rewrite app_str_nil_l. destruct u as [|d u]; [done|]. destruct Hu as [H1 H2]. cbn [scan_open fst snd app].
    rewrite (bool_decide_false (c = "&"%char /\ d = "&"%char)) by (intros [_ ?]; done).
    rewrite (bool_decide_false (c = "|"%char /\ d = "|"%char)) by (intros [_ ?]; done). done.
  - rewrite app_str_cons. destruct (bool_decide _).
    { rewrite IH by (simpl; lia). destruct (scan_open "" t). simpl. by rewrite <-app_assoc. }
    destruct (bool_decide _).
    { rewrite IH by (simpl; lia). destruct (scan_open "" t). simpl. by rewrite <-app_assoc. }
    rewrite <-app_str_cons. apply IH. simpl. lia.
Qed.

Lemma scan_open_flush acc t : scan acc t = (scan_open acc t).1 ++ flush (scan_open acc t).2.
Proof. rewrite <-(app_str_nil_r t) at 1. by rewrite scan_app. Qed.

Lemma scan_space acc u : scan acc (String " " u) = scan (acc +:+ " ") u.
Proof.
  destruct u as [|d u]; [done|]. cbn [scan].
  rewrite (bool_decide_false (" "%char = "&"%char /\ d = "&"%char)) by (by intros [? _]).
  rewrite (bool_decide_false (" "%char = "|"%char /\ d = "|"%char)) by (by intros [? _]). done.
Qed.

(** An operator between spaces separates the tokens. *)
Lemma tokenize_op op c t u : (op = AND /\ c = "&"%char) \/ (op = OR /\ c = "|"%char) ->
  tokenize (t +:+ String " " (String c (String c (String " " u)))) = tokenize t ++ op :: tokenize u.
Proof.
  intros Hop. unfold tokenize. rewrite scan_app by done. rewrite (scan_open_flush "" t), <-app_assoc. f_equal.
  rewrite scan_space.
  assert (Hc : forall acc v, scan acc (String c (String c v)) = flush acc ++ op :: scan "" v)
    by (intros acc v; destruct Hop as [[-> ->]|[-> ->]]; done).
  rewrite Hc, flush_after, scan_space. f_equal. f_equal. apply (scan_before u "").
Qed.

Lemma tokenize_and t u : tokenize (t +:+ " && " +:+ u) = tokenize t ++ AND :: tokenize u.
Proof. apply (tokenize_op AND "&"%char). by left. Qed.

Lemma tokenize_or t u : tokenize (t +:+ " || " +:+ u) = tokenize t ++ OR :: tokenize u.
Proof. apply (tokenize_op OR "|"%char). by right. Qed.

Lemma tokenize_parens t : tokenize (parens t) = LP :: tokenize t ++ [RP].
Proof.
  unfold parens, tokenize. change ("(" +:+ t +:+ ")") with (String "(" (t +:+ ")")).
  change (scan "" (String "(" (t +:+ ")"))) with (LP :: scan "" (t +:+ ")")). f_equal.
  rewrite scan_app by done. by rewrite (scan_open_flush "" t), <-app_assoc.
Qed.

(** A text contains an operator exactly when it has the token. *)
Lemma scan_contains op c s : (op = AND /\ c = "&"%char) \/ (op = OR /\ c = "|"%char) -> forall acc,
  op ∈ scan acc s <-> str_contains s (String c (String c "")) = true.
Proof.
  intros Hop. assert (Hf : forall acc, op ∉ flush acc).
  { intros acc Hin. unfold flush in Hin. destruct (bool_decide _); [by apply elem_of_nil in Hin|].
    apply list_elem_of_singleton in Hin. by destruct Hop as [[-> _]|[-> _]]. }
  assert (Hs : forall acc t l, t <> op -> op ∈ flush acc ++ t :: l <-> op ∈ l).
  { intros acc t l Ht. rewrite elem_of_app, elem_of_cons. specialize (Hf acc).
    split; [intros [?|[?|?]]; congruence || done|auto]. }
  induction s as [s IH] using string_strong_ind. intros acc. destruct s as [|a s].
  { split; [intros Hin; by destruct (Hf acc)|done]. }
  cbn [scan str_contains has_prefix].
  destruct (bool_decide (a = "("%char)) eqn:E1.
  { apply bool_decide_eq_true in E1 as ->. rewrite Hs by (destruct Hop as [[-> _]|[-> _]]; done).
    rewrite IH by (simpl; lia). by destruct Hop as [[_ ->]|[_ ->]]. }
  destruct (bool_decide (a = ")"%char)) eqn:E2.
  { apply bool_decide_eq_true in E2 as ->. rewrite Hs by (destruct Hop as [[-> _]|[-> _]]; done).
    rewrite IH by (simpl; lia). by destruct Hop as [[_ ->]|[_ ->]]. }
  destruct s as [|d s].
  { rewrite andb_false_r. apply IH. simpl. lia. }
  destruct (decide (a = c /\ d = c)) as [[-> ->]|Hne].
  - rewrite !(bool_decide_true (c = c)) by done. cbn [andb orb]. split; [done|]. intros _.
    assert (Hin : op ∈ flush acc ++ op :: scan "" s) by (apply elem_of_app; right; by left).
    destruct Hop as [[-> ->]|[-> ->]].
    + rewrite bool_decide_true by done. done.
    + rewrite bool_decide_false by (by intros [? _]). rewrite bool_decide_true by done. done.
  - assert (Hp : bool_decide (c = a) && (bool_decide (c = d) && true) = false).
    { destruct (bool_decide (c = a)) eqn:Ea; [|done]. destruct (bool_decide (c = d)) eqn:Ed; [|done].
      apply bool_decide_eq_true in Ea, Ed. subst. by destruct Hne. }
    rewrite Hp. cbn [orb].
    destruct (bool_decide (a = "&"%char /\ d = "&"%char)) eqn:Ea.
    { apply bool_decide_eq_true in Ea as [-> ->]. destruct Hop as [[-> ->]|[-> ->]]; [by destruct Hne|].
      rewrite Hs by done. rewrite IH by (simpl; lia). done. }
    destruct (bool_decide (a = "|"%char /\ d = "|"%char)) eqn:Eo.
    { apply bool_decide_eq_true in Eo as [-> ->]. destruct Hop as [[-> ->]|[-> ->]]; [|by destruct Hne].
      rewrite Hs by done. rewrite IH by (simpl; lia). done. }
    apply IH. simpl. lia.
Qed.

(** ** Texts of atoms *)

Definition atom_text (key effect value maxValue : string) : string :=
  match atom_Match key effect value maxValue with Ok t => t | Err _ => "" end.

Definition no_special (t : string) : bool :=
  negb (contains_char "("%char t || contains_char ")"%char t || contains_char "&"%char t || contains_char "|"%char t).

(** A text that is read as one atom. *)
Definition plain (t : string) : bool := negb (bool_decide (t = "")) && bool_decide (TrimSpace t = t) && no_special t.

Lemma scan_no_special t : no_special t = true -> forall acc, scan acc t = flush (acc +:+ t).
Proof.
  induction t as [|c t IH]; intros Ht acc; [by rewrite app_str_nil_r|].
  unfold no_special in Ht. cbn [contains_char] in Ht. rewrite negb_true_iff, !orb_false_iff, !bool_decide_eq_false in Ht.
  destruct Ht as [[[[H1 ?] [H2 ?]] [H3 ?]] [H4 ?]].
  assert (Ht : no_special t = true) by (unfold no_special; rewrite negb_true_iff, !orb_false_iff; done).
  assert (E : scan acc (String c t) = scan (acc +:+ String c "") t).
  { destruct t as [|d t]; cbn [scan]; rewrite !bool_decide_false by (done || by intros [? _]); done. }
  rewrite E, IH by done. by rewrite app_str_assoc.
Qed.

Lemma tokenize_plain t : plain t = true -> tokenize t = [ATOM t].
Proof.
  unfold plain, tokenize. rewrite !andb_true_iff, negb_true_iff, bool_decide_eq_false, bool_decide_eq_true.
  intros [[Hne Ht] Hs]. rewrite scan_no_special by done. rewrite app_str_nil_l. unfold flush. rewrite Ht.
  by rewrite bool_decide_false.
Qed.

(** ** Well-grouped trees *)

Definition is_or (m : ACLMatch) : bool := match m with OrACLMatch _ => true | _ => false end.

(** Atoms are plain, no sequence is empty, and a disjunction inside a
    conjunction is grouped. *)
Fixpoint grouped (m : ACLMatch) : bool :=
  match m with
  | AndACLMatch ms => negb (length ms =? 0)%nat && forallb (fun r => negb (is_or r) && grouped r) ms
  | OrACLMatch ms => negb (length ms =? 0)%nat && forallb grouped ms
  | aclMatch key effect value maxValue => negb (bool_decide (key = "")) && plain (atom_text key effect value maxValue)
  | groupACLMatch m' => grouped m'
  end.

(** Induction on trees. *)
Lemma tree_ind (P : ACLMatch -> Prop) :
  (forall ms, Forall P ms -> P (AndACLMatch ms)) -> (forall ms, Forall P ms -> P (OrACLMatch ms)) ->
  (forall k e v x, P (aclMatch k e v x)) -> (forall m, P m -> P (groupACLMatch m)) -> forall m, P m.
Proof.
  intros HA HO Ha Hg. fix IH 1. intros [ms|ms|k e v x|m]; [apply HA|apply HO|apply Ha|apply Hg, IH].
  all: induction ms as [|r ms IHms]; constructor; [apply IH|exact IHms].
Qed.

(** ** Sequences of terms *)

Fixpoint sep (op : token) (ts : list (list token)) : list token :=
  match ts with
  | [] => []
  | [t] => t
  | t :: ts' => t ++ op :: sep op ts'
  end.

Lemma sep_cons op t ts : ts <> [] -> sep op (t :: ts) = t ++ op :: sep op ts.
Proof. by destruct ts. Qed.

Lemma sep_app op ts us : ts <> [] -> us <> [] -> sep op (ts ++ us) = sep op ts ++ op :: sep op us.
Proof.
  intros Ht Hu. induction ts as [|t ts IH]; [done|]. destruct ts as [|t' ts]; [by apply sep_cons|].
  rewrite <-app_comm_cons, !sep_cons by done. rewrite IH by done. by rewrite <-app_assoc.
Qed.

Lemma tokenize_Join op c l : (op = AND /\ c = "&"%char) \/ (op = OR /\ c = "|"%char) ->
  tokenize (Join l (String " " (String c (String c " ")))) = sep op (tokenize <$> l).
Proof.
  intros Hop. induction l as [|t l IH]; [done|]. destruct l as [|t' l]; [done|].
  change (Join (t :: t' :: l) (String " " (String c (String c " ")))) with
    (t +:+ String " " (String c (String c " ")) +:+ Join (t' :: l) (String " " (String c (String c " ")))).
  change (String " " (String c (String c " ")) +:+ Join (t' :: l) (String " " (String c (String c " ")))) with
    (String " " (String c (String c (String " " (Join (t' :: l) (String " " (String c (String c " ")))))))).
  rewrite (tokenize_op op c) by done. by rewrite IH.
Qed.

Section Parsing.

Context (truth : string -> Prop).

Definition reads_as (e : expr) (P : Prop) : Prop := reads truth e <-> P.

(** The tokens of one term. *)
Definition term_ok (t : list token) (P : Prop) : Prop :=
  exists e, reads_as e P /\ forall n rest, (length t <= n)%nat -> parse_term n (t ++ rest) = Some (e, rest).

Lemma term_nonempty t P : term_ok t P -> (0 < length t)%nat.
Proof. intros (e & _ & H). destruct t; [|simpl; lia]. by specialize (H 0%nat [] ltac:(simpl; lia)). Qed.

Lemma atom_term a : term_ok [ATOM a] (truth a).
Proof. exists (EAtom a). split; [done|]. intros [|n] rest Hn; [simpl in Hn; lia|done]. Qed.

Lemma parse_more_ok op ts Ps : Forall2 term_ok ts Ps -> ts <> [] ->
  exists es, Forall2 reads_as es Ps /\ forall n rest, (S (length (sep op ts)) <= n)%nat -> head rest <> Some op ->
    parse_more n op (sep op ts ++ rest) = Some (es, rest).
Proof.
  intros H. induction H as [|t P ts Ps Ht Hts IH]; [done|]. intros _. pose proof (term_nonempty _ _ Ht) as Hlen.
  destruct Ht as (e & He & Hp). destruct ts as [|t' ts].
  - inversion Hts; subst. exists [e]. split; [by constructor|]. intros [|n] rest Hn Hr; [lia|]. cbn [parse_more sep] in *.
    rewrite Hp by lia. destruct rest as [|x rest]; [done|]. rewrite bool_decide_false; [done|]. simpl in Hr. congruence.
  - destruct IH as (es & Hes & Hm); [done|]. exists (e :: es). split; [by constructor|]. intros [|n] rest Hn Hr; [lia|].
    rewrite sep_cons in * by done. rewrite length_app in Hn. cbn [length] in Hn. cbn [parse_more].
    rewrite <-app_assoc, Hp by lia. rewrite <-app_comm_cons. rewrite bool_decide_true by done.
    by rewrite Hm by (done || lia).
Qed.

Definition conn (op : token) (Ps : list Prop) : Prop := if bool_decide (op = AND) then Forall id Ps else Exists id Ps.

Definition connective (op : token) : Prop := op = AND \/ op = OR.

Definition at_end (rest : list token) : Prop := rest = [] \/ exists r, rest = RP :: r.

Lemma reads_conn es Ps : Forall2 reads_as es Ps ->
  (reads truth (EAnd es) <-> conn AND Ps) /\ (reads truth (EOr es) <-> conn OR Ps).
Proof.
  intros H. rewrite reads_And, reads_Or. unfold conn. rewrite bool_decide_true, bool_decide_false by done.
  induction H as [|e P es Ps He _ [IH1 IH2]]; [by rewrite !Forall_nil, !Exists_nil|].
  rewrite !Forall_cons, !Exists_cons, IH1, IH2. unfold reads_as in He. unfold id at 1 3. by rewrite He.
Qed.

Lemma conn_one op P : conn op [P] <-> P.
Proof.
  unfold conn. destruct (bool_decide _); [rewrite Forall_cons, Forall_nil|rewrite Exists_cons, Exists_nil]; unfold id; tauto.
Qed.

Lemma parse_seq_ok op ts Ps : connective op -> Forall2 term_ok ts Ps -> ts <> [] ->
  exists e, reads_as e (conn op Ps) /\ forall n rest, (S (length (sep op ts)) <= n)%nat -> at_end rest ->
    parse_seq n (sep op ts ++ rest) = Some (e, rest).
Proof.
  intros Hop H Hne. destruct H as [|t P ts Ps Ht Hts]; [done|]. pose proof (term_nonempty _ _ Ht) as Hlen.
  destruct Ht as (e & He & Hp). destruct ts as [|t' ts].
  - inversion Hts; subst. exists e. split; [unfold reads_as; by rewrite conn_one|]. intros [|n] rest Hn Hr; [lia|].
    cbn [parse_seq sep] in *. rewrite Hp by lia. by destruct Hr as [->|[r ->]].
  - destruct (parse_more_ok op (t' :: ts) Ps Hts) as (es & Hes & Hm); [done|].
    pose proof (reads_conn (e :: es) (P :: Ps) ltac:(by constructor)) as [Rand Ror].
    exists (if bool_decide (op = AND) then EAnd (e :: es) else EOr (e :: es)). split.
    { unfold reads_as. destruct Hop as [-> | ->]; [exact Rand|exact Ror]. }
    intros [|n] rest Hn Hr; [lia|]. rewrite sep_cons in * by done. rewrite length_app in Hn. cbn [length] in Hn.
    cbn [parse_seq]. rewrite <-app_assoc, Hp by lia. rewrite <-app_comm_cons.
    assert (Hh : head rest <> Some op) by (destruct Hr as [->|[r ->]]; [done|]; by destruct Hop as [-> | ->]).
    destruct Hop as [-> | ->]; rewrite Hm by (done || lia); done.
Qed.

(** The text of a tree is a sequence of terms with the meaning of the tree. *)
Definition tree_ok (m : ACLMatch) (t : string) : Prop :=
  exists op ts Ps, connective op /\ ts <> [] /\ tokenize t = sep op ts /\ Forall2 term_ok ts Ps /\
    (conn op Ps <-> denote (fun k e v x => truth (atom_text k e v x)) m) /\ (is_or m = false -> op = AND).

Lemma group_term op ts Ps : connective op -> Forall2 term_ok ts Ps -> ts <> [] ->
  term_ok (LP :: sep op ts ++ [RP]) (conn op Ps).
Proof.
  intros Hop H Hne. destruct (parse_seq_ok op ts Ps Hop H Hne) as (e & He & Hp). exists e. split; [done|].
  intros [|n] rest Hn; [simpl in Hn; lia|]. cbn [length] in Hn. rewrite length_app in Hn. cbn [length] in Hn.
  rewrite <-app_comm_cons, <-app_assoc. cbn [parse_term app]. rewrite Hp; [done|lia|]. right. by eexists.
Qed.

(** The parts of a conjunction or disjunction are printed in order. *)
Lemma texts_ok ms ts : Forall2 (fun m t => Match m = Ok t) ms ts ->
  Match (AndACLMatch ms) = Ok (Join ts " && ") /\ Match (OrACLMatch ms) = Ok (Join (or_operand <$> ts) " || ").
Proof.
  intros H. set (go := fix texts (ms : list ACLMatch) : result (list string) :=
    match ms with [] => Ok [] | r :: ms' => t ← in_part (Match r); ts ← texts ms'; Ok (t :: ts) end).
  assert (E : go ms = Ok ts).
  { induction H as [|m t ms ts Hm _ IH]; [done|]. cbn. rewrite Hm. cbn. fold go. by rewrite IH. }
  split; cbn [Match]; fold go; by rewrite E.
Qed.

Lemma conn_app_and Ps Qs : conn AND (Ps ++ Qs) <-> conn AND Ps /\ conn AND Qs.
Proof. unfold conn. rewrite !bool_decide_true by done. apply Forall_app. Qed.

(** The parts of a conjunction flatten into one sequence. *)
Lemma and_parts ms ts : ms <> [] -> Forall (fun m => is_or m = false) ms -> Forall2 tree_ok ms ts ->
  exists us Ps, us <> [] /\ sep AND (tokenize <$> ts) = sep AND us /\ Forall2 term_ok us Ps /\
    (conn AND Ps <-> Forall (denote (fun k e v x => truth (atom_text k e v x))) ms).
Proof.
  intros Hne Hor H. induction H as [|m t ms ts Hm Hms IH]; [done|]. apply Forall_cons in Hor as [Ho Hor].
  destruct Hm as (op & us & Ps & _ & Hus & Et & Hf & Hd & Hop). specialize (Hop Ho) as ->.
  destruct ms as [|m' ms].
  - inversion Hms; subst. exists us, Ps. split_and!; [done|done|done|]. rewrite Hd, Forall_cons, Forall_nil. tauto.
  - destruct IH as (vs & Qs & Hvs & Es & Hg & He); [done|done|]. exists (us ++ vs), (Ps ++ Qs).
    split_and!; [by destruct us| |by apply Forall2_app|by rewrite conn_app_and, Hd, He, (Forall_cons _ m)].
    rewrite sep_app by done. rewrite fmap_cons, sep_cons by (by inversion Hms). by rewrite Et, Es.
Qed.

Lemma sep_has_op op ts : (2 <= length ts)%nat -> op ∈ sep op ts.
Proof.
  destruct ts as [|t [|t' ts]]; simpl; [lia|lia|]. intros _. apply elem_of_app. right. by left.
Qed.

(** An operand of a disjunction is one term. *)
Lemma or_operand_ok m t : tree_ok m t ->
  exists P, term_ok (tokenize (or_operand t)) P /\ (P <-> denote (fun k e v x => truth (atom_text k e v x)) m).
Proof.
  intros (op & ts & Ps & Hop & Hne & Et & Hf & Hd & _). unfold or_operand.
  destruct (str_contains t "&&" || str_contains t "||") eqn:E.
  - exists (conn op Ps). split; [|done]. rewrite tokenize_parens, Et. by apply group_term.
  - apply orb_false_iff in E as [Ea Eo].
    assert (Hno : op ∉ tokenize t).
    { intros Hin. destruct Hop as [-> | ->].
      - apply (scan_contains AND "&"%char) in Hin; [congruence|by left].
      - apply (scan_contains OR "|"%char) in Hin; [congruence|by right]. }
    destruct ts as [|u [|u' ts]]; [done| |].
    + inversion Hf as [|? P ? ? Hu Hnil]; subst. inversion Hnil; subst. exists P. rewrite <-Hd, conn_one. by rewrite Et.
    + exfalso. apply Hno. rewrite Et. apply sep_has_op. simpl. lia.
Qed.

Lemma or_parts ms ts : Forall2 tree_ok ms ts ->
  exists Ps, Forall2 term_ok (tokenize <$> (or_operand <$> ts)) Ps /\
    (conn OR Ps <-> Exists (denote (fun k e v x => truth (atom_text k e v x))) ms).
Proof.
  intros H. induction H as [|m t ms ts Hm _ (Ps & Hf & Hd)].
  - exists []. split; [constructor|]. unfold conn. rewrite bool_decide_false by done. by rewrite !Exists_nil.
  - destruct (or_operand_ok m t Hm) as (P & Hp & HP). exists (P :: Ps). split; [by constructor|].
    unfold conn in *. rewrite bool_decide_false in * by done. rewrite !Exists_cons, Hd, <-HP. done.
Qed.

Lemma Match_tree_ok m : grouped m = true -> exists t, Match m = Ok t /\ tree_ok m t.
Proof.
  assert (Hall : forall ms, Forall (fun m => grouped m = true -> exists t, Match m = Ok t /\ tree_ok m t) ms ->
    forallb grouped ms = true -> exists ts, Forall2 (fun m t => Match m = Ok t) ms ts /\ Forall2 tree_ok ms ts).
  { intros ms H. induction H as [|r ms Hm _ IH]; simpl; [by exists []|]. rewrite andb_true_iff. intros [Hg Hgs].
    destruct (Hm Hg) as (t & ? & ?), (IH Hgs) as (ts & ? & ?). exists (t :: ts). split; by constructor. }
  revert m. apply (tree_ind (fun m => grouped m = true -> exists t, Match m = Ok t /\ tree_ok m t));
    [intros ms IH|intros ms IH|intros k e v x|intros m IH]; cbn [grouped]; rewrite ?andb_true_iff.
  - intros [Hne Hg]. assert (Hms : ms <> []) by (by destruct ms).
    destruct (Hall ms IH) as (ts & Hm & Ht).
    { rewrite forallb_forall in Hg |- *. intros r Hr. by specialize (Hg r Hr); apply andb_true_iff in Hg as [_ ?]. }
    destruct (texts_ok ms ts Hm) as [-> _]. eexists. split; [done|].
    destruct (and_parts ms ts Hms) as (us & Ps & Hus & Es & Hf & Hd); [|done|].
    { apply Forall_forall. intros r Hr. rewrite forallb_forall in Hg. rewrite list_elem_of_In in Hr.
      specialize (Hg r Hr). apply andb_true_iff in Hg as [Hg _]. by apply negb_true_iff in Hg. }
    exists AND, us, Ps. split_and!; [by left|done| |done|by rewrite Hd, denote_And|done].
    rewrite <-Es. apply (tokenize_Join AND "&"%char). by left.
  - intros [Hne Hg]. destruct (Hall ms IH Hg) as (ts & Hm & Ht). destruct (texts_ok ms ts Hm) as [_ ->].
    eexists. split; [done|]. destruct (or_parts ms ts Ht) as (Ps & Hf & Hd).
    exists OR, (tokenize <$> (or_operand <$> ts)), Ps. split_and!; [by right| | |done|by rewrite Hd, denote_Or|done].
    + by inversion Ht; subst.
    + apply (tokenize_Join OR "|"%char). by right.
  - intros [Hk Hp]. apply negb_true_iff, bool_decide_eq_false in Hk. exists (atom_text k e v x). split.
    { cbn [Match]. unfold atom_text, atom_Match. rewrite bool_decide_false by done.
      destruct (_ || _); [done|]. by destruct (bool_decide _). }
    exists AND, [[ATOM (atom_text k e v x)]], [truth (atom_text k e v x)]. split_and!.
    1: by left. 1: done. 1: by rewrite tokenize_plain. 1: (constructor; [apply atom_term|constructor]).
    1: by rewrite conn_one. done.
  - intros Hg. destruct (IH Hg) as (t & Et & op & ts & Ps & Hop & Hne & Etok & Hf & Hd & _). exists (parens t). split.
    { cbn [Match]. by rewrite Et. }
    exists AND, [LP :: sep op ts ++ [RP]], [conn op Ps]. split_and!.
    1: by left. 1: done. 1: by rewrite tokenize_parens, Etok. 1: (constructor; [by apply group_term|constructor]).
    1: by rewrite conn_one. done.
Qed.

(** Reading the text of a well-grouped tree gives the meaning of the tree. *)
Lemma parse_Match m : grouped m = true -> exists t e, Match m = Ok t /\ parse t = Some e /\
  (reads truth e <-> denote (fun k e v x => truth (atom_text k e v x)) m).
Proof.
  intros Hg. destruct (Match_tree_ok m Hg) as (t & Et & op & ts & Ps & Hop & Hne & Etok & Hf & Hd & _).
  destruct (parse_seq_ok op ts Ps Hop Hf Hne) as (e & He & Hp). exists t, e. split_and!; [done| |].
  - unfold parse. rewrite Etok. specialize (Hp (S (length (sep op ts))) [] ltac:(lia) ltac:(by left)).
    rewrite app_nil_r in Hp. by rewrite Hp.
  - by rewrite <-Hd.
Qed.

End Parsing.

(** ** Texts that are not empty *)

(** Atoms have a key and no sequence is empty. *)
Fixpoint keyed (m : ACLMatch) : bool :=
  match m with
  | AndACLMatch ms | OrACLMatch ms => negb (length ms =? 0)%nat && forallb keyed ms
  | aclMatch key _ _ _ => negb (bool_decide (key = ""))
  | groupACLMatch m' => keyed m'
  end.

Lemma Join_not_empty l x : l <> [] -> Forall (fun t => t <> "") l -> Join l x <> "".
Proof. intros Hne Hl. destruct Hl as [|t l Ht _]; [done|]. destruct t as [|c t]; [done|]. by destruct l. Qed.

Lemma keyed_parts ms : Forall (fun m => keyed m = true -> exists t, Match m = Ok t /\ t <> "") ms ->
  (length ms =? 0)%nat = false -> forallb keyed ms = true ->
  exists ts, Forall2 (fun m t => Match m = Ok t) ms ts /\ ts <> [] /\ Forall (fun t => t <> "") ts.
Proof.
  intros IH Hne Hk. assert (Hts : exists ts, Forall2 (fun m t => Match m = Ok t) ms ts /\ Forall (fun t => t <> "") ts).
  { clear Hne. induction IH as [|m ms Hm _ IHms]; [by exists []|]. cbn in Hk. apply andb_true_iff in Hk as [Hk1 Hk2].
    destruct (Hm Hk1) as (t & Et & Hn), (IHms Hk2) as (ts & Ets & Hts). exists (t :: ts). by repeat constructor. }
  destruct Hts as (ts & Ets & Hts). exists ts. split_and!; [done| |done]. by destruct Ets.
Qed.

Lemma Match_keyed m : keyed m = true -> exists t, Match m = Ok t /\ t <> "".
Proof.
  revert m. apply (tree_ind (fun m => keyed m = true -> exists t, Match m = Ok t /\ t <> ""));
    [intros ms IH|intros ms IH|intros k e v x|intros m IH]; cbn [keyed]; rewrite ?andb_true_iff, ?negb_true_iff.
  - intros [Hne Hk]. destruct (keyed_parts ms IH Hne Hk) as (ts & Hm & Hts & Hn). destruct (texts_ok ms ts Hm) as [-> _].
    eexists. split; [done|]. by apply Join_not_empty.
  - intros [Hne Hk]. destruct (keyed_parts ms IH Hne Hk) as (ts & Hm & Hts & Hn). destruct (texts_ok ms ts Hm) as [_ ->].
    eexists. split; [done|]. apply Join_not_empty; [by destruct ts|]. apply Forall_fmap. eapply Forall_impl; [exact Hn|].
    intros t Ht. cbn. unfold or_operand. by destruct (_ || _).
  - rewrite bool_decide_eq_false. intros Hk. cbn. unfold atom_Match. rewrite bool_decide_false by done.
    destruct k as [|c k]; [done|]. destruct (_ || _) eqn:E; [by eexists|].
    destruct (bool_decide (x = "")); [by eexists|]. apply orb_false_iff in E as [_ Ev%bool_decide_eq_false]. destruct v as [|c' v]; [done|]. by eexists.
  - intros Hk. destruct (IH Hk) as (t & Et & _). cbn [Match]. rewrite Et. by eexists.
Qed.

Lemma keyed_text m : keyed m = true -> ACLMatch_String m <> "".
Proof. intros Hk. destruct (Match_keyed m Hk) as (t & Et & Hn). unfold ACLMatch_String. by rewrite Et. Qed.
