(* ===== verification/NbDb.v ===== *)
(** * The northbound database ([pkg/ovsdb/ovnnb], [pkg/ovs/ovn.go])

    ACLs are rows that port groups and logical switches refer to; a row nobody
    refers to is collected.  The database keeps for every port group and switch
    the ACL rows it refers to, and, apart from them, the port groups, the address
    sets, the logical switch ports and the DHCP options.  Reading goes to the cache of the client,
    which follows every transaction; a transaction is accepted, rejected, or
    applied with its answer lost. *)
From S2P Require Import Prelude GoStrings GoNet UtilNet GoText.

Local Open Scope Z_scope.

Definition LogicalSwitchKey : string := "ls".
Definition portGroupKey : string := "pg".
Definition aclParentKey : string := "parent".
Definition CniTypeName : string := "kube-ovn".

(** ** Rows *)

(** The columns the code reads or writes. *)
Record ACL := mkACL {
  acl_Name : option string;
  acl_Action : string;
  acl_Direction : string;
  acl_Match : string;
  acl_Priority : Z;
  acl_ExternalIDs : gmap string string;
  acl_Tier : Z;
  acl_Log : bool;
  acl_Severity : option string;
  acl_Meter : option string;
  acl_Options : gmap string string
}.

#[global] Instance ACL_eq_dec : EqDecision ACL.
Proof. solve_decision. Defined.

Definition acl_Parent (acl : ACL) : string := default "" (acl_ExternalIDs acl !! aclParentKey).

Definition setACLName (name : string) (acl : ACL) : ACL :=
  let name := if (63 <? String.length name)%nat then String.substring 0 60 name +:+ "..." else name in
  mkACL (Some name) (acl_Action acl) (acl_Direction acl) (acl_Match acl) (acl_Priority acl) (acl_ExternalIDs acl) (acl_Tier acl)
        (acl_Log acl) (acl_Severity acl) (acl_Meter acl) (acl_Options acl).

Definition set_log (log : bool) (severity meter : option string) (acl : ACL) : ACL :=
  mkACL (acl_Name acl) (acl_Action acl) (acl_Direction acl) (acl_Match acl) (acl_Priority acl) (acl_ExternalIDs acl) (acl_Tier acl)
        log severity meter (acl_Options acl).

(** [acl.Options["apply-after-lb"] = "true"]. *)
Definition after_lb (acl : ACL) : ACL :=
  mkACL (acl_Name acl) (acl_Action acl) (acl_Direction acl) (acl_Match acl) (acl_Priority acl) (acl_ExternalIDs acl) (acl_Tier acl)
        (acl_Log acl) (acl_Severity acl) (acl_Meter acl) (<["apply-after-lb" := "true"]> (acl_Options acl)).

Definition set_external (k v : string) (acl : ACL) : ACL :=
  mkACL (acl_Name acl) (acl_Action acl) (acl_Direction acl) (acl_Match acl) (acl_Priority acl) (<[k := v]> (acl_ExternalIDs acl))
        (acl_Tier acl) (acl_Log acl) (acl_Severity acl) (acl_Meter acl) (acl_Options acl).

Definition set_tier (tier : Z) (acl : ACL) : ACL :=
  mkACL (acl_Name acl) (acl_Action acl) (acl_Direction acl) (acl_Match acl) (acl_Priority acl) (acl_ExternalIDs acl)
        tier (acl_Log acl) (acl_Severity acl) (acl_Meter acl) (acl_Options acl).

(** ** Port groups, address sets and switch ports *)

(** A port group without its ACLs: the UUIDs of its ports and its external ids. *)
Record PortGroup := mkPg {
  pg_Ports : gset N;
  pg_ExternalIDs : gmap string string
}.

Record AddressSet := mkAs {
  as_Addresses : gset string;
  as_ExternalIDs : gmap string string
}.

Record LogicalSwitchPort := mkLsp {
  lsp_UUID : N;
  lsp_Name : string;
  lsp_Type : string;
  lsp_Addresses : list string;
  lsp_PortSecurity : list string;
  lsp_Options : gmap string string;
  lsp_ExternalIDs : gmap string string;
  lsp_Tag : option Z;
  lsp_Dhcpv4Options : option string;
  lsp_Dhcpv6Options : option string
}.

Record DHCPOptions := mkDo {
  do_Cidr : string;
  do_ExternalIDs : gmap string string;
  do_Options : gmap string string
}.

(** The text of a UUID, as a port refers to its DHCP options. *)
Definition uuid_text (u : N) : string := Itoa (Z.of_N u).

(** By name, the DHCP options by UUID; a switch has the UUIDs of its ports. *)
Record Objects := mkObj {
  o_pgs : gmap string PortGroup;
  o_sets : gmap string AddressSet;
  o_lsps : gmap string LogicalSwitchPort;
  o_switch_ports : gmap string (gset N);
  o_dhcp : gmap N DHCPOptions
}.

Definition set_o_pgs (x : gmap string PortGroup) (o : Objects) : Objects := mkObj x (o_sets o) (o_lsps o) (o_switch_ports o) (o_dhcp o).
Definition set_o_sets (x : gmap string AddressSet) (o : Objects) : Objects := mkObj (o_pgs o) x (o_lsps o) (o_switch_ports o) (o_dhcp o).
Definition set_o_lsps (x : gmap string LogicalSwitchPort) (o : Objects) : Objects := mkObj (o_pgs o) (o_sets o) x (o_switch_ports o) (o_dhcp o).
Definition set_o_switch_ports (x : gmap string (gset N)) (o : Objects) : Objects := mkObj (o_pgs o) (o_sets o) (o_lsps o) x (o_dhcp o).
Definition set_o_dhcp (x : gmap N DHCPOptions) (o : Objects) : Objects := mkObj (o_pgs o) (o_sets o) (o_lsps o) (o_switch_ports o) x.

Definition lsp_with_uuid (u : N) (p : LogicalSwitchPort) : LogicalSwitchPort :=
  mkLsp u (lsp_Name p) (lsp_Type p) (lsp_Addresses p) (lsp_PortSecurity p) (lsp_Options p) (lsp_ExternalIDs p) (lsp_Tag p)
        (lsp_Dhcpv4Options p) (lsp_Dhcpv6Options p).
Definition set_lsp_external (x : gmap string string) (p : LogicalSwitchPort) : LogicalSwitchPort :=
  mkLsp (lsp_UUID p) (lsp_Name p) (lsp_Type p) (lsp_Addresses p) (lsp_PortSecurity p) (lsp_Options p) x (lsp_Tag p)
        (lsp_Dhcpv4Options p) (lsp_Dhcpv6Options p).
Definition set_lsp_options (x : gmap string string) (p : LogicalSwitchPort) : LogicalSwitchPort :=
  mkLsp (lsp_UUID p) (lsp_Name p) (lsp_Type p) (lsp_Addresses p) (lsp_PortSecurity p) x (lsp_ExternalIDs p) (lsp_Tag p)
        (lsp_Dhcpv4Options p) (lsp_Dhcpv6Options p).
Definition set_lsp_addresses (x : list string) (p : LogicalSwitchPort) : LogicalSwitchPort :=
  mkLsp (lsp_UUID p) (lsp_Name p) (lsp_Type p) x (lsp_PortSecurity p) (lsp_Options p) (lsp_ExternalIDs p) (lsp_Tag p)
        (lsp_Dhcpv4Options p) (lsp_Dhcpv6Options p).
Definition set_lsp_security (x : list string) (p : LogicalSwitchPort) : LogicalSwitchPort :=
  mkLsp (lsp_UUID p) (lsp_Name p) (lsp_Type p) (lsp_Addresses p) x (lsp_Options p) (lsp_ExternalIDs p) (lsp_Tag p)
        (lsp_Dhcpv4Options p) (lsp_Dhcpv6Options p).
Definition set_lsp_tag (x : option Z) (p : LogicalSwitchPort) : LogicalSwitchPort :=
  mkLsp (lsp_UUID p) (lsp_Name p) (lsp_Type p) (lsp_Addresses p) (lsp_PortSecurity p) (lsp_Options p) (lsp_ExternalIDs p) x
        (lsp_Dhcpv4Options p) (lsp_Dhcpv6Options p).
Definition set_lsp_dhcp (v4 v6 : option string) (p : LogicalSwitchPort) : LogicalSwitchPort :=
  mkLsp (lsp_UUID p) (lsp_Name p) (lsp_Type p) (lsp_Addresses p) (lsp_PortSecurity p) (lsp_Options p) (lsp_ExternalIDs p) (lsp_Tag p) v4 v6.

(** ** The database *)

Abbreviation row := (N * ACL)%type.

Inductive reply := Accepted | Rejected (e : err) | AnswerLost (e : err).

(** The rows of port groups and logical switches, the meters (their unit and
    bands, each a rate and a burst), the other objects, the next UUID, and what the server will
    answer; without an answer left it accepts. *)
Record NbDB := mkNb {
  nb_pgs : gmap string (list row);
  nb_lss : gmap string (list row);
  nb_meters : gmap string (string * list (Z * Z));
  nb_obj : Objects;
  nb_next : N;
  nb_replies : list reply
}.

Definition set_pgs (pgs : gmap string (list row)) (db : NbDB) : NbDB :=
  mkNb pgs (nb_lss db) (nb_meters db) (nb_obj db) (nb_next db) (nb_replies db).
Definition set_lss (lss : gmap string (list row)) (db : NbDB) : NbDB :=
  mkNb (nb_pgs db) lss (nb_meters db) (nb_obj db) (nb_next db) (nb_replies db).
Definition set_meters (meters : gmap string (string * list (Z * Z))) (db : NbDB) : NbDB :=
  mkNb (nb_pgs db) (nb_lss db) meters (nb_obj db) (nb_next db) (nb_replies db).
Definition set_next (n : N) (db : NbDB) : NbDB := mkNb (nb_pgs db) (nb_lss db) (nb_meters db) (nb_obj db) n (nb_replies db).
Definition set_replies (l : list reply) (db : NbDB) : NbDB := mkNb (nb_pgs db) (nb_lss db) (nb_meters db) (nb_obj db) (nb_next db) l.
Definition set_obj (o : Objects) (db : NbDB) : NbDB := mkNb (nb_pgs db) (nb_lss db) (nb_meters db) o (nb_next db) (nb_replies db).

(** Port groups or switches, by the type of the parent. *)
Definition parents (parentType : string) (db : NbDB) : gmap string (list row) :=
  if bool_decide (parentType = portGroupKey) then nb_pgs db else nb_lss db.
Definition set_parents (parentType : string) (x : gmap string (list row)) (db : NbDB) : NbDB :=
  if bool_decide (parentType = portGroupKey) then set_pgs x db else set_lss x db.

(** The ACL table of the cache. *)
Definition rows_of (x : gmap string (list row)) : list row := (map_to_list x).*2 ≫= id.
Definition all_rows (db : NbDB) : list row := rows_of (nb_pgs db) ++ rows_of (nb_lss db).

(** ** Operations of a transaction *)

(** ACLs: rows created and attached to a parent, references removed from a
    parent, rows changed, a row no parent refers to, which is collected at once; a
    meter stored or removed; port groups and address sets
    created, changed and deleted; switch ports created on a switch, taken from a
    switch, and changed; DHCP options created, changed and deleted. *)
Inductive operation :=
  | OpInsert (parentType parent : string) (acls : list ACL)
  | OpRemove (parentType parent : string) (uuids : list N)
  | OpUpdate (uuid : N) (change : ACL -> ACL)
  | OpAclAlone (acl : ACL)
  | OpMeter (name : string) (meter : option (string * list (Z * Z)))
  | OpPgCreate (name : string) (ids : gmap string string)
  | OpPgIds (name : string) (ids : gmap string string)
  | OpPgPorts (name : string) (insert : bool) (uuids : gset N)
  | OpPgDelete (names : list string)
  | OpAsCreate (name : string) (ids : gmap string string)
  | OpAsSet (name : string) (addresses : gset string)
  | OpAsDelete (names : list string)
  | OpLspCreate (lsName : string) (lsp : LogicalSwitchPort)
  | OpLspRemove (lsName : string) (uuid : N)
  | OpLspUpdate (name : string) (change : LogicalSwitchPort -> LogicalSwitchPort)
  | OpDhcpCreate (d : DHCPOptions)
  | OpDhcpUpdate (uuid : N) (cidr : string) (options : gmap string string)
  | OpDhcpDelete (uuids : list N).

Fixpoint number (n : N) (acls : list ACL) : list row :=
  match acls with [] => [] | a :: acls' => (n, a) :: number (n + 1) acls' end.

Definition change_row (uuid : N) (change : ACL -> ACL) (r : row) : row := if bool_decide (r.1 = uuid) then (r.1, change r.2) else r.

Definition delete_all {A} (names : list string) (x : gmap string A) : gmap string A := fold_right delete x names.

(** A port no switch refers to is collected, and leaves its port groups. *)
Definition drop_port (u : N) (o : Objects) : Objects :=
  mkObj (fmap (M := gmap string) (fun g => mkPg (pg_Ports g ∖ {[u]}) (pg_ExternalIDs g)) (o_pgs o)) (o_sets o)
    (filter (fun kv => lsp_UUID kv.2 <> u) (o_lsps o)) (o_switch_ports o) (o_dhcp o).

Definition remove_port (lsName : string) (u : N) (o : Objects) : Objects :=
  let ports := alter (.∖ {[u]}) lsName (o_switch_ports o) in
  let o' := set_o_switch_ports ports o in
  if bool_decide (map_Exists (fun _ s => u ∈ s) ports) then o' else drop_port u o'.

(** A port forgets the DHCP options that are deleted. *)
Definition forget_dhcp (uuids : list N) (p : LogicalSwitchPort) : LogicalSwitchPort :=
  let keep o := match o with Some u => if bool_decide (u ∈ uuid_text <$> uuids) then None else Some u | None => None end in
  set_lsp_dhcp (keep (lsp_Dhcpv4Options p)) (keep (lsp_Dhcpv6Options p)) p.

(** The objects; a new row has the UUID [u]. *)
Definition apply_obj (op : operation) (u : N) (o : Objects) : Objects :=
  match op with
  | OpPgCreate name ids => set_o_pgs (<[name := mkPg ∅ ids]> (o_pgs o)) o
  | OpPgIds name ids => set_o_pgs (alter (fun g => mkPg (pg_Ports g) ids) name (o_pgs o)) o
  | OpPgPorts name insert uuids =>
      set_o_pgs (alter (fun g => mkPg (if insert then pg_Ports g ∪ uuids else pg_Ports g ∖ uuids) (pg_ExternalIDs g)) name (o_pgs o)) o
  | OpPgDelete names => set_o_pgs (delete_all names (o_pgs o)) o
  | OpAsCreate name ids => set_o_sets (<[name := mkAs ∅ ids]> (o_sets o)) o
  | OpAsSet name addresses => set_o_sets (alter (fun s => mkAs addresses (as_ExternalIDs s)) name (o_sets o)) o
  | OpAsDelete names => set_o_sets (delete_all names (o_sets o)) o
  | OpLspCreate lsName lsp =>
      set_o_switch_ports (alter (fun s => {[u]} ∪ s) lsName (o_switch_ports o))
        (set_o_lsps (<[lsp_Name lsp := lsp_with_uuid u lsp]> (o_lsps o)) o)
  | OpLspRemove lsName uuid => remove_port lsName uuid o
  | OpLspUpdate name change => set_o_lsps (alter change name (o_lsps o)) o
  | OpDhcpCreate d => set_o_dhcp (<[u := d]> (o_dhcp o)) o
  | OpDhcpUpdate uuid cidr options => set_o_dhcp (alter (fun d => mkDo cidr (do_ExternalIDs d) options) uuid (o_dhcp o)) o
  | OpDhcpDelete uuids =>
      set_o_lsps (fmap (M := gmap string) (forget_dhcp uuids) (o_lsps o)) (set_o_dhcp (fold_right delete (o_dhcp o) uuids) o)
  | _ => o
  end.

Definition apply_op (op : operation) (db : NbDB) : NbDB :=
  match op with
  | OpInsert t p acls =>
      let rows := default [] (parents t db !! p) in
      set_next (nb_next db + N.of_nat (length acls))%N
        (set_parents t (<[p := rows ++ number (nb_next db) acls]> (parents t db)) db)
  | OpRemove t p uuids =>
      let rows := default [] (parents t db !! p) in
      set_parents t (<[p := filter (fun r => r.1 ∉ uuids) rows]> (parents t db)) db
  | OpUpdate uuid change =>
      set_lss (fmap (M := gmap string) (map (change_row uuid change)) (nb_lss db))
        (set_pgs (fmap (M := gmap string) (map (change_row uuid change)) (nb_pgs db)) db)
  | OpAclAlone _ => db
  | OpMeter name (Some m) => set_meters (<[name := m]> (nb_meters db)) db
  | OpMeter name None => set_meters (delete name (nb_meters db)) db
  | OpPgCreate name ids => set_pgs (<[name := []]> (nb_pgs db)) (set_obj (apply_obj op (nb_next db) (nb_obj db)) db)
  | OpPgDelete names => set_pgs (delete_all names (nb_pgs db)) (set_obj (apply_obj op (nb_next db) (nb_obj db)) db)
  | OpLspCreate _ _ | OpDhcpCreate _ => set_next (nb_next db + 1)%N (set_obj (apply_obj op (nb_next db) (nb_obj db)) db)
  | _ => set_obj (apply_obj op (nb_next db) (nb_obj db)) db
  end.

Definition apply_ops (ops : list operation) (db : NbDB) : NbDB := fold_left (fun d op => apply_op op d) ops db.

(** Calls that read or change the database. *)
Definition DB (A : Type) : Type := NbDB -> outcome (result A * NbDB).

#[global] Instance db_ret : MRet DB := fun A x db => Done (Ok x, db).
#[global] Instance db_bind : MBind DB :=
  fun A B f m db =>
    match m db with
    | Done (Ok x, db') => f x db'
    | Done (Err e, db') => Done (Err e, db')
    | Panic => Panic
    | Starved => Starved
    end.

(** A definition that only reads, and one that may panic, as calls. *)
Definition reading {A} (f : NbDB -> result A) : DB A := fun db => Done (f db, db).
Definition lift {A} (r : result A) : DB A := fun db => Done (r, db).
Definition running {A} (o : outcome A) : DB A := fun db => x ← o; Done (Ok x, db).

(** [fmt.Errorf] around the error of a call. *)
Definition wrapped {A} (fmt : string) (args : list string) (r : result A) : result A :=
  match r with Ok x => Ok x | Err _ => Err (Errorf fmt args) end.
Definition wrapping {A} (fmt : string) (args : list string) (m : DB A) : DB A :=
  fun db => '(r, db') ← m db; Done (wrapped fmt args r, db').

(** A call whose error is only logged. *)
Definition logged (m : DB ()) : DB () := fun db => '(_, db') ← m db; Done (Ok (), db').

(** A loop of calls that only read, up to the first error. *)
Fixpoint collect {A B} (f : A -> result B) (l : list A) : result (list B) :=
  match l with
  | [] => Ok []
  | x :: l' => y ← f x; ys ← collect f l'; Ok (y :: ys)
  end.

(** A loop of calls, up to the first error. *)
Fixpoint for_each {A} (f : A -> DB ()) (l : list A) : DB () :=
  match l with
  | [] => mret ()
  | x :: l' => _ ← f x; for_each f l'
  end.

(** [Transact]; no operation is no transaction. *)
Definition Transact (ops : list operation) : DB () := fun db =>
  Done match ops with
       | [] => (Ok (), db)
       | _ =>
           match nb_replies db with
           | [] => (Ok (), apply_ops ops db)
           | Accepted :: l => (Ok (), apply_ops ops (set_replies l db))
           | Rejected e :: l => (Err e, set_replies l db)
           | AnswerLost e :: l => (Err e, apply_ops ops (set_replies l db))
           end
       end.

(** ** Shared helpers *)

(** [strings.ReplaceAll] of a text that is not empty. *)
Definition ReplaceAll (s old new : string) : string := Join (Split s old) new.

(** External ids a filter asks for; an empty value asks for any. *)
Definition ids_match (ids : gmap string string) (asked : gmap string string) : bool :=
  negb (size ids <? size asked)%nat &&
  (bool_decide (ids = ∅) ||
   forallb (fun kv => let v := default "" (ids !! kv.1) in
                      if bool_decide (kv.2 = "") then negb (bool_decide (v = "")) else bool_decide (v = kv.2)) (map_to_list asked)).
