(* ===== verification/NbDhcp.v ===== *)
(** * DHCP options ([pkg/ovs/ovn-nb-dhcp_options.go], [pkg/ovs/util.go])

    A row of options belongs to a switch and a family, or to a port and a family.
    The text of options, as subnets and pods give it, is parsed and printed; a
    Go map is printed in some order, here that of the map. *)
From Stdlib Require Import Ascii.
From S2P Require Import Prelude GoStrings GoNet UtilNet GoText NbDb.

Local Open Scope Z_scope.

Definition PortKey : string := "port".

Record DHCPOptionsUUIDs := mkDhcp { DHCPv4OptionsUUID : string; DHCPv6OptionsUUID : string }.

Definition no_dhcp : DHCPOptionsUUIDs := mkDhcp "" "".

Definition not_empty (s : string) : option string := if bool_decide (s = "") then None else Some s.

(** ** The text of options *)

(** One option of the text; what is not a key and a value is ignored. *)
Definition parse_option (m : gmap string string) (option : string) : gmap string string :=
  match Split option "=" with
  | [k; v] => if bool_decide (k = "") || bool_decide (v = "") then m
              else <[k := if bool_decide (k = "dns_server") then ReplaceAll v ";" "," else v]> m
  | _ => m
  end.

Definition parseDHCPOptions (raw : string) : gmap string string :=
  if bool_decide (raw = "") then ∅ else fold_left parse_option (Split (ReplaceAll raw " " "") ",") ∅.

Definition format_option (kv : string * string) : string :=
  kv.1 +:+ "=" +:+ (if bool_decide (kv.1 = "dns_server") then ReplaceAll kv.2 "," ";" else kv.2).

(** The entries in the order the map is walked. *)
Definition format_entries (l : list (string * string)) : string := Join (format_option <$> l) ",".

Definition formatDHCPOptions (options : gmap string string) : string := format_entries (map_to_list options).

(** An option that is set unless it is there. *)
Definition set_missing (k v : string) (m : gmap string string) : gmap string string :=
  match m !! k with Some _ => m | None => <[k := v]> m end.

Definition buildDHCPv4Options (options gateway mac : string) (mtu : Z) : gmap string string :=
  let defaults m := set_missing "mtu" (Itoa mtu) (set_missing "server_mac" mac (set_missing "server_id" "169.254.0.254"
                      (set_missing "router" gateway (set_missing "lease_time" "3600" m)))) in
  defaults (if bool_decide (options = "") then ∅ else parseDHCPOptions options).

Definition buildDHCPv6Options (options mac : string) : gmap string string :=
  set_missing "server_id" mac (if bool_decide (options = "") then ∅ else parseDHCPOptions options).

(** ** Reading rows *)

Definition dhcpOptionsFilter (needVendorFilter : bool) (externalIDs : gmap string string) (d : DHCPOptions) : bool :=
  negb (needVendorFilter && (bool_decide (do_ExternalIDs d = ∅) ||
                             negb (bool_decide (default "" (do_ExternalIDs d !! "vendor") = CniTypeName)))) &&
  ids_match (do_ExternalIDs d) externalIDs.

Definition ListDHCPOptions (needVendorFilter : bool) (externalIDs : gmap string string) (db : NbDB) : list (N * DHCPOptions) :=
  filter (fun kv => dhcpOptionsFilter needVendorFilter externalIDs kv.2 = true) (map_to_list (o_dhcp (nb_obj db))).

Definition getDHCPOptionsEntry (lsName portName protocol : string) (ignoreNotFound : bool) (db : NbDB) : result (option (N * DHCPOptions)) :=
  if bool_decide (portName = "") && bool_decide (lsName = "") then Err (Errorf "the logical switch name is required" [])
  else
    let port := negb (bool_decide (portName = "")) in
    let filterIDs := {[(if port then PortKey else LogicalSwitchKey) := (if port then portName else lsName); "protocol" := protocol]} : gmap string string in
    let found := ListDHCPOptions true filterIDs db in
    let found := if port then found else filter (fun kv => default "" (do_ExternalIDs kv.2 !! PortKey) = "") found in
    match found with
    | [] => if ignoreNotFound then Ok None
            else if port then Err (Errorf "not found per-port %s dhcp options for port %s" [protocol; portName])
            else Err (Errorf "not found logical switch %s %s dhcp options" [lsName; protocol])
    | [d] => Ok (Some d)
    | _ => if port then Err (Errorf "more than one per-port %s dhcp options for port %s" [protocol; portName])
           else Err (Errorf "more than one %s dhcp options in logical switch %s" [protocol; lsName])
    end.

Definition GetDHCPOptions (lsName protocol : string) (ignoreNotFound : bool) (db : NbDB) : result (option (N * DHCPOptions)) :=
  if bool_decide (lsName = "") then Err (Errorf "the logical switch name is required" [])
  else if negb (bool_decide (protocol = ProtocolIPv4)) && negb (bool_decide (protocol = ProtocolIPv6))
  then Err (Errorf "protocol must be IPv4 or IPv6" [])
  else getDHCPOptionsEntry lsName "" protocol ignoreNotFound db.

(** ** Creating and changing rows *)

Definition newDHCPOptionsEntry (lsName portName cidr options : string) : result DHCPOptions :=
  if bool_decide (cidr = "") || bool_decide (lsName = "") then Err (Errorf "logical switch name %s and cidr %s is required" [lsName; cidr])
  else
    let protocol := CheckProtocol cidr in
    if bool_decide (protocol = "") then Err (Errorf "cidr %s must be a valid ipv4 or ipv6 address" [cidr])
    else
      let ids := {[LogicalSwitchKey := lsName; "protocol" := protocol; "vendor" := CniTypeName]} : gmap string string in
      Ok (mkDo cidr (if bool_decide (portName = "") then ids else <[PortKey := portName]> ids) (parseDHCPOptions options)).

Definition createDHCPEntry (lsName portName cidr options : string) : DB () :=
  d ← lift (newDHCPOptionsEntry lsName portName cidr options);
  wrapping "create dhcp options with cidr %q options %q: %w" [cidr; options] (Transact [OpDhcpCreate d]).

Definition CreateDHCPOptions (lsName cidr options : string) : DB () := createDHCPEntry lsName "" cidr options.

Definition updateDHCPOptions (uuid : N) (cidr : string) (options : gmap string string) : DB () :=
  wrapping "update dhcp options %s: %w" [uuid_text uuid] (Transact [OpDhcpUpdate uuid cidr options]).

(** [updateDHCPv4Options] and [updateDHCPv6Options]: the row of the family is
    changed, keeping the value [kept] names, or created with a new MAC. *)
Definition update_family (protocol wrong kept : string) (build : string -> gmap string string) (buf : bytes) (lsName portName cidr : string) : DB string :=
  if negb (bool_decide (CheckProtocol cidr = protocol)) then lift (Err (Errorf wrong [cidr]))
  else
    entry ← reading (getDHCPOptionsEntry lsName portName protocol true);
    match entry with
    | Some (uuid, d) => _ ← updateDHCPOptions uuid cidr (build (default "" (do_Options d !! kept))); mret (uuid_text uuid)
    | None =>
        _ ← wrapping "create dhcp options: %w" [] (createDHCPEntry lsName portName cidr (formatDHCPOptions (build (GenerateMac buf))));
        entry ← reading (getDHCPOptionsEntry lsName portName protocol false);
        running (match entry with Some (uuid, _) => Done (uuid_text uuid) | None => Panic end)
    end.

Definition updateDHCPv4Options (buf : bytes) (lsName portName cidr gateway options : string) (mtu : Z) : DB string :=
  update_family ProtocolIPv4 "cidr %s must be a valid ipv4 address" "server_mac" (fun mac => buildDHCPv4Options options gateway mac mtu) buf lsName portName cidr.

Definition updateDHCPv6Options (buf : bytes) (lsName portName cidr options : string) : DB string :=
  update_family ProtocolIPv6 "cidr %s must be a valid ipv6 address" "server_id" (fun mac => buildDHCPv6Options options mac) buf lsName portName cidr.

(** ** Deleting rows *)

Definition delete_rows (rows : list (N * DHCPOptions)) : list operation := match rows with [] => [] | _ => [OpDhcpDelete rows.*1] end.

Definition DeleteDHCPOptionsByUUIDs (uuids : list N) : DB () :=
  wrapping "delete dhcp options %v: %w" (uuid_text <$> uuids) (Transact ((fun u => OpDhcpDelete [u]) <$> uuids)).

Definition DeleteDHCPOptions (lsName protocol : string) : DB () :=
  let protocol := if bool_decide (protocol = ProtocolDual) then "" else protocol in
  rows ← reading (fun db => Ok (ListDHCPOptions true {[LogicalSwitchKey := lsName; "protocol" := protocol]} db));
  wrapping "delete logical switch %s dhcp options: %w" [lsName] (Transact (delete_rows rows)).

Definition DeleteDHCPOptionsForPort (portName : string) : DB () :=
  if bool_decide (portName = "") then lift (Err (Errorf "the port name is required" []))
  else
    rows ← reading (fun db => Ok (ListDHCPOptions true {[PortKey := portName]} db));
    wrapping "delete per-port dhcp options for port %s: %w" [portName] (Transact (delete_rows rows)).

(** ** Subnets and ports *)

(** The blocks and the gateway of both families. *)
Definition families (cidrBlock gateway : string) : string * string * string :=
  let protocol := CheckProtocol cidrBlock in
  if bool_decide (protocol = ProtocolIPv4) then (cidrBlock, "", gateway)
  else if bool_decide (protocol = ProtocolIPv6) then ("", cidrBlock, "")
  else if bool_decide (protocol = ProtocolDual)
  then (default "" (Split cidrBlock "," !! 0%nat), default "" (Split cidrBlock "," !! 1%nat), default "" (Split gateway "," !! 0%nat))
  else ("", "", "").

Record DhcpSubnet := mkDhcpSubnet {
  ds_Name : string;
  ds_CIDRBlock : string;
  ds_Gateway : string;
  ds_U2OInterconnectionIP : string;
  ds_U2OInterconnection : bool;
  ds_EnableDHCP : bool;
  ds_Protocol : string;
  ds_DHCPv4Options : string;
  ds_DHCPv6Options : string
}.

(** A family that is updated when [needed], else no UUID. *)
Definition when_needed (needed : bool) (fmt : string) (args : list string) (m : DB string) : DB string :=
  if needed then wrapping fmt args m else mret "".

Definition UpdateDHCPOptions (buf4 buf6 : bytes) (subnet : DhcpSubnet) (mtu : Z) : DB DHCPOptionsUUIDs :=
  let lsName := ds_Name subnet in
  let gateway := if negb (bool_decide (ds_U2OInterconnectionIP subnet = "")) && ds_U2OInterconnection subnet
                 then ds_U2OInterconnectionIP subnet else ds_Gateway subnet in
  if negb (ds_EnableDHCP subnet) then
    _ ← wrapping "delete dhcp options for logical switch %s: %w" [lsName] (DeleteDHCPOptions lsName (ds_Protocol subnet));
    mret no_dhcp
  else
    let '(v4CIDR, v6CIDR, v4Gateway) := families (ds_CIDRBlock subnet) gateway in
    v4 ← when_needed (negb (bool_decide (v4CIDR = ""))) "update IPv4 dhcp options for logical switch %s: %w" [lsName]
           (updateDHCPv4Options buf4 lsName "" v4CIDR v4Gateway (ds_DHCPv4Options subnet) mtu);
    v6 ← when_needed (negb (bool_decide (v6CIDR = ""))) "update IPv6 dhcp options for logical switch %s: %w" [lsName]
           (updateDHCPv6Options buf6 lsName "" v6CIDR (ds_DHCPv6Options subnet));
    mret (mkDhcp v4 v6).

Definition UpdateDHCPOptionsForPort (buf4 buf6 : bytes) (lsName portName cidrBlock gateway v4Options v6Options : string) (mtu : Z) : DB DHCPOptionsUUIDs :=
  if bool_decide (lsName = "") then lift (Err (Errorf "the logical switch name is required" []))
  else if bool_decide (portName = "") then lift (Err (Errorf "the port name is required" []))
  else if bool_decide (v4Options = "") && bool_decide (v6Options = "")
  then lift (Err (Errorf "at least one of v4Options or v6Options must be non-empty" []))
  else if bool_decide (CheckProtocol cidrBlock = ProtocolDual) && ((length (Split cidrBlock ",") <? 2)%nat || (length (Split gateway ",") <? 1)%nat)
  then lift (Err (Errorf "invalid dual-stack cidrBlock %q or gateway %q" [cidrBlock; gateway]))
  else
    let '(v4CIDR, v6CIDR, v4Gateway) := families cidrBlock gateway in
    v4 ← when_needed (negb (bool_decide (v4CIDR = "")) && negb (bool_decide (v4Options = ""))) "update per-port IPv4 dhcp options for port %s: %w" [portName]
           (updateDHCPv4Options buf4 lsName portName v4CIDR v4Gateway v4Options mtu);
    v6 ← when_needed (negb (bool_decide (v6CIDR = "")) && negb (bool_decide (v6Options = ""))) "update per-port IPv6 dhcp options for port %s: %w" [portName]
           (updateDHCPv6Options buf6 lsName portName v6CIDR v6Options);
    mret (mkDhcp v4 v6).
