(* ===== verification/NbLsp.v ===== *)
(** * Logical switch ports ([pkg/ovs/ovn-nb-logical_switch_port.go])

    A switch refers to its ports, and a port that no switch refers to is
    collected.  Ports are found by name; the name of the switch of a port is in
    its external ids.  Columns read from the cache are never nil.  Lists of ports
    come in the order of the cache, which is that of the map here. *)
From Stdlib Require Import Ascii.
From S2P Require Import Prelude GoStrings GoNet UtilNet GoText NbDb NbDhcp.

Local Open Scope Z_scope.

Definition associatedSgKeyPrefix : string := "associated_sg_".
Definition sgsKey : string := "security_groups".
Definition sgKey : string := "sg".
Definition DefaultSecurityGroupName : string := "default-securitygroup".
Definition DefaultVpc : string := "ovn-cluster".

(** ** Reading *)

Definition GetLogicalSwitchPort (lspName : string) (ignoreNotFound : bool) (db : NbDB) : result (option LogicalSwitchPort) :=
  if bool_decide (lspName = "") then Err (Errorf "logical switch port name is empty" [])
  else match o_lsps (nb_obj db) !! lspName with
       | Some lsp => Ok (Some lsp)
       | None => if ignoreNotFound then Ok None else Err (Errorf "get logical switch port %s: %w" [lspName])
       end.

(** A port that has to exist. *)
Definition get_port (lspName : string) (db : NbDB) : result LogicalSwitchPort :=
  lsp ← GetLogicalSwitchPort lspName false db;
  match lsp with Some p => Ok p | None => Err (Errorf "logical switch port %s not found" [lspName]) end.

Definition LogicalSwitchPortExists (name : string) (db : NbDB) : result bool :=
  lsp ← GetLogicalSwitchPort name true db; Ok (bool_decide (is_Some lsp)).

Definition logicalSwitchPortFilter (needVendorFilter : bool) (externalIDs : gmap string string) (filter : LogicalSwitchPort -> bool)
    (lsp : LogicalSwitchPort) : bool :=
  negb (needVendorFilter && (bool_decide (lsp_ExternalIDs lsp = ∅) ||
                             negb (bool_decide (default "" (lsp_ExternalIDs lsp !! "vendor") = CniTypeName)))) &&
  ids_match (lsp_ExternalIDs lsp) externalIDs && filter lsp.

Definition ListLogicalSwitchPorts (needVendorFilter : bool) (externalIDs : gmap string string) (filter : LogicalSwitchPort -> bool)
    (db : NbDB) : list LogicalSwitchPort :=
  base.filter (fun lsp => logicalSwitchPortFilter needVendorFilter externalIDs filter lsp = true) (map_to_list (o_lsps (nb_obj db))).*2.

Definition ListNormalLogicalSwitchPorts (needVendorFilter : bool) (externalIDs : gmap string string) (db : NbDB) : list LogicalSwitchPort :=
  ListLogicalSwitchPorts needVendorFilter externalIDs (fun lsp => bool_decide (lsp_Type lsp = "")) db.

(** The groups a port is associated with. *)
Definition sg_of_key (kv : string * string) : option string :=
  if has_prefix associatedSgKeyPrefix kv.1 && bool_decide (kv.2 = "true") then Some (ReplaceAll kv.1 associatedSgKeyPrefix "") else None.

Definition getLogicalSwitchPortSgs (lsp : LogicalSwitchPort) : gset string :=
  list_to_set (omap sg_of_key (map_to_list (lsp_ExternalIDs lsp))).

(** ** Operations on the ports of a switch *)

Definition LogicalSwitchExists (lsName : string) (db : NbDB) : result bool :=
  if bool_decide (lsName = "") then Err (Errorf "empty logical switch name" []) else Ok (bool_decide (is_Some (nb_lss db !! lsName))).

(** [LogicalSwitchOp] reads the switch. *)
Definition get_switch (lsName : string) (db : NbDB) : result () :=
  exists_ ← wrapped "get logical switch %s when generate mutate operations: %w" [lsName] (LogicalSwitchExists lsName db);
  if exists_ : bool then Ok () else Err (Errorf "get logical switch %s when generate mutate operations: %w" [lsName]).

(** [LogicalSwitchUpdatePortOp] that deletes; without a name the switch that has
    the port is looked for. *)
Definition remove_port_op (lsName : string) (uuid : N) (db : NbDB) : result (list operation) :=
  lsName ← (if bool_decide (lsName = "")
            then match (base.filter (fun kv : string * gset N => uuid ∈ kv.2) (map_to_list (o_switch_ports (nb_obj db)))).*1 with
                 | [] => Err (Errorf "no LS found for LSP %s" [Itoa (Z.of_N uuid)])
                 | [name] => Ok name
                 | names => Err (Errorf "multiple LS found for LSP %s: %s" [Itoa (Z.of_N uuid); Join names ", "])
                 end
            else Ok lsName);
  _ ← get_switch lsName db;
  Ok [OpLspRemove lsName uuid].

Definition CreateLogicalSwitchPortOp (lsp : LogicalSwitchPort) (lsName : string) (db : NbDB) : result (list operation) :=
  let ids := <["vendor" := CniTypeName]> (<[LogicalSwitchKey := lsName]> (lsp_ExternalIDs lsp)) in
  _ ← get_switch lsName db;
  Ok [OpLspCreate lsName (set_lsp_external ids lsp)].

(** A switch that is gone is not asked for. *)
Definition DeleteLogicalSwitchPortOp (lsName : string) (uuid : N) (db : NbDB) : result (list operation) :=
  lsName' ← (if bool_decide (lsName = "") then Ok ""
             else exists_ ← LogicalSwitchExists lsName db; Ok (if exists_ : bool then lsName else ""));
  wrapped "generate operations for deleting logical switch port with UUID %s from logical switch %q: %w" [Itoa (Z.of_N uuid); lsName']
    (remove_port_op lsName' uuid db).

(** The columns a call names are written to the row. *)
Definition UpdateLogicalSwitchPort (lspName : string) (change : LogicalSwitchPort -> LogicalSwitchPort) : DB () :=
  wrapping "update logical switch port %s: %w" [lspName] (Transact [OpLspUpdate lspName change]).

(** ** Creating ports *)

Definition blank_port (name type : string) : LogicalSwitchPort := mkLsp 0 name type [] [] ∅ ∅ None None None.

Definition port_external (lsName podName namespace securityGroups vips vpc : string) : gmap string string :=
  let ids := {["vendor" := CniTypeName]} : gmap string string in
  let ids := if bool_decide (securityGroups = "") then ids
             else fold_left (fun m sg => <[associatedSgKeyPrefix +:+ sg := "true"]> m) (Split securityGroups ",")
                    (<[sgsKey := ReplaceAll securityGroups "," "/"]> ids) in
  let ids := if negb (bool_decide (vpc = "")) && negb (bool_decide (vpc = DefaultVpc)) && negb (str_contains securityGroups DefaultSecurityGroupName)
             then <[associatedSgKeyPrefix +:+ DefaultSecurityGroupName := "false"]> ids else ids in
  let ids := if bool_decide (vips = "") then ids else <["attach-vips" := "true"]> (<["vips" := vips]> ids) in
  let ids := if negb (bool_decide (podName = "")) && negb (bool_decide (namespace = ""))
             then <["pod" := namespace +:+ "/" +:+ podName]> ids else ids in
  <["vendor" := CniTypeName]> (<[LogicalSwitchKey := lsName]> ids).

Definition buildLogicalSwitchPort (lspName lsName ip mac podName namespace : string) (portSecurity : bool) (securityGroups vips : string)
    (enableDHCP : bool) (dhcpOptions : option DHCPOptionsUUIDs) (vpc : string) : LogicalSwitchPort :=
  let addresses := mac :: Split ip "," in
  let secured := if bool_decide (vips = "") then addresses else addresses ++ Split vips "," in
  let '(v4, v6) := match dhcpOptions with
                   | Some o => if enableDHCP then (not_empty (DHCPv4OptionsUUID o), not_empty (DHCPv6OptionsUUID o)) else (None, None)
                   | None => (None, None)
                   end in
  mkLsp 0 lspName ""
    (if bool_decide (ip = "") then [mac] else [TrimSpace (Join addresses " ")])
    (if negb (bool_decide (ip = "")) && portSecurity then [TrimSpace (Join secured " ")] else [])
    ∅ (port_external lsName podName namespace securityGroups vips vpc) None v4 v6.

(** The columns an update of the port writes. *)
Definition rewrite_port (lsp : LogicalSwitchPort) (old : LogicalSwitchPort) : LogicalSwitchPort :=
  set_lsp_external (lsp_ExternalIDs lsp) (set_lsp_security (lsp_PortSecurity lsp)
    (set_lsp_dhcp (lsp_Dhcpv4Options lsp) (lsp_Dhcpv6Options lsp) (set_lsp_addresses (lsp_Addresses lsp) old))).

Definition CreateLogicalSwitchPort (lsName lspName ip mac podName namespace : string) (portSecurity : bool) (securityGroups vips : string)
    (enableDHCP : bool) (dhcpOptions : option DHCPOptionsUUIDs) (vpc : string) : DB () :=
  existing ← reading (GetLogicalSwitchPort lspName true);
  let lsp := buildLogicalSwitchPort lspName lsName ip mac podName namespace portSecurity securityGroups vips enableDHCP dhcpOptions vpc in
  let create ops :=
    createLspOps ← reading (fun db => wrapped "generate operations for creating logical switch port %s: %w" [lspName] (CreateLogicalSwitchPortOp lsp lsName db));
    wrapping "create logical switch port %s: %w" [lspName] (Transact (ops ++ createLspOps)) in
  match existing with
  | None => create []
  | Some old =>
      let at_ := default "" (lsp_ExternalIDs old !! LogicalSwitchKey) in
      if bool_decide (at_ = lsName)
      then wrapping "failed to update logical switch port %s: %w" [lspName] (UpdateLogicalSwitchPort lspName (rewrite_port lsp))
      else ops ← reading (remove_port_op at_ (lsp_UUID old)); create ops
  end.

(** A port that is left alone when it exists. *)
Definition create_missing (lsp : LogicalSwitchPort) (lsName failed : string) (args : list string) : DB () :=
  exists_ ← reading (LogicalSwitchPortExists (lsp_Name lsp));
  if exists_ : bool then mret ()
  else ops ← reading (CreateLogicalSwitchPortOp lsp lsName); wrapping failed args (Transact ops).

Definition virtual_port (lspName ip : string) : LogicalSwitchPort := set_lsp_options {["virtual-ip" := ip]} (blank_port lspName "virtual").

Definition CreateVirtualLogicalSwitchPort (lspName lsName ip : string) : DB () :=
  create_missing (virtual_port lspName ip) lsName "create virtual logical switch port %s for logical switch %s: %w" [lspName; lsName].

(** The operations of the ports that do not exist. *)
Fixpoint virtual_ops (lsName : string) (ips : list string) (db : NbDB) : result (list operation) :=
  match ips with
  | [] => Ok []
  | ip :: ips' =>
      let lspName := lsName +:+ "-vip-" +:+ ip in
      exists_ ← LogicalSwitchPortExists lspName db;
      ops ← (if exists_ : bool then Ok [] else CreateLogicalSwitchPortOp (virtual_port lspName ip) lsName db);
      rest ← virtual_ops lsName ips' db;
      Ok (ops ++ rest)
  end.

Definition CreateVirtualLogicalSwitchPorts (lsName : string) (ips : list string) : DB () :=
  ops ← reading (virtual_ops lsName ips);
  wrapping "create virtual logical switch ports for logical switch %s: %w" [lsName] (Transact ops).

Definition CreateBareLogicalSwitchPort (lsName lspName ip mac : string) : DB () :=
  create_missing (set_lsp_addresses [TrimSpace (Join (mac :: Split ip ",") " ")] (blank_port lspName "")) lsName
    "create logical switch port %s: %w" [lspName].

Definition localnet_networks (cidrBlock : string) : gmap string string :=
  if bool_decide (cidrBlock = "") then ∅
  else let '(v4, v6) := SplitStringIP cidrBlock in
       (if bool_decide (v6 = "") then id else <["ipv6_network" := v6]>)
         ((if bool_decide (v4 = "") then id else <["ipv4_network" := v4]>) ∅).

Definition CreateLocalnetLogicalSwitchPort (lsName lspName provider cidrBlock : string) (vlanID : Z) : DB () :=
  existing ← reading (GetLogicalSwitchPort lspName true);
  let networks := localnet_networks cidrBlock in
  let options := {["network_name" := provider]} : gmap string string in
  match existing with
  | Some lsp =>
      let ids := <["vendor" := CniTypeName]> (<[LogicalSwitchKey := lsName]> networks) in
      if bool_decide (lsp_ExternalIDs lsp = ids) && bool_decide (lsp_Options lsp = options) then mret ()
      else wrapping "failed to update localnet logical switch port %s: %w" [lspName]
             (UpdateLogicalSwitchPort lspName (fun p => set_lsp_options options (set_lsp_external ids p)))
  | None =>
      let lsp := set_lsp_tag (if (0 <? vlanID) && (vlanID <? 4096) then Some vlanID else None)
                   (set_lsp_external networks (set_lsp_options options (set_lsp_addresses ["unknown"] (blank_port lspName "localnet")))) in
      ops ← reading (CreateLogicalSwitchPortOp lsp lsName);
      wrapping "create localnet logical switch port %s: %w" [lspName] (Transact ops)
  end.

(** ** Changing ports *)

Definition set_or_delete (k v : string) (m : gmap string string) : gmap string string := if bool_decide (v = "") then delete k m else <[k := v]> m.

Definition with_parents (parents : string) (lsp : LogicalSwitchPort) : LogicalSwitchPort :=
  set_lsp_options (set_or_delete "virtual-parents" parents (lsp_Options lsp)) lsp.

(** A port that may be missing, which is an error here. *)
Definition expect_port (lspName : string) (db : NbDB) : result LogicalSwitchPort :=
  lsp ← wrapped "get logical switch port %s: %w" [lspName] (GetLogicalSwitchPort lspName true db);
  match lsp with Some p => Ok p | None => Err (Errorf "logical switch port %s not found" [lspName]) end.

Definition SetLogicalSwitchPortVirtualParents (lsName parents : string) (ips : list string) : DB () :=
  ops ← reading (fun db => collect (fun ip =>
    let lspName := lsName +:+ "-vip-" +:+ ip in
    lsp ← expect_port lspName db;
    Ok (OpLspUpdate lspName (set_lsp_options (lsp_Options (with_parents parents lsp))))) ips);
  wrapping "set logical switch port virtual-parents %w" [] (Transact ops).

Definition SetVirtualLogicalSwitchPortVirtualParents (lspName parents : string) : DB () :=
  lsp ← reading (expect_port lspName);
  wrapping "set logical switch port virtual-parents %w" []
    (Transact [OpLspUpdate lspName (set_lsp_options (lsp_Options (with_parents parents lsp)))]).

Definition SetLogicalSwitchPortArpProxy (lspName : string) (enableArpProxy : bool) : DB () :=
  lsp ← reading (get_port lspName);
  let options := if enableArpProxy then <["arp_proxy" := "true"]> (lsp_Options lsp) else delete "arp_proxy" (lsp_Options lsp) in
  wrapping "failed to set logical switch port option arp_proxy %w" [] (Transact [OpLspUpdate lspName (set_lsp_options options)]).

Definition SetLogicalSwitchPortSecurity (portSecurity : bool) (lspName mac ips vips : string) : DB () :=
  lsp ← reading (get_port lspName);
  let addresses := mac :: Split ips "," ++ (if bool_decide (vips = "") then [] else Split vips ",") in
  let security := if portSecurity then [TrimSpace (Join addresses " ")] else [] in
  let ids := if bool_decide (vips = "") then delete "attach-vips" (delete "vips" (lsp_ExternalIDs lsp))
             else <["attach-vips" := "true"]> (<["vips" := vips]> (lsp_ExternalIDs lsp)) in
  wrapping "set logical switch port %s port_security %v: %w" (lspName :: security)
    (UpdateLogicalSwitchPort lspName (fun p => set_lsp_external ids (set_lsp_security security p))).

Definition SetLogicalSwitchPortExternalIDs (lspName : string) (externalIDs : gmap string string) : DB () :=
  lsp ← reading (get_port lspName);
  wrapping "set logical switch port %s external ids %v: %w" [lspName]
    (UpdateLogicalSwitchPort lspName (set_lsp_external (externalIDs ∪ lsp_ExternalIDs lsp))).

(** The loop over the groups: the ids, the groups and those that changed. *)
Definition change_sg (add : bool) (st : gmap string string * gset string * list string) (sgName : string) : gmap string string * gset string * list string :=
  let '(ids, sgs, diff) := st in
  let key := associatedSgKeyPrefix +:+ sgName in
  if add then
    if bool_decide (sgName ∈ sgs) then st else (<[key := "true"]> ids, {[sgName]} ∪ sgs, diff ++ [sgName])
  else
    if bool_decide (sgName ∈ sgs) then (<[key := "false"]> ids, sgs ∖ {[sgName]}, diff ++ [sgName]) else st.

(** The port was read before; all its external ids are written. *)
Definition SetLogicalSwitchPortSecurityGroup (lsp : LogicalSwitchPort) (op : string) (sgs : list string) : DB (list string) :=
  match sgs with
  | [] => mret []
  | _ =>
      if negb (bool_decide (op = "add")) && negb (bool_decide (op = "remove")) then lift (Err (Errorf "op must be 'add' or 'remove'" []))
      else
        let '(ids, left_, diff) := fold_left (change_sg (bool_decide (op = "add"))) sgs (lsp_ExternalIDs lsp, getLogicalSwitchPortSgs lsp, []) in
        let newSgs := Join (elements left_) "/" in
        _ ← wrapping "set logical switch port %s security group %v: %w" [lsp_Name lsp; newSgs]
              (UpdateLogicalSwitchPort (lsp_Name lsp) (set_lsp_external (set_or_delete sgsKey newSgs ids)));
        mret diff
  end.

Definition SetLogicalSwitchPortsSecurityGroup (sgName op : string) : DB () :=
  if negb (bool_decide (op = "add")) && negb (bool_decide (op = "remove")) then lift (Err (Errorf "op must be 'add' or 'remove'" []))
  else
    let associated := if bool_decide (op = "remove") then "true" else "false" in
    lsps ← reading (fun db => Ok (ListNormalLogicalSwitchPorts true {[associatedSgKeyPrefix +:+ sgName := associated]} db));
    for_each (fun lsp => wrapping "set logical switch port %s security group %s: %w" [lsp_Name lsp; sgName]
                           (_ ← SetLogicalSwitchPortSecurityGroup lsp op [sgName]; mret ())) lsps.

Definition EnablePortLayer2forward (lspName : string) : DB () :=
  lsp ← reading (get_port lspName);
  if slice_contains (lsp_Addresses lsp) "unknown" then mret ()
  else wrapping "set logical switch port %s addressed=unknown: %w" [lspName]
         (UpdateLogicalSwitchPort lspName (set_lsp_addresses (lsp_Addresses lsp ++ ["unknown"]))).

Definition SetLogicalSwitchPortVlanTag (lspName : string) (vlanID : Z) : DB () :=
  if (vlanID <? 0) || (4095 <? vlanID) then lift (Err (Errorf "invalid vlan id %d" [Itoa vlanID]))
  else
    lsp ← reading (get_port lspName);
    if bool_decide (lsp_Tag lsp = Some vlanID) then mret ()
    else wrapping "set logical switch port %s tag %d: %w" [lspName; Itoa vlanID]
           (UpdateLogicalSwitchPort lspName (set_lsp_tag (if vlanID =? 0 then None else Some vlanID))).

(** [updateLSPDHCPPointers], of a port that was read before. *)
Definition updateLSPDHCPPointers (lsp : LogicalSwitchPort) (dhcpOptions : option DHCPOptionsUUIDs) : DB () :=
  let v4 := match dhcpOptions with Some o => not_empty (DHCPv4OptionsUUID o) | None => None end in
  let v6 := match dhcpOptions with Some o => not_empty (DHCPv6OptionsUUID o) | None => None end in
  if bool_decide (lsp_Dhcpv4Options lsp = v4) && bool_decide (lsp_Dhcpv6Options lsp = v6) then mret ()
  else UpdateLogicalSwitchPort (lsp_Name lsp) (set_lsp_dhcp v4 v6).

Definition SetLogicalSwitchPortDHCPOptions (portName : string) (dhcpOptions : option DHCPOptionsUUIDs) : DB () :=
  lsp ← reading (get_port portName); updateLSPDHCPPointers lsp dhcpOptions.

(** The options of a port: its own, with those of the subnet for a family it has
    none for, or, when it has none any more, those of the subnet.  The second
    result tells whether the port has its own. *)
Definition ReconcilePortDHCPOptions (buf4 buf6 : bytes) (lsName portName : string) (subnetDHCP : option DHCPOptionsUUIDs)
    (cidrBlock gateway v4Options v6Options : string) (mtu : Z) : DB (option DHCPOptionsUUIDs * bool) :=
  if negb (bool_decide (v4Options = "")) || negb (bool_decide (v6Options = "")) then
    perPort ← UpdateDHCPOptionsForPort buf4 buf6 lsName portName cidrBlock gateway v4Options v6Options mtu;
    let or_subnet u get := match subnetDHCP with Some s => if bool_decide (u = "") then get s else u | None => u end in
    let result := mkDhcp (or_subnet (DHCPv4OptionsUUID perPort) DHCPv4OptionsUUID) (or_subnet (DHCPv6OptionsUUID perPort) DHCPv6OptionsUUID) in
    lsp ← reading (GetLogicalSwitchPort portName true);
    _ ← match lsp with Some p => updateLSPDHCPPointers p (Some result) | None => mret () end;
    mret (Some result, true)
  else
    lsp ← reading (GetLogicalSwitchPort portName true);
    match lsp with
    | None => mret (subnetDHCP, false)
    | Some p =>
        let subnetV4 := match subnetDHCP with Some s => DHCPv4OptionsUUID s | None => "" end in
        let subnetV6 := match subnetDHCP with Some s => DHCPv6OptionsUUID s | None => "" end in
        if bool_decide (default "" (lsp_Dhcpv4Options p) = subnetV4) && bool_decide (default "" (lsp_Dhcpv6Options p) = subnetV6)
        then mret (subnetDHCP, false)
        else
          _ ← DeleteDHCPOptionsForPort portName;
          _ ← updateLSPDHCPPointers p subnetDHCP;
          mret (subnetDHCP, false)
    end.

(** ** Migration *)

Definition requested (src target : string) (options : gmap string string) : gmap string string :=
  <["activation-strategy" := "rarp"]> (<["requested-chassis" := src +:+ "," +:+ target]> options).

Definition unrequested (options : gmap string string) : gmap string string := delete "activation-strategy" (delete "requested-chassis" options).

Definition SetLogicalSwitchPortActivationStrategy (lspName chassis : string) : DB () :=
  lsp ← reading (get_port lspName);
  let set_ := negb (bool_decide (default "" (lsp_Options lsp !! "requested-chassis") = "")) in
  let options := if set_ then unrequested (lsp_Options lsp) else lsp_Options lsp in
  _ ← (if set_ then UpdateLogicalSwitchPort lspName (set_lsp_options options) else mret ());
  UpdateLogicalSwitchPort lspName (set_lsp_options (requested chassis chassis options)).

Definition GetLogicalSwitchPortMigrateOptions (lspName : string) (db : NbDB) : result (LogicalSwitchPort * string * string) :=
  lsp ← wrapped "failed to get migrator logical switch port %s: %w" [lspName] (get_port lspName db);
  Ok match lsp_Options lsp !! "requested-chassis" with
     | Some chassis => match Split chassis "," with [src; target] => (lsp, src, target) | _ => (lsp, "", "") end
     | None => (lsp, "", "")
     end.

Definition SetLogicalSwitchPortMigrateOptions (lspName srcNodeName targetNodeName : string) : DB () :=
  if bool_decide (srcNodeName = "") || bool_decide (targetNodeName = "")
  then lift (Err (Errorf "src and target node can not be empty on migrator port %s" [lspName]))
  else if bool_decide (srcNodeName = targetNodeName)
  then lift (Err (Errorf "src and target node can not be the same on migrator port %s" [lspName]))
  else
    '(lsp, src, target) ← reading (GetLogicalSwitchPortMigrateOptions lspName);
    if bool_decide (src = srcNodeName) && bool_decide (target = targetNodeName) then mret ()
    else wrapping "failed to set migrator logical switch port %s options requested chassis %s: %w" [lspName; srcNodeName +:+ "," +:+ targetNodeName]
           (UpdateLogicalSwitchPort lspName (set_lsp_options (requested srcNodeName targetNodeName (lsp_Options lsp)))).

Definition ResetLogicalSwitchPortMigrateOptions (lspName srcNodeName targetNodeName : string) (migratedFail : bool) : DB () :=
  lsp ← reading (fun db => wrapped "failed to get migrator logical switch port %s: %w" [lspName] (get_port lspName db));
  match lsp_Options lsp !! "requested-chassis" with
  | None => mret ()
  | Some _ =>
      let options := delete "activation-strategy" (<["requested-chassis" := if migratedFail then srcNodeName else targetNodeName]> (lsp_Options lsp)) in
      wrapping "failed to reset options for migrator logical switch port %s: %w" [lspName] (UpdateLogicalSwitchPort lspName (set_lsp_options options))
  end.

Definition CleanLogicalSwitchPortMigrateOptions (lspName : string) : DB () :=
  lsp ← reading (fun db => wrapped "failed to get migrator logical switch port %s: %w" [lspName] (GetLogicalSwitchPort lspName true db));
  match lsp with
  | None => mret ()
  | Some p =>
      match lsp_Options p !! "requested-chassis" with
      | None => mret ()
      | Some _ => wrapping "failed to clean options for migrator logical switch port %s: %w" [lspName]
                    (UpdateLogicalSwitchPort lspName (set_lsp_options (unrequested (lsp_Options p))))
      end
  end.

(** ** Deleting ports *)

Definition DeleteLogicalSwitchPortByUUID (lsName : string) (uuid : N) : DB () :=
  ops ← reading (DeleteLogicalSwitchPortOp lsName uuid);
  wrapping "failed to delete logical switch port with UUID %s" [Itoa (Z.of_N uuid)] (Transact ops).

Definition DeleteLogicalSwitchPort (lspName : string) : DB () :=
  lsp ← reading (GetLogicalSwitchPort lspName true);
  match lsp with
  | None => mret ()
  | Some p => _ ← logged (DeleteDHCPOptionsForPort lspName); DeleteLogicalSwitchPortByUUID (default "" (lsp_ExternalIDs p !! LogicalSwitchKey)) (lsp_UUID p)
  end.

Definition DeleteLogicalSwitchPorts (externalIDs : gmap string string) (filter : LogicalSwitchPort -> bool) : DB () :=
  ops ← reading (fun db => collect (fun lsp =>
    wrapped "generate operations for deleting logical switch port %s: %w" [lsp_Name lsp]
      (DeleteLogicalSwitchPortOp (default "" (lsp_ExternalIDs lsp !! LogicalSwitchKey)) (lsp_UUID lsp) db))
    (ListLogicalSwitchPorts false externalIDs filter db));
  wrapping "del logical switch ports: %w" [] (Transact (concat ops)).
