(* ===== verification/NbGroups.v ===== *)
(** * Port groups and address sets ([pkg/ovs/ovn-nb-port_group.go], [pkg/ovs/ovn-nb-address_set.go])

    The members of a port group are the UUIDs of switch ports; the addresses of a
    set are texts. *)
From Stdlib Require Import Ascii.
From S2P Require Import Prelude GoStrings GoNet UtilNet GoText NbDb NbDhcp NbLsp.

Local Open Scope Z_scope.

(** The tag every object of the controller has. *)
Definition tagged (externalIDs : gmap string string) : gmap string string := <["vendor" := CniTypeName]> externalIDs.

(** ** Port groups *)

Definition GetPortGroup (pgName : string) (ignoreNotFound : bool) (db : NbDB) : result (option PortGroup) :=
  if bool_decide (pgName = "") then Err (Errorf "port group name is empty" [])
  else match o_pgs (nb_obj db) !! pgName with
       | Some pg => Ok (Some pg)
       | None => if ignoreNotFound then Ok None else Err (Errorf "get port group %s: %w" [pgName])
       end.

Definition PortGroupExists (pgName : string) (db : NbDB) : result bool :=
  pg ← GetPortGroup pgName true db; Ok (bool_decide (is_Some pg)).

Definition UpdatePortGroup (pgName : string) (externalIDs : gmap string string) : DB () :=
  wrapping "update port group %s: %w" [pgName] (Transact [OpPgIds pgName externalIDs]).

Definition CreatePortGroup (pgName : string) (externalIDs : gmap string string) : DB () :=
  pg ← reading (GetPortGroup pgName true);
  match pg with
  | Some pg =>
      if bool_decide (pg_ExternalIDs pg = tagged externalIDs) then mret ()
      else wrapping "failed to update port group %s external IDs: %w" [pgName] (UpdatePortGroup pgName (tagged externalIDs))
  | None => wrapping "create port group %s: %w" [pgName] (Transact [OpPgCreate pgName (tagged externalIDs)])
  end.

(** No port is no operation. *)
Definition portGroupUpdatePortOp (pgName : string) (uuids : gset N) (insert : bool) (db : NbDB) : result (list operation) :=
  if bool_decide (uuids = ∅) then Ok []
  else pg ← wrapped "get port group %s: %w" [pgName] (GetPortGroup pgName false db); Ok [OpPgPorts pgName insert uuids].

(** The UUIDs of the ports that exist. *)
Definition port_uuids (names : list string) (db : NbDB) : result (gset N) :=
  lsps ← collect (fun name => GetLogicalSwitchPort name true db) names;
  Ok (list_to_set (lsp_UUID <$> omap id lsps)).

Definition PortGroupSetPorts (pgName : string) (ports : list string) : DB () :=
  if bool_decide (pgName = "") then lift (Err (Errorf "port group name is empty" []))
  else
    pg ← reading (fun db => wrapped "get port group %s: %w" [pgName] (GetPortGroup pgName false db));
    expected ← reading (port_uuids ports);
    let existing := match pg with Some g => pg_Ports g | None => ∅ end in
    insertOps ← reading (fun db => wrapped "failed generate operations for adding ports %v to port group %s: %w" [pgName]
                                     (portGroupUpdatePortOp pgName (expected ∖ existing) true db));
    deleteOps ← reading (fun db => wrapped "failed generate operations for deleting ports %v from port group %s: %w" [pgName]
                                     (portGroupUpdatePortOp pgName (existing ∖ expected) false db));
    wrapping "port group %s set ports %v: %w" (pgName :: ports) (Transact (insertOps ++ deleteOps)).

Definition PortGroupUpdatePorts (pgName : string) (insert : bool) (lspNames : list string) : DB () :=
  match lspNames with
  | [] => mret ()
  | _ =>
      uuids ← reading (port_uuids lspNames);
      ops ← reading (fun db => wrapped "generate operations for port group %s update ports %v: %w" (pgName :: lspNames)
                                 (portGroupUpdatePortOp pgName uuids insert db));
      wrapping "port group %s update ports %v: %w" (pgName :: lspNames) (Transact ops)
  end.

Definition PortGroupAddPorts (pgName : string) (lspNames : list string) : DB () := PortGroupUpdatePorts pgName true lspNames.
Definition PortGroupRemovePorts (pgName : string) (lspNames : list string) : DB () := PortGroupUpdatePorts pgName false lspNames.

(** The name of a group that exists, and of those of a list. *)
Definition existing_group (fmt : string) (db : NbDB) (name : string) : result (option string) :=
  pg ← wrapped fmt [name] (GetPortGroup name true db);
  Ok (match pg with Some _ => Some name | None => None end).

Definition existing_groups (fmt : string) (names : list string) (db : NbDB) : result (list string) :=
  groups ← collect (existing_group fmt db) names; Ok (omap (M := list) id groups).

Definition DeletePortGroup (pgNames : list string) : DB () :=
  delList ← reading (existing_groups "get port group %s when delete: %w" pgNames);
  match delList with
  | [] => mret ()
  | _ => wrapping "delete port group %s: %w" pgNames (Transact [OpPgDelete delList])
  end.

(** No external id asks for every group. *)
Definition ListPortGroups (externalIDs : gmap string string) (db : NbDB) : list string :=
  (filter (fun kv => bool_decide (externalIDs = ∅) || ids_match (pg_ExternalIDs kv.2) externalIDs = true) (map_to_list (o_pgs (nb_obj db)))).*1.

(** Without names, all groups are looked at. *)
Definition RemovePortFromPortGroups (portName : string) (portGroupNames : list string) : DB () :=
  lsp ← reading (fun db => wrapped "failed to get logical switch port %s: %w" [portName] (GetLogicalSwitchPort portName true db));
  match lsp with
  | None => mret ()
  | Some p =>
      ops ← reading (fun db =>
        names ← match portGroupNames with
                | [] => Ok (ListPortGroups ∅ db)
                | _ => existing_groups "failed to get port group %s: %w" portGroupNames db
                end;
        ops ← collect (fun name =>
          match o_pgs (nb_obj db) !! name with
          | Some g => if bool_decide (lsp_UUID p ∈ pg_Ports g)
                      then wrapped "failed to generate operations for removing port %s from port group %s: %w" [portName; name]
                             (portGroupUpdatePortOp name {[lsp_UUID p]} false db)
                      else Ok []
          | None => Ok []
          end) names;
        Ok (concat ops));
      wrapping "failed to remove port %s from all port groups: %w" [portName] (Transact ops)
  end.

(** ** Address sets *)

(** [[a-zA-Z_.][a-zA-Z_.0-9]*]. *)
Definition as_char (c : ascii) : bool :=
  ((97 <=? code c) && (code c <=? 122)) || ((65 <=? code c) && (code c <=? 90)) || bool_decide (c = "_"%char) || bool_decide (c = "."%char).

Fixpoint as_chars (s : string) : bool :=
  match s with EmptyString => true | String c s' => (as_char c || is_digit c) && as_chars s' end.

Definition matchAddressSetName (asName : string) : bool :=
  match asName with EmptyString => false | String c s => as_char c && as_chars s end.

Definition GetAddressSet (asName : string) (ignoreNotFound : bool) (db : NbDB) : result (option AddressSet) :=
  match o_sets (nb_obj db) !! asName with
  | Some s => Ok (Some s)
  | None => if ignoreNotFound then Ok None else Err (Errorf "get address set %s: %w" [asName])
  end.

Definition AddressSetExists (name : string) (db : NbDB) : result bool :=
  s ← GetAddressSet name true db; Ok (bool_decide (is_Some s)).

Definition CreateAddressSet (asName : string) (externalIDs : gmap string string) : DB () :=
  if negb (matchAddressSetName asName) then lift (Err (Errorf "address set %s must match `[a-zA-Z_.][a-zA-Z_.0-9]*`" [asName]))
  else
    exists_ ← reading (AddressSetExists asName);
    if exists_ : bool then mret ()
    else wrapping "create address set %s: %w" [asName] (Transact [OpAsCreate asName (tagged externalIDs)]).

(** A CIDR as the network it names; other texts stay. *)
Definition normalize (addr : string) : string :=
  if contains_char "/"%char addr then match ParseCIDR addr with Some (_, n) => IPNet_String n | None => addr end else addr.

Definition normalizeAddresses (addresses : list string) : gset string := list_to_set (normalize <$> addresses).

Definition UpdateAddressSet (asName : string) (addresses : gset string) : DB () :=
  wrapping "update address set %s: %w" [asName] (Transact [OpAsSet asName addresses]).

Definition AddressSetUpdateAddress (asName : string) (addresses : list string) : DB () :=
  s ← reading (fun db => wrapped "get address set %s: %w" [asName] (GetAddressSet asName false db));
  let expected := normalizeAddresses addresses in
  let current := match s with Some x => as_Addresses x | None => ∅ end in
  if bool_decide (expected = current) then mret ()
  else wrapping "set address set %s addresses %v: %w" (asName :: elements expected) (UpdateAddressSet asName expected).

Definition existing_sets (names : list string) (db : NbDB) : list string := filter (fun name => is_Some (o_sets (nb_obj db) !! name)) names.

Definition DeleteAddressSet (asNames : list string) : DB () :=
  delList ← reading (fun db => Ok (existing_sets asNames db));
  match delList with
  | [] => mret ()
  | _ => wrapping "delete address set %s: %w" asNames (Transact [OpAsDelete delList])
  end.

(** The sets of the cache whose name is in the list. *)
Definition BatchDeleteAddressSetByNames (asNames : list string) : DB () :=
  asList ← reading (fun db => Ok (filter (fun name => name ∈ asNames) (map_to_list (o_sets (nb_obj db))).*1));
  match asList with
  | [] => mret ()
  | _ => wrapping "batch delete address set %d failed: %w" [Itoa (len asList)] (Transact [OpAsDelete asList])
  end.

Definition addressSetFilter (externalIDs : gmap string string) (s : AddressSet) : bool := ids_match (as_ExternalIDs s) externalIDs.

Definition ListAddressSets (externalIDs : gmap string string) (db : NbDB) : list string :=
  (filter (fun kv => addressSetFilter externalIDs kv.2 = true) (map_to_list (o_sets (nb_obj db)))).*1.

(** No external id would select every set. *)
Definition DeleteAddressSets (externalIDs : gmap string string) : DB () :=
  if bool_decide (externalIDs = ∅) then mret ()
  else
    names ← reading (fun db => Ok (ListAddressSets externalIDs db));
    wrapping "delete address sets with external IDs %v: %w" [] (Transact (match names with [] => [] | _ => [OpAsDelete names] end)).
