(* ===== verification/NbAcl.v ===== *)
(** * The ACL table of the northbound database ([pkg/ovs/ovn-nb-acl.go])

    Reading ACLs, building them, and the calls that change the ACLs of a port
    group or a logical switch. *)
From S2P Require Import Prelude GoStrings GoNet UtilNet GoText AclMatch NbDb.

Local Open Scope Z_scope.

Definition ACLDirectionToLport : string := "to-lport".
Definition ACLDirectionFromLport : string := "from-lport".
Definition ACLActionAllow : string := "allow".
Definition ACLActionAllowRelated : string := "allow-related".
Definition ACLActionAllowStateless : string := "allow-stateless".
Definition ACLActionDrop : string := "drop".
Definition ACLActionPass : string := "pass".

Definition AnpACLTier : Z := 1.
Definition NetpolACLTier : Z := 2.
Definition BanpACLTier : Z := 3.

(** ** Reading ACLs *)

Inductive ACLErrorType := ACLErrorNotFound | ACLErrorDuplicated | ACLErrorDatabase.

(** An [ACLError], or another error. *)
Inductive get_error := ACLError (type : ACLErrorType) (msg : string) (args : list string) | OtherError (e : err).

Definition has_key (parent direction match_ : string) (priority tier : Z) (acl : ACL) : bool :=
  bool_decide (acl_ExternalIDs acl <> ∅) && bool_decide (acl_Parent acl = parent) && bool_decide (acl_Direction acl = direction) &&
  (acl_Priority acl =? priority) && bool_decide (acl_Match acl = match_) && (tier =? acl_Tier acl).

Definition GetACL (parent direction priority match_ : string) (tier : Z) (ignoreNotFound : bool) (db : NbDB)
    : option row + get_error :=
  if bool_decide (parent = "") then inr (OtherError (Errorf "the port group name or logical switch name is required" []))
  else
    let args := [parent; direction; priority; match_; Itoa tier] in
    match filter (fun r => has_key parent direction match_ (Atoi_value priority) tier r.2 = true) (all_rows db) with
    | [] =>
        if ignoreNotFound then inl None
        else inr (ACLError ACLErrorNotFound "not found acl with 'parent %s direction %s priority %s match %s tier %d '" args)
    | [r] => inl (Some r)
    | _ => inr (ACLError ACLErrorDuplicated "more than one acl with same 'parent %s direction %s priority %s match %s tier %d '" args)
    end.

(** A get error as the error a caller returns. *)
Definition plain_error (e : get_error) : err := match e with ACLError _ msg args => Errorf msg args | OtherError e => e end.

Definition ACLExists (parent direction priority match_ : string) (tier : Z) (db : NbDB) : result bool :=
  match GetACL parent direction priority match_ tier true db with
  | inl o => Ok (bool_decide (is_Some o))
  | inr (ACLError ACLErrorDuplicated _ _) => Ok true
  | inr e => Err (plain_error e)
  end.

(** An external id of a filter: a value to equal, or any value when empty. *)
Definition id_matches (ids : gmap string string) (kv : string * string) : bool :=
  let v := default "" (ids !! kv.1) in
  if bool_decide (kv.2 = "") then negb (bool_decide (v = "")) else bool_decide (v = kv.2).

Definition aclFilter (direction : string) (externalIDs : gmap string string) (acl : ACL) : bool :=
  negb (size (acl_ExternalIDs acl) <? size externalIDs)%nat &&
  (bool_decide (acl_ExternalIDs acl = ∅) || forallb (id_matches (acl_ExternalIDs acl)) (map_to_list externalIDs)) &&
  (bool_decide (direction = "") || bool_decide (acl_Direction acl = direction)).

Definition ListAcls (direction : string) (externalIDs : gmap string string) (db : NbDB) : list row :=
  filter (fun r => aclFilter direction externalIDs r.2 = true) (all_rows db).

(** ** Building ACLs *)

(** The row of [newACL] and [newACLWithoutCheck]; its UUID is given when it is
    stored. *)
Definition bare_acl (parent direction priority match_ action : string) (tier : Z) : ACL :=
  mkACL None action direction match_ (Atoi_value priority) {[aclParentKey := parent; "vendor" := CniTypeName]} tier false None None ∅.

Definition required (parent direction priority match_ action : string) : option err :=
  if bool_decide (parent = "") then Some (Errorf "the port group name or logical switch name is required" [])
  else if bool_decide (direction = "") || bool_decide (priority = "") || bool_decide (match_ = "") || bool_decide (action = "")
  then Some (Errorf "acl 'direction %s' and 'priority %s' and 'match %s' and 'action %s' is required" [direction; priority; match_; action])
  else None.

Definition newACLWithoutCheck (parent direction priority match_ action : string) (tier : Z) (options : ACL -> ACL) : result ACL :=
  match required parent direction priority match_ action with
  | Some e => Err e
  | None => Ok (options (bare_acl parent direction priority match_ action tier))
  end.

(** [None] stands for the nil of an ACL that exists. *)
Definition newACL (parent direction priority match_ action : string) (tier : Z) (options : ACL -> ACL) (db : NbDB) : result (option ACL) :=
  match required parent direction priority match_ action with
  | Some e => Err e
  | None =>
      exists_ ← wrapped "get parent %s acl: %w" [parent] (ACLExists parent direction priority match_ tier db);
      Ok (if exists_ : bool then None else Some (options (bare_acl parent direction priority match_ action tier)))
  end.

(** ** Operations on the ACLs of a parent *)

(** [portGroupUpdateACLOp] and [logicalSwitchUpdateACLOp] read the parent. *)
Definition find_parent (parentType parentName : string) (db : NbDB) : result () :=
  match parents parentType db !! parentName with
  | Some _ => Ok ()
  | None => Err (Errorf (if bool_decide (parentType = portGroupKey) then "get port group %s: %w"
                         else "get logical switch %s when generate mutate operations: %w") [parentName])
  end.

Definition CreateAclsOps (parentName parentType : string) (acls : list (option ACL)) (db : NbDB) : result (list operation) :=
  if negb (bool_decide (parentType = portGroupKey)) && negb (bool_decide (parentType = LogicalSwitchKey))
  then Err (Errorf "acl parent type must be '%s' or '%s'" [portGroupKey; LogicalSwitchKey])
  else
    match omap id acls with
    | [] => Ok []
    | models =>
        _ ← wrapped (if bool_decide (parentType = portGroupKey) then "generate operations for adding acls to port group %s: %w"
                     else "generate operations for adding acls to logical switch %s: %w") [parentName]
              (find_parent parentType parentName db);
        Ok [OpInsert parentType parentName models]
    end.

Definition DeleteAclsOps (parentName parentType direction : string) (externalIDs : gmap string string) (db : NbDB) : result (list operation) :=
  if bool_decide (parentName = "") then Err (Errorf "the port group name or logical switch name is required" [])
  else
    match (ListAcls direction (<[aclParentKey := parentName]> externalIDs) db).*1 with
    | [] => Ok []
    | uuids =>
        _ ← wrapped (if bool_decide (parentType = portGroupKey) then "generate operations for deleting acls from port group %s: %w"
                     else "generate operations for deleting acls from logical switch %s: %w") [parentName]
              (find_parent parentType parentName db);
        Ok [OpRemove parentType parentName uuids]
    end.

Definition CreateAcls (parentName parentType : string) (acls : list (option ACL)) : DB () :=
  ops ← reading (CreateAclsOps parentName parentType acls);
  wrapping "add acls to type %s %s: %w" [parentType; parentName] (Transact ops).

(** An ACL without a parent, which the database collects at the end of the
    transaction.  What the client makes of a nil ACL is a parameter. *)
Definition CreateBareACL (create_nil : outcome (result operation)) (parentName direction priority match_ action : string) : DB () :=
  let args := [direction; priority; match_; action] in
  acl ← wrapping "new acl direction %s priority %s match %s action %s: %w" args
          (reading (newACL parentName direction priority match_ action NetpolACLTier (fun a => a)));
  op ← wrapping "generate operations for creating acl direction %s priority %s match %s action %s: %w" args
         match acl with
         | Some a => lift (Ok (OpAclAlone a))
         | None => r ← running create_nil; lift r
         end;
  wrapping "create acl direction %s priority %s match %s action %s: %w" args (Transact [op]).

Definition DeleteAcls (parentName parentType direction : string) (externalIDs : gmap string string) : DB () :=
  ops ← reading (DeleteAclsOps parentName parentType direction externalIDs);
  wrapping "del acls from type %s %s: %w" [parentType; parentName] (Transact ops).

Definition DeleteACL (parentName parentType direction priority match_ : string) (tier : Z) : DB () :=
  acl ← reading (fun db => match GetACL parentName direction priority match_ tier true db with
                           | inl o => Ok o
                           | inr e => Err (plain_error e)
                           end);
  match acl with
  | None => mret ()
  | Some r =>
      _ ← reading (fun db => wrapped (if bool_decide (parentType = portGroupKey) then "generate operations for deleting acl from port group %s: %w"
                                      else "generate operations for deleting acl from logical switch %s: %w") [parentName]
                               (find_parent parentType parentName db));
      wrapping "del acls from type %s %s: %w" [parentType; parentName] (Transact [OpRemove parentType parentName [r.1]])
  end.

(** The change of the columns of one row. *)
Definition UpdateACL (r : row) (change : ACL -> ACL) : DB () :=
  wrapping "update acl with 'direction %s priority %d match %s': %w"
    [acl_Direction r.2; Itoa (acl_Priority r.2); acl_Match r.2] (Transact [OpUpdate r.1 change]).

(** ** Meters of the northbound database ([pkg/ovs/ovn-nb-meter.go])

    A meter has a unit and bands; the bands are rows the meter refers to, so they
    are kept with it, and a band a meter refers to is in the cache. *)

Definition MeterUnitPktps : string := "pktps".

Definition GetMeter (name : string) (ignoreNotFound : bool) (db : NbDB) : result (option (string * list (Z * Z))) :=
  if bool_decide (name = "") then Err (Errorf "meter name is empty" [])
  else match nb_meters db !! name with
       | Some m => Ok (Some m)
       | None => if ignoreNotFound then Ok None else Err (Errorf "get meter %s: %w" [name])
       end.

Definition MeterExists (name : string) (db : NbDB) : result bool :=
  m ← GetMeter name true db; Ok (bool_decide (is_Some m)).

Definition createMeterWithBand (name unit : string) (rate burst : Z) : DB () :=
  wrapping "create meter %s: %w" [name] (Transact [OpMeter name (Some (unit, [(rate, burst)]))]).

(** The first band is changed; a meter without bands gets one. *)
Definition updateMeterAndBand (name : string) (meter : string * list (Z * Z)) (unit : string) (rate burst : Z) : DB () :=
  let bands := match meter.2 with [] => [(rate, burst)] | _ :: l => (rate, burst) :: l end in
  wrapping "update meter %s: %w" [name] (Transact [OpMeter name (Some (unit, bands))]).

Definition DeleteMeter (name : string) : DB () := fun db =>
  match nb_meters db !! name with
  | None => Done (Ok (), db)
  | Some _ => wrapping "failed to delete meter %s: %w" [name] (Transact [OpMeter name None]) db
  end.

Definition CreateOrUpdateMeter (name unit : string) (rate burst : Z) : DB () :=
  if rate <=? 0 then DeleteMeter name
  else
    exists_ ← reading (fun db => wrapped "check meter exists %s: %w" [name] (MeterExists name db));
    if exists_ : bool then
      meter ← reading (fun db => wrapped "get meter %s: %w" [name] (GetMeter name false db));
      match meter with
      | Some m => updateMeterAndBand name m unit rate burst
      | None => mret ()
      end
    else createMeterWithBand name unit rate burst.
