(* ===== verification/NbAclFacts.v ===== *)
(** * Facts about the ACL table

    The invariant of the table, and what the calls on the ACLs of one parent do
    to them when the server accepts. *)
From S2P Require Import Prelude GoStrings GoNet UtilNet GoText AclMatch NbDb NbAcl.

Local Open Scope Z_scope.

Definition rows_at (parentType parent : string) (db : NbDB) : list row := default [] (parents parentType db !! parent).
Definition acls_at (parentType parent : string) (db : NbDB) : list ACL := (rows_at parentType parent db).*2.

Definition parent_type (t : string) : Prop := t = portGroupKey \/ t = LogicalSwitchKey.

(** UUIDs are unique and below the next one, the rows of a parent carry its
    name, and no port group has the name of a switch. *)
Record nb_ok (db : NbDB) : Prop := {
  ok_unique : NoDup (all_rows db).*1;
  ok_next : Forall (fun r => (r.1 < nb_next db)%N) (all_rows db);
  ok_parent : forall t p rows, parent_type t -> parents t db !! p = Some rows -> Forall (fun r => acl_Parent r.2 = p) rows;
  ok_names : dom (nb_pgs db) ## dom (nb_lss db)
}.

(** ** The rows of a parent among all rows *)

Lemma elem_rows_of x r : r ∈ rows_of x <-> exists p rows, x !! p = Some rows /\ r ∈ rows.
Proof.
  unfold rows_of. rewrite list_elem_of_bind. split.
  - intros (rows & Hr & Hin). apply list_elem_of_fmap in Hin as ([p rows'] & -> & Hin). apply elem_of_map_to_list in Hin. by exists p, rows'.
  - intros (p & rows & Hx & Hr). exists rows. split; [done|]. apply list_elem_of_fmap. exists (p, rows). split; [done|]. by apply elem_of_map_to_list.
Qed.

Lemma elem_all_rows db r : r ∈ all_rows db <-> exists t p rows, parent_type t /\ parents t db !! p = Some rows /\ r ∈ rows.
Proof.
  unfold all_rows, parents. rewrite elem_of_app, !elem_rows_of. split.
  - intros [(p & rows & Hx & Hr)|(p & rows & Hx & Hr)].
    + exists portGroupKey, p, rows. split_and!; [by left| |done]. by rewrite bool_decide_true.
    + exists LogicalSwitchKey, p, rows. split_and!; [by right| |done]. by rewrite bool_decide_false.
  - intros (t & p & rows & [-> | ->] & Hx & Hr).
    + rewrite bool_decide_true in Hx by done. left. by exists p, rows.
    + rewrite bool_decide_false in Hx by done. right. by exists p, rows.
Qed.

Lemma elem_rows_at t p db r : r ∈ rows_at t p db <-> exists rows, parents t db !! p = Some rows /\ r ∈ rows.
Proof.
  unfold rows_at. destruct (parents t db !! p) as [rows|]; simpl.
  - split; [by exists rows|]. by intros (? & [= <-] & ?).
  - split; [by intros ?%elem_of_nil|by intros (? & ? & _)].
Qed.

(** Rows that carry the name of a parent are the rows of that parent. *)
Lemma rows_with_parent db t p r : nb_ok db -> parent_type t -> is_Some (parents t db !! p) ->
  r ∈ all_rows db -> acl_Parent r.2 = p -> r ∈ rows_at t p db.
Proof.
  intros Hok Ht [rows0 H0] Hin Hp. apply elem_all_rows in Hin as (t' & p' & rows & Ht' & Hx & Hr).
  pose proof (ok_parent _ Hok t' p' rows Ht' Hx) as Hall. rewrite Forall_forall in Hall. rewrite (Hall r Hr) in Hp. subst p'.
  apply elem_rows_at. exists rows. split; [|done]. pose proof (ok_names _ Hok) as Hd.
  unfold parents in *. destruct Ht as [-> | ->], Ht' as [-> | ->];
    rewrite ?(bool_decide_true (portGroupKey = portGroupKey)), ?(bool_decide_false (LogicalSwitchKey = portGroupKey)) in * by done; [done| | |done].
  - exfalso. apply (Hd p); by apply elem_of_dom.
  - exfalso. apply (Hd p); by apply elem_of_dom.
Qed.

Lemma rows_at_all db t p r : parent_type t -> r ∈ rows_at t p db -> r ∈ all_rows db.
Proof. intros Ht Hr. apply elem_rows_at in Hr as (rows & Hx & Hr). apply elem_all_rows. by exists t, p, rows. Qed.

Lemma rows_at_parent db t p r : nb_ok db -> parent_type t -> r ∈ rows_at t p db -> acl_Parent r.2 = p.
Proof.
  intros Hok Ht Hr. apply elem_rows_at in Hr as (rows & Hx & Hr). pose proof (ok_parent _ Hok t p rows Ht Hx) as Hall.
  rewrite Forall_forall in Hall. by apply Hall.
Qed.

(** ** Existence of an ACL *)

Definition key_of (a : ACL) : string * string * Z * string * Z :=
  (acl_Parent a, acl_Direction a, acl_Priority a, acl_Match a, acl_Tier a).

Lemma has_key_iff parent direction m priority tier a : parent <> "" ->
  has_key parent direction m priority tier a = true <-> key_of a = (parent, direction, priority, m, tier).
Proof.
  intros Hp. unfold has_key, key_of. rewrite !andb_true_iff, !bool_decide_eq_true, !Z.eqb_eq. split.
  - intros (((((_ & ->) & ->) & ->) & ->) & <-). done.
  - intros [= E <- <- <- <-]. rewrite E. split_and!; try done. intros Hn. unfold acl_Parent in E. rewrite Hn, lookup_empty in E. done.
Qed.

(** [ACLExists] finds the row, or rows, with the key. *)
Lemma ACLExists_iff parent direction priority m tier db : parent <> "" ->
  ACLExists parent direction priority m tier db =
  Ok (bool_decide (Exists (fun r => key_of r.2 = (parent, direction, Atoi_value priority, m, tier)) (all_rows db))).
Proof.
  intros Hp. unfold ACLExists, GetACL. rewrite bool_decide_false by done.
  remember (filter (fun r => has_key parent direction m (Atoi_value priority) tier r.2 = true) (all_rows db)) as l eqn:El.
  assert (Hl : l <> [] <-> Exists (fun r => key_of r.2 = (parent, direction, Atoi_value priority, m, tier)) (all_rows db)).
  { rewrite Exists_exists. split.
    - destruct l as [|r l']; [done|]. intros _. exists r. assert (Hr : r ∈ r :: l') by by left.
      rewrite El in Hr. apply list_elem_of_filter in Hr as [Hk Hr]. split; [done|]. by apply has_key_iff.
    - intros (r & Hr & Hk) Hn. apply (has_key_iff _ _ _ _ _ _ Hp) in Hk. assert (Hin : r ∈ l) by (rewrite El; by apply list_elem_of_filter).
      rewrite Hn in Hin. by apply elem_of_nil in Hin. }
  destruct l as [|r [|r' l']].
  - rewrite (bool_decide_false (is_Some None)) by (by intros []). rewrite bool_decide_false; [done|]. rewrite <-Hl. intros Hn. by apply Hn.
  - by rewrite !bool_decide_true by (by eexists || by apply Hl).
  - by rewrite bool_decide_true by (by apply Hl).
Qed.

(** ** New ACLs *)

Lemma bare_parent parent direction priority m action tier : acl_Parent (bare_acl parent direction priority m action tier) = parent.
Proof. unfold acl_Parent, bare_acl. simpl. by rewrite lookup_insert_eq. Qed.

Lemma newACL_fresh parent direction priority m action tier options db :
  parent <> "" -> direction <> "" -> priority <> "" -> m <> "" -> action <> "" ->
  ~ Exists (fun r => key_of r.2 = (parent, direction, Atoi_value priority, m, tier)) (all_rows db) ->
  newACL parent direction priority m action tier options db = Ok (Some (options (bare_acl parent direction priority m action tier))).
Proof.
  intros Hp Hd Hr Hm Ha Hno. unfold newACL, required. rewrite !bool_decide_false by done. cbn [orb].
  rewrite ACLExists_iff by done. cbn. by rewrite bool_decide_false.
Qed.

(** ** Changing the rows of a parent *)

Definition put (t p : string) (rows : list row) (db : NbDB) : NbDB := set_parents t (<[p := rows]> (parents t db)) db.

Lemma rows_of_put p rows x : exists rest, rows_of x ≡ₚ default [] (x !! p) ++ rest /\ rows_of (<[p := rows]> x) ≡ₚ rows ++ rest.
Proof.
  exists (rows_of (delete p x)). unfold rows_of. split.
  - destruct (x !! p) as [old|] eqn:E; simpl.
    + rewrite <-(insert_delete_id x p old) at 1 by done. rewrite map_to_list_insert by (apply lookup_delete_eq). done.
    + by rewrite delete_id.
  - rewrite <-insert_delete_eq. rewrite map_to_list_insert by (apply lookup_delete_eq). done.
Qed.

Lemma all_rows_put t p rows db : parent_type t -> exists rest,
  all_rows db ≡ₚ rows_at t p db ++ rest /\ all_rows (put t p rows db) ≡ₚ rows ++ rest.
Proof.
  intros [-> | ->]; unfold all_rows, put, rows_at, parents, set_parents.
  - rewrite !(bool_decide_true (portGroupKey = portGroupKey)) by done.
    destruct (rows_of_put p rows (nb_pgs db)) as (rest & H1 & H2). exists (rest ++ rows_of (nb_lss db)). simpl.
    rewrite H1, H2. by rewrite !app_assoc.
  - rewrite !(bool_decide_false (LogicalSwitchKey = portGroupKey)) by done.
    destruct (rows_of_put p rows (nb_lss db)) as (rest & H1 & H2). exists (rest ++ rows_of (nb_pgs db)). simpl.
    rewrite H1, H2. rewrite (Permutation_app_comm rest). rewrite !app_assoc. split; f_equiv; apply Permutation_app_comm.
Qed.

Lemma parents_put t p rows db t' p' : parent_type t -> parent_type t' ->
  parents t' (put t p rows db) !! p' = if bool_decide (t' = t /\ p' = p) then Some rows else parents t' db !! p'.
Proof.
  intros Ht Ht'. unfold put, parents, set_parents.
  destruct Ht as [-> | ->], Ht' as [-> | ->];
    rewrite ?(bool_decide_true (portGroupKey = portGroupKey)), ?(bool_decide_false (LogicalSwitchKey = portGroupKey)) by done;
    cbn [nb_pgs nb_lss set_pgs set_lss].
  all: destruct (decide (p' = p)) as [->|Hne]; [|rewrite bool_decide_false by tauto; rewrite ?lookup_insert_ne by done; done].
  - by rewrite bool_decide_true, lookup_insert_eq.
  - by rewrite bool_decide_false by (intros [? _]; done).
  - by rewrite bool_decide_false by (intros [? _]; done).
  - by rewrite bool_decide_true, lookup_insert_eq.
Qed.

Lemma rows_at_put t p rows db : parent_type t -> rows_at t p (put t p rows db) = rows.
Proof. intros Ht. unfold rows_at. rewrite parents_put by done. by rewrite bool_decide_true. Qed.

Lemma put_id t p rows db : parent_type t -> parents t db !! p = Some rows -> put t p rows db = db.
Proof.
  intros Ht Hx. unfold put. rewrite insert_id by done. unfold set_parents, parents. destruct db.
  by destruct Ht as [-> | ->].
Qed.

Lemma put_put t p rows rows' db : parent_type t -> put t p rows' (put t p rows db) = put t p rows' db.
Proof.
  intros Ht. unfold put, set_parents, parents. destruct Ht as [-> | ->];
    rewrite ?(bool_decide_true (portGroupKey = portGroupKey)), ?(bool_decide_false (LogicalSwitchKey = portGroupKey)) by done;
    unfold set_pgs, set_lss; simpl; by rewrite insert_insert_eq.
Qed.

Lemma nb_next_put t p rows db : nb_next (put t p rows db) = nb_next db.
Proof. unfold put, set_parents. by destruct (bool_decide _). Qed.

Lemma nb_replies_put t p rows db : nb_replies (put t p rows db) = nb_replies db.
Proof. unfold put, set_parents. by destruct (bool_decide _). Qed.

Lemma put_ok t p rows db n : nb_ok db -> parent_type t -> is_Some (parents t db !! p) -> (nb_next db <= n)%N ->
  Forall (fun r => acl_Parent r.2 = p /\ (r.1 < n)%N) rows -> NoDup rows.*1 ->
  (forall r, r ∈ rows -> r ∈ rows_at t p db \/ (nb_next db <= r.1)%N) ->
  nb_ok (set_next n (put t p rows db)).
Proof.
  intros Hok Ht Hp Hn Hrows Hnd Hfresh. destruct (all_rows_put t p rows db Ht) as (rest & H1 & H2).
  pose proof (ok_next _ Hok) as Hlt. rewrite H1 in Hlt. apply Forall_app in Hlt as [Hlt1 Hlt2].
  pose proof (ok_unique _ Hok) as Hu. rewrite H1, fmap_app in Hu. apply NoDup_app in Hu as (Hu1 & Hu2 & Hu3).
  rewrite Forall_forall in Hrows, Hlt2.
  split.
  - change (all_rows (set_next n (put t p rows db))) with (all_rows (put t p rows db)). rewrite H2, fmap_app. apply NoDup_app.
    split_and!; [done| |done]. intros u Hin Hin'. apply list_elem_of_fmap in Hin as (r & -> & Hr).
    destruct (Hfresh r Hr) as [Hold|Hnew].
    + apply (Hu2 r.1); [|done]. apply list_elem_of_fmap. by exists r.
    + apply list_elem_of_fmap in Hin' as (r' & E & Hr'). specialize (Hlt2 r' Hr'). simpl in Hlt2. rewrite <-E in Hlt2. lia.
  - change (all_rows (set_next n (put t p rows db))) with (all_rows (put t p rows db)). simpl. rewrite H2. apply Forall_app. split.
    + apply Forall_forall. intros r Hr. by apply Hrows.
    + apply Forall_forall. intros r Hr. specialize (Hlt2 r Hr). simpl in Hlt2. lia.
  - intros t' p' rows' Ht' Hx. change (parents t' (set_next n (put t p rows db))) with (parents t' (put t p rows db)) in Hx.
    rewrite parents_put in Hx by done. case_bool_decide as E.
    + destruct E as [-> ->]. injection Hx as <-. apply Forall_forall. intros r Hr. by apply Hrows.
    + by eapply (ok_parent _ Hok).
  - pose proof (ok_names _ Hok) as Hd. unfold put, set_parents, parents in *. destruct Ht as [-> | ->];
      rewrite ?(bool_decide_true (portGroupKey = portGroupKey)), ?(bool_decide_false (LogicalSwitchKey = portGroupKey)) in * by done; simpl.
    + rewrite dom_insert_L. apply elem_of_dom in Hp. by rewrite subseteq_union_1_L by (by apply singleton_subseteq_l).
    + rewrite dom_insert_L. apply elem_of_dom in Hp. by rewrite subseteq_union_1_L by (by apply singleton_subseteq_l).
Qed.

(** ** Deleting *)

(** A filter that asks for the parent. *)
Lemma aclFilter_iff d ids a : aclFilter d ids a = true <->
  (size ids <= size (acl_ExternalIDs a))%nat /\
  (acl_ExternalIDs a = ∅ \/ map_Forall (fun k v => id_matches (acl_ExternalIDs a) (k, v) = true) ids) /\
  (d = "" \/ acl_Direction a = d).
Proof.
  unfold aclFilter. rewrite !andb_true_iff, !orb_true_iff, negb_true_iff, !bool_decide_eq_true, Nat.ltb_ge.
  rewrite forallb_forall. unfold map_Forall. setoid_rewrite <-elem_of_map_to_list. setoid_rewrite <-list_elem_of_In.
  split; (intros [[? Hx] ?] || intros (? & Hx & ?)); split_and!; try done;
    (destruct Hx as [Hx|Hx]; [by left|right]); [intros k v Hin; by apply (Hx (k, v))|intros [k v] Hin; by apply Hx].
Qed.

Lemma aclFilter_parent d p ids a : p <> "" -> aclFilter d (<[aclParentKey := p]> ids) a = true -> acl_Parent a = p.
Proof.
  intros Hp. rewrite aclFilter_iff. intros (Hs & [Hn|Hx] & _).
  - rewrite Hn, map_size_empty in Hs. pose proof (map_size_insert aclParentKey p ids) as Hi.
    assert (size (<[aclParentKey := p]> ids) <> 0%nat); [|lia]. intros E. apply map_size_empty_inv in E.
    by apply insert_non_empty in E.
  - specialize (Hx aclParentKey p). rewrite lookup_insert_eq in Hx. specialize (Hx eq_refl).
    unfold id_matches in Hx. simpl in Hx. rewrite bool_decide_false in Hx by done. by apply bool_decide_eq_true in Hx.
Qed.

(** Only the parent and the direction are asked for. *)
Lemma aclFilter_own d p a : p <> "" -> aclFilter d (<[aclParentKey := p]> ∅) a = true <-> acl_Parent a = p /\ (d = "" \/ acl_Direction a = d).
Proof.
  intros Hp. split.
  - intros Hf. split; [by eapply aclFilter_parent|]. by apply aclFilter_iff in Hf as (_ & _ & ?).
  - intros [Ha Hd]. apply aclFilter_iff. split_and!; [| |done].
    + rewrite insert_empty, map_size_singleton. destruct (size (acl_ExternalIDs a)) eqn:E; [|lia]. apply map_size_empty_inv in E.
      unfold acl_Parent in Ha. rewrite E, lookup_empty in Ha. by destruct Hp.
    + right. intros k v Hk. rewrite insert_empty in Hk. apply lookup_singleton_Some in Hk as [<- <-].
      unfold id_matches. simpl. rewrite bool_decide_false by done. by apply bool_decide_eq_true.
Qed.

Lemma list_filter_iff_in {A} (P Q : A -> Prop) `{!forall x, Decision (P x), !forall x, Decision (Q x)} (l : list A) :
  (forall x, x ∈ l -> P x <-> Q x) -> filter P l = filter Q l.
Proof.
  induction l as [|x l IH]; intros Hl; [done|]. rewrite !filter_cons.
  assert (Hx : P x <-> Q x) by (apply Hl; by left). rewrite IH by (intros y Hy; apply Hl; by right).
  destruct (decide (P x)), (decide (Q x)); tauto.
Qed.

(** Removing by UUID what a predicate selects. *)
Lemma remove_rows (P : ACL -> bool) t p db : nb_ok db -> parent_type t ->
  filter (fun r => r.1 ∉ (filter (fun r => P r.2 = true) (all_rows db)).*1) (rows_at t p db) =
  filter (fun r => P r.2 = false) (rows_at t p db).
Proof.
  intros Hok Ht. apply list_filter_iff_in. intros r Hr. pose proof (rows_at_all _ _ _ _ Ht Hr) as Hin.
  rewrite list_elem_of_fmap. split.
  - intros Hno. apply not_true_iff_false. intros HP. apply Hno. exists r. split; [done|]. by apply list_elem_of_filter.
  - intros HP (r' & E & Hr'). apply list_elem_of_filter in Hr' as [HP' Hin'].
    assert (Hrr : r = r'); [|rewrite Hrr in HP; cbv beta in HP'; by rewrite HP' in HP]. pose proof (ok_unique _ Hok) as Hu.
    apply list_elem_of_lookup in Hin as [i Hi], Hin' as [j Hj].
    assert (Hij : i = j); [|rewrite Hij, Hj in Hi; by injection Hi].
    eapply (NoDup_lookup (all_rows db).*1 i j r.1); [done| |].
    + by rewrite list_lookup_fmap, Hi.
    + by rewrite list_lookup_fmap, Hj, E.
Qed.

(** ** Running calls *)

Lemma bind_done {A B} (m : DB A) (f : A -> DB B) db x db' : m db = Done (Ok x, db') -> mbind f m db = f x db'.
Proof. unfold mbind, db_bind. by intros ->. Qed.

Lemma reading_done {A} (f : NbDB -> result A) db x : f db = Ok x -> reading f db = Done (Ok x, db).
Proof. unfold reading. by intros ->. Qed.

Lemma wrapping_done {A} fmt args (m : DB A) db x db' : m db = Done (Ok x, db') -> wrapping fmt args m db = Done (Ok x, db').
Proof. unfold wrapping. by intros ->. Qed.

(** A server that accepts every transaction. *)
Definition accepting (db : NbDB) : Prop := nb_replies db = [].

Lemma Transact_accepting ops db : accepting db -> Transact ops db = Done (Ok (), apply_ops ops db).
Proof. unfold accepting, Transact. intros ->. by destruct ops. Qed.

Lemma find_parent_ok t p rows db : parents t db !! p = Some rows -> find_parent t p db = Ok ().
Proof. unfold find_parent. by intros ->. Qed.

(** Deleting by direction and external ids. *)
Lemma DeleteAclsOps_ok p t d ids rows db : p <> "" -> nb_ok db -> parent_type t -> parents t db !! p = Some rows ->
  exists ops, DeleteAclsOps p t d ids db = Ok ops /\
    (ops = [] \/ exists uuids, ops = [OpRemove t p uuids]) /\
    apply_ops ops db = put t p (filter (fun r => aclFilter d (<[aclParentKey := p]> ids) r.2 = false) rows) db.
Proof.
  intros Hp Hok Ht Hx. unfold DeleteAclsOps. rewrite bool_decide_false by done. unfold ListAcls.
  assert (Er : rows_at t p db = rows) by (unfold rows_at; by rewrite Hx).
  pose proof (remove_rows (aclFilter d (<[aclParentKey := p]> ids)) t p db Hok Ht) as Hrem. rewrite Er in Hrem.
  destruct ((filter _ (all_rows db)).*1) as [|u us].
  - exists []. split_and!; [done|by left|]. rewrite <-Hrem. simpl. rewrite put_id; [done|done|]. rewrite Hx. f_equal. symmetry.
    clear. induction rows as [|r rows IH]; [done|]. rewrite filter_cons_True by (apply not_elem_of_nil). by rewrite IH.
  - rewrite (find_parent_ok t p rows) by done. cbn. eexists. split_and!; [done|right; by eexists|]. unfold put. rewrite <-Hrem. simpl.
    unfold rows_at in Er. by rewrite Er.
Qed.

Lemma DeleteAcls_ok p t d ids rows db : p <> "" -> nb_ok db -> parent_type t -> accepting db -> parents t db !! p = Some rows ->
  DeleteAcls p t d ids db =
  Done (Ok (), put t p (filter (fun r => aclFilter d (<[aclParentKey := p]> ids) r.2 = false) rows) db).
Proof.
  intros Hp Hok Ht Ha Hx. destruct (DeleteAclsOps_ok p t d ids rows db Hp Hok Ht Hx) as (ops & E & _ & Hops).
  unfold DeleteAcls. rewrite (bind_done _ _ db ops db) by (by apply reading_done). apply wrapping_done.
  by rewrite Transact_accepting, Hops.
Qed.

(** ** Creating *)

Definition add_rows (t p : string) (acls : list ACL) (db : NbDB) : NbDB := apply_op (OpInsert t p acls) db.

Lemma number_length n l : length (number n l) = length l.
Proof. revert n. induction l as [|a l IH]; intros n; [done|]. simpl. by rewrite IH. Qed.

Lemma number_acls n l : (number n l).*2 = l.
Proof. revert n. induction l as [|a l IH]; intros n; [done|]. simpl. by rewrite IH. Qed.

Lemma number_range n l r : r ∈ number n l -> (n <= r.1 < n + N.of_nat (length l))%N /\ r.2 ∈ l.
Proof.
  revert n. induction l as [|a l IH]; intros n; simpl; [by intros ?%elem_of_nil|].
  rewrite elem_of_cons. intros [->|Hr]; [simpl; split; [lia|by left]|]. apply IH in Hr as [? ?]. split; [lia|by right].
Qed.

Lemma number_unique n l : NoDup (number n l).*1.
Proof.
  revert n. induction l as [|a l IH]; intros n; simpl; constructor; [|done]. intros Hin.
  apply list_elem_of_fmap in Hin as (r & E & Hr). apply number_range in Hr as [? _]. lia.
Qed.

Lemma CreateAclsOps_ok p t acls rows db : parent_type t -> parents t db !! p = Some rows ->
  exists ops, CreateAclsOps p t acls db = Ok ops /\ (ops = [] \/ ops = [OpInsert t p (omap id acls)]) /\
    apply_ops ops db = add_rows t p (omap id acls) db.
Proof.
  intros Ht Hx. unfold CreateAclsOps. rewrite (find_parent_ok t p rows) by done.
  assert (Hty : negb (bool_decide (t = portGroupKey)) && negb (bool_decide (t = LogicalSwitchKey)) = false) by (by destruct Ht as [-> | ->]).
  rewrite Hty. destruct (omap id acls) as [|a l].
  - exists []. split_and!; [done|by left|]. unfold add_rows. simpl. rewrite Hx. simpl. rewrite app_nil_r.
    change (set_parents t (<[p:=rows]> (parents t db)) db) with (put t p rows db). rewrite put_id by done.
    rewrite N.add_0_r. by destruct db.
  - cbn. eexists. split_and!; [done|by right|done].
Qed.

Lemma CreateAcls_ok p t acls rows db : parent_type t -> accepting db -> parents t db !! p = Some rows ->
  CreateAcls p t acls db = Done (Ok (), add_rows t p (omap id acls) db).
Proof.
  intros Ht Ha Hx. destruct (CreateAclsOps_ok p t acls rows db Ht Hx) as (ops & E & _ & Hops).
  unfold CreateAcls. rewrite (bind_done _ _ db ops db) by (by apply reading_done). apply wrapping_done.
  by rewrite Transact_accepting, Hops.
Qed.

Lemma add_rows_put t p acls rows db : parents t db !! p = Some rows ->
  add_rows t p acls db = set_next (nb_next db + N.of_nat (length acls)) (put t p (rows ++ number (nb_next db) acls) db).
Proof. intros Hx. unfold add_rows. simpl. by rewrite Hx. Qed.

(** ** What the calls keep *)

(** The rows of one parent change to rows with the ACLs [l]; the rest stays. *)
Record changes (t p : string) (l : list ACL) (db db' : NbDB) : Prop := {
  ch_ok : nb_ok db';
  ch_acls : acls_at t p db' = l;
  ch_self : is_Some (parents t db' !! p);
  ch_frame : forall t' p', parent_type t' -> t' <> t \/ p' <> p -> parents t' db' !! p' = parents t' db !! p';
  ch_meters : nb_meters db' = nb_meters db;
  ch_obj : nb_obj db' = nb_obj db;
  ch_replies : nb_replies db' = nb_replies db
}.

Lemma put_changes t p rows rows0 db : nb_ok db -> parent_type t -> parents t db !! p = Some rows0 ->
  rows `sublist_of` rows0 -> changes t p rows.*2 db (put t p rows db).
Proof.
  intros Hok Ht Hx Hsub. assert (Er : rows_at t p db = rows0) by (unfold rows_at; by rewrite Hx).
  destruct (all_rows_put t p rows db Ht) as (rest & H1 & _). rewrite Er in H1.
  assert (Hin : forall r, r ∈ rows -> r ∈ rows0) by (intros r Hr; by eapply elem_of_sublist).
  split.
  - assert (E : put t p rows db = set_next (nb_next db) (put t p rows db)) by (rewrite <-(nb_next_put t p rows db); by destruct (put t p rows db)).
    rewrite E. apply put_ok; [done|done|by eexists|lia| | |].
    + apply Forall_forall. intros r Hr. split; [eapply rows_at_parent; [done|exact Ht|rewrite Er; by apply Hin]|].
      pose proof (ok_next _ Hok) as Hn. rewrite Forall_forall in Hn. apply Hn. eapply rows_at_all; [exact Ht|]. rewrite Er. by apply Hin.
    + pose proof (ok_unique _ Hok) as Hu. rewrite H1, fmap_app in Hu. apply NoDup_app in Hu as [Hu _].
      eapply sublist_NoDup; [exact Hu|]. by apply fmap_sublist.
    + intros r Hr. left. rewrite Er. by apply Hin.
  - unfold acls_at. by rewrite rows_at_put.
  - rewrite parents_put by done. rewrite bool_decide_true by done. by eexists.
  - intros t' p' Ht' Hne. rewrite parents_put by done. rewrite bool_decide_false; [done|]. intros [-> ->]. by destruct Hne.
  - unfold put, set_parents. by destruct (bool_decide _).
  - unfold put, set_parents. by destruct (bool_decide _).
  - apply nb_replies_put.
Qed.

Lemma add_changes t p acls db : nb_ok db -> parent_type t -> is_Some (parents t db !! p) ->
  Forall (fun a => acl_Parent a = p) acls -> changes t p (acls_at t p db ++ acls) db (add_rows t p acls db).
Proof.
  intros Hok Ht [rows0 Hx] Hp. rewrite (add_rows_put t p acls rows0) by done.
  assert (Er : rows_at t p db = rows0) by (unfold rows_at; by rewrite Hx).
  destruct (all_rows_put t p rows0 db Ht) as (rest & H1 & _). rewrite Er in H1.
  pose proof (ok_next _ Hok) as Hn. rewrite H1 in Hn. apply Forall_app in Hn as [Hn _]. rewrite Forall_forall in Hn. rewrite Forall_forall in Hp.
  split.
  - apply put_ok; [done|done|by eexists|lia| | |].
    + apply Forall_forall. intros r [Hr|Hr]%elem_of_app.
      * split; [eapply rows_at_parent; [done|exact Ht|by rewrite Er]|]. specialize (Hn r Hr). simpl in Hn. lia.
      * apply number_range in Hr as [? Hr]. split; [by apply Hp|lia].
    + rewrite fmap_app. apply NoDup_app. split_and!; [|intros u Hu Hu'|apply number_unique].
      * pose proof (ok_unique _ Hok) as Hu. rewrite H1, fmap_app in Hu. by apply NoDup_app in Hu as [Hu _].
      * apply list_elem_of_fmap in Hu as (r & -> & Hr), Hu' as (r' & E & Hr'). apply number_range in Hr' as [? _].
        specialize (Hn r Hr). simpl in Hn. lia.
    + intros r [Hr|Hr]%elem_of_app; [left; by rewrite Er|right]. apply number_range in Hr as [? _]. lia.
  - unfold acls_at. change (rows_at t p (set_next ?n ?d)) with (rows_at t p d). rewrite rows_at_put by done.
    by rewrite fmap_app, number_acls, Er.
  - change (parents t (set_next ?n ?d)) with (parents t d). rewrite parents_put by done. rewrite bool_decide_true by done. by eexists.
  - intros t' p' Ht' Hne. change (parents t' (set_next ?n ?d)) with (parents t' d). rewrite parents_put by done.
    rewrite bool_decide_false; [done|]. intros [-> ->]. by destruct Hne.
  - simpl. unfold put, set_parents. by destruct (bool_decide _).
  - simpl. unfold put, set_parents. by destruct (bool_decide _).
  - simpl. apply nb_replies_put.
Qed.

(** ** Calls as changes *)

Lemma changes_trans t p l l' db db' db'' : changes t p l db db' -> changes t p l' db' db'' -> changes t p l' db db''.
Proof.
  intros [_ _ _ F M O R] [Hok Ha Hs F' M' O' R']. split; [done..| |congruence|congruence|congruence].
  intros t' p' Ht Hne. rewrite F' by done. by apply F.
Qed.

Lemma changes_refl t p db : nb_ok db -> is_Some (parents t db !! p) -> changes t p (acls_at t p db) db db.
Proof. by split. Qed.

Lemma changes_accepting t p l db db' : changes t p l db db' -> accepting db -> accepting db'.
Proof. intros Hc. unfold accepting. by rewrite (ch_replies _ _ _ _ _ Hc). Qed.

(** Deleting the ACLs of one direction, or of both. *)
Lemma DeleteAcls_changes p t d db : p <> "" -> nb_ok db -> parent_type t -> accepting db -> is_Some (parents t db !! p) ->
  exists db', DeleteAcls p t d ∅ db = Done (Ok (), db') /\
    changes t p (filter (fun a => ~ (d = "" \/ acl_Direction a = d)) (acls_at t p db)) db db'.
Proof.
  intros Hp Hok Ht Ha [rows Hx]. rewrite (DeleteAcls_ok p t d ∅ rows db) by done. eexists. split; [done|].
  assert (E : filter (fun r => aclFilter d (<[aclParentKey := p]> ∅) r.2 = false) rows =
              filter (fun r => ~ (d = "" \/ acl_Direction r.2 = d)) rows).
  { apply list_filter_iff_in. intros r Hr. rewrite <-not_true_iff_false, aclFilter_own by done.
    pose proof (rows_at_parent db t p r Hok Ht) as Hpar. unfold rows_at in Hpar. rewrite Hx in Hpar. rewrite Hpar by done. tauto. }
  rewrite E. pose proof (put_changes t p (filter (fun r => ~ (d = "" \/ acl_Direction r.2 = d)) rows) rows db Hok Ht Hx (sublist_filter _ _)) as Hc.
  replace (filter (fun a => ~ (d = "" \/ acl_Direction a = d)) (acls_at t p db))
    with (filter (fun r => ~ (d = "" \/ acl_Direction r.2 = d)) rows).*2; [done|].
  unfold acls_at, rows_at. rewrite Hx. simpl. clear. induction rows as [|r rows IH]; [done|]. rewrite fmap_cons, !filter_cons.
  destruct (decide (~ (d = "" \/ acl_Direction r.2 = d))); [|done]. by rewrite fmap_cons, IH.
Qed.

Lemma CreateAcls_changes p t acls db : nb_ok db -> parent_type t -> accepting db -> is_Some (parents t db !! p) ->
  Forall (fun a => acl_Parent a = p) (omap id acls) ->
  exists db', CreateAcls p t acls db = Done (Ok (), db') /\ changes t p (acls_at t p db ++ omap id acls) db db'.
Proof.
  intros Hok Ht Ha Hx Hp. pose proof Hx as [rows Hr]. rewrite (CreateAcls_ok p t acls rows db) by done.
  eexists. split; [done|]. by apply add_changes.
Qed.

(** ** New ACLs of a parent *)

Lemma no_key t p d pr m tier db : nb_ok db -> parent_type t -> is_Some (parents t db !! p) ->
  Forall (fun a => ~ (acl_Direction a = d /\ acl_Priority a = pr)) (acls_at t p db) ->
  ~ Exists (fun r => key_of r.2 = (p, d, pr, m, tier)) (all_rows db).
Proof.
  intros Hok Ht Hp Hall. rewrite Exists_exists. intros (r & Hr & Hk). unfold key_of in Hk. injection Hk as Hpar Hd Hpr _ _.
  pose proof (rows_with_parent db t p r Hok Ht Hp Hr Hpar) as Hat. rewrite Forall_forall in Hall.
  apply (Hall r.2); [|done]. unfold acls_at. apply list_elem_of_fmap. by exists r.
Qed.

Lemma newACL_in t p d pr m action tier db : nb_ok db -> parent_type t -> is_Some (parents t db !! p) ->
  p <> "" -> d <> "" -> pr <> "" -> m <> "" -> action <> "" ->
  Forall (fun a => ~ (acl_Direction a = d /\ acl_Priority a = Atoi_value pr)) (acls_at t p db) ->
  newACL p d pr m action tier id db = Ok (Some (bare_acl p d pr m action tier)).
Proof. intros. rewrite newACL_fresh; [done..|]. by eapply no_key. Qed.

Lemma collect_ok {A B} (f : A -> result B) (g : A -> B) l : Forall (fun x => f x = Ok (g x)) l -> collect f l = Ok (g <$> l).
Proof. induction 1 as [|x l Hx _ IH]; [done|]. cbn. rewrite Hx. cbn. by rewrite IH. Qed.

Lemma omap_id_Some {A} (l : list A) : omap id (Some <$> l) = l.
Proof. induction l as [|x l IH]; [done|]. cbn. by rewrite IH. Qed.
