(* ===== verification/NbDhcpFacts.v ===== *)
(** * Facts about DHCP options

    The printed options parse back to the map, whatever the order in which the
    map was walked; a row that is created and a row that is changed end with the
    same options. *)
From Stdlib Require Import Ascii.
From S2P Require Import Prelude GoStrings GoNet GoNetText UtilNet GoText NbDb NbDhcp NbAclFacts.

Local Open Scope Z_scope.

(** ** Replacing characters *)

Definition lacks (c : ascii) (s : string) : Prop := contains_char c s = false.

Lemma lacks_app c a b : lacks c (a +:+ b) <-> lacks c a /\ lacks c b.
Proof. unfold lacks. rewrite contains_char_app, orb_false_iff. done. Qed.

Lemma lacks_Join c d l : c <> d -> lacks c (Join l (sep1 d)) <-> Forall (lacks c) l.
Proof.
  intros Hcd. induction l as [|x l IH]; [by split|]. destruct l as [|y l].
  - cbn [Join]. rewrite Forall_singleton. done.
  - change (Join (x :: y :: l) (sep1 d)) with (x +:+ sep1 d +:+ Join (y :: l) (sep1 d)). rewrite !lacks_app, IH, (Forall_cons _ x).
    assert (Hd : lacks c (sep1 d)) by (unfold lacks, sep1; cbn; by rewrite bool_decide_false). tauto.
Qed.

Lemma lacks_concat c l : lacks c (Join l "") <-> Forall (lacks c) l.
Proof.
  induction l as [|x l IH]; [by split|]. destruct l as [|y l].
  - cbn [Join]. rewrite Forall_singleton. done.
  - change (Join (x :: y :: l) "") with (x +:+ Join (y :: l) ""). by rewrite lacks_app, IH, (Forall_cons _ x).
Qed.

Lemma Split_lacks c d s : lacks c s -> Forall (lacks c) (Split s (sep1 d)).
Proof.
  intros Hs. destruct (decide (c = d)) as [->|Hne]; [apply Split_pieces|].
  rewrite <-(Join_Split d s) in Hs. by apply lacks_Join in Hs.
Qed.

Lemma ReplaceAll_other a b c s : c <> b -> lacks c s -> lacks c (ReplaceAll s (sep1 a) (sep1 b)).
Proof. intros Hcb Hs. unfold ReplaceAll. apply lacks_Join; [done|]. by apply Split_lacks. Qed.

Lemma ReplaceAll_gone a b s : a <> b -> lacks a (ReplaceAll s (sep1 a) (sep1 b)).
Proof. intros Hab. unfold ReplaceAll. apply lacks_Join; [done|]. apply Split_pieces. Qed.

Lemma ReplaceAll_erased a s : lacks a (ReplaceAll s (sep1 a) "").
Proof. unfold ReplaceAll. apply lacks_concat, Split_pieces. Qed.

Lemma ReplaceAll_same a by_ s : lacks a s -> ReplaceAll s (sep1 a) by_ = s.
Proof. intros Hs. unfold ReplaceAll. by rewrite Split_none. Qed.

Lemma ReplaceAll_back a b s : lacks b s -> ReplaceAll (ReplaceAll s (sep1 a) (sep1 b)) (sep1 b) (sep1 a) = s.
Proof.
  intros Hs. unfold ReplaceAll. rewrite Split_Join; [apply Join_Split|by apply split_skip_nonempty|by apply Split_lacks].
Qed.

Lemma Join_empty l d : Join l (sep1 d) = "" -> l = [] \/ l = [""].
Proof. destruct l as [|x [|y l]]; [by left|cbn; intros ->; by right|]. by destruct x. Qed.

Lemma ReplaceAll_empty a b s : ReplaceAll s (sep1 a) (sep1 b) = "" -> s = "".
Proof.
  unfold ReplaceAll. intros E. apply Join_empty in E as [E|E].
  - by apply split_skip_nonempty in E.
  - rewrite <-(Join_Split a s), E. done.
Qed.

(** ** Printing and parsing *)

(** A key and a value that print and parse back: none is empty, neither has an
    equals sign or a blank, the key no comma, and the value no comma, or, of the
    name servers, no semicolon. *)
Definition printable (kv : string * string) : Prop :=
  kv.1 <> "" /\ kv.2 <> "" /\ lacks ","%char kv.1 /\ lacks "="%char kv.1 /\ lacks " "%char kv.1 /\
  lacks "="%char kv.2 /\ lacks " "%char kv.2 /\ lacks (if bool_decide (kv.1 = "dns_server") then ";"%char else ","%char) kv.2.

Lemma format_option_clean kv : printable kv -> lacks ","%char (format_option kv) /\ lacks " "%char (format_option kv).
Proof.
  intros (_ & _ & Kc & _ & Kb & _ & Vb & Vc). unfold format_option. rewrite !lacks_app.
  assert (Hv : lacks "," (if bool_decide (kv.1 = "dns_server") then ReplaceAll kv.2 "," ";" else kv.2) /\
               lacks " " (if bool_decide (kv.1 = "dns_server") then ReplaceAll kv.2 "," ";" else kv.2)).
  { destruct (bool_decide (kv.1 = "dns_server")); [|done]. change "," with (sep1 ","). change ";" with (sep1 ";").
    split; [by apply ReplaceAll_gone|by apply ReplaceAll_other]. }
  by destruct Hv.
Qed.

Lemma parse_format_option kv m : printable kv -> parse_option m (format_option kv) = <[kv.1 := kv.2]> m.
Proof.
  destruct kv as [k v]. intros (Hk & Hv & _ & Ke & _ & Ve & _ & Vc). cbn [fst snd] in *. unfold parse_option, format_option. cbn [fst snd].
  set (w := if bool_decide (k = "dns_server") then ReplaceAll v "," ";" else v).
  assert (Hw : lacks "=" w /\ w <> "").
  { unfold w. destruct (bool_decide (k = "dns_server")); [|done]. change "," with (sep1 ","). change ";" with (sep1 ";").
    split; [by apply ReplaceAll_other|]. intros E. by apply ReplaceAll_empty in E. }
  change (k +:+ "=" +:+ w) with (k +:+ String "=" w). change "=" with (sep1 "="). rewrite Split_app, Split_none by (done || by destruct Hw).
  rewrite !bool_decide_false by (done || by destruct Hw). cbn [orb]. f_equal. unfold w.
  destruct (bool_decide (k = "dns_server")); [|done]. change "," with (sep1 ","). change ";" with (sep1 ";"). by apply ReplaceAll_back.
Qed.

Lemma fold_inserts (l : list (string * string)) (m : gmap string string) : fold_left (fun m kv => <[kv.1 := kv.2]> m) l m = list_to_map (reverse l) ∪ m.
Proof.
  revert m. induction l as [|[k v] l IH]; intros m; cbn [fold_left].
  - by rewrite reverse_nil, list_to_map_nil, (left_id_L ∅ (∪)).
  - rewrite IH, reverse_cons, list_to_map_app. cbn [list_to_map foldr fst snd]. rewrite <-(assoc_L (∪)). f_equal.
    by rewrite insert_empty, insert_union_singleton_l.
Qed.

Lemma fold_format (l : list (string * string)) (m : gmap string string) : Forall printable l ->
  fold_left parse_option (format_option <$> l) m = fold_left (fun m kv => <[kv.1 := kv.2]> m) l m.
Proof.
  intros Hl. revert m. induction Hl as [|kv l Hkv _ IH]; intros m; [done|]. cbn [fold_left fmap list_fmap]. by rewrite parse_format_option, IH.
Qed.

(** The options a printed map parses to, whatever the order of its walk. *)
Lemma parse_format_entries (m : gmap string string) l : l ≡ₚ map_to_list m -> map_Forall (fun k v => printable (k, v)) m ->
  parseDHCPOptions (format_entries l) = m.
Proof.
  intros Hperm Hm. assert (Hl : Forall printable l).
  { apply Forall_forall. intros [k v] Hin. rewrite Hperm in Hin. apply elem_of_map_to_list in Hin. by apply Hm. }
  destruct l as [|kv l].
  { apply Permutation_nil_l in Hperm. symmetry in Hperm. by apply map_to_list_empty_iff in Hperm as ->. }
  unfold parseDHCPOptions, format_entries.
  assert (Hc : Forall (fun t => lacks "," t /\ lacks " " t) (format_option <$> kv :: l)).
  { apply Forall_fmap. eapply Forall_impl; [exact Hl|]. intros x Hx. by apply format_option_clean. }
  assert (Hb : lacks " " (Join (format_option <$> kv :: l) ",")).
  { change "," with (sep1 ","). apply lacks_Join; [done|]. eapply Forall_impl; [exact Hc|]. by intros t [_ ?]. }
  rewrite bool_decide_false.
  2:{ intros E. change "," with (sep1 ",") in E. apply Join_empty in E as [E|E]; [done|]. injection E as E _. unfold format_option in E.
      apply Forall_cons in Hl as [(Hk & _) _]. by destruct (kv.1). }
  change " " with (sep1 " ") in Hb |- *. rewrite ReplaceAll_same by done. change "," with (sep1 ","). rewrite Split_Join.
  - rewrite fold_format, fold_inserts by done. rewrite (right_id_L ∅ (∪)). rewrite <-(list_to_map_to_list m). apply list_to_map_proper.
    + rewrite reverse_Permutation, Hperm. apply NoDup_fst_map_to_list.
    + by rewrite reverse_Permutation.
  - done.
  - eapply Forall_impl; [exact Hc|]. by intros t [? _].
Qed.

Lemma parse_format (m : gmap string string) : map_Forall (fun k v => printable (k, v)) m -> parseDHCPOptions (formatDHCPOptions m) = m.
Proof. by apply parse_format_entries. Qed.

(** ** What parsing and building give *)

Lemma parse_option_printable m opt : lacks "," opt -> lacks " " opt -> map_Forall (fun k v => printable (k, v)) m ->
  map_Forall (fun k v => printable (k, v)) (parse_option m opt).
Proof.
  intros Hc Hb Hm. unfold parse_option. change "=" with (sep1 "=").
  pose proof (Split_pieces "=" opt) as He. pose proof (Split_lacks "," "=" opt Hc) as Hc'. pose proof (Split_lacks " " "=" opt Hb) as Hb'.
  destruct (Split opt (sep1 "=")) as [|k [|v [|? ?]]]; [done|done| |done].
  apply Forall_cons in He as [Ke [Ve _]%Forall_cons], Hc' as [Kc [Vc _]%Forall_cons], Hb' as [Kb [Vb _]%Forall_cons].
  destruct (bool_decide_reflect (k = "")) as [|Hk]; [done|]. destruct (bool_decide_reflect (v = "")) as [|Hv]; [done|]. cbn [orb].
  apply map_Forall_insert_2; [|done]. unfold printable. cbn [fst snd]. destruct (bool_decide (k = "dns_server")); [|done].
  change ";" with (sep1 ";"). change "," with (sep1 ",").
  split_and!; try done; [|by apply ReplaceAll_other..|by apply ReplaceAll_gone]. intros E. by apply ReplaceAll_empty in E.
Qed.

Lemma parse_printable raw : map_Forall (fun k v => printable (k, v)) (parseDHCPOptions raw).
Proof.
  unfold parseDHCPOptions. destruct (bool_decide (raw = "")); [apply map_Forall_empty|].
  assert (Hp : Forall (fun t => lacks "," t /\ lacks " " t) (Split (ReplaceAll raw " " "") ",")).
  { change " " with (sep1 " "). change "," with (sep1 ","). pose proof (Split_lacks " " "," _ (ReplaceAll_erased " " raw)) as Hb.
    pose proof (Split_pieces "," (ReplaceAll raw (sep1 " ") "")) as Hc. apply Forall_forall. intros t Ht.
    rewrite Forall_forall in Hb. rewrite Forall_forall in Hc. split; [by apply Hc|by apply Hb]. }
  assert (Hm : map_Forall (fun k v => printable (k, v)) (∅ : gmap string string)) by apply map_Forall_empty.
  revert Hm. generalize (∅ : gmap string string). induction Hp as [|t l [Hc Hb] _ IH]; intros m Hm; [done|]. cbn [fold_left].
  apply IH. by apply parse_option_printable.
Qed.

(** A value an option can have. *)
Definition clean_word (s : string) : Prop := s <> "" /\ lacks "," s /\ lacks "=" s /\ lacks " " s.

Lemma set_missing_printable k v m : clean_word k -> k <> "dns_server" -> clean_word v -> map_Forall (fun k v => printable (k, v)) m ->
  map_Forall (fun k v => printable (k, v)) (set_missing k v m).
Proof.
  intros (Hk & Kc & Ke & Kb) Hd (Hv & Vc & Ve & Vb) Hm. unfold set_missing. destruct (m !! k); [done|].
  apply map_Forall_insert_2; [|done]. unfold printable. cbn [fst snd]. rewrite bool_decide_false by done. tauto.
Qed.

Lemma Itoa_clean n : 0 <= n -> clean_word (Itoa n).
Proof.
  intros Hn. destruct (Itoa_chars is_digit n) as [Hd Hne]; [apply is_digit_chr|done|].
  unfold clean_word, lacks. split_and!; [done|..]; by apply (all_chars_not_contains is_digit).
Qed.

Lemma build4_printable options gateway mac mtu : clean_word gateway -> clean_word mac -> 0 <= mtu ->
  map_Forall (fun k v => printable (k, v)) (buildDHCPv4Options options gateway mac mtu).
Proof.
  intros Hg Hm Hu. unfold buildDHCPv4Options.
  assert (H0 : map_Forall (fun k v => printable (k, v)) (if bool_decide (options = "") then ∅ else parseDHCPOptions options))
    by (destruct (bool_decide _); [apply map_Forall_empty|apply parse_printable]).
  repeat (apply set_missing_printable; [done|done|try done|]); [by apply Itoa_clean|done].
Qed.

Lemma build6_printable options mac : clean_word mac -> map_Forall (fun k v => printable (k, v)) (buildDHCPv6Options options mac).
Proof.
  intros Hm. unfold buildDHCPv6Options. apply set_missing_printable; [done..|].
  destruct (bool_decide _); [apply map_Forall_empty|apply parse_printable].
Qed.

(** ** The row of a switch or a port *)

(** The rows a lookup finds. *)
Definition chosen (lsName portName protocol : string) (d : DHCPOptions) : bool :=
  let port := negb (bool_decide (portName = "")) in
  dhcpOptionsFilter true {[(if port then PortKey else LogicalSwitchKey) := (if port then portName else lsName); "protocol" := protocol]} d &&
  (port || bool_decide (default "" (do_ExternalIDs d !! PortKey) = "")).

Definition rows_for (lsName portName protocol : string) (db : NbDB) : list (N * DHCPOptions) :=
  filter (fun kv => chosen lsName portName protocol kv.2 = true) (map_to_list (o_dhcp (nb_obj db))).

Lemma entry_rows lsName portName protocol ignore db : lsName <> "" ->
  getDHCPOptionsEntry lsName portName protocol ignore db =
  match rows_for lsName portName protocol db with
  | [] => if ignore then Ok None
          else if negb (bool_decide (portName = "")) then Err (Errorf "not found per-port %s dhcp options for port %s" [protocol; portName])
          else Err (Errorf "not found logical switch %s %s dhcp options" [lsName; protocol])
  | [d] => Ok (Some d)
  | _ => if negb (bool_decide (portName = "")) then Err (Errorf "more than one per-port %s dhcp options for port %s" [protocol; portName])
         else Err (Errorf "more than one %s dhcp options in logical switch %s" [protocol; lsName])
  end.
Proof.
  intros Hl. unfold getDHCPOptionsEntry, rows_for, chosen, ListDHCPOptions. rewrite (bool_decide_false (lsName = "")), andb_false_r by done. cbv zeta.
  destruct (bool_decide_reflect (portName = "")) as [Hp|Hp]; cbn [negb orb].
  - rewrite list_filter_filter. erewrite list_filter_iff; [done|]. intros [u d]. cbn. rewrite andb_true_iff, bool_decide_eq_true. tauto.
  - erewrite list_filter_iff; [done|]. intros [u d]. cbn. by rewrite andb_true_r.
Qed.

(** One row is found. *)
Lemma rows_for_one lsName portName protocol db u d : o_dhcp (nb_obj db) !! u = Some d -> chosen lsName portName protocol d = true ->
  (forall v e, o_dhcp (nb_obj db) !! v = Some e -> chosen lsName portName protocol e = true -> v = u) ->
  rows_for lsName portName protocol db = [(u, d)].
Proof.
  intros Hu Hd Honly. apply Permutation_singleton_r. unfold rows_for. apply NoDup_Permutation.
  - apply NoDup_filter, NoDup_map_to_list.
  - apply NoDup_singleton.
  - intros [v e]. rewrite list_elem_of_filter, elem_of_map_to_list, list_elem_of_singleton. cbn [snd]. split.
    + intros [He Hv]. assert (v = u) as -> by (by eapply Honly). congruence.
    + by intros [= -> ->].
Qed.

Lemma rows_for_elem lsName portName protocol db u d : (u, d) ∈ rows_for lsName portName protocol db <->
  o_dhcp (nb_obj db) !! u = Some d /\ chosen lsName portName protocol d = true.
Proof. unfold rows_for. rewrite list_elem_of_filter, elem_of_map_to_list. cbn [snd]. tauto. Qed.

Lemma ids_match_sub (ids asked : gmap string string) : asked ⊆ ids -> map_Forall (fun _ v => v <> "") asked -> ids_match ids asked = true.
Proof.
  intros Hs Hv. unfold ids_match. rewrite andb_true_iff, negb_true_iff, Nat.ltb_ge, orb_true_iff. split; [by apply map_subseteq_size|].
  right. apply forallb_forall. intros [k v] Hin%list_elem_of_In. apply elem_of_map_to_list in Hin. cbn [fst snd].
  rewrite bool_decide_false by (by eapply Hv). pose proof (lookup_weaken _ _ _ _ Hin Hs) as ->. by apply bool_decide_true.
Qed.

(** The row that is created is one the lookup finds. *)
Lemma new_chosen lsName portName cidr options d : lsName <> "" ->
  newDHCPOptionsEntry lsName portName cidr options = Ok d -> chosen lsName portName (CheckProtocol cidr) d = true.
Proof.
  intros Hl. unfold newDHCPOptionsEntry. destruct (bool_decide_reflect (cidr = "")) as [|Hc]; [done|]. rewrite bool_decide_false by done. cbn [orb].
  destruct (bool_decide_reflect (CheckProtocol cidr = "")) as [|Hp]; [done|]. intros [= <-]. unfold chosen, dhcpOptionsFilter. cbn [do_ExternalIDs].
  set (ids := {[LogicalSwitchKey := lsName; "protocol" := CheckProtocol cidr; "vendor" := CniTypeName]} : gmap string string).
  assert (Hv : forall x : gmap string string, x !! "vendor" = Some CniTypeName ->
    negb (true && (bool_decide (x = ∅) || negb (bool_decide (default "" (x !! "vendor") = CniTypeName)))) = true).
  { intros x Hx. rewrite Hx. rewrite bool_decide_false by (by intros ->). rewrite bool_decide_true by done. done. }
  destruct (bool_decide_reflect (portName = "")) as [Hn|Hn]; cbn [negb orb].
  - rewrite Hv by done. rewrite ids_match_sub; [done| |].
    + apply map_subseteq_spec. intros k v Hk. unfold ids. apply lookup_insert_Some in Hk as [[<- <-]|[Hk1 Hk]]; [by simplify_map_eq|].
      apply lookup_singleton_Some in Hk as [<- <-]. by simplify_map_eq.
    + by apply map_Forall_insert_2; [|apply map_Forall_singleton].
  - rewrite Hv by (by simplify_map_eq). rewrite ids_match_sub; [done| |].
    + apply map_subseteq_spec. intros k v Hk. unfold ids. apply lookup_insert_Some in Hk as [[<- <-]|[Hk1 Hk]]; [by simplify_map_eq|].
      apply lookup_singleton_Some in Hk as [<- <-]. by simplify_map_eq.
    + by apply map_Forall_insert_2; [|apply map_Forall_singleton].
Qed.

(** ** Updating the options of one family *)

Definition dhcp_fresh (db : NbDB) : Prop := map_Forall (fun u _ => (u < nb_next db)%N) (o_dhcp (nb_obj db)).

(** At most one row is found. *)
Definition single_row (lsName portName protocol : string) (db : NbDB) : Prop := (length (rows_for lsName portName protocol db) <= 1)%nat.

(** The MAC address the options are built with: that of the row, or a new one. *)
Definition server_of (lsName portName protocol kept : string) (buf : bytes) (db : NbDB) : string :=
  match rows_for lsName portName protocol db with
  | [] => GenerateMac buf
  | (_, d) :: _ => default "" (do_Options d !! kept)
  end.

(** Row [u] has the options of the switch or port and of the family, no other row
    has them, and the rest of the database is as it was. *)
Record dhcp_set (lsName portName protocol cidr : string) (options : gmap string string) (u : N) (db db' : NbDB) : Prop := {
  ds_row : exists d, rows_for lsName portName protocol db' = [(u, d)] /\ do_Cidr d = cidr /\ do_Options d = options;
  ds_others : forall v, v <> u -> o_dhcp (nb_obj db') !! v = o_dhcp (nb_obj db) !! v;
  ds_frame : o_pgs (nb_obj db') = o_pgs (nb_obj db) /\ o_sets (nb_obj db') = o_sets (nb_obj db) /\ o_lsps (nb_obj db') = o_lsps (nb_obj db) /\
             o_switch_ports (nb_obj db') = o_switch_ports (nb_obj db) /\ nb_pgs db' = nb_pgs db /\ nb_lss db' = nb_lss db
}.

Lemma update_row protocol lsName portName cidr options u d db : rows_for lsName portName protocol db = [(u, d)] ->
  dhcp_set lsName portName protocol cidr options u db (apply_op (OpDhcpUpdate u cidr options) db).
Proof.
  intros Hr. assert (Hin : (u, d) ∈ rows_for lsName portName protocol db) by (rewrite Hr; by left). apply rows_for_elem in Hin as [Hu Hd].
  split; [|cbn; intros v Hv; by rewrite lookup_alter_ne|done].
  exists (mkDo cidr (do_ExternalIDs d) options). split_and!; [|done..]. apply rows_for_one.
  - cbn. by rewrite lookup_alter_eq, Hu.
  - done.
  - intros v e Hv He. destruct (decide (v = u)) as [|Hne]; [done|]. cbn in Hv. rewrite lookup_alter_ne in Hv by done.
    assert (Hin : (v, e) ∈ rows_for lsName portName protocol db) by (by apply rows_for_elem). rewrite Hr in Hin.
    apply list_elem_of_singleton in Hin. congruence.
Qed.

Lemma create_row protocol lsName portName d db : dhcp_fresh db -> rows_for lsName portName protocol db = [] -> chosen lsName portName protocol d = true ->
  dhcp_set lsName portName protocol (do_Cidr d) (do_Options d) (nb_next db) db (apply_op (OpDhcpCreate d) db).
Proof.
  intros Hf Hr Hd. split; [|cbn; intros v Hv; by rewrite lookup_insert_ne|done].
  exists d. split_and!; [|done..]. apply rows_for_one.
  - cbn. by rewrite lookup_insert_eq.
  - done.
  - intros v e Hv He. destruct (decide (v = nb_next db)) as [|Hne]; [done|]. cbn in Hv. rewrite lookup_insert_ne in Hv by done.
    assert (Hin : (v, e) ∈ rows_for lsName portName protocol db) by (by apply rows_for_elem). rewrite Hr in Hin. by apply elem_of_nil in Hin.
Qed.

(** Whether the row is there or not, the family ends with the options that were
    built: printing and parsing them again on creation loses nothing. *)
Lemma update_family_ok protocol wrong kept build buf lsName portName cidr db :
  accepting db -> dhcp_fresh db -> lsName <> "" -> cidr <> "" -> CheckProtocol cidr = protocol -> protocol <> "" ->
  single_row lsName portName protocol db ->
  map_Forall (fun k v => printable (k, v)) (build (GenerateMac buf)) ->
  exists u db', update_family protocol wrong kept build buf lsName portName cidr db = Done (Ok (uuid_text u), db') /\
    dhcp_set lsName portName protocol cidr (build (server_of lsName portName protocol kept buf db)) u db db' /\ accepting db'.
Proof.
  intros Ha Hf Hl Hc Hp Hpne Hone Hprint. unfold update_family, single_row, server_of in *. rewrite bool_decide_true by done. cbn [negb].
  rewrite (bind_done _ _ db (match rows_for lsName portName protocol db with [] => None | kv :: _ => Some kv end) db).
  2:{ apply reading_done. rewrite entry_rows by done. destruct (rows_for lsName portName protocol db) as [|kv [|kv' l]]; [done|done|]. cbn in Hone. lia. }
  destruct (rows_for lsName portName protocol db) as [|[u d] l] eqn:Er.
  - destruct (newDHCPOptionsEntry lsName portName cidr (formatDHCPOptions (build (GenerateMac buf)))) as [d|e] eqn:En.
    2:{ unfold newDHCPOptionsEntry in En. rewrite Hp, !bool_decide_false in En by done. done. }
    assert (Hd : do_Cidr d = cidr /\ do_Options d = build (GenerateMac buf)).
    { unfold newDHCPOptionsEntry in En. rewrite Hp, !bool_decide_false in En by done. cbn [orb] in En. injection En as <-. cbn. by rewrite parse_format. }
    pose proof (new_chosen _ _ _ _ _ Hl En) as Hch. rewrite Hp in Hch.
    pose proof (create_row protocol lsName portName d db Hf Er Hch) as Hset. destruct Hd as [Hd1 Hd2]. rewrite Hd1, Hd2 in Hset.
    exists (nb_next db), (apply_op (OpDhcpCreate d) db). split_and!; [|done|done].
    rewrite (bind_done _ _ db () (apply_op (OpDhcpCreate d) db)).
    2:{ apply wrapping_done. unfold createDHCPEntry. rewrite (bind_done _ _ db d db) by (unfold lift; by rewrite En). apply wrapping_done.
        by rewrite Transact_accepting. }
    destruct (ds_row _ _ _ _ _ _ _ _ Hset) as (d' & Hr' & _).
    rewrite (bind_done _ _ _ (Some (nb_next db, d')) (apply_op (OpDhcpCreate d) db)); [done|]. apply reading_done. rewrite entry_rows by done.
    by rewrite Hr'.
  - destruct l; [|cbn in Hone; lia]. exists u, (apply_op (OpDhcpUpdate u cidr (build (default "" (do_Options d !! kept)))) db).
    split_and!; [|by eapply update_row|done]. unfold updateDHCPOptions.
    rewrite (bind_done _ _ db () (apply_op (OpDhcpUpdate u cidr (build (default "" (do_Options d !! kept)))) db)); [done|].
    apply wrapping_done. by rewrite Transact_accepting.
Qed.

(** A generated address is a value an option can have. *)
Lemma hex_byte_chars b : 0 <= b < 256 -> all_chars v6_char (hex_byte b) = true.
Proof.
  intros Hb. unfold hex_byte. cbn [all_chars]. rewrite !v6_char_digit; [done|..].
  - pose proof (Z.mod_pos_bound b 16 ltac:(lia)). lia.
  - split; [by apply Z.div_pos; lia|]. apply Z.div_lt_upper_bound; lia.
Qed.

Lemma GenerateMac_clean buf : buf <> [] -> Forall (fun b => 0 <= b < 256) buf -> clean_word (GenerateMac buf).
Proof.
  intros Hne Hb. destruct buf as [|b0 rest]; [done|]. apply Forall_cons in Hb as [Hb0 Hb]. unfold GenerateMac.
  assert (Hb0' : 0 <= Z.land (Z.lor b0 2) 254 < 256).
  { assert (Hall : forallb (fun b => (0 <=? Z.land (Z.lor b 2) 254) && (Z.land (Z.lor b 2) 254 <? 256)) (seqZ 0 256) = true) by (vm_compute; reflexivity).
    rewrite forallb_forall in Hall. specialize (Hall b0 ltac:(apply list_elem_of_In, elem_of_seqZ; lia)). apply andb_true_iff in Hall. lia. }
  assert (Hc : all_chars v6_char (mac_String (Z.land (Z.lor b0 2) 254 :: rest)) = true).
  { apply all_chars_Join; [done|]. apply Forall_fmap, Forall_cons. split; [by apply hex_byte_chars|]. eapply Forall_impl; [exact Hb|]. intros b ?. by apply hex_byte_chars. }
  unfold clean_word, lacks. split_and!; [by destruct rest|..]; by apply (all_chars_not_contains v6_char).
Qed.
