(* ===== verification/NbLspFacts.v ===== *)
(** * Facts about logical switch ports

    Every port is on exactly one switch, the one its external ids name; creating,
    moving, changing and deleting ports keeps this, and a deleted port leaves its
    port groups. *)
From Stdlib Require Import Ascii.
From S2P Require Import Prelude GoStrings GoNet UtilNet GoText NbDb NbDhcp NbLsp NbAclFacts.

Local Open Scope Z_scope.

Definition switch_of (p : LogicalSwitchPort) : option string := lsp_ExternalIDs p !! LogicalSwitchKey.

Record obj_ok (next : N) (switches : gset string) (o : Objects) : Prop := {
  po_names : map_Forall (fun name p => lsp_Name p = name /\ name <> "") (o_lsps o);
  po_fresh : map_Forall (fun _ p => (lsp_UUID p < next)%N) (o_lsps o);
  po_unique : forall n1 n2 p1 p2, o_lsps o !! n1 = Some p1 -> o_lsps o !! n2 = Some p2 -> lsp_UUID p1 = lsp_UUID p2 -> n1 = n2;
  po_switches : dom (o_switch_ports o) = switches /\ "" ∉ switches;
  po_at : map_Forall (fun _ p => exists ls, switch_of p = Some ls /\ ls ∈ switches /\
            forall s us, o_switch_ports o !! s = Some us -> lsp_UUID p ∈ us <-> s = ls) (o_lsps o);
  po_only : forall s us u, o_switch_ports o !! s = Some us -> u ∈ us -> exists name p, o_lsps o !! name = Some p /\ lsp_UUID p = u;
  po_groups : forall g pg u, o_pgs o !! g = Some pg -> u ∈ pg_Ports pg -> exists name p, o_lsps o !! name = Some p /\ lsp_UUID p = u
}.

Definition ports_ok (db : NbDB) : Prop := obj_ok (nb_next db) (dom (nb_lss db)) (nb_obj db).

(** ** Removing *)

Lemma removed_everywhere next sw o name p ls : obj_ok next sw o -> o_lsps o !! name = Some p -> switch_of p = Some ls ->
  ~ map_Exists (fun _ s => lsp_UUID p ∈ s) (alter (.∖ {[lsp_UUID p]}) ls (o_switch_ports o)).
Proof.
  intros Hok Hp Hls (s & us & Hs & Hin). destruct (po_at _ _ _ Hok name p Hp) as (ls' & Hls' & _ & Hiff). rewrite Hls in Hls'. injection Hls' as <-.
  destruct (decide (s = ls)) as [->|Hne].
  - rewrite lookup_alter_eq in Hs. destruct (o_switch_ports o !! ls); [|done]. injection Hs as <-. apply elem_of_difference in Hin as [_ Hin]. by apply Hin, elem_of_singleton.
  - rewrite lookup_alter_ne in Hs by done. apply (Hiff s us Hs) in Hin. done.
Qed.

(** Taking a port from its switch deletes the row. *)
Lemma remove_lsps next sw o name p ls : obj_ok next sw o -> o_lsps o !! name = Some p -> switch_of p = Some ls ->
  o_lsps (remove_port ls (lsp_UUID p) o) = delete name (o_lsps o).
Proof.
  intros Hok Hp Hls. unfold remove_port. rewrite bool_decide_false by (by eapply removed_everywhere). cbn.
  apply map_eq. intros k. rewrite map_lookup_filter. destruct (decide (k = name)) as [->|Hne].
  - rewrite lookup_delete_eq, Hp. cbn. case_guard as Hc; [by destruct Hc|done].
  - rewrite lookup_delete_ne by done. destruct (o_lsps o !! k) as [q|] eqn:Ek; [|done]. cbn. case_guard as Hc; [done|]. exfalso.
    by apply Hne, (po_unique _ _ _ Hok k name q p).
Qed.

Lemma remove_groups next sw o name p ls : obj_ok next sw o -> o_lsps o !! name = Some p -> switch_of p = Some ls ->
  forall g, o_pgs (remove_port ls (lsp_UUID p) o) !! g = (fun pg => mkPg (pg_Ports pg ∖ {[lsp_UUID p]}) (pg_ExternalIDs pg)) <$> (o_pgs o !! g).
Proof.
  intros Hok Hp Hls g. unfold remove_port. rewrite bool_decide_false by (by eapply removed_everywhere). cbn. apply lookup_fmap.
Qed.

Lemma remove_switches next sw o name p ls : obj_ok next sw o -> o_lsps o !! name = Some p -> switch_of p = Some ls ->
  o_switch_ports (remove_port ls (lsp_UUID p) o) = alter (.∖ {[lsp_UUID p]}) ls (o_switch_ports o).
Proof. intros Hok Hp Hls. unfold remove_port. by rewrite bool_decide_false by (by eapply removed_everywhere). Qed.

Lemma remove_ok next sw o name p ls : obj_ok next sw o -> o_lsps o !! name = Some p -> switch_of p = Some ls ->
  obj_ok next sw (remove_port ls (lsp_UUID p) o).
Proof.
  intros Hok Hp Hls. pose proof (remove_lsps _ _ _ _ _ _ Hok Hp Hls) as El. pose proof (remove_groups _ _ _ _ _ _ Hok Hp Hls) as Eg.
  pose proof (remove_switches _ _ _ _ _ _ Hok Hp Hls) as Es. destruct Hok as [Hn Hf Hu Hsw Hat Hon Hgr].
  assert (Hkeep : forall u, u <> lsp_UUID p -> (exists name p, o_lsps o !! name = Some p /\ lsp_UUID p = u) ->
    exists name' q, delete name (o_lsps o) !! name' = Some q /\ lsp_UUID q = u).
  { intros u Hne (k & q & Hk & Hq). exists k, q. rewrite lookup_delete_ne; [done|]. intros <-. congruence. }
  split; rewrite ?El, ?Es.
  - by apply map_Forall_delete.
  - by apply map_Forall_delete.
  - intros n1 n2 p1 p2 H1 H2. apply lookup_delete_Some in H1 as [_ H1], H2 as [_ H2]. by eapply Hu.
  - by rewrite dom_alter_L.
  - intros k q Hk. apply lookup_delete_Some in Hk as [Hne Hk]. destruct (Hat k q Hk) as (lq & Hlq & Hin & Hiff). exists lq. split_and!; [done..|].
    intros s us Hs. apply lookup_alter_Some in Hs as [(<- & us0 & Hs & ->)|[_ Hs]]; [|by apply Hiff].
    rewrite elem_of_difference, (Hiff ls us0 Hs), elem_of_singleton. split; [by intros [? _]|]. intros ?. split; [done|]. intros E.
    by apply Hne, (Hu name k p q).
  - intros s us u Hs Hin. apply lookup_alter_Some in Hs as [(<- & us0 & Hs & ->)|[Hne Hs]].
    + apply elem_of_difference in Hin as [Hin Hnot]. apply Hkeep; [intros ->; by apply Hnot, elem_of_singleton|]. by eapply Hon.
    + apply Hkeep; [|by eapply Hon]. intros ->. destruct (Hat name p Hp) as (lp & Hlp & _ & Hiff). apply (Hiff s us Hs) in Hin. congruence.
  - intros g pg u Hg Hin. rewrite Eg in Hg. apply fmap_Some in Hg as (pg0 & Hg & ->). cbn in Hin. apply elem_of_difference in Hin as [Hin Hnot].
    apply Hkeep; [intros ->; by apply Hnot, elem_of_singleton|]. by eapply Hgr.
Qed.

(** ** Creating *)

Lemma create_ok next sw o lsp ls : obj_ok next sw o -> o_lsps o !! lsp_Name lsp = None -> lsp_Name lsp <> "" -> ls ∈ sw -> switch_of lsp = Some ls ->
  obj_ok (next + 1) sw (apply_obj (OpLspCreate ls lsp) next o).
Proof.
  intros Hok Hnew Hname Hls Hat0. pose proof Hok as [Hn Hf Hu Hsw Hat Hon Hgr].
  assert (Hne : forall k q, o_lsps o !! k = Some q -> lsp_UUID q <> next) by (intros k q Hk E; specialize (Hf k q Hk); cbn in Hf; lia).
  assert (Hold : forall k q, o_lsps o !! k = Some q -> <[lsp_Name lsp := lsp_with_uuid next lsp]> (o_lsps o) !! k = Some q)
    by (intros k q Hk; rewrite lookup_insert_ne; [done|]; intros <-; congruence).
  split; cbn.
  - by apply map_Forall_insert_2.
  - apply map_Forall_insert_2; [cbn; lia|]. intros k q Hk. specialize (Hf k q Hk). cbn in Hf. lia.
  - intros n1 n2 p1 p2 H1 H2 E. apply lookup_insert_Some in H1 as [[<- <-]|[_ H1]], H2 as [[<- <-]|[_ H2]]; [done| | |by eapply Hu].
    + by apply Hne in H2.
    + by apply Hne in H1.
  - by rewrite dom_alter_L.
  - apply map_Forall_insert_2.
    + exists ls. split_and!; [done..|]. intros s us Hs. cbn. apply lookup_alter_Some in Hs as [(<- & us0 & Hs & ->)|[Hs1 Hs]];
        [split; [done|]; intros _; apply elem_of_union; left; by apply elem_of_singleton|].
      split; [|done]. intros Hin. destruct (Hon s us next Hs Hin) as (k & q & Hk & E). by apply Hne in Hk.
    + intros k q Hk. destruct (Hat k q Hk) as (lq & Hlq & Hin & Hiff). exists lq. split_and!; [done..|]. intros s us Hs.
      apply lookup_alter_Some in Hs as [(<- & us0 & Hs & ->)|[_ Hs]]; [|by apply Hiff].
      rewrite elem_of_union, elem_of_singleton, (Hiff ls us0 Hs). split; [|by right]. intros [E|?]; [|done]. by apply Hne in Hk.
  - intros s us u Hs Hin. assert (Hcase : u = next \/ exists us0, o_switch_ports o !! s = Some us0 /\ u ∈ us0).
    { apply lookup_alter_Some in Hs as [(<- & us0 & Hs & ->)|[_ Hs]]; [|by eauto]. apply elem_of_union in Hin as [?%elem_of_singleton|?]; [by left|by eauto]. }
    destruct Hcase as [->|(us0 & Hs0 & Hin0)]; [exists (lsp_Name lsp), (lsp_with_uuid next lsp); by rewrite lookup_insert_eq|].
    destruct (Hon s us0 u Hs0 Hin0) as (k & q & Hk & E). exists k, q. by rewrite (Hold k q).
  - intros g pg u Hg Hin. destruct (Hgr g pg u Hg Hin) as (k & q & Hk & E). exists k, q. by rewrite (Hold k q).
Qed.

(** ** Changing *)

(** A change that keeps what identifies the port. *)
Definition keeps (change : LogicalSwitchPort -> LogicalSwitchPort) (p : LogicalSwitchPort) : Prop :=
  lsp_Name (change p) = lsp_Name p /\ lsp_UUID (change p) = lsp_UUID p /\ switch_of (change p) = switch_of p.

(** Rows that are replaced by rows of the same ports. *)
Lemma relabel_ok next sw o o' : obj_ok next sw o -> o_pgs o' = o_pgs o -> o_switch_ports o' = o_switch_ports o ->
  (forall k q, o_lsps o' !! k = Some q -> exists q0, o_lsps o !! k = Some q0 /\
    lsp_Name q = lsp_Name q0 /\ lsp_UUID q = lsp_UUID q0 /\ switch_of q = switch_of q0) ->
  (forall k q, o_lsps o !! k = Some q -> is_Some (o_lsps o' !! k)) -> obj_ok next sw o'.
Proof.
  intros [Hn Hf Hu Hsw Hat Hon Hgr] Eg Es Hfwd Hdom.
  assert (Hbwd : forall u, (exists k q, o_lsps o !! k = Some q /\ lsp_UUID q = u) -> exists k q, o_lsps o' !! k = Some q /\ lsp_UUID q = u).
  { intros u (k & q & Hk & E). destruct (Hdom k q Hk) as [q' Hq]. exists k, q'. split; [done|].
    destruct (Hfwd k q' Hq) as (q0 & H0 & _ & -> & _). congruence. }
  split; rewrite ?Es.
  - intros k q Hk. destruct (Hfwd k q Hk) as (q0 & H0 & -> & _ & _). by apply Hn in H0.
  - intros k q Hk. destruct (Hfwd k q Hk) as (q0 & H0 & _ & -> & _). by apply Hf in H0.
  - intros n1 n2 p1 p2 H1 H2. destruct (Hfwd _ _ H1) as (q1 & G1 & _ & -> & _), (Hfwd _ _ H2) as (q2 & G2 & _ & -> & _). by eapply Hu.
  - done.
  - intros k q Hk. destruct (Hfwd k q Hk) as (q0 & H0 & _ & -> & ->). by apply Hat in H0.
  - intros s us u Hs Hin. apply Hbwd. by eapply Hon.
  - intros g pg u Hg Hin. apply Hbwd. rewrite Eg in Hg. by eapply Hgr.
Qed.

Lemma update_ok next sw o name change : obj_ok next sw o -> (forall p, o_lsps o !! name = Some p -> keeps change p) ->
  obj_ok next sw (apply_obj (OpLspUpdate name change) next o).
Proof.
  intros Hok Hkeep. eapply relabel_ok; [exact Hok|done|done|..]; cbn.
  - intros k q Hk. apply lookup_alter_Some in Hk as [(<- & q0 & Hq & ->)|[_ Hk]]; [|by exists q]. exists q0. split; [done|]. by apply Hkeep.
  - intros k q Hk. destruct (decide (k = name)) as [->|Hne]; [by rewrite lookup_alter_eq, Hk|by rewrite lookup_alter_ne, Hk].
Qed.

Lemma forget_ok next sw o uuids u : obj_ok next sw o -> obj_ok next sw (apply_obj (OpDhcpDelete uuids) u o).
Proof.
  intros Hok. eapply relabel_ok; [exact Hok|done|done|..]; cbn.
  - intros k q Hk. rewrite lookup_fmap in Hk. apply fmap_Some in Hk as (q0 & Hk & ->). by exists q0.
  - intros k q Hk. by rewrite lookup_fmap, Hk.
Qed.

(** ** The calls *)

Lemma get_switch_ok ls db : ports_ok db -> ls ∈ dom (nb_lss db) -> get_switch ls db = Ok ().
Proof.
  intros Hok Hls. unfold get_switch, LogicalSwitchExists. rewrite bool_decide_false.
  - rewrite bool_decide_true by (by apply elem_of_dom). done.
  - intros ->. by destruct (po_switches _ _ _ Hok) as [_ []].
Qed.

Lemma build_switch name ls ip mac pod ns sec sgs vips dhcp opts vpc :
  switch_of (buildLogicalSwitchPort name ls ip mac pod ns sec sgs vips dhcp opts vpc) = Some ls.
Proof.
  unfold switch_of, buildLogicalSwitchPort, port_external. destruct (match opts with Some _ => _ | None => _ end) as [v4 v6]. cbn [lsp_ExternalIDs].
  by rewrite lookup_insert_ne, lookup_insert_eq.
Qed.

(** The columns of a port that its pod decides. *)
Definition described (lsp p : LogicalSwitchPort) : Prop :=
  lsp_Addresses p = lsp_Addresses lsp /\ lsp_PortSecurity p = lsp_PortSecurity lsp /\ lsp_ExternalIDs p = lsp_ExternalIDs lsp /\
  lsp_Dhcpv4Options p = lsp_Dhcpv4Options lsp /\ lsp_Dhcpv6Options p = lsp_Dhcpv6Options lsp.

(** The port is in place, and no other port changed. *)
Record placed (name : string) (lsp : LogicalSwitchPort) (db db' : NbDB) : Prop := {
  pl_ok : ports_ok db';
  pl_port : exists p, o_lsps (nb_obj db') !! name = Some p /\ described lsp p;
  pl_others : forall k, k <> name -> o_lsps (nb_obj db') !! k = o_lsps (nb_obj db) !! k;
  pl_switches : nb_lss db' = nb_lss db
}.

(** The operation that creates the port. *)
Lemma create_op lsp ls db : ports_ok db -> ls ∈ dom (nb_lss db) -> switch_of lsp = Some ls -> lsp_ExternalIDs lsp !! "vendor" = Some CniTypeName ->
  CreateLogicalSwitchPortOp lsp ls db = Ok [OpLspCreate ls lsp].
Proof.
  intros Hok Hls Hs Hv. unfold CreateLogicalSwitchPortOp. rewrite get_switch_ok by done. cbn [mbind result_bind].
  rewrite (insert_id _ LogicalSwitchKey) by done. rewrite insert_id by done. by destruct lsp.
Qed.

Lemma create_placed lsp ls db : ports_ok db -> ls ∈ dom (nb_lss db) -> switch_of lsp = Some ls -> lsp_Name lsp <> "" ->
  o_lsps (nb_obj db) !! lsp_Name lsp = None -> placed (lsp_Name lsp) lsp db (apply_op (OpLspCreate ls lsp) db).
Proof.
  intros Hok Hls Hs Hne Hnew. split; [by apply create_ok| | |done].
  - exists (lsp_with_uuid (nb_next db) lsp). cbn. by rewrite lookup_insert_eq.
  - intros k Hk. cbn. by rewrite lookup_insert_ne.
Qed.

Lemma create_call ls lsp ops name db db1 : accepting db -> ports_ok db1 -> apply_ops ops db = db1 -> ls ∈ dom (nb_lss db1) -> nb_lss db = nb_lss db1 ->
  ports_ok db -> switch_of lsp = Some ls -> lsp_ExternalIDs lsp !! "vendor" = Some CniTypeName ->
  mbind (M := DB) (fun createLspOps => wrapping "create logical switch port %s: %w" [name] (Transact (ops ++ createLspOps)))
    (reading (fun db => wrapped "generate operations for creating logical switch port %s: %w" [name] (CreateLogicalSwitchPortOp lsp ls db))) db =
  Done (Ok (), apply_op (OpLspCreate ls lsp) db1).
Proof.
  intros Ha Hok1 E1 Hls El Hok Hs Hv. rewrite (bind_done _ _ db [OpLspCreate ls lsp] db).
  - apply wrapping_done. rewrite Transact_accepting by done. unfold apply_ops. rewrite fold_left_app.
    change (fold_left (fun d op => apply_op op d) ops db) with (apply_ops ops db). by rewrite E1.
  - apply reading_done. rewrite create_op; [done|done|by rewrite El|done|done].
Qed.

(** A port is created, changed in place, or moved from another switch. *)
Lemma CreateLogicalSwitchPort_ok ls name ip mac pod ns sec sgs vips dhcp opts vpc db :
  ports_ok db -> accepting db -> name <> "" -> ls ∈ dom (nb_lss db) ->
  let lsp := buildLogicalSwitchPort name ls ip mac pod ns sec sgs vips dhcp opts vpc in
  exists db', CreateLogicalSwitchPort ls name ip mac pod ns sec sgs vips dhcp opts vpc db = Done (Ok (), db') /\ placed name lsp db db'.
Proof.
  intros Hok Ha Hne Hls lsp. pose proof (build_switch name ls ip mac pod ns sec sgs vips dhcp opts vpc) as Hs. fold lsp in Hs.
  assert (Hname : lsp_Name lsp = name) by (unfold lsp, buildLogicalSwitchPort; by destruct (match opts with Some _ => _ | None => _ end)).
  assert (Hv : lsp_ExternalIDs lsp !! "vendor" = Some CniTypeName).
  { unfold lsp, buildLogicalSwitchPort, port_external. destruct (match opts with Some _ => _ | None => _ end) as [v4 v6]. cbn [lsp_ExternalIDs].
    by rewrite lookup_insert_eq. }
  unfold CreateLogicalSwitchPort. fold lsp. rewrite (bind_done _ _ db (o_lsps (nb_obj db) !! name) db).
  2:{ apply reading_done. unfold GetLogicalSwitchPort. rewrite bool_decide_false by done. by destruct (o_lsps (nb_obj db) !! name). }
  destruct (o_lsps (nb_obj db) !! name) as [old|] eqn:Eold; cbv zeta.
  - destruct (po_at _ _ _ Hok name old Eold) as (at_ & Hat & Hin & _). unfold switch_of in Hat. rewrite Hat. change (default "" (Some at_)) with at_.
    destruct (bool_decide_reflect (at_ = ls)) as [->|Hmove].
    + exists (apply_op (OpLspUpdate name (rewrite_port lsp)) db). split.
      * apply wrapping_done, wrapping_done. by rewrite Transact_accepting.
      * split; [| | |done].
        -- apply update_ok; [done|]. intros p Hp. rewrite Eold in Hp. injection Hp as <-. split_and!; [done..|].
           unfold rewrite_port, switch_of in *. cbn. by rewrite Hs, Hat.
        -- exists (rewrite_port lsp old). cbn. by rewrite lookup_alter_eq, Eold.
        -- intros k Hk. cbn. by rewrite lookup_alter_ne.
    + set (db1 := apply_op (OpLspRemove at_ (lsp_UUID old)) db).
      assert (Hok1 : ports_ok db1) by (by eapply remove_ok).
      pose proof (remove_lsps _ _ _ _ _ _ Hok Eold Hat) as El1.
      rewrite (bind_done _ _ db [OpLspRemove at_ (lsp_UUID old)] db).
      2:{ apply reading_done. unfold remove_port_op. rewrite bool_decide_false; [|intros ->; by destruct (po_switches _ _ _ Hok) as [_ []]].
          cbn [mbind result_bind]. by rewrite get_switch_ok. }
      exists (apply_op (OpLspCreate ls lsp) db1). split; [by apply create_call|].
      rewrite <-Hname. destruct (create_placed lsp ls db1) as [P1 P2 P3 P4]; [done|done|done|by rewrite Hname| |].
      { rewrite Hname. unfold db1. cbn. rewrite El1. apply lookup_delete_eq. }
      split; [done|done| |done]. intros k Hk. rewrite P3 by done. unfold db1. cbn. rewrite El1. rewrite Hname in Hk. by rewrite lookup_delete_ne.
  - exists (apply_op (OpLspCreate ls lsp) db). split; [by apply create_call|]. rewrite <-Hname. apply create_placed; [done..| |]; by rewrite Hname.
Qed.

(** ** Deleting *)

(** The port is gone from the table, from every switch and from every group; the
    other ports are the ports they were. *)
Record port_gone (name : string) (u : N) (db db' : NbDB) : Prop := {
  pg_ok : ports_ok db';
  pg_none : o_lsps (nb_obj db') !! name = None;
  pg_switches : forall s us, o_switch_ports (nb_obj db') !! s = Some us -> u ∉ us;
  pg_groups : forall g pg, o_pgs (nb_obj db') !! g = Some pg -> u ∉ pg_Ports pg;
  pg_others : forall k p, k <> name -> o_lsps (nb_obj db) !! k = Some p -> exists p', o_lsps (nb_obj db') !! k = Some p' /\
    lsp_UUID p' = lsp_UUID p /\ lsp_ExternalIDs p' = lsp_ExternalIDs p /\ lsp_Addresses p' = lsp_Addresses p
}.

(** Deleting the DHCP options of a port, before the port. *)
Lemma dhcp_cleanup name db : accepting db -> exists db', logged (DeleteDHCPOptionsForPort name) db = Done (Ok (), db') /\ accepting db' /\
  nb_lss db' = nb_lss db /\ nb_next db' = nb_next db /\ (ports_ok db -> ports_ok db') /\
  (forall k p, o_lsps (nb_obj db) !! k = Some p -> exists p', o_lsps (nb_obj db') !! k = Some p' /\
    lsp_UUID p' = lsp_UUID p /\ lsp_ExternalIDs p' = lsp_ExternalIDs p /\ lsp_Addresses p' = lsp_Addresses p).
Proof.
  intros Ha. unfold logged, DeleteDHCPOptionsForPort. destruct (bool_decide (name = "")).
  { exists db. split_and!; [done..|]. intros k p Hk. by exists p. }
  set (rows := ListDHCPOptions true {[PortKey := name]} db).
  rewrite (bind_done _ _ db rows db) by (by apply reading_done). unfold wrapping. rewrite Transact_accepting by done.
  destruct rows as [|r rows]; cbn.
  { exists db. split_and!; [done..|]. intros k p Hk. by exists p. }
  eexists. split_and!; [done..| |].
  - intros Hok. by apply (forget_ok _ _ _ (r.1 :: rows.*1) (nb_next db)).
  - intros k p Hk. exists (forget_dhcp (r.1 :: rows.*1) p). cbn. by rewrite lookup_fmap, Hk.
Qed.

Lemma DeleteLogicalSwitchPort_ok name p db : ports_ok db -> accepting db -> o_lsps (nb_obj db) !! name = Some p ->
  exists db', DeleteLogicalSwitchPort name db = Done (Ok (), db') /\ port_gone name (lsp_UUID p) db db'.
Proof.
  intros Hok Ha Hp. destruct (po_names _ _ _ Hok name p Hp) as [_ Hne]. destruct (po_at _ _ _ Hok name p Hp) as (ls & Hls & Hin & _).
  unfold DeleteLogicalSwitchPort. rewrite (bind_done _ _ db (Some p) db).
  2:{ apply reading_done. unfold GetLogicalSwitchPort. by rewrite bool_decide_false, Hp by done. }
  destruct (dhcp_cleanup name db Ha) as (db1 & E1 & Ha1 & El1 & _ & Hok1 & Hrows). specialize (Hok1 Hok).
  rewrite (bind_done _ _ db () db1) by done. destruct (Hrows name p Hp) as (p1 & Hp1 & Eu & Ei & _).
  assert (Hls1 : switch_of p1 = Some ls) by (unfold switch_of in *; by rewrite Ei).
  unfold switch_of in Hls. rewrite Hls. change (default "" (Some ls)) with ls. rewrite <-Eu.
  assert (Hlsne : ls <> "") by (intros ->; by destruct (po_switches _ _ _ Hok) as [_ []]).
  unfold DeleteLogicalSwitchPortByUUID. rewrite (bind_done _ _ db1 [OpLspRemove ls (lsp_UUID p1)] db1).
  2:{ apply reading_done. unfold DeleteLogicalSwitchPortOp, LogicalSwitchExists. rewrite !bool_decide_false by done. rewrite El1, bool_decide_true by (by apply elem_of_dom).
      cbn [mbind result_bind]. unfold remove_port_op. rewrite bool_decide_false by done. cbn [mbind result_bind].
      rewrite get_switch_ok; [done|done|by rewrite El1]. }
  set (db2 := apply_op (OpLspRemove ls (lsp_UUID p1)) db1). exists db2. split; [apply wrapping_done; by rewrite Transact_accepting|].
  pose proof (remove_lsps _ _ _ _ _ _ Hok1 Hp1 Hls1) as El2.
  assert (Hok2 : ports_ok db2) by (by eapply remove_ok).
  assert (Hno : forall name' q, o_lsps (nb_obj db2) !! name' = Some q -> lsp_UUID q <> lsp_UUID p1).
  { intros k q Hk. unfold db2 in Hk. cbn in Hk. rewrite El2 in Hk. apply lookup_delete_Some in Hk as [Hkn Hk]. intros E.
    by apply Hkn, (po_unique _ _ _ Hok1 name k p1 q). }
  split.
  - done.
  - unfold db2. cbn. rewrite El2. apply lookup_delete_eq.
  - intros s us Hs Hu. destruct (po_only _ _ _ Hok2 s us _ Hs Hu) as (k & q & Hk & E). by apply (Hno k q).
  - intros g pg Hg Hu. destruct (po_groups _ _ _ Hok2 g pg _ Hg Hu) as (k & q & Hk & E). by apply (Hno k q).
  - intros k q Hkn Hk. destruct (Hrows k q Hk) as (q1 & Hq1 & Hsame). exists q1. split; [|done]. unfold db2. cbn. rewrite El2. by rewrite lookup_delete_ne.
Qed.
