(* ===== verification/NbWorld.v ===== *)
(** * Calls on a well-formed database

    The world a handler runs in, and what the calls on port groups and address
    sets do to it when the server accepts. *)
From Stdlib Require Import Ascii.
From S2P Require Import Prelude GoStrings GoNet GoNetText UtilNet GoText AclMatch NbDb NbDhcp NbDhcpFacts NbLsp NbGroups NbAcl NbAclFacts.

Local Open Scope Z_scope.

(** ** The world a handler runs in *)

(** The table of ACLs is well-formed, every port group has its list of rows, ports
    are kept under their names, and the server accepts. *)
Record world (db : NbDB) : Prop := {
  w_ok : nb_ok db;
  w_accepting : accepting db;
  w_groups : dom (nb_pgs db) = dom (o_pgs (nb_obj db));
  w_names : map_Forall (fun name p => lsp_Name p = name /\ name <> "") (o_lsps (nb_obj db))
}.

(** Only the group [pg] and the sets [sets] may have changed. *)
Record frame (pg : string) (sets : list string) (db db' : NbDB) : Prop := {
  fr_lss : nb_lss db' = nb_lss db;
  fr_lsps : o_lsps (nb_obj db') = o_lsps (nb_obj db);
  fr_rows : forall p, p <> pg -> nb_pgs db' !! p = nb_pgs db !! p;
  fr_pgs : forall p, p <> pg -> o_pgs (nb_obj db') !! p = o_pgs (nb_obj db) !! p;
  fr_sets : forall s, s ∉ sets -> o_sets (nb_obj db') !! s = o_sets (nb_obj db) !! s
}.

Lemma frame_refl pg sets db : frame pg sets db db.
Proof. done. Qed.

Lemma frame_trans pg sets db db1 db2 : frame pg sets db db1 -> frame pg sets db1 db2 -> frame pg sets db db2.
Proof.
  intros [A1 B1 C1 D1 E1] [A2 B2 C2 D2 E2]. split; [congruence|congruence|..]; intros x Hx.
  - rewrite C2, C1; done.
  - rewrite D2, D1; done.
  - rewrite E2, E1; done.
Qed.

(** ** Creating the group and its sets *)

Lemma rows_of_new p (x : gmap string (list row)) : x !! p = None -> rows_of (<[p := []]> x) ≡ₚ rows_of x.
Proof. intros Hx. unfold rows_of. by rewrite map_to_list_insert. Qed.

Lemma create_group_ok name ids db : nb_ok db -> nb_pgs db !! name = None -> nb_lss db !! name = None -> nb_ok (apply_op (OpPgCreate name ids) db).
Proof.
  intros Hok Hx Hl. assert (Hp : all_rows (apply_op (OpPgCreate name ids) db) ≡ₚ all_rows db) by (unfold all_rows; cbn; by rewrite rows_of_new).
  split.
  - rewrite Hp. apply (ok_unique _ Hok).
  - rewrite Hp. apply (ok_next _ Hok).
  - intros t p rows Ht Hr. destruct Ht as [-> | ->]; unfold parents in Hr; cbn in Hr.
    + apply lookup_insert_Some in Hr as [[_ <-]|[_ Hr]]; [by constructor|]. eapply (ok_parent _ Hok portGroupKey); [by left|exact Hr].
    + eapply (ok_parent _ Hok LogicalSwitchKey); [by right|exact Hr].
  - cbn. rewrite dom_insert_L. pose proof (ok_names _ Hok) as Hd. apply not_elem_of_dom in Hl. set_solver.
Qed.

Lemma acls_at_pg pg db : acls_at portGroupKey pg db = (default [] (nb_pgs db !! pg)).*2.
Proof. done. Qed.

Lemma CreatePortGroup_ok pg ids sets db : world db -> pg <> "" -> nb_lss db !! pg = None ->
  exists db', CreatePortGroup pg ids db = Done (Ok (), db') /\ world db' /\ frame pg sets db db' /\
    is_Some (nb_pgs db' !! pg) /\ acls_at portGroupKey pg db' = acls_at portGroupKey pg db /\
    o_sets (nb_obj db') = o_sets (nb_obj db) /\
    exists g, o_pgs (nb_obj db') !! pg = Some g /\ pg_ExternalIDs g = tagged ids.
Proof.
  intros [Hok Ha Hg Hn] Hne Hls. unfold CreatePortGroup.
  rewrite (bind_done _ _ db (o_pgs (nb_obj db) !! pg) db).
  2:{ apply reading_done. unfold GetPortGroup. rewrite bool_decide_false by done. by destruct (o_pgs (nb_obj db) !! pg). }
  destruct (o_pgs (nb_obj db) !! pg) as [g|] eqn:Eg.
  - assert (Hp : is_Some (nb_pgs db !! pg)) by (apply elem_of_dom; rewrite Hg; apply elem_of_dom; by rewrite Eg).
    destruct (bool_decide_reflect (pg_ExternalIDs g = tagged ids)) as [He|He].
    + exists db. split_and!; [done..|]. by exists g.
    + exists (apply_op (OpPgIds pg (tagged ids)) db). split_and!.
      * apply wrapping_done, wrapping_done. by rewrite Transact_accepting.
      * split; [by destruct Hok|done| |done]. cbn. by rewrite dom_alter_L.
      * split; cbn; [done..| |done]. intros p Hp'. by rewrite lookup_alter_ne.
      * done.
      * done.
      * done.
      * exists (mkPg (pg_Ports g) (tagged ids)). cbn. by rewrite lookup_alter_eq, Eg.
  - assert (Hp : nb_pgs db !! pg = None) by (apply not_elem_of_dom; rewrite Hg; by apply not_elem_of_dom).
    exists (apply_op (OpPgCreate pg (tagged ids)) db). split_and!.
    + apply wrapping_done. by rewrite Transact_accepting.
    + split; [by apply create_group_ok|done| |done]. cbn. by rewrite !dom_insert_L, Hg.
    + split; cbn; [done..| | |done]; intros p Hp'; by rewrite lookup_insert_ne.
    + cbn. rewrite lookup_insert_eq. by eexists.
    + rewrite !acls_at_pg. cbn. by rewrite lookup_insert_eq, Hp.
    + done.
    + exists (mkPg ∅ (tagged ids)). cbn. by rewrite lookup_insert_eq.
Qed.

Lemma CreateAddressSet_ok pg name ids sets db : world db -> matchAddressSetName name = true -> name ∈ sets ->
  exists db', CreateAddressSet name ids db = Done (Ok (), db') /\ world db' /\ frame pg sets db db' /\
    nb_pgs db' = nb_pgs db /\ o_pgs (nb_obj db') = o_pgs (nb_obj db) /\ dom (o_sets (nb_obj db')) = {[name]} ∪ dom (o_sets (nb_obj db)) /\
    forall x, o_sets (nb_obj db') !! name = Some x -> o_sets (nb_obj db) !! name = Some x \/ x = mkAs ∅ (tagged ids).
Proof.
  intros [Hok Ha Hg Hn] Hm Hin. unfold CreateAddressSet. rewrite Hm. cbn [negb].
  rewrite (bind_done _ _ db (bool_decide (is_Some (o_sets (nb_obj db) !! name))) db).
  2:{ apply reading_done. unfold AddressSetExists, GetAddressSet. by destruct (o_sets (nb_obj db) !! name). }
  destruct (bool_decide_reflect (is_Some (o_sets (nb_obj db) !! name))) as [He|He].
  - exists db. split_and!; [done..| |by left]. apply elem_of_dom in He. set_solver.
  - exists (apply_op (OpAsCreate name (tagged ids)) db). split_and!.
    + apply wrapping_done. by rewrite Transact_accepting.
    + split; [by destruct Hok|done..].
    + split; cbn; [done..|]. intros s Hs. rewrite lookup_insert_ne; [done|]. by intros ->.
    + done.
    + done.
    + cbn. by rewrite dom_insert_L.
    + cbn. rewrite lookup_insert_eq. intros x [= <-]. by right.
Qed.

(** ** Changed ACLs *)

Lemma changes_world pg l sets db db' : world db -> is_Some (nb_pgs db !! pg) -> changes portGroupKey pg l db db' ->
  world db' /\ frame pg sets db db' /\ o_sets (nb_obj db') = o_sets (nb_obj db) /\ o_pgs (nb_obj db') = o_pgs (nb_obj db).
Proof.
  intros [Hok Ha Hg Hn] Hp C. pose proof (ch_obj _ _ _ _ _ C) as Ho.
  assert (Hrows : forall p, p <> pg -> nb_pgs db' !! p = nb_pgs db !! p)
    by (intros p Hne; apply (ch_frame _ _ _ _ _ C portGroupKey p); [by left|by right]).
  assert (Hls : nb_lss db' = nb_lss db).
  { apply map_eq. intros p. apply (ch_frame _ _ _ _ _ C LogicalSwitchKey p); [by right|by left]. }
  split_and!; [| |by rewrite Ho|by rewrite Ho].
  - split; [by eapply ch_ok|by eapply changes_accepting| |by rewrite Ho]. rewrite Ho, <-Hg. apply set_eq. intros p. rewrite !elem_of_dom.
    destruct (decide (p = pg)) as [->|Hne]; [|by rewrite Hrows]. split; intros _; [done|]. apply (ch_self _ _ _ _ _ C).
  - split; [done|by rewrite Ho|done|by rewrite Ho..].
Qed.

(** ** Members and addresses *)

Lemma ids_match_one (ids : gmap string string) k v : v <> "" -> ids_match ids {[k := v]} = true <-> ids !! k = Some v.
Proof.
  intros Hv. split.
  - unfold ids_match. rewrite andb_true_iff, negb_true_iff, Nat.ltb_ge, orb_true_iff, bool_decide_eq_true, map_size_singleton. intros [Hs [->|Hall]].
    + rewrite map_size_empty in Hs. lia.
    + rewrite map_to_list_singleton in Hall. cbn in Hall. rewrite bool_decide_false, andb_true_r, bool_decide_eq_true in Hall by done.
      destruct (ids !! k) as [x|]; cbn in Hall; [by rewrite Hall|by destruct Hv].
  - intros Hk. apply ids_match_sub; [by apply map_singleton_subseteq_l|by apply map_Forall_singleton].
Qed.

(** The objects change and nothing else. *)
Lemma world_obj db o : world db -> dom (o_pgs o) = dom (o_pgs (nb_obj db)) -> o_lsps o = o_lsps (nb_obj db) -> world (set_obj o db).
Proof.
  intros [Hok Ha Hg Hn] Hd Hl. split; [by destruct Hok|done| |cbn; by rewrite Hl]. cbn. by rewrite Hg, Hd.
Qed.

Lemma alter_twice (x e : gset N) (ids : gmap string string) pg (m : gmap string PortGroup) : m !! pg = Some (mkPg x ids) ->
  alter (fun g => mkPg (pg_Ports g ∖ (x ∖ e)) (pg_ExternalIDs g)) pg (alter (fun g => mkPg (pg_Ports g ∪ e ∖ x) (pg_ExternalIDs g)) pg m) =
  <[pg := mkPg e ids]> m.
Proof.
  intros Hm. apply map_eq. intros k. destruct (decide (k = pg)) as [->|Hne].
  - rewrite !lookup_alter_eq, Hm, lookup_insert_eq. cbn. f_equal. f_equal. apply set_eq. intros u. destruct (decide (u ∈ x)), (decide (u ∈ e)); set_solver.
  - by rewrite !lookup_alter_ne, lookup_insert_ne.
Qed.

Lemma update_port_op pg uuids insert db : pg <> "" -> is_Some (o_pgs (nb_obj db) !! pg) ->
  exists ops, portGroupUpdatePortOp pg uuids insert db = Ok ops /\ forall d,
    apply_ops ops d = set_obj (set_o_pgs (alter (fun g => mkPg (if insert then pg_Ports g ∪ uuids else pg_Ports g ∖ uuids) (pg_ExternalIDs g)) pg
                                            (o_pgs (nb_obj d))) (nb_obj d)) d.
Proof.
  intros Hne [g Hg]. unfold portGroupUpdatePortOp. destruct (bool_decide_reflect (uuids = ∅)) as [->|Hu].
  - exists []. split; [done|]. intros d. cbn. assert (E : alter (fun g => mkPg (if insert then pg_Ports g ∪ ∅ else pg_Ports g ∖ ∅) (pg_ExternalIDs g)) pg
      (o_pgs (nb_obj d)) = o_pgs (nb_obj d)).
    { apply alter_id. intros [x ids] _. destruct insert; cbn; f_equal; set_solver. }
    rewrite E. by destruct d as [? ? ? [] ? ?].
  - exists [OpPgPorts pg insert uuids]. unfold GetPortGroup. rewrite bool_decide_false, Hg by done. done.
Qed.

Lemma PortGroupSetPorts_ok pg g ports e db : world db -> pg <> "" -> o_pgs (nb_obj db) !! pg = Some g -> port_uuids ports db = Ok e ->
  PortGroupSetPorts pg ports db = Done (Ok (), set_obj (set_o_pgs (<[pg := mkPg e (pg_ExternalIDs g)]> (o_pgs (nb_obj db))) (nb_obj db)) db).
Proof.
  intros Hw Hne Hg He. unfold PortGroupSetPorts. rewrite bool_decide_false by done.
  rewrite (bind_done _ _ db (Some g) db) by (apply reading_done; unfold GetPortGroup; by rewrite bool_decide_false, Hg by done).
  rewrite (bind_done _ _ db e db) by (by apply reading_done). cbv zeta.
  destruct (update_port_op pg (e ∖ pg_Ports g) true db Hne ltac:(by eexists)) as (ins & Ei & Ai).
  destruct (update_port_op pg (pg_Ports g ∖ e) false db Hne ltac:(by eexists)) as (del & Ed & Ad).
  rewrite (bind_done _ _ db ins db) by (apply reading_done; by rewrite Ei).
  rewrite (bind_done _ _ db del db) by (apply reading_done; by rewrite Ed).
  apply wrapping_done. rewrite Transact_accepting by apply (w_accepting _ Hw). unfold apply_ops. rewrite fold_left_app.
  change (fold_left (fun d op => apply_op op d) ins db) with (apply_ops ins db).
  change (fold_left (fun d op => apply_op op d) del ?d) with (apply_ops del d). rewrite Ai, Ad. cbn [nb_obj set_obj o_pgs set_o_pgs].
  rewrite alter_twice with (ids := pg_ExternalIDs g); [done|]. rewrite Hg. by destruct g.
Qed.

Lemma AddressSetUpdateAddress_ok name s addresses db : world db -> o_sets (nb_obj db) !! name = Some s ->
  AddressSetUpdateAddress name addresses db =
  Done (Ok (), set_obj (set_o_sets (<[name := mkAs (normalizeAddresses addresses) (as_ExternalIDs s)]> (o_sets (nb_obj db))) (nb_obj db)) db).
Proof.
  intros Hw Hs. unfold AddressSetUpdateAddress.
  rewrite (bind_done _ _ db (Some s) db) by (apply reading_done; unfold GetAddressSet; by rewrite Hs). cbv zeta.
  destruct (bool_decide_reflect (normalizeAddresses addresses = as_Addresses s)) as [E|E].
  - rewrite E. rewrite insert_id; [|rewrite Hs; by destruct s]. by destruct db as [? ? ? [] ? ?].
  - unfold UpdateAddressSet. rewrite (wrapping_done _ _ _ _ () (apply_ops [OpAsSet name (normalizeAddresses addresses)] db)).
    + cbn. do 4 f_equal. apply map_eq. intros k. destruct (decide (k = name)) as [->|Hne];
        [by rewrite lookup_alter_eq, Hs, lookup_insert_eq|by rewrite lookup_alter_ne, lookup_insert_ne].
    + apply wrapping_done. by rewrite Transact_accepting by apply (w_accepting _ Hw).
Qed.
