(* ===== verification/NbRouter.v ===== *)
(** * Logical routers, their static routes and their policies
      ([pkg/ovs/ovn-nb-logical_router.go], [ovn-nb-logical_router_route.go],
      [ovn-nb-logical_router_policy.go])

    A router refers to the rows of its static routes and to those of its policies;
    a row no router refers to is collected.  Both kinds of rows are kept in a
    table of children: for every router the UUIDs it refers to, and the rows.  The
    client answers lists from its cache, which follows every transaction; the list
    by index of the client is a class. *)
From S2P Require Import Prelude GoStrings GoNet UtilNet GoText NbDb.

Local Open Scope Z_scope.

Definition LogicalRouterStaticRoutePolicySrcIP : string := "src-ip".
Definition LogicalRouterStaticRoutePolicyDstIP : string := "dst-ip".
Definition LogicalRouterPolicyActionAllow : string := "allow".
Definition LogicalRouterPolicyActionDrop : string := "drop".
Definition LogicalRouterPolicyActionReroute : string := "reroute".
Definition StaticRouteBfdEcmp : string := "ecmp_symmetric_reply".

(** ** Rows *)

(** The columns the code reads or writes. *)
Record LogicalRouterStaticRoute := mkRoute {
  rt_BFD : option string;
  rt_ExternalIDs : gmap string string;
  rt_IPPrefix : string;
  rt_Nexthop : string;
  rt_Options : gmap string string;
  rt_Policy : option string;
  rt_RouteTable : string
}.

Record LogicalRouterPolicy := mkPolicy {
  lp_Action : string;
  lp_BFDSessions : list string;
  lp_ExternalIDs : gmap string string;
  lp_Match : string;
  lp_Nexthop : option string;
  lp_Nexthops : list string;
  lp_Priority : Z
}.

#[global] Instance LogicalRouterStaticRoute_eq_dec : EqDecision LogicalRouterStaticRoute.
Proof. solve_decision. Defined.
#[global] Instance LogicalRouterPolicy_eq_dec : EqDecision LogicalRouterPolicy.
Proof. solve_decision. Defined.

Definition set_rt_policy (policy : string) (r : LogicalRouterStaticRoute) : LogicalRouterStaticRoute :=
  mkRoute (rt_BFD r) (rt_ExternalIDs r) (rt_IPPrefix r) (rt_Nexthop r) (rt_Options r) (Some policy) (rt_RouteTable r).

Definition set_lp_external (ids : gmap string string) (p : LogicalRouterPolicy) : LogicalRouterPolicy :=
  mkPolicy (lp_Action p) (lp_BFDSessions p) ids (lp_Match p) (lp_Nexthop p) (lp_Nexthops p) (lp_Priority p).

(** A router without its routes and policies, which are in the tables below. *)
Record LogicalRouter := mkLr { lr_Name : string; lr_ExternalIDs : gmap string string }.

(** ** Rows routers refer to *)

Record Children (A : Type) := mkCh { ch_refs : gmap N (gset N); ch_rows : gmap N A }.
Arguments mkCh {A}.
Arguments ch_refs {A}.
Arguments ch_rows {A}.

Inductive mutation (A : Type) := Insert (rows : list A) | Remove (uuids : list N) | Clear.
Arguments Insert {A}.
Arguments Remove {A}.
Arguments Clear {A}.

Section Children.
Context {A : Type}.

Definition refs_of (lr : N) (c : Children A) : gset N := default ∅ (ch_refs c !! lr).

(** The rows of a router. *)
Definition of_router (lr : N) (c : Children A) : gmap N A := filter (fun kv => kv.1 ∈ refs_of lr c) (ch_rows c).

Definition is_referenced (refs : gmap N (gset N)) (u : N) : bool := bool_decide (map_Exists (fun _ s => u ∈ s) refs).

Definition collected (refs : gmap N (gset N)) (rows : gmap N A) : Children A :=
  mkCh refs (filter (fun kv => is_referenced refs kv.1 = true) rows).

Fixpoint numbered (n : N) (l : list A) : gmap N A :=
  match l with [] => ∅ | x :: l' => <[n := x]> (numbered (n + 1) l') end.

(** Rows created for a router and referred to by it; references removed. *)
Definition mutate (lr n : N) (m : mutation A) (c : Children A) : Children A :=
  match m with
  | Insert rows => mkCh (<[lr := refs_of lr c ∪ dom (numbered n rows)]> (ch_refs c)) (numbered n rows ∪ ch_rows c)
  | Remove uuids => collected (<[lr := refs_of lr c ∖ list_to_set uuids]> (ch_refs c)) (ch_rows c)
  | Clear => collected (<[lr := ∅]> (ch_refs c)) (ch_rows c)
  end.

Definition created (m : mutation A) : N := match m with Insert rows => N.of_nat (length rows) | _ => 0 end.

(** A set of a mutation has no duplicates. *)
Definition well_formed (m : mutation A) : bool := match m with Remove uuids => bool_decide (NoDup uuids) | _ => true end.

Definition is_nothing (m : mutation A) : bool :=
  match m with Insert [] => true | Remove [] => true | _ => false end.

Definition drop_router (lr : N) (c : Children A) : Children A := collected (delete lr (ch_refs c)) (ch_rows c).

Definition change_child (u : N) (change : A -> A) (c : Children A) : Children A := mkCh (ch_refs c) (alter change u (ch_rows c)).

End Children.

(** ** The database *)

Record RouterDB := mkRdb {
  r_routers : gmap N LogicalRouter;
  r_routes : Children LogicalRouterStaticRoute;
  r_policies : Children LogicalRouterPolicy;
  r_next : N;
  r_replies : list reply
}.

Definition set_r_replies (l : list reply) (db : RouterDB) : RouterDB :=
  mkRdb (r_routers db) (r_routes db) (r_policies db) (r_next db) l.

Inductive router_operation :=
  | OpLrCreate (lr : LogicalRouter)
  | OpLrDelete (lr : N)
  | OpRoutes (lr : N) (m : mutation LogicalRouterStaticRoute)
  | OpPolicies (lr : N) (m : mutation LogicalRouterPolicy)
  | OpRouteUpdate (u : N) (change : LogicalRouterStaticRoute -> LogicalRouterStaticRoute)
  | OpPolicyUpdate (u : N) (change : LogicalRouterPolicy -> LogicalRouterPolicy).

Definition router_op (op : router_operation) (db : RouterDB) : RouterDB :=
  let '(mkRdb lrs routes policies next replies) := db in
  match op with
  | OpLrCreate lr => mkRdb (<[next := lr]> lrs) routes policies (next + 1) replies
  | OpLrDelete lr => mkRdb (delete lr lrs) (drop_router lr routes) (drop_router lr policies) next replies
  | OpRoutes lr m => mkRdb lrs (mutate lr next m routes) policies (next + created m) replies
  | OpPolicies lr m => mkRdb lrs routes (mutate lr next m policies) (next + created m) replies
  | OpRouteUpdate u change => mkRdb lrs (change_child u change routes) policies next replies
  | OpPolicyUpdate u change => mkRdb lrs routes (change_child u change policies) next replies
  end.

Definition router_ops (ops : list router_operation) (db : RouterDB) : RouterDB := fold_left (fun d op => router_op op d) ops db.

Definition op_well_formed (op : router_operation) : bool :=
  match op with OpRoutes _ m => well_formed m | OpPolicies _ m => well_formed m | _ => true end.

(** Calls of the client. *)
Definition Lr (A : Type) : Type := RouterDB -> outcome (result A * RouterDB).

#[global] Instance lr_ret : MRet Lr := fun A x db => Done (Ok x, db).
#[global] Instance lr_bind : MBind Lr :=
  fun A B f m db =>
    match m db with
    | Done (Ok x, db') => f x db'
    | Done (Err e, db') => Done (Err e, db')
    | Panic => Panic
    | Starved => Starved
    end.

Definition lr_reading {A} (f : RouterDB -> result A) : Lr A := fun db => Done (f db, db).
Definition failing {A} (e : err) : Lr A := fun db => Done (Err e, db).
Definition labelled {A} (fmt : string) (args : list string) (m : Lr A) : Lr A :=
  fun db => '(r, db') ← m db; Done (wrapped fmt args r, db').

Fixpoint each {A} (f : A -> Lr ()) (l : list A) : Lr () :=
  match l with [] => mret () | x :: l' => _ ← f x; each f l' end.

(** [Transact]: as for the other tables; the server refuses a mutation whose set
    has duplicates. *)
Definition Transact_lr (ops : list router_operation) : Lr () := fun db =>
  Done match ops with
       | [] => (Ok (), db)
       | _ =>
           let db' := set_r_replies (tail (r_replies db)) db in
           if negb (forallb op_well_formed ops) then (Err (Errorf "set contains duplicate" []), db')
           else match head (r_replies db) with
                | None | Some Accepted => (Ok (), router_ops ops db')
                | Some (Rejected e) => (Err e, db')
                | Some (AnswerLost e) => (Err e, router_ops ops db')
                end
       end.

(** A map filled from a list, by key. *)
Definition index_by {A} (key : A -> string) (l : list A) : gmap string A := fold_left (fun m x => <[key x := x]> m) l ∅.

(** ** Routers *)

Definition GetLogicalRouter (lrName : string) (ignoreNotFound : bool) (db : RouterDB) : result (option (N * LogicalRouter)) :=
  match filter (fun kv => lr_Name kv.2 = lrName) (map_to_list (r_routers db)) with
  | [] => if ignoreNotFound then Ok None else Err (Errorf "not found logical router %q" [lrName])
  | [lr] => Ok (Some lr)
  | _ => Err (Errorf "more than one logical router with same name %q" [lrName])
  end.

(** [GetLogicalRouter(lrName, false)], whose router is not nil. *)
Definition get_router (lrName : string) (db : RouterDB) : result N :=
  lr ← GetLogicalRouter lrName false db;
  match lr with Some (u, _) => Ok u | None => Err (Errorf "not found logical router %q" [lrName]) end.

Definition LogicalRouterExists (name : string) (db : RouterDB) : result bool :=
  lr ← GetLogicalRouter name true db; Ok (bool_decide (is_Some lr)).

Definition ListLogicalRouter (needVendorFilter : bool) (flt : N * LogicalRouter -> bool) (db : RouterDB) : list (N * LogicalRouter) :=
  filter (fun kv => negb (needVendorFilter && (bool_decide (lr_ExternalIDs kv.2 = ∅) ||
                      negb (bool_decide (default "" (lr_ExternalIDs kv.2 !! "vendor") = CniTypeName)))) && flt kv = true)
    (map_to_list (r_routers db)).

Definition ListLogicalRouterNames (needVendorFilter : bool) (flt : N * LogicalRouter -> bool) (db : RouterDB) : list string :=
  (fun kv => lr_Name kv.2) <$> ListLogicalRouter needVendorFilter flt db.

Definition CreateLogicalRouter (lrName : string) : Lr () :=
  exist ← lr_reading (LogicalRouterExists lrName);
  if exist : bool then mret ()
  else labelled "create logical router %s: %w" [lrName] (Transact_lr [OpLrCreate (mkLr lrName {["vendor" := CniTypeName]})]).

Definition DeleteLogicalRouter (lrName : string) : Lr () :=
  lr ← labelled "get logical router %s when delete: %w" [lrName] (lr_reading (GetLogicalRouter lrName true));
  match lr with
  | None => mret ()
  | Some (u, _) => labelled "delete logical router %s: %w" [lrName] (Transact_lr [OpLrDelete u])
  end.

(** [LogicalRouterOp] with one mutation of the router. *)
Definition LogicalRouterOp (lrName : string) (mutation : N -> router_operation) (db : RouterDB) : result (list router_operation) :=
  match get_router lrName db with
  | Ok u => Ok [mutation u]
  | Err _ => Err (Errorf "get logical router %s: %w" [lrName])
  end.

Definition LogicalRouterUpdateStaticRouteOp (lrName : string) (m : mutation LogicalRouterStaticRoute) (db : RouterDB) : result (list router_operation) :=
  if is_nothing m then Ok [] else LogicalRouterOp lrName (fun u => OpRoutes u m) db.

Definition LogicalRouterUpdatePolicyOp (lrName : string) (m : mutation LogicalRouterPolicy) (db : RouterDB) : result (list router_operation) :=
  if is_nothing m then Ok [] else LogicalRouterOp lrName (fun u => OpPolicies u m) db.

(** The operations are computed and sent; [gen] and [fmt] are the messages of the
    two failures. *)
Definition mutate_routes (gen fmt : string) (args : list string) (lrName : string) (m : mutation LogicalRouterStaticRoute) : Lr () :=
  ops ← labelled gen args (lr_reading (LogicalRouterUpdateStaticRouteOp lrName m));
  labelled fmt args (Transact_lr ops).

Definition mutate_policies (gen fmt : string) (args : list string) (lrName : string) (m : mutation LogicalRouterPolicy) : Lr () :=
  ops ← labelled gen args (lr_reading (LogicalRouterUpdatePolicyOp lrName m));
  labelled fmt args (Transact_lr ops).

(** A list of UUIDs as a message has it. *)
Definition show_uuids (l : list N) : string := "[" +:+ Join (uuid_text <$> l) " " +:+ "]".

(** ** Static routes *)

Definition listLogicalRouterStaticRoutesByFilter (lrName : string) (flt : LogicalRouterStaticRoute -> bool) (db : RouterDB) : result (list (N * LogicalRouterStaticRoute)) :=
  u ← get_router lrName db;
  Ok (filter (fun kv => flt kv.2 = true) (map_to_list (of_router u (r_routes db)))).

Definition ListLogicalRouterStaticRoutesByOption (lrName key value : string) : RouterDB -> result (list (N * LogicalRouterStaticRoute)) :=
  listLogicalRouterStaticRoutesByFilter lrName (fun r => bool_decide (rt_Options r !! key = Some value)).

(** The filter of [ListLogicalRouterStaticRoutes]; a route without policy counts
    as one by destination. *)
Definition route_filter (routeTable policy : option string) (ipPrefix : string) (externalIDs : gmap string string) (r : LogicalRouterStaticRoute) : bool :=
  ids_match (rt_ExternalIDs r) externalIDs &&
  match routeTable with Some t => bool_decide (rt_RouteTable r = t) | None => true end &&
  match policy with
  | Some p => bool_decide (default LogicalRouterStaticRoutePolicyDstIP (rt_Policy r) = p)
  | None => true
  end &&
  (bool_decide (ipPrefix = "") || bool_decide (rt_IPPrefix r = ipPrefix)).

Definition ListLogicalRouterStaticRoutes (lrName : string) (routeTable policy : option string) (ipPrefix : string) (externalIDs : gmap string string)
    : RouterDB -> result (list (N * LogicalRouterStaticRoute)) :=
  listLogicalRouterStaticRoutesByFilter lrName (route_filter routeTable policy ipPrefix externalIDs).

Definition GetLogicalRouterStaticRoute (lrName routeTable policy ipPrefix nexthop : string) (ignoreNotFound : bool) (db : RouterDB)
    : result (option (N * LogicalRouterStaticRoute)) :=
  if bool_decide (lrName = "") then Err (Errorf "the logical router name is required" [])
  else
    match listLogicalRouterStaticRoutesByFilter lrName
            (fun r => bool_decide (rt_RouteTable r = routeTable) && bool_decide (rt_Policy r = Some policy) &&
                      bool_decide (rt_IPPrefix r = ipPrefix) && bool_decide (rt_Nexthop r = nexthop)) db with
    | Err _ => Err (Errorf "get logical router %s static route 'policy %s ip_prefix %s nexthop %s': %w" [lrName; policy; ipPrefix; nexthop])
    | Ok [] => if ignoreNotFound then Ok None
               else Err (Errorf "not found logical router %s static route 'policy %s ip_prefix %s nexthop %s'" [lrName; policy; ipPrefix; nexthop])
    | Ok [r] => Ok (Some r)
    | Ok _ => Err (Errorf "more than one static route 'policy %s ip_prefix %s nexthop %s' in logical router %s" [policy; ipPrefix; nexthop; lrName])
    end.

Definition LogicalRouterStaticRouteExists (lrName routeTable policy ipPrefix nexthop : string) (db : RouterDB) : result bool :=
  r ← GetLogicalRouterStaticRoute lrName routeTable policy ipPrefix nexthop true db; Ok (bool_decide (is_Some r)).

Definition or_dst_ip (policy : string) : string := if bool_decide (policy = "") then LogicalRouterStaticRoutePolicyDstIP else policy.

(** The row of a route; with a BFD session its replies are symmetric. *)
Definition route_row (routeTable policy ipPrefix nexthop : string) (bfdID : option string) (externalIDs : gmap string string)
    (options : list (LogicalRouterStaticRoute -> LogicalRouterStaticRoute)) : LogicalRouterStaticRoute :=
  let r := fold_left (fun r f => f r) options (mkRoute None externalIDs ipPrefix nexthop ∅ (Some policy) routeTable) in
  match bfdID with
  | None => r
  | Some _ => mkRoute bfdID (rt_ExternalIDs r) (rt_IPPrefix r) (rt_Nexthop r) (<[StaticRouteBfdEcmp := "true"]> (rt_Options r)) (rt_Policy r) (rt_RouteTable r)
  end.

Definition newLogicalRouterStaticRoute (lrName routeTable policy ipPrefix nexthop : string) (bfdID : option string) (externalIDs : gmap string string)
    (options : list (LogicalRouterStaticRoute -> LogicalRouterStaticRoute)) (db : RouterDB) : result (option LogicalRouterStaticRoute) :=
  if bool_decide (lrName = "") then Err (Errorf "the logical router name is required" [])
  else
    match LogicalRouterStaticRouteExists lrName routeTable (or_dst_ip policy) ipPrefix nexthop db with
    | Err _ => Err (Errorf "get logical router %s route: %w" [lrName])
    | Ok true => Ok None
    | Ok false => Ok (Some (route_row routeTable (or_dst_ip policy) ipPrefix nexthop bfdID externalIDs options))
    end.

(** Routes that are nil are left out. *)
Definition CreateLogicalRouterStaticRoutes (lrName : string) (routes : list (option LogicalRouterStaticRoute)) : Lr () :=
  mutate_routes "generate operations for adding static routes to logical router %s: %w" "add static routes to %s: %w" [lrName] lrName (Insert (omap id routes)).

Definition other_bfd (bfdID : option string) (r : LogicalRouterStaticRoute) : bool :=
  match rt_BFD r, bfdID with Some b, Some b' => negb (bool_decide (b = b')) | _, _ => false end.

(** The routes that are removed: their next hop is not wanted. *)
Definition routes_to_delete (bfdID : option string) (nexthops : list string) (routes : list (N * LogicalRouterStaticRoute)) : list N :=
  (filter (fun kv => negb (slice_contains nexthops (rt_Nexthop kv.2)) && negb (other_bfd bfdID kv.2) = true) routes).*1.

Definition hops_to_add (nexthops : list string) (routes : list (N * LogicalRouterStaticRoute)) : list string :=
  filter (fun nexthop => nexthop ∉ rt_Nexthop <$> routes.*2) nexthops.

Definition AddLogicalRouterStaticRoute (lrName routeTable policy ipPrefix : string) (bfdID : option string) (externalIDs : gmap string string) (nexthops : list string) : Lr () :=
  let policy := or_dst_ip policy in
  routes ← lr_reading (ListLogicalRouterStaticRoutes lrName (Some routeTable) (Some policy) ipPrefix ∅);
  toAdd ← lr_reading (fun db => collect (fun nexthop => newLogicalRouterStaticRoute lrName routeTable policy ipPrefix nexthop bfdID externalIDs [] db)
                              (hops_to_add nexthops routes));
  _ ← mutate_routes "generate operations for removing static routes from logical router %s: %w"
        "failed to delete static routes from logical router %s: %w" [lrName] lrName (Remove (routes_to_delete bfdID nexthops routes));
  labelled "failed to add static routes to logical router %s: %w" [lrName] (CreateLogicalRouterStaticRoutes lrName toAdd).

(** The columns of the row with the UUID of the route are changed; the message of
    a failure reads the policy. *)
Definition UpdateLogicalRouterStaticRoute (route : option (N * LogicalRouterStaticRoute)) (change : LogicalRouterStaticRoute -> LogicalRouterStaticRoute) : Lr () :=
  match route with
  | None => failing (Errorf "route is nil" [])
  | Some (u, r) => fun db =>
      match Transact_lr [OpRouteUpdate u change] db, rt_Policy r with
      | Done (Err _, db'), Some p => Done (Err (Errorf "update logical router static route 'policy %s ip_prefix %s': %w" [p; rt_IPPrefix r]), db')
      | Done (Err _, _), None => Panic
      | o, _ => o
      end
  end.

Definition remove_routes (lrName : string) (uuids : list N) : Lr () :=
  mutate_routes "generate operations for removing static routes %v from logical router %s: %w" "delete static routes %v from logical router %s: %w"
    [show_uuids uuids; lrName] lrName (Remove uuids).

(** What is done when the router exists. *)
Definition when_router (lrName : string) (k : N -> Lr ()) : Lr () :=
  lr ← lr_reading (GetLogicalRouter lrName true);
  match lr with None => mret () | Some (u, _) => k u end.

Definition DeleteLogicalRouterStaticRoute (lrName : string) (routeTable policy : option string) (ipPrefix nexthop : string) : Lr () :=
  let policy := or_dst_ip (default "" policy) in
  when_router lrName (fun _ =>
    routes ← lr_reading (ListLogicalRouterStaticRoutes lrName routeTable (Some policy) ipPrefix ∅);
    remove_routes lrName (filter (fun kv => nexthop = "" \/ rt_Nexthop kv.2 = nexthop) routes).*1).

Definition DeleteLogicalRouterStaticRouteByUUID (lrName : string) (uuid : N) : Lr () :=
  when_router lrName (fun _ =>
    mutate_routes "generate operations for removing static route %s from logical router %s: %w" "delete static route %s from logical router %s: %w"
      [uuid_text uuid; lrName] lrName (Remove [uuid])).

Definition DeleteLogicalRouterStaticRouteByExternalIDs (lrName : string) (externalIDs : gmap string string) : Lr () :=
  when_router lrName (fun _ =>
    routes ← lr_reading (ListLogicalRouterStaticRoutes lrName None None "" externalIDs);
    remove_routes lrName routes.*1).

Definition createStaticRouteKey (routeTable policy ipPrefix : string) : string := routeTable +:+ "-" +:+ policy +:+ "-" +:+ ipPrefix.

Definition route_key (r : LogicalRouterStaticRoute) : string :=
  createStaticRouteKey (rt_RouteTable r) (default LogicalRouterStaticRoutePolicyDstIP (rt_Policy r)) (rt_IPPrefix r).

(** The rows in the list given for the router whose key is asked for, their policy
    filled in. *)
Definition batchListLogicalRouterStaticRoutesForDelete (staticRoutes : gmap string string) (lrStaticRoute : gset N) (db : RouterDB) : list (N * LogicalRouterStaticRoute) :=
  (fun kv => (kv.1, set_rt_policy (default LogicalRouterStaticRoutePolicyDstIP (rt_Policy kv.2)) kv.2)) <$>
    filter (fun kv => kv.1 ∈ lrStaticRoute /\ is_Some (staticRoutes !! route_key kv.2)) (map_to_list (ch_rows (r_routes db))).

(** The next hop to delete by key; of two routes with a key the last one counts. *)
Definition hops_by_key (staticRoutes : list (option LogicalRouterStaticRoute)) : gmap string string :=
  rt_Nexthop <$> index_by route_key (omap id staticRoutes).

Definition BatchDeleteLogicalRouterStaticRoute (lrName : string) (staticRoutes : list (option LogicalRouterStaticRoute)) : Lr () :=
  when_router lrName (fun u =>
    let staticRoutesMap := hops_by_key staticRoutes in
    routes ← lr_reading (fun db => Ok (batchListLogicalRouterStaticRoutesForDelete staticRoutesMap (refs_of u (r_routes db)) db));
    remove_routes lrName
      (filter (fun kv => match staticRoutesMap !! route_key kv.2 with
                         | Some nexthop => bool_decide (nexthop = "") || bool_decide (rt_Nexthop kv.2 = nexthop)
                         | None => false
                         end = true) routes).*1).

Definition ClearLogicalRouterStaticRoute (lrName : string) : Lr () :=
  u ← labelled "get logical router %s: %w" [lrName] (lr_reading (get_router lrName));
  labelled "clear logical router %s static routes: %w" [lrName] (Transact_lr [OpRoutes u Clear]).

(** ** Policies *)

(** The list by the index of the client ([Where(models...)]): the rows with the
    priority and the match of one of the given ones, where neither is the default
    value of its column. *)
Class PolicyIndex := by_index : list LogicalRouterPolicy -> gmap N LogicalRouterPolicy -> list (N * LogicalRouterPolicy).

Definition indexed (p : LogicalRouterPolicy) : Prop := 0 < lp_Priority p /\ lp_Match p <> "".

Class PolicyIndexOk (i : PolicyIndex) : Prop := {
  by_index_elem : forall keys rows u p, Forall indexed keys ->
    (u, p) ∈ by_index keys rows <-> rows !! u = Some p /\ exists k, k ∈ keys /\ lp_Priority k = lp_Priority p /\ lp_Match k = lp_Match p;
  by_index_unique : forall keys rows, Forall indexed keys -> NoDup (by_index keys rows).*1
}.

Definition listLogicalRouterPoliciesByFilter (lrName : string) (flt : LogicalRouterPolicy -> bool) (db : RouterDB) : result (list (N * LogicalRouterPolicy)) :=
  u ← get_router lrName db;
  Ok (filter (fun kv => flt kv.2 = true) (map_to_list (of_router u (r_policies db)))).

Definition newLogicalRouterPolicy (priority : Z) (mtch action : string) (nextHops bfdSessions : list string) (externalIDs : gmap string string) : LogicalRouterPolicy :=
  mkPolicy action bfdSessions externalIDs mtch None nextHops priority.

Definition CreateLogicalRouterPolicies (lrName : string) (policies : list (option LogicalRouterPolicy)) : Lr () :=
  mutate_policies "generate operations for adding policies to logical router %s: %w" "add policies to %s: %w" [lrName] lrName (Insert (omap id policies)).

Definition DeleteLogicalRouterPolicyByUUID (lrName : string) (uuid : N) : Lr () :=
  mutate_policies "generate operations for removing policy '%s' from logical router %s: %w" "delete logical router policy '%s' from logical router %s: %w"
    [uuid_text uuid; lrName] lrName (Remove [uuid]).

(** Duplicates are dropped; the order of a Go set is that of its elements here. *)
Definition BatchDeleteLogicalRouterPolicyByUUID (lrName : string) (uuidList : list N) : Lr () :=
  let uuidList := elements (list_to_set uuidList : gset N) in
  mutate_policies "generate operations for removing policies '%v' from logical router %s: %w" "delete logical router policies '%v' from logical router %s: %w"
    [show_uuids uuidList; lrName] lrName (Remove uuidList).

Definition policy_has_key (priority : Z) (mtch : string) (p : LogicalRouterPolicy) : bool :=
  (lp_Priority p =? priority) && bool_decide (lp_Match p = mtch).

(** A policy does what is wanted: the action, and for a reroute the next hops. *)
Definition same_effect (action : string) (nextHops : list string) (p : LogicalRouterPolicy) : bool :=
  bool_decide (lp_Action p = action) &&
  (negb (bool_decide (lp_Action p = LogicalRouterPolicyActionReroute)) ||
   bool_decide ((list_to_set nextHops : gset string) = list_to_set (lp_Nexthops p))).

(** The first policy that does what is wanted is kept, the others are duplicates. *)
Fixpoint match_policies (action : string) (nextHops : list string) (found : option (N * LogicalRouterPolicy)) (policyList : list (N * LogicalRouterPolicy))
    : list N * option (N * LogicalRouterPolicy) :=
  match policyList with
  | [] => ([], found)
  | p :: l =>
      if negb (same_effect action nextHops p.2) || bool_decide (is_Some found)
      then let '(duplicate, f) := match_policies action nextHops found l in (p.1 :: duplicate, f)
      else match_policies action nextHops (Some p) l
  end.

Definition matchLogicalRouterPolicies (policy : LogicalRouterPolicy) (policyList : list (N * LogicalRouterPolicy)) : list N * option (N * LogicalRouterPolicy) :=
  match_policies (lp_Action policy) (lp_Nexthops policy) None policyList.

Definition AddLogicalRouterPolicy (lrName : string) (priority : Z) (mtch action : string) (nextHops bfdSessions : list string) (externalIDs : gmap string string) : Lr () :=
  policyList ← labelled "get policy priority %d match %s in logical router %s: %w" [Itoa priority; mtch; lrName]
                 (lr_reading (listLogicalRouterPoliciesByFilter lrName (policy_has_key priority mtch)));
  let '(duplicate, policyFound) := match_policies action nextHops None policyList in
  _ ← each (DeleteLogicalRouterPolicyByUUID lrName) duplicate;
  match policyFound with
  | None => labelled "add policy to logical router %s: %w" [lrName]
              (CreateLogicalRouterPolicies lrName [Some (newLogicalRouterPolicy priority mtch action nextHops bfdSessions externalIDs)])
  | Some (u, p) =>
      if bool_decide (lp_ExternalIDs p = externalIDs) then mret ()
      else labelled "failed to update logical router policy: %w" [] (Transact_lr [OpPolicyUpdate u (set_lp_external externalIDs)])
  end.

Definition createPolicyKey (priority : Z) (mtch : string) : string := mtch +:+ "-" +:+ Itoa priority.

Definition buildLogicalRouterPolicyIndex (priority : Z) (mtch : string) : LogicalRouterPolicy :=
  mkPolicy "" [] ∅ mtch None [] (if 0 <=? priority then priority else 0).

Definition policy_key (p : LogicalRouterPolicy) : string := createPolicyKey (lp_Priority p) (lp_Match p).

Definition by_policy_key (policies : list LogicalRouterPolicy) : gmap string LogicalRouterPolicy := index_by policy_key policies.

(** For every given policy, the last one for its key, the rows of the router with
    the key, in the order a map with these keys is walked here. *)
Definition batchListLogicalRouterPoliciesByFilter `{PolicyIndex} (lrName : string) (policies : list LogicalRouterPolicy) (db : RouterDB)
    : result (list (LogicalRouterPolicy * list (N * LogicalRouterPolicy))) :=
  u ← get_router lrName db;
  let policyList := by_index ((fun p => buildLogicalRouterPolicyIndex (lp_Priority p) (lp_Match p)) <$> policies) (ch_rows (r_policies db)) in
  let mine := filter (fun kv => kv.1 ∈ refs_of u (r_policies db)) policyList in
  Ok ((fun kv => (kv.2, filter (fun r => policy_key r.2 = kv.1) mine)) <$> map_to_list (by_policy_key policies)).

(** What is deleted, created and updated for one policy. *)
Record Batch := mkBatch {
  b_delete : list N;
  b_create : list LogicalRouterPolicy;
  b_update : list (LogicalRouterPolicy * N)
}.

Definition batch_step (b : Batch) (entry : LogicalRouterPolicy * list (N * LogicalRouterPolicy)) : Batch :=
  let '(policy, policyList) := entry in
  let '(duplicate, policyFound) := matchLogicalRouterPolicies policy policyList in
  match policyFound with
  | None => mkBatch (b_delete b ++ duplicate) (b_create b ++ [policy]) (b_update b)
  | Some (u, p) =>
      mkBatch (b_delete b ++ duplicate) (b_create b)
        (if bool_decide (lp_ExternalIDs p = lp_ExternalIDs policy) then b_update b else b_update b ++ [(policy, u)])
  end.

Definition batchCreateLogicalRouterPolicies (lrName : string) (policies : list LogicalRouterPolicy) : Lr () :=
  labelled "failed to batch create policies for router %s: %w" [lrName]
    (CreateLogicalRouterPolicies lrName
      ((fun p => Some (newLogicalRouterPolicy (lp_Priority p) (lp_Match p) (lp_Action p) (lp_Nexthops p) (lp_BFDSessions p) (lp_ExternalIDs p))) <$> policies)).

Definition batchUpdateLogicalRouterPolicies (updates : list (LogicalRouterPolicy * N)) : Lr () :=
  labelled "failed to batch update logical router policy: %w" []
    (Transact_lr ((fun pu => OpPolicyUpdate pu.2 (set_lp_external (lp_ExternalIDs pu.1))) <$> updates)).

Definition BatchAddLogicalRouterPolicy `{PolicyIndex} (lrName : string) (policies : list LogicalRouterPolicy) : Lr () :=
  match policies with
  | [] => mret ()
  | _ =>
      policyListMap ← labelled "batch list logical router %s policies %d: %w" [lrName; Itoa (len policies)]
                        (lr_reading (batchListLogicalRouterPoliciesByFilter lrName policies));
      let b := fold_left batch_step policyListMap (mkBatch [] [] []) in
      _ ← BatchDeleteLogicalRouterPolicyByUUID lrName (b_delete b);
      _ ← batchCreateLogicalRouterPolicies lrName (b_create b);
      batchUpdateLogicalRouterPolicies (b_update b)
  end.

Definition GetLogicalRouterPolicy (lrName : string) (priority : Z) (mtch : string) (ignoreNotFound : bool) (db : RouterDB) : result (list (N * LogicalRouterPolicy)) :=
  if bool_decide (lrName = "") then Err (Errorf "the logical router name is required" [])
  else
    match listLogicalRouterPoliciesByFilter lrName (policy_has_key priority mtch) db with
    | Err _ => Err (Errorf "get policy priority %d match %s in logical router %s: %w" [Itoa priority; mtch; lrName])
    | Ok [] => if ignoreNotFound then Ok []
               else Err (Errorf "not found policy priority %d match %s in logical router %s" [Itoa priority; mtch; lrName])
    | Ok l => Ok l
    end.

Definition GetLogicalRouterPolicyByUUID (uuid : N) (db : RouterDB) : result LogicalRouterPolicy :=
  match ch_rows (r_policies db) !! uuid with Some p => Ok p | None => Err (Errorf "object not found" []) end.

Definition GetLogicalRouterPoliciesByExtID (lrName key value : string) : RouterDB -> result (list (N * LogicalRouterPolicy)) :=
  listLogicalRouterPoliciesByFilter lrName (fun p => bool_decide (lp_ExternalIDs p !! key = Some value)).

Definition policyFilter (priority : Z) (externalIDs : gmap string string) (ignoreExtIDEmptyValue : bool) (p : LogicalRouterPolicy) : bool :=
  negb (size (lp_ExternalIDs p) <? size externalIDs)%nat &&
  (bool_decide (lp_ExternalIDs p = ∅) ||
   forallb (fun kv => let v := default "" (lp_ExternalIDs p !! kv.1) in
                      if bool_decide (kv.2 = "") && ignoreExtIDEmptyValue then negb (bool_decide (v = "")) else bool_decide (v = kv.2))
     (map_to_list externalIDs)) &&
  negb ((0 <=? priority) && negb (priority =? lp_Priority p)).

Definition ListLogicalRouterPolicies (lrName : string) (priority : Z) (externalIDs : gmap string string) (ignoreExtIDEmptyValue : bool)
    : RouterDB -> result (list (N * LogicalRouterPolicy)) :=
  listLogicalRouterPoliciesByFilter lrName (policyFilter priority externalIDs ignoreExtIDEmptyValue).

Definition DeleteLogicalRouterPolicy (lrName : string) (priority : Z) (mtch : string) : Lr () :=
  policyList ← lr_reading (GetLogicalRouterPolicy lrName priority mtch true);
  each (DeleteLogicalRouterPolicyByUUID lrName) policyList.*1.

Definition BatchDeleteLogicalRouterPolicy `{PolicyIndex} (lrName : string) (logicalRouteRolicies : list LogicalRouterPolicy) : Lr () :=
  match logicalRouteRolicies with
  | [] => mret ()
  | _ =>
      policyListMap ← lr_reading (batchListLogicalRouterPoliciesByFilter lrName logicalRouteRolicies);
      BatchDeleteLogicalRouterPolicyByUUID lrName (policyListMap ≫= (fun e => e.2.*1))
  end.

Definition DeleteLogicalRouterPolicies (lrName : string) (priority : Z) (externalIDs : gmap string string) : Lr () :=
  policies ← lr_reading (ListLogicalRouterPolicies lrName priority externalIDs false);
  mutate_policies "generate operations for removing policy %v from logical router %s: %w" "delete logical router policy %v from logical router %s: %w"
    [show_uuids policies.*1; lrName] lrName (Remove policies.*1).

Definition DeleteLogicalRouterPolicyByNexthop (lrName : string) (priority : Z) (nexthop : string) : Lr () :=
  policyList ← lr_reading (listLogicalRouterPoliciesByFilter lrName (fun p =>
                 (lp_Priority p =? priority) && (bool_decide (lp_Nexthop p = Some nexthop) || slice_contains (lp_Nexthops p) nexthop)));
  each (DeleteLogicalRouterPolicyByUUID lrName) policyList.*1.

Definition ClearLogicalRouterPolicy (lrName : string) : Lr () :=
  u ← labelled "get logical router %s: %w" [lrName] (lr_reading (get_router lrName));
  labelled "clear logical router %s policy: %w" [lrName] (Transact_lr [OpPolicies u Clear]).

Definition UpdateLogicalRouterPolicy (uuid : N) (change : LogicalRouterPolicy -> LogicalRouterPolicy) : Lr () :=
  labelled "failed to update logical router policy %s: %w" [uuid_text uuid] (Transact_lr [OpPolicyUpdate uuid change]).

Definition DeleteRouterPolicy (lr uuid : N) : Lr () :=
  labelled "failed to delete router policy %s: %w" [uuid_text uuid] (Transact_lr [OpPolicies lr (Remove [uuid])]).
