(* ===== verification/NbRouterFacts.v ===== *)
(** * Facts on logical routers

    What a mutation does to the rows of its router and of the others; the calls on
    static routes and on policies as changes of the rows of one router. *)
From Stdlib Require Import Ascii.
From S2P Require Import Prelude GoStrings GoNet GoNetText UtilNet GoText NbDb NbAcl NbAclFacts NbRouter.

Local Open Scope Z_scope.

(** ** Maps filled from lists *)

(** Items that are told apart by a function are the same where it agrees. *)
Lemma NoDup_fmap_same {A B} (f : A -> B) l x y : NoDup (f <$> l) -> x ∈ l -> y ∈ l -> f x = f y -> x = y.
Proof.
  intros Hn [i Hi]%list_elem_of_lookup [j Hj]%list_elem_of_lookup E. assert (i = j) as ->; [|congruence].
  eapply NoDup_lookup; [exact Hn|rewrite list_lookup_fmap, Hi; cbn; by rewrite E|by rewrite list_lookup_fmap, Hj].
Qed.

Section Index.
Context {A : Type} (key : A -> string).

Lemma index_by_acc l (m : gmap string A) k x : fold_left (fun m x => <[key x := x]> m) l m !! k = Some x ->
  (x ∈ l /\ key x = k) \/ m !! k = Some x.
Proof.
  revert m. induction l as [|y l IH]; cbn; intros m Hk; [by right|]. apply IH in Hk as [[Hx Hk]|Hk]; [left; split; [by right|done]|].
  apply lookup_insert_Some in Hk as [[<- <-]|[_ Hk]]; [left; split; [by left|done]|by right].
Qed.

Lemma index_by_dom_acc l (m : gmap string A) k : is_Some (m !! k) \/ k ∈ key <$> l -> is_Some (fold_left (fun m x => <[key x := x]> m) l m !! k).
Proof.
  revert m. induction l as [|y l IH]; cbn; intros m Hk; [destruct Hk as [?|?%elem_of_nil]; done|]. apply IH.
  rewrite elem_of_cons in Hk. destruct (decide (k = key y)) as [->|Hne]; [left; rewrite lookup_insert_eq; by eexists|].
  rewrite lookup_insert_ne by done. tauto.
Qed.

Lemma index_by_elem l k x : index_by key l !! k = Some x -> x ∈ l /\ key x = k.
Proof. intros [H|H]%index_by_acc; [done|]. by rewrite lookup_empty in H. Qed.

Lemma index_by_dom l x : x ∈ l -> is_Some (index_by key l !! key x).
Proof. intros Hx. apply index_by_dom_acc. right. apply list_elem_of_fmap. by exists x. Qed.

Lemma index_by_iff l k x : NoDup (key <$> l) -> index_by key l !! k = Some x <-> x ∈ l /\ key x = k.
Proof.
  intros Hn. split; [apply index_by_elem|]. intros [Hx <-]. destruct (index_by_dom l x Hx) as [y Hy]. rewrite Hy. f_equal.
  apply index_by_elem in Hy as [Hy E]. symmetry. by eapply (NoDup_fmap_same key).
Qed.

End Index.

(** ** Rows of routers *)

Section Rows.
Context {A : Type}.
Implicit Types (c : Children A) (l : list A).

(** Every UUID that is used is smaller than the next one, and a row is in one
    router. *)
Record children_ok (n : N) (c : Children A) : Prop := {
  ch_refs_old : forall lr u, u ∈ refs_of lr c -> (u < n)%N;
  ch_rows_old : forall u x, ch_rows c !! u = Some x -> (u < n)%N;
  ch_one : forall lr lr' u, u ∈ refs_of lr c -> u ∈ refs_of lr' c -> lr = lr'
}.

Lemma of_router_lookup lr c u x : of_router lr c !! u = Some x <-> ch_rows c !! u = Some x /\ u ∈ refs_of lr c.
Proof. apply map_lookup_filter_Some. Qed.

Lemma refs_of_insert lr s refs (rows : gmap N A) lr' :
  refs_of lr' (mkCh (<[lr := s]> refs) rows) = if decide (lr' = lr) then s else refs_of lr' (mkCh refs rows).
Proof. unfold refs_of. cbn. case_decide as E; [subst; by rewrite lookup_insert_eq|by rewrite lookup_insert_ne]. Qed.

Lemma referenced_by lr u refs (rows : gmap N A) : u ∈ refs_of lr (mkCh refs rows) -> is_referenced refs u = true.
Proof.
  unfold refs_of, is_referenced. cbn. intros Hu. apply bool_decide_eq_true_2. destruct (refs !! lr) as [s|] eqn:E; cbn in Hu; [|set_solver].
  by exists lr, s.
Qed.

(** Collection takes no row of a router. *)
Lemma of_router_collected lr refs (rows : gmap N A) : of_router lr (collected refs rows) = of_router lr (mkCh refs rows).
Proof.
  apply map_eq. intros u. apply option_eq. intros x. rewrite !of_router_lookup. cbn. rewrite map_lookup_filter_Some.
  split; [tauto|]. intros [Hx Hu]. split_and!; [done| |done]. by eapply (referenced_by lr).
Qed.

Lemma numbered_lookup n l u x : numbered n l !! u = Some x -> (n <= u < n + N.of_nat (length l))%N /\ x ∈ l.
Proof.
  revert n. induction l as [|y l IH]; intros n; cbn; [by rewrite lookup_empty|].
  intros [[<- <-]|[Hn Hu]]%lookup_insert_Some; [split; [lia|by left]|]. apply IH in Hu as [Hr Hx]. split; [lia|by right].
Qed.

Lemma numbered_elem n l x : x ∈ l -> exists u, numbered n l !! u = Some x.
Proof.
  intros Hx. revert n. induction Hx as [x l|x y l Hx IH]; intros n; cbn.
  - exists n. by rewrite lookup_insert_eq.
  - destruct (IH (n + 1)%N) as [u Hu]. exists u. rewrite lookup_insert_ne; [done|]. apply numbered_lookup in Hu. lia.
Qed.

Lemma numbered_dom n l u : u ∈ dom (numbered n l) -> (n <= u)%N.
Proof. intros [x Hx]%elem_of_dom. apply numbered_lookup in Hx. lia. Qed.

(** The rows of the router a mutation is for. *)
Definition mutated (n : N) (m : mutation A) (rows : gmap N A) : gmap N A :=
  match m with
  | Insert l => numbered n l ∪ rows
  | Remove uuids => filter (fun kv => kv.1 ∉ uuids) rows
  | Clear => ∅
  end.

Lemma of_router_mutate lr n m c : children_ok n c -> of_router lr (mutate lr n m c) = mutated n m (of_router lr c).
Proof.
  intros [Hr Hn H1]. destruct c as [refs rows], m as [l|uuids|]; cbn [mutate mutated]; rewrite ?of_router_collected;
    apply map_eq; intros u; apply option_eq; intros x.
  - rewrite of_router_lookup, refs_of_insert, decide_True by done. cbn [ch_rows]. rewrite !lookup_union_Some_raw, of_router_lookup. cbn [ch_rows].
    split.
    + intros [[Hx|[H2 H3]] Hu]; [by left|]. right. split_and!; [done..|]. apply elem_of_union in Hu as [|Hu]; [done|].
      apply elem_of_dom in Hu as [y Hy]. congruence.
    + intros [Hx|(H2 & H3 & H4)]; [|split; [by right|set_solver]]. split; [by left|]. apply elem_of_union_r, elem_of_dom. by exists x.
  - rewrite map_lookup_filter_Some, !of_router_lookup, refs_of_insert, decide_True by done. cbn. set_solver.
  - rewrite of_router_lookup, refs_of_insert, decide_True by done. rewrite lookup_empty. set_solver.
Qed.

Lemma of_router_mutate_ne lr lr' n m c : children_ok n c -> lr' <> lr -> of_router lr' (mutate lr n m c) = of_router lr' c.
Proof.
  intros [Hr Hn H1] Hne. destruct c as [refs rows], m as [l|uuids|]; cbn [mutate]; rewrite ?of_router_collected;
    apply map_eq; intros u; apply option_eq; intros x; rewrite !of_router_lookup, refs_of_insert, decide_False by done; cbn [ch_rows]; [|done..].
  rewrite lookup_union_Some_raw. split.
  - intros [[Hx|[_ Hx]] Hu]; [|done]. apply Hr in Hu. apply numbered_lookup in Hx. lia.
  - intros [Hx Hu]. split; [|done]. right. split; [|done]. destruct (numbered n l !! u) as [y|] eqn:Hy; [|done].
    apply Hr in Hu. apply numbered_lookup in Hy. lia.
Qed.

(** A reference after a mutation is one from before or one to a new row. *)
Lemma refs_of_mutate lr lr' n m c u : u ∈ refs_of lr' (mutate lr n m c) ->
  u ∈ refs_of lr' c \/ (lr' = lr /\ exists l, m = Insert l /\ u ∈ dom (numbered n l)).
Proof.
  intros Hu. destruct c as [refs rows]. destruct m as [l|uuids|]; unfold mutate, collected in Hu; rewrite refs_of_insert in Hu;
    case_decide; subst; set_solver.
Qed.

Lemma mutate_ok lr n m c : children_ok n c -> children_ok (n + created m) (mutate lr n m c).
Proof.
  intros [Hr Hn H1]. split.
  - intros lr' u [Hc|(-> & l & -> & [x Hx]%elem_of_dom)]%refs_of_mutate; [apply Hr in Hc; lia|]. apply numbered_lookup in Hx. cbn. lia.
  - intros u x Hu. destruct m as [l|uuids|]; cbn in Hu |- *.
    + apply lookup_union_Some_raw in Hu as [Hu|[_ Hu]]; [apply numbered_lookup in Hu|apply Hn in Hu]; lia.
    + apply map_lookup_filter_Some in Hu as [Hu _]. apply Hn in Hu. lia.
    + apply map_lookup_filter_Some in Hu as [Hu _]. apply Hn in Hu. lia.
  - intros lr1 lr2 u [Ha|(-> & l & -> & Ha)]%refs_of_mutate [Hb|(-> & l' & E & Hb)]%refs_of_mutate; [by eapply H1| | |done].
    + apply Hr in Ha. apply numbered_dom in Hb. lia.
    + apply Hr in Hb. apply numbered_dom in Ha. lia.
Qed.

Lemma children_ok_mono n n' c : children_ok n c -> (n <= n')%N -> children_ok n' c.
Proof. intros [Hr Hn H1] Hle. split; [intros lr u Hu; apply Hr in Hu; lia|intros u x Hu; apply Hn in Hu; lia|exact H1]. Qed.

Lemma change_child_ok n u change c : children_ok n c -> children_ok n (change_child u change c).
Proof.
  intros [Hr Hn H1]. split; [exact Hr| |exact H1]. cbn. intros v x Hv. destruct (decide (v = u)) as [->|Hne].
  - rewrite lookup_alter_eq in Hv. apply fmap_Some in Hv as (y & Hy & _). by eapply Hn.
  - rewrite lookup_alter_ne in Hv by done. by eapply Hn.
Qed.

Lemma of_router_change lr u change c : of_router lr (change_child u change c) = alter change u (of_router lr c).
Proof.
  apply map_eq. intros v. apply option_eq. intros x. rewrite of_router_lookup. cbn. unfold refs_of. cbn. fold (refs_of lr c).
  destruct (decide (v = u)) as [->|Hne].
  - rewrite !lookup_alter_eq, !fmap_Some. split.
    + intros [(y & Hy & ->) Hu]. exists y. split; [by apply of_router_lookup|done].
    + intros (y & [Hy Hu]%of_router_lookup & ->). split; [by exists y|done].
  - rewrite !lookup_alter_ne, of_router_lookup by done. done.
Qed.

Lemma refs_of_drop lr lr' c u : u ∈ refs_of lr' (drop_router lr c) -> u ∈ refs_of lr' c.
Proof.
  unfold refs_of, drop_router, collected. cbn. destruct (decide (lr' = lr)) as [->|Hne]; [rewrite lookup_delete_eq; cbn; set_solver|].
  by rewrite lookup_delete_ne.
Qed.

Lemma drop_router_ok n lr c : children_ok n c -> children_ok n (drop_router lr c).
Proof.
  intros [Hr Hn H1]. split.
  - intros lr' u Hu%refs_of_drop. by eapply Hr.
  - intros u x [Hu _]%map_lookup_filter_Some. by eapply Hn.
  - intros lr1 lr2 u Ha%refs_of_drop Hb%refs_of_drop. by eapply H1.
Qed.

End Rows.

(** ** Calls *)

Definition routes_at (lr : N) (db : RouterDB) : gmap N LogicalRouterStaticRoute := of_router lr (r_routes db).
Definition policies_at (lr : N) (db : RouterDB) : gmap N LogicalRouterPolicy := of_router lr (r_policies db).

Record r_ok (db : RouterDB) : Prop := {
  rok_routes : children_ok (r_next db) (r_routes db);
  rok_policies : children_ok (r_next db) (r_policies db)
}.

(** The server accepts every transaction. *)
Definition server_accepts (db : RouterDB) : Prop := r_replies db = [].

(** Router [lr] has the given routes and policies, and the rest is as it was. *)
Record changed (lr : N) (routes : gmap N LogicalRouterStaticRoute) (policies : gmap N LogicalRouterPolicy) (db db' : RouterDB) : Prop := {
  chg_routes : routes_at lr db' = routes;
  chg_policies : policies_at lr db' = policies;
  chg_others : forall lr', lr' <> lr -> routes_at lr' db' = routes_at lr' db /\ policies_at lr' db' = policies_at lr' db;
  chg_routers : r_routers db' = r_routers db;
  chg_next : (r_next db <= r_next db')%N;
  chg_ok : r_ok db';
  chg_replies : r_replies db' = r_replies db
}.

Lemma changed_refl lr db : r_ok db -> changed lr (routes_at lr db) (policies_at lr db) db db.
Proof. by split. Qed.

Lemma changed_trans lr r1 p1 r2 p2 db1 db2 db3 : changed lr r1 p1 db1 db2 -> changed lr r2 p2 db2 db3 -> changed lr r2 p2 db1 db3.
Proof.
  intros H12 H23. split; [apply H23|apply H23| | | |apply H23|].
  - intros lr' Hne. destruct (chg_others _ _ _ _ _ H12 lr' Hne) as [<- <-]. by apply (chg_others _ _ _ _ _ H23).
  - rewrite (chg_routers _ _ _ _ _ H23). apply H12.
  - pose proof (chg_next _ _ _ _ _ H12). pose proof (chg_next _ _ _ _ _ H23). lia.
  - rewrite (chg_replies _ _ _ _ _ H23). apply H12.
Qed.

Lemma changed_accepts lr r p db db' : changed lr r p db db' -> server_accepts db -> server_accepts db'.
Proof. intros H Ha. unfold server_accepts. rewrite (chg_replies _ _ _ _ _ H). exact Ha. Qed.

Lemma get_router_changed lr r p db db' lrName : changed lr r p db db' -> get_router lrName db' = get_router lrName db.
Proof. intros H. unfold get_router, GetLogicalRouter. by rewrite (chg_routers _ _ _ _ _ H). Qed.

Lemma routes_mutation lr m db : r_ok db ->
  changed lr (mutated (r_next db) m (routes_at lr db)) (policies_at lr db) db (router_op (OpRoutes lr m) db).
Proof.
  intros [Hr Hp]. destruct db as [lrs routes policies next replies]. cbn in *. split; cbn; try done.
  - by apply of_router_mutate.
  - intros lr' Hne. split; [by apply of_router_mutate_ne|done].
  - lia.
  - split; cbn; [by apply mutate_ok|]. eapply children_ok_mono; [done|lia].
Qed.

Lemma policies_mutation lr m db : r_ok db ->
  changed lr (routes_at lr db) (mutated (r_next db) m (policies_at lr db)) db (router_op (OpPolicies lr m) db).
Proof.
  intros [Hr Hp]. destruct db as [lrs routes policies next replies]. cbn in *. split; cbn; try done.
  - by apply of_router_mutate.
  - intros lr' Hne. split; [done|by apply of_router_mutate_ne].
  - lia.
  - split; cbn; [|by apply mutate_ok]. eapply children_ok_mono; [done|lia].
Qed.

Lemma policy_update lr u change db : r_ok db -> is_Some (policies_at lr db !! u) ->
  changed lr (routes_at lr db) (alter change u (policies_at lr db)) db (router_op (OpPolicyUpdate u change) db).
Proof.
  intros [Hr Hp] [p Hu]. destruct db as [lrs routes policies next replies]. cbn in *. split; cbn; try done.
  - apply of_router_change.
  - intros lr' Hne. split; [done|]. unfold policies_at. cbn. rewrite of_router_change. apply alter_id. intros q Hq.
    apply of_router_lookup in Hq as [_ Hq]. apply of_router_lookup in Hu as [_ Hu]. cbn in *. destruct Hne. by eapply ch_one.
  - split; cbn; [done|]. by apply change_child_ok.
Qed.

(** One transaction of one operation, on a server that accepts. *)
Lemma Transact_lr_one op db : server_accepts db -> op_well_formed op = true -> Transact_lr [op] db = Done (Ok (), router_op op db).
Proof.
  intros Ha Hw. destruct db as [lrs routes policies next replies]. unfold server_accepts in Ha. cbn in Ha. subst.
  unfold Transact_lr. cbn -[router_op]. by rewrite Hw.
Qed.

Lemma nothing_mutated {A} n (m : mutation A) rows : is_nothing m = true -> mutated n m rows = rows.
Proof.
  destruct m as [[|x l]|[|u l]|]; try done; intros _; cbn.
  - apply map_empty_union.
  - apply map_filter_id. set_solver.
Qed.

Lemma lbind_done {A B} (m : Lr A) (f : A -> Lr B) db x db' : m db = Done (Ok x, db') -> mbind f m db = f x db'.
Proof. unfold mbind, lr_bind. by intros ->. Qed.

Lemma labelled_done {A} fmt args (m : Lr A) db x db' : m db = Done (Ok x, db') -> labelled fmt args m db = Done (Ok x, db').
Proof. unfold labelled. by intros ->. Qed.

Lemma lr_reading_done {A} (f : RouterDB -> result A) db x : f db = Ok x -> lr_reading f db = Done (Ok x, db).
Proof. unfold lr_reading. by intros ->. Qed.

(** A call that succeeds and changes router [lr]. *)
Definition does (m : Lr ()) (lr : N) (routes : gmap N LogicalRouterStaticRoute) (policies : gmap N LogicalRouterPolicy) (db : RouterDB) : Prop :=
  exists db', m db = Done (Ok (), db') /\ changed lr routes policies db db'.

Lemma does_bind (m : Lr ()) (k : () -> Lr ()) lr r1 p1 r2 p2 db : does m lr r1 p1 db ->
  (forall db', changed lr r1 p1 db db' -> does (k ()) lr r2 p2 db') -> does (mbind k m) lr r2 p2 db.
Proof.
  intros (db' & Hm & Hc) Hk. destruct (Hk db' Hc) as (db'' & Hk' & Hc'). exists db''.
  rewrite (lbind_done _ _ _ _ _ Hm). split; [done|by eapply changed_trans].
Qed.

Lemma does_labelled fmt args m lr r p db : does m lr r p db -> does (labelled fmt args m) lr r p db.
Proof. intros (db' & Hm & Hc). exists db'. split; [by apply labelled_done|done]. Qed.

Lemma does_nothing lr db : r_ok db -> does (mret ()) lr (routes_at lr db) (policies_at lr db) db.
Proof. intros Hok. exists db. split; [done|by apply changed_refl]. Qed.

Lemma does_reading {A} (f : RouterDB -> result A) (k : A -> Lr ()) x lr r p db : f db = Ok x -> does (k x) lr r p db -> does (mbind k (lr_reading f)) lr r p db.
Proof. intros Hf (db' & Hk & Hc). exists db'. split; [|done]. by rewrite (lbind_done _ _ _ _ _ (lr_reading_done _ _ _ Hf)). Qed.

Lemma does_labelled_reading {A} fmt args (f : RouterDB -> result A) (k : A -> Lr ()) x lr r p db :
  f db = Ok x -> does (k x) lr r p db -> does (mbind k (labelled fmt args (lr_reading f))) lr r p db.
Proof.
  intros Hf (db' & Hk & Hc). exists db'. split; [|done]. by rewrite (lbind_done _ _ _ _ _ (labelled_done _ _ _ _ _ _ (lr_reading_done _ _ _ Hf))).
Qed.

Section Mutations.
Context (lrName : string) (lr : N) (db : RouterDB).
Context (Hlr : get_router lrName db = Ok lr) (Hok : r_ok db) (Ha : server_accepts db).

Lemma mutate_routes_does gen fmt args m : well_formed m = true ->
  does (mutate_routes gen fmt args lrName m) lr (mutated (r_next db) m (routes_at lr db)) (policies_at lr db) db.
Proof.
  intros Hw. unfold mutate_routes, LogicalRouterUpdateStaticRouteOp. destruct (is_nothing m) eqn:En.
  - rewrite nothing_mutated by done. exists db. split; [done|by apply changed_refl].
  - exists (router_op (OpRoutes lr m) db). split; [|by apply routes_mutation].
    rewrite (lbind_done _ _ db [OpRoutes lr m] db).
    + apply labelled_done. by apply Transact_lr_one.
    + apply labelled_done, lr_reading_done. unfold LogicalRouterOp. by rewrite Hlr.
Qed.

Lemma mutate_policies_does gen fmt args m : well_formed m = true ->
  does (mutate_policies gen fmt args lrName m) lr (routes_at lr db) (mutated (r_next db) m (policies_at lr db)) db.
Proof.
  intros Hw. unfold mutate_policies, LogicalRouterUpdatePolicyOp. destruct (is_nothing m) eqn:En.
  - rewrite nothing_mutated by done. exists db. split; [done|by apply changed_refl].
  - exists (router_op (OpPolicies lr m) db). split; [|by apply policies_mutation].
    rewrite (lbind_done _ _ db [OpPolicies lr m] db).
    + apply labelled_done. by apply Transact_lr_one.
    + apply labelled_done, lr_reading_done. unfold LogicalRouterOp. by rewrite Hlr.
Qed.

End Mutations.

(** ** Lists of rows *)

(** The rows a list of the client gives. *)
Definition rows_where {A} (f : A -> bool) (rows : gmap N A) : list (N * A) := filter (fun kv => f kv.2 = true) (map_to_list rows).

Lemma rows_where_elem {A} (f : A -> bool) rows u x : (u, x) ∈ rows_where f rows <-> rows !! u = Some x /\ f x = true.
Proof. unfold rows_where. rewrite list_elem_of_filter, elem_of_map_to_list. cbn. tauto. Qed.

Lemma NoDup_fst_filter {A} (P : N * A -> Prop) `{!forall x, Decision (P x)} (l : list (N * A)) : NoDup l.*1 -> NoDup (filter P l).*1.
Proof. intros Hl. eapply sublist_NoDup; [exact Hl|]. apply fmap_sublist, sublist_filter. Qed.

Lemma rows_where_unique {A} (f : A -> bool) rows : NoDup (rows_where f rows).*1.
Proof. apply NoDup_fst_filter, NoDup_fst_map_to_list. Qed.

(** Removing the rows that were selected from a list of the client. *)
Lemma remove_selected {A} (f : A -> bool) (P : A -> Prop) `{!forall x, Decision (P x)} n (rows : gmap N A) :
  let uuids := (filter (fun kv => P kv.2) (rows_where f rows)).*1 in
  well_formed (Remove (A := A) uuids) = true /\
  mutated n (Remove uuids) rows = filter (fun kv => ~ (f kv.2 = true /\ P kv.2)) rows.
Proof.
  intros uuids. split; [apply bool_decide_eq_true_2, NoDup_fst_filter, rows_where_unique|].
  cbn. apply map_filter_ext. intros u x Hx. cbn. unfold uuids. rewrite list_elem_of_fmap. split.
  - intros Hn [Hf HP]. apply Hn. exists (u, x). split; [done|]. by apply list_elem_of_filter; split; [|apply rows_where_elem].
  - intros Hn ([u' y] & Hu & [HP Hy]%list_elem_of_filter). cbn in Hu. subst u'. apply rows_where_elem in Hy as [Hy Hf].
    apply Hn. rewrite Hy in Hx. by injection Hx as ->.
Qed.

Lemma ids_match_none ids : ids_match ids ∅ = true.
Proof. unfold ids_match. rewrite map_size_empty, map_to_list_empty. cbn. by rewrite orb_true_r. Qed.

(** ** Static routes *)

Definition policy_of (r : LogicalRouterStaticRoute) : string := default LogicalRouterStaticRoutePolicyDstIP (rt_Policy r).

Lemma route_filter_group t p prefix ids r : prefix <> "" ->
  route_filter (Some t) (Some p) prefix ids r = true <->
  ids_match (rt_ExternalIDs r) ids = true /\ rt_RouteTable r = t /\ policy_of r = p /\ rt_IPPrefix r = prefix.
Proof.
  intros Hp. unfold route_filter, policy_of. rewrite !andb_true_iff, orb_true_iff, !bool_decide_eq_true. tauto.
Qed.

Section Routes.
Context (lrName : string) (lr : N) (db : RouterDB).
Context (Hlr : get_router lrName db = Ok lr) (Hok : r_ok db) (Ha : server_accepts db).

Lemma list_routes f : listLogicalRouterStaticRoutesByFilter lrName f db = Ok (rows_where f (routes_at lr db)).
Proof. unfold listLogicalRouterStaticRoutesByFilter. by rewrite Hlr. Qed.

Lemma found_router : exists row, GetLogicalRouter lrName true db = Ok (Some (lr, row)).
Proof.
  unfold get_router, GetLogicalRouter in *. destruct (filter _ _) as [|[u row] [|? ?]]; try done. cbn in Hlr. injection Hlr as ->. by exists row.
Qed.

Lemma when_router_does k r p : does (k lr) lr r p db -> does (when_router lrName k) lr r p db.
Proof. intros Hk. destruct found_router as [row Hrow]. unfold when_router. by eapply does_reading; [exact Hrow|]. Qed.

(** Removing the routes of a list that satisfy a condition. *)
Lemma remove_listed_does gen fmt args f (P : LogicalRouterStaticRoute -> Prop) `{!forall x, Decision (P x)} :
  does (mutate_routes gen fmt args lrName (Remove (filter (fun kv => P kv.2) (rows_where f (routes_at lr db))).*1)) lr
    (filter (fun kv => ~ (f kv.2 = true /\ P kv.2)) (routes_at lr db)) (policies_at lr db) db.
Proof.
  destruct (remove_selected f P (r_next db) (routes_at lr db)) as [Hw <-]. by apply mutate_routes_does.
Qed.

Lemma remove_routes_does f (P : LogicalRouterStaticRoute -> Prop) `{!forall x, Decision (P x)} :
  does (remove_routes lrName (filter (fun kv => P kv.2) (rows_where f (routes_at lr db))).*1) lr
    (filter (fun kv => ~ (f kv.2 = true /\ P kv.2)) (routes_at lr db)) (policies_at lr db) db.
Proof. unfold remove_routes. apply remove_listed_does. Qed.

Lemma DeleteLogicalRouterStaticRoute_does routeTable policy ipPrefix nexthop :
  does (DeleteLogicalRouterStaticRoute lrName routeTable policy ipPrefix nexthop) lr
    (filter (fun kv => ~ (route_filter routeTable (Some (or_dst_ip (default "" policy))) ipPrefix ∅ kv.2 = true /\ (nexthop = "" \/ rt_Nexthop kv.2 = nexthop)))
       (routes_at lr db)) (policies_at lr db) db.
Proof.
  apply when_router_does. eapply does_reading; [by apply list_routes|].
  exact (remove_routes_does _ (fun r => nexthop = "" \/ rt_Nexthop r = nexthop)).
Qed.

(** A next hop no listed route has gets a new route. *)
Lemma new_route_missing routeTable policy ipPrefix nexthop bfdID ids : lrName <> "" ->
  nexthop ∉ rt_Nexthop <$> (rows_where (route_filter (Some routeTable) (Some (or_dst_ip policy)) ipPrefix ∅) (routes_at lr db)).*2 ->
  newLogicalRouterStaticRoute lrName routeTable policy ipPrefix nexthop bfdID ids [] db =
    Ok (Some (route_row routeTable (or_dst_ip policy) ipPrefix nexthop bfdID ids [])).
Proof.
  intros Hn Hm. unfold newLogicalRouterStaticRoute, LogicalRouterStaticRouteExists, GetLogicalRouterStaticRoute.
  rewrite !bool_decide_false by done. rewrite list_routes.
  match goal with |- context [rows_where ?f _] => destruct (rows_where f (routes_at lr db)) as [|[u r] l] eqn:El end; [done|].
  exfalso. apply Hm. rewrite list_elem_of_fmap. exists r.
  match type of El with rows_where ?f _ = _ => assert (Hin : (u, r) ∈ rows_where f (routes_at lr db)) by (rewrite El; by left) end.
  apply rows_where_elem in Hin as [Hr Hf]. rewrite !andb_true_iff, !bool_decide_eq_true in Hf. destruct Hf as [[[Ht Hp] Hx] Hh].
  split; [done|]. apply list_elem_of_fmap. exists (u, r). split; [done|]. apply rows_where_elem. split; [done|].
  unfold route_filter. rewrite ids_match_none, Hp, Ht, Hx. cbn. rewrite (bool_decide_true (routeTable = routeTable)), (bool_decide_true (or_dst_ip policy = or_dst_ip policy)), (bool_decide_true (ipPrefix = ipPrefix)) by done. apply orb_true_r.
Qed.

(** The routes the call selects: same table, policy and prefix. *)
Let selected routeTable policy ipPrefix := route_filter (Some routeTable) (Some (or_dst_ip policy)) ipPrefix ∅.

(** Routes with wanted next hops and, where both have a BFD session, routes of
    other sessions stay; the missing next hops get a route each. *)
Lemma AddLogicalRouterStaticRoute_does routeTable policy ipPrefix bfdID ids nexthops : lrName <> "" ->
  let listed := rows_where (selected routeTable policy ipPrefix) (routes_at lr db) in
  exists n, (r_next db <= n)%N /\
  does (AddLogicalRouterStaticRoute lrName routeTable policy ipPrefix bfdID ids nexthops) lr
    (numbered n ((fun nexthop => route_row routeTable (or_dst_ip policy) ipPrefix nexthop bfdID ids []) <$> hops_to_add nexthops listed) ∪
     filter (fun kv => ~ (selected routeTable policy ipPrefix kv.2 = true /\ negb (slice_contains nexthops (rt_Nexthop kv.2)) && negb (other_bfd bfdID kv.2) = true))
       (routes_at lr db)) (policies_at lr db) db.
Proof.
  intros Hn listed.
  assert (Hpol : or_dst_ip (or_dst_ip policy) = or_dst_ip policy).
  { unfold or_dst_ip. destruct (bool_decide (policy = "")) eqn:E; [done|by rewrite E]. }
  destruct (remove_listed_does "generate operations for removing static routes from logical router %s: %w"
    "failed to delete static routes from logical router %s: %w" [lrName] (selected routeTable policy ipPrefix)
    (fun r => negb (slice_contains nexthops (rt_Nexthop r)) && negb (other_bfd bfdID r) = true)) as (db' & Hm & Hc).
  destruct (mutate_routes_does lrName lr db' (eq_trans (get_router_changed _ _ _ _ _ _ Hc) Hlr) (chg_ok _ _ _ _ _ Hc) (changed_accepts _ _ _ _ _ Hc Ha)
    "generate operations for adding static routes to logical router %s: %w" "add static routes to %s: %w" [lrName]
    (Insert ((fun nexthop => route_row routeTable (or_dst_ip policy) ipPrefix nexthop bfdID ids []) <$> hops_to_add nexthops listed)) eq_refl) as (db'' & Hm' & Hc').
  exists (r_next db'). split; [apply (chg_next _ _ _ _ _ Hc)|]. unfold AddLogicalRouterStaticRoute. cbv zeta.
  eapply does_reading; [by apply list_routes|]. fold listed. eapply does_reading.
  { apply (collect_ok _ (fun nexthop => Some (route_row routeTable (or_dst_ip policy) ipPrefix nexthop bfdID ids []))).
    apply Forall_forall. intros nexthop [Hx _]%list_elem_of_filter. rewrite new_route_missing; rewrite ?Hpol; done. }
  exists db''. rewrite (lbind_done _ _ _ () db') by exact Hm. split.
  - apply labelled_done. unfold CreateLogicalRouterStaticRoutes.
    rewrite (list_fmap_compose (fun nexthop => route_row routeTable (or_dst_ip policy) ipPrefix nexthop bfdID ids []) Some), omap_id_Some. exact Hm'.
  - rewrite (chg_routes _ _ _ _ _ Hc), (chg_policies _ _ _ _ _ Hc) in Hc'. by eapply changed_trans.
Qed.

End Routes.

(** Rows numbered from a list without duplicates are at one place each. *)
Lemma numbered_once {A} n (l : list A) v w x : NoDup l -> numbered n l !! v = Some x -> numbered n l !! w = Some x -> v = w.
Proof.
  revert n. induction l as [|y l IH]; intros n Hn; cbn; [by rewrite lookup_empty|]. apply NoDup_cons in Hn as [Hy Hn].
  intros [[<- <-]|[Hv Hx]]%lookup_insert_Some [[<- E]|[Hw Hx']]%lookup_insert_Some; [done| | |by eapply IH].
  - apply numbered_lookup in Hx' as [_ Hx']. done.
  - subst. apply numbered_lookup in Hx as [_ Hx]. done.
Qed.

(** Routes with a table, a policy and a prefix. *)
Definition route_in_group (routeTable policy ipPrefix : string) (r : LogicalRouterStaticRoute) : Prop :=
  rt_RouteTable r = routeTable /\ policy_of r = or_dst_ip policy /\ rt_IPPrefix r = ipPrefix.

(** One route of the group for a next hop. *)
Definition one_per_hop (routeTable policy ipPrefix : string) (rows : gmap N LogicalRouterStaticRoute) : Prop :=
  forall u v r s, rows !! u = Some r -> rows !! v = Some s -> route_in_group routeTable policy ipPrefix r -> route_in_group routeTable policy ipPrefix s ->
    rt_Nexthop r = rt_Nexthop s -> u = v.

Section OneGroup.
Context (routeTable policy ipPrefix : string) (Hp : ipPrefix <> "").

Let listed (rows : gmap N LogicalRouterStaticRoute) := rows_where (route_filter (Some routeTable) (Some (or_dst_ip policy)) ipPrefix ∅) rows.

Lemma group_selected r : route_filter (Some routeTable) (Some (or_dst_ip policy)) ipPrefix ∅ r = true <-> route_in_group routeTable policy ipPrefix r.
Proof. rewrite route_filter_group by done. rewrite ids_match_none. unfold route_in_group. tauto. Qed.

Lemma listed_hop rows nexthop : nexthop ∈ rt_Nexthop <$> (listed rows).*2 <-> exists u r, rows !! u = Some r /\ route_in_group routeTable policy ipPrefix r /\ rt_Nexthop r = nexthop.
Proof.
  unfold listed. rewrite list_elem_of_fmap. setoid_rewrite list_elem_of_fmap. split.
  - intros (r & -> & ([u r'] & -> & [Hr Hs%group_selected]%rows_where_elem)). by exists u, r'.
  - intros (u & r & Hr & Hg & <-). exists r. split; [done|]. exists (u, r). split; [done|]. apply rows_where_elem. by rewrite group_selected.
Qed.

Context (ids : gmap string string) (nexthops : list string).
Let row (nexthop : string) := route_row routeTable (or_dst_ip policy) ipPrefix nexthop None ids [].

(** The routes of the router after the call. *)
Definition group_set (n : N) (rows : gmap N LogicalRouterStaticRoute) : gmap N LogicalRouterStaticRoute :=
  numbered n (row <$> hops_to_add nexthops (listed rows)) ∪ filter (fun kv => route_in_group routeTable policy ipPrefix kv.2 -> rt_Nexthop kv.2 ∈ nexthops) rows.

Lemma row_in_group nexthop : route_in_group routeTable policy ipPrefix (row nexthop) /\ rt_Nexthop (row nexthop) = nexthop.
Proof. done. Qed.

Context (n : N) (rows : gmap N LogicalRouterStaticRoute) (Hn : forall u r, rows !! u = Some r -> (u < n)%N).

Lemma group_set_lookup u r : group_set n rows !! u = Some r <->
  numbered n (row <$> hops_to_add nexthops (listed rows)) !! u = Some r \/ (rows !! u = Some r /\ (route_in_group routeTable policy ipPrefix r -> rt_Nexthop r ∈ nexthops)).
Proof.
  unfold group_set. rewrite lookup_union_Some_raw, map_lookup_filter_Some. cbn. split; [tauto|]. intros [H|[Hr Hg]]; [by left|right]. split; [|done].
  destruct (numbered _ _ !! u) as [x|] eqn:Ex; [|done]. apply numbered_lookup in Ex as [Ex _]. apply Hn in Hr. lia.
Qed.

Lemma new_hop u r : numbered n (row <$> hops_to_add nexthops (listed rows)) !! u = Some r ->
  route_in_group routeTable policy ipPrefix r /\ rt_Nexthop r ∈ nexthops /\ (forall v s, rows !! v = Some s -> route_in_group routeTable policy ipPrefix s -> rt_Nexthop s <> rt_Nexthop r).
Proof.
  intros [_ (h & -> & [Hm Hh]%list_elem_of_filter)%list_elem_of_fmap]%numbered_lookup. split; [apply row_in_group|]. split; [done|].
  intros v s Hs Hg E. apply Hm, listed_hop. by exists v, s.
Qed.

Lemma group_set_hops h : h ∈ nexthops <-> exists u r, group_set n rows !! u = Some r /\ route_in_group routeTable policy ipPrefix r /\ rt_Nexthop r = h.
Proof.
  setoid_rewrite group_set_lookup. split.
  - intros Hh. destruct (decide (h ∈ rt_Nexthop <$> (listed rows).*2)) as [(u & r & Hr & Hg & E)%listed_hop|Hm].
    + exists u, r. split; [right; split; [done|by rewrite E]|done].
    + destruct (numbered_elem n (row <$> hops_to_add nexthops (listed rows)) (row h)) as [u Hu].
      { apply list_elem_of_fmap. exists h. split; [done|]. by apply list_elem_of_filter. }
      exists u, (row h). split; [by left|done].
  - intros (u & r & [(_ & Hh & _)%new_hop|[_ Hh]] & Hg & <-); [done|by apply Hh].
Qed.

Lemma group_set_once : NoDup nexthops -> one_per_hop routeTable policy ipPrefix rows -> one_per_hop routeTable policy ipPrefix (group_set n rows).
Proof.
  intros Hnd Hone u v r s Hr Hs Hgr Hgs E. apply group_set_lookup in Hr as [Hr|[Hr _]], Hs as [Hs|[Hs _]].
  - assert (r = s) as ->.
    { apply numbered_lookup in Hr as [_ (h & -> & _)%list_elem_of_fmap], Hs as [_ (h' & -> & _)%list_elem_of_fmap]. cbn in E. by subst. }
    eapply numbered_once; [|exact Hr|exact Hs]. apply NoDup_fmap_2_strong; [|by apply NoDup_filter]. intros h h' _ _ Eh. by injection Eh.
  - apply new_hop in Hr as (_ & _ & Hno). destruct (Hno v s Hs Hgs). done.
  - apply new_hop in Hs as (_ & _ & Hno). destruct (Hno u r Hr Hgr). done.
  - by eapply Hone.
Qed.

End OneGroup.

Lemma AddLogicalRouterStaticRoute_sets lrName lr routeTable policy ipPrefix ids nexthops db : get_router lrName db = Ok lr -> r_ok db -> server_accepts db ->
  lrName <> "" -> ipPrefix <> "" ->
  exists n, (r_next db <= n)%N /\
    does (AddLogicalRouterStaticRoute lrName routeTable policy ipPrefix None ids nexthops) lr
      (group_set routeTable policy ipPrefix ids nexthops n (routes_at lr db)) (policies_at lr db) db.
Proof.
  intros Hlr Hok Ha Hn Hp. destruct (AddLogicalRouterStaticRoute_does lrName lr db Hlr Hok Ha routeTable policy ipPrefix None ids nexthops Hn) as (n & Hnn & D).
  exists n. split; [done|]. unfold group_set.
  match type of D with does _ _ (_ ∪ ?m) _ _ => replace (filter (fun kv => route_in_group routeTable policy ipPrefix kv.2 -> rt_Nexthop kv.2 ∈ nexthops) (routes_at lr db)) with m; [exact D|] end.
  apply map_filter_ext. intros u r _. cbn beta. cbn [snd]. rewrite (group_selected routeTable policy ipPrefix Hp r).
  assert (Eb : other_bfd None r = false) by (unfold other_bfd; by destruct (rt_BFD r)). rewrite Eb, andb_true_r. unfold slice_contains.
  destruct (decide (rt_Nexthop r ∈ nexthops)); [rewrite bool_decide_true by done|rewrite bool_decide_false by done]; cbn; intuition congruence.
Qed.

(** Where the next hops of the group are the wanted ones the call does nothing. *)
Lemma AddLogicalRouterStaticRoute_again lrName lr routeTable policy ipPrefix bfdID ids nexthops db : get_router lrName db = Ok lr -> ipPrefix <> "" ->
  (forall h, h ∈ nexthops <-> exists u r, routes_at lr db !! u = Some r /\ route_in_group routeTable policy ipPrefix r /\ rt_Nexthop r = h) ->
  AddLogicalRouterStaticRoute lrName routeTable policy ipPrefix bfdID ids nexthops db = Done (Ok (), db).
Proof.
  intros Hlr Hp Hh. unfold AddLogicalRouterStaticRoute, ListLogicalRouterStaticRoutes. cbv zeta.
  rewrite (lbind_done _ _ _ _ _ (lr_reading_done _ _ _ (list_routes lrName lr db Hlr _))).
  set (l := rows_where _ _). assert (Hl : forall h, h ∈ nexthops <-> h ∈ rt_Nexthop <$> l.*2) by (intros h; unfold l; by rewrite (listed_hop routeTable policy ipPrefix Hp)).
  assert (E1 : hops_to_add nexthops l = []).
  { unfold hops_to_add. apply filter_none, Forall_forall. intros h Hin Hno. apply Hno. by apply Hl. }
  assert (E2 : routes_to_delete bfdID nexthops l = []).
  { unfold routes_to_delete. rewrite filter_none; [done|]. apply Forall_forall. intros kv Hin Hg. rewrite andb_true_iff, negb_true_iff in Hg. destruct Hg as [Hg _].
    unfold slice_contains in Hg. apply bool_decide_eq_false in Hg. apply Hg, Hl. apply list_elem_of_fmap. exists kv.2. split; [done|]. apply list_elem_of_fmap. by exists kv. }
  rewrite E1, E2. done.
Qed.

(** Deleting in a batch: the routes whose table, policy and prefix are given, by
    the next hop given last for them, or all where it is empty. *)
Lemma BatchDeleteLogicalRouterStaticRoute_does lrName lr db staticRoutes : get_router lrName db = Ok lr -> r_ok db -> server_accepts db ->
  does (BatchDeleteLogicalRouterStaticRoute lrName staticRoutes) lr
    (filter (fun kv => match hops_by_key staticRoutes !! route_key kv.2 with
                       | Some nexthop => bool_decide (nexthop = "") || bool_decide (rt_Nexthop kv.2 = nexthop)
                       | None => false
                       end = false) (routes_at lr db)) (policies_at lr db) db.
Proof.
  intros Hlr Hok Ha. apply (when_router_does lrName lr db Hlr). unfold batchListLogicalRouterStaticRoutesForDelete. set (M := hops_by_key staticRoutes).
  eapply does_reading; [reflexivity|]. unfold remove_routes.
  set (gone := fun r => match M !! route_key r with Some nexthop => bool_decide (nexthop = "") || bool_decide (rt_Nexthop r = nexthop) | None => false end).
  match goal with |- context [Remove ?l] => set (uuids := l) end.
  assert (Hin : forall u, u ∈ uuids <-> exists r, routes_at lr db !! u = Some r /\ gone r = true).
  { intros u. unfold uuids. rewrite list_elem_of_fmap. setoid_rewrite list_elem_of_filter. setoid_rewrite list_elem_of_fmap. setoid_rewrite list_elem_of_filter. split.
    - intros (kv & -> & Hg & ([u' r] & -> & [Hr _] & Hm)). cbn in *. apply elem_of_map_to_list in Hm. exists r. split; [by apply of_router_lookup|exact Hg].
    - intros (r & [Hr Hu]%of_router_lookup & Hg). eexists. split; [|split; [|exists (u, r); split; [reflexivity|]]]; [done|exact Hg|]. split; [|by apply elem_of_map_to_list].
      split; [done|]. cbn. unfold gone in Hg. destruct (M !! route_key r); done. }
  assert (Hw : well_formed (Remove (A := LogicalRouterStaticRoute) uuids) = true).
  { apply bool_decide_eq_true_2. unfold uuids. apply NoDup_fst_filter. rewrite <-list_fmap_compose. apply (NoDup_fst_filter _ (map_to_list _)), NoDup_fst_map_to_list. }
  replace (filter (fun kv : N * LogicalRouterStaticRoute => gone kv.2 = false) (routes_at lr db)) with (mutated (r_next db) (Remove uuids) (routes_at lr db)); [by apply mutate_routes_does|].
  cbn. apply map_filter_ext. intros u r Hr. cbn. rewrite Hin. split.
  - intros Hn. apply not_true_iff_false. intros Hg. apply Hn. by exists r.
  - intros Hg (r' & Hr' & Hg'). congruence.
Qed.

(** ** Policies *)

Definition effect_of (action : string) (nextHops : list string) (p : LogicalRouterPolicy) : Prop := same_effect action nextHops p = true.

Lemma match_policies_after action nextHops f l : match_policies action nextHops (Some f) l = (l.*1, Some f).
Proof. induction l as [|p l IH]; cbn; [done|]. rewrite orb_true_r, IH. done. Qed.

(** Either no policy does what is wanted, and all are duplicates, or the first
    that does is kept. *)
Lemma match_policies_cases action nextHops l :
  (match_policies action nextHops None l = (l.*1, None) /\ Forall (fun p => same_effect action nextHops p.2 = false) l) \/
  (exists l1 p l2, l = l1 ++ p :: l2 /\ same_effect action nextHops p.2 = true /\ match_policies action nextHops None l = (l1.*1 ++ l2.*1, Some p)).
Proof.
  induction l as [|p l IH]; [by left|]. cbn. destruct (same_effect action nextHops p.2) eqn:Ee; cbn.
  - right. exists [], p, l. by rewrite match_policies_after.
  - destruct IH as [[-> Hl]|(l1 & q & l2 & -> & Hq & ->)].
    + left. split; [done|by constructor].
    + right. by exists (p :: l1), q, l2.
Qed.

(** The one that is kept, and the duplicates. *)
Lemma match_policies_found action nextHops l dups u p : NoDup l.*1 -> match_policies action nextHops None l = (dups, Some (u, p)) ->
  (u, p) ∈ l /\ same_effect action nextHops p = true /\ forall v, v ∈ dups <-> v ∈ l.*1 /\ v <> u.
Proof.
  intros Hnd Hm. destruct (match_policies_cases action nextHops l) as [[E _]|(l1 & q & l2 & -> & Hq & E)]; [congruence|].
  rewrite E in Hm. injection Hm as <- ->. rewrite fmap_app, fmap_cons in *. cbn in *.
  apply NoDup_app in Hnd as (Hn1 & Hn12 & [Hu2 Hn2]%NoDup_cons). split_and!; [set_solver|done|].
  intros v. rewrite !elem_of_app, elem_of_cons. split; [|tauto]. intros [H1|H2]; (split; [tauto|]); intros ->; [|done]. specialize (Hn12 u H1). set_solver.
Qed.

Lemma rows_where_fst {A} (f : A -> bool) rows v x : rows !! v = Some x -> v ∈ (rows_where f rows).*1 <-> f x = true.
Proof.
  intros Hx. rewrite list_elem_of_fmap. split.
  - intros ([v' y] & -> & [Hy Hf]%rows_where_elem). cbn in *. congruence.
  - intros Hf. exists (v, x). split; [done|]. by apply rows_where_elem.
Qed.

Section Policies.
Context (lrName : string) (lr : N).

Lemma list_policies f db : get_router lrName db = Ok lr -> listLogicalRouterPoliciesByFilter lrName f db = Ok (rows_where f (policies_at lr db)).
Proof. intros Hlr. unfold listLogicalRouterPoliciesByFilter. by rewrite Hlr. Qed.

Lemma each_delete_does (l : list N) db : get_router lrName db = Ok lr -> r_ok db -> server_accepts db ->
  does (each (DeleteLogicalRouterPolicyByUUID lrName) l) lr (routes_at lr db) (filter (fun kv => kv.1 ∉ l) (policies_at lr db)) db.
Proof.
  revert db. induction l as [|u l IH]; intros db Hlr Hok Ha; cbn [each].
  - rewrite map_filter_id by set_solver. by apply does_nothing.
  - eapply does_bind; [by apply (mutate_policies_does lrName lr db Hlr Hok Ha _ _ _ (Remove [u]))|]. intros db' Hc.
    assert (E : filter (fun kv => kv.1 ∉ u :: l) (policies_at lr db) = filter (fun kv => kv.1 ∉ l) (policies_at lr db')).
    { rewrite (chg_policies _ _ _ _ _ Hc). cbn. rewrite map_filter_filter. apply map_filter_ext. set_solver. }
    rewrite E, <-(chg_routes _ _ _ _ _ Hc). apply IH; [by rewrite (get_router_changed _ _ _ _ _ _ Hc)|apply Hc|by eapply changed_accepts].
Qed.

(** The policies with a key are deleted. *)
Lemma DeleteLogicalRouterPolicy_does priority mtch db : get_router lrName db = Ok lr -> r_ok db -> server_accepts db -> lrName <> "" ->
  does (DeleteLogicalRouterPolicy lrName priority mtch) lr (routes_at lr db)
    (filter (fun kv => ~ policy_has_key priority mtch kv.2 = true) (policies_at lr db)) db.
Proof.
  intros Hlr Hok Ha Hn.
  assert (Hg : GetLogicalRouterPolicy lrName priority mtch true db = Ok (rows_where (policy_has_key priority mtch) (policies_at lr db))).
  { unfold GetLogicalRouterPolicy. rewrite bool_decide_false by done. rewrite list_policies by done. by destruct (rows_where _ _). }
  eapply does_reading; [exact Hg|].
  assert (E : filter (fun kv => ~ policy_has_key priority mtch kv.2 = true) (policies_at lr db) =
              filter (fun kv => kv.1 ∉ (rows_where (policy_has_key priority mtch) (policies_at lr db)).*1) (policies_at lr db)).
  { destruct (remove_selected (policy_has_key priority mtch) (fun _ => True) 0%N (policies_at lr db)) as [_ E]. cbn in E.
    rewrite filter_all in E by (by apply Forall_true). rewrite E. apply map_filter_ext. tauto. }
  rewrite E. by apply each_delete_does.
Qed.

(** The rows of a router have exactly one policy with the priority and match of
    [p]; it does what [p] does, has its external ids, and is either new or a row
    that was there, changed in its external ids alone; it is only new where none
    that was there does what [p] does. *)
Definition installed (p : LogicalRouterPolicy) (rows rows' : gmap N LogicalRouterPolicy) : Prop :=
  exists u q, (forall v x, rows' !! v = Some x /\ policy_has_key (lp_Priority p) (lp_Match p) x = true <-> v = u /\ x = q) /\
    effect_of (lp_Action p) (lp_Nexthops p) q /\ lp_ExternalIDs q = lp_ExternalIDs p /\
    (q = newLogicalRouterPolicy (lp_Priority p) (lp_Match p) (lp_Action p) (lp_Nexthops p) (lp_BFDSessions p) (lp_ExternalIDs p) /\
     (forall v x, rows !! v = Some x -> policy_has_key (lp_Priority p) (lp_Match p) x = true -> ~ effect_of (lp_Action p) (lp_Nexthops p) x) \/
     exists q0, rows !! u = Some q0 /\ q = set_lp_external (lp_ExternalIDs p) q0).

(** Rows with no key of [ps] are as they were. *)
Definition others_kept (ps : list LogicalRouterPolicy) (rows rows' : gmap N LogicalRouterPolicy) : Prop :=
  forall v x, Forall (fun p => policy_has_key (lp_Priority p) (lp_Match p) x = false) ps -> rows' !! v = Some x <-> rows !! v = Some x.

Definition row_for (p : LogicalRouterPolicy) : LogicalRouterPolicy :=
  newLogicalRouterPolicy (lp_Priority p) (lp_Match p) (lp_Action p) (lp_Nexthops p) (lp_BFDSessions p) (lp_ExternalIDs p).

Lemma row_for_effect p : effect_of (lp_Action p) (lp_Nexthops p) (row_for p).
Proof. unfold effect_of, same_effect. cbn. rewrite andb_true_iff, orb_true_iff, !bool_decide_eq_true. auto. Qed.

Lemma has_key_row_for p : policy_has_key (lp_Priority p) (lp_Match p) (row_for p) = true.
Proof. unfold policy_has_key. cbn. by rewrite Z.eqb_refl, bool_decide_true. Qed.

Lemma has_key_external priority mtch ids q : policy_has_key priority mtch (set_lp_external ids q) = policy_has_key priority mtch q.
Proof. done. Qed.

(** The rows a list by key gives, after all of them or all but one were removed. *)
Lemma none_left (f : LogicalRouterPolicy -> bool) (rows : gmap N LogicalRouterPolicy) v x :
  filter (fun kv => kv.1 ∉ (rows_where f rows).*1) rows !! v = Some x <-> rows !! v = Some x /\ f x = false.
Proof.
  rewrite map_lookup_filter_Some. cbn. split; intros [Hx Hn]; (split; [done|]); rewrite (rows_where_fst f rows v x Hx) in *; destruct (f x); done.
Qed.

(** One policy is created, or the one that was found is given its external ids. *)
Lemma create_installs p rows rows' n : (forall v x, rows' !! v = Some x <-> rows !! v = Some x /\ policy_has_key (lp_Priority p) (lp_Match p) x = false) ->
  (forall v x, rows !! v = Some x -> policy_has_key (lp_Priority p) (lp_Match p) x = true -> ~ effect_of (lp_Action p) (lp_Nexthops p) x) ->
  rows' !! n = None -> installed p rows (<[n := row_for p]> rows') /\ others_kept [p] rows (<[n := row_for p]> rows').
Proof.
  intros Hr He Hn. split.
  - exists n, (row_for p). split_and!; [|apply row_for_effect|done|by left]. intros v x. rewrite lookup_insert_Some. split.
    + intros [[[-> ->]|[_ Hx]] Hk]; [done|]. apply Hr in Hx as [_ Hx]. congruence.
    + intros [-> ->]. split; [by left|apply has_key_row_for].
  - intros v x Hx. rewrite Forall_singleton in Hx. rewrite lookup_insert_Some, Hr. split; [|intros Hv; right].
    + intros [[? ?]|[_ [Hv _]]]; [|done]. subst x. by rewrite has_key_row_for in Hx.
    + split; [|done]. intros ->. destruct (Hr v x) as [_ Hv']. rewrite Hv' in Hn by done. done.
Qed.

Lemma found_installs p rows rows' u q : rows !! u = Some q -> policy_has_key (lp_Priority p) (lp_Match p) q = true ->
  effect_of (lp_Action p) (lp_Nexthops p) q ->
  (forall v x, rows' !! v = Some x <-> rows !! v = Some x /\ (policy_has_key (lp_Priority p) (lp_Match p) x = false \/ v = u)) ->
  installed p rows (alter (set_lp_external (lp_ExternalIDs p)) u rows') /\ others_kept [p] rows (alter (set_lp_external (lp_ExternalIDs p)) u rows').
Proof.
  intros Hu Hk He Hr. assert (Hq : rows' !! u = Some q) by (apply Hr; auto). split.
  - exists u, (set_lp_external (lp_ExternalIDs p) q). split_and!; [|exact He|done|by right; exists q]. intros v x. destruct (decide (v = u)) as [->|Hne].
    + rewrite lookup_alter_eq, Hq. cbn. split; [intros [[= <-] _]; done|]. intros [_ ->]. split; [done|by rewrite has_key_external].
    + rewrite lookup_alter_ne by done. split; [|by intros [-> _]]. intros [[_ [Hx|Hx]]%Hr Hkx]; [congruence|done].
  - intros v x Hx. rewrite Forall_singleton in Hx. destruct (decide (v = u)) as [->|Hne].
    + rewrite lookup_alter_eq, Hq, Hu. cbn. split; intros [= <-]; [by rewrite has_key_external in Hx; congruence|congruence].
    + rewrite lookup_alter_ne, Hr by done. split; [tauto|auto].
Qed.

Lemma AddLogicalRouterPolicy_does p db : get_router lrName db = Ok lr -> r_ok db -> server_accepts db ->
  exists rows', does (AddLogicalRouterPolicy lrName (lp_Priority p) (lp_Match p) (lp_Action p) (lp_Nexthops p) (lp_BFDSessions p) (lp_ExternalIDs p)) lr
                  (routes_at lr db) rows' db /\
    installed p (policies_at lr db) rows' /\ others_kept [p] (policies_at lr db) rows'.
Proof.
  intros Hlr Hok Ha. set (rows := policies_at lr db). set (f := policy_has_key (lp_Priority p) (lp_Match p)).
  assert (Hdel : forall dups, exists db', each (DeleteLogicalRouterPolicyByUUID lrName) dups db = Done (Ok (), db') /\
    changed lr (routes_at lr db) (filter (fun kv => kv.1 ∉ dups) rows) db db') by (intros; by apply each_delete_does).
  destruct (match_policies (lp_Action p) (lp_Nexthops p) None (rows_where f rows)) as [dups found] eqn:E.
  destruct (Hdel dups) as (db' & Hd & Hc). pose proof (chg_policies _ _ _ _ _ Hc) as Hp'. pose proof (chg_ok _ _ _ _ _ Hc) as Hok'.
  pose proof (changed_accepts _ _ _ _ _ Hc Ha) as Ha'. pose proof (eq_trans (get_router_changed _ _ _ _ _ lrName Hc) Hlr) as Hlr'.
  assert (Hstart : forall rows', does (match found with
      | None => labelled "add policy to logical router %s: %w" [lrName] (CreateLogicalRouterPolicies lrName [Some (row_for p)])
      | Some (u, q) => if bool_decide (lp_ExternalIDs q = lp_ExternalIDs p) then mret ()
          else labelled "failed to update logical router policy: %w" [] (Transact_lr [OpPolicyUpdate u (set_lp_external (lp_ExternalIDs p))])
      end) lr (routes_at lr db) rows' db' ->
    does (AddLogicalRouterPolicy lrName (lp_Priority p) (lp_Match p) (lp_Action p) (lp_Nexthops p) (lp_BFDSessions p) (lp_ExternalIDs p)) lr
      (routes_at lr db) rows' db).
  { intros rows' Hk. eapply does_labelled_reading; [by apply list_policies|]. fold f rows. rewrite E.
    destruct Hk as (db'' & Hk & Hc'). exists db''. rewrite (lbind_done _ _ _ _ _ Hd). split; [exact Hk|by eapply changed_trans]. }
  destruct found as [[u q]|].
  - destruct (match_policies_found _ _ _ _ _ _ (rows_where_unique f rows) E) as ([Hu Hf]%rows_where_elem & He & Hdups).
    assert (Hr : forall v x, policies_at lr db' !! v = Some x <-> rows !! v = Some x /\ (f x = false \/ v = u)).
    { intros v x. rewrite Hp', map_lookup_filter_Some. cbn. split; intros [Hx Hv]; (split; [done|]); rewrite Hdups, (rows_where_fst f rows v x Hx) in *.
      - destruct (f x), (decide (v = u)); tauto.
      - intros [H1 H2]. destruct Hv; congruence. }
    destruct (found_installs p rows (policies_at lr db') u q Hu Hf He Hr) as [Hi Ho].
    eexists. split; [|exact (conj Hi Ho)]. apply Hstart. rewrite <-(chg_routes _ _ _ _ _ Hc). case_bool_decide as Eq.
    + rewrite alter_id; [by apply does_nothing|]. intros q' Hq'. apply Hr in Hq' as [Hq' _]. rewrite Hu in Hq'. injection Hq' as <-.
      rewrite <-Eq. by destruct q.
    + apply does_labelled. eexists. split; [by apply Transact_lr_one|]. apply policy_update; [done|]. exists q. apply Hr; auto.
  - destruct (match_policies_cases (lp_Action p) (lp_Nexthops p) (rows_where f rows)) as [[E' He]|(l1 & q & l2 & _ & _ & E')]; [|congruence].
    rewrite E' in E. injection E as <-. destruct (create_installs p rows (policies_at lr db') (r_next db')) as [Hi Ho].
    { intros v x. rewrite Hp'. apply none_left. }
    { intros v x Hx Hf Heff. assert (Hin : (v, x) ∈ rows_where f rows) by (by apply rows_where_elem).
      eapply Forall_forall in He; [|exact Hin]. cbn in He. unfold effect_of in Heff. congruence. }
    { apply eq_None_not_Some. intros [x [Hx _]%of_router_lookup]. pose proof (ch_rows_old _ _ (rok_policies _ Hok') _ _ Hx). lia. }
    eexists. split; [|exact (conj Hi Ho)]. apply Hstart, does_labelled. rewrite <-(chg_routes _ _ _ _ _ Hc), insert_union_singleton_l.
    apply (mutate_policies_does lrName lr db' Hlr' Hok' Ha' _ _ _ (Insert [row_for p])). done.
Qed.

End Policies.

(** ** Policies in a batch *)

(** What one given policy adds to the batch. *)
Definition dups_of (e : LogicalRouterPolicy * list (N * LogicalRouterPolicy)) : list N := (matchLogicalRouterPolicies e.1 e.2).1.
Definition found_of (e : LogicalRouterPolicy * list (N * LogicalRouterPolicy)) : option (N * LogicalRouterPolicy) := (matchLogicalRouterPolicies e.1 e.2).2.
Definition new_of (e : LogicalRouterPolicy * list (N * LogicalRouterPolicy)) : list LogicalRouterPolicy :=
  match found_of e with None => [e.1] | Some _ => [] end.
Definition updates_of (e : LogicalRouterPolicy * list (N * LogicalRouterPolicy)) : list (LogicalRouterPolicy * N) :=
  match found_of e with Some (u, q) => if bool_decide (lp_ExternalIDs q = lp_ExternalIDs e.1) then [] else [(e.1, u)] | None => [] end.

Lemma batch_fold es b : fold_left batch_step es b =
  mkBatch (b_delete b ++ (es ≫= dups_of)) (b_create b ++ (es ≫= new_of)) (b_update b ++ (es ≫= updates_of)).
Proof.
  revert b. induction es as [|[p l] es IH]; intros b; cbn [fold_left]; [by destruct b; cbn; rewrite !app_nil_r|].
  rewrite IH. cbn [mbind list_bind]. unfold batch_step, dups_of, new_of, updates_of, found_of. cbn [fst snd].
  destruct (matchLogicalRouterPolicies p l) as [dups [[u q]|]]; cbn; [|by rewrite <-!app_assoc]. case_bool_decide; by rewrite <-!app_assoc.
Qed.

(** A transaction of several updates. *)
Definition update_all (us : list (LogicalRouterPolicy * N)) (rows : gmap N LogicalRouterPolicy) : gmap N LogicalRouterPolicy :=
  fold_left (fun m pu => alter (set_lp_external (lp_ExternalIDs pu.1)) pu.2 m) us rows.

Lemma update_ops_changed lr us db : r_ok db -> Forall (fun pu => is_Some (policies_at lr db !! pu.2)) us ->
  changed lr (routes_at lr db) (update_all us (policies_at lr db)) db
    (router_ops ((fun pu => OpPolicyUpdate pu.2 (set_lp_external (lp_ExternalIDs pu.1))) <$> us) db).
Proof.
  revert db. induction us as [|[p u] us IH]; intros db Hok Hus; [by apply changed_refl|]. apply Forall_cons in Hus as [Hu Hus]. cbn in Hu.
  pose proof (policy_update lr u (set_lp_external (lp_ExternalIDs p)) db Hok Hu) as C. set (db1 := router_op (OpPolicyUpdate u (set_lp_external (lp_ExternalIDs p))) db) in C.
  eapply changed_trans; [exact C|]. assert (E : update_all ((p, u) :: us) (policies_at lr db) = update_all us (policies_at lr db1)) by (by rewrite (chg_policies _ _ _ _ _ C)).
  rewrite E, <-(chg_routes _ _ _ _ _ C). apply IH; [apply C|]. rewrite (chg_policies _ _ _ _ _ C). eapply Forall_impl; [exact Hus|].
  intros [p' u'] Hu'. cbn in *. by apply lookup_alter_is_Some.
Qed.

Lemma batchUpdate_does lr us db : r_ok db -> server_accepts db -> Forall (fun pu => is_Some (policies_at lr db !! pu.2)) us ->
  does (batchUpdateLogicalRouterPolicies us) lr (routes_at lr db) (update_all us (policies_at lr db)) db.
Proof.
  intros Hok Ha Hus. apply does_labelled. eexists. split; [|by apply update_ops_changed]. unfold Transact_lr, server_accepts in *. rewrite Ha. cbn [tail head].
  assert (Hw : forallb op_well_formed ((fun pu => OpPolicyUpdate pu.2 (set_lp_external (lp_ExternalIDs pu.1))) <$> us) = true) by (clear Hus; induction us as [|[p u] us IH]; done).
  assert (Es : set_r_replies [] db = db) by (destruct db; cbn in Ha; by rewrite Ha). rewrite Hw, Es. by destruct us.
Qed.

Lemma update_all_lookup us rows v x : NoDup us.*2 ->
  update_all us rows !! v = Some x <->
  (exists p x0, (p, v) ∈ us /\ rows !! v = Some x0 /\ x = set_lp_external (lp_ExternalIDs p) x0) \/ (v ∉ us.*2 /\ rows !! v = Some x).
Proof.
  revert rows. induction us as [|[p u] us IH]; intros rows Hn; cbn.
  - split; [intros Hx; right; split; [set_solver|done]|]. intros [(p & x0 & Hp & _)|[_ Hx]]; [by apply elem_of_nil in Hp|done].
  - apply NoDup_cons in Hn as [Hu Hn]. rewrite (IH (alter (set_lp_external (lp_ExternalIDs p)) u rows) Hn). destruct (decide (v = u)) as [->|Hne].
    + rewrite lookup_alter_eq. split.
      * intros [(p' & x0 & Hp' & _)|[_ (x0 & Hx & ->)%fmap_Some]]; [destruct Hu; apply list_elem_of_fmap; by exists (p', u)|]. left. exists p, x0. split; [by left|done].
      * intros [(p' & x0 & [[= ->]|Hp']%elem_of_cons & Hx & ->)|[Hn' _]]; [right; rewrite Hx; done| |set_solver].
        destruct Hu. apply list_elem_of_fmap. by exists (p', u).
    + rewrite !lookup_alter_ne by done. split.
      * intros [(p' & x0 & Hp' & Hx)|[Hn' Hx]]; [left; exists p', x0; split; [by right|done]|right; set_solver].
      * intros [(p' & x0 & [[= _ ?]|Hp']%elem_of_cons & Hx)|[Hn' Hx]]; [done|left; by exists p', x0|right; set_solver].
Qed.

(** The last character that is not of a class splits a text. *)
Lemma last_cut (P : ascii -> bool) a a' c c' b b' : P c = false -> P c' = false -> all_chars P b = true -> all_chars P b' = true ->
  a +:+ String c b = a' +:+ String c' b' -> a = a' /\ c = c' /\ b = b'.
Proof.
  intros Hc Hc' Hb Hb'. revert a'. induction a as [|x a IH]; intros [|x' a'] E.
  - by injection E as -> ->.
  - exfalso. injection E as -> ->. rewrite all_chars_app in Hb. cbn in Hb. rewrite Hc', andb_false_r in Hb. done.
  - exfalso. injection E as -> E. rewrite <-E in Hb'. rewrite all_chars_app in Hb'. cbn in Hb'. rewrite Hc, andb_false_r in Hb'. done.
  - injection E as -> E. destruct (IH a' E) as (-> & -> & ->). done.
Qed.

(** Policies of different priorities or matches have different keys. *)
Lemma createPolicyKey_inj p p' m m' : 0 <= p < 2 ^ 63 -> 0 <= p' < 2 ^ 63 -> createPolicyKey p m = createPolicyKey p' m' -> p = p' /\ m = m'.
Proof.
  intros Hp Hp' E. assert (Hd : forall p, 0 <= p -> all_chars is_digit (Itoa p) = true) by (intros x Hx; by apply Itoa_chars; [apply is_digit_chr|]).
  apply (last_cut is_digit) in E as (-> & _ & E); [|done|done|apply Hd; lia|apply Hd; lia].
  apply (f_equal Atoi) in E. rewrite !Atoi_Itoa in E by done. injection E as ->. done.
Qed.

Definition key_pair (p : LogicalRouterPolicy) : Z * string := (lp_Priority p, lp_Match p).

Lemma has_key_pair p x : policy_has_key (lp_Priority p) (lp_Match p) x = true <-> key_pair x = key_pair p.
Proof.
  unfold policy_has_key, key_pair. rewrite andb_true_iff, Z.eqb_eq, bool_decide_eq_true. split; [by intros [-> ->]|by intros [= -> ->]].
Qed.

Section Batch.
Context (rows : gmap N LogicalRouterPolicy) (ps : list LogicalRouterPolicy) (es : list (LogicalRouterPolicy * list (N * LogicalRouterPolicy))).
Context (Hps : NoDup (key_pair <$> ps)).

(** For every given policy the rows with its priority and match. *)
Record entries : Prop := {
  en_all : forall p, p ∈ ps -> exists l, (p, l) ∈ es;
  en_each : forall p l, (p, l) ∈ es -> p ∈ ps /\ NoDup l.*1 /\ forall v x, (v, x) ∈ l <-> rows !! v = Some x /\ key_pair x = key_pair p;
  en_once : NoDup es.*1
}.
Context (He : entries).

Lemma entry_same p p' l l' : (p, l) ∈ es -> (p', l') ∈ es -> key_pair p = key_pair p' -> p = p' /\ l = l'.
Proof.
  intros H1 H2 E. destruct (en_each He p l H1) as [Hp _], (en_each He p' l' H2) as [Hp' _].
  assert (p = p') as -> by (by eapply (NoDup_fmap_same key_pair)). split; [done|].
  assert (El : (p', l) = (p', l')) by (by eapply (NoDup_fmap_same fst); [apply (en_once He)|..]). by injection El.
Qed.

(** The policy that is kept for an entry. *)
Lemma entry_found p l u q : (p, l) ∈ es -> found_of (p, l) = Some (u, q) ->
  rows !! u = Some q /\ key_pair q = key_pair p /\ effect_of (lp_Action p) (lp_Nexthops p) q /\
  forall v x, rows !! v = Some x -> key_pair x = key_pair p -> v ∈ dups_of (p, l) <-> v <> u.
Proof.
  intros Hin Hf. destruct (en_each He p l Hin) as (_ & Hnd & Hl). unfold found_of, dups_of in *. cbn [fst snd] in *. unfold matchLogicalRouterPolicies in *.
  destruct (match_policies _ _ _ l) as [dups f] eqn:Em. cbn in *. subst f.
  destruct (match_policies_found _ _ _ _ _ _ Hnd Em) as ([Hu Hk]%Hl & Heff & Hd). split_and!; [done..|]. intros v x Hx Hkx. rewrite Hd.
  split; [tauto|]. intros Hne. split; [|done]. apply list_elem_of_fmap. exists (v, x). split; [done|]. by apply Hl.
Qed.

Lemma entry_missing p l : (p, l) ∈ es -> found_of (p, l) = None ->
  (forall v x, rows !! v = Some x -> key_pair x = key_pair p -> v ∈ dups_of (p, l) /\ ~ effect_of (lp_Action p) (lp_Nexthops p) x).
Proof.
  intros Hin Hf v x Hx Hk. destruct (en_each He p l Hin) as (_ & _ & Hl). unfold found_of, dups_of in *. cbn [fst snd] in *. unfold matchLogicalRouterPolicies in *.
  destruct (match_policies_cases (lp_Action p) (lp_Nexthops p) l) as [[E Hno]|(l1 & q & l2 & _ & _ & E)]; rewrite E in *; [|done]. cbn.
  assert (Hv : (v, x) ∈ l) by (by apply Hl). split; [apply list_elem_of_fmap; by exists (v, x)|]. eapply Forall_forall in Hno; [|exact Hv]. cbn in Hno.
  unfold effect_of. congruence.
Qed.

(** Duplicates are rows with the key of their entry. *)
Lemma dups_key p l v x : (p, l) ∈ es -> v ∈ dups_of (p, l) -> rows !! v = Some x -> key_pair x = key_pair p.
Proof.
  intros Hin Hv Hx. destruct (en_each He p l Hin) as (_ & Hnd & Hl).
  assert (Hvl : v ∈ l.*1).
  { unfold dups_of, matchLogicalRouterPolicies in Hv. cbn [fst snd] in Hv.
    destruct (match_policies_cases (lp_Action p) (lp_Nexthops p) l) as [[E _]|(l1 & q & l2 & -> & _ & E)]; rewrite E in Hv; cbn in Hv; [done|].
    rewrite fmap_app, fmap_cons. set_solver. }
  apply list_elem_of_fmap in Hvl as ([v' y] & -> & [Hy Hk]%Hl). cbn in *. congruence.
Qed.

Definition deleted : list N := es ≫= dups_of.
Definition missing : list LogicalRouterPolicy := es ≫= new_of.
Definition updated : list (LogicalRouterPolicy * N) := es ≫= updates_of.

(** The rows after the three transactions. *)
Definition batch_rows (n : N) : gmap N LogicalRouterPolicy :=
  update_all updated (numbered n (row_for <$> missing) ∪ filter (fun kv => kv.1 ∉ deleted) rows).

Lemma missing_elem p : p ∈ missing <-> exists l, (p, l) ∈ es /\ found_of (p, l) = None.
Proof.
  unfold missing. rewrite list_elem_of_bind. unfold new_of. split.
  - intros ([p' l] & Hp & Hin). cbn in Hp. destruct (found_of (p', l)) eqn:Ef; [by apply elem_of_nil in Hp|]. apply list_elem_of_singleton in Hp as ->. by exists l.
  - intros (l & Hin & Ef). exists (p, l). rewrite Ef. split; [by left|done].
Qed.

Lemma updated_elem p u : (p, u) ∈ updated <-> exists l q, (p, l) ∈ es /\ found_of (p, l) = Some (u, q) /\ lp_ExternalIDs q <> lp_ExternalIDs p.
Proof.
  unfold updated. rewrite list_elem_of_bind. unfold updates_of. split.
  - intros ([p' l] & Hp & Hin). cbn in Hp. destruct (found_of (p', l)) as [[v q]|] eqn:Ef; [|by apply elem_of_nil in Hp].
    case_bool_decide; [by apply elem_of_nil in Hp|]. apply list_elem_of_singleton in Hp as [= -> ->]. by exists l, q.
  - intros (l & q & Hin & Ef & Hne). exists (p, l). rewrite Ef. cbn. rewrite bool_decide_false by done. split; [by left|done].
Qed.

Lemma NoDup_bind_entries {B C} (f : LogicalRouterPolicy * list (N * LogicalRouterPolicy) -> list B) (g : B -> C) :
  (forall e, e ∈ es -> NoDup (g <$> f e)) ->
  (forall e e' b b', e ∈ es -> e' ∈ es -> b ∈ f e -> b' ∈ f e' -> g b = g b' -> key_pair e.1 = key_pair e'.1) -> NoDup (g <$> (es ≫= f)).
Proof.
  assert (Hsame : forall e e', e ∈ es -> e' ∈ es -> key_pair e.1 = key_pair e'.1 -> e = e').
  { intros [p l] [p' l'] H1 H2 E. by destruct (entry_same p p' l l' H1 H2 E) as [-> ->]. }
  pose proof (NoDup_fmap_1 _ _ (en_once He)) as Hnd. intros H1 H2.
  assert (H3 : forall e e' b b', e ∈ es -> e' ∈ es -> b ∈ f e -> b' ∈ f e' -> g b = g b' -> e = e') by eauto. clear H2 Hsame He Hps. revert H1 H3.
  induction Hnd as [|e l Hn _ IH]; intros H1 H3; cbn; [constructor|]. rewrite fmap_app. apply NoDup_app. split_and!; [apply H1; by left| |].
  - intros c (b & -> & Hb)%list_elem_of_fmap (b' & E & (e' & Hb' & Hin)%list_elem_of_bind)%list_elem_of_fmap.
    assert (e = e') as <-; [|done]. eapply H3; [by left|by right|exact Hb|exact Hb'|done].
  - apply IH; [intros e' Hin; apply H1; by right|]. intros e1 e2 b b' Ha Hb. apply H3; by right.
Qed.

Lemma updated_once : NoDup updated.*2.
Proof.
  apply NoDup_bind_entries.
  - intros e _. unfold updates_of. destruct (found_of e) as [[u q]|]; [|constructor]. case_bool_decide; [constructor|apply NoDup_singleton].
  - assert (Hone : forall e b, e ∈ es -> b ∈ updates_of e -> exists q, rows !! b.2 = Some q /\ key_pair q = key_pair e.1).
    { intros [p l] [p' u] Hin Hb. unfold updates_of in Hb. destruct (found_of (p, l)) as [[v q]|] eqn:Ef; [|by apply elem_of_nil in Hb].
      case_bool_decide; [by apply elem_of_nil in Hb|]. apply list_elem_of_singleton in Hb as [= -> ->].
      destruct (entry_found p l v q Hin Ef) as (Hq & Hk & _). by exists q. }
    intros e e' b b' Hin Hin' Hb Hb' E. destruct (Hone e b Hin Hb) as (q & Hq & Hk), (Hone e' b' Hin' Hb') as (q' & Hq' & Hk'). congruence.
Qed.

Lemma missing_once : NoDup (row_for <$> missing).
Proof.
  apply NoDup_bind_entries.
  - intros e _. unfold new_of. destruct (found_of e); [constructor|apply NoDup_singleton].
  - assert (Hone : forall e b, b ∈ new_of e -> b = e.1).
    { intros e b Hb. unfold new_of in Hb. destruct (found_of e); [by apply elem_of_nil in Hb|by apply list_elem_of_singleton in Hb]. }
    intros e e' b b' _ _ Hb%Hone Hb'%Hone E. subst. unfold row_for, newLogicalRouterPolicy in E. injection E as _ _ _ E1 _ E2. by unfold key_pair; rewrite E1, E2.
Qed.

Context (n : N) (Hn : forall v x, rows !! v = Some x -> (v < n)%N).

(** A row afterwards is a new one, or one that was there and is no duplicate,
    perhaps with new external ids. *)
Lemma batch_rows_lookup v x : batch_rows n !! v = Some x <->
  numbered n (row_for <$> missing) !! v = Some x \/
  (exists x0, rows !! v = Some x0 /\ v ∉ deleted /\
    (v ∉ updated.*2 /\ x = x0 \/ exists p, (p, v) ∈ updated /\ x = set_lp_external (lp_ExternalIDs p) x0)).
Proof.
  assert (Hold : forall u, u ∈ updated.*2 -> (u < n)%N).
  { intros u ([p u'] & -> & (l & q & Hin & Ef & _)%updated_elem)%list_elem_of_fmap. destruct (entry_found p l _ q Hin Ef) as (Hq & _). by eapply Hn. }
  unfold batch_rows. rewrite update_all_lookup by apply updated_once. setoid_rewrite lookup_union_Some_raw. setoid_rewrite map_lookup_filter_Some. cbn. split.
  - intros [(p & x0 & Hp & [Hx|(_ & Hx & Hd)] & ->)|[Hu [Hx|(_ & Hx & Hd)]]]; [|right; exists x0; split_and!; [done|done|right; by exists p]|by left|right; exists x; auto].
    apply numbered_lookup in Hx as [Hx _]. specialize (Hold v). assert (v ∈ updated.*2) as Hv%Hold by (apply list_elem_of_fmap; by exists (p, v)). lia.
  - intros [Hx|(x0 & Hx & Hd & Hu)].
    + right. split; [|by left]. intros Hv%Hold. apply numbered_lookup in Hx as [Hx _]. lia.
    + assert (Hno : numbered n (row_for <$> missing) !! v = None).
      { destruct (numbered n (row_for <$> missing) !! v) as [y|] eqn:Ey; [|done]. apply numbered_lookup in Ey as [Ey _]. apply Hn in Hx. lia. }
      destruct Hu as [[Hu ->]|(p & Hp & ->)]; [right; split; [done|]; by right|left; exists p, x0; split; [done|]; split; [by right|done]].
Qed.

Lemma new_row_key v x : numbered n (row_for <$> missing) !! v = Some x -> exists p, p ∈ missing /\ x = row_for p /\ key_pair x = key_pair p.
Proof. intros [_ (p & -> & Hp)%list_elem_of_fmap]%numbered_lookup. by exists p. Qed.

Lemma kept_row_key x x0 v : v ∉ updated.*2 /\ x = x0 \/ (exists p, (p, v) ∈ updated /\ x = set_lp_external (lp_ExternalIDs p) x0) -> key_pair x = key_pair x0.
Proof. by intros [[_ ->]|(p & _ & ->)]. Qed.

Lemma deleted_elem v : v ∈ deleted <-> exists p l, (p, l) ∈ es /\ v ∈ dups_of (p, l).
Proof. unfold deleted. rewrite list_elem_of_bind. split; [intros ([p l] & Hv & Hin); eauto|intros (p & l & Hin & Hv); by exists (p, l)]. Qed.

(** The rows to update are there. *)
Lemma batch_installed_row p u : (p, u) ∈ updated -> is_Some ((numbered n (row_for <$> missing) ∪ filter (fun kv => kv.1 ∉ deleted) rows) !! u).
Proof.
  intros (l & q & Hin & Hf & _)%updated_elem. destruct (entry_found p l u q Hin Hf) as (Hq & Hk & _ & Hd).
  apply lookup_union_is_Some. right. exists q. apply map_lookup_filter_Some. split; [done|]. cbn. intros (p' & l' & Hin' & Hu)%deleted_elem.
  pose proof (dups_key p' l' u q Hin' Hu Hq) as Hk'. destruct (entry_same p p' l l' Hin Hin') as [<- <-]; [congruence|]. by apply (Hd u q Hq Hk) in Hu.
Qed.

(** A policy that is found is the only one with its key afterwards. *)
Lemma batch_found p l u q : (p, l) ∈ es -> found_of (p, l) = Some (u, q) -> installed p rows (batch_rows n).
Proof.
  intros Hin Hf. destruct (entry_found p l u q Hin Hf) as (Hq & Hk & Heff & Hd).
  assert (Hud : u ∉ deleted).
  { intros (p' & l' & Hin' & Hu)%deleted_elem. pose proof (dups_key p' l' u q Hin' Hu Hq) as Hk'.
    destruct (entry_same p p' l l' Hin Hin') as [<- <-]; [congruence|]. by apply (Hd u q Hq Hk) in Hu. }
  exists u, (set_lp_external (lp_ExternalIDs p) q). split_and!; [|exact Heff|done|right; by exists q]. intros v x. rewrite has_key_pair, batch_rows_lookup. split.
  - intros [[Hx|(x0 & Hx & Hvd & Hu)] Hkx].
    + apply new_row_key in Hx as (p' & (l' & Hin' & Hf')%missing_elem & _ & Hk'). destruct (entry_same p p' l l' Hin Hin') as [<- <-]; [congruence|]. congruence.
    + pose proof (kept_row_key _ _ _ Hu) as Hkk. destruct (decide (v = u)) as [->|Hne].
      2:{ destruct Hvd. apply deleted_elem. exists p, l. split; [done|]. apply (Hd v x0); [done|congruence|done]. }
      split; [done|]. rewrite Hq in Hx. injection Hx as <-. destruct Hu as [[Hu ->]|(p' & (l' & q' & Hin' & Hf' & _)%updated_elem & ->)].
      * destruct (decide (lp_ExternalIDs q = lp_ExternalIDs p)) as [E|Hne]; [rewrite <-E; by destruct q|]. destruct Hu. apply list_elem_of_fmap. exists (p, u).
        split; [done|]. apply updated_elem. by exists l, q.
      * destruct (entry_found p' l' u q' Hin' Hf') as (Hq' & Hk' & _). rewrite Hq in Hq'. injection Hq' as <-.
        destruct (entry_same p p' l l' Hin Hin') as [<- _]; [congruence|done].
  - intros [-> ->]. split; [|exact Hk]. right. exists q. split_and!; [done..|]. destruct (decide (lp_ExternalIDs q = lp_ExternalIDs p)) as [E|Hne].
    + left. split; [|rewrite <-E; by destruct q]. intros ([p' u'] & Eu & (l' & q' & Hin' & Hf' & Hne)%updated_elem)%list_elem_of_fmap. cbn in Eu. subst u'.
      destruct (entry_found p' l' u q' Hin' Hf') as (Hq' & Hk' & _). rewrite Hq in Hq'. injection Hq' as <-.
      destruct (entry_same p p' l l' Hin Hin') as [<- _]; [congruence|done].
    + right. exists p. split; [|done]. apply updated_elem. by exists l, q.
Qed.

(** A policy that is not found gets one row. *)
Lemma batch_missing p l : (p, l) ∈ es -> found_of (p, l) = None -> installed p rows (batch_rows n).
Proof.
  intros Hin Hf. pose proof (entry_missing p l Hin Hf) as Hm. assert (Hp : p ∈ missing) by (apply missing_elem; by exists l).
  destruct (numbered_elem n (row_for <$> missing) (row_for p)) as [w Hw]; [apply list_elem_of_fmap; by exists p|].
  exists w, (row_for p). split_and!; [|apply row_for_effect|done|].
  - intros v x. rewrite has_key_pair, batch_rows_lookup. split; [|intros [-> ->]; split; [by left|done]].
    intros [[Hx|(x0 & Hx & Hvd & Hu)] Hkx].
    + pose proof Hx as (p' & (l' & Hin' & _)%missing_elem & -> & Hk')%new_row_key. destruct (entry_same p p' l l' Hin Hin') as [<- _]; [congruence|].
      split; [|done]. eapply numbered_once; [apply missing_once|exact Hx|exact Hw].
    + pose proof (kept_row_key _ _ _ Hu) as Hkk. destruct Hvd. apply deleted_elem. exists p, l. split; [done|]. apply (Hm v x0); [done|congruence].
  - left. split; [done|]. intros v x Hx Hk. rewrite has_key_pair in Hk. by apply (Hm v x).
Qed.

Lemma batch_installs p : p ∈ ps -> installed p rows (batch_rows n).
Proof.
  intros Hp. destruct (en_all He p Hp) as [l Hin]. destruct (found_of (p, l)) as [[u q]|] eqn:Ef; [by eapply batch_found|by eapply batch_missing].
Qed.

Lemma batch_others : others_kept ps rows (batch_rows n).
Proof.
  intros v x Hx. assert (Hno : forall p, p ∈ ps -> key_pair x <> key_pair p).
  { intros p Hp E. eapply Forall_forall in Hx; [|exact Hp]. cbn in Hx. rewrite (proj2 (has_key_pair p x)) in Hx; done. }
  assert (Hdel : rows !! v = Some x -> v ∉ deleted).
  { intros Hv (p & l & Hin & Hd)%deleted_elem. destruct (en_each He p l Hin) as (Hp & _). apply (Hno p Hp). by eapply dups_key. }
  rewrite batch_rows_lookup. split.
  - intros [Hv|(x0 & Hv & Hd & Hu)].
    + apply new_row_key in Hv as (p & (l & Hin & _)%missing_elem & _ & Hk). destruct (en_each He p l Hin) as (Hp & _). by destruct (Hno p Hp).
    + destruct Hu as [[_ ->]|(p & (l & q & Hin & Hf & _)%updated_elem & ->)]; [done|]. exfalso. destruct (en_each He p l Hin) as (Hp & _). apply (Hno p Hp).
      destruct (entry_found p l v q Hin Hf) as (Hq & Hk & _). rewrite Hv in Hq. injection Hq as ->. done.
  - intros Hv. right. exists x. split_and!; [done|by apply Hdel|]. left. split; [|done].
    intros ([p v'] & Ev & (l & q & Hin & Hf & _)%updated_elem)%list_elem_of_fmap. cbn in Ev. subst v'. destruct (en_each He p l Hin) as (Hp & _). apply (Hno p Hp).
    destruct (entry_found p l v q Hin Hf) as (Hq & Hk & _). congruence.
Qed.

End Batch.

Section BatchCalls.
Context {i : PolicyIndex} {Hix : PolicyIndexOk i} (lrName : string) (lr : N) (ps : list LogicalRouterPolicy).

(** Priorities and matches the index finds. *)
Definition findable (p : LogicalRouterPolicy) : Prop := 0 < lp_Priority p < 2 ^ 63 /\ lp_Match p <> "".
Context (Hfind : Forall findable ps) (Hps : NoDup (key_pair <$> ps)).

Let keys : list LogicalRouterPolicy := (fun p => buildLogicalRouterPolicyIndex (lp_Priority p) (lp_Match p)) <$> ps.

Lemma keys_indexed : Forall indexed keys.
Proof.
  apply Forall_fmap. eapply Forall_impl; [exact Hfind|]. intros p [Hp Hm]. split; cbn; [|done]. destruct (Z.leb_spec 0 (lp_Priority p)); lia.
Qed.

Lemma keys_pairs k : (exists q, q ∈ keys /\ key_pair q = k) <-> k ∈ key_pair <$> ps.
Proof.
  rewrite list_elem_of_fmap. split.
  - intros (q & (p & -> & Hp)%list_elem_of_fmap & <-). exists p. split; [|done]. pose proof (proj1 (Forall_forall _ _) Hfind p Hp) as [Hpr _].
    unfold key_pair. cbn. destruct (Z.leb_spec 0 (lp_Priority p)); [done|lia].
  - intros (p & -> & Hp). exists (buildLogicalRouterPolicyIndex (lp_Priority p) (lp_Match p)). split; [apply list_elem_of_fmap; by exists p|].
    pose proof (proj1 (Forall_forall _ _) Hfind p Hp) as [Hpr _]. unfold key_pair. cbn. destruct (Z.leb_spec 0 (lp_Priority p)); [done|lia].
Qed.

(** The rows of the router with a priority and match that is asked for. *)
Definition mine (db : RouterDB) : list (N * LogicalRouterPolicy) :=
  filter (fun kv => kv.1 ∈ refs_of lr (r_policies db)) (by_index keys (ch_rows (r_policies db))).

Lemma mine_elem db v x : (v, x) ∈ mine db <-> policies_at lr db !! v = Some x /\ key_pair x ∈ key_pair <$> ps.
Proof.
  unfold mine. rewrite list_elem_of_filter, (by_index_elem keys _ v x keys_indexed), <-keys_pairs. unfold policies_at. rewrite of_router_lookup. cbn.
  assert (E : (exists k, k ∈ keys /\ lp_Priority k = lp_Priority x /\ lp_Match k = lp_Match x) <-> exists q, q ∈ keys /\ key_pair q = key_pair x).
  { unfold key_pair. split; intros (k & Hk & H); exists k; (split; [done|]); [destruct H; congruence|by injection H as -> ->]. }
  rewrite E. tauto.
Qed.

Lemma key_same p x : p ∈ ps -> key_pair x ∈ key_pair <$> ps -> policy_key x = policy_key p <-> key_pair x = key_pair p.
Proof.
  intros Hp (p' & E & Hp')%list_elem_of_fmap. pose proof (proj1 (Forall_forall _ _) Hfind p Hp) as [H1 _]. pose proof (proj1 (Forall_forall _ _) Hfind p' Hp') as [H2 _].
  unfold key_pair, policy_key in *. injection E as E1 E2. rewrite E1, E2. split; [|by intros [= -> ->]].
  intros [-> ->]%createPolicyKey_inj; [done|lia|lia].
Qed.

Lemma batch_entries db : get_router lrName db = Ok lr ->
  exists es, batchListLogicalRouterPoliciesByFilter lrName ps db = Ok es /\ entries (policies_at lr db) ps es.
Proof.
  intros Hlr. assert (Hk : NoDup (policy_key <$> ps)).
  { apply NoDup_fmap_2_strong; [|by apply (NoDup_fmap_1 key_pair)]. intros p q Hp Hq E. eapply (NoDup_fmap_same key_pair); [done..|].
    apply key_same in E; [done..|]. apply list_elem_of_fmap. by exists p. }
  unfold batchListLogicalRouterPoliciesByFilter. rewrite Hlr. eexists. split; [reflexivity|]. fold keys. fold (mine db). split.
  - intros p Hp. eexists. apply list_elem_of_fmap. exists (policy_key p, p). split; [reflexivity|]. apply elem_of_map_to_list. by apply index_by_iff.
  - intros p l ([k p'] & [= -> ->] & Hin)%list_elem_of_fmap. apply elem_of_map_to_list, index_by_iff in Hin as [Hp <-]; [|done]. split; [done|]. split.
    + apply NoDup_fst_filter, NoDup_fst_filter, by_index_unique, keys_indexed.
    + intros v x. rewrite list_elem_of_filter, mine_elem. cbn. split.
      * intros (Hkx & Hx & Hin). split; [done|]. by apply key_same.
      * intros [Hx Hkx]. assert (Hin : key_pair x ∈ key_pair <$> ps) by (rewrite Hkx; apply list_elem_of_fmap; by exists p'). split; [|done]. by apply key_same.
  - rewrite <-list_fmap_compose. apply NoDup_fmap_2_strong; [|apply NoDup_map_to_list]. intros [k p] [k' p'] Hin Hin' E. cbn in E. subst p'.
    apply elem_of_map_to_list, index_by_iff in Hin as [_ <-]; [|done]. apply elem_of_map_to_list, index_by_iff in Hin' as [_ <-]; done.
Qed.

Lemma batch_unfold : ps <> [] -> BatchAddLogicalRouterPolicy lrName ps =
  (policyListMap ← labelled "batch list logical router %s policies %d: %w" [lrName; Itoa (len ps)] (lr_reading (batchListLogicalRouterPoliciesByFilter lrName ps));
   let b := fold_left batch_step policyListMap (mkBatch [] [] []) in
   _ ← BatchDeleteLogicalRouterPolicyByUUID lrName (b_delete b);
   _ ← batchCreateLogicalRouterPolicies lrName (b_create b);
   batchUpdateLogicalRouterPolicies (b_update b)).
Proof. by destruct ps. Qed.

(** The batch installs every given policy, as adding them one by one does. *)
Lemma BatchAddLogicalRouterPolicy_does db : get_router lrName db = Ok lr -> r_ok db -> server_accepts db -> ps <> [] ->
  exists rows', does (BatchAddLogicalRouterPolicy lrName ps) lr (routes_at lr db) rows' db /\
    (forall p, p ∈ ps -> installed p (policies_at lr db) rows') /\ others_kept ps (policies_at lr db) rows'.
Proof.
  intros Hlr Hok Ha Hne. destruct (batch_entries db Hlr) as (es & Ees & He). set (rows := policies_at lr db) in *.
  assert (Hdel : does (BatchDeleteLogicalRouterPolicyByUUID lrName (deleted es)) lr (routes_at lr db) (filter (fun kv => kv.1 ∉ deleted es) rows) db).
  { destruct (mutate_policies_does lrName lr db Hlr Hok Ha "generate operations for removing policies '%v' from logical router %s: %w"
      "delete logical router policies '%v' from logical router %s: %w" [show_uuids (elements (list_to_set (deleted es) : gset N)); lrName]
      (Remove (elements (list_to_set (deleted es) : gset N)))) as (db1 & E1 & C1); [apply bool_decide_eq_true_2, NoDup_elements|].
    exists db1. split; [exact E1|]. replace (filter (fun kv => kv.1 ∉ deleted es) rows) with (mutated (r_next db) (Remove (elements (list_to_set (deleted es) : gset N))) rows); [done|].
    cbn. apply map_filter_ext. intros v x _. cbn. rewrite elem_of_elements, elem_of_list_to_set. done. }
  destruct Hdel as (db1 & E1 & C1). pose proof (chg_ok _ _ _ _ _ C1) as Hok1. pose proof (changed_accepts _ _ _ _ _ C1 Ha) as Ha1.
  pose proof (eq_trans (get_router_changed _ _ _ _ _ lrName C1) Hlr) as Hlr1.
  assert (Hcre : does (batchCreateLogicalRouterPolicies lrName (missing es)) lr (routes_at lr db1)
    (numbered (r_next db1) (row_for <$> missing es) ∪ policies_at lr db1) db1).
  { apply does_labelled. unfold CreateLogicalRouterPolicies. rewrite (list_fmap_compose row_for Some), omap_id_Some.
    apply (mutate_policies_does lrName lr db1 Hlr1 Hok1 Ha1 _ _ _ (Insert (row_for <$> missing es)) eq_refl). }
  destruct Hcre as (db2 & E2 & C2). pose proof (chg_policies _ _ _ _ _ C2) as Ep. rewrite (chg_policies _ _ _ _ _ C1) in Ep.
  assert (Hn : forall v x, rows !! v = Some x -> (v < r_next db1)%N).
  { intros v x [Hx _]%of_router_lookup. pose proof (ch_rows_old _ _ (rok_policies _ Hok) _ _ Hx). pose proof (chg_next _ _ _ _ _ C1). lia. }
  assert (Hupd : does (batchUpdateLogicalRouterPolicies (updated es)) lr (routes_at lr db2) (update_all (updated es) (policies_at lr db2)) db2).
  { apply batchUpdate_does; [apply C2|by eapply changed_accepts|]. apply Forall_forall. intros [p u] Hin. cbn.
    destruct (batch_installed_row rows ps es Hps He (r_next db1) p u Hin) as [x Hx]. rewrite Ep. by exists x. }
  exists (batch_rows rows es (r_next db1)). split; [|split; [intros p; by apply batch_installs|by apply batch_others]].
  unfold batch_rows. rewrite <-Ep. rewrite batch_unfold by done.
  eapply does_labelled_reading; [exact Ees|]. rewrite batch_fold. cbn [b_delete b_create b_update app].
  destruct Hupd as (db3 & E3 & C3). exists db3. rewrite (lbind_done _ _ _ _ _ E1), (lbind_done _ _ _ _ _ E2). split; [exact E3|].
  rewrite (chg_routes _ _ _ _ _ C2), (chg_routes _ _ _ _ _ C1) in C3. rewrite (chg_routes _ _ _ _ _ C1) in C2. do 2 (eapply changed_trans; [eassumption|]). exact C3.
Qed.

End BatchCalls.

(** ** Adding policies one by one *)

(** Every given policy is installed, and rows with other keys are as they were. *)
Definition policies_given (ps : list LogicalRouterPolicy) (rows rows' : gmap N LogicalRouterPolicy) : Prop :=
  (forall p, p ∈ ps -> installed p rows rows') /\ others_kept ps rows rows'.

Lemma has_key_other p x : policy_has_key (lp_Priority p) (lp_Match p) x = false <-> key_pair x <> key_pair p.
Proof. by rewrite <-not_true_iff_false, has_key_pair. Qed.

Lemma policies_given_cons p ps rows rows1 rows2 : key_pair p ∉ key_pair <$> ps -> installed p rows rows1 -> others_kept [p] rows rows1 ->
  policies_given ps rows1 rows2 -> policies_given (p :: ps) rows rows2.
Proof.
  intros Hp Hi Ho [Hi2 Ho2].
  assert (Hpk : forall x, key_pair x = key_pair p -> Forall (fun p' => policy_has_key (lp_Priority p') (lp_Match p') x = false) ps).
  { intros x Hx. apply Forall_forall. intros p' Hp'. apply has_key_other. intros E. apply Hp. rewrite <-Hx, E. apply list_elem_of_fmap. by exists p'. }
  assert (Hkeep : forall p' v x, p' ∈ ps -> key_pair x = key_pair p' -> rows1 !! v = Some x <-> rows !! v = Some x).
  { intros p' v x Hp' Hx. apply Ho. rewrite Forall_singleton. apply has_key_other. intros E. apply Hp. rewrite <-E, Hx. apply list_elem_of_fmap. by exists p'. }
  split.
  - intros p' [->|Hp']%elem_of_cons.
    + destruct Hi as (u & q & Hu & Hrest). exists u, q. split; [|done]. intros v x. rewrite <-Hu. split; intros [Hv Hk]; (split; [|done]);
        apply (Ho2 v x (Hpk x (proj1 (has_key_pair p x) Hk))); done.
    + destruct (Hi2 p' Hp') as (u & q & Hu & He & Hids & Hq). exists u, q. split_and!; [done..|]. destruct Hq as [[-> Hn]|(q0 & Hq0 & ->)]; [left|right].
      * split; [done|]. intros v x Hx Hk. apply (Hn v x); [|done]. apply (Hkeep p'); [done|by apply has_key_pair|done].
      * exists q0. split; [|done]. apply (Hkeep p'); [done| |done]. destruct (proj2 (Hu u _) (conj eq_refl eq_refl)) as [_ Hk]. by apply has_key_pair in Hk.
  - intros v x [H1 H2]%Forall_cons. rewrite (Ho2 v x H2). apply Ho. by rewrite Forall_singleton.
Qed.

Definition add_policy (lrName : string) (p : LogicalRouterPolicy) : Lr () :=
  AddLogicalRouterPolicy lrName (lp_Priority p) (lp_Match p) (lp_Action p) (lp_Nexthops p) (lp_BFDSessions p) (lp_ExternalIDs p).

Lemma each_add_does lrName lr ps db : NoDup (key_pair <$> ps) -> get_router lrName db = Ok lr -> r_ok db -> server_accepts db ->
  exists rows', does (each (add_policy lrName) ps) lr (routes_at lr db) rows' db /\ policies_given ps (policies_at lr db) rows'.
Proof.
  revert db. induction ps as [|p ps IH]; intros db Hnd Hlr Hok Ha.
  - exists (policies_at lr db). split; [by apply does_nothing|]. split; [by intros p ?%elem_of_nil|done].
  - cbn in Hnd. apply NoDup_cons in Hnd as [Hp Hnd]. destruct (AddLogicalRouterPolicy_does lrName lr p db Hlr Hok Ha) as (rows1 & (db1 & E1 & C1) & Hi & Ho).
    destruct (IH db1 Hnd) as (rows2 & D2 & Hg); [by rewrite (get_router_changed _ _ _ _ _ _ C1)|apply C1|by eapply changed_accepts|].
    exists rows2. split.
    + destruct D2 as (db2 & E2 & C2). exists db2. cbn [each]. rewrite (lbind_done _ _ _ _ _ E1). split; [exact E2|].
      rewrite (chg_routes _ _ _ _ _ C1) in C2. by eapply changed_trans.
    + rewrite (chg_policies _ _ _ _ _ C1) in Hg. by eapply policies_given_cons.
Qed.
