(* ===== verification/VpcRoutes.v ===== *)
(** * The routes and policies of a VPC ([pkg/controller/vpc.go])

    The part of [handleAddOrUpdateVpc] that brings the static routes and the
    policies of a router to those of the specification: the routes and policies
    that are there are compared by key with the wanted ones, those no longer wanted
    are deleted and the missing ones are added.  Also the check of a specification
    in [formatVpc] and the helpers other controllers call. *)
From Stdlib Require Import Ascii.
From S2P Require Import Prelude GoStrings GoNet UtilNet IpPool GoText NbDb NbRouter.

Local Open Scope Z_scope.

Definition PolicySrc : string := "policySrc".
Definition PolicyDst : string := "policyDst".

Record VpcStaticRoute := mkVr {
  vr_Policy : string;
  vr_CIDR : string;
  vr_NextHopIP : string;
  vr_ECMPMode : string;
  vr_BfdID : string;
  vr_RouteTable : string
}.

Record VpcPolicyRoute := mkVp {
  vp_Priority : Z;
  vp_Match : string;
  vp_Action : string;
  vp_NextHopIP : string
}.

#[global] Instance VpcStaticRoute_eq_dec : EqDecision VpcStaticRoute.
Proof. solve_decision. Defined.
#[global] Instance VpcPolicyRoute_eq_dec : EqDecision VpcPolicyRoute.
Proof. solve_decision. Defined.

Definition convertPolicy (origin : string) : string :=
  if bool_decide (origin = PolicyDst) then LogicalRouterStaticRoutePolicyDstIP else LogicalRouterStaticRoutePolicySrcIP.

Definition reversePolicy (origin : string) : string :=
  if bool_decide (origin = LogicalRouterStaticRoutePolicyDstIP) then PolicyDst else PolicySrc.

(** ** Comparing by key *)

(** The loop over the wanted items: one that is there leaves the map, one that is
    not is to be added; what is left in the map is to be deleted. *)
Definition diff_targets {A} (key : A -> string) (existing : gmap string A) (target : list A) : list A * list A :=
  let '(rest, adds) := fold_left (fun '(m, adds) item =>
    match m !! key item with
    | Some _ => (delete (key item) m, adds)
    | None => (m, adds ++ [item])
    end) target (existing, []) in
  ((map_to_list rest).*2, adds).

Definition getStaticRouteItemKey (item : VpcStaticRoute) : string :=
  if bool_decide (vr_Policy item = PolicyDst)
  then vr_RouteTable item +:+ ":dst:" +:+ vr_CIDR item +:+ "=>" +:+ vr_NextHopIP item
  else vr_RouteTable item +:+ ":src:" +:+ vr_CIDR item +:+ "=>" +:+ vr_NextHopIP item.

(** A row as an item of the specification. *)
Definition static_item (r : LogicalRouterStaticRoute) : VpcStaticRoute :=
  mkVr (if bool_decide (rt_Policy r = Some LogicalRouterStaticRoutePolicySrcIP) then PolicySrc else PolicyDst)
       (rt_IPPrefix r) (rt_Nexthop r) StaticRouteBfdEcmp (default "" (rt_BFD r)) (rt_RouteTable r).

Definition diffStaticRoute (exist : list LogicalRouterStaticRoute) (target : list VpcStaticRoute) : list VpcStaticRoute * list VpcStaticRoute :=
  diff_targets getStaticRouteItemKey (index_by getStaticRouteItemKey (static_item <$> exist)) target.

(** [util.SplitTrimmed]. *)
Definition SplitTrimmed (s sep : string) : list string := filter (fun x => x <> "") (TrimSpace <$> Split s sep).

Definition normalizePolicyRouteNextHops (nextHopIP : string) : string :=
  if bool_decide (nextHopIP = "") then ""
  else match filter (fun x => x <> "") (TrimSpace <$> Split nextHopIP ",") with
       | [] => ""
       | nextHops => Join (sort_Strings nextHops) ","
       end.

Definition getPolicyRouteItemKey (item : VpcPolicyRoute) : string :=
  Itoa (vp_Priority item) +:+ ":" +:+ vp_Match item +:+ ":" +:+ vp_Action item +:+ ":" +:+ normalizePolicyRouteNextHops (vp_NextHopIP item).

Definition getLogicalPolicyNextHopKey (item : LogicalRouterPolicy) : string :=
  match lp_Nexthops item, lp_Nexthop item with
  | _ :: _, _ => normalizePolicyRouteNextHops (Join (lp_Nexthops item) ",")
  | [], Some nexthop => normalizePolicyRouteNextHops nexthop
  | [], None => ""
  end.

Definition diffPolicyRouteWithExisted (exists' target : list VpcPolicyRoute) : list VpcPolicyRoute * list VpcPolicyRoute :=
  diff_targets getPolicyRouteItemKey (index_by getPolicyRouteItemKey exists') target.

(** Policies other controllers own are left alone. *)
Definition owned_elsewhere (item : LogicalRouterPolicy) : bool :=
  let id k := default "" (lp_ExternalIDs item !! k) in
  negb (bool_decide (id "vpc-egress-gateway" = "")) || negb (bool_decide (id "subnet" = "")) || bool_decide (id "isU2ORoutePolicy" = "true").

Definition policy_item (item : LogicalRouterPolicy) : VpcPolicyRoute :=
  mkVp (lp_Priority item) (lp_Match item) (lp_Action item) (getLogicalPolicyNextHopKey item).

Definition diffPolicyRouteWithLogical (exists' : list LogicalRouterPolicy) (target : list VpcPolicyRoute) : list VpcPolicyRoute * list VpcPolicyRoute :=
  diff_targets getPolicyRouteItemKey
    (index_by getPolicyRouteItemKey (policy_item <$> filter (fun item => owned_elsewhere item = false) exists')) target.

(** ** Changing a router *)

Definition vendor_ids : gmap string string := {["vendor" := CniTypeName]}.

Definition policy_hops (policy : VpcPolicyRoute) : list string :=
  if bool_decide (vp_NextHopIP policy = "") then [] else SplitTrimmed (vp_NextHopIP policy) ",".

Definition addPolicyRouteToVpc (vpcName : string) (policy : VpcPolicyRoute) (externalIDs : gmap string string) : Lr () :=
  AddLogicalRouterPolicy vpcName (vp_Priority policy) (vp_Match policy) (vp_Action policy) (policy_hops policy) [] externalIDs.

Definition buildExternalIDsMapKey (mtch action : string) (priority : Z) : string := mtch +:+ "-" +:+ action +:+ "-" +:+ Itoa priority.

Definition batchAddPolicyRouteToVpc `{PolicyIndex} (name : string) (policies : list VpcPolicyRoute) (externalIDs : gmap string (gmap string string)) : Lr () :=
  match policies with
  | [] => mret ()
  | _ => BatchAddLogicalRouterPolicy name
           ((fun p => mkPolicy (vp_Action p) [] (default ∅ (externalIDs !! buildExternalIDsMapKey (vp_Match p) (vp_Action p) (vp_Priority p)))
                        (vp_Match p) None (policy_hops p) (vp_Priority p)) <$> policies)
  end.

Definition deletePolicyRouteFromVpc (vpcName : string) (priority : Z) (mtch : string) : Lr () := DeleteLogicalRouterPolicy vpcName priority mtch.

Definition batchDeletePolicyRouteFromVpc `{PolicyIndex} (name : string) (policies : list VpcPolicyRoute) : Lr () :=
  BatchDeleteLogicalRouterPolicy name ((fun p => mkPolicy "" [] ∅ (vp_Match p) None [] (vp_Priority p)) <$> policies).

Definition bfd_of (route : VpcStaticRoute) : option string := if bool_decide (vr_BfdID route = "") then None else Some (vr_BfdID route).

Definition addStaticRouteToVpc (name : string) (route : VpcStaticRoute) : Lr () :=
  AddLogicalRouterStaticRoute name (vr_RouteTable route) (convertPolicy (vr_Policy route)) (vr_CIDR route) (bfd_of route) vendor_ids [vr_NextHopIP route].

Definition deleteStaticRouteFromVpc (name table cidr nextHop policy : string) : Lr () :=
  DeleteLogicalRouterStaticRoute name (Some table) (Some (convertPolicy policy)) cidr nextHop.

Definition batchDeleteStaticRouteFromVpc (name : string) (staticRoutes : list VpcStaticRoute) : Lr () :=
  BatchDeleteLogicalRouterStaticRoute name
    ((fun sr => Some (mkRoute None ∅ (vr_CIDR sr) (vr_NextHopIP sr) ∅ (Some (convertPolicy (vr_Policy sr))) (vr_RouteTable sr))) <$> staticRoutes).

(** ** The specification *)

(** The loops of [formatVpc]: an item as it is stored, or the error. *)
Definition format_static_route (item : VpcStaticRoute) : result VpcStaticRoute :=
  let policy := if bool_decide (vr_Policy item = "") then PolicyDst else vr_Policy item in
  if negb (bool_decide (policy = PolicyDst)) && negb (bool_decide (policy = PolicySrc)) then Err (Errorf "unknown policy type: %q" [policy])
  else if contains_char "/"%char (vr_CIDR item) && bool_decide (ParseCIDR (vr_CIDR item) = None) then Err (Errorf "invalid cidr %q: %w" [vr_CIDR item])
  else if negb (contains_char "/"%char (vr_CIDR item)) && isNil (ParseIP (vr_CIDR item)) then Err (Errorf "invalid ip %q" [vr_CIDR item])
  else if isNil (ParseIP (vr_NextHopIP item)) then Err (Errorf "invalid next hop ip %q" [vr_NextHopIP item])
  else Ok (mkVr policy (vr_CIDR item) (vr_NextHopIP item) (vr_ECMPMode item) (vr_BfdID item) (vr_RouteTable item)).

Definition format_policy_route (route : VpcPolicyRoute) : result VpcPolicyRoute :=
  if negb (bool_decide (vp_Action route = LogicalRouterPolicyActionReroute))
  then Ok (mkVp (vp_Priority route) (vp_Match route) (vp_Action route) "")
  else if forallb (fun ipStr => negb (isNil (ParseIP ipStr))) (Split (vp_NextHopIP route) ",") then Ok route
  else Err (Errorf "invalid next hop ips: %s" [vp_NextHopIP route]).

Definition formatVpc (staticRoutes : list VpcStaticRoute) (policyRoutes : list VpcPolicyRoute) : result (list VpcStaticRoute * list VpcPolicyRoute) :=
  srs ← collect format_static_route staticRoutes;
  prs ← collect format_policy_route policyRoutes;
  Ok (srs, prs).

(** What the routes read of a subnet. *)
Record VpcSubnet := mkVpcSubnet { vs_Vpc : string; vs_Gateway : string; vs_CIDRBlock : string; vs_RouteTable : string }.

(** The routes by source of the subnets of a VPC. *)
Definition subnet_routes (key : string) (subnets : list VpcSubnet) : list VpcStaticRoute :=
  filter (fun s => vs_Vpc s = key) subnets ≫= fun s =>
    let '(v4Gw, v6Gw) := SplitStringIP (vs_Gateway s) in
    let '(v4Cidr, v6Cidr) := SplitStringIP (vs_CIDRBlock s) in
    let route cidr gw := if bool_decide (gw = "") || bool_decide (cidr = "") then [] else [mkVr PolicySrc cidr gw "" "" (vs_RouteTable s)] in
    route v4Cidr v4Gw ++ route v6Cidr v6Gw.

(** The static routes of a custom VPC. *)
Definition custom_targets (key : string) (subnets : list VpcSubnet) (staticRoutes : list VpcStaticRoute) : list VpcStaticRoute :=
  staticRoutes ++ subnet_routes key subnets.

(** [getRouteTablesByVpc]: the tables the routes name. *)
Definition route_tables (staticRoutes : list VpcStaticRoute) : gset string := list_to_set (vr_RouteTable <$> staticRoutes).

(** The static routes of the cluster router: those of the specification and, in
    every table, the default routes to the gateway of the join subnet. *)
Definition cluster_targets (joinGateway : string) (staticRoutes : list VpcStaticRoute) : list VpcStaticRoute :=
  let '(gatewayV4, gatewayV6) := SplitStringIP joinGateway in
  let route cidr gw := if bool_decide (gw = "") then []
                       else (fun table => mkVr PolicyDst cidr gw "" "" table) <$> elements ({[""]} ∪ route_tables staticRoutes) in
  staticRoutes ++ route "0.0.0.0/0" gatewayV4 ++ route "::/0" gatewayV6.

(** ** Reconciling a router *)

(** The static routes that carry the id of the vendor are brought to the wanted
    ones. *)
Definition reconcile_static_routes (vpcName : string) (staticTargetRoutes : list VpcStaticRoute) : Lr () :=
  staticExistedRoutes ← lr_reading (ListLogicalRouterStaticRoutes vpcName None None "" vendor_ids);
  let '(routeNeedDel, routeNeedAdd) := diffStaticRoute staticExistedRoutes.*2 staticTargetRoutes in
  _ ← each (fun item => deleteStaticRouteFromVpc vpcName (vr_RouteTable item) (vr_CIDR item) (vr_NextHopIP item) (vr_Policy item)) routeNeedDel;
  each (addStaticRouteToVpc vpcName) routeNeedAdd.

(** The policies: the cluster router compares with the last specification, a
    custom VPC with the policies of its router. *)
Definition reconcile_policy_routes (vpcName : string) (lastPolicies : option (list VpcPolicyRoute)) (policyRoutes : list VpcPolicyRoute) : Lr () :=
  '(policyRouteNeedDel, policyRouteNeedAdd) ←
    match lastPolicies with
    | Some policyRouteExisted => mret (diffPolicyRouteWithExisted policyRouteExisted policyRoutes)
    | None => policyRouteLogical ← lr_reading (ListLogicalRouterPolicies vpcName (-1) ∅ true);
              mret (diffPolicyRouteWithLogical policyRouteLogical.*2 policyRoutes)
    end;
  _ ← each (fun item => DeleteLogicalRouterPolicy vpcName (vp_Priority item) (vp_Match item)) policyRouteNeedDel;
  each (fun item => addPolicyRouteToVpc vpcName item vendor_ids) policyRouteNeedAdd.

Definition reconcile_routes (vpcName : string) (lastPolicies : option (list VpcPolicyRoute)) (staticTargetRoutes : list VpcStaticRoute) (policyRoutes : list VpcPolicyRoute) : Lr () :=
  _ ← reconcile_static_routes vpcName staticTargetRoutes;
  reconcile_policy_routes vpcName lastPolicies policyRoutes.
