(* ===== verification/VpcFacts.v ===== *)
(** * Facts on the routes of a VPC

    Comparing by key; the two loops of a reconciliation as changes of the routes
    and of the policies of the router. *)
From Stdlib Require Import Ascii.
From stdpp Require Import sorting.
From S2P Require Import Prelude GoStrings GoNet GoNetText UtilNet IpPool GoText NbDb NbRouter NbRouterFacts VpcRoutes.

Local Open Scope Z_scope.

(** ** Comparing by key *)

Section Diff.
Context {A : Type} (key : A -> string).

Lemma diff_acc target : forall (m : gmap string A) adds, exists adds',
  fold_left (fun '(m, adds) item => match m !! key item with Some _ => (delete (key item) m, adds) | None => (m, adds ++ [item]) end) target (m, adds) =
    (filter (fun kv => kv.1 ∉ key <$> target) m, adds ++ adds') /\
  (forall t, t ∈ adds' -> t ∈ target) /\ (forall t, t ∈ target -> t ∈ adds' \/ is_Some (m !! key t)) /\
  (NoDup (key <$> target) -> forall t, t ∈ adds' -> m !! key t = None) /\ (NoDup (key <$> target) -> NoDup (key <$> adds')).
Proof.
  induction target as [|t target IH]; intros m adds.
  - exists []. rewrite app_nil_r. split_and!; [|set_solver|set_solver|set_solver|done]. cbn. f_equal. symmetry. apply map_filter_id. set_solver.
  - cbn [fold_left]. destruct (m !! key t) as [x|] eqn:Ek.
    + destruct (IH (delete (key t) m) adds) as (adds' & -> & H1 & H2 & H3 & H4). exists adds'. split_and!.
      * f_equal. apply map_eq. intros k. apply option_eq. intros y. rewrite !map_lookup_filter_Some, lookup_delete_Some. cbn. set_solver.
      * intros s Hs. right. by apply H1.
      * intros s [->|Hs]%elem_of_cons; [right; by rewrite Ek|]. destruct (H2 s Hs) as [|[y Hy]]; [by left|].
        apply lookup_delete_Some in Hy as [_ Hy]. right. by rewrite Hy.
      * cbn. intros [Hn1 Hn2]%NoDup_cons s Hs. specialize (H3 Hn2 s Hs). apply lookup_delete_None in H3 as [E|]; [|done].
        destruct Hn1. rewrite E. apply list_elem_of_fmap. exists s. split; [done|]. by apply H1.
      * cbn. intros [_ Hn2]%NoDup_cons. by apply H4.
    + destruct (IH m (adds ++ [t])) as (adds' & -> & H1 & H2 & H3 & H4). exists (t :: adds'). split_and!.
      * f_equal; [|by rewrite <-app_assoc]. apply map_filter_ext. intros k y Hk. cbn. rewrite not_elem_of_cons. split; [|tauto].
        intros Hn. split; [|done]. intros ->. congruence.
      * set_solver.
      * intros s [->|Hs]%elem_of_cons; [left; by left|]. destruct (H2 s Hs); [left; by right|by right].
      * cbn. intros [Hn1 Hn2]%NoDup_cons s [->|Hs]%elem_of_cons; [done|by apply H3].
      * cbn. intros [Hn1 Hn2]%NoDup_cons. apply NoDup_cons. split; [|by apply H4]. intros (s & E & Hs)%list_elem_of_fmap.
        apply Hn1. rewrite E. apply list_elem_of_fmap. exists s. split; [done|by apply H1].
Qed.

(** What is deleted was there and is not wanted, with every key of the sort; what
    is added is wanted, and what is wanted is added or was there. *)
Record diffs (existing target dels adds : list A) : Prop := {
  df_del : forall x, x ∈ dels -> x ∈ existing /\ key x ∉ key <$> target;
  df_gone : forall x, x ∈ existing -> key x ∉ key <$> target -> exists y, y ∈ dels /\ key y = key x;
  df_add : forall t, t ∈ adds -> t ∈ target;
  df_all : forall t, t ∈ target -> t ∈ adds \/ key t ∈ key <$> existing;
  df_new : NoDup (key <$> target) -> forall t, t ∈ adds -> key t ∉ key <$> existing;
  df_once : NoDup (key <$> target) -> NoDup (key <$> adds)
}.

Lemma diff_targets_ok existing target : exists dels adds, diff_targets key (index_by key existing) target = (dels, adds) /\ diffs existing target dels adds.
Proof.
  unfold diff_targets. destruct (diff_acc target (index_by key existing) []) as (adds & -> & H1 & H2 & H3 & H4). cbn [app].
  eexists _, adds. split; [done|]. split; [| |done| | |exact H4].
  - intros x ([k y] & -> & Hx)%list_elem_of_fmap. apply elem_of_map_to_list, map_lookup_filter_Some in Hx as [Hx Hk]. cbn in *.
    apply index_by_elem in Hx as [Hx <-]. done.
  - intros x Hx Hk. destruct (index_by_dom key _ _ Hx) as [y Hy]. exists y. split; [|by apply index_by_elem in Hy as [_ ->]].
    apply list_elem_of_fmap. exists (key x, y). split; [done|]. apply elem_of_map_to_list, map_lookup_filter_Some. done.
  - intros t Ht. destruct (H2 t Ht) as [|[y Hy]]; [by left|right]. apply index_by_elem in Hy as [Hy <-]. apply list_elem_of_fmap. by exists y.
  - intros Hn t Ht (x & E & Hx)%list_elem_of_fmap. specialize (H3 Hn t Ht). destruct (index_by_dom key _ _ Hx) as [y Hy]. congruence.
Qed.

End Diff.

(** ** Loops of calls *)

Record ready (lrName : string) (lr : N) (db : RouterDB) : Prop := {
  rd_router : get_router lrName db = Ok lr;
  rd_ok : r_ok db;
  rd_accepts : server_accepts db
}.

Lemma ready_changed lrName lr r p db db' : ready lrName lr db -> changed lr r p db db' -> ready lrName lr db'.
Proof.
  intros [H1 H2 H3] Hc. split; [by rewrite (get_router_changed _ _ _ _ _ _ Hc)|apply Hc|by eapply changed_accepts].
Qed.

Abbreviation both := (gmap N LogicalRouterStaticRoute * gmap N LogicalRouterPolicy)%type.
Definition both_at (lr : N) (db : RouterDB) : both := (routes_at lr db, policies_at lr db).

Lemma both_at_changed lr (s : both) db db' : changed lr s.1 s.2 db db' -> both_at lr db' = s.
Proof. intros C. unfold both_at. rewrite (chg_routes _ _ _ _ _ C), (chg_policies _ _ _ _ _ C). by destruct s. Qed.

(** Two loops after each other. *)
Lemma does_then (m1 m2 : Lr ()) lr (s1 s2 : both) db db1 : m1 db = Done (Ok (), db1) -> changed lr s1.1 s1.2 db db1 -> does m2 lr s2.1 s2.2 db1 ->
  does (_ ← m1; m2) lr s2.1 s2.2 db.
Proof. intros E C (db2 & E2 & C2). exists db2. rewrite (lbind_done _ _ _ _ _ E). split; [done|by eapply changed_trans]. Qed.

Section Loop.
Context {A : Type} (lrName : string) (lr : N) (f : A -> Lr ()).
Context (J : both -> Prop) (keeps : both -> both -> Prop) (has : A -> both -> Prop).
Context (keeps_refl : forall s, keeps s s) (keeps_trans : forall s1 s2 s3, keeps s1 s2 -> keeps s2 s3 -> keeps s1 s3).
Context (has_kept : forall x s s', J s -> J s' -> has x s -> keeps s s' -> has x s').

(** A loop whose calls keep an invariant, keep what there was, and achieve each
    its own, achieves it for every item. *)
Lemma each_achieves l db : ready lrName lr db -> J (both_at lr db) ->
  (forall x db, x ∈ l -> ready lrName lr db -> J (both_at lr db) ->
     exists s', does (f x) lr s'.1 s'.2 db /\ J s' /\ keeps (both_at lr db) s' /\ has x s') ->
  exists s', does (each f l) lr s'.1 s'.2 db /\ J s' /\ keeps (both_at lr db) s' /\ forall x, x ∈ l -> has x s'.
Proof.
  revert db. induction l as [|x l IH]; intros db Hd HJ Hf.
  - exists (both_at lr db). split_and!; [by apply does_nothing, Hd|done|done|set_solver].
  - destruct (Hf x db ltac:(by left) Hd HJ) as (s1 & (db1 & E1 & C1) & J1 & K1 & X1).
    pose proof (both_at_changed _ _ _ _ C1) as Es. destruct (IH db1) as (s2 & D2 & J2 & K2 & X2); [by eapply ready_changed|by rewrite Es|intros y db' Hy; apply Hf; by right|].
    rewrite Es in K2. exists s2. split_and!; [|done|by eapply keeps_trans|].
    + by eapply does_then.
    + intros y [->|Hy]%elem_of_cons; [by eapply (has_kept x s1 s2)|by apply X2].
Qed.

End Loop.

(** ** Texts with separators *)

Lemma first_cut c a a' b b' : contains_char c a = false -> contains_char c a' = false -> a +:+ String c b = a' +:+ String c b' -> a = a' /\ b = b'.
Proof.
  intros Ha Ha' E. pose proof (Cut_app c a b Ha) as E1. pose proof (Cut_app c a' b' Ha') as E2. rewrite E, E2 in E1. by injection E1.
Qed.

(** ** Static routes *)

Abbreviation hop := (string * string * string * string)%type.

(** The table, the policy, the prefix and the next hop of a route. *)
Definition hop_of_row (r : LogicalRouterStaticRoute) : hop := (rt_RouteTable r, policy_of r, rt_IPPrefix r, rt_Nexthop r).
Definition hop_of (t : VpcStaticRoute) : hop := (vr_RouteTable t, convertPolicy (vr_Policy t), vr_CIDR t, vr_NextHopIP t).

(** Routes the controller manages carry the id of the vendor. *)
Record managed (r : LogicalRouterStaticRoute) : Prop := { managed_ids : ids_match (rt_ExternalIDs r) vendor_ids = true }.

Definition known_policy (policy : string) : Prop := policy = LogicalRouterStaticRoutePolicyDstIP \/ policy = LogicalRouterStaticRoutePolicySrcIP.

(** A route whose texts the keys tell apart. *)
Definition clean_hop (h : hop) : Prop :=
  let '(table, policy, prefix, nexthop) := h in
  contains_char ":"%char table = false /\ known_policy policy /\ contains_char "="%char prefix = false /\ prefix <> "" /\ nexthop <> "".

Definition hop_text (h : hop) : string :=
  let '(table, policy, prefix, nexthop) := h in
  table +:+ ":" +:+ (if bool_decide (policy = LogicalRouterStaticRoutePolicyDstIP) then "dst:" else "src:") +:+ prefix +:+ "=>" +:+ nexthop.

Lemma convertPolicy_dst p : bool_decide (convertPolicy p = LogicalRouterStaticRoutePolicyDstIP) = bool_decide (p = PolicyDst).
Proof. unfold convertPolicy. by destruct (bool_decide (p = PolicyDst)). Qed.

Lemma convertPolicy_known p : known_policy (convertPolicy p) /\ or_dst_ip (convertPolicy p) = convertPolicy p.
Proof. unfold convertPolicy, known_policy. case_bool_decide; auto. Qed.

Lemma key_text t : getStaticRouteItemKey t = hop_text (hop_of t).
Proof. unfold getStaticRouteItemKey, hop_text, hop_of. rewrite convertPolicy_dst. by case_bool_decide. Qed.

(** Keys tell routes apart. *)
Lemma hop_text_inj h h' : clean_hop h -> clean_hop h' -> hop_text h = hop_text h' -> h = h'.
Proof.
  destruct h as [[[t p] c] n], h' as [[[t' p'] c'] n']. intros (Ht & Hp & Hc & _) (Ht' & Hp' & Hc' & _) E. cbn in E.
  apply first_cut in E as [-> E]; [|done..].
  assert (Hpp : p = p' /\ c +:+ "=>" +:+ n = c' +:+ "=>" +:+ n').
  { destruct Hp as [->| ->], Hp' as [->| ->]; cbn in E; injection E as E; auto; discriminate. }
  destruct Hpp as [-> E2]. apply first_cut in E2 as [-> E2]; [|done..]. by injection E2 as ->.
Qed.

Lemma hop_of_item r : known_policy (policy_of r) -> hop_of (static_item r) = hop_of_row r.
Proof.
  intros Hp. unfold hop_of, hop_of_row, static_item, policy_of, convertPolicy in *. cbn. destruct (rt_Policy r) as [p|]; cbn in *; [|done].
  destruct Hp as [->| ->]; done.
Qed.

(** The rows a call on one route selects. *)
Lemma selected_hop t r : vr_CIDR t <> "" ->
  route_filter (Some (vr_RouteTable t)) (Some (or_dst_ip (convertPolicy (vr_Policy t)))) (vr_CIDR t) ∅ r = true <-> (hop_of_row r).1 = (hop_of t).1.
Proof.
  intros Hc. rewrite route_filter_group by done. rewrite (proj2 (convertPolicy_known _)). unfold hop_of_row, hop_of. cbn. split.
  - intros (_ & -> & -> & ->). done.
  - intros [= -> -> ->]. split; [apply ids_match_none|done].
Qed.

Lemma hop_eq (h h' : hop) : h = h' <-> h.1 = h'.1 /\ h.2 = h'.2.
Proof. destruct h, h'. cbn. split; [by intros [= -> ->]|by intros [-> ->]]. Qed.

(** The row of a route of the specification. *)
Definition row_of (t : VpcStaticRoute) : LogicalRouterStaticRoute :=
  route_row (vr_RouteTable t) (convertPolicy (vr_Policy t)) (vr_CIDR t) (vr_NextHopIP t) (bfd_of t) vendor_ids [].

Lemma row_of_ok t : hop_of_row (row_of t) = hop_of t /\ managed (row_of t) /\ rt_BFD (row_of t) = bfd_of t.
Proof. unfold row_of, route_row. by destruct (bfd_of t); split_and!; [|split| | |split|]. Qed.

Section StaticRoutes.
Context (lrName : string) (lr : N) (targets : list VpcStaticRoute).
Context (Hname : lrName <> "") (Hclean : Forall (fun t => clean_hop (hop_of t)) targets).

Definition wanted (h : hop) : Prop := h ∈ hop_of <$> targets.

(** Wanted routes to one prefix by different next hops have BFD sessions of their
    own: without, each replaces the other. *)
Definition ecmp_targets : Prop :=
  forall t t', t ∈ targets -> t' ∈ targets -> (hop_of t).1 = (hop_of t').1 -> (hop_of t).2 <> (hop_of t').2 ->
    other_bfd (bfd_of t') (row_of t) = true.

Definition ecmp_rows (rows : gmap N LogicalRouterStaticRoute) : Prop :=
  forall u r t, rows !! u = Some r -> wanted (hop_of_row r) -> t ∈ targets -> (hop_of t).1 = (hop_of_row r).1 -> (hop_of t).2 <> (hop_of_row r).2 ->
    other_bfd (bfd_of t) r = true.

(** Routes that are not deleted stay; nothing else is there. *)
Definition keeps_but (dels : list VpcStaticRoute) (s s' : both) : Prop :=
  s'.2 = s.2 /\ s'.1 ⊆ s.1 /\ forall u r, s.1 !! u = Some r -> hop_of_row r ∉ hop_of <$> dels -> s'.1 !! u = Some r.

Lemma delete_one_does item db : ready lrName lr db -> clean_hop (hop_of item) ->
  does (deleteStaticRouteFromVpc lrName (vr_RouteTable item) (vr_CIDR item) (vr_NextHopIP item) (vr_Policy item)) lr
    (filter (fun kv => hop_of_row kv.2 <> hop_of item) (routes_at lr db)) (policies_at lr db) db.
Proof.
  intros [Hlr Hok Ha] (_ & _ & _ & Hc & Hn).
  destruct (DeleteLogicalRouterStaticRoute_does lrName lr db Hlr Hok Ha (Some (vr_RouteTable item)) (Some (convertPolicy (vr_Policy item))) (vr_CIDR item) (vr_NextHopIP item))
    as (db' & E & C). exists db'. split; [exact E|]. cbn [default] in C.
  assert (Ef : filter (fun kv => hop_of_row kv.2 <> hop_of item) (routes_at lr db) =
    filter (fun kv => ~ (route_filter (Some (vr_RouteTable item)) (Some (or_dst_ip (convertPolicy (vr_Policy item)))) (vr_CIDR item) ∅ kv.2 = true /\
      (vr_NextHopIP item = "" \/ rt_Nexthop kv.2 = vr_NextHopIP item))) (routes_at lr db)).
  { apply map_filter_ext. intros u r _. cbn. rewrite selected_hop, hop_eq by done. cbn. tauto. }
  by rewrite Ef.
Qed.

Lemma delete_routes_does dels db : ready lrName lr db -> Forall (fun t => clean_hop (hop_of t)) dels ->
  exists s', does (each (fun item => deleteStaticRouteFromVpc lrName (vr_RouteTable item) (vr_CIDR item) (vr_NextHopIP item) (vr_Policy item)) dels) lr s'.1 s'.2 db /\
    keeps_but dels (both_at lr db) s' /\ forall item, item ∈ dels -> forall u r, s'.1 !! u = Some r -> hop_of_row r <> hop_of item.
Proof.
  intros Hd Hc. destruct (each_achieves lrName lr
    (fun item => deleteStaticRouteFromVpc lrName (vr_RouteTable item) (vr_CIDR item) (vr_NextHopIP item) (vr_Policy item))
    (fun _ => True) (keeps_but dels) (fun item s => forall u r, s.1 !! u = Some r -> hop_of_row r <> hop_of item)) with (l := dels) (db := db)
    as (s' & D & _ & K & X); [by intros s; unfold keeps_but; auto| | |done|done| |by exists s'].
  - intros s1 s2 s3 (E1 & S1 & K1) (E2 & S2 & K2). split_and!; [congruence|by etrans|auto].
  - intros x s s' _ _ Hx (_ & Hs & _) u r Hr. eapply Hx, lookup_weaken; [exact Hr|exact Hs].
  - intros x d Hx Hdd _. eexists (_, _). split_and!; [apply delete_one_does; [done|by eapply Forall_forall in Hc]|done| |].
    + split_and!; [done|apply map_filter_subseteq|]. intros u r Hr Hn. apply map_lookup_filter_Some. split; [exact Hr|]. cbn. intros E.
      apply Hn. apply list_elem_of_fmap. by exists x.
    + intros u r Hr. by apply map_lookup_filter_Some in Hr as [_ Hr].
Qed.

(** What holds while routes are added: managed routes are wanted, and wanted
    routes do not replace each other. *)
Definition settled (s : both) : Prop := (forall u r, s.1 !! u = Some r -> managed r -> wanted (hop_of_row r)) /\ ecmp_rows s.1.

Definition keeps_wanted (s s' : both) : Prop :=
  s'.2 = s.2 /\
  (forall u r, s.1 !! u = Some r -> wanted (hop_of_row r) \/ Forall (fun t => (hop_of t).1 <> (hop_of_row r).1) targets -> s'.1 !! u = Some r) /\
  (forall u r, s'.1 !! u = Some r -> s.1 !! u = Some r \/ exists t, t ∈ targets /\ r = row_of t).

Definition has_route (t : VpcStaticRoute) (s : both) : Prop := t ∈ targets /\ exists u r, s.1 !! u = Some r /\ hop_of_row r = hop_of t.

Lemma add_one_does (t : VpcStaticRoute) db : ready lrName lr db -> t ∈ targets ->
  exists n new, does (addStaticRouteToVpc lrName t) lr
    (numbered n new ∪ filter (fun kv => ~ ((hop_of_row kv.2).1 = (hop_of t).1 /\ (hop_of_row kv.2).2 <> (hop_of t).2 /\ other_bfd (bfd_of t) kv.2 = false)) (routes_at lr db))
    (policies_at lr db) db /\
    (r_next db <= n)%N /\ (new = [] /\ (exists u r, routes_at lr db !! u = Some r /\ hop_of_row r = hop_of t) \/ new = [row_of t]).
Proof.
  intros [Hlr Hok Ha] Ht. pose proof (proj1 (Forall_forall _ _) Hclean t Ht) as (_ & _ & _ & Hc & _).
  destruct (AddLogicalRouterStaticRoute_does lrName lr db Hlr Hok Ha (vr_RouteTable t) (convertPolicy (vr_Policy t)) (vr_CIDR t) (bfd_of t) vendor_ids [vr_NextHopIP t] Hname)
    as (n & Hn & D). set (listed := rows_where _ _) in D. exists n. eexists. split; [|split; [exact Hn|]].
  - match type of D with does _ _ (numbered _ ?l ∪ ?m) _ _ => set (new := l) in D;
      assert (Ef : m = filter (fun kv => ~ ((hop_of_row kv.2).1 = (hop_of t).1 /\ (hop_of_row kv.2).2 <> (hop_of t).2 /\ other_bfd (bfd_of t) kv.2 = false)) (routes_at lr db)) end.
    { apply map_filter_ext. intros u r _. cbn beta. cbn [fst snd]. rewrite selected_hop by done. unfold slice_contains. rewrite andb_true_iff, !negb_true_iff, bool_decide_eq_false.
      rewrite list_elem_of_singleton. cbn. tauto. }
    rewrite <-Ef. exact D.
  - unfold hops_to_add. rewrite filter_cons, filter_nil. case_decide as Hin; [|left].
    + right. cbn. unfold row_of. by rewrite (proj2 (convertPolicy_known _)).
    + split; [done|]. apply list_elem_of_fmap in Hin as (r & E & ([u r'] & -> & Hr)%list_elem_of_fmap). cbn in *.
      apply rows_where_elem in Hr as [Hr Hsel]. rewrite selected_hop in Hsel by done. exists u, r'. split; [done|]. apply hop_eq. done.
Qed.

Lemma add_routes_does adds db : ready lrName lr db -> ecmp_targets -> settled (both_at lr db) -> (forall t, t ∈ adds -> t ∈ targets) ->
  exists s', does (each (addStaticRouteToVpc lrName) adds) lr s'.1 s'.2 db /\
    settled s' /\ keeps_wanted (both_at lr db) s' /\ forall t, t ∈ adds -> has_route t s'.
Proof.
  intros Hd He Hs Hin. apply each_achieves with (lrName := lrName); [| | |done|done|].
  - intros s. split_and!; [done|auto|auto].
  - intros s1 s2 s3 (E1 & K1 & N1) (E2 & K2 & N2). split_and!; [congruence|auto|]. intros u r Hr. destruct (N2 u r Hr); auto.
  - intros t s s' _ _ [Ht (u & r & Hr & E)] (_ & K & _). split; [done|]. exists u, r. split; [|done]. apply K; [done|]. left.
    rewrite E. apply list_elem_of_fmap. by exists t.
  - intros t d Ht Hdd [Hm Hr]. apply Hin in Ht. destruct (add_one_does t d Hdd Ht) as (n & new & D & Hn & Hnew).
    destruct (row_of_ok t) as (Eh & _ & _).
    assert (Hnew' : forall u r, numbered n new !! u = Some r -> r = row_of t).
    { intros u r Hu. apply numbered_lookup in Hu as [_ Hu]. destruct Hnew as [[-> _]| ->].
      - destruct (not_elem_of_nil _ Hu).
      - apply list_elem_of_singleton in Hu. exact Hu. }
    assert (Hwt : wanted (hop_of t)) by (apply list_elem_of_fmap; by exists t).
    eexists (_, _). split; [exact D|]. split_and!.
    + split; cbn.
      * intros u r [Hu|[_ [Hu _]%map_lookup_filter_Some]]%lookup_union_Some_raw; [|by apply (Hm u)]. apply Hnew' in Hu as ->. by rewrite Eh.
      * intros u r t' [Hu|[_ [Hu _]%map_lookup_filter_Some]]%lookup_union_Some_raw; [|by apply (Hr u)]. apply Hnew' in Hu as ->. rewrite Eh.
        intros _ Ht' E1 E2. apply He; [done..|by symmetry|]. intros E. by apply E2.
    + split_and!; cbn; [done| |].
      * intros u r Hu Hk. apply lookup_union_Some_raw. right. split.
        -- destruct (numbered n new !! u) as [x|] eqn:Ex; [|done]. apply numbered_lookup in Ex as [Ex _].
           apply of_router_lookup in Hu as [Hu _]. pose proof (ch_rows_old _ _ (rok_routes _ (rd_ok _ _ _ Hdd)) _ _ Hu). lia.
        -- apply map_lookup_filter_Some. split; [done|]. cbn. intros (E1 & E2 & E3). destruct Hk as [Hk|Hk].
           ++ rewrite (Hr u r t) in E3; [done|done|done|done|done|]. intros E. by apply E2.
           ++ eapply Forall_forall in Hk; [|exact Ht]. by apply Hk.
      * intros u r [Hu|[_ [Hu _]%map_lookup_filter_Some]]%lookup_union_Some_raw; [|by left]. right. exists t. split; [done|by apply (Hnew' u)].
    + split; [done|]. cbn. destruct Hnew as [[-> (u & r & Hu & E)]| ->].
      * exists u, r. split; [|done]. apply lookup_union_Some_raw. right. split; [done|]. apply map_lookup_filter_Some. split; [done|]. cbn.
        intros (_ & E2 & _). apply E2. apply hop_eq in E as [_ E]. exact E.
      * exists n, (row_of t). split; [|done]. apply lookup_union_Some_raw. left. cbn. by rewrite lookup_insert_eq.
Qed.

(** The routes before and after: every wanted route is there, a managed route is
    wanted; wanted routes stay as they were, and so do those of others to prefixes
    no wanted or managed route has; what is new is a wanted route. *)
Record reconciled (routes routes' : gmap N LogicalRouterStaticRoute) : Prop := {
  rec_present : forall t, t ∈ targets -> exists u r, routes' !! u = Some r /\ hop_of_row r = hop_of t;
  rec_only : forall u r, routes' !! u = Some r -> managed r -> wanted (hop_of_row r);
  rec_kept : forall u r, routes !! u = Some r -> wanted (hop_of_row r) -> routes' !! u = Some r;
  rec_others : forall u r, routes !! u = Some r -> Forall (fun t => (hop_of t).1 <> (hop_of_row r).1) targets ->
    (forall v m, routes !! v = Some m -> managed m -> hop_of_row m <> hop_of_row r) -> routes' !! u = Some r;
  rec_new : forall u r, routes' !! u = Some r -> routes !! u = Some r \/ exists t, t ∈ targets /\ r = row_of t
}.

Definition clean_rows (routes : gmap N LogicalRouterStaticRoute) : Prop := forall u r, routes !! u = Some r -> managed r -> clean_hop (hop_of_row r).

Lemma wanted_key h : clean_hop h -> hop_text h ∈ getStaticRouteItemKey <$> targets <-> wanted h.
Proof.
  intros Hh. unfold wanted. rewrite !list_elem_of_fmap. split; intros (t & E & Ht); exists t; (split; [|done]).
  - rewrite key_text in E. apply hop_text_inj; [done| |done]. by eapply Forall_forall in Hclean.
  - by rewrite key_text, E.
Qed.

Lemma existing_item routes x : clean_rows routes ->
  x ∈ static_item <$> (rows_where (route_filter None None "" vendor_ids) routes).*2 <->
  exists u r, routes !! u = Some r /\ managed r /\ clean_hop (hop_of_row r) /\ x = static_item r /\ hop_of x = hop_of_row r.
Proof.
  intros Hc. rewrite list_elem_of_fmap. setoid_rewrite list_elem_of_fmap. split.
  - intros (r & -> & ([u r'] & -> & [Hr Hm]%rows_where_elem)). cbn in *. unfold route_filter in Hm. rewrite !andb_true_r in Hm. apply Build_managed in Hm.
    pose proof (Hc u r' Hr Hm) as Hh. exists u, r'. refine (conj Hr (conj Hm (conj Hh (conj eq_refl _)))). apply hop_of_item. by destruct Hh as (_ & Hp & _).
  - intros (u & r & Hr & Hm & _ & -> & _). exists r. split; [done|]. exists (u, r). split; [done|]. apply rows_where_elem. split; [done|].
    unfold route_filter. rewrite !andb_true_r. apply Hm.
Qed.

(** After the loop of deletions the managed routes are wanted ones. *)
Lemma unwanted_routes_deleted dels adds db : ready lrName lr db -> ecmp_rows (routes_at lr db) -> clean_rows (routes_at lr db) ->
  diffs getStaticRouteItemKey (static_item <$> (rows_where (route_filter None None "" vendor_ids) (routes_at lr db)).*2) targets dels adds ->
  exists s1, does (each (fun item => deleteStaticRouteFromVpc lrName (vr_RouteTable item) (vr_CIDR item) (vr_NextHopIP item) (vr_Policy item)) dels) lr s1.1 s1.2 db /\
    s1.2 = policies_at lr db /\ s1.1 ⊆ routes_at lr db /\ settled s1 /\
    forall u r, routes_at lr db !! u = Some r ->
      wanted (hop_of_row r) \/ (forall v m, routes_at lr db !! v = Some m -> managed m -> hop_of_row m <> hop_of_row r) -> s1.1 !! u = Some r.
Proof.
  intros Hd Her Hcr [Hdel Hgone _ _ _ _]. set (R := routes_at lr db) in *.
  assert (Hdels : forall x, x ∈ dels -> clean_hop (hop_of x) /\ ~ wanted (hop_of x) /\ exists u r, R !! u = Some r /\ managed r /\ hop_of x = hop_of_row r).
  { intros x [Hx Hk]%Hdel. apply existing_item in Hx as (u & r & Hr & Hm & Hc & -> & E); [|done]. rewrite key_text, E in Hk.
    rewrite E. split; [done|]. split; [by rewrite <-wanted_key|by exists u, r]. }
  destruct (delete_routes_does dels db Hd) as (s1 & D1 & (Ep1 & Hs1 & Hk1) & Hg1).
  { apply Forall_forall. intros x Hx. by apply Hdels. }
  exists s1. split; [done|]. split; [done|]. split; [done|]. split.
  - split; [|intros u r t Hr; apply (Her u); by eapply lookup_weaken]. intros u r Hr Hm. pose proof (lookup_weaken _ _ _ _ Hr Hs1) as Hr0. cbn in Hr0.
    apply dec_stable. intros Hw. pose proof (Hcr u r Hr0 Hm) as Hc. pose proof (hop_of_item r ltac:(by destruct Hc as (_ & Hp & _))) as Ei.
    destruct (Hgone (static_item r)) as (y & Hy & Ey).
    + apply existing_item; [done|]. by exists u, r.
    + by rewrite key_text, Ei, wanted_key.
    + apply (Hg1 y Hy u r Hr). rewrite !key_text, Ei in Ey. symmetry. apply hop_text_inj; [by apply Hdels|done|done].
  - intros u r Hr Hw. apply Hk1; [exact Hr|]. intros (x & E & Hx)%list_elem_of_fmap. destruct (Hdels x Hx) as (_ & Hn & v & m & Hm & Hmm & E').
    destruct Hw as [Hw|Hw]; [by rewrite E in Hw|]. apply (Hw v m Hm Hmm). congruence.
Qed.

Lemma reconcile_static_routes_does db : ready lrName lr db -> ecmp_targets -> ecmp_rows (routes_at lr db) -> clean_rows (routes_at lr db) ->
  exists routes', does (reconcile_static_routes lrName targets) lr routes' (policies_at lr db) db /\ reconciled (routes_at lr db) routes'.
Proof.
  intros Hd He Her Hcr. set (R := routes_at lr db) in *.
  destruct (diff_targets_ok getStaticRouteItemKey (static_item <$> (rows_where (route_filter None None "" vendor_ids) R).*2) targets)
    as (dels & adds & Ed & Hdiff).
  destruct (unwanted_routes_deleted dels adds db Hd Her Hcr Hdiff) as (s1 & (db1 & E1 & C1) & Ep1 & Hs1 & Hset1 & Hkeep1).
  destruct Hdiff as [_ _ Hadd Hall _ _]. pose proof (both_at_changed _ _ _ _ C1) as Es1.
  destruct (add_routes_does adds db1) as (s2 & D2 & [Hset2 _] & (Ep2 & Hk2 & Hn2) & Hh2); [by eapply ready_changed|done|by rewrite Es1|done|]. rewrite Es1 in *.
  exists s2.1. split.
  - eapply does_reading; [apply (list_routes lrName lr db (rd_router _ _ _ Hd))|]. fold R. unfold diffStaticRoute. rewrite Ed.
    rewrite <-Ep1, <-Ep2. by eapply does_then.
  - split; [|done| | |].
    + intros t Ht. destruct (Hall t Ht) as [Ha|Hx]; [by apply Hh2|]. apply list_elem_of_fmap in Hx as (x & Ex & Hx).
      apply existing_item in Hx as (u & r & Hr & Hm & Hc & -> & E); [|done]. rewrite !key_text, E in Ex.
      apply hop_text_inj in Ex; [|by eapply Forall_forall in Hclean|done]. exists u, r. split; [|done].
      assert (Hw : wanted (hop_of_row r)) by (rewrite <-Ex; apply list_elem_of_fmap; by exists t). auto.
    + auto.
    + auto.
    + intros u r Hr. destruct (Hn2 u r Hr) as [Hr1|Hr1]; [left|by right]. by eapply lookup_weaken.
Qed.

End StaticRoutes.

(** What the check of a specification lets through can be told apart by keys. *)
Lemma format_static_clean item t : format_static_route item = Ok t -> contains_char ":"%char (vr_RouteTable item) = false -> clean_hop (hop_of t).
Proof.
  unfold format_static_route. cbv zeta. intros Hf Ht. repeat (case_match; [done|]). injection Hf as <-. cbn. split; [done|]. split; [apply convertPolicy_known|].
  assert (Hc : all_chars (fun c => addr_char c || (code c =? 47)) (vr_CIDR item) = true /\ vr_CIDR item <> "").
  { destruct (contains_char "/"%char (vr_CIDR item)) eqn:Es; cbn in *.
    - apply ParseCIDR_chars. intros E. rewrite E in *. done.
    - destruct (ParseIP_chars (vr_CIDR item)) as [Ha Hne]; [done|]. split; [|done]. eapply all_chars_mono; [|exact Ha]. intros c Hc. by rewrite Hc. }
  destruct Hc as [Hc Hne]. split; [by eapply all_chars_not_contains; [|exact Hc]|]. split; [done|]. by apply ParseIP_chars.
Qed.

(** ** Keys of policies *)

Definition hop_char (c : ascii) : bool := addr_char c || (code c =? 44).

Definition known_action (action : string) : Prop :=
  action = LogicalRouterPolicyActionAllow \/ action = LogicalRouterPolicyActionDrop \/ action = LogicalRouterPolicyActionReroute.

(** The text of a next hop. *)
Definition clean_text (x : string) : Prop := x <> "" /\ all_chars addr_char x = true.

Definition policy_text (priority : Z) (mtch action : string) (hops : list string) : string :=
  Itoa priority +:+ ":" +:+ mtch +:+ ":" +:+ action +:+ ":" +:+ Join hops ",".

(** Where the actions are known and the next hops are addresses, the part of the
    key after the match can be told from the match, whatever its text. *)
Lemma action_cut m m' a a' h h' : known_action a -> known_action a' -> all_chars hop_char h = true -> all_chars hop_char h' = true ->
  m +:+ ":" +:+ a +:+ ":" +:+ h = m' +:+ ":" +:+ a' +:+ ":" +:+ h' -> m = m' /\ a = a' /\ h = h'.
Proof.
  assert (Hsplit : forall a, known_action a -> exists pre c post, hop_char c = false /\ all_chars hop_char post = true /\ all_chars (fun c => negb (code c =? 58)) pre = true /\
    (forall m h, m +:+ ":" +:+ a +:+ ":" +:+ h = (m +:+ String ":"%char pre) +:+ String c (post +:+ h)) /\
    (a = LogicalRouterPolicyActionAllow /\ pre = "allo" /\ c = "w"%char /\ post = ":" \/ a = LogicalRouterPolicyActionDrop /\ pre = "dro" /\ c = "p"%char /\ post = ":" \/
     a = LogicalRouterPolicyActionReroute /\ pre = "rerou" /\ c = "t"%char /\ post = "e:")).
  { intros x [->|[->| ->]].
    - exists "allo", "w"%char, ":". split_and!; [done..| |tauto]. intros. by rewrite app_str_assoc.
    - exists "dro", "p"%char, ":". split_and!; [done..| |tauto]. intros. by rewrite app_str_assoc.
    - exists "rerou", "t"%char, "e:". split_and!; [done..| |tauto]. intros. by rewrite app_str_assoc. }
  intros Ka Ka' Hh Hh' E. destruct (Hsplit a Ka) as (pre & c & post & Hc & Hp & Hpre & Ha & Ca). destruct (Hsplit a' Ka') as (pre' & c' & post' & Hc' & Hp' & Hpre' & Ha' & Ca').
  rewrite Ha, Ha' in E. apply (last_cut hop_char) in E as (Em & Ec & Eh); [|done|done|by rewrite all_chars_app, Hp, Hh|by rewrite all_chars_app, Hp', Hh'].
  apply (last_cut (fun c => negb (code c =? 58))) in Em as (-> & _ & Epre); [|done..]. split; [done|].
  destruct Ca as [(-> & -> & -> & ->)|[(-> & -> & -> & ->)|(-> & -> & -> & ->)]], Ca' as [(-> & -> & -> & ->)|[(-> & -> & -> & ->)|(-> & -> & -> & ->)]];
    try discriminate; cbn in Eh; by injection Eh.
Qed.

Lemma trim_left_clean s : all_chars (fun c => negb (is_space c)) s = true -> trim_left s = s.
Proof. destruct s as [|c s]; [done|]. cbn [all_chars trim_left]. rewrite andb_true_iff, negb_true_iff. by intros [-> _]. Qed.

Lemma trim_right_clean s : all_chars (fun c => negb (is_space c)) s = true -> trim_right s = s.
Proof.
  induction s as [|c s IH]; [done|]. cbn [all_chars trim_right]. rewrite andb_true_iff, negb_true_iff. intros [Hc Hs]. rewrite (IH Hs), Hc.
  by destruct s.
Qed.

Lemma clean_trim x : clean_text x -> TrimSpace x = x.
Proof.
  intros [_ Hx]. assert (Hs : all_chars (fun c => negb (is_space c)) x = true).
  { eapply all_chars_mono; [|exact Hx]. intros c. by destruct c as [[] [] [] [] [] [] [] []]. }
  unfold TrimSpace. by rewrite trim_left_clean, trim_right_clean.
Qed.

Lemma split_hops l : Forall clean_text l -> SplitTrimmed (Join l ",") "," = l.
Proof.
  intros Hl. destruct (decide (l = [])) as [->|Hne]; [done|]. unfold SplitTrimmed. change "," with (sep1 ","%char). rewrite Split_Join; [|done|].
  - assert (E : TrimSpace <$> l = l). { clear Hne. induction Hl as [|x l Hx _ IH]; cbn; [done|]. by rewrite clean_trim, IH. }
    rewrite E. apply filter_all. eapply Forall_impl; [exact Hl|]. by intros x [Hx _].
  - eapply Forall_impl; [exact Hl|]. intros x [_ Hx]. by eapply all_chars_not_contains; [|exact Hx].
Qed.

Lemma sort_clean l : Forall clean_text l -> Forall clean_text (sort_Strings l) /\ sort_Strings l ≡ₚ l.
Proof. intros Hl. assert (Hp : sort_Strings l ≡ₚ l) by apply merge_sort_Permutation. split; [by rewrite Hp|done]. Qed.

Lemma normalize_eq s : normalizePolicyRouteNextHops s = Join (sort_Strings (SplitTrimmed s ",")) ",".
Proof.
  unfold normalizePolicyRouteNextHops. case_bool_decide as E; [by subst|]. unfold SplitTrimmed. by destruct (filter _ _).
Qed.

(** The key of an item of the specification and that of a row. *)
Lemma key_of_item t : getPolicyRouteItemKey t = policy_text (vp_Priority t) (vp_Match t) (vp_Action t) (sort_Strings (SplitTrimmed (vp_NextHopIP t) ",")).
Proof. unfold getPolicyRouteItemKey, policy_text. by rewrite normalize_eq. Qed.

Lemma key_of_row q : lp_Nexthop q = None -> Forall clean_text (lp_Nexthops q) ->
  getPolicyRouteItemKey (policy_item q) = policy_text (lp_Priority q) (lp_Match q) (lp_Action q) (sort_Strings (sort_Strings (lp_Nexthops q))).
Proof.
  intros Hn Hl. assert (E : getLogicalPolicyNextHopKey q = Join (sort_Strings (lp_Nexthops q)) ",").
  { unfold getLogicalPolicyNextHopKey. rewrite Hn. destruct (lp_Nexthops q) as [|x l] eqn:El; [done|]. by rewrite normalize_eq, split_hops. }
  rewrite key_of_item. cbn [policy_item vp_Priority vp_Match vp_Action vp_NextHopIP]. rewrite E, split_hops by (by apply sort_clean). done.
Qed.

Lemma policy_text_inj p p' m m' a a' l l' : 0 <= p < 2 ^ 63 -> 0 <= p' < 2 ^ 63 -> known_action a -> known_action a' ->
  Forall clean_text l -> Forall clean_text l' -> policy_text p m a l = policy_text p' m' a' l' -> p = p' /\ m = m' /\ a = a' /\ l = l'.
Proof.
  intros Hp Hp' Ha Ha' Hl Hl' E. unfold policy_text in E.
  assert (Hchars : forall l, Forall clean_text l -> all_chars hop_char (Join l ",") = true).
  { intros k Hk. apply all_chars_Join; [done|]. eapply Forall_impl; [exact Hk|]. intros x [_ Hx]. eapply all_chars_mono; [|exact Hx].
    intros c Hc. unfold hop_char. by rewrite Hc. }
  assert (Hcolon : forall p, 0 <= p -> contains_char ":"%char (Itoa p) = false).
  { intros x Hx. destruct (Itoa_chars is_digit x) as [Hd _]; [apply is_digit_chr|done|]. by eapply all_chars_not_contains; [|exact Hd]. }
  apply first_cut in E as [Ep E]; [|apply Hcolon; lia..].
  assert (Epp : p = p') by (apply (f_equal Atoi) in Ep; rewrite !Atoi_Itoa in Ep by done; by injection Ep). subst p'.
  apply action_cut in E as (-> & -> & Eh); [|done|done|by apply Hchars|by apply Hchars]. split_and!; [done..|].
  rewrite <-(split_hops l), <-(split_hops l') by done. by rewrite Eh.
Qed.

(** ** Policies *)

(** A row whose texts the keys tell apart; only the column [nexthops] is used. *)
Definition clean_row (q : LogicalRouterPolicy) : Prop :=
  0 <= lp_Priority q < 2 ^ 63 /\ known_action (lp_Action q) /\ lp_Nexthop q = None /\ Forall clean_text (lp_Nexthops q).

Definition clean_target (t : VpcPolicyRoute) : Prop :=
  0 <= vp_Priority t < 2 ^ 63 /\ known_action (vp_Action t) /\ Forall clean_text (SplitTrimmed (vp_NextHopIP t) ",").

(** A row has the priority and match of [t], and does what [t] asks for. *)
Definition has_key_of (t : VpcPolicyRoute) (q : LogicalRouterPolicy) : Prop := policy_has_key (vp_Priority t) (vp_Match t) q = true.
Definition fulfils (t : VpcPolicyRoute) (q : LogicalRouterPolicy) : Prop := has_key_of t q /\ effect_of (vp_Action t) (policy_hops t) q.

Lemma policy_hops_eq t : policy_hops t = SplitTrimmed (vp_NextHopIP t) ",".
Proof. unfold policy_hops. case_bool_decide as E; [by rewrite E|done]. Qed.

Lemma policy_has_key_iff priority mtch q : policy_has_key priority mtch q = true <-> lp_Priority q = priority /\ lp_Match q = mtch.
Proof. unfold policy_has_key. rewrite andb_true_iff, Z.eqb_eq, bool_decide_eq_true. done. Qed.

Lemma effect_iff action hops q : effect_of action hops q <->
  lp_Action q = action /\ (action = LogicalRouterPolicyActionReroute -> list_to_set (C := gset string) hops = list_to_set (lp_Nexthops q)).
Proof.
  unfold effect_of, same_effect. rewrite andb_true_iff, orb_true_iff, negb_true_iff, !bool_decide_eq_true, bool_decide_eq_false.
  split.
  - intros [E H]. split; [done|]. intros Hr. destruct H as [H|H]; [congruence|done].
  - intros [E H]. split; [done|]. destruct (decide (lp_Action q = LogicalRouterPolicyActionReroute)) as [Hr|Hr]; [right|by left]. apply H. congruence.
Qed.

(** Equal keys: the row is what the item asks for. *)
Lemma equal_keys q t : clean_row q -> clean_target t -> getPolicyRouteItemKey (policy_item q) = getPolicyRouteItemKey t -> fulfils t q.
Proof.
  intros (Hp & Ha & Hn & Hl) (Hp' & Ha' & Hl') E. rewrite key_of_row, key_of_item in E by done.
  destruct (sort_clean _ Hl) as [Hs Es]. destruct (sort_clean _ Hs) as [Hss Ess]. destruct (sort_clean _ Hl') as [Hs' Es'].
  apply policy_text_inj in E as (E1 & E2 & E3 & E4); [|done..]. split; [by apply policy_has_key_iff|]. apply effect_iff. split; [done|]. intros _.
  rewrite policy_hops_eq, <-Es', <-E4, Ess, Es. done.
Qed.

Lemma rows_equal_keys q q' : clean_row q -> clean_row q' -> getPolicyRouteItemKey (policy_item q) = getPolicyRouteItemKey (policy_item q') ->
  lp_Priority q = lp_Priority q' /\ lp_Match q = lp_Match q'.
Proof.
  intros (Hp & Ha & Hn & Hl) (Hp' & Ha' & Hn' & Hl') E. rewrite !key_of_row in E by done.
  destruct (sort_clean _ Hl) as [Hs _]. destruct (sort_clean _ Hs) as [Hss _]. destruct (sort_clean _ Hl') as [Hs' _]. destruct (sort_clean _ Hs') as [Hss' _].
  apply policy_text_inj in E as (E1 & E2 & _); done.
Qed.

Section PolicyRoutes.
Context (lrName : string) (lr : N) (targets : list VpcPolicyRoute) (Hname : lrName <> "").

(** One policy for a priority and a match, as [AddLogicalRouterPolicy] leaves it. *)
Definition one_per_key (rows : gmap N LogicalRouterPolicy) : Prop :=
  forall u v q q', rows !! u = Some q -> rows !! v = Some q' -> lp_Priority q = lp_Priority q' -> lp_Match q = lp_Match q' -> u = v.

(** Items with one priority and match ask for the same. *)
Definition consistent : Prop :=
  forall t t' q, t ∈ targets -> t' ∈ targets -> has_key_of t q -> fulfils t' q -> fulfils t q.

(** Policies of other controllers have other priorities or matches. *)
Definition apart (rows : gmap N LogicalRouterPolicy) : Prop :=
  forall u q t, rows !! u = Some q -> owned_elsewhere q = true -> t ∈ targets -> ~ has_key_of t q.

Definition same_but_ids (q q' : LogicalRouterPolicy) : Prop := set_lp_external ∅ q = set_lp_external ∅ q'.

Lemma same_but_ids_set ids q : same_but_ids q (set_lp_external ids q).
Proof. done. Qed.

Lemma same_but_ids_fulfils t q q' : same_but_ids q q' -> fulfils t q -> fulfils t q'.
Proof.
  intros E [Hk He]. unfold same_but_ids, set_lp_external in E. injection E as E1 E2 E3 E4 E5 E6. split.
  - unfold has_key_of in *. rewrite policy_has_key_iff in *. by rewrite <-E3, <-E6.
  - rewrite effect_iff in *. by rewrite <-E1, <-E5.
Qed.

(** Deleting by priority and match. *)
Definition keeps_others (dels : list VpcPolicyRoute) (s s' : both) : Prop :=
  s'.1 = s.1 /\ s'.2 ⊆ s.2 /\ forall u q, s.2 !! u = Some q -> (forall item, item ∈ dels -> ~ has_key_of item q) -> s'.2 !! u = Some q.

Lemma delete_policies_does dels db : ready lrName lr db ->
  exists s', does (each (fun item => DeleteLogicalRouterPolicy lrName (vp_Priority item) (vp_Match item)) dels) lr s'.1 s'.2 db /\
    keeps_others dels (both_at lr db) s' /\ forall item, item ∈ dels -> forall u q, s'.2 !! u = Some q -> ~ has_key_of item q.
Proof.
  intros Hd. destruct (each_achieves lrName lr (fun item => DeleteLogicalRouterPolicy lrName (vp_Priority item) (vp_Match item))
    (fun _ => True) (keeps_others dels) (fun item s => forall u q, s.2 !! u = Some q -> ~ has_key_of item q)) with (l := dels) (db := db)
    as (s' & D & _ & K & X); [by intros s; unfold keeps_others; auto| | |done|done| |by exists s'].
  - intros s1 s2 s3 (E1 & S1 & K1) (E2 & S2 & K2). split_and!; [congruence|by etrans|auto].
  - intros x s s' _ _ Hx (_ & Hs & _) u q Hq. eapply Hx, lookup_weaken; [exact Hq|exact Hs].
  - intros x d Hx [Hlr Hok Ha] _. eexists (_, _). split_and!; [by apply (DeleteLogicalRouterPolicy_does lrName lr)|done| |].
    + split_and!; [done|apply map_filter_subseteq|]. intros u q Hq Hn. apply map_lookup_filter_Some. split; [exact Hq|]. by apply Hn.
    + intros u q Hq. by apply map_lookup_filter_Some in Hq as [_ Hq].
Qed.

(** What holds while policies are added. *)
Record adding (s : both) : Prop := {
  ad_one : one_per_key s.2;
  ad_apart : apart s.2;
  ad_only : forall u q, s.2 !! u = Some q -> owned_elsewhere q = false -> exists t, t ∈ targets /\ has_key_of t q
}.

Definition keeps_fulfilled (s s' : both) : Prop :=
  s'.1 = s.1 /\
  (forall u q, s.2 !! u = Some q -> (forall t, t ∈ targets -> ~ has_key_of t q) -> s'.2 !! u = Some q) /\
  (forall u q t, s.2 !! u = Some q -> t ∈ targets -> fulfils t q -> exists q', s'.2 !! u = Some q' /\ same_but_ids q q').

Definition has_policy (t : VpcPolicyRoute) (s : both) : Prop := t ∈ targets /\ exists u q, s.2 !! u = Some q /\ fulfils t q.

Lemma add_policy_step t db : ready lrName lr db -> consistent -> adding (both_at lr db) -> t ∈ targets ->
  exists s', does (addPolicyRouteToVpc lrName t vendor_ids) lr s'.1 s'.2 db /\ adding s' /\ keeps_fulfilled (both_at lr db) s' /\ has_policy t s'.
Proof.
  intros [Hlr Hok Ha] Hcons [H1 Hap Honly] Ht. set (p := mkPolicy (vp_Action t) [] vendor_ids (vp_Match t) None (policy_hops t) (vp_Priority t)).
  destruct (AddLogicalRouterPolicy_does lrName lr p db Hlr Hok Ha) as (rows' & D & (u0 & q0 & Hu & He & Hids & Hq) & Ho). set (rows := policies_at lr db) in *.
  assert (Hother : forall v x, ~ has_key_of t x -> rows' !! v = Some x <-> rows !! v = Some x).
  { intros v x Hn. apply Ho. rewrite Forall_singleton. by apply not_true_iff_false. }
  assert (Hmine : forall v x, rows' !! v = Some x -> has_key_of t x -> v = u0 /\ x = q0) by (intros v x Hv Hk; by apply Hu).
  destruct (proj2 (Hu u0 q0) (conj eq_refl eq_refl)) as [Hu0 Hk0]. fold (has_key_of t q0) in Hk0.
  assert (Hown : owned_elsewhere q0 = false) by (unfold owned_elsewhere; by rewrite Hids).
  exists (routes_at lr db, rows'). split; [exact D|]. split_and!; cbn.
  - split; cbn.
    + intros u v q q' Hx Hy E1 E2. destruct (decide (policy_has_key (vp_Priority t) (vp_Match t) q = true)) as [Hk|Hk].
      * assert (Hk' : has_key_of t q') by (unfold has_key_of; rewrite policy_has_key_iff in Hk |- *; by rewrite <-E1, <-E2).
        destruct (Hmine u q Hx Hk) as [-> _], (Hmine v q' Hy Hk') as [-> _]. done.
      * assert (Hk' : ~ has_key_of t q') by (unfold has_key_of; rewrite policy_has_key_iff in Hk |- *; by rewrite <-E1, <-E2).
        apply Hother in Hx; [|done]. apply Hother in Hy; [|done]. by eapply H1.
    + intros v x s Hx Hox Hs Hk. destruct (decide (policy_has_key (vp_Priority t) (vp_Match t) x = true)) as [Hkt|Hkt].
      * destruct (Hmine v x Hx Hkt) as [_ ->]. congruence.
      * apply Hother in Hx; [|done]. by eapply Hap.
    + intros v x Hx Hox. destruct (decide (policy_has_key (vp_Priority t) (vp_Match t) x = true)) as [Hkt|Hkt]; [by exists t|].
      apply Hother in Hx; [|done]. by eapply Honly.
  - split_and!; [done| |].
    + intros u q Hx Hn. apply Hother; [by apply Hn|done].
    + intros u q s Hx Hs Hf. destruct (decide (policy_has_key (vp_Priority t) (vp_Match t) q = true)) as [Hkt|Hkt].
      * destruct Hq as [[_ Hnone]|(q1 & Hq1 & ->)].
        -- destruct (Hnone u q Hx Hkt). by apply (Hcons t s q Ht Hs Hkt Hf).
        -- assert (u = u0) as ->; [|change (rows !! u0 = Some q) in Hx; rewrite Hq1 in Hx; injection Hx as ->; eauto using same_but_ids_set].
           unfold has_key_of in Hk0. rewrite has_key_external in Hk0. rewrite policy_has_key_iff in Hkt, Hk0. destruct Hkt as [E1 E2], Hk0 as [E3 E4].
           eapply (H1 u u0 q q1); [done|done|by rewrite E1, E3|by rewrite E2, E4].
      * exists q. split; [by apply Hother|done].
  - split; [done|]. by exists u0, q0.
Qed.

Lemma add_policies_does adds db : ready lrName lr db -> consistent -> adding (both_at lr db) -> (forall t, t ∈ adds -> t ∈ targets) ->
  exists s', does (each (fun item => addPolicyRouteToVpc lrName item vendor_ids) adds) lr s'.1 s'.2 db /\
    adding s' /\ keeps_fulfilled (both_at lr db) s' /\ forall t, t ∈ adds -> has_policy t s'.
Proof.
  intros Hd Hc Hs Hin. apply each_achieves with (lrName := lrName); [| | |done|done|].
  - intros s. split_and!; [done|auto|]. intros u q t Hq _ _. by exists q.
  - intros s1 s2 s3 (E1 & K1 & F1) (E2 & K2 & F2). split_and!; [congruence|auto|]. intros u q t Hq Ht Hf.
    destruct (F1 u q t Hq Ht Hf) as (q' & Hq' & E'). destruct (F2 u q' t Hq' Ht) as (q'' & Hq'' & E''); [by eapply same_but_ids_fulfils|].
    exists q''. split; [done|]. unfold same_but_ids in *. congruence.
  - intros t s s' _ _ [Ht (u & q & Hq & Hf)] (_ & _ & F). split; [done|]. destruct (F u q t Hq Ht Hf) as (q' & Hq' & E). exists u, q'.
    split; [done|]. by eapply same_but_ids_fulfils.
  - intros t d Ht Hdd HJ. apply add_policy_step; auto.
Qed.

(** The policies before and after: for every item of the specification exactly one
    row has its priority and match, and does what it asks for; a row no other
    controller owns is that of an item; rows that were wanted stay, but for their
    external ids, and so do the rows of other controllers. *)
Record policies_reconciled (rows rows' : gmap N LogicalRouterPolicy) : Prop := {
  pr_present : forall t, t ∈ targets -> exists u q, (forall v x, rows' !! v = Some x /\ has_key_of t x <-> v = u /\ x = q) /\ fulfils t q;
  pr_only : forall u q, rows' !! u = Some q -> owned_elsewhere q = false -> exists t, t ∈ targets /\ has_key_of t q;
  pr_kept : forall u q, rows !! u = Some q -> owned_elsewhere q = false -> getPolicyRouteItemKey (policy_item q) ∈ getPolicyRouteItemKey <$> targets ->
    exists q', rows' !! u = Some q' /\ same_but_ids q q';
  pr_owned : forall u q, rows !! u = Some q -> owned_elsewhere q = true -> rows' !! u = Some q
}.

Definition clean_own_rows (rows : gmap N LogicalRouterPolicy) : Prop := forall u q, rows !! u = Some q -> owned_elsewhere q = false -> clean_row q.

Lemma own_items rows x :
  x ∈ policy_item <$> filter (fun item => owned_elsewhere item = false) (rows_where (policyFilter (-1) ∅ true) rows).*2 <->
  exists u q, rows !! u = Some q /\ owned_elsewhere q = false /\ x = policy_item q.
Proof.
  rewrite list_elem_of_fmap. setoid_rewrite list_elem_of_filter. setoid_rewrite list_elem_of_fmap. split.
  - intros (q & -> & Ho & ([u q'] & -> & [Hq _]%rows_where_elem)). by exists u, q'.
  - intros (u & q & Hq & Ho & ->). exists q. split_and!; [done..|]. exists (u, q). split; [done|]. apply rows_where_elem. split; [done|].
    unfold policyFilter. rewrite map_size_empty, map_to_list_empty. cbn. by rewrite orb_true_r.
Qed.

(** The key of a policy is that of an item. *)
Definition key_wanted (q : LogicalRouterPolicy) : Prop := getPolicyRouteItemKey (policy_item q) ∈ getPolicyRouteItemKey <$> targets.

Lemma wanted_fulfils q t : Forall clean_target targets -> clean_row q -> t ∈ targets -> getPolicyRouteItemKey (policy_item q) = getPolicyRouteItemKey t -> fulfils t q.
Proof. intros Hct Hq Ht E. apply equal_keys; [done| |done]. by eapply Forall_forall in Hct. Qed.

(** After the loop of deletions every policy no other controller owns has the key
    of an item. *)
Lemma unwanted_policies_deleted dels adds db : ready lrName lr db -> Forall clean_target targets ->
  one_per_key (policies_at lr db) -> apart (policies_at lr db) -> clean_own_rows (policies_at lr db) ->
  diffs getPolicyRouteItemKey (policy_item <$> filter (fun item => owned_elsewhere item = false) (rows_where (policyFilter (-1) ∅ true) (policies_at lr db)).*2)
    targets dels adds ->
  exists s1, does (each (fun item => DeleteLogicalRouterPolicy lrName (vp_Priority item) (vp_Match item)) dels) lr s1.1 s1.2 db /\
    s1.1 = routes_at lr db /\ adding s1 /\
    forall u q, policies_at lr db !! u = Some q -> owned_elsewhere q = true \/ key_wanted q -> s1.2 !! u = Some q.
Proof.
  intros Hd Hct H1 Hap Hcl [Hdel Hgone _ _ _ _]. set (R := policies_at lr db) in *.
  destruct (delete_policies_does dels db Hd) as (s1 & D1 & (Ep1 & Hs1 & Hk1) & Hg1). exists s1. split; [done|]. split; [done|]. split.
  - split; [intros u v q q' Hq Hq'; eapply H1; by eapply lookup_weaken|intros u q t Hq; eapply Hap; by eapply lookup_weaken|].
    intros u q Hq Ho. pose proof (lookup_weaken _ _ _ _ Hq Hs1) as Hq0. cbn in Hq0. assert (Hcq : clean_row q) by (by eapply Hcl).
    destruct (decide (getPolicyRouteItemKey (policy_item q) ∈ getPolicyRouteItemKey <$> targets)) as [(t & E & Ht)%list_elem_of_fmap|Hk].
    + exists t. split; [done|]. by apply wanted_fulfils.
    + exfalso. destruct (Hgone (policy_item q)) as (y & Hy & Ey); [apply own_items; by exists u, q|done|].
      pose proof (Hdel y Hy) as [Hy' _]. apply own_items in Hy' as (v & r & Hr & Hor & ->).
      apply rows_equal_keys in Ey as [Ea Eb]; [|by eapply Hcl|done]. apply (Hg1 _ Hy u q Hq). unfold has_key_of. by apply policy_has_key_iff.
  - intros u q Hq Hw. apply Hk1; [done|]. intros x [Hx Hk]%Hdel Hkey. apply own_items in Hx as (v & r & Hr & Ho & ->).
    unfold has_key_of in Hkey. rewrite policy_has_key_iff in Hkey. cbn in Hkey. destruct Hkey as [E1 E2].
    assert (v = u) as -> by (by eapply H1). change (R !! u = Some q) in Hq. rewrite Hr in Hq. injection Hq as ->. destruct Hw; [congruence|done].
Qed.

Lemma reconcile_policy_routes_does db : ready lrName lr db -> consistent -> Forall clean_target targets ->
  one_per_key (policies_at lr db) -> apart (policies_at lr db) -> clean_own_rows (policies_at lr db) ->
  exists rows', does (reconcile_policy_routes lrName None targets) lr (routes_at lr db) rows' db /\ policies_reconciled (policies_at lr db) rows'.
Proof.
  intros Hd Hcons Hct H1 Hap Hcl. set (R := policies_at lr db) in *.
  destruct (diff_targets_ok getPolicyRouteItemKey (policy_item <$> filter (fun item => owned_elsewhere item = false) (rows_where (policyFilter (-1) ∅ true) R).*2) targets)
    as (dels & adds & Ed & Hdiff).
  destruct (unwanted_policies_deleted dels adds db Hd Hct H1 Hap Hcl Hdiff) as (s1 & (db1 & E1 & C1) & Ep1 & Had1 & Hkeep1).
  destruct Hdiff as [_ _ Hadd Hall _ _]. pose proof (both_at_changed _ _ _ _ C1) as Es1.
  destruct (add_policies_does adds db1) as (s2 & D2 & [Ho2 Ha2 Hn2] & (Ep2 & Hk2 & Hf2) & Hh2); [by eapply ready_changed|done|by rewrite Es1|done|].
  rewrite Es1 in *.
  assert (Hkeep : forall u q t, R !! u = Some q -> owned_elsewhere q = false -> t ∈ targets -> getPolicyRouteItemKey (policy_item q) = getPolicyRouteItemKey t ->
    fulfils t q /\ exists q', s2.2 !! u = Some q' /\ same_but_ids q q').
  { intros u q t Hq Ho Ht E. assert (Hf : fulfils t q) by (apply wanted_fulfils; [done|by eapply Hcl|done|done]). split; [done|].
    apply (Hf2 u q t); [|done|done]. apply Hkeep1; [done|]. right. unfold key_wanted. rewrite E. apply list_elem_of_fmap. by exists t. }
  assert (Hpresent : forall t, t ∈ targets -> exists u q, s2.2 !! u = Some q /\ fulfils t q).
  { intros t Ht. destruct (Hall t Ht) as [Ha|Hx]; [by destruct (Hh2 t Ha) as [_ ?]|]. apply list_elem_of_fmap in Hx as (x & Ex & Hx).
    apply own_items in Hx as (u & q & Hq & Ho & ->). destruct (Hkeep u q t Hq Ho Ht) as (Hf & q' & Hq' & E'); [done|].
    exists u, q'. split; [done|]. by eapply same_but_ids_fulfils. }
  exists s2.2. split.
  - unfold reconcile_policy_routes. rewrite <-Ep1, <-Ep2. destruct (does_then _ _ _ _ _ _ _ E1 C1 D2) as (db2 & E2 & C2). exists db2. split; [|done].
    rewrite <-E2. rewrite (lbind_done _ _ db (dels, adds) db); [done|]. rewrite (lbind_done _ _ db (rows_where (policyFilter (-1) ∅ true) R) db).
    + unfold diffPolicyRouteWithLogical. by rewrite Ed.
    + apply lr_reading_done. unfold ListLogicalRouterPolicies. apply list_policies, Hd.
  - split; [|done| |].
    + intros t Ht. destruct (Hpresent t Ht) as (u & q & Hq & Hf). exists u, q. split; [|done]. intros v x. split; [|intros [-> ->]; split; [done|apply Hf]].
      intros [Hx Hkx]. assert (v = u) as ->; [|split; [done|congruence]]. destruct Hf as [Hkq _]. unfold has_key_of in *. rewrite policy_has_key_iff in Hkx, Hkq.
      destruct Hkx, Hkq. eapply (Ho2 v u x q); [done|done|congruence|congruence].
    + intros u q Hq Ho (t & E & Ht)%list_elem_of_fmap. by apply (Hkeep u q t).
    + intros u q Hq Ho. apply Hk2; [|intros t Ht; by eapply Hap]. apply Hkeep1; [done|by left].
Qed.

End PolicyRoutes.

(** ** From the check of a specification *)

Lemma collect_Forall2 {A B} (f : A -> result B) l l' : collect f l = Ok l' -> Forall2 (fun x y => f x = Ok y) l l'.
Proof.
  revert l'. induction l as [|x l IH]; intros l'; cbn; [by intros [= <-]|]. destruct (f x) as [y|] eqn:Ey; [|done]. cbn.
  destruct (collect f l) as [ys|]; [|done]. cbn. intros [= <-]. constructor; auto.
Qed.

Lemma format_policy_clean route t : format_policy_route route = Ok t -> known_action (vp_Action route) -> 0 <= vp_Priority route < 2 ^ 63 -> clean_target t.
Proof.
  unfold format_policy_route. case_bool_decide as Er; cbn [negb]; intros Hf Ha Hp; [|injection Hf as <-; split; [done|]; split; [done|]; change (Forall clean_text []); constructor].
  destruct (forallb _ _) eqn:Es; [|done]. injection Hf as <-. split; [done|]. split; [done|]. rewrite forallb_forall in Es. unfold SplitTrimmed.
  apply Forall_forall. intros x [Hx (y & -> & Hy)%list_elem_of_fmap]%list_elem_of_filter.
  assert (Hc : clean_text y).
  { apply list_elem_of_In, Es in Hy. rewrite negb_true_iff in Hy. destruct (ParseIP_chars y Hy) as [Hc Hne]. done. }
  by rewrite clean_trim.
Qed.

(** The routes and policies of a specification that was checked, whose tables have
    no colon and whose policies have a known action and a priority that fits. *)
Lemma format_clean srs prs statics policies : formatVpc srs prs = Ok (statics, policies) ->
  Forall (fun r => contains_char ":"%char (vr_RouteTable r) = false) srs ->
  Forall (fun r => known_action (vp_Action r) /\ 0 <= vp_Priority r < 2 ^ 63) prs ->
  Forall (fun t => clean_hop (hop_of t)) statics /\ Forall clean_target policies.
Proof.
  unfold formatVpc. destruct (collect format_static_route srs) as [ss|] eqn:Es; [|done]. cbn. destruct (collect format_policy_route prs) as [pp|] eqn:Ep; [|done].
  intros [= -> ->] Hs Hp. apply collect_Forall2 in Es, Ep. split.
  - apply Forall_forall. intros t [i Ht]%list_elem_of_lookup. destruct (Forall2_lookup_r _ _ _ _ _ Es Ht) as (x & Hx & Hf).
    eapply format_static_clean; [exact Hf|]. by eapply Forall_lookup_1 in Hs.
  - apply Forall_forall. intros t [i Ht]%list_elem_of_lookup. destruct (Forall2_lookup_r _ _ _ _ _ Ep Ht) as (x & Hx & Hf).
    eapply Forall_lookup_1 in Hp as [Ha Hb]; [|exact Hx]. by eapply format_policy_clean.
Qed.

(** ** One router *)

(** The rows of a database with one router, when they are told to be in order. *)
Lemma one_router_ok {A} n lr (s : gset N) (rows : gmap N A) : forallb (fun u => N.ltb u n) (elements s ++ (map_to_list rows).*1) = true -> children_ok n (mkCh {[lr := s]} rows).
Proof.
  rewrite forallb_app, andb_true_iff, !forallb_forall. intros [Hs Hr]. assert (Hone : forall lr' u, u ∈ refs_of lr' (mkCh {[lr := s]} rows) -> lr' = lr /\ u ∈ s).
  { intros lr' u. unfold refs_of. cbn. destruct (decide (lr' = lr)) as [->|Hne]; [by rewrite lookup_singleton_eq|]. rewrite lookup_singleton_ne by done. cbn. set_solver. }
  split.
  - intros lr' u [_ Hu]%Hone. apply N.ltb_lt, Hs. by apply list_elem_of_In, elem_of_elements.
  - intros u x Hx. apply N.ltb_lt, Hr. apply list_elem_of_In, list_elem_of_fmap. exists (u, x). split; [done|]. by apply elem_of_map_to_list.
  - intros lr1 lr2 u [-> _]%Hone [-> _]%Hone. done.
Qed.
