(* ===== verification/PolicyAcl.v ===== *)
(** * Access control lists of network policies ([pkg/ovs/ovn-nb-acl.go])

    The matches built for the rules of network policies, admin and cluster
    network policies, and the ACLs and operations made of them. *)
From Stdlib Require Import Ascii.
From S2P Require Import Prelude GoStrings GoNet UtilNet GoText AclMatch NbDb NbAcl.

Local Open Scope Z_scope.

Definition IngressAllowPriority : string := "2001".
Definition IngressDefaultDrop : string := "2000".
Definition EgressAllowPriority : string := "2001".
Definition EgressDefaultDrop : string := "2000".

(** ** Ports of a rule *)

Inductive IntOrString := IntVal (n : Z) | StrVal (s : string).

(** The pointers of the API type; [Protocol] is read without a check. *)
Record NetworkPolicyPort := mkPolicyPort {
  np_Protocol : option string;
  np_Port : option IntOrString;
  np_EndPort : option Z
}.

Record IPBlock := mkIPBlock { CIDR : string; Except : list string }.

(** The ports of admin and cluster network policies: protocol and number, or
    protocol and range. *)
Record PolicyPort := mkRulePort { PortNumber : option (string * Z); PortRange : option (string * Z * Z) }.

(** ** Keys *)

Definition ip_suffix (protocol : string) : string := if bool_decide (protocol = ProtocolIPv6) then "ip6" else "ip4".
Definition src_or_dst (direction : string) : string :=
  if bool_decide (direction = ACLDirectionFromLport) then "dst" else "src".
Definition port_direction (direction : string) : string :=
  if bool_decide (direction = ACLDirectionFromLport) then "inport" else "outport".

(** Traffic to or from the port group. *)
Definition all_ip_match (pgName direction ip : string) : ACLMatch :=
  NewAndACLMatch [NewACLMatch (port_direction direction) "==" ("@" +:+ pgName) ""; NewACLMatch ip "" "" ""].

(** ** Network policies *)

(** One round of the loops over the ports. *)
Definition port_matches (named : gmap string Z) (allowed : ACLMatch) (port : NetworkPolicyPort) : outcome (list ACLMatch) :=
  p ← of_option (np_Protocol port);
  let protocol := ToLower p in
  let one portID := [NewAndACLMatch [allowed; NewACLMatch (protocol +:+ ".dst") "==" (Itoa portID) ""]] in
  Done match np_Port port with
       | None => [NewAndACLMatch [allowed; NewACLMatch protocol "" "" ""]]
       | Some x =>
           match np_EndPort port, x with
           | None, IntVal n => one n
           | None, StrVal name => match named !! name with Some portID => one portID | None => [] end
           | Some _, StrVal _ => []
           | Some e, IntVal n =>
               [NewAndACLMatch [allowed; NewACLMatch (protocol +:+ ".dst") "<=" (Itoa n) (Itoa e)]]
           end
       end.

Fixpoint ports_matches (named : gmap string Z) (allowed : ACLMatch) (npp : list NetworkPolicyPort) : outcome (list ACLMatch) :=
  match npp with
  | [] => Done []
  | port :: npp' => ms ← port_matches named allowed port; ms' ← ports_matches named allowed npp'; Done (ms ++ ms')
  end.

(** No port means every port. *)
Definition rule_matches (named : gmap string Z) (allowed : ACLMatch) (npp : list NetworkPolicyPort) : outcome (list ACLMatch) :=
  match npp with [] => Done [allowed] | _ => ports_matches named allowed npp end.

Definition policy_matches (pgName asAllowName asExceptName protocol direction : string) (npp : list NetworkPolicyPort)
    (named : gmap string Z) : outcome (list ACLMatch) :=
  let ipKey := ip_suffix protocol +:+ "." +:+ src_or_dst direction in
  let allowedIPMatch := NewAndACLMatch
    [ all_ip_match pgName direction "ip";
      NewACLMatch ipKey "==" ("$" +:+ asAllowName) "";
      NewACLMatch ipKey "!=" ("$" +:+ asExceptName) "" ] in
  rule_matches named allowedIPMatch npp.

(** The calls of [String]. *)
Definition Strings (ms : list ACLMatch) : list string := ACLMatch_String <$> ms.

Definition newNetworkPolicyACLMatch (pgName asAllowName asExceptName protocol direction : string)
    (npp : list NetworkPolicyPort) (named : gmap string Z) : outcome (list string) :=
  ms ← policy_matches pgName asAllowName asExceptName protocol direction npp named; Done (Strings ms).

(** The exceptions of a block that count. *)
Definition block_excepts (protocol : string) (block : IPBlock) : list string :=
  filter (fun e => CheckProtocol e = protocol /\ CIDRContainsCIDR (CIDR block) e = Ok true) (Except block).

Definition block_match (protocol ipKey : string) (block : IPBlock) : list ACLMatch :=
  if negb (bool_decide (CheckProtocol (CIDR block) = protocol)) then []
  else
    let cidrMatch := NewACLMatch ipKey "==" (CIDR block) "" in
    match block_excepts protocol block with
    | [] => [cidrMatch]
    | es => [NewAndACLMatch [cidrMatch; NewACLMatch ipKey "!=" ("{" +:+ Join es ", " +:+ "}") ""]]
    end.

Definition ip_block_matches (pgName protocol direction : string) (ipBlocks : list IPBlock) (npp : list NetworkPolicyPort)
    (named : gmap string Z) : outcome (list ACLMatch) :=
  let ipKey := ip_suffix protocol +:+ "." +:+ src_or_dst direction in
  match ipBlocks ≫= block_match protocol ipKey with
  | [] => Done []
  | m :: ms =>
      let l3 := match ms with [] => m | _ => NewOrACLMatch (m :: ms) end in
      rule_matches named (NewAndACLMatch [all_ip_match pgName direction "ip"; NewGroupACLMatch l3]) npp
  end.

Definition newIPBlockACLMatch (pgName protocol direction : string) (ipBlocks : list IPBlock)
    (npp : list NetworkPolicyPort) (named : gmap string Z) : outcome (list string) :=
  ms ← ip_block_matches pgName protocol direction ipBlocks npp named; Done (Strings ms).

(** ** Admin and cluster network policies *)

Definition rule_port_match (selected : ACLMatch) (port : PolicyPort) : list ACLMatch :=
  match PortNumber port, PortRange port with
  | Some (protocol, n), _ => [NewAndACLMatch [selected; NewACLMatch (ToLower protocol +:+ ".dst") "==" (Itoa n) ""]]
  | None, Some (protocol, start, end_) =>
      [NewAndACLMatch [selected; NewACLMatch (ToLower protocol +:+ ".dst") "<=" (Itoa start) (Itoa end_)]]
  | None, None => []
  end.

Definition admin_matches (pgName asName protocol direction : string) (rulePorts : list PolicyPort) : list ACLMatch :=
  let ipKey := ip_suffix protocol +:+ "." +:+ src_or_dst direction in
  let selectIPMatch := NewAndACLMatch [all_ip_match pgName direction "ip"; NewACLMatch ipKey "==" ("$" +:+ asName) ""] in
  match rulePorts with [] => [selectIPMatch] | _ => rulePorts ≫= rule_port_match selectIPMatch end.

Definition newAnpACLMatch (pgName asName protocol direction : string) (rulePorts : list PolicyPort) : list string :=
  Strings (admin_matches pgName asName protocol direction rulePorts).

Definition newCnpACLMatch (pgName asName protocol direction : string) (rulePorts : list PolicyPort) : list string :=
  Strings (admin_matches pgName asName protocol direction rulePorts).

(** ** The ACLs of a network policy *)

Definition egress (direction : string) : bool := bool_decide (direction = ACLDirectionFromLport).

Definition default_block_match (pgName direction : string) (lax : bool) : ACLMatch :=
  NewAndACLMatch [NewACLMatch (port_direction direction) "==" ("@" +:+ pgName) "";
                  NewACLMatch (if lax then "(tcp || udp || sctp)" else "ip") "" "" ""].

Definition meter_name (pgName direction : string) : string := pgName +:+ "_" +:+ direction +:+ "_meter".

Definition default_block_acl (npName pgName direction : string) (loggingEnabled lax : bool) (logRate : Z) : result ACL :=
  newACLWithoutCheck pgName direction (if egress direction then EgressDefaultDrop else IngressDefaultDrop)
    (ACLMatch_String (default_block_match pgName direction lax)) ACLActionDrop NetpolACLTier
    (fun acl =>
       let acl := setACLName npName acl in
       let acl := if loggingEnabled
                  then set_log true (Some "warning") (if 0 <? logRate then Some (meter_name pgName direction) else None) acl
                  else acl in
       if egress direction then after_lb acl else acl).

(** DHCP of both families, by the ports of the requests to the workload; a
    failed ACL is left out. *)
Definition dhcp_match (pgName direction src dst ip : string) : ACLMatch :=
  let '(src, dst) := if egress direction then (dst, src) else (src, dst) in
  NewAndACLMatch [NewACLMatch (port_direction direction) "==" ("@" +:+ pgName) ""; NewACLMatch "udp.src" "==" src "";
                  NewACLMatch "udp.dst" "==" dst ""; NewACLMatch ip "" "" ""].

Definition exception_acls (npName pgName direction : string) : list ACL :=
  m ← [dhcp_match pgName direction "547" "546" "ip6"; dhcp_match pgName direction "67" "68" "ip4"];
  match newACLWithoutCheck pgName direction (if egress direction then EgressAllowPriority else IngressAllowPriority)
          (ACLMatch_String m) ACLActionAllowRelated NetpolACLTier
          (fun acl => let acl := setACLName npName acl in if egress direction then after_lb acl else acl) with
  | Ok acl => [acl]
  | Err _ => []
  end.

(** The options of the ACLs of a rule. *)
Definition allow_options (pgName direction aclName : string) (log : bool) (logRate : Z) (acl : ACL) : ACL :=
  let acl := setACLName aclName acl in
  let acl := if egress direction then after_lb acl else acl in
  if log then set_log true (acl_Severity acl) (if 0 <? logRate then Some (meter_name pgName direction) else None) acl else acl.

(** The options of the ACLs of an admin or cluster network policy. *)
Definition admin_options (aclName action : string) (logACLActions : list string) (acl : ACL) : ACL :=
  let acl := after_lb (setACLName aclName acl) in
  if slice_contains logACLActions action
  then set_log true (if bool_decide (action = ACLActionDrop) then Some "warning" else acl_Severity acl) (acl_Meter acl) acl
  else acl.

(** The loops over the matches: one ACL for each; the first failure ends the
    loop. *)
Fixpoint acls_of (pgName direction priority action : string) (tier : Z) (options : ACL -> ACL) (failed : string)
    (matches : list string) : result (list ACL) :=
  match matches with
  | [] => Ok []
  | m :: rest =>
      acl ← wrapped failed [pgName] (newACLWithoutCheck pgName direction priority m action tier options);
      acls ← acls_of pgName direction priority action tier options failed rest;
      Ok (acl :: acls)
  end.

Definition allow_acls (pgName direction aclName : string) (log : bool) (logRate : Z) (failed : string)
    (matches : list string) : result (list ACL) :=
  acls_of pgName direction (if egress direction then EgressAllowPriority else IngressAllowPriority) ACLActionAllowRelated
    NetpolACLTier (allow_options pgName direction aclName log logRate) failed matches.

(** ** Operations of the database *)

(** The meter of the log; only a failed creation is an error. *)
Definition update_meter (pgName direction failed : string) (logEnable : bool) (logRate : Z) : DB () :=
  if logEnable && (0 <? logRate)
  then wrapping failed [meter_name pgName direction] (CreateOrUpdateMeter (meter_name pgName direction) MeterUnitPktps logRate 1)
  else logged (DeleteMeter (meter_name pgName direction)).

Definition create_acls (pgName : string) (acls : list ACL) : DB (list operation) :=
  reading (CreateAclsOps pgName portGroupKey (Some <$> acls)).

Definition UpdateDefaultBlockACLOps (npName pgName direction : string) (loggingEnabled lax : bool) (logRate : Z)
    : DB (list operation) :=
  _ ← update_meter pgName direction "create meter %s: %w" loggingEnabled logRate;
  defaultDropACL ← lift (wrapped "failed to create drop acl for port group %s: %w" [pgName]
                           (default_block_acl npName pgName direction loggingEnabled lax logRate));
  wrapping "failed to create default drop acl ops for port group %s: %w" [pgName] (create_acls pgName [defaultDropACL]).

Definition UpdateDefaultBlockExceptionsACLOps (npName pgName npNamespace direction : string) : DB (list operation) :=
  wrapping "failed to create block exceptions acl for port group %s: %w" [pgName]
    (create_acls pgName (exception_acls npName pgName direction)).

Definition UpdateIngressACLOps (pgName asIngressName asExceptName protocol aclName : string) (npp : list NetworkPolicyPort)
    (logEnable : bool) (logACLActions : list string) (logRate : Z) (named : gmap string Z) : DB (list operation) :=
  _ ← update_meter pgName ACLDirectionToLport "create ingress meter %s: %w" logEnable logRate;
  matches ← running (newNetworkPolicyACLMatch pgName asIngressName asExceptName protocol ACLDirectionToLport npp named);
  acls ← lift (allow_acls pgName ACLDirectionToLport aclName (logEnable && slice_contains logACLActions ACLActionAllow) logRate
                 "new allow ingress acl for port group %s: %w" matches);
  wrapping "failed to create ingress acl for port group %s: %w" [pgName] (create_acls pgName acls).

Definition UpdateEgressACLOps (pgName asEgressName asExceptName protocol aclName : string) (npp : list NetworkPolicyPort)
    (logEnable : bool) (logACLActions : list string) (logRate : Z) (named : gmap string Z) : DB (list operation) :=
  _ ← update_meter pgName ACLDirectionFromLport "create egress meter %s: %w" logEnable logRate;
  matches ← running (newNetworkPolicyACLMatch pgName asEgressName asExceptName protocol ACLDirectionFromLport npp named);
  acls ← lift (allow_acls pgName ACLDirectionFromLport aclName (logEnable && slice_contains logACLActions ACLActionAllow) logRate
                 "new allow egress acl for port group %s: %w" matches);
  create_acls pgName acls.

(** Blocks without a match give no operation. *)
Definition UpdateIngressIPBlockACLOps (pgName protocol aclName : string) (ipBlocks : list IPBlock) (npp : list NetworkPolicyPort)
    (logEnable : bool) (logACLActions : list string) (logRate : Z) (named : gmap string Z) : DB (list operation) :=
  matches ← running (newIPBlockACLMatch pgName protocol ACLDirectionToLport ipBlocks npp named);
  match matches with
  | [] => mret []
  | _ =>
      acls ← lift (allow_acls pgName ACLDirectionToLport aclName (logEnable && slice_contains logACLActions ACLActionAllow) logRate
                     "new ipBlock ingress acl for port group %s: %w" matches);
      create_acls pgName acls
  end.

Definition UpdateEgressIPBlockACLOps (pgName protocol aclName : string) (ipBlocks : list IPBlock) (npp : list NetworkPolicyPort)
    (logEnable : bool) (logACLActions : list string) (logRate : Z) (named : gmap string Z) : DB (list operation) :=
  matches ← running (newIPBlockACLMatch pgName protocol ACLDirectionFromLport ipBlocks npp named);
  match matches with
  | [] => mret []
  | _ =>
      acls ← lift (allow_acls pgName ACLDirectionFromLport aclName (logEnable && slice_contains logACLActions ACLActionAllow) logRate
                     "new ipBlock egress acl for port group %s: %w" matches);
      create_acls pgName acls
  end.

Definition UpdateAnpRuleACLOps (pgName asName protocol aclName : string) (priority : Z) (aclAction : string)
    (logACLActions : list string) (rulePorts : list PolicyPort) (isIngress isBanp : bool) : DB (list operation) :=
  let direction := if isIngress then ACLDirectionToLport else ACLDirectionFromLport in
  let tier := if isBanp then BanpACLTier else AnpACLTier in
  acls ← lift (acls_of pgName direction (Itoa priority) aclAction tier (admin_options aclName aclAction logACLActions)
                 "new ingress acl for port group %s: %w" (newAnpACLMatch pgName asName protocol direction rulePorts));
  create_acls pgName acls.

Definition UpdateCnpRuleACLOps (pgName asName protocol aclName : string) (priority : Z) (aclAction : string)
    (logACLActions : list string) (rulePorts : list PolicyPort) (isIngress : bool) (tier : Z) : DB (list operation) :=
  let direction := if isIngress then ACLDirectionToLport else ACLDirectionFromLport in
  acls ← lift (acls_of pgName direction (Itoa priority) aclAction tier (admin_options aclName aclAction logACLActions)
                 "new acl for port group %s: %w" (newCnpACLMatch pgName asName protocol direction rulePorts));
  create_acls pgName acls.

(** [SetNetPolACLLog]: the log flag of the default drop. *)
Definition SetNetPolACLLog (pgName : string) (logEnable isIngress : bool) : DB () :=
  let direction := if isIngress then ACLDirectionToLport else ACLDirectionFromLport in
  acl ← reading (fun db => match GetACL pgName direction IngressDefaultDrop (ACLMatch_String (all_ip_match pgName direction "ip")) NetpolACLTier true db with
                           | inl o => Ok o
                           | inr e => Err (plain_error e)
                           end);
  match acl with
  | None => mret ()
  | Some r =>
      if bool_decide (acl_Log r.2 = logEnable) then mret ()
      else wrapping "update acl: %w" [] (UpdateACL r (fun a => set_log logEnable (acl_Severity a) (acl_Meter a) a))
  end.
