(* ===== verification/AclMeaning.v ===== *)
(** * What the access control lists match

    The documented reading of the atoms of an OVN match on a packet, and what the
    matches of a network policy then say of it.  Port groups, address sets and the
    addresses a text stands for belong to the database and are a class here. *)
From Stdlib Require Import Ascii.
From S2P Require Import Prelude GoStrings GoNet GoNetText UtilNet GoText AclMatch PolicyAcl.

Local Open Scope Z_scope.

(** ** Packets and the reading of atoms *)

Record packet (addr : Type) := mkPacket {
  pk_inport : string;
  pk_outport : string;
  pk_family : string;
  pk_src : addr;
  pk_dst : addr;
  pk_proto : string;
  pk_sport : Z;
  pk_dport : Z
}.
Arguments mkPacket {addr}.
Arguments pk_inport {addr}.
Arguments pk_outport {addr}.
Arguments pk_family {addr}.
Arguments pk_src {addr}.
Arguments pk_dst {addr}.
Arguments pk_proto {addr}.
Arguments pk_sport {addr}.
Arguments pk_dport {addr}.

(** The ports of a group, the addresses of a set, and those of an address or
    CIDR written in a match. *)
Class Ovn (addr : Type) := {
  group_has : string -> string -> bool;
  set_has : string -> addr -> bool;
  text_has : string -> addr -> bool
}.

Section Meaning.

Context {addr : Type} `{Ovn addr}.

(** [$set], [{a, b}] or one address. *)
Definition value_has (v : string) (a : addr) : bool :=
  match v with
  | String c r =>
      if bool_decide (c = "$"%char) then set_has r a
      else if bool_decide (c = "{"%char) then existsb (fun x => text_has (TrimSpace x) a) (Split (fst (fst (Cut "}"%char r))) ",")
      else text_has v a
  | EmptyString => false
  end.

Definition in_group (v port : string) : bool :=
  match v with String c r => bool_decide (c = "@"%char) && group_has r port | EmptyString => false end.

(** Whether a field has a value; [None] when the packet has no such field. *)
Definition field_is (p : packet addr) (key v : string) : option bool :=
  if bool_decide (key = "inport") then Some (in_group v (pk_inport p))
  else if bool_decide (key = "outport") then Some (in_group v (pk_outport p))
  else
    let '(w, f, _) := Cut "."%char key in
    if bool_decide (w = "ip4") || bool_decide (w = "ip6") then
      if bool_decide (pk_family p = w) then Some (value_has v (if bool_decide (f = "src") then pk_src p else pk_dst p)) else None
    else if bool_decide (pk_proto p = w)
    then Some (bool_decide (Atoi v = Some (if bool_decide (f = "src") then pk_sport p else pk_dport p))) else None.

Definition field_between (p : packet addr) (lo key hi : string) : bool :=
  let '(w, f, _) := Cut "."%char key in
  let n := if bool_decide (f = "src") then pk_sport p else pk_dport p in
  bool_decide (pk_proto p = w) &&
  match Atoi lo, Atoi hi with Some l, Some h => (l <=? n) && (n <=? h) | _, _ => false end.

Definition flag (p : packet addr) (key : string) : bool :=
  if bool_decide (key = "ip") then bool_decide (pk_family p = "ip4" \/ pk_family p = "ip6")
  else if bool_decide (key = "ip4") || bool_decide (key = "ip6") then bool_decide (pk_family p = key)
  else bool_decide (pk_proto p = key).

(** An atom: a flag, [field == value], [field != value] or [lo <= field <= hi]. *)
Definition atom_holds (p : packet addr) (t : string) : bool :=
  let '(w, r, more) := Cut " "%char t in
  if negb more then flag p t
  else
    let '(op, v, _) := Cut " "%char r in
    if bool_decide (op = "==") then bool_decide (field_is p w v = Some true)
    else if bool_decide (op = "!=") then bool_decide (field_is p w v = Some false)
    else let '(key, r2, _) := Cut " "%char v in let '(_, hi, _) := Cut " "%char r2 in field_between p w key hi.

(** A text that is an expression and holds of the packet. *)
Definition text_matches (p : packet addr) (t : string) : Prop :=
  exists e, parse t = Some e /\ reads (fun a => atom_holds p a = true) e.

Definition meaning (p : packet addr) (m : ACLMatch) : Prop :=
  denote (fun k e v x => atom_holds p (atom_text k e v x) = true) m.

Lemma text_meaning p m : grouped m = true -> text_matches p (ACLMatch_String m) <-> meaning p m.
Proof.
  intros Hg. destruct (parse_Match (fun a => atom_holds p a = true) m Hg) as (t & e & Et & Ep & Hr).
  unfold ACLMatch_String. rewrite Et. unfold text_matches, meaning. rewrite <-Hr. split; [|by exists e].
  intros (e' & Ep' & He). by rewrite Ep in Ep'; injection Ep' as <-.
Qed.

Lemma texts_meaning p ms : Forall (fun m => grouped m = true) ms ->
  Exists (text_matches p) (Strings ms) <-> Exists (meaning p) ms.
Proof.
  intros Hg. unfold Strings. induction Hg as [|m ms Hm _ IH]; [by rewrite !Exists_nil|].
  by rewrite fmap_cons, !Exists_cons, IH, text_meaning.
Qed.

End Meaning.

(** ** Words of a match *)

Definition name_char (c : ascii) : bool :=
  negb (is_space c || bool_decide (c = "("%char) || bool_decide (c = ")"%char) || bool_decide (c = "&"%char) || bool_decide (c = "|"%char)).

(** Names of groups and sets, addresses and numbers. *)
Definition name_ok (s : string) : bool := negb (bool_decide (s = "")) && all_chars name_char s.

Lemma name_ok_iff s : name_ok s = true <-> s <> "" /\ all_chars name_char s = true.
Proof. unfold name_ok. by rewrite andb_true_iff, negb_true_iff, bool_decide_eq_false. Qed.

Lemma name_char_special c : name_char c = true ->
  is_space c = false /\ c <> "("%char /\ c <> ")"%char /\ c <> "&"%char /\ c <> "|"%char.
Proof. unfold name_char. rewrite negb_true_iff, !orb_false_iff, !bool_decide_eq_false. tauto. Qed.

Lemma name_no_space s : all_chars name_char s = true -> contains_char " "%char s = false.
Proof. by apply all_chars_not_contains. Qed.

Lemma no_special_app a b : no_special (a +:+ b) = no_special a && no_special b.
Proof.
  unfold no_special. rewrite !contains_char_app. by do 4 destruct (contains_char _ a); do 4 destruct (contains_char _ b).
Qed.

Lemma name_no_special s : all_chars name_char s = true -> no_special s = true.
Proof.
  intros Hs. unfold no_special.
  by rewrite (all_chars_not_contains name_char "("%char), (all_chars_not_contains name_char ")"%char),
    (all_chars_not_contains name_char "&"%char), (all_chars_not_contains name_char "|"%char).
Qed.

Lemma app_str_not_nil s b : b <> "" -> s +:+ b <> "".
Proof. by destruct s. Qed.

Lemma trim_right_name s b : name_ok b = true -> trim_right (s +:+ b) = s +:+ b.
Proof.
  rewrite name_ok_iff. intros [Hne Hb].
  assert (Hbase : trim_right b = b).
  { clear s Hne. induction b as [|c b IH]; [done|]. cbn [all_chars] in Hb. apply andb_true_iff in Hb as [Hc Hb].
    cbn [trim_right]. rewrite IH by done. destruct b; [|done].
    apply name_char_special in Hc as [-> _]. done. }
  induction s as [|c s IH]; [done|]. rewrite app_str_cons. cbn [trim_right]. rewrite IH.
  destruct (s +:+ b) eqn:E; [|done]. by apply app_str_not_nil in E.
Qed.

Lemma plain_between a s b : name_ok a = true -> no_special s = true -> name_ok b = true -> plain (a +:+ s +:+ b) = true.
Proof.
  intros Ha Hs Hb. pose proof Hb as Hb'. apply name_ok_iff in Ha as [Hna Ha], Hb' as [Hnb Hb'].
  unfold plain. rewrite !no_special_app, (name_no_special a), Hs, (name_no_special b) by done.
  rewrite bool_decide_false by (by destruct a). rewrite bool_decide_true; [done|].
  unfold TrimSpace. assert (E : trim_left (a +:+ s +:+ b) = a +:+ s +:+ b).
  { destruct a as [|c a]; [done|]. cbn [all_chars] in Ha. apply andb_true_iff in Ha as [Hc _].
    apply name_char_special in Hc as [Hc _]. rewrite app_str_cons. cbn [trim_left]. by rewrite Hc. }
  rewrite E, <-app_str_assoc. by apply trim_right_name.
Qed.

Lemma plain_name a : name_ok a = true -> plain a = true.
Proof.
  intros Ha. pose proof Ha as Ha'. apply name_ok_iff in Ha' as [Hna Hc]. unfold plain.
  rewrite name_no_special, bool_decide_false by done. rewrite bool_decide_true; [done|]. unfold TrimSpace.
  assert (E : trim_left a = a).
  { destruct a as [|c a]; [done|]. cbn [all_chars] in Hc. apply andb_true_iff in Hc as [Hc _].
    apply name_char_special in Hc as [Hc _]. cbn [trim_left]. by rewrite Hc. }
  rewrite E. by apply (trim_right_name "").
Qed.

Lemma Itoa_name n : 0 <= n -> name_ok (Itoa n) = true.
Proof.
  intros Hn. apply name_ok_iff. destruct (Itoa_chars name_char n) as [Hd Hne]; [|done|done]. clear.
  intros d Hd. assert (Hall : forallb (fun k => name_char (chr (48 + k))) (seqZ 0 10) = true) by (vm_compute; reflexivity).
  rewrite forallb_forall in Hall. apply Hall. apply list_elem_of_In, elem_of_seqZ. lia.
Qed.

(** ** Atoms *)

Section Atoms.

Context {addr : Type} `{Ovn addr}.
Implicit Types p : packet addr.

Lemma grouped_flag key : name_ok key = true -> grouped (aclMatch key "" "" "") = true.
Proof.
  intros Hk. cbn [grouped]. pose proof Hk as Hk'. apply name_ok_iff in Hk' as [Hne _].
  unfold atom_text, atom_Match. rewrite !(bool_decide_false (key = "")) by done. cbn [orb negb andb]. by apply plain_name.
Qed.

Lemma flag_meaning p key : name_ok key = true -> meaning p (aclMatch key "" "" "") <-> flag p key = true.
Proof.
  intros Hk. apply name_ok_iff in Hk as [Hne Hc]. unfold meaning. cbn [denote]. unfold atom_text, atom_Match.
  rewrite bool_decide_false by done. cbn [orb]. unfold atom_holds. by rewrite Cut_none by (by apply name_no_space).
Qed.

Lemma atom_text_cmp key op v : key <> "" -> op <> "" -> v <> "" -> atom_text key op v "" = key +:+ " " +:+ op +:+ " " +:+ v.
Proof.
  intros Hk Ho Hv. unfold atom_text, atom_Match.
  rewrite (bool_decide_false (key = "")), (bool_decide_false (op = "")), (bool_decide_false (v = "")) by done. done.
Qed.

(** [s] carries the values of a set that contain spaces. *)
Lemma grouped_cmp key op s v : name_ok key = true -> op = "==" \/ op = "!=" -> no_special s = true -> name_ok v = true ->
  grouped (aclMatch key op (s +:+ v) "") = true.
Proof.
  intros Hk Ho Hs Hv. cbn [grouped]. pose proof Hk as Hk'. apply name_ok_iff in Hk' as [Hne _].
  pose proof Hv as Hv'. apply name_ok_iff in Hv' as [Hnv _].
  rewrite bool_decide_false by done. rewrite atom_text_cmp; [|done|by destruct Ho as [-> | ->]|by apply app_str_not_nil].
  replace (key +:+ " " +:+ op +:+ " " +:+ s +:+ v) with (key +:+ (" " +:+ op +:+ " " +:+ s) +:+ v) by (by rewrite !app_str_assoc).
  apply plain_between; [done| |done]. destruct Ho as [-> | ->]; by rewrite !no_special_app, Hs.
Qed.

Lemma cmp_meaning p key op v : name_ok key = true -> op = "==" \/ op = "!=" -> v <> "" ->
  meaning p (aclMatch key op v "") <-> field_is p key v = Some (bool_decide (op = "==")).
Proof.
  intros Hk Ho Hv. apply name_ok_iff in Hk as [Hne Hc]. unfold meaning. cbn [denote].
  rewrite atom_text_cmp by (done || by destruct Ho as [-> | ->]). unfold atom_holds.
  change (" " +:+ op +:+ " " +:+ v) with (String " " (op +:+ String " " v)).
  rewrite Cut_app by (by apply name_no_space). cbn [negb].
  rewrite Cut_app by (by destruct Ho as [-> | ->]).
  destruct Ho as [-> | ->];
    [rewrite !(bool_decide_true ("==" = "==")) by done
    |rewrite !(bool_decide_false ("!=" = "==")), (bool_decide_true ("!=" = "!=")) by done];
    by rewrite bool_decide_eq_true.
Qed.

Lemma atom_text_range key lo hi : key <> "" -> lo <> "" -> hi <> "" ->
  atom_text key "<=" lo hi = lo +:+ " <= " +:+ key +:+ " <= " +:+ hi.
Proof.
  intros Hk Hl Hh. unfold atom_text, atom_Match.
  rewrite (bool_decide_false (key = "")), (bool_decide_false (lo = "")), (bool_decide_false (hi = "")) by done. done.
Qed.

Lemma grouped_range key lo hi : name_ok key = true -> name_ok lo = true -> name_ok hi = true ->
  grouped (aclMatch key "<=" lo hi) = true.
Proof.
  intros Hk Hl Hh. cbn [grouped]. pose proof Hk as Hk'. apply name_ok_iff in Hk' as [Hnk Hck].
  rewrite bool_decide_false by done. rewrite atom_text_range by (done || by apply name_ok_iff).
  replace (lo +:+ " <= " +:+ key +:+ " <= " +:+ hi) with (lo +:+ (" <= " +:+ key +:+ " <= ") +:+ hi) by (by rewrite !app_str_assoc).
  apply plain_between; [done| |done]. by rewrite !no_special_app, (name_no_special key).
Qed.

Lemma range_meaning p key lo hi : name_ok key = true -> name_ok lo = true -> name_ok hi = true ->
  meaning p (aclMatch key "<=" lo hi) <-> field_between p lo key hi = true.
Proof.
  rewrite !name_ok_iff. intros [Hnk Hck] [Hnl Hcl] [Hnh Hch]. unfold meaning. cbn [denote].
  rewrite atom_text_range by done. unfold atom_holds.
  change (lo +:+ " <= " +:+ key +:+ " <= " +:+ hi) with (lo +:+ String " " ("<=" +:+ String " " (key +:+ String " " ("<=" +:+ String " " hi)))).
  rewrite Cut_app by (by apply name_no_space). cbn [negb]. rewrite Cut_app by done.
  rewrite Cut_app by (by apply name_no_space). by rewrite Cut_app by done.
Qed.

End Atoms.
