(* ===== verification/PolicyFacts.v ===== *)
(** * What the ACLs of a network policy match

    The matches built for the rules of a policy hold of a packet exactly when it
    goes to or from a member of the port group, its other end is a peer of the
    rule and one of the ports of the rule admits it. *)
From Stdlib Require Import Ascii.
From S2P Require Import Prelude GoStrings GoNet GoNetText UtilNet GoText AclMatch NbDb NbAcl PolicyAcl AclMeaning.

Local Open Scope Z_scope.

(** ** Ports that can be written *)

Definition port_number (n : Z) : bool := (0 <=? n) && (n <? 2 ^ 31).

Definition port_ok (port : NetworkPolicyPort) : bool :=
  match np_Protocol port with
  | Some proto => bool_decide (proto ∈ ["TCP"; "UDP"; "SCTP"])
  | None => false
  end &&
  match np_Port port with Some (IntVal n) => port_number n | _ => true end &&
  match np_EndPort port with Some n => port_number n | None => true end.

Definition named_ok (named : gmap string Z) : Prop := map_Forall (fun _ n => port_number n = true) named.

Definition transport (w : string) : Prop := w ∈ ["tcp"; "udp"; "sctp"].

Lemma transport_lower proto : proto ∈ ["TCP"; "UDP"; "SCTP"] -> transport (ToLower proto).
Proof.
  unfold transport. rewrite !elem_of_cons. intros [->|[->|[->|Hn]]]; [vm_compute; tauto..|by apply elem_of_nil in Hn].
Qed.

Section Policies.

Context {addr : Type} `{Ovn addr}.
Implicit Types p : packet addr.

(** ** The reading of a rule *)

Definition member (direction pgName : string) p : Prop :=
  group_has pgName (if egress direction then pk_inport p else pk_outport p) = true.

Definition peer (direction : string) p : addr := if egress direction then pk_dst p else pk_src p.

(** The port of the rule admits the packet; a name nobody defines admits none. *)
Definition port_allows (named : gmap string Z) p (port : NetworkPolicyPort) : Prop :=
  ToLower <$> np_Protocol port = Some (pk_proto p) /\
  match np_Port port, np_EndPort port with
  | None, _ => True
  | Some (IntVal n), None => pk_dport p = n
  | Some (IntVal n), Some e => n <= pk_dport p <= e
  | Some (StrVal name), None => named !! name = Some (pk_dport p)
  | Some (StrVal _), Some _ => False
  end.

Definition ports_allow (named : gmap string Z) (npp : list NetworkPolicyPort) p : Prop :=
  npp = [] \/ Exists (port_allows named p) npp.

(** The block holds the address and no exception that counts does. *)
Definition block_allows (protocol : string) (a : addr) (block : IPBlock) : Prop :=
  CheckProtocol (CIDR block) = protocol /\ text_has (CIDR block) a = true /\
  Forall (fun e => text_has e a = false) (block_excepts protocol block).

Definition is_ip p : Prop := pk_family p = "ip4" \/ pk_family p = "ip6".

(** ** Conjunctions of a tree and an atom *)

(** A tree that can stand in a conjunction. *)
Definition fits (m : ACLMatch) : Prop := grouped m = true /\ is_or m = false.

Lemma fits_And ms : ms <> [] -> Forall fits ms -> fits (AndACLMatch ms).
Proof.
  intros Hne Hms. split; [|done]. cbn [grouped]. apply andb_true_iff. split; [by destruct ms|].
  apply forallb_forall. intros m Hm. rewrite Forall_forall in Hms.
  destruct (Hms m) as [-> ->]; [by apply list_elem_of_In|done].
Qed.

Lemma fits_pair m n : fits m -> fits n -> fits (NewAndACLMatch [m; n]).
Proof. intros Hm Hn. apply fits_And; [done|]. by rewrite !Forall_cons, Forall_nil. Qed.

Lemma meaning_And p ms : meaning p (NewAndACLMatch ms) <-> Forall (meaning p) ms.
Proof. apply denote_And. Qed.

Lemma meaning_pair p m n : meaning p (NewAndACLMatch [m; n]) <-> meaning p m /\ meaning p n.
Proof. rewrite meaning_And, !Forall_cons, Forall_nil. tauto. Qed.

(** A tree with its reading. *)
Definition says (m : ACLMatch) (Q : packet addr -> Prop) : Prop := fits m /\ forall p, meaning p m <-> Q p.

(** The matches of a rule: one of them holds. *)
Definition say (ms : list ACLMatch) (Q : packet addr -> Prop) : Prop :=
  Forall fits ms /\ forall p, Exists (meaning p) ms <-> Q p.

Lemma says_iff m Q R : (forall p, Q p <-> R p) -> says m Q -> says m R.
Proof. intros HQR [Hf Hm]. split; [done|]. intros p. by rewrite Hm. Qed.

Lemma say_iff ms Q R : (forall p, Q p <-> R p) -> say ms Q -> say ms R.
Proof. intros HQR [Hf Hm]. split; [done|]. intros p. by rewrite Hm. Qed.

Lemma says_pair m n Q R : says m Q -> says n R -> says (NewAndACLMatch [m; n]) (fun p => Q p /\ R p).
Proof. intros [Hm HQ] [Hn HR]. split; [by apply fits_pair|]. intros p. by rewrite meaning_pair, HQ, HR. Qed.

Lemma say_none Q : (forall p, ~ Q p) -> say [] Q.
Proof. intros HQ. split; [done|]. intros p. rewrite Exists_nil. by specialize (HQ p). Qed.

Lemma say_one m Q : says m Q -> say [m] Q.
Proof.
  intros [Hm HQ]. split; [by rewrite Forall_cons, Forall_nil|]. intros p. rewrite Exists_cons, Exists_nil, HQ. tauto.
Qed.

Lemma say_app ms ns Q R : say ms Q -> say ns R -> say (ms ++ ns) (fun p => Q p \/ R p).
Proof.
  intros [Hm HQ] [Hn HR]. split; [by apply Forall_app|]. intros p. by rewrite Exists_app, HQ, HR.
Qed.

(** The texts of the matches read the same. *)
Lemma say_texts ms Q p : say ms Q -> Exists (text_matches p) (Strings ms) <-> Q p.
Proof.
  intros [Hf HQ]. rewrite texts_meaning, HQ; [done|]. eapply Forall_impl; [exact Hf|]. by intros m [? _].
Qed.

(** ** The port group and the address family *)

Lemma port_direction_name direction : name_ok (port_direction direction) = true.
Proof. unfold port_direction. by destruct (bool_decide _). Qed.

Lemma group_says direction pgName : name_ok pgName = true ->
  says (NewACLMatch (port_direction direction) "==" ("@" +:+ pgName) "") (member direction pgName).
Proof.
  intros Hp. split.
  { split; [|done]. by apply grouped_cmp; [apply port_direction_name|left|..]. }
  intros p. unfold NewACLMatch. rewrite cmp_meaning by (done || apply port_direction_name || by left).
  unfold member, egress, port_direction. destruct (bool_decide (direction = ACLDirectionFromLport)); simpl;
    (split; [intros [= E]; exact E|intros E; exact (f_equal Some E)]).
Qed.

Lemma flag_says key Q : name_ok key = true -> (forall p, flag p key = true <-> Q p) -> says (NewACLMatch key "" "" "") Q.
Proof.
  intros Hk HQ. split; [split; [by apply grouped_flag|done]|]. intros p. unfold NewACLMatch. by rewrite flag_meaning.
Qed.

Lemma all_ip_says pgName direction : name_ok pgName = true ->
  says (all_ip_match pgName direction "ip") (fun p => member direction pgName p /\ is_ip p).
Proof.
  intros Hp. apply says_pair; [by apply group_says|]. apply flag_says; [done|]. intros p.
  unfold flag, is_ip. rewrite bool_decide_true by done. by rewrite bool_decide_eq_true.
Qed.

(** ** Peers *)

Lemma ip_key_name protocol direction : name_ok (ip_suffix protocol +:+ "." +:+ src_or_dst direction) = true.
Proof. unfold ip_suffix, src_or_dst. by destruct (bool_decide _), (bool_decide _). Qed.

Lemma peer_is p protocol direction v :
  field_is p (ip_suffix protocol +:+ "." +:+ src_or_dst direction) v =
  if bool_decide (pk_family p = ip_suffix protocol) then Some (value_has v (peer direction p)) else None.
Proof.
  unfold ip_suffix, src_or_dst, peer, egress. by destruct (bool_decide (protocol = _)), (bool_decide (direction = _)).
Qed.

Lemma peer_says protocol direction op s v : op = "==" \/ op = "!=" -> no_special s = true -> name_ok v = true ->
  says (NewACLMatch (ip_suffix protocol +:+ "." +:+ src_or_dst direction) op (s +:+ v) "")
    (fun p => pk_family p = ip_suffix protocol /\ value_has (s +:+ v) (peer direction p) = bool_decide (op = "==")).
Proof.
  intros Ho Hs Hv. split; [split; [by apply grouped_cmp; [apply ip_key_name|..]|done]|]. intros p.
  unfold NewACLMatch. apply name_ok_iff in Hv as [Hv _].
  rewrite cmp_meaning by (done || apply ip_key_name || by apply app_str_not_nil). rewrite peer_is.
  case_bool_decide; split; try tauto; [by intros [= ->]|by intros [_ ->]|done].
Qed.

Lemma family_is_ip p protocol : pk_family p = ip_suffix protocol -> is_ip p.
Proof. unfold is_ip, ip_suffix. intros ->. destruct (bool_decide _); tauto. Qed.

(** ** Ports *)

Lemma transport_key w : transport w ->
  name_ok w = true /\ name_ok (w +:+ ".dst") = true /\
  (forall p, flag p w = bool_decide (pk_proto p = w)) /\
  (forall p v, field_is p (w +:+ ".dst") v =
    if bool_decide (pk_proto p = w) then Some (bool_decide (Atoi v = Some (pk_dport p))) else None) /\
  (forall p lo hi, field_between p lo (w +:+ ".dst") hi = bool_decide (pk_proto p = w) &&
    match Atoi lo, Atoi hi with Some l, Some h => (l <=? pk_dport p) && (pk_dport p <=? h) | _, _ => false end).
Proof.
  unfold transport. rewrite !elem_of_cons. intros [->|[->|[->|Hn]]]; [done..|by apply elem_of_nil in Hn].
Qed.

Lemma port_text n : port_number n = true -> name_ok (Itoa n) = true /\ Atoi (Itoa n) = Some n.
Proof. unfold port_number. intros Hn. split; [apply Itoa_name; lia|apply Atoi_Itoa; lia]. Qed.

Lemma one_port w n : transport w -> port_number n = true ->
  says (NewACLMatch (w +:+ ".dst") "==" (Itoa n) "") (fun p => pk_proto p = w /\ pk_dport p = n).
Proof.
  intros Hw Hn. destruct (transport_key w Hw) as (_ & Hk & _ & Hf & _), (port_text n Hn) as [Hi Ei].
  split; [split; [by apply (grouped_cmp _ "==" ""); [|left|..]|done]|]. intros p.
  unfold NewACLMatch. rewrite cmp_meaning by (done || by left || by apply name_ok_iff in Hi as [? _]).
  rewrite Hf, Ei. case_bool_decide as Ep; [|split; [done|by intros [? _]]].
  rewrite (bool_decide_true ("==" = "==")) by done. split.
  - intros [= Hd]. apply bool_decide_eq_true in Hd. injection Hd as <-. done.
  - intros [_ <-]. by rewrite bool_decide_true.
Qed.

Lemma several_ports w n e : transport w -> port_number n = true -> port_number e = true ->
  says (NewACLMatch (w +:+ ".dst") "<=" (Itoa n) (Itoa e)) (fun p => pk_proto p = w /\ n <= pk_dport p <= e).
Proof.
  intros Hw Hn He. destruct (transport_key w Hw) as (_ & Hk & _ & _ & Hb), (port_text n Hn) as [Hi Ei], (port_text e He) as [Hj Ej].
  split; [split; [by apply grouped_range|done]|]. intros p.
  unfold NewACLMatch. rewrite range_meaning by done. rewrite Hb, Ei, Ej.
  rewrite !andb_true_iff, bool_decide_eq_true, !Z.leb_le. done.
Qed.

Lemma any_port w : transport w -> says (NewACLMatch w "" "" "") (fun p => pk_proto p = w).
Proof.
  intros Hw. destruct (transport_key w Hw) as (Hk & _ & Hf & _). apply flag_says; [done|]. intros p.
  by rewrite Hf, bool_decide_eq_true.
Qed.

Lemma port_says named allowed A port : says allowed A -> port_ok port = true -> named_ok named ->
  exists ms, port_matches named allowed port = Done ms /\ say ms (fun p => A p /\ port_allows named p port).
Proof.
  intros Ha Hok Hn. unfold port_ok in Hok. rewrite !andb_true_iff in Hok. destruct Hok as [[Hp Hport] Hend].
  destruct port as [[proto|] portv endv]; [|done]. cbn in Hp, Hport, Hend. apply bool_decide_eq_true, transport_lower in Hp.
  unfold port_matches, port_allows. cbn. set (w := ToLower proto) in *. eexists. split; [done|].
  assert (Hone : forall atom Q (R : packet addr -> Prop), says atom Q -> (forall p, Q p <-> Some w = Some (pk_proto p) /\ R p) ->
    say [NewAndACLMatch [allowed; atom]] (fun p => A p /\ Some w = Some (pk_proto p) /\ R p)).
  { intros atom Q R Hs HQ. apply say_one. eapply says_iff; [|by apply says_pair]. intros p. simpl. by rewrite HQ. }
  assert (Hw : forall p, pk_proto p = w <-> Some w = Some (pk_proto p)) by (intros p; split; [by intros ->|by intros [= ->]]).
  assert (Hnum : forall n, port_number n = true ->
    say [NewAndACLMatch [allowed; NewACLMatch (w +:+ ".dst") "==" (Itoa n) ""]]
      (fun p => A p /\ Some w = Some (pk_proto p) /\ pk_dport p = n)).
  { intros n Hk. eapply Hone; [by apply one_port|]. intros p. simpl. by rewrite Hw. }
  destruct portv as [[n|name]|], endv as [e|].
  - eapply Hone; [by apply several_ports|]. intros p. simpl. by rewrite Hw.
  - by apply Hnum.
  - apply say_none. tauto.
  - destruct (named !! name) as [n|] eqn:E.
    + eapply say_iff; [|apply Hnum, (Hn name n E)]. intros p. simpl. split; [intros (? & ? & <-)|intros (? & ? & [= ->])]; done.
    + apply say_none. by intros p (_ & _ & ?).
  - eapply Hone; [by apply any_port|]. intros p. simpl. rewrite Hw. tauto.
  - eapply Hone; [by apply any_port|]. intros p. simpl. rewrite Hw. tauto.
Qed.

(** The loops over the ports of a rule. *)
Lemma rule_says named allowed A npp : says allowed A -> Forall (fun port => port_ok port = true) npp -> named_ok named ->
  exists ms, rule_matches named allowed npp = Done ms /\ say ms (fun p => A p /\ ports_allow named npp p).
Proof.
  intros Ha Hok Hn. assert (Hloop : exists ms, ports_matches named allowed npp = Done ms /\
    say ms (fun p => A p /\ Exists (port_allows named p) npp)).
  { induction Hok as [|port npp Hp _ (ns & En & Sn)].
    { exists []. split; [done|]. apply say_none. intros p [_ Hx]. by apply Exists_nil in Hx. }
    destruct (port_says named allowed A port Ha Hp Hn) as (ms & Em & Sm). exists (ms ++ ns). cbn. rewrite Em. cbn. rewrite En.
    split; [done|]. eapply say_iff; [|by apply say_app]. intros p. simpl. rewrite Exists_cons. tauto. }
  destruct npp as [|port npp].
  - exists [allowed]. split; [done|]. eapply say_iff; [|by apply say_one]. intros p. unfold ports_allow. tauto.
  - destruct Hloop as (ms & Em & Sm). exists ms. split; [done|]. eapply say_iff; [|exact Sm]. intros p. unfold ports_allow.
    split; [tauto|]. by intros [? [?|?]].
Qed.

(** ** Rules with address sets *)

Lemma set_says protocol direction op name : op = "==" \/ op = "!=" -> name_ok name = true ->
  says (NewACLMatch (ip_suffix protocol +:+ "." +:+ src_or_dst direction) op ("$" +:+ name) "")
    (fun p => pk_family p = ip_suffix protocol /\ set_has name (peer direction p) = bool_decide (op = "==")).
Proof. intros Ho Hn. exact (peer_says protocol direction op "$" name Ho eq_refl Hn). Qed.

Definition selector_allows (direction pgName asAllow asExcept protocol : string) p : Prop :=
  member direction pgName p /\ pk_family p = ip_suffix protocol /\
  set_has asAllow (peer direction p) = true /\ set_has asExcept (peer direction p) = false.

Lemma policy_says pgName asAllow asExcept protocol direction npp named :
  name_ok pgName = true -> name_ok asAllow = true -> name_ok asExcept = true ->
  Forall (fun port => port_ok port = true) npp -> named_ok named ->
  exists ms, policy_matches pgName asAllow asExcept protocol direction npp named = Done ms /\
    say ms (fun p => selector_allows direction pgName asAllow asExcept protocol p /\ ports_allow named npp p).
Proof.
  intros Hp Ha He Hports Hn. unfold policy_matches.
  pose proof (all_ip_says pgName direction Hp) as [F1 M1].
  pose proof (set_says protocol direction "==" asAllow ltac:(by left) Ha) as [F2 M2].
  pose proof (set_says protocol direction "!=" asExcept ltac:(by right) He) as [F3 M3].
  apply rule_says; [|done|done]. split.
  { apply fits_And; [done|]. by rewrite !Forall_cons, Forall_nil. }
  intros p. rewrite meaning_And, !Forall_cons, Forall_nil, M1, M2, M3. unfold selector_allows.
  rewrite (bool_decide_true ("==" = "==")), (bool_decide_false ("!=" = "==")) by done.
  pose proof (family_is_ip p protocol). tauto.
Qed.

(** ** Rules with blocks of addresses *)

(** An address that is written in a set. *)
Definition address_ok (s : string) : bool :=
  name_ok s && negb (contains_char "$"%char s || contains_char "{"%char s || contains_char "}"%char s || contains_char ","%char s).

Definition block_ok (block : IPBlock) : bool := address_ok (CIDR block) && forallb address_ok (Except block).

Lemma address_ok_iff s : address_ok s = true -> name_ok s = true /\ contains_char "$"%char s = false /\
  contains_char "{"%char s = false /\ contains_char "}"%char s = false /\ contains_char ","%char s = false.
Proof. unfold address_ok. rewrite andb_true_iff, negb_true_iff, !orb_false_iff. tauto. Qed.

Lemma value_address s (x : addr) : address_ok s = true -> value_has s x = text_has s x.
Proof.
  intros Hs. apply address_ok_iff in Hs as (Hn & Hd & Hb & _ & _). destruct s as [|c s]; [done|]. cbn [contains_char] in Hd, Hb.
  apply orb_false_iff in Hd as [Hd _], Hb as [Hb _]. unfold value_has. by rewrite Hd, Hb.
Qed.

Lemma TrimSpace_name s : name_ok s = true -> TrimSpace s = s.
Proof. intros Hs. apply plain_name in Hs. unfold plain in Hs. rewrite !andb_true_iff, bool_decide_eq_true in Hs. tauto. Qed.

Lemma Split_not_nil c s : Split s (sep1 c) <> [].
Proof.
  destruct s as [|x s]; [done|]. destruct (decide (x = c)) as [->|Hne]; [by rewrite Split_cons_sep|].
  rewrite Split_cons_other by done. by destruct (Split s (sep1 c)).
Qed.

Lemma Split_list es : es <> [] -> Forall (fun e => address_ok e = true) es ->
  TrimSpace <$> Split (Join es ", ") "," = es.
Proof.
  intros Hne He. induction He as [|e es Hok _ IH]; [done|]. apply address_ok_iff in Hok as (Hn & _ & _ & _ & Hc).
  change "," with (sep1 ","%char) in *. destruct es as [|e' es].
  - cbn [Join]. rewrite Split_none by done. cbn. by rewrite TrimSpace_name.
  - change (Join (e :: e' :: es) ", ") with (e +:+ String "," (String " " (Join (e' :: es) ", "))).
    rewrite Split_app by done. rewrite fmap_cons, TrimSpace_name by done. f_equal. rewrite Split_cons_other by done.
    etransitivity; [|by apply IH]. pose proof (Split_not_nil ","%char (Join (e' :: es) ", ")).
    by destruct (Split (Join (e' :: es) ", ") (sep1 ","%char)).
Qed.

Lemma contains_Join c es : contains_char c ", " = false -> Forall (fun e => contains_char c e = false) es ->
  contains_char c (Join es ", ") = false.
Proof.
  intros Hs He. induction He as [|e es Hok _ IH]; [done|]. destruct es as [|e' es]; [done|].
  change (Join (e :: e' :: es) ", ") with (e +:+ ", " +:+ Join (e' :: es) ", "). by rewrite !contains_char_app, Hok, Hs, IH.
Qed.

Lemma value_list es (x : addr) : es <> [] -> Forall (fun e => address_ok e = true) es ->
  value_has ("{" +:+ Join es ", " +:+ "}") x = existsb (fun e => text_has e x) es.
Proof.
  intros Hne He. change ("{" +:+ Join es ", " +:+ "}") with (String "{" (Join es ", " +:+ String "}" "")). unfold value_has.
  rewrite (bool_decide_false ("{"%char = "$"%char)), (bool_decide_true ("{"%char = "{"%char)) by done. rewrite Cut_app.
  2:{ apply contains_Join; [done|]. eapply Forall_impl; [exact He|]. intros e Hok. by apply address_ok_iff in Hok as (_ & _ & _ & ? & _). }
  cbn [fst]. rewrite <-(Split_list es Hne He) at 2. clear. induction (Split _ _) as [|y l IH]; [done|]. rewrite fmap_cons. cbn. by rewrite IH.
Qed.

Lemma block_excepts_ok protocol block : block_ok block = true -> Forall (fun e => address_ok e = true) (block_excepts protocol block).
Proof.
  unfold block_ok. rewrite andb_true_iff, forallb_forall. intros [_ He]. apply Forall_forall. intros e Hin.
  apply list_elem_of_filter in Hin as [_ Hin]. apply He. by apply list_elem_of_In.
Qed.

Lemma no_special_Join es : Forall (fun e => address_ok e = true) es -> no_special ("{" +:+ Join es ", ") = true.
Proof.
  intros He. rewrite no_special_app. induction He as [|e es Hok _ IH]; [done|].
  apply address_ok_iff in Hok as (Hn & _). apply name_ok_iff in Hn as [_ Hn]. destruct es as [|e' es].
  - cbn [Join]. by rewrite (name_no_special e).
  - change (Join (e :: e' :: es) ", ") with (e +:+ ", " +:+ Join (e' :: es) ", ").
    rewrite !no_special_app, (name_no_special e) by done. exact IH.
Qed.

Lemma block_says protocol direction block : block_ok block = true ->
  say (block_match protocol (ip_suffix protocol +:+ "." +:+ src_or_dst direction) block)
    (fun p => pk_family p = ip_suffix protocol /\ block_allows protocol (peer direction p) block).
Proof.
  intros Hok. pose proof (block_excepts_ok protocol block Hok) as He. unfold block_match.
  unfold block_ok in Hok. apply andb_true_iff in Hok as [Hc _]. pose proof Hc as Hc'. apply address_ok_iff in Hc' as (Hn & _).
  case_bool_decide as Ep; cbn [negb].
  2:{ apply say_none. intros p [_ [? _]]. by apply Ep. }
  pose proof (peer_says protocol direction "==" "" (CIDR block) ltac:(by left) eq_refl Hn) as Sc.
  destruct (block_excepts protocol block) as [|e es] eqn:Ee.
  - apply say_one. eapply says_iff; [|exact Sc]. intros p. unfold block_allows. rewrite Ee, Forall_nil.
    rewrite app_str_nil_l, value_address, (bool_decide_true ("==" = "==")) by done. tauto.
  - apply say_one. pose proof (peer_says protocol direction "!=" ("{" +:+ Join (e :: es) ", ") "}" ltac:(by right)
      (no_special_Join _ He) eq_refl) as Se. rewrite app_str_assoc in Se.
    eapply says_iff; [|exact (says_pair _ _ _ _ Sc Se)]. intros p. cbv beta. unfold block_allows. rewrite Ee.
    rewrite app_str_nil_l, value_address, (bool_decide_true ("==" = "==")), (bool_decide_false ("!=" = "==")) by done.
    rewrite value_list by done.
    rewrite <-not_true_iff_false, existsb_exists, Forall_forall.
    split; [intros [[? ?] [_ Hno]]; split_and!; [done..|]|intros (? & _ & ? & Hno); split_and!; [done..|]].
    + intros x Hx. apply not_true_iff_false. intros Ht. apply Hno. exists x. by rewrite <-list_elem_of_In.
    + intros (x & Hx & Ht). apply list_elem_of_In in Hx. specialize (Hno x Hx). congruence.
Qed.

Lemma blocks_says protocol direction blocks : Forall (fun b => block_ok b = true) blocks ->
  say (blocks ≫= block_match protocol (ip_suffix protocol +:+ "." +:+ src_or_dst direction))
    (fun p => pk_family p = ip_suffix protocol /\ Exists (block_allows protocol (peer direction p)) blocks).
Proof.
  intros Hok. induction Hok as [|b blocks Hb _ IH].
  - apply say_none. intros p [_ Hx]. by apply Exists_nil in Hx.
  - rewrite bind_cons. eapply say_iff; [|apply say_app; [by apply block_says|exact IH]]. intros p. cbv beta.
    rewrite Exists_cons. tauto.
Qed.

(** The matches of the blocks, joined by [||] and grouped. *)
Lemma grouped_says m ms Q : say (m :: ms) Q ->
  says (NewGroupACLMatch match ms with [] => m | _ => NewOrACLMatch (m :: ms) end) Q.
Proof.
  intros [Hf HQ]. apply Forall_cons in Hf as [[Hm Ho] Hf]. destruct ms as [|n ms].
  - split; [by split|]. intros p. rewrite <-HQ, Exists_cons, Exists_nil. unfold meaning, NewGroupACLMatch. cbn [denote]. tauto.
  - split.
    + split; [|done]. unfold NewGroupACLMatch, NewOrACLMatch. cbn [grouped]. apply andb_true_iff. split; [done|].
      apply forallb_forall. intros x [<-|Hx]; [done|]. rewrite Forall_forall in Hf. destruct (Hf x); [by apply list_elem_of_In|done].
    + intros p. rewrite <-HQ. exact (denote_Or _ (m :: n :: ms)).
Qed.

Definition blocks_allow (direction pgName protocol : string) (blocks : list IPBlock) p : Prop :=
  member direction pgName p /\ pk_family p = ip_suffix protocol /\
  Exists (block_allows protocol (peer direction p)) blocks.

Lemma ip_block_says pgName protocol direction blocks npp named :
  name_ok pgName = true -> Forall (fun b => block_ok b = true) blocks ->
  Forall (fun port => port_ok port = true) npp -> named_ok named ->
  exists ms, ip_block_matches pgName protocol direction blocks npp named = Done ms /\
    say ms (fun p => blocks_allow direction pgName protocol blocks p /\ ports_allow named npp p).
Proof.
  intros Hp Hb Hports Hn. unfold ip_block_matches. pose proof (blocks_says protocol direction blocks Hb) as Sb.
  destruct (blocks ≫= _) as [|m ms].
  - exists []. split; [done|]. apply say_none. intros p [(_ & Hf & Hx) _]. destruct Sb as [_ Sb].
    specialize (Sb p). rewrite Exists_nil in Sb. by apply Sb.
  - pose proof (says_pair _ _ _ _ (all_ip_says pgName direction Hp) (grouped_says m ms _ Sb)) as Sa.
    apply rule_says; [|done|done]. eapply says_iff; [|exact Sa]. intros p. cbv beta. unfold blocks_allow.
    pose proof (family_is_ip p protocol). tauto.
Qed.

(** ** Admin and cluster network policies *)

Definition rule_port_ok (port : PolicyPort) : bool :=
  match PortNumber port, PortRange port with
  | Some (proto, n), _ => bool_decide (proto ∈ ["TCP"; "UDP"; "SCTP"]) && port_number n
  | None, Some (proto, s, e) => bool_decide (proto ∈ ["TCP"; "UDP"; "SCTP"]) && port_number s && port_number e
  | None, None => true
  end.

Definition rule_port_allows p (port : PolicyPort) : Prop :=
  match PortNumber port, PortRange port with
  | Some (proto, n), _ => pk_proto p = ToLower proto /\ pk_dport p = n
  | None, Some (proto, s, e) => pk_proto p = ToLower proto /\ s <= pk_dport p <= e
  | None, None => False
  end.

Definition admin_allows (direction pgName asName protocol : string) (rulePorts : list PolicyPort) p : Prop :=
  member direction pgName p /\ pk_family p = ip_suffix protocol /\ set_has asName (peer direction p) = true /\
  (rulePorts = [] \/ Exists (rule_port_allows p) rulePorts).

Lemma rule_port_says selected A port : says selected A -> rule_port_ok port = true ->
  say (rule_port_match selected port) (fun p => A p /\ rule_port_allows p port).
Proof.
  intros Ha Hok. unfold rule_port_match, rule_port_allows, rule_port_ok in *.
  destruct (PortNumber port) as [[proto n]|]; [|destruct (PortRange port) as [[[proto s] e]|]].
  - apply andb_true_iff in Hok as [Hp Hn]. apply bool_decide_eq_true, transport_lower in Hp.
    apply say_one, says_pair; [done|]. by apply one_port.
  - rewrite !andb_true_iff in Hok. destruct Hok as [[Hp Hs] He]. apply bool_decide_eq_true, transport_lower in Hp.
    apply say_one, says_pair; [done|]. by apply several_ports.
  - apply say_none. tauto.
Qed.

Lemma admin_says pgName asName protocol direction rulePorts :
  name_ok pgName = true -> name_ok asName = true -> Forall (fun port => rule_port_ok port = true) rulePorts ->
  say (admin_matches pgName asName protocol direction rulePorts) (admin_allows direction pgName asName protocol rulePorts).
Proof.
  intros Hp Ha Hports. unfold admin_matches.
  pose proof (says_pair _ _ _ _ (all_ip_says pgName direction Hp) (set_says protocol direction "==" asName ltac:(by left) Ha)) as Ss.
  rewrite (bool_decide_true ("==" = "==")) in Ss by done. set (selected := NewAndACLMatch _) in *.
  set (A := fun p : packet addr => _ /\ _) in Ss.
  assert (Sl : say (rulePorts ≫= rule_port_match selected) (fun p => A p /\ Exists (rule_port_allows p) rulePorts)).
  { induction Hports as [|port rulePorts Hport _ IH].
    - apply say_none. intros p [_ Hx]. by apply Exists_nil in Hx.
    - rewrite bind_cons. eapply say_iff; [|apply say_app; [by apply rule_port_says|exact IH]]. intros p. cbv beta.
      rewrite Exists_cons. tauto. }
  assert (HA : forall p, A p <-> member direction pgName p /\ pk_family p = ip_suffix protocol /\ set_has asName (peer direction p) = true).
  { intros p. unfold A. pose proof (family_is_ip p protocol). tauto. }
  destruct rulePorts as [|port rulePorts].
  - eapply say_iff; [|by apply say_one]. intros p. unfold admin_allows. rewrite HA. tauto.
  - eapply say_iff; [|exact Sl]. intros p. cbv beta. unfold admin_allows. rewrite HA.
    split; [tauto|]. intros (? & ? & ? & [?|?]); [done|tauto].
Qed.

End Policies.
