(* ===== verification/PolicyVerdict.v ===== *)
(** * The verdict of the ACLs of a network policy

    The ACLs of one direction of a policy are the default drop, the exceptions
    for DHCP when the policy is lax, and one for each match of its rules
    ([handleUpdateNp] in [pkg/controller/network_policy.go] adds them in this
    order).  Of the ACLs of a tier that match a packet, one of the highest
    priority decides. *)
From Stdlib Require Import Ascii.
From S2P Require Import Prelude GoStrings GoNet GoNetText UtilNet GoText AclMatch NbDb NbAcl PolicyAcl AclMeaning PolicyFacts.

Local Open Scope Z_scope.

(** ** Rules *)

(** Peers chosen by selectors, through address sets, or blocks of addresses. *)
Inductive rule_peers :=
  | Selected (asAllowName asExceptName : string)
  | Blocks (ipBlocks : list IPBlock).

Record policy_rule := mkRule {
  r_aclName : string;
  r_protocol : string;
  r_peers : rule_peers;
  r_ports : list NetworkPolicyPort
}.

Definition rule_texts (pgName direction : string) (named : gmap string Z) (r : policy_rule) : outcome (list string) :=
  match r_peers r with
  | Selected allow except => newNetworkPolicyACLMatch pgName allow except (r_protocol r) direction (r_ports r) named
  | Blocks blocks => newIPBlockACLMatch pgName (r_protocol r) direction blocks (r_ports r) named
  end.

(** The ACLs of the rules, in order. *)
Fixpoint rules_acls (pgName direction : string) (log : bool) (logRate : Z) (named : gmap string Z) (rules : list policy_rule)
    : outcome (result (list ACL)) :=
  match rules with
  | [] => Done (Ok [])
  | r :: rules' =>
      texts ← rule_texts pgName direction named r;
      match allow_acls pgName direction (r_aclName r) log logRate "new allow acl for port group %s: %w" texts with
      | Err e => Done (Err e)
      | Ok acls => rest ← rules_acls pgName direction log logRate named rules';
                   Done (match rest with Ok l => Ok (acls ++ l) | Err e => Err e end)
      end
  end.

Definition policy_acls (npName pgName direction : string) (log lax : bool) (logRate : Z) (named : gmap string Z)
    (rules : list policy_rule) : outcome (result (list ACL)) :=
  match default_block_acl npName pgName direction log lax logRate with
  | Err e => Done (Err e)
  | Ok block =>
      rest ← rules_acls pgName direction log logRate named rules;
      Done (match rest with
            | Ok l => Ok (block :: (if lax then exception_acls npName pgName direction else []) ++ l)
            | Err e => Err e
            end)
  end.

Definition rule_ok (r : policy_rule) : Prop :=
  Forall (fun port => port_ok port = true) (r_ports r) /\
  match r_peers r with
  | Selected allow except => name_ok allow = true /\ name_ok except = true
  | Blocks blocks => Forall (fun b => block_ok b = true) blocks
  end.

Definition real_direction (direction : string) : Prop := direction = ACLDirectionToLport \/ direction = ACLDirectionFromLport.

(** ** The fields an option leaves alone *)

Definition core (a : ACL) : string * string * string * Z * string * Z :=
  (acl_Action a, acl_Direction a, acl_Match a, acl_Priority a, acl_Parent a, acl_Tier a).

Lemma newACL_ok parent direction priority m action tier options :
  parent <> "" -> direction <> "" -> priority <> "" -> m <> "" -> action <> "" ->
  (forall a, core (options a) = core a) ->
  exists a, newACLWithoutCheck parent direction priority m action tier options = Ok a /\
    core a = (action, direction, m, Atoi_value priority, parent, tier).
Proof.
  intros Hp Hd Hr Hm Ha Ho. unfold newACLWithoutCheck, required. rewrite !bool_decide_false by done. cbn [orb].
  eexists. split; [done|]. by rewrite Ho.
Qed.

Lemma block_core npName pgName direction (log : bool) logRate a :
  core ((fun acl : ACL =>
    let acl := setACLName npName acl in
    let acl := if log then set_log true (Some "warning") (if 0 <? logRate then Some (meter_name pgName direction) else None) acl else acl in
    if egress direction then after_lb acl else acl) a) = core a.
Proof. by destruct log, (egress direction). Qed.

Lemma allow_core pgName direction aclName log logRate a : core (allow_options pgName direction aclName log logRate a) = core a.
Proof. unfold allow_options. by destruct log, (egress direction). Qed.

Lemma acls_of_ok parent direction priority action tier options failed ms :
  parent <> "" -> direction <> "" -> priority <> "" -> action <> "" -> Forall (fun m => m <> "") ms ->
  (forall a, core (options a) = core a) ->
  exists acls, acls_of parent direction priority action tier options failed ms = Ok acls /\
    Forall2 (fun a m => core a = (action, direction, m, Atoi_value priority, parent, tier)) acls ms.
Proof.
  intros Hp Hd Hr Ha Hm Ho. induction Hm as [|m ms Hm _ (acls & E & F)]; [by exists []|].
  destruct (newACL_ok parent direction priority m action tier options) as (a & Ea & Ca); [done..|].
  exists (a :: acls). cbn. rewrite Ea. cbn. rewrite E. split; [done|]. by constructor.
Qed.

Section Verdict.

Context {addr : Type} `{Ovn addr}.
Implicit Types p : packet addr.

Lemma text_not_empty p t : text_matches p t -> t <> "".
Proof. by intros (e & He & _) ->. Qed.

Lemma grouped_text m : grouped m = true -> ACLMatch_String m <> "".
Proof.
  intros Hg. destruct (parse_Match (fun _ => True) m Hg) as (t & e & Et & Ep & _).
  unfold ACLMatch_String. rewrite Et. by intros ->.
Qed.

Lemma fits_texts ms : Forall fits ms -> Forall (fun t => t <> "") (Strings ms).
Proof.
  intros Hf. unfold Strings. apply Forall_fmap. eapply Forall_impl; [exact Hf|]. intros m [Hg _]. by apply grouped_text.
Qed.

(** ** The default drop *)

Definition blocked (lax : bool) p : Prop := if lax then transport (pk_proto p) else is_ip p.

Lemma lax_text pgName direction : name_ok pgName = true ->
  ACLMatch_String (default_block_match pgName direction true) =
  ACLMatch_String (NewAndACLMatch [NewACLMatch (port_direction direction) "==" ("@" +:+ pgName) "";
    NewGroupACLMatch (NewOrACLMatch [NewACLMatch "tcp" "" "" ""; NewACLMatch "udp" "" "" ""; NewACLMatch "sctp" "" "" ""])]).
Proof. intros _. unfold default_block_match, port_direction. by destruct (bool_decide (direction = _)). Qed.

Lemma transport_says : says (NewGroupACLMatch (NewOrACLMatch [NewACLMatch "tcp" "" "" ""; NewACLMatch "udp" "" "" ""; NewACLMatch "sctp" "" "" ""]))
  (fun p => transport (pk_proto p)).
Proof.
  apply (grouped_says (NewACLMatch "tcp" "" "" "") [NewACLMatch "udp" "" "" ""; NewACLMatch "sctp" "" "" ""]).
  assert (Hs : forall w, transport w -> say [NewACLMatch w "" "" ""] (fun p => pk_proto p = w)) by (intros w Hw; by apply say_one, any_port).
  assert (S3 := say_app _ _ _ _ (Hs "tcp" ltac:(by left)) (say_app _ _ _ _ (Hs "udp" ltac:(by right; left)) (Hs "sctp" ltac:(by right; right; left)))).
  eapply say_iff; [|exact S3]. intros p. cbv beta. unfold transport. rewrite !elem_of_cons, elem_of_nil. tauto.
Qed.

Lemma default_says pgName direction lax p : name_ok pgName = true ->
  text_matches p (ACLMatch_String (default_block_match pgName direction lax)) <-> member direction pgName p /\ blocked lax p.
Proof.
  intros Hp. destruct lax.
  - rewrite lax_text by done. destruct (says_pair _ _ _ _ (group_says direction pgName Hp) transport_says) as [[Hg _] Hm].
    rewrite text_meaning by done. apply Hm.
  - destruct (all_ip_says pgName direction Hp) as [[Hg _] Hm]. rewrite <-Hm. by apply text_meaning.
Qed.

Lemma default_text pgName direction lax : name_ok pgName = true -> ACLMatch_String (default_block_match pgName direction lax) <> "".
Proof.
  intros Hp. destruct lax.
  - rewrite lax_text by done. apply grouped_text, (says_pair _ _ _ _ (group_says direction pgName Hp) transport_says).
  - apply grouped_text, (all_ip_says pgName direction Hp).
Qed.

(** ** The exceptions for DHCP *)

Definition dhcp_packet (direction pgName : string) p : Prop :=
  member direction pgName p /\ pk_proto p = "udp" /\
  let '(from, to) := if egress direction then (pk_dport p, pk_sport p) else (pk_sport p, pk_dport p) in
  (pk_family p = "ip6" /\ from = 547 /\ to = 546) \/ (pk_family p = "ip4" /\ from = 67 /\ to = 68).

Lemma udp_says f text n : f = "src" \/ f = "dst" -> name_ok text = true -> Atoi text = Some n ->
  says (NewACLMatch ("udp." +:+ f) "==" text "")
    (fun p => pk_proto p = "udp" /\ (if bool_decide (f = "src") then pk_sport p else pk_dport p) = n).
Proof.
  intros Hf Ht En. assert (Hk : name_ok ("udp." +:+ f) = true) by (by destruct Hf as [-> | ->]).
  split; [split; [by apply (grouped_cmp _ "==" ""); [|left|..]|done]|]. intros p.
  unfold NewACLMatch. rewrite cmp_meaning by (done || by left || by apply name_ok_iff in Ht as [? _]).
  assert (Ef : field_is p ("udp." +:+ f) text = if bool_decide (pk_proto p = "udp")
    then Some (bool_decide (Atoi text = Some (if bool_decide (f = "src") then pk_sport p else pk_dport p))) else None)
    by (by destruct Hf as [-> | ->]).
  rewrite Ef, En. case_bool_decide; [|split; [done|by intros [? _]]].
  rewrite (bool_decide_true ("==" = "==")) by done. split.
  - intros [= Hd]. apply bool_decide_eq_true in Hd. injection Hd as ->. done.
  - intros [_ ->]. by rewrite bool_decide_true.
Qed.

Lemma family_says ip : ip = "ip4" \/ ip = "ip6" -> says (NewACLMatch ip "" "" "") (fun p => pk_family p = ip).
Proof.
  intros Hi. apply flag_says; [by destruct Hi as [-> | ->]|]. intros p. unfold flag.
  destruct Hi as [-> | ->];
    [rewrite (bool_decide_false ("ip4" = "ip")), (bool_decide_true ("ip4" = "ip4")) by done
    |rewrite (bool_decide_false ("ip6" = "ip")), (bool_decide_false ("ip6" = "ip4")), (bool_decide_true ("ip6" = "ip6")) by done];
    cbn [orb]; by rewrite bool_decide_eq_true.
Qed.

Lemma dhcp_says pgName direction src dst ip s d : name_ok pgName = true -> ip = "ip4" \/ ip = "ip6" ->
  name_ok src = true -> name_ok dst = true -> Atoi src = Some s -> Atoi dst = Some d ->
  says (dhcp_match pgName direction src dst ip) (fun p => member direction pgName p /\ pk_proto p = "udp" /\ pk_family p = ip /\
    (if egress direction then pk_dport p else pk_sport p) = s /\ (if egress direction then pk_sport p else pk_dport p) = d).
Proof.
  intros Hp Hi Hs Hd Es Ed. destruct (group_says direction pgName Hp) as [F1 M1], (family_says ip Hi) as [F4 M4].
  unfold dhcp_match. destruct (egress direction).
  - destruct (udp_says "src" dst d ltac:(by left) Hd Ed) as [F2 M2], (udp_says "dst" src s ltac:(by right) Hs Es) as [F3 M3].
    split; [apply fits_And; [done|]; by rewrite !Forall_cons, Forall_nil|]. intros p.
    rewrite meaning_And, !Forall_cons, Forall_nil, M1, M4. change "udp.src" with ("udp." +:+ "src"). change "udp.dst" with ("udp." +:+ "dst").
    rewrite M2, M3. rewrite bool_decide_true, bool_decide_false by done. tauto.
  - destruct (udp_says "src" src s ltac:(by left) Hs Es) as [F2 M2], (udp_says "dst" dst d ltac:(by right) Hd Ed) as [F3 M3].
    split; [apply fits_And; [done|]; by rewrite !Forall_cons, Forall_nil|]. intros p.
    rewrite meaning_And, !Forall_cons, Forall_nil, M1, M4. change "udp.src" with ("udp." +:+ "src"). change "udp.dst" with ("udp." +:+ "dst").
    rewrite M2, M3. rewrite bool_decide_true, bool_decide_false by done. tauto.
Qed.

(** ** Lists of ACLs *)

(** Every ACL of the list has the action and the priority, and a packet matches
    one of them exactly when [Q] holds. *)
Definition group_of (pgName direction action : string) (priority : Z) (acls : list ACL) (Q : packet addr -> Prop) : Prop :=
  Forall (fun a => exists m, core a = (action, direction, m, priority, pgName, NetpolACLTier)) acls /\
  forall p, Exists (fun a => text_matches p (acl_Match a)) acls <-> Q p.

Lemma group_iff pgName direction action priority acls Q R : (forall p, Q p <-> R p) ->
  group_of pgName direction action priority acls Q -> group_of pgName direction action priority acls R.
Proof. intros HQR [Hc HQ]. split; [done|]. intros p. by rewrite HQ. Qed.

Lemma group_nil pgName direction action priority Q : (forall p, ~ Q p) -> group_of pgName direction action priority [] Q.
Proof. intros HQ. split; [done|]. intros p. rewrite Exists_nil. by specialize (HQ p). Qed.

Lemma group_app pgName direction action priority l l' Q R :
  group_of pgName direction action priority l Q -> group_of pgName direction action priority l' R ->
  group_of pgName direction action priority (l ++ l') (fun p => Q p \/ R p).
Proof. intros [Hc HQ] [Hc' HR]. split; [by apply Forall_app|]. intros p. by rewrite Exists_app, HQ, HR. Qed.

Lemma group_texts pgName direction action priority acls ms Q :
  Forall2 (fun a m => core a = (action, direction, m, priority, pgName, NetpolACLTier)) acls ms ->
  (forall p, Exists (text_matches p) ms <-> Q p) -> group_of pgName direction action priority acls Q.
Proof.
  intros HF HQ. split.
  - clear HQ. induction HF as [|a m acls ms Ha _ IH]; constructor; [by exists m|done].
  - intros p. rewrite <-HQ. clear HQ. induction HF as [|a m acls ms Ha _ IH]; [by rewrite !Exists_nil|].
    rewrite !Exists_cons, IH. unfold core in Ha. by injection Ha as _ _ -> _ _ _.
Qed.

Lemma allow_group pgName direction aclName log logRate failed ms Q :
  pgName <> "" -> real_direction direction -> say ms Q ->
  exists acls, allow_acls pgName direction aclName log logRate failed (Strings ms) = Ok acls /\
    group_of pgName direction ACLActionAllowRelated 2001 acls Q.
Proof.
  intros Hp Hd HS. pose proof HS as [Hf _].
  assert (Ep : forall b : bool, (if b then EgressAllowPriority else IngressAllowPriority) = "2001") by (by intros []).
  unfold allow_acls. rewrite Ep.
  destruct (acls_of_ok pgName direction "2001" ACLActionAllowRelated NetpolACLTier (allow_options pgName direction aclName log logRate)
    failed (Strings ms)) as (acls & E & F); [done|by destruct Hd as [-> | ->]|done|done|by apply fits_texts|apply allow_core|].
  exists acls. split; [done|]. eapply group_texts; [exact F|]. intros p. by apply say_texts.
Qed.

Lemma exception_group npName pgName direction : name_ok pgName = true -> real_direction direction ->
  group_of pgName direction ACLActionAllowRelated 2001 (exception_acls npName pgName direction) (dhcp_packet direction pgName).
Proof.
  intros Hp Hd. assert (Hne : pgName <> "") by (by apply name_ok_iff in Hp as [? _]).
  assert (Hone : forall src dst ip s d, ip = "ip4" \/ ip = "ip6" -> name_ok src = true -> name_ok dst = true ->
    Atoi src = Some s -> Atoi dst = Some d -> exists a,
      newACLWithoutCheck pgName direction (if egress direction then EgressAllowPriority else IngressAllowPriority)
        (ACLMatch_String (dhcp_match pgName direction src dst ip)) ACLActionAllowRelated NetpolACLTier
        (fun acl => let acl := setACLName npName acl in if egress direction then after_lb acl else acl) = Ok a /\
      group_of pgName direction ACLActionAllowRelated 2001 [a] (fun p => member direction pgName p /\ pk_proto p = "udp" /\ pk_family p = ip /\
        (if egress direction then pk_dport p else pk_sport p) = s /\ (if egress direction then pk_sport p else pk_dport p) = d)).
  { intros src dst ip s d Hi Hs Hds Es Ed. destruct (dhcp_says pgName direction src dst ip s d) as [Hf HQ]; [done..|].
    assert (Ep : forall b : bool, (if b then EgressAllowPriority else IngressAllowPriority) = "2001") by (by intros []). rewrite Ep.
    match goal with |- context [newACLWithoutCheck _ _ _ ?m ?x ?t ?o] =>
      destruct (newACL_ok pgName direction "2001" m x t o) as (a & Ea & Ca) end;
      [done|by destruct Hd as [-> | ->]|done|by apply grouped_text, Hf|done|by intros acl; destruct (egress direction)|].
    exists a. split; [done|]. apply (group_texts _ _ _ _ [a] [ACLMatch_String (dhcp_match pgName direction src dst ip)]).
    { by repeat constructor. }
    intros p. rewrite Exists_cons, Exists_nil, text_meaning, HQ by apply Hf. tauto. }
  destruct (Hone "547" "546" "ip6" 547 546) as (a6 & E6 & G6); [by right|done..|].
  destruct (Hone "67" "68" "ip4" 67 68) as (a4 & E4 & G4); [by left|done..|].
  unfold exception_acls. rewrite !bind_cons. cbv beta. cbv zeta in E6, E4. rewrite E6, E4. eapply group_iff; [|exact (group_app _ _ _ _ _ _ _ _ G6 G4)].
  intros p. cbv beta. unfold dhcp_packet. destruct (egress direction); tauto.
Qed.

Definition rule_admits (pgName direction : string) (named : gmap string Z) p (r : policy_rule) : Prop :=
  match r_peers r with
  | Selected allow except => selector_allows direction pgName allow except (r_protocol r) p
  | Blocks blocks => blocks_allow direction pgName (r_protocol r) blocks p
  end /\ ports_allow named (r_ports r) p.

Lemma rule_texts_say pgName direction named r : name_ok pgName = true -> named_ok named -> rule_ok r ->
  exists ms, rule_texts pgName direction named r = Done (Strings ms) /\
    say ms (fun p => rule_admits pgName direction named p r).
Proof.
  intros Hp Hn [Hports Hpeers]. unfold rule_texts, rule_admits. destruct (r_peers r) as [allow except|blocks].
  - destruct Hpeers as [Ha He]. unfold newNetworkPolicyACLMatch.
    destruct (policy_says pgName allow except (r_protocol r) direction (r_ports r) named) as (ms & -> & HS); [done..|]. by exists ms.
  - unfold newIPBlockACLMatch.
    destruct (ip_block_says pgName (r_protocol r) direction blocks (r_ports r) named) as (ms & -> & HS); [done..|]. by exists ms.
Qed.

Lemma rules_group pgName direction log logRate named rules : name_ok pgName = true -> real_direction direction -> named_ok named ->
  Forall rule_ok rules ->
  exists acls, rules_acls pgName direction log logRate named rules = Done (Ok acls) /\
    group_of pgName direction ACLActionAllowRelated 2001 acls (fun p => Exists (rule_admits pgName direction named p) rules).
Proof.
  intros Hp Hd Hn Hr. assert (Hne : pgName <> "") by (by apply name_ok_iff in Hp as [? _]).
  induction Hr as [|r rules Hr _ (rest & Er & Gr)].
  { exists []. split; [done|]. apply group_nil. intros p Hx. by apply Exists_nil in Hx. }
  destruct (rule_texts_say pgName direction named r Hp Hn Hr) as (ms & Em & Sm).
  destruct (allow_group pgName direction (r_aclName r) log logRate "new allow acl for port group %s: %w" ms _ Hne Hd Sm) as (acls & Ea & Ga).
  exists (acls ++ rest). cbn [rules_acls]. rewrite Em. cbn [mbind outcome_bind]. rewrite Ea, Er. split; [done|].
  eapply group_iff; [|exact (group_app _ _ _ _ _ _ _ _ Ga Gr)]. intros p. cbv beta. by rewrite Exists_cons.
Qed.

(** ** The verdict *)

(** An ACL that decides about the packet. *)
Definition decides (acls : list ACL) p (a : ACL) : Prop :=
  a ∈ acls /\ text_matches p (acl_Match a) /\
  forall b, b ∈ acls -> text_matches p (acl_Match b) -> acl_Priority b <= acl_Priority a.

Definition verdict (acls : list ACL) (action : string) p : Prop := exists a, decides acls p a /\ acl_Action a = action.

(** The order of the ACLs does not matter. *)
#[global] Instance verdict_perm : Proper ((≡ₚ) ==> (=) ==> (=) ==> iff) verdict.
Proof. intros l l' Hl action ? <- p ? <-. unfold verdict, decides. by setoid_rewrite Hl. Qed.

(** A list of drops under a list of allows of a higher priority. *)
Lemma verdict_two pgName direction drops allows low high Q R : low < high ->
  group_of pgName direction ACLActionDrop low drops Q ->
  group_of pgName direction ACLActionAllowRelated high allows R -> forall p,
  (verdict (drops ++ allows) ACLActionAllowRelated p <-> R p) /\
  (verdict (drops ++ allows) ACLActionDrop p <-> Q p /\ ~ R p).
Proof.
  intros Hlt [Cd HQ] [Ca HR] p. rewrite <-(HQ p), <-(HR p), !Exists_exists. rewrite Forall_forall in Cd, Ca.
  assert (Pd : forall a, a ∈ drops -> acl_Priority a = low /\ acl_Action a = ACLActionDrop).
  { intros a Hin. destruct (Cd a Hin) as [m Em]. unfold core in Em. by injection Em as -> _ _ -> _ _. }
  assert (Pa : forall a, a ∈ allows -> acl_Priority a = high /\ acl_Action a = ACLActionAllowRelated).
  { intros a Hin. destruct (Ca a Hin) as [m Em]. unfold core in Em. by injection Em as -> _ _ -> _ _. }
  unfold verdict, decides. setoid_rewrite elem_of_app. split; split.
  - intros (a & ([Hin|Hin] & Hm & _) & Ha); [destruct (Pd a Hin) as [_ Ea]; by rewrite Ea in Ha|by exists a].
  - intros (a & Hin & Hm). destruct (Pa a Hin) as [Pr Ac]. exists a. split_and!; [by right|done| |done].
    intros b [Hb|Hb] _; [destruct (Pd b Hb)|destruct (Pa b Hb)]; lia.
  - intros (a & ([Hin|Hin] & Hm & Hmax) & Ha); [|destruct (Pa a Hin) as [_ Ea]; by rewrite Ea in Ha].
    split; [by exists a|]. intros (b & Hb & Hmb). specialize (Hmax b (or_intror Hb) Hmb).
    destruct (Pa b Hb), (Pd a Hin). lia.
  - intros [(a & Hin & Hm) Hno]. destruct (Pd a Hin) as [Pr Ac]. exists a. split_and!; [by left|done| |done].
    intros b [Hb|Hb] Hmb; [destruct (Pd b Hb); lia|]. destruct Hno. by exists b.
Qed.

Lemma default_group npName pgName direction log lax logRate : name_ok pgName = true -> real_direction direction ->
  exists a, default_block_acl npName pgName direction log lax logRate = Ok a /\
    group_of pgName direction ACLActionDrop 2000 [a] (fun p => member direction pgName p /\ blocked lax p).
Proof.
  intros Hp Hd. assert (Hne : pgName <> "") by (by apply name_ok_iff in Hp as [? _]).
  unfold default_block_acl. assert (Ep : forall b : bool, (if b then EgressDefaultDrop else IngressDefaultDrop) = "2000") by (by intros []). rewrite Ep.
  match goal with |- context [newACLWithoutCheck _ _ _ ?m ?x ?t ?o] =>
    destruct (newACL_ok pgName direction "2000" m x t o) as (a & Ea & Ca) end;
    [done|by destruct Hd as [-> | ->]|done|by apply default_text|done|apply block_core|].
  exists a. split; [done|]. apply (group_texts _ _ _ _ [a] [ACLMatch_String (default_block_match pgName direction lax)]).
  { by repeat constructor. }
  intros p. rewrite Exists_cons, Exists_nil, default_says by done. tauto.
Qed.

Lemma policy_verdict npName pgName direction log lax logRate named rules :
  name_ok pgName = true -> real_direction direction -> named_ok named -> Forall rule_ok rules ->
  exists acls, policy_acls npName pgName direction log lax logRate named rules = Done (Ok acls) /\ forall p,
    (verdict acls ACLActionAllowRelated p <->
      (lax = true /\ dhcp_packet direction pgName p) \/ Exists (rule_admits pgName direction named p) rules) /\
    (verdict acls ACLActionDrop p <-> (member direction pgName p /\ blocked lax p) /\
      ~ ((lax = true /\ dhcp_packet direction pgName p) \/ Exists (rule_admits pgName direction named p) rules)).
Proof.
  intros Hp Hd Hn Hr. destruct (default_group npName pgName direction log lax logRate Hp Hd) as (block & Eb & Gb).
  destruct (rules_group pgName direction log logRate named rules Hp Hd Hn Hr) as (acls & Ea & Ga).
  unfold policy_acls. rewrite Eb, Ea. eexists. split; [done|].
  assert (Gx : group_of pgName direction ACLActionAllowRelated 2001 (if lax then exception_acls npName pgName direction else [])
    (fun p => lax = true /\ dhcp_packet direction pgName p)).
  { destruct lax; [|apply group_nil; by intros p [? _]]. eapply group_iff; [|by apply exception_group]. tauto. }
  intros p. exact (verdict_two _ _ [block] _ 2000 2001 _ _ eq_refl Gb (group_app _ _ _ _ _ _ _ _ Gx Ga) p).
Qed.

End Verdict.
