(* ===== verification/SecurityGroup.v ===== *)
(** * Security groups ([pkg/ovs/ovn-nb-acl.go], [pkg/controller/security_group.go])

    The check of the rules of a security group, the ACLs of its port group and
    the search for rules that have lost theirs.  [newSgRuleACL] and
    [sgRuleNoACL] build the same match in the same statements; it is one
    definition here. *)
From Stdlib Require Import Ascii.
From S2P Require Import Prelude GoStrings GoNet UtilNet GoText AclMatch NbDb NbAcl PolicyAcl.

Local Open Scope Z_scope.

Definition SecurityGroupHighestPriority : string := "18484".
Definition SecurityGroupBasePriority : string := "2005".
Definition SecurityGroupAllowPriority : string := "2004".
Definition SecurityGroupDropPriority : string := "2003".
Definition SecurityGroupPriorityMax : Z := 16384.
Definition SecurityGroupPriorityMin : Z := 1.
Definition SecurityGroupOvnTierBase : Z := 2.
Definition SecurityGroupAPITierMinimum : Z := 0.
Definition SecurityGroupAPITierMaximum : Z := 1.

(** ** Specifications *)

Record SecurityGroupRule := mkSgRule {
  sg_IPVersion : string;
  sg_Protocol : string;
  sg_Priority : Z;
  sg_RemoteType : string;
  sg_RemoteAddress : string;
  sg_RemoteSecurityGroup : string;
  sg_LocalAddress : string;
  sg_PortRangeMin : Z;
  sg_PortRangeMax : Z;
  sg_SourcePortRangeMin : Z;
  sg_SourcePortRangeMax : Z;
  sg_Policy : string
}.

Record SecurityGroup := mkSg {
  sg_Name : string;
  sg_IngressRules : list SecurityGroupRule;
  sg_EgressRules : list SecurityGroupRule;
  sg_AllowSameGroupTraffic : bool;
  sg_Tier : Z
}.

Definition SgRemoteTypeAddress : string := "address".
Definition SgRemoteTypeSg : string := "securityGroup".
Definition SgProtocolICMP : string := "icmp".
Definition SgProtocolTCP : string := "tcp".
Definition SgProtocolUDP : string := "udp".

(** ** The check of the rules *)

Definition ValidateSecurityGroupTier (tier : Z) : option err :=
  if (tier <? SecurityGroupAPITierMinimum) || (SecurityGroupAPITierMaximum <? tier)
  then Some (Errorf "SecurityGroupTier %d invalid. It must be in range [%d,%d]"
               [Itoa tier; Itoa SecurityGroupAPITierMinimum; Itoa SecurityGroupAPITierMaximum])
  else None.

Definition ConvertSGTierToOvnTier (tier : Z) : Z := tier + SecurityGroupOvnTierBase.

(** An address or CIDR of a rule. *)
Definition check_address (a : string) : option err :=
  if contains_char "/"%char a
  then match CheckCidrs a with Some _ => Some (Errorf "invalid CIDR '%s'" [a]) | None => None end
  else if IsValidIP a then None else Some (Errorf "invalid ip address '%s'" [a]).

Definition check_ports (what : string) (lo hi : Z) : option err :=
  if (lo <? 1) || (65535 <? lo) || (hi <? 1) || (65535 <? hi) then Some (Errorf (what +:+ " is out of range") [])
  else if hi <? lo then Some (Errorf (what +:+ " err, range Minimum value greater than maximum value") [])
  else None.

(** The first error of a sequence of checks. *)
Definition first_error (checks : list (option err)) : option err := head (omap id checks).

(** One round of the loop; [known] tells which groups the lister has. *)
Definition check_rule (known : string -> bool) (tier : Z) (rule : SecurityGroupRule) : option err :=
  let l4 := bool_decide (sg_Protocol rule = SgProtocolTCP) || bool_decide (sg_Protocol rule = SgProtocolUDP) in
  let local := negb (bool_decide (sg_LocalAddress rule = "")) in
  first_error [
    if negb (bool_decide (sg_IPVersion rule = "ipv4")) && negb (bool_decide (sg_IPVersion rule = "ipv6"))
    then Some (Errorf "IPVersion should be 'ipv4' or 'ipv6'" []) else None;
    if (sg_Priority rule <? SecurityGroupPriorityMin) || (SecurityGroupPriorityMax <? sg_Priority rule)
    then Some (Errorf "priority '%d' is not in the range of %d to %d"
                 [Itoa (sg_Priority rule); Itoa SecurityGroupPriorityMin; Itoa SecurityGroupPriorityMax]) else None;
    if (tier =? SecurityGroupAPITierMaximum) && bool_decide (sg_Policy rule = ACLActionPass)
    then Some (Errorf "policy pass not valid when the security group tier is maximum [%d]" [Itoa SecurityGroupAPITierMaximum]) else None;
    if bool_decide (sg_RemoteType rule = SgRemoteTypeAddress) then check_address (sg_RemoteAddress rule)
    else if bool_decide (sg_RemoteType rule = SgRemoteTypeSg)
    then if known (sg_RemoteSecurityGroup rule) then None
         else Some (Errorf "failed to get remote sg '%s', %w" [sg_RemoteSecurityGroup rule])
    else Some (Errorf "not support sgRemoteType '%s'" [sg_RemoteType rule]);
    if local then check_address (sg_LocalAddress rule) else None;
    if l4 then check_ports "portRange" (sg_PortRangeMin rule) (sg_PortRangeMax rule) else None;
    if l4 && local then check_ports "sourcePortRange" (sg_SourcePortRangeMin rule) (sg_SourcePortRangeMax rule) else None ].

Definition validateSgRule (known : string -> bool) (sg : SecurityGroup) : option err :=
  first_error (ValidateSecurityGroupTier (sg_Tier sg) :: (check_rule known (sg_Tier sg) <$> sg_IngressRules sg ++ sg_EgressRules sg)).

(** ** Names *)

Definition GetSgPortGroupName (sgName : string) : string :=
  if bool_decide (sgName = "") then "" else replace_char "-"%char "." ("ovn.sg." +:+ sgName).
Definition GetSgV4AssociatedName (sgName : string) : string :=
  replace_char "-"%char "." ("ovn.sg." +:+ sgName +:+ ".associated.v4").
Definition GetSgV6AssociatedName (sgName : string) : string :=
  replace_char "-"%char "." ("ovn.sg." +:+ sgName +:+ ".associated.v6").

(** ** The ACL of a rule *)

(** The match of [newSgRuleACL] and of [sgRuleNoACL]. *)
Definition sg_match (sgName direction : string) (rule : SecurityGroupRule) : ACLMatch :=
  let v6 := bool_decide (sg_IPVersion rule = "ipv6") in
  let ipSuffix := if v6 then "ip6" else "ip4" in
  let remoteIPKey := ipSuffix +:+ "." +:+ (if egress direction then "dst" else "src") in
  let localIPKey := ipSuffix +:+ "." +:+ (if egress direction then "src" else "dst") in
  let allIPMatch := all_ip_match (GetSgPortGroupName sgName) direction ipSuffix in
  let remotePgName := (if v6 then GetSgV6AssociatedName else GetSgV4AssociatedName) (sg_RemoteSecurityGroup rule) in
  let remote := if bool_decide (sg_RemoteType rule = SgRemoteTypeSg) then "$" +:+ remotePgName else sg_RemoteAddress rule in
  let allowed := NewAndACLMatch [allIPMatch; NewACLMatch remoteIPKey "==" remote ""] in
  let allowed := if bool_decide (sg_LocalAddress rule = "") then allowed
                 else NewAndACLMatch [allowed; NewACLMatch localIPKey "==" (sg_LocalAddress rule) ""] in
  if bool_decide (sg_Protocol rule = SgProtocolICMP)
  then NewAndACLMatch [allowed; NewACLMatch (if v6 then "icmp6" else "icmp4") "" "" ""]
  else if bool_decide (sg_Protocol rule = SgProtocolTCP) || bool_decide (sg_Protocol rule = SgProtocolUDP) then
    let m := NewAndACLMatch [allowed; NewACLMatch (sg_Protocol rule +:+ ".dst") "<=" (Itoa (sg_PortRangeMin rule)) (Itoa (sg_PortRangeMax rule))] in
    if bool_decide (sg_LocalAddress rule = "") then m
    else NewAndACLMatch [m; NewACLMatch (sg_Protocol rule +:+ ".src") "<=" (Itoa (sg_SourcePortRangeMin rule)) (Itoa (sg_SourcePortRangeMax rule))]
  else allowed.

Definition sg_action (rule : SecurityGroupRule) : string :=
  if bool_decide (sg_Policy rule = ACLActionAllow) then ACLActionAllowRelated
  else if bool_decide (sg_Policy rule = ACLActionPass) then ACLActionPass
  else ACLActionDrop.

Definition sg_priority (rule : SecurityGroupRule) : string :=
  Itoa (Atoi_value SecurityGroupHighestPriority - sg_Priority rule).

Definition newSgRuleACL (sgName direction : string) (rule : SecurityGroupRule) (tier : Z) (db : NbDB) : result (option ACL) :=
  wrapped "new security group acl for port group %s: %w" [GetSgPortGroupName sgName]
    (newACL (GetSgPortGroupName sgName) direction (sg_priority rule) (ACLMatch_String (sg_match sgName direction rule))
       (sg_action rule) tier id db).

(** ** The ACLs of a group *)

Definition api_tiers : list Z := [SecurityGroupAPITierMinimum; SecurityGroupAPITierMaximum].

Definition deny_all_acls (sgName : string) (db : NbDB) : result (list (option ACL)) :=
  let pgName := GetSgPortGroupName sgName in
  acls ← collect (fun tier =>
    ingressACL ← wrapped "new deny all ingress acl for security group %s: %w" [sgName]
      (newACL pgName ACLDirectionToLport SecurityGroupDropPriority ("outport == @" +:+ pgName +:+ " && ip") ACLActionDrop
         (ConvertSGTierToOvnTier tier) id db);
    egressACL ← wrapped "new deny all egress acl for security group %s: %w" [sgName]
      (newACL pgName ACLDirectionFromLport SecurityGroupDropPriority ("inport == @" +:+ pgName +:+ " && ip") ACLActionDrop
         (ConvertSGTierToOvnTier tier) id db);
    Ok [ingressACL; egressACL]) api_tiers;
  Ok (concat acls).

Definition CreateSgDenyAllACL (sgName : string) : DB () :=
  acls ← reading (deny_all_acls sgName);
  wrapping "add deny all acl to port group %s: %w" [GetSgPortGroupName sgName]
    (CreateAcls (GetSgPortGroupName sgName) portGroupKey acls).

(** ARP, the ICMPv6 of neighbour discovery, DHCP of both families and VRRP. *)
Definition base_matches (pgName direction : string) : list ACLMatch :=
  let port := NewACLMatch (port_direction direction) "==" ("@" +:+ pgName) "" in
  let icmpv6Type := if egress direction then "{130, 133, 135, 136}" else "{130, 134, 135, 136}" in
  [ NewAndACLMatch [port; NewACLMatch "arp" "" "" ""];
    NewAndACLMatch [port; NewACLMatch "icmp6.type" "==" icmpv6Type ""; NewACLMatch "icmp6.code" "==" "0" "";
                    NewACLMatch "ip.ttl" "==" "255" ""];
    dhcp_match pgName direction "67" "68" "ip4";
    dhcp_match pgName direction "547" "546" "ip6";
    NewAndACLMatch [port; NewACLMatch "ip.proto" "==" "112" ""] ].

(** The inner loop over the tiers: a failure ends it and is only logged. *)
Fixpoint base_acls (pgName direction match_ : string) (tiers : list Z) (db : NbDB) : list (option ACL) :=
  match tiers with
  | [] => []
  | tier :: tiers' =>
      match newACL pgName direction SecurityGroupBasePriority match_ ACLActionAllowRelated (ConvertSGTierToOvnTier tier) id db with
      | Ok acl => acl :: base_acls pgName direction match_ tiers' db
      | Err _ => []
      end
  end.

Definition CreateSgBaseACL (sgName direction : string) : DB () := fun db =>
  let pgName := GetSgPortGroupName sgName in
  let acls := base_matches pgName direction ≫= (fun m => base_acls pgName direction (ACLMatch_String m) api_tiers db) in
  wrapping "add ingress acls to port group %s: %w" [pgName] (CreateAcls pgName portGroupKey acls) db.

(** Traffic inside the group, when it is allowed. *)
Definition same_group_match (sgName direction ipSuffix : string) : ACLMatch :=
  NewAndACLMatch [
    NewACLMatch (port_direction direction) "==" ("@" +:+ GetSgPortGroupName sgName) "";
    NewACLMatch ipSuffix "" "" "";
    NewACLMatch (ipSuffix +:+ "." +:+ src_or_dst direction) "=="
      ("$" +:+ (if bool_decide (ipSuffix = "ip6") then GetSgV6AssociatedName sgName else GetSgV4AssociatedName sgName)) "" ].

Definition sg_rules (sg : SecurityGroup) (direction : string) : list SecurityGroupRule :=
  if egress direction then sg_EgressRules sg else sg_IngressRules sg.

Definition sg_acls (sg : SecurityGroup) (direction : string) (db : NbDB) : result (list (option ACL)) :=
  let tier := ConvertSGTierToOvnTier (sg_Tier sg) in
  same ← (if sg_AllowSameGroupTraffic sg
          then collect (fun ipSuffix => wrapped "new allow acl for security group %s: %w" [sg_Name sg]
                 (newACL (GetSgPortGroupName (sg_Name sg)) direction SecurityGroupAllowPriority
                    (ACLMatch_String (same_group_match (sg_Name sg) direction ipSuffix)) ACLActionAllowRelated tier id db)) ["ip4"; "ip6"]
          else Ok []);
  rules ← collect (fun rule => wrapped "new rule acl for security group %s: %w" [sg_Name sg]
                     (newSgRuleACL (sg_Name sg) direction rule tier db)) (sg_rules sg direction);
  Ok (same ++ rules).

Definition UpdateSgACL (sg : SecurityGroup) (direction : string) : DB () :=
  let pgName := GetSgPortGroupName (sg_Name sg) in
  _ ← wrapping "delete direction '%s' acls from port group %s: %w" [direction; pgName] (DeleteAcls pgName portGroupKey direction ∅);
  acls ← reading (sg_acls sg direction);
  wrapping "add acl to port group %s: %w" [pgName] (CreateAcls pgName portGroupKey acls).

(** ** Lost ACLs *)

Definition sgRuleNoACL (sgName direction : string) (rule : SecurityGroupRule) (tier : Z) (db : NbDB) : result bool :=
  exists_ ← wrapped "failed to check acl rule for security group %s: %w" [sgName]
    (ACLExists (GetSgPortGroupName sgName) direction (sg_priority rule) (ACLMatch_String (sg_match sgName direction rule)) tier db);
  Ok (negb exists_).

(** The loop over the rules of one direction. *)
Fixpoint some_lost (sg : SecurityGroup) (direction : string) (rules : list SecurityGroupRule) (db : NbDB) : result bool :=
  match rules with
  | [] => Ok false
  | rule :: rules' =>
      no ← sgRuleNoACL (sg_Name sg) direction rule (ConvertSGTierToOvnTier (sg_Tier sg)) db;
      if no : bool then Ok true else some_lost sg direction rules' db
  end.

Definition SGLostACL (sg : SecurityGroup) (db : NbDB) : result bool :=
  ingress ← some_lost sg ACLDirectionToLport (sg_IngressRules sg) db;
  if ingress : bool then Ok true else some_lost sg ACLDirectionFromLport (sg_EgressRules sg) db.
