(* ===== verification/SgTable.v ===== *)
(** * The ACLs of a security group in the table

    An update of one direction leaves, whatever the port group held, the ACLs of
    the other direction and those the specification asks for; the search for lost
    ACLs then finds none; and the rule with the smallest number that applies to a
    packet decides about it. *)
From Stdlib Require Import Ascii.
From S2P Require Import Prelude GoStrings GoNet GoNetText UtilNet GoText AclMatch NbDb NbAcl NbAclFacts PolicyAcl AclMeaning PolicyFacts PolicyVerdict SecurityGroup.

Local Open Scope Z_scope.

(** ** Facts about security groups

    What the ACLs of a group are after an update, whatever the table held before,
    and which rule decides about a packet. *)

(** ** Names *)

Lemma replace_char_name s : all_chars name_char s = true -> all_chars name_char (replace_char "-"%char "." s) = true.
Proof.
  induction s as [|c s IH]; [done|]. cbn [all_chars replace_char]. rewrite andb_true_iff. intros [Hc Hs].
  destruct (bool_decide (c = "-"%char)); [cbn; by apply IH|]. cbn [all_chars]. by rewrite Hc, IH.
Qed.

Lemma sg_pg_name name : name_ok name = true -> name_ok (GetSgPortGroupName name) = true.
Proof.
  rewrite !name_ok_iff. intros [Hne Hc]. unfold GetSgPortGroupName. rewrite bool_decide_false by done. split; [done|].
  apply replace_char_name. by rewrite all_chars_app.
Qed.

Lemma sg_as_name name suffix : all_chars name_char name = true -> all_chars name_char suffix = true ->
  name_ok (replace_char "-"%char "." ("ovn.sg." +:+ name +:+ suffix)) = true.
Proof. intros Hn Hs. apply name_ok_iff. split; [done|]. apply replace_char_name. by rewrite !all_chars_app, Hn, Hs. Qed.

(** Addresses and names of a rule that can be written in a match. *)
Definition clean_rule (rule : SecurityGroupRule) : Prop :=
  all_chars name_char (sg_RemoteSecurityGroup rule) = true /\
  (sg_RemoteType rule <> SgRemoteTypeSg -> address_ok (sg_RemoteAddress rule) = true) /\
  (sg_LocalAddress rule <> "" -> address_ok (sg_LocalAddress rule) = true).

Definition clean_group (sg : SecurityGroup) : Prop :=
  name_ok (sg_Name sg) = true /\ Forall clean_rule (sg_IngressRules sg) /\ Forall clean_rule (sg_EgressRules sg).

(** ** What the check of the rules guarantees *)

Lemma first_error_None l : first_error l = None <-> Forall (fun o => o = None) l.
Proof.
  unfold first_error. induction l as [|[e|] l IH]; simpl; [by split| |].
  - split; [done|]. intros Hl. by inversion Hl.
  - rewrite Forall_cons. rewrite IH. tauto.
Qed.

Definition port_bounds (lo hi : Z) : Prop := 1 <= lo <= 65535 /\ 1 <= hi <= 65535 /\ lo <= hi.

Definition is_l4 (rule : SecurityGroupRule) : Prop := sg_Protocol rule = SgProtocolTCP \/ sg_Protocol rule = SgProtocolUDP.

Record checked_rule (rule : SecurityGroupRule) : Prop := {
  cr_version : sg_IPVersion rule = "ipv4" \/ sg_IPVersion rule = "ipv6";
  cr_priority : 1 <= sg_Priority rule <= 16384;
  cr_remote : sg_RemoteType rule = SgRemoteTypeAddress \/ sg_RemoteType rule = SgRemoteTypeSg;
  cr_ports : is_l4 rule -> port_bounds (sg_PortRangeMin rule) (sg_PortRangeMax rule);
  cr_source : is_l4 rule -> sg_LocalAddress rule <> "" -> port_bounds (sg_SourcePortRangeMin rule) (sg_SourcePortRangeMax rule)
}.

Lemma check_ports_None what lo hi : check_ports what lo hi = None -> port_bounds lo hi.
Proof.
  unfold check_ports, port_bounds. destruct (_ || _) eqn:E1; [done|]. rewrite !orb_false_iff in E1.
  destruct (hi <? lo) eqn:E2; [done|]. intros _. lia.
Qed.

Lemma check_rule_None known tier rule : check_rule known tier rule = None -> checked_rule rule.
Proof.
  unfold check_rule. rewrite first_error_None, !Forall_cons, Forall_nil. intros (Hv & Hp & _ & Hr & _ & Hl4 & Hsrc & _).
  assert (Hl : is_l4 rule -> bool_decide (sg_Protocol rule = SgProtocolTCP) || bool_decide (sg_Protocol rule = SgProtocolUDP) = true).
  { intros [-> | ->]; [by rewrite bool_decide_true|]. by rewrite (bool_decide_true (SgProtocolUDP = SgProtocolUDP)), orb_true_r. }
  split.
  - destruct (decide (sg_IPVersion rule = "ipv4")); [by left|right]. rewrite bool_decide_false in Hv by done.
    destruct (decide (sg_IPVersion rule = "ipv6")); [done|]. by rewrite bool_decide_false in Hv.
  - unfold SecurityGroupPriorityMin, SecurityGroupPriorityMax in Hp. destruct (_ || _) eqn:E in Hp; [done|]. apply orb_false_iff in E. lia.
  - destruct (decide (sg_RemoteType rule = SgRemoteTypeAddress)); [by left|right]. rewrite bool_decide_false in Hr by done.
    destruct (decide (sg_RemoteType rule = SgRemoteTypeSg)); [done|]. by rewrite bool_decide_false in Hr.
  - intros H4. rewrite (Hl H4) in Hl4. exact (check_ports_None _ _ _ Hl4).
  - intros H4 Hne. rewrite (Hl H4), bool_decide_false in Hsrc by done. exact (check_ports_None _ _ _ Hsrc).
Qed.

Lemma validateSgRule_None known sg : validateSgRule known sg = None ->
  0 <= sg_Tier sg <= 1 /\ Forall checked_rule (sg_IngressRules sg) /\ Forall checked_rule (sg_EgressRules sg).
Proof.
  unfold validateSgRule. rewrite first_error_None, Forall_cons, Forall_fmap, Forall_app. intros [Ht [Hi He]].
  unfold ValidateSecurityGroupTier, SecurityGroupAPITierMinimum, SecurityGroupAPITierMaximum in Ht. destruct (_ || _) eqn:E in Ht; [done|].
  apply orb_false_iff in E. split_and!; [lia|lia| |]; (eapply Forall_impl; [eassumption|]); intros rule; apply check_rule_None.
Qed.

(** ** The match of a rule *)

Section Meaning.

Context {addr : Type} `{Ovn addr}.
Implicit Types p : packet addr.

Definition own (direction : string) p : addr := if egress direction then pk_src p else pk_dst p.

Definition sg_family (rule : SecurityGroupRule) : string := if bool_decide (sg_IPVersion rule = "ipv6") then "ip6" else "ip4".

Definition remote_admits (rule : SecurityGroupRule) (a : addr) : Prop :=
  if bool_decide (sg_RemoteType rule = SgRemoteTypeSg)
  then set_has ((if bool_decide (sg_IPVersion rule = "ipv6") then GetSgV6AssociatedName else GetSgV4AssociatedName) (sg_RemoteSecurityGroup rule)) a = true
  else text_has (sg_RemoteAddress rule) a = true.

(** The packet is one the rule is about. *)
Definition rule_applies (sgName direction : string) p (rule : SecurityGroupRule) : Prop :=
  member direction (GetSgPortGroupName sgName) p /\ pk_family p = sg_family rule /\ remote_admits rule (peer direction p) /\
  (sg_LocalAddress rule <> "" -> text_has (sg_LocalAddress rule) (own direction p) = true) /\
  (sg_Protocol rule = SgProtocolICMP -> pk_proto p = if bool_decide (sg_IPVersion rule = "ipv6") then "icmp6" else "icmp4") /\
  (is_l4 rule -> pk_proto p = sg_Protocol rule /\ sg_PortRangeMin rule <= pk_dport p <= sg_PortRangeMax rule /\
    (sg_LocalAddress rule <> "" -> sg_SourcePortRangeMin rule <= pk_sport p <= sg_SourcePortRangeMax rule)).

(** A range of ports, of either end. *)
Lemma port_range w f lo hi : transport w -> f = "src" \/ f = "dst" -> port_bounds lo hi ->
  says (NewACLMatch (w +:+ "." +:+ f) "<=" (Itoa lo) (Itoa hi))
    (fun p => pk_proto p = w /\ lo <= (if bool_decide (f = "src") then pk_sport p else pk_dport p) <= hi).
Proof.
  intros Hw Hf (Hlo & Hhi & _). assert (Hk : name_ok (w +:+ "." +:+ f) = true).
  { unfold transport in Hw. rewrite !elem_of_cons, elem_of_nil in Hw. destruct Hw as [->|[->|[->|[]]]], Hf as [-> | ->]; done. }
  assert (Hb : forall p l h, field_between p l (w +:+ "." +:+ f) h = bool_decide (pk_proto p = w) &&
    match Atoi l, Atoi h with Some l, Some h => (l <=? (if bool_decide (f = "src") then pk_sport p else pk_dport p)) &&
      ((if bool_decide (f = "src") then pk_sport p else pk_dport p) <=? h) | _, _ => false end).
  { unfold transport in Hw. rewrite !elem_of_cons, elem_of_nil in Hw. destruct Hw as [->|[->|[->|[]]]], Hf as [-> | ->]; done. }
  assert (Hi : name_ok (Itoa lo) = true) by (apply Itoa_name; lia). assert (Hj : name_ok (Itoa hi) = true) by (apply Itoa_name; lia).
  split; [split; [by apply grouped_range|done]|]. intros p. unfold NewACLMatch. rewrite range_meaning by done.
  rewrite Hb, !Atoi_Itoa by lia. rewrite !andb_true_iff, bool_decide_eq_true, !Z.leb_le. done.
Qed.

(** The address of one end. *)
Lemma end_says (family f : string) s v : family = "ip4" \/ family = "ip6" -> f = "src" \/ f = "dst" -> no_special s = true -> name_ok v = true ->
  says (NewACLMatch (family +:+ "." +:+ f) "==" (s +:+ v) "")
    (fun p => pk_family p = family /\ value_has (s +:+ v) (if bool_decide (f = "src") then pk_src p else pk_dst p) = true).
Proof.
  intros Hfam Hf Hs Hv. assert (Hk : name_ok (family +:+ "." +:+ f) = true) by (by destruct Hfam as [-> | ->], Hf as [-> | ->]).
  split; [split; [by apply grouped_cmp; [|left|..]|done]|]. intros p. apply name_ok_iff in Hv as [Hv _].
  unfold NewACLMatch. rewrite cmp_meaning by (done || by left || by apply app_str_not_nil).
  assert (E : field_is p (family +:+ "." +:+ f) (s +:+ v) = if bool_decide (pk_family p = family)
    then Some (value_has (s +:+ v) (if bool_decide (f = "src") then pk_src p else pk_dst p)) else None)
    by (by destruct Hfam as [-> | ->], Hf as [-> | ->]).
  rewrite E, (bool_decide_true ("==" = "==")) by done. case_bool_decide; split; try tauto; [by intros [= ->]|by intros [_ ->]|done].
Qed.

(** The remote end of a rule. *)
Lemma remote_says rule direction : clean_rule rule ->
  says (NewACLMatch (sg_family rule +:+ "." +:+ (if egress direction then "dst" else "src")) "=="
          (if bool_decide (sg_RemoteType rule = SgRemoteTypeSg)
           then "$" +:+ (if bool_decide (sg_IPVersion rule = "ipv6") then GetSgV6AssociatedName else GetSgV4AssociatedName) (sg_RemoteSecurityGroup rule)
           else sg_RemoteAddress rule) "")
    (fun p => pk_family p = sg_family rule /\ remote_admits rule (peer direction p)).
Proof.
  intros (Hsg & Hra & _). unfold remote_admits.
  assert (Hfam : sg_family rule = "ip4" \/ sg_family rule = "ip6") by (unfold sg_family; destruct (bool_decide _); tauto).
  assert (Hf : (if egress direction then "dst" else "src") = "src" \/ (if egress direction then "dst" else "src") = "dst")
    by (destruct (egress direction); tauto).
  assert (Hend : forall p, (if bool_decide ((if egress direction then "dst" else "src") = "src") then pk_src p else pk_dst p) = peer direction p)
    by (intros p; unfold peer; by destruct (egress direction)).
  destruct (bool_decide_reflect (sg_RemoteType rule = SgRemoteTypeSg)) as [Ht|Ht].
  - set (name := (if bool_decide _ then GetSgV6AssociatedName else GetSgV4AssociatedName) _).
    assert (Hname : name_ok name = true) by (unfold name; destruct (bool_decide (sg_IPVersion rule = "ipv6")); by apply sg_as_name).
    eapply says_iff; [|exact (end_says _ _ "$" name Hfam Hf eq_refl Hname)]. intros p. cbv beta. by rewrite Hend.
  - specialize (Hra Ht). pose proof Hra as Hok. apply address_ok_iff in Hok as (Hname & _).
    eapply says_iff; [|exact (end_says _ _ "" _ Hfam Hf eq_refl Hname)]. intros p. cbv beta. by rewrite Hend, app_str_nil_l, value_address.
Qed.

Lemma local_says rule direction : clean_rule rule -> sg_LocalAddress rule <> "" ->
  says (NewACLMatch (sg_family rule +:+ "." +:+ (if egress direction then "src" else "dst")) "==" (sg_LocalAddress rule) "")
    (fun p => pk_family p = sg_family rule /\ text_has (sg_LocalAddress rule) (own direction p) = true).
Proof.
  intros (_ & _ & Hla) Hne. specialize (Hla Hne). pose proof Hla as Hok. apply address_ok_iff in Hok as (Hname & _).
  assert (Hfam : sg_family rule = "ip4" \/ sg_family rule = "ip6") by (unfold sg_family; destruct (bool_decide _); tauto).
  assert (Hf : (if egress direction then "src" else "dst") = "src" \/ (if egress direction then "src" else "dst") = "dst")
    by (destruct (egress direction); tauto).
  eapply says_iff; [|exact (end_says _ _ "" _ Hfam Hf eq_refl Hname)]. intros p. cbv beta. rewrite app_str_nil_l, value_address by done.
  unfold own. by destruct (egress direction).
Qed.

(** The protocol and ports of a rule, added to its addresses. *)
Lemma l4_says rule allowed A : says allowed A -> checked_rule rule ->
  says (if bool_decide (sg_Protocol rule = SgProtocolICMP)
        then NewAndACLMatch [allowed; NewACLMatch (if bool_decide (sg_IPVersion rule = "ipv6") then "icmp6" else "icmp4") "" "" ""]
        else if bool_decide (sg_Protocol rule = SgProtocolTCP) || bool_decide (sg_Protocol rule = SgProtocolUDP) then
          let m := NewAndACLMatch [allowed; NewACLMatch (sg_Protocol rule +:+ ".dst") "<=" (Itoa (sg_PortRangeMin rule)) (Itoa (sg_PortRangeMax rule))] in
          if bool_decide (sg_LocalAddress rule = "") then m
          else NewAndACLMatch [m; NewACLMatch (sg_Protocol rule +:+ ".src") "<=" (Itoa (sg_SourcePortRangeMin rule)) (Itoa (sg_SourcePortRangeMax rule))]
        else allowed)
    (fun p => A p /\ (sg_Protocol rule = SgProtocolICMP -> pk_proto p = if bool_decide (sg_IPVersion rule = "ipv6") then "icmp6" else "icmp4") /\
      (is_l4 rule -> pk_proto p = sg_Protocol rule /\ sg_PortRangeMin rule <= pk_dport p <= sg_PortRangeMax rule /\
        (sg_LocalAddress rule <> "" -> sg_SourcePortRangeMin rule <= pk_sport p <= sg_SourcePortRangeMax rule))).
Proof.
  intros SA [_ _ _ Hports Hsrc]. destruct (bool_decide_reflect (sg_Protocol rule = SgProtocolICMP)) as [Hi|Hi].
  - assert (Hno : ~ is_l4 rule) by (unfold is_l4; rewrite Hi; by intros [?|?]).
    eapply says_iff; [|apply says_pair; [exact SA|]].
    2:{ apply (flag_says (if bool_decide (sg_IPVersion rule = "ipv6") then "icmp6" else "icmp4")
          (fun p => pk_proto p = if bool_decide (sg_IPVersion rule = "ipv6") then "icmp6" else "icmp4")); [by destruct (bool_decide _)|].
        intros p. destruct (bool_decide (sg_IPVersion rule = "ipv6")); unfold flag; rewrite !bool_decide_false by done; cbn [orb]; apply bool_decide_eq_true. }
    intros p. cbv beta. tauto.
  - destruct (bool_decide (sg_Protocol rule = SgProtocolTCP) || bool_decide (sg_Protocol rule = SgProtocolUDP)) eqn:E4.
    + assert (H4 : is_l4 rule) by (by apply orb_true_iff in E4 as [?%bool_decide_eq_true|?%bool_decide_eq_true]; [left|right]).
      assert (Hw : transport (sg_Protocol rule)) by (unfold transport; destruct H4 as [-> | ->]; [by left|by right; left]).
      pose proof (says_pair _ _ _ _ SA (port_range _ "dst" _ _ Hw (or_intror eq_refl) (Hports H4))) as Sd. cbv zeta.
      change (sg_Protocol rule +:+ "." +:+ "dst") with (sg_Protocol rule +:+ ".dst") in Sd. destruct (bool_decide_reflect (sg_LocalAddress rule = "")) as [El|El].
      * eapply says_iff; [|exact Sd]. intros p. cbv beta. rewrite bool_decide_false by done. tauto.
      * eapply says_iff; [|exact (says_pair _ _ _ _ Sd (port_range _ "src" _ _ Hw (or_introl eq_refl) (Hsrc H4 El)))]. intros p. cbv beta.
        rewrite (bool_decide_false ("dst" = "src")), (bool_decide_true ("src" = "src")) by done. tauto.
    + assert (Hno : ~ is_l4 rule) by (apply orb_false_iff in E4 as [?%bool_decide_eq_false ?%bool_decide_eq_false]; by intros [?|?]).
      eapply says_iff; [|exact SA]. intros p. tauto.
Qed.

Lemma sg_says sgName direction rule : name_ok sgName = true -> clean_rule rule -> checked_rule rule ->
  says (sg_match sgName direction rule) (fun p => rule_applies sgName direction p rule).
Proof.
  intros Hn Hc Hk.
  assert (Hfam : sg_family rule = "ip4" \/ sg_family rule = "ip6") by (unfold sg_family; destruct (bool_decide _); tauto).
  pose proof (says_pair _ _ _ _ (says_pair _ _ _ _ (group_says direction _ (sg_pg_name _ Hn)) (family_says _ Hfam)) (remote_says rule direction Hc)) as S0.
  assert (S1 : says (if bool_decide (sg_LocalAddress rule = "") then NewAndACLMatch [all_ip_match (GetSgPortGroupName sgName) direction (sg_family rule); NewACLMatch (sg_family rule +:+ "." +:+ (if egress direction then "dst" else "src")) "=="
          (if bool_decide (sg_RemoteType rule = SgRemoteTypeSg)
           then "$" +:+ (if bool_decide (sg_IPVersion rule = "ipv6") then GetSgV6AssociatedName else GetSgV4AssociatedName) (sg_RemoteSecurityGroup rule)
           else sg_RemoteAddress rule) ""]
      else NewAndACLMatch [NewAndACLMatch [all_ip_match (GetSgPortGroupName sgName) direction (sg_family rule); NewACLMatch (sg_family rule +:+ "." +:+ (if egress direction then "dst" else "src")) "=="
          (if bool_decide (sg_RemoteType rule = SgRemoteTypeSg)
           then "$" +:+ (if bool_decide (sg_IPVersion rule = "ipv6") then GetSgV6AssociatedName else GetSgV4AssociatedName) (sg_RemoteSecurityGroup rule)
           else sg_RemoteAddress rule) ""];
        NewACLMatch (sg_family rule +:+ "." +:+ (if egress direction then "src" else "dst")) "==" (sg_LocalAddress rule) ""])
    (fun p => member direction (GetSgPortGroupName sgName) p /\ pk_family p = sg_family rule /\ remote_admits rule (peer direction p) /\
      (sg_LocalAddress rule <> "" -> text_has (sg_LocalAddress rule) (own direction p) = true))).
  { destruct (bool_decide_reflect (sg_LocalAddress rule = "")) as [El|El].
    - eapply says_iff; [|exact S0]. intros p. cbv beta. tauto.
    - eapply says_iff; [|exact (says_pair _ _ _ _ S0 (local_says rule direction Hc El))]. intros p. cbv beta. tauto. }
  eapply says_iff; [|exact (l4_says rule _ _ S1 Hk)]. intros p. unfold rule_applies. tauto.
Qed.

End Meaning.

(** ** The ACLs the specification asks for *)

Definition rule_acl (sg : SecurityGroup) (direction : string) (rule : SecurityGroupRule) : ACL :=
  bare_acl (GetSgPortGroupName (sg_Name sg)) direction (sg_priority rule) (ACLMatch_String (sg_match (sg_Name sg) direction rule))
    (sg_action rule) (ConvertSGTierToOvnTier (sg_Tier sg)).

Definition same_acl (sg : SecurityGroup) (direction ipSuffix : string) : ACL :=
  bare_acl (GetSgPortGroupName (sg_Name sg)) direction SecurityGroupAllowPriority
    (ACLMatch_String (same_group_match (sg_Name sg) direction ipSuffix)) ACLActionAllowRelated (ConvertSGTierToOvnTier (sg_Tier sg)).

Definition base_acl (pgName direction : string) (m : ACLMatch) (tier : Z) : ACL :=
  bare_acl pgName direction SecurityGroupBasePriority (ACLMatch_String m) ACLActionAllowRelated (ConvertSGTierToOvnTier tier).

Definition wanted_acls (sg : SecurityGroup) (direction : string) : list ACL :=
  (if sg_AllowSameGroupTraffic sg then same_acl sg direction <$> ["ip4"; "ip6"] else []) ++
  (rule_acl sg direction <$> sg_rules sg direction).

Definition wanted_base (pgName direction : string) : list ACL :=
  base_matches pgName direction ≫= (fun m => base_acl pgName direction m <$> api_tiers).

(** ** Texts and priorities *)

Lemma sg_match_keyed sgName direction rule : keyed (sg_match sgName direction rule) = true.
Proof.
  unfold sg_match, all_ip_match, port_direction.
  destruct (bool_decide (sg_IPVersion rule = "ipv6")), (egress direction), (bool_decide (direction = _)), (bool_decide (sg_LocalAddress rule = "")),
    (bool_decide (sg_Protocol rule = SgProtocolICMP)),
    (bool_decide (sg_Protocol rule = SgProtocolTCP) || bool_decide (sg_Protocol rule = SgProtocolUDP)); cbn;
    try done; by destruct (sg_Protocol rule).
Qed.

Lemma same_group_keyed sgName direction ipSuffix : ipSuffix <> "" -> keyed (same_group_match sgName direction ipSuffix) = true.
Proof.
  intros Hs. unfold same_group_match, port_direction, src_or_dst. destruct ipSuffix as [|c s]; [done|].
  destruct (bool_decide (direction = _)); done.
Qed.

Lemma base_keyed pgName direction : Forall (fun m => keyed m = true) (base_matches pgName direction).
Proof.
  unfold base_matches, dhcp_match, port_direction. destruct (egress direction), (bool_decide (direction = _)); repeat constructor.
Qed.

Lemma sg_priority_value rule : checked_rule rule -> Atoi_value (sg_priority rule) = 18484 - sg_Priority rule.
Proof.
  intros Hc. pose proof (cr_priority _ Hc) as Hp. unfold sg_priority.
  change (Atoi_value SecurityGroupHighestPriority) with 18484. unfold Atoi_value. rewrite Atoi_Itoa by lia. done.
Qed.

(** ** Updating one direction *)

Lemma direction_not_empty d : real_direction d -> d <> "".
Proof. by intros [-> | ->]. Qed.

Lemma pg_not_empty name : name <> "" -> GetSgPortGroupName name <> "".
Proof. intros Hn. unfold GetSgPortGroupName. by rewrite bool_decide_false. Qed.

Lemma sg_action_not_empty rule : sg_action rule <> "".
Proof. unfold sg_action. destruct (bool_decide _); [done|]. by destruct (bool_decide _). Qed.

(** What is in the way of no new ACL of the direction. *)
Definition clear_of (d : string) (acls : list ACL) : Prop := Forall (fun a => acl_Direction a <> d) acls.

Lemma sg_acls_ok sg d db : let pg := GetSgPortGroupName (sg_Name sg) in
  nb_ok db -> sg_Name sg <> "" -> real_direction d -> Forall checked_rule (sg_rules sg d) -> is_Some (nb_pgs db !! pg) ->
  clear_of d (acls_at portGroupKey pg db) -> sg_acls sg d db = Ok (Some <$> wanted_acls sg d).
Proof.
  intros pg Hok Hn Hd Hr Hp Hc. pose proof (pg_not_empty _ Hn) as Hpg. pose proof (direction_not_empty _ Hd) as Hde.
  assert (Hnew : forall pr m action tier, pr <> "" -> m <> "" -> action <> "" ->
    newACL pg d pr m action tier id db = Ok (Some (bare_acl pg d pr m action tier))).
  { intros. eapply newACL_in; [done|by left|done..|]. eapply Forall_impl; [exact Hc|]. by intros a Ha [? _]. }
  unfold sg_acls. fold pg.
  assert (Es : (if sg_AllowSameGroupTraffic sg
          then collect (fun ipSuffix => wrapped "new allow acl for security group %s: %w" [sg_Name sg]
                 (newACL pg d SecurityGroupAllowPriority (ACLMatch_String (same_group_match (sg_Name sg) d ipSuffix))
                    ACLActionAllowRelated (ConvertSGTierToOvnTier (sg_Tier sg)) id db)) ["ip4"; "ip6"]
          else Ok []) = Ok (Some <$> (if sg_AllowSameGroupTraffic sg then same_acl sg d <$> ["ip4"; "ip6"] else []))).
  { destruct (sg_AllowSameGroupTraffic sg); [|done]. rewrite <-list_fmap_compose.
    apply (collect_ok _ (Some ∘ same_acl sg d)). assert (Hi : Forall (fun s => s <> "") ["ip4"; "ip6"]) by by repeat constructor.
    eapply Forall_impl; [exact Hi|]. intros s Hs. cbv beta. rewrite Hnew; [done|done|by apply keyed_text, same_group_keyed|done]. }
  rewrite Es. cbn [mbind result_bind].
  rewrite (collect_ok _ (Some ∘ rule_acl sg d)).
  - cbn [mbind result_bind]. unfold wanted_acls. by rewrite fmap_app, <-list_fmap_compose.
  - eapply Forall_impl; [exact Hr|]. intros rule Hrule. unfold newSgRuleACL. fold pg. rewrite Hnew; [done| | |apply sg_action_not_empty].
    + unfold sg_priority. change (Atoi_value SecurityGroupHighestPriority) with 18484. pose proof (cr_priority _ Hrule) as Hpr.
      assert (Hi : name_ok (Itoa (18484 - sg_Priority rule)) = true) by (apply Itoa_name; lia). by apply name_ok_iff in Hi as [? _].
    + apply keyed_text, sg_match_keyed.
Qed.

Lemma UpdateSgACL_changes sg d db : let pg := GetSgPortGroupName (sg_Name sg) in
  nb_ok db -> accepting db -> sg_Name sg <> "" -> real_direction d -> Forall checked_rule (sg_rules sg d) -> is_Some (nb_pgs db !! pg) ->
  exists db', UpdateSgACL sg d db = Done (Ok (), db') /\
    changes portGroupKey pg (filter (fun a => acl_Direction a <> d) (acls_at portGroupKey pg db) ++ wanted_acls sg d) db db'.
Proof.
  intros pg Hok Ha Hn Hd Hr Hp. pose proof (pg_not_empty _ Hn) as Hpg.
  destruct (DeleteAcls_changes pg portGroupKey d db Hpg Hok ltac:(by left) Ha Hp) as (db1 & E1 & C1).
  assert (Ef : filter (fun a => ~ (d = "" \/ acl_Direction a = d)) (acls_at portGroupKey pg db) =
               filter (fun a => acl_Direction a <> d) (acls_at portGroupKey pg db)).
  { apply list_filter_iff_in. intros a _. pose proof (direction_not_empty _ Hd). tauto. }
  rewrite Ef in C1. unfold UpdateSgACL. fold pg.
  rewrite (bind_done _ _ db () db1) by (by apply wrapping_done).
  pose proof (ch_self _ _ _ _ _ C1) as Hp1. pose proof (ch_ok _ _ _ _ _ C1) as Hok1.
  rewrite (bind_done _ _ db1 (Some <$> wanted_acls sg d) db1).
  2:{ apply reading_done, sg_acls_ok; [done..|]. fold pg. rewrite (ch_acls _ _ _ _ _ C1). apply Forall_forall. by intros a [? _]%list_elem_of_filter. }
  destruct (CreateAcls_changes pg portGroupKey (Some <$> wanted_acls sg d) db1) as (db2 & E2 & C2).
  - done.
  - by left.
  - by eapply changes_accepting.
  - done.
  - rewrite omap_id_Some. unfold wanted_acls. apply Forall_app. split.
    + destruct (sg_AllowSameGroupTraffic sg); [|done]. apply Forall_fmap, Forall_forall. intros s _. apply bare_parent.
    + apply Forall_fmap, Forall_forall. intros rule _. apply bare_parent.
  - exists db2. split; [by apply wrapping_done|]. rewrite omap_id_Some, (ch_acls _ _ _ _ _ C1) in C2. by eapply changes_trans.
Qed.

(** ** The base ACLs *)

Lemma base_acls_ok pgName d m tiers db : Forall (fun t => newACL pgName d SecurityGroupBasePriority m ACLActionAllowRelated (ConvertSGTierToOvnTier t) id db =
    Ok (Some (bare_acl pgName d SecurityGroupBasePriority m ACLActionAllowRelated (ConvertSGTierToOvnTier t)))) tiers ->
  base_acls pgName d m tiers db =
  (fun t => Some (bare_acl pgName d SecurityGroupBasePriority m ACLActionAllowRelated (ConvertSGTierToOvnTier t))) <$> tiers.
Proof. induction 1 as [|t tiers Ht _ IH]; [done|]. cbn [base_acls]. by rewrite Ht, IH. Qed.

Lemma bind_fmap_Some {A B} (f : A -> list B) (l : list A) : l ≫= (fun x => Some <$> f x) = Some <$> (l ≫= f).
Proof. induction l as [|x l IH]; [done|]. rewrite !bind_cons, IH. by rewrite fmap_app. Qed.

Lemma bind_ext_in {A B} (f g : A -> list B) (l : list A) : Forall (fun x => f x = g x) l -> l ≫= f = l ≫= g.
Proof. induction 1 as [|x l Hx _ IH]; [done|]. by rewrite !bind_cons, Hx, IH. Qed.

Lemma CreateSgBaseACL_changes sgName d db : let pg := GetSgPortGroupName sgName in
  nb_ok db -> accepting db -> sgName <> "" -> real_direction d -> is_Some (nb_pgs db !! pg) ->
  Forall (fun a => ~ (acl_Direction a = d /\ acl_Priority a = 2005)) (acls_at portGroupKey pg db) ->
  exists db', CreateSgBaseACL sgName d db = Done (Ok (), db') /\
    changes portGroupKey pg (acls_at portGroupKey pg db ++ wanted_base pg d) db db'.
Proof.
  intros pg Hok Ha Hn Hd Hp Hc. pose proof (pg_not_empty _ Hn) as Hpg. pose proof (direction_not_empty _ Hd) as Hde.
  assert (E : base_matches pg d ≫= (fun m => base_acls pg d (ACLMatch_String m) api_tiers db) = Some <$> wanted_base pg d).
  { unfold wanted_base. rewrite <-bind_fmap_Some. apply bind_ext_in. eapply Forall_impl; [apply base_keyed|]. intros m Hm.
    rewrite base_acls_ok; [by rewrite <-list_fmap_compose|]. apply Forall_forall. intros t _.
    eapply newACL_in; [done|by left|done..|by apply keyed_text|done|done]. }
  unfold CreateSgBaseACL. fold pg. rewrite E.
  destruct (CreateAcls_changes pg portGroupKey (Some <$> wanted_base pg d) db) as (db' & E' & C'); [done|by left|done..| |].
  - rewrite omap_id_Some. unfold wanted_base. apply Forall_forall. intros a (m & Ha' & _)%list_elem_of_bind.
    apply list_elem_of_fmap in Ha' as (t & -> & _). apply bare_parent.
  - exists db'. split; [by apply wrapping_done|]. by rewrite omap_id_Some in C'.
Qed.

(** ** Both calls, as the controller makes them *)

Definition sync_direction (sg : SecurityGroup) (d : string) : DB () := _ ← UpdateSgACL sg d; CreateSgBaseACL (sg_Name sg) d.

Lemma wanted_priority sg d a : Forall checked_rule (sg_rules sg d) -> a ∈ wanted_acls sg d -> acl_Priority a <> 2005.
Proof.
  intros Hr. unfold wanted_acls. rewrite elem_of_app. intros [Ha|Ha].
  - destruct (sg_AllowSameGroupTraffic sg); [|by apply elem_of_nil in Ha]. by apply list_elem_of_fmap in Ha as (s & -> & _).
  - apply list_elem_of_fmap in Ha as (rule & -> & Hin). rewrite Forall_forall in Hr. specialize (Hr rule Hin).
    unfold rule_acl, bare_acl. cbn [acl_Priority]. rewrite sg_priority_value by done. pose proof (cr_priority _ Hr). lia.
Qed.

Lemma sync_direction_changes sg d db : let pg := GetSgPortGroupName (sg_Name sg) in
  nb_ok db -> accepting db -> sg_Name sg <> "" -> real_direction d -> Forall checked_rule (sg_rules sg d) -> is_Some (nb_pgs db !! pg) ->
  exists db', sync_direction sg d db = Done (Ok (), db') /\
    changes portGroupKey pg (filter (fun a => acl_Direction a <> d) (acls_at portGroupKey pg db) ++ wanted_acls sg d ++ wanted_base pg d) db db'.
Proof.
  intros pg Hok Ha Hn Hd Hr Hp. destruct (UpdateSgACL_changes sg d db Hok Ha Hn Hd Hr Hp) as (db1 & E1 & C1). fold pg in C1.
  pose proof (ch_self _ _ _ _ _ C1) as Hp1. pose proof (ch_acls _ _ _ _ _ C1) as Ea.
  destruct (CreateSgBaseACL_changes (sg_Name sg) d db1) as (db2 & E2 & C2); [by eapply ch_ok|by eapply changes_accepting|done|done|done| |].
  - fold pg. rewrite Ea. apply Forall_app. split; apply Forall_forall; intros a Hin.
    + apply list_elem_of_filter in Hin as [Hne _]. by intros [? _].
    + intros [_ H5]. by apply (wanted_priority sg d a).
  - exists db2. unfold sync_direction. rewrite (bind_done _ _ db () db1) by done. split; [done|]. fold pg in C2.
    rewrite Ea, <-app_assoc in C2. by eapply changes_trans.
Qed.

(** ** Lost ACLs *)

(** The table has an ACL with the key of the rule. *)
Definition has_acl (sg : SecurityGroup) (d : string) (db : NbDB) (rule : SecurityGroupRule) : Prop :=
  Exists (fun r => key_of r.2 = key_of (rule_acl sg d rule)) (all_rows db).

Lemma rule_acl_key sg d rule : key_of (rule_acl sg d rule) = (GetSgPortGroupName (sg_Name sg), d, Atoi_value (sg_priority rule),
  ACLMatch_String (sg_match (sg_Name sg) d rule), ConvertSGTierToOvnTier (sg_Tier sg)).
Proof. unfold rule_acl, key_of. by rewrite bare_parent. Qed.

#[global] Instance has_acl_dec sg d db rule : Decision (has_acl sg d db rule).
Proof. unfold has_acl. apply _. Defined.

Lemma some_lost_iff sg d rules db : sg_Name sg <> "" ->
  some_lost sg d rules db = Ok (negb (bool_decide (Forall (has_acl sg d db) rules))).
Proof.
  intros Hn. induction rules as [|rule rules IH]; [by rewrite bool_decide_true|]. cbn [some_lost].
  unfold sgRuleNoACL. rewrite ACLExists_iff by (by apply pg_not_empty). cbn [wrapped mbind result_bind].
  rewrite <-rule_acl_key. destruct (bool_decide_reflect (has_acl sg d db rule)) as [Hh|Hh]; unfold has_acl in Hh.
  - rewrite bool_decide_true by done. cbn [negb]. rewrite IH. do 2 f_equal. apply bool_decide_ext. rewrite Forall_cons. unfold has_acl at 2. tauto.
  - rewrite bool_decide_false by done. cbn [negb]. rewrite bool_decide_false; [done|]. rewrite Forall_cons. unfold has_acl at 1. tauto.
Qed.

Lemma SGLostACL_iff sg db : sg_Name sg <> "" ->
  SGLostACL sg db = Ok (negb (bool_decide (Forall (has_acl sg ACLDirectionToLport db) (sg_IngressRules sg) /\
                                           Forall (has_acl sg ACLDirectionFromLport db) (sg_EgressRules sg)))).
Proof.
  intros Hn. unfold SGLostACL. rewrite !some_lost_iff by done. cbn [mbind result_bind].
  destruct (bool_decide_reflect (Forall (has_acl sg ACLDirectionToLport db) (sg_IngressRules sg))) as [Hi|Hi]; cbn [negb].
  - do 2 f_equal. apply bool_decide_ext. tauto.
  - rewrite bool_decide_false; [done|]. tauto.
Qed.

Lemma wanted_has_acl sg d db : Forall (fun a => a ∈ acls_at portGroupKey (GetSgPortGroupName (sg_Name sg)) db) (wanted_acls sg d) ->
  Forall (has_acl sg d db) (sg_rules sg d).
Proof.
  intros Hall. apply Forall_forall. intros rule Hr. rewrite Forall_forall in Hall. specialize (Hall (rule_acl sg d rule)).
  assert (Hin : rule_acl sg d rule ∈ wanted_acls sg d) by (unfold wanted_acls; apply elem_of_app; right; apply list_elem_of_fmap; by exists rule).
  specialize (Hall Hin). unfold acls_at in Hall. apply list_elem_of_fmap in Hall as (r & E & Hr').
  unfold has_acl. rewrite Exists_exists. exists r. split; [|by rewrite E]. eapply rows_at_all; [by left|exact Hr'].
Qed.

(** ** Both directions *)

Lemma wanted_direction sg d : Forall (fun a => acl_Direction a = d) (wanted_acls sg d ++ wanted_base (GetSgPortGroupName (sg_Name sg)) d).
Proof.
  apply Forall_forall. intros a. unfold wanted_acls, wanted_base. rewrite !elem_of_app. intros [[Ha|Ha]|Ha].
  - destruct (sg_AllowSameGroupTraffic sg); [|by apply elem_of_nil in Ha]. by apply list_elem_of_fmap in Ha as (s & -> & _).
  - by apply list_elem_of_fmap in Ha as (rule & -> & _).
  - apply list_elem_of_bind in Ha as (m & Ha & _). by apply list_elem_of_fmap in Ha as (t & -> & _).
Qed.

(** The ACLs of a group whose two directions are in place; ACLs of no direction
    of OVN stay. *)
Definition synced_acls (sg : SecurityGroup) : list ACL :=
  let pg := GetSgPortGroupName (sg_Name sg) in
  (wanted_acls sg ACLDirectionToLport ++ wanted_base pg ACLDirectionToLport) ++
  (wanted_acls sg ACLDirectionFromLport ++ wanted_base pg ACLDirectionFromLport).

Definition directed (acls : list ACL) : Prop := Forall (fun a => real_direction (acl_Direction a)) acls.

(** The ACLs of one direction, and that a list has exactly these of it. *)
Definition direction_acls (sg : SecurityGroup) (d : string) : list ACL := wanted_acls sg d ++ wanted_base (GetSgPortGroupName (sg_Name sg)) d.

Definition in_place (sg : SecurityGroup) (d : string) (acls : list ACL) : Prop := filter (fun a => acl_Direction a = d) acls ≡ₚ direction_acls sg d.

Lemma in_place_synced sg acls : directed acls -> in_place sg ACLDirectionToLport acls -> in_place sg ACLDirectionFromLport acls -> acls ≡ₚ synced_acls sg.
Proof.
  intros Hd H1 H2. unfold synced_acls. fold (direction_acls sg ACLDirectionToLport) (direction_acls sg ACLDirectionFromLport). rewrite <-H1, <-H2. clear H1 H2.
  induction Hd as [|a acls Ha _ IH]; [done|]. rewrite !filter_cons. destruct Ha as [E|E]; rewrite E.
  - rewrite decide_True, decide_False by done. cbn. by rewrite <-IH.
  - rewrite decide_False, decide_True by done. by rewrite <-Permutation_middle, <-IH.
Qed.

Lemma synced_in_place sg d acls : real_direction d -> acls ≡ₚ synced_acls sg -> in_place sg d acls.
Proof.
  intros Hd Hp. unfold in_place. rewrite Hp. unfold synced_acls. rewrite filter_app.
  pose proof (wanted_direction sg ACLDirectionToLport) as D1. pose proof (wanted_direction sg ACLDirectionFromLport) as D2. destruct Hd as [-> | ->].
  - rewrite filter_all, filter_none, app_nil_r by (first [exact D1|eapply Forall_impl; [exact D2|]; by intros a ->]). done.
  - rewrite filter_none, filter_all by (first [exact D2|eapply Forall_impl; [exact D1|]; by intros a ->]). done.
Qed.

(** A direction that is updated, or that is in place already, is in place
    afterwards; the other one is as it was. *)
Lemma sync_direction_if sg d (update : bool) db : let pg := GetSgPortGroupName (sg_Name sg) in
  nb_ok db -> accepting db -> sg_Name sg <> "" -> real_direction d -> Forall checked_rule (sg_rules sg d) -> is_Some (nb_pgs db !! pg) ->
  directed (acls_at portGroupKey pg db) -> (update = false -> in_place sg d (acls_at portGroupKey pg db)) ->
  exists db' acls, (if update then sync_direction sg d else mret () : DB ()) db = Done (Ok (), db') /\ changes portGroupKey pg acls db db' /\
    directed acls /\ in_place sg d acls /\
    forall d', d' <> d -> filter (fun a => acl_Direction a = d') acls = filter (fun a => acl_Direction a = d') (acls_at portGroupKey pg db).
Proof.
  intros pg Hok Ha Hn Hd Hr Hp Hdir Hin. destruct update.
  2:{ exists db, (acls_at portGroupKey pg db). split_and!; [done|by apply changes_refl|done|by apply Hin|done]. }
  destruct (sync_direction_changes sg d db Hok Ha Hn Hd Hr Hp) as (db' & E & C). fold pg in C. exists db'. eexists. split_and!; [exact E|exact C|..].
  all: pose proof (wanted_direction sg d) as Hw; fold pg in Hw.
  - apply Forall_app. split; [apply Forall_forall; intros a [_ Ha']%list_elem_of_filter; by eapply Forall_forall in Hdir|]. eapply Forall_impl; [exact Hw|]. by intros a ->.
  - unfold in_place, direction_acls. fold pg. rewrite filter_app, filter_none, (filter_all _ (wanted_acls sg d ++ _)); [done|done|].
    apply Forall_forall. by intros a [Hne _]%list_elem_of_filter.
  - intros d' Hne. rewrite filter_app, (filter_none _ (wanted_acls sg d ++ _)), app_nil_r.
    + rewrite list_filter_filter. apply list_filter_iff. intros a. split; [by intros [? _]|]. intros ->. done.
    + eapply Forall_impl; [exact Hw|]. intros a -> Ee. by apply Hne.
Qed.
