(* ===== verification/SgVerdict.v ===== *)
(** * The verdict of security groups

    A port of a security group is also in the port group that drops everything.
    Of the ACLs of both groups in the tier of the security group, the rule with
    the smallest number that applies to a TCP, UDP or SCTP packet decides; without
    one DHCP passes, then the traffic inside the group where it is allowed, and
    the rest is dropped. *)
From Stdlib Require Import Ascii.
From S2P Require Import Prelude GoStrings GoNet GoNetText UtilNet GoText AclMatch NbDb NbAcl NbAclFacts PolicyAcl AclMeaning PolicyFacts PolicyVerdict SecurityGroup SgTable.

Local Open Scope Z_scope.

(** ** The group that drops everything *)

Definition deny_acl (pgName direction : string) (tier : Z) : ACL :=
  bare_acl pgName direction SecurityGroupDropPriority (ACLMatch_String (all_ip_match pgName direction "ip")) ACLActionDrop (ConvertSGTierToOvnTier tier).

Definition wanted_deny (sgName : string) : list ACL :=
  api_tiers ≫= (fun tier => [deny_acl (GetSgPortGroupName sgName) ACLDirectionToLport tier; deny_acl (GetSgPortGroupName sgName) ACLDirectionFromLport tier]).

Lemma deny_text pgName d : real_direction d ->
  ACLMatch_String (all_ip_match pgName d "ip") = (if egress d then "inport == @" else "outport == @") +:+ pgName +:+ " && ip".
Proof. intros [-> | ->]; unfold ACLMatch_String; cbn; by rewrite ?app_str_assoc. Qed.

(** A deny ACL that is in the table is not built again. *)
Definition missing (sgName : string) (db : NbDB) (a : ACL) : option ACL :=
  if bool_decide (a ∈ acls_at portGroupKey (GetSgPortGroupName sgName) db) then None else Some a.

Lemma new_deny sgName d tier db : let pg := GetSgPortGroupName sgName in
  sgName <> "" -> real_direction d -> tier ∈ api_tiers -> nb_ok db -> is_Some (nb_pgs db !! pg) ->
  Forall (fun a => a ∈ wanted_deny sgName) (acls_at portGroupKey pg db) ->
  newACL pg d SecurityGroupDropPriority (ACLMatch_String (all_ip_match pg d "ip")) ACLActionDrop (ConvertSGTierToOvnTier tier) id db =
  Ok (missing sgName db (deny_acl pg d tier)).
Proof.
  intros pg Hn Hd Ht Hok Hp Hall. pose proof (pg_not_empty _ Hn) as Hpg. fold pg in Hpg. unfold newACL, required.
  assert (Hm : ACLMatch_String (all_ip_match pg d "ip") <> "") by (rewrite deny_text by done; by destruct (egress d)).
  rewrite !bool_decide_false by (done || by apply direction_not_empty). cbn [orb]. rewrite ACLExists_iff by done. cbn [wrapped mbind result_bind].
  f_equal. unfold missing. fold pg.
  assert (Hiff : Exists (fun r => key_of r.2 = (pg, d, Atoi_value SecurityGroupDropPriority, ACLMatch_String (all_ip_match pg d "ip"),
      ConvertSGTierToOvnTier tier)) (all_rows db) <-> deny_acl pg d tier ∈ acls_at portGroupKey pg db).
  { rewrite Exists_exists. unfold acls_at. rewrite list_elem_of_fmap. split.
    - intros (r & Hr & Hk). pose proof Hk as Hk0. unfold key_of in Hk. injection Hk as Hpar Hdir _ _ Htier. exists r.
      pose proof (rows_with_parent db portGroupKey pg r Hok ltac:(by left) Hp Hr Hpar) as Hat. split; [|done].
      rewrite Forall_forall in Hall. specialize (Hall r.2). unfold acls_at in Hall.
      assert (Hin : r.2 ∈ wanted_deny sgName) by (apply Hall, list_elem_of_fmap; by exists r).
      unfold wanted_deny in Hin. fold pg in Hin. apply list_elem_of_bind in Hin as (t & Hin & _).
      rewrite !elem_of_cons, elem_of_nil in Hin. unfold deny_acl in *.
      destruct Hin as [Hin|[Hin|[]]]; rewrite Hin in Hdir, Htier |- *; cbn in Hdir, Htier; unfold ConvertSGTierToOvnTier in *;
        rewrite <-Hdir, <-Htier; done.
    - intros (r & E & Hr). exists r. split; [eapply rows_at_all; [by left|exact Hr]|]. rewrite <-E. unfold deny_acl, key_of. by rewrite bare_parent. }
  destruct (bool_decide_reflect (deny_acl pg d tier ∈ acls_at portGroupKey pg db)) as [Hin|Hin].
  - by rewrite bool_decide_true by (by apply Hiff).
  - rewrite bool_decide_false; [done|]. by rewrite Hiff.
Qed.

(** Whatever part of the ACLs is there, all of them are afterwards. *)
Lemma CreateSgDenyAllACL_changes sgName db : let pg := GetSgPortGroupName sgName in
  sgName <> "" -> nb_ok db -> accepting db -> is_Some (nb_pgs db !! pg) ->
  Forall (fun a => a ∈ wanted_deny sgName) (acls_at portGroupKey pg db) ->
  exists db' l, CreateSgDenyAllACL sgName db = Done (Ok (), db') /\ changes portGroupKey pg l db db' /\ (forall a, a ∈ l <-> a ∈ wanted_deny sgName).
Proof.
  intros pg Hn Hok Ha Hp Hall.
  assert (E : deny_all_acls sgName db = Ok (missing sgName db <$> wanted_deny sgName)).
  { pose proof (deny_text pg ACLDirectionToLport ltac:(by left)) as Ti. pose proof (deny_text pg ACLDirectionFromLport ltac:(by right)) as Te.
    assert (Hnew : forall d tier, real_direction d -> tier ∈ api_tiers ->
      newACL pg d SecurityGroupDropPriority (ACLMatch_String (all_ip_match pg d "ip")) ACLActionDrop (ConvertSGTierToOvnTier tier) id db =
      Ok (missing sgName db (deny_acl pg d tier))) by (intros; by apply new_deny).
    unfold deny_all_acls. fold pg. change ("outport == @" +:+ pg +:+ " && ip") with
      ((if egress ACLDirectionToLport then "inport == @" else "outport == @") +:+ pg +:+ " && ip").
    change ("inport == @" +:+ pg +:+ " && ip") with
      ((if egress ACLDirectionFromLport then "inport == @" else "outport == @") +:+ pg +:+ " && ip").
    rewrite <-Ti, <-Te. unfold wanted_deny. fold pg.
    rewrite (collect_ok _ (fun tier => [missing sgName db (deny_acl pg ACLDirectionToLport tier); missing sgName db (deny_acl pg ACLDirectionFromLport tier)])).
    - done.
    - apply Forall_forall. intros t Ht. rewrite (Hnew ACLDirectionToLport) by (done || by left). cbn [wrapped mbind result_bind]. rewrite (Hnew ACLDirectionFromLport) by (done || by right). done. }
  unfold CreateSgDenyAllACL. rewrite (bind_done _ _ db (missing sgName db <$> wanted_deny sgName) db) by (by apply reading_done). fold pg.
  destruct (CreateAcls_changes pg portGroupKey (missing sgName db <$> wanted_deny sgName) db) as (db' & E' & C'); [done|by left|done..| |].
  - apply Forall_forall. intros a Hin. apply list_elem_of_omap in Hin as (o & Ho & Ei). apply list_elem_of_fmap in Ho as (b & -> & Hb).
    unfold id, missing in Ei. destruct (bool_decide _) in Ei; [done|]. injection Ei as <-. unfold wanted_deny in Hb.
    apply list_elem_of_bind in Hb as (t & Hb & _). rewrite !elem_of_cons, elem_of_nil in Hb. destruct Hb as [->|[->|[]]]; apply bare_parent.
  - exists db', (acls_at portGroupKey pg db ++ omap id (missing sgName db <$> wanted_deny sgName)). split_and!; [by apply wrapping_done|done|].
    intros a. rewrite elem_of_app, list_elem_of_omap. rewrite Forall_forall in Hall. split.
    + intros [Hin|(o & Ho & Ei)]; [by apply Hall|]. apply list_elem_of_fmap in Ho as (b & -> & Hb). unfold id, missing in Ei.
      destruct (bool_decide _) in Ei; [done|]. by injection Ei as <-.
    + intros Hin. destruct (decide (a ∈ acls_at portGroupKey pg db)) as [Hy|Hno]; [by left|right]. exists (Some a). split; [|done].
      apply list_elem_of_fmap. exists a. split; [|done]. unfold missing. fold pg. by rewrite bool_decide_false.
Qed.

Section Verdict.

Context {addr : Type} `{Ovn addr}.
Implicit Types p : packet addr.

(** ** What the ACLs match *)

Lemma rule_acl_matches sg d rule p : name_ok (sg_Name sg) = true -> clean_rule rule -> checked_rule rule ->
  text_matches p (acl_Match (rule_acl sg d rule)) <-> rule_applies (sg_Name sg) d p rule.
Proof.
  intros Hn Hc Hk. destruct (sg_says (sg_Name sg) d rule Hn Hc Hk) as [[Hg _] Hm]. cbn [acl_Match rule_acl bare_acl].
  rewrite text_meaning by done. apply Hm.
Qed.

(** A packet between members of the group. *)
Definition inside (sgName d : string) p : Prop :=
  member d (GetSgPortGroupName sgName) p /\
  ((pk_family p = "ip4" /\ set_has (GetSgV4AssociatedName sgName) (peer d p) = true) \/
   (pk_family p = "ip6" /\ set_has (GetSgV6AssociatedName sgName) (peer d p) = true)).

Lemma same_acl_matches sg d p : name_ok (sg_Name sg) = true ->
  Exists (fun s => text_matches p (acl_Match (same_acl sg d s))) ["ip4"; "ip6"] <-> inside (sg_Name sg) d p.
Proof.
  intros Hn. pose proof (group_says d _ (sg_pg_name _ Hn)) as [F1 M1].
  assert (Hone : forall s name, s = "ip4" \/ s = "ip6" -> name_ok name = true ->
    says (NewAndACLMatch [NewACLMatch (port_direction d) "==" ("@" +:+ GetSgPortGroupName (sg_Name sg)) ""; NewACLMatch s "" "" "";
                          NewACLMatch (s +:+ "." +:+ src_or_dst d) "==" ("$" +:+ name) ""])
      (fun p => member d (GetSgPortGroupName (sg_Name sg)) p /\ pk_family p = s /\ set_has name (peer d p) = true)).
  { intros s name Hs Hname. destruct (family_says s Hs) as [F2 M2].
    assert (Hf : src_or_dst d = "src" \/ src_or_dst d = "dst") by (unfold src_or_dst; destruct (bool_decide _); tauto).
    destruct (end_says s (src_or_dst d) "$" name Hs Hf eq_refl Hname) as [F3 M3].
    split; [apply fits_And; [done|]; by rewrite !Forall_cons, Forall_nil|]. intros q.
    rewrite meaning_And, !Forall_cons, Forall_nil, M1, M2, M3.
    assert (E : (if bool_decide (src_or_dst d = "src") then pk_src q else pk_dst q) = peer d q)
      by (unfold src_or_dst, peer, egress; by destruct (bool_decide (d = _))).
    rewrite E. change (value_has ("$" +:+ name) (peer d q)) with (set_has name (peer d q)). tauto. }
  apply name_ok_iff in Hn as [_ Hc].
  destruct (Hone "ip4" (GetSgV4AssociatedName (sg_Name sg)) ltac:(by left)) as [[G4 _] M4]; [by apply sg_as_name|].
  destruct (Hone "ip6" (GetSgV6AssociatedName (sg_Name sg)) ltac:(by right)) as [[G6 _] M6]; [by apply sg_as_name|].
  rewrite !Exists_cons, Exists_nil. unfold same_acl, bare_acl. cbn [acl_Match]. unfold same_group_match.
  rewrite (bool_decide_false ("ip4" = "ip6")), (bool_decide_true ("ip6" = "ip6")) by done.
  rewrite (text_meaning p _ G4), (text_meaning p _ G6), M4, M6. unfold inside. tauto.
Qed.

(** The base ACLs let only DHCP of the packets with ports pass. *)
Lemma no_field w f v p : transport (pk_proto p) -> ~ transport w -> w <> "ip4" -> w <> "ip6" -> v <> "" -> name_ok (w +:+ "." +:+ f) = true ->
  contains_char "."%char w = false -> w +:+ "." +:+ f <> "inport" -> w +:+ "." +:+ f <> "outport" ->
  ~ meaning p (NewACLMatch (w +:+ "." +:+ f) "==" v "").
Proof.
  intros Hp Hw H4 H6 Hv Hn Hc Hi Ho. unfold NewACLMatch. rewrite cmp_meaning by (done || by left). unfold field_is.
  rewrite (bool_decide_false (w +:+ "." +:+ f = "inport")), (bool_decide_false (w +:+ "." +:+ f = "outport")) by done.
  change (w +:+ "." +:+ f) with (w +:+ String "." f). rewrite Cut_app by done.
  rewrite (bool_decide_false (w = "ip4")), (bool_decide_false (w = "ip6")) by done. cbn [orb].
  rewrite (bool_decide_false (pk_proto p = w)); [done|]. by intros <-.
Qed.

Lemma not_transport w : bool_decide (w ∈ ["tcp"; "udp"; "sctp"]) = false -> ~ transport w.
Proof. apply bool_decide_eq_false_1. Qed.

Lemma base_matches_dhcp sgName d p : name_ok sgName = true -> transport (pk_proto p) ->
  Exists (fun m => text_matches p (ACLMatch_String m)) (base_matches (GetSgPortGroupName sgName) d) <->
  dhcp_packet d (GetSgPortGroupName sgName) p.
Proof.
  intros Hn Hp. set (pg := GetSgPortGroupName sgName). pose proof (sg_pg_name _ Hn) as Hpg. fold pg in Hpg.
  destruct (group_says d pg Hpg) as [F1 M1].
  destruct (dhcp_says pg d "67" "68" "ip4" 67 68 Hpg ltac:(by left) eq_refl eq_refl eq_refl eq_refl) as [[G4 _] M4].
  destruct (dhcp_says pg d "547" "546" "ip6" 547 546 Hpg ltac:(by right) eq_refl eq_refl eq_refl eq_refl) as [[G6 _] M6].
  assert (Hand : forall ms, Forall fits ms -> Exists (fun m => ~ meaning p m) ms ->
    ~ text_matches p (ACLMatch_String (NewAndACLMatch (NewACLMatch (port_direction d) "==" ("@" +:+ pg) "" :: ms)))).
  { intros ms Hf Hex. destruct (fits_And (NewACLMatch (port_direction d) "==" ("@" +:+ pg) "" :: ms) ltac:(done)) as [Hg _]; [by constructor|].
    rewrite (text_meaning p _ Hg). intros Hm. apply meaning_And in Hm. apply Forall_cons in Hm as [_ Hm].
    rewrite Exists_exists in Hex. destruct Hex as (m & Hin & Hno). rewrite Forall_forall in Hm. by apply Hno, Hm. }
  assert (Ha : ~ meaning p (NewACLMatch "arp" "" "" "")).
  { destruct (flag_says "arp" (fun q => pk_proto q = "arp") eq_refl) as [_ M]; [intros q; unfold flag; rewrite !bool_decide_false by done;
      cbn [orb]; apply bool_decide_eq_true|]. rewrite M. intros E. rewrite E in Hp. by apply (not_transport "arp" eq_refl) in Hp. }
  assert (Hi : forall v, v <> "" -> ~ meaning p (NewACLMatch "icmp6.type" "==" v ""))
    by (intros v Hv; apply (no_field "icmp6" "type"); try done; exact (not_transport "icmp6" eq_refl)).
  assert (Hv : ~ meaning p (NewACLMatch "ip.proto" "==" "112" ""))
    by (apply (no_field "ip" "proto"); try done; exact (not_transport "ip" eq_refl)).
  unfold base_matches. rewrite !Exists_cons, Exists_nil. fold pg. rewrite (text_meaning p _ G4), (text_meaning p _ G6), M4, M6.
  assert (N1 := Hand [NewACLMatch "arp" "" "" ""] ltac:(by repeat constructor) ltac:(by left)).
  assert (N2 := fun t Ht => Hand [NewACLMatch "icmp6.type" "==" t ""; NewACLMatch "icmp6.code" "==" "0" ""; NewACLMatch "ip.ttl" "==" "255" ""] Ht).
  assert (N5 := Hand [NewACLMatch "ip.proto" "==" "112" ""] ltac:(by repeat constructor) ltac:(by left)).
  unfold dhcp_packet. destruct (egress d).
  - specialize (N2 "{130, 133, 135, 136}" ltac:(by repeat constructor) ltac:(left; by apply Hi)). tauto.
  - specialize (N2 "{130, 134, 135, 136}" ltac:(by repeat constructor) ltac:(left; by apply Hi)). tauto.
Qed.

(** ** The specification *)

(** A rule of the group with the smallest number of those that apply; else what
    passes without a rule; else the drop of the group [deny]. *)
Definition sg_decision (sg : SecurityGroup) (deny d : string) p (action : string) : Prop :=
  let applies rule := rule ∈ sg_rules sg d /\ rule_applies (sg_Name sg) d p rule in
  let passes := dhcp_packet d (GetSgPortGroupName (sg_Name sg)) p \/ (sg_AllowSameGroupTraffic sg = true /\ inside (sg_Name sg) d p) in
  (exists rule, applies rule /\ (forall r, applies r -> sg_Priority rule <= sg_Priority r) /\ action = sg_action rule) \/
  ((forall rule, ~ applies rule) /\ passes /\ action = ACLActionAllowRelated) \/
  ((forall rule, ~ applies rule) /\ ~ passes /\ member d (GetSgPortGroupName deny) p /\ is_ip p /\ action = ACLActionDrop).

(** The ACLs of one tier and direction. *)
Definition tier_acls (tier : Z) (d : string) (acls : list ACL) : list ACL :=
  filter (fun a => acl_Direction a = d /\ acl_Tier a = tier) acls.

#[global] Instance tier_acls_perm tier d : Proper ((≡ₚ) ==> (≡ₚ)) (tier_acls tier d).
Proof. intros l l' Hl. unfold tier_acls. by rewrite Hl. Qed.

Lemma elem_wanted sg d a : a ∈ wanted_acls sg d <->
  (sg_AllowSameGroupTraffic sg = true /\ exists s, s ∈ ["ip4"; "ip6"] /\ a = same_acl sg d s) \/ (exists rule, rule ∈ sg_rules sg d /\ a = rule_acl sg d rule).
Proof.
  unfold wanted_acls. rewrite elem_of_app. f_equiv.
  - destruct (sg_AllowSameGroupTraffic sg).
    + rewrite list_elem_of_fmap. split; [intros (s & E & Hs); split; [done|by exists s]|intros (_ & s & Hs & E); by exists s].
    + rewrite elem_of_nil. split; [done|by intros [? _]].
  - rewrite list_elem_of_fmap. split; intros (rule & ? & ?); by exists rule.
Qed.

Lemma elem_base pg d a : a ∈ wanted_base pg d <-> exists m t, m ∈ base_matches pg d /\ t ∈ api_tiers /\ a = base_acl pg d m t.
Proof.
  unfold wanted_base. rewrite list_elem_of_bind. split.
  - intros (m & Ha & Hm). apply list_elem_of_fmap in Ha as (t & Ea & Ht). by exists m, t.
  - intros (m & t & Hm & Ht & Ea). exists m. split; [|done]. apply list_elem_of_fmap. by exists t.
Qed.

Lemma elem_deny deny a : a ∈ wanted_deny deny <-> exists t d, t ∈ api_tiers /\ real_direction d /\ a = deny_acl (GetSgPortGroupName deny) d t.
Proof.
  unfold wanted_deny. rewrite list_elem_of_bind. split.
  - intros (t & Ha & Ht). rewrite !elem_of_cons, elem_of_nil in Ha. destruct Ha as [Ha|[Ha|[]]];
      [exists t, ACLDirectionToLport|exists t, ACLDirectionFromLport]; (split_and!; [done| |done]); [by left|by right].
  - intros (t & d & Ht & [-> | ->] & Ea); exists t; rewrite !elem_of_cons; tauto.
Qed.

Lemma elem_synced sg d a : real_direction d ->
  a ∈ synced_acls sg /\ acl_Direction a = d <-> a ∈ wanted_acls sg d \/ a ∈ wanted_base (GetSgPortGroupName (sg_Name sg)) d.
Proof.
  intros Hd. unfold synced_acls. rewrite !elem_of_app. pose proof (wanted_direction sg ACLDirectionToLport) as D1.
  pose proof (wanted_direction sg ACLDirectionFromLport) as D2. rewrite Forall_forall in D1, D2. specialize (D1 a). specialize (D2 a).
  rewrite elem_of_app in D1, D2. destruct Hd as [-> | ->].
  - split; [intros [[[?|?]|Hx] Ea]; [by left|by right|specialize (D2 Hx); congruence]|]. intros Hx. split; [tauto|]. by apply D1.
  - split; [intros [[Hx|[?|?]] Ea]; [specialize (D1 Hx); congruence|by left|by right]|]. intros Hx. split; [tauto|]. by apply D2.
Qed.

Lemma tier_api t t' : ConvertSGTierToOvnTier t = ConvertSGTierToOvnTier t' -> t = t'.
Proof. unfold ConvertSGTierToOvnTier. lia. Qed.

Lemma tier_member sg deny d denies a : 0 <= sg_Tier sg <= 1 -> real_direction d -> (forall a, a ∈ denies <-> a ∈ wanted_deny deny) ->
  a ∈ tier_acls (ConvertSGTierToOvnTier (sg_Tier sg)) d (synced_acls sg ++ denies) <->
  (sg_AllowSameGroupTraffic sg = true /\ exists s, s ∈ ["ip4"; "ip6"] /\ a = same_acl sg d s) \/
  (exists rule, rule ∈ sg_rules sg d /\ a = rule_acl sg d rule) \/
  (exists m, m ∈ base_matches (GetSgPortGroupName (sg_Name sg)) d /\ a = base_acl (GetSgPortGroupName (sg_Name sg)) d m (sg_Tier sg)) \/
  a = deny_acl (GetSgPortGroupName deny) d (sg_Tier sg).
Proof.
  intros Ht Hd Hdeny. unfold tier_acls. rewrite list_elem_of_filter, elem_of_app, Hdeny, elem_deny.
  assert (Htier : sg_Tier sg ∈ api_tiers).
  { unfold api_tiers, SecurityGroupAPITierMinimum, SecurityGroupAPITierMaximum. rewrite !elem_of_cons. lia. }
  pose proof (elem_synced sg d a Hd) as Hs. rewrite elem_wanted, elem_base in Hs. split.
  - intros [[Ed Et] [Hin|(t & d' & Hin & Hd' & ->)]].
    + destruct (proj1 Hs (conj Hin Ed)) as [Hx|(m & t & Hm & _ & ->)]; [tauto|]. right. right. left.
      apply tier_api in Et as ->. by exists m.
    + right. right. right. apply tier_api in Et as ->. by rewrite <-Ed.
  - intros [Hx|[Hx|[Hx|Hx]]].
    + destruct (proj2 Hs (or_introl (or_introl Hx))) as [Hin Ed]. destruct Hx as (_ & s & _ & ->). split; [done|by left].
    + destruct (proj2 Hs (or_introl (or_intror Hx))) as [Hin Ed]. destruct Hx as (rule & _ & ->). split; [done|by left].
    + destruct Hx as (m & Hm & ->). destruct (proj2 Hs) as [Hin Ed]; [right; by exists m, (sg_Tier sg)|]. split; [done|by left].
    + subst a. split; [done|right]. by exists (sg_Tier sg), d.
Qed.

(** ** The verdict *)

Section Group.

Context (sg : SecurityGroup) (deny d : string) (denies : list ACL).
Hypothesis (Hname : name_ok (sg_Name sg) = true) (Hdname : name_ok deny = true) (Hd : real_direction d).
Hypothesis (Htier : 0 <= sg_Tier sg <= 1) (Hchecked : Forall checked_rule (sg_rules sg d)) (Hclean : Forall clean_rule (sg_rules sg d)).
Hypothesis (Hdenies : forall a, a ∈ denies <-> a ∈ wanted_deny deny).

Let pg := GetSgPortGroupName (sg_Name sg).
Let acls := tier_acls (ConvertSGTierToOvnTier (sg_Tier sg)) d (synced_acls sg ++ denies).

(** An ACL that matches, with its priority and action. *)
Definition hit p (priority : Z) (action : string) : Prop :=
  exists a, a ∈ acls /\ text_matches p (acl_Match a) /\ acl_Priority a = priority /\ acl_Action a = action.

Lemma hit_iff p priority action : transport (pk_proto p) -> hit p priority action <->
  (exists rule, rule ∈ sg_rules sg d /\ rule_applies (sg_Name sg) d p rule /\ priority = 18484 - sg_Priority rule /\ action = sg_action rule) \/
  (priority = 2005 /\ action = ACLActionAllowRelated /\ dhcp_packet d pg p) \/
  (priority = 2004 /\ action = ACLActionAllowRelated /\ sg_AllowSameGroupTraffic sg = true /\ inside (sg_Name sg) d p) \/
  (priority = 2003 /\ action = ACLActionDrop /\ member d (GetSgPortGroupName deny) p /\ is_ip p).
Proof.
  intros Hp. pose proof (same_acl_matches sg d p Hname) as Ms. pose proof (base_matches_dhcp (sg_Name sg) d p Hname Hp) as Mb.
  destruct (all_ip_says (GetSgPortGroupName deny) d (sg_pg_name _ Hdname)) as [[Gd _] Md].
  assert (Ed : text_matches p (acl_Match (deny_acl (GetSgPortGroupName deny) d (sg_Tier sg))) <-> member d (GetSgPortGroupName deny) p /\ is_ip p)
    by (cbn [acl_Match deny_acl bare_acl]; rewrite (text_meaning p _ Gd); apply Md).
  rewrite Forall_forall in Hchecked. rewrite Forall_forall in Hclean. rewrite Exists_exists in Ms. rewrite Exists_exists in Mb. fold pg in Mb. unfold hit. split.
  - intros (a & Hin & Hm & <- & <-). apply (tier_member _ deny) in Hin; [|done..].
    destruct Hin as [(Ha & s & Hs & ->)|[(rule & Hr & ->)|[(m & Hb & ->)| -> ]]].
    + right. right. left. split_and!; [done..|]. apply Ms. by exists s.
    + left. exists rule. split_and!; [done| |by apply sg_priority_value, Hchecked|done]. apply rule_acl_matches in Hm; auto.
    + right. left. split_and!; [done..|]. apply Mb. by exists m.
    + right. right. right. split_and!; [done..| |]; by apply Ed.
  - intros [(rule & Hr & Happ & -> & ->)|[(-> & -> & Hx)|[(-> & -> & Ha & Hx)|(-> & -> & Hx)]]].
    + exists (rule_acl sg d rule). split_and!; [| |by apply sg_priority_value, Hchecked|done].
      * apply (tier_member _ deny); [done..|]. right. left. by exists rule.
      * apply rule_acl_matches; auto.
    + apply Mb in Hx as (m & Hm & Ht). exists (base_acl pg d m (sg_Tier sg)). split_and!; [|done..].
      apply (tier_member _ deny); [done..|]. right. right. left. by exists m.
    + apply Ms in Hx as (s & Hs & Ht). exists (same_acl sg d s). split_and!; [|done..]. apply (tier_member _ deny); [done..|]. left. by eauto.
    + exists (deny_acl (GetSgPortGroupName deny) d (sg_Tier sg)). split_and!; [|by apply Ed|done..]. apply (tier_member _ deny); [done..|]. tauto.
Qed.

(** The verdict is a hit of the highest priority. *)
Lemma verdict_hit p action : verdict acls action p <->
  exists h, hit p h action /\ forall h' action', hit p h' action' -> h' <= h.
Proof.
  unfold verdict, decides, hit. split.
  - intros (a & (Hin & Hm & Hmax) & Ha). exists (acl_Priority a). split; [by exists a|]. intros h' action' (b & Hb & Hmb & <- & _). by apply Hmax.
  - intros (h & (a & Hin & Hm & Hh & Ha) & Hmax). exists a. split_and!; [done..| |done]. intros b Hb Hmb. rewrite Hh. apply (Hmax _ (acl_Action b)). by exists b.
Qed.

#[local] Instance dhcp_packet_dec p : Decision (dhcp_packet d pg p).
Proof. unfold dhcp_packet, member. destruct (egress d); apply _. Defined.

Lemma sg_verdict p action : transport (pk_proto p) -> verdict acls action p <-> sg_decision sg deny d p action.
Proof.
  intros Hp. rewrite verdict_hit. assert (Hi := fun h a => hit_iff p h a Hp). setoid_rewrite Hi. clear Hi. unfold sg_decision. cbv zeta. fold pg.
  assert (Hpr : forall rule, rule ∈ sg_rules sg d -> 1 <= sg_Priority rule <= 16384)
    by (rewrite Forall_forall in Hchecked; intros rule Hr; by apply cr_priority, Hchecked).
  set (passes := dhcp_packet d pg p \/ (sg_AllowSameGroupTraffic sg = true /\ inside (sg_Name sg) d p)).
  split.
  - intros (h & [(rule & Hr & Happ & -> & ->)|Hrest] & Hmax).
    + left. exists rule. split_and!; [done..| |done]. intros r [Hin Ha]. specialize (Hmax (18484 - sg_Priority r) (sg_action r)).
      assert (18484 - sg_Priority r <= 18484 - sg_Priority rule); [|lia]. apply Hmax. left. by exists r.
    + assert (Hno : forall rule, ~ (rule ∈ sg_rules sg d /\ rule_applies (sg_Name sg) d p rule)).
      { intros rule [Hin Ha]. assert (18484 - sg_Priority rule <= h) by (apply (Hmax _ (sg_action rule)); left; by exists rule).
        specialize (Hpr rule Hin). destruct Hrest as [[-> _]|[[-> _]|[-> _]]]; lia. }
      right. destruct Hrest as [(-> & -> & Hx)|[(-> & -> & Hs & Hx)|(-> & -> & Hx)]].
      * left. unfold passes. tauto.
      * left. unfold passes. tauto.
      * right. split_and!; [done| |tauto..]. intros [Hdh|Hs].
        -- assert (2005 <= 2003) by (apply (Hmax _ ACLActionAllowRelated); tauto). lia.
        -- assert (2004 <= 2003) by (apply (Hmax _ ACLActionAllowRelated); tauto). lia.
  - intros [(rule & [Hr Happ] & Hmin & ->)|[(Hno & Hpass & ->)|(Hno & Hpass & Hm & Hip & ->)]].
    + exists (18484 - sg_Priority rule). split; [left; by exists rule|]. specialize (Hpr rule Hr).
      intros h' a' [(r & Hin & Ha & -> & _)|[[-> _]|[[-> _]|[-> _]]]]; [|lia..]. specialize (Hmin r (conj Hin Ha)). lia.
    + assert (Hup : forall h' a', (exists rule, rule ∈ sg_rules sg d /\ rule_applies (sg_Name sg) d p rule /\ h' = 18484 - sg_Priority rule /\ a' = sg_action rule) -> False)
        by (intros h' a' (rule & Hr & Ha & _); by apply (Hno rule)).
      destruct (decide (dhcp_packet d pg p)) as [Hdh|Hdh].
      * exists 2005. split; [tauto|]. intros h' a' [Hx|[[-> _]|[[-> _]|[-> _]]]]; [by destruct (Hup _ _ Hx)|lia..].
      * exists 2004. split; [unfold passes in Hpass; tauto|]. intros h' a' [Hx|[(_ & _ & Hx)|[[-> _]|[-> _]]]]; [by destruct (Hup _ _ Hx)|done|lia..].
    + exists 2003. split; [tauto|]. intros h' a' [(rule & Hr & Ha & _)|[(_ & _ & Hx)|[(_ & _ & Hx)|[-> _]]]];
        [by destruct (Hno rule)|destruct Hpass; by left|destruct Hpass; by right|lia].
Qed.

End Group.

End Verdict.
