(* ===== verification/SgController.v ===== *)
(** * The security group controller ([pkg/controller/security_group.go])

    Handlers over the northbound database, the security groups of the API server
    and the work queues.  The lister follows the patches of the status, which the
    server may refuse; a refused patch is only logged.  The hash of the rules
    comes from a library and is a parameter. *)
From Stdlib Require Import Ascii.
From S2P Require Import Prelude GoStrings GoNet UtilNet GoText AclMatch NbDb NbDhcp NbLsp NbGroups NbAcl PolicyAcl SecurityGroup.

Local Open Scope Z_scope.

Definition DenyAllSecurityGroup : string := "kubeovn_deny_all".

Record SgStatus := mkSgStatus {
  st_PortGroup : string;
  st_AllowSameGroupTraffic : bool;
  st_IngressMd5 : string;
  st_EgressMd5 : string;
  st_IngressLastSyncSuccess : bool;
  st_EgressLastSyncSuccess : bool
}.

(** The groups with their status, the keys added to the queues (newest first),
    the answers to patches (all are taken when none is left), the database. *)
Record Ctl := mkCtl {
  ct_sgs : gmap string (SecurityGroup * SgStatus);
  ct_addOrUpdateSgQueue : list string;
  ct_syncSgPortsQueue : list string;
  ct_patches : list bool;
  ct_db : NbDB
}.

Definition set_sgs (x : gmap string (SecurityGroup * SgStatus)) (c : Ctl) : Ctl :=
  mkCtl x (ct_addOrUpdateSgQueue c) (ct_syncSgPortsQueue c) (ct_patches c) (ct_db c).
Definition set_db (db : NbDB) (c : Ctl) : Ctl := mkCtl (ct_sgs c) (ct_addOrUpdateSgQueue c) (ct_syncSgPortsQueue c) (ct_patches c) db.
Definition set_patches (l : list bool) (c : Ctl) : Ctl := mkCtl (ct_sgs c) (ct_addOrUpdateSgQueue c) (ct_syncSgPortsQueue c) l (ct_db c).

Definition Handler (A : Type) : Type := Ctl -> outcome (result A * Ctl).

#[global] Instance handler_ret : MRet Handler := fun A x c => Done (Ok x, c).
#[global] Instance handler_bind : MBind Handler :=
  fun A B f m c =>
    match m c with
    | Done (Ok x, c') => f x c'
    | Done (Err e, c') => Done (Err e, c')
    | Panic => Panic
    | Starved => Starved
    end.

(** A call of the database client. *)
Definition on_db {A} (m : DB A) : Handler A := fun c => '(r, db) ← m (ct_db c); Done (r, set_db db c).
Definition asking {A} (f : Ctl -> result A) : Handler A := fun c => Done (f c, c).

Definition add_sg_key (key : string) : Handler () := fun c =>
  Done (Ok (), mkCtl (ct_sgs c) (key :: ct_addOrUpdateSgQueue c) (ct_syncSgPortsQueue c) (ct_patches c) (ct_db c)).
Definition add_ports_key (key : string) : Handler () := fun c =>
  Done (Ok (), mkCtl (ct_sgs c) (ct_addOrUpdateSgQueue c) (key :: ct_syncSgPortsQueue c) (ct_patches c) (ct_db c)).

Definition patchSgStatus (name : string) (status : SgStatus) : Handler () := fun c =>
  let store c := set_sgs (alter (fun x => (x.1, status)) name (ct_sgs c)) c in
  Done (Ok (), match ct_patches c with
               | [] => store c
               | true :: l => store (set_patches l c)
               | false :: l => set_patches l c
               end).

(** A failed call after which something is still done before the error is returned. *)
Definition on_error {A} (m : Handler A) (h : Handler ()) : Handler A := fun c =>
  match m c with
  | Done (Err e, c') => '(_, c'') ← h c'; Done (Err e, c'')
  | o => o
  end.

(** A call whose error is only logged. *)
Definition only_logged (m : Handler ()) : Handler () := fun c => '(_, c') ← m c; Done (Ok (), c').

Fixpoint for_all {A} (f : A -> Handler ()) (l : list A) : Handler () :=
  match l with
  | [] => mret ()
  | x :: l' => _ ← f x; for_all f l'
  end.

(** ** The group that drops everything *)

(** No group of the list has a port group. *)
Definition securityGroupAllNotExist (sgs : list string) (db : NbDB) : result bool :=
  match sgs with
  | [] => Ok true
  | _ => found ← collect (fun sg => PortGroupExists (GetSgPortGroupName sg) db) sgs; Ok (forallb negb found)
  end.

(** Ports with a group that exists. *)
Definition updateDenyAllSgPorts : DB () :=
  lsps ← reading (fun db => Ok (ListNormalLogicalSwitchPorts true {[sgsKey := ""]} db));
  addPorts ← reading (fun db =>
    kept ← collect (fun lsp => none ← securityGroupAllNotExist (Split (default "" (lsp_ExternalIDs lsp !! sgsKey)) "/") db;
                               Ok (if none : bool then None else Some (lsp_Name lsp))) lsps;
    Ok (omap (M := list) id kept));
  PortGroupSetPorts (GetSgPortGroupName DenyAllSecurityGroup) addPorts.

Definition sg_external (name : string) : gmap string string := {["type" := "security_group"; sgKey := name]}.

Definition initDefaultDenyAllSecurityGroup : Handler () :=
  _ ← on_db (CreatePortGroup (GetSgPortGroupName DenyAllSecurityGroup) (sg_external DenyAllSecurityGroup));
  _ ← on_db (CreateSgDenyAllACL DenyAllSecurityGroup);
  add_sg_key DenyAllSecurityGroup.

(** ** Adding and updating *)

Section Hash.

(** [hex.EncodeToString(structhash.Md5(rules, 1))]. *)
Context (md5 : list SecurityGroupRule -> string).

(** Which directions need an update, and the hashes the status gets. *)
Definition need_update (force : bool) (sg : SecurityGroup) (st : SgStatus) : bool * bool * string * string :=
  if force then (true, true, "", "")
  else
    let newIngressMd5 := md5 (sg_IngressRules sg) in
    let newEgressMd5 := md5 (sg_EgressRules sg) in
    let both := negb (eqb (st_AllowSameGroupTraffic st) (sg_AllowSameGroupTraffic sg)) in
    (negb (st_IngressLastSyncSuccess st) || negb (bool_decide (newIngressMd5 = st_IngressMd5 st)) || both,
     negb (st_EgressLastSyncSuccess st) || negb (bool_decide (newEgressMd5 = st_EgressMd5 st)) || both,
     newIngressMd5, newEgressMd5).

Definition ingress_failed (st : SgStatus) : SgStatus :=
  mkSgStatus (st_PortGroup st) (st_AllowSameGroupTraffic st) (st_IngressMd5 st) (st_EgressMd5 st) false (st_EgressLastSyncSuccess st).
Definition ingress_done (h : string) (st : SgStatus) : SgStatus :=
  mkSgStatus (st_PortGroup st) (st_AllowSameGroupTraffic st) h (st_EgressMd5 st) true (st_EgressLastSyncSuccess st).
Definition egress_failed (st : SgStatus) : SgStatus :=
  mkSgStatus (st_PortGroup st) (st_AllowSameGroupTraffic st) (st_IngressMd5 st) (st_EgressMd5 st) (st_IngressLastSyncSuccess st) false.
Definition egress_done (h : string) (st : SgStatus) : SgStatus :=
  mkSgStatus (st_PortGroup st) (st_AllowSameGroupTraffic st) (st_IngressMd5 st) h (st_IngressLastSyncSuccess st) true.

(** The update of one direction and its status. *)
Definition update_direction (sg : SecurityGroup) (direction : string) (failed done_ : SgStatus -> SgStatus) (st : SgStatus) : Handler SgStatus :=
  _ ← on_error (on_db (UpdateSgACL sg direction)) (patchSgStatus (sg_Name sg) (failed st));
  _ ← on_db (CreateSgBaseACL (sg_Name sg) direction);
  _ ← patchSgStatus (sg_Name sg) (done_ st);
  mret (done_ st).

(** The handler on the object of the lister. *)
Definition update_sg (key : string) (force : bool) (sg : SecurityGroup) (st : SgStatus) : Handler () :=
  _ ← asking (fun c => match validateSgRule (fun name => bool_decide (is_Some (ct_sgs c !! name))) sg with Some e => Err e | None => Ok () end);
  let pgName := GetSgPortGroupName (sg_Name sg) in
  _ ← on_db (CreatePortGroup pgName (sg_external (sg_Name sg)));
  _ ← on_db (CreateAddressSet (GetSgV4AssociatedName (sg_Name sg)) {[sgKey := sg_Name sg]});
  _ ← on_db (CreateAddressSet (GetSgV6AssociatedName (sg_Name sg)) {[sgKey := sg_Name sg]});
  let '(ingress, egress, newIngressMd5, newEgressMd5) := need_update force sg st in
  st ← (if ingress : bool then update_direction sg ACLDirectionToLport ingress_failed (ingress_done newIngressMd5) st else mret st);
  st ← (if egress : bool then update_direction sg ACLDirectionFromLport egress_failed (egress_done newEgressMd5) st else mret st);
  _ ← patchSgStatus (sg_Name sg)
        (mkSgStatus pgName (sg_AllowSameGroupTraffic sg) (st_IngressMd5 st) (st_EgressMd5 st) (st_IngressLastSyncSuccess st) (st_EgressLastSyncSuccess st));
  add_ports_key key.

Definition handleAddOrUpdateSg (key : string) (force : bool) : Handler () :=
  _ ← (if bool_decide (key = DenyAllSecurityGroup) then on_db updateDenyAllSgPorts else mret ());
  found ← asking (fun c => Ok (ct_sgs c !! key));
  match found with
  | None => mret ()
  | Some (sg, st) => update_sg key force sg st
  end.

(** At the start: groups that have lost an ACL are updated; what fails is logged. *)
Definition syncSecurityGroup : Handler () :=
  sgs ← asking (fun c => Ok (map_to_list (ct_sgs c)).*2);
  for_all (fun x : SecurityGroup * SgStatus =>
    lost ← asking (fun c => wrapped "failed to check if security group %s lost acl: %w" [sg_Name x.1] (SGLostACL x.1 (ct_db c)));
    if lost : bool then only_logged (handleAddOrUpdateSg (sg_Name x.1) true) else mret ()) sgs.

End Hash.

(** ** Deleting *)

Definition DeleteSecurityGroup (sgName : string) : DB () :=
  let pgName := GetSgPortGroupName sgName in
  _ ← wrapping "delete acls from port group %s: %w" [pgName] (DeleteAcls pgName portGroupKey "" ∅);
  _ ← DeleteAddressSets {[sgKey := sgName]};
  _ ← (if bool_decide (sgName = DefaultSecurityGroupName)
       then wrapping "clear default security group %s from logical switch ports: %w" [sgName] (SetLogicalSwitchPortsSecurityGroup sgName "remove")
       else mret ());
  DeletePortGroup [pgName].

Definition handleDeleteSg (key : string) : Handler () := on_db (DeleteSecurityGroup key).

(** ** Members *)

(** The addresses of a port: those of its port security, else its own. *)
Definition port_addresses (lsp : LogicalSwitchPort) : list string :=
  (match lsp_PortSecurity lsp with [] => lsp_Addresses lsp | l => l end) ≫= (fun a => tail (Fields a)).

Definition syncSgLogicalPort (key : string) : Handler () :=
  sgPorts ← on_db (reading (fun db => Ok (ListLogicalSwitchPorts false {[associatedSgKeyPrefix +:+ key := "true"]} (fun _ => true) db)));
  let ports := lsp_Name <$> sgPorts in
  let addresses := sgPorts ≫= port_addresses in
  let v6s := filter (fun a => contains_char ":"%char a = true) addresses in
  let v4s := filter (fun a => contains_char ":"%char a = false) addresses in
  found ← asking (fun c => Ok (ct_sgs c !! key));
  match found with
  | None => add_sg_key DenyAllSecurityGroup
  | Some (_, st) =>
      _ ← on_db (PortGroupSetPorts (st_PortGroup st) ports);
      _ ← on_db (AddressSetUpdateAddress (GetSgV4AssociatedName key) v4s);
      _ ← on_db (AddressSetUpdateAddress (GetSgV6AssociatedName key) v6s);
      add_sg_key DenyAllSecurityGroup
  end.

Definition getPortSg (port : LogicalSwitchPort) : list string := omap sg_of_key (map_to_list (lsp_ExternalIDs port)).

(** The groups of a port become those of the list. *)
Definition reconcilePortSg (portName securityGroups : string) : Handler () :=
  port ← on_db (reading (fun db => GetLogicalSwitchPort portName false db));
  match port with
  | None => mret ()
  | Some p =>
      let newSgList := Split securityGroups "," in
      let diffSgList := DiffStringSlice (getPortSg p) newSgList in
      _ ← for_all (fun sgName =>
            if bool_decide (sgName = "") then mret ()
            else
              _ ← on_db (SetLogicalSwitchPortExternalIDs portName
                           {[associatedSgKeyPrefix +:+ sgName := if slice_contains newSgList sgName then "true" else "false"]});
              add_ports_key sgName) diffSgList;
      on_db (SetLogicalSwitchPortExternalIDs portName {["security_groups" := ReplaceAll securityGroups "," "/"]})
  end.
