(* ===== verification/SgControllerFacts.v ===== *)
(** * Facts about the security group controller

    What the two handlers of a group leave in the database: its ACLs, its
    members and its addresses, from any state of the group. *)
From Stdlib Require Import Ascii.
From S2P Require Import Prelude GoStrings GoNet GoNetText UtilNet GoText AclMatch NbDb NbDhcp NbLsp NbGroups NbAcl NbAclFacts NbDhcpFacts NbWorld PolicyAcl AclMeaning PolicyFacts PolicyVerdict SecurityGroup SgTable SgController.

Local Open Scope Z_scope.

(** ** Running handlers *)

Lemma handler_bind_done {A B} (m : Handler A) (f : A -> Handler B) c x c' : m c = Done (Ok x, c') -> mbind f m c = f x c'.
Proof. unfold mbind, handler_bind. by intros ->. Qed.

Lemma on_db_done {A} (m : DB A) c x db' : m (ct_db c) = Done (Ok x, db') -> on_db m c = Done (Ok x, set_db db' c).
Proof. unfold on_db. by intros ->. Qed.

Lemma on_error_done {A} (m : Handler A) h c x c' : m c = Done (Ok x, c') -> on_error m h c = Done (Ok x, c').
Proof. unfold on_error. by intros ->. Qed.

(** ** Updating the ACLs *)

(** The state after a patch of the status. *)
Definition patched (name : string) (status : SgStatus) (c : Ctl) : Ctl :=
  let store c := set_sgs (alter (fun x => (x.1, status)) name (ct_sgs c)) c in
  match ct_patches c with [] => store c | true :: l => store (set_patches l c) | false :: l => set_patches l c end.

Lemma patch_done name status c : patchSgStatus name status c = Done (Ok (), patched name status c).
Proof. done. Qed.

Lemma patched_db name status c : ct_db (patched name status c) = ct_db c.
Proof. unfold patched. by destruct (ct_patches c) as [|[|] l]. Qed.

Lemma update_direction_ok sg d failed done_ st c db' : sync_direction sg d (ct_db c) = Done (Ok (), db') ->
  update_direction sg d failed done_ st c = Done (Ok (done_ st), patched (sg_Name sg) (done_ st) (set_db db' c)).
Proof.
  unfold sync_direction, update_direction. intros E. unfold mbind, db_bind in E.
  destruct (UpdateSgACL sg d (ct_db c)) as [[[[]|e] db1]| |] eqn:E1; try done.
  rewrite (handler_bind_done _ _ c () (set_db db1 c)) by (by apply on_error_done, on_db_done).
  rewrite (handler_bind_done _ _ _ () (set_db db' (set_db db1 c))) by (by apply on_db_done).
  by rewrite (handler_bind_done _ _ _ _ _ (patch_done _ _ _)).
Qed.

(** ** The handler *)

Record sg_ready (sg : SecurityGroup) (db : NbDB) : Prop := {
  rd_name : name_ok (sg_Name sg) = true;
  rd_v4 : matchAddressSetName (GetSgV4AssociatedName (sg_Name sg)) = true;
  rd_v6 : matchAddressSetName (GetSgV6AssociatedName (sg_Name sg)) = true;
  rd_switch : nb_lss db !! GetSgPortGroupName (sg_Name sg) = None;
  rd_directed : directed (acls_at portGroupKey (GetSgPortGroupName (sg_Name sg)) db)
}.

Definition sg_sets (sg : SecurityGroup) : list string := [GetSgV4AssociatedName (sg_Name sg); GetSgV6AssociatedName (sg_Name sg)].

(** What the database holds of a group after its handler. *)
Record sg_stored (sg : SecurityGroup) (db db' : NbDB) : Prop := {
  ss_world : world db';
  ss_frame : frame (GetSgPortGroupName (sg_Name sg)) (sg_sets sg) db db';
  ss_group : exists g, o_pgs (nb_obj db') !! GetSgPortGroupName (sg_Name sg) = Some g /\ pg_ExternalIDs g = tagged (sg_external (sg_Name sg));
  ss_sets : Forall (fun name => is_Some (o_sets (nb_obj db') !! name)) (sg_sets sg);
  ss_acls : acls_at portGroupKey (GetSgPortGroupName (sg_Name sg)) db' ≡ₚ synced_acls sg
}.

(** The group and its sets exist after the first calls. *)
Lemma create_objects sg db : world db -> sg_ready sg db -> let pg := GetSgPortGroupName (sg_Name sg) in
  exists db1 db2 db3, CreatePortGroup pg (sg_external (sg_Name sg)) db = Done (Ok (), db1) /\
    CreateAddressSet (GetSgV4AssociatedName (sg_Name sg)) {[sgKey := sg_Name sg]} db1 = Done (Ok (), db2) /\
    CreateAddressSet (GetSgV6AssociatedName (sg_Name sg)) {[sgKey := sg_Name sg]} db2 = Done (Ok (), db3) /\
    world db3 /\ frame pg (sg_sets sg) db db3 /\ is_Some (nb_pgs db3 !! pg) /\ acls_at portGroupKey pg db3 = acls_at portGroupKey pg db /\
    Forall (fun name => is_Some (o_sets (nb_obj db3) !! name)) (sg_sets sg) /\
    exists g, o_pgs (nb_obj db3) !! pg = Some g /\ pg_ExternalIDs g = tagged (sg_external (sg_Name sg)).
Proof.
  intros Hw [Hn H4 H6 Hls _] pg. apply name_ok_iff in Hn as [Hne _].
  destruct (CreatePortGroup_ok pg (sg_external (sg_Name sg)) (sg_sets sg) db Hw (pg_not_empty _ Hne) Hls)
    as (db1 & E1 & W1 & F1 & S1 & A1 & O1 & g & G1 & I1).
  destruct (CreateAddressSet_ok pg _ {[sgKey := sg_Name sg]} (sg_sets sg) db1 W1 H4) as (db2 & E2 & W2 & F2 & P2 & O2 & D2 & _); [by left|].
  destruct (CreateAddressSet_ok pg _ {[sgKey := sg_Name sg]} (sg_sets sg) db2 W2 H6) as (db3 & E3 & W3 & F3 & P3 & O3 & D3 & _); [by right; left|].
  exists db1, db2, db3. split_and!; [done..| | | | |].
  - by eapply frame_trans; [eapply frame_trans|].
  - by rewrite P3, P2.
  - rewrite acls_at_pg, P3, P2. exact A1.
  - unfold sg_sets. rewrite !Forall_cons, Forall_nil. split_and!; [apply elem_of_dom; set_solver..|done].
  - exists g. by rewrite O3, O2.
Qed.

(** Each direction is updated or in place already. *)
Definition settled (sg : SecurityGroup) (ingress egress : bool) (db : NbDB) : Prop :=
  let acls := acls_at portGroupKey (GetSgPortGroupName (sg_Name sg)) db in
  (ingress = false -> in_place sg ACLDirectionToLport acls) /\ (egress = false -> in_place sg ACLDirectionFromLport acls).

Lemma sync_both sg (ingress egress : bool) db : world db -> sg_Name sg <> "" -> Forall checked_rule (sg_IngressRules sg) -> Forall checked_rule (sg_EgressRules sg) ->
  let pg := GetSgPortGroupName (sg_Name sg) in is_Some (nb_pgs db !! pg) -> directed (acls_at portGroupKey pg db) -> settled sg ingress egress db ->
  exists db1 db2 acls, (if ingress then sync_direction sg ACLDirectionToLport else mret () : DB ()) db = Done (Ok (), db1) /\
    (if egress then sync_direction sg ACLDirectionFromLport else mret () : DB ()) db1 = Done (Ok (), db2) /\
    changes portGroupKey pg acls db db2 /\ acls ≡ₚ synced_acls sg.
Proof.
  intros [Hok Ha _ _] Hn Hi He pg Hp Hd [Si Se].
  destruct (sync_direction_if sg ACLDirectionToLport ingress db Hok Ha Hn ltac:(by left) Hi Hp Hd Si) as (db1 & l1 & E1 & C1 & D1 & I1 & O1). fold pg in C1.
  pose proof (ch_acls _ _ _ _ _ C1) as A1.
  destruct (sync_direction_if sg ACLDirectionFromLport egress db1) as (db2 & l2 & E2 & C2 & D2 & I2 & O2);
    [by eapply ch_ok|by eapply changes_accepting|done|by right|done|exact (ch_self _ _ _ _ _ C1)|by fold pg; rewrite A1|..].
  { intros Hb. unfold in_place. fold pg. rewrite A1, O1 by done. by apply Se. }
  exists db1, db2, l2. split_and!; [done|done|by eapply changes_trans|]. apply in_place_synced; [done| |done]. unfold in_place. rewrite O2 by done. fold pg. by rewrite A1.
Qed.

Section Hash.

Context (md5 : list SecurityGroupRule -> string).

(** The status of a group after some patches, all of them taken. *)
Definition with_status (name : string) (sg : SecurityGroup) (st : SgStatus) (c c' : Ctl) : Prop :=
  ct_sgs c' = <[name := (sg, st)]> (ct_sgs c) /\ ct_patches c' = [] /\ ct_syncSgPortsQueue c' = ct_syncSgPortsQueue c /\
  ct_addOrUpdateSgQueue c' = ct_addOrUpdateSgQueue c.

Lemma with_status_db name sg st c c' db : with_status name sg st c c' -> with_status name sg st c (set_db db c').
Proof. done. Qed.

Lemma patched_status name sg st st' c c' : with_status name sg st c c' -> with_status name sg st' c (patched name st' c').
Proof.
  intros (Hs & Hp & Hq & Ha). unfold patched. rewrite Hp. split_and!; [|done..]. cbn. rewrite Hs. apply map_eq. intros k.
  destruct (decide (k = name)) as [->|Hne]; [by rewrite lookup_alter_eq, !lookup_insert_eq|by rewrite lookup_alter_ne, !lookup_insert_ne].
Qed.

(** A direction that needs no update has its hash in the status. *)
Lemma need_update_status force sg st i e h1 h2 : need_update md5 force sg st = (i, e, h1, h2) ->
  (i = false -> st_IngressMd5 st = h1 /\ st_IngressLastSyncSuccess st = true) /\ (e = false -> st_EgressMd5 st = h2 /\ st_EgressLastSyncSuccess st = true).
Proof.
  unfold need_update. destruct force; [by intros [= <- <- <- <-]|]. intros [= <- <- <- <-].
  split; intros [[Hs%negb_false_iff Hm%negb_false_iff%bool_decide_eq_true]%orb_false_iff _]%orb_false_iff; done.
Qed.

(** The step of the handler for one direction. *)
Lemma update_if (update : bool) sg d failed done_ st c0 c db' : with_status (sg_Name sg) sg st c0 c ->
  (if update then sync_direction sg d else mret () : DB ()) (ct_db c) = Done (Ok (), db') ->
  let st' := if update then done_ st else st in
  exists c', (if update then update_direction sg d failed done_ st else mret st : Handler SgStatus) c = Done (Ok st', c') /\
    ct_db c' = db' /\ with_status (sg_Name sg) sg st' c0 c'.
Proof.
  intros Hs E. destruct update.
  - eexists. split; [by apply update_direction_ok|]. split; [by rewrite patched_db|]. eapply patched_status, with_status_db, Hs.
  - injection E as <-. by exists c.
Qed.

(** The directions that need it are updated. *)
Lemma update_sg_ok key force sg st c ingress egress h1 h2 :
  world (ct_db c) -> sg_ready sg (ct_db c) -> validateSgRule (fun name => bool_decide (is_Some (ct_sgs c !! name))) sg = None ->
  need_update md5 force sg st = (ingress, egress, h1, h2) -> settled sg ingress egress (ct_db c) -> ct_patches c = [] -> ct_sgs c !! sg_Name sg = Some (sg, st) ->
  let final := mkSgStatus (GetSgPortGroupName (sg_Name sg)) (sg_AllowSameGroupTraffic sg) h1 h2 true true in
  exists c', update_sg md5 key force sg st c = Done (Ok (), c') /\ sg_stored sg (ct_db c) (ct_db c') /\
    ct_sgs c' = <[sg_Name sg := (sg, final)]> (ct_sgs c) /\ ct_patches c' = [] /\ ct_syncSgPortsQueue c' = key :: ct_syncSgPortsQueue c.
Proof.
  intros Hw Hrd Hv Hneed Hset Hpat Hst final. pose proof (validateSgRule_None _ _ Hv) as (_ & Hi & He).
  pose proof (rd_name _ _ Hrd) as Hn. apply name_ok_iff in Hn as [Hn _]. destruct (need_update_status _ _ _ _ _ _ _ Hneed) as [Ni Ne].
  destruct (create_objects sg (ct_db c) Hw Hrd) as (db1 & db2 & db3 & E1 & E2 & E3 & W3 & F3 & S3 & A3 & O3 & G3).
  destruct (sync_both sg ingress egress db3 W3 Hn Hi He S3) as (db4 & db5 & acls & E4 & E5 & C5 & P5); [rewrite A3; apply (rd_directed _ _ Hrd)|unfold settled; by rewrite A3|].
  destruct (changes_world _ _ (sg_sets sg) _ _ W3 S3 C5) as (W5 & F5 & O5 & G5).
  set (c3 := set_db db3 (set_db db2 (set_db db1 c))).
  assert (H3 : with_status (sg_Name sg) sg st c c3) by (split_and!; [cbn; by rewrite insert_id|done..]).
  destruct (update_if ingress sg _ ingress_failed (ingress_done h1) st c c3 db4 H3 E4) as (c4 & U4 & D4 & H4). rewrite <-D4 in E5.
  destruct (update_if egress sg _ egress_failed (egress_done h2) _ c c4 db5 H4 E5) as (c5 & U5 & D5 & H5).
  set (st1 := if ingress then ingress_done h1 st else st) in *. set (st2 := if egress then egress_done h2 st1 else st1) in *.
  pose proof (patched_status _ _ _ final _ _ H5) as H6. set (c6 := patched (sg_Name sg) final c5) in *.
  exists (mkCtl (ct_sgs c6) (ct_addOrUpdateSgQueue c6) (key :: ct_syncSgPortsQueue c6) (ct_patches c6) (ct_db c6)).
  assert (D6 : ct_db c6 = db5) by (unfold c6; by rewrite patched_db).
  destruct H6 as (Hs6 & Hp6 & Hq6 & _). split_and!; [|cbn [ct_db]; rewrite D6|done|done|cbn; by rewrite Hq6].
  - unfold update_sg. rewrite (handler_bind_done _ _ c () c) by (unfold asking; by rewrite Hv). cbv zeta.
    rewrite (handler_bind_done _ _ c () (set_db db1 c)) by (by apply on_db_done).
    rewrite (handler_bind_done _ _ _ () (set_db db2 (set_db db1 c))) by (by apply on_db_done).
    rewrite (handler_bind_done _ _ _ () c3) by (by apply on_db_done).
    rewrite Hneed. rewrite (handler_bind_done _ _ _ _ _ U4), (handler_bind_done _ _ _ _ _ U5), (handler_bind_done _ _ _ _ _ (patch_done _ _ _)).
    assert (mkSgStatus (GetSgPortGroupName (sg_Name sg)) (sg_AllowSameGroupTraffic sg) (st_IngressMd5 st2) (st_EgressMd5 st2)
              (st_IngressLastSyncSuccess st2) (st_EgressLastSyncSuccess st2) = final) as ->; [|done].
    unfold final, st2, st1. destruct ingress, egress; cbn; try (destruct (Ni eq_refl) as [-> ->]); by try (destruct (Ne eq_refl) as [-> ->]).
  - split; [done|exact (frame_trans _ _ _ _ _ F3 F5)|by rewrite G5|by rewrite O5|]. by rewrite (ch_acls _ _ _ _ _ C5).
Qed.

End Hash.

(** ** Members *)

(** The ports associated with a group. *)
Definition associated (key : string) (p : LogicalSwitchPort) : Prop := lsp_ExternalIDs p !! (associatedSgKeyPrefix +:+ key) = Some "true".

Definition sg_ports (key : string) (db : NbDB) : list LogicalSwitchPort :=
  ListLogicalSwitchPorts false {[associatedSgKeyPrefix +:+ key := "true"]} (fun _ => true) db.

Lemma elem_sg_ports key db p : p ∈ sg_ports key db <-> (exists name, o_lsps (nb_obj db) !! name = Some p) /\ associated key p.
Proof.
  unfold sg_ports, ListLogicalSwitchPorts, logicalSwitchPortFilter. rewrite list_elem_of_filter. cbn [negb andb]. rewrite andb_true_r.
  rewrite ids_match_one by done. rewrite list_elem_of_fmap. unfold associated. split.
  - intros [Ha ([name q] & -> & Hin)]. apply elem_of_map_to_list in Hin. cbn in *. split; [by exists name|done].
  - intros [[name Hin] Ha]. split; [done|]. exists (name, p). split; [done|]. by apply elem_of_map_to_list.
Qed.

Lemma port_uuids_ok l db : world db -> Forall (fun p => exists name, o_lsps (nb_obj db) !! name = Some p) l ->
  port_uuids (lsp_Name <$> l) db = Ok (list_to_set (lsp_UUID <$> l)).
Proof.
  intros Hw Hl. assert (Hc : collect (fun name => GetLogicalSwitchPort name true db) (lsp_Name <$> l) = Ok (Some <$> l)).
  { induction Hl as [|p l [name Hp] _ IH]; [done|]. destruct (w_names _ Hw name p Hp) as [En Hne]. assert (E1 : GetLogicalSwitchPort (lsp_Name p) true db = Ok (Some p)) by (unfold GetLogicalSwitchPort; by rewrite En, bool_decide_false, Hp by done).
    rewrite fmap_cons. cbn [collect]. rewrite E1. cbn [mbind result_bind]. by rewrite IH. }
  unfold port_uuids. rewrite Hc. cbn [mbind result_bind]. by rewrite omap_id_Some.
Qed.

(** The addresses of the members, of one family. *)
Definition member_addresses (v6 : bool) (key : string) (db : NbDB) : list string :=
  filter (fun a => contains_char ":"%char a = v6) (sg_ports key db ≫= port_addresses).

(** Members and addresses of a group are those of the associated ports. *)
Record sg_members (key : string) (pg : string) (db db' : NbDB) : Prop := {
  sm_world : world db';
  sm_frame : frame pg [GetSgV4AssociatedName key; GetSgV6AssociatedName key] db db';
  sm_rows : nb_pgs db' = nb_pgs db;
  sm_ports : exists g ids, o_pgs (nb_obj db') = <[pg := g]> (o_pgs (nb_obj db)) /\ (exists g0, o_pgs (nb_obj db) !! pg = Some g0 /\ pg_ExternalIDs g0 = ids) /\
               pg_ExternalIDs g = ids /\ forall u, u ∈ pg_Ports g <-> exists name p, o_lsps (nb_obj db) !! name = Some p /\ lsp_UUID p = u /\ associated key p;
  sm_v4 : exists s, o_sets (nb_obj db') !! GetSgV4AssociatedName key = Some s /\ as_Addresses s = normalizeAddresses (member_addresses false key db);
  sm_v6 : exists s, o_sets (nb_obj db') !! GetSgV6AssociatedName key = Some s /\ as_Addresses s = normalizeAddresses (member_addresses true key db)
}.

Lemma set_names_differ key : GetSgV4AssociatedName key <> GetSgV6AssociatedName key.
Proof.
  unfold GetSgV4AssociatedName, GetSgV6AssociatedName.
  rewrite !replace_char_app. intros E. apply (inj (String.append _)) in E. by apply (inj (String.append _)) in E.
Qed.

Lemma syncSgLogicalPort_ok key sg st g c : world (ct_db c) -> ct_sgs c !! key = Some (sg, st) -> st_PortGroup st <> "" ->
  o_pgs (nb_obj (ct_db c)) !! st_PortGroup st = Some g ->
  is_Some (o_sets (nb_obj (ct_db c)) !! GetSgV4AssociatedName key) -> is_Some (o_sets (nb_obj (ct_db c)) !! GetSgV6AssociatedName key) ->
  exists c', syncSgLogicalPort key c = Done (Ok (), c') /\ sg_members key (st_PortGroup st) (ct_db c) (ct_db c') /\ ct_sgs c' = ct_sgs c.
Proof.
  intros Hw Hsg Hne Hg [s4 H4] [s6 H6]. set (db := ct_db c) in *. set (pg := st_PortGroup st) in *.
  assert (Hin : Forall (fun p => exists name, o_lsps (nb_obj db) !! name = Some p) (sg_ports key db))
    by (apply Forall_forall; intros p Hp; by apply elem_sg_ports in Hp as [? _]).
  pose proof (PortGroupSetPorts_ok pg g _ _ db Hw Hne Hg (port_uuids_ok _ db Hw Hin)) as E1.
  set (e := list_to_set (lsp_UUID <$> sg_ports key db) : gset N) in *.
  set (db1 := set_obj _ db) in E1.
  assert (W1 : world db1) by (apply world_obj; [done|cbn; rewrite dom_insert_L; apply elem_of_dom_2 in Hg; set_solver|done]).
  pose proof (AddressSetUpdateAddress_ok _ s4 (member_addresses false key db) db1 W1 H4) as E2. set (db2 := set_obj _ db1) in E2.
  assert (W2 : world db2) by (by apply world_obj).
  assert (H6' : o_sets (nb_obj db2) !! GetSgV6AssociatedName key = Some s6).
  { cbn. by rewrite lookup_insert_ne by apply set_names_differ. }
  pose proof (AddressSetUpdateAddress_ok _ s6 (member_addresses true key db) db2 W2 H6') as E3. set (db3 := set_obj _ db2) in E3.
  exists (mkCtl (ct_sgs c) (DenyAllSecurityGroup :: ct_addOrUpdateSgQueue c) (ct_syncSgPortsQueue c) (ct_patches c) db3). split_and!; [| |done].
  - unfold syncSgLogicalPort. rewrite (handler_bind_done _ _ c (sg_ports key db) (set_db db c)) by (by apply on_db_done). cbv zeta.
    rewrite (handler_bind_done _ _ _ (Some (sg, st)) (set_db db c)) by (unfold asking; cbn; by rewrite Hsg).
    rewrite (handler_bind_done _ _ _ () (set_db db1 (set_db db c))) by (by apply on_db_done).
    rewrite (handler_bind_done _ _ _ () (set_db db2 (set_db db1 (set_db db c)))) by (by apply on_db_done).
    by rewrite (handler_bind_done _ _ _ () (set_db db3 (set_db db2 (set_db db1 (set_db db c))))) by (by apply on_db_done).
  - cbn [ct_db]. split.
    + by apply world_obj.
    + split; [done..| |].
      * intros p Hp. cbn. by rewrite lookup_insert_ne.
      * intros s Hs. rewrite !elem_of_cons in Hs. cbn. rewrite !lookup_insert_ne; [done|..]; intros <-; apply Hs; tauto.
    + done.
    + exists (mkPg e (pg_ExternalIDs g)), (pg_ExternalIDs g). split_and!; [done|by exists g|done|]. intros u. cbn [pg_Ports]. unfold e.
      rewrite elem_of_list_to_set, list_elem_of_fmap. setoid_rewrite elem_sg_ports. split.
      * intros (p & -> & [name Hp] & Ha). by exists name, p.
      * intros (name & p & Hp & <- & Ha). exists p. split_and!; [done|by exists name|done].
    + exists (mkAs (normalizeAddresses (member_addresses false key db)) (as_ExternalIDs s4)). cbn.
      by rewrite lookup_insert_ne, lookup_insert_eq by (apply not_eq_sym, set_names_differ).
    + exists (mkAs (normalizeAddresses (member_addresses true key db)) (as_ExternalIDs s6)). cbn. by rewrite lookup_insert_eq.
Qed.

(** ** The groups of a port

    [reconcilePortSg] makes the associations of a port those of the list and
    queues every group whose members change. *)

(** ** Keys of associations *)

Lemma has_prefix_char c p s : contains_char c p = true -> lacks c s -> has_prefix p s = false.
Proof.
  revert s. induction p as [|a p IH]; intros s Hp Hs; [done|]. destruct s as [|b s]; [done|]. cbn in *.
  unfold lacks in Hs. cbn in Hs. apply orb_false_iff in Hs as [Hb Hs]. apply bool_decide_eq_false in Hb.
  destruct (bool_decide_reflect (a = b)) as [->|Hab]; [|done]. cbn [andb]. apply IH; [|done]. apply orb_true_iff in Hp as [Hp|Hp]; [|done].
  by apply bool_decide_eq_true in Hp.
Qed.

Lemma Split_lacking c sep s : contains_char c sep = true -> lacks c s -> Split s sep = [s].
Proof.
  intros Hsep. unfold Split. induction s as [|a s IH]; intros Hs; [done|]. cbn [split_skip]. rewrite (has_prefix_char c) by done.
  unfold lacks in *. cbn in Hs. apply orb_false_iff in Hs as [_ Hs]. by rewrite IH.
Qed.

(** The key of a group's association, and back. *)
Lemma key_back name : lacks "_" name -> ReplaceAll (associatedSgKeyPrefix +:+ name) associatedSgKeyPrefix "" = name.
Proof.
  intros Hn. unfold ReplaceAll. change (Split (associatedSgKeyPrefix +:+ name) associatedSgKeyPrefix) with ("" :: Split name associatedSgKeyPrefix).
  by rewrite (Split_lacking "_").
Qed.

Lemma has_prefix_self p s : has_prefix p (p +:+ s) = true.
Proof. induction p as [|c p IH]; [done|]. rewrite app_str_cons. cbn. by rewrite bool_decide_true. Qed.

(** Associations are of groups whose names have no underscore. *)
Definition tidy (p : LogicalSwitchPort) : Prop :=
  map_Forall (fun k _ => has_prefix associatedSgKeyPrefix k = true -> exists n, k = associatedSgKeyPrefix +:+ n /\ lacks "_" n) (lsp_ExternalIDs p).

Lemma elem_getPortSg p name : tidy p -> lacks "_" name -> name ∈ getPortSg p <-> associated name p.
Proof.
  intros Ht Hn. unfold getPortSg, associated. rewrite list_elem_of_omap. split.
  - intros ([k v] & Hin & Hk). apply elem_of_map_to_list in Hin. unfold sg_of_key in Hk. cbn [fst snd] in Hk.
    destruct (has_prefix associatedSgKeyPrefix k) eqn:Ep; [|done]. destruct (bool_decide_reflect (v = "true")) as [->|]; [|done]. cbn [andb] in Hk.
    destruct (Ht k "true" Hin Ep) as (n & -> & Hln). rewrite key_back in Hk by done. by injection Hk as ->.
  - intros Ha. exists (associatedSgKeyPrefix +:+ name, "true"). split; [by apply elem_of_map_to_list|]. unfold sg_of_key. cbn [fst snd].
    rewrite has_prefix_self, bool_decide_true by done. cbn [andb]. by rewrite key_back.
Qed.

Lemma elem_diff a b x : x ∈ DiffStringSlice a b <-> (x ∈ a /\ x ∉ b) \/ (x ∈ b /\ x ∉ a).
Proof. unfold DiffStringSlice. rewrite elem_of_app, !list_elem_of_filter. tauto. Qed.

(** ** One external id *)

Lemma set_id_ok port p k v db : accepting db -> port <> "" -> o_lsps (nb_obj db) !! port = Some p ->
  SetLogicalSwitchPortExternalIDs port {[k := v]} db =
  Done (Ok (), set_obj (set_o_lsps (<[port := set_lsp_external (<[k := v]> (lsp_ExternalIDs p)) p]> (o_lsps (nb_obj db))) (nb_obj db)) db).
Proof.
  intros Ha Hne Hp. unfold SetLogicalSwitchPortExternalIDs. rewrite (bind_done _ _ db p db).
  2:{ apply reading_done. unfold get_port, GetLogicalSwitchPort. by rewrite bool_decide_false, Hp by done. }
  apply wrapping_done. unfold UpdateLogicalSwitchPort. apply wrapping_done. rewrite Transact_accepting by done. cbn. do 5 f_equal.
  rewrite <-insert_union_singleton_l. apply map_eq. intros n. destruct (decide (n = port)) as [->|Hn];
    [by rewrite lookup_alter_eq, Hp, lookup_insert_eq|by rewrite lookup_alter_ne, lookup_insert_ne].
Qed.

(** ** The loop *)

Definition mark (new : list string) (ids : gmap string string) (sgName : string) : gmap string string :=
  if bool_decide (sgName = "") then ids else <[associatedSgKeyPrefix +:+ sgName := if slice_contains new sgName then "true" else "false"]> ids.

(** The port with other external ids, and the keys that were queued. *)
Definition marked (port : string) (p : LogicalSwitchPort) (ids : gmap string string) (keys : list string) (c c' : Ctl) : Prop :=
  ct_db c' = set_obj (set_o_lsps (<[port := set_lsp_external ids p]> (o_lsps (nb_obj (ct_db c)))) (nb_obj (ct_db c))) (ct_db c) /\
  ct_syncSgPortsQueue c' = keys ++ ct_syncSgPortsQueue c /\ ct_sgs c' = ct_sgs c.

Lemma mark_loop new port p l : port <> "" -> forall ids c0 c keys, accepting (ct_db c0) -> marked port p ids keys c0 c ->
  exists c' keys', for_all (fun sgName =>
      if bool_decide (sgName = "") then mret ()
      else
        _ ← on_db (SetLogicalSwitchPortExternalIDs port {[associatedSgKeyPrefix +:+ sgName := if slice_contains new sgName then "true" else "false"]});
        add_ports_key sgName) l c = Done (Ok (), c') /\
    marked port p (fold_left (mark new) l ids) keys' c0 c' /\ (forall x, x ∈ keys \/ (x ∈ l /\ x <> "") -> x ∈ keys').
Proof.
  intros Hne. induction l as [|x l IH]; intros ids c0 c keys Ha Hm.
  { exists c, keys. split_and!; [done..|]. intros x [Hx|[Hx _]]; [done|by apply elem_of_nil in Hx]. }
  cbn [for_all fold_left]. unfold mark at 2. destruct (bool_decide_reflect (x = "")) as [->|Hx].
  - rewrite (handler_bind_done _ _ c () c) by done. destruct (IH ids c0 c keys Ha Hm) as (c' & keys' & E & Hm' & Hk). exists c', keys'.
    split_and!; [done..|]. intros y [Hy|[[->|Hy]%elem_of_cons Hn]]; [by apply Hk; left|done|by apply Hk; right].
  - destruct Hm as (Hdb & Hq & Hs). set (v := if slice_contains new x then "true" else "false").
    pose proof (set_id_ok port (set_lsp_external ids p) (associatedSgKeyPrefix +:+ x) v (ct_db c)) as Es.
    rewrite Hdb in Es at 1 2. specialize (Es Ha Hne). cbn [nb_obj set_obj o_lsps set_o_lsps] in Es. rewrite lookup_insert_eq in Es. specialize (Es eq_refl).
    set (db' := set_obj _ (ct_db c)) in Es.
    set (c1 := mkCtl (ct_sgs c) (ct_addOrUpdateSgQueue c) (x :: ct_syncSgPortsQueue c) (ct_patches c) db').
    destruct (IH (<[associatedSgKeyPrefix +:+ x := v]> ids) c0 c1 (x :: keys) Ha) as (c' & keys' & E & Hm' & Hk).
    { split_and!; [|cbn; by rewrite Hq|done]. cbn. unfold db'. rewrite Hdb. cbn. unfold set_obj, set_o_lsps. cbn. do 2 f_equal.
      by rewrite insert_insert_eq. }
    exists c', keys'. split_and!; [|done|].
    + rewrite (handler_bind_done _ _ c () c1); [done|]. by rewrite (handler_bind_done _ _ c () (set_db db' c)) by (by apply on_db_done).
    + intros y [Hy|[[->|Hy]%elem_of_cons Hn]]; apply Hk; [left; by right|left; by left|by right].
Qed.

Lemma mark_lookup new l ids name : name <> "" ->
  fold_left (mark new) l ids !! (associatedSgKeyPrefix +:+ name) =
  if bool_decide (name ∈ l) then Some (if slice_contains new name then "true" else "false") else ids !! (associatedSgKeyPrefix +:+ name).
Proof.
  intros Hne. revert ids. induction l as [|x l IH]; intros ids; [done|]. cbn [fold_left]. rewrite IH.
  destruct (bool_decide_reflect (name ∈ l)) as [Hin|Hin]; [by rewrite bool_decide_true by (by right)|].
  unfold mark. destruct (decide (name = x)) as [->|Hnx].
  - rewrite bool_decide_false by done. rewrite bool_decide_true by (by left). by rewrite lookup_insert_eq.
  - rewrite (bool_decide_false (name ∈ x :: l)) by (by intros [?|?]%elem_of_cons). destruct (bool_decide (x = "")); [done|].
    rewrite lookup_insert_ne; [done|]. intros E. by apply (inj (String.append _)) in E.
Qed.

(** ** The handler *)

Lemma reconcilePortSg_ok port sgs p c : accepting (ct_db c) -> port <> "" -> o_lsps (nb_obj (ct_db c)) !! port = Some p -> tidy p ->
  exists c' ids, reconcilePortSg port sgs c = Done (Ok (), c') /\
    o_lsps (nb_obj (ct_db c')) = <[port := set_lsp_external ids p]> (o_lsps (nb_obj (ct_db c))) /\ ct_sgs c' = ct_sgs c /\
    ids !! sgsKey = Some (ReplaceAll sgs "," "/") /\
    (forall name, name <> "" -> lacks "_" name -> ids !! (associatedSgKeyPrefix +:+ name) = Some "true" <-> name ∈ Split sgs ",") /\
    (forall name, name <> "" -> lacks "_" name -> ~ (associated name p <-> name ∈ Split sgs ",") -> name ∈ ct_syncSgPortsQueue c').
Proof.
  intros Ha Hne Hp Ht. unfold reconcilePortSg.
  rewrite (handler_bind_done _ _ c (Some p) (set_db (ct_db c) c)).
  2:{ apply on_db_done, reading_done. unfold GetLogicalSwitchPort. by rewrite bool_decide_false, Hp by done. }
  assert (Hm : marked port p (lsp_ExternalIDs p) [] c (set_db (ct_db c) c)).
  { split_and!; [|done..]. cbn. rewrite insert_id; [by destruct (ct_db c) as [? ? ? [] ? ?]|]. rewrite Hp. by destruct p. }
  destruct (mark_loop (Split sgs ",") port p (DiffStringSlice (getPortSg p) (Split sgs ",")) Hne _ _ _ _ Ha Hm) as (c1 & keys & E1 & (Hdb & Hq & Hs) & Hk).
  rewrite (handler_bind_done _ _ _ () c1) by exact E1. set (ids1 := fold_left _ _ _) in *.
  assert (Hp1 : o_lsps (nb_obj (ct_db c1)) !! port = Some (set_lsp_external ids1 p)) by (rewrite Hdb; cbn; by rewrite lookup_insert_eq).
  assert (Ha1 : accepting (ct_db c1)) by (by rewrite Hdb).
  pose proof (set_id_ok port _ sgsKey (ReplaceAll sgs "," "/") _ Ha1 Hne Hp1) as E2. set (db2 := set_obj _ (ct_db c1)) in E2.
  exists (set_db db2 c1), (<[sgsKey := ReplaceAll sgs "," "/"]> ids1). split_and!.
  - by apply on_db_done.
  - cbn. rewrite Hdb. cbn. by rewrite insert_insert_eq.
  - done.
  - by rewrite lookup_insert_eq.
  - intros name Hn Hl. rewrite lookup_insert_ne by done. unfold ids1. rewrite mark_lookup by done.
    pose proof (elem_getPortSg p name Ht Hl) as Hold. unfold associated in Hold.
    destruct (bool_decide_reflect (name ∈ DiffStringSlice (getPortSg p) (Split sgs ","))) as [Hd|Hd].
    + unfold slice_contains. destruct (bool_decide_reflect (name ∈ Split sgs ",")); by split.
    + rewrite elem_diff in Hd. rewrite <-Hold. destruct (decide (name ∈ getPortSg p)), (decide (name ∈ Split sgs ",")); tauto.
  - intros name Hn Hl Hch. cbn. rewrite Hq. apply elem_of_app. left. apply Hk. right. split; [|done]. rewrite elem_diff.
    rewrite <-(elem_getPortSg p name Ht Hl) in Hch. destruct (decide (name ∈ getPortSg p)), (decide (name ∈ Split sgs ",")); tauto.
Qed.
