(* ===== verification/LsAcl.v ===== *)
(** * ACLs of switches, nodes and gateways ([pkg/ovs/ovn-nb-acl.go], [pkg/controller/subnet.go])

    The ACLs of a private subnet and of the subnet's own list, those of the port
    groups of nodes, and the two repairs of the table at the start. *)
From S2P Require Import Prelude GoStrings GoNet UtilNet GoText AclMatch NbDb NbAcl PolicyAcl.

Local Open Scope Z_scope.

Definition NodeAllowPriority : string := "3000".
Definition AllowEWTrafficPriority : string := "1900".
Definition SubnetAllowPriority : string := "1001".
Definition DefaultDropPriority : string := "1000".

(** The ACLs of a loop that may find some of them in the table. *)
Definition collect_acls {A} (f : A -> result (list (option ACL))) (l : list A) : result (list (option ACL)) :=
  acls ← collect f l; Ok (concat acls).

(** ** Gateways and nodes *)

Definition CreateGatewayACL (lsName pgName : string) : DB () :=
  if bool_decide (pgName = "") && bool_decide (lsName = "")
  then lift (Err (Errorf "one of port group name and logical switch name must be specified" []))
  else
    let '(parentName, parentType) := if bool_decide (pgName = "") then (lsName, LogicalSwitchKey) else (pgName, portGroupKey) in
    egressACL ← reading (fun db => wrapped "new icmpv6 egress acl for %s: %w" [parentName]
      (newACL parentName ACLDirectionFromLport EgressAllowPriority "icmp6" ACLActionAllowStateless NetpolACLTier after_lb db));
    ingressACL ← reading (fun db => wrapped "new icmpv6 ingress acl for %s: %w" [parentName]
      (newACL parentName ACLDirectionToLport IngressAllowPriority "icmp6" ACLActionAllowStateless NetpolACLTier id db));
    wrapping "add gateway acls to %s: %w" [parentName] (CreateAcls parentName parentType [egressACL; ingressACL]).

(** The texts of the ACLs of one node address, in and out. *)
Definition node_ingress (pgName nodeIP : string) : string :=
  let ipSuffix := ip_suffix (CheckProtocol nodeIP) in
  ipSuffix +:+ ".src == " +:+ nodeIP +:+ " && " +:+ ipSuffix +:+ ".dst == $" +:+ pgName +:+ "_" +:+ ipSuffix.
Definition node_egress (pgName nodeIP : string) : string :=
  let ipSuffix := ip_suffix (CheckProtocol nodeIP) in
  ipSuffix +:+ ".dst == " +:+ nodeIP +:+ " && " +:+ ipSuffix +:+ ".src == $" +:+ pgName +:+ "_" +:+ ipSuffix.

Definition node_acls (pgName nodeIP : string) (db : NbDB) : result (list (option ACL)) :=
  ingressACL ← wrapped "new allow ingress acl for port group %s: %w" [pgName]
    (newACL pgName ACLDirectionToLport NodeAllowPriority (node_ingress pgName nodeIP) ACLActionAllowRelated NetpolACLTier id db);
  egressACL ← wrapped "new allow egress acl for port group %s: %w" [pgName]
    (newACL pgName ACLDirectionFromLport NodeAllowPriority (node_egress pgName nodeIP) ACLActionAllowRelated NetpolACLTier after_lb db);
  Ok [ingressACL; egressACL].

Definition CreateNodeACL (pgName nodeIPStr joinIPStr : string) : DB () :=
  let nodeIPs := Split nodeIPStr "," in
  acls ← reading (fun db => collect_acls (fun nodeIP => node_acls pgName nodeIP db) nodeIPs);
  _ ← for_each (fun joinIP =>
        if slice_contains nodeIPs joinIP then mret ()
        else
          _ ← DeleteACL pgName portGroupKey ACLDirectionToLport NodeAllowPriority (node_ingress pgName joinIP) NetpolACLTier;
          DeleteACL pgName portGroupKey ACLDirectionFromLport NodeAllowPriority (node_egress pgName joinIP) NetpolACLTier) (Split joinIPStr ",");
  wrapping "add node acls to port group %s: %w" [pgName] (CreateAcls pgName portGroupKey acls).

(** ** The ACLs of a subnet *)

(** An ACL of the specification of a subnet. *)
Record SubnetACL := mkSubnetACL {
  sa_Direction : string;
  sa_Priority : Z;
  sa_Match : string;
  sa_Action : string
}.

(** Traffic inside one block. *)
Definition same_subnet_match (cidr : string) : ACLMatch :=
  let ipSuffix := ip_suffix (CheckProtocol cidr) in
  NewAndACLMatch [NewACLMatch (ipSuffix +:+ ".src") "==" cidr ""; NewACLMatch (ipSuffix +:+ ".dst") "==" cidr ""].

(** [acl.ExternalIDs["subnet"] = lsName]. *)
Definition of_subnet (lsName : string) : ACL -> ACL := set_external "subnet" lsName.

(** East-west traffic of a block, then the list. *)
Definition ew_acls (lsName cidr : string) (db : NbDB) : result (list (option ACL)) :=
  ingressACL ← wrapped "new same subnet ingress acl for logical switch %s: %w" [lsName]
    (newACL lsName ACLDirectionToLport AllowEWTrafficPriority (ACLMatch_String (same_subnet_match cidr)) ACLActionAllow NetpolACLTier (of_subnet lsName) db);
  egressACL ← wrapped "new same subnet egress acl for logical switch %s: %w" [lsName]
    (newACL lsName ACLDirectionFromLport AllowEWTrafficPriority (ACLMatch_String (same_subnet_match cidr)) ACLActionAllow NetpolACLTier (of_subnet lsName) db);
  Ok [ingressACL; egressACL].

Definition listed_acl (lsName : string) (a : SubnetACL) (db : NbDB) : result (option ACL) :=
  wrapped "new acl for logical switch %s: %w" [lsName]
    (newACL lsName (sa_Direction a) (Itoa (sa_Priority a)) (sa_Match a) (sa_Action a) NetpolACLTier (of_subnet lsName) db).

Definition subnet_acls (lsName cidrBlock : string) (subnetAcls : list SubnetACL) (allowEWTraffic : bool) (db : NbDB) : result (list (option ACL)) :=
  ew ← (if allowEWTraffic then collect_acls (fun cidr => ew_acls lsName cidr db) (Split cidrBlock ",") else Ok []);
  listed ← collect (fun a => listed_acl lsName a db) subnetAcls;
  Ok (ew ++ listed).

Definition UpdateLogicalSwitchACL (lsName cidrBlock : string) (subnetAcls : list SubnetACL) (allowEWTraffic : bool) : DB () :=
  match subnetAcls with
  | [] => wrapping "delete subnet acls from %s: %w" [lsName] (DeleteAcls lsName LogicalSwitchKey "" {["subnet" := lsName]})
  | _ =>
      acls ← reading (subnet_acls lsName cidrBlock subnetAcls allowEWTraffic);
      delOps ← reading (DeleteAclsOps lsName LogicalSwitchKey "" {["subnet" := lsName]});
      addOps ← reading (CreateAclsOps lsName LogicalSwitchKey acls);
      wrapping "update acls for logical switch %s: %w" [lsName] (Transact (delOps ++ addOps))
  end.

(** ** Private subnets *)

(** Traffic between a block of the subnet and an allowed network, both ways. *)
Definition allow_subnet_match (cidr subnet : string) : ACLMatch :=
  let ipSuffix := ip_suffix (CheckProtocol cidr) in
  NewOrACLMatch [
    NewAndACLMatch [NewACLMatch (ipSuffix +:+ ".src") "==" cidr ""; NewACLMatch (ipSuffix +:+ ".dst") "==" subnet ""];
    NewAndACLMatch [NewACLMatch (ipSuffix +:+ ".src") "==" subnet ""; NewACLMatch (ipSuffix +:+ ".dst") "==" cidr ""] ].

(** The networks of the nodes, and the allowed ones, of the family of a block. *)
Definition node_cidrs (cidr nodeSwitchCIDR : string) : list string :=
  filter (fun nodeCidr => CheckProtocol nodeCidr = CheckProtocol cidr) (Split nodeSwitchCIDR ",").
Definition allowed_subnets (cidr : string) (allowSubnets : list string) : list string :=
  filter (fun subnet => subnet <> "" /\ CheckProtocol subnet = CheckProtocol cidr) (TrimSpace <$> allowSubnets).

Definition default_drop_options (lsName : string) (acl : ACL) : ACL :=
  let acl := setACLName lsName acl in set_log true (Some "warning") (acl_Meter acl) acl.

Definition private_block_acls (lsName cidr nodeSwitchCIDR : string) (allowSubnets : list string) (db : NbDB) : result (list (option ACL)) :=
  let new what priority m := wrapped ("new " +:+ what +:+ " ingress acl for logical switch %s: %w") [lsName]
    (newACL lsName ACLDirectionToLport priority (ACLMatch_String m) ACLActionAllowRelated NetpolACLTier id db) in
  same ← new "same subnet" SubnetAllowPriority (same_subnet_match cidr);
  nodes ← collect (fun nodeCidr => new "node subnet" NodeAllowPriority
                     (NewACLMatch (ip_suffix (CheckProtocol cidr) +:+ ".src") "==" nodeCidr "")) (node_cidrs cidr nodeSwitchCIDR);
  allowed ← collect (fun subnet => new "allow subnet" SubnetAllowPriority (allow_subnet_match cidr subnet)) (allowed_subnets cidr allowSubnets);
  Ok (same :: nodes ++ allowed).

Definition private_acls (lsName cidrBlock nodeSwitchCIDR : string) (allowSubnets : list string) (db : NbDB) : result (list (option ACL)) :=
  defaultDropACL ← wrapped "new default drop ingress acl for logical switch %s: %w" [lsName]
    (newACL lsName ACLDirectionToLport DefaultDropPriority (ACLMatch_String (NewACLMatch "ip" "" "" "")) ACLActionDrop NetpolACLTier
       (default_drop_options lsName) db);
  acls ← collect_acls (fun cidr => private_block_acls lsName cidr nodeSwitchCIDR allowSubnets db) (Split cidrBlock ",");
  Ok (defaultDropACL :: acls).

Definition SetLogicalSwitchPrivate (lsName cidrBlock nodeSwitchCIDR : string) (allowSubnets : list string) : DB () :=
  _ ← wrapping "clear logical switch %s acls: %w" [lsName] (DeleteAcls lsName LogicalSwitchKey "" ∅);
  acls ← reading (private_acls lsName cidrBlock nodeSwitchCIDR allowSubnets);
  wrapping "add ingress acls to logical switch %s: %w" [lsName] (CreateAcls lsName LogicalSwitchKey acls).

Section Status.

(** The answer of the API server to the patch of the status with a reason. *)
Context (patchSubnetStatus : string -> option err).

(** A failed call is reported; a report that fails joins its error. *)
Definition reporting (reason : string) (m : DB ()) : DB () := fun db =>
  match m db with
  | Done (Err e, db') => Done (Err match patchSubnetStatus reason with Some _ => Errorf "%w\n%w" [] | None => e end, db')
  | o => o
  end.

Definition report (reason : string) : DB () :=
  lift match patchSubnetStatus reason with Some e => Err e | None => Ok () end.

(** The part of [handleAddOrUpdateSubnet] about the ACLs of the switch. *)
Definition reconcile_subnet_acls (lsName cidrBlock nodeSwitchCIDR : string) (private : bool) (allowSubnets : list string)
    (subnetAcls : list SubnetACL) (allowEWTraffic : bool) : DB () :=
  _ ← (if private then
         _ ← reporting "SetPrivateLogicalSwitchFailed" (SetLogicalSwitchPrivate lsName cidrBlock nodeSwitchCIDR allowSubnets);
         report "SetPrivateLogicalSwitchSuccess"
       else
         _ ← reporting "ResetLogicalSwitchAclFailed" (DeleteAcls lsName LogicalSwitchKey "" ∅);
         report "ResetLogicalSwitchAclSuccess");
  reporting "SetLogicalSwitchAclsFailed" (UpdateLogicalSwitchACL lsName cidrBlock subnetAcls allowEWTraffic).

End Status.

(** ** Repairs at the start *)

Definition MigrateACLTier : DB () :=
  aclList ← reading (fun db => Ok (filter (fun r => acl_Tier r.2 = 0) (all_rows db)));
  wrapping "failed to migrate acl tier: %w" [] (Transact ((fun r : row => OpUpdate r.1 (set_tier NetpolACLTier)) <$> aclList)).

(** Rows of this program without the name of their parent. *)
Definition orphan (acl : ACL) : bool :=
  bool_decide (acl_ExternalIDs acl <> ∅) && bool_decide (default "" (acl_ExternalIDs acl !! "vendor") = CniTypeName) &&
  bool_decide (acl_ExternalIDs acl !! aclParentKey = None).

(** The parents of one type that refer to a row. *)
Definition detach_ops (parentType : string) (uuid : N) (db : NbDB) : list operation :=
  (fun kv : string * list row => OpRemove parentType kv.1 [uuid]) <$>
  filter (fun kv => uuid ∈ kv.2.*1) (map_to_list (parents parentType db)).

(** Rows that nobody refers to any more are gone with the transaction. *)
Definition CleanNoParentKeyAcls : DB () :=
  ops ← reading (fun db => Ok (filter (fun r => orphan r.2 = true) (all_rows db) ≫=
                                (fun r : row => detach_ops portGroupKey r.1 db ++ detach_ops LogicalSwitchKey r.1 db)));
  wrapping "failed to clean kube-ovn acls without parent: %w" [] (Transact ops).
