(* ===== verification/LsAclFacts.v ===== *)
(** * Facts about the ACLs of switches

    What the reconciliation of a subnet leaves on its switch, whatever the switch
    held, and what the ACLs of a private subnet let pass. *)
From Stdlib Require Import Ascii.
From S2P Require Import Prelude GoStrings GoNet GoNetText UtilNet GoText AclMatch NbDb NbAcl NbAclFacts PolicyAcl AclMeaning PolicyFacts PolicyVerdict SgTable LsAcl.

Local Open Scope Z_scope.

(** ** The ACLs that are wanted *)

Definition ls_allow (ls priority : string) (m : ACLMatch) : ACL :=
  bare_acl ls ACLDirectionToLport priority (ACLMatch_String m) ACLActionAllowRelated NetpolACLTier.

Definition node_match (cidr nodeCidr : string) : ACLMatch := NewACLMatch (ip_suffix (CheckProtocol cidr) +:+ ".src") "==" nodeCidr "".

Definition private_drop (ls : string) : ACL :=
  default_drop_options ls (bare_acl ls ACLDirectionToLport DefaultDropPriority (ACLMatch_String (NewACLMatch "ip" "" "" "")) ACLActionDrop NetpolACLTier).

(** The matches that pass for one block of the subnet, with their priorities. *)
Definition block_passes (nodes : string) (allow : list string) (cidr : string) : list (string * ACLMatch) :=
  (SubnetAllowPriority, same_subnet_match cidr) ::
  ((fun n => (NodeAllowPriority, node_match cidr n)) <$> node_cidrs cidr nodes) ++
  ((fun s => (SubnetAllowPriority, allow_subnet_match cidr s)) <$> allowed_subnets cidr allow).

Definition private_wanted (ls cidrBlock nodes : string) (allow : list string) : list ACL :=
  private_drop ls :: (Split cidrBlock "," ≫= (fun cidr => (fun pm => ls_allow ls pm.1 pm.2) <$> block_passes nodes allow cidr)).

(** Networks that can be written into a match. *)
Record private_ok (cidrBlock nodes : string) (allow : list string) : Prop := {
  pv_cidrs : Forall (fun c => address_ok c = true) (Split cidrBlock ",");
  pv_nodes : Forall (fun c => address_ok c = true) (Split nodes ",");
  pv_allow : Forall (fun c => c <> "" -> address_ok c = true) (TrimSpace <$> allow)
}.

Lemma decide_or (P : Prop) `{Decision P} : P \/ ~ P.
Proof. destruct (decide P); tauto. Qed.

Section Meaning.

Context {addr : Type} `{Ovn addr}.
Implicit Types p : packet addr.

(** ** What the matches say *)

Lemma suffix_family cidr : ip_suffix (CheckProtocol cidr) = "ip4" \/ ip_suffix (CheckProtocol cidr) = "ip6".
Proof. unfold ip_suffix. destruct (bool_decide _); tauto. Qed.

Definition from (c : string) p : Prop := text_has c (pk_src p) = true.
Definition towards (c : string) p : Prop := text_has c (pk_dst p) = true.

Lemma src_says family c : family = "ip4" \/ family = "ip6" -> address_ok c = true ->
  says (NewACLMatch (family +:+ ".src") "==" c "") (fun p => pk_family p = family /\ from c p).
Proof.
  intros Hf Hc. pose proof (address_ok_iff _ Hc) as (Hn & _).
  eapply says_iff; [|exact (end_says family "src" "" c Hf ltac:(by left) eq_refl Hn)]. intros p. cbv beta. by rewrite app_str_nil_l, value_address.
Qed.

Lemma dst_says family c : family = "ip4" \/ family = "ip6" -> address_ok c = true ->
  says (NewACLMatch (family +:+ ".dst") "==" c "") (fun p => pk_family p = family /\ towards c p).
Proof.
  intros Hf Hc. pose proof (address_ok_iff _ Hc) as (Hn & _).
  eapply says_iff; [|exact (end_says family "dst" "" c Hf ltac:(by right) eq_refl Hn)]. intros p. cbv beta. by rewrite app_str_nil_l, value_address.
Qed.

Lemma pair_says family c d : family = "ip4" \/ family = "ip6" -> address_ok c = true -> address_ok d = true ->
  says (NewAndACLMatch [NewACLMatch (family +:+ ".src") "==" c ""; NewACLMatch (family +:+ ".dst") "==" d ""])
    (fun p => pk_family p = family /\ from c p /\ towards d p).
Proof.
  intros Hf Hc Hd. eapply says_iff; [|exact (says_pair _ _ _ _ (src_says family c Hf Hc) (dst_says family d Hf Hd))]. intros p. cbv beta. tauto.
Qed.

(** A match and the packets it is about. *)
Definition tells (m : ACLMatch) (Q : packet addr -> Prop) : Prop := grouped m = true /\ forall p, meaning p m <-> Q p.

Lemma allow_tells cidr subnet : address_ok cidr = true -> address_ok subnet = true ->
  tells (allow_subnet_match cidr subnet)
    (fun p => pk_family p = ip_suffix (CheckProtocol cidr) /\ ((from cidr p /\ towards subnet p) \/ (from subnet p /\ towards cidr p))).
Proof.
  intros Hc Hs. destruct (pair_says _ cidr subnet (suffix_family cidr) Hc Hs) as [[G1 _] M1].
  destruct (pair_says _ subnet cidr (suffix_family cidr) Hs Hc) as [[G2 _] M2]. unfold allow_subnet_match. split.
  - unfold NewOrACLMatch. cbn [grouped forallb length]. by rewrite G1, G2.
  - intros p. assert (E := denote_Or (fun k e v x => atom_holds p (atom_text k e v x) = true)
      [NewAndACLMatch [NewACLMatch (ip_suffix (CheckProtocol cidr) +:+ ".src") "==" cidr ""; NewACLMatch (ip_suffix (CheckProtocol cidr) +:+ ".dst") "==" subnet ""];
       NewAndACLMatch [NewACLMatch (ip_suffix (CheckProtocol cidr) +:+ ".src") "==" subnet ""; NewACLMatch (ip_suffix (CheckProtocol cidr) +:+ ".dst") "==" cidr ""]]).
    unfold meaning at 1, NewOrACLMatch. cbv zeta. rewrite E, !Exists_cons, Exists_nil.
    change (denote (fun k e v x => atom_holds p (atom_text k e v x) = true) ?m) with (meaning p m). rewrite M1, M2. tauto.
Qed.

(** ** What a private subnet lets in *)

Definition passes_block (nodes : string) (allow : list string) p (cidr : string) : Prop :=
  pk_family p = ip_suffix (CheckProtocol cidr) /\
  ((from cidr p /\ towards cidr p) \/ Exists (fun n => from n p) (node_cidrs cidr nodes) \/
   Exists (fun s => (from cidr p /\ towards s p) \/ (from s p /\ towards cidr p)) (allowed_subnets cidr allow)).

Definition private_passes (cidrBlock nodes : string) (allow : list string) p : Prop :=
  Exists (passes_block nodes allow p) (Split cidrBlock ",").

#[global] Instance passes_block_dec nodes allow p cidr : Decision (passes_block nodes allow p cidr).
Proof. unfold passes_block, from, towards. apply _. Defined.

Lemma elem_allowed cidr allow s : s ∈ allowed_subnets cidr allow -> s <> "" /\ s ∈ TrimSpace <$> allow.
Proof. unfold allowed_subnets. intros [[? _] ?]%list_elem_of_filter. done. Qed.

Lemma passes_tell cidr nodes allow : address_ok cidr = true -> Forall (fun c => address_ok c = true) (Split nodes ",") ->
  Forall (fun c => c <> "" -> address_ok c = true) (TrimSpace <$> allow) ->
  Forall (fun pm => exists Q, tells pm.2 Q /\ (forall p, Q p \/ ~ Q p)) (block_passes nodes allow cidr) /\
  forall p, Exists (fun pm => meaning p pm.2) (block_passes nodes allow cidr) <-> passes_block nodes allow p cidr.
Proof.
  intros Hc Hn Ha. pose proof (suffix_family cidr) as Hf. destruct (pair_says _ cidr cidr Hf Hc Hc) as [[G0 _] M0].
  assert (Hnode : forall n, n ∈ node_cidrs cidr nodes -> address_ok n = true).
  { intros n [_ Hin]%list_elem_of_filter. rewrite Forall_forall in Hn. by apply Hn. }
  assert (Hsub : forall s, s ∈ allowed_subnets cidr allow -> address_ok s = true).
  { intros s Hin. apply elem_allowed in Hin as [Hne Hin]. rewrite Forall_forall in Ha. by apply Ha. }
  split.
  - unfold block_passes. apply Forall_cons. split; [|apply Forall_app; split; apply Forall_fmap, Forall_forall].
    + exists (fun p => pk_family p = ip_suffix (CheckProtocol cidr) /\ from cidr p /\ towards cidr p). split; [by split|]. intros p. unfold from, towards. apply decide_or, _.
    + intros n Hin. exists (fun p => pk_family p = ip_suffix (CheckProtocol cidr) /\ from n p). destruct (src_says _ n Hf (Hnode n Hin)) as [[G _] M].
      split; [by split|]. intros p. unfold from. apply decide_or, _.
    + intros s Hin. eexists. split; [exact (allow_tells cidr s Hc (Hsub s Hin))|]. intros p. unfold from, towards. apply decide_or, _.
  - intros p. unfold block_passes, passes_block. rewrite Exists_cons, Exists_app. cbn [snd]. change (same_subnet_match cidr) with
      (NewAndACLMatch [NewACLMatch (ip_suffix (CheckProtocol cidr) +:+ ".src") "==" cidr ""; NewACLMatch (ip_suffix (CheckProtocol cidr) +:+ ".dst") "==" cidr ""]).
    rewrite M0.
    assert (E1 : Exists (fun pm => meaning p pm.2) ((fun n => (NodeAllowPriority, node_match cidr n)) <$> node_cidrs cidr nodes) <->
      pk_family p = ip_suffix (CheckProtocol cidr) /\ Exists (fun n => from n p) (node_cidrs cidr nodes)).
    { rewrite Exists_fmap, !Exists_exists. cbn [compose snd]. split.
      - intros (n & Hin & Hm). destruct (src_says _ n Hf (Hnode n Hin)) as [_ M]. apply M in Hm as [Hpf Hfrom]. split; [done|]. by exists n.
      - intros (Hpf & n & Hin & Hfrom). exists n. split; [done|]. by apply (src_says _ n Hf (Hnode n Hin)). }
    assert (E2 : Exists (fun pm => meaning p pm.2) ((fun s => (SubnetAllowPriority, allow_subnet_match cidr s)) <$> allowed_subnets cidr allow) <->
      pk_family p = ip_suffix (CheckProtocol cidr) /\
      Exists (fun s => (from cidr p /\ towards s p) \/ (from s p /\ towards cidr p)) (allowed_subnets cidr allow)).
    { rewrite Exists_fmap, !Exists_exists. cbn [compose snd]. split.
      - intros (s & Hin & Hm). apply (allow_tells cidr s Hc (Hsub s Hin)) in Hm as [Hpf Hx]. split; [done|]. by exists s.
      - intros (Hpf & s & Hin & Hx). exists s. split; [done|]. by apply (allow_tells cidr s Hc (Hsub s Hin)). }
    rewrite E1, E2. tauto.
Qed.

(** ** The verdict *)

Lemma max_matching (P : ACL -> Prop) l : Forall (fun a => P a \/ ~ P a) l -> Exists P l ->
  exists a, a ∈ l /\ P a /\ forall b, b ∈ l -> P b -> acl_Priority b <= acl_Priority a.
Proof.
  induction 1 as [|x l Hx Hl IH]; [by intros ?%Exists_nil|]. rewrite Exists_cons. intros Hex.
  assert (Hdec : Exists P l \/ ~ Exists P l).
  { clear IH Hex Hx. induction Hl as [|y l Hy _ IH]; [rewrite Exists_nil; tauto|]. rewrite Exists_cons. tauto. }
  destruct Hdec as [Hin|Hno].
  - destruct (IH Hin) as (a & Ha & HPa & Hmax). destruct Hx as [HPx|HPx].
    + destruct (Z.le_gt_cases (acl_Priority x) (acl_Priority a)).
      * exists a. split_and!; [by right|done|]. intros b [->|Hb]%elem_of_cons HPb; [done|by apply Hmax].
      * exists x. split_and!; [by left|done|]. intros b [->|Hb]%elem_of_cons HPb; [done|]. specialize (Hmax b Hb HPb). lia.
    + exists a. split_and!; [by right|done|]. intros b [->|Hb]%elem_of_cons HPb; [done|by apply Hmax].
  - destruct Hex as [HPx|?]; [|done]. exists x. split_and!; [by left|done|]. intros b [->|Hb]%elem_of_cons HPb; [done|].
    destruct Hno. rewrite Exists_exists. by exists b.
Qed.

(** One drop under allows of higher priorities. *)
Lemma verdict_over drop allows p (Q R : Prop) : acl_Action drop = ACLActionDrop ->
  Forall (fun a => acl_Priority drop < acl_Priority a /\ acl_Action a = ACLActionAllowRelated /\
                   (text_matches p (acl_Match a) \/ ~ text_matches p (acl_Match a))) allows ->
  (text_matches p (acl_Match drop) <-> R) -> (Exists (fun a => text_matches p (acl_Match a)) allows <-> Q) ->
  (verdict (drop :: allows) ACLActionAllowRelated p <-> Q) /\ (verdict (drop :: allows) ACLActionDrop p <-> R /\ ~ Q).
Proof.
  intros Hd Hall HR HQ. rewrite <-HR, <-HQ. pose proof Hall as Hall'. rewrite Forall_forall in Hall'. unfold verdict, decides. split; split.
  - intros (a & ([->|Hin]%elem_of_cons & Hm & _) & Ha); [by rewrite Hd in Ha|]. rewrite Exists_exists. by exists a.
  - intros Hex. destruct (max_matching (fun a => text_matches p (acl_Match a)) allows) as (a & Hin & Hm & Hmax).
    + eapply Forall_impl; [exact Hall|]. by intros a (_ & _ & ?).
    + done.
    + destruct (Hall' a Hin) as (Hpr & Ha & _). exists a. split; [|done]. split_and!; [by right|done|].
      intros b [->|Hb]%elem_of_cons Hmb; [lia|by apply Hmax].
  - intros (a & (Hin & Hm & Hmax) & Ha). apply elem_of_cons in Hin as [->|Hin]; [|destruct (Hall' a Hin) as (_ & Ha' & _); by rewrite Ha' in Ha].
    split; [done|]. rewrite Exists_exists. intros (b & Hb & Hmb). destruct (Hall' b Hb) as (Hpr & _). specialize (Hmax b ltac:(by right) Hmb). lia.
  - intros [Hm Hno]. exists drop. split; [|done]. split_and!; [by left|done|]. intros b [->|Hb]%elem_of_cons Hmb; [done|].
    destruct Hno. rewrite Exists_exists. by exists b.
Qed.

Lemma private_verdict ls cidrBlock nodes allow p : private_ok cidrBlock nodes allow ->
  (verdict (private_wanted ls cidrBlock nodes allow) ACLActionAllowRelated p <-> private_passes cidrBlock nodes allow p) /\
  (verdict (private_wanted ls cidrBlock nodes allow) ACLActionDrop p <-> is_ip p /\ ~ private_passes cidrBlock nodes allow p).
Proof.
  intros [Hc Hn Ha]. rewrite Forall_forall in Hc. assert (Ht := fun c Hin => passes_tell c nodes allow (Hc c Hin) Hn Ha). unfold private_wanted.
  assert (Hone : forall c pm, c ∈ Split cidrBlock "," -> pm ∈ block_passes nodes allow c ->
    (text_matches p (acl_Match (ls_allow ls pm.1 pm.2)) <-> meaning p pm.2) /\ (meaning p pm.2 \/ ~ meaning p pm.2)).
  { intros c pm Hin Hpm. destruct (Ht c Hin) as [Hall _]. rewrite Forall_forall in Hall. destruct (Hall pm Hpm) as (Q & [Hg HQ] & Hdec).
    cbn [acl_Match ls_allow bare_acl]. rewrite text_meaning by done. split; [done|]. rewrite HQ. apply Hdec. }
  apply verdict_over.
  - done.
  - apply Forall_forall. intros a (c & Hin & Hic)%list_elem_of_bind. apply list_elem_of_fmap in Hin as (pm & -> & Hpm).
    destruct (Hone c pm Hic Hpm) as [Hiff Hdec]. split_and!; [|done|by rewrite Hiff].
    unfold block_passes in Hpm. rewrite elem_of_cons, elem_of_app, !list_elem_of_fmap in Hpm.
    destruct Hpm as [->|[(n & -> & _)|(n & -> & _)]]; vm_compute; reflexivity.
  - destruct (flag_says "ip" is_ip eq_refl) as [[G _] M]; [intros q; unfold flag; rewrite bool_decide_true by done; apply bool_decide_eq_true|].
    unfold private_drop, default_drop_options. cbn [acl_Match setACLName set_log bare_acl]. by rewrite text_meaning.
  - unfold private_passes. rewrite !Exists_exists. split.
    + intros (a & Hin & Hm). apply list_elem_of_bind in Hin as (c & Hin & Hic). exists c. split; [done|]. apply (Ht c Hic).
      apply list_elem_of_fmap in Hin as (pm & -> & Hpm). rewrite Exists_exists. exists pm. split; [done|]. by apply (Hone c pm).
    + intros (c & Hic & Hp). apply (Ht c Hic) in Hp. rewrite Exists_exists in Hp. destruct Hp as (pm & Hpm & Hm).
      exists (ls_allow ls pm.1 pm.2). split; [|by apply (Hone c pm)]. apply list_elem_of_bind. exists c. split; [|done]. apply list_elem_of_fmap. by exists pm.
Qed.

End Meaning.

(** ** The table *)

(** An ACL unless one with its key is there. *)
Definition unless_there (base : list ACL) (a : ACL) : option ACL :=
  if bool_decide (Exists (fun b => key_of b = key_of a) base) then None else Some a.

Lemma omap_unless base (l : list ACL) : omap (M := list) id (unless_there base <$> l) = filter (fun a => ~ Exists (fun b => key_of b = key_of a) base) l.
Proof.
  induction l as [|a l IH]; [done|]. rewrite fmap_cons, filter_cons. unfold unless_there at 1. cbn [omap list_omap id].
  destruct (decide (~ Exists (fun b => key_of b = key_of a) base)) as [Hn|Hn].
  - rewrite bool_decide_false by done. by f_equal.
  - rewrite bool_decide_true by (by apply dec_stable). done.
Qed.

Lemma unless_nil a : unless_there [] a = Some a.
Proof. unfold unless_there. rewrite bool_decide_false; [done|]. intros Hx. by apply Exists_nil in Hx. Qed.

Lemma newACL_known t p d pr m action tier (f : ACL -> ACL) db : nb_ok db -> parent_type t -> is_Some (parents t db !! p) ->
  p <> "" -> d <> "" -> pr <> "" -> m <> "" -> action <> "" -> (forall a, key_of (f a) = key_of a) ->
  newACL p d pr m action tier f db = Ok (unless_there (acls_at t p db) (f (bare_acl p d pr m action tier))).
Proof.
  intros Hok Ht Hp Hpn Hd Hpr Hm Hact Hf. unfold newACL, required. rewrite !bool_decide_false by done. cbn [orb].
  rewrite ACLExists_iff by done. cbn [wrapped mbind result_bind]. unfold unless_there. rewrite Hf. f_equal.
  assert (Hiff : Exists (fun r => key_of r.2 = (p, d, Atoi_value pr, m, tier)) (all_rows db) <->
    Exists (fun b => key_of b = key_of (bare_acl p d pr m action tier)) (acls_at t p db)).
  { assert (Ek : key_of (bare_acl p d pr m action tier) = (p, d, Atoi_value pr, m, tier)) by (unfold key_of; by rewrite bare_parent).
    rewrite Ek, !Exists_exists. unfold acls_at. split.
    - intros (r & Hr & Hk). exists r.2. split; [|done]. apply list_elem_of_fmap. exists r. split; [done|].
      apply (rows_with_parent db t p r Hok Ht Hp Hr). unfold key_of in Hk. congruence.
    - intros (b & Hb & Hk). apply list_elem_of_fmap in Hb as (r & -> & Hr). exists r. split; [by eapply rows_at_all|done]. }
  by rewrite (bool_decide_ext _ _ Hiff).
Qed.

Lemma collect_acls_ok {A} (f : A -> result (list (option ACL))) (g : A -> list ACL) (h : ACL -> option ACL) (l : list A) :
  Forall (fun x => f x = Ok (h <$> g x)) l -> collect_acls f l = Ok (h <$> (l ≫= g)).
Proof.
  intros Hl. unfold collect_acls. rewrite (collect_ok _ (fun x => h <$> g x)) by done. cbn [mbind result_bind]. f_equal.
  clear Hl. induction l as [|x l IH]; [done|]. rewrite fmap_cons, bind_cons, fmap_app. cbn [concat]. by rewrite IH.
Qed.

Lemma key_default_drop ls a : key_of (default_drop_options ls a) = key_of a.
Proof. done. Qed.

Lemma key_of_subnet ls a : key_of (of_subnet ls a) = key_of a.
Proof. unfold key_of, of_subnet, set_external, acl_Parent. cbn. by rewrite lookup_insert_ne. Qed.

(** ** Private subnets *)

(** The texts of the matches are not empty; their reading is not needed here. *)
#[local] Instance no_ovn : Ovn () := {| group_has _ _ := false; set_has _ _ := false; text_has _ _ := false |}.

Lemma private_acls_ok ls cidrBlock nodes allow db : nb_ok db -> ls <> "" -> is_Some (nb_lss db !! ls) -> acls_at LogicalSwitchKey ls db = [] ->
  private_ok cidrBlock nodes allow -> private_acls ls cidrBlock nodes allow db = Ok (Some <$> private_wanted ls cidrBlock nodes allow).
Proof.
  intros Hok Hls Hp He [Hc Hn Ha].
  assert (Hnew : forall pr m action f, pr <> "" -> m <> "" -> action <> "" -> (forall a, key_of (f a) = key_of a) ->
    newACL ls ACLDirectionToLport pr m action NetpolACLTier f db = Ok (Some (f (bare_acl ls ACLDirectionToLport pr m action NetpolACLTier)))).
  { intros pr m action f H1 H2 H3 H4. rewrite (newACL_known LogicalSwitchKey) by (done || by right). by rewrite He, unless_nil. }
  unfold private_acls. rewrite Hnew by (done || apply key_default_drop). cbn [wrapped mbind result_bind].
  rewrite (collect_acls_ok _ (fun cidr => (fun pm => ls_allow ls pm.1 pm.2) <$> block_passes nodes allow cidr) Some).
  - cbn [mbind result_bind]. done.
  - eapply Forall_impl; [exact Hc|]. intros cidr Hcidr. cbv beta. destruct (passes_tell (addr := ()) cidr nodes allow Hcidr Hn Ha) as [Hall _].
    assert (Htext : forall pm, pm ∈ block_passes nodes allow cidr -> ACLMatch_String pm.2 <> "").
    { intros pm Hpm. rewrite Forall_forall in Hall. destruct (Hall pm Hpm) as (Q & [Hg _] & _). by apply grouped_text. }
    unfold block_passes in *. setoid_rewrite elem_of_cons in Htext. setoid_rewrite elem_of_app in Htext. setoid_rewrite list_elem_of_fmap in Htext.
    unfold private_block_acls. rewrite Hnew; [|done|apply (Htext (SubnetAllowPriority, same_subnet_match cidr)); by left|done|done]. cbn [wrapped mbind result_bind].
    rewrite (collect_ok _ (fun n => Some (ls_allow ls NodeAllowPriority (node_match cidr n))) (node_cidrs cidr nodes)).
    2:{ apply Forall_forall. intros n Hin. rewrite Hnew; [reflexivity|done| |done|done]. apply (Htext (NodeAllowPriority, node_match cidr n)). right. left. by exists n. }
    cbn [mbind result_bind].
    rewrite (collect_ok _ (fun s => Some (ls_allow ls SubnetAllowPriority (allow_subnet_match cidr s))) (allowed_subnets cidr allow)).
    2:{ apply Forall_forall. intros n Hin. rewrite Hnew; [reflexivity|done| |done|done]. apply (Htext (SubnetAllowPriority, allow_subnet_match cidr n)). right. right. by exists n. }
    cbn [mbind result_bind]. rewrite !fmap_cons, !fmap_app, <-!list_fmap_compose. done.
Qed.

Lemma private_parent ls cidrBlock nodes allow : Forall (fun a => acl_Parent a = ls /\ acl_ExternalIDs a !! "subnet" = None) (private_wanted ls cidrBlock nodes allow).
Proof.
  unfold private_wanted. apply Forall_cons. split; [done|]. apply Forall_forall. intros a (c & Ha & _)%list_elem_of_bind.
  apply list_elem_of_fmap in Ha as (pm & -> & _). done.
Qed.

Lemma clear_changes ls db : ls <> "" -> nb_ok db -> accepting db -> is_Some (nb_lss db !! ls) ->
  exists db', DeleteAcls ls LogicalSwitchKey "" ∅ db = Done (Ok (), db') /\ changes LogicalSwitchKey ls [] db db'.
Proof.
  intros Hls Hok Ha Hp. destruct (DeleteAcls_changes ls LogicalSwitchKey "" db Hls Hok ltac:(by right) Ha Hp) as (db' & E & C).
  rewrite filter_none in C; [by exists db'|]. apply Forall_forall. intros a _ Hx. apply Hx. by left.
Qed.

Lemma SetLogicalSwitchPrivate_changes ls cidrBlock nodes allow db : ls <> "" -> nb_ok db -> accepting db -> is_Some (nb_lss db !! ls) ->
  private_ok cidrBlock nodes allow ->
  exists db', SetLogicalSwitchPrivate ls cidrBlock nodes allow db = Done (Ok (), db') /\
    changes LogicalSwitchKey ls (private_wanted ls cidrBlock nodes allow) db db'.
Proof.
  intros Hls Hok Ha Hp Hpv. destruct (clear_changes ls db Hls Hok Ha Hp) as (db1 & E1 & C1).
  pose proof (ch_self _ _ _ _ _ C1) as Hp1. unfold SetLogicalSwitchPrivate. rewrite (bind_done _ _ db () db1) by (by apply wrapping_done).
  rewrite (bind_done _ _ db1 (Some <$> private_wanted ls cidrBlock nodes allow) db1).
  2:{ apply reading_done, private_acls_ok; [by eapply ch_ok|done|done|by eapply ch_acls|done]. }
  destruct (CreateAcls_changes ls LogicalSwitchKey (Some <$> private_wanted ls cidrBlock nodes allow) db1) as (db2 & E2 & C2).
  - by eapply ch_ok.
  - by right.
  - by eapply changes_accepting.
  - done.
  - rewrite omap_id_Some. eapply Forall_impl; [apply private_parent|]. by intros a [? _].
  - exists db2. split; [by apply wrapping_done|]. rewrite omap_id_Some, (ch_acls _ _ _ _ _ C1) in C2. by eapply changes_trans.
Qed.

(** ** The list of a subnet *)

Definition listed_row (ls : string) (a : SubnetACL) : ACL :=
  of_subnet ls (bare_acl ls (sa_Direction a) (Itoa (sa_Priority a)) (sa_Match a) (sa_Action a) NetpolACLTier).

Definition ew_row (ls direction cidr : string) : ACL :=
  of_subnet ls (bare_acl ls direction AllowEWTrafficPriority (ACLMatch_String (same_subnet_match cidr)) ACLActionAllow NetpolACLTier).

(** Nothing without a list, even where east-west traffic is allowed. *)
Definition listed_wanted (ls cidrBlock : string) (l : list SubnetACL) (ew : bool) : list ACL :=
  match l with
  | [] => []
  | _ => (if ew then Split cidrBlock "," ≫= (fun cidr => [ew_row ls ACLDirectionToLport cidr; ew_row ls ACLDirectionFromLport cidr]) else []) ++
         (listed_row ls <$> l)
  end.

Definition listed_ok (a : SubnetACL) : Prop := sa_Direction a <> "" /\ 0 <= sa_Priority a /\ sa_Match a <> "" /\ sa_Action a <> "".

Lemma subnet_acls_ok ls cidrBlock l ew db : nb_ok db -> ls <> "" -> is_Some (nb_lss db !! ls) -> l <> [] -> Forall listed_ok l ->
  Forall (fun c => address_ok c = true) (Split cidrBlock ",") ->
  subnet_acls ls cidrBlock l ew db = Ok (unless_there (acls_at LogicalSwitchKey ls db) <$> listed_wanted ls cidrBlock l ew).
Proof.
  intros Hok Hls Hp Hne Hl Hc. set (base := acls_at LogicalSwitchKey ls db).
  assert (Hnew : forall d pr m action, d <> "" -> pr <> "" -> m <> "" -> action <> "" ->
    newACL ls d pr m action NetpolACLTier (of_subnet ls) db = Ok (unless_there base (of_subnet ls (bare_acl ls d pr m action NetpolACLTier)))).
  { intros. apply newACL_known; try done; [by right|apply key_of_subnet]. }
  unfold subnet_acls. assert (Eew : (if ew then collect_acls (fun cidr => ew_acls ls cidr db) (Split cidrBlock ",") else Ok []) =
    Ok (unless_there base <$> (if ew then Split cidrBlock "," ≫= (fun cidr => [ew_row ls ACLDirectionToLport cidr; ew_row ls ACLDirectionFromLport cidr]) else []))).
  { destruct ew; [|done]. apply collect_acls_ok. eapply Forall_impl; [exact Hc|]. intros cidr Hcidr. unfold ew_acls.
    assert (Ht : ACLMatch_String (same_subnet_match cidr) <> "").
    { destruct (pair_says (addr := ()) _ cidr cidr (suffix_family cidr) Hcidr Hcidr) as [[G _] _]. by apply grouped_text. }
    rewrite Hnew by done. cbn [wrapped mbind result_bind]. by rewrite Hnew. }
  rewrite Eew. cbn [mbind result_bind].
  rewrite (collect_ok _ (unless_there base ∘ listed_row ls)).
  - cbn [mbind result_bind]. f_equal. unfold listed_wanted. destruct l as [|a l]; [done|]. by rewrite fmap_app, <-list_fmap_compose.
  - eapply Forall_impl; [exact Hl|]. intros a (Hd & Hpr & Hm & Ha). unfold listed_acl. rewrite Hnew; [done|done| |done|done].
    assert (Hi : name_ok (Itoa (sa_Priority a)) = true) by (by apply Itoa_name). by apply name_ok_iff in Hi as [? _].
Qed.

(** Rows without the mark of the list are not deleted with it. *)
Lemma keep_unmarked ls rows : Forall (fun r : row => acl_ExternalIDs r.2 !! "subnet" = None) rows -> ls <> "" ->
  filter (fun r : row => aclFilter "" (<[aclParentKey := ls]> {["subnet" := ls]}) r.2 = false) rows = rows.
Proof.
  intros Hr Hls. apply filter_all. eapply Forall_impl; [exact Hr|]. intros r Hn. apply not_true_iff_false. rewrite aclFilter_iff.
  intros (Hsize & [He|Hall] & _).
  - rewrite He, map_size_empty in Hsize. assert (Hz : size (<[aclParentKey := ls]> {["subnet" := ls]} : gmap string string) = 0%nat) by lia.
    by apply map_size_empty_inv, insert_non_empty in Hz.
  - specialize (Hall "subnet" ls). rewrite lookup_insert_ne, lookup_singleton_eq in Hall by done. specialize (Hall eq_refl).
    unfold id_matches in Hall. cbn [fst snd] in Hall. rewrite Hn, bool_decide_false in Hall by done. by apply bool_decide_eq_true in Hall.
Qed.

Lemma UpdateLogicalSwitchACL_changes ls cidrBlock l ew db : ls <> "" -> nb_ok db -> accepting db -> is_Some (nb_lss db !! ls) ->
  Forall listed_ok l -> Forall (fun c => address_ok c = true) (Split cidrBlock ",") ->
  Forall (fun a => acl_ExternalIDs a !! "subnet" = None) (acls_at LogicalSwitchKey ls db) ->
  let base := acls_at LogicalSwitchKey ls db in
  exists db', UpdateLogicalSwitchACL ls cidrBlock l ew db = Done (Ok (), db') /\
    changes LogicalSwitchKey ls (base ++ filter (fun a => ~ Exists (fun b => key_of b = key_of a) base) (listed_wanted ls cidrBlock l ew)) db db'.
Proof.
  intros Hls Hok Ha Hp Hl Hc Hbase base. destruct Hp as [rows Hrows]. assert (Hx : parents LogicalSwitchKey db !! ls = Some rows) by done.
  assert (Hun : Forall (fun r : row => acl_ExternalIDs r.2 !! "subnet" = None) rows).
  { unfold acls_at, rows_at in Hbase. rewrite Hx in Hbase. by apply Forall_fmap in Hbase. }
  pose proof (keep_unmarked ls rows Hun Hls) as Ekeep.
  destruct l as [|a0 l0]; cbn [UpdateLogicalSwitchACL].
  - exists db. split.
    + apply wrapping_done. rewrite (DeleteAcls_ok ls LogicalSwitchKey "" _ rows) by (done || by right). rewrite Ekeep, put_id by (done || by right). done.
    + pose proof (put_changes LogicalSwitchKey ls rows rows db Hok ltac:(by right) Hx ltac:(done)) as C. rewrite put_id in C by (done || by right).
      unfold listed_wanted. rewrite filter_nil, app_nil_r. unfold base, acls_at, rows_at. rewrite Hx. exact C.
  - set (l := a0 :: l0) in *. rewrite (bind_done _ _ db (unless_there base <$> listed_wanted ls cidrBlock l ew) db)
      by (apply reading_done, subnet_acls_ok; done).
    destruct (DeleteAclsOps_ok ls LogicalSwitchKey "" {["subnet" := ls]} rows db Hls Hok ltac:(by right) Hx) as (del & Ed & _ & Ad).
    rewrite Ekeep, put_id in Ad by (done || by right).
    rewrite (bind_done _ _ db del db) by (by apply reading_done).
    destruct (CreateAclsOps_ok ls LogicalSwitchKey (unless_there base <$> listed_wanted ls cidrBlock l ew) rows db ltac:(by right) Hx) as (add & Ei & _ & Ai).
    rewrite (bind_done _ _ db add db) by (by apply reading_done). rewrite omap_unless in Ai.
    eexists. split.
    + apply wrapping_done. rewrite Transact_accepting by done. unfold apply_ops. rewrite fold_left_app.
      change (fold_left (fun d op => apply_op op d) del db) with (apply_ops del db). rewrite Ad.
      change (fold_left (fun d op => apply_op op d) add db) with (apply_ops add db). by rewrite Ai.
    + apply add_changes; [done|by right|by eexists|]. apply Forall_forall. intros a [_ Hin]%list_elem_of_filter.
      unfold listed_wanted, l in Hin. rewrite elem_of_app in Hin.
      assert (Hpar : forall d pr m action, acl_Parent (of_subnet ls (bare_acl ls d pr m action NetpolACLTier)) = ls)
        by (intros; unfold acl_Parent, of_subnet, set_external; cbn; by rewrite lookup_insert_ne).
      destruct Hin as [Hin|Hin].
      * destruct ew; [|by apply elem_of_nil in Hin]. apply list_elem_of_bind in Hin as (c & Hin & _).
        rewrite !elem_of_cons, elem_of_nil in Hin. destruct Hin as [->|[->|[]]]; apply Hpar.
      * apply list_elem_of_fmap in Hin as (x & -> & _). apply Hpar.
Qed.

(** ** The reconciliation *)

Definition base_wanted (ls cidrBlock nodes : string) (private : bool) (allow : list string) : list ACL :=
  if private then private_wanted ls cidrBlock nodes allow else [].

(** The ACLs of the switch of a subnet: those of a private subnet, then those of
    the list that have not the key of one of them. *)
Definition subnet_wanted (ls cidrBlock nodes : string) (private : bool) (allow : list string) (l : list SubnetACL) (ew : bool) : list ACL :=
  let base := base_wanted ls cidrBlock nodes private allow in
  base ++ filter (fun a => ~ Exists (fun b => key_of b = key_of a) base) (listed_wanted ls cidrBlock l ew).

Lemma reporting_done patch reason (m : DB ()) db db' : m db = Done (Ok (), db') -> reporting patch reason m db = Done (Ok (), db').
Proof. unfold reporting. by intros ->. Qed.

Lemma reconcile_subnet_changes patch ls cidrBlock nodes private allow l ew db : (forall reason, patch reason = None) ->
  ls <> "" -> nb_ok db -> accepting db -> is_Some (nb_lss db !! ls) -> private_ok cidrBlock nodes allow -> Forall listed_ok l ->
  exists db', reconcile_subnet_acls patch ls cidrBlock nodes private allow l ew db = Done (Ok (), db') /\
    changes LogicalSwitchKey ls (subnet_wanted ls cidrBlock nodes private allow l ew) db db'.
Proof.
  intros Hpatch Hls Hok Ha Hp Hpv Hl. assert (Hrep : forall reason d, report patch reason d = Done (Ok (), d)) by (intros; unfold report; by rewrite Hpatch).
  assert (H1 : exists db1, (if private then
         _ ← reporting patch "SetPrivateLogicalSwitchFailed" (SetLogicalSwitchPrivate ls cidrBlock nodes allow);
         report patch "SetPrivateLogicalSwitchSuccess"
       else
         _ ← reporting patch "ResetLogicalSwitchAclFailed" (DeleteAcls ls LogicalSwitchKey "" ∅);
         report patch "ResetLogicalSwitchAclSuccess") db = Done (Ok (), db1) /\
    changes LogicalSwitchKey ls (base_wanted ls cidrBlock nodes private allow) db db1).
  { unfold base_wanted. destruct private.
    - destruct (SetLogicalSwitchPrivate_changes ls cidrBlock nodes allow db Hls Hok Ha Hp Hpv) as (db1 & E1 & C1). exists db1. split; [|done].
      by rewrite (bind_done _ _ db () db1) by (by apply reporting_done).
    - destruct (clear_changes ls db Hls Hok Ha Hp) as (db1 & E1 & C1). exists db1. split; [|done]. by rewrite (bind_done _ _ db () db1) by (by apply reporting_done). }
  destruct H1 as (db1 & E1 & C1). pose proof (ch_acls _ _ _ _ _ C1) as A1.
  destruct (UpdateLogicalSwitchACL_changes ls cidrBlock l ew db1) as (db2 & E2 & C2).
  - done.
  - by eapply ch_ok.
  - by eapply changes_accepting.
  - exact (ch_self _ _ _ _ _ C1).
  - done.
  - apply (pv_cidrs _ _ _ Hpv).
  - rewrite A1. unfold base_wanted. destruct private; [|done]. eapply Forall_impl; [apply private_parent|]. by intros a [_ ?].
  - exists db2. unfold reconcile_subnet_acls. rewrite (bind_done _ _ db () db1) by done. split; [by apply reporting_done|].
    rewrite A1 in C2. by eapply changes_trans.
Qed.

(** ** The repairs of the ACL table at the start

    [MigrateACLTier] moves the ACLs of tier 0 and changes nothing else;
    [CleanNoParentKeyAcls] removes exactly the rows of this program that do not
    name their parent. *)

Definition unique_rows (db : NbDB) : Prop := NoDup (all_rows db).*1.

Lemma unique_row db r r' : unique_rows db -> r ∈ all_rows db -> r' ∈ all_rows db -> r.1 = r'.1 -> r = r'.
Proof.
  intros Hu Hr Hr' E. apply list_elem_of_lookup in Hr as [i Hi], Hr' as [j Hj].
  assert (i = j) as ->; [|congruence]. eapply NoDup_lookup; [exact Hu|rewrite list_lookup_fmap, Hi; reflexivity|].
  rewrite list_lookup_fmap, Hj. cbn. by rewrite E.
Qed.

(** ** Tiers *)

Definition migrated (r : row) : row := if bool_decide (acl_Tier r.2 = 0) then (r.1, set_tier NetpolACLTier r.2) else r.

Definition map_rows (f : row -> row) (db : NbDB) : NbDB :=
  set_lss (fmap (M := gmap string) (map f) (nb_lss db)) (set_pgs (fmap (M := gmap string) (map f) (nb_pgs db)) db).

Definition change_all (l : list N) (change : ACL -> ACL) (r : row) : row := fold_left (fun r u => change_row u change r) l r.

Lemma map_rows_map_rows f g db : map_rows g (map_rows f db) = map_rows (fun r => g (f r)) db.
Proof.
  unfold map_rows, set_lss, set_pgs. cbn. f_equal; rewrite <-map_fmap_compose; apply map_fmap_ext; intros k rows _; cbn; by rewrite map_map.
Qed.

Lemma map_rows_ext f g db : (forall r, r ∈ all_rows db -> f r = g r) -> map_rows f db = map_rows g db.
Proof.
  intros Hfg. assert (Hrows : forall t k rows, parent_type t -> parents t db !! k = Some rows -> map f rows = map g rows).
  { intros t k rows Ht Hk. apply map_ext_in. intros r Hr. apply Hfg, elem_all_rows. exists t, k, rows. split_and!; [done..|]. by apply list_elem_of_In. }
  unfold map_rows. f_equal; [|f_equal]; apply map_fmap_ext; intros k rows Hk; [apply (Hrows LogicalSwitchKey k); [by right|done]|apply (Hrows portGroupKey k); [by left|done]].
Qed.

Lemma map_rows_id db : map_rows id db = db.
Proof.
  unfold map_rows, set_lss, set_pgs. destruct db. cbn. f_equal; rewrite <-map_fmap_id; apply map_fmap_ext; intros k rows _; apply map_id.
Qed.

Lemma update_all l change db : apply_ops ((fun u => OpUpdate u change) <$> l) db = map_rows (change_all l change) db.
Proof.
  revert db. induction l as [|u l IH]; intros db; [symmetry; apply map_rows_id|].
  change (apply_ops ((fun u => OpUpdate u change) <$> l) (map_rows (change_row u change) db) = map_rows (change_all (u :: l) change) db).
  rewrite IH. exact (map_rows_map_rows (change_row u change) (change_all l change) db).
Qed.

Lemma change_all_out l change r : r.1 ∉ l -> change_all l change r = r.
Proof.
  induction l as [|w l IH]; intros Hv; [done|]. cbn. unfold change_row at 2. rewrite bool_decide_false by (intros E; apply Hv; rewrite E; by left).
  apply IH. intros ?; apply Hv; by right.
Qed.

Lemma change_all_in l u a : u ∈ l -> change_all l (set_tier NetpolACLTier) (u, a) = (u, set_tier NetpolACLTier a).
Proof.
  revert a. induction l as [|v l IH]; intros a; [by intros ?%elem_of_nil|]. intros Hin.
  change (change_all l (set_tier NetpolACLTier) (change_row v (set_tier NetpolACLTier) (u, a)) = (u, set_tier NetpolACLTier a)).
  unfold change_row. cbn [fst snd]. destruct (bool_decide_reflect (u = v)) as [->|Hne].
  - destruct (decide (v ∈ l)) as [Hv|Hv]; [exact (IH (set_tier NetpolACLTier a) Hv)|by apply change_all_out].
  - apply IH. by apply elem_of_cons in Hin as [?|?].
Qed.

Lemma MigrateACLTier_ok db : unique_rows db -> accepting db -> MigrateACLTier db = Done (Ok (), map_rows migrated db).
Proof.
  intros Hu Ha. unfold MigrateACLTier. set (l := filter (fun r => acl_Tier r.2 = 0) (all_rows db)).
  rewrite (bind_done _ _ db l db) by (by apply reading_done). apply wrapping_done. rewrite Transact_accepting by done.
  replace ((fun r : row => OpUpdate r.1 (set_tier NetpolACLTier)) <$> l) with ((fun u => OpUpdate u (set_tier NetpolACLTier)) <$> l.*1)
    by (by rewrite <-list_fmap_compose).
  rewrite update_all. do 2 f_equal. apply map_rows_ext. intros r Hr. unfold migrated. destruct (bool_decide_reflect (acl_Tier r.2 = 0)) as [Hz|Hz].
  - destruct r as [u a]. apply change_all_in. apply list_elem_of_fmap. exists (u, a). split; [done|]. by apply list_elem_of_filter.
  - apply change_all_out. intros Hin. apply list_elem_of_fmap in Hin as (r' & E & Hr'). apply list_elem_of_filter in Hr' as [Hz' Hr'].
    apply Hz. by rewrite (unique_row db r r').
Qed.

(** ** Orphans *)

(** The references that a list of operations removes. *)
Definition removes (ops : list operation) (t p : string) (u : N) : bool :=
  existsb (fun op => match op with OpRemove t' p' us => bool_decide (t' = t /\ p' = p /\ u ∈ us) | _ => false end) ops.

Definition only_removes (db : NbDB) (op : operation) : Prop :=
  match op with OpRemove t p _ => parent_type t /\ is_Some (parents t db !! p) | _ => False end.

Lemma remove_lookup ops db t p : parent_type t -> Forall (only_removes db) ops ->
  parents t (apply_ops ops db) !! p = (filter (fun r : row => removes ops t p r.1 = false)) <$> (parents t db !! p) /\
  nb_obj (apply_ops ops db) = nb_obj db /\ nb_meters (apply_ops ops db) = nb_meters db.
Proof.
  intros Ht. revert db. induction ops as [|op ops IH]; intros db Hops.
  - cbn. split; [|done]. destruct (parents t db !! p) as [rows|]; [|done]. cbn. f_equal. induction rows as [|r rows IH]; [done|].
    by rewrite filter_cons_True, <-IH.
  - apply Forall_cons in Hops as [Hop Hops]. destruct op as [| t' p' us | | | | | | | | | | | | | | | |]; try done. destruct Hop as [Ht' [rows0 H0]].
    assert (Ht'' : (t' = portGroupKey /\ t = portGroupKey) \/ (t' = LogicalSwitchKey /\ t = LogicalSwitchKey) \/ t' <> t)
      by (destruct Ht as [-> | ->], Ht' as [-> | ->]; tauto || (right; right; done)).
    set (db1 := apply_op (OpRemove t' p' us) db).
    assert (E1 : db1 = put t' p' (filter (fun r : row => r.1 ∉ us) rows0) db) by (unfold db1; cbn; by rewrite H0).
    destruct (IH db1) as (E & O & Mt).
    { eapply Forall_impl; [exact Hops|]. intros op. destruct op; try done. intros [H1 H2]. split; [done|]. rewrite E1, parents_put by done.
      destruct (bool_decide _); [by eexists|done]. }
    change (apply_ops (OpRemove t' p' us :: ops) db) with (apply_ops ops db1). split_and!.
    + rewrite E, E1, parents_put by done. cbn [removes existsb].
      destruct (bool_decide_reflect (t = t' /\ p = p')) as [[-> ->]|Hne].
      * rewrite H0. cbn. f_equal. rewrite list_filter_filter. apply list_filter_iff_in. intros r _. rewrite orb_false_iff, bool_decide_eq_false.
        unfold removes. intuition.
      * destruct (parents t db !! p) as [rows|]; [|done]. cbn. f_equal. apply list_filter_iff_in. intros r _. rewrite orb_false_iff, bool_decide_eq_false.
        unfold removes. intuition.
    + rewrite O, E1. unfold put, set_parents. by destruct (bool_decide _).
    + rewrite Mt, E1. unfold put, set_parents. by destruct (bool_decide _).
Qed.

Lemma removes_iff ops t p u : removes ops t p u = true <-> exists us, OpRemove t p us ∈ ops /\ u ∈ us.
Proof.
  unfold removes. rewrite existsb_exists. split.
  - intros (op & Hin & Hop). destruct op; try done. apply bool_decide_eq_true in Hop as (-> & -> & Hu). eexists. split; [by apply list_elem_of_In|done].
  - intros (us & Hin & Hu). exists (OpRemove t p us). split; [by apply list_elem_of_In|]. by apply bool_decide_eq_true.
Qed.

Lemma elem_detach t u db op : op ∈ detach_ops t u db <-> exists p rows, op = OpRemove t p [u] /\ parents t db !! p = Some rows /\ u ∈ rows.*1.
Proof.
  unfold detach_ops. rewrite list_elem_of_fmap. split.
  - intros ([p rows] & -> & Hin). apply list_elem_of_filter in Hin as [Hu Hin]. apply elem_of_map_to_list in Hin. by exists p, rows.
  - intros (p & rows & -> & Hp & Hu). exists (p, rows). split; [done|]. apply list_elem_of_filter. split; [done|]. by apply elem_of_map_to_list.
Qed.

Lemma CleanNoParentKeyAcls_ok db : unique_rows db -> accepting db -> exists db', CleanNoParentKeyAcls db = Done (Ok (), db') /\
  nb_obj db' = nb_obj db /\ nb_meters db' = nb_meters db /\
  forall t p, parent_type t -> parents t db' !! p = filter (fun r : row => orphan r.2 = false) <$> (parents t db !! p).
Proof.
  intros Hu Ha. unfold CleanNoParentKeyAcls. set (ops := filter (fun r => orphan r.2 = true) (all_rows db) ≫=
    (fun r : row => detach_ops portGroupKey r.1 db ++ detach_ops LogicalSwitchKey r.1 db)).
  assert (Hin : forall op, op ∈ ops <-> exists t p rows r, parent_type t /\ parents t db !! p = Some rows /\ r ∈ rows /\ orphan r.2 = true /\ op = OpRemove t p [r.1]).
  { intros op. unfold ops. rewrite list_elem_of_bind. setoid_rewrite elem_of_app. setoid_rewrite elem_detach. split.
    - intros (r & [(p & rows & -> & Hp & Hr)|(p & rows & -> & Hp & Hr)] & Hf); apply list_elem_of_filter in Hf as [Ho Hall];
        apply list_elem_of_fmap in Hr as (r' & E & Hr').
      + assert (Hr2 : r' ∈ all_rows db) by (apply elem_all_rows; exists portGroupKey, p, rows; split_and!; [by left|done|done]).
        pose proof (unique_row db r r' Hu Hall Hr2 E) as <-. exists portGroupKey, p, rows, r. split_and!; [by left|done..].
      + assert (Hr2 : r' ∈ all_rows db) by (apply elem_all_rows; exists LogicalSwitchKey, p, rows; split_and!; [by right|done|done]).
        pose proof (unique_row db r r' Hu Hall Hr2 E) as <-. exists LogicalSwitchKey, p, rows, r. split_and!; [by right|done..].
    - intros (t & p & rows & r & Ht & Hp & Hr & Ho & ->). exists r. split.
      + destruct Ht as [-> | ->]; [left|right]; exists p, rows; (split_and!; [done..|]); apply list_elem_of_fmap; by exists r.
      + apply list_elem_of_filter. split; [done|]. apply elem_all_rows. by exists t, p, rows. }
  assert (Honly : Forall (only_removes db) ops).
  { apply Forall_forall. intros op Hop. apply Hin in Hop as (t & p & rows & r & Ht & Hp & _ & _ & ->). split; [done|by eexists]. }
  exists (apply_ops ops db). split; [|split_and!].
  - rewrite (bind_done _ _ db ops db) by (by apply reading_done). apply wrapping_done. by rewrite Transact_accepting.
  - apply (remove_lookup ops db portGroupKey ""); [by left|done].
  - apply (remove_lookup ops db portGroupKey ""); [by left|done].
  - intros t p Ht. destruct (remove_lookup ops db t p Ht Honly) as (E & _). rewrite E. destruct (parents t db !! p) as [rows|] eqn:Ep; [|done].
    cbn. f_equal. apply list_filter_iff_in. intros r Hr. rewrite <-!not_true_iff_false, removes_iff. split; intros Hno Hx; apply Hno.
    + exists [r.1]. split; [|by left]. apply Hin. by exists t, p, rows, r.
    + destruct Hx as (us & Hop & Hus). apply Hin in Hop as (t' & p' & rows' & r' & Ht' & Hp' & Hr' & Ho & [= -> -> ->]).
      apply list_elem_of_singleton in Hus. rewrite (unique_row db r r'); [done|done| | |done]; apply elem_all_rows; [by exists t', p', rows|by exists t', p', rows'].
Qed.
