(* ===== verification/PodNets.v ===== *)
(** * Networks of pods ([pkg/controller/pod.go], [pkg/controller/network_attachment.go])

    The networks a pod is attached to, from its annotations, the namespace and the
    network attachment definitions.  The parsing of annotations and configurations
    belongs to other libraries and is a class. *)
From Stdlib Require Import Ascii.
From S2P Require Import Prelude GoStrings GoNet UtilNet Validator GoText NbDb PodAddress.

Local Open Scope Z_scope.

(** ** Pods *)

Record ContainerPort := mkContainerPort { port_Name : string; port_Number : Z }.
Record Container := mkContainer { con_RestartPolicy : option string; con_Ports : list ContainerPort }.

(** [po_Deleting] is whether the deletion timestamp is set. *)
Record PodObject := mkPodObject {
  po_pod : Pod;
  po_Labels : gmap string string;
  po_HostNetwork : bool;
  po_Deleting : bool;
  po_InitContainers : list Container;
  po_Containers : list Container
}.

(** ** Attachments *)

(** The requested addresses are read elsewhere. *)
Record NetworkSelectionElement := mkAttach { at_Namespace : string; at_Name : string; at_InterfaceRequest : string }.

(** Types of plugins, each with the type of its IPAM. *)
Record DelegateNetConf := mkConf { conf_Type : string; conf_IPAM : string; conf_Plugins : list (string * string) }.

Class Multus := {
  ParseNetworkAnnotation : string -> string -> result (list NetworkSelectionElement);
  unmarshal_conf : string -> result (string * string);
  LoadDelegateNetConfList : string -> result (list (string * string))
}.

(** The caches: subnets in the order they are listed in, the addresses left by
    their status, and the configurations of network attachment definitions. *)
Record NetCluster := mkNetCluster {
  nc_cluster : Cluster;
  nc_listed : list SubnetSpec;
  nc_left : string -> Z * Z;
  nc_nads : gmap (string * string) string;
  EnableNonPrimaryCNI : bool
}.

Definition DefaultNetworkAnnotation : string := "v1.multus-cni.io/default-network".
Definition NetworkAttachmentAnnot : string := "k8s.v1.cni.cncf.io/networks".
Definition MigrationJobNameAnnotation : string := "kubevirt.io/migrationJobName".
Definition IPAddressAnnotation : string := "ovn.kubernetes.io/ip_address".

Definition IsOvnNetwork (netCfg : DelegateNetConf) : bool :=
  bool_decide (conf_Type netCfg = CniTypeName) || existsb (fun item => bool_decide (item.1 = CniTypeName)) (conf_Plugins netCfg).

Definition isKubeOVNIPAMNetwork (netCfg : DelegateNetConf) : bool :=
  bool_decide (conf_IPAM netCfg = CniTypeName) || existsb (fun plugin => bool_decide (plugin.2 = CniTypeName)) (conf_Plugins netCfg).

Definition IsDefaultNet (defaultNetAnnotation : string) (attach : NetworkSelectionElement) : bool :=
  bool_decide (defaultNetAnnotation = at_Name attach) ||
  bool_decide (defaultNetAnnotation = at_Namespace attach +:+ "/" +:+ at_Name attach).

Section Nets.

Context `{Multus} (c : NetCluster).

Definition loadNetConf (bytes : string) : result DelegateNetConf :=
  '(type, ipam) ← wrapped "LoadDelegateNetConf: error unmarshalling delegate config: %v" [] (unmarshal_conf bytes);
  if bool_decide (type = "") then
    plugins ← wrapped "LoadDelegateNetConf: failed with: %v" [] (LoadDelegateNetConfList bytes);
    Ok (mkConf type ipam plugins)
  else Ok (mkConf type ipam []).

(** ** The default subnet *)

Definition checkIPsInExcludeList (ips : string) (excludeIPs : list string) (cidr : string) : outcome bool :=
  expandedExcludeIPs ← ExpandExcludeIPs excludeIPs cidr;
  Done (existsb (fun ipAddr => nonempty ipAddr && existsb (fun excludeIP => ContainsIPs excludeIP ipAddr) expandedExcludeIPs)
          (TrimSpace <$> Split (TrimSpace ips) ",")).

Definition podCanUseExcludeIPs (pod : Pod) (subnet : SubnetSpec) : outcome bool :=
  let ipAddr := annotation pod IPAddressAnnotation in
  let ipPool := annotation pod IPPoolAnnotation in
  if nonempty ipAddr then checkIPsInExcludeList ipAddr (ExcludeIps subnet) (CIDRBlock subnet)
  else if nonempty ipPool then checkIPsInExcludeList ipPool (ExcludeIps subnet) (CIDRBlock subnet)
  else Done false.

(** A family without addresses makes the subnet unusable, unless the pod asks
    for an excluded address. *)
Definition family_usable (left : Z) (pod : Pod) (subnet : SubnetSpec) : outcome bool :=
  if left =? 0 then podCanUseExcludeIPs pod subnet else Done true.

Definition subnet_usable (pod : Pod) (subnet : SubnetSpec) : outcome bool :=
  let '(v4, v6) := nc_left c (Name subnet) in
  if bool_decide (Protocol subnet = ProtocolDual)
  then ok ← family_usable v6 pod subnet; if ok : bool then family_usable v4 pod subnet else Done false
  else if bool_decide (Protocol subnet = ProtocolIPv4) then family_usable v4 pod subnet
  else if bool_decide (Protocol subnet = ProtocolIPv6) then family_usable v6 pod subnet
  else Done true.

(** The first usable subnet of the namespace. *)
Fixpoint namespace_subnet (ignoreSubnetNotExist : bool) (pod : Pod) (names : list string) : outcome (result (option SubnetSpec)) :=
  match names with
  | [] => Done (Err ErrNoAvailable)
  | subnetName :: rest =>
      if bool_decide (subnetName = "")
      then Done (Err (Errorf "namespace %s default logical switch is not found" [Pod_Namespace pod]))
      else
        match Get (c_subnets (nc_cluster c)) subnetName with
        | Err e => if ignoreSubnetNotExist then namespace_subnet ignoreSubnetNotExist pod rest else Done (Err e)
        | Ok subnet =>
            ok ← subnet_usable pod subnet;
            if ok : bool then Done (Ok (Some subnet)) else namespace_subnet ignoreSubnetNotExist pod rest
        end
  end.

(** A name, not a list and not an address. *)
Definition is_pool_name (s : string) : bool :=
  nonempty s && negb (contains_char ","%char s || contains_char ";"%char s) && bool_decide (ParseIP s = []).

Definition getPodDefaultSubnet (po : PodObject) : outcome (result (option SubnetSpec)) :=
  let pod := po_pod po in
  let lsName := annotation pod LogicalSwitchAnnotation in
  let poolName := TrimSpace (annotation pod IPPoolAnnotation) in
  if nonempty lsName then
    Done match Get (c_subnets (nc_cluster c)) lsName with
         | Ok subnet => Ok (Some subnet)
         | Err e => if po_Deleting po then Ok None else Err e
         end
  else if is_pool_name poolName then
    Done (pool ← wrapped "failed to get ippool %s: %w" [poolName] (Get (c_ippools (nc_cluster c)) poolName);
          subnet ← wrapped "failed to get subnet %s for ippool %s: %w" [pool_Subnet pool; poolName] (Get (c_subnets (nc_cluster c)) (pool_Subnet pool));
          Ok (Some subnet))
  else
    match Get (c_namespaces (nc_cluster c)) (Pod_Namespace pod) with
    | Err e => Done (Err e)
    | Ok annotations =>
        let annotations := default ∅ annotations in
        if bool_decide (annotations = ∅) then Done (Err (Errorf "namespace %s network annotations is empty" [Pod_Namespace pod]))
        else namespace_subnet (po_Deleting po) pod (Split (default "" (annotations !! LogicalSwitchAnnotation)) ",")
    end.

(** ** Attached networks *)

Definition nad_key (attach : NetworkSelectionElement) : string := at_Namespace attach +:+ "/" +:+ at_Name attach.

(** A definition that is requested several times has the interface in the name of
    its provider. *)
Definition ovn_provider (several : bool) (attach : NetworkSelectionElement) : string :=
  let providerName := at_Name attach +:+ "." +:+ at_Namespace attach +:+ "." +:+ OvnProvider in
  if several && nonempty (at_InterfaceRequest attach) then providerName +:+ "." +:+ at_InterfaceRequest attach else providerName.

Definition ipam_provider (attach : NetworkSelectionElement) : string := at_Name attach +:+ "." +:+ at_Namespace attach.

Definition attached (providerName : string) (subnet : SubnetSpec) (isDefault allowLiveMigration : bool) (attach : NetworkSelectionElement) : kubeovnNet :=
  mkNet providerName subnet isDefault allowLiveMigration (at_Name attach) (at_Namespace attach) (at_InterfaceRequest attach).

Definition find_subnet (P : SubnetSpec -> bool) : option SubnetSpec := snd <$> list_find (fun s => P s = true) (nc_listed c).

(** The definition is gone and the pod is being deleted: the network that its
    addresses are released from, if it can be found. *)
Definition leftover_net (pod : Pod) (several : bool) (attach : NetworkSelectionElement) : option kubeovnNet :=
  let providerName := ovn_provider several attach in
  let subnetName := annotation pod (template providerName "logical_switch") in
  let '(providerName, subnetName) :=
    if nonempty subnetName then (providerName, subnetName)
    else match find_subnet (fun s => bool_decide (Provider s = providerName) || bool_decide (Provider s = ipam_provider attach)) with
         | Some s => (Provider s, Name s)
         | None => (providerName, "")
         end in
  if bool_decide (subnetName = "") then None
  else match c_subnets (nc_cluster c) !! subnetName with
       | Some subnet => Some (attached providerName subnet (IsDefaultNet (annotation pod DefaultNetworkAnnotation) attach) false attach)
       | None => None
       end.

(** A network of this plugin. *)
Definition ovn_net (po : PodObject) (several : bool) (attach : NetworkSelectionElement) : result (option kubeovnNet) :=
  let pod := po_pod po in
  let providerName := ovn_provider several attach in
  let allowLiveMigration := nonempty (annotation pod MigrationJobNameAnnotation) in
  let annotated := annotation pod (template providerName "logical_switch") in
  let subnetProviderName := TrimSuffix providerName ("." +:+ at_InterfaceRequest attach) in
  let subnetName := if nonempty annotated then annotated
                    else match find_subnet (fun s => bool_decide (Provider s = subnetProviderName)) with Some s => Name s | None => "" end in
  if bool_decide (subnetName = "") then
    if po_Deleting po then Ok None else Err (Errorf "provider %s is not bound to any subnet" [providerName])
  else
    match Get (c_subnets (nc_cluster c)) subnetName with
    | Err e => if po_Deleting po then Ok None else Err e
    | Ok subnet => Ok (Some (attached providerName subnet (IsDefaultNet (annotation pod DefaultNetworkAnnotation) attach) allowLiveMigration attach))
    end.

(** A network of another plugin whose addresses this program manages. *)
Definition ipam_net (po : PodObject) (attach : NetworkSelectionElement) : result (option kubeovnNet) :=
  match find_subnet (fun s => bool_decide (Provider s = ipam_provider attach)) with
  | Some subnet => Ok (Some (attached (ipam_provider attach) subnet false false attach))
  | None => if po_Deleting po then Ok None else Err (Errorf "provider %s is not bound to any subnet" [ipam_provider attach])
  end.

Definition attachment_net (po : PodObject) (multusNets : list NetworkSelectionElement) (attach : NetworkSelectionElement) : result (option kubeovnNet) :=
  let several := (1 <? length (filter (fun a => nad_key a = nad_key attach) multusNets))%nat in
  match nc_nads c !! (at_Namespace attach, at_Name attach) with
  | None => if po_Deleting po then Ok (leftover_net (po_pod po) several attach) else Err (Errorf "%s not found" [at_Name attach])
  | Some config =>
      if bool_decide (config = "") then Ok None
      else
        netCfg ← loadNetConf config;
        if IsOvnNetwork netCfg then ovn_net po several attach
        else if isKubeOVNIPAMNetwork netCfg then ipam_net po attach
        else Ok None
  end.

Definition parse_networks (pod : Pod) (annot : string) : result (list NetworkSelectionElement) :=
  let networks := annotation pod annot in
  if nonempty networks then ParseNetworkAnnotation networks (Pod_Namespace pod) else Ok [].

Definition getPodAttachmentNet (po : PodObject) : result (list kubeovnNet) :=
  defaults ← parse_networks (po_pod po) DefaultNetworkAnnotation;
  others ← parse_networks (po_pod po) NetworkAttachmentAnnot;
  let multusNets := defaults ++ others in
  nets ← collect (attachment_net po multusNets) multusNets;
  Ok (omap (M := list) id nets).

(** Without a default subnet only the attached networks are returned. *)
Definition getPodKubeovnNets (po : PodObject) : outcome (result (list kubeovnNet)) :=
  match getPodAttachmentNet po with
  | Err e => Done (Err e)
  | Ok attachmentNets =>
      if EnableNonPrimaryCNI c then Done (Ok attachmentNets)
      else
        r ← getPodDefaultSubnet po;
        Done (defaultSubnet ← r;
              match defaultSubnet with
              | None => Ok attachmentNets
              | Some subnet =>
                  if bool_decide (is_Some (Pod_Annotations (po_pod po) !! DefaultNetworkAnnotation)) then Ok attachmentNets
                  else Ok (attachmentNets ++ [mkNet OvnProvider subnet true false "" "" ""])
              end)
  end.

End Nets.
