(* ===== verification/NamedPort.v ===== *)
(** * Named ports of pods ([NamedPort] of [pkg/controller/pod.go])

    The table of the names that containers give to their ports, per namespace,
    with the pods that use them; and what it holds after any sequence of events
    as long as the pods of a namespace agree on the numbers. *)
From S2P Require Import Prelude GoStrings UtilNet GoText PodAddress PodNets.

Local Open Scope Z_scope.

Definition ContainerRestartPolicyAlways : string := "Always".

Record NamedPortInfo := mkInfo { PortID : Z; Pods : gset string }.

(** The first key is the namespace, the second the name of the port. *)
Abbreviation NamedPort := (gmap string (gmap string NamedPortInfo)).

Definition NewNamedPort : NamedPort := ∅.

(** Init containers that are restarted count as containers. *)
Definition port_containers (po : PodObject) : list Container :=
  filter (fun k => con_RestartPolicy k = Some ContainerRestartPolicyAlways) (po_InitContainers po) ++ po_Containers po.

Definition add_port (ns podName : string) (n : NamedPort) (port : ContainerPort) : NamedPort :=
  if bool_decide (port_Name port = "") || (port_Number port =? 0) then n
  else
    let ports := default ∅ (n !! ns) in
    match ports !! port_Name port with
    | Some info =>
        if PortID info =? port_Number port
        then <[ns := <[port_Name port := mkInfo (PortID info) ({[podName]} ∪ Pods info)]> ports]> n
        else n
    | None => <[ns := <[port_Name port := mkInfo (port_Number port) {[podName]}]> ports]> n
    end.

Definition AddNamedPortByPod (po : PodObject) (n : NamedPort) : NamedPort :=
  fold_left (add_port (Pod_Namespace (po_pod po)) (Pod_Name (po_pod po))) (port_containers po ≫= con_Ports) n.

Definition delete_port (ns podName : string) (n : NamedPort) (port : ContainerPort) : NamedPort :=
  if bool_decide (port_Name port = "") then n
  else
    match n !! ns with
    | None => n
    | Some ports =>
        match ports !! port_Name port with
        | None => n
        | Some info =>
            if bool_decide (podName ∉ Pods info) then n
            else
              let pods := Pods info ∖ {[podName]} in
              if bool_decide (pods = ∅) then
                let ports' := delete (port_Name port) ports in
                if bool_decide (ports' = ∅) then delete ns n else <[ns := ports']> n
              else <[ns := <[port_Name port := mkInfo (PortID info) pods]> ports]> n
        end
    end.

Definition DeleteNamedPortByPod (po : PodObject) (n : NamedPort) : NamedPort :=
  fold_left (delete_port (Pod_Namespace (po_pod po)) (Pod_Name (po_pod po))) (port_containers po ≫= con_Ports) n.

(** A namespace without named ports gives nil; readers only use the numbers. *)
Definition GetNamedPortByNs (namespace : string) (n : NamedPort) : gmap string Z := PortID <$> default ∅ (n !! namespace).

(** ** Pods and their ports *)

Definition pod_key (po : PodObject) : string * string := (Pod_Namespace (po_pod po), Pod_Name (po_pod po)).

(** The pod names a port. *)
Definition declares (po : PodObject) (name : string) (id : Z) : Prop :=
  exists port, port ∈ port_containers po ≫= con_Ports /\ port_Name port = name /\ port_Number port = id.

(** Names that are used have one number in their namespace, and no pod names the
    port zero. *)
Definition agrees (number : string -> string -> Z) (po : PodObject) : Prop :=
  forall name id, name <> "" -> declares po name id -> id = number (Pod_Namespace (po_pod po)) name /\ id <> 0.

(** ** One entry *)

(** The pods of an entry; no entry is an entry without pods. *)
Definition users (n : NamedPort) (ns name : string) : gset string :=
  match default ∅ (n !! ns) !! name with Some info => Pods info | None => ∅ end.

(** No entry without pods, no namespace without entries, and the numbers are the
    agreed ones. *)
Definition table_ok (number : string -> string -> Z) (n : NamedPort) : Prop :=
  forall ns ports, n !! ns = Some ports -> ports <> ∅ /\
    forall name info, ports !! name = Some info -> Pods info <> ∅ /\ PortID info = number ns name /\ name <> "".

Lemma entry_users number n ns name : table_ok number n ->
  default ∅ (n !! ns) !! name = if bool_decide (users n ns name = ∅) then None else Some (mkInfo (number ns name) (users n ns name)).
Proof.
  intros Hok. unfold users. destruct (n !! ns) as [ports|] eqn:E; cbn [default from_option id]; [|by rewrite lookup_empty, bool_decide_true].
  destruct (ports !! name) as [info|] eqn:Ei; [|by rewrite bool_decide_true]. destruct (Hok ns ports E) as [_ Hi]. destruct (Hi name info Ei) as (Hp & Hid & _).
  rewrite bool_decide_false by done. f_equal. rewrite <-Hid. by destruct info.
Qed.

Lemma union_non_empty (pod : string) (us : gset string) : {[pod]} ∪ us <> ∅.
Proof. set_solver. Qed.

Lemma remove_absent (pod : string) (us : gset string) : pod ∉ us -> us = us ∖ {[pod]}.
Proof. set_solver. Qed.

Lemma difference_twice (pod : string) (us : gset string) : us ∖ {[pod]} ∖ {[pod]} = us ∖ {[pod]}.
Proof. set_solver. Qed.

(** ** Adding a port *)

Lemma add_port_users number ns pod n port ns' name' : table_ok number n ->
  (port_Name port <> "" -> port_Number port = number ns (port_Name port) /\ port_Number port <> 0) ->
  table_ok number (add_port ns pod n port) /\
  users (add_port ns pod n port) ns' name' =
    if bool_decide (ns' = ns /\ name' = port_Name port /\ name' <> "") then {[pod]} ∪ users n ns' name' else users n ns' name'.
Proof.
  intros Hok Hp. unfold add_port. destruct (bool_decide_reflect (port_Name port = "")) as [Hn|Hn]; cbn [orb].
  { split; [done|]. rewrite bool_decide_false; [done|]. intros (_ & -> & ?). done. }
  destruct (Hp Hn) as [Hid Hz]. destruct (Z.eqb_spec (port_Number port) 0) as [|_]; [done|].
  rewrite (entry_users number) by done. set (us := users n ns (port_Name port)).
  assert (Hnew : forall info, Pods info = {[pod]} ∪ us -> PortID info = number ns (port_Name port) ->
    let n' := <[ns := <[port_Name port := info]> (default ∅ (n !! ns))]> n in table_ok number n' /\
    users n' ns' name' = if bool_decide (ns' = ns /\ name' = port_Name port /\ name' <> "") then {[pod]} ∪ users n ns' name' else users n ns' name').
  { intros info Hpods Hpid n'. split.
    - intros x ports Hx. destruct (decide (x = ns)) as [->|Hne].
      + unfold n' in Hx. rewrite lookup_insert_eq in Hx. injection Hx as <-. split; [apply insert_non_empty|]. intros name i Hi.
        destruct (decide (name = port_Name port)) as [->|Hne'].
        * rewrite lookup_insert_eq in Hi. injection Hi as <-. rewrite Hpods, Hpid. split_and!; [apply union_non_empty|done|done].
        * rewrite lookup_insert_ne in Hi by done. destruct (n !! ns) as [ports|] eqn:E; [|cbn in Hi; by rewrite lookup_empty in Hi].
          destruct (Hok ns ports E) as [_ Hk]. by apply Hk.
      + unfold n' in Hx. rewrite lookup_insert_ne in Hx by done. by apply Hok.
    - unfold users at 1. unfold n'. destruct (decide (ns' = ns)) as [->|Hne].
      + rewrite lookup_insert_eq. cbn [default from_option id]. destruct (decide (name' = port_Name port)) as [->|Hne'].
        * rewrite lookup_insert_eq, bool_decide_true by done. exact Hpods.
        * rewrite lookup_insert_ne by done. rewrite bool_decide_false by tauto. done.
      + rewrite lookup_insert_ne by done. by rewrite bool_decide_false by tauto. }
  destruct (bool_decide_reflect (us = ∅)) as [Hus|Hus].
  - apply Hnew; [cbn; by rewrite Hus, (right_id_L ∅ (∪))|done].
  - cbn [PortID Pods]. rewrite <-Hid, Z.eqb_refl, Hid. by apply Hnew.
Qed.

(** ** Deleting a port *)

Lemma delete_port_users number ns pod n port ns' name' : table_ok number n ->
  table_ok number (delete_port ns pod n port) /\
  users (delete_port ns pod n port) ns' name' =
    if bool_decide (ns' = ns /\ name' = port_Name port) then users n ns' name' ∖ {[pod]} else users n ns' name'.
Proof.
  intros Hok. unfold delete_port.
  assert (Hsame : pod ∉ users n ns (port_Name port) -> table_ok number n /\
    users n ns' name' = if bool_decide (ns' = ns /\ name' = port_Name port) then users n ns' name' ∖ {[pod]} else users n ns' name').
  { intros Hno. split; [done|]. case_bool_decide as Hc; [|done]. destruct Hc as [-> ->]. by apply remove_absent. }
  destruct (bool_decide_reflect (port_Name port = "")) as [Hn|Hn].
  { apply Hsame. rewrite Hn. unfold users. destruct (n !! ns) as [ports|] eqn:E; cbn; [|set_solver].
    destruct (ports !! "") as [info|] eqn:Ei; [|set_solver]. destruct (Hok ns ports E) as [_ Hi]. by destruct (Hi "" info Ei) as (_ & _ & ?). }
  destruct (n !! ns) as [ports|] eqn:E; [|apply Hsame; unfold users; rewrite E; cbn; rewrite lookup_empty; set_solver].
  destruct (ports !! port_Name port) as [info|] eqn:Ei; [|apply Hsame; unfold users; rewrite E; cbn; rewrite Ei; set_solver].
  assert (Hu : users n ns (port_Name port) = Pods info) by (unfold users; rewrite E; cbn; by rewrite Ei).
  destruct (bool_decide_reflect (pod ∉ Pods info)) as [Hin|Hin]; [apply Hsame; by rewrite Hu|].
  destruct (Hok ns ports E) as [_ Hi].
  assert (Hnew : forall ports' n', (ports' <> ∅ -> n' = <[ns := ports']> n) -> (ports' = ∅ -> n' = delete ns n) ->
    (forall name, ports' !! name = if bool_decide (name = port_Name port)
      then (if bool_decide (Pods info ∖ {[pod]} = ∅) then None else Some (mkInfo (PortID info) (Pods info ∖ {[pod]}))) else ports !! name) ->
    table_ok number n' /\ users n' ns' name' = if bool_decide (ns' = ns /\ name' = port_Name port) then users n ns' name' ∖ {[pod]} else users n ns' name').
  { intros ports' n' Hne He Hl.
    assert (Hlook : forall x, n' !! x = if bool_decide (x = ns) then (if bool_decide (ports' = ∅) then None else Some ports') else n !! x).
    { intros x. destruct (bool_decide_reflect (ports' = ∅)) as [H0|H0]; [rewrite (He H0)|rewrite (Hne H0)];
        (destruct (bool_decide_reflect (x = ns)) as [->|Hx];
          [by rewrite ?lookup_delete_eq, ?lookup_insert_eq|by rewrite ?lookup_delete_ne, ?lookup_insert_ne by done]). }
    split.
    - intros x q Hx. rewrite Hlook in Hx. destruct (bool_decide_reflect (x = ns)) as [->|_]; [|by apply Hok].
      destruct (bool_decide_reflect (ports' = ∅)); [done|]. injection Hx as <-. split; [done|]. intros name i Hi'. rewrite Hl in Hi'.
      destruct (bool_decide_reflect (name = port_Name port)) as [->|_]; [|by apply Hi]. destruct (bool_decide_reflect (Pods info ∖ {[pod]} = ∅)); [done|].
      injection Hi' as <-. destruct (Hi _ _ Ei) as (_ & Hid & _). done.
    - unfold users at 1. rewrite Hlook. destruct (bool_decide_reflect (ns' = ns)) as [->|Hns];
        [|rewrite bool_decide_false by tauto; done].
      assert (Hd : default ∅ (if bool_decide (ports' = ∅) then None else Some ports') = ports') by (case_bool_decide as H0; [by rewrite H0|done]).
      rewrite Hd, Hl. destruct (bool_decide_reflect (name' = port_Name port)) as [->|Hnm].
      + rewrite (bool_decide_true (ns = ns /\ _)), Hu by done. by destruct (bool_decide_reflect (Pods info ∖ {[pod]} = ∅)) as [->|].
      + rewrite bool_decide_false by tauto. unfold users. by rewrite E. }
  destruct (bool_decide_reflect (Pods info ∖ {[pod]} = ∅)) as [Hp|Hp].
  - apply (Hnew (delete (port_Name port) ports)).
    + intros H0. by rewrite bool_decide_false.
    + intros H0. by rewrite bool_decide_true.
    + intros name. destruct (bool_decide_reflect (name = port_Name port)) as [->|]; [by rewrite lookup_delete_eq|by rewrite lookup_delete_ne].
  - apply (Hnew (<[port_Name port := mkInfo (PortID info) (Pods info ∖ {[pod]})]> ports)).
    + done.
    + intros H0. by apply insert_non_empty in H0.
    + intros name. destruct (bool_decide_reflect (name = port_Name port)) as [->|]; [by rewrite lookup_insert_eq|by rewrite lookup_insert_ne].
Qed.

(** ** A pod *)

Definition names_of (po : PodObject) : list string := filter (fun name => name <> "") (port_Name <$> (port_containers po ≫= con_Ports)).

Lemma elem_names_of po name : name ∈ names_of po <-> name <> "" /\ exists id, declares po name id.
Proof.
  unfold names_of, declares. rewrite list_elem_of_filter, list_elem_of_fmap. split.
  - intros [Hn (port & -> & Hp)]. split; [done|]. by exists (port_Number port), port.
  - intros [Hn (id & port & Hp & <- & _)]. split; [done|]. by exists port.
Qed.

Lemma add_users number po n ns name : table_ok number n -> agrees number po ->
  table_ok number (AddNamedPortByPod po n) /\
  users (AddNamedPortByPod po n) ns name =
    if bool_decide (ns = Pod_Namespace (po_pod po) /\ name ∈ names_of po) then {[Pod_Name (po_pod po)]} ∪ users n ns name else users n ns name.
Proof.
  intros Hok Ha. unfold AddNamedPortByPod, names_of.
  assert (Hl : Forall (fun port => port_Name port <> "" -> port_Number port = number (Pod_Namespace (po_pod po)) (port_Name port) /\ port_Number port <> 0)
    (port_containers po ≫= con_Ports)) by (apply Forall_forall; intros port Hp Hn; apply Ha; [done|by exists port]).
  clear Ha. revert n Hok. induction Hl as [|port l Hp _ IH]; intros n Hok.
  { split; [done|]. rewrite bool_decide_false; [done|]. intros [_ Hx]. by apply elem_of_nil in Hx. }
  cbn [fold_left]. destruct (add_port_users number (Pod_Namespace (po_pod po)) (Pod_Name (po_pod po)) n port ns name Hok Hp) as [Hok1 Hu1].
  destruct (IH _ Hok1) as [Hok2 Hu2]. split; [done|]. rewrite Hu2, Hu1. clear. rewrite fmap_cons, filter_cons.
  destruct (decide (port_Name port <> "")) as [Hn|Hn].
  - rewrite (bool_decide_ext (ns = _ /\ name ∈ _ :: _) (ns = Pod_Namespace (po_pod po) /\ (name = port_Name port \/ name ∈ filter (λ x, x ≠ "") (port_Name <$> l))))
      by (by rewrite elem_of_cons).
    destruct (decide (ns = Pod_Namespace (po_pod po))) as [->|Hns]; [|by rewrite !bool_decide_false by tauto].
    destruct (decide (name = port_Name port)) as [->|Hnm].
    + rewrite (bool_decide_true (_ /\ _ /\ _)), (bool_decide_true (_ /\ (_ \/ _))) by tauto. case_bool_decide; [|done]. by rewrite (assoc_L (∪)), (idemp_L (∪)).
    + rewrite (bool_decide_false (_ /\ _ /\ _)) by tauto. by rewrite (bool_decide_ext (_ /\ (_ \/ _)) (Pod_Namespace (po_pod po) = Pod_Namespace (po_pod po) /\ name ∈ filter (λ x, x ≠ "") (port_Name <$> l))) by tauto.
  - rewrite (bool_decide_false (ns = _ /\ name = port_Name port /\ _)); [done|]. intros (_ & -> & ?). done.
Qed.

Lemma delete_users number po n ns name : table_ok number n ->
  table_ok number (DeleteNamedPortByPod po n) /\
  users (DeleteNamedPortByPod po n) ns name =
    if bool_decide (ns = Pod_Namespace (po_pod po) /\ name ∈ names_of po) then users n ns name ∖ {[Pod_Name (po_pod po)]} else users n ns name.
Proof.
  intros Hok. unfold DeleteNamedPortByPod, names_of. revert n Hok. induction (port_containers po ≫= con_Ports) as [|port l IH]; intros n Hok.
  { split; [done|]. rewrite bool_decide_false; [done|]. intros [_ Hx]. by apply elem_of_nil in Hx. }
  cbn [fold_left]. destruct (delete_port_users number (Pod_Namespace (po_pod po)) (Pod_Name (po_pod po)) n port ns name Hok) as [Hok1 Hu1].
  destruct (IH _ Hok1) as [Hok2 Hu2]. split; [done|]. rewrite Hu2, Hu1. rewrite fmap_cons, filter_cons.
  destruct (decide (port_Name port <> "")) as [Hn|Hn].
  - rewrite (bool_decide_ext (ns = _ /\ name ∈ _ :: _) (ns = Pod_Namespace (po_pod po) /\ (name = port_Name port \/ name ∈ filter (λ x, x ≠ "") (port_Name <$> l))))
      by (by rewrite elem_of_cons).
    destruct (decide (ns = Pod_Namespace (po_pod po))) as [->|Hns]; [|by rewrite !bool_decide_false by tauto].
    destruct (decide (name = port_Name port)) as [->|Hnm].
    + rewrite (bool_decide_true (_ /\ port_Name port = _)), (bool_decide_true (_ /\ (_ \/ _))) by tauto. case_bool_decide; [|done]. apply difference_twice.
    + rewrite (bool_decide_false (_ /\ name = _)) by tauto. by rewrite (bool_decide_ext (_ /\ (_ \/ _)) (Pod_Namespace (po_pod po) = Pod_Namespace (po_pod po) /\ name ∈ filter (λ x, x ≠ "") (port_Name <$> l))) by tauto.
  - assert (Hempty : name = "" -> users n ns name = ∅).
    { intros ->. unfold users. destruct (n !! ns) as [ports|] eqn:E; cbn [default from_option id]; [|done].
      destruct (ports !! "") as [info|] eqn:Ei; [|done]. destruct (Hok ns ports E) as [_ Hi]. by destruct (Hi "" info Ei) as (_ & _ & ?). }
    assert (Hsame : (if bool_decide (ns = Pod_Namespace (po_pod po) /\ name = port_Name port) then users n ns name ∖ {[Pod_Name (po_pod po)]}
      else users n ns name) = users n ns name); [|by rewrite Hsame].
    clear Hu1 Hu2 IH. case_bool_decide as Hc; [|reflexivity]. rewrite Hempty; [set_solver|]. destruct Hc as [_ ->]. by apply dec_stable.
Qed.

(** ** Events *)

(** The table and the pods that exist.  A pod is added, and again whenever it is
    updated, which does not change the names of its ports; it is deleted once. *)
Inductive pod_event (number : string -> string -> Z) : NamedPort * gmap (string * string) PodObject -> NamedPort * gmap (string * string) PodObject -> Prop :=
  | pod_added po n live : agrees number po -> (forall old, live !! pod_key po = Some old -> names_of old = names_of po) ->
      pod_event number (n, live) (AddNamedPortByPod po n, <[pod_key po := po]> live)
  | pod_deleted po old n live : live !! pod_key po = Some old -> names_of old = names_of po ->
      pod_event number (n, live) (DeleteNamedPortByPod po n, delete (pod_key po) live).

(** The users of a name are the pods that declare it. *)
Definition tracks (number : string -> string -> Z) (s : NamedPort * gmap (string * string) PodObject) : Prop :=
  table_ok number s.1 /\ map_Forall (fun k po => pod_key po = k) s.2 /\
  forall ns name pod, pod ∈ users s.1 ns name <-> exists po, s.2 !! (ns, pod) = Some po /\ name ∈ names_of po.

Lemma event_tracks number s s' : pod_event number s s' -> tracks number s -> tracks number s'.
Proof.
  intros Hev (Hok & Hkeys & Hus). destruct Hev as [po n live Ha Hsame|po old n live Hold Hsame]; cbn [fst snd] in *.
  - split_and!; [by apply (add_users number po n "" "")|by apply map_Forall_insert_2|]. intros ns name pod. cbn [fst snd].
    destruct (add_users number po n ns name Hok Ha) as [_ ->]. unfold pod_key in *.
    destruct (decide ((ns, pod) = (Pod_Namespace (po_pod po), Pod_Name (po_pod po)))) as [[= -> ->]|Hne].
    + rewrite lookup_insert_eq. case_bool_decide as Hc.
      * destruct Hc as [_ Hc]. split; [by exists po|]. intros _. set_solver.
      * rewrite Hus. split; [|intros (? & [= <-] & ?); by destruct Hc]. intros (old & Ho & Hin). exists po. split; [done|].
        by rewrite <-(Hsame old Ho).
    + rewrite lookup_insert_ne by done. rewrite <-Hus. case_bool_decide as Hc; [|done]. rewrite elem_of_union, elem_of_singleton.
      split; [|by right]. intros [->|]; [|done]. by destruct Hne, Hc as [-> _].
  - split_and!; [by apply (delete_users number po n "" "")|by apply map_Forall_delete|]. intros ns name pod. cbn [fst snd].
    destruct (delete_users number po n ns name Hok) as [_ ->]. unfold pod_key in *.
    destruct (decide ((ns, pod) = (Pod_Namespace (po_pod po), Pod_Name (po_pod po)))) as [[= -> ->]|Hne].
    + rewrite lookup_delete_eq. split; [|by intros (? & ? & _)]. intros Hin. exfalso. case_bool_decide as Hc; [set_solver|].
      apply Hus in Hin as (po' & Ho & Hin). apply Hc. split; [done|]. rewrite Hold in Ho. injection Ho as <-. by rewrite <-Hsame.
    + rewrite lookup_delete_ne by done. rewrite <-Hus. case_bool_decide as Hc; [|done]. rewrite elem_of_difference, elem_of_singleton.
      split; [by intros [? _]|]. intros Hin. split; [done|]. intros ->. by destruct Hne, Hc as [-> _].
Qed.

Lemma events_track number s : rtc (pod_event number) (NewNamedPort, ∅) s -> tracks number s.
Proof.
  intros Hr. remember (NewNamedPort, ∅) as s0 eqn:E0. assert (H0 : tracks number s0); [|clear E0; induction Hr as [|s0 s1 s2 H1 _ IH]; [done|by apply IH, (event_tracks _ _ _ H1)]].
  subst s0. split_and!; [by intros ns ports|apply map_Forall_empty|]. intros ns name pod. cbn. split; [set_solver|by intros (? & ? & _)].
Qed.

(** The number of a name that some pod declares. *)
Lemma events_numbers number n live : rtc (pod_event number) (NewNamedPort, ∅) (n, live) -> forall ns name id,
  GetNamedPortByNs ns n !! name = Some id <->
  id = number ns name /\ exists pod po, live !! (ns, pod) = Some po /\ name ∈ names_of po.
Proof.
  intros Hr ns name id. destruct (events_track _ _ Hr) as (Hok & _ & Hus). cbn [fst snd] in *. unfold GetNamedPortByNs.
  rewrite lookup_fmap, (entry_users number) by done. setoid_rewrite <-Hus. case_bool_decide as He.
  - rewrite He. split; [done|]. intros [_ (pod & Hin)]. by apply elem_of_empty in Hin.
  - cbn. split.
    + intros [= <-]. split; [done|]. by apply set_choose_L in He.
    + by intros [-> _].
Qed.
