(* ===== verification/NetworkPolicy.v ===== *)
(** * The network policy controller ([pkg/controller/network_policy.go])

    Handlers over the northbound database and the caches of the controller.
    Selectors of labels belong to the API machinery: how one is compiled is a
    parameter, and using one that does not compile is the nil dereference it is
    in the code.  A set of protocols is walked in an order that is an argument. *)
From Stdlib Require Import Ascii.
From S2P Require Import Prelude GoStrings GoNet UtilNet Validator GoText PodAddress AclMatch NbDb NbDhcp NbLsp NbGroups NbAcl PolicyAcl LsAcl PodNets NamedPort.

Local Open Scope Z_scope.

Definition networkPolicyKey : string := "np".
Definition NetworkPolicyEnforcementLax : string := "lax".
Definition NetworkPolicyLogAnnotation : string := "ovn.kubernetes.io/enable_log".
Definition NetworkPolicyEnforcementAnnotation : string := "ovn.kubernetes.io/network_policy_enforcement".
Definition NetworkPolicyForAnnotation : string := "ovn.kubernetes.io/network_policy_for".
Definition ACLActionsLogAnnotation : string := "ovn.kubernetes.io/log_acl_actions".
Definition ACLLogMeterAnnotation : string := "ovn.kubernetes.io/acl_log_meter_rate".

(** ** Policies *)

Record NetworkPolicyPeer (sel : Type) := mkPeer {
  peer_PodSelector : option sel;
  peer_NamespaceSelector : option sel;
  peer_IPBlock : option IPBlock
}.
Arguments mkPeer {sel}.
Arguments peer_PodSelector {sel}.
Arguments peer_NamespaceSelector {sel}.
Arguments peer_IPBlock {sel}.

(** A rule of either direction: its peers are [from] or [to]. *)
Record NetworkPolicyRule (sel : Type) := mkPolicyRule {
  rule_Ports : list NetworkPolicyPort;
  rule_Peers : list (NetworkPolicyPeer sel)
}.
Arguments mkPolicyRule {sel}.
Arguments rule_Ports {sel}.
Arguments rule_Peers {sel}.

(** [None] is the nil slice. *)
Record NetworkPolicySpec (sel : Type) := mkNpSpec {
  spec_PodSelector : sel;
  spec_PolicyTypes : list string;
  spec_Ingress : option (list (NetworkPolicyRule sel));
  spec_Egress : option (list (NetworkPolicyRule sel))
}.
Arguments mkNpSpec {sel}.
Arguments spec_PodSelector {sel}.
Arguments spec_PolicyTypes {sel}.
Arguments spec_Ingress {sel}.
Arguments spec_Egress {sel}.

Record NetworkPolicy (sel : Type) := mkNp {
  np_Namespace : string;
  np_Name : string;
  np_Annotations : gmap string string;
  np_Spec : NetworkPolicySpec sel
}.
Arguments mkNp {sel}.
Arguments np_Namespace {sel}.
Arguments np_Name {sel}.
Arguments np_Annotations {sel}.
Arguments np_Spec {sel}.

(** The caches of the controller; lists are in the order they are returned in. *)
Record NpCluster (sel : Type) := mkNpCluster {
  npc_net : NetCluster;
  npc_pods : list PodObject;
  npc_namespaces : list (string * gmap string string);
  npc_policies : list (NetworkPolicy sel);
  npc_named : NamedPort;
  NetworkPolicyEnforcement : string
}.
Arguments mkNpCluster {sel}.
Arguments npc_net {sel}.
Arguments npc_pods {sel}.
Arguments npc_namespaces {sel}.
Arguments npc_policies {sel}.
Arguments npc_named {sel}.
Arguments NetworkPolicyEnforcement {sel}.

(** ** Names *)

(** [cache.SplitMetaNamespaceKey]. *)
Definition SplitMetaNamespaceKey (key : string) : option (string * string) :=
  match Split key "/" with [name] => Some ("", name) | [namespace; name] => Some (namespace, name) | _ => None end.

(** Names of objects are ASCII; an empty name panics. *)
Definition letter (c : ascii) : bool := ((65 <=? code c) && (code c <=? 90)) || ((97 <=? code c) && (code c <=? 122)).

Definition np_name (name : string) : outcome string :=
  match name with
  | EmptyString => Panic
  | String c _ => Done (if letter c then name else "np" +:+ name)
  end.

Definition npPortGroupName (namespace npName : string) : string := replace_char "-"%char "." (npName +:+ "." +:+ namespace).

Definition networkPolicyMeterNames (pgName : string) : list string := [pgName +:+ "_to-lport_meter"; pgName +:+ "_from-lport_meter"].

(** The external id of the address sets of one direction. *)
Definition sets_id (namespace npName dir : string) : gmap string string := {[networkPolicyKey := namespace +:+ "/" +:+ npName +:+ "/" +:+ dir]}.

(** ** Annotations *)

Definition parseACLLogRate (annotations : gmap string string) : Z :=
  let val := TrimSpace (default "" (annotations !! ACLLogMeterAnnotation)) in
  if bool_decide (val = "") then 0
  else match Atoi val with Some rate => if rate <=? 0 then 0 else rate | None => 0 end.

Definition log_actions (annotations : gmap string string) : list string :=
  let v := default "" (annotations !! ACLActionsLogAnnotation) in
  if nonempty v then Split v "," else [ACLActionDrop].

(** [EqualFold] with a word of ASCII letters. *)
Definition policy_provider (token : string) : option string :=
  let t := TrimSpace token in
  if bool_decide (ToLower t = OvnProvider) then Some OvnProvider
  else
    match Cut "/"%char t with
    | (ns, name, true) => if nonempty ns && nonempty name then Some (name +:+ "." +:+ ns +:+ "." +:+ OvnProvider) else None
    | _ => None
    end.

(** No annotation is no restriction. *)
Definition parsePolicyFor (annotations : gmap string string) : option (gset string) :=
  let raw := TrimSpace (default "" (annotations !! NetworkPolicyForAnnotation)) in
  if bool_decide (raw = "") then None else Some (list_to_set (omap policy_provider (Split raw ","))).

Definition netpolAppliesToProvider (provider : string) (providers : option (gset string)) : bool :=
  match providers with None => true | Some s => bool_decide (provider ∈ s) end.

(** ** Running *)

Definition running_result {A} (o : outcome (result A)) : DB A := r ← running o; lift r.

(** The operations of a loop, in order. *)
Fixpoint gather {A} (f : A -> DB (list operation)) (l : list A) : DB (list operation) :=
  match l with
  | [] => mret []
  | x :: l' => ops ← f x; rest ← gather f l'; mret (ops ++ rest)
  end.

(** A call whose error is kept for the end. *)
Definition attempt (m : DB ()) : DB (option err) :=
  fun db => '(r, db') ← m db; Done (Ok (match r with Ok _ => None | Err e => Some e end), db').

Fixpoint attempt_all (l : list (DB ())) : DB (option err) :=
  match l with
  | [] => mret None
  | m :: l' => e ← attempt m; rest ← attempt_all l'; mret (match e with Some _ => e | None => rest end)
  end.

(** [slices.Compact]. *)
Fixpoint Compact (l : list string) : list string :=
  match l with
  | x :: ((y :: _) as l') => if bool_decide (x = y) then Compact l' else x :: Compact l'
  | _ => l
  end.

(** ** Annotations that matter *)

Definition filterKubeOvnAnnotations (annotations : gmap string string) : gmap string string :=
  filter (fun kv => str_contains kv.1 ".kubernetes.io/" = true) annotations.

Definition kubeOvnAnnotationsChanged (oldAnnotations newAnnotations : gmap string string) : bool :=
  bool_decide (filterKubeOvnAnnotations oldAnnotations <> filterKubeOvnAnnotations newAnnotations).

#[global] Instance IPBlock_eq : EqDecision IPBlock.
Proof. solve_decision. Defined.

#[global] Instance IntOrString_eq : EqDecision IntOrString.
Proof. solve_decision. Defined.

#[global] Instance NetworkPolicyPort_eq : EqDecision NetworkPolicyPort.
Proof. solve_decision. Defined.

#[global] Instance NetworkPolicyPeer_eq {sel} `{EqDecision sel} : EqDecision (NetworkPolicyPeer sel).
Proof. solve_decision. Defined.

#[global] Instance NetworkPolicyRule_eq {sel} `{EqDecision sel} : EqDecision (NetworkPolicyRule sel).
Proof. solve_decision. Defined.

#[global] Instance NetworkPolicySpec_eq {sel} `{EqDecision sel} : EqDecision (NetworkPolicySpec sel).
Proof. solve_decision. Defined.

(** Keys added to a queue. *)
Definition enqueueAddNp {sel} (np : NetworkPolicy sel) (queue : list string) : list string := ObjectName (np_Namespace np) (np_Name np) :: queue.

Definition enqueueUpdateNp {sel} `{EqDecision sel} (oldNp newNp : NetworkPolicy sel) (queue : list string) : list string :=
  if bool_decide (np_Spec oldNp <> np_Spec newNp) || kubeOvnAnnotationsChanged (np_Annotations oldNp) (np_Annotations newNp)
  then ObjectName (np_Namespace newNp) (np_Name newNp) :: queue else queue.

Section Policies.

Context {sel : Type} (LabelSelectorAsSelector : sel -> result (gmap string string -> bool)) `{Multus} (c : NpCluster sel).

Implicit Types (np : NetworkPolicy sel) (rule : NetworkPolicyRule sel) (npp : NetworkPolicyPeer sel).

Definition isNetworkPolicyEnforcementLax np : bool :=
  match np_Annotations np !! NetworkPolicyEnforcementAnnotation with
  | Some value => bool_decide (value = NetworkPolicyEnforcementLax)
  | None => bool_decide (NetworkPolicyEnforcement c = NetworkPolicyEnforcementLax)
  end.

Definition hasIngressRule np : bool :=
  existsb (fun pt => str_contains pt "Ingress") (spec_PolicyTypes (np_Spec np)) || bool_decide (is_Some (spec_Ingress (np_Spec np))).

Definition hasEgressRule np : bool :=
  existsb (fun pt => str_contains pt "Egress") (spec_PolicyTypes (np_Spec np)) || bool_decide (is_Some (spec_Egress (np_Spec np))).

(** ** Selection *)

(** The pods of a namespace, or of all of them, that a selector matches. *)
Definition list_pods (namespace : string) (matches : gmap string string -> bool) : list PodObject :=
  filter (fun po => (namespace = "" \/ Pod_Namespace (po_pod po) = namespace) /\ matches (po_Labels po) = true) (npc_pods c).

(** The ports of the networks of a pod that the policy is for, with their
    subnets. *)
Definition selected_nets (providers : option (gset string)) (po : PodObject) (podNets : list kubeovnNet) : list (string * string) :=
  omap (fun podNet =>
    if isOvnSubnet (net_Subnet podNet) && netpolAppliesToProvider (ProviderName podNet) providers &&
       bool_decide (annotation (po_pod po) (template (ProviderName podNet) "allocated") = "true")
    then Some (PodNameToPortName (getNameByPod (nc_cluster (npc_net c)) (po_pod po)) (Pod_Namespace (po_pod po)) (ProviderName podNet), Name (net_Subnet podNet))
    else None) podNets.

Fixpoint selected_ports (providers : option (gset string)) (pods : list PodObject) : outcome (result (list (string * string))) :=
  match pods with
  | [] => Done (Ok [])
  | po :: pods' =>
      if po_HostNetwork po then selected_ports providers pods'
      else
        r ← getPodKubeovnNets (npc_net c) po;
        match wrapped "failed to get pod networks, %w" [] r with
        | Err e => Done (Err e)
        | Ok podNets => rest ← selected_ports providers pods'; Done (ports ← rest; Ok (selected_nets providers po podNets ++ ports))
        end
  end.

Definition fetchSelectedPorts (namespace : string) (selector : sel) (providers : option (gset string)) : outcome (result (list string * list string)) :=
  match wrapped "error creating label selector, %w" [] (LabelSelectorAsSelector selector) with
  | Err e => Done (Err e)
  | Ok matches =>
      r ← selected_ports providers (list_pods namespace matches);
      Done (ports ← r; Ok (ports.*1, Compact ports.*2))
  end.

(** The addresses of a pod of one protocol, on the networks the policy is for. *)
Definition pod_addresses (protocol : string) (providers : option (gset string)) (po : PodObject) (podNets : list kubeovnNet) : list string :=
  podNet ← podNets;
  if netpolAppliesToProvider (ProviderName podNet) providers
  then filter (fun podIP => podIP <> "" /\ CheckProtocol podIP = protocol)
         (Split (annotation (po_pod po) (template (ProviderName podNet) "ip_address")) ",")
  else [].

Fixpoint addresses_of (protocol : string) (providers : option (gset string)) (pods : list PodObject) : outcome (result (list string)) :=
  match pods with
  | [] => Done (Ok [])
  | po :: pods' =>
      r ← getPodKubeovnNets (npc_net c) po;
      match r with
      | Err e => Done (Err e)
      | Ok podNets => rest ← addresses_of protocol providers pods'; Done (l ← rest; Ok (pod_addresses protocol providers po podNets ++ l))
      end
  end.

(** Without a selector of pods all pods are meant; one that does not compile is
    nil. *)
Definition pods_matching (selector : option sel) (namespace : string) : outcome (list PodObject) :=
  match selector with
  | None => Done (list_pods namespace (fun _ => true))
  | Some s => match LabelSelectorAsSelector s with Ok matches => Done (list_pods namespace matches) | Err _ => Panic end
  end.

Fixpoint addresses_in (protocol : string) (providers : option (gset string)) (selector : option sel) (namespaces : list string) : outcome (result (list string)) :=
  match namespaces with
  | [] => Done (Ok [])
  | ns :: namespaces' =>
      pods ← pods_matching selector ns;
      r ← addresses_of protocol providers pods;
      match r with
      | Err e => Done (Err e)
      | Ok l => rest ← addresses_in protocol providers selector namespaces'; Done (l' ← rest; Ok (l ++ l'))
      end
  end.

Definition selected_namespaces (namespace : string) npp : result (list string) :=
  match peer_NamespaceSelector npp with
  | None => Ok [namespace]
  | Some s =>
      matches ← wrapped "error creating label selector, %w" [] (LabelSelectorAsSelector s);
      Ok (filter (fun ns => matches ns.2 = true) (npc_namespaces c)).*1
  end.

Definition fetchPolicySelectedAddresses (namespace protocol : string) npp (providers : option (gset string)) : outcome (result (list string * list string)) :=
  let '(selectedAddresses, exceptAddresses) :=
    match peer_IPBlock npp with
    | Some block => if bool_decide (CheckProtocol (CIDR block) = protocol) then ([CIDR block], Except block) else ([], [])
    | None => ([], [])
    end in
  match peer_NamespaceSelector npp, peer_PodSelector npp with
  | None, None => Done (Ok (selectedAddresses, exceptAddresses))
  | _, _ =>
      match selected_namespaces namespace npp with
      | Err e => Done (Err e)
      | Ok selectedNs =>
          r ← addresses_in protocol providers (peer_PodSelector npp) selectedNs;
          Done (l ← r; Ok (selectedAddresses ++ l, exceptAddresses))
      end
  end.

(** ** One direction *)

(** What the handler has found out before it turns to the rules. *)
Record Job := mkJob {
  j_key : string;
  j_namespace : string;
  j_npName : string;
  j_pgName : string;
  j_log : bool;
  j_actions : list string;
  j_rate : Z;
  j_lax : bool;
  j_named : gmap string Z;
  j_providers : option (gset string)
}.

Definition dir_word (ingress : bool) : string := if ingress then "ingress" else "egress".
Definition dir_acl (ingress : bool) : string := if ingress then ACLDirectionToLport else ACLDirectionFromLport.

Definition as_name (j : Job) (ingress : bool) (kind protocol idx : string) : string :=
  replace_char "-"%char "." (j_npName j +:+ "." +:+ j_namespace j +:+ "." +:+ dir_word ingress +:+ "." +:+ kind) +:+ "." +:+ protocol +:+ "." +:+ idx.

Definition acl_name (j : Job) (ingress : bool) (protocol idx : string) : string :=
  "np/" +:+ j_npName j +:+ "." +:+ j_namespace j +:+ "/" +:+ dir_word ingress +:+ "/" +:+ protocol +:+ "/" +:+ idx.

Definition createAsForNetpol (ns name direction asName : string) (addresses : list string) : DB () :=
  _ ← CreateAddressSet asName (sets_id ns name direction);
  AddressSetUpdateAddress asName addresses.

(** The addresses of the selectors of a rule, and its blocks. *)
Fixpoint peers_of (j : Job) (protocol : string) (peers : list (NetworkPolicyPeer sel)) : outcome (result (list string * list IPBlock)) :=
  match peers with
  | [] => Done (Ok ([], []))
  | npp :: peers' =>
      r ← match peer_PodSelector npp, peer_NamespaceSelector npp with
          | None, None => Done (Ok [])
          | _, _ => r ← fetchPolicySelectedAddresses (j_namespace j) protocol npp (j_providers j); Done (x ← r; Ok x.1)
          end;
      match r with
      | Err e => Done (Err e)
      | Ok allow =>
          rest ← peers_of j protocol peers';
          Done ('(selectorAllows, ipBlocks) ← rest; Ok (allow ++ selectorAllows, option_list (peer_IPBlock npp) ++ ipBlocks))
      end
  end.

(** No peer is every address of the protocol. *)
Definition rule_sources (j : Job) (protocol : string) rule : outcome (result (list string * list IPBlock)) :=
  match rule_Peers rule with
  | [] => Done (Ok ([if bool_decide (protocol = ProtocolIPv4) then "0.0.0.0/0" else "::/0"], []))
  | peers => peers_of j protocol peers
  end.

Definition acl_ops (j : Job) (ingress : bool) (protocol idx : string) (ports : list NetworkPolicyPort) : DB (list operation) :=
  let allow := as_name j ingress "allow" protocol idx in
  let except := as_name j ingress "except" protocol idx in
  if ingress
  then UpdateIngressACLOps (j_pgName j) allow except protocol (acl_name j ingress protocol idx) ports (j_log j) (j_actions j) (j_rate j) (j_named j)
  else UpdateEgressACLOps (j_pgName j) allow except protocol (acl_name j ingress protocol idx) ports (j_log j) (j_actions j) (j_rate j) (j_named j).

Definition block_ops (j : Job) (ingress : bool) (protocol idx : string) (blocks : list IPBlock) (ports : list NetworkPolicyPort) : DB (list operation) :=
  let name := acl_name j ingress protocol idx +:+ "/ipBlock" in
  if ingress
  then UpdateIngressIPBlockACLOps (j_pgName j) protocol name blocks ports (j_log j) (j_actions j) (j_rate j) (j_named j)
  else UpdateEgressIPBlockACLOps (j_pgName j) protocol name blocks ports (j_log j) (j_actions j) (j_rate j) (j_named j).

(** The two address sets of a rule. *)
Definition create_sets (j : Job) (ingress : bool) (protocol idx : string) (allows : list string) : DB () :=
  _ ← createAsForNetpol (j_namespace j) (j_npName j) (dir_word ingress) (as_name j ingress "allow" protocol idx) allows;
  createAsForNetpol (j_namespace j) (j_npName j) (dir_word ingress) (as_name j ingress "except" protocol idx) [].

Definition rule_ops (j : Job) (ingress : bool) (protocol : string) (ir : nat * NetworkPolicyRule sel) : DB (list operation) :=
  let idx := Itoa (Z.of_nat ir.1) in
  '(selectorAllows, ipBlocks) ← running_result (rule_sources j protocol ir.2);
  _ ← create_sets j ingress protocol idx selectorAllows;
  ops ← match selectorAllows with [] => mret [] | _ => acl_ops j ingress protocol idx (rule_Ports ir.2) end;
  ops' ← match ipBlocks with [] => mret [] | _ => block_ops j ingress protocol idx ipBlocks (rule_Ports ir.2) end;
  mret (ops ++ ops').

Definition protocol_ops (j : Job) (ingress : bool) (rules : list (NetworkPolicyRule sel)) (protocol : string) : DB (list operation) :=
  match rules with
  | [] =>
      _ ← create_sets j ingress protocol "all" [];
      acl_ops j ingress protocol "all" []
  | _ => gather (rule_ops j ingress protocol) (imap pair rules)
  end.

(** The default drop, and the exceptions of a lax policy. *)
Definition default_ops (j : Job) (ingress : bool) : DB (list operation) :=
  ops ← wrapping (if ingress then "failed to set default ingress block acl: %w" else "failed to set default egress block acl: %w") []
          (UpdateDefaultBlockACLOps (j_key j) (j_pgName j) (dir_acl ingress) (j_log j) (j_lax j) (j_rate j));
  if j_lax j then
    ops' ← wrapping "failed to set default block exceptions for ingress acl: %w" []
             (UpdateDefaultBlockExceptionsACLOps (j_key j) (j_pgName j) (j_namespace j) (dir_acl ingress));
    mret (ops ++ ops')
  else mret ops.

(** The sets of rules that the policy no longer has: the last part of the name is
    the index of the rule. *)
Definition is_stale (count : nat) (name : string) : bool :=
  let values := Split name "." in
  if (length values <=? 1)%nat then false
  else
    let idxStr := default "" (last values) in
    if bool_decide (idxStr = "all") then false else Z.of_nat count <=? Atoi_value idxStr.

Definition delete_stale (j : Job) (ingress : bool) (count : nat) : DB () :=
  ass ← reading (fun db => Ok (ListAddressSets (sets_id (j_namespace j) (j_npName j) (dir_word ingress)) db));
  for_each (fun name => if is_stale count name then DeleteAddressSet [name] else mret ()) ass.

Definition update_rules (j : Job) (ingress : bool) (rules : list (NetworkPolicyRule sel)) (protocols : list string) : DB () :=
  aclOps ← reading (DeleteAclsOps (j_pgName j) portGroupKey (dir_acl ingress) ∅);
  blockOps ← match protocols with [] => mret [] | _ => default_ops j ingress end;
  ruleOps ← gather (protocol_ops j ingress rules) protocols;
  _ ← wrapping (if ingress then "add ingress acls to %s: %w" else "add egress acls to %s: %w") [j_pgName j]
        (Transact (aclOps ++ blockOps ++ ruleOps));
  _ ← logged (SetNetPolACLLog (j_pgName j) (j_log j) ingress);
  delete_stale j ingress (length rules).

(** The operations that would clear the ACLs are generated first in any case. *)
Definition clear_rules (j : Job) (ingress : bool) : DB () :=
  _ ← reading (DeleteAclsOps (j_pgName j) portGroupKey (dir_acl ingress) ∅);
  _ ← DeleteAcls (j_pgName j) portGroupKey (dir_acl ingress) ∅;
  DeleteAddressSets (sets_id (j_namespace j) (j_npName j) (dir_word ingress)).

(** ** The handlers *)

Definition find_policy (namespace name : string) : option (NetworkPolicy sel) :=
  snd <$> list_find (fun np => np_Namespace np = namespace /\ np_Name np = name) (npc_policies c).

Definition subnet_protocols (subnetName : string) : result (list string) :=
  subnet ← Get (c_subnets (nc_cluster (npc_net c))) subnetName;
  Ok (if bool_decide (Protocol subnet = ProtocolDual) then [ProtocolIPv4; ProtocolIPv6] else [Protocol subnet]).

Definition protocol_set (subnetNames : list string) : result (gset string) :=
  l ← collect subnet_protocols subnetNames; Ok (list_to_set (concat l)).

Definition np_job (key : string) np (npName : string) : Job :=
  mkJob key (np_Namespace np) npName (npPortGroupName (np_Namespace np) npName)
    (bool_decide (np_Annotations np !! NetworkPolicyLogAnnotation = Some "true"))
    (log_actions (np_Annotations np)) (parseACLLogRate (np_Annotations np)) (isNetworkPolicyEnforcementLax np)
    (GetNamedPortByNs (np_Namespace np) (npc_named c)) (parsePolicyFor (np_Annotations np)).

Definition update_policy (walkIngress walkEgress : gset string -> list string) (key : string) np : DB () :=
  npName ← running (np_name (np_Name np));
  let j := np_job key np npName in
  _ ← CreatePortGroup (j_pgName j) {[networkPolicyKey := np_Namespace np +:+ "/" +:+ npName]};
  '(ports, subnetNames) ← running_result (fetchSelectedPorts (np_Namespace np) (spec_PodSelector (np_Spec np)) (j_providers j));
  protocolSet ← lift (protocol_set subnetNames);
  _ ← PortGroupSetPorts (j_pgName j) ports;
  _ ← (if hasIngressRule np then update_rules j true (default [] (spec_Ingress (np_Spec np))) (walkIngress protocolSet) else clear_rules j true);
  _ ← (if hasEgressRule np then update_rules j false (default [] (spec_Egress (np_Spec np))) (walkEgress protocolSet) else clear_rules j false);
  if negb (j_lax j) && bool_decide (ProtocolIPv6 ∈ protocolSet) then CreateGatewayACL "" (j_pgName j) else mret ().

(** A policy that is gone, or a key that is not one, is nothing to do. *)
Definition handleUpdateNp (walkIngress walkEgress : gset string -> list string) (key : string) : DB () :=
  match SplitMetaNamespaceKey key with
  | None => mret ()
  | Some (namespace, name) =>
      match find_policy namespace name with
      | None => mret ()
      | Some np => update_policy walkIngress walkEgress key np
      end
  end.

Definition handleDeleteNp (key : string) : DB () :=
  match SplitMetaNamespaceKey key with
  | None => mret ()
  | Some (namespace, name) =>
      npName ← running (np_name name);
      let pgName := npPortGroupName namespace npName in
      firstErr ← attempt_all ((DeleteMeter <$> networkPolicyMeterNames pgName) ++
        [DeletePortGroup [pgName]; DeleteAddressSets (sets_id namespace npName "ingress"); DeleteAddressSets (sets_id namespace npName "egress")]);
      lift (match firstErr with Some e => Err e | None => Ok () end)
  end.

(** ** Which policies a change concerns *)

Definition ObjectMatchesLabelSelector (labels : gmap string string) (selector : sel) : bool :=
  match LabelSelectorAsSelector selector with Ok matches => matches labels | Err _ => false end.

Definition isPodMatchPolicyPeer (po : PodObject) (podNs : string * gmap string string) npp (policyNs : string) : bool :=
  if bool_decide (is_Some (peer_IPBlock npp)) then false
  else if match peer_NamespaceSelector npp with
          | None => bool_decide (policyNs = podNs.1)
          | Some s => ObjectMatchesLabelSelector podNs.2 s
          end
  then match peer_PodSelector npp with None => true | Some s => ObjectMatchesLabelSelector (po_Labels po) s end
  else false.

Definition all_peers np : list (NetworkPolicyPeer sel) :=
  (default [] (spec_Ingress (np_Spec np)) ++ default [] (spec_Egress (np_Spec np))) ≫= rule_Peers.

Definition isPodMatchNetworkPolicy (po : PodObject) (podNs : string * gmap string string) np : outcome bool :=
  selected ← (if bool_decide (podNs.1 = np_Namespace np)
              then match LabelSelectorAsSelector (spec_PodSelector (np_Spec np)) with Ok matches => Done (matches (po_Labels po)) | Err _ => Panic end
              else Done false);
  Done (selected || existsb (fun npp => isPodMatchPolicyPeer po podNs npp (np_Namespace np)) (all_peers np)).

Definition np_key np : string := ObjectName (np_Namespace np) (np_Name np).

Fixpoint matching_policies (P : NetworkPolicy sel -> outcome bool) (nps : list (NetworkPolicy sel)) : outcome (list string) :=
  match nps with
  | [] => Done []
  | np :: nps' => b ← P np; rest ← matching_policies P nps'; Done (if b : bool then np_key np :: rest else rest)
  end.

Definition podMatchNetworkPolicies (po : PodObject) : outcome (list string) :=
  match list_find (fun ns => ns.1 = Pod_Namespace (po_pod po)) (npc_namespaces c) with
  | None => Done []
  | Some (_, podNs) => matching_policies (isPodMatchNetworkPolicy po podNs) (npc_policies c)
  end.

Fixpoint some_namespace_peer (labels : gmap string string) (peers : list (NetworkPolicyPeer sel)) : outcome bool :=
  match peers with
  | [] => Done false
  | npp :: peers' =>
      match peer_NamespaceSelector npp with
      | None => some_namespace_peer labels peers'
      | Some s =>
          match LabelSelectorAsSelector s with
          | Err _ => Panic
          | Ok matches => if matches labels then Done true else some_namespace_peer labels peers'
          end
      end
  end.

Definition isNamespaceMatchNetworkPolicy (ns : string * gmap string string) np : outcome bool := some_namespace_peer ns.2 (all_peers np).

Definition namespaceMatchNetworkPolicies (ns : string * gmap string string) : outcome (list string) :=
  matching_policies (isNamespaceMatchNetworkPolicy ns) (npc_policies c).

(** ** Events of pods and namespaces

    What the events do to the table of named ports and to the queue of policies;
    the rest of an event is not about policies.  [c] are the caches at the time. *)

Definition enqueueAddPod_np (EnableNP : bool) (podIP : string) (po : PodObject) (s : NamedPort * list string) : outcome (NamedPort * list string) :=
  if po_HostNetwork po then Done s
  else if negb EnableNP then Done s
  else
    let named := AddNamedPortByPod po s.1 in
    if nonempty podIP then keys ← podMatchNetworkPolicies po; Done (named, reverse keys ++ s.2) else Done (named, s.2).

Definition enqueueDeletePod_np (EnableNP : bool) (po : PodObject) (s : NamedPort * list string) : outcome (NamedPort * list string) :=
  if po_HostNetwork po then Done s
  else if negb EnableNP then Done s
  else keys ← podMatchNetworkPolicies po; Done (DeleteNamedPortByPod po s.1, reverse keys ++ s.2).

(** The allocation of some network of the pod has changed. *)
Definition allocation_changed (oldPod newPod : Pod) (podNets : list kubeovnNet) : bool :=
  existsb (fun podNet => bool_decide (annotation oldPod (template (ProviderName podNet) "allocated") <>
                                      annotation newPod (template (ProviderName podNet) "allocated"))) podNets.

(** [sameVersion] is whether both have one resource version. *)
Definition enqueueUpdatePod_np (EnableNP sameVersion : bool) (oldPod newPod : PodObject) (s : NamedPort * list string) : outcome (NamedPort * list string) :=
  if po_HostNetwork newPod || sameVersion then Done s
  else
    r ← getPodKubeovnNets (npc_net c) newPod;
    match r with
    | Err _ => Done s
    | Ok podNets =>
        if negb EnableNP then Done s
        else
          newNp ← podMatchNetworkPolicies newPod;
          diff ← (if bool_decide (po_Labels oldPod = po_Labels newPod) then Done []
                  else oldNp ← podMatchNetworkPolicies oldPod; Done (DiffStringSlice oldNp newNp));
          Done (AddNamedPortByPod newPod s.1,
                (if allocation_changed (po_pod oldPod) (po_pod newPod) podNets then reverse newNp else []) ++ reverse diff ++ s.2)
    end.

Definition enqueueNamespace_np (EnableNP : bool) (ns : string * gmap string string) (queue : list string) : outcome (list string) :=
  if EnableNP then keys ← namespaceMatchNetworkPolicies ns; Done (reverse keys ++ queue) else Done queue.

Definition enqueueUpdateNamespace_np (EnableNP sameVersion : bool) (oldNs newNs : string * gmap string string) (queue : list string) : outcome (list string) :=
  if sameVersion || bool_decide (oldNs.2 = newNs.2) || negb EnableNP then Done queue
  else
    oldNp ← namespaceMatchNetworkPolicies oldNs;
    newNp ← namespaceMatchNetworkPolicies newNs;
    Done (reverse (DiffStringSlice oldNp newNp) ++ queue).

End Policies.
