(* ===== verification/NetworkPolicyFacts.v ===== *)
(** * Facts about the network policy controller

    What the calls of [handleUpdateNp] do to the database: the rules of one
    direction become ACLs and address sets, and the rest stays. *)
From Stdlib Require Import Ascii.
From S2P Require Import Prelude GoStrings GoNet GoNetText UtilNet Validator GoText PodAddress AclMatch NbDb NbDhcp NbLsp NbGroups NbAcl NbAclFacts NbDhcpFacts NbLspFacts NbWorld PolicyAcl AclMeaning PolicyFacts PolicyVerdict SgTable LsAcl LsAclFacts PodNets NamedPort NetworkPolicy.

Local Open Scope Z_scope.

(** ** Names of the objects of a network policy

    Names of port groups and address sets made of the name and the namespace of a
    policy: that they are accepted, that those of different rules differ, and
    which of them count as stale. *)

(** ** Characters *)

(** Lower case letters, digits, dashes and dots, as the API server enforces. *)
Definition dns_char (c : ascii) : bool :=
  ((97 <=? code c) && (code c <=? 122)) || is_digit c || bool_decide (c = "-"%char) || bool_decide (c = "."%char).

Definition dns_name (s : string) : Prop := s <> "" /\ all_chars dns_char s = true.

Lemma as_chars_app a b : as_chars (a +:+ b) = as_chars a && as_chars b.
Proof. induction a as [|c a IH]; [done|]. rewrite app_str_cons. cbn [as_chars]. by rewrite IH, andb_assoc. Qed.

Lemma dns_replace s : all_chars dns_char s = true -> as_chars (replace_char "-"%char "." s) = true.
Proof.
  induction s as [|c s IH]; [done|]. cbn [all_chars replace_char]. rewrite andb_true_iff. intros [Hc Hs]. destruct (bool_decide_reflect (c = "-"%char)) as [->|Hne].
  - by rewrite as_chars_app, IH.
  - cbn [as_chars]. rewrite IH by done. rewrite andb_true_r. unfold dns_char in Hc. unfold as_char. rewrite !orb_true_iff in *.
    destruct Hc as [[[Hc|Hc]|Hc]|Hc]; [tauto|tauto|by apply bool_decide_eq_true in Hc|tauto].
Qed.

Lemma as_chars_name s : as_chars s = true -> all_chars name_char s = true.
Proof.
  induction s as [|c s IH]; [done|]. cbn [as_chars all_chars]. rewrite !andb_true_iff. intros [Hc Hs]. split; [|by apply IH].
  unfold name_char. destruct c as [[] [] [] [] [] [] [] []]; vm_compute in Hc; (discriminate || by vm_compute).
Qed.

Lemma itoa_as n : 0 <= n -> as_chars (Itoa n) = true.
Proof.
  intros Hn. destruct (Itoa_chars (fun c => as_char c || is_digit c) n) as [Hd _]; [|done|].
  - intros d Hd. apply orb_true_iff. right. by apply is_digit_chr.
  - revert Hd. generalize (Itoa n). intros s. induction s as [|c s IH]; [done|]. cbn. rewrite !andb_true_iff. intros [? ?]. split; [done|by apply IH].
Qed.

(** ** Policies *)

Record named_job (j : Job) : Prop := {
  nj_letter : exists c s, j_npName j = String c s /\ letter c = true /\ all_chars dns_char s = true;
  nj_namespace : dns_name (j_namespace j)
}.

Lemma letter_as c : letter c = true -> as_char c = true /\ c <> "-"%char.
Proof. unfold letter, as_char. intros Hl. split; [rewrite orb_comm in Hl; by rewrite Hl|]. intros ->. by vm_compute in Hl. Qed.

Lemma np_name_ok name : dns_name name -> exists npName c s, np_name name = Done npName /\ npName = String c s /\ letter c = true /\ all_chars dns_char s = true.
Proof.
  intros [Hn Hd]. destruct name as [|c s]; [done|]. unfold np_name. destruct (letter c) eqn:El.
  - exists (String c s), c, s. cbn in Hd. apply andb_true_iff in Hd as [_ Hd]. done.
  - exists ("np" +:+ String c s), "n"%char, (String "p"%char (String c s)). split_and!; [done..|]. cbn [all_chars]. by apply andb_true_iff.
Qed.

(** A name that starts as the name of the policy does. *)
Lemma as_name_match j rest : named_job j -> as_chars rest = true ->
  matchAddressSetName (replace_char "-"%char "." (j_npName j) +:+ rest) = true /\ name_ok (replace_char "-"%char "." (j_npName j) +:+ rest) = true.
Proof.
  intros [(c & s & Ej & Hl & Hs) _] Hr. apply letter_as in Hl as [Hc Hne].
  assert (Hall : as_chars (replace_char "-"%char "." (j_npName j) +:+ rest) = true).
  { rewrite as_chars_app, Hr, andb_true_r, Ej. cbn [replace_char]. rewrite bool_decide_false by done. cbn [as_chars]. by rewrite Hc, dns_replace. }
  split.
  - rewrite Ej in *. cbn [replace_char] in *. rewrite bool_decide_false in * by done. rewrite app_str_cons in *. cbn [matchAddressSetName as_chars] in *.
    apply andb_true_iff in Hall as [_ Hall]. by rewrite Hc, Hall.
  - apply name_ok_iff. split; [|by apply as_chars_name]. rewrite Ej. cbn [replace_char]. by rewrite bool_decide_false.
Qed.

Definition ip_protocol (protocol : string) : Prop := protocol = ProtocolIPv4 \/ protocol = ProtocolIPv6.
Definition set_kind (kind : string) : Prop := kind = "allow" \/ kind = "except".

(** The name in parts. *)
Lemma as_name_parts j ingress kind protocol idx : set_kind kind ->
  as_name j ingress kind protocol idx =
  replace_char "-"%char "." (j_npName j) +:+ ("." +:+ replace_char "-"%char "." (j_namespace j) +:+ "." +:+ dir_word ingress +:+ "." +:+ kind +:+ "." +:+ protocol +:+ "." +:+ idx).
Proof.
  intros Hk. unfold as_name. rewrite !replace_char_app. rewrite !app_str_assoc.
  assert (E : forall s, s = "." \/ s = dir_word ingress \/ s = kind -> replace_char "-"%char "." s = s)
    by (intros s [->|[->| ->]]; [done|by destruct ingress|by destruct Hk as [-> | ->]]).
  rewrite !(E "."), (E (dir_word ingress)), (E kind) by tauto. done.
Qed.

Lemma as_name_ok j ingress kind protocol idx : named_job j -> set_kind kind -> ip_protocol protocol -> as_chars idx = true ->
  matchAddressSetName (as_name j ingress kind protocol idx) = true /\ name_ok (as_name j ingress kind protocol idx) = true.
Proof.
  intros Hj Hk Hp Hi. rewrite as_name_parts by done. apply as_name_match; [done|]. destruct (nj_namespace _ Hj) as [_ Hns]. rewrite !as_chars_app, Hi, dns_replace by done.
  destruct ingress, Hk as [-> | ->], Hp as [-> | ->]; by vm_compute.
Qed.

Lemma npPortGroupName_ok j : named_job j -> name_ok (npPortGroupName (j_namespace j) (j_npName j)) = true.
Proof.
  intros Hj. unfold npPortGroupName. rewrite replace_char_app. apply (as_name_match j); [done|]. rewrite replace_char_app, as_chars_app.
  destruct (nj_namespace _ Hj) as [_ Hns]. apply andb_true_iff. split; [done|by apply dns_replace].
Qed.

Lemma as_name_inj j i i' k k' p p' x x' : set_kind k -> set_kind k' -> ip_protocol p -> ip_protocol p' ->
  as_name j i k p x = as_name j i' k' p' x' -> i = i' /\ k = k' /\ p = p' /\ x = x'.
Proof.
  intros Hk Hk' Hp Hp' E. rewrite !as_name_parts in E by done. do 4 apply (inj (String.append _)) in E.
  assert (Hi : i = i') by (by destruct i, i'). subst i'. do 2 apply (inj (String.append _)) in E.
  assert (Hkk : k = k') by (by destruct Hk as [-> | ->], Hk' as [-> | ->]). subst k'. do 2 apply (inj (String.append _)) in E.
  assert (Hpp : p = p') by (by destruct Hp as [-> | ->], Hp' as [-> | ->]). subst p'. by do 2 apply (inj (String.append _)) in E.
Qed.

(** ** Stale sets *)

Lemma Split_app_any c a b : Split (a +:+ String c b) (sep1 c) = Split a (sep1 c) ++ Split b (sep1 c).
Proof.
  induction a as [|x a IH]; [apply Split_cons_sep|]. rewrite app_str_cons. destruct (decide (x = c)) as [->|Hx].
  - by rewrite !Split_cons_sep, IH.
  - rewrite !Split_cons_other, IH by done. pose proof (Split_not_nil c a) as Hn. by destruct (Split a (sep1 c)).
Qed.

(** The index of a rule is the last part of the name of its sets. *)
Lemma is_stale_index count name idx : contains_char "."%char idx = false ->
  is_stale count (name +:+ "." +:+ idx) = if bool_decide (idx = "all") then false else Z.of_nat count <=? Atoi_value idx.
Proof.
  intros Hb. unfold is_stale. change (name +:+ "." +:+ idx) with (name +:+ String "."%char idx). change "." with (sep1 "."%char).
  rewrite (Split_app_any "."%char), (Split_none _ idx Hb). pose proof (Split_not_nil "."%char name) as Hn.
  destruct (Split name (sep1 "."%char)) as [|x l]; [done|]. rewrite length_app. cbn [length].
  assert (E : (S (length l) + 1 <=? 1)%nat = false) by (apply Nat.leb_gt; lia). rewrite E, last_snoc. done.
Qed.

Lemma itoa_no_dot n : 0 <= n -> contains_char "."%char (Itoa n) = false.
Proof.
  intros Hn. apply all_chars_not_contains with is_digit; [by vm_compute|]. apply Itoa_chars; [apply is_digit_chr|done].
Qed.

Lemma as_name_idx j ingress kind protocol idx : as_name j ingress kind protocol idx =
  (replace_char "-"%char "." (j_npName j +:+ "." +:+ j_namespace j +:+ "." +:+ dir_word ingress +:+ "." +:+ kind) +:+ "." +:+ protocol) +:+ "." +:+ idx.
Proof. unfold as_name. by rewrite (app_str_assoc _ ("." +:+ protocol)), (app_str_assoc "." protocol). Qed.

(** The sets of the rules that exist are kept. *)
Lemma kept_index j ingress kind protocol i count : Z.of_nat i < 2 ^ 63 ->
  is_stale count (as_name j ingress kind protocol (Itoa (Z.of_nat i))) = (count <=? i)%nat.
Proof.
  intros Hi. rewrite as_name_idx, is_stale_index by (apply itoa_no_dot; lia). unfold Atoi_value. rewrite Atoi_Itoa by lia.
  rewrite bool_decide_false.
  - destruct (Nat.leb_spec count i); lia.
  - intros E. pose proof (Atoi_Itoa (Z.of_nat i) ltac:(lia)) as Ha. by rewrite E in Ha.
Qed.

Lemma kept_all j ingress kind protocol count : is_stale count (as_name j ingress kind protocol "all") = false.
Proof. by rewrite as_name_idx, is_stale_index. Qed.

(** ** Steps that leave the ACLs alone *)

Section Quiet.

(** The external ids of new address sets. *)
Context (ids : gmap string string).

(** Only the address sets [names] and meters may have changed; sets keep their
    external ids and new ones get [ids]. *)
Record quiet (names : list string) (db db' : NbDB) : Prop := {
  q_world : world db';
  q_rows : nb_pgs db' = nb_pgs db;
  q_groups : o_pgs (nb_obj db') = o_pgs (nb_obj db);
  q_lss : nb_lss db' = nb_lss db;
  q_lsps : o_lsps (nb_obj db') = o_lsps (nb_obj db);
  q_sets : forall s, s ∉ names -> o_sets (nb_obj db') !! s = o_sets (nb_obj db) !! s;
  q_ids : forall s x', o_sets (nb_obj db') !! s = Some x' ->
    (exists x, o_sets (nb_obj db) !! s = Some x /\ as_ExternalIDs x' = as_ExternalIDs x) \/ as_ExternalIDs x' = ids
}.

Lemma quiet_refl names db : world db -> quiet names db db.
Proof. split; try done. intros s x Hx. left. by exists x. Qed.

Lemma quiet_trans names db db1 db2 : quiet names db db1 -> quiet names db1 db2 -> quiet names db db2.
Proof.
  intros [W1 R1 G1 L1 P1 S1 I1] [W2 R2 G2 L2 P2 S2 I2]. split; [done|congruence..| |].
  - intros s Hs. by rewrite S2, S1.
  - intros s x2 H2. destruct (I2 s x2 H2) as [(x1 & H1 & E1)|E1]; [|by right]. rewrite E1. by apply I1.
Qed.

Lemma quiet_sub names names' db db' : quiet names db db' -> (forall s, s ∈ names -> s ∈ names') -> quiet names' db db'.
Proof. intros [W R G L P S I] Hsub. split; try done. intros s Hs. apply S. intros Hin. by apply Hs, Hsub. Qed.

Lemma quiet_frame pg names db db' : quiet names db db' -> frame pg names db db'.
Proof. intros [W R G L P S I]. split; [done|done|by rewrite R|by rewrite G|done]. Qed.

(** ** Meters *)

Lemma meter_quiet op db : world db -> (exists name m, op = OpMeter name m) -> quiet [] db (apply_ops [op] db).
Proof. intros [[] Ha Hg Hn] (name & m & ->). destruct m; (split; [split; [by split|done..]|done..|intros s x Hx; left; by exists x]). Qed.

Lemma DeleteMeter_exact name db : accepting db -> DeleteMeter name db = Done (Ok (), set_meters (delete name (nb_meters db)) db).
Proof.
  intros Ha. unfold DeleteMeter. destruct (nb_meters db !! name) eqn:E.
  - apply wrapping_done. by rewrite Transact_accepting.
  - rewrite delete_id by done. by destruct db.
Qed.

Lemma DeleteMeter_ok name db : world db -> exists db', DeleteMeter name db = Done (Ok (), db') /\ quiet [] db db'.
Proof.
  intros Hw. eexists. split; [apply DeleteMeter_exact, (w_accepting _ Hw)|]. apply (meter_quiet (OpMeter name None) db Hw). by eexists _, _.
Qed.

Lemma CreateOrUpdateMeter_ok name unit rate burst db : world db -> name <> "" ->
  exists db', CreateOrUpdateMeter name unit rate burst db = Done (Ok (), db') /\ quiet [] db db'.
Proof.
  intros Hw Hn. unfold CreateOrUpdateMeter. destruct (rate <=? 0); [by apply DeleteMeter_ok|].
  unfold MeterExists, GetMeter. rewrite bool_decide_false by done. destruct (nb_meters db !! name) as [m|] eqn:E.
  - rewrite (bind_done _ _ db true db) by (by apply reading_done; rewrite E). rewrite (bind_done _ _ db (Some m) db) by (by apply reading_done; rewrite E).
    unfold updateMeterAndBand. eexists. split; [apply wrapping_done; rewrite Transact_accepting by apply (w_accepting _ Hw); done|].
    apply meter_quiet; [done|by eexists _, _].
  - rewrite (bind_done _ _ db false db) by (by apply reading_done; rewrite E).
    unfold createMeterWithBand. eexists. split; [apply wrapping_done; rewrite Transact_accepting by apply (w_accepting _ Hw); done|].
    apply meter_quiet; [done|by eexists _, _].
Qed.

Lemma meter_name_not_empty pg d : meter_name pg d <> "".
Proof. unfold meter_name. apply app_str_not_nil. done. Qed.

Lemma update_meter_ok pg d failed log rate db : world db -> exists db', update_meter pg d failed log rate db = Done (Ok (), db') /\ quiet [] db db'.
Proof.
  intros Hw. unfold update_meter. destruct (log && (0 <? rate)).
  - destruct (CreateOrUpdateMeter_ok (meter_name pg d) MeterUnitPktps rate 1 db Hw (meter_name_not_empty pg d)) as (db' & E & Q).
    exists db'. split; [by apply wrapping_done|done].
  - destruct (DeleteMeter_ok (meter_name pg d) db Hw) as (db' & E & Q). exists db'. split; [|done]. unfold logged. by rewrite E.
Qed.

(** ** Operations that add ACLs to a port group *)

Definition inserts (pg : string) (ops : list operation) (acls : list ACL) : Prop :=
  forall db, is_Some (nb_pgs db !! pg) -> apply_ops ops db = add_rows portGroupKey pg acls db.

Lemma number_app n l l' : number n (l ++ l') = number n l ++ number (n + N.of_nat (length l)) l'.
Proof.
  revert n. induction l as [|a l IH]; intros n; cbn; [by rewrite N.add_0_r|]. rewrite IH. do 3 f_equal. lia.
Qed.

Lemma add_rows_nil pg db : is_Some (nb_pgs db !! pg) -> add_rows portGroupKey pg [] db = db.
Proof.
  intros [rows Hx]. rewrite (add_rows_put _ _ _ rows) by done. cbn. rewrite app_nil_r, put_id by (by left || done). rewrite N.add_0_r. by destruct db.
Qed.

Lemma add_rows_app pg l l' db : is_Some (nb_pgs db !! pg) ->
  add_rows portGroupKey pg l' (add_rows portGroupKey pg l db) = add_rows portGroupKey pg (l ++ l') db.
Proof.
  intros [rows Hx]. rewrite (add_rows_put _ _ l rows), (add_rows_put _ _ (l ++ l') rows) by done.
  set (n := nb_next db). rewrite (add_rows_put _ _ l' (rows ++ number n l)) by (apply (lookup_insert_eq (M := gmap string))).
  assert (Hc : forall r m d, put portGroupKey pg r (set_next m d) = set_next m (put portGroupKey pg r d)) by done.
  rewrite Hc, put_put by (by left). cbn [nb_next set_next]. rewrite length_app, number_app, <-app_assoc. unfold set_next. cbn. f_equal. lia.
Qed.

Lemma add_rows_exists pg l db : is_Some (nb_pgs (add_rows portGroupKey pg l db) !! pg).
Proof. eexists. apply (lookup_insert_eq (M := gmap string)). Qed.

Lemma inserts_nil pg : inserts pg [] [].
Proof. intros db Hx. by rewrite add_rows_nil. Qed.

Lemma inserts_app pg ops ops' l l' : inserts pg ops l -> inserts pg ops' l' -> inserts pg (ops ++ ops') (l ++ l').
Proof.
  intros H1 H2 db Hx. unfold apply_ops. rewrite fold_left_app.
  change (fold_left (fun d op => apply_op op d) ?o ?d) with (apply_ops o d). rewrite H1 by done. rewrite H2 by apply add_rows_exists.
  by apply add_rows_app.
Qed.

Lemma omap_Some {A} (l : list A) : omap (M := list) id (Some <$> l) = l.
Proof. induction l as [|a l IH]; [done|]. cbn. by rewrite IH. Qed.

Lemma create_acls_ok pg acls db : is_Some (nb_pgs db !! pg) ->
  exists ops, create_acls pg acls db = Done (Ok ops, db) /\ inserts pg ops acls.
Proof.
  intros [rows Hx]. pose proof (find_parent_ok portGroupKey pg rows db Hx) as Hf. destruct acls as [|a l].
  - exists []. split; [by apply reading_done|apply inserts_nil].
  - exists [OpInsert portGroupKey pg (a :: l)]. split; [|done]. apply reading_done. unfold CreateAclsOps. rewrite omap_Some, Hf. done.
Qed.

(** ** ACLs with a meaning *)

Section Adds.

Context {addr : Type}.

Definition no_ovn : Ovn addr := {| group_has _ _ := false; set_has _ _ := false; text_has _ _ := false |}.

(** The call adds ACLs that allow what [Q] says, may change [names], and ends in
    a state where [Post] holds. *)
Definition adds (pg d : string) (names : list string) (m : DB (list operation)) (Q : Ovn addr -> packet addr -> Prop) (Post : NbDB -> Prop) (db : NbDB) : Prop :=
  exists ops acls db', m db = Done (Ok ops, db') /\ quiet names db db' /\ inserts pg ops acls /\
    (forall O : Ovn addr, group_of pg d ACLActionAllowRelated 2001 acls (Q O)) /\ Post db'.

Lemma adds_nothing pg d names Q (Post : NbDB -> Prop) db : world db -> (forall O p, ~ Q O p) -> Post db -> adds pg d names (mret []) Q Post db.
Proof.
  intros Hw HQ HP. exists [], [], db. split_and!; [done|by apply quiet_refl|apply inserts_nil| |done]. intros O. apply group_nil. intros p. apply HQ.
Qed.

Lemma adds_weaken pg d names names' m Q R (Post Post' : NbDB -> Prop) db : (forall s, s ∈ names -> s ∈ names') -> (forall O p, Q O p <-> R O p) ->
  (forall db', Post db' -> Post' db') -> adds pg d names m Q Post db -> adds pg d names' m R Post' db.
Proof.
  intros Hn HQR HP (ops & acls & db' & E & Hq & Hi & HQ & Hp). exists ops, acls, db'. split_and!; [done|by eapply quiet_sub|done| |by apply HP].
  intros O. eapply group_iff; [|apply HQ]. apply HQR.
Qed.

(** One call after the other. *)
Lemma adds_then pg d names names' m m' Q Q' (Post Post' : NbDB -> Prop) db : world db -> is_Some (nb_pgs db !! pg) ->
  adds pg d names m Q Post db ->
  (forall db1, world db1 -> is_Some (nb_pgs db1 !! pg) -> Post db1 -> adds pg d names' m' Q' Post' db1) ->
  (forall db1 db2, Post db1 -> quiet names' db1 db2 -> Post db2) ->
  adds pg d (names ++ names') (ops ← m; ops' ← m'; mret (ops ++ ops')) (fun O p => Q O p \/ Q' O p) (fun db' => Post db' /\ Post' db') db.
Proof.
  intros Hw Hx (ops & acls & db1 & E1 & Q1 & I1 & G1 & P1) Hnext Hst.
  destruct (Hnext db1 (q_world _ _ _ Q1)) as (ops' & acls' & db2 & E2 & Q2 & I2 & G2 & P2); [by rewrite (q_rows _ _ _ Q1)|done|].
  exists (ops ++ ops'), (acls ++ acls'), db2. split_and!.
  - rewrite (bind_done _ _ db ops db1) by done. by rewrite (bind_done _ _ db1 ops' db2).
  - eapply quiet_trans; [eapply quiet_sub; [exact Q1|]|eapply quiet_sub; [exact Q2|]]; intros s Hs; apply elem_of_app; tauto.
  - by apply inserts_app.
  - intros O. by apply group_app.
  - by eapply Hst.
  - done.
Qed.

(** A loop of calls that change different sets. *)
Lemma gather_adds {A} pg d (f : A -> DB (list operation)) (names : A -> list string) (Q : A -> Ovn addr -> packet addr -> Prop) (Post : A -> NbDB -> Prop) l db :
  world db -> is_Some (nb_pgs db !! pg) -> NoDup l ->
  (forall x db1, x ∈ l -> world db1 -> is_Some (nb_pgs db1 !! pg) -> adds pg d (names x) (f x) (Q x) (Post x) db1) ->
  (forall x db1 db2, (forall s, s ∈ names x -> o_sets (nb_obj db2) !! s = o_sets (nb_obj db1) !! s) -> Post x db1 -> Post x db2) ->
  (forall x y s, x ∈ l -> y ∈ l -> s ∈ names x -> s ∈ names y -> x = y) ->
  adds pg d (l ≫= names) (gather f l) (fun O p => Exists (fun x => Q x O p) l) (fun db' => Forall (fun x => Post x db') l) db.
Proof.
  intros Hw Hx Hnd Hf Hst Hdis. revert db Hw Hx. induction Hnd as [|x l Hnin Hnd IH]; intros db Hw Hx.
  { apply adds_nothing; [done|intros O p He; by apply Exists_nil in He|done]. }
  cbn [gather]. rewrite bind_cons. eapply adds_weaken; [done| | |apply (adds_then pg d (names x) (l ≫= names) (f x) (gather f l) (Q x) (fun O p => Exists (fun x => Q x O p) l)
    (Post x) (fun db' => Forall (fun x => Post x db') l) db Hw Hx)].
  - intros O p. by rewrite Exists_cons.
  - intros db' [? ?]. by constructor.
  - apply Hf; [by left|done|done].
  - intros db1 W1 X1 _. apply IH; [|..|done|done].
    + intros y db2 Hy. apply Hf. by right.
    + intros y z s Hy Hz. apply Hdis; by right.
  - intros db1 db2 HP Hq. eapply Hst; [|exact HP]. intros s Hs. apply (q_sets _ _ _ Hq). intros Hin. apply list_elem_of_bind in Hin as (y & Hsy & Hy).
    apply Hnin. by rewrite (Hdis x y s ltac:(by left) ltac:(by right) Hs Hsy).
Qed.

Lemma allow_acls_mean pg d aclName log rate failed (texts : outcome (list string)) (Q : Ovn addr -> packet addr -> Prop) :
  pg <> "" -> real_direction d -> (forall O : Ovn addr, exists ms, texts = Done (Strings ms) /\ say ms (Q O)) ->
  exists ts acls, texts = Done ts /\ allow_acls pg d aclName log rate failed ts = Ok acls /\
    forall O : Ovn addr, group_of pg d ACLActionAllowRelated 2001 acls (Q O).
Proof.
  intros Hp Hd HO. destruct (HO no_ovn) as (ms & E & Hs).
  destruct (allow_group (H := no_ovn) pg d aclName log rate failed ms _ Hp Hd Hs) as (acls & Ea & _). exists (Strings ms), acls. split_and!; [done..|].
  intros O. destruct (HO O) as (ms' & E' & Hs'). rewrite E in E'. injection E' as Em.
  destruct (allow_group (H := O) pg d aclName log rate failed ms' _ Hp Hd Hs') as (acls' & Ea' & G). rewrite <-Em, Ea in Ea'. injection Ea' as ->. done.
Qed.

Lemma dir_real ingress : real_direction (dir_acl ingress).
Proof. destruct ingress; [by left|by right]. Qed.

Record job_ok (j : Job) : Prop := {
  jo_pg : name_ok (j_pgName j) = true;
  jo_named : named_ok (j_named j)
}.

Lemma pg_nonempty j : job_ok j -> j_pgName j <> "".
Proof. intros [Hp _]. by apply name_ok_iff in Hp as [? _]. Qed.

Lemma acl_ops_adds j ingress protocol idx ports db : job_ok j -> world db -> is_Some (nb_pgs db !! j_pgName j) ->
  let allow := as_name j ingress "allow" protocol idx in let except := as_name j ingress "except" protocol idx in
  name_ok allow = true -> name_ok except = true -> Forall (fun port => port_ok port = true) ports ->
  adds (j_pgName j) (dir_acl ingress) [] (acl_ops j ingress protocol idx ports)
    (fun O p => selector_allows (dir_acl ingress) (j_pgName j) allow except protocol p /\ ports_allow (j_named j) ports p) (fun _ => True) db.
Proof.
  intros Hj Hw Hx allow except Ha He Hports.
  assert (Hsay : forall O : Ovn addr, exists ms, newNetworkPolicyACLMatch (j_pgName j) allow except protocol (dir_acl ingress) ports (j_named j) = Done (Strings ms) /\
    say ms (fun p => selector_allows (dir_acl ingress) (j_pgName j) allow except protocol p /\ ports_allow (j_named j) ports p)).
  { intros O. unfold newNetworkPolicyACLMatch.
    destruct (policy_says (H := O) (j_pgName j) allow except protocol (dir_acl ingress) ports (j_named j)) as (ms & -> & HS);
      [apply (jo_pg _ Hj)|done..|apply (jo_named _ Hj)|]. by exists ms. }
  destruct (allow_acls_mean (j_pgName j) (dir_acl ingress) (acl_name j ingress protocol idx) (j_log j && slice_contains (j_actions j) ACLActionAllow) (j_rate j)
    (if ingress then "new allow ingress acl for port group %s: %w" else "new allow egress acl for port group %s: %w") _ _ (pg_nonempty j Hj) (dir_real ingress) Hsay)
    as (ts & acls & Et & Ea & HG).
  destruct (update_meter_ok (j_pgName j) (dir_acl ingress) (if ingress then "create ingress meter %s: %w" else "create egress meter %s: %w") (j_log j) (j_rate j) db Hw)
    as (db' & Em & Hq).
  destruct (create_acls_ok (j_pgName j) acls db') as (ops & Eo & Hi); [by rewrite (q_rows _ _ _ Hq)|].
  exists ops, acls, db'. split_and!; [|done|done|exact HG|done]. unfold acl_ops. fold allow except. destruct ingress; cbn [dir_acl] in *.
  - unfold UpdateIngressACLOps. rewrite (bind_done _ _ db () db') by exact Em. rewrite (bind_done _ _ db' ts db') by (unfold running; by rewrite Et).
    rewrite (bind_done _ _ db' acls db') by (unfold lift; by rewrite Ea). by apply wrapping_done.
  - unfold UpdateEgressACLOps. rewrite (bind_done _ _ db () db') by exact Em. rewrite (bind_done _ _ db' ts db') by (unfold running; by rewrite Et).
    rewrite (bind_done _ _ db' acls db') by (unfold lift; by rewrite Ea). done.
Qed.

Lemma block_ops_adds j ingress protocol idx blocks ports db : job_ok j -> world db -> is_Some (nb_pgs db !! j_pgName j) ->
  Forall (fun b => block_ok b = true) blocks -> Forall (fun port => port_ok port = true) ports ->
  adds (j_pgName j) (dir_acl ingress) [] (block_ops j ingress protocol idx blocks ports)
    (fun O p => blocks_allow (dir_acl ingress) (j_pgName j) protocol blocks p /\ ports_allow (j_named j) ports p) (fun _ => True) db.
Proof.
  intros Hj Hw Hx Hb Hports.
  assert (Hsay : forall O : Ovn addr, exists ms, newIPBlockACLMatch (j_pgName j) protocol (dir_acl ingress) blocks ports (j_named j) = Done (Strings ms) /\
    say ms (fun p => blocks_allow (dir_acl ingress) (j_pgName j) protocol blocks p /\ ports_allow (j_named j) ports p)).
  { intros O. unfold newIPBlockACLMatch.
    destruct (ip_block_says (H := O) (j_pgName j) protocol (dir_acl ingress) blocks ports (j_named j)) as (ms & -> & HS);
      [apply (jo_pg _ Hj)|done..|apply (jo_named _ Hj)|]. by exists ms. }
  destruct (allow_acls_mean (j_pgName j) (dir_acl ingress) (acl_name j ingress protocol idx +:+ "/ipBlock") (j_log j && slice_contains (j_actions j) ACLActionAllow) (j_rate j)
    (if ingress then "new ipBlock ingress acl for port group %s: %w" else "new ipBlock egress acl for port group %s: %w") _ _ (pg_nonempty j Hj) (dir_real ingress) Hsay)
    as (ts & acls & Et & Ea & HG).
  destruct (create_acls_ok (j_pgName j) acls db Hx) as (ops & Eo & Hi).
  assert (Hnil : ts = [] -> acls = []) by (intros ->; cbn in Ea; by injection Ea as <-).
  exists (match ts with [] => [] | _ => ops end), acls, db. split_and!; [|by apply quiet_refl|by destruct ts; [rewrite Hnil; [apply inserts_nil|]|]|exact HG|done].
  unfold block_ops. destruct ingress; cbn [dir_acl] in *; [unfold UpdateIngressIPBlockACLOps|unfold UpdateEgressIPBlockACLOps];
    (rewrite (bind_done _ _ db ts db) by (unfold running; by rewrite Et); destruct ts; [done|];
     by rewrite (bind_done _ _ db acls db) by (unfold lift; by rewrite Ea)).
Qed.

(** The default drop, with the exceptions. *)
Lemma default_ops_adds j ingress db : job_ok j -> world db -> is_Some (nb_pgs db !! j_pgName j) ->
  exists ops block exceptions db', default_ops j ingress db = Done (Ok ops, db') /\ quiet [] db db' /\
    inserts (j_pgName j) ops (block :: exceptions) /\ acl_Log block = j_log j /\
    forall O : Ovn addr,
      group_of (j_pgName j) (dir_acl ingress) ACLActionDrop 2000 [block] (fun p => member (dir_acl ingress) (j_pgName j) p /\ blocked (j_lax j) p) /\
      group_of (j_pgName j) (dir_acl ingress) ACLActionAllowRelated 2001 exceptions (fun p => j_lax j = true /\ dhcp_packet (dir_acl ingress) (j_pgName j) p).
Proof.
  intros Hj Hw Hx. pose proof (jo_pg _ Hj) as Hp.
  destruct (default_group (H := no_ovn) (j_key j) (j_pgName j) (dir_acl ingress) (j_log j) (j_lax j) (j_rate j) Hp (dir_real ingress)) as (block & Eb & _).
  destruct (update_meter_ok (j_pgName j) (dir_acl ingress) "create meter %s: %w" (j_log j) (j_rate j) db Hw) as (db' & Em & Hq).
  assert (Hx' : is_Some (nb_pgs db' !! j_pgName j)) by (by rewrite (q_rows _ _ _ Hq)).
  set (exceptions := if j_lax j then exception_acls (j_key j) (j_pgName j) (dir_acl ingress) else []).
  destruct (create_acls_ok (j_pgName j) [block] db' Hx') as (ops & Eo & Hi).
  destruct (create_acls_ok (j_pgName j) exceptions db' Hx') as (ops' & Eo' & Hi').
  assert (E1 : UpdateDefaultBlockACLOps (j_key j) (j_pgName j) (dir_acl ingress) (j_log j) (j_lax j) (j_rate j) db = Done (Ok ops, db')).
  { unfold UpdateDefaultBlockACLOps. rewrite (bind_done _ _ db () db') by exact Em. rewrite (bind_done _ _ db' block db') by (unfold lift; by rewrite Eb).
    by apply wrapping_done. }
  exists (ops ++ (if j_lax j then ops' else [])), block, exceptions, db'. split_and!.
  - unfold default_ops. rewrite (bind_done _ _ db ops db') by (by apply wrapping_done). unfold exceptions in Eo'. destruct (j_lax j); [|by rewrite app_nil_r].
    by rewrite (bind_done _ _ db' ops' db') by (by apply wrapping_done, wrapping_done).
  - done.
  - apply (inserts_app _ _ _ [block] exceptions); [done|]. unfold exceptions in *. destruct (j_lax j); [done|apply inserts_nil].
  - unfold default_block_acl, newACLWithoutCheck in Eb. destruct (required _ _ _ _ _); [done|]. injection Eb as <-. by destruct (j_log j), (egress (dir_acl ingress)).
  - intros O. destruct (default_group (H := O) (j_key j) (j_pgName j) (dir_acl ingress) (j_log j) (j_lax j) (j_rate j) Hp (dir_real ingress)) as (block' & Eb' & G).
    rewrite Eb in Eb'. injection Eb' as <-. split; [exact G|]. unfold exceptions. destruct (j_lax j); [|apply group_nil; by intros p [? _]].
    eapply group_iff; [|exact (exception_group (H := O) _ _ _ Hp (dir_real ingress))]. tauto.
Qed.

End Adds.

End Quiet.
