(* ===== verification/NpDirection.v ===== *)
(** * One direction of a network policy

    [handleUpdateNp] replaces the ACLs of one direction in one transaction and
    then drops the address sets of rules that are gone. *)
From Stdlib Require Import Ascii.
From S2P Require Import Prelude GoStrings GoNet GoNetText UtilNet Validator GoText PodAddress AclMatch NbDb NbDhcp NbLsp NbGroups NbAcl NbAclFacts NbDhcpFacts NbLspFacts NbWorld PolicyAcl AclMeaning PolicyFacts PolicyVerdict LsAcl PodNets NamedPort NetworkPolicy NetworkPolicyFacts.

Local Open Scope Z_scope.

(** ** The rules of a network policy

    What the loops of [handleUpdateNp] over the rules of one direction add to the
    database: address sets with the addresses of the peers, and ACLs that allow
    what the rules say. *)

(** ** Address sets *)

Definition set_is (name : string) (addresses : list string) (db : NbDB) : Prop :=
  exists s, o_sets (nb_obj db) !! name = Some s /\ as_Addresses s = normalizeAddresses addresses.

Lemma set_is_kept name addresses db db' : o_sets (nb_obj db') !! name = o_sets (nb_obj db) !! name -> set_is name addresses db -> set_is name addresses db'.
Proof. intros E (s & Hs & Ha). exists s. by rewrite E. Qed.

Lemma createAs_ok ns np dir name addresses db : world db -> matchAddressSetName name = true ->
  exists db', createAsForNetpol ns np dir name addresses db = Done (Ok (), db') /\ quiet (tagged (sets_id ns np dir)) [name] db db' /\ set_is name addresses db'.
Proof.
  intros Hw Hm. destruct (CreateAddressSet_ok "" name (sets_id ns np dir) [name] db Hw Hm ltac:(by left)) as (db1 & E1 & W1 & F1 & R1 & P1 & D1 & I1).
  assert (Hs : is_Some (o_sets (nb_obj db1) !! name)) by (apply elem_of_dom; rewrite D1; set_solver). destruct Hs as [s Hs].
  pose proof (AddressSetUpdateAddress_ok name s addresses db1 W1 Hs) as E2. set (db2 := set_obj _ db1) in E2. exists db2. split_and!.
  - unfold createAsForNetpol. by rewrite (bind_done _ _ db () db1).
  - split; [by apply world_obj|done|done|apply (fr_lss _ _ _ _ F1)|apply (fr_lsps _ _ _ _ F1)|..].
    + intros x Hx. cbn. rewrite lookup_insert_ne; [by apply (fr_sets _ _ _ _ F1)|]. intros ->. apply Hx. by left.
    + intros x y. cbn. destruct (decide (x = name)) as [->|Hne].
      * rewrite lookup_insert_eq. intros [= <-]. cbn. destruct (I1 s Hs) as [Hs0| ->]; [left; by exists s|by right].
      * rewrite lookup_insert_ne by done. rewrite (fr_sets _ _ _ _ F1) by (by rewrite list_elem_of_singleton). intros Hy. left. by exists y.
  - eexists. split; [apply (lookup_insert_eq (M := gmap string))|done].
Qed.

(** The external ids of the sets of one direction. *)
Definition dir_ids (j : Job) (ingress : bool) : gmap string string := tagged (sets_id (j_namespace j) (j_npName j) (dir_word ingress)).

Definition set_names (j : Job) (ingress : bool) (protocol idx : string) : list string :=
  [as_name j ingress "allow" protocol idx; as_name j ingress "except" protocol idx].

(** The sets of a rule. *)
Definition sets_hold (j : Job) (ingress : bool) (protocol idx : string) (allows : list string) (db : NbDB) : Prop :=
  set_is (as_name j ingress "allow" protocol idx) allows db /\ set_is (as_name j ingress "except" protocol idx) [] db.

Lemma sets_hold_kept j ingress protocol idx allows db db' :
  (forall s, s ∈ set_names j ingress protocol idx -> o_sets (nb_obj db') !! s = o_sets (nb_obj db) !! s) ->
  sets_hold j ingress protocol idx allows db -> sets_hold j ingress protocol idx allows db'.
Proof. intros E [Ha He]. split; (eapply set_is_kept; [apply E|done]); set_solver. Qed.

Lemma create_sets_ok j ingress protocol idx allows db : named_job j -> world db -> ip_protocol protocol -> as_chars idx = true ->
  exists db', create_sets j ingress protocol idx allows db = Done (Ok (), db') /\ quiet (dir_ids j ingress) (set_names j ingress protocol idx) db db' /\
    sets_hold j ingress protocol idx allows db'.
Proof.
  intros Hj Hw Hp Hi. destruct (as_name_ok j ingress "allow" protocol idx Hj ltac:(by left) Hp Hi) as [Ma _].
  destruct (as_name_ok j ingress "except" protocol idx Hj ltac:(by right) Hp Hi) as [Me _].
  destruct (createAs_ok (j_namespace j) (j_npName j) (dir_word ingress) _ allows db Hw Ma) as (db1 & E1 & Q1 & S1).
  destruct (createAs_ok (j_namespace j) (j_npName j) (dir_word ingress) _ [] db1 (q_world _ _ _ _ Q1) Me) as (db2 & E2 & Q2 & S2).
  exists db2. split_and!.
  - unfold create_sets. by rewrite (bind_done _ _ db () db1).
  - unfold set_names. eapply quiet_trans; (eapply quiet_sub; [eassumption|]); set_solver.
  - split; [|exact S2]. eapply set_is_kept; [|exact S1]. apply (q_sets _ _ _ _ Q2). rewrite list_elem_of_singleton. intros E.
    apply as_name_inj in E as (_ & E & _); [done|by left|by right|done|done].
Qed.

Section Rules.

Context {addr sel : Type} (LabelSelectorAsSelector : sel -> result (gmap string string -> bool)) `{Multus} (c : NpCluster sel).

Implicit Types (rule : NetworkPolicyRule sel) (O : Ovn addr) (p : packet addr).

(** The addresses and the blocks of a rule that can be read. *)
Definition sources (j : Job) (protocol : string) rule : list string * list IPBlock :=
  match rule_sources LabelSelectorAsSelector c j protocol rule with Done (Ok x) => x | _ => ([], []) end.

Definition readable (j : Job) (protocol : string) rule : Prop :=
  rule_sources LabelSelectorAsSelector c j protocol rule = Done (Ok (sources j protocol rule)) /\
  Forall (fun b => block_ok b = true) (sources j protocol rule).2 /\ Forall (fun port => port_ok port = true) (rule_Ports rule).

(** What the ACLs of a rule allow. *)
Definition rule_acls_allow (j : Job) (ingress : bool) (protocol idx : string) rule O p : Prop :=
  (((sources j protocol rule).1 <> [] /\ selector_allows (dir_acl ingress) (j_pgName j) (as_name j ingress "allow" protocol idx) (as_name j ingress "except" protocol idx) protocol p) \/
   blocks_allow (dir_acl ingress) (j_pgName j) protocol (sources j protocol rule).2 p) /\ ports_allow (j_named j) (rule_Ports rule) p.

Lemma rule_ops_adds j ingress protocol i rule db : job_ok j -> named_job j -> world db -> is_Some (nb_pgs db !! j_pgName j) -> ip_protocol protocol ->
  readable j protocol rule -> let idx := Itoa (Z.of_nat i) in
  adds (dir_ids j ingress) (j_pgName j) (dir_acl ingress) (set_names j ingress protocol idx) (rule_ops LabelSelectorAsSelector c j ingress protocol (i, rule))
    (rule_acls_allow j ingress protocol idx rule) (sets_hold j ingress protocol idx (sources j protocol rule).1) db.
Proof.
  intros Hj Hnj Hw Hx Hp (Hs & Hb & Hports) idx. assert (Hi : as_chars idx = true) by (apply itoa_as; lia).
  destruct (create_sets_ok j ingress protocol idx (sources j protocol rule).1 db Hnj Hw Hp Hi) as (db1 & E1 & Q1 & S1).
  assert (X1 : is_Some (nb_pgs db1 !! j_pgName j)) by (by rewrite (q_rows _ _ _ _ Q1)).
  unfold rule_acls_allow. destruct (sources j protocol rule) as [allows blocks] eqn:Es. cbn [fst snd] in *.
  assert (Hsel : adds (dir_ids j ingress) (j_pgName j) (dir_acl ingress) [] (match allows with [] => mret [] | _ => acl_ops j ingress protocol idx (rule_Ports rule) end)
    (fun O p => (allows <> [] /\ selector_allows (dir_acl ingress) (j_pgName j) (as_name j ingress "allow" protocol idx) (as_name j ingress "except" protocol idx) protocol p) /\
       ports_allow (j_named j) (rule_Ports rule) p) (fun _ => True) db1).
  { destruct allows as [|a allows]; [apply adds_nothing; [apply Q1|by intros O p [[? _] _]|done]|].
    eapply adds_weaken; [done| |done|apply (acl_ops_adds (dir_ids j ingress) j ingress protocol idx (rule_Ports rule) db1 Hj (q_world _ _ _ _ Q1) X1);
      [apply as_name_ok; [done|by left|done..]|apply as_name_ok; [done|by right|done..]|done]].
    intros O p. cbv beta. naive_solver. }
  destruct (adds_then (dir_ids j ingress) (j_pgName j) (dir_acl ingress) [] [] _ (match blocks with [] => mret [] | _ => block_ops j ingress protocol idx blocks (rule_Ports rule) end)
    _ (fun O p => blocks_allow (dir_acl ingress) (j_pgName j) protocol blocks p /\ ports_allow (j_named j) (rule_Ports rule) p) _ (fun _ => True) db1 (q_world _ _ _ _ Q1) X1 Hsel)
    as (ops & acls & db2 & E2 & Q2 & I2 & G2 & _); [|done|].
  { intros db2 W2 X2 _. destruct blocks as [|b blocks]; [|by apply block_ops_adds]. apply adds_nothing; [done| |done].
    intros O p [(_ & _ & Hex) _]. by apply Exists_nil in Hex. }
  exists ops, acls, db2. split_and!.
  - unfold rule_ops. cbn [fst snd]. fold idx. rewrite (bind_done _ _ db (allows, blocks) db) by (unfold running_result, running; by rewrite Hs).
    rewrite (bind_done _ _ db () db1) by exact E1. exact E2.
  - eapply quiet_trans; [exact Q1|]. eapply quiet_sub; [exact Q2|]. intros s Hn. by apply elem_of_nil in Hn.
  - done.
  - intros O. eapply group_iff; [|exact (G2 O)]. intros p. cbv beta. tauto.
  - eapply sets_hold_kept; [|exact S1]. intros s Hin. apply (q_sets _ _ _ _ Q2). by apply not_elem_of_nil.
Qed.

(** The indices of the rules. *)
Lemma elem_imap_pair (rules : list (NetworkPolicyRule sel)) ir : ir ∈ imap pair rules <-> rules !! ir.1 = Some ir.2.
Proof.
  destruct ir as [i rule]. rewrite list_elem_of_lookup. split.
  - intros [k Hk]. rewrite list_lookup_imap in Hk. destruct (rules !! k) as [r|] eqn:E; [|done]. cbn in *. by injection Hk as <- <-.
  - intros E. exists i. cbn in E. by rewrite list_lookup_imap, E.
Qed.

Lemma NoDup_imap_pair (rules : list (NetworkPolicyRule sel)) : NoDup (imap pair rules).
Proof.
  apply NoDup_alt. intros i k x Hi Hk. rewrite list_lookup_imap in Hi, Hk. destruct (rules !! i), (rules !! k); try done.
  cbn in *. injection Hi as <-. by injection Hk as ->.
Qed.

(** ** The rules for one protocol *)

Definition protocol_names (j : Job) (ingress : bool) (rules : list (NetworkPolicyRule sel)) (protocol : string) : list string :=
  match rules with
  | [] => set_names j ingress protocol "all"
  | _ => imap pair rules ≫= fun ir => set_names j ingress protocol (Itoa (Z.of_nat ir.1))
  end.

Definition protocol_allows (j : Job) (ingress : bool) (rules : list (NetworkPolicyRule sel)) (protocol : string) O p : Prop :=
  match rules with
  | [] => selector_allows (dir_acl ingress) (j_pgName j) (as_name j ingress "allow" protocol "all") (as_name j ingress "except" protocol "all") protocol p
  | _ => Exists (fun ir => rule_acls_allow j ingress protocol (Itoa (Z.of_nat ir.1)) ir.2 O p) (imap pair rules)
  end.

Definition protocol_sets (j : Job) (ingress : bool) (rules : list (NetworkPolicyRule sel)) (protocol : string) (db : NbDB) : Prop :=
  match rules with
  | [] => sets_hold j ingress protocol "all" [] db
  | _ => Forall (fun ir => sets_hold j ingress protocol (Itoa (Z.of_nat ir.1)) (sources j protocol ir.2).1 db) (imap pair rules)
  end.

Lemma Itoa_inj i k : Z.of_nat i < 2 ^ 63 -> Z.of_nat k < 2 ^ 63 -> Itoa (Z.of_nat i) = Itoa (Z.of_nat k) -> i = k.
Proof.
  intros Hi Hk E. pose proof (Atoi_Itoa (Z.of_nat i) ltac:(lia)) as E1. rewrite E, Atoi_Itoa in E1 by lia. injection E1. lia.
Qed.

Lemma elem_set_names j ingress protocol idx s : s ∈ set_names j ingress protocol idx <-> exists kind, set_kind kind /\ s = as_name j ingress kind protocol idx.
Proof.
  unfold set_names. rewrite !elem_of_cons, elem_of_nil. unfold set_kind. split.
  - intros [->|[->|[]]]; [by exists "allow"; split; [left|]|by exists "except"; split; [right|]].
  - intros (kind & [-> | ->] & ->); tauto.
Qed.

Lemma protocol_ops_adds j ingress rules protocol db : job_ok j -> named_job j -> world db -> is_Some (nb_pgs db !! j_pgName j) -> ip_protocol protocol ->
  Forall (readable j protocol) rules -> Z.of_nat (length rules) < 2 ^ 63 ->
  adds (dir_ids j ingress) (j_pgName j) (dir_acl ingress) (protocol_names j ingress rules protocol) (protocol_ops LabelSelectorAsSelector c j ingress rules protocol)
    (protocol_allows j ingress rules protocol) (protocol_sets j ingress rules protocol) db.
Proof.
  intros Hj Hnj Hw Hx Hp Hr Hlen. destruct rules as [|r0 rules0].
  - destruct (create_sets_ok j ingress protocol "all" [] db Hnj Hw Hp eq_refl) as (db1 & E1 & Q1 & S1).
    destruct (acl_ops_adds (dir_ids j ingress) (addr := addr) j ingress protocol "all" [] db1 Hj (q_world _ _ _ _ Q1)) as (ops & acls & db2 & E2 & Q2 & I2 & G2 & _);
      [by rewrite (q_rows _ _ _ _ Q1)|apply as_name_ok; [done|by left|done..]|apply as_name_ok; [done|by right|done..]|done|].
    exists ops, acls, db2. split_and!.
    + unfold protocol_ops. by rewrite (bind_done _ _ db () db1).
    + eapply quiet_trans; [exact Q1|]. eapply quiet_sub; [exact Q2|]. intros s Hn. by apply elem_of_nil in Hn.
    + done.
    + intros O. eapply group_iff; [|exact (G2 O)]. intros p. cbn. unfold ports_allow. tauto.
    + eapply sets_hold_kept; [|exact S1]. intros s Hin. apply (q_sets _ _ _ _ Q2). by apply not_elem_of_nil.
  - set (rules := r0 :: rules0) in *. unfold protocol_names, protocol_allows, protocol_sets, protocol_ops. fold rules. unfold rules at 1 3 5 7. rewrite Forall_forall in Hr.
    apply (gather_adds (dir_ids j ingress) (j_pgName j) (dir_acl ingress) (rule_ops LabelSelectorAsSelector c j ingress protocol) (fun ir => set_names j ingress protocol (Itoa (Z.of_nat ir.1)))
      (fun ir => rule_acls_allow j ingress protocol (Itoa (Z.of_nat ir.1)) ir.2) (fun ir => sets_hold j ingress protocol (Itoa (Z.of_nat ir.1)) (sources j protocol ir.2).1)); [done|done|apply NoDup_imap_pair|..].
    + intros [i rule] db1 Hin W1 X1. apply rule_ops_adds; try done. apply Hr. apply elem_imap_pair in Hin. by eapply list_elem_of_lookup_2.
    + intros ir db1 db2 E. by apply sets_hold_kept.
    + intros [i r] [k r'] s Hi Hk. apply elem_imap_pair in Hi, Hk. cbn [fst snd] in *. rewrite !elem_set_names. intros (kd & Hkd & ->) (kd' & Hkd' & E).
      apply as_name_inj in E as (_ & _ & _ & E); [|done..]. apply lookup_lt_Some in Hi as Li, Hk as Lk. apply Itoa_inj in E; [|lia|lia]. subst k.
      by rewrite Hi in Hk; injection Hk as ->.
Qed.

End Rules.

(** ** The transaction *)

Lemma DeleteAclsOps_same pg d ids db db' : nb_pgs db' = nb_pgs db -> nb_lss db' = nb_lss db ->
  DeleteAclsOps pg portGroupKey d ids db' = DeleteAclsOps pg portGroupKey d ids db.
Proof. intros E1 E2. unfold DeleteAclsOps, ListAcls, all_rows, find_parent, parents. by rewrite E1, E2. Qed.

Definition other_way (d : string) (acls : list ACL) : list ACL := filter (fun a => ~ (d = "" \/ acl_Direction a = d)) acls.

(** Clearing a direction and adding ACLs at once. *)
Lemma replace_direction pg d ops acls db : pg <> "" -> nb_ok db -> accepting db -> is_Some (nb_pgs db !! pg) ->
  inserts pg ops acls -> Forall (fun a => acl_Parent a = pg) acls ->
  exists aclOps db', DeleteAclsOps pg portGroupKey d ∅ db = Ok aclOps /\ Transact (aclOps ++ ops) db = Done (Ok (), db') /\
    changes portGroupKey pg (other_way d (acls_at portGroupKey pg db) ++ acls) db db'.
Proof.
  intros Hp Hok Ha Hx Hi Hpar. assert (Ht : parent_type portGroupKey) by (by left). pose proof Hx as [rows Hr].
  destruct (DeleteAclsOps_ok pg portGroupKey d ∅ rows db Hp Hok Ht Hr) as (aclOps & E & _ & Hops).
  destruct (DeleteAcls_changes pg portGroupKey d db Hp Hok Ht Ha Hx) as (db1 & E1 & C1). rewrite (DeleteAcls_ok pg portGroupKey d ∅ rows db) in E1 by done.
  injection E1 as E1. rewrite <-Hops in E1. exists aclOps, (apply_ops (aclOps ++ ops) db). split_and!; [done|by apply Transact_accepting|].
  rewrite (fold_left_app (fun d op => apply_op op d) aclOps ops db : apply_ops (aclOps ++ ops) db = apply_ops ops (apply_ops aclOps db)), E1.
  assert (Hx1 : is_Some (nb_pgs db1 !! pg)) by apply (ch_self _ _ _ _ _ C1). rewrite Hi by done.
  eapply changes_trans; [exact C1|]. unfold other_way. rewrite <-(ch_acls _ _ _ _ _ C1). apply add_changes; [apply (ch_ok _ _ _ _ _ C1)|done|done|done].
Qed.

(** The log flag of the default drop is already right. *)
Lemma SetNetPolACLLog_same pg log ingress db : pg <> "" ->
  (forall r, r ∈ all_rows db -> acl_Parent r.2 = pg -> acl_Direction r.2 = dir_acl ingress -> acl_Priority r.2 = 2000 -> acl_Log r.2 = log) ->
  logged (SetNetPolACLLog pg log ingress) db = Done (Ok (), db).
Proof.
  intros Hp Hrows. unfold logged, SetNetPolACLLog. fold (dir_acl ingress). set (m := ACLMatch_String _). set (f := fun d : NbDB => _).
  destruct (f db) as [[r|]|e] eqn:E.
  - rewrite (bind_done _ _ db (Some r) db) by (by apply reading_done). rewrite bool_decide_true; [done|]. unfold f, GetACL in E.
    rewrite bool_decide_false in E by done. change (Atoi_value IngressDefaultDrop) with 2000 in E.
    destruct (filter (fun r => has_key pg (dir_acl ingress) m 2000 NetpolACLTier r.2 = true) (all_rows db)) as [|r0 [|r' l]] eqn:El; [done| |done].
    injection E as ->. assert (Hin : r ∈ [r]) by by left. rewrite <-El in Hin.
    apply list_elem_of_filter in Hin as [Hk Hin]. apply has_key_iff in Hk; [|done]. unfold key_of in Hk. injection Hk as H1 H2 H3 _ _. by apply Hrows.
  - by rewrite (bind_done _ _ db None db) by (by apply reading_done).
  - unfold mbind at 2. unfold db_bind, reading. by rewrite E.
Qed.

(** ** Dropping address sets *)

Lemma DeleteAddressSet_ok name db : accepting db ->
  DeleteAddressSet [name] db = Done (Ok (), set_obj (set_o_sets (delete name (o_sets (nb_obj db))) (nb_obj db)) db).
Proof.
  intros Ha. unfold DeleteAddressSet. rewrite (bind_done _ _ db (existing_sets [name] db) db) by (by apply reading_done). unfold existing_sets.
  rewrite filter_cons, filter_nil. destruct (decide (is_Some (o_sets (nb_obj db) !! name))) as [Hs|Hs].
  - apply wrapping_done. by rewrite Transact_accepting.
  - rewrite delete_id; [by destruct db as [? ? ? [] ? ?]|]. by apply eq_None_not_Some.
Qed.

(** The sets [dead] of the policy are dropped. *)
Definition sets_dropped (dead : list string) (db db' : NbDB) : Prop :=
  forall s, o_sets (nb_obj db') !! s = if bool_decide (s ∈ dead) then None else o_sets (nb_obj db) !! s.

Lemma sets_dropped_quiet ids dead db o : world db -> o_pgs o = o_pgs (nb_obj db) -> o_lsps o = o_lsps (nb_obj db) -> sets_dropped dead db (set_obj o db) -> quiet ids dead db (set_obj o db).
Proof.
  intros Hw Hg Hl Hd. split; [by apply world_obj; [|rewrite Hg|]|done..| |].
  - intros s Hs. rewrite Hd. by rewrite bool_decide_false.
  - intros s x. rewrite Hd. case_bool_decide; [done|]. intros Hx. left. by exists x.
Qed.

Lemma delete_loop (P : string -> bool) l db : accepting db ->
  exists sets, for_each (fun name => if P name then DeleteAddressSet [name] else mret ()) l db =
      Done (Ok (), set_obj (set_o_sets sets (nb_obj db)) db) /\
    sets_dropped (filter (fun name => P name = true) l) db (set_obj (set_o_sets sets (nb_obj db)) db).
Proof.
  revert db. induction l as [|name l IH]; intros db Ha.
  - exists (o_sets (nb_obj db)). split; [by destruct db as [? ? ? [] ? ?]|]. intros s. by rewrite bool_decide_false by (apply not_elem_of_nil).
  - cbn [for_each]. rewrite filter_cons. destruct (P name) eqn:EP.
    + set (db1 := set_obj (set_o_sets (delete name (o_sets (nb_obj db))) (nb_obj db)) db).
      rewrite (bind_done _ _ db () db1) by (by apply DeleteAddressSet_ok). destruct (IH db1 Ha) as (sets & E & Hd). exists sets. split; [exact E|].
      rewrite decide_True by done. intros s. specialize (Hd s). cbn in *. rewrite Hd. destruct (decide (s = name)) as [->|Hne].
      * rewrite (bool_decide_true (name ∈ name :: _)) by (by left). rewrite lookup_delete_eq. by case_bool_decide.
      * rewrite lookup_delete_ne by done. assert (Ex : forall l' : list string, bool_decide (s ∈ name :: l') = bool_decide (s ∈ l'))
          by (intros l'; apply bool_decide_ext; rewrite elem_of_cons; naive_solver). by rewrite Ex.
    + rewrite (bind_done _ _ db () db) by done. rewrite decide_False by done. by apply IH.
Qed.

(** The sets of a direction of a policy. *)
Definition owned (j : Job) (ingress : bool) (db : NbDB) (name : string) : Prop :=
  exists s, o_sets (nb_obj db) !! name = Some s /\ as_ExternalIDs s !! networkPolicyKey = Some (j_namespace j +:+ "/" +:+ j_npName j +:+ "/" +:+ dir_word ingress).

Lemma elem_owned j ingress db name :
  name ∈ ListAddressSets (sets_id (j_namespace j) (j_npName j) (dir_word ingress)) db <-> owned j ingress db name.
Proof.
  unfold ListAddressSets, addressSetFilter, sets_id, owned. rewrite list_elem_of_fmap. set (v := j_namespace j +:+ _).
  assert (Hv : v <> "") by (unfold v; rewrite <-!app_str_assoc; apply app_str_not_nil; by destruct ingress). split.
  - intros ([k x] & -> & Hin). apply list_elem_of_filter in Hin as [Hm Hin]. apply elem_of_map_to_list in Hin. exists x. split; [done|].
    by apply ids_match_one in Hm.
  - intros (x & Hx & Hid). exists (name, x). split; [done|]. apply list_elem_of_filter. split; [by apply ids_match_one|by apply elem_of_map_to_list].
Qed.

Definition stale_sets (j : Job) (ingress : bool) (count : nat) (db : NbDB) : list string :=
  filter (fun name => is_stale count name = true) (ListAddressSets (sets_id (j_namespace j) (j_npName j) (dir_word ingress)) db).

Lemma delete_stale_ok ids j ingress count db : world db ->
  exists db', delete_stale j ingress count db = Done (Ok (), db') /\ quiet ids (stale_sets j ingress count db) db db' /\ sets_dropped (stale_sets j ingress count db) db db'.
Proof.
  intros Hw. unfold delete_stale, stale_sets. set (l := ListAddressSets (sets_id (j_namespace j) (j_npName j) (dir_word ingress)) db). rewrite (bind_done _ _ db l db) by (by apply reading_done).
  destruct (delete_loop (is_stale count) l db (w_accepting _ Hw)) as (sets & E & Hd). eexists. split; [exact E|]. split; [|exact Hd].
  by apply sets_dropped_quiet.
Qed.

Lemma DeleteAddressSets_ok ids j ingress db : world db ->
  exists db', DeleteAddressSets (sets_id (j_namespace j) (j_npName j) (dir_word ingress)) db = Done (Ok (), db') /\
    let dead := ListAddressSets (sets_id (j_namespace j) (j_npName j) (dir_word ingress)) db in quiet ids dead db db' /\ sets_dropped dead db db' /\ nb_meters db' = nb_meters db.
Proof.
  intros Hw. unfold DeleteAddressSets. rewrite bool_decide_false by apply map_non_empty_singleton. set (dead := ListAddressSets (sets_id (j_namespace j) (j_npName j) (dir_word ingress)) db).
  rewrite (bind_done _ _ db dead db) by (by apply reading_done).
  assert (Hdel : forall l (x : gmap string AddressSet) s, delete_all l x !! s = if bool_decide (s ∈ l) then None else x !! s).
  { intros l x s. induction l as [|n l IH]; [by rewrite bool_decide_false by (apply not_elem_of_nil)|].
    change (delete_all (n :: l) x) with (delete n (delete_all l x)). destruct (decide (s = n)) as [->|Hne].
    - by rewrite lookup_delete_eq, bool_decide_true by (by left).
    - rewrite lookup_delete_ne by done. rewrite IH. by rewrite (bool_decide_ext (s ∈ n :: l) (s ∈ l)) by (rewrite elem_of_cons; naive_solver). }
  set (db' := set_obj (set_o_sets (delete_all dead (o_sets (nb_obj db))) (nb_obj db)) db). exists db'. split.
  - destruct dead as [|n l] eqn:E.
    + unfold db'. cbn. destruct db as [? ? ? [] ? ?]. done.
    + apply wrapping_done. by rewrite Transact_accepting by apply (w_accepting _ Hw).
  - assert (Hd : sets_dropped dead db db') by (intros s; cbn; apply Hdel). split_and!; [by apply sets_dropped_quiet|done|done].
Qed.

(** ** Replacing the rules *)

Section Direction.

Context {addr sel : Type} (LabelSelectorAsSelector : sel -> result (gmap string string -> bool)) `{Multus} (c : NpCluster sel).

Implicit Types (rules : list (NetworkPolicyRule sel)) (O : Ovn addr).

Definition all_names (j : Job) (ingress : bool) rules (protocols : list string) : list string := protocols ≫= protocol_names j ingress rules.

Lemma elem_protocol_names j ingress rules protocol s : s ∈ protocol_names j ingress rules protocol ->
  exists kind idx, set_kind kind /\ s = as_name j ingress kind protocol idx /\ (idx = "all" \/ exists i, (i < length rules)%nat /\ idx = Itoa (Z.of_nat i)).
Proof.
  unfold protocol_names. destruct rules as [|r0 rules0].
  - rewrite elem_set_names. intros (kind & Hk & ->). exists kind, "all". split_and!; [done|done|by left].
  - set (rules := r0 :: rules0). rewrite list_elem_of_bind. intros ([i r] & Hs & Hin). apply elem_imap_pair in Hin. cbn [fst snd] in *. apply lookup_lt_Some in Hin.
    apply elem_set_names in Hs as (kind & Hk & ->). exists kind, (Itoa (Z.of_nat i)). split_and!; [done|done|right]. by exists i.
Qed.

Lemma protocol_sets_kept j ingress rules protocol db db' :
  (forall s, s ∈ protocol_names j ingress rules protocol -> o_sets (nb_obj db') !! s = o_sets (nb_obj db) !! s) ->
  protocol_sets LabelSelectorAsSelector c j ingress rules protocol db -> protocol_sets LabelSelectorAsSelector c j ingress rules protocol db'.
Proof.
  unfold protocol_names, protocol_sets. destruct rules as [|r0 rules0]; intros E; [by apply sets_hold_kept|]. rewrite !Forall_forall. intros Hall ir Hin.
  eapply sets_hold_kept; [|by apply Hall]. intros s Hs. apply E. apply list_elem_of_bind. by exists ir.
Qed.

Lemma rules_adds j ingress rules protocols db : job_ok j -> named_job j -> world db -> is_Some (nb_pgs db !! j_pgName j) -> NoDup protocols ->
  Forall ip_protocol protocols -> Forall (fun protocol => Forall (readable LabelSelectorAsSelector c j protocol) rules) protocols -> Z.of_nat (length rules) < 2 ^ 63 ->
  adds (addr := addr) (dir_ids j ingress) (j_pgName j) (dir_acl ingress) (all_names j ingress rules protocols) (gather (protocol_ops LabelSelectorAsSelector c j ingress rules) protocols)
    (fun O p => Exists (fun protocol => protocol_allows LabelSelectorAsSelector c j ingress rules protocol O p) protocols)
    (fun db' => Forall (fun protocol => protocol_sets LabelSelectorAsSelector c j ingress rules protocol db') protocols) db.
Proof.
  intros Hj Hnj Hw Hx Hnd Hip Hr Hlen. rewrite Forall_forall in Hip, Hr.
  apply (gather_adds (dir_ids j ingress) (j_pgName j) (dir_acl ingress) (protocol_ops LabelSelectorAsSelector c j ingress rules) (protocol_names j ingress rules)
    (protocol_allows LabelSelectorAsSelector c j ingress rules) (protocol_sets LabelSelectorAsSelector c j ingress rules)); [done..| | |].
  - intros protocol db1 Hin W1 X1. apply protocol_ops_adds; try done; [by apply Hip|by apply Hr].
  - intros protocol db1 db2 E. by apply protocol_sets_kept.
  - intros p1 p2 s H1 H2 Hs1 Hs2. apply elem_protocol_names in Hs1 as (k1 & i1 & Hk1 & -> & _), Hs2 as (k2 & i2 & Hk2 & E & _).
    apply as_name_inj in E as (_ & _ & E & _); [done|done|done|by apply Hip|by apply Hip].
Qed.

(** Without a protocol there is no default drop. *)
Lemma default_part j ingress (protocols : list string) db : job_ok j -> world db -> is_Some (nb_pgs db !! j_pgName j) ->
  exists ops drops allows db', (match protocols with [] => mret [] | _ => default_ops j ingress end) db = Done (Ok ops, db') /\
    quiet (dir_ids j ingress) [] db db' /\ inserts (j_pgName j) ops (drops ++ allows) /\ Forall (fun a => acl_Log a = j_log j) drops /\
    forall O : Ovn addr,
      group_of (j_pgName j) (dir_acl ingress) ACLActionDrop 2000 drops (fun p => protocols <> [] /\ member (dir_acl ingress) (j_pgName j) p /\ blocked (j_lax j) p) /\
      group_of (j_pgName j) (dir_acl ingress) ACLActionAllowRelated 2001 allows (fun p => protocols <> [] /\ j_lax j = true /\ dhcp_packet (dir_acl ingress) (j_pgName j) p).
Proof.
  intros Hj Hw Hx. destruct protocols as [|p0 protocols].
  - exists [], [], [], db. split_and!; [done|by apply quiet_refl|apply inserts_nil|done|]. intros O. split; apply group_nil; by intros p [? _].
  - destruct (default_ops_adds (addr := addr) (dir_ids j ingress) j ingress db Hj Hw Hx) as (ops & block & exceptions & db' & E & Q & I & L & G).
    exists ops, [block], exceptions, db'. split_and!; [done|done|done|by repeat constructor|]. intros O. destruct (G O) as [G1 G2].
    split; (eapply group_iff; [|eassumption]); intros p; cbv beta; naive_solver.
Qed.

Lemma group_parent O pg d action priority acls Q : group_of pg d action priority acls Q -> Forall (fun a => acl_Parent a = pg /\ acl_Direction a = d /\ acl_Priority a = priority) acls.
Proof. intros [Hc _]. eapply Forall_impl; [exact Hc|]. intros a [m Hm]. unfold core in Hm. by injection Hm as _ -> _ -> -> _. Qed.

(** The new default drop already has the log flag. *)
Lemma direction_log j ingress db old drops allows : job_ok j -> world db -> is_Some (nb_pgs db !! j_pgName j) ->
  acls_at portGroupKey (j_pgName j) db = other_way (dir_acl ingress) old ++ drops ++ allows ->
  Forall (fun a => acl_Log a = j_log j) drops -> Forall (fun a => acl_Priority a = 2001) allows ->
  logged (SetNetPolACLLog (j_pgName j) (j_log j) ingress) db = Done (Ok (), db).
Proof.
  intros Hj Hw Hx Hacls Hl Ha. apply SetNetPolACLLog_same; [by apply pg_nonempty|]. intros r Hin Hpr Hd H2000. rewrite Forall_forall in Hl, Ha.
  pose proof (rows_with_parent db portGroupKey (j_pgName j) r (w_ok _ Hw) ltac:(by left) Hx Hin Hpr) as Hrow.
  assert (Hr : r.2 ∈ acls_at portGroupKey (j_pgName j) db) by (apply list_elem_of_fmap; by exists r). rewrite Hacls, !elem_of_app in Hr.
  destruct Hr as [Hr|[Hr|Hr]]; [|by apply Hl|specialize (Ha _ Hr); cbn in Ha; lia].
  unfold other_way in Hr. apply list_elem_of_filter in Hr as [Hno _]. destruct Hno. by right.
Qed.

(** What the calls of one direction leave. *)
Record direction_done (j : Job) (ingress : bool) (names : list string) (drops allows : list ACL) (db db' : NbDB) : Prop := {
  dd_world : world db';
  dd_self : is_Some (nb_pgs db' !! j_pgName j);
  dd_acls : acls_at portGroupKey (j_pgName j) db' = other_way (dir_acl ingress) (acls_at portGroupKey (j_pgName j) db) ++ drops ++ allows;
  dd_rows : forall p, p <> j_pgName j -> nb_pgs db' !! p = nb_pgs db !! p;
  dd_groups : o_pgs (nb_obj db') = o_pgs (nb_obj db);
  dd_lss : nb_lss db' = nb_lss db;
  dd_lsps : o_lsps (nb_obj db') = o_lsps (nb_obj db);
  dd_sets : forall s, s ∉ names -> ~ owned j ingress db s -> o_sets (nb_obj db') !! s = o_sets (nb_obj db) !! s;
  dd_ids : forall s x', o_sets (nb_obj db') !! s = Some x' ->
    (exists x, o_sets (nb_obj db) !! s = Some x /\ as_ExternalIDs x' = as_ExternalIDs x) \/ as_ExternalIDs x' = dir_ids j ingress
}.

(** Clearing a direction. *)
Lemma clear_rules_ok j ingress db : job_ok j -> world db -> is_Some (nb_pgs db !! j_pgName j) ->
  exists db', clear_rules j ingress db = Done (Ok (), db') /\ direction_done j ingress [] [] [] db db' /\
    forall s, owned j ingress db s -> o_sets (nb_obj db') !! s = None.
Proof.
  intros Hj Hw Hx. pose proof (pg_nonempty j Hj) as Hp. pose proof Hw as [Hok Ha _ _].
  destruct (replace_direction (j_pgName j) (dir_acl ingress) [] [] db Hp Hok Ha Hx (inserts_nil _) ltac:(done)) as (aclOps & db0 & E0 & _ & _).
  destruct (DeleteAcls_changes (j_pgName j) portGroupKey (dir_acl ingress) db Hp Hok ltac:(by left) Ha Hx) as (db1 & E1 & C1).
  destruct (changes_world _ _ [] _ _ Hw Hx C1) as (W1 & F1 & S1 & G1).
  destruct (DeleteAddressSets_ok (dir_ids j ingress) j ingress db1 W1) as (db2 & E2 & Q2 & D2 & _). exists db2. split_and!.
  - unfold clear_rules. rewrite (bind_done _ _ db aclOps db) by (by apply reading_done). by rewrite (bind_done _ _ db () db1).
  - assert (Ho : forall s, owned j ingress db1 s <-> owned j ingress db s) by (intros s; unfold owned; by rewrite S1).
    split; [apply Q2|rewrite (q_rows _ _ _ _ Q2); apply (ch_self _ _ _ _ _ C1)| |..].
    + unfold acls_at, rows_at, parents. rewrite (q_rows _ _ _ _ Q2). rewrite app_nil_r. apply (ch_acls _ _ _ _ _ C1).
    + intros p Hne. rewrite (q_rows _ _ _ _ Q2). by apply (fr_rows _ _ _ _ F1).
    + by rewrite (q_groups _ _ _ _ Q2).
    + rewrite (q_lss _ _ _ _ Q2). apply (fr_lss _ _ _ _ F1).
    + rewrite (q_lsps _ _ _ _ Q2). apply (fr_lsps _ _ _ _ F1).
    + intros s _ Hno. rewrite D2, S1. rewrite bool_decide_false; [done|]. by rewrite elem_owned, Ho.
    + intros s x' Hx'. destruct (q_ids _ _ _ _ Q2 s x' Hx') as [(x & Hs & E)|E]; [left|by right]. exists x. by rewrite <-S1.
  - intros s (x & Hs & Hid). rewrite D2. rewrite bool_decide_true; [done|]. rewrite elem_owned. exists x. by rewrite S1.
Qed.

Lemma update_rules_ok j ingress rules protocols db : job_ok j -> named_job j -> world db -> is_Some (nb_pgs db !! j_pgName j) -> NoDup protocols ->
  Forall ip_protocol protocols -> Forall (fun protocol => Forall (readable LabelSelectorAsSelector c j protocol) rules) protocols -> Z.of_nat (length rules) < 2 ^ 63 ->
  exists db' drops allows, update_rules LabelSelectorAsSelector c j ingress rules protocols db = Done (Ok (), db') /\
    direction_done j ingress (all_names j ingress rules protocols) drops allows db db' /\
    Forall (fun protocol => protocol_sets LabelSelectorAsSelector c j ingress rules protocol db') protocols /\
    forall O : Ovn addr,
      group_of (j_pgName j) (dir_acl ingress) ACLActionDrop 2000 drops (fun p => protocols <> [] /\ member (dir_acl ingress) (j_pgName j) p /\ blocked (j_lax j) p) /\
      group_of (j_pgName j) (dir_acl ingress) ACLActionAllowRelated 2001 allows
        (fun p => (protocols <> [] /\ j_lax j = true /\ dhcp_packet (dir_acl ingress) (j_pgName j) p) \/
           Exists (fun protocol => protocol_allows LabelSelectorAsSelector c j ingress rules protocol O p) protocols).
Proof.
  intros Hj Hnj Hw Hx Hnd Hip Hr Hlen. pose proof (pg_nonempty j Hj) as Hp.
  destruct (default_part j ingress protocols db Hj Hw Hx) as (bops & drops & allows0 & db1 & E1 & Q1 & I1 & L1 & G1).
  assert (X1 : is_Some (nb_pgs db1 !! j_pgName j)) by (by rewrite (q_rows _ _ _ _ Q1)).
  destruct (rules_adds j ingress rules protocols db1 Hj Hnj (q_world _ _ _ _ Q1) X1 Hnd Hip Hr Hlen) as (rops & allows1 & db2 & E2 & Q2 & I2 & G2 & S2).
  assert (Hpar : Forall (fun a => acl_Parent a = j_pgName j) ((drops ++ allows0) ++ allows1)).
  { rewrite !Forall_app. split_and!; [destruct (G1 no_ovn) as [G _]|destruct (G1 no_ovn) as [_ G]|pose proof (G2 no_ovn) as G];
      (eapply Forall_impl; [exact (group_parent _ _ _ _ _ _ _ G)|]; by intros a [? _]). }
  assert (Q12 : quiet (dir_ids j ingress) (all_names j ingress rules protocols) db db2)
    by (eapply quiet_trans; [eapply quiet_sub; [exact Q1|]; intros s Hs; by apply elem_of_nil in Hs|exact Q2]).
  assert (X2 : is_Some (nb_pgs db2 !! j_pgName j)) by (by rewrite (q_rows _ _ _ _ Q2)).
  pose proof (q_world _ _ _ _ Q2) as W2. pose proof W2 as [Hok2 Ha2 _ _].
  destruct (replace_direction (j_pgName j) (dir_acl ingress) (bops ++ rops) ((drops ++ allows0) ++ allows1) db2 Hp Hok2 Ha2 X2 (inserts_app _ _ _ _ _ I1 I2) Hpar)
    as (aclOps & db3 & E0 & E3 & C3).
  rewrite (DeleteAclsOps_same _ _ _ db db2 (q_rows _ _ _ _ Q12) (q_lss _ _ _ _ Q12)) in E0.
  destruct (changes_world _ _ [] _ _ W2 X2 C3) as (W3 & F3 & S3 & P3).
  assert (Hacls : acls_at portGroupKey (j_pgName j) db3 = other_way (dir_acl ingress) (acls_at portGroupKey (j_pgName j) db) ++ drops ++ allows0 ++ allows1).
  { rewrite (ch_acls _ _ _ _ _ C3), <-app_assoc. unfold acls_at, rows_at, parents. by rewrite (q_rows _ _ _ _ Q12). }
  destruct (delete_stale_ok (dir_ids j ingress) j ingress (length rules) db3 W3) as (db4 & E4 & Q4 & D4).
  assert (Hlog : logged (SetNetPolACLLog (j_pgName j) (j_log j) ingress) db3 = Done (Ok (), db3)).
  { eapply (direction_log j ingress db3 _ drops (allows0 ++ allows1)); [done|exact W3|apply (ch_self _ _ _ _ _ C3)|exact Hacls|exact L1|].
    destruct (G1 no_ovn) as [_ G]. apply Forall_app. split; (eapply Forall_impl; [eapply group_parent; [exact G || exact (G2 no_ovn)]|]; by intros a (_ & _ & ?)). }
  exists db4, drops, (allows0 ++ allows1). split_and!.
  - unfold update_rules. rewrite (bind_done _ _ db aclOps db) by (by apply reading_done). rewrite (bind_done _ _ db bops db1) by exact E1.
    rewrite (bind_done _ _ db1 rops db2) by exact E2. rewrite (bind_done _ _ db2 () db3) by (by apply wrapping_done). by rewrite (bind_done _ _ db3 () db3).
  - assert (Hst : forall s, s ∈ stale_sets j ingress (length rules) db3 -> owned j ingress db3 s)
      by (intros s Hs; apply list_elem_of_filter in Hs as [_ Hs]; by apply elem_owned).
    split; [apply Q4|rewrite (q_rows _ _ _ _ Q4); apply (ch_self _ _ _ _ _ C3)| |..].
    + rewrite <-Hacls. unfold acls_at, rows_at, parents. by rewrite (q_rows _ _ _ _ Q4).
    + intros p Hne. rewrite (q_rows _ _ _ _ Q4), (fr_rows _ _ _ _ F3), (q_rows _ _ _ _ Q12) by done. done.
    + by rewrite (q_groups _ _ _ _ Q4), P3, (q_groups _ _ _ _ Q12).
    + by rewrite (q_lss _ _ _ _ Q4), (fr_lss _ _ _ _ F3), (q_lss _ _ _ _ Q12).
    + by rewrite (q_lsps _ _ _ _ Q4), (fr_lsps _ _ _ _ F3), (q_lsps _ _ _ _ Q12).
    + intros s Hs Hno. assert (Es : o_sets (nb_obj db3) !! s = o_sets (nb_obj db) !! s) by (by rewrite S3, (q_sets _ _ _ _ Q12)).
      rewrite (q_sets _ _ _ _ Q4); [done|]. intros Hd. apply Hno. destruct (Hst s Hd) as (x & Hx' & Hid). exists x. by rewrite <-Es.
    + intros s x' Hx'. destruct (q_ids _ _ _ _ Q4 s x' Hx') as [(x & H1 & Ei)|Ei]; [|by right]. rewrite Ei. apply (q_ids _ _ _ _ Q12). by rewrite <-S3.
  - rewrite Forall_forall in *. intros protocol Hin. eapply protocol_sets_kept; [|by apply S2]. intros s Hs. rewrite D4, S3. rewrite bool_decide_false; [done|].
    unfold stale_sets. rewrite list_elem_of_filter. intros [Hst _]. apply elem_protocol_names in Hs as (kind & idx & _ & -> & [->|(i & Hi & ->)]).
    + by rewrite kept_all in Hst.
    + rewrite kept_index in Hst by lia. apply Nat.leb_le in Hst. lia.
  - intros O. destruct (G1 O) as [Gd Ga]. split; [exact Gd|]. apply group_app; [exact Ga|exact (G2 O)].
Qed.

End Direction.
