(* ===== verification/NpHandler.v ===== *)
(** * The handler of a network policy

    [handleUpdateNp] as a whole: the members of the port group, the ACLs of both
    directions and of the gateway, and what they decide about packets with the
    port group and the address sets that the handler leaves. *)
From Stdlib Require Import Ascii.
From S2P Require Import Prelude GoStrings GoNet GoNetText UtilNet Validator GoText PodAddress AclMatch NbDb NbDhcp NbLsp NbGroups NbAcl NbAclFacts NbDhcpFacts NbLspFacts NbWorld PolicyAcl AclMeaning PolicyFacts PolicyVerdict SgTable LsAcl PodNets NamedPort NetworkPolicy NetworkPolicyFacts NpDirection.

Local Open Scope Z_scope.

(** ** The ACLs of the gateway *)

Definition gateway_acls (pg : string) : list ACL :=
  [after_lb (bare_acl pg ACLDirectionFromLport EgressAllowPriority "icmp6" ACLActionAllowStateless NetpolACLTier);
   bare_acl pg ACLDirectionToLport IngressAllowPriority "icmp6" ACLActionAllowStateless NetpolACLTier].

Lemma newACL_other pg d pr action tier (f : ACL -> ACL) db : world db -> is_Some (nb_pgs db !! pg) -> pg <> "" -> real_direction d -> pr <> "" -> action <> "" ->
  Forall (fun a => acl_Match a <> "icmp6") (acls_at portGroupKey pg db) ->
  newACL pg d pr "icmp6" action tier f db = Ok (Some (f (bare_acl pg d pr "icmp6" action tier))).
Proof.
  intros Hw Hx Hp Hd Hpr Ha Hall. apply newACL_fresh; [done|by destruct Hd as [-> | ->]|done..|]. rewrite Exists_exists. intros (r & Hr & Hk).
  unfold key_of in Hk. injection Hk as Hpar _ _ Hm _. rewrite Forall_forall in Hall. apply (Hall r.2); [|done].
  apply list_elem_of_fmap. exists r. split; [done|]. apply (rows_with_parent db portGroupKey pg r (w_ok _ Hw)); [by left|done|done|done].
Qed.

Lemma CreateGatewayACL_changes pg db : world db -> is_Some (nb_pgs db !! pg) -> pg <> "" -> Forall (fun a => acl_Match a <> "icmp6") (acls_at portGroupKey pg db) ->
  exists db', CreateGatewayACL "" pg db = Done (Ok (), db') /\ changes portGroupKey pg (acls_at portGroupKey pg db ++ gateway_acls pg) db db'.
Proof.
  intros Hw Hx Hp Hall. destruct (CreateAcls_changes pg portGroupKey (Some <$> gateway_acls pg) db (w_ok _ Hw)) as (db' & E & C);
    [by left|apply (w_accepting _ Hw)|done|rewrite omap_Some; unfold gateway_acls; repeat constructor; apply bare_parent|].
  rewrite omap_Some in C. exists db'. split; [|done]. unfold CreateGatewayACL. rewrite (bool_decide_false (pg = "")) by done. cbn [andb].
  rewrite (bind_done _ _ db (Some (after_lb (bare_acl pg ACLDirectionFromLport EgressAllowPriority "icmp6" ACLActionAllowStateless NetpolACLTier))) db).
  2:{ apply reading_done. by rewrite newACL_other by (done || by right). }
  rewrite (bind_done _ _ db (Some (bare_acl pg ACLDirectionToLport IngressAllowPriority "icmp6" ACLActionAllowStateless NetpolACLTier)) db).
  2:{ apply reading_done. by rewrite newACL_other by (done || by left). }
  by apply wrapping_done.
Qed.

(** ** Drops under allows *)

Section Split.

Context {addr : Type} `{Ovn addr}.
Implicit Types p : packet addr.

Definition passes (acls : list ACL) p : Prop := verdict acls ACLActionAllowRelated p \/ verdict acls ACLActionAllowStateless p.

Lemma verdict_split drops allows low high p : low < high ->
  Forall (fun a => acl_Action a = ACLActionDrop /\ acl_Priority a = low) drops ->
  Forall (fun a => (acl_Action a = ACLActionAllowRelated \/ acl_Action a = ACLActionAllowStateless) /\ acl_Priority a = high) allows ->
  (passes (drops ++ allows) p <-> Exists (fun a => text_matches p (acl_Match a)) allows) /\
  (verdict (drops ++ allows) ACLActionDrop p <->
     Exists (fun a => text_matches p (acl_Match a)) drops /\ ~ Exists (fun a => text_matches p (acl_Match a)) allows).
Proof.
  intros Hlt Hd Ha. rewrite Forall_forall in Hd, Ha. rewrite !Exists_exists. unfold passes, verdict, decides. setoid_rewrite elem_of_app. split; split.
  - intros [(a & ([Hin|Hin] & Hm & _) & Hac)|(a & ([Hin|Hin] & Hm & _) & Hac)]; try (by exists a); destruct (Hd a Hin) as [Ea _]; by rewrite Ea in Hac.
  - intros (a & Hin & Hm). destruct (Ha a Hin) as [Hac Hpr].
    assert (Hmax : forall b, b ∈ drops \/ b ∈ allows -> text_matches p (acl_Match b) -> acl_Priority b <= acl_Priority a)
      by (intros b [Hb|Hb] _; [destruct (Hd b Hb)|destruct (Ha b Hb)]; lia).
    destruct Hac as [Hac|Hac]; [left|right]; exists a; split_and!; try done; by right.
  - intros (a & ([Hin|Hin] & Hm & Hmax) & Hac).
    + split; [by exists a|]. intros (b & Hb & Hmb). specialize (Hmax b (or_intror Hb) Hmb). destruct (Hd a Hin), (Ha b Hb). lia.
    + destruct (Ha a Hin) as [[Ea|Ea] _]; by rewrite Ea in Hac.
  - intros [(a & Hin & Hm) Hno]. destruct (Hd a Hin) as [Ea Hpr]. exists a. split_and!; [by left|done| |done].
    intros b [Hb|Hb] Hmb; [destruct (Hd b Hb); lia|]. destruct Hno. by exists b.
Qed.

Lemma icmp6_matches p : text_matches p "icmp6" <-> pk_proto p = "icmp6".
Proof.
  change "icmp6" with (ACLMatch_String (NewACLMatch "icmp6" "" "" "")) at 1. rewrite text_meaning by done.
  unfold NewACLMatch. rewrite flag_meaning by done. unfold flag.
  rewrite (bool_decide_false ("icmp6" = "ip")), (bool_decide_false ("icmp6" = "ip4")), (bool_decide_false ("icmp6" = "ip6")) by done. cbn [orb].
  by rewrite bool_decide_eq_true.
Qed.

End Split.

(** ** Reading the database *)

(** Port groups and address sets as the database has them. *)
Definition ovn_of {addr} (th : string -> addr -> bool) (db : NbDB) : Ovn addr := {|
  group_has pg port := match o_pgs (nb_obj db) !! pg, o_lsps (nb_obj db) !! port with
                       | Some g, Some l => bool_decide (lsp_UUID l ∈ pg_Ports g)
                       | _, _ => false
                       end;
  set_has name a := match o_sets (nb_obj db) !! name with Some s => existsb (fun t => th t a) (elements (as_Addresses s)) | None => false end;
  text_has := th
|}.

Lemma set_is_has {addr} (th : string -> addr -> bool) name l db a : set_is name l db ->
  set_has (Ovn := ovn_of th db) name a = true <-> Exists (fun t => th (normalize t) a = true) l.
Proof.
  intros (s & Hs & Ha). unfold set_has, ovn_of. rewrite Hs, existsb_exists, Exists_exists. setoid_rewrite <-list_elem_of_In. setoid_rewrite elem_of_elements.
  rewrite Ha. unfold normalizeAddresses. setoid_rewrite elem_of_list_to_set. setoid_rewrite list_elem_of_fmap. split.
  - intros (x & (t & -> & Ht) & Hx). by exists t.
  - intros (t & Ht & Hx). exists (normalize t). split; [by exists t|done].
Qed.

(** The UUIDs of the ports that exist. *)
Lemma port_uuids_names names db : Forall (fun n => n <> "") names ->
  exists e, port_uuids names db = Ok e /\ forall u, u ∈ e <-> exists n l, n ∈ names /\ o_lsps (nb_obj db) !! n = Some l /\ lsp_UUID l = u.
Proof.
  intros Hn. unfold port_uuids. rewrite (collect_ok _ (fun n => o_lsps (nb_obj db) !! n) names).
  2:{ eapply Forall_impl; [exact Hn|]. intros n Hne. unfold GetLogicalSwitchPort. rewrite bool_decide_false by done. by destruct (o_lsps (nb_obj db) !! n). }
  eexists. split; [done|]. intros u. rewrite elem_of_list_to_set, list_elem_of_fmap. setoid_rewrite list_elem_of_omap. setoid_rewrite list_elem_of_fmap. split.
  - intros (l & -> & (o & (n & -> & Hin) & Hl)). by exists n, l.
  - intros (n & l & Hin & Hl & <-). exists l. split; [done|]. exists (Some l). split; [by exists n|done].
Qed.

(** ** What a policy lets pass *)

Section Handler.

Context {addr sel : Type} `{Inhabited addr} (LabelSelectorAsSelector : sel -> result (gmap string string -> bool)) `{Multus} (c : NpCluster sel) (th : string -> addr -> bool).

Implicit Types (np : NetworkPolicy sel) (rules : list (NetworkPolicyRule sel)) (p : packet addr).

Definition texts_only : Ovn addr := {| group_has _ _ := false; set_has _ _ := false; text_has := th |}.

(** The end of the packet that is a port of this cluster, and the other end. *)
Definition endpoint (ingress : bool) p : string := if ingress then pk_outport p else pk_inport p.
Definition remote (ingress : bool) p : addr := if ingress then pk_src p else pk_dst p.

(** The port is one of the selected ports, and exists. *)
Definition selected (ports : list string) (db : NbDB) (ingress : bool) p : Prop :=
  endpoint ingress p ∈ ports /\ is_Some (o_lsps (nb_obj db) !! endpoint ingress p).

Definition rule_lets (j : Job) (ingress : bool) (protocol : string) (rule : NetworkPolicyRule sel) p : Prop :=
  pk_family p = ip_suffix protocol /\
  (Exists (fun t => th (normalize t) (remote ingress p) = true) (sources LabelSelectorAsSelector c j protocol rule).1 \/
   Exists (block_allows (H := texts_only) protocol (remote ingress p)) (sources LabelSelectorAsSelector c j protocol rule).2) /\
  ports_allow (j_named j) (rule_Ports rule) p.

(** DHCP of either family, to the workload or from it. *)
Definition dhcp_exchange (ingress : bool) p : Prop :=
  pk_proto p = "udp" /\
  let '(from, to) := if ingress then (pk_sport p, pk_dport p) else (pk_dport p, pk_sport p) in
  (pk_family p = "ip6" /\ from = 547 /\ to = 546) \/ (pk_family p = "ip4" /\ from = 67 /\ to = 68).

Definition rules_let (j : Job) (ingress : bool) rules (protocols : list string) p : Prop :=
  (j_lax j = true /\ dhcp_exchange ingress p) \/
  Exists (fun protocol => Exists (fun rule => rule_lets j ingress protocol rule p) rules) protocols.

(** The port group has the selected ports. *)
Definition group_of_ports (pg : string) (ports : list string) (db : NbDB) : Prop :=
  forall port, group_has (Ovn := ovn_of th db) pg port = true <-> port ∈ ports /\ is_Some (o_lsps (nb_obj db) !! port).

Lemma member_selected j ingress ports db p : group_of_ports (j_pgName j) ports db ->
  member (H := ovn_of th db) (dir_acl ingress) (j_pgName j) p <-> selected ports db ingress p.
Proof. intros Hg. unfold member, selected. destruct ingress; apply Hg. Qed.

Lemma rule_acls_lets j ingress ports protocol i rule db p : group_of_ports (j_pgName j) ports db ->
  sets_hold j ingress protocol (Itoa (Z.of_nat i)) (sources LabelSelectorAsSelector c j protocol rule).1 db ->
  rule_acls_allow LabelSelectorAsSelector c j ingress protocol (Itoa (Z.of_nat i)) rule (ovn_of th db) p <->
  selected ports db ingress p /\ rule_lets j ingress protocol rule p.
Proof.
  intros Hg [Ha He]. unfold rule_acls_allow, rule_lets, selector_allows, blocks_allow. rewrite !(member_selected j ingress ports db p Hg).
  assert (Er : peer (dir_acl ingress) p = remote ingress p) by (by destruct ingress). rewrite !Er, (set_is_has th _ _ _ _ Ha).
  assert (Hex : set_has (Ovn := ovn_of th db) (as_name j ingress "except" protocol (Itoa (Z.of_nat i))) (remote ingress p) = false).
  { apply not_true_is_false. rewrite (set_is_has th _ _ _ _ He). by intros ?%Exists_nil. }
  rewrite Hex. change (block_allows (H := ovn_of th db)) with (block_allows (H := texts_only)).
  destruct (sources LabelSelectorAsSelector c j protocol rule) as [[|a l] blocks]; cbn [fst snd]; rewrite ?Exists_nil; naive_solver.
Qed.

Lemma protocol_lets j ingress ports rules protocol db p : group_of_ports (j_pgName j) ports db ->
  protocol_sets LabelSelectorAsSelector c j ingress rules protocol db ->
  protocol_allows LabelSelectorAsSelector c j ingress rules protocol (ovn_of th db) p <->
  selected ports db ingress p /\ Exists (fun rule => rule_lets j ingress protocol rule p) rules.
Proof.
  intros Hg Hs. unfold protocol_allows, protocol_sets in *. destruct rules as [|r0 rules0].
  - destruct Hs as [Ha _]. rewrite Exists_nil. unfold selector_allows. rewrite (set_is_has th _ _ _ _ Ha), Exists_nil. tauto.
  - set (rules := r0 :: rules0) in *. rewrite Forall_forall in Hs. rewrite !Exists_exists. split.
    + intros ([i rule] & Hin & Hl). apply (rule_acls_lets j ingress ports protocol i rule db p Hg (Hs _ Hin)) in Hl as [? ?]. split; [done|]. exists rule. split; [|done].
      apply elem_imap_pair in Hin. by eapply list_elem_of_lookup_2.
    + intros [Hsel (rule & Hin & Hl)]. apply list_elem_of_lookup in Hin as [i Hi]. assert (Hin : (i, rule) ∈ imap pair rules) by (by apply elem_imap_pair).
      exists (i, rule). split; [done|]. by apply (rule_acls_lets j ingress ports protocol i rule db p Hg (Hs _ Hin)).
Qed.

(** The groups of one direction, read in the database. *)
Lemma direction_lets j ingress ports rules protocols db p : group_of_ports (j_pgName j) ports db -> (ports <> [] -> protocols <> []) ->
  Forall (fun protocol => protocol_sets LabelSelectorAsSelector c j ingress rules protocol db) protocols ->
  ((protocols <> [] /\ j_lax j = true /\ dhcp_packet (H := ovn_of th db) (dir_acl ingress) (j_pgName j) p) \/
     Exists (fun protocol => protocol_allows LabelSelectorAsSelector c j ingress rules protocol (ovn_of th db) p) protocols <->
   selected ports db ingress p /\ rules_let j ingress rules protocols p) /\
  (protocols <> [] /\ member (H := ovn_of th db) (dir_acl ingress) (j_pgName j) p /\ blocked (j_lax j) p <-> selected ports db ingress p /\ blocked (j_lax j) p).
Proof.
  intros Hg Hne Hs. assert (Hsel : selected ports db ingress p -> protocols <> []) by (intros [Hin _]; apply Hne; intros ->; by apply elem_of_nil in Hin).
  split; [|rewrite (member_selected j ingress ports db p Hg); tauto].
  assert (Hd : dhcp_packet (H := ovn_of th db) (dir_acl ingress) (j_pgName j) p <-> selected ports db ingress p /\ dhcp_exchange ingress p)
    by (unfold dhcp_packet, dhcp_exchange; rewrite (member_selected j ingress ports db p Hg); destruct ingress;
        [change (egress (dir_acl true)) with false|change (egress (dir_acl false)) with true]; tauto).
  assert (Hx : Exists (fun protocol => protocol_allows LabelSelectorAsSelector c j ingress rules protocol (ovn_of th db) p) protocols <->
    selected ports db ingress p /\ Exists (fun protocol => Exists (fun rule => rule_lets j ingress protocol rule p) rules) protocols).
  { clear -Hg Hs. induction Hs as [|protocol protocols Hp _ IH]; [rewrite !Exists_nil; tauto|].
    rewrite !Exists_cons, IH, (protocol_lets j ingress ports rules protocol db p Hg Hp). tauto. }
  rewrite Hx, Hd. unfold rules_let. tauto.
Qed.

(** ** The policy and the database it finds *)

Definition the_name np : string := match np_name (np_Name np) with Done n => n | _ => "" end.
Definition the_job (key : string) np : Job := np_job c key np (the_name np).
Definition the_rules (ingress : bool) np : list (NetworkPolicyRule sel) := default [] (if ingress then spec_Ingress (np_Spec np) else spec_Egress (np_Spec np)).
Definition has_rules (ingress : bool) np : bool := if ingress then hasIngressRule np else hasEgressRule np.

(** The names are names of objects, the caches have what the policy refers to, and
    its ports and blocks are such as the API server accepts. *)
Record np_ready (key : string) np (ports : list string) (protocolSet : gset string) : Prop := {
  nr_name : dns_name (np_Name np);
  nr_namespace : dns_name (np_Namespace np);
  nr_found : exists subnetNames,
    fetchSelectedPorts LabelSelectorAsSelector c (np_Namespace np) (spec_PodSelector (np_Spec np)) (parsePolicyFor (np_Annotations np)) = Done (Ok (ports, subnetNames)) /\
    protocol_set c subnetNames = Ok protocolSet;
  nr_protocols : forall protocol, protocol ∈ protocolSet -> ip_protocol protocol;
  nr_named : named_ok (GetNamedPortByNs (np_Namespace np) (npc_named c));
  nr_readable : forall protocol ingress, protocol ∈ protocolSet -> Forall (readable LabelSelectorAsSelector c (the_job key np) protocol) (the_rules ingress np);
  nr_length : forall ingress, Z.of_nat (length (the_rules ingress np)) < 2 ^ 63
}.

(** The database: well-formed, the port group is of this policy, and so are the
    address sets with the names of its sets. *)
Record np_world (key : string) np (db : NbDB) : Prop := {
  nw_world : world db;
  nw_unique : forall n1 n2 l1 l2, o_lsps (nb_obj db) !! n1 = Some l1 -> o_lsps (nb_obj db) !! n2 = Some l2 -> lsp_UUID l1 = lsp_UUID l2 -> n1 = n2;
  nw_switch : nb_lss db !! j_pgName (the_job key np) = None;
  nw_directed : directed (acls_at portGroupKey (j_pgName (the_job key np)) db);
  nw_sets : forall ingress kind protocol idx, set_kind kind -> ip_protocol protocol -> is_Some (o_sets (nb_obj db) !! as_name (the_job key np) ingress kind protocol idx) ->
    owned (the_job key np) ingress db (as_name (the_job key np) ingress kind protocol idx)
}.

Lemma the_job_named key np : dns_name (np_Name np) -> dns_name (np_Namespace np) -> named_job (the_job key np) /\ np_name (np_Name np) = Done (the_name np).
Proof.
  intros Hn Hns. destruct (np_name_ok _ Hn) as (npName & ch & s & E & -> & Hl & Hs). assert (En : the_name np = String ch s) by (unfold the_name; by rewrite E).
  split; [|by rewrite En]. split; [exists ch, s; cbn; by rewrite En|done].
Qed.

Lemma the_job_ok key np ports ps : np_ready key np ports ps -> job_ok (the_job key np) /\ named_job (the_job key np) /\ np_name (np_Name np) = Done (the_name np).
Proof.
  intros Hr. destruct (the_job_named key np (nr_name _ _ _ _ Hr) (nr_namespace _ _ _ _ Hr)) as [Hnj En].
  split_and!; [|done|done]. split; [|apply (nr_named _ _ _ _ Hr)]. exact (npPortGroupName_ok _ Hnj).
Qed.

(** ** The selected ports *)

Lemma selected_ports_names providers pods l : selected_ports c providers pods = Done (Ok l) -> Forall (fun x => x.1 <> "") l.
Proof.
  revert l. induction pods as [|po pods IH]; intros l; cbn [selected_ports]; [by intros [= <-]|]. destruct (po_HostNetwork po); [apply IH|].
  destruct (getPodKubeovnNets (npc_net c) po) as [[nets|e]| |]; try done. cbn [mbind outcome_bind wrapped].
  destruct (selected_ports c providers pods) as [[rest|e]| |] eqn:E; try done. cbn. intros [= <-]. apply Forall_app. split; [|by apply IH].
  unfold selected_nets. apply Forall_forall. intros x Hx. apply list_elem_of_omap in Hx as (net & _ & Hn). destruct (_ && _); [|done]. injection Hn as <-. cbn.
  unfold PodNameToPortName. destruct (bool_decide _); apply app_str_not_nil; done.
Qed.

Lemma Compact_nil l : Compact l = [] -> l = [].
Proof.
  induction l as [|x l IH]; [done|]. destruct l as [|y l]; [done|]. cbn [Compact]. destruct (bool_decide (x = y)); [|done]. intros E. by apply IH in E.
Qed.

(** Every selected port brings a protocol. *)
Lemma fetched namespace selector providers ports subnetNames ps :
  fetchSelectedPorts LabelSelectorAsSelector c namespace selector providers = Done (Ok (ports, subnetNames)) -> protocol_set c subnetNames = Ok ps ->
  Forall (fun n => n <> "") ports /\ (ports <> [] -> ps <> ∅).
Proof.
  unfold fetchSelectedPorts. destruct (wrapped _ _ _) as [matches|e]; [|done].
  destruct (selected_ports c providers (list_pods c namespace matches)) as [[l|e]| |] eqn:E; try done. cbn. intros [= <- <-] Hp. split.
  - apply selected_ports_names in E. by apply Forall_fmap.
  - intros Hne Hps. unfold protocol_set in Hp. destruct (Compact l.*2) as [|s names] eqn:Ec.
    + apply Hne. apply Compact_nil in Ec. by destruct l.
    + cbn in Hp. destruct (subnet_protocols c s) as [prs|e] eqn:Es; [|done]. cbn in Hp. destruct (collect (subnet_protocols c) names) as [rest|e]; [|done].
      cbn in Hp. injection Hp as Hp. unfold subnet_protocols in Es. destruct (Get _ s) as [subnet|e]; [|done]. cbn in Es. injection Es as <-.
      rewrite Hps in Hp. destruct (bool_decide _); cbn in Hp; set_solver.
Qed.

(** ** One direction of the policy *)

Definition dir_names (key : string) np (ingress : bool) (protocols : list string) : list string :=
  if has_rules ingress np then all_names (the_job key np) ingress (the_rules ingress np) protocols else [].

Definition dir_update (key : string) np (ingress : bool) (protocols : list string) : DB () :=
  if has_rules ingress np then update_rules LabelSelectorAsSelector c (the_job key np) ingress (the_rules ingress np) protocols
  else clear_rules (the_job key np) ingress.

(** What the drops and the allows of a direction mean. *)
Definition dir_means (key : string) np (ingress : bool) (protocols : list string) (drops allows : list ACL) (O : Ovn addr) : Prop :=
  let j := the_job key np in
  group_of (j_pgName j) (dir_acl ingress) ACLActionDrop 2000 drops
    (fun p => has_rules ingress np = true /\ protocols <> [] /\ member (dir_acl ingress) (j_pgName j) p /\ blocked (j_lax j) p) /\
  group_of (j_pgName j) (dir_acl ingress) ACLActionAllowRelated 2001 allows
    (fun p => has_rules ingress np = true /\
       ((protocols <> [] /\ j_lax j = true /\ dhcp_packet (dir_acl ingress) (j_pgName j) p) \/
        Exists (fun protocol => protocol_allows LabelSelectorAsSelector c j ingress (the_rules ingress np) protocol O p) protocols)).

Lemma dir_update_ok key np ports ps ingress protocols db : np_ready key np ports ps -> protocols ≡ₚ elements ps -> world db ->
  is_Some (nb_pgs db !! j_pgName (the_job key np)) ->
  exists db' drops allows, dir_update key np ingress protocols db = Done (Ok (), db') /\
    direction_done (the_job key np) ingress (dir_names key np ingress protocols) drops allows db db' /\
    (has_rules ingress np = true -> Forall (fun protocol => protocol_sets LabelSelectorAsSelector c (the_job key np) ingress (the_rules ingress np) protocol db') protocols) /\
    forall O : Ovn addr, dir_means key np ingress protocols drops allows O.
Proof.
  intros Hr Hw Hwld Hx. destruct (the_job_ok _ _ _ _ Hr) as (Hj & Hnj & _). unfold dir_update, dir_names, dir_means.
  assert (Hin : forall protocol, protocol ∈ protocols -> protocol ∈ ps) by (intros protocol; rewrite Hw; apply elem_of_elements).
  destruct (has_rules ingress np).
  - destruct (update_rules_ok (addr := addr) LabelSelectorAsSelector c (the_job key np) ingress (the_rules ingress np) protocols db Hj Hnj Hwld Hx) as (db' & drops & allows & E & D & S & G).
    + rewrite Hw. apply NoDup_elements.
    + apply Forall_forall. intros protocol Hp. by apply (nr_protocols _ _ _ _ Hr), Hin.
    + apply Forall_forall. intros protocol Hp. by apply (nr_readable _ _ _ _ Hr), Hin.
    + apply (nr_length _ _ _ _ Hr).
    + exists db', drops, allows. split_and!; [done|done|done|]. intros O. destruct (G O) as [G1 G2].
      split; (eapply group_iff; [|eassumption]); intros p; cbv beta; tauto.
  - destruct (clear_rules_ok (the_job key np) ingress db Hj Hwld Hx) as (db' & E & D & _). exists db', [], []. split_and!; [done|done|done|].
    intros O. split; apply group_nil; by intros p [? _].
Qed.

Lemma rules_let_perm j ingress rules protocols protocols' p : protocols ≡ₚ protocols' -> rules_let j ingress rules protocols p <-> rules_let j ingress rules protocols' p.
Proof. intros Hp. unfold rules_let. rewrite !Exists_exists. by setoid_rewrite Hp. Qed.

(** ** Both directions *)

Definition way (d : string) (acls : list ACL) : list ACL := filter (fun a => acl_Direction a = d) acls.

(** No ACL of a group that asks for members is the one of the gateway. *)
Lemma not_gateway pg d action priority acls (Q : packet addr -> Prop) :
  group_of (H := no_ovn) pg d action priority acls Q -> (forall p, Q p -> exists d' pg', member (H := no_ovn) d' pg' p) -> Forall (fun a => acl_Match a <> "icmp6") acls.
Proof.
  intros [_ HQ] Hm. apply Forall_forall. intros a Ha E. set (p := mkPacket "" "" "ip6" (inhabitant : addr) (inhabitant : addr) "icmp6" 0 0).
  destruct (Hm p) as (d' & pg' & Hx); [|done]. apply HQ, Exists_exists. exists a. split; [done|]. rewrite E. by apply icmp6_matches.
Qed.

Lemma dir_not_gateway key np ingress protocols drops allows : dir_means key np ingress protocols drops allows no_ovn -> Forall (fun a => acl_Match a <> "icmp6") (drops ++ allows).
Proof.
  intros [G1 G2]. apply Forall_app. split; (eapply not_gateway; [eassumption|]); intros p; cbv beta.
  - intros (_ & _ & Hm & _). by eexists _, _.
  - intros [_ [(_ & _ & Hm & _)|Hx]]; [by eexists _, _|]. apply Exists_exists in Hx as (protocol & _ & Hx). unfold protocol_allows in Hx.
    destruct (the_rules ingress np); [destruct Hx as [Hm _]; by eexists _, _|]. apply Exists_exists in Hx as (ir & _ & [[[_ [Hm _]]|[Hm _]] _]); by eexists _, _.
Qed.

Lemma dir_direction key np ingress protocols drops allows O : dir_means key np ingress protocols drops allows O ->
  Forall (fun a => acl_Direction a = dir_acl ingress /\ acl_Action a = ACLActionDrop /\ acl_Priority a = 2000) drops /\
  Forall (fun a => acl_Direction a = dir_acl ingress /\ acl_Action a = ACLActionAllowRelated /\ acl_Priority a = 2001) allows.
Proof.
  intros [[G1 _] [G2 _]]. split; (eapply Forall_impl; [eassumption|]); intros a [m Hm]; unfold core in Hm; by injection Hm as -> -> _ -> _ _.
Qed.

Lemma other_way_directed (acls : list ACL) : directed acls -> other_way (dir_acl false) (other_way (dir_acl true) acls) = [].
Proof.
  intros Hd. destruct (other_way (dir_acl false) (other_way (dir_acl true) acls)) as [|a l] eqn:E; [done|]. exfalso.
  assert (Ha : a ∈ a :: l) by by left. rewrite <-E in Ha. unfold other_way in Ha. rewrite !list_elem_of_filter in Ha. destruct Ha as (H1 & H2 & Ha).
  unfold directed in Hd. rewrite Forall_forall in Hd. destruct (Hd a Ha) as [Hx|Hx]; [apply H2|apply H1]; by right.
Qed.

Lemma other_way_keep d d' (acls : list ACL) : d <> "" -> d <> d' -> Forall (fun a => acl_Direction a = d') acls -> other_way d acls = acls.
Proof.
  intros Hn Hne Hall. unfold other_way. induction Hall as [|a acls Ha _ IH]; [done|]. rewrite filter_cons_True, IH; [done|]. rewrite Ha. intros [?|?]; done.
Qed.

Lemma other_way_app d l l' : other_way d (l ++ l') = other_way d l ++ other_way d l'.
Proof. apply filter_app. Qed.

Lemma way_keep d (acls : list ACL) : Forall (fun a => acl_Direction a = d) acls -> way d acls = acls.
Proof. intros Hall. unfold way. induction Hall as [|a acls Ha _ IH]; [done|]. by rewrite filter_cons_True, IH. Qed.

Lemma way_drop d d' (acls : list ACL) : d <> d' -> Forall (fun a => acl_Direction a = d') acls -> way d acls = [].
Proof. intros Hne Hall. unfold way. induction Hall as [|a acls Ha _ IH]; [done|]. rewrite filter_cons_False, IH; [done|]. rewrite Ha. by apply not_eq_sym. Qed.

Lemma way_app d l l' : way d (l ++ l') = way d l ++ way d l'.
Proof. apply filter_app. Qed.

(** The sets of one direction are not those of the other. *)
Lemma owned_one j ingress db s : owned j ingress db s -> ~ owned j (negb ingress) db s.
Proof.
  intros (x & Hx & Hid) (y & Hy & Hid'). rewrite Hx in Hy. injection Hy as <-. rewrite Hid in Hid'. injection Hid' as E.
  do 4 apply (inj (String.append _)) in E. by destruct ingress.
Qed.

Lemma names_of_direction key np (ps : gset string) ingress protocols s : protocols ≡ₚ elements ps -> s ∈ dir_names key np ingress protocols ->
  exists kind protocol idx, set_kind kind /\ protocol ∈ ps /\ s = as_name (the_job key np) ingress kind protocol idx.
Proof.
  intros Hp. unfold dir_names. destruct (has_rules ingress np); [|intros Hs; by apply elem_of_nil in Hs]. unfold all_names. rewrite list_elem_of_bind.
  intros (protocol & Hn & Hin). apply elem_protocol_names in Hn as (kind & idx & Hk & -> & _). exists kind, protocol, idx. split_and!; [done| |done].
  by rewrite Hp, elem_of_elements in Hin.
Qed.

(** The sets of the first direction outlive the second. *)
Lemma sets_outlive key np ports ps protocols protocols' db db1 db2 drops allows drops' allows' :
  np_ready key np ports ps -> np_world key np db -> protocols ≡ₚ elements ps -> protocols' ≡ₚ elements ps ->
  direction_done (the_job key np) true (dir_names key np true protocols) drops allows db db1 ->
  direction_done (the_job key np) false (dir_names key np false protocols') drops' allows' db1 db2 ->
  Forall (fun protocol => protocol_sets LabelSelectorAsSelector c (the_job key np) true (the_rules true np) protocol db1) protocols ->
  Forall (fun protocol => protocol_sets LabelSelectorAsSelector c (the_job key np) true (the_rules true np) protocol db2) protocols.
Proof.
  intros Hr Hw Hp Hp' D1 D2 Hs. rewrite Forall_forall in *. intros protocol Hin. eapply protocol_sets_kept; [|by apply Hs]. intros s Hn.
  assert (Hip : forall l pr, l ≡ₚ elements ps -> pr ∈ l -> ip_protocol pr) by (intros l pr El; rewrite El, elem_of_elements; apply (nr_protocols _ _ _ _ Hr)).
  pose proof Hn as Hn'. apply elem_protocol_names in Hn' as (kind & idx & Hk & Es & _). apply (dd_sets _ _ _ _ _ _ _ D2).
  - intros Hn'. apply (names_of_direction _ _ _ _ _ _ Hp') in Hn' as (kind' & pr & idx' & Hk' & Hinpr & Es'). rewrite Es in Es'.
    apply as_name_inj in Es' as [? _]; [done|done|done|exact (Hip _ _ Hp Hin)|by apply (nr_protocols _ _ _ _ Hr)].
  - intros Hown. apply (owned_one (the_job key np) false db1 s Hown). cbn. destruct Hown as (x & Hx & _). exists x. split; [done|].
    destruct (dd_ids _ _ _ _ _ _ _ D1 s x Hx) as [(x0 & Hx0 & Ei)|Ei]; rewrite Ei.
    + destruct (nw_sets _ _ _ Hw true kind protocol idx Hk (Hip _ _ Hp Hin)) as (y & Hy & Hid); [rewrite <-Es; by eexists|]. rewrite <-Es, Hx0 in Hy. by injection Hy as ->.
    + unfold dir_ids, tagged, sets_id. rewrite lookup_insert_ne by done. by rewrite lookup_singleton_eq.
Qed.

(** One direction keeps the database as the policy expects it. *)
Lemma direction_keeps key np ports ps ingress protocols db db' drops allows :
  np_ready key np ports ps -> np_world key np db -> protocols ≡ₚ elements ps ->
  direction_done (the_job key np) ingress (dir_names key np ingress protocols) drops allows db db' ->
  dir_means key np ingress protocols drops allows no_ovn -> np_world key np db'.
Proof.
  intros Hr [Hw Hu Hls Hd Hs] Hp D Hm. split.
  - apply (dd_world _ _ _ _ _ _ _ D).
  - by rewrite (dd_lsps _ _ _ _ _ _ _ D).
  - by rewrite (dd_lss _ _ _ _ _ _ _ D).
  - unfold directed in *. rewrite (dd_acls _ _ _ _ _ _ _ D). destruct (dir_direction _ _ _ _ _ _ _ Hm) as [Fd Fa]. rewrite !Forall_app.
    assert (Hdir : real_direction (dir_acl ingress)) by (destruct ingress; [by left|by right]).
    split_and!; [apply Forall_forall; intros a Ha; apply list_elem_of_filter in Ha as [_ Ha]; rewrite Forall_forall in Hd; by apply Hd|(eapply Forall_impl; [eassumption|]; by intros a [-> _])..].
  - intros i kind protocol idx Hk Hpr [x' Hx']. set (s := as_name (the_job key np) i kind protocol idx) in *.
    assert (Hsame : forall x, o_sets (nb_obj db) !! s = Some x -> as_ExternalIDs x' = as_ExternalIDs x -> owned (the_job key np) i db' s).
    { intros x Hx E. destruct (Hs i kind protocol idx Hk Hpr) as (y & Hy & Hid); [by eexists|]. fold s in Hy. rewrite Hx in Hy. injection Hy as <-. exists x'. by rewrite E. }
    destruct (dd_ids _ _ _ _ _ _ _ D s x' Hx') as [(x & Hx & E)|E]; [by apply (Hsame x)|]. destruct (decide (i = ingress)) as [->|Hne].
    + exists x'. split; [done|]. rewrite E. unfold dir_ids, tagged, sets_id. rewrite lookup_insert_ne by done. by rewrite lookup_singleton_eq.
    + apply (Hsame x'); [|done]. rewrite <-Hx'. symmetry. apply (dd_sets _ _ _ _ _ _ _ D).
      * intros Hn. apply (names_of_direction _ _ _ _ _ _ Hp) in Hn as (kind' & protocol' & idx' & Hk' & Hin & Es).
        apply as_name_inj in Es as [? _]; [done|done|done|done|]. by apply (nr_protocols _ _ _ _ Hr).
      * intros Hown. apply (owned_one _ _ _ _ Hown). assert (Ei : i = negb ingress) by (by destruct i, ingress). rewrite <-Ei.
        apply Hs; [done|done|]. destruct Hown as (y & Hy & _). by exists y.
Qed.

(** ** The port group *)

Lemma group_ready key np ports ps db : np_ready key np ports ps -> np_world key np db -> let j := the_job key np in
  exists db1 db2, CreatePortGroup (j_pgName j) {[networkPolicyKey := np_Namespace np +:+ "/" +:+ the_name np]} db = Done (Ok (), db1) /\
    PortGroupSetPorts (j_pgName j) ports db1 = Done (Ok (), db2) /\ np_world key np db2 /\ is_Some (nb_pgs db2 !! j_pgName j) /\
    frame (j_pgName j) [] db db2 /\ o_sets (nb_obj db2) = o_sets (nb_obj db) /\ group_of_ports (j_pgName j) ports db2.
Proof.
  intros Hr [Hw Hu Hls Hd Hs] j. destruct (the_job_ok _ _ _ _ Hr) as (Hj & _ & _). destruct (nr_found _ _ _ _ Hr) as (subnetNames & Ef & Ep).
  destruct (fetched _ _ _ _ _ _ Ef Ep) as [Hnames _].
  destruct (CreatePortGroup_ok (j_pgName j) {[networkPolicyKey := np_Namespace np +:+ "/" +:+ the_name np]} [] db Hw (pg_nonempty _ Hj) Hls)
    as (db1 & E1 & W1 & F1 & X1 & A1 & S1 & g & G1 & _).
  destruct (port_uuids_names ports db1 Hnames) as (e & Ee & He).
  pose proof (PortGroupSetPorts_ok (j_pgName j) g ports e db1 W1 (pg_nonempty _ Hj) G1 Ee) as E2. set (db2 := set_obj _ db1) in E2.
  assert (W2 : world db2) by (apply world_obj; [done|cbn; rewrite dom_insert_L; apply elem_of_dom_2 in G1; set_solver|done]).
  assert (S2 : o_sets (nb_obj db2) = o_sets (nb_obj db)) by exact S1.
  exists db1, db2. split_and!; [done|done| |done| |done|].
  - split; [done| | | |].
    + cbn. rewrite (fr_lsps _ _ _ _ F1). exact Hu.
    + cbn. by rewrite (fr_lss _ _ _ _ F1).
    + fold j in Hd. rewrite <-A1 in Hd. exact Hd.
    + intros ingress kind protocol idx. unfold owned. rewrite S2. apply Hs.
  - split; [apply (fr_lss _ _ _ _ F1)|apply (fr_lsps _ _ _ _ F1)|apply (fr_rows _ _ _ _ F1)| |by intros s _; rewrite S2].
    intros p Hne. cbn. rewrite lookup_insert_ne by done. by apply (fr_pgs _ _ _ _ F1).
  - intros port. unfold group_has, ovn_of. cbn. rewrite lookup_insert_eq. destruct (o_lsps (nb_obj db1) !! port) as [l|] eqn:El.
    + cbn. rewrite bool_decide_eq_true, He. split; [|intros [Hin _]; by exists port, l]. intros (n & l' & Hin & Hl' & Hul). split; [|by eexists].
      rewrite (fr_lsps _ _ _ _ F1) in El, Hl'. by rewrite <-(Hu n port l' l Hl' El Hul).
    + split; [done|by intros [_ []]].
Qed.

(** ** The handler *)

(** ICMP of IPv6 passes where it is needed to find the gateway. *)
Definition gateway_open (key : string) np (ps : gset string) p : Prop :=
  j_lax (the_job key np) = false /\ ProtocolIPv6 ∈ ps /\ pk_proto p = "icmp6".

Definition admitted (key : string) np (ports : list string) (ps : gset string) (db : NbDB) (ingress : bool) p : Prop :=
  gateway_open key np ps p \/ (selected ports db ingress p /\ rules_let (the_job key np) ingress (the_rules ingress np) (elements ps) p).

Record np_enforced (key : string) np (ports : list string) (ps : gset string) (db db' : NbDB) : Prop := {
  ne_world : np_world key np db';
  ne_ports : group_of_ports (j_pgName (the_job key np)) ports db';
  ne_lss : nb_lss db' = nb_lss db;
  ne_lsps : o_lsps (nb_obj db') = o_lsps (nb_obj db);
  ne_rows : forall pg, pg <> j_pgName (the_job key np) -> nb_pgs db' !! pg = nb_pgs db !! pg;
  ne_groups : forall pg, pg <> j_pgName (the_job key np) -> o_pgs (nb_obj db') !! pg = o_pgs (nb_obj db) !! pg;
  ne_sets : forall s, (forall ingress kind protocol idx, s <> as_name (the_job key np) ingress kind protocol idx) ->
    (forall ingress, ~ owned (the_job key np) ingress db s) -> o_sets (nb_obj db') !! s = o_sets (nb_obj db) !! s;
  ne_verdict : forall ingress p, has_rules ingress np = true ->
    let acls := way (dir_acl ingress) (acls_at portGroupKey (j_pgName (the_job key np)) db') in
    (passes (H := ovn_of th db') acls p <-> admitted key np ports ps db ingress p) /\
    (verdict (H := ovn_of th db') acls ACLActionDrop p <->
       (selected ports db ingress p /\ blocked (j_lax (the_job key np)) p) /\ ~ admitted key np ports ps db ingress p);
  ne_open : forall ingress p, has_rules ingress np = false ->
    ~ verdict (H := ovn_of th db') (way (dir_acl ingress) (acls_at portGroupKey (j_pgName (the_job key np)) db')) ACLActionDrop p
}.

(** The ACLs of the gateway of one direction. *)
Definition gateway_way (ingress : bool) (pg : string) : list ACL := way (dir_acl ingress) (gateway_acls pg).

Lemma gateway_way_one ingress pg : exists a, gateway_way ingress pg = [a] /\ acl_Match a = "icmp6" /\ acl_Action a = ACLActionAllowStateless /\ acl_Priority a = 2001.
Proof. destruct ingress; eexists; split; [reflexivity|by split_and!|reflexivity|by split_and!]. Qed.

(** The verdict of one direction, from its groups. *)
Lemma direction_verdict key np ports ps ingress protocols drops allows (open : bool) db p :
  np_ready key np ports ps -> protocols ≡ₚ elements ps -> group_of_ports (j_pgName (the_job key np)) ports db ->
  (has_rules ingress np = true -> Forall (fun protocol => protocol_sets LabelSelectorAsSelector c (the_job key np) ingress (the_rules ingress np) protocol db) protocols) ->
  dir_means key np ingress protocols drops allows (ovn_of th db) -> (open = true <-> j_lax (the_job key np) = false /\ ProtocolIPv6 ∈ ps) ->
  let acls := drops ++ allows ++ (if open then gateway_way ingress (j_pgName (the_job key np)) else []) in
  (has_rules ingress np = true ->
    (passes (H := ovn_of th db) acls p <-> admitted key np ports ps db ingress p) /\
    (verdict (H := ovn_of th db) acls ACLActionDrop p <->
       (selected ports db ingress p /\ blocked (j_lax (the_job key np)) p) /\ ~ admitted key np ports ps db ingress p)) /\
  (has_rules ingress np = false -> ~ verdict (H := ovn_of th db) acls ACLActionDrop p).
Proof.
  intros Hr Hperm Hg Hs Hm Hopen. cbv zeta. destruct (dir_direction _ _ _ _ _ _ _ Hm) as [Fd Fa]. destruct Hm as [[_ Md] [_ Ma]].
  destruct (gateway_way_one ingress (j_pgName (the_job key np))) as (ga & Eg & Gm & Gact & Gpr). rewrite Eg.
  set (acls := drops ++ allows ++ (if open then [ga] else [])).
  assert (Hgw : Exists (fun a => text_matches (H := ovn_of th db) p (acl_Match a)) (if open then [ga] else []) <-> gateway_open key np ps p).
  { unfold gateway_open. destruct open; [|rewrite Exists_nil; split; [done|]; intros (? & ? & _); by destruct Hopen as [_ Ho]; discriminate Ho].
    rewrite Exists_cons, Exists_nil, Gm, icmp6_matches. destruct Hopen as [Ho _]. specialize (Ho eq_refl). tauto. }
  destruct (verdict_split (H := ovn_of th db) drops (allows ++ (if open then [ga] else [])) 2000 2001 p eq_refl) as [Hp Hv].
  - eapply Forall_impl; [exact Fd|]. by intros a (_ & ? & ?).
  - apply Forall_app. split; [eapply Forall_impl; [exact Fa|]; intros a (_ & ? & ?); split; [by left|done]|]. destruct open; [|done]. apply Forall_singleton. split; [by right|done].
  - fold acls in Hp, Hv. rewrite Exists_app, Md, Ma, Hgw in Hv. rewrite Exists_app, Ma, Hgw in Hp. split.
    + intros Hh. destruct (nr_found _ _ _ _ Hr) as (subnetNames & Ef & Ep). destruct (fetched _ _ _ _ _ _ Ef Ep) as [_ Hne].
      destruct (direction_lets (the_job key np) ingress ports (the_rules ingress np) protocols db p Hg) as [Hl Hb]; [|by apply Hs|].
      { intros Hp0 Hp1. apply Hne; [done|]. rewrite Hp1 in Hperm. apply Permutation_nil_l, symmetry, elements_empty_inv in Hperm. by apply leibniz_equiv. }
      unfold admitted. rewrite <-(rules_let_perm _ _ _ _ _ p Hperm). rewrite Hp, Hv, Hl, Hb.
      generalize (rules_let (the_job key np) ingress (the_rules ingress np) protocols p), (selected ports db ingress p), (gateway_open key np ps p), (blocked (j_lax (the_job key np)) p).
      clear -Hh. intros R S G B. rewrite Hh. tauto.
    + intros Hh Hd. apply Hv in Hd as [[Hh' _] _]. by rewrite Hh in Hh'.
Qed.

Lemma selected_same ports db db' ingress p : o_lsps (nb_obj db') = o_lsps (nb_obj db) -> selected ports db' ingress p <-> selected ports db ingress p.
Proof. intros E. unfold selected. by rewrite E. Qed.

(** The ACLs of one direction among those of the policy. *)
Lemma way_policy key np pi pe D3 L3 D4 L4 (open : bool) ingress : dir_means key np true pi D3 L3 no_ovn -> dir_means key np false pe D4 L4 no_ovn ->
  way (dir_acl ingress) (((D3 ++ L3) ++ (D4 ++ L4)) ++ (if open then gateway_acls (j_pgName (the_job key np)) else [])) =
  (if ingress then D3 else D4) ++ (if ingress then L3 else L4) ++ (if open then gateway_way ingress (j_pgName (the_job key np)) else []).
Proof.
  intros M3 M4. destruct (dir_direction _ _ _ _ _ _ _ M3) as [Fd Fa], (dir_direction _ _ _ _ _ _ _ M4) as [Fd' Fa'].
  assert (Hd : forall d l, Forall (fun a => acl_Direction a = d /\ acl_Action a = ACLActionDrop /\ acl_Priority a = 2000) l -> Forall (fun a => acl_Direction a = d) l)
    by (intros d l Hl; eapply Forall_impl; [exact Hl|]; by intros a [? _]).
  assert (Ha : forall d l, Forall (fun a => acl_Direction a = d /\ acl_Action a = ACLActionAllowRelated /\ acl_Priority a = 2001) l -> Forall (fun a => acl_Direction a = d) l)
    by (intros d l Hl; eapply Forall_impl; [exact Hl|]; by intros a [? _]).
  apply Hd in Fd, Fd'. apply Ha in Fa, Fa'. rewrite !way_app.
  assert (Eg : way (dir_acl ingress) (if open then gateway_acls (j_pgName (the_job key np)) else []) = if open then gateway_way ingress (j_pgName (the_job key np)) else []) by (by destruct open).
  rewrite Eg. destruct ingress.
  - rewrite (way_keep _ D3), (way_keep _ L3), (way_drop _ (dir_acl false) D4), (way_drop _ (dir_acl false) L4) by done. by rewrite app_nil_r, <-app_assoc.
  - rewrite (way_keep _ D4), (way_keep _ L4), (way_drop _ (dir_acl true) D3), (way_drop _ (dir_acl true) L3) by done. by rewrite app_nil_l, <-app_assoc.
Qed.

(** ** The steps of the handler together *)

Section Steps.

Context (key : string) (np : NetworkPolicy sel) (ports : list string) (ps : gset string) (pi pe : list string).
Context (db db2 db3 db4 : NbDB) (D3 L3 D4 L4 : list ACL).
Hypotheses (Hr : np_ready key np ports ps) (Hpi : pi ≡ₚ elements ps) (Hpe : pe ≡ₚ elements ps).
Hypotheses (W2 : np_world key np db2) (F2 : frame (j_pgName (the_job key np)) [] db db2) (S2 : o_sets (nb_obj db2) = o_sets (nb_obj db))
  (G2 : group_of_ports (j_pgName (the_job key np)) ports db2).
Hypotheses (DD3 : direction_done (the_job key np) true (dir_names key np true pi) D3 L3 db2 db3) (M3 : forall O : Ovn addr, dir_means key np true pi D3 L3 O)
  (Hs3 : has_rules true np = true -> Forall (fun protocol => protocol_sets LabelSelectorAsSelector c (the_job key np) true (the_rules true np) protocol db3) pi).
Hypotheses (DD4 : direction_done (the_job key np) false (dir_names key np false pe) D4 L4 db3 db4) (M4 : forall O : Ovn addr, dir_means key np false pe D4 L4 O)
  (Hs4 : has_rules false np = true -> Forall (fun protocol => protocol_sets LabelSelectorAsSelector c (the_job key np) false (the_rules false np) protocol db4) pe).

Definition opens : bool := negb (j_lax (the_job key np)) && bool_decide (ProtocolIPv6 ∈ ps).

Lemma steps_acls : acls_at portGroupKey (j_pgName (the_job key np)) db4 = (D3 ++ L3) ++ (D4 ++ L4).
Proof.
  rewrite (dd_acls _ _ _ _ _ _ _ DD4), (dd_acls _ _ _ _ _ _ _ DD3), other_way_app, (other_way_directed _ (nw_directed _ _ _ W2)). f_equal.
  apply (other_way_keep _ (dir_acl true)); [done|done|].
  destruct (dir_direction _ _ _ _ _ _ _ (M3 no_ovn)) as [Fd Fa]. apply Forall_app. split; (eapply Forall_impl; [eassumption|]; by intros a [? _]).
Qed.

Lemma steps_gate : exists db5, (if opens then CreateGatewayACL "" (j_pgName (the_job key np)) else mret ()) db4 = Done (Ok (), db5) /\
  changes portGroupKey (j_pgName (the_job key np)) (((D3 ++ L3) ++ (D4 ++ L4)) ++ (if opens then gateway_acls (j_pgName (the_job key np)) else [])) db4 db5.
Proof.
  pose proof (dd_world _ _ _ _ _ _ _ DD4) as W4. pose proof (dd_self _ _ _ _ _ _ _ DD4) as X4. rewrite <-steps_acls. destruct opens.
  - destruct (the_job_ok _ _ _ _ Hr) as (Hj & _ & _). apply CreateGatewayACL_changes; [done|done|by apply pg_nonempty|]. rewrite steps_acls.
    apply Forall_app. split; eapply dir_not_gateway; [exact (M3 no_ovn)|exact (M4 no_ovn)].
  - exists db4. split; [done|]. rewrite app_nil_r. apply changes_refl; [apply (w_ok _ W4)|exact X4].
Qed.

Context (db5 : NbDB).
Hypothesis (C5 : changes portGroupKey (j_pgName (the_job key np)) (((D3 ++ L3) ++ (D4 ++ L4)) ++ (if opens then gateway_acls (j_pgName (the_job key np)) else [])) db4 db5).

Lemma steps_last : world db5 /\ frame (j_pgName (the_job key np)) [] db4 db5 /\ o_sets (nb_obj db5) = o_sets (nb_obj db4) /\ o_pgs (nb_obj db5) = o_pgs (nb_obj db4).
Proof. exact (changes_world _ _ [] _ _ (dd_world _ _ _ _ _ _ _ DD4) (dd_self _ _ _ _ _ _ _ DD4) C5). Qed.

Lemma steps_lsps : o_lsps (nb_obj db5) = o_lsps (nb_obj db).
Proof.
  destruct steps_last as (_ & F5 & _ & _).
  by rewrite (fr_lsps _ _ _ _ F5), (dd_lsps _ _ _ _ _ _ _ DD4), (dd_lsps _ _ _ _ _ _ _ DD3), (fr_lsps _ _ _ _ F2).
Qed.

Lemma steps_groups : o_pgs (nb_obj db5) = o_pgs (nb_obj db2).
Proof. destruct steps_last as (_ & _ & _ & P5). by rewrite P5, (dd_groups _ _ _ _ _ _ _ DD4), (dd_groups _ _ _ _ _ _ _ DD3). Qed.

Lemma steps_ports : group_of_ports (j_pgName (the_job key np)) ports db5.
Proof. intros port. specialize (G2 port). unfold ovn_of in *. cbn in *. rewrite steps_groups, steps_lsps. by rewrite (fr_lsps _ _ _ _ F2) in G2. Qed.

Lemma steps_verdict ingress p : let acls := way (dir_acl ingress) (acls_at portGroupKey (j_pgName (the_job key np)) db5) in
  (has_rules ingress np = true ->
    (passes (H := ovn_of th db5) acls p <-> admitted key np ports ps db5 ingress p) /\
    (verdict (H := ovn_of th db5) acls ACLActionDrop p <->
       (selected ports db5 ingress p /\ blocked (j_lax (the_job key np)) p) /\ ~ admitted key np ports ps db5 ingress p)) /\
  (has_rules ingress np = false -> ~ verdict (H := ovn_of th db5) acls ACLActionDrop p).
Proof.
  cbv zeta. rewrite (ch_acls _ _ _ _ _ C5), (way_policy key np _ _ _ _ _ _ opens ingress (M3 no_ovn) (M4 no_ovn)). destruct steps_last as (_ & _ & S5 & _).
  assert (Hopen : opens = true <-> j_lax (the_job key np) = false /\ ProtocolIPv6 ∈ ps) by (unfold opens; by rewrite andb_true_iff, negb_true_iff, bool_decide_eq_true).
  pose proof steps_ports as Hg. destruct ingress.
  - apply (direction_verdict key np ports ps true pi); try done. intros Hh. eapply Forall_impl; [eapply sets_outlive; try done; by apply Hs3|].
    intros protocol. apply protocol_sets_kept. intros s _. by rewrite S5.
  - apply (direction_verdict key np ports ps false pe); try done. intros Hh. eapply Forall_impl; [by apply Hs4|].
    intros protocol. apply protocol_sets_kept. intros s _. by rewrite S5.
Qed.

Lemma steps_world : np_world key np db5.
Proof.
  destruct (direction_keeps _ _ _ _ _ _ _ _ _ _ Hr (direction_keeps _ _ _ _ _ _ _ _ _ _ Hr W2 Hpi DD3 (M3 no_ovn)) Hpe DD4 (M4 no_ovn)) as [_ Hu4 Hls4 Hd4 Hn4].
  destruct steps_last as (W5 & F5 & S5 & _). split; [done|by rewrite (fr_lsps _ _ _ _ F5)|by rewrite (fr_lss _ _ _ _ F5)| |].
  - unfold directed in *. rewrite (ch_acls _ _ _ _ _ C5), <-steps_acls. apply Forall_app. split; [done|]. destruct opens; [|done].
    apply Forall_cons. split; [by right|apply Forall_singleton; by left].
  - intros i kind protocol idx. unfold owned. rewrite S5. apply Hn4.
Qed.

Lemma steps_sets s : (forall ingress kind protocol idx, s <> as_name (the_job key np) ingress kind protocol idx) ->
  (forall ingress, ~ owned (the_job key np) ingress db s) -> o_sets (nb_obj db5) !! s = o_sets (nb_obj db) !! s.
Proof.
  intros Hn Hno. assert (Hnn : forall i protocols, protocols ≡ₚ elements ps -> s ∉ dir_names key np i protocols)
    by (intros i protocols Hpp Hs; apply (names_of_direction _ _ _ _ _ _ Hpp) in Hs as (? & ? & ? & _ & _ & ->); by eapply Hn).
  assert (N2 : forall i, ~ owned (the_job key np) i db2 s) by (intros i (x & Hx & Hid); apply (Hno i); exists x; by rewrite <-S2).
  assert (E3 : o_sets (nb_obj db3) !! s = o_sets (nb_obj db2) !! s) by (apply (dd_sets _ _ _ _ _ _ _ DD3); [by apply Hnn|apply N2]).
  assert (E4 : o_sets (nb_obj db4) !! s = o_sets (nb_obj db3) !! s).
  { apply (dd_sets _ _ _ _ _ _ _ DD4); [by apply Hnn|]. intros (x & Hx & Hid). apply (N2 false). exists x. by rewrite <-E3. }
  destruct steps_last as (_ & _ & S5 & _). by rewrite S5, E4, E3, S2.
Qed.

Lemma steps_enforced : np_enforced key np ports ps db db5.
Proof.
  destruct steps_last as (_ & F5 & _ & _). split; [apply steps_world|apply steps_ports| |apply steps_lsps| | |apply steps_sets| |].
  - by rewrite (fr_lss _ _ _ _ F5), (dd_lss _ _ _ _ _ _ _ DD4), (dd_lss _ _ _ _ _ _ _ DD3), (fr_lss _ _ _ _ F2).
  - intros pg Hne. by rewrite (fr_rows _ _ _ _ F5), (dd_rows _ _ _ _ _ _ _ DD4), (dd_rows _ _ _ _ _ _ _ DD3), (fr_rows _ _ _ _ F2).
  - intros pg Hne. rewrite steps_groups. by apply (fr_pgs _ _ _ _ F2).
  - intros ingress p Hh. destruct (steps_verdict ingress p) as [V _]. specialize (V Hh). unfold admitted in *. by rewrite !(selected_same ports db db5 ingress p steps_lsps) in V.
  - intros ingress p Hh. by apply steps_verdict.
Qed.

End Steps.

Lemma update_policy_ok key np ports ps walkIngress walkEgress db : np_ready key np ports ps -> np_world key np db ->
  walkIngress ps ≡ₚ elements ps -> walkEgress ps ≡ₚ elements ps ->
  exists db', update_policy LabelSelectorAsSelector c walkIngress walkEgress key np db = Done (Ok (), db') /\ np_enforced key np ports ps db db'.
Proof.
  intros Hr Hw Hwi Hwe. destruct (the_job_ok _ _ _ _ Hr) as (_ & _ & En).
  destruct (group_ready key np ports ps db Hr Hw) as (db1 & db2 & E1 & E2 & W2 & X2 & F2 & S2 & G2).
  destruct (dir_update_ok key np ports ps true (walkIngress ps) db2 Hr Hwi (nw_world _ _ _ W2) X2) as (db3 & D3 & L3 & E3 & DD3 & Hs3 & M3).
  destruct (dir_update_ok key np ports ps false (walkEgress ps) db3 Hr Hwe (dd_world _ _ _ _ _ _ _ DD3) (dd_self _ _ _ _ _ _ _ DD3)) as (db4 & D4 & L4 & E4 & DD4 & Hs4 & M4).
  destruct (steps_gate key np ports ps (walkIngress ps) (walkEgress ps) db2 db3 db4 D3 L3 D4 L4 Hr W2 DD3 M3 DD4 M4) as (db5 & E5 & C5).
  exists db5. split; [|by eapply (steps_enforced key np ports ps (walkIngress ps) (walkEgress ps) db db2 db3 db4)].
  destruct (nr_found _ _ _ _ Hr) as (subnetNames & Ef & Ep). unfold update_policy. rewrite (bind_done _ _ db (the_name np) db) by (unfold running; by rewrite En). cbv zeta.
  change (np_job c key np (the_name np)) with (the_job key np). rewrite (bind_done _ _ db () db1) by exact E1.
  rewrite (bind_done _ _ db1 (ports, subnetNames) db1) by (unfold running_result, running; cbn; by rewrite Ef).
  rewrite (bind_done _ _ db1 ps db1) by (unfold lift; by rewrite Ep). rewrite (bind_done _ _ db1 () db2) by exact E2.
  rewrite (bind_done _ _ db2 () db3) by exact E3. rewrite (bind_done _ _ db3 () db4) by exact E4. exact E5.
Qed.

End Handler.
