(* ===== verification/NpSpec.v ===== *)
(** * What a network policy means

    The ports a policy is for, the families it concerns, the addresses its peers
    stand for and the packets it admits, said of the objects in the caches and not
    of the loops of the controller; what the loops compute is exactly this. *)
From Stdlib Require Import Ascii.
From S2P Require Import Prelude GoStrings GoNet GoNetText UtilNet Validator GoText PodAddress AclMatch NbDb NbDhcp NbLsp NbGroups NbAcl NbAclFacts NbDhcpFacts NbLspFacts NbWorld PolicyAcl AclMeaning PolicyFacts PolicyVerdict SgTable LsAcl LsAclFacts PodNets NamedPort NetworkPolicy NetworkPolicyFacts NpDirection NpHandler.

Local Open Scope Z_scope.

(** ** Loops *)

Lemma elem_Compact x l : x ∈ Compact l <-> x ∈ l.
Proof.
  induction l as [|y l IH]; [done|]. destruct l as [|z l]; [done|]. cbn [Compact]. case_bool_decide as E.
  - subst z. rewrite IH, !elem_of_cons. tauto.
  - rewrite elem_of_cons, IH, (elem_of_cons (z :: l)). tauto.
Qed.

Lemma collect_elem {A B} (f : A -> result B) l ys y : collect f l = Ok ys -> y ∈ ys <-> exists x, x ∈ l /\ f x = Ok y.
Proof.
  revert ys. induction l as [|x l IH]; intros ys; cbn [collect].
  - intros [= <-]. split; [by rewrite elem_of_nil|by intros (x & ?%elem_of_nil & _)].
  - destruct (f x) as [y0|e] eqn:E; [|done]. cbn. destruct (collect f l) as [ys0|e]; [|done]. cbn. intros [= <-].
    rewrite elem_of_cons, (IH ys0 eq_refl). split.
    + intros [->|(x0 & Hx & E0)]; [exists x; split; [by left|done]|exists x0; split; [by right|done]].
    + intros (x0 & [->|Hx]%elem_of_cons & E0); [left; congruence|right; by exists x0].
Qed.

Section Spec.

Context {addr sel : Type} `{Inhabited addr} (LabelSelectorAsSelector : sel -> result (gmap string string -> bool)) `{Multus} (c : NpCluster sel) (th : string -> addr -> bool).

Implicit Types (np : NetworkPolicy sel) (rule : NetworkPolicyRule sel) (npp : NetworkPolicyPeer sel) (p : packet addr).

(** ** The meaning *)

Definition selector_matches (s : sel) (labels : gmap string string) : Prop := exists matches, LabelSelectorAsSelector s = Ok matches /\ matches labels = true.

(** A network of the pod that the policy is for. *)
Definition applies_to np (po : PodObject) (net : kubeovnNet) : Prop :=
  exists nets, getPodKubeovnNets (npc_net c) po = Done (Ok nets) /\ net ∈ nets /\
    netpolAppliesToProvider (ProviderName net) (parsePolicyFor (np_Annotations np)) = true.

(** The policy is for the port, which is in the subnet. *)
Definition selects_port np (port subnetName : string) : Prop :=
  exists po net, po ∈ npc_pods c /\ Pod_Namespace (po_pod po) = np_Namespace np /\ selector_matches (spec_PodSelector (np_Spec np)) (po_Labels po) /\
    po_HostNetwork po = false /\ applies_to np po net /\ isOvnSubnet (net_Subnet net) = true /\
    annotation (po_pod po) (template (ProviderName net) "allocated") = "true" /\
    port = PodNameToPortName (getNameByPod (nc_cluster (npc_net c)) (po_pod po)) (Pod_Namespace (po_pod po)) (ProviderName net) /\ subnetName = Name (net_Subnet net).

(** Some port of the policy is in a subnet of the family. *)
Definition concerns np (protocol : string) : Prop :=
  exists port subnetName subnet, selects_port np port subnetName /\ c_subnets (nc_cluster (npc_net c)) !! subnetName = Some subnet /\
    (if bool_decide (Protocol subnet = ProtocolDual) then protocol = ProtocolIPv4 \/ protocol = ProtocolIPv6 else protocol = Protocol subnet).

(** The namespaces and pods of a peer. *)
Definition peer_pod np npp (po : PodObject) : Prop :=
  po ∈ npc_pods c /\
  match peer_NamespaceSelector npp with
  | None => Pod_Namespace (po_pod po) = np_Namespace np
  | Some s => exists labels, (Pod_Namespace (po_pod po), labels) ∈ npc_namespaces c /\ selector_matches s labels
  end /\
  match peer_PodSelector npp with None => True | Some s => selector_matches s (po_Labels po) end.

(** An address of a pod of the peer. *)
Definition peer_address np npp (protocol t : string) : Prop :=
  exists po net, peer_pod np npp po /\ applies_to np po net /\ t ∈ Split (annotation (po_pod po) (template (ProviderName net) "ip_address")) "," /\
    t <> "" /\ CheckProtocol t = protocol.

(** A peer is a block without its exceptions (those inside it), or the pods of its
    selectors. *)
Definition peer_admits np npp (protocol : string) (a : addr) : Prop :=
  match peer_IPBlock npp with
  | Some block => CheckProtocol (CIDR block) = protocol /\ th (CIDR block) a = true /\ 
      (forall e, e ∈ Except block -> CheckProtocol e = protocol -> CIDRContainsCIDR (CIDR block) e = Ok true -> th e a = false)
  | None => exists t, peer_address np npp protocol t /\ th (normalize t) a = true
  end.

Definition every_address (protocol : string) : string := if bool_decide (protocol = ProtocolIPv4) then "0.0.0.0/0" else "::/0".

(** No peers are all addresses, no ports are all ports. *)
Definition rule_admits np (ingress : bool) (protocol : string) rule p : Prop :=
  pk_family p = ip_suffix protocol /\
  (if bool_decide (rule_Peers rule = []) then th (normalize (every_address protocol)) (remote ingress p) = true
   else Exists (fun npp => peer_admits np npp protocol (remote ingress p)) (rule_Peers rule)) /\
  ports_allow (GetNamedPortByNs (np_Namespace np) (npc_named c)) (rule_Ports rule) p.

(** The end of the packet that is here is a port of the policy, and exists. *)
Definition concerned np (db : NbDB) (ingress : bool) p : Prop :=
  (exists subnetName, selects_port np (endpoint ingress p) subnetName) /\ is_Some (o_lsps (nb_obj db) !! endpoint ingress p).

Definition lax np : bool := isNetworkPolicyEnforcementLax c np.

Definition policy_admits np (db : NbDB) (ingress : bool) p : Prop :=
  (lax np = false /\ concerns np ProtocolIPv6 /\ pk_proto p = "icmp6") \/
  (concerned np db ingress p /\
    ((lax np = true /\ dhcp_exchange ingress p) \/
     exists protocol rule, concerns np protocol /\ rule ∈ the_rules ingress np /\ rule_admits np ingress protocol rule p)).

(** ** The ports *)

Lemma elem_list_pods namespace matches po : namespace <> "" -> po ∈ list_pods c namespace matches <->
  po ∈ npc_pods c /\ Pod_Namespace (po_pod po) = namespace /\ matches (po_Labels po) = true.
Proof. intros Hn. unfold list_pods. rewrite list_elem_of_filter. naive_solver. Qed.

Lemma elem_selected_ports providers pods l x : selected_ports c providers pods = Done (Ok l) ->
  x ∈ l <-> exists po nets, po ∈ pods /\ po_HostNetwork po = false /\ getPodKubeovnNets (npc_net c) po = Done (Ok nets) /\ x ∈ selected_nets c providers po nets.
Proof.
  revert l. induction pods as [|po pods IH]; intros l; cbn [selected_ports].
  - intros [= <-]. split; [by rewrite elem_of_nil|by intros (po & nets & ?%elem_of_nil & _)].
  - destruct (po_HostNetwork po) eqn:Eh.
    + intros E. rewrite (IH l E). split; intros (po' & nets & Hin & Hh & Hx); exists po', nets; (split; [|done]); [by right|].
      apply elem_of_cons in Hin as [->|Hin]; [by rewrite Eh in Hh|done].
    + destruct (getPodKubeovnNets (npc_net c) po) as [[nets|e]| |] eqn:En; try done. cbn [mbind outcome_bind wrapped].
      destruct (selected_ports c providers pods) as [[rest|e]| |] eqn:E; try done. cbn. intros [= <-]. rewrite elem_of_app, (IH rest eq_refl). split.
      * intros [Hx|(po' & nets' & Hin & Hx)]; [exists po, nets; split_and!; [by left|done..]|exists po', nets'; split; [by right|done]].
      * intros (po' & nets' & [->|Hin]%elem_of_cons & Hh & En' & Hx); [left; rewrite En in En'; by injection En' as <-|right; by exists po', nets'].
Qed.

Lemma elem_selected_nets providers po nets port sn : (port, sn) ∈ selected_nets c providers po nets <->
  exists net, net ∈ nets /\ isOvnSubnet (net_Subnet net) = true /\ netpolAppliesToProvider (ProviderName net) providers = true /\
    annotation (po_pod po) (template (ProviderName net) "allocated") = "true" /\
    port = PodNameToPortName (getNameByPod (nc_cluster (npc_net c)) (po_pod po)) (Pod_Namespace (po_pod po)) (ProviderName net) /\ sn = Name (net_Subnet net).
Proof.
  unfold selected_nets. rewrite list_elem_of_omap. split.
  - intros (net & Hin & E). exists net. split; [done|]. destruct (_ && _) eqn:Eb; [|done]. injection E as <- <-.
    apply andb_true_iff in Eb as [[E1 E2]%andb_true_iff E3%bool_decide_eq_true]. done.
  - intros (net & Hin & E1 & E2 & E3 & -> & ->). exists net. split; [done|]. by rewrite E1, E2, bool_decide_true.
Qed.

Lemma fetched_ports np ports subnetNames : np_Namespace np <> "" ->
  fetchSelectedPorts LabelSelectorAsSelector c (np_Namespace np) (spec_PodSelector (np_Spec np)) (parsePolicyFor (np_Annotations np)) = Done (Ok (ports, subnetNames)) ->
  (forall port, port ∈ ports <-> exists sn, selects_port np port sn) /\ (forall sn, sn ∈ subnetNames <-> exists port, selects_port np port sn).
Proof.
  intros Hn. unfold fetchSelectedPorts. destruct (LabelSelectorAsSelector (spec_PodSelector (np_Spec np))) as [matches|e] eqn:Es; [|done]. cbn [wrapped].
  destruct (selected_ports c (parsePolicyFor (np_Annotations np)) (list_pods c (np_Namespace np) matches)) as [[l|e]| |] eqn:E; try done. cbn. intros [= <- <-].
  assert (Hl : forall port sn, (port, sn) ∈ l <-> selects_port np port sn).
  { intros port sn. rewrite (elem_selected_ports _ _ _ _ E). unfold selects_port, applies_to, selector_matches. setoid_rewrite elem_selected_nets. setoid_rewrite (elem_list_pods _ _ _ Hn).
    rewrite Es. split.
    - intros (po & nets & (Hp & Hns & Hm) & Hh & En & net & Hin & E1 & E2 & E3 & Hport & Hsn). exists po, net. split_and!; try done; [by exists matches|by exists nets].
    - intros (po & net & Hp & Hns & (matches' & Em & Hm) & Hh & (nets & En & Hin & E2) & E1 & E3 & Hport & Hsn). injection Em as <-. exists po, nets. split_and!; try done. by exists net. }
  split.
  - intros port. rewrite list_elem_of_fmap. setoid_rewrite <-Hl. split; [intros ([? sn] & -> & Hx); by exists sn|intros (sn & Hx); by exists (port, sn)].
  - intros sn. rewrite elem_Compact, list_elem_of_fmap. setoid_rewrite <-Hl. split; [intros ([port ?] & -> & Hx); by exists port|intros (port & Hx); by exists (port, sn)].
Qed.

Lemma elem_protocol_set np ports subnetNames ps protocol : np_Namespace np <> "" ->
  fetchSelectedPorts LabelSelectorAsSelector c (np_Namespace np) (spec_PodSelector (np_Spec np)) (parsePolicyFor (np_Annotations np)) = Done (Ok (ports, subnetNames)) ->
  protocol_set c subnetNames = Ok ps -> protocol ∈ ps <-> concerns np protocol.
Proof.
  intros Hn Ef Ep. destruct (fetched_ports np ports subnetNames Hn Ef) as [_ Hs]. unfold protocol_set in Ep.
  destruct (collect (subnet_protocols c) subnetNames) as [l|e] eqn:El; [|done]. cbn in Ep. injection Ep as <-. rewrite elem_of_list_to_set. unfold concerns.
  rewrite list_elem_of_In, in_concat. setoid_rewrite <-list_elem_of_In. setoid_rewrite (collect_elem _ _ _ _ El). setoid_rewrite Hs.
  assert (Hsub : forall sn prs, subnet_protocols c sn = Ok prs <-> exists subnet, c_subnets (nc_cluster (npc_net c)) !! sn = Some subnet /\
    prs = if bool_decide (Protocol subnet = ProtocolDual) then [ProtocolIPv4; ProtocolIPv6] else [Protocol subnet]).
  { intros sn prs. unfold subnet_protocols, Get. destruct (c_subnets (nc_cluster (npc_net c)) !! sn) as [subnet|]; cbn; [|naive_solver]. split; [intros [= <-]; by exists subnet|].
    intros (subnet' & E & ->). by injection E as <-. }
  setoid_rewrite Hsub. split.
  - intros (prs & (sn & (port & Hport) & subnet & Esn & ->) & Hin). exists port, sn, subnet. split_and!; [done|done|].
    destruct (bool_decide _); rewrite !elem_of_cons, ?elem_of_nil in Hin; naive_solver.
  - intros (port & sn & subnet & Hport & Esn & Hpr). eexists. split; [exists sn; split; [by exists port|by exists subnet]|].
    destruct (bool_decide _); rewrite !elem_of_cons, ?elem_of_nil; naive_solver.
Qed.

(** ** The addresses of peers *)

Lemma elem_pod_addresses protocol providers po nets t : t ∈ pod_addresses protocol providers po nets <->
  exists net, net ∈ nets /\ netpolAppliesToProvider (ProviderName net) providers = true /\
    t ∈ Split (annotation (po_pod po) (template (ProviderName net) "ip_address")) "," /\ t <> "" /\ CheckProtocol t = protocol.
Proof.
  unfold pod_addresses. rewrite list_elem_of_bind. split.
  - intros (net & Ht & Hin). exists net. destruct (netpolAppliesToProvider _ _); [|by apply elem_of_nil in Ht]. apply list_elem_of_filter in Ht as [[? ?] ?]. done.
  - intros (net & Hin & E & Ht & Hne & Hp). exists net. split; [|done]. rewrite E. by apply list_elem_of_filter.
Qed.

Lemma elem_addresses_of protocol providers pods l t : addresses_of c protocol providers pods = Done (Ok l) ->
  t ∈ l <-> exists po nets, po ∈ pods /\ getPodKubeovnNets (npc_net c) po = Done (Ok nets) /\ t ∈ pod_addresses protocol providers po nets.
Proof.
  revert l. induction pods as [|po pods IH]; intros l; cbn [addresses_of].
  - intros [= <-]. split; [by rewrite elem_of_nil|by intros (po & nets & ?%elem_of_nil & _)].
  - destruct (getPodKubeovnNets (npc_net c) po) as [[nets|e]| |] eqn:En; try done. cbn [mbind outcome_bind].
    destruct (addresses_of c protocol providers pods) as [[rest|e]| |] eqn:E; try done. cbn. intros [= <-]. rewrite elem_of_app, (IH rest eq_refl). split.
    + intros [Hx|(po' & nets' & Hin & Hx)]; [exists po, nets; split_and!; [by left|done..]|exists po', nets'; split; [by right|done]].
    + intros (po' & nets' & [->|Hin]%elem_of_cons & En' & Hx); [left; rewrite En in En'; by injection En' as <-|right; by exists po', nets'].
Qed.

Lemma elem_addresses_in protocol providers selector namespaces l t : Forall (fun ns => ns <> "") namespaces ->
  addresses_in LabelSelectorAsSelector c protocol providers selector namespaces = Done (Ok l) ->
  t ∈ l <-> exists po nets, po ∈ npc_pods c /\ Pod_Namespace (po_pod po) ∈ namespaces /\ match selector with None => True | Some s => selector_matches s (po_Labels po) end /\
    getPodKubeovnNets (npc_net c) po = Done (Ok nets) /\ t ∈ pod_addresses protocol providers po nets.
Proof.
  intros Hall. revert l. induction Hall as [|ns namespaces Hne Hall IH]; intros l; cbn [addresses_in].
  - intros [= <-]. split; [by rewrite elem_of_nil|by intros (po & nets & _ & ?%elem_of_nil & _)].
  - assert (Hpm : forall pods, pods_matching LabelSelectorAsSelector c selector ns = Done pods -> forall po, po ∈ pods <->
      po ∈ npc_pods c /\ Pod_Namespace (po_pod po) = ns /\ match selector with None => True | Some s => selector_matches s (po_Labels po) end).
    { unfold pods_matching, selector_matches. intros pods Epods po. destruct selector as [s|].
      - destruct (LabelSelectorAsSelector s) as [matches|e]; [|done]. injection Epods as <-. rewrite elem_list_pods by done. split; [naive_solver|].
        intros (? & ? & matches' & Em & ?). by injection Em as <-.
      - injection Epods as <-. rewrite elem_list_pods by done. naive_solver. }
    destruct (pods_matching LabelSelectorAsSelector c selector ns) as [pods| |] eqn:Epods; try done. cbn [mbind outcome_bind].
    destruct (addresses_of c protocol providers pods) as [[l0|e]| |] eqn:E0; try done. cbn [mbind outcome_bind].
    destruct (addresses_in LabelSelectorAsSelector c protocol providers selector namespaces) as [[rest|e]| |] eqn:E; try done. cbn. intros [= <-].
    rewrite elem_of_app, (IH rest eq_refl), (elem_addresses_of _ _ _ _ _ E0). setoid_rewrite (Hpm pods eq_refl). setoid_rewrite elem_of_cons. naive_solver.
Qed.

Lemma elem_fetched np npp protocol l ex t : np_Namespace np <> "" -> Forall (fun ns => ns.1 <> "") (npc_namespaces c) -> peer_IPBlock npp = None ->
  (peer_PodSelector npp <> None \/ peer_NamespaceSelector npp <> None) ->
  fetchPolicySelectedAddresses LabelSelectorAsSelector c (np_Namespace np) protocol npp (parsePolicyFor (np_Annotations np)) = Done (Ok (l, ex)) ->
  t ∈ l <-> peer_address np npp protocol t.
Proof.
  intros Hn Hne Hb Hsel. unfold fetchPolicySelectedAddresses. rewrite Hb.
  assert (Hns : forall nss, selected_namespaces LabelSelectorAsSelector c (np_Namespace np) npp = Ok nss -> Forall (fun ns => ns <> "") nss /\ forall ns, ns ∈ nss <->
    match peer_NamespaceSelector npp with None => ns = np_Namespace np | Some s => exists labels, (ns, labels) ∈ npc_namespaces c /\ selector_matches s labels end).
  { intros nss. unfold selected_namespaces, selector_matches. destruct (peer_NamespaceSelector npp) as [s|].
    - destruct (LabelSelectorAsSelector s) as [matches|e]; [|done]. cbn. intros [= <-]. split.
      + apply Forall_fmap, Forall_forall. intros x Hx. apply list_elem_of_filter in Hx as [_ Hx]. rewrite Forall_forall in Hne. by apply Hne.
      + intros ns. rewrite list_elem_of_fmap. split.
        * intros ([ns' labels] & -> & Hx). apply list_elem_of_filter in Hx as [Hm Hx]. exists labels. split; [done|]. by exists matches.
        * intros (labels & Hx & matches' & Em & Hm). injection Em as <-. exists (ns, labels). split; [done|]. by apply list_elem_of_filter.
    - intros [= <-]. split; [by apply Forall_singleton|]. intros ns. by rewrite list_elem_of_singleton. }
  assert (Hin : forall nss rest, selected_namespaces LabelSelectorAsSelector c (np_Namespace np) npp = Ok nss ->
    addresses_in LabelSelectorAsSelector c protocol (parsePolicyFor (np_Annotations np)) (peer_PodSelector npp) nss = Done (Ok rest) -> t ∈ rest <-> peer_address np npp protocol t).
  { intros nss rest En Er. destruct (Hns nss En) as [Hall Hmem]. rewrite (elem_addresses_in _ _ _ _ _ _ Hall Er). unfold peer_address, peer_pod, applies_to.
    setoid_rewrite elem_pod_addresses. split.
    - intros (po & nets & Hp & Hx & Hs & Eg & net & Hn' & Ha & Ht). apply Hmem in Hx. exists po, net. split_and!; try done; [by exists nets|apply Ht..].
    - intros (po & net & (Hp & Hx & Hs) & (nets & Eg & Hn' & Ha) & Ht). exists po, nets. split_and!; try done; [by apply Hmem|]. by exists net. }
  destruct (peer_NamespaceSelector npp) as [s1|], (peer_PodSelector npp) as [s2|]; try (by destruct Hsel);
    (destruct (selected_namespaces _ _ _ _) as [nss|e] eqn:En; [|done]); cbn [mbind outcome_bind];
    (destruct (addresses_in _ _ _ _ _ _) as [[rest|e]| |] eqn:Er; [|done..]); cbn; intros [= <- <-]; exact (Hin nss rest eq_refl Er).
Qed.

(** A peer has a block or selectors, and not both. *)
Definition peer_valid npp : Prop :=
  (is_Some (peer_IPBlock npp) /\ peer_PodSelector npp = None /\ peer_NamespaceSelector npp = None) \/
  (peer_IPBlock npp = None /\ (peer_PodSelector npp <> None \/ peer_NamespaceSelector npp <> None)).

Context (Hne : Forall (fun ns => ns.1 <> "") (npc_namespaces c)).

Lemma elem_peers_of key np protocol peers allows blocks : np_Namespace np <> "" -> Forall peer_valid peers ->
  peers_of LabelSelectorAsSelector c (the_job c key np) protocol peers = Done (Ok (allows, blocks)) ->
  (forall t, t ∈ allows <-> Exists (fun npp => peer_IPBlock npp = None /\ peer_address np npp protocol t) peers) /\
  (forall b, b ∈ blocks <-> Exists (fun npp => peer_IPBlock npp = Some b) peers).
Proof.
  intros Hn Hall. revert allows blocks. induction Hall as [|npp peers Hv Hall IH]; intros allows blocks; cbn [peers_of].
  - intros [= <- <-]. split; intros x; by rewrite Exists_nil, elem_of_nil.
  - change (j_namespace (the_job c key np)) with (np_Namespace np). change (j_providers (the_job c key np)) with (parsePolicyFor (np_Annotations np)).
    destruct Hv as [([b Hb] & Hps & Hss)|[Hb Hs]].
    + rewrite Hps, Hss. cbn [mbind outcome_bind].
      destruct (peers_of LabelSelectorAsSelector c (the_job c key np) protocol peers) as [[[a0 b0]|e]| |] eqn:E; try done. cbn. rewrite Hb. intros [= <- <-].
      destruct (IH a0 b0 eq_refl) as [IHa IHb]. split; intros x; cbn; rewrite ?elem_of_cons, Exists_cons, ?IHa, ?IHb, Hb; naive_solver.
    + pose proof (elem_fetched np npp protocol) as Hf.
      destruct (peer_PodSelector npp) as [s|] eqn:Eps; [|destruct (peer_NamespaceSelector npp) as [s|] eqn:Ens; [|by destruct Hs]]; cbn [mbind outcome_bind];
        (destruct (fetchPolicySelectedAddresses LabelSelectorAsSelector c (np_Namespace np) protocol npp (parsePolicyFor (np_Annotations np))) as [[[l ex]|e]| |]; [|done..]);
        cbn [mbind outcome_bind result_bind fst];
        (destruct (peers_of LabelSelectorAsSelector c (the_job c key np) protocol peers) as [[[a0 b0]|e]| |] eqn:E; [|done..]);
        cbn; rewrite Hb; intros [= <- <-]; destruct (IH a0 b0 eq_refl) as [IHa IHb];
        (split; intros x; cbn; rewrite ?elem_of_app, Exists_cons, ?IHa, ?IHb, Hb; [rewrite (Hf l ex x Hn Hne Hb Hs eq_refl); naive_solver|naive_solver]).
Qed.

(** What the sources of a rule admit is what the rule says. *)
Lemma sources_admit key np protocol rule (a : addr) : np_Namespace np <> "" -> Forall peer_valid (rule_Peers rule) ->
  readable LabelSelectorAsSelector c (the_job c key np) protocol rule ->
  (Exists (fun t => th (normalize t) a = true) (sources LabelSelectorAsSelector c (the_job c key np) protocol rule).1 \/
   Exists (block_allows (H := texts_only th) protocol a) (sources LabelSelectorAsSelector c (the_job c key np) protocol rule).2) <->
  (if bool_decide (rule_Peers rule = []) then th (normalize (every_address protocol)) a = true
   else Exists (fun npp => peer_admits np npp protocol a) (rule_Peers rule)).
Proof.
  intros Hn Hv (Es & _ & _). destruct (sources LabelSelectorAsSelector c (the_job c key np) protocol rule) as [allows blocks]. cbn [fst snd]. unfold rule_sources in Es.
  destruct (rule_Peers rule) as [|npp0 peers0] eqn:Ep.
  - rewrite bool_decide_true by done. injection Es as <- <-. fold (every_address protocol). rewrite Exists_cons, !Exists_nil. tauto.
  - rewrite bool_decide_false by done. destruct (elem_peers_of key np protocol _ allows blocks Hn Hv Es) as [Ha Hb]. rewrite !Exists_exists. setoid_rewrite Ha. setoid_rewrite Hb.
    setoid_rewrite Exists_exists. unfold peer_admits, block_allows, block_excepts. split.
    + intros [(t & (npp & Hin & Hx & Ht) & Hth)|(b & (npp & Hin & Hx) & H1 & H2 & H3)]; exists npp; (split; [done|]); rewrite Hx.
      * by exists t.
      * split_and!; [done|done|]. intros e He Hp Hc. rewrite Forall_forall in H3. apply H3, list_elem_of_filter. done.
    + intros (npp & Hin & Hx). destruct (peer_IPBlock npp) as [b|] eqn:Eb.
      * right. exists b. split; [by exists npp|]. destruct Hx as (H1 & H2 & H3). split_and!; [done|done|]. apply Forall_forall. intros e [[? ?] ?]%list_elem_of_filter. by apply H3.
      * left. destruct Hx as (t & Ht & Hth). exists t. split; [by exists npp|done].
Qed.

(** ** What the controller enforces *)

(** The database lets pass what the policy admits and drops the rest; everything that
    is not of the policy is as it was. *)
Record policy_enforced (key : string) np (db db' : NbDB) : Prop := {
  pe_world : np_world c key np db';
  pe_ports : forall port, group_has (Ovn := ovn_of th db') (j_pgName (the_job c key np)) port = true <->
    (exists subnetName, selects_port np port subnetName) /\ is_Some (o_lsps (nb_obj db) !! port);
  pe_lss : nb_lss db' = nb_lss db;
  pe_lsps : o_lsps (nb_obj db') = o_lsps (nb_obj db);
  pe_rows : forall pg, pg <> j_pgName (the_job c key np) -> nb_pgs db' !! pg = nb_pgs db !! pg;
  pe_groups : forall pg, pg <> j_pgName (the_job c key np) -> o_pgs (nb_obj db') !! pg = o_pgs (nb_obj db) !! pg;
  pe_sets : forall s, (forall ingress kind protocol idx, s <> as_name (the_job c key np) ingress kind protocol idx) ->
    (forall ingress, ~ owned (the_job c key np) ingress db s) -> o_sets (nb_obj db') !! s = o_sets (nb_obj db) !! s;
  pe_verdict : forall ingress p, has_rules ingress np = true ->
    let acls := way (dir_acl ingress) (acls_at portGroupKey (j_pgName (the_job c key np)) db') in
    (passes (H := ovn_of th db') acls p <-> policy_admits np db ingress p) /\
    (verdict (H := ovn_of th db') acls ACLActionDrop p <-> (concerned np db ingress p /\ blocked (lax np) p) /\ ~ policy_admits np db ingress p);
  pe_open : forall ingress p, has_rules ingress np = false ->
    ~ verdict (H := ovn_of th db') (way (dir_acl ingress) (acls_at portGroupKey (j_pgName (the_job c key np)) db')) ACLActionDrop p
}.

Lemma concerned_selected np ports subnetNames db ingress p : np_Namespace np <> "" ->
  fetchSelectedPorts LabelSelectorAsSelector c (np_Namespace np) (spec_PodSelector (np_Spec np)) (parsePolicyFor (np_Annotations np)) = Done (Ok (ports, subnetNames)) ->
  selected ports db ingress p <-> concerned np db ingress p.
Proof. intros Hn Ef. destruct (fetched_ports np ports subnetNames Hn Ef) as [Hp _]. unfold selected, concerned. by rewrite Hp. Qed.

Lemma admitted_policy key np ports ps db ingress p : np_ready LabelSelectorAsSelector c key np ports ps -> Forall peer_valid (all_peers np) ->
  admitted LabelSelectorAsSelector c th key np ports ps db ingress p <-> policy_admits np db ingress p.
Proof.
  intros Hr Hv. destruct (nr_found _ _ _ _ _ _ Hr) as (subnetNames & Ef & Ep). destruct (nr_namespace _ _ _ _ _ _ Hr) as [Hn _].
  pose proof (elem_protocol_set np ports subnetNames ps) as Hps. unfold admitted, policy_admits, gateway_open, rules_let.
  rewrite (concerned_selected np ports subnetNames db ingress p Hn Ef), <-(Hps ProtocolIPv6 Hn Ef Ep).
  assert (Hx : Exists (fun protocol => Exists (fun rule => rule_lets LabelSelectorAsSelector c th (the_job c key np) ingress protocol rule p) (the_rules ingress np)) (elements ps) <->
    exists protocol rule, concerns np protocol /\ rule ∈ the_rules ingress np /\ rule_admits np ingress protocol rule p); [|by rewrite Hx].
  rewrite Exists_exists. setoid_rewrite Exists_exists. setoid_rewrite elem_of_elements. setoid_rewrite (fun protocol => Hps protocol Hn Ef Ep).
  assert (Hl : forall protocol rule, protocol ∈ ps -> rule ∈ the_rules ingress np ->
    rule_lets LabelSelectorAsSelector c th (the_job c key np) ingress protocol rule p <-> rule_admits np ingress protocol rule p).
  { intros protocol rule Hp Hin. unfold rule_lets, rule_admits. rewrite (sources_admit key np protocol rule); [done|done| |].
    - rewrite Forall_forall in Hv. apply Forall_forall. intros npp Hnpp. apply Hv. unfold all_peers. apply list_elem_of_bind. exists rule. split; [done|].
      apply elem_of_app. destruct ingress; [by left|by right].
    - pose proof (nr_readable _ _ _ _ _ _ Hr protocol ingress Hp) as Hrd. rewrite Forall_forall in Hrd. by apply Hrd. }
  split.
  - intros (protocol & Hc & rule & Hin & Hx). exists protocol, rule. split_and!; [done|done|]. apply Hl; [by apply Hps|done|done].
  - intros (protocol & rule & Hc & Hin & Hx). exists protocol. split; [done|]. exists rule. split; [done|]. apply Hl; [by apply Hps|done|done].
Qed.

Lemma enforced_policy key np ports ps db db' : np_ready LabelSelectorAsSelector c key np ports ps -> Forall peer_valid (all_peers np) ->
  np_enforced LabelSelectorAsSelector c th key np ports ps db db' -> policy_enforced key np db db'.
Proof.
  intros Hr Hv [W P L S R G T V O]. destruct (nr_found _ _ _ _ _ _ Hr) as (subnetNames & Ef & Ep). destruct (nr_namespace _ _ _ _ _ _ Hr) as [Hn _].
  split; [done| |done|done|done|done|done| |done].
  - intros port. rewrite (P port), S. by rewrite (proj1 (fetched_ports np ports subnetNames Hn Ef)).
  - intros ingress p Hh. destruct (V ingress p Hh) as [V1 V2]. cbv zeta. rewrite V1, V2, (concerned_selected np ports subnetNames db ingress p Hn Ef), (admitted_policy key np ports ps) by done. done.
Qed.

End Spec.
