(* ===== verification/NpEvents.v ===== *)
(** * Removing a network policy, and the pods that do not concern one

    [handleDeleteNp] takes from the database what [handleUpdateNp] put there, and a
    pod that no selector of a policy matches makes no difference to
    [handleUpdateNp], so that the controller need not run it. *)
From Stdlib Require Import Ascii.
From S2P Require Import Prelude GoStrings GoNet GoNetText UtilNet Validator GoText PodAddress AclMatch NbDb NbDhcp NbLsp NbGroups NbAcl NbAclFacts NbDhcpFacts NbLspFacts NbWorld PolicyAcl AclMeaning PolicyFacts PolicyVerdict SgTable LsAcl LsAclFacts PodNets NamedPort NetworkPolicy NetworkPolicyFacts NpDirection NpHandler.

Local Open Scope Z_scope.

(** ** Removing the port group *)

Lemma rows_of_delete p rows (x : gmap string (list row)) : x !! p = Some rows -> rows_of x ≡ₚ rows ++ rows_of (delete p x).
Proof. intros Hx. unfold rows_of. by rewrite <-(map_to_list_delete x p rows Hx). Qed.

Lemma delete_group_world pg db : world db -> world (apply_op (OpPgDelete [pg]) db).
Proof.
  intros [Hok Ha Hg Hn]. split; [|done| |done].
  - assert (Hp : exists rows, all_rows db ≡ₚ rows ++ all_rows (apply_op (OpPgDelete [pg]) db)).
    { unfold all_rows. cbn. destruct (nb_pgs db !! pg) as [rows|] eqn:E; [|exists []; by rewrite delete_id].
      exists rows. by rewrite (rows_of_delete _ _ _ E), <-app_assoc. }
    destruct Hp as [rows Hp]. pose proof (ok_unique _ Hok) as Hu. rewrite Hp, fmap_app in Hu. apply NoDup_app in Hu as (_ & _ & Hu).
    pose proof (ok_next _ Hok) as Hx. rewrite Hp, Forall_app in Hx. split; [done|apply Hx| |].
    + intros t p rows' [-> | ->] Hr; unfold parents in Hr; cbn in Hr.
      * apply lookup_delete_Some in Hr as [_ Hr]. eapply (ok_parent _ Hok portGroupKey); [by left|exact Hr].
      * eapply (ok_parent _ Hok LogicalSwitchKey); [by right|exact Hr].
    + pose proof (ok_names _ Hok) as Hd. cbn. rewrite dom_delete_L. set_solver.
  - cbn. by rewrite !dom_delete_L, Hg.
Qed.

Lemma DeletePortGroup_ok pg db : world db -> pg <> "" -> DeletePortGroup [pg] db = Done (Ok (), apply_op (OpPgDelete [pg]) db).
Proof.
  intros [Hok Ha Hg Hn] Hne. unfold DeletePortGroup.
  rewrite (bind_done _ _ db (option_list ((fun _ => pg) <$> o_pgs (nb_obj db) !! pg)) db).
  2:{ apply reading_done. unfold existing_groups, existing_group, GetPortGroup. cbn. rewrite bool_decide_false by done. by destruct (o_pgs (nb_obj db) !! pg). }
  destruct (o_pgs (nb_obj db) !! pg) as [g|] eqn:E; cbn [fmap option_list].
  - apply wrapping_done. by rewrite Transact_accepting.
  - assert (Hx : nb_pgs db !! pg = None) by (apply not_elem_of_dom; rewrite Hg; by apply not_elem_of_dom).
    cbn. rewrite !delete_id by done. by destruct db as [? ? ? [] ? ?].
Qed.

Lemma attempt_all_cons m l db db' : m db = Done (Ok (), db') -> attempt_all (m :: l) db = attempt_all l db'.
Proof.
  intros E. cbn [attempt_all]. rewrite (bind_done _ _ db None db') by (unfold attempt; by rewrite E). unfold mbind at 1, db_bind.
  by destruct (attempt_all l db') as [[[[e|]|e] d]| |].
Qed.

(** ** Removing a policy *)

Section Removal.

Context {sel : Type} (c : NpCluster sel).

Implicit Types (np : NetworkPolicy sel).

Record np_removed (key : string) np (db db' : NbDB) : Prop := {
  nm_world : world db';
  nm_rows : nb_pgs db' = delete (j_pgName (the_job c key np)) (nb_pgs db);
  nm_groups : o_pgs (nb_obj db') = delete (j_pgName (the_job c key np)) (o_pgs (nb_obj db));
  nm_meters : nb_meters db' = delete_all (networkPolicyMeterNames (j_pgName (the_job c key np))) (nb_meters db);
  nm_lss : nb_lss db' = nb_lss db;
  nm_lsps : o_lsps (nb_obj db') = o_lsps (nb_obj db);
  nm_names : forall ingress kind protocol idx, set_kind kind -> ip_protocol protocol -> o_sets (nb_obj db') !! as_name (the_job c key np) ingress kind protocol idx = None;
  nm_owned : forall ingress s, owned (the_job c key np) ingress db s -> o_sets (nb_obj db') !! s = None;
  nm_sets : forall s, (forall ingress, ~ owned (the_job c key np) ingress db s) -> o_sets (nb_obj db') !! s = o_sets (nb_obj db) !! s
}.

Lemma handleDeleteNp_ok key np db : SplitMetaNamespaceKey key = Some (np_Namespace np, np_Name np) -> dns_name (np_Name np) -> dns_name (np_Namespace np) ->
  np_world c key np db -> exists db', handleDeleteNp key db = Done (Ok (), db') /\ np_removed key np db db'.
Proof.
  intros Hk Hn Hns [Hw _ _ _ Hsets]. destruct (the_job_named c key np Hn Hns) as [Hnj En]. set (j := the_job c key np) in *.
  assert (Hne : j_pgName j <> "") by (pose proof (npPortGroupName_ok j Hnj) as Ho; by apply name_ok_iff in Ho as [? _]).
  pose (db1 := set_meters (delete (j_pgName j +:+ "_to-lport_meter") (nb_meters db)) db).
  pose (db2 := set_meters (delete (j_pgName j +:+ "_from-lport_meter") (nb_meters db1)) db1).
  assert (W2 : world db2) by (destruct Hw as [[] ? ? ?]; split; [by split|done..]). pose proof (delete_group_world (j_pgName j) db2 W2) as W3. set (db3 := apply_op (OpPgDelete [j_pgName j]) db2) in *.
  destruct (DeleteAddressSets_ok ∅ j true db3 W3) as (db4 & E4 & Q4 & D4 & M4). pose proof (q_world _ _ _ _ Q4) as W4.
  destruct (DeleteAddressSets_ok ∅ j false db4 W4) as (db5 & E5 & Q5 & D5 & M5).
  assert (H45 : forall i s, owned j i db s -> o_sets (nb_obj db5) !! s = None).
  { intros i s Hs. rewrite D5. case_bool_decide as Hd; [done|]. rewrite D4. case_bool_decide as Hd'; [done|]. rewrite elem_owned in Hd, Hd'. destruct i; [done|].
    destruct Hs as (x & Hx & Hid). destruct Hd. exists x. split; [|done]. rewrite D4. by rewrite bool_decide_false by (by rewrite elem_owned). }
  exists db5. split.
  - unfold handleDeleteNp. rewrite Hk, (bind_done _ _ db (the_name np) db) by (unfold running; by rewrite En). cbv zeta.
    rewrite (bind_done _ _ db None db5); [done|]. cbn [networkPolicyMeterNames fmap list_fmap app]. fold (j_pgName j).
    rewrite (attempt_all_cons _ _ db db1) by (apply DeleteMeter_exact, Hw). rewrite (attempt_all_cons _ _ db1 db2) by (apply DeleteMeter_exact, Hw).
    rewrite (attempt_all_cons _ _ db2 db3) by (by apply DeletePortGroup_ok). rewrite (attempt_all_cons _ _ db3 db4) by exact E4. by rewrite (attempt_all_cons _ _ db4 db5).
  - split.
    + apply (q_world _ _ _ _ Q5).
    + by rewrite (q_rows _ _ _ _ Q5), (q_rows _ _ _ _ Q4).
    + by rewrite (q_groups _ _ _ _ Q5), (q_groups _ _ _ _ Q4).
    + rewrite M5, M4. cbn. apply delete_delete.
    + by rewrite (q_lss _ _ _ _ Q5), (q_lss _ _ _ _ Q4).
    + by rewrite (q_lsps _ _ _ _ Q5), (q_lsps _ _ _ _ Q4).
    + intros i kind protocol idx Hki Hpr. destruct (o_sets (nb_obj db) !! as_name j i kind protocol idx) as [x|] eqn:Ex.
      * apply (H45 i), Hsets; [done|done|by eexists].
      * rewrite D5, D4. case_bool_decide; [done|]. by case_bool_decide.
    + exact H45.
    + intros s Hno. rewrite D5, bool_decide_false.
      * rewrite D4, bool_decide_false; [done|]. rewrite elem_owned. apply (Hno true).
      * rewrite elem_owned. intros (x & Hx & Hid). apply (Hno false). exists x. split; [|done]. rewrite D4 in Hx. by case_bool_decide.
Qed.

End Removal.

(** ** Pods that do not concern a policy *)

Lemma gather_ext {A} (f g : A -> DB (list operation)) l : (forall x, x ∈ l -> f x = g x) -> gather f l = gather g l.
Proof.
  induction l as [|x l IH]; [done|]. intros E. cbn [gather]. rewrite (E x) by (by left). rewrite IH; [done|]. intros y Hy. apply E. by right.
Qed.

Lemma bind_same {A B} (m : DB A) (f g : A -> DB B) db : (forall x db', m db = Done (Ok x, db') -> f x db' = g x db') -> mbind f m db = mbind g m db.
Proof. intros E. unfold mbind, db_bind. destruct (m db) as [[[x|e] db']| |]; [|done..]. cbn. by apply E. Qed.

Lemma gather_same {A} (f g : A -> DB (list operation)) l db : (forall x db, x ∈ l -> f x db = g x db) -> gather f l db = gather g l db.
Proof.
  revert db. induction l as [|x l IH]; intros db E; [done|]. cbn [gather]. unfold mbind at 1 3, db_bind at 1 3. rewrite (E x) by (by left).
  destruct (g x db) as [[[ops|e] db1]| |]; [|done..]. unfold mbind, db_bind. rewrite IH; [done|]. intros y db2 Hy. apply E. by right.
Qed.

(** The same caches with other pods. *)
Definition with_pods {sel} (pods : list PodObject) (c : NpCluster sel) : NpCluster sel :=
  mkNpCluster (npc_net c) pods (npc_namespaces c) (npc_policies c) (npc_named c) (NetworkPolicyEnforcement c).

Section Irrelevant.

Context {sel : Type} (LabelSelectorAsSelector : sel -> result (gmap string string -> bool)) `{Multus} (c : NpCluster sel).
Context (before after : list PodObject) (po : PodObject) (labels : gmap string string).
Hypotheses (Hpods : npc_pods c = before ++ po :: after) (Hns : (Pod_Namespace (po_pod po), labels) ∈ npc_namespaces c)
  (Hnd : NoDup (npc_namespaces c).*1) (Hne : Forall (fun ns => ns.1 <> "") (npc_namespaces c)).

Implicit Types (np : NetworkPolicy sel) (rule : NetworkPolicyRule sel) (npp : NetworkPolicyPeer sel).

(** The caches without the pod. *)
Definition without : NpCluster sel := with_pods (before ++ after) c.

Lemma list_pods_without namespace matches : namespace <> "" -> ~ (Pod_Namespace (po_pod po) = namespace /\ matches (po_Labels po) = true) ->
  list_pods c namespace matches = list_pods without namespace matches.
Proof.
  intros Hn Ho. unfold list_pods. cbn. rewrite Hpods, !filter_app, filter_cons_False; [done|]. intros [[?|?] ?]; [done|by apply Ho].
Qed.

(** The namespace of the pod is known under its labels only. *)
Lemma labels_of_namespace l : (Pod_Namespace (po_pod po), l) ∈ npc_namespaces c -> l = labels.
Proof.
  intros Hl. apply list_elem_of_lookup in Hl as [i Hi], Hns as Hk. destruct Hk as [k Hk]. assert (i = k) as ->.
  { eapply NoDup_lookup; [exact Hnd|by rewrite list_lookup_fmap, Hi|by rewrite list_lookup_fmap, Hk]. }
  rewrite Hi in Hk. by injection Hk.
Qed.

(** Of the namespaces of a peer that does not match the pod, one with the pod is
    looked at with a selector that does not match it. *)
Lemma namespaces_without np npp l ns : np_Namespace np <> "" -> peer_IPBlock npp = None ->
  isPodMatchPolicyPeer LabelSelectorAsSelector po (Pod_Namespace (po_pod po), labels) npp (np_Namespace np) = false ->
  selected_namespaces LabelSelectorAsSelector c (np_Namespace np) npp = Ok l -> ns ∈ l ->
  ns <> "" /\ (Pod_Namespace (po_pod po) = ns ->
    match peer_PodSelector npp with None => False | Some s => ObjectMatchesLabelSelector LabelSelectorAsSelector (po_Labels po) s = false end).
Proof.
  intros Hnp Hb Hm. unfold isPodMatchPolicyPeer in Hm. rewrite Hb, bool_decide_false in Hm by (by intros []). cbn [fst snd] in Hm.
  unfold selected_namespaces. destruct (peer_NamespaceSelector npp) as [s|].
  - destruct (LabelSelectorAsSelector s) as [matches|e] eqn:Es; [|done]. cbn. intros [= <-] Hin.
    apply list_elem_of_fmap in Hin as ([ns' l'] & -> & Hin). apply list_elem_of_filter in Hin as [Hmat Hin]. cbn in *.
    rewrite Forall_forall in Hne. split; [exact (Hne _ Hin)|]. intros Ep. rewrite <-Ep in Hin. apply labels_of_namespace in Hin as ->.
    unfold ObjectMatchesLabelSelector in Hm at 1. rewrite Es, Hmat in Hm. by destruct (peer_PodSelector npp).
  - intros [= <-] ->%list_elem_of_singleton. split; [done|]. intros Ep. rewrite bool_decide_true in Hm by done. by destruct (peer_PodSelector npp).
Qed.

Lemma matching_without selector ns : ns <> "" -> (Pod_Namespace (po_pod po) = ns ->
    match selector with None => False | Some s => ObjectMatchesLabelSelector LabelSelectorAsSelector (po_Labels po) s = false end) ->
  pods_matching LabelSelectorAsSelector c selector ns = pods_matching LabelSelectorAsSelector without selector ns.
Proof.
  intros Hn Ho. unfold pods_matching. destruct selector as [s|].
  - unfold ObjectMatchesLabelSelector in Ho. destruct (LabelSelectorAsSelector s) as [matches|e]; [|done]. f_equal. apply list_pods_without; [done|].
    intros [Hp Hx]. by rewrite (Ho Hp) in Hx.
  - f_equal. apply list_pods_without; [done|]. by intros [? _].
Qed.

(** A peer of selectors that does not match the pod. *)
Lemma addresses_without np npp protocol providers : np_Namespace np <> "" -> peer_IPBlock npp = None ->
  isPodMatchPolicyPeer LabelSelectorAsSelector po (Pod_Namespace (po_pod po), labels) npp (np_Namespace np) = false ->
  fetchPolicySelectedAddresses LabelSelectorAsSelector c (np_Namespace np) protocol npp providers =
  fetchPolicySelectedAddresses LabelSelectorAsSelector without (np_Namespace np) protocol npp providers.
Proof.
  intros Hnp Hb Hm. unfold fetchPolicySelectedAddresses. change (selected_namespaces LabelSelectorAsSelector without) with (selected_namespaces LabelSelectorAsSelector c).
  assert (Hin : forall l, selected_namespaces LabelSelectorAsSelector c (np_Namespace np) npp = Ok l ->
    addresses_in LabelSelectorAsSelector c protocol providers (peer_PodSelector npp) l = addresses_in LabelSelectorAsSelector without protocol providers (peer_PodSelector npp) l).
  { intros l El. pose proof (fun ns => namespaces_without np npp l ns Hnp Hb Hm El) as Hl. clear El. induction l as [|ns l IH]; [done|]. cbn [addresses_in].
    destruct (Hl ns ltac:(by left)) as [H1 H2]. rewrite (matching_without _ _ H1 H2), IH; [done|]. intros ns' Hns'. apply Hl. by right. }
  destruct (peer_NamespaceSelector npp), (peer_PodSelector npp); try done; (destruct (selected_namespaces _ _ _ _) as [l|e] eqn:El; [|done]); by rewrite Hin.
Qed.

(** The peers of a policy are a block, or selectors that do not match the pod. *)
Definition unmatched np npp : Prop := (peer_PodSelector npp = None /\ peer_NamespaceSelector npp = None) \/
  (peer_IPBlock npp = None /\ isPodMatchPolicyPeer LabelSelectorAsSelector po (Pod_Namespace (po_pod po), labels) npp (np_Namespace np) = false).

Lemma rule_without key np protocol rule : np_Namespace np <> "" -> Forall (unmatched np) (rule_Peers rule) ->
  rule_sources LabelSelectorAsSelector c (the_job c key np) protocol rule = rule_sources LabelSelectorAsSelector without (the_job c key np) protocol rule.
Proof.
  intros Hnp Hall. unfold rule_sources.
  assert (Hp : peers_of LabelSelectorAsSelector c (the_job c key np) protocol (rule_Peers rule) = peers_of LabelSelectorAsSelector without (the_job c key np) protocol (rule_Peers rule)).
  { induction Hall as [|npp peers Hu _ IH]; [done|]. cbn [peers_of]. rewrite IH. destruct Hu as [[-> ->]|[Hb Hm]]; [done|].
    change (j_namespace (the_job c key np)) with (np_Namespace np). by rewrite (addresses_without np npp protocol _ Hnp Hb Hm). }
  by destruct (rule_Peers rule).
Qed.

Lemma direction_without key np ingress protocols : np_Namespace np <> "" -> Forall (fun rule => Forall (unmatched np) (rule_Peers rule)) (the_rules ingress np) ->
  update_rules LabelSelectorAsSelector c (the_job c key np) ingress (the_rules ingress np) protocols =
  update_rules LabelSelectorAsSelector without (the_job c key np) ingress (the_rules ingress np) protocols.
Proof.
  intros Hnp Hall. rewrite Forall_forall in Hall. unfold update_rules.
  assert (Hp : gather (protocol_ops LabelSelectorAsSelector c (the_job c key np) ingress (the_rules ingress np)) protocols =
    gather (protocol_ops LabelSelectorAsSelector without (the_job c key np) ingress (the_rules ingress np)) protocols).
  { apply gather_ext. intros protocol _. unfold protocol_ops. destruct (the_rules ingress np) as [|r0 rules]; [done|]. apply gather_ext. intros [i rule] Hin.
    apply elem_imap_pair, list_elem_of_lookup_2 in Hin. unfold rule_ops. cbn [fst snd]. by rewrite (rule_without key np protocol rule Hnp (Hall _ Hin)). }
  by rewrite Hp.
Qed.

Lemma selection_without np providers : np_Namespace np <> "" ->
  (Pod_Namespace (po_pod po) = np_Namespace np -> exists matches, LabelSelectorAsSelector (spec_PodSelector (np_Spec np)) = Ok matches /\ matches (po_Labels po) = false) ->
  fetchSelectedPorts LabelSelectorAsSelector c (np_Namespace np) (spec_PodSelector (np_Spec np)) providers =
  fetchSelectedPorts LabelSelectorAsSelector without (np_Namespace np) (spec_PodSelector (np_Spec np)) providers.
Proof.
  intros Hnp Ho. unfold fetchSelectedPorts. destruct (LabelSelectorAsSelector (spec_PodSelector (np_Spec np))) as [matches|e] eqn:Es; [|done]. cbn [wrapped].
  change (selected_ports without) with (selected_ports c). rewrite (list_pods_without (np_Namespace np) matches); [done|done|]. intros [Hp Hm].
  destruct (Ho Hp) as (matches' & E & Hm'). injection E as <-. by rewrite Hm in Hm'.
Qed.

Lemma isPodMatch_false np : isPodMatchNetworkPolicy LabelSelectorAsSelector po (Pod_Namespace (po_pod po), labels) np = Done false ->
  (Pod_Namespace (po_pod po) = np_Namespace np -> exists matches, LabelSelectorAsSelector (spec_PodSelector (np_Spec np)) = Ok matches /\ matches (po_Labels po) = false) /\
  forall npp, npp ∈ all_peers np -> isPodMatchPolicyPeer LabelSelectorAsSelector po (Pod_Namespace (po_pod po), labels) npp (np_Namespace np) = false.
Proof.
  unfold isPodMatchNetworkPolicy. cbn [fst snd]. intros Hm. assert (He : forall b, b || existsb (fun npp => isPodMatchPolicyPeer LabelSelectorAsSelector po (Pod_Namespace (po_pod po), labels) npp (np_Namespace np)) (all_peers np) = false ->
    b = false /\ forall npp, npp ∈ all_peers np -> isPodMatchPolicyPeer LabelSelectorAsSelector po (Pod_Namespace (po_pod po), labels) npp (np_Namespace np) = false).
  { intros b [Hb Hx]%orb_false_iff. split; [done|]. intros npp Hin. apply not_true_is_false. intros Ht. apply not_true_iff_false in Hx. apply Hx, existsb_exists. exists npp.
    split; [by apply list_elem_of_In|done]. }
  case_bool_decide as Hd.
  - destruct (LabelSelectorAsSelector _) as [matches|e]; [|done]. cbn in Hm. injection Hm as Hm. apply He in Hm as [Hb Hx]. split; [|done]. intros _. by exists matches.
  - cbn in Hm. injection Hm as Hm. by apply (He false) in Hm as [_ Hx].
Qed.

Lemma update_without walkIngress walkEgress key np db : np_Namespace np <> "" ->
  Forall (fun npp => peer_IPBlock npp = None \/ (peer_PodSelector npp = None /\ peer_NamespaceSelector npp = None)) (all_peers np) ->
  isPodMatchNetworkPolicy LabelSelectorAsSelector po (Pod_Namespace (po_pod po), labels) np = Done false ->
  update_policy LabelSelectorAsSelector c walkIngress walkEgress key np db = update_policy LabelSelectorAsSelector without walkIngress walkEgress key np db.
Proof.
  intros Hnp Hb [Hsel Hpeers]%isPodMatch_false. rewrite Forall_forall in Hb.
  assert (Hall : forall ingress, Forall (fun rule => Forall (unmatched np) (rule_Peers rule)) (the_rules ingress np)).
  { intros ingress. apply Forall_forall. intros rule Hr. apply Forall_forall. intros npp Hn. assert (Hin : npp ∈ all_peers np).
    { unfold all_peers. apply list_elem_of_bind. exists rule. split; [done|]. apply elem_of_app. destruct ingress; [by left|by right]. }
    destruct (Hb _ Hin) as [Hx|Hx]; [right|by left]. split; [done|]. by apply Hpeers. }
  unfold update_policy. apply bind_same. intros npName db0 En. assert (Ej : the_job c key np = np_job c key np npName).
  { unfold the_job, the_name. unfold running in En. destruct (np_name (np_Name np)) as [n| |]; [|done|done]. by injection En as <- <-. }
  cbv zeta. change (np_job without key np npName) with (np_job c key np npName). rewrite <-Ej. rewrite <-(selection_without np (j_providers (the_job c key np)) Hnp Hsel).
  change (protocol_set without) with (protocol_set c).
  apply bind_same; intros _ ? _. apply bind_same; intros [ports subnetNames] ? _. apply bind_same; intros protocolSet ? _. apply bind_same; intros _ ? _.
  pose proof (direction_without key np true (walkIngress protocolSet) Hnp (Hall true)) as Hi. pose proof (direction_without key np false (walkEgress protocolSet) Hnp (Hall false)) as He.
  unfold the_rules in Hi, He. by rewrite Hi, He.
Qed.

End Irrelevant.

(** ** The numbers of named ports *)

(** The names of ports in the rules of a policy. *)
Definition port_names (ports : list NetworkPolicyPort) : list string :=
  omap (fun port => match np_Port port with Some (StrVal name) => Some name | _ => None end) ports.

Definition policy_port_names {sel} (np : NetworkPolicy sel) : list string :=
  (the_rules true np ++ the_rules false np) ≫= (fun rule => port_names (rule_Ports rule)).

(** Two tables give the same numbers for the given names. *)
Definition same_numbers (names : list string) (named named' : gmap string Z) : Prop := forall name, name ∈ names -> named !! name = named' !! name.

Lemma same_numbers_app l k named named' : same_numbers (l ++ k) named named' -> same_numbers l named named' /\ same_numbers k named named'.
Proof. intros Hs. split; intros name Hn; apply Hs, elem_of_app; [by left|by right]. Qed.

Lemma rule_matches_numbers named named' allowed ports : same_numbers (port_names ports) named named' -> rule_matches named allowed ports = rule_matches named' allowed ports.
Proof.
  intros Hs. assert (Hp : ports_matches named allowed ports = ports_matches named' allowed ports); [|by destruct ports].
  induction ports as [|port ports IH]; [done|]. cbn [ports_matches]. change (port :: ports) with ([port] ++ ports) in Hs. unfold port_names in Hs. rewrite omap_app in Hs.
  apply same_numbers_app in Hs as [H1 H2]. rewrite (IH H2). unfold port_matches. destruct (np_Protocol port); [|done]. cbn [of_option mbind outcome_bind].
  cbn in H1. destruct (np_Port port) as [[n|name]|]; [done| |done]. destruct (np_EndPort port); [done|]. by rewrite (H1 name) by (by left).
Qed.

(** The same caches with another table of named ports. *)
Definition with_named {sel} (named : NamedPort) (c : NpCluster sel) : NpCluster sel :=
  mkNpCluster (npc_net c) (npc_pods c) (npc_namespaces c) (npc_policies c) named (NetworkPolicyEnforcement c).

Definition set_numbers (named : gmap string Z) (j : Job) : Job :=
  mkJob (j_key j) (j_namespace j) (j_npName j) (j_pgName j) (j_log j) (j_actions j) (j_rate j) (j_lax j) named (j_providers j).

Lemma acl_ops_numbers named j ingress protocol idx ports : same_numbers (port_names ports) (j_named j) named ->
  acl_ops j ingress protocol idx ports = acl_ops (set_numbers named j) ingress protocol idx ports.
Proof.
  intros Hs. unfold acl_ops, UpdateIngressACLOps, UpdateEgressACLOps, newNetworkPolicyACLMatch, policy_matches. cbv zeta.
  destruct ingress; by rewrite (rule_matches_numbers _ _ _ _ Hs).
Qed.

Lemma block_ops_numbers named j ingress protocol idx blocks ports : same_numbers (port_names ports) (j_named j) named ->
  block_ops j ingress protocol idx blocks ports = block_ops (set_numbers named j) ingress protocol idx blocks ports.
Proof.
  intros Hs. unfold block_ops, UpdateIngressIPBlockACLOps, UpdateEgressIPBlockACLOps, newIPBlockACLMatch, ip_block_matches. cbv zeta.
  destruct ingress; (destruct (blocks ≫= _); [done|]); by rewrite (rule_matches_numbers _ _ _ _ Hs).
Qed.

Section Numbers.

Context {sel : Type} (LabelSelectorAsSelector : sel -> result (gmap string string -> bool)) `{Multus} (c : NpCluster sel) (n : NamedPort).

Implicit Types (np : NetworkPolicy sel).

Lemma rule_sources_numbers named j protocol rule :
  rule_sources LabelSelectorAsSelector c j protocol rule = rule_sources LabelSelectorAsSelector (with_named n c) (set_numbers named j) protocol rule.
Proof.
  assert (Hp : peers_of LabelSelectorAsSelector c j protocol (rule_Peers rule) = peers_of LabelSelectorAsSelector (with_named n c) (set_numbers named j) protocol (rule_Peers rule)).
  { induction (rule_Peers rule) as [|npp peers IH]; [done|]. cbn [peers_of]. by rewrite IH. }
  unfold rule_sources. by destruct (rule_Peers rule).
Qed.

Lemma rule_ops_numbers named j ingress protocol ir db : same_numbers (port_names (rule_Ports ir.2)) (j_named j) named ->
  rule_ops LabelSelectorAsSelector c j ingress protocol ir db =
  rule_ops LabelSelectorAsSelector (with_named n c) (set_numbers named j) ingress protocol ir db.
Proof.
  intros Hs. unfold rule_ops. cbv zeta. rewrite <-(acl_ops_numbers named j _ _ _ _ Hs).
  rewrite (rule_sources_numbers named).
  apply bind_same. intros [allows blocks] db1 _. by rewrite <-(block_ops_numbers named j _ _ _ _ _ Hs).
Qed.

Lemma update_rules_numbers named j ingress rules protocols db : same_numbers (rules ≫= (fun rule => port_names (rule_Ports rule))) (j_named j) named ->
  update_rules LabelSelectorAsSelector c j ingress rules protocols db =
  update_rules LabelSelectorAsSelector (with_named n c) (set_numbers named j) ingress rules protocols db.
Proof.
  intros Hs. unfold update_rules. change (default_ops (set_numbers named j)) with (default_ops j).
  apply bind_same; intros aclOps db1 _. apply bind_same; intros blockOps db2 _.
  assert (Hp : gather (protocol_ops LabelSelectorAsSelector c j ingress rules) protocols db2 =
               gather (protocol_ops LabelSelectorAsSelector (with_named n c) (set_numbers named j) ingress rules) protocols db2).
  { apply gather_same. intros protocol db3 _. unfold protocol_ops. destruct rules as [|r0 rules]; [done|]. apply gather_same. intros [i rule] db4 Hin.
    apply elem_imap_pair, list_elem_of_lookup_2 in Hin. apply rule_ops_numbers. intros name Hn. apply Hs. apply list_elem_of_bind. by exists rule. }
  unfold mbind at 1 3, db_bind at 1 3. by rewrite Hp.
Qed.

Lemma update_numbers walkIngress walkEgress key np db :
  same_numbers (policy_port_names np) (GetNamedPortByNs (np_Namespace np) (npc_named c)) (GetNamedPortByNs (np_Namespace np) n) ->
  update_policy LabelSelectorAsSelector c walkIngress walkEgress key np db = update_policy LabelSelectorAsSelector (with_named n c) walkIngress walkEgress key np db.
Proof.
  intros Hs. unfold policy_port_names in Hs. rewrite bind_app in Hs. apply same_numbers_app in Hs as [Hi He]. unfold update_policy.
  apply bind_same. intros npName db0 _. cbv zeta. set (j := np_job c key np npName).
  change (np_job (with_named n c) key np npName) with (set_numbers (GetNamedPortByNs (np_Namespace np) n) j).
  apply bind_same; intros _ db1 _. apply bind_same; intros [ports subnetNames] db2 _. apply bind_same; intros protocolSet db3 _. apply bind_same; intros _ db4 _.
  unfold mbind at 1 3, db_bind at 1 3. destruct (hasIngressRule np), (hasEgressRule np).
  all: rewrite <-?(update_rules_numbers _ j true) by exact Hi.
  all: change (clear_rules (set_numbers (GetNamedPortByNs (np_Namespace np) n) j)) with (clear_rules j).
  all: match goal with |- match ?m with _ => _ end = _ => destruct m as [[[x|e] db5]| |]; [|done..] end.
  all: unfold mbind, db_bind; by rewrite <-?(update_rules_numbers _ j false) by exact He.
Qed.

End Numbers.

(** ** The policies that an event queues *)

Lemma matching_false {sel} (P : NetworkPolicy sel -> outcome bool) nps keys np : matching_policies P nps = Done keys -> np ∈ nps -> np_key np ∉ keys -> P np = Done false.
Proof.
  revert keys. induction nps as [|np0 nps IH]; intros keys; [by rewrite elem_of_nil|]. cbn [matching_policies]. destruct (P np0) as [b| |] eqn:E; [|done|done].
  cbn. destruct (matching_policies P nps) as [rest| |]; [|done|done]. cbn. intros [= <-]. rewrite elem_of_cons. intros [->|Hin] Hk.
  - destruct b; [|done]. by destruct Hk; left.
  - apply (IH rest); [done|done|]. intros Hx. apply Hk. destruct b; [by right|done].
Qed.

Lemma find_policy_elem {sel} (c : NpCluster sel) ns name np : find_policy c ns name = Some np -> np ∈ npc_policies c /\ np_Namespace np = ns /\ np_Name np = name.
Proof.
  unfold find_policy. intros Hf. apply fmap_Some in Hf as ([i x] & Hl & ->). apply list_find_Some in Hl as (Hi & [Hns Hn] & _). cbn.
  split_and!; [by eapply list_elem_of_lookup_2|done|done].
Qed.

Lemma dns_no_slash s : all_chars dns_char s = true -> contains_char "/"%char s = false.
Proof.
  induction s as [|a s IH]; [done|]. cbn [all_chars]. intros [Ha Hs]%andb_true_iff. cbn. rewrite IH by done. rewrite orb_false_r.
  apply bool_decide_eq_false. by intros ->.
Qed.

Lemma key_splits {sel} (np : NetworkPolicy sel) : dns_name (np_Name np) -> dns_name (np_Namespace np) -> SplitMetaNamespaceKey (np_key np) = Some (np_Namespace np, np_Name np).
Proof.
  intros [Hn1 Hn2%dns_no_slash] [Hs1 Hs2%dns_no_slash]. unfold SplitMetaNamespaceKey, np_key, ObjectName.
  assert (Hne : nonempty (np_Namespace np) = true) by (by destruct (np_Namespace np)). rewrite Hne.
  change ("/" +:+ np_Name np) with (String "/"%char (np_Name np)). change "/" with (sep1 "/"%char). rewrite Split_app by done. by rewrite Split_none.
Qed.

(** Namespaces are found under their names. *)
Lemma found_namespace (l : list (string * gmap string string)) ns i x : list_find (fun y => y.1 = ns) l = Some (i, x) -> (ns, x.2) ∈ l /\ x = (ns, x.2).
Proof. intros (Hi & Hx & _)%list_find_Some. destruct x as [n labels]. cbn in *. subst n. split; [by eapply list_elem_of_lookup_2|done]. Qed.

Lemma podMatch_unqueued {sel} (LabelSelectorAsSelector : sel -> result (gmap string string -> bool)) (c : NpCluster sel) po labels np keys :
  (Pod_Namespace (po_pod po), labels) ∈ npc_namespaces c -> podMatchNetworkPolicies LabelSelectorAsSelector c po = Done keys -> np ∈ npc_policies c -> np_key np ∉ keys ->
  exists labels', (Pod_Namespace (po_pod po), labels') ∈ npc_namespaces c /\ isPodMatchNetworkPolicy LabelSelectorAsSelector po (Pod_Namespace (po_pod po), labels') np = Done false.
Proof.
  intros Hns Hm Hin Hk. unfold podMatchNetworkPolicies in Hm. destruct (list_find _ _) as [[i x]|] eqn:E.
  - apply found_namespace in E as [Hx Ex]. rewrite Ex in Hm. exists x.2. split; [done|]. by eapply matching_false.
  - exfalso. apply list_find_None in E. rewrite Forall_forall in E. by apply (E _ Hns).
Qed.

(** ** Annotations that do not matter *)

Lemma unchanged_annotation old new k : kubeOvnAnnotationsChanged old new = false -> str_contains k ".kubernetes.io/" = true -> old !! k = new !! k.
Proof.
  unfold kubeOvnAnnotationsChanged. rewrite bool_decide_eq_false. intros E%dec_stable Hk. unfold filterKubeOvnAnnotations in E.
  assert (Hl : forall (m : gmap string string) v, filter (fun kv => str_contains kv.1 ".kubernetes.io/" = true) m !! k = Some v <-> m !! k = Some v)
    by (intros m v; rewrite map_lookup_filter_Some; naive_solver).
  apply option_eq. intros v. by rewrite <-(Hl old), <-(Hl new), E.
Qed.

Section Skipped.

Context {sel : Type} `{EqDecision sel} (LabelSelectorAsSelector : sel -> result (gmap string string -> bool)) `{Multus} (c : NpCluster sel).

(** The same caches with other policies. *)
Definition with_policies (policies : list (NetworkPolicy sel)) : NpCluster sel :=
  mkNpCluster (npc_net c) (npc_pods c) (npc_namespaces c) policies (npc_named c) (NetworkPolicyEnforcement c).

Lemma enqueueUpdateNp_skips (old new : NetworkPolicy sel) : enqueueUpdateNp old new [] = [] -> np_Spec old = np_Spec new /\ kubeOvnAnnotationsChanged (np_Annotations old) (np_Annotations new) = false.
Proof.
  unfold enqueueUpdateNp. destruct (bool_decide_reflect (np_Spec old <> np_Spec new)) as [Hs|Hs]; [done|]. destruct (kubeOvnAnnotationsChanged _ _); [done|].
  intros _. split; [|done]. destruct (decide (np_Spec old = np_Spec new)); [done|by destruct Hs].
Qed.

Lemma same_job key (old new : NetworkPolicy sel) npName : np_Namespace old = np_Namespace new -> kubeOvnAnnotationsChanged (np_Annotations old) (np_Annotations new) = false ->
  np_job c key old npName = np_job c key new npName.
Proof.
  intros En Ha. unfold np_job, log_actions, parseACLLogRate, isNetworkPolicyEnforcementLax, parsePolicyFor.
  by rewrite En, (unchanged_annotation _ _ NetworkPolicyLogAnnotation Ha eq_refl), (unchanged_annotation _ _ ACLActionsLogAnnotation Ha eq_refl),
    (unchanged_annotation _ _ ACLLogMeterAnnotation Ha eq_refl), (unchanged_annotation _ _ NetworkPolicyEnforcementAnnotation Ha eq_refl),
    (unchanged_annotation _ _ NetworkPolicyForAnnotation Ha eq_refl).
Qed.

Lemma update_same walkIngress walkEgress key (old new : NetworkPolicy sel) policies db : np_Namespace old = np_Namespace new -> np_Name old = np_Name new -> enqueueUpdateNp old new [] = [] ->
  update_policy LabelSelectorAsSelector c walkIngress walkEgress key old db = update_policy LabelSelectorAsSelector (with_policies policies) walkIngress walkEgress key new db.
Proof.
  intros En Em [Es Ha]%enqueueUpdateNp_skips. unfold update_policy, hasIngressRule, hasEgressRule. rewrite Em. apply bind_same. intros npName db0 _. cbv zeta.
  rewrite (same_job key old new npName En Ha). by rewrite En, Es.
Qed.

End Skipped.
