(* ===== verification/Demo.v ===== *)
(** * A concrete subnet

    The inputs the witnesses of the theorems evaluate: a dual-stack subnet of
    eight addresses per family with its first host reserved, one named pool,
    and a pod that holds an address of each family. *)
From S2P Require Import Prelude.
From S2P Require Import GoStrings.
From S2P Require Import GoNet.
From S2P Require Import Ip.
From S2P Require Import IpRange.
From S2P Require Import IpRangeList.
From S2P Require Import IpRangeListFacts.
From S2P Require Import UtilNet.
From S2P Require Import Hosts.
From S2P Require Import Subnet.
From S2P Require Import SubnetInv.
From S2P Require Import SubnetAlloc.
From S2P Require Import SubnetPools.
From S2P Require Import SubnetNew.

Local Open Scope Z_scope.

(** Discharge a decidable closed proposition by evaluation. *)
Ltac by_eval := refine (bool_decide_unpack _ _); vm_compute; exact I.

Definition demo_cidr : string := "10.16.0.0/29,fd00:10:16::/125".
Definition demo_excludes : list string := ["10.16.0.1"; "fd00:10:16::1"].

Definition demo_subnet : Subnet :=
  match NewSubnet "ovn-default" demo_cidr demo_excludes with
  | Done (Ok s) => s
  | _ => NewMacOnlySubnet "ovn-default"
  end.

Lemma demo_blocks : clean_blocks demo_cidr.
Proof. by_eval. Qed.

Lemma demo_excluded : Forall clean_exclude demo_excludes.
Proof. by_eval. Qed.

Lemma demo_fresh : fresh demo_subnet.
Proof.
  destruct (NewSubnet_fresh "ovn-default" demo_cidr demo_excludes demo_blocks demo_excluded)
    as (r & E & Hr).
  unfold demo_subnet. rewrite E. destruct r; [by apply Hr|apply NewMacOnlySubnet_fresh].
Qed.

Lemma demo_inv : inv demo_subnet.
Proof. apply demo_fresh. Qed.

Lemma demo_own : own demo_subnet.
Proof. apply demo_fresh. Qed.

(** The iteration order of the witnesses. *)
Definition by_key (m : gmap string IPPool) : list (string * IPPool) := map_to_list m.

Lemma by_key_ok m : by_key m ≡ₚ map_to_list m.
Proof. done. Qed.

Definition demo_draw : bytes := [0; 0; 94; 0; 83; 1].

(** The subnet after pod [web] got an address of each family. *)
Definition demo_busy : Subnet :=
  match getDualRandomAddress by_key "" "default/web" "web.default" None [] true demo_subnet [demo_draw] with
  | Done (s, _, _) => s
  | _ => demo_subnet
  end.

Lemma demo_busy_step : nic_step "default/web" "web.default" demo_subnet demo_busy.
Proof.
  pose proof (getDual_spec by_key by_key_ok "" "default/web" "web.default" None [] true demo_subnet
    [demo_draw] demo_inv (Forall_nil_2 _)) as H.
  unfold demo_busy. destruct (getDualRandomAddress _ _ _ _ _ _ _ _ _) as [[[s r] x]| |].
  - apply H.
  - done.
  - apply nic_step_refl, demo_inv.
Qed.

Lemma demo_busy_inv : inv demo_busy.
Proof. apply demo_busy_step. Qed.

Lemma demo_busy_own : own demo_busy.
Proof. apply demo_busy_step; [done|apply demo_own]. Qed.
