(* ===== verification/RangeTheorems.v ===== *)
(** * Addresses, ranges and pool entries: the theorems

    [pkg/ipam/ip.go], [ip_range.go] and [ip_range_list.go] implement finite
    sets of addresses; [pkg/util/ippool.go] splits them into CIDR blocks. *)
From stdpp Require Import sorting.
From S2P Require Import Prelude.
From S2P Require Import GoStrings.
From S2P Require Import GoNet.
From S2P Require Import GoNetText.
From S2P Require Import Ip.
From S2P Require Import IpRange.
From S2P Require Import IpRangeList.
From S2P Require Import IpRangeListFacts.
From S2P Require Import UtilNet.
From S2P Require Import CidrFacts.
From S2P Require Import Hosts.
From S2P Require Import IpPool.
From S2P Require Import IpPoolFacts.
From S2P Require Import Demo.

Local Open Scope Z_scope.

(** ** Sets of addresses *)

(** C28: lists of ranges implement sets of addresses.  On well-formed lists
    the operations keep well-formedness, [Add] and [Remove] insert and delete
    one address and report whether the set changed, [Separate], [Merge] and
    [Intersect] are difference, union and intersection, [Contains] (a binary
    search) is membership, and [Equal] is equality of the sets. *)
Theorem range_lists_are_sets r x ip :
  wf r -> wf x -> canon ip -> safe (ipv ip) ->
  (let '(l, changed) := IPRangeList_Add r ip in
   wf l /\ (forall v, mem l v <-> v = ipv ip \/ mem r v) /\ changed = bool_decide (~ mem r (ipv ip))) /\
  (let '(l, changed) := IPRangeList_Remove r ip in
   wf l /\ (forall v, mem l v <-> mem r v /\ v <> ipv ip) /\ changed = bool_decide (mem r (ipv ip))) /\
  (wf (IPRangeList_Separate r x) /\ forall v, mem (IPRangeList_Separate r x) v <-> mem r v /\ ~ mem x v) /\
  (wf (IPRangeList_Merge r x) /\ forall v, mem (IPRangeList_Merge r x) v <-> mem r v \/ mem x v) /\
  (wf (IPRangeList_Intersect r x) /\ forall v, mem (IPRangeList_Intersect r x) v <-> mem r v /\ mem x v) /\
  IPRangeList_Contains r ip = bool_decide (mem r (ipv ip)) /\
  (IPRangeList_Equal r x = true <-> forall v, mem r v <-> mem x v).
Proof.
  intros Hr Hx Hc Hs. split; [by apply IPRangeList_Add_ok|]. split; [by apply IPRangeList_Remove_ok|].
  split; [by apply IPRangeList_Separate_ok|]. split; [by apply IPRangeList_Merge_ok|].
  split; [by apply IPRangeList_Intersect_ok|]. split; [by apply IPRangeList_Contains_mem; [|apply Hc]|].
  rewrite IPRangeList_Equal_ok by done. rewrite bool_decide_eq_true. split; [by intros ->|by apply wf_ext].
Qed.

Definition demo_r : IPRangeList := [NewIPRange [10; 0; 0; 2] [10; 0; 0; 5]; NewIPRange [10; 0; 0; 9] [10; 0; 0; 9]].
Definition demo_x : IPRangeList := [NewIPRange [10; 0; 0; 4] [10; 0; 0; 7]].

Lemma range_lists_are_sets_witness :
  IPRangeList_Separate demo_r demo_x =
  [NewIPRange [10; 0; 0; 2] [10; 0; 0; 3]; NewIPRange [10; 0; 0; 9] [10; 0; 0; 9]] /\
  (mem (IPRangeList_Separate demo_r demo_x) (ipv [10; 0; 0; 3]) <->
   mem demo_r (ipv [10; 0; 0; 3]) /\ ~ mem demo_x (ipv [10; 0; 0; 3])).
Proof.
  split; [vm_compute; reflexivity|].
  destruct (range_lists_are_sets demo_r demo_x [10; 0; 0; 3] ltac:(by_eval) ltac:(by_eval) ltac:(by_eval) ltac:(by_eval))
    as (_ & _ & [_ H] & _).
  exact (H (ipv [10; 0; 0; 3])).
Defined.

(** [Count] is the number of addresses of the list, however they are
    spread over ranges. *)
Theorem range_count_is_size l : wf l ->
  exists vs, NoDup vs /\ (forall v, v ∈ vs <-> mem l v) /\ IPRangeList_Count l = Z.of_nat (length vs).
Proof.
  intros H. exists (values l). split; [by eapply values_NoDup|].
  split; [intros v; apply elem_of_values|by apply IPRangeList_Count_ok].
Qed.

Lemma range_count_is_size_witness :
  IPRangeList_Count demo_r = 5 /\
  exists vs, NoDup vs /\ (forall v, v ∈ vs <-> mem demo_r v) /\ IPRangeList_Count demo_r = Z.of_nat (length vs).
Proof. split; [vm_compute; reflexivity|]. apply (range_count_is_size demo_r). by_eval. Defined.

(** [Allocate] takes the least address of the list that is not skipped
    and removes exactly that one; it returns nil, and changes nothing, only
    when every address is skipped. *)
Theorem range_allocate_least l skipped :
  wf l -> Forall (fun ip => canon ip /\ safe (ipv ip)) skipped ->
  let '(l', ip) := IPRangeList_Allocate l skipped in
  (ip = [] /\ l' = l /\ forall v, mem l v -> v ∈ (ipv <$> skipped)) \/
  (canon ip /\ mem l (ipv ip) /\ (ipv ip ∉ (ipv <$> skipped)) /\
   (forall v, mem l v -> (v ∉ (ipv <$> skipped)) -> ipv ip <= v) /\
   wf l' /\ forall v, mem l' v <-> mem l v /\ v <> ipv ip).
Proof.
  intros Hl Hs. pose proof (IPRangeList_Allocate_ok l skipped Hl Hs) as H.
  destruct (IPRangeList_Allocate l skipped) as [l' ip]. destruct H as [H|(_ & H)]; [by left|by right].
Qed.

Lemma range_allocate_least_witness :
  snd (IPRangeList_Allocate demo_r [[10; 0; 0; 2]]) = [10; 0; 0; 3] /\
  let '(l', ip) := IPRangeList_Allocate demo_r [[10; 0; 0; 2]] in
  ip = [] \/ mem demo_r (ipv ip).
Proof.
  split; [vm_compute; reflexivity|].
  pose proof (range_allocate_least demo_r [[10; 0; 0; 2]] ltac:(by_eval) ltac:(by_eval)) as H.
  destruct (IPRangeList_Allocate demo_r [[10; 0; 0; 2]]) as [l' ip].
  destruct H as [(H & _)|(_ & H & _)]; [left; exact H|right; exact H].
Defined.

(** A list that gained an address and lost it again is the same list,
    ranges included; likewise the other way round. *)
Theorem range_add_remove_roundtrip l ip : wf l -> canon ip -> safe (ipv ip) ->
  (~ mem l (ipv ip) -> fst (IPRangeList_Remove (fst (IPRangeList_Add l ip)) ip) = l) /\
  (mem l (ipv ip) -> fst (IPRangeList_Add (fst (IPRangeList_Remove l ip)) ip) = l).
Proof.
  intros Hl Hc Hs.
  pose proof (IPRangeList_Add_ok l ip Hl Hc Hs) as Ha. pose proof (IPRangeList_Remove_ok l ip Hl Hc) as Hr.
  destruct (IPRangeList_Add l ip) as [la ba]. destruct (IPRangeList_Remove l ip) as [lr br].
  destruct Ha as (Wa & Ma & _), Hr as (Wr & Mr & _). cbn [fst].
  pose proof (IPRangeList_Remove_ok la ip Wa Hc) as Hra. pose proof (IPRangeList_Add_ok lr ip Wr Hc Hs) as Har.
  destruct (IPRangeList_Remove la ip) as [l1 b1]. destruct (IPRangeList_Add lr ip) as [l2 b2].
  destruct Hra as (W1 & M1 & _), Har as (W2 & M2 & _). cbn [fst].
  split; intros Hm; apply wf_ext; try done; intros v; rewrite ?M1, ?M2, ?Ma, ?Mr.
  - split; [tauto|]. intros Hv. split; [by right|]. intros ->. done.
  - destruct (decide (v = ipv ip)) as [->|]; tauto.
Qed.

Lemma range_add_remove_roundtrip_witness :
  fst (IPRangeList_Remove (fst (IPRangeList_Add demo_r [10; 0; 0; 6])) [10; 0; 0; 6]) = demo_r.
Proof.
  apply (proj1 (range_add_remove_roundtrip demo_r [10; 0; 0; 6] ltac:(by_eval) ltac:(by_eval) ltac:(by_eval))).
  by_eval.
Defined.

(** A list built from texts (addresses, ranges, CIDRs) holds exactly the
    addresses the entries denote, and is well formed. *)
Theorem range_list_from_texts x l : Forall clean_entry x -> NewIPRangeListFrom x = Ok l ->
  wf l /\ forall v, mem l v <-> exists s r, s ∈ x /\ range_of_entry s = Ok r /\ lo r <= v <= hi r.
Proof. apply NewIPRangeListFrom_ok. Qed.

Lemma range_list_from_texts_witness :
  NewIPRangeListFrom ["10.0.0.2..10.0.0.5"; "10.0.0.9"; "10.0.0.4"] = Ok demo_r /\ wf demo_r.
Proof.
  assert (E : NewIPRangeListFrom ["10.0.0.2..10.0.0.5"; "10.0.0.9"; "10.0.0.4"] = Ok demo_r)
    by (vm_compute; reflexivity).
  split; [exact E|].
  destruct (range_list_from_texts ["10.0.0.2..10.0.0.5"; "10.0.0.9"; "10.0.0.4"] demo_r ltac:(by_eval) E) as [W _].
  exact W.
Defined.

(** ** Addresses *)

(** C39: [Add] and [Sub] are arithmetic on the value of the address, modulo
    the width of its family: an IPv4 address stays one and wraps at 2^32, an
    IPv6 address wraps at 2^128; the order of addresses is the order of the
    values. *)
Theorem ip_arithmetic a b n : valid_ip a -> valid_ip b -> 0 <= n < TOP ->
  ipv (IP_Add a n) = (if v4_val (ipv a) then V4B + (ipv a - V4B + n) mod 2 ^ 32 else (ipv a + n) mod 2 ^ 128) /\
  ipv (IP_Sub a n) = (if v4_val (ipv a) then V4B + (ipv a - V4B - n) mod 2 ^ 32 else (ipv a - n) mod 2 ^ 128) /\
  IP_LessThan a b = (ipv a <? ipv b) /\ IP_GreaterThan a b = (ipv b <? ipv a) /\
  IP_Equal a b = (ipv a =? ipv b).
Proof.
  intros Ha Hb Hn. rewrite <-TOP_pow.
  destruct (IP_Add_val a n Ha ltac:(lia)) as (_ & _ & ->). destruct (IP_Sub_val a n Ha Hn) as (_ & _ & ->).
  rewrite IP_LessThan_val, IP_GreaterThan_val, IP_Equal_val by done. done.
Qed.

Lemma ip_arithmetic_witness :
  IP_Add [255; 255; 255; 255] 1 = [0; 0; 0; 0] /\
  ipv (IP_Add [255; 255; 255; 255] 1) =
  (if v4_val (ipv [255; 255; 255; 255]) then V4B + (ipv [255; 255; 255; 255] - V4B + 1) mod 2 ^ 32
   else (ipv [255; 255; 255; 255] + 1) mod 2 ^ 128).
Proof.
  split; [vm_compute; reflexivity|].
  destruct (ip_arithmetic [255; 255; 255; 255] [10; 0; 0; 1] 1 ltac:(by_eval) ltac:(by_eval) ltac:(by_eval)) as [H _].
  exact H.
Defined.

(** The text of an address, IPv4 or IPv6 with its compressed zeros, is
    parsed back to the same address, and different addresses have different
    texts. *)
Theorem ip_text_roundtrip a b : canon a -> canon b ->
  NewIP (IP_String a) = Ok a /\ (IP_String a = IP_String b <-> a = b).
Proof.
  intros Ha Hb. split; [by apply NewIP_String|]. split; [|by intros ->]. by apply IP_String_canon_inj.
Qed.

Definition demo_v6 : IP := [253; 0; 0; 0; 0; 1; 0; 0; 0; 0; 0; 0; 0; 0; 0; 16].

Lemma ip_text_roundtrip_witness :
  IP_String demo_v6 = "fd00:0:1::10" /\ NewIP (IP_String demo_v6) = Ok demo_v6.
Proof.
  split; [vm_compute; reflexivity|].
  destruct (ip_text_roundtrip demo_v6 [10; 0; 0; 1] ltac:(by_eval) ltac:(by_eval)) as [H _]. exact H.
Defined.

(** ** Pool entries *)

(** C34: [IPRangeToCIDRs] always finishes within two rounds per bit; the
    blocks it prints follow each other without gap or overlap from the start
    to the end of the range, and no other tiling of the range by CIDR blocks
    has fewer of them. *)
Theorem range_to_cidrs_minimal a b :
  canon a -> canon b -> v4_val (ipv a) = v4_val (ipv b) -> ipv a <= ipv b ->
  exists nets, IPRangeToCIDRs a b = Some (Ok (IPNet_String <$> nets)) /\
    net_tile (ipv a) (ipv b) nets /\
    (forall v, ipv a <= v <= ipv b <-> in_nets nets v) /\
    (forall nets', net_tile (ipv a) (ipv b) nets' -> (length nets <= length nets')%nat).
Proof.
  intros Ha Hb Hf Hle. destruct (IPRangeToCIDRs_splits a b Ha Hb Hf Hle) as (nets & E & [Ht Hm]).
  exists nets. split; [done|]. split; [done|]. split; [|done]. intros v. by apply net_tile_cover.
Qed.

Lemma range_to_cidrs_minimal_witness :
  IPRangeToCIDRs [10; 0; 0; 1] [10; 0; 0; 6] = Some (Ok ["10.0.0.1/32"; "10.0.0.2/31"; "10.0.0.4/31"; "10.0.0.6/32"]) /\
  exists nets, IPRangeToCIDRs [10; 0; 0; 1] [10; 0; 0; 6] = Some (Ok (IPNet_String <$> nets)) /\
    net_tile (ipv [10; 0; 0; 1]) (ipv [10; 0; 0; 6]) nets.
Proof.
  split; [vm_compute; reflexivity|].
  destruct (range_to_cidrs_minimal [10; 0; 0; 1] [10; 0; 0; 6] ltac:(by_eval) ltac:(by_eval)
    ltac:(vm_compute; reflexivity) ltac:(by_eval)) as (nets & E & H & _).
  exists nets. split; [exact E|exact H].
Defined.

(** [ToCIDRs] of a well-formed list finishes and returns, in the order of
    strings, blocks that hold exactly the addresses of the list; its inlined
    copy of the splitting loop, single addresses included, agrees with
    [IPRangeToCIDRs]. *)
Theorem to_cidrs_exact l : wf l ->
  (exists nets cidrs, ToCIDRs l = Some (Ok cidrs) /\ StronglySorted str_le cidrs /\
     cidrs ≡ₚ IPNet_String <$> nets /\ forall v, mem l v <-> in_nets nets v) /\
  forall r, r ∈ l -> range_cidrs r = IPRangeToCIDRs (r_start r) (r_end r).
Proof.
  intros Hl. assert (Hr : Forall range_ok l) by (apply Forall_forall; intros r; by eapply chain_in).
  split; [|intros r Hin; apply range_cidrs_agree; by eapply chain_in].
  destruct (ranges_cidrs_ok l Hr) as (nets & E & M).
  destruct (sort_Strings_spec (IPNet_String <$> nets)) as [S P].
  exists nets, (sort_Strings (IPNet_String <$> nets)). unfold ToCIDRs, IPRangeList_Len.
  split; [|split; [done|split; [done|]]].
  - destruct l; [injection E as E; by destruct nets|]. cbn [length Nat.eqb]. by rewrite E.
  - intros v. rewrite M. clear. induction l as [|r l IH]; simpl.
    + split; [done|]. by intros (? & []%elem_of_nil & _).
    + rewrite IH. split.
      * intros [H|(r' & Hr' & H)]; [exists r; split; [by left|done]|exists r'; split; [by right|done]].
      * intros (r' & [->|Hr']%elem_of_cons & H); [by left|right; eauto].
Qed.

Lemma to_cidrs_exact_witness :
  ToCIDRs demo_r = Some (Ok ["10.0.0.2/31"; "10.0.0.4/31"; "10.0.0.9/32"]) /\
  exists nets cidrs, ToCIDRs demo_r = Some (Ok cidrs) /\ cidrs ≡ₚ IPNet_String <$> nets.
Proof.
  split; [vm_compute; reflexivity|].
  destruct (to_cidrs_exact demo_r ltac:(by_eval)) as [(nets & cidrs & E & _ & P & _) _].
  exists nets, cidrs. split; [exact E|exact P].
Defined.

(** Expanding the entries of a pool for OVN always finishes; accepted
    entries give the sorted list of exactly the blocks of the entries, without
    duplicates, and all of one address family. *)
Theorem expand_pool_for_ovn entries :
  exists r, expandIPPoolAddressesInternal entries true = Some r /\
    forall cidrs, r = Ok cidrs ->
      StronglySorted str_le cidrs /\ NoDup cidrs /\
      (forall c, c ∈ cidrs <-> exists e, e ∈ entries /\ c ∈ entry_blocks e) /\
      (forall c d, c ∈ cidrs -> d ∈ cidrs -> is_v6_text c = is_v6_text d).
Proof.
  unfold expandIPPoolAddressesInternal. destruct (Nat.eqb_spec (length entries) 0) as [E|_].
  { apply nil_length_inv in E as ->. eexists. split; [done|]. intros cidrs [= <-].
    split; [constructor|]. split; [constructor|]. split; [|by intros c d []%elem_of_nil].
    intros c. split; [by intros []%elem_of_nil|]. by intros (? & []%elem_of_nil & _). }
  destruct (expand_pool_entries_total entries ∅) as [[seen|e] Es]; rewrite Es; cbn [mbind option_bind];
    (eexists; split; [done|]); [|done].
  intros cidrs. cbn [andb]. destruct (existsb _ _ && existsb _ _) eqn:Em; [done|]. intros [= <-].
  destruct (sort_Strings_spec (elements seen)) as [S P]. split; [done|].
  split; [rewrite P; apply NoDup_elements|]. split.
  - intros c. rewrite P, elem_of_elements, (expand_pool_entries_elem _ _ _ Es), elem_of_empty. tauto.
  - assert (Hno : forall c d, c ∈ elements seen -> d ∈ elements seen -> is_v6_text c = false -> is_v6_text d = true -> False).
    { intros c d Hc Hd Ec Ed. apply andb_false_iff in Em as [Em|Em];
        eapply not_true_iff_false; [exact Em| |exact Em|]; apply existsb_exists.
      - exists c. rewrite <-list_elem_of_In. by rewrite Ec.
      - exists d. by rewrite <-list_elem_of_In. }
    intros c d. rewrite !P. intros Hc Hd.
    destruct (is_v6_text c) eqn:Ec, (is_v6_text d) eqn:Ed; [done|..|done]; exfalso; eauto.
Qed.

Lemma expand_pool_for_ovn_witness :
  exists r, expandIPPoolAddressesInternal ["10.0.0.1..10.0.0.3"; "10.0.0.1"] true = Some r /\
    r = Ok ["10.0.0.1/32"; "10.0.0.2/31"].
Proof.
  destruct (expand_pool_for_ovn ["10.0.0.1..10.0.0.3"; "10.0.0.1"]) as (r & E & _).
  exists r. split; [exact E|]. apply (inj Some). rewrite <-E. vm_compute. reflexivity.
Defined.
