(* ===== verification/UtilTheorems.v ===== *)
(** * Networks and texts: the theorems about [pkg/util/net.go] and [ip.go] *)
From S2P Require Import Prelude.
From S2P Require Import GoStrings.
From S2P Require Import GoNet.
From S2P Require Import GoNet.
From S2P Require Import GoNetText.
From S2P Require Import Ip.
From S2P Require Import IpRange.
From S2P Require Import IpRangeList.
From S2P Require Import IpRangeListFacts.
From S2P Require Import UtilNet.
From S2P Require Import CidrFacts.
From S2P Require Import Hosts.
From S2P Require Import IpPool.
From S2P Require Import IpPoolFacts.
From S2P Require Import Subnet.
From S2P Require Import SubnetInv.
From S2P Require Import SubnetAlloc.
From S2P Require Import SubnetNew.
From S2P Require Import ValidatorFacts.
From S2P Require Import Demo.

Local Open Scope Z_scope.

(** ** Overlap and containment *)

(** Two CIDR strings, each a list of blocks, overlap for [CIDROverlap]
    exactly when some address is in both, although only one address of each
    block is tested against the other. *)
Theorem cidr_overlap_iff a b :
  Forall clean_cidr (Split a ",") -> Forall clean_cidr (Split b ",") ->
  CIDROverlap a b = true <-> exists v, covers a v /\ covers b v.
Proof. apply CIDROverlap_iff. Qed.

Definition net_text (s : string) : IPNet := match ParseCIDR s with Some (_, n) => n | None => mkIPNet [] [] end.
Definition addr_text (s : string) : netIP := match ParseCIDR s with Some (ip, _) => ip | None => [] end.

Lemma cidr_overlap_iff_witness :
  CIDROverlap "10.16.0.0/16,fd00::/64" "10.16.4.7/24" = true /\
  exists v, covers "10.16.0.0/16,fd00::/64" v /\ covers "10.16.4.7/24" v.
Proof.
  assert (E : CIDROverlap "10.16.0.0/16,fd00::/64" "10.16.4.7/24" = true) by (vm_compute; reflexivity).
  split; [exact E|].
  exact (proj1 (cidr_overlap_iff "10.16.0.0/16,fd00::/64" "10.16.4.7/24" ltac:(by_eval) ltac:(by_eval)) E).
Defined.

(** [CIDRContainsCIDR a b] answers true exactly when every address of
    [b] is in [a]. *)
Theorem cidr_contains_iff a b ia na ib nb :
  ParseCIDR a = Some (ia, na) -> ParseCIDR b = Some (ib, nb) -> clean_net na -> clean_net nb ->
  CIDRContainsCIDR a b = Ok true <-> forall v, in_net nb v -> in_net na v.
Proof.
  intros Ea Eb Ca Cb. unfold CIDRContainsCIDR. rewrite Ea, Eb.
  destruct (clean_net_size na Ca) as (-> & Ha & Oa), (clean_net_size nb Cb) as (-> & Hb & Ob).
  set (oa := fst (Mask_Size (nMask na))) in *. set (ob := fst (Mask_Size (nMask nb))) in *. cbn [fst] in *.
  destruct (clean_net_le na Ca) as [_ Hna], (clean_net_le nb Cb) as [Hle Hnb].
  assert (Hlo : in_net nb (net_lo nb)) by (unfold in_net; lia).
  assert (Hlen : forall v, in_net na v -> in_net nb v -> length (nIP na) = length (nIP nb)).
  { intros v H1 H2. destruct (cn_canon _ Ca) as [_ ->], (cn_canon _ Cb) as [_ ->].
    fold (net_lo na) (net_lo nb).
    destruct (clean_net_in na v Ca ltac:(unfold in_net in *; lia)) as [_ <-].
    by destruct (clean_net_in nb v Cb ltac:(unfold in_net in *; lia)) as [_ <-]. }
  split.
  - destruct (Z.eqb_spec (8 * Z.of_nat (length (nIP na))) (8 * Z.of_nat (length (nIP nb)))) as [El|]; cbn [negb]; [|done].
    intros [= [Eo%Z.leb_le Ec]%andb_true_iff].
    apply Contains_in_net in Ec; [|done|apply (cn_canon _ Cb)].
    apply (nets_nested nb na (net_lo nb) Cb Ca); [lia|exact Hlo|exact Ec].
  - intros Hsub. rewrite (Hlen _ (Hsub _ Hlo) Hlo), Z.eqb_refl. cbn [negb]. do 2 f_equal.
    apply andb_true_iff. split.
    + apply Z.leb_le. specialize (Hlen _ (Hsub _ Hlo) Hlo).
      assert (Hhi : in_net nb (net_hi nb)) by (unfold in_net; lia). apply Hsub in Hhi, Hlo.
      unfold in_net, net_hi in *. assert (2 ^ host_bits nb <= 2 ^ host_bits na) as Hp by lia.
      apply Z.pow_le_mono_r_iff in Hp; lia.
    + apply Contains_in_net; [done|apply (cn_canon _ Cb)|by apply Hsub].
Qed.

Lemma cidr_contains_iff_witness :
  CIDRContainsCIDR "10.16.0.0/16" "10.16.4.0/24" = Ok true /\
  forall v, in_net (net_text "10.16.4.0/24") v -> in_net (net_text "10.16.0.0/16") v.
Proof.
  assert (E : CIDRContainsCIDR "10.16.0.0/16" "10.16.4.0/24" = Ok true) by (vm_compute; reflexivity).
  split; [exact E|].
  exact (proj1 (cidr_contains_iff "10.16.0.0/16" "10.16.4.0/24" (addr_text "10.16.0.0/16") (net_text "10.16.0.0/16")
    (addr_text "10.16.4.0/24") (net_text "10.16.4.0/24") ltac:(vm_compute; reflexivity) ltac:(vm_compute; reflexivity)
    ltac:(by_eval) ltac:(by_eval)) E).
Defined.

(** ** Hosts of a network *)

(** The texts [FirstIP] and [LastIP] compute for a network, joined as
    NewSubnet does, parse to exactly its assignable addresses: all but the
    first and last address, both of a network of two, none of a single
    address; and each of them is in the network. *)
Theorem subnet_hosts s ip n : ParseCIDR s = Some (ip, n) -> clean_net n ->
  exists l, host_list s = Done l /\ wf l /\
    (forall v, mem l v <-> host_bits n <> 0 /\
       (if host_bits n =? 1 then in_net n v else net_lo n < v < net_hi n)) /\
    (forall a, valid_ip a -> mem l (ipv a) -> IPNet_Contains n a = true).
Proof.
  intros E Hc. exists (hosts n). split; [by eapply host_list_clean|]. split; [by apply hosts_wf|]. split.
  - intros v. rewrite mem_hosts by done. unfold first_host, last_host, in_net.
    destruct (Z.eqb_spec (host_bits n) 1); intuition lia.
  - intros a Ha. by apply hosts_contained.
Qed.

Lemma subnet_hosts_witness :
  host_list "10.16.0.0/29" = Done [NewIPRange [10; 16; 0; 1] [10; 16; 0; 6]] /\
  exists l, host_list "10.16.0.0/29" = Done l /\ wf l.
Proof.
  split; [vm_compute; reflexivity|].
  destruct (subnet_hosts "10.16.0.0/29" (addr_text "10.16.0.0/29") (net_text "10.16.0.0/29")
    ltac:(vm_compute; reflexivity) ltac:(by_eval)) as (l & E & W & _).
  exists l. split; [exact E|exact W].
Defined.

(** The text of a network parses back to the network. *)
Theorem network_text_roundtrip n : clean_net n -> ParseCIDR (IPNet_String n) = Some (To16 (nIP n), n).
Proof. apply ParseCIDR_IPNet_String. Qed.

Lemma network_text_roundtrip_witness :
  IPNet_String (net_text "fd00:10:16::5/112") = "fd00:10:16::/112" /\
  ParseCIDR (IPNet_String (net_text "fd00:10:16::5/112")) =
  Some (To16 (nIP (net_text "fd00:10:16::5/112")), net_text "fd00:10:16::5/112").
Proof.
  split; [vm_compute; reflexivity|].
  apply (network_text_roundtrip (net_text "fd00:10:16::5/112")). by_eval.
Defined.

(** ** Excluded addresses *)

Lemma expand_blocks_within p0 s e blocks : Forall clean_cidr blocks ->
  exists l, expand_blocks p0 s e blocks = Done l /\
    forall t, t ∈ l -> exists b ip n, b ∈ blocks /\ ParseCIDR b = Some (ip, n) /\ within n t.
Proof.
  induction 1 as [|b blocks Hb _ (l' & E' & H')]; cbn [expand_blocks].
  { exists []. split; [done|]. by intros t []%elem_of_nil. }
  unfold clean_cidr in Hb. destruct (ParseCIDR b) as [[ip n]|] eqn:Eb; [|done].
  destruct (expand_block_within p0 b ip n s e Eb Hb) as (l & El & Hl).
  rewrite El. cbn [mbind outcome_bind]. rewrite E'. cbn [mbind outcome_bind].
  exists (l ++ l'). split; [done|]. intros t [Ht|Ht]%elem_of_app.
  - exists b, ip, n. rewrite Forall_forall in Hl. split; [by left|]. auto.
  - destruct (H' t Ht) as (b' & ip' & n' & Hin & ?). exists b', ip', n'. split; [by right|done].
Qed.

(** An excluded range is clipped to the blocks of the CIDR: expanding it
    returns, and each resulting entry is a well-formed range inside the
    assignable addresses of one block. *)
Theorem exclude_range_clipped cidr ex :
  Forall clean_cidr (Split cidr ",") -> str_contains ex ".." = true ->
  exists l, expand_entry cidr ex = Done l /\
    forall t, t ∈ l -> exists b ip n r, b ∈ Split cidr "," /\ ParseCIDR b = Some (ip, n) /\
      range_of_entry t = Ok r /\ range_ok r /\ first_host n <= lo r /\ hi r <= last_host n.
Proof.
  intros Hc Hd. unfold expand_entry. rewrite Hd.
  assert (Hnil : exists l : list string, Done [] = Done l /\ forall t, t ∈ l -> exists b ip n r, b ∈ Split cidr "," /\
    ParseCIDR b = Some (ip, n) /\ range_of_entry t = Ok r /\ range_ok r /\ first_host n <= lo r /\ hi r <= last_host n)
    by (exists []; split; [done|]; by intros t []%elem_of_nil).
  destruct (Split ex "..") as [|p0 [|p1 [|]]]; try done.
  destruct (negb _); [done|]. destruct (_ <? _); [done|].
  destruct (expand_blocks_within p0 (IP2BigInt p0) (IP2BigInt p1) (Split cidr ",") Hc) as (l & E & H).
  exists l. split; [done|]. intros t Ht. destruct (H t Ht) as (b & ip & n & Hb & Ep & r & Hr). eauto 10.
Qed.

Lemma exclude_range_clipped_witness :
  expand_entry demo_cidr "10.15.0.0..10.16.0.3" = Done ["10.16.0.1..10.16.0.3"] /\
  exists l, expand_entry demo_cidr "10.15.0.0..10.16.0.3" = Done l /\
    forall t, t ∈ l -> exists b ip n r, b ∈ Split demo_cidr "," /\ ParseCIDR b = Some (ip, n) /\
      range_of_entry t = Ok r /\ range_ok r /\ first_host n <= lo r /\ hi r <= last_host n.
Proof.
  split; [vm_compute; reflexivity|].
  apply (exclude_range_clipped demo_cidr "10.15.0.0..10.16.0.3"); [by_eval|vm_compute; reflexivity].
Defined.

(** ** MAC addresses and 32-bit addresses *)

(** A generated MAC is a unicast, locally administered address, and keeps
    every other drawn bit. *)
Theorem generated_mac_local b0 rest :
  exists b, GenerateMac (b0 :: rest) = mac_String (b :: rest) /\
    Z.testbit b 0 = false /\ Z.testbit b 1 = true /\
    forall i, 2 <= i < 8 -> Z.testbit b i = Z.testbit b0 i.
Proof.
  exists (Z.land (Z.lor b0 2) 254). split; [done|]. destruct (local_octet b0) as [H0 H1].
  split; [done|]. split; [done|]. intros i Hi. rewrite Z.land_spec, Z.lor_spec.
  assert (E : i = 2 \/ i = 3 \/ i = 4 \/ i = 5 \/ i = 6 \/ i = 7) by lia.
  destruct E as [->|[->|[->|[->|[->| ->]]]]]; simpl; by rewrite orb_false_r, andb_true_r.
Qed.

Lemma lor_low k x y : 0 <= k -> (2 ^ k | x) -> 0 <= y < 2 ^ k -> Z.lor x y = x + y.
Proof.
  intros Hk [q ->] Hy. rewrite <-(Z.add_lor_land (q * 2 ^ k) y).
  assert (Z.land (q * 2 ^ k) y = 0) as ->; [|lia].
  apply Z.bits_inj'. intros i Hi. rewrite Z.land_spec, Z.bits_0. destruct (decide (i < k)).
  - by rewrite Z.mul_pow2_bits_low by lia.
  - destruct (decide (y = 0)) as [->|]; [by rewrite Z.bits_0, andb_false_r|].
    rewrite (Z.bits_above_log2 y i), andb_false_r; [done|lia|].
    apply Z.log2_lt_pow2; [lia|]. pose proof (Z.pow_le_mono_r 2 k i). lia.
Qed.

Lemma IPv4ToUint32_val a b c d : byte a -> byte b -> byte c -> byte d ->
  IPv4ToUint32 [a; b; c; d] = Done (be_val [a; b; c; d]).
Proof.
  unfold byte. intros Ha Hb Hc Hd. unfold IPv4ToUint32. rewrite !Z.shiftl_mul_pow2 by lia.
  change (2 ^ 24) with 16777216. change (2 ^ 16) with 65536. change (2 ^ 8) with 256.
  rewrite (lor_low 24 (a * 16777216) (b * 65536)) by (try (by exists a); change (2 ^ 24) with 16777216; lia).
  rewrite (lor_low 16 _ (c * 256)) by (try (exists (a * 256 + b)); change (2 ^ 16) with 65536; lia).
  rewrite (lor_low 8 _ d) by (try (exists (a * 65536 + b * 256 + c)); change (2 ^ 8) with 256; lia).
  unfold be_val. simpl. f_equal. lia.
Qed.

Lemma Itoa_byte b : byte b -> Itoa b = dec_byte b.
Proof.
  intros Hb. assert (Hall : forallb (fun k => bool_decide (Itoa k = dec_byte k)) (seqZ 0 256) = true) by by_eval.
  rewrite forallb_forall in Hall. apply (bool_decide_eq_true (Itoa b = dec_byte b)), Hall.
  apply list_elem_of_In, elem_of_seqZ. unfold byte in Hb. lia.
Qed.

(** The four octets of a 32-bit value. *)
Lemma octets n : 0 <= n < 2 ^ 32 ->
  [Z.shiftr n 24; Z.shiftr (Z.land n 16711680) 16; Z.shiftr (Z.land n 65280) 8; Z.land n 255] = to_bytes 4 n.
Proof.
  intros Hn.
  assert (Hm : forall k, 0 <= k -> Z.shiftr (Z.land n (255 * 2 ^ k)) k = n / 2 ^ k mod 256).
  { intros k Hk. rewrite Z.shiftr_land, (Z.shiftr_div_pow2 (255 * 2 ^ k)), Z.div_mul by (try lia; pose proof (pow2_pos k); lia).
    rewrite Z.shiftr_div_pow2 by lia. by rewrite (Z.land_ones _ 8) by lia. }
  pose proof (Hm 0 ltac:(lia)) as H0. pose proof (Hm 8 ltac:(lia)) as H8. pose proof (Hm 16 ltac:(lia)) as H16.
  change (255 * 2 ^ 0) with 255 in H0. change (255 * 2 ^ 8) with 65280 in H8. change (255 * 2 ^ 16) with 16711680 in H16.
  rewrite Z.shiftr_0_r in H0. rewrite H0, H8, H16, Z.shiftr_div_pow2 by lia.
  change (2 ^ 24) with 16777216. change (2 ^ 16) with 65536. change (2 ^ 8) with 256. change (2 ^ 0) with 1.
  change (2 ^ 32) with 4294967296 in Hn. unfold to_bytes. simpl. repeat f_equal; zdm.
Qed.

Lemma string4_text l : Forall byte l -> length l = 4%nat -> Join (Itoa <$> l) "." = IP_String l.
Proof.
  intros Hb Hl. unfold IP_String, netIP_String. rewrite To4_4, Hl by done.
  destruct l as [|x l]; [done|]. cbn [isNil Nat.eqb negb andb]. unfold string4, dot_join. f_equal.
  clear Hl. induction Hb as [|y m Hy _ IH]; [done|]. rewrite !fmap_cons, IH. by rewrite Itoa_byte.
Qed.

(** A 32-bit value printed by [Uint32ToIPv4] is an IPv4 address that
    parses, and [IPv4ToUint32] of it is the value. *)
Theorem uint32_text_roundtrip n : 0 <= n < 2 ^ 32 ->
  NewIP (Uint32ToIPv4 n) = Ok (to_bytes 4 n) /\ IPv4ToUint32 (to_bytes 4 n) = Done n.
Proof.
  intros Hn. pose proof (to_bytes_byte 4 n) as Hb. pose proof (length_to_bytes 4 n) as Hl.
  pose proof (be_val_to_bytes 4 n) as Hv. rewrite Z.mod_small in Hv by done.
  destruct (ipv_4 (to_bytes 4 n) Hb Hl) as [Hval Hi]. split.
  - assert (Hc : canon (to_bytes 4 n)).
    { split; [done|]. rewrite Hi, Hv, Hl. unfold v4_val. consts.
      rewrite !(proj2 (Z.leb_le _ _)); [done|..]; change (2 ^ 32) with 4294967296 in Hn; lia. }
    unfold Uint32ToIPv4. rewrite octets by done. rewrite <-(NewIP_String _ Hc). f_equal.
    rewrite (string4_text _ Hb Hl). done.
  - rewrite <-Hv at 2. destruct (to_bytes 4 n) as [|a [|b [|c [|d [|]]]]]; try done.
    rewrite !Forall_cons in Hb. destruct Hb as (? & ? & ? & ? & _). by apply IPv4ToUint32_val.
Qed.

Lemma uint32_text_roundtrip_witness :
  Uint32ToIPv4 168820739 = "10.16.0.3" /\ NewIP (Uint32ToIPv4 168820739) = Ok (to_bytes 4 168820739).
Proof.
  split; [vm_compute; reflexivity|].
  destruct (uint32_text_roundtrip 168820739 ltac:(by_eval)) as [H _]. exact H.
Defined.
