(* ===== verification/SubnetTheorems.v ===== *)
(** * What a subnet promises its callers

    The contracts of the operations of [pkg/ipam/subnet.go] and
    [pkg/ipam/ippool.go], each with a concrete instance. *)
From S2P Require Import Prelude.
From S2P Require Import GoStrings.
From S2P Require Import GoNet.
From S2P Require Import GoNetText.
From S2P Require Import Ip.
From S2P Require Import IpRange.
From S2P Require Import IpRangeList.
From S2P Require Import IpRangeListFacts.
From S2P Require Import UtilNet.
From S2P Require Import CidrFacts.
From S2P Require Import Hosts.
From S2P Require Import Subnet.
From S2P Require Import SubnetInv.
From S2P Require Import SubnetAlloc.
From S2P Require Import SubnetAlloc.
From S2P Require Import SubnetPools.
From S2P Require Import SubnetNew.
From S2P Require Import Demo.

Local Open Scope Z_scope.

(** ** Helpers *)

Lemma holds_Done {A} (o : outcome A) Q a : holds o Q -> o = Done a -> Q a.
Proof. by intros H ->. Qed.

Lemma NicIP_None f s nic : fNicToIP (fam f s) !! nic = None -> NicIP f s nic = [].
Proof. unfold NicIP, go_get. by intros ->. Qed.

(** A nic without an address goes straight to the allocation. *)
Lemma get_random_none iter f k pod nic mac sk cc s rnd : fNicToIP (fam f s) !! nic = None ->
  get_random iter f k pod nic mac sk cc s rnd = allocate_random iter f k pod nic mac sk cc s rnd.
Proof. intros H. unfold get_random. by rewrite NicIP_None. Qed.

(** [GetRandomMac] on a nic without a MAC: the first usable draw. *)
Lemma GetRandomMac_first s pod nic pre buf rest :
  sNicToMac s !! nic = None -> Forall (fun b => ~ usable (avoided s) (sMacToPod s) b) pre ->
  usable (avoided s) (sMacToPod s) buf ->
  GetRandomMac s pod nic (pre ++ buf :: rest) =
  Done (set_macs (<[nic := GenerateMac buf]> (sNicToMac s)) (<[GenerateMac buf := pod]> (sMacToPod s)) s,
        rest, GenerateMac buf).
Proof.
  intros Hn Hpre Hb. unfold GetRandomMac. rewrite Hn. fold (avoided s).
  rewrite (random_mac_first (avoided s)); [done..|]. rewrite length_app. simpl. lia.
Qed.

(** The only error of [GetStaticMac], which then changes nothing. *)
Lemma GetStaticMac_err s pod nic m cc s' e : GetStaticMac s pod nic m cc = (s', Some e) ->
  e = ErrConflict /\ s' = s /\ cc = true /\ m <> "" /\
  ((exists p, sMacToPod s !! m = Some p /\ p <> pod) \/ m = sGatewayMAC s).
Proof.
  unfold GetStaticMac. destruct (bool_decide_reflect (m = "")); [done|].
  destruct cc; [|done]. cbn [andb]. destruct (sMacToPod s !! m) as [p|] eqn:Em.
  - destruct (bool_decide_reflect (p = pod)) as [Hp|Hp]; cbn [negb].
    + destruct (negb _ && _) eqn:Eg; [|done]. intros [= <- <-].
      apply andb_prop in Eg as [_ Eg%bool_decide_eq_true]. eauto 10.
    + intros [= <- <-]. eauto 10.
  - destruct (negb _ && _) eqn:Eg; [|done]. intros [= <- <-].
    apply andb_prop in Eg as [_ Eg%bool_decide_eq_true]. eauto 10.
Qed.

Lemma IPPools_set_pools ps s : sIPPools (set_pools ps s) = ps.
Proof. by destruct s. Qed.

Section Contracts.

Context (iter : gmap string IPPool -> list (string * IPPool)).
Hypothesis iter_ok : forall m, iter m ≡ₚ map_to_list m.

(** ** Random allocation *)

(** C16: a successful random allocation for a nic without an address hands out
    an address that was available in the requested pool and is not one of the
    skipped ones, records it for the nic and the pod, and moves exactly this
    address from the available to the used ones. *)
Theorem random_address_fresh f k pod nic mac sk cc s rnd s' rnd' ip m :
  inv s -> clean_skipped sk -> fNicToIP (fam f s) !! nic = None ->
  get_random iter f k pod nic mac sk cc s rnd = Done (s', rnd', Ok (ip, m)) ->
  inv s' /\ (exists p, pools f s !! k = Some p /\ mem (pAvailable p) (ipv ip)) /\
  mem (fAvailable (fam f s)) (ipv ip) /\ (ipv ip ∉ (ipv <$> parse_skipped sk)) /\
  fNicToIP (fam f s') = <[nic := ip]> (fNicToIP (fam f s)) /\
  fIPToPod (fam f s') = <[IP_String ip := pod]> (fIPToPod (fam f s)) /\
  (forall v, mem (fUsing (fam f s')) v <-> v = ipv ip \/ mem (fUsing (fam f s)) v) /\
  (forall v, mem (fAvailable (fam f s')) v <-> mem (fAvailable (fam f s)) v /\ v <> ipv ip) /\
  fam (other f) s' = fam (other f) s.
Proof.
  intros H Hsk Hn. rewrite get_random_none by done. intros E.
  pose proof (holds_Done _ _ _ (allocate_random_spec iter iter_ok f k pod nic mac sk cc s rnd H Hsk) E)
    as (St & T & Hnsk & p & Hp & Hm).
  destruct T. destruct St. repeat (split; [done || (by exists p)|]). done.
Qed.

(** The allocation itself fails exactly when nothing is available. *)
Lemma allocate_exhausted f k pod nic mac sk cc s rnd : inv s ->
  (exists s', allocate_random iter f k pod nic mac sk cc s rnd = Done (s', rnd, Err ErrNoAvailable)) <->
  (forall p, pools f s !! k = Some p -> pAvailable p = []).
Proof.
  intros H. unfold allocate_random.
  destruct (sIPPools s !! k) as [p|] eqn:Hk.
  2:{ split; [|by eexists]. intros _ q Hq. apply pools_lookup_inv in Hq as (? & ? & _). congruence. }
  pose proof (pools_lookup f s k p Hk) as Hq.
  destruct (refill_ok _ _ _ _ (proj1 (H f)) Hq) as [_ Hemp]. unfold IPRangeList_Len.
  destruct (Nat.eqb_spec (length (pFree (refill (pool_fam f p)))) 0) as [Hz|Hz].
  { split; [|by eexists]. intros _ q. rewrite Hq. intros [= <-]. by apply Hemp, nil_length_inv. }
  split; [|intros Ha; exfalso; apply Hz; by rewrite (proj2 Hemp (Ha _ Hq))].
  intros [s' E] q _. exfalso. destruct (IPRangeList_Allocate _ _) as [free ip].
  destruct (isNil ip); [done|]. destruct mac as [m|].
  - destruct (GetStaticMac _ _ _ _ _) as [s3 [e|]] eqn:Em; [|done].
    apply GetStaticMac_err in Em as (-> & _). destruct (release_fam _ _ _ _ _); [|done..]. simpl in E. congruence.
  - destruct (GetRandomMac _ _ _ _) as [[[s3 r3] m3]| |]; simpl in E; congruence.
Qed.

(** C17: a random request of a nic without an address of the family reports
    [ErrNoAvailable] exactly when the pool does not exist or holds no
    available address: addresses are never leaked by the [Free]/[Released]
    bookkeeping.  A nic that has an address of the family, and a MAC or a
    request for none, gets them back unless the address is to be skipped,
    whatever the pool holds, and nothing changes. *)
Theorem random_address_exhausted f k pod nic mac sk cc s rnd :
  inv s ->
  (fNicToIP (fam f s) !! nic = None ->
   (exists s', get_random iter f k pod nic mac sk cc s rnd = Done (s', rnd, Err ErrNoAvailable)) <->
   (forall p, pools f s !! k = Some p -> pAvailable p = [])) /\
  (forall ip, fNicToIP (fam f s) !! nic = Some ip ->
   go_get "" (sNicToMac s) nic <> "" \/ mac = Some "" -> (IP_String ip ∉ sk) ->
   get_random iter f k pod nic mac sk cc s rnd = Done (s, rnd, Ok (ip, go_get "" (sNicToMac s) nic))).
Proof.
  intros H. split; [intros Hn; rewrite get_random_none by done; by apply allocate_exhausted|].
  intros ip Ha Hm Hs. assert (Ei : NicIP f s nic = ip) by (unfold NicIP, go_get; by rewrite Ha).
  unfold get_random. rewrite Ei. destruct (proj2 (H f) _ _ Ha) as [Hc%canon_not_nil _].
  replace (isNil ip) with false by by destruct ip. cbn [negb andb]. replace (_ || _) with true.
  2:{ symmetry. apply orb_true_iff. rewrite negb_true_iff, bool_decide_eq_false, bool_decide_eq_true. tauto. }
  unfold slice_contains. by rewrite bool_decide_false.
Qed.

(** An allocation from a pool with available addresses and no skipped ones
    reaches the choice of the MAC. *)
Lemma allocate_reaches f k pod nic mac cc s rnd p :
  inv s -> pools f s !! k = Some p -> pAvailable p <> [] ->
  exists s2 ip,
    sNicToMac s2 = sNicToMac s /\ sMacToPod s2 = sMacToPod s /\ sGatewayMAC s2 = sGatewayMAC s /\
    allocate_random iter f k pod nic mac [] cc s rnd =
    match mac with
    | None => '(s3, rnd', m) ← GetRandomMac s2 pod nic rnd; Done (s3, rnd', Ok (ip, m))
    | Some m =>
        match GetStaticMac s2 pod nic m cc with
        | (s3, Some e) =>
            s4 ← release_fam iter f pod nic s3; Done (popPodNic pod nic s4, rnd, Err e)
        | (s3, None) => Done (s3, rnd, Ok (ip, m))
        end
    end.
Proof.
  intros H Hq Hne. destruct (pools_lookup_inv _ _ _ _ Hq) as (pp & Hk & ->).
  destruct (refill_ok _ _ _ _ (proj1 (H f)) Hq) as [Hr Hemp].
  pose proof (pi_wf _ _ (li_pool _ _ Hr k _ (lookup_insert_eq _ _ _))) as [_ W _ _ _ _].
  unfold allocate_random. rewrite Hk. unfold IPRangeList_Len.
  destruct (pFree (refill (pool_fam f pp))) as [|r l] eqn:Ef; [by destruct Hne; apply Hemp|].
  cbn [length Nat.eqb]. pose proof (IPRangeList_Allocate_ok _ [] W (Forall_nil_2 _)) as Ha.
  change (parse_skipped []) with (@nil IP).
  destruct (IPRangeList_Allocate (r :: l) []) as [free ip] eqn:Ea.
  destruct Ha as [(-> & -> & Hall)|(Hnn & _)].
  { exfalso. destruct W as (_ & [_ _ ? _ _ _] & _). specialize (Hall (lo r) ltac:(simpl; lia)).
    by apply elem_of_nil in Hall. }
  destruct ip as [|b0 ip']; [done|]. cbn [isNil].
  eexists (pushPodNic _ _ _), (b0 :: ip').
  set (s2 := take_random _ _ _ _ _ _ _ _).
  assert (E : macs (pushPodNic pod nic s2) = macs s) by (subst s2; by rewrite macs_push, macs_take, macs_put_pool).
  injection E as E1 E2 E3. split; [exact E1|]. split; [exact E2|]. split; [exact E3|done].
Qed.

(** C18: a random request without a given MAC and without addresses to skip,
    on a nic that holds neither an address of the family nor a MAC, succeeds
    whenever the pool has an available address and the
    random source has a usable MAC: it returns, and with the first usable one. *)
Theorem random_address_granted f k pod nic cc s p pre buf rest :
  inv s -> pools f s !! k = Some p -> pAvailable p <> [] ->
  fNicToIP (fam f s) !! nic = None -> sNicToMac s !! nic = None ->
  Forall (fun b => ~ usable (avoided s) (sMacToPod s) b) pre ->
  usable (avoided s) (sMacToPod s) buf ->
  exists s' ip, get_random iter f k pod nic None [] cc s (pre ++ buf :: rest) =
                Done (s', rest, Ok (ip, GenerateMac buf)) /\
    sNicToMac s' = <[nic := GenerateMac buf]> (sNicToMac s) /\
    sMacToPod s' = <[GenerateMac buf := pod]> (sMacToPod s).
Proof.
  intros H Hp Hne Hn Hm Hpre Hb. rewrite get_random_none by done.
  destruct (allocate_reaches f k pod nic None cc s (pre ++ buf :: rest) p H Hp Hne)
    as (s2 & ip & E1 & E2 & E3 & ->).
  assert (Ea : avoided s2 = avoided s) by (unfold avoided; by rewrite E3).
  rewrite <-Ea, <-E2 in Hpre, Hb.
  rewrite GetRandomMac_first; [|by rewrite E1|done..].
  eexists _, ip. split; [done|]. simpl. rewrite E1, E2. by destruct s2.
Qed.

(** C19: a dual-stack request is all or nothing.  On success the nic holds both
    returned addresses; on an error, a nic that held no address holds none
    afterwards and neither family has changed its used or available
    addresses. *)
Theorem dual_all_or_nothing k pod nic mac sk cc s rnd s' rnd' r :
  inv s -> clean_skipped sk -> no_comma pod ->
  getDualRandomAddress iter k pod nic mac sk cc s rnd = Done (s', rnd', r) ->
  inv s' /\
  match r with
  | Ok (v4, v6, _) =>
      fNicToIP (sV4 s') !! nic = Some v4 /\ fNicToIP (sV6 s') !! nic = Some v6
  | Err e =>
      (e = ErrNoAvailable \/ e = ErrConflict) /\
      (fNicToIP (sV4 s) !! nic = None -> fNicToIP (sV6 s) !! nic = None ->
       forall f, fUsing (fam f s') = fUsing (fam f s) /\
                 fAvailable (fam f s') = fAvailable (fam f s) /\
                 fNicToIP (fam f s') = fNicToIP (fam f s))
  end.
Proof.
  intros H Hsk Hp E.
  pose proof (holds_Done _ _ _ (getDual_spec iter iter_ok k pod nic mac sk cc s rnd H Hsk) E) as [St Hd].
  specialize (Hd Hp). split; [apply St|]. destruct r as [[[v4 v6] m]|e]; [done|].
  destruct Hd as [He Hu]. split; [done|]. intros H4 H6.
  destruct (Hu H4 H6) as [[(_ & ? & ?) ?] [(_ & ? & ?) ?]]. by intros [].
Qed.

(** Whatever a random request does, it does not touch other nics: their
    addresses stay, the network and the reserved addresses stay, the
    invariant and the exclusive ownership of addresses are kept, and the
    request does not panic. *)
Theorem random_request_frame k pod nic mac family sk cc s rnd :
  inv s -> clean_skipped sk ->
  match GetRandomAddressWithFamily iter k pod nic mac family sk cc s rnd with
  | Done (s', _, _) =>
      inv s' /\ (no_comma pod -> own s -> own s') /\
      (forall f, fCIDR (fam f s') = fCIDR (fam f s) /\ fReserved (fam f s') = fReserved (fam f s)) /\
      (forall f nic', nic' <> nic -> fNicToIP (fam f s') !! nic' = fNicToIP (fam f s) !! nic')
  | Panic => False
  | Starved => True
  end.
Proof.
  intros H Hsk.
  pose proof (GetRandomAddressWithFamily_step iter iter_ok k pod nic mac family sk cc s rnd H Hsk) as Hs.
  destruct (GetRandomAddressWithFamily _ _ _ _ _ _ _ _ _ _) as [[[s' r] x]| |]; [|done..].
  destruct Hs as [Hi Hsp Hf Ho]. repeat (split; [done|]). done.
Qed.

(** ** Releasing *)


(** Releasing a pod releases every nic recorded for it, and only those. *)
Theorem release_pod_frees pod s : inv s -> own s -> no_comma pod ->
  exists s', ReleaseAddress iter pod s = Done s' /\ inv s' /\ own s' /\
    (forall nic f, nic ∈ go_get [] (sPodToNicList s) pod -> fNicToIP (fam f s') !! nic = None) /\
    (forall nic f, (nic ∉ go_get [] (sPodToNicList s) pod) ->
       fNicToIP (fam f s') !! nic = fNicToIP (fam f s) !! nic).
Proof.
  intros H Ho Hp. unfold ReleaseAddress.
  destruct (release_nics_freed iter iter_ok pod (go_get [] (sPodToNicList s) pod) s H Ho Hp)
    as (s' & -> & [Hi _ Hfr Hown] & Hf).
  exists s'. split; [done|]. split; [done|]. split; [auto|]. split; [done|]. intros nic f Hn. by apply Hfr.
Qed.

(** Taking an address and releasing it gives back the lists of used and
    available addresses one started from. *)
Theorem allocate_release_roundtrip f k pod nic mac sk cc s rnd s' rnd' ip m :
  inv s -> own_inv (fam f s) -> no_comma pod -> clean_skipped sk -> fNicToIP (fam f s) !! nic = None ->
  get_random iter f k pod nic mac sk cc s rnd = Done (s', rnd', Ok (ip, m)) ->
  exists s'', release_fam iter f pod nic s' = Done s'' /\
    fUsing (fam f s'') = fUsing (fam f s) /\ fAvailable (fam f s'') = fAvailable (fam f s) /\
    fNicToIP (fam f s'') = fNicToIP (fam f s).
Proof.
  intros H Ho Hp Hsk Hn. rewrite get_random_none by done. intros E.
  pose proof (holds_Done _ _ _ (allocate_random_spec iter iter_ok f k pod nic mac sk cc s rnd H Hsk) E)
    as (St & T & _).
  assert (Hl : fNicToIP (fam f s') !! nic = Some ip)
    by (rewrite (tp_nics _ _ _ _ _ _ T); apply lookup_insert_eq).
  destruct (release_fam_own iter iter_ok f pod nic s' ip (as_inv _ _ _ _ _ St f)
    (as_own _ _ _ _ _ St Hp Ho) Hl) as (s'' & E'' & R & _).
  exists s''. split; [done|].
  destruct (take_release_at f pod nic ip s s' s' s'' (proj1 (H f)) T eq_refl R) as (_ & -> & ->).
  split; [done|]. split; [done|]. rewrite (rp_nics _ _ _ _ _ R), (tp_nics _ _ _ _ _ _ T).
  by rewrite delete_insert_id.
Qed.

(** ** Static allocation *)

(** The family an address belongs to. *)
Definition family_of (ip : IP) : family := if negb (isNil (To4 ip)) then V4 else V6.

Lemma static_family_avail ip cc s :
  inv s -> canon ip -> mem (fAvailable (fam (family_of ip) s)) (ipv ip) ->
  (cc = true -> netIP_Equal ip (ParseIP (fGw (fam (family_of ip) s))) = false) ->
  exists k, staticAddressFamilyForIP iter ip cc s = Ok (family_of ip, k).
Proof.
  intros H Hc Ha Hg. unfold staticAddressFamilyForIP. fold (family_of ip). set (f := family_of ip) in *.
  pose proof (proj1 (H f)) as Hl. destruct (proj1 (li_avail _ _ Hl _) Ha) as (Hh & _ & _).
  destruct (li_cover _ _ Hl _ (or_introl Hh)) as (k & q & Hk & Hq).
  pose proof (li_cidr _ _ Hl) as Hok. unfold cidr_ok, hosts_of in *.
  destruct (fCIDR (fam f s)) as [n|]; [|done].
  rewrite (hosts_contained n ip) by (done || apply Hc). cbn [negb].
  destruct (find_pool f ip (iter (sIPPools s))) as [k'|] eqn:Ef.
  - exists k'. destruct cc; [rewrite Hg by done|]; done.
  - destruct (pools_lookup_inv _ _ _ _ Hk) as (p & Hp & ->).
    eapply find_pool_None in Ef; [|by apply (elem_of_iter _ iter_ok)].
    rewrite IPRangeList_Contains_mem in Ef by (auto with ip; apply (li_pool _ _ Hl _ _ Hk)).
    by apply bool_decide_eq_false in Ef.
Qed.

Lemma take_static_avail f k ip s p :
  inv s -> canon ip -> sIPPools s !! k = Some p -> mem (pIPs (pool_fam f p)) (ipv ip) ->
  mem (fAvailable (fam f s)) (ipv ip) -> exists sa, take_static f k ip s = Some sa.
Proof.
  intros H Hc Hk Hip Ha. unfold take_static. rewrite Hk.
  destruct (li_pool _ _ (proj1 (H f)) _ _ (pools_lookup f s k p Hk)) as [[_ W2 _ _ W5 _] P1 P2 _ _ _ _ _].
  destruct (IPRangeList_Contains _ _); [by eexists|].
  pose proof (IPRangeList_Remove_ok _ ip W2 Hc) as R1. destruct (IPRangeList_Remove (pFree _) ip) as [l1 ok1].
  pose proof (IPRangeList_Remove_ok _ ip W5 Hc) as R2. destruct (IPRangeList_Remove (pReleased _) ip) as [l2 ok2].
  destruct R1 as (_ & _ & ->), R2 as (_ & _ & ->).
  case_bool_decide as E1; [by eexists|]. case_bool_decide as E2; [by eexists|].
  exfalso. assert (Hpa : mem (pAvailable (pool_fam f p)) (ipv ip)) by (by apply P1).
  apply P2 in Hpa. tauto.
Qed.

(** C21: a static request for an available address that is not the gateway,
    for a nic without an address of that family, is granted as soon as the
    MAC is; exactly this address is taken and recorded. *)
Theorem static_address_granted pod nic ip mac force cc s rnd s2 rnd2 m :
  inv s -> canon ip ->
  let f := family_of ip in
  mem (fAvailable (fam f s)) (ipv ip) -> fIPToPod (fam f s) !! IP_String ip = None ->
  fNicToIP (fam f s) !! nic = None ->
  (cc = true -> netIP_Equal ip (ParseIP (fGw (fam f s))) = false) ->
  static_mac pod nic mac cc s rnd = Done (s2, rnd2, Ok m) ->
  exists s', GetStaticAddress iter pod nic ip mac force cc s rnd = Done (s', rnd2, Ok (ip, m)) /\
    fNicToIP (fam f s') = <[nic := ip]> (fNicToIP (fam f s)) /\
    fIPToPod (fam f s') = <[IP_String ip := pod]> (fIPToPod (fam f s)) /\
    (forall v, mem (fUsing (fam f s')) v <-> v = ipv ip \/ mem (fUsing (fam f s)) v) /\
    (forall v, mem (fAvailable (fam f s')) v <-> mem (fAvailable (fam f s)) v /\ v <> ipv ip) /\
    fam (other f) s' = fam (other f) s.
Proof.
  intros H Hc f Ha Hpod Hn Hg Em.
  destruct (static_family_avail ip cc s H Hc Ha Hg) as (k & Ef). fold f in Ef.
  destruct (static_family_ok iter iter_ok ip cc s f k H Hc Ef) as (p & Hk & Hip & Hcidr & _).
  unfold GetStaticAddress. rewrite Ef. unfold releaseCurrentStaticAddress. rewrite NicIP_None by done.
  cbn [isNil negb andb mbind outcome_bind]. rewrite Em. cbn [mbind outcome_bind].
  pose proof (holds_Done _ _ _ (static_mac_view pod nic mac cc s rnd) Em) as [[V1 V2] _].
  assert (H2 : inv s2) by (by eapply same_view_inv).
  destruct (pool_ips_lookup f s s2 k p) as (p2 & Hk2 & Ep2); [by apply pool_ips_eq|done|].
  rewrite <-(V1 f) in Ha, Hpod, Hcidr. rewrite <-Ep2 in Hip.
  destruct (take_static_avail f k ip s2 p2 H2 Hc Hk2 Hip Ha) as (sa & Et).
  unfold allocateStaticAddress. rewrite Hpod, Et.
  destruct (take_static_post f k pod nic ip s2 sa p2 H2 Hc Hcidr Hk2 Hip Et).
  eexists. split; [done|]. view. rewrite <-!(V1 _). auto.
Qed.

(** With conflict checking, a static request for an address another pod
    owns is never granted: it ends in an error, and for a nic without an
    address of the family it changes no address of either family. *)
Theorem static_address_conflict pod nic ip mac force s rnd owners s' rnd' r :
  fIPToPod (fam (family_of ip) s) !! IP_String ip = Some owners -> (pod ∉ Split owners ",") ->
  fNicToIP (fam (family_of ip) s) !! nic = None ->
  GetStaticAddress iter pod nic ip mac force true s rnd = Done (s', rnd', r) ->
  (exists e, r = Err e) /\ forall f, fam f s' = fam f s.
Proof.
  intros Hown Hnin Hn. unfold GetStaticAddress.
  destruct (staticAddressFamilyForIP iter ip true s) as [[f k]|e] eqn:Ef; [|intros [= <- _ <-]; eauto].
  apply static_family_of in Ef. fold (family_of ip) in Ef. subst f.
  unfold releaseCurrentStaticAddress. rewrite NicIP_None by done.
  cbn [isNil negb andb mbind outcome_bind].
  pose proof (static_mac_view pod nic mac true s rnd) as V.
  destruct (static_mac pod nic mac true s rnd) as [[[s2 rnd2] rm]| |]; [|done..].
  destruct V as [[V1 _] _]. cbn [mbind outcome_bind].
  destruct rm as [m|e]; [|intros [= <- _ <-]; split; [eauto|intros f; view; apply V1]].
  unfold allocateStaticAddress. rewrite V1, Hown.
  unfold slice_contains. rewrite bool_decide_false by done. cbn [negb].
  intros [= <- _ <-]. split; [eauto|]. intros f. view. apply V1.
Qed.

(** A static request for an address outside the network of its family
    is refused with [ErrOutOfRange], one for the gateway is refused, and
    neither changes anything. *)
Theorem static_address_refused pod nic ip mac force s rnd :
  (match fCIDR (fam (family_of ip) s) with Some n => IPNet_Contains n ip = false | None => True end ->
   GetStaticAddress iter pod nic ip mac force true s rnd = Done (s, rnd, Err ErrOutOfRange)) /\
  (netIP_Equal ip (ParseIP (fGw (fam (family_of ip) s))) = true ->
   exists e, GetStaticAddress iter pod nic ip mac force true s rnd = Done (s, rnd, Err e)).
Proof.
  unfold GetStaticAddress, staticAddressFamilyForIP. fold (family_of ip).
  split; intros Hx; destruct (fCIDR (fam (family_of ip) s)) as [n|].
  - by rewrite Hx.
  - done.
  - destruct (negb _); [eauto|]. destruct (find_pool _ _ _); [|eauto]. rewrite Hx. eauto.
  - eauto.
Qed.

(** ** Pools *)

(** C26: creating or resizing a named pool from well-formed entries returns.
    An error leaves the subnet alone.  Success keeps the invariant (so the
    pools stay disjoint, cover the network and show the subnet's addresses),
    gives the pool exactly the listed addresses, and changes neither the
    subnet's own lists nor any other named pool. *)
Theorem ippool_update_ok name ips s : inv s -> name <> "" -> Forall clean_entry ips ->
  exists s' e, AddOrUpdateIPPool iter name ips s = Done (s', e) /\
    inv s' /\ (forall f, fam f s' = fam f s) /\ (e <> None -> s' = s) /\
    (e = None -> exists p, sIPPools s' !! name = Some p /\
       (forall f, fCIDR (fam f s) <> None ->
          NewIPRangeListFrom (match f with V4 => fst | V6 => snd end (SplitIpsByProtocol ips)) =
          Ok (pIPs (pool_fam f p))) /\
       (forall k, k <> "" -> k <> name -> sIPPools s' !! k = sIPPools s !! k)).
Proof.
  intros H Hne Hc. destruct (AddOrUpdateIPPool_inv iter iter_ok name ips s H Hne Hc) as (s' & e & E & I & F & Hs).
  exists s', e. repeat (split; [done|]). intros ->. revert E. unfold AddOrUpdateIPPool.
  destruct (SplitIps_clean clean_entry ips Hc) as [C4 C6].
  destruct (SplitIpsByProtocol ips) as [v4 v6]. cbn [fst snd] in *.
  pose proof (new_pool_fam_ok iter iter_ok V4 name v4 s H C4) as N4.
  destruct (new_pool_fam iter V4 name v4 s) as [[p4|]| |]; [|done..]. cbn [mbind outcome_bind].
  pose proof (new_pool_fam_ok iter iter_ok V6 name v6 s H C6) as N6.
  destruct (new_pool_fam iter V6 name v6 s) as [[p6|]| |]; [|done..]. cbn [mbind outcome_bind].
  destruct (sIPPools s !! ""); [|done]. cbn [of_option mbind outcome_bind]. intros [= <-]. rewrite IPPools_set_pools.
  exists (mkPool p4 p6). split; [apply lookup_insert_eq|].
  destruct N4 as (l4 & _ & P4 & E4 & _), N6 as (l6 & _ & P6 & E6 & _). split.
  - intros [] Hcidr; simpl; [rewrite (po_ips _ _ _ P4)|rewrite (po_ips _ _ _ P6)]; auto.
  - intros k Hk0 Hk. by rewrite !lookup_insert_ne.
Qed.

(** Removing a named pool gives its addresses back to the default pool:
    the invariant is kept, the subnet's own lists and the other named pools
    are the same, the pool is gone, and the default pool has the addresses of
    both. *)
Theorem ippool_removal_ok name s p d : inv s -> name <> "" ->
  sIPPools s !! name = Some p -> sIPPools s !! "" = Some d ->
  exists s' d', RemoveIPPool name s = Done s' /\ inv s' /\ (forall f, fam f s' = fam f s) /\
    sIPPools s' !! name = None /\ sIPPools s' !! "" = Some d' /\
    (forall k, k <> "" -> k <> name -> sIPPools s' !! k = sIPPools s !! k) /\
    forall f v,
      (mem (pIPs (pool_fam f d')) v <-> mem (pIPs (pool_fam f d)) v \/ mem (pIPs (pool_fam f p)) v) /\
      (mem (pAvailable (pool_fam f d')) v <->
       mem (pAvailable (pool_fam f d)) v \/ mem (pAvailable (pool_fam f p)) v).
Proof.
  intros H Hn Hp Hd. destruct (RemoveIPPool_inv name s H Hn) as (s' & E & I & F).
  revert E. unfold RemoveIPPool. rewrite Hp, Hd. cbn [of_option mbind outcome_bind]. intros [= <-].
  eexists _, _. repeat (split; [done|]). rewrite IPPools_set_pools. split; [apply lookup_delete_eq|].
  split; [rewrite lookup_delete_ne by done; apply lookup_insert_eq|].
  split; [intros k Hk0 Hk; by rewrite lookup_delete_ne, lookup_insert_ne|].
  intros f v. pose proof (pi_wf _ _ (li_pool _ _ (proj1 (H f)) _ _ (pools_lookup f s _ _ Hd))) as W.
  pose proof (pi_wf _ _ (li_pool _ _ (proj1 (H f)) _ _ (pools_lookup f s _ _ Hp))) as W'.
  destruct W, W'. destruct f; simpl; split; by apply IPRangeList_Merge_ok.
Qed.

End Contracts.

(** ** MAC addresses *)

(** [GetRandomMac] keeps the MAC a nic already has; otherwise it returns
    the first draw that is neither the gateway's MAC nor taken, and records
    it for nic and pod; with no such draw it keeps on drawing. *)
Theorem random_mac_first_usable s pod nic rnd :
  (forall m, sNicToMac s !! nic = Some m -> GetRandomMac s pod nic rnd = Done (s, rnd, m)) /\
  (sNicToMac s !! nic = None ->
   (forall pre buf rest, rnd = pre ++ buf :: rest ->
      Forall (fun b => ~ usable (avoided s) (sMacToPod s) b) pre ->
      usable (avoided s) (sMacToPod s) buf ->
      GetRandomMac s pod nic rnd =
      Done (set_macs (<[nic := GenerateMac buf]> (sNicToMac s))
                     (<[GenerateMac buf := pod]> (sMacToPod s)) s, rest, GenerateMac buf)) /\
   (Forall (fun b => ~ usable (avoided s) (sMacToPod s) b) rnd -> GetRandomMac s pod nic rnd = Starved)).
Proof.
  split; [intros m Hm; unfold GetRandomMac; by rewrite Hm|]. intros Hn. split.
  - intros pre buf rest -> Hp Hb. by apply GetRandomMac_first.
  - intros Hr. unfold GetRandomMac. rewrite Hn. fold (avoided s). by rewrite random_mac_starved.
Qed.

(** With conflict checking a static MAC is refused, without any change,
    exactly when another pod has it or it is the gateway's; otherwise it is
    recorded for the nic and the pod. *)
Theorem static_mac_outcome s pod nic m : m <> "" ->
  GetStaticMac s pod nic m true =
  if decide ((sMacToPod s !! m <> None /\ sMacToPod s !! m <> Some pod) \/ m = sGatewayMAC s)
  then (s, Some ErrConflict)
  else (set_macs (<[nic := m]> (sNicToMac s)) (<[m := pod]> (sMacToPod s)) s, None).
Proof.
  intros Hm. unfold GetStaticMac. rewrite bool_decide_false by done. cbn [andb].
  destruct (sMacToPod s !! m) as [p|]; [destruct (bool_decide_reflect (p = pod)) as [->|Hp]; cbn [negb]|].
  2:{ rewrite decide_True; [done|]. left. split; congruence. }
  all: destruct (decide (m = sGatewayMAC s)) as [<-|Hg].
  1,3: rewrite bool_decide_false, bool_decide_true by done; rewrite decide_True; [done|by right].
  all: rewrite (bool_decide_false (m = _)), andb_false_r by done; rewrite decide_False; [done|tauto].
Qed.

(** ** New subnets *)

(** [NewSubnet] on well-formed networks and exclusions returns (it does
    not panic), and a subnet it builds satisfies the invariant, owns nothing
    yet, and offers exactly the hosts of its networks that are not reserved. *)
Theorem new_subnet_fresh name cidrStr ex : clean_blocks cidrStr -> Forall clean_exclude ex ->
  exists r, NewSubnet name cidrStr ex = Done r /\
    forall s, r = Ok s ->
      inv s /\ own s /\ sNicToMac s = ∅ /\ sMacToPod s = ∅ /\ sPodToNicList s = ∅ /\
      forall f, fUsing (fam f s) = [] /\ fNicToIP (fam f s) = ∅ /\
        forall v, mem (fAvailable (fam f s)) v <->
                  mem (hosts_of (fam f s)) v /\ ~ mem (fReserved (fam f s)) v.
Proof.
  intros Hc Hx. destruct (NewSubnet_fresh name cidrStr ex Hc Hx) as (r & E & Hr).
  exists r. split; [done|]. intros s ->. destruct Hr as [(I & O & Hu & Hm & Hp & Hn) _].
  repeat (split; [done|]). intros f. destruct (Hu f) as [Eu En]. repeat (split; [done|]).
  intros v. rewrite (li_avail _ _ (proj1 (I f))), Eu. simpl. tauto.
Qed.

(** ** Instances *)

(** The subnet after an IPv4 address was drawn for [web]. *)
Definition demo_v4 : Subnet :=
  match get_random by_key V4 "" "default/web" "web.default" None ["10.16.0.2"] true demo_subnet [demo_draw] with
  | Done (s, _, _) => s
  | _ => demo_subnet
  end.

Lemma random_address_fresh_witness :
  get_random by_key V4 "" "default/web" "web.default" None ["10.16.0.2"] true demo_subnet [demo_draw] =
  Done (demo_v4, [], Ok ([10; 16; 0; 3], "02:00:5e:00:53:01")) /\
  fNicToIP (fam V4 demo_v4) = <["web.default" := [10; 16; 0; 3]]> (fNicToIP (fam V4 demo_subnet)).
Proof.
  assert (E : get_random by_key V4 "" "default/web" "web.default" None ["10.16.0.2"] true demo_subnet [demo_draw] =
    Done (demo_v4, [], Ok ([10; 16; 0; 3], "02:00:5e:00:53:01"))) by (vm_compute; reflexivity).
  split; [exact E|].
  destruct (random_address_fresh by_key by_key_ok V4 "" "default/web" "web.default" None ["10.16.0.2"] true
    demo_subnet [demo_draw] demo_v4 [] [10; 16; 0; 3] "02:00:5e:00:53:01"
    demo_inv ltac:(by_eval) ltac:(vm_compute; reflexivity) E) as (_ & _ & _ & _ & Hn & _).
  exact Hn.
Defined.

Lemma random_address_exhausted_witness :
  (exists s', get_random by_key V4 "no-such-pool" "default/web" "web.default" None [] true demo_subnet [] =
              Done (s', [], Err ErrNoAvailable)) /\
  get_random by_key V4 "no-such-pool" "default/web" "web.default" None [] true demo_busy [] =
    Done (demo_busy, [], Ok ([10; 16; 0; 2], go_get "" (sNicToMac demo_busy) "web.default")).
Proof.
  split.
  - refine (proj2 (proj1 (random_address_exhausted by_key V4 "no-such-pool" "default/web" "web.default" None [] true
      demo_subnet [] demo_inv) _) _); [vm_compute; reflexivity|]. intros p. vm_compute. discriminate.
  - refine (proj2 (random_address_exhausted by_key V4 "no-such-pool" "default/web" "web.default" None [] true
      demo_busy [] demo_busy_inv) _ _ _ _); [vm_compute; reflexivity|left; vm_compute; discriminate|].
    intros Hin. by apply elem_of_nil in Hin.
Defined.

(** The default pool of a family of the demo subnet. *)
Definition demo_pool : PoolFam := default empty_pool_fam (pools V6 demo_subnet !! "").

Lemma random_address_granted_witness :
  exists s' ip, get_random by_key V6 "" "default/web" "web.default" None [] true demo_subnet [demo_draw] =
                Done (s', [], Ok (ip, GenerateMac demo_draw)) /\
    sNicToMac s' = <["web.default" := GenerateMac demo_draw]> (sNicToMac demo_subnet) /\
    sMacToPod s' = <[GenerateMac demo_draw := "default/web"]> (sMacToPod demo_subnet).
Proof.
  refine (random_address_granted by_key V6 "" "default/web" "web.default" true demo_subnet demo_pool
    [] demo_draw [] demo_inv _ _ _ _ _ _);
    [vm_compute; reflexivity|vm_compute; discriminate|vm_compute; reflexivity..|constructor|by_eval].
Defined.

(** A dual-stack request that fails in the second family: the only IPv6 pool
    entry is missing in the IPv4-only pool [p4]. *)
Definition demo_pooled : Subnet :=
  match AddOrUpdateIPPool by_key "p4" ["10.16.0.4..10.16.0.5"] demo_subnet with
  | Done (s, _) => s
  | _ => demo_subnet
  end.

Lemma demo_pooled_inv : inv demo_pooled.
Proof.
  destruct (AddOrUpdateIPPool_inv by_key by_key_ok "p4" ["10.16.0.4..10.16.0.5"] demo_subnet demo_inv
    ltac:(discriminate) ltac:(by_eval)) as (s' & e & E & I & _).
  unfold demo_pooled. by rewrite E.
Qed.

Definition demo_dual_failed : Subnet :=
  match getDualRandomAddress by_key "p4" "default/web" "web.default" None [] true demo_pooled [demo_draw] with
  | Done (s, _, _) => s
  | _ => demo_pooled
  end.

Lemma dual_all_or_nothing_witness :
  getDualRandomAddress by_key "p4" "default/web" "web.default" None [] true demo_pooled [demo_draw] =
  Done (demo_dual_failed, [], Err ErrNoAvailable) /\ inv demo_dual_failed /\
  fUsing (fam V4 demo_dual_failed) = fUsing (fam V4 demo_pooled).
Proof.
  assert (E : getDualRandomAddress by_key "p4" "default/web" "web.default" None [] true demo_pooled [demo_draw] =
    Done (demo_dual_failed, [], Err ErrNoAvailable)) by (vm_compute; reflexivity).
  destruct (dual_all_or_nothing by_key by_key_ok "p4" "default/web" "web.default" None [] true demo_pooled
    [demo_draw] demo_dual_failed [] (Err ErrNoAvailable) demo_pooled_inv ltac:(by_eval) ltac:(vm_compute; reflexivity) E)
    as [I [_ Hf]].
  split; [exact E|]. split; [exact I|].
  destruct (Hf ltac:(vm_compute; reflexivity) ltac:(vm_compute; reflexivity) V4) as [Hu _]. exact Hu.
Defined.

Lemma random_request_frame_witness :
  match GetRandomAddressWithFamily by_key "" "default/db" "db.default" None "ipv4" [] true demo_busy [] with
  | Done (s', _, _) => True
  | Panic => False
  | Starved => True
  end.
Proof.
  pose proof (random_request_frame by_key by_key_ok "" "default/db" "db.default" None "ipv4" [] true demo_busy []
    demo_busy_inv ltac:(by_eval)) as H.
  destruct (GetRandomAddressWithFamily _ _ _ _ _ _ _ _ _ _) as [[[? ?] ?]| |]; [exact I|exact H|exact I].
Defined.


Lemma release_pod_frees_witness :
  go_get [] (sPodToNicList demo_busy) "default/web" = ["web.default"] /\
  exists s', ReleaseAddress by_key "default/web" demo_busy = Done s' /\
    fNicToIP (fam V6 s') !! "web.default" = None.
Proof.
  assert (E : go_get [] (sPodToNicList demo_busy) "default/web" = ["web.default"]) by (vm_compute; reflexivity).
  split; [exact E|].
  destruct (release_pod_frees by_key by_key_ok "default/web" demo_busy demo_busy_inv demo_busy_own
    ltac:(vm_compute; reflexivity)) as (s' & Es & _ & _ & Hf & _).
  exists s'. split; [exact Es|]. apply Hf. rewrite E. by left.
Defined.

Lemma allocate_release_roundtrip_witness :
  exists s'', release_fam by_key V4 "default/web" "web.default" demo_v4 = Done s'' /\
    fAvailable (fam V4 s'') = fAvailable (fam V4 demo_subnet).
Proof.
  destruct (allocate_release_roundtrip by_key by_key_ok V4 "" "default/web" "web.default" None ["10.16.0.2"] true
    demo_subnet [demo_draw] demo_v4 [] [10; 16; 0; 3] "02:00:5e:00:53:01" demo_inv (demo_own V4)
    ltac:(vm_compute; reflexivity) ltac:(by_eval) ltac:(vm_compute; reflexivity) ltac:(vm_compute; reflexivity))
    as (s'' & E & _ & Ha & _).
  exists s''. split; [exact E|exact Ha].
Defined.

Lemma static_address_granted_witness :
  exists s', GetStaticAddress by_key "default/db" "db.default" [10; 16; 0; 5] (Some "") false true demo_busy [] =
             Done (s', [], Ok ([10; 16; 0; 5], "")) /\
    fNicToIP (fam V4 s') = <["db.default" := [10; 16; 0; 5]]> (fNicToIP (fam V4 demo_busy)).
Proof.
  destruct (static_address_granted by_key by_key_ok "default/db" "db.default" [10; 16; 0; 5] (Some "") false true
    demo_busy [] demo_busy [] "" demo_busy_inv ltac:(by_eval) ltac:(by_eval) ltac:(vm_compute; reflexivity)
    ltac:(vm_compute; reflexivity) ltac:(intros _; vm_compute; reflexivity) ltac:(vm_compute; reflexivity))
    as (s' & E & Hn & _).
  exists s'. split; [exact E|exact Hn].
Defined.

Definition demo_conflict : Subnet :=
  match GetStaticAddress by_key "default/db" "db.default" [10; 16; 0; 2] (Some "") false true demo_busy [] with
  | Done (s, _, _) => s
  | _ => demo_busy
  end.

Lemma static_address_conflict_witness :
  fIPToPod (sV4 demo_busy) !! "10.16.0.2" = Some "default/web" /\
  fam V4 demo_conflict = fam V4 demo_busy.
Proof.
  assert (Eo : fIPToPod (fam V4 demo_busy) !! "10.16.0.2" = Some "default/web") by (vm_compute; reflexivity).
  split; [exact Eo|].
  destruct (static_address_conflict by_key "default/db" "db.default" [10; 16; 0; 2] (Some "") false
    demo_busy [] "default/web" demo_conflict [] (Err ErrConflict)
    ltac:(vm_compute; reflexivity) ltac:(by_eval) ltac:(vm_compute; reflexivity) ltac:(vm_compute; reflexivity))
    as [_ Hf].
  exact (Hf V4).
Defined.

Lemma static_address_refused_witness :
  GetStaticAddress by_key "default/db" "db.default" [10; 17; 0; 2] None false true demo_busy [] =
  Done (demo_busy, [], Err ErrOutOfRange).
Proof.
  apply (proj1 (static_address_refused by_key "default/db" "db.default" [10; 17; 0; 2] None false demo_busy [])).
  vm_compute. reflexivity.
Defined.

Lemma ippool_update_ok_witness :
  exists s' e, AddOrUpdateIPPool by_key "p4" ["10.16.0.4..10.16.0.5"] demo_busy = Done (s', e) /\ inv s'.
Proof.
  destruct (ippool_update_ok by_key by_key_ok "p4" ["10.16.0.4..10.16.0.5"] demo_busy demo_busy_inv
    ltac:(discriminate) ltac:(by_eval)) as (s' & e & E & I & _).
  exists s', e. split; [exact E|exact I].
Defined.

Definition demo_p4 : IPPool := default (mkPool empty_pool_fam empty_pool_fam) (sIPPools demo_pooled !! "p4").
Definition demo_default : IPPool := default (mkPool empty_pool_fam empty_pool_fam) (sIPPools demo_pooled !! "").

Lemma ippool_removal_ok_witness :
  pIPs (pool4 demo_p4) = [NewIPRange [10; 16; 0; 4] [10; 16; 0; 5]] /\
  exists s', RemoveIPPool "p4" demo_pooled = Done s' /\ inv s' /\ sIPPools s' !! "p4" = None.
Proof.
  split; [vm_compute; reflexivity|].
  destruct (ippool_removal_ok "p4" demo_pooled demo_p4 demo_default demo_pooled_inv ltac:(discriminate)
    ltac:(vm_compute; reflexivity) ltac:(vm_compute; reflexivity)) as (s' & d' & E & I & _ & Hn & _).
  exists s'. split; [exact E|]. split; [exact I|exact Hn].
Defined.

Lemma static_mac_outcome_witness :
  GetStaticMac demo_busy "default/db" "db.default" "02:00:5e:00:53:01" true = (demo_busy, Some ErrConflict).
Proof.
  rewrite (static_mac_outcome demo_busy "default/db" "db.default" "02:00:5e:00:53:01"); [|discriminate].
  vm_compute. reflexivity.
Defined.

Lemma new_subnet_fresh_witness :
  exists r, NewSubnet "ovn-default" demo_cidr demo_excludes = Done r.
Proof.
  destruct (new_subnet_fresh "ovn-default" demo_cidr demo_excludes demo_blocks demo_excluded) as (r & E & _).
  exists r. exact E.
Defined.
