(* ===== verification/IpamTheorems.v ===== *)
(** * What the allocator promises in every reachable state

    The theorems about [pkg/ipam/ipam.go]: the table of subnets as a
    transition system, its safety properties, and the update of a subnet. *)
From S2P Require Import Prelude GoStrings GoNet GoNetText Ip IpRange IpRangeList IpRangeListFacts UtilNet CidrFacts Hosts Subnet SubnetInv SubnetAlloc SubnetPools SubnetNew Ipam IpamInv Validator ValidatorFacts Demo.

Local Open Scope Z_scope.

(** ** Safety of the transition system *)

(** C1: in every state the allocator can reach by serving well-formed
    requests, in any order, with any draws and any map iteration order: the
    available addresses of a subnet are exactly the hosts of its network that
    are neither used nor reserved; every host belongs to exactly one pool;
    and the available and used addresses of a pool are those of the subnet
    restricted to the pool. *)
Theorem reachable_partition ok ipam name s f :
  reachable ok ipam -> ipam !! name = Some s ->
  let x := fam f s in
  (forall v, mem (fAvailable x) v <->
     mem (hosts_of x) v /\ ~ mem (fUsing x) v /\ ~ mem (fReserved x) v) /\
  (forall v, mem (hosts_of x) v ->
     exists k p, pools f s !! k = Some p /\ mem (pIPs p) v /\
       forall k' p', pools f s !! k' = Some p' -> mem (pIPs p') v -> k' = k) /\
  (forall k p v, pools f s !! k = Some p ->
     (mem (pAvailable p) v <-> mem (fAvailable x) v /\ mem (pIPs p) v) /\
     (mem (pUsing p) v <-> mem (fUsing x) v /\ mem (pIPs p) v)).
Proof.
  intros Hr Hs x. destruct (reachable_table ok ipam Hr) as [Hi _]. destruct (Hi _ _ Hs f) as [L _].
  split; [apply L|]. split.
  - intros v Hv. destruct (li_cover _ _ L v (or_introl Hv)) as (k & p & Hk & Hm).
    exists k, p. split; [done|]. split; [done|]. intros k' p' Hk' Hm'. by eapply (li_disj _ _ L).
  - intros k p v Hk. destruct (li_pool _ _ L k p Hk). auto.
Qed.

(** C2: as long as every static request asks for conflict checking, no two
    nics of a subnet ever hold the same address, every held address counts as
    used and is never offered again, and it has an owner. *)
Theorem reachable_exclusive ipam name s f :
  reachable exclusive ipam -> ipam !! name = Some s ->
  let x := fam f s in
  (forall n1 n2 ip1 ip2, fNicToIP x !! n1 = Some ip1 -> fNicToIP x !! n2 = Some ip2 ->
     ipv ip1 = ipv ip2 -> n1 = n2) /\
  (forall nic ip, fNicToIP x !! nic = Some ip ->
     mem (fUsing x) (ipv ip) /\ ~ mem (fAvailable x) (ipv ip) /\
     exists pod, fIPToPod x !! IP_String ip = Some pod).
Proof.
  intros Hr Hs x. destruct (reachable_table _ ipam Hr) as [Hi Ho].
  destruct (Hi _ _ Hs f) as [L Hn]. destruct (Ho (fun _ H => H) _ _ Hs f) as [O1 O2 O3]. split.
  - intros n1 n2 ip1 ip2 H1 H2 E. apply (O2 n1 n2 ip1 H1).
    destruct (Hn _ _ H1) as [C1 _], (Hn _ _ H2) as [C2 _]. by rewrite (canon_inj _ _ C1 C2 E).
  - intros nic ip H1. split; [by eapply O1|]. split.
    + intros Ha%(li_avail _ _ L). destruct Ha as (_ & Hu & _). by apply Hu; eapply O1.
    + destruct (O3 _ _ H1) as (pod & E & _). by exists pod.
Qed.

(** C3: in a reachable state no well-formed request panics, and the state it
    leaves is reachable.  Only an allocation may wait for the random source,
    and only when fewer of its draws are fresh for the subnet (neither the
    gateway's MAC nor taken by a pod) than the request may need: one for a
    random request, one per address of a static one.  So every other request
    returns, and an allocation with enough fresh draws returns. *)
Theorem reachable_no_panic ok ipam order q rnd :
  reachable ok ipam -> GoOrder order -> ok q -> clean_request ipam q ->
  match serve order q ipam rnd with
  | Done (ipam', _) => reachable ok ipam'
  | Panic => False
  | Starved => exists s, ipam !! subnet_of q = Some s /\ (fresh_draws s rnd < demand q)%nat
  end.
Proof.
  intros Hr Ho Hq Hc. destruct (reachable_table ok ipam Hr) as [Hi _].
  pose proof (serve_keeps order q ipam rnd Hi Hc) as Hk.
  destruct (serve order q ipam rnd) as [[ipam' rnd']| |] eqn:E; [|done|].
  - eapply rtc_r; [done|]. by eapply step_serve.
  - destruct (decide (0 < demand q)%nat) as [Hd|Hd]; [by eapply alloc_draws|].
    revert E. destruct q; try (by destruct Hd; cbn; lia); try (by destruct Hd; apply Split_pos); try done;
      cbn [serve clean_request] in *.
    + destruct (on_subnets_ok order Ho (ReleaseAddress (order IPPool) podName) subnetName ipam) as (i & E & _);
        [intros; by apply release_pod_op|done|]. unfold ReleaseAddressByPod. by rewrite E.
    + destruct (on_subnets_ok order Ho (ReleaseAddressWithNicName (order IPPool) podName nicName) subnetName ipam)
        as (i & E & _); [intros; by apply release_nic_op|done|]. unfold ReleaseAddressByNic. by rewrite E.
    + destruct Hc as [Hc1 Hc2].
      destruct (AddOrUpdateSubnet_ok order Ho name cidrStr gw excludeIps ipam Hi Hc1 Hc2) as (i & e & -> & _). done.
    + destruct Hc as [Hc1 Hc2]. unfold IPAM_AddOrUpdateIPPool.
      destruct (ipam !! subnet) as [s|] eqn:Es; [|done].
      destruct (AddOrUpdateIPPool_inv (order IPPool) (fun m => Ho _ m) ippool ips s (Hi _ _ Es) Hc1 Hc2)
        as (s' & e & -> & _). done.
    + unfold IPAM_RemoveIPPool. destruct (ipam !! subnet) as [s|] eqn:Es; [|done].
      destruct (RemoveIPPool_inv ippool s (Hi _ _ Es) Hc) as (s' & -> & _). done.
Qed.

(** ** Updating a subnet *)

Lemma update_fam_fields order f cidrStr gw reserved s s' ips :
  host_list cidrStr = Done ips -> update_fam order f cidrStr gw reserved s = Done s' ->
  fUsing (fam f s') = IPRangeList_Intersect (fUsing (fam f s)) ips /\
  fNicToIP (fam f s') = keep_nics ips (fNicToIP (fam f s)).
Proof.
  unfold update_fam. intros ->. cbn [mbind outcome_bind].
  destruct (sIPPools s !! ""); [|done]. cbn [of_option mbind outcome_bind].
  destruct (rebuild_pools _ _ _ _ _ _) as [d ps]. intros [= <-]. by rewrite fam_set.
Qed.

(** C27: giving a family of a subnet a new network, gateway or set of
    reserved addresses returns; the network, gateway and reserved addresses
    are the new ones, exactly the nics and used addresses inside the new
    hosts are kept, the other family is left alone, and the invariant and the
    exclusive ownership hold afterwards, so the available addresses are
    recomputed. *)
Theorem subnet_update_recomputes order `{GoOrder order} f cidrStr gw reserved ip n s :
  inv s -> ParseCIDR cidrStr = Some (ip, n) -> clean_net n -> wf reserved ->
  exists s', update_fam order f cidrStr gw reserved s = Done s' /\ inv s' /\ (own s -> own s') /\
    fCIDR (fam f s') = Some n /\ fReserved (fam f s') = reserved /\ fGw (fam f s') = gw /\
    fam (other f) s' = fam (other f) s /\
    (forall v, mem (fUsing (fam f s')) v <-> mem (fUsing (fam f s)) v /\ mem (hosts n) v) /\
    (forall nic a, fNicToIP (fam f s') !! nic = Some a <->
       fNicToIP (fam f s) !! nic = Some a /\ mem (hosts n) (ipv a)).
Proof.
  intros Hi Ep Hn Wr.
  destruct (update_fam_ok order go_order f cidrStr gw reserved ip n s Hi Ep Hn Wr)
    as (s' & E & I & Eo & Ow & Ec & Er & Eg & _).
  destruct (update_fam_fields order f cidrStr gw reserved s s' (hosts n) (host_list_clean _ _ _ Ep Hn) E)
    as [Eu En].
  exists s'. do 2 (split; [done|]). split.
  { intros Ho. refine (family_cases _ f _ _); [by apply Ow, Ho|rewrite Eo; apply Ho]. }
  do 4 (split; [done|]). split.
  - intros v. rewrite Eu. apply IPRangeList_Intersect_ok; [apply (Hi f)|by apply hosts_wf].
  - intros nic a. rewrite En, keep_nics_Some. split; intros [Ha Hm]; (split; [done|]).
    all: destruct (proj2 (Hi f) _ _ Ha) as [Hc _].
    all: revert Hm; rewrite IPRangeList_Contains_mem by (auto using hosts_wf with ip).
    all: by rewrite bool_decide_eq_true.
Qed.

(** Only the entry of the named subnet changes. *)
Lemma AddOrUpdateSubnet_frame order name cidrStr gw ex ipam ipam' e k :
  AddOrUpdateSubnet order name cidrStr gw ex ipam = Done (ipam', e) -> k <> name ->
  ipam' !! k = ipam !! k.
Proof.
  intros E Hk.
  assert (Hins : forall s, <[name := s]> ipam !! k = ipam !! k) by (intros; by rewrite lookup_insert_ne).
  revert E. unfold AddOrUpdateSubnet. destruct (bool_decide (cidrStr = "")).
  - destruct (ipam !! name) as [s|]; [|by intros [= <- _]].
    destruct (fCIDR (sV4 s)), (fCIDR (sV6 s)); by intros [= <- _].
  - destruct (ExpandExcludeIPs ex cidrStr) as [excl| |]; [|done..]. cbn [mbind outcome_bind].
    destruct (parse_cidrs _) as [ns|]; [|by intros [= <- _]].
    destruct (cidr_gws _ _ _ _) as [[[[[c4 c6] g4] g6]|]| |]; [|by intros [= <- _]|done..].
    cbn [mbind outcome_bind]. destruct (ipam !! name) as [s|].
    + destruct (update_subnet _ _ _ _ _ _ _ _) as [[s' e']| |]; [|done..]. by intros [= <- _].
    + destruct (NewSubnet _ _ _) as [[s|]| |]; [|by intros [= <- _]|done..]. by intros [= <- _].
Qed.

(** An update of the whole table's subnet never panics on well-formed
    networks, and whatever it reports, every subnet of the table keeps the
    invariant. *)
Theorem subnet_request_safe order `{GoOrder order} name cidrStr gw ex ipam :
  table_inv ipam -> (cidrStr <> "" -> clean_blocks cidrStr) -> Forall clean_exclude ex ->
  exists ipam' e, AddOrUpdateSubnet order name cidrStr gw ex ipam = Done (ipam', e) /\
    table_inv ipam' /\ (table_own ipam -> table_own ipam') /\
    (forall k, k <> name -> ipam' !! k = ipam !! k).
Proof.
  intros Hi Hc Hx. destruct (AddOrUpdateSubnet_ok order go_order name cidrStr gw ex ipam Hi Hc Hx)
    as (ipam' & e & E & [Hi' Ho']).
  exists ipam', e. do 3 (split; [done|]). intros k Hk. by eapply AddOrUpdateSubnet_frame.
Qed.

(** ** Instances *)

(** The iteration order of the instances. *)
Definition in_order (A : Type) (m : gmap string A) : list (string * A) := map_to_list m.

#[global] Instance in_order_ok : GoOrder in_order.
Proof. by intros A m. Qed.

Definition table_after (q : request) (ipam : IPAM) : IPAM :=
  match serve in_order q ipam [demo_draw] with Done (ipam', _) => ipam' | _ => ipam end.

Definition demo_add : request := ReqSubnet "ovn-default" demo_cidr "10.16.0.1,fd00:10:16::1" ["10.16.0.1"].
Definition demo_alloc : request :=
  ReqRandom "default/web" "web.default" None "ovn-default" "" "" [] true.

Definition demo_table : IPAM := table_after demo_alloc (table_after demo_add NewIPAM).
Definition demo_row : Subnet := default (NewMacOnlySubnet "") (demo_table !! "ovn-default").

Lemma table_after_step (ok : request -> Prop) q ipam : ok q -> clean_request ipam q ->
  rtc (step ok) ipam (table_after q ipam).
Proof.
  intros Hq Hc. unfold table_after. destruct (serve in_order q ipam [demo_draw]) as [[ipam' r]| |] eqn:E; [|done..].
  eapply rtc_once, step_serve; [apply in_order_ok|done..].
Qed.

Lemma demo_reachable : reachable exclusive demo_table.
Proof.
  unfold reachable, demo_table.
  etransitivity; [apply (table_after_step _ demo_add)|apply table_after_step]; try done.
  - split; [intros _; apply demo_blocks|by_eval].
  - split; [done|by_eval].
Qed.

Lemma reachable_partition_witness :
  demo_table !! "ovn-default" = Some demo_row /\
  (mem (fAvailable (fam V4 demo_row)) (ipv [10; 16; 0; 3]) <->
   mem (hosts_of (fam V4 demo_row)) (ipv [10; 16; 0; 3]) /\
   ~ mem (fUsing (fam V4 demo_row)) (ipv [10; 16; 0; 3]) /\
   ~ mem (fReserved (fam V4 demo_row)) (ipv [10; 16; 0; 3])).
Proof.
  assert (E : demo_table !! "ovn-default" = Some demo_row) by (vm_compute; reflexivity).
  split; [exact E|].
  destruct (reachable_partition exclusive demo_table "ovn-default" demo_row V4 demo_reachable E) as [H _].
  exact (H (ipv [10; 16; 0; 3])).
Defined.

Lemma reachable_exclusive_witness :
  fNicToIP (fam V4 demo_row) !! "web.default" = Some [10; 16; 0; 2] /\
  mem (fUsing (fam V4 demo_row)) (ipv [10; 16; 0; 2]).
Proof.
  assert (E : fNicToIP (fam V4 demo_row) !! "web.default" = Some [10; 16; 0; 2]) by (vm_compute; reflexivity).
  split; [exact E|].
  destruct (reachable_exclusive demo_table "ovn-default" demo_row V4 demo_reachable ltac:(vm_compute; reflexivity))
    as [_ H].
  destruct (H _ _ E) as [Hu _]. exact Hu.
Defined.

(** A second pod is served, past a draw that is taken. *)
Definition demo_second : request := ReqRandom "default/db" "db.default" None "ovn-default" "" "" [] true.

Definition demo_two_draws : list bytes := [demo_draw; [9; 2; 3; 4; 5; 6]].

Lemma reachable_no_panic_witness :
  (fresh_draws demo_row demo_two_draws = 1)%nat /\
  exists ipam' rnd', serve in_order demo_second demo_table demo_two_draws = Done (ipam', rnd') /\
    reachable exclusive ipam'.
Proof.
  assert (Ef : fresh_draws demo_row demo_two_draws = 1%nat) by (vm_compute; reflexivity).
  split; [exact Ef|].
  pose proof (reachable_no_panic exclusive demo_table in_order demo_second demo_two_draws
    demo_reachable in_order_ok I ltac:(by_eval)) as H.
  destruct (serve in_order demo_second demo_table _) as [[ipam' rnd']| |].
  - exists ipam', rnd'. split; [reflexivity|exact H].
  - destruct H.
  - destruct H as (s & Es & Hs). replace s with demo_row in Hs by (change (subnet_of demo_second) with "ovn-default" in Es;
      assert (E : demo_table !! "ovn-default" = Some demo_row) by (vm_compute; reflexivity); congruence).
    rewrite Ef in Hs. cbn in Hs. lia.
Defined.

(** The IPv4 network of the demo subnet, halved. *)
Definition demo_half : IPNet := mkIPNet [10; 16; 0; 0] [255; 255; 255; 252].

Lemma subnet_update_recomputes_witness :
  exists s', update_fam in_order V4 "10.16.0.0/30" "10.16.0.1" [] demo_busy = Done s' /\
    fCIDR (fam V4 s') = Some demo_half /\
    (fNicToIP (fam V4 s') !! "web.default" = Some [10; 16; 0; 2] <->
     fNicToIP (fam V4 demo_busy) !! "web.default" = Some [10; 16; 0; 2] /\
     mem (hosts demo_half) (ipv [10; 16; 0; 2])).
Proof.
  destruct (subnet_update_recomputes in_order V4 "10.16.0.0/30" "10.16.0.1" []
    (To16 [10; 16; 0; 0]) demo_half demo_busy demo_busy_inv ltac:(vm_compute; reflexivity) ltac:(by_eval) wf_nil)
    as (s' & E & _ & _ & Ec & _ & _ & _ & _ & Hn).
  exists s'. split; [exact E|]. split; [exact Ec|]. exact (Hn "web.default" [10; 16; 0; 2]).
Defined.

Lemma subnet_request_safe_witness :
  exists ipam' e, AddOrUpdateSubnet in_order "join" "100.64.0.0/16" "100.64.0.1" [] demo_table = Done (ipam', e) /\
    table_inv ipam'.
Proof.
  destruct (subnet_request_safe in_order "join" "100.64.0.0/16" "100.64.0.1" [] demo_table
    (proj1 (reachable_table _ _ demo_reachable)) ltac:(intros _; by_eval) ltac:(constructor)) as (i & e & E & Hi & _).
  exists i, e. split; [exact E|exact Hi].
Defined.

(** ** Admission and the allocator: the theorems *)

(** ** Accepted subnets can be served *)

(** C8: a subnet [ValidateSubnet] accepts can be handed to the allocator.  It has
    at most two blocks, an IPv6 block lies above the IPv4-mapped addresses, and
    an exclusion is a range [a..b] or an entry whose addresses are written in
    their own family (not an IPv4 address in its mapped form such as
    [::ffff:10.20.0.5], nor an IPv6 address below the mapped ones), and the
    subnets of the table have the invariant.  Then [AddOrUpdateSubnet] returns
    (no nil dereference, no index out of range), every subnet of the table
    keeps the invariant, and exclusive ownership is kept too. *)
Theorem accepted_subnet_served api subnet order `{GoOrder order} ipam :
  ValidateSubnet api subnet = Done None ->
  Forall plain_block (Split (CIDRBlock subnet) ",") -> (length (Split (CIDRBlock subnet) ",") <= 2)%nat ->
  Forall clean_exclude (ExcludeIps subnet) -> table_inv ipam ->
  exists ipam' e,
    AddOrUpdateSubnet order (Name subnet) (CIDRBlock subnet) (Gateway subnet) (ExcludeIps subnet) ipam =
    Done (ipam', e) /\ table_inv ipam' /\ (table_own ipam -> table_own ipam').
Proof.
  intros Hv Hp Hl Hx Hi.
  destruct (AddOrUpdateSubnet_ok order go_order (Name subnet) (CIDRBlock subnet) (Gateway subnet)
    (ExcludeIps subnet) ipam Hi) as (ipam' & e & E & [I O]); [|done|by exists ipam', e].
  intros Hne. assert (Hu : isUnderlayWithoutCIDR subnet = false).
  { unfold isUnderlayWithoutCIDR. by rewrite (bool_decide_false (CIDRBlock subnet = "")), andb_false_r. }
  apply accepted_clean_blocks; [|done..]. by eapply ValidateSubnet_accepted.
Qed.

Definition demo_spec : SubnetSpec :=
  mkSpec "tenant-a" "vpc-a" "" "10.20.0.0/24,fd00:20::/112" "10.20.0.1,fd00:20::1" "Dual" "distributed"
         ["10.20.0.1..10.20.0.9"] ["10.30.0.0/16"] ["10.20.0.100"] 1400 false "" 0 false false "" false [] "ovn".

Lemma accepted_subnet_served_witness :
  ValidateSubnet "10.96.0.1" demo_spec = Done None /\
  exists ipam' e, AddOrUpdateSubnet in_order "tenant-a" "10.20.0.0/24,fd00:20::/112" "10.20.0.1,fd00:20::1"
    ["10.20.0.1..10.20.0.9"] demo_table = Done (ipam', e) /\ table_inv ipam'.
Proof.
  assert (E : ValidateSubnet "10.96.0.1" demo_spec = Done None) by (vm_compute; reflexivity).
  split; [exact E|].
  destruct (accepted_subnet_served "10.96.0.1" demo_spec in_order demo_table E ltac:(by_eval) ltac:(by_eval) ltac:(by_eval)
    (proj1 (reachable_table _ _ demo_reachable))) as (i & e & Ei & Hi & _).
  exists i, e. split; [exact Ei|exact Hi].
Defined.

(** C29: a subnet that passes [ValidateCidrConflict] shares no address with
    any other listed subnet of its VPC and VLAN. *)
Theorem accepted_subnets_disjoint subnet others sub v :
  ValidateCidrConflict subnet others = None -> sub ∈ others ->
  Vpc sub = Vpc subnet -> Vlan sub = Vlan subnet -> Name sub <> Name subnet ->
  CIDRBlock subnet <> "" -> CIDRBlock sub <> "" ->
  Forall clean_cidr (Split (CIDRBlock subnet) ",") -> Forall clean_cidr (Split (CIDRBlock sub) ",") ->
  covers (CIDRBlock subnet) v -> ~ covers (CIDRBlock sub) v.
Proof.
  intros Hv Hin E1 E2 Hn H1 H2 C1 C2 Hc1 Hc2. apply first_err_None in Hv. rewrite Forall_forall in Hv.
  specialize (Hv sub Hin). unfold check_conflict, nonempty in Hv.
  rewrite (bool_decide_true (Vpc sub = _)), (bool_decide_true (Vlan sub = _)), (bool_decide_false (Name sub = _)) in Hv by done.
  rewrite (bool_decide_false (CIDRBlock subnet = "")), (bool_decide_false (CIDRBlock sub = "")) in Hv by done.
  cbn [negb orb andb] in Hv.
  assert (Ho : CIDROverlap (CIDRBlock sub) (CIDRBlock subnet) = true) by (apply CIDROverlap_iff; eauto).
  by rewrite Ho in Hv.
Qed.

Definition demo_other : SubnetSpec :=
  mkSpec "tenant-b" "vpc-a" "" "10.20.1.0/24" "10.20.1.1" "IPv4" "distributed"
         [] [] [] 0 false "" 0 false false "" false [] "ovn".

Lemma accepted_subnets_disjoint_witness :
  covers (CIDRBlock demo_spec) (Ip.ipv [10; 20; 0; 7]) /\ ~ covers (CIDRBlock demo_other) (Ip.ipv [10; 20; 0; 7]).
Proof.
  assert (Hc : covers (CIDRBlock demo_spec) (Ip.ipv [10; 20; 0; 7])).
  { exists "10.20.0.0/24", (addr_read "10.20.0.0/24"), (net_read "10.20.0.0/24").
    split; [by_eval|]. split; [vm_compute; reflexivity|]. unfold in_net. by_eval. }
  split; [exact Hc|].
  apply (accepted_subnets_disjoint demo_spec [demo_other] demo_other (Ip.ipv [10; 20; 0; 7]));
    [vm_compute; reflexivity|by left|reflexivity|reflexivity|discriminate|discriminate|discriminate|by_eval|by_eval|exact Hc].
Defined.
