(* ===== verification/BfdTheorems.v ===== *)
(** * Theorems about the BFD supervisor *)
From stdpp Require Import sorting.
From S2P Require Import Prelude GoStrings GoNet UtilNet IpPool IpPoolFacts GoText BfdControl BfdSupervisor BfdFacts BfdReconcile FileUtil BfdPolls BfdMain ServiceCIDR ServiceCIDRFacts Demo.

Local Open Scope Z_scope.

(** ** A scripted environment *)

(** The answers of the environment; the state file keeps what was written. *)
Record script := mkScript {
  sc_now : Time;
  sc_status : orError (list Session);
  sc_running : bool;
  sc_restart : option error;
  sc_files : gmap string persistentState
}.

#[local] Instance script_clock : Clock script := fun w => (sc_now w, w).
#[local] Instance script_control : ControlAdapter script :=
  {| Control_Status := fun w => (sc_status w, w);
     Control_Configure := fun _ w => (None, w);
     Control_Reset := fun _ w => (None, w) |}.
#[local] Instance script_child : ChildController script :=
  {| Child_Running := fun w => (sc_running w, w); Child_Restart := fun w => (sc_restart w, w) |}.
#[local] Instance script_file : StateFile script persistentState :=
  {| File_Read := fun path w => (match sc_files w !! path with Some d => Content d | None => NotExist end, w);
     File_Rename := fun _ _ w => (None, w);
     File_MkdirAll := fun _ w => (None, w);
     File_AtomicWrite := fun path d w =>
       (None, mkScript (sc_now w) (sc_status w) (sc_running w) (sc_restart w) (<[path := d]> (sc_files w))) |}.
#[local] Instance script_codec : Codec persistentState := {| Marshal := inl; Unmarshal := inl |}.
#[local] Instance script_codec_ok : CodecOk persistentState.
Proof. by intros st d [= <-]. Defined.
#[local] Instance script_store : FileStore script persistentState.
Proof.
  refine {| file_at := fun w path => sc_files w !! path |}.
  - intros path w d Hd. simpl. by rewrite Hd.
  - intros path d w w' [= <-]. apply lookup_insert_eq.
Defined.

Definition demo_config : SupervisorConfig :=
  mkConfig (mkDaemon 1000 1000 3 ["10.255.255.255"]) ["10.16.0.2"; "10.16.0.3"] (100 * Second) Minute
    [Minute; 5 * Minute; 30 * Minute] [5 * Second; 15 * Second; 30 * Second] Hour "/run/state.json".

Definition demo_world (now : Time) (status : orError (list Session)) : script := mkScript now status true None ∅.

Definition demo_pairs : list SessionPair :=
  [mkPair "10.16.0.2" "10.255.255.255"; mkPair "10.16.0.3" "10.255.255.255"].

Definition demo_sup : Supervisor :=
  mkSupervisor demo_config demo_pairs (new_episodes demo_pairs)
    (set_Report (eStatus ∘ new_episode <$> demo_pairs) 0 0 false zero_status) 0 0 0 0 false 0.

Lemma demo_sup_inv : sup_inv demo_sup.
Proof.
  constructor.
  - by_eval.
  - done.
  - intros pr Hin. change (pr ∈ demo_pairs) in Hin. unfold demo_pairs in Hin.
    rewrite !elem_of_cons, elem_of_nil in Hin. destruct Hin as [->|[->|[]]]; by eexists.
  - intros k e He. simpl in He. apply new_episodes_lookup in He as (pr & Hin & <- & ->). done.
  - done.
Qed.

(** A new supervisor is the one the constructor returns. *)
Example demo_sup_new :
  NewSupervisor demo_config (demo_world 1 (inl [])) = Done (inl demo_sup, demo_world 1 (inl [])).
Proof. vm_compute. reflexivity. Qed.

(** ** Theorems *)

Section Theorems.
  Context {W Data : Type} `{Clock W} `{ControlAdapter W} `{ChildController W} `{StateFile W Data} `{Codec Data}.

(** C15: a run of [Reconcile] calls, in any environment, never panics and
    implements the polling machine: every call is at most one round of
    planning, the invariant is kept, and the report lists the episodes of the
    expected sessions. *)
Theorem bfd_reconcile_refines n s (w : W) : sup_inv s ->
  exists s' w' tr, reconcile_n n s w = Done (s', w') /\ polls s tr s' /\ (length tr <= n)%nat /\ sup_inv s' /\
    (n <> 0%nat -> reported s').
Proof.
  intros Hinv. destruct (reconcile_n_polls n s w Hinv) as (s' & w' & tr & E & Hp & Hl & Hinv').
  exists s', w', tr. split_and!; try done. intros Hn. exact (reconcile_n_reported n s w s' w' Hn Hinv E).
Qed.

(** A supervisor that is built satisfies the invariant, whatever the state
    file holds (with a non-negative count), and starting the child neither
    panics nor breaks it; a second start does nothing. *)
Theorem bfd_start_safe config0 (w : W) :
  exists r w', NewSupervisor config0 w = Done (r, w') /\
    forall s, r = inl s -> 0 <= childRecoveryAttempts s -> sup_inv s /\
      exists e s1 w1, StartChild s w' = Done (e, s1, w1) /\ sup_inv s1 /\
        (childBootstrapAttempted s = true -> s1 = s /\ e = None).
Proof.
  destruct (NewSupervisor_spec config0 w) as (r & w' & E & Hr). exists r, w'. split; [done|].
  intros s Hs Ha. specialize (Hr s Hs Ha). split; [done|].
  pose proof (StartChild_spec s w' Hr) as Hst. unfold wp in Hst.
  destruct (StartChild s w') as [[[e s1] w1]| |]; try done. exists e, s1, w1. split; [done|]. apply Hst.
Qed.

(** C35: a poll whose query succeeds leaves the supervisor ready exactly when
    every expected session is up.  The poll changes the circuit breaker of the child
    in two cases only.  When every session is down and the pause is over the child
    may be restarted: one more attempt is counted and a new pause starts.  When every
    session is up, and has been for the stable period, with no failure left, the
    breaker is closed; and it is always closed then.  So a breaker that is closed
    afterwards was closed before, or all sessions have been up for the stable
    period. *)
Theorem bfd_ready_iff_up s (w : W) sessions :
  sup_inv s -> fst (Control_Status (snd (Clock_Now w))) = inl sessions ->
  let now := fst (Clock_Now w) in
  let up := forall pr, pr ∈ expected s -> is_up (observed sessions !! pairKey pr) = true in
  exists e s' w', Reconcile s w = Done (e, s', w') /\
    let held := forall pr x, pr ∈ expected s -> episodes s' !! pairKey pr = Some x -> failingSince x = 0 /\ steady (config s) now x in
    (Ready (status s') = true <-> up) /\
    (up -> (forall pr x, pr ∈ expected s -> episodes s !! pairKey pr = Some x -> steady (config s) now x) -> child_of s' = (0, 0, 0)) /\
    (child_of s' = child_of s \/ restarts now (observed sessions) s s' \/ child_of s' = (0, 0, 0) /\ up /\ held) /\
    (child_of s' = (0, 0, 0) -> child_of s = (0, 0, 0) \/ up /\ held).
Proof.
  intros Hinv Hok now up. pose proof (Reconcile_spec s w Hinv) as Hs. unfold wp in Hs.
  destruct (Reconcile s w) as [[[e s'] w']| |]; try done. exists e, s', w'. split; [done|]. intros held.
  destruct Hs as (_ & _ & Hs). rewrite Hok in Hs. destruct Hs as (p & s0 & s1 & Hp0 & Hpl & Hp1 & Hr).
  destruct (plan_sessions_spec (fst (Clock_Now w)) sessions s0) as (p' & s1' & E & Hrd); [by rewrite <-Hp0|].
  rewrite Hpl in E. injection E as <- <-. fold now in Hrd, Hpl. split; [|split].
  2: { intros Hup Hst. destruct (plan_closes now sessions s0) as (s1' & E & Hz); [by rewrite <-Hp0|..].
       - destruct Hp0 as (_ & <- & _). done.
       - destruct Hp0 as (<- & <- & _ & He0). intros pr x Hin Hx. specialize (He0 (pairKey pr)). rewrite Hx in He0.
         destruct (episodes s !! pairKey pr) as [y|] eqn:Ey; [|done].
         assert (Hss : stableSince y = stableSince x) by (injection He0; congruence).
         unfold steady. rewrite <-Hss. by apply (Hst pr y).
       - rewrite Hpl in E. injection E as -> <-. destruct Hp1 as (_ & _ & <- & _). done. }
  all: destruct Hp0 as (Ec & Ex & Ech & _).
  { rewrite Hr, (rd_ready _ _ _ _ _ Hrd), <-Ex, forallb_forall. split; intros Hall pr Hin; apply Hall; by apply list_elem_of_In. }
  assert (Hcase : child_of s' = child_of s \/ restarts now (observed sessions) s s' \/ child_of s' = (0, 0, 0) /\ up /\ held).
  { destruct Hp1 as (Ec1 & Ex1 & Ech1 & He1). destruct (rd_config _ _ _ _ _ Hrd) as [Ec2 Ex2]. pose proof (rd_child _ _ _ _ _ Hrd) as Hch.
    unfold restarts. rewrite <-Ech1, Ech, Ec, Ex. unfold restarts in Hch. destruct p as [q|].
    - case_decide; [|by left]. right; left. unfold child_of in Ech, Ech1. injection Ech as -> -> _. injection Ech1 as <- <- _. done.
    - destruct Hch as [|(Hz & _ & Hup & Hf)]; [by left|right; right]. split; [done|]. unfold up, held.
      split; [by rewrite Ex, <-Ex2|]. intros pr x Hin Hx. specialize (He1 (pairKey pr)). rewrite Hx in He1.
      destruct (episodes s1 !! pairKey pr) as [y|] eqn:E; [|done]. assert (Hfs : failingSince y = failingSince x /\ stableSince y = stableSince x) by (injection He1; intuition congruence).
      unfold steady. destruct Hfs as [<- <-]. rewrite Ec, <-Ec2. eapply Hf; [by rewrite Ex2, <-Ex|done]. }
  split; [done|]. intros Hz. destruct Hcase as [<-|[(_ & _ & Ha & _)|(_ & ?)]]; [by left| |by right].
  exfalso. unfold child_of in Hz. injection Hz as Hz _ _. pose proof (inv_attempts s Hinv). lia.
Qed.
End Theorems.

(** C36: restarts of the child are spaced.  In a run with a clock that does not
    go back, two rounds that restart the child are at least the shortest pause
    (of the child, of the open circuit, or the grace period) apart, even when
    the circuit breaker was closed in between. *)
Theorem bfd_restarts_spaced s tr s' i j t1 t2 p1 p2 :
  polls s tr s' -> sup_inv s -> Forall (fun d => 0 < d) (ChildBackoffs (config s)) ->
  Forall (fun t => 0 < t) tr.*1 -> StronglySorted Z.le tr.*1 ->
  (i < j)%nat -> tr !! i = Some (t1, p1) -> tr !! j = Some (t2, p2) ->
  is_restart p1 -> is_restart p2 -> t1 + min_gap (config s) <= t2.
Proof. intros Hp Hinv Hb Ht Hs. by eapply polls_restarts. Qed.

(** An action for a session is guarded: the session is expected and not
    up, has been failing for the grace period, and its pause is over; the
    action is the one its number of attempts selects, is counted, and starts
    the next pause.  A restart of the child needs every session down and the
    pause of the child over, and starts a new one. *)
Theorem bfd_action_guarded now sessions s q s' :
  sup_inv s -> NoDup (pairKey <$> expected s) -> plan_sessions now sessions s = Done (Some q, s') ->
  let obs := observed sessions in
  (paAction q = RecoveryRestartChild -> restarts now obs s s') /\
  (paAction q <> RecoveryRestartChild -> child_of s' = child_of s) /\
  (childHalfOpen q = true /\ childHalfOpenDueLocked now s = true \/
   exists pr e e', pr ∈ expected s /\ paPair q = pr /\
     episodes s !! pairKey pr = Some e /\ episodes s' !! pairKey pr = Some e' /\
     is_up (obs !! pairKey pr) = false /\
     failingSince e <> 0 /\ failingSince e + GracePeriod (config s) <= now /\
     (rNextRetry (eStatus e) = 0 \/ rNextRetry (eStatus e) <= now) /\
     paAction q = selectRecoveryAction (config s) (rAttempts (eStatus e)) (is_some (obs !! pairKey pr))
                    (all_unhealthy obs (expected s)) /\
     rAttempts (eStatus e') = rAttempts (eStatus e) + 1 /\
     exists d, pause (config s) (rAttempts (eStatus e')) d /\ rNextRetry (eStatus e') = now + d).
Proof.
  intros Hinv Hnd E. destruct (plan_sessions_spec now sessions s Hinv) as (p & s1 & E' & Hrd).
  rewrite E in E'. injection E' as <- <-. destruct Hrd as [_ _ _ _ Hch Hsome]. cbv zeta. split_and!.
  - intros Hq. by rewrite decide_True in Hch.
  - intros Hq. by rewrite decide_False in Hch.
  - destruct (Hsome q eq_refl) as [[-> Hd]|(pr & s2 & e & e' & Hin & (Ec & _) & He & _ & He' & Ha)]; [by left|right].
    destruct Ha as [Hq Hsel _ Hdown [Hz Hg] Hdue Hcnt _ Hp]. rewrite Ec in *.
    exists pr, e, e'. split_and!; auto. by rewrite Hq.
Qed.

(** No session is forgotten.  With at most three pauses, as the supervisor
    is configured, a session that is due gets its session or another one an
    action in this round, unless the child is waiting for its own pause. *)
Theorem bfd_due_session_acts now sessions s pr e :
  sup_inv s -> NoDup (pairKey <$> expected s) -> len (Backoffs (config s)) <= 3 ->
  pr ∈ expected s -> episodes s !! pairKey pr = Some e ->
  due (config s) now (observed sessions !! pairKey pr) e -> childNextRetry s <= now ->
  exists q s', plan_sessions now sessions s = Done (Some q, s').
Proof.
  intros Hinv Hnd Hb Hin He Hdue Hch.
  destruct (plan_sessions_spec now sessions s Hinv) as (p & s1 & E & _). rewrite E.
  destruct p as [q|]; [by eexists _, _|]. exfalso. revert E. unfold plan_sessions. cbv zeta.
  destruct (all_unhealthy _ _ && _) eqn:Eh.
  - destruct (reserve_spec now (on_sup_status (set_Ready false) (on_sup_status (set_Ready true) s))) as
      [(s2 & -> & _)|(_ & _ & Hlt)]; [by do 2 apply sup_inv_ready| |simpl in Hlt; lia].
    cbn [mbind outcome_bind]. apply andb_true_iff in Eh as [-> _]. done.
  - set (s0 := on_sup_status (set_Ready true) s).
    destruct (plan_pairs now _ _ (expected s0) s0) as [[[q|] s2]| |] eqn:Ep; cbn [mbind outcome_bind]; try done.
    + destruct (all_unhealthy _ _); [done|]. by destruct (allExpectedSessionsStableLocked now s2).
    + exfalso. pose proof (due_sweep now _ _ _ s0 s2 (sup_inv_ready s true Hinv) ltac:(done) Hb Hnd Ep pr e Hin He Hdue) as Hlt.
      simpl in Hlt. lia.
Qed.

Section Persistence.
  Context {W Data : Type} `{FileStore W Data} `{CodecOk Data}.

(** The recovery state survives a restart of the supervisor: what a
    successful [saveState] wrote, [loadState] of a new supervisor for the same
    sessions reads back, every episode, pause and counter included. *)
Theorem bfd_state_survives (s fresh s' : Supervisor) (w w' : W) :
  sup_inv s -> StatePath (config s) <> "" ->
  (forall a b, a ∈ expected s -> b ∈ expected s -> pairKey a = pairKey b -> a = b) ->
  config fresh = config s -> expected fresh = expected s -> episodes fresh = new_episodes (expected s) ->
  saveState (persistentStateLocked s) s w = Done (None, s', w') ->
  exists r w'', loadState fresh w' = Done (None, r, w'') /\
    episodes r = episodes s /\ child_of r = child_of s /\ ChildRestarts (status r) = ChildRestarts (status s).
Proof.
  intros Hinv Hpath Hinj Ec Ex Ee Hsave.
  destruct (save_file _ _ _ _ _ Hpath Hsave) as (d & Hm & Hf).
  destruct (load_file (persistentStateLocked s) d fresh w') as (w'' & Hl); rewrite ?Ec; try done.
  exists (load_persistent (persistentStateLocked s) fresh), w''. split; [done|]. by apply load_save.
Qed.
End Persistence.

(** C37: writing the state file is atomic.  Whatever call fails, every state
    of the file system on the way shows the old or the new content of the
    target and leaves the other files alone; without an error the target has
    the new content, and the temporary file is gone unless its removal failed.
    This is about a crash of the process: what a crash of the machine leaves of
    unsynced data is not modelled. *)
Theorem atomic_write_crash_safe o tmp path data fs trace fs' e :
  tmp <> path -> fs !! tmp = None -> AtomicWriteFile o tmp path data fs = (trace, fs', e) ->
  Forall (old_or_new tmp path data fs) trace /\ last trace = Some fs' /\
  (e = None -> fs' !! path = Some data) /\ (f_remove o = None -> fs' !! tmp = None).
Proof. intros Hne Hf. by apply AtomicWriteFile_ok. Qed.

(** ** Witnesses *)

Lemma bfd_reconcile_refines_witness : sup_inv demo_sup /\
  exists s' w' tr, reconcile_n 2 demo_sup (demo_world 1 (inl [])) = Done (s', w') /\ polls demo_sup tr s' /\
    (length tr <= 2)%nat /\ sup_inv s' /\ (2%nat <> 0%nat -> reported s').
Proof.
  split; [exact demo_sup_inv|].
  exact (bfd_reconcile_refines 2 demo_sup (demo_world 1 (inl [])) demo_sup_inv).
Defined.

Definition demo_up : list Session :=
  [mkSession 1 "10.16.0.2" "10.255.255.255" "Up"; mkSession 2 "10.16.0.3" "10.255.255.255" "Up"].

Lemma bfd_ready_iff_up_witness : exists e s' w', Reconcile demo_sup (demo_world 1 (inl demo_up)) = Done (e, s', w') /\
  Ready (status s') = true.
Proof.
  pose proof (bfd_ready_iff_up demo_sup (demo_world 1 (inl demo_up)) demo_up demo_sup_inv) as Hx.
  destruct (Hx eq_refl) as (e & s' & w' & E & Hr & _).
  exists e, s', w'. split; [exact E|]. apply Hr. intros pr Hin. change (pr ∈ demo_pairs) in Hin.
  unfold demo_pairs in Hin. rewrite !elem_of_cons, elem_of_nil in Hin. destruct Hin as [->|[->|[]]]; vm_compute; reflexivity.
Defined.

(** Both sessions down for the grace period and one action behind: the next
    action restarts the child. *)
Definition demo_failing (pr : SessionPair) : recoveryEpisode :=
  mkEpisode (mkRecovery pr "" RecoveryBackoff 1 RecoveryReplay "success" 0) 1 0 0.

Definition demo_down : Supervisor :=
  mkSupervisor demo_config demo_pairs
    (foldl (fun m pr => <[pairKey pr := demo_failing pr]> m) ∅ demo_pairs) zero_status 0 0 0 0 true 0.

Lemma demo_down_inv : sup_inv demo_down.
Proof.
  constructor; [by_eval|done|..|done].
  - intros pr Hin. change (pr ∈ demo_pairs) in Hin. unfold demo_pairs in Hin.
    rewrite !elem_of_cons, elem_of_nil in Hin. destruct Hin as [->|[->|[]]]; by eexists.
  - intros k e. change (episodes demo_down) with
      (<[pairKey (mkPair "10.16.0.3" "10.255.255.255") := demo_failing (mkPair "10.16.0.3" "10.255.255.255")]>
         (<[pairKey (mkPair "10.16.0.2" "10.255.255.255") := demo_failing (mkPair "10.16.0.2" "10.255.255.255")]>
            (∅ : gmap string recoveryEpisode))).
    rewrite !lookup_insert_Some, lookup_empty.
    intros [[<- <-]|[_ [[<- <-]|[_ [=]]]]]; split; by_eval.
Qed.

Definition demo_late : Time := 200 * Second.

Definition demo_restart : option pendingRecoveryAction :=
  Some (mkPending (Some "10.16.0.2|10.255.255.255") (mkPair "10.16.0.2" "10.255.255.255") RecoveryRestartChild false).

Definition demo_after : Supervisor :=
  match plan_sessions demo_late [] demo_down with Done (_, s) => s | _ => demo_down end.

Lemma demo_plan : plan_sessions demo_late [] demo_down = Done (demo_restart, demo_after).
Proof. vm_compute. reflexivity. Qed.

Lemma bfd_action_guarded_witness : restarts demo_late (observed []) demo_down demo_after.
Proof.
  destruct (bfd_action_guarded demo_late [] demo_down
    (mkPending (Some "10.16.0.2|10.255.255.255") (mkPair "10.16.0.2" "10.255.255.255") RecoveryRestartChild false)
    demo_after demo_down_inv) as (Hr & _).
  - by_eval.
  - exact demo_plan.
  - apply Hr. reflexivity.
Defined.

Lemma bfd_due_session_acts_witness : exists q s', plan_sessions demo_late [] demo_down = Done (Some q, s').
Proof.
  refine (bfd_due_session_acts demo_late [] demo_down (mkPair "10.16.0.3" "10.255.255.255")
    (demo_failing (mkPair "10.16.0.3" "10.255.255.255")) demo_down_inv _ _ _ _ _ _).
  - by_eval.
  - vm_compute. discriminate.
  - by_eval.
  - vm_compute. reflexivity.
  - split_and!; by_eval.
  - vm_compute. discriminate.
Defined.

Definition demo_later : Time := 205 * Second.

Definition demo_restart2 : option pendingRecoveryAction :=
  Some (mkPending (Some "10.16.0.3|10.255.255.255") (mkPair "10.16.0.3" "10.255.255.255") RecoveryRestartChild false).

Definition demo_after2 : Supervisor :=
  match plan_sessions demo_later [] demo_after with Done (_, s) => s | _ => demo_after end.

Lemma demo_polls : polls demo_down [(demo_late, demo_restart); (demo_later, demo_restart2)] demo_after2.
Proof.
  apply (polls_round _ demo_after _ _ []); [exact demo_plan|].
  apply (polls_round _ demo_after2 _ _ []); [vm_compute; reflexivity|constructor].
Qed.

Lemma bfd_restarts_spaced_witness : demo_late + min_gap demo_config <= demo_later /\ min_gap demo_config = 5 * Second.
Proof.
  split; [|reflexivity].
  refine (bfd_restarts_spaced demo_down _ demo_after2 0 1 _ _ demo_restart demo_restart2 demo_polls demo_down_inv
    _ _ _ _ _ _ _ _).
  - by_eval.
  - by_eval.
  - repeat constructor; by_eval.
  - lia.
  - reflexivity.
  - reflexivity.
  - eexists. split; reflexivity.
  - eexists. split; reflexivity.
Defined.

Lemma bfd_state_survives_witness : exists r w'', loadState demo_sup (mkScript 1 (inl []) true None
    (<["/run/state.json" := persistentStateLocked demo_down]> ∅)) = Done (None, r, w'') /\
  episodes r = episodes demo_down.
Proof.
  destruct (bfd_state_survives demo_down demo_sup demo_down (demo_world 1 (inl [])) (mkScript 1 (inl []) true None
    (<["/run/state.json" := persistentStateLocked demo_down]> ∅)) demo_down_inv) as (r & w'' & E & He & _).
  - discriminate.
  - intros a b Ha Hb. change (a ∈ demo_pairs) in Ha. change (b ∈ demo_pairs) in Hb. unfold demo_pairs in Ha, Hb.
    rewrite !elem_of_cons, elem_of_nil in Ha, Hb.
    destruct Ha as [->|[->|[]]], Hb as [->|[->|[]]]; (reflexivity || discriminate).
  - reflexivity.
  - reflexivity.
  - reflexivity.
  - reflexivity.
  - exists r, w''. split; [exact E|exact He].
Defined.

(** The rename fails: the old content stays and the temporary file is removed. *)
Definition demo_faults : faults := mkFaults None None None None None (Some "EXDEV") None None None None.

Lemma atomic_write_crash_safe_witness :
  exists trace fs' e, AtomicWriteFile demo_faults "s.json.tmp.1" "s.json" [1; 2; 3] {["s.json" := [7]]} = (trace, fs', e) /\
    Forall (old_or_new "s.json.tmp.1" "s.json" [1; 2; 3] {["s.json" := [7]]}) trace /\ fs' !! "s.json" = Some [7].
Proof.
  destruct (AtomicWriteFile demo_faults "s.json.tmp.1" "s.json" [1; 2; 3] {["s.json" := [7]]}) as [[trace fs'] e] eqn:E.
  exists trace, fs', e. split; [reflexivity|].
  destruct (atomic_write_crash_safe demo_faults "s.json.tmp.1" "s.json" [1; 2; 3] {["s.json" := [7]]} trace fs' e)
    as (Hall & _); [discriminate|reflexivity|exact E|]. split; [exact Hall|].
  change fs' with (snd (fst (trace, fs', e))). rewrite <-E. vm_compute. reflexivity.
Defined.

(** C40: a configuration read from the environment keeps no supervisor from
    starting by itself.  Its timing is valid even when the detection time overflows
    64 bits, there are exactly three pauses, so no session is forgotten, every
    address parses, and without overflow the grace period is ten detection times, at
    least a minute.  [NewSupervisor] returns with it, in every environment; the
    supervisor expects exactly the pairs of a pod and a peer address of one family;
    an error means that there is no such pair, or that the state file cannot be read
    or decoded. *)
Theorem bfd_environment_config {W Data : Type} `{Clock W} `{ControlAdapter W} `{ChildController W} `{StateFile W Data} `{Codec Data} getenv c (w : W) :
  configFromEnvironment getenv = inl c ->
  config_ok c /\ len (Backoffs c) = 3 /\ Forall (fun d => 0 < d) (ChildBackoffs c) /\
  1 <= Multiplier (Daemon c) <= 255 /\
  (let detection := Multiplier (Daemon c) * Z.max (MinTXMilliseconds (Daemon c)) (MinRXMilliseconds (Daemon c)) in
   detection * 10 * Millisecond < 2 ^ 63 -> GracePeriod c = Z.max Minute (10 * detection * Millisecond)) /\
  exists pods peers r w', parseAddresses (PodIPs c) "pod" = inl pods /\ parseAddresses (PeerIPs (Daemon c)) "peer" = inl peers /\
    NewSupervisor c w = Done (r, w') /\
    match r with
    | inl s => config s = c /\ expected s <> [] /\ forall pr, pr ∈ expected s <-> is_pair pods peers pr
    | inr _ => (forall pr, ~ is_pair pods peers pr) \/ state_unreadable (StatePath c) w
    end.
Proof.
  unfold configFromEnvironment.
  destruct (parseIPList (getenv "POD_IPS")) as [pods|] eqn:Epod; [|done].
  destruct (parseIPList (getenv "BFD_PEER_IPS")) as [peers|] eqn:Epeer; [|done].
  destruct (positiveEnvironmentInt getenv "BFD_MIN_TX" 1000) as [tx|] eqn:Etx; [|done].
  destruct (positiveEnvironmentInt getenv "BFD_MIN_RX" 1000) as [rx|] eqn:Erx; [|done].
  destruct (positiveEnvironmentInt getenv "BFD_MULTI" 3) as [m|] eqn:Em; [|done].
  destruct (Z.ltb_spec 255 m); [done|]. intros [= <-].
  apply env_int_pos in Etx, Erx, Em; [|lia..]. apply parse_ips_parse in Epod, Epeer.
  assert (Hmin : 0 < Minute) by done. set (c := mkConfig _ _ _ _ _ _ _ _).
  assert (Hc : config_ok c) by (unfold config_ok; simpl; split_and!; try done; lia).
  destruct (parseAddresses_ok "pod" pods Epod) as [pods' Hpod]. destruct (parseAddresses_ok "peer" peers Epeer) as [peers' Hpeer].
  split; [exact Hc|]. split; [done|]. split; [repeat constructor|]. split; [simpl; lia|]. split.
  - cbv zeta. intros Hlt. simpl in Hlt |- *. assert (Hd : 0 < m * Z.max tx rx) by nia. set (d := m * Z.max tx rx) in *.
    unfold Millisecond in *. rewrite (int64_id d), !int64_id by (rewrite ?int64_id; lia). lia.
  - destruct (NewSupervisor_accepts c w pods' peers' Hc Hpod Hpeer) as (r & w' & E & Hr). by exists pods', peers', r, w'.
Qed.

Definition demo_env (name : string) : string :=
  if bool_decide (name = "POD_IPS") then "10.16.0.2, fd00::2" else if bool_decide (name = "BFD_PEER_IPS") then "10.255.255.255" else "".

Lemma bfd_environment_config_witness : exists c s w', configFromEnvironment demo_env = inl c /\ GracePeriod c = Minute /\
  NewSupervisor c (demo_world 5 (inl [])) = Done (inl s, w') /\ mkPair "10.16.0.2" "10.255.255.255" ∈ expected s.
Proof.
  destruct (configFromEnvironment demo_env) as [c|] eqn:E; [|vm_compute in E; discriminate].
  destruct (bfd_environment_config demo_env c (demo_world 5 (inl [])) E) as (_ & _ & _ & _ & Hg & pods & peers & r & w' & Hpod & Hpeer & Hn & Hr).
  exists c. vm_compute in E. injection E as <-. vm_compute in Hpod. injection Hpod as <-. vm_compute in Hpeer. injection Hpeer as <-.
  assert (Hpair : is_pair [AddrV4 [10; 16; 0; 2]; AddrV6 [253; 0; 0; 0; 0; 0; 0; 0; 0; 0; 0; 0; 0; 0; 0; 2] ""] [AddrV4 [10; 255; 255; 255]] (mkPair "10.16.0.2" "10.255.255.255")).
  { exists (AddrV4 [10; 16; 0; 2]), (AddrV4 [10; 255; 255; 255]). split; [left|]. split; [left|]. split; vm_compute; reflexivity. }
  destruct r as [s|e].
  - exists s, w'. split; [reflexivity|]. split; [exact (Hg eq_refl)|]. split; [exact Hn|]. apply (proj2 (proj2 Hr)). exact Hpair.
  - exfalso. destruct Hr as [Hno|[_ Hx]]; [exact (Hno _ Hpair)|exact Hx].
Defined.

(** What the control client reports can be compared as text: every session
    of an accepted status has the printed form of its two addresses, a known
    state and a 32-bit number, so a session belongs to an expected pair exactly
    when the addresses are equal; and a reset that succeeds has replaced the
    session it saw. *)
Theorem bfd_control_sound {W} `{Exec W} output sessions pair (w w' : W) :
  (parse_status output = inl sessions ->
   Forall session_ok sessions /\
   forall s n, s ∈ sessions -> normalizePair pair = inl n ->
     (same_pair n s = true <->
      ParseAddr (sLocal s) = ParseAddr (pLocal pair) /\ ParseAddr (sRemote s) = ParseAddr (pRemote pair))) /\
  (Client_Reset pair w = (None, w') ->
   exists n w1 w2 before after s0, normalizePair pair = inl n /\
     Client_Status w = (inl before, w1) /\ Client_Status w2 = (inl after, w') /\
     s0 ∈ before /\ same_pair n s0 = true /\ sID s0 <> 0 /\
     forall s, s ∈ after -> same_pair n s = true -> sID s <> sID s0).
Proof.
  split; [|by apply Client_Reset_ok]. intros E. pose proof (parse_status_ok _ _ E) as Hok. split; [done|].
  intros s n Hs Hn. rewrite Forall_forall in Hok. destruct (Hok s Hs) as [Hl Hr _ _].
  destruct (normalizePair_parse pair n Hn) as (<- & <-). destruct (normalizePair_ok pair n Hn) as (Hnl & Hnr & _).
  unfold same_pair. rewrite andb_true_iff, !bool_decide_eq_true. split; [by intros [-> ->]|].
  intros [E1 E2]. split; by apply normal_text_inj.
Qed.

(** ** Theorems about the store of Service CIDRs

    What clients read from the store in every interleaving of its callers,
    timers and handlers. *)

(** C38: in every state the store reaches, whatever calls, timers and handlers
    interleave, [AllCIDRs] is a sorted list without duplicates.  It has exactly the
    usable CIDRs of the API objects that exist, that is, of those whose last event
    was an update and not a deletion, with the CIDRs of that update; or those of the
    command line when no object has a usable one.  [V4CIDRs] and [V6CIDRs] are its
    IPv4 and IPv6 members. *)
Theorem service_cidrs_merged flag now x : rtc step (start flag now) x ->
  let s := store x in
  StronglySorted str_le (AllCIDRs s) /\ NoDup (AllCIDRs s) /\
  (forall c, c ∈ AllCIDRs s <->
    api_cidr (objects x) c \/ (forall c', ~ api_cidr (objects x) c') /\ usable_in (flag_cidrs flag) c) /\
  (forall c, c ∈ V4CIDRs s <-> c ∈ AllCIDRs s /\ CheckProtocol c = ProtocolIPv4) /\
  (forall c, c ∈ V6CIDRs s <-> c ∈ AllCIDRs s /\ CheckProtocol c = ProtocolIPv6).
Proof.
  intros Hx s. pose proof (sys_cache _ (steps_inv _ _ Hx (start_inv flag now))) as Hc.
  pose proof (steps_tracks flag _ _ Hx (start_tracks flag now)) as Ht. pose proof Ht as [Hf _].
  destruct (merged_of_spec (fallback s) (map_to_list (fromAPI s)).*2) as (Hs & Hn & Hm).
  unfold AllCIDRs, V4CIDRs, V6CIDRs, byProtocol, store_ok in *. fold s in Hc.
  assert (Hmem : forall p c, c ∈ filter (fun cidr => CheckProtocol cidr = p) (cached s) <-> c ∈ cached s /\ CheckProtocol c = p).
  { intros p c. rewrite list_elem_of_filter. tauto. }
  split_and!; try apply Hmem; rewrite Hc; [done..|]. intros c. unfold merged. rewrite Hm, sources_usable. fold s in Hf. rewrite Hf.
  pose proof (fun c => tracked_api flag x c Ht) as Ha. fold s in Ha. setoid_rewrite <-Ha. done.
Qed.


(** ** Witnesses *)

(** A handler registers and an object of the API takes over. *)
Definition demo_flag : string := "10.96.0.0/12,fd00:10:96::/112".

Definition demo_reg : sys :=
  mkSys (OnChange 7 (NewServiceCIDRStore demo_flag)) 0 0 [] {[7%nat := AllCIDRs (NewServiceCIDRStore demo_flag)]} 0 ∅.

Definition demo_cidrs : list string := ["10.97.0.0/16"; " fd00::/64 "; "bogus"; "10.97.0.0/16"].

Definition demo_changed : sys :=
  with_store (fst (UpsertFromAPI "kubernetes" demo_cidrs (store demo_reg))) true {["kubernetes" := demo_cidrs]} demo_reg.

Lemma demo_steps : rtc step (start demo_flag 0) demo_changed.
Proof.
  eapply rtc_l; [apply (step_on_change (start demo_flag 0) 7)|].
  eapply rtc_l; [|apply rtc_refl]. apply (step_upsert demo_reg "kubernetes" demo_cidrs). vm_compute. reflexivity.
Qed.

Lemma service_cidrs_merged_witness : AllCIDRs (store demo_changed) = ["10.97.0.0/16"; "fd00::/64"] /\
  StronglySorted str_le (AllCIDRs (store demo_changed)) /\ V6CIDRs (store demo_changed) = ["fd00::/64"].
Proof.
  destruct (service_cidrs_merged demo_flag 0 demo_changed demo_steps) as (Hs & _).
  split_and!; [vm_compute; reflexivity|exact Hs|vm_compute; reflexivity].
Defined.

