(* ===== verification/PodTheorems.v ===== *)
(** * Theorems about the addresses of pods

    The controller as a client of the allocator. *)
From Stdlib Require Import Ascii.
From S2P Require Import Prelude GoStrings GoNet Ip IpRange IpRangeList IpRangeListFacts UtilNet Hosts Subnet.
From S2P Require Import SubnetInv Ipam IpamInv Validator GoText PodAddress PodAddressFacts PodNetwork.
From S2P Require Import Demo IpamTheorems.

Local Open Scope Z_scope.

(** C7: acquiring an address for a pod ends and is a use of the allocator.  For
    a pod whose annotations are well formed and that is not being migrated, in
    any cluster, with enough rounds for the largest subnet [acquireAddress]
    neither loops on nor panics; it may only wait for randomness; and the state
    it leaves is one the allocator reaches by requests that check for conflicts,
    so no address has two owners. *)
Theorem pod_address_acquired order c fuel pod podNet ipam rnd : GoOrder order ->
  reachable exclusive ipam -> enough fuel ipam -> clean_ask c pod podNet ->
  exists o, acquireAddress order c fuel pod podNet ipam rnd = Some o /\
    holds o (fun '(ipam', _, _) => serves ipam ipam' /\ reachable exclusive ipam' /\ table_own ipam').
Proof.
  intros Ho Hr Hf Hc. destruct (acquire_total order c fuel pod podNet ipam rnd) as (o & E & Hg);
    [by eapply reachable_table|done|done|].
  exists o. split; [done|]. eapply holds_mono; [exact Hg|]. intros [[ipam' rnd'] a] [Hs Hi]. split; [done|].
  assert (Hr' : reachable exclusive ipam') by (unfold reachable; by etrans). split; [done|].
  destruct (reachable_table _ _ Hr') as [_ Hown]. by apply Hown.
Qed.

(** The loop that draws addresses ends.  With more rounds than the subnet has
    hosts and reserved addresses it returns (or waits for randomness), and what
    it returns is recorded for the port and, in an overlay subnet of the cluster
    router, is the internal address of no node. *)
Theorem drawn_address_ok order c fuel key port mac sn pool family_ cc ipam rnd s : GoOrder order ->
  table_inv ipam -> no_comma key -> ipam !! sn = Some s ->
  IPRangeList_Count (hosts_of (sV4 s)) + IPRangeList_Count (fReserved (sV4 s)) +
  IPRangeList_Count (hosts_of (sV6 s)) + IPRangeList_Count (fReserved (sV6 s)) < Z.of_nat fuel ->
  exists o, acquire_random order c fuel key port mac sn pool family_ [] cc sn ipam rnd = Some o /\
    holds o (fun '(ipam', _, r) => serves ipam ipam' /\
      match r with
      | Ok (v4, v6, _) => recorded port sn ipam' v4 v6 /\ node_safe c sn v4 v6
      | Err _ => True
      end).
Proof.
  intros Ho Hi Hk Es Hf. rewrite <-room_count in Hf by by eapply Hi.
  destruct (acquire_random_total order c key port mac sn pool family_ cc sn fuel Hk [] ipam rnd Hi) as (o & E & Hg);
    [constructor|rewrite Es; split; [constructor|simpl; lia]|].
  exists o. split; [exact E|]. eapply holds_mono; [exact Hg|]. intros [[ipam' rnd'] r] (? & _ & ?). done.
Qed.

(** The admission of pods accepts exactly the annotations that pass the checks
    listed in [accepted], whatever the order in which the map is walked.  These
    are the checks of the code: of a list of pool members it looks at the first
    one.  For an accepted pod the MAC annotation of the default network is usable
    when the address is acquired, and an address annotation without prefix lengths
    goes straight to the allocator. *)
Theorem pod_network_checked (iter : annotations_map -> list (string * string)) m : (forall x, iter x ≡ₚ map_to_list x) ->
  (ValidatePodNetwork iter m = [] <-> accepted m) /\
  (accepted m -> forall pod net, Pod_Annotations pod = m -> ProviderName net = OvnProvider ->
    (exists mac, provider_mac pod net = Ok mac) /\
    let addr := annotation pod (template OvnProvider "ip_address") in
    (addr <> "" -> Forall (fun ip => contains_char "/"%char ip = false) (Split addr ",") ->
     forall order key nic mac sn live fam_ ipam rnd,
       acquireStaticAddress order key nic addr mac sn live fam_ ipam rnd =
       IPAM_GetStaticAddressWithFamily order key nic addr mac sn fam_ (negb live) ipam rnd)).
Proof.
  intros Ho. split; [by apply ValidatePodNetwork_nil|]. intros Ha pod net <- Hn. split.
  - unfold provider_mac, mac_annotation. rewrite Hn. change (annotation pod (template OvnProvider "mac_address"))
      with (at_key (Pod_Annotations pod) MacAddressAnnotation).
    destruct (nonempty _) eqn:E; [|by eexists]. apply nonempty_iff in E.
    pose proof (acc_mac _ Ha E). destruct (ParseMAC _); [by eexists|done].
  - intros addr Hne Hp order key nic mac sn live fam_ ipam rnd. unfold acquireStaticAddress.
    pose proof (acc_address _ Ha Hne) as Hv. change (at_key (Pod_Annotations pod) IPAddressAnnotation) with addr in Hv.
    assert (Hf : list_find (fun t => isNil (ParseIP t) = true) (Split addr ",") = None).
    { apply list_find_None. rewrite Forall_forall in Hp, Hv |- *. intros ip Hin Hnil. destruct (Hv ip Hin) as [Hva _].
      unfold valid_address in Hva. rewrite (Hp ip Hin), Hnil in Hva. done. }
    by rewrite Hf.
Qed.

(** ** Witnesses *)

Definition demo_net : kubeovnNet :=
  mkNet "ovn" (mkSpec "ovn-default" "ovn-cluster" "" demo_cidr "10.16.0.1,fd00:10:16::1" "Dual" "distributed"
                 [] [] [] 0 true "" 0 false false "" false [] "ovn") true false "" "" "".

(** The first address the allocator offers is the one of the node. *)
Definition demo_cluster : Cluster :=
  mkCluster {["ovn-default" := net_Subnet demo_net]} {["default" := Some ∅]} ∅ ∅
    [[("Hostname", "node-1"); ("InternalIP", "10.16.0.3")]] "ovn-cluster" false (fun _ _ => None).

Definition demo_pod : Pod := mkPod "default" "db" ∅ [].

Lemma demo_ask : clean_ask demo_cluster demo_pod demo_net.
Proof.
  constructor; [by intros k t|by intros name [x Hx]|by_eval|by_eval|done].
Qed.

Lemma demo_enough : enough 40 demo_table.
Proof.
  split; [lia|]. intros sn s. assert (E : demo_table = {["ovn-default" := demo_row]}) by (vm_compute; reflexivity).
  rewrite E, lookup_singleton_Some. intros [<- <-]. by_eval.
Qed.

Definition demo_draws : list bytes := [demo_draw; [0; 0; 94; 0; 83; 2]; [0; 0; 94; 0; 83; 3]].

(** The answer of a call that returned. *)
Definition answered {A} (o : option (outcome (IPAM * list bytes * A))) : option A :=
  match o with Some (Done (_, _, a)) => Some a | _ => None end.

Lemma pod_address_acquired_witness :
  let o := acquireAddress in_order demo_cluster 40 demo_pod demo_net demo_table demo_draws in
  answered o = Some (net_Subnet demo_net, Ok ("10.16.0.4", "fd00:10:16::2", "02:00:5e:00:53:02")) /\
  match o with Some (Done (ipam', _, _)) => reachable exclusive ipam' /\ table_own ipam' | _ => False end.
Proof.
  intros o.
  assert (Ha : answered o = Some (net_Subnet demo_net, Ok ("10.16.0.4", "fd00:10:16::2", "02:00:5e:00:53:02")))
    by (vm_compute; reflexivity).
  split; [exact Ha|].
  destruct (pod_address_acquired in_order demo_cluster 40 demo_pod demo_net demo_table demo_draws in_order_ok
    demo_reachable demo_enough demo_ask) as (r & E & Hr).
  subst o. rewrite E in Ha |- *. destruct r as [[[ipam' rnd'] a]| |]; [|discriminate Ha|discriminate Ha]. exact (proj2 Hr).
Defined.

Lemma drawn_address_ok_witness :
  let o := acquire_random in_order demo_cluster 40 "default/db" "db.default" None "ovn-default" "" "" [] true "ovn-default"
             demo_table demo_draws in
  answered o = Some (Ok ("10.16.0.4", "fd00:10:16::2", "02:00:5e:00:53:02")) /\
  match o with
  | Some (Done (ipam', _, _)) => recorded "db.default" "ovn-default" ipam' "10.16.0.4" "fd00:10:16::2" /\
      node_safe demo_cluster "ovn-default" "10.16.0.4" "fd00:10:16::2"
  | _ => False
  end.
Proof.
  intros o.
  assert (Ha : answered o = Some (Ok ("10.16.0.4", "fd00:10:16::2", "02:00:5e:00:53:02"))) by (vm_compute; reflexivity).
  split; [exact Ha|].
  destruct (drawn_address_ok in_order demo_cluster 40 "default/db" "db.default" None "ovn-default" "" "" true demo_table
    demo_draws demo_row in_order_ok) as (r & E & Hr).
  - exact (proj1 (reachable_table _ _ demo_reachable)).
  - by_eval.
  - vm_compute. reflexivity.
  - vm_compute. reflexivity.
  - subst o. rewrite E in Ha |- *. destruct r as [[[ipam' rnd'] a]| |]; [|discriminate Ha|discriminate Ha].
    injection Ha as ->. exact (proj2 Hr).
Defined.

Definition demo_annotations : annotations_map :=
  {["ovn.kubernetes.io/ip_address" := "10.16.0.5,fd00:10:16::5"; "ovn.kubernetes.io/cidr" := demo_cidr;
    "ovn.kubernetes.io/mac_address" := "00:00:5e:00:53:af"; "ovn.kubernetes.io/ingress_rate" := "10";
    "net1.default.ovn.kubernetes.io/ip_family" := "ipv4"]}.

Lemma pod_network_checked_witness : accepted demo_annotations /\
  exists mac, provider_mac (mkPod "default" "db" demo_annotations []) demo_net = Ok mac.
Proof.
  destruct (pod_network_checked map_to_list demo_annotations (fun x => Permutation_refl _)) as [Hiff Hacc].
  assert (Ha : accepted demo_annotations) by (apply Hiff; vm_compute; reflexivity).
  split; [exact Ha|]. destruct (Hacc Ha (mkPod "default" "db" demo_annotations []) demo_net eq_refl eq_refl) as [Hm _]. exact Hm.
Defined.
