(* ===== verification/NbTheorems.v ===== *)
(** * Theorems on the northbound database

    The text of DHCP options and the rows of DHCP options; the switch ports, which
    are on one switch each and in groups only while they exist. *)
From Stdlib Require Import Ascii.
From S2P Require Import Prelude GoStrings GoNet GoNetText UtilNet GoText AclMatch NbDb NbDhcp NbLsp NbAcl NbAclFacts NbDhcpFacts NbLspFacts PolicyAcl AclMeaning PolicyFacts PolicyVerdict Demo.

Local Open Scope Z_scope.

(** ** DHCP options *)

(** C31: options that are printed parse back to the same options, in whatever
    order the map was walked when it was printed, as long as keys and values have
    no separator (lists of name servers are printed with semicolons and parsed
    back to commas); and what parsing gives is always such a map, so that
    parsing what was printed of a parsed text changes nothing. *)
Theorem dhcp_options_roundtrip (m : gmap string string) (walk : list (string * string)) (raw : string)
    (Hw : walk ≡ₚ map_to_list m) (Hm : map_Forall (fun k v => printable (k, v)) m) :
  parseDHCPOptions (format_entries walk) = m /\ parseDHCPOptions (formatDHCPOptions (parseDHCPOptions raw)) = parseDHCPOptions raw.
Proof. split; [by apply parse_format_entries|]. apply parse_format, parse_printable. Qed.

Lemma dhcp_options_roundtrip_witness :
  parseDHCPOptions "dns_server=10.96.0.10;10.96.0.11,router=10.16.0.1" = {["dns_server" := "10.96.0.10,10.96.0.11"; "router" := "10.16.0.1"]}.
Proof.
  destruct (dhcp_options_roundtrip {["dns_server" := "10.96.0.10,10.96.0.11"; "router" := "10.16.0.1"]}
    [("dns_server", "10.96.0.10,10.96.0.11"); ("router", "10.16.0.1")] "mtu=1400, lease_time=60,, x") as [E _].
  - by_eval.
  - apply map_Forall_insert_2; [|apply map_Forall_singleton]; vm_compute; split_and!; congruence.
  - exact E.
Defined.

(** C30: the DHCP options of a switch or of a port.  Where at most one row of the
    family exists, the call ends with exactly one, whose block is the given one
    and whose options are the given ones completed by the defaults: the MAC of
    the server is the one the row had, else a new one.  It is the row whose UUID
    is returned, and no other row and no other table changes.  A row that is
    created, whose options are printed and parsed again, is not different from
    one that is changed. *)
Theorem dhcp_options_updated (buf : bytes) (lsName portName cidr gateway options : string) (mtu : Z) (db : NbDB)
    (Ha : accepting db) (Hf : dhcp_fresh db) (Hl : lsName <> "") (Hc : cidr <> "") (Hone : single_row lsName portName (CheckProtocol cidr) db)
    (Hb : buf <> []) (Hbytes : Forall (fun b => 0 <= b < 256) buf) (Hg : clean_word gateway) (Hmtu : 0 <= mtu) :
  (CheckProtocol cidr = ProtocolIPv4 -> exists u db', updateDHCPv4Options buf lsName portName cidr gateway options mtu db = Done (Ok (uuid_text u), db') /\
    dhcp_set lsName portName ProtocolIPv4 cidr
      (buildDHCPv4Options options gateway (server_of lsName portName ProtocolIPv4 "server_mac" buf db) mtu) u db db') /\
  (CheckProtocol cidr = ProtocolIPv6 -> exists u db', updateDHCPv6Options buf lsName portName cidr options db = Done (Ok (uuid_text u), db') /\
    dhcp_set lsName portName ProtocolIPv6 cidr
      (buildDHCPv6Options options (server_of lsName portName ProtocolIPv6 "server_id" buf db)) u db db').
Proof.
  pose proof (GenerateMac_clean buf Hb Hbytes) as Hmac. split; intros Hp; rewrite Hp in Hone.
  - destruct (update_family_ok ProtocolIPv4 "cidr %s must be a valid ipv4 address" "server_mac" (fun mac => buildDHCPv4Options options gateway mac mtu)
      buf lsName portName cidr db Ha Hf Hl Hc Hp ltac:(done) Hone (build4_printable options gateway _ mtu Hg Hmac Hmtu)) as (u & db' & E & Hs & _).
    by exists u, db'.
  - destruct (update_family_ok ProtocolIPv6 "cidr %s must be a valid ipv6 address" "server_id" (fun mac => buildDHCPv6Options options mac)
      buf lsName portName cidr db Ha Hf Hl Hc Hp ltac:(done) Hone (build6_printable options _ Hmac)) as (u & db' & E & Hs & _).
    by exists u, db'.
Qed.

(** Two switches, the first with one port, which is in one group. *)
Definition demo_port : LogicalSwitchPort :=
  mkLsp 7 "web.default" "" ["00:00:00:5e:00:53 10.16.0.2"] [] ∅ {[LogicalSwitchKey := "ovn-default"; "vendor" := CniTypeName]} None None None.

Definition demo_objects : Objects :=
  mkObj {["all" := mkPg {[7%N]} ∅]} ∅ {["web.default" := demo_port]} {["ovn-default" := {[7%N]}; "join" := ∅]} ∅.

Definition demo_nb : NbDB := mkNb {["all" := []]} {["ovn-default" := []; "join" := []]} ∅ demo_objects 8 [].

Lemma dhcp_options_updated_witness : exists u db',
  updateDHCPv4Options [0; 0; 94; 0; 83; 1] "ovn-default" "" "10.16.0.0/16" "10.16.0.1" "lease_time=60" 1400 demo_nb = Done (Ok (uuid_text u), db') /\
  exists d, rows_for "ovn-default" "" ProtocolIPv4 db' = [(u, d)] /\
    do_Options d = {["lease_time" := "60"; "router" := "10.16.0.1"; "server_id" := "169.254.0.254"; "server_mac" := "02:00:5e:00:53:01"; "mtu" := "1400"]}.
Proof.
  destruct (dhcp_options_updated [0; 0; 94; 0; 83; 1] "ovn-default" "" "10.16.0.0/16" "10.16.0.1" "lease_time=60" 1400 demo_nb) as [H4 _].
  - reflexivity.
  - by_eval.
  - discriminate.
  - discriminate.
  - vm_compute. lia.
  - discriminate.
  - by_eval.
  - vm_compute. split_and!; congruence.
  - lia.
  - destruct (H4 ltac:(vm_compute; reflexivity)) as (u & db' & E & S). exists u, db'. split; [exact E|].
    destruct (ds_row _ _ _ _ _ _ _ _ S) as (d & Hr & _ & Ho). exists d. split; [exact Hr|]. rewrite Ho. by_eval.
Defined.

(** ** Switch ports *)

(** C24: creating a switch port, whether no port of the name exists, or one on
    the same switch, or one on another switch (which is moved in one
    transaction), ends with the port on the switch, described as the arguments
    say.  Every port stays on exactly one switch, the one its external ids name,
    port groups have only ports that exist, and no other port changes. *)
Theorem port_placed (ls name ip mac pod ns : string) (sec : bool) (sgs vips : string) (dhcp : bool) (opts : option DHCPOptionsUUIDs) (vpc : string) (db : NbDB)
    (Hok : ports_ok db) (Ha : accepting db) (Hn : name <> "") (Hls : ls ∈ dom (nb_lss db)) :
  exists db', CreateLogicalSwitchPort ls name ip mac pod ns sec sgs vips dhcp opts vpc db = Done (Ok (), db') /\
    placed name (buildLogicalSwitchPort name ls ip mac pod ns sec sgs vips dhcp opts vpc) db db'.
Proof. by apply CreateLogicalSwitchPort_ok. Qed.

Lemma demo_ports_ok : ports_ok demo_nb.
Proof.
  assert (Hone : forall k p, o_lsps demo_objects !! k = Some p -> k = "web.default" /\ p = demo_port)
    by (intros k p Hk; cbn in Hk; apply lookup_singleton_Some in Hk as [<- <-]; done).
  assert (Hsw : forall s us, o_switch_ports demo_objects !! s = Some us -> (s = "ovn-default" /\ us = {[7%N]}) \/ (s = "join" /\ us = ∅)).
  { intros s us Hs. cbn in Hs. apply lookup_insert_Some in Hs as [[<- <-]|[_ Hs]]; [by left|]. apply lookup_singleton_Some in Hs as [<- <-]. by right. }
  split.
  - intros k p Hk. destruct (Hone k p Hk) as [-> ->]. by split.
  - intros k p Hk. by destruct (Hone k p Hk) as [-> ->].
  - intros n1 n2 p1 p2 H1 H2 _. destruct (Hone _ _ H1) as [-> _], (Hone _ _ H2) as [-> _]. done.
  - split; by_eval.
  - intros k p Hk. destruct (Hone k p Hk) as [-> ->]. exists "ovn-default". split_and!; [done|by_eval|]. intros s us Hs.
    destruct (Hsw s us Hs) as [[-> ->]|[-> ->]]; [by rewrite elem_of_singleton|]. by rewrite elem_of_empty.
  - intros s us u Hs Hu. destruct (Hsw s us Hs) as [[-> ->]|[-> ->]]; [|by apply elem_of_empty in Hu]. apply elem_of_singleton in Hu as ->.
    by exists "web.default", demo_port.
  - intros g pg u Hg Hu. cbn in Hg. apply lookup_singleton_Some in Hg as [<- <-]. cbn in Hu. apply elem_of_singleton in Hu as ->. by exists "web.default", demo_port.
Qed.

(** The port moves to the other switch. *)
Lemma port_placed_witness : exists db', CreateLogicalSwitchPort "join" "web.default" "100.64.0.2" "00:00:00:5e:00:53" "web" "default" true "" "" false None "ovn-cluster" demo_nb = Done (Ok (), db') /\
  exists p, o_lsps (nb_obj db') !! "web.default" = Some p /\ lsp_PortSecurity p = ["00:00:00:5e:00:53 100.64.0.2"].
Proof.
  destruct (port_placed "join" "web.default" "100.64.0.2" "00:00:00:5e:00:53" "web" "default" true "" "" false None "ovn-cluster" demo_nb) as (db' & E & P).
  - exact demo_ports_ok.
  - reflexivity.
  - discriminate.
  - by_eval.
  - exists db'. split; [exact E|]. destruct (pl_port _ _ _ _ P) as (p & Hp & _ & Hs & _). exists p. split; [exact Hp|]. rewrite Hs. vm_compute. reflexivity.
Defined.

(** C25: deleting a port succeeds and takes it from the table, from every switch
    and from every port group; every other port keeps its UUID, its addresses and
    its external ids, and the ports stay on one switch each. *)
Theorem port_deleted (name : string) (p : LogicalSwitchPort) (db : NbDB) (Hok : ports_ok db) (Ha : accepting db) (Hp : o_lsps (nb_obj db) !! name = Some p) :
  exists db', DeleteLogicalSwitchPort name db = Done (Ok (), db') /\ port_gone name (lsp_UUID p) db db'.
Proof. by apply DeleteLogicalSwitchPort_ok. Qed.

Lemma port_deleted_witness : exists db', DeleteLogicalSwitchPort "web.default" demo_nb = Done (Ok (), db') /\ o_lsps (nb_obj db') !! "web.default" = None /\
  forall pg, o_pgs (nb_obj db') !! "all" = Some pg -> 7%N ∉ pg_Ports pg.
Proof.
  destruct (port_deleted "web.default" demo_port demo_nb) as (db' & E & G).
  - exact demo_ports_ok.
  - reflexivity.
  - reflexivity.
  - exists db'. split; [exact E|]. split; [exact (pg_none _ _ _ _ G)|exact (pg_groups _ _ _ _ G "all")].
Defined.

(** ** Theorems on access control lists

    The text of a match tree reads as the tree means it; the matches of the rules
    of policies hold of the packets the rules admit; the ACLs of a network policy
    pass those packets and drop the others of the selected workloads. *)

(** C32: the text of a match tree whose disjunctions inside conjunctions are
    grouped and whose atoms have no operator or parenthesis is an expression of
    the documented grammar, which never mixes [&&] and [||] without parentheses,
    and reading the text back gives the meaning of the tree for every truth of
    the atoms: [Match] loses and adds no grouping. *)
Theorem acl_text_roundtrip (truth : string -> Prop) (m : ACLMatch) (Hg : grouped m = true) :
  exists t e, Match m = Ok t /\ parse t = Some e /\
    (reads truth e <-> denote (fun k e v x => truth (atom_text k e v x)) m).
Proof. exact (parse_Match truth m Hg). Qed.

Definition demo_tree : ACLMatch :=
  NewAndACLMatch [all_ip_match "pg" ACLDirectionToLport "ip";
    NewGroupACLMatch (NewOrACLMatch [
      NewAndACLMatch [NewACLMatch "ip4.src" "==" "10.0.0.0/8" ""; NewACLMatch "ip4.src" "!=" "{10.1.0.0/16, 10.2.0.0/16}" ""];
      NewACLMatch "ip4.src" "==" "192.168.0.0/16" ""])].

Lemma acl_text_roundtrip_witness :
  Match demo_tree = Ok "outport == @pg && ip && ((ip4.src == 10.0.0.0/8 && ip4.src != {10.1.0.0/16, 10.2.0.0/16}) || ip4.src == 192.168.0.0/16)" /\
  exists t e, Match demo_tree = Ok t /\ parse t = Some e /\
    (reads (fun a => a <> "ip") e <-> denote (fun k e v x => atom_text k e v x <> "ip") demo_tree).
Proof.
  split; [vm_compute; reflexivity|]. refine (acl_text_roundtrip (fun a => a <> "ip") demo_tree _). vm_compute. reflexivity.
Defined.

(** ** Network policies *)

Section NetworkPolicy.

Context {addr : Type} `{Ovn addr}.

(** The ACLs of one direction of a network policy decide as the policy says.
    Whatever the rules, with selected peers in address sets or blocks of
    addresses with exceptions, the operations give ACLs without a panic or an
    error, and of those that match a packet the highest priority allows it
    exactly when a rule admits it: the packet goes to (or comes from) a member of
    the port group, its other end is a peer of the family of the rule and not an
    exception, and the protocol and destination port are among the ports of the
    rule (all, when it names none; a range; the number of a named port).  A lax
    policy also lets DHCP of both families pass.  Every other IP packet of a
    member (TCP, UDP and SCTP when lax) is dropped, and packets of no member are
    left alone. *)
Theorem network_policy_verdict (npName pgName direction : string) (log lax : bool) (logRate : Z) (named : gmap string Z)
    (rules : list policy_rule) (Hp : name_ok pgName = true) (Hd : real_direction direction) (Hn : named_ok named)
    (Hr : Forall rule_ok rules) :
  exists acls, policy_acls npName pgName direction log lax logRate named rules = Done (Ok acls) /\
    forall p : packet addr,
    (verdict acls ACLActionAllowRelated p <->
      (lax = true /\ dhcp_packet direction pgName p) \/ Exists (rule_admits pgName direction named p) rules) /\
    (verdict acls ACLActionDrop p <-> (member direction pgName p /\ blocked lax p) /\
      ~ ((lax = true /\ dhcp_packet direction pgName p) \/ Exists (rule_admits pgName direction named p) rules)).
Proof. exact (policy_verdict npName pgName direction log lax logRate named rules Hp Hd Hn Hr). Qed.

(** The matches of a rule of an admin or cluster network policy, which are
    built the same way, hold of a packet exactly when it goes to (or comes from)
    a member of the port group, its other end is in the address set of the rule
    and of its family, and, where the rule names ports, one of them is the
    protocol and destination port of the packet or a range around it; a port
    that is neither admits nothing. *)
Theorem admin_rule_exact (pgName asName protocol direction : string) (rulePorts : list PolicyPort)
    (Hp : name_ok pgName = true) (Ha : name_ok asName = true) (Hr : Forall (fun port => rule_port_ok port = true) rulePorts)
    (p : packet addr) :
  (Exists (text_matches p) (newAnpACLMatch pgName asName protocol direction rulePorts) <->
    admin_allows direction pgName asName protocol rulePorts p) /\
  (Exists (text_matches p) (newCnpACLMatch pgName asName protocol direction rulePorts) <->
    admin_allows direction pgName asName protocol rulePorts p).
Proof. by split; apply say_texts, admin_says. Qed.

End NetworkPolicy.

(** ** A database with one group, two sets and two networks *)

#[local] Instance demo_ovn : Ovn Z := {|
  group_has g port := bool_decide (g = "web" /\ port = "web-1");
  set_has s a := bool_decide (s = "friends" /\ 10 <= a < 20);
  text_has t a := if bool_decide (t = "10.0.0.0/8") then (100 <=? a) && (a <? 200) else (t =? "10.1.0.0/16")%string && (a =? 150)
|}.

Definition demo_rules : list policy_rule := [
  mkRule "np/web/0" ProtocolIPv4 (Selected "friends" "none") [mkPolicyPort (Some "TCP") (Some (IntVal 80)) (Some 90)];
  mkRule "np/web/1" ProtocolIPv4 (Blocks [mkIPBlock "10.0.0.0/8" ["10.1.0.0/16"]]) [mkPolicyPort (Some "UDP") (Some (StrVal "dns")) None] ].

Definition demo_named : gmap string Z := {["dns" := 53%Z]}.

Definition demo_packet (src : Z) (proto : string) (dport : Z) : packet Z :=
  mkPacket "" "web-1" "ip4" src 1 proto 40000 dport.

Lemma demo_named_ok : named_ok demo_named.
Proof. intros k n E. unfold demo_named in E. apply lookup_singleton_Some in E as [_ <-]. done. Defined.

Lemma demo_rules_ok : Forall rule_ok demo_rules.
Proof. repeat constructor. Defined.

(** A friend reaches port 85 and a host of the block the named port; a stranger,
    and the exception of the block, are dropped. *)
Lemma network_policy_verdict_witness : exists acls,
  policy_acls "shop/web" "web" ACLDirectionToLport false false 0 demo_named demo_rules = Done (Ok acls) /\
  verdict acls ACLActionAllowRelated (demo_packet 12 "tcp" 85) /\
  verdict acls ACLActionAllowRelated (demo_packet 120 "udp" 53) /\
  verdict acls ACLActionDrop (demo_packet 30 "tcp" 85) /\
  verdict acls ACLActionDrop (demo_packet 150 "udp" 53).
Proof.
  destruct (network_policy_verdict "shop/web" "web" ACLDirectionToLport false false 0 demo_named demo_rules
    eq_refl (or_introl eq_refl) demo_named_ok demo_rules_ok) as (acls & E & Hv).
  exists acls. split; [exact E|]. split_and!; apply Hv.
  - right. left. split; [vm_compute; tauto|]. right. left. vm_compute. split; [reflexivity|]. split; discriminate.
  - right. right. left. split.
    + split; [reflexivity|]. split; [reflexivity|]. left. split; [vm_compute; reflexivity|]. split; [reflexivity|].
      assert (E1 : block_excepts ProtocolIPv4 (mkIPBlock "10.0.0.0/8" ["10.1.0.0/16"]) = ["10.1.0.0/16"]) by (vm_compute; reflexivity).
      simpl. rewrite E1. by repeat constructor.
    + right. left. split; [reflexivity|]. reflexivity.
  - split; [split; [reflexivity|by left]|]. intros [[? _]|Hx]; [discriminate|]. unfold demo_rules in Hx. rewrite !Exists_cons, Exists_nil in Hx.
    destruct Hx as [[(_ & _ & Hs & _) _]|[[(_ & _ & Hb) _]|[]]]; [discriminate|].
    rewrite Exists_cons, Exists_nil in Hb. destruct Hb as [(_ & Hb & _)|[]]. discriminate.
  - split; [split; [reflexivity|by left]|]. intros [[? _]|Hx]; [discriminate|]. unfold demo_rules in Hx. rewrite !Exists_cons, Exists_nil in Hx.
    destruct Hx as [[(_ & _ & Hs & _) _]|[[(_ & _ & Hb) _]|[]]]; [discriminate|].
    rewrite Exists_cons, Exists_nil in Hb. destruct Hb as [(_ & _ & He)|[]].
    assert (E1 : block_excepts ProtocolIPv4 (mkIPBlock "10.0.0.0/8" ["10.1.0.0/16"]) = ["10.1.0.0/16"]) by (vm_compute; reflexivity).
    simpl in He. rewrite E1 in He. apply Forall_cons in He as [He _]. discriminate.
Defined.

Lemma admin_rule_exact_witness :
  Exists (text_matches (demo_packet 12 "tcp" 85)) (newAnpACLMatch "web" "friends" ProtocolIPv4 ACLDirectionToLport [mkRulePort None (Some ("TCP", 80, 90))]).
Proof.
  destruct (admin_rule_exact "web" "friends" ProtocolIPv4 ACLDirectionToLport [mkRulePort None (Some ("TCP", 80, 90))]
    eq_refl eq_refl ltac:(by repeat constructor) (demo_packet 12 "tcp" 85)) as [Ha _].
  apply Ha. split; [reflexivity|]. split; [reflexivity|]. split; [reflexivity|]. right. left. vm_compute. split; [reflexivity|]. split; discriminate.
Defined.
