(* ===== verification/SgTheorems.v ===== *)
(** * Theorems on security groups

    From a specification to the packets it lets pass: the handlers of a group
    store its ACLs, its members and its addresses; the ACLs decide as the rules
    say; lost ACLs are noticed; the groups of a port follow its annotation. *)
From Stdlib Require Import Ascii.
From S2P Require Import Prelude GoStrings GoNet GoNetText UtilNet GoText AclMatch NbDb NbDhcp NbLsp NbGroups NbAcl NbAclFacts NbDhcpFacts NbWorld PolicyAcl AclMeaning PolicyFacts PolicyVerdict SecurityGroup SgTable SgVerdict SgController SgControllerFacts Demo.

Local Open Scope Z_scope.

(** ** The name of the group that drops everything *)

Lemma replace_char_undone s t : replace_char "-"%char "." s = t -> lacks "." t -> s = t.
Proof.
  revert t. induction s as [|c s IH]; intros t <- Ht; [done|]. cbn [replace_char] in *. destruct (bool_decide (c = "-"%char)); [done|].
  unfold lacks in Ht. cbn in Ht. apply orb_false_iff in Ht as [_ Ht]. f_equal. by apply IH.
Qed.

Lemma deny_group_apart name : name <> DenyAllSecurityGroup -> GetSgPortGroupName name <> GetSgPortGroupName DenyAllSecurityGroup.
Proof.
  intros Hn E. unfold GetSgPortGroupName in E. destruct (bool_decide_reflect (name = "")) as [|Hne]; [done|].
  apply Hn, replace_char_undone; [|done]. change (replace_char "-"%char "." ("ovn.sg." +:+ name)) with ("ovn.sg." +:+ replace_char "-"%char "." name) in E.
  rewrite bool_decide_false in E by done. change (replace_char "-"%char "." ("ovn.sg." +:+ DenyAllSecurityGroup)) with ("ovn.sg." +:+ DenyAllSecurityGroup) in E.
  by apply (inj (String.append _)) in E.
Qed.

(** ** A group is stored *)

Section Hash.

Context (md5 : list SecurityGroupRule -> string).

Lemma handle_ok key force sg st c ingress egress h1 h2 :
  world (ct_db c) -> sg_ready sg (ct_db c) -> validateSgRule (fun name => bool_decide (is_Some (ct_sgs c !! name))) sg = None ->
  need_update md5 force sg st = (ingress, egress, h1, h2) -> settled sg ingress egress (ct_db c) ->
  ct_patches c = [] -> ct_sgs c !! key = Some (sg, st) -> sg_Name sg = key -> key <> DenyAllSecurityGroup ->
  let final := mkSgStatus (GetSgPortGroupName (sg_Name sg)) (sg_AllowSameGroupTraffic sg) h1 h2 true true in
  exists c', handleAddOrUpdateSg md5 key force c = Done (Ok (), c') /\ sg_stored sg (ct_db c) (ct_db c') /\
    ct_sgs c' = <[key := (sg, final)]> (ct_sgs c) /\ key ∈ ct_syncSgPortsQueue c'.
Proof.
  intros Hw Hrd Hv Hneed Hset Hpat Hin <- Hkey final.
  destruct (update_sg_ok md5 (sg_Name sg) force sg st c ingress egress h1 h2 Hw Hrd Hv Hneed Hset Hpat Hin) as (c' & E & Hs & Hst & _ & Hq).
  exists c'. split_and!; [|done|done|rewrite Hq; by left]. unfold handleAddOrUpdateSg. rewrite bool_decide_false by done.
  rewrite (handler_bind_done _ _ c () c) by done. by rewrite (handler_bind_done _ _ c (Some (sg, st)) c) by (unfold asking; by rewrite Hin).
Qed.

(** The start: the group that drops everything and its ACLs. *)
Lemma init_deny_ok c : let deny := GetSgPortGroupName DenyAllSecurityGroup in
  world (ct_db c) -> nb_lss (ct_db c) !! deny = None -> Forall (fun a => a ∈ wanted_deny DenyAllSecurityGroup) (acls_at portGroupKey deny (ct_db c)) ->
  exists c', initDefaultDenyAllSecurityGroup c = Done (Ok (), c') /\ world (ct_db c') /\ frame deny [] (ct_db c) (ct_db c') /\
    (forall a, a ∈ acls_at portGroupKey deny (ct_db c') <-> a ∈ wanted_deny DenyAllSecurityGroup) /\ ct_sgs c' = ct_sgs c /\ ct_patches c' = ct_patches c.
Proof.
  intros deny Hw Hls Hall.
  destruct (CreatePortGroup_ok deny (sg_external DenyAllSecurityGroup) [] (ct_db c) Hw ltac:(done) Hls) as (db1 & E1 & W1 & F1 & S1 & A1 & _).
  destruct (CreateSgDenyAllACL_changes DenyAllSecurityGroup db1) as (db2 & l & E2 & C2 & Hl);
    [done|apply (w_ok _ W1)|apply (w_accepting _ W1)|done|fold deny; by rewrite A1|]. fold deny in C2.
  destruct (changes_world _ _ [] _ _ W1 S1 C2) as (W2 & F2 & _ & _).
  set (c2 := set_db db2 (set_db db1 c)).
  exists (mkCtl (ct_sgs c2) (DenyAllSecurityGroup :: ct_addOrUpdateSgQueue c2) (ct_syncSgPortsQueue c2) (ct_patches c2) (ct_db c2)). split_and!.
  - unfold initDefaultDenyAllSecurityGroup. rewrite (handler_bind_done _ _ c () (set_db db1 c)) by (by apply on_db_done).
    by rewrite (handler_bind_done _ _ _ () c2) by (by apply on_db_done).
  - exact W2.
  - exact (frame_trans _ _ _ _ _ F1 F2).
  - intros a. change (a ∈ acls_at portGroupKey deny db2 <-> a ∈ wanted_deny DenyAllSecurityGroup). rewrite (ch_acls _ _ _ _ _ C2). apply Hl.
  - done.
  - done.
Qed.

Lemma acls_framed pg p sets db db' : frame pg sets db db' -> p <> pg -> acls_at portGroupKey p db' = acls_at portGroupKey p db.
Proof. intros F Hne. rewrite !acls_at_pg. by rewrite (fr_rows _ _ _ _ F p Hne). Qed.

(** C9: the handler of a security group whose rules pass the check brings the
    database to the specification.  The status of the group says which directions
    need an update (all of them when it is forced); a direction that needs none has
    its ACLs in place already, the state of the other one is arbitrary.  Then, after
    the handler and the handler that it queues, the port group and the two address
    sets exist and carry the name of the group; the ACLs of the port group are those
    of the specification in both directions, no more and no less; its ports are
    exactly the ports associated with the group and its address sets the IPv4 and
    IPv6 addresses of those ports; no other port group, address set, switch or port
    changes; the search for lost ACLs finds none; and, unless the update was forced,
    neither direction needs an update any more and both are in place for the next
    run of the handler. *)
Theorem sg_reconciled (key : string) (force : bool) (sg : SecurityGroup) (st : SgStatus) (ingress egress : bool) (h1 h2 : string) (c : Ctl)
    (Hw : world (ct_db c)) (Hrd : sg_ready sg (ct_db c)) (Hkey : sg_Name sg = key) (Hdeny : key <> DenyAllSecurityGroup)
    (Hin : ct_sgs c !! key = Some (sg, st)) (Hv : validateSgRule (fun name => bool_decide (is_Some (ct_sgs c !! name))) sg = None)
    (Hneed : need_update md5 force sg st = (ingress, egress, h1, h2)) (Hset : settled sg ingress egress (ct_db c)) (Hpat : ct_patches c = []) :
  exists c1 c2 st', handleAddOrUpdateSg md5 key force c = Done (Ok (), c1) /\ key ∈ ct_syncSgPortsQueue c1 /\
    syncSgLogicalPort key c1 = Done (Ok (), c2) /\
    sg_stored sg (ct_db c) (ct_db c1) /\ sg_members key (GetSgPortGroupName key) (ct_db c1) (ct_db c2) /\
    acls_at portGroupKey (GetSgPortGroupName key) (ct_db c2) ≡ₚ synced_acls sg /\ SGLostACL sg (ct_db c2) = Ok false /\
    ct_sgs c2 !! key = Some (sg, st') /\ (force = false -> need_update md5 false sg st' = (false, false, h1, h2)) /\ settled sg false false (ct_db c2).
Proof.
  destruct (handle_ok key force sg st c ingress egress h1 h2 Hw Hrd Hv Hneed Hset Hpat Hin Hkey Hdeny) as (c1 & E1 & Hs & Hst & Hq).
  set (final := mkSgStatus _ _ _ _ _ _) in Hst. pose proof (rd_name _ _ Hrd) as Hn. apply name_ok_iff in Hn as [Hn _].
  destruct (ss_group _ _ _ Hs) as (g & Hg & _). pose proof (ss_sets _ _ _ Hs) as Hsets. unfold sg_sets in Hsets.
  rewrite !Forall_cons, Hkey in Hsets. destruct Hsets as (H4 & H6 & _).
  assert (Hin1 : ct_sgs c1 !! key = Some (sg, final)) by (rewrite Hst; apply lookup_insert_eq).
  destruct (syncSgLogicalPort_ok key sg final g c1 (ss_world _ _ _ Hs) Hin1) as (c2 & E2 & Hm & Hs2); [by apply pg_not_empty|done..|].
  unfold final in Hm. cbn [st_PortGroup] in Hm. rewrite Hkey in Hm.
  assert (Ha : acls_at portGroupKey (GetSgPortGroupName key) (ct_db c2) ≡ₚ synced_acls sg).
  { rewrite acls_at_pg, (sm_rows _ _ _ _ Hm), <-acls_at_pg, <-Hkey. apply (ss_acls _ _ _ Hs). }
  exists c1, c2, final. split_and!; [done..| |by rewrite Hs2| |].
  - rewrite SGLostACL_iff by done. rewrite bool_decide_true; [done|]. rewrite <-Hkey in Ha. split;
      [apply (wanted_has_acl sg ACLDirectionToLport)|apply (wanted_has_acl sg ACLDirectionFromLport)]; apply Forall_forall; intros a Hx; rewrite Ha;
      unfold synced_acls; rewrite !elem_of_app; tauto.
  - intros ->. unfold need_update in *. injection Hneed as _ _ <- <-. unfold final. cbn. rewrite !bool_decide_true by done. by rewrite eqb_reflx.
  - unfold settled. rewrite Hkey. split; intros _; apply synced_in_place; [by left|done|by right|done].
Qed.

(** ** A group is enforced *)

Section Packets.

Context {addr : Type} `{Ovn addr}.


End Packets.

End Hash.

(** The search for lost ACLs answers, without an error, that an ACL is lost
    exactly when for some rule of either direction no row of the table has the
    parent, direction, priority, match and tier of its ACL. *)
Theorem sg_lost_exact (sg : SecurityGroup) (db : NbDB) (Hn : sg_Name sg <> "") :
  exists b, SGLostACL sg db = Ok b /\
    (b = true <-> Exists (fun rule => ~ has_acl sg ACLDirectionToLport db rule) (sg_IngressRules sg) \/
                  Exists (fun rule => ~ has_acl sg ACLDirectionFromLport db rule) (sg_EgressRules sg)).
Proof.
  assert (Hex : forall d rules, Exists (fun rule => ~ has_acl sg d db rule) rules <-> ~ Forall (has_acl sg d db) rules).
  { intros d rules. split; [apply Exists_not_Forall|]. intros Hno. by apply not_Forall_Exists in Hno; [|apply _]. }
  eexists. split; [by apply SGLostACL_iff|]. rewrite negb_true_iff, bool_decide_eq_false, !Hex.
  destruct (decide (Forall (has_acl sg ACLDirectionToLport db) (sg_IngressRules sg))); tauto.
Qed.

(** [reconcilePortSg] makes the groups a port is associated with those of the
    comma-separated list, whatever they were; it writes the list into the external
    ids of the port, changes no other port, and queues every group that gained or
    lost the port. *)
Theorem port_groups_reconciled (port sgs : string) (p : LogicalSwitchPort) (c : Ctl)
    (Ha : accepting (ct_db c)) (Hne : port <> "") (Hp : o_lsps (nb_obj (ct_db c)) !! port = Some p) (Ht : tidy p) :
  exists c' p', reconcilePortSg port sgs c = Done (Ok (), c') /\
    o_lsps (nb_obj (ct_db c')) = <[port := p']> (o_lsps (nb_obj (ct_db c))) /\ ct_sgs c' = ct_sgs c /\
    lsp_ExternalIDs p' !! sgsKey = Some (ReplaceAll sgs "," "/") /\ lsp_Addresses p' = lsp_Addresses p /\ lsp_UUID p' = lsp_UUID p /\
    forall name, name <> "" -> lacks "_" name ->
      (associated name p' <-> name ∈ Split sgs ",") /\
      (~ (associated name p <-> name ∈ Split sgs ",") -> name ∈ ct_syncSgPortsQueue c').
Proof.
  destruct (reconcilePortSg_ok port sgs p c Ha Hne Hp Ht) as (c' & ids & E & Hl & Hs & Hi & Hin & Hq).
  exists c', (set_lsp_external ids p). split_and!; try done. intros name Hn Hu. split; [by apply Hin|by apply Hq].
Qed.

(** ** A group with one rule and one port *)

Definition demo_rule : SecurityGroupRule :=
  mkSgRule "ipv4" SgProtocolTCP 1 SgRemoteTypeAddress "10.0.0.0/8" "" "" 80 90 0 0 ACLActionAllow.

Definition demo_sg : SecurityGroup := mkSg "web" [demo_rule] [] true 0.

Definition demo_status : SgStatus := mkSgStatus "" false "" "" false false.

Definition demo_member : LogicalSwitchPort :=
  mkLsp 7 "web-1" "" ["00:00:00:5e:00:53 10.16.0.2"] [] ∅ {[associatedSgKeyPrefix +:+ "web" := "true"]} None None None.

Definition demo_ctl : Ctl :=
  mkCtl {["web" := (demo_sg, demo_status)]} [] [] []
    (mkNb ∅ {["ovn-default" := []]} ∅ (mkObj ∅ ∅ {["web-1" := demo_member]} {["ovn-default" := {[7%N]}]} ∅) 8 []).

Lemma demo_world : world (ct_db demo_ctl).
Proof.
  assert (Hls : forall p rows, nb_lss (ct_db demo_ctl) !! p = Some rows -> rows = []).
  { intros p rows Hp. cbn in Hp. by apply lookup_singleton_Some in Hp as [_ <-]. }
  split.
  - split.
    + vm_compute. constructor.
    + vm_compute. constructor.
    + intros t p rows [-> | ->] Hr; [exfalso; by apply (lookup_empty_Some (M := gmap string) p rows)|]. by apply Hls in Hr as ->.
    + cbn. set_solver.
  - reflexivity.
  - reflexivity.
  - cbn. apply map_Forall_singleton. done.
Qed.

Lemma demo_ready : sg_ready demo_sg (ct_db demo_ctl).
Proof. split; [reflexivity..|]. constructor. Qed.

(** The hash of the witnesses: the number of rules. *)
Definition demo_md5 (rules : list SecurityGroupRule) : string := "h" +:+ Itoa (Z.of_nat (length rules)).

Lemma sg_reconciled_witness : exists c1 c2, handleAddOrUpdateSg demo_md5 "web" false demo_ctl = Done (Ok (), c1) /\
  syncSgLogicalPort "web" c1 = Done (Ok (), c2) /\
  acls_at portGroupKey "ovn.sg.web" (ct_db c2) ≡ₚ synced_acls demo_sg /\ SGLostACL demo_sg (ct_db c2) = Ok false.
Proof.
  destruct (sg_reconciled demo_md5 "web" false demo_sg demo_status true true "h1" "h0" demo_ctl) as (c1 & c2 & st' & E1 & _ & E2 & _ & _ & Ha & Hl & _).
  - exact demo_world.
  - exact demo_ready.
  - reflexivity.
  - discriminate.
  - reflexivity.
  - vm_compute. reflexivity.
  - vm_compute. reflexivity.
  - split; discriminate.
  - reflexivity.
  - exists c1, c2. split_and!; [exact E1|exact E2|exact Ha|exact Hl].
Defined.

#[local] Instance demo_sg_ovn : Ovn Z := {|
  group_has g port := bool_decide (port = "web-1" /\ (g = "ovn.sg.web" \/ g = "ovn.sg.kubeovn_deny_all"));
  set_has s a := bool_decide (s = "ovn.sg.web.associated.v4" /\ a = 2);
  text_has t a := (100 <=? a) && (a <? 200)
|}.

Definition demo_sg_packet (src dport : Z) : packet Z := mkPacket "" "web-1" "ip4" src 1 "tcp" 40000 dport.

Lemma demo_applies src dport : rule_applies "web" ACLDirectionToLport (demo_sg_packet src dport) demo_rule <->
  (100 <=? src) && (src <? 200) = true /\ 80 <= dport <= 90.
Proof.
  unfold rule_applies. split.
  - intros (_ & _ & Hr & _ & _ & Hp). split; [exact Hr|]. by destruct (Hp (or_introl eq_refl)) as (_ & ? & _).
  - intros [Hr Hp]. split; [reflexivity|]. split; [reflexivity|]. split; [exact Hr|]. split; [done|]. split; [done|]. intros _. split; [done|]. by split.
Qed.


Lemma sg_lost_exact_witness : SGLostACL demo_sg (ct_db demo_ctl) = Ok true.
Proof.
  destruct (sg_lost_exact demo_sg (ct_db demo_ctl)) as (b & E & Hb); [discriminate|]. rewrite E. f_equal. apply Hb. left. left.
  unfold has_acl. by_eval.
Defined.

Lemma port_groups_reconciled_witness : exists c' p', reconcilePortSg "web-1" "db,dns" demo_ctl = Done (Ok (), c') /\
  o_lsps (nb_obj (ct_db c')) !! "web-1" = Some p' /\ associated "db" p' /\ ~ associated "web" p' /\ "web" ∈ ct_syncSgPortsQueue c'.
Proof.
  destruct (port_groups_reconciled "web-1" "db,dns" demo_member demo_ctl) as (c' & p' & E & Hl & _ & _ & _ & _ & Hn).
  - reflexivity.
  - discriminate.
  - reflexivity.
  - apply map_Forall_singleton. intros _. by exists "web".
  - exists c', p'. split; [exact E|]. split; [rewrite Hl; apply lookup_insert_eq|].
    destruct (Hn "db" ltac:(discriminate) eq_refl) as [Hdb _]. destruct (Hn "web" ltac:(discriminate) eq_refl) as [Hweb Hq].
    assert (Hnot : "web" ∉ Split "db,dns" ",") by by_eval. split_and!.
    + apply Hdb. by_eval.
    + intros Ha. by apply Hnot, Hweb.
    + apply Hq. intros [Hx _]. by apply Hnot, Hx.
Defined.
