(* ===== verification/SwitchTheorems.v ===== *)
(** * Theorems on switches and routers

    What the reconciliation of a subnet leaves on its switch, what a private
    subnet lets in, and what the repairs at the start do to the table; the static
    routes and the policies of routers, and what the reconciliation of a VPC leaves
    of them. *)
From Stdlib Require Import Ascii.
From S2P Require Import Prelude GoStrings GoNet GoNetText UtilNet GoText NbRouter NbRouterFacts VpcRoutes VpcFacts AclMatch NbDb NbAcl NbAclFacts PolicyAcl AclMeaning PolicyFacts PolicyVerdict LsAcl LsAclFacts Demo.

Local Open Scope Z_scope.


Section Packets.

Context {addr : Type} `{Ovn addr}.

(** C6: the switch of a private subnet without a list of its own lets a packet
    in exactly when, for a block of the subnet of the family of the packet, both
    ends are in the block, or it comes from a network of the nodes, or it goes
    between the block and an allowed network; every other IP packet is dropped.
    This holds whatever ACLs the switch had, as long as the server takes the
    patches of the status. *)
Theorem private_subnet_exact (patch : string -> option err) (ls cidrBlock nodes : string) (allow : list string) (ew : bool) (db : NbDB)
    (Hpatch : forall reason, patch reason = None) (Hls : ls <> "") (Hok : nb_ok db) (Ha : accepting db) (Hp : is_Some (nb_lss db !! ls)) (Hpv : private_ok cidrBlock nodes allow) :
  exists db', reconcile_subnet_acls patch ls cidrBlock nodes true allow [] ew db = Done (Ok (), db') /\
    forall p : packet addr,
    (verdict (acls_at LogicalSwitchKey ls db') ACLActionAllowRelated p <-> private_passes cidrBlock nodes allow p) /\
    (verdict (acls_at LogicalSwitchKey ls db') ACLActionDrop p <-> is_ip p /\ ~ private_passes cidrBlock nodes allow p).
Proof.
  destruct (reconcile_subnet_changes patch ls cidrBlock nodes true allow [] ew db Hpatch Hls Hok Ha Hp Hpv ltac:(done)) as (db1 & E1 & C1).
  exists db1. split; [done|]. intros p. rewrite (ch_acls _ _ _ _ _ C1). unfold subnet_wanted, base_wanted, listed_wanted. rewrite filter_nil, app_nil_r.
  by apply private_verdict.
Qed.

End Packets.

(** The repairs of the table at the start.  [MigrateACLTier] gives every ACL
    of tier 0 the tier of network policies and changes nothing else; then
    [CleanNoParentKeyAcls] removes from every port group and switch exactly the
    rows of this program that do not name their parent, and leaves those of other
    programs alone. *)
Theorem acl_table_repaired (db : NbDB) (Hu : unique_rows db) (Ha : accepting db) :
  MigrateACLTier db = Done (Ok (), map_rows migrated db) /\
  exists db', CleanNoParentKeyAcls db = Done (Ok (), db') /\ nb_obj db' = nb_obj db /\ nb_meters db' = nb_meters db /\
    forall t p, parent_type t -> parents t db' !! p = filter (fun r : row => orphan r.2 = false) <$> (parents t db !! p).
Proof. split; [by apply MigrateACLTier_ok|by apply CleanNoParentKeyAcls_ok]. Qed.

(** ** A switch with an ACL of its own *)

Definition old_acl : ACL := bare_acl "ovn-default" ACLDirectionToLport "1000" "ip" ACLActionAllow 0.

Definition lost_acl : ACL := mkACL None ACLActionDrop ACLDirectionToLport "ip" 1000 {["vendor" := CniTypeName]} 2 false None None ∅.

Definition demo_switch : NbDB := mkNb ∅ {["ovn-default" := [(3%N, old_acl)]]} ∅ (mkObj ∅ ∅ ∅ {["ovn-default" := ∅]} ∅) 4 [].

Lemma demo_switch_ok : nb_ok demo_switch.
Proof.
  split.
  - vm_compute. apply NoDup_singleton.
  - vm_compute. constructor; [reflexivity|constructor].
  - intros t p rows [-> | ->] Hr; [exfalso; by apply (lookup_empty_Some (M := gmap string) p rows)|].
    change (({["ovn-default" := [(3%N, old_acl)]]} : gmap string (list row)) !! p = Some rows) in Hr. apply lookup_singleton_Some in Hr as [<- <-]. constructor; [reflexivity|constructor].
  - cbn. set_solver.
Qed.

Lemma demo_private : private_ok "10.16.0.0/16,fd00:10:16::/112" "100.64.0.0/16,fd00:100:64::/112" [" 10.17.0.0/16"; ""].
Proof. split; by_eval. Qed.

Definition demo_listed : SubnetACL := mkSubnetACL ACLDirectionFromLport 1111 "ip4.dst == 8.8.8.8" ACLActionDrop.


#[local] Instance demo_networks : Ovn Z := {|
  group_has _ _ := false;
  set_has _ _ := false;
  text_has t a := if bool_decide (t = "10.16.0.0/16") then a =? 16 else if bool_decide (t = "10.17.0.0/16") then a =? 17
                  else if bool_decide (t = "100.64.0.0/16") then a =? 64 else false
|}.

Definition between (src dst : Z) : packet Z := mkPacket "" "web-1" "ip4" src dst "tcp" 40000 80.

(** The allowed network and the nodes get in, another network does not. *)
Lemma private_subnet_exact_witness : exists db', reconcile_subnet_acls (fun _ => None) "ovn-default" "10.16.0.0/16,fd00:10:16::/112" "100.64.0.0/16,fd00:100:64::/112" true
    [" 10.17.0.0/16"; ""] [] false demo_switch = Done (Ok (), db') /\
  verdict (acls_at LogicalSwitchKey "ovn-default" db') ACLActionAllowRelated (between 17 16) /\
  verdict (acls_at LogicalSwitchKey "ovn-default" db') ACLActionAllowRelated (between 64 16) /\
  verdict (acls_at LogicalSwitchKey "ovn-default" db') ACLActionDrop (between 18 16).
Proof.
  destruct (private_subnet_exact (fun _ => None) "ovn-default" "10.16.0.0/16,fd00:10:16::/112" "100.64.0.0/16,fd00:100:64::/112" [" 10.17.0.0/16"; ""] false demo_switch)
    as (db' & E & Hv).
  - reflexivity.
  - discriminate.
  - exact demo_switch_ok.
  - reflexivity.
  - by eexists.
  - exact demo_private.
  - exists db'. split; [exact E|]. unfold private_passes in Hv. split; [|split].
    + apply (proj1 (Hv (between 17 16))). by_eval.
    + apply (proj1 (Hv (between 64 16))). by_eval.
    + apply (proj2 (Hv (between 18 16))). split; [left; reflexivity|]. by_eval.
Defined.

(** An ACL of tier 0 moves, and one without a parent goes. *)
Lemma acl_table_repaired_witness : exists db1 db2,
  MigrateACLTier (mkNb ∅ {["ovn-default" := [(3%N, old_acl); (4%N, lost_acl)]]} ∅ (mkObj ∅ ∅ ∅ ∅ ∅) 5 []) = Done (Ok (), db1) /\
  nb_lss db1 !! "ovn-default" = Some [(3%N, set_tier 2 old_acl); (4%N, lost_acl)] /\
  CleanNoParentKeyAcls (mkNb ∅ {["ovn-default" := [(3%N, old_acl); (4%N, lost_acl)]]} ∅ (mkObj ∅ ∅ ∅ ∅ ∅) 5 []) = Done (Ok (), db2) /\
  nb_lss db2 !! "ovn-default" = Some [(3%N, old_acl)].
Proof.
  destruct (acl_table_repaired (mkNb ∅ {["ovn-default" := [(3%N, old_acl); (4%N, lost_acl)]]} ∅ (mkObj ∅ ∅ ∅ ∅ ∅) 5 [])) as (E1 & db2 & E2 & _ & _ & Hrows).
  - unfold unique_rows. by_eval.
  - reflexivity.
  - eexists. exists db2. split; [exact E1|]. split; [reflexivity|]. split; [exact E2|].
    etransitivity; [exact (Hrows LogicalSwitchKey "ovn-default" (or_intror eq_refl))|reflexivity].
Defined.

(** ** Static routes *)

(** C23: setting the next hops of a table, policy and prefix, without BFD, always
    succeeds on a server that accepts.  Afterwards the routes of the router with
    this table, policy and prefix have exactly the given next hops, one route each
    where it was so before; a route that had a wanted next hop is the same row;
    routes to other prefixes, the policies and the other routers are as they were;
    and calling again changes nothing. *)
Theorem static_routes_set (lrName : string) (lr : N) (routeTable policy ipPrefix : string) (ids : gmap string string) (nexthops : list string) (db : RouterDB)
    (Hlr : get_router lrName db = Ok lr) (Hok : r_ok db) (Ha : server_accepts db) (Hname : lrName <> "") (Hp : ipPrefix <> "") :
  exists db', AddLogicalRouterStaticRoute lrName routeTable policy ipPrefix None ids nexthops db = Done (Ok (), db') /\
    (forall h, h ∈ nexthops <-> exists u r, routes_at lr db' !! u = Some r /\ route_in_group routeTable policy ipPrefix r /\ rt_Nexthop r = h) /\
    (NoDup nexthops -> one_per_hop routeTable policy ipPrefix (routes_at lr db) -> one_per_hop routeTable policy ipPrefix (routes_at lr db')) /\
    (forall u r, routes_at lr db !! u = Some r -> (route_in_group routeTable policy ipPrefix r -> rt_Nexthop r ∈ nexthops) -> routes_at lr db' !! u = Some r) /\
    (forall u r, routes_at lr db' !! u = Some r -> ~ route_in_group routeTable policy ipPrefix r -> routes_at lr db !! u = Some r) /\
    policies_at lr db' = policies_at lr db /\
    (forall lr', lr' <> lr -> routes_at lr' db' = routes_at lr' db /\ policies_at lr' db' = policies_at lr' db) /\
    AddLogicalRouterStaticRoute lrName routeTable policy ipPrefix None ids nexthops db' = Done (Ok (), db').
Proof.
  destruct (AddLogicalRouterStaticRoute_sets lrName lr routeTable policy ipPrefix ids nexthops db Hlr Hok Ha Hname Hp) as (n & Hn & db' & E & C).
  assert (Hold : forall u r, routes_at lr db !! u = Some r -> (u < n)%N).
  { intros u r [Hr _]%of_router_lookup. pose proof (ch_rows_old _ _ (rok_routes _ Hok) _ _ Hr). lia. }
  pose proof (group_set_hops routeTable policy ipPrefix Hp ids nexthops n _ Hold) as Hh. pose proof (group_set_lookup routeTable policy ipPrefix ids nexthops n _ Hold) as Hl.
  rewrite <-(chg_routes _ _ _ _ _ C) in Hh. exists db'. split; [done|]. split; [done|]. split_and!.
  - rewrite (chg_routes _ _ _ _ _ C). by apply group_set_once.
  - intros u r Hr Hg. rewrite (chg_routes _ _ _ _ _ C). apply Hl. by right.
  - intros u r Hr Hg. rewrite (chg_routes _ _ _ _ _ C) in Hr. apply Hl in Hr as [Hr|[Hr _]]; [|done].
    by destruct (new_hop routeTable policy ipPrefix Hp ids nexthops n _ u r Hr).
  - apply C.
  - apply C.
  - apply (AddLogicalRouterStaticRoute_again lrName lr); [by rewrite (get_router_changed _ _ _ _ _ _ C)|done|done].
Qed.

(** ** Policies *)

(** C22: adding policies with different priorities or matches in a batch does what
    adding them one by one does: both succeed on a server that accepts, and after
    either exactly one policy of the router has the priority and match of each
    given one, does what it does and has its external ids (an old one where one of
    those that were there does), every other policy, the routes and the other
    routers are as they were. *)
Theorem policies_batched {i : PolicyIndex} {Hix : PolicyIndexOk i} (lrName : string) (lr : N) (ps : list LogicalRouterPolicy) (db : RouterDB)
    (Hlr : get_router lrName db = Ok lr) (Hok : r_ok db) (Ha : server_accepts db) (Hfind : Forall findable ps) (Hps : NoDup (key_pair <$> ps)) (Hne : ps <> []) :
  exists db1 db2, BatchAddLogicalRouterPolicy lrName ps db = Done (Ok (), db1) /\ each (add_policy lrName) ps db = Done (Ok (), db2) /\
    policies_given ps (policies_at lr db) (policies_at lr db1) /\ policies_given ps (policies_at lr db) (policies_at lr db2) /\
    changed lr (routes_at lr db) (policies_at lr db1) db db1 /\ changed lr (routes_at lr db) (policies_at lr db2) db db2.
Proof.
  destruct (BatchAddLogicalRouterPolicy_does lrName lr ps Hfind Hps db Hlr Hok Ha Hne) as (rows1 & (db1 & E1 & C1) & Hi1 & Ho1).
  destruct (each_add_does lrName lr ps db Hps Hlr Hok Ha) as (rows2 & (db2 & E2 & C2) & Hg2).
  pose proof (chg_policies _ _ _ _ _ C1) as Ep1. pose proof (chg_policies _ _ _ _ _ C2) as Ep2. subst rows1 rows2. by exists db1, db2.
Qed.

(** ** VPCs *)

(** C11: the static routes and policies of a custom VPC.  For a specification that
    [formatVpc] lets through, whose tables have no colon and whose policies have
    known actions, with the routes of the subnets of the VPC, the reconciliation
    succeeds and leaves exactly what is wanted: every
    wanted route is there and every route of this program is wanted, every policy
    of the specification is there once and does what it says and every policy no
    other controller owns is one of the specification; what was wanted and there
    stays the same row, and what belongs to others stays.  The router may be in any
    state but for these conditions, and without them the claim is not true: two wanted
    routes to one prefix have BFD sessions of their own, and so have a wanted route
    and a wanted row of the router to one prefix ([ecmp_targets], [ecmp_rows]; without
    BFD the routes replace each other in every run, [Findings.ecmp_routes_of_vpc_flap]);
    the router has one policy for a priority and match, and items of the specification
    with one priority and match ask for the same ([one_per_key], [consistent]); no
    policy of another controller has the priority and match of one of the
    specification ([apart]); and the rows of this program can be told apart by their
    texts, as the ones it writes ([clean_rows], [clean_own_rows]). *)
Theorem vpc_routes_reconciled (key : string) (lr : N) (srs statics : list VpcStaticRoute) (prs policies : list VpcPolicyRoute) (subnets : list VpcSubnet) (db : RouterDB)
    (Hd : ready key lr db) (Hname : key <> "") (Hformat : formatVpc srs prs = Ok (statics, policies))
    (Htables : Forall (fun r => contains_char ":"%char (vr_RouteTable r) = false) srs)
    (Hactions : Forall (fun r => known_action (vp_Action r) /\ 0 <= vp_Priority r < 2 ^ 63) prs)
    (Hsubnets : Forall (fun t => clean_hop (hop_of t)) (subnet_routes key subnets))
    (Hecmp : ecmp_targets (custom_targets key subnets statics)) (Hrows : ecmp_rows (custom_targets key subnets statics) (routes_at lr db)) (Hclean : clean_rows (routes_at lr db))
    (Hcons : consistent policies) (Hone : one_per_key (policies_at lr db)) (Hapart : apart policies (policies_at lr db)) (Hown : clean_own_rows (policies_at lr db)) :
  exists db', reconcile_routes key None (custom_targets key subnets statics) policies db = Done (Ok (), db') /\
    reconciled (custom_targets key subnets statics) (routes_at lr db) (routes_at lr db') /\
    policies_reconciled policies (policies_at lr db) (policies_at lr db') /\
    (forall lr', lr' <> lr -> routes_at lr' db' = routes_at lr' db /\ policies_at lr' db' = policies_at lr' db).
Proof.
  destruct (format_clean srs prs statics policies Hformat Htables Hactions) as [Hcs Hcp].
  assert (Hct : Forall (fun t => clean_hop (hop_of t)) (custom_targets key subnets statics)) by (by apply Forall_app).
  destruct (reconcile_static_routes_does key lr _ Hname Hct db Hd Hecmp Hrows Hclean) as (routes' & (db1 & E1 & C1) & Hr).
  pose proof (chg_policies _ _ _ _ _ C1) as Ep. destruct (reconcile_policy_routes_does key lr policies Hname db1) as (rows' & (db2 & E2 & C2) & Hp);
    [by eapply ready_changed|done|done|by rewrite Ep..|]. rewrite Ep in Hp.
  exists db2. unfold reconcile_routes. rewrite (lbind_done _ _ _ _ _ E1). split; [done|].
  rewrite (chg_policies _ _ _ _ _ C2), (chg_routes _ _ _ _ _ C2), (chg_routes _ _ _ _ _ C1). split; [done|]. split; [done|].
  apply (changed_trans _ _ _ _ _ _ _ _ C1 C2).
Qed.

(** ** A router with routes and policies of several owners *)

Definition demo_stale_route : LogicalRouterStaticRoute := mkRoute None vendor_ids "10.9.0.0/16" "10.0.0.9" ∅ (Some "dst-ip") "".
Definition demo_foreign_route : LogicalRouterStaticRoute := mkRoute None ∅ "10.8.0.0/16" "10.0.0.8" ∅ None "".
Definition demo_stale_policy : LogicalRouterPolicy := mkPolicy "allow" [] vendor_ids "ip4.dst == 10.7.0.0/16" None [] 100.
Definition demo_subnet_policy : LogicalRouterPolicy := mkPolicy "reroute" [] {["subnet" := "join"]} "ip4.src == 10.16.0.0/16" None ["100.64.0.2"] 29000.

Definition demo_router : RouterDB :=
  mkRdb {[1%N := mkLr "vpc" vendor_ids]}
        (mkCh {[1%N := {[10%N; 11%N]}]} {[10%N := demo_stale_route; 11%N := demo_foreign_route]})
        (mkCh {[1%N := {[12%N; 13%N]}]} {[12%N := demo_stale_policy; 13%N := demo_subnet_policy]}) 20 [].

Lemma demo_router_ready : ready "vpc" 1 demo_router.
Proof. split; [reflexivity|split; apply one_router_ok; vm_compute; reflexivity|reflexivity]. Defined.

Lemma demo_router_routes u r : routes_at 1 demo_router !! u = Some r -> r = demo_stale_route \/ r = demo_foreign_route.
Proof.
  intros [Hr _]%of_router_lookup. cbn in Hr. apply lookup_insert_Some in Hr as [[_ <-]|[_ [_ <-]%lookup_singleton_Some]]; [by left|by right].
Defined.

Lemma demo_router_policies u q : policies_at 1 demo_router !! u = Some q -> u = 12%N /\ q = demo_stale_policy \/ u = 13%N /\ q = demo_subnet_policy.
Proof.
  intros [Hr _]%of_router_lookup. cbn in Hr. apply lookup_insert_Some in Hr as [[<- <-]|[_ [<- <-]%lookup_singleton_Some]]; [by left|by right].
Defined.

Lemma static_routes_set_witness : exists db',
  AddLogicalRouterStaticRoute "vpc" "" "" "10.9.0.0/16" None vendor_ids ["10.0.0.1"; "10.0.0.2"] demo_router = Done (Ok (), db') /\
  (exists u r, routes_at 1 db' !! u = Some r /\ route_in_group "" "" "10.9.0.0/16" r /\ rt_Nexthop r = "10.0.0.2") /\
  routes_at 1 db' !! 11%N = Some demo_foreign_route.
Proof.
  destruct demo_router_ready as [Hlr Hok Ha].
  destruct (static_routes_set "vpc" 1 "" "" "10.9.0.0/16" vendor_ids ["10.0.0.1"; "10.0.0.2"] demo_router Hlr Hok Ha ltac:(discriminate) ltac:(discriminate))
    as (db' & E & Hh & _ & Hk & _). exists db'. split; [exact E|]. split.
  - apply Hh. right. left.
  - apply Hk; [vm_compute; reflexivity|]. intros (_ & _ & Hx). discriminate.
Defined.

#[local] Instance demo_index : PolicyIndex := fun keys rows =>
  filter (fun kv => Exists (fun k => lp_Priority k = lp_Priority kv.2 /\ lp_Match k = lp_Match kv.2) keys) (map_to_list rows).

#[local] Instance demo_index_ok : PolicyIndexOk demo_index.
Proof.
  split.
  - intros keys rows u p _. unfold by_index, demo_index. rewrite list_elem_of_filter, elem_of_map_to_list, Exists_exists. cbn. tauto.
  - intros keys rows _. apply NoDup_fst_filter, NoDup_fst_map_to_list.
Defined.

Definition demo_policies : list LogicalRouterPolicy :=
  [mkPolicy "drop" [] vendor_ids "ip4.dst == 10.7.0.0/16" None [] 100; mkPolicy "reroute" [] vendor_ids "ip4.src == 10.6.0.0/16" None ["10.0.0.3"] 200].

Lemma policies_batched_witness : exists db', BatchAddLogicalRouterPolicy "vpc" demo_policies demo_router = Done (Ok (), db') /\
  policies_given demo_policies (policies_at 1 demo_router) (policies_at 1 db').
Proof.
  destruct demo_router_ready as [Hlr Hok Ha].
  destruct (policies_batched "vpc" 1 demo_policies demo_router Hlr Hok Ha) as (db1 & _ & E & _ & Hg & _).
  - apply Forall_cons. split; [|apply Forall_singleton]; vm_compute; split_and!; done.
  - by_eval.
  - discriminate.
  - exists db1. split; [exact E|exact Hg].
Defined.

Definition demo_static : VpcStaticRoute := mkVr "" "10.5.0.0/16" "10.0.0.5" "" "" "".
Definition demo_reroute : VpcPolicyRoute := mkVp 300 "ip4.src == 10.4.0.0/16" LogicalRouterPolicyActionReroute "10.0.0.4,10.0.0.6".
Definition demo_vpc_subnet : VpcSubnet := mkVpcSubnet "vpc" "10.16.0.1" "10.16.0.0/16" "rt".
Definition demo_formatted : VpcStaticRoute := mkVr PolicyDst "10.5.0.0/16" "10.0.0.5" "" "" "".
Definition demo_by_source : VpcStaticRoute := mkVr PolicySrc "10.16.0.0/16" "10.16.0.1" "" "" "rt".
Definition demo_wanted : list VpcStaticRoute := [demo_formatted; demo_by_source].

Lemma demo_wanted_cases t : t ∈ demo_wanted -> t = demo_formatted \/ t = demo_by_source.
Proof. unfold demo_wanted. set_solver. Defined.

Lemma vpc_routes_reconciled_witness : exists db',
  reconcile_routes "vpc" None (custom_targets "vpc" [demo_vpc_subnet] [demo_formatted]) [demo_reroute] demo_router = Done (Ok (), db') /\
  policies_reconciled [demo_reroute] (policies_at 1 demo_router) (policies_at 1 db').
Proof.
  destruct (vpc_routes_reconciled "vpc" 1 [demo_static] [demo_formatted] [demo_reroute] [demo_reroute] [demo_vpc_subnet] demo_router) as (db' & E & _ & Hp & _).
  - exact demo_router_ready.
  - discriminate.
  - vm_compute. reflexivity.
  - apply Forall_singleton. reflexivity.
  - apply Forall_singleton. split; [right; right; reflexivity|split; [discriminate|reflexivity]].
  - vm_compute. apply Forall_singleton. split_and!; [reflexivity|right; reflexivity|reflexivity|discriminate|discriminate].
  - change (ecmp_targets demo_wanted). intros t t' Ht Ht' E1 E2. exfalso.
    apply demo_wanted_cases in Ht as [->| ->]; apply demo_wanted_cases in Ht' as [->| ->]; first [discriminate E1|apply E2; reflexivity].
  - change (ecmp_rows demo_wanted (routes_at 1 demo_router)). intros u r t Hr Hw Ht E1 E2. exfalso.
    apply list_elem_of_fmap in Hw as (t' & Ew & Ht').
    apply demo_router_routes in Hr as [->| ->]; apply demo_wanted_cases in Ht' as [->| ->]; discriminate Ew.
  - intros u r Hr Hm. apply demo_router_routes in Hr as [->| ->].
    + split_and!; [reflexivity|left; reflexivity|reflexivity|discriminate|discriminate].
    + destruct Hm as [Hm]. vm_compute in Hm. discriminate.
  - intros t t' q Ht%list_elem_of_singleton Ht'%list_elem_of_singleton _ Hq. subst. exact Hq.
  - intros u v q q' Hu Hv E1 E2. apply demo_router_policies in Hu as [[-> ->]|[-> ->]]; apply demo_router_policies in Hv as [[-> ->]|[-> ->]]; first [reflexivity|discriminate E1].
  - intros u q t Hu _ Ht%list_elem_of_singleton Hk. subst. apply demo_router_policies in Hu as [[-> ->]|[-> ->]]; discriminate Hk.
  - intros u q Hu Hown. apply demo_router_policies in Hu as [[-> ->]|[-> ->]]; [|vm_compute in Hown; discriminate].
    split; [split; [discriminate|reflexivity]|]. split; [left; reflexivity|]. split; [reflexivity|constructor].
  - exists db'. split; [exact E|exact Hp].
Defined.
