(* ===== verification/NpTheorems.v ===== *)
(** * Theorems on the network policy controller

    From a policy and the caches to the packets that pass; what removing a policy
    leaves; the pods that need no run of the handler; the numbers of named ports. *)
From Stdlib Require Import Ascii.
From S2P Require Import Prelude GoStrings GoNet GoNetText UtilNet Validator GoText PodAddress AclMatch NbDb NbDhcp NbLsp NbGroups NbAcl NbAclFacts NbDhcpFacts NbLspFacts NbWorld PolicyAcl AclMeaning PolicyFacts PolicyVerdict SgTable LsAcl LsAclFacts PodNets NamedPort NetworkPolicy NetworkPolicyFacts NpDirection NpHandler NpSpec NpEvents Demo.

Local Open Scope Z_scope.

Section Theorems.

Context {addr sel : Type} `{Inhabited addr} (LabelSelectorAsSelector : sel -> result (gmap string string -> bool)) `{Multus} (c : NpCluster sel) (th : string -> addr -> bool).

(** C5: [handleUpdateNp] makes the database enforce the policy.  The database is
    well-formed, an ACL that the port group of the policy holds has a direction, and
    an address set with a name of the policy belongs to it ([np_world]); what the
    port group and these sets hold is arbitrary.  The caches hold what the policy
    refers to ([np_ready]).  Then the handler succeeds, the port group has exactly
    the selected ports that exist, and of the ACLs of a direction with rules the
    highest priority lets a packet pass exactly when some rule admits it (its other
    end is an address of a pod the selectors of a peer match, or in a block and in
    no exception, and its port is one of the rule), or it is DHCP and the policy is
    lax, or ICMP of IPv6 through a strict policy with IPv6.  Of the packets of the
    selected ports that do not pass, a standard policy drops all that are IP, and a
    lax one those of TCP, UDP and SCTP; no other packet is dropped (ICMP is let
    through by a lax policy).  A direction without rules drops nothing.  Other
    groups, ports, switches and address sets stay as they are, and the database is
    again one the handler can start from. *)
Theorem network_policy_enforced walkIngress walkEgress key np ports ps db :
  SplitMetaNamespaceKey key = Some (np_Namespace np, np_Name np) -> find_policy c (np_Namespace np) (np_Name np) = Some np ->
  np_ready LabelSelectorAsSelector c key np ports ps -> np_world c key np db -> walkIngress ps ≡ₚ elements ps -> walkEgress ps ≡ₚ elements ps ->
  Forall (fun ns => ns.1 <> "") (npc_namespaces c) -> Forall peer_valid (all_peers np) ->
  exists db', handleUpdateNp LabelSelectorAsSelector c walkIngress walkEgress key db = Done (Ok (), db') /\
    policy_enforced LabelSelectorAsSelector c th key np db db'.
Proof.
  intros Hk Hf Hr Hw Hi He Hns Hv. unfold handleUpdateNp. rewrite Hk, Hf. destruct (update_policy_ok LabelSelectorAsSelector c th key np ports ps walkIngress walkEgress db) as (db' & E & Hn); [done..|].
  exists db'. split; [done|]. by eapply enforced_policy.
Qed.

(** C12: [handleDeleteNp] takes back what [handleUpdateNp] has put into the database: the port
    group with its ACLs, both meters and every address set with a name of the
    policy are gone, and other groups, sets, meters, ports and switches stay. *)
Theorem network_policy_removed key np db :
  SplitMetaNamespaceKey key = Some (np_Namespace np, np_Name np) -> dns_name (np_Name np) -> dns_name (np_Namespace np) -> np_world c key np db ->
  exists db', handleDeleteNp key db = Done (Ok (), db') /\ np_removed c key np db db'.
Proof. apply handleDeleteNp_ok. Qed.

(** C13: the event of a pod queues the policies it matters to.  Take a policy that the
    event of a new pod with an address, or of a deleted pod, does not queue, and
    whose rules name no port that the event gives another number (the same event
    changes the table of named ports).  Then the policy is not affected:
    [handleUpdateNp] with the pods and the table after the event does to every
    database what it did with those before, or fails in the same way.  Peers with
    selectors have no block, as the API demands. *)
Theorem unqueued_policy_unaffected walkIngress walkEgress before after po labels np (n n' : NamedPort) queue queue' db :
  npc_pods c = before ++ po :: after -> po_HostNetwork po = false -> (Pod_Namespace (po_pod po), labels) ∈ npc_namespaces c -> NoDup (npc_namespaces c).*1 ->
  Forall (fun ns => ns.1 <> "") (npc_namespaces c) -> dns_name (np_Name np) -> dns_name (np_Namespace np) -> find_policy c (np_Namespace np) (np_Name np) = Some np ->
  Forall (fun npp => peer_IPBlock npp = None \/ (peer_PodSelector npp = None /\ peer_NamespaceSelector npp = None)) (all_peers np) ->
  np_key np ∉ queue' -> same_numbers (policy_port_names np) (GetNamedPortByNs (np_Namespace np) n) (GetNamedPortByNs (np_Namespace np) n') ->
  let handle pods table := handleUpdateNp LabelSelectorAsSelector (with_named table (with_pods pods c)) walkIngress walkEgress (np_key np) db in
  (forall podIP, podIP <> "" -> enqueueAddPod_np LabelSelectorAsSelector c true podIP po (n, queue) = Done (n', queue') ->
    handle (before ++ after) n = handle (before ++ po :: after) n') /\
  (enqueueDeletePod_np LabelSelectorAsSelector c true po (n, queue) = Done (n', queue') ->
    handle (before ++ po :: after) n = handle (before ++ after) n').
Proof.
  intros Hp Hh Hns Hnd Hne Hn Hs Hf Hb Hk Hnum handle.
  assert (Hm : forall keys, podMatchNetworkPolicies LabelSelectorAsSelector c po = Done keys -> np_key np ∉ keys ->
    forall t, handle (before ++ po :: after) t = handle (before ++ after) t).
  { intros keys Em Hnk t. destruct (find_policy_elem _ _ _ _ Hf) as (Hin & _ & _).
    destruct (podMatch_unqueued LabelSelectorAsSelector c po labels np keys Hns Em Hin Hnk) as (labels' & Hns' & Hm).
    unfold handle, handleUpdateNp. rewrite (key_splits np Hn Hs). change (find_policy (with_named t (with_pods _ c))) with (find_policy c). rewrite Hf.
    by apply (update_without LabelSelectorAsSelector (with_named t (with_pods (before ++ po :: after) c)) before after po labels'); [..|apply Hs| |]. }
  assert (Ht : forall pods, handle pods n = handle pods n').
  { intros pods. unfold handle, handleUpdateNp. rewrite (key_splits np Hn Hs). change (find_policy (with_named _ (with_pods _ c))) with (find_policy c). rewrite Hf.
    by apply (update_numbers LabelSelectorAsSelector (with_named n (with_pods pods c)) n'). }
  unfold enqueueAddPod_np, enqueueDeletePod_np. rewrite Hh. cbn [negb]. destruct (podMatchNetworkPolicies LabelSelectorAsSelector c po) as [keys| |]; cbn [mbind outcome_bind].
  2-3: split; [intros podIP Hip; destruct podIP; [by destruct Hip|discriminate]|discriminate].
  assert (Hsub : reverse keys ++ queue = queue' -> np_key np ∉ keys) by (intros <- Hx; apply Hk, elem_of_app; left; by apply elem_of_reverse).
  split.
  - intros podIP Hip. destruct podIP; [by destruct Hip|]. cbn [nonempty]. intros [= _ Hq]. rewrite <-(Hm keys eq_refl (Hsub Hq)). apply Ht.
  - intros [= _ Hq]. rewrite (Hm keys eq_refl (Hsub Hq)). apply Ht.
Qed.

(** An update of a policy that [enqueueUpdateNp] does not queue changes nothing: the
    handler does the same with the old and with the new object in the cache. *)
Theorem unqueued_update_unaffected `{EqDecision sel} walkIngress walkEgress old new policies db :
  np_Namespace old = np_Namespace new -> np_Name old = np_Name new -> dns_name (np_Name new) -> dns_name (np_Namespace new) ->
  find_policy c (np_Namespace old) (np_Name old) = Some old -> find_policy (with_policies c policies) (np_Namespace new) (np_Name new) = Some new ->
  enqueueUpdateNp old new [] = [] ->
  handleUpdateNp LabelSelectorAsSelector c walkIngress walkEgress (np_key new) db =
  handleUpdateNp LabelSelectorAsSelector (with_policies c policies) walkIngress walkEgress (np_key new) db.
Proof.
  intros En Em Hn Hs Ho Hw Hq. unfold handleUpdateNp. rewrite (key_splits new Hn Hs), Hw. rewrite <-En, <-Em, Ho. by apply update_same.
Qed.

End Theorems.

(** C14: the number a policy reads for a named port is right: after any additions, updates
    and deletions of pods whose ports agree within a namespace, the table gives a
    number for a name exactly when a live pod of the namespace declares the name,
    and it is the number the pods agree on. *)
Theorem named_ports_tracked number n live : rtc (pod_event number) (NewNamedPort, ∅) (n, live) -> forall ns name id,
  GetNamedPortByNs ns n !! name = Some id <->
  id = number ns name /\ exists pod po, live !! (ns, pod) = Some po /\ name ∈ names_of po.
Proof. apply events_numbers. Qed.

(** ** Witnesses *)

(** A selector asks for one label. *)
Definition one_label (s : string * string) : result (gmap string string -> bool) := Ok (fun labels => bool_decide (labels !! s.1 = Some s.2)).

(** No pod here has attachments. *)
#[global] Instance no_attachments : Multus := {|
  ParseNetworkAnnotation annot ns := Err (Errorf "parsePodNetworkObjectName: invalid network annotation %s" [annot]);
  unmarshal_conf bytes := Ok ("", "");
  LoadDelegateNetConfList bytes := Ok []
|}.

Definition np_subnet : SubnetSpec :=
  mkSpec "ovn-default" "ovn-cluster" "" "10.16.0.0/16" "10.16.0.1" "IPv4" "distributed" [] [] [] 0 true "" 0 false false "" false [] "ovn".

Definition np_pod (ns name app ip : string) (ports : list ContainerPort) : PodObject :=
  mkPodObject (mkPod ns name {[LogicalSwitchAnnotation := "ovn-default"; template "ovn" "allocated" := "true"; template "ovn" "ip_address" := ip]} [])
    {["app" := app]} false false [] [mkContainer None ports].

Definition np_policy : NetworkPolicy (string * string) :=
  mkNp "shop" "web-in" ∅ (mkNpSpec ("app", "web") ["Ingress"]
    (Some [mkPolicyRule [mkPolicyPort (Some "TCP") (Some (StrVal "http")) None] [mkPeer (Some ("app", "front")) None None]]) None).

Definition web_pod : PodObject := np_pod "shop" "web" "web" "10.16.0.4" [mkContainerPort "http" 8080].

Definition np_cluster : NpCluster (string * string) :=
  mkNpCluster
    (mkNetCluster (mkCluster {["ovn-default" := np_subnet]} {["shop" := Some ∅]} ∅ ∅ [] "ovn-cluster" false (fun _ _ => None))
       [np_subnet] (fun _ => (100, 0)) ∅ false)
    [web_pod; np_pod "shop" "front" "front" "10.16.0.5" []; np_pod "shop" "db" "db" "10.16.0.6" []]
    [("shop", ∅)] [np_policy] (AddNamedPortByPod web_pod NewNamedPort) "standard".

Definition np_port (u : N) (name : string) : LogicalSwitchPort := mkLsp u name "" [] [] ∅ ∅ None None None.

Definition np_db : NbDB :=
  mkNb ∅ {["ovn-default" := []]} ∅
    (mkObj ∅ ∅ {["web.shop" := np_port 7 "web.shop"; "front.shop" := np_port 8 "front.shop"]} {["ovn-default" := {[7%N; 8%N]}]} ∅) 9 [].

Lemma np_lsps name l : o_lsps (nb_obj np_db) !! name = Some l -> (name = "web.shop" /\ l = np_port 7 "web.shop") \/ (name = "front.shop" /\ l = np_port 8 "front.shop").
Proof. cbn. rewrite lookup_insert_Some, lookup_singleton_Some. intros [[<- <-]|[_ [<- <-]]]; [by left|by right]. Qed.

Lemma np_db_ok : np_world np_cluster "shop/web-in" np_policy np_db.
Proof.
  split.
  - split; [split|reflexivity|reflexivity|].
    + vm_compute. constructor.
    + vm_compute. constructor.
    + intros t p rows [-> | ->] Hr; [by apply (lookup_empty_Some (M := gmap string) p rows) in Hr|]. unfold parents in Hr. cbn in Hr. by apply lookup_singleton_Some in Hr as [_ <-].
    + cbn. set_solver.
    + intros name l Hl. by destruct (np_lsps name l Hl) as [[-> ->]|[-> ->]].
  - intros n1 n2 l1 l2 H1 H2. by destruct (np_lsps n1 l1 H1) as [[-> ->]|[-> ->]], (np_lsps n2 l2 H2) as [[-> ->]|[-> ->]].
  - reflexivity.
  - constructor.
  - intros ingress kind protocol idx _ _ [x Hx]. change (o_sets (nb_obj np_db)) with (∅ : gmap string AddressSet) in Hx. by rewrite lookup_empty in Hx.
Qed.

Lemma np_policy_ready : np_ready one_label np_cluster "shop/web-in" np_policy ["web.shop"] {[ProtocolIPv4]}.
Proof.
  split.
  - by_eval.
  - by_eval.
  - exists ["ovn-default"]. split; vm_compute; reflexivity.
  - intros protocol ->%elem_of_singleton. by left.
  - change (np_Namespace np_policy) with "shop". assert (E : GetNamedPortByNs "shop" (npc_named np_cluster) = {["http" := 8080]}) by (vm_compute; reflexivity).
    rewrite E. unfold named_ok. apply map_Forall_singleton. reflexivity.
  - intros protocol ingress ->%elem_of_singleton. destruct ingress; [|constructor]. apply Forall_singleton. split; [vm_compute; reflexivity|]. by_eval.
  - by intros [].
Qed.

(** Texts are addresses; an address is a number. *)
Definition np_texts (t : string) (a : Z) : bool := bool_decide (t = "10.16.0." +:+ Itoa a).

Definition np_packet (src dport : Z) : packet Z := mkPacket "" "web.shop" "ip4" src 4 "tcp" 40000 dport.

Lemma np_admits src dport : admitted one_label np_cluster np_texts "shop/web-in" np_policy ["web.shop"] {[ProtocolIPv4]} np_db true (np_packet src dport) <->
  np_texts "10.16.0.5" src = true /\ dport = 8080.
Proof.
  set (j := the_job np_cluster "shop/web-in" np_policy). set (rule := mkPolicyRule [mkPolicyPort (Some "TCP") (Some (StrVal "http")) None] [mkPeer (Some ("app", "front")) None None]).
  assert (Hr : rule_lets one_label np_cluster np_texts j true ProtocolIPv4 rule (np_packet src dport) <-> np_texts "10.16.0.5" src = true /\ dport = 8080).
  { unfold rule_lets. assert (Es : sources one_label np_cluster j ProtocolIPv4 rule = (["10.16.0.5"], [])) by (vm_compute; reflexivity). rewrite Es. cbn [fst snd].
    assert (En : j_named j = {["http" := 8080]}) by (vm_compute; reflexivity). rewrite En. rewrite Exists_cons, !Exists_nil. unfold ports_allow, rule. cbn [rule_Ports].
    rewrite Exists_cons, Exists_nil. unfold port_allows. cbn [np_Port np_Protocol np_EndPort]. rewrite lookup_singleton_eq.
    change (normalize "10.16.0.5") with "10.16.0.5". cbn [remote np_packet pk_src pk_dport pk_proto pk_family].
    split; [|by intros [? ->]; split_and!; [reflexivity|left; left|right; left]]. intros (_ & [[Ht|[]]|[]] & [?|[[_ Hd]|[]]]); [done|]. injection Hd as <-. by split. }
  unfold admitted, gateway_open. rewrite <-Hr. split.
  - intros [(_ & Hx & _)|[_ [[Hl _]|Hx]]]; [by apply elem_of_singleton in Hx|done|]. rewrite elements_singleton in Hx.
    apply Exists_exists in Hx as (protocol & ->%list_elem_of_singleton & Hx). apply Exists_exists in Hx as (rule' & ->%list_elem_of_singleton & Hx). exact Hx.
  - intros Hx. right. split; [split; [by left|by eexists]|]. right. rewrite elements_singleton. apply Exists_cons_hd, Exists_cons_hd. exact Hx.
Qed.

(** The front end reaches the port called http, and nobody else reaches anything. *)
Lemma network_policy_enforced_witness : exists db', handleUpdateNp one_label np_cluster elements elements "shop/web-in" np_db = Done (Ok (), db') /\
  let acls := way ACLDirectionToLport (acls_at portGroupKey "web.in.shop" db') in
  passes (H := ovn_of np_texts db') acls (np_packet 5 8080) /\ verdict (H := ovn_of np_texts db') acls ACLActionDrop (np_packet 6 8080) /\
  verdict (H := ovn_of np_texts db') acls ACLActionDrop (np_packet 5 22).
Proof.
  destruct (network_policy_enforced one_label np_cluster np_texts elements elements "shop/web-in" np_policy ["web.shop"] {[ProtocolIPv4]} np_db) as (db' & E & Hn).
  - vm_compute. reflexivity.
  - vm_compute. reflexivity.
  - exact np_policy_ready.
  - exact np_db_ok.
  - reflexivity.
  - reflexivity.
  - by apply Forall_singleton.
  - apply Forall_singleton. right. split; [reflexivity|by left].
  - exists db'. split; [exact E|]. cbv zeta.
    assert (V := fun src dport => pe_verdict _ _ _ _ _ _ _ Hn true (np_packet src dport) ltac:(vm_compute; reflexivity)). cbv zeta in V.
    assert (Hp : forall src dport, policy_admits one_label np_cluster np_texts np_policy np_db true (np_packet src dport) <-> np_texts "10.16.0.5" src = true /\ dport = 8080).
    { intros src dport. assert (Hx : admitted one_label np_cluster np_texts "shop/web-in" np_policy ["web.shop"] {[ProtocolIPv4]} np_db true (np_packet src dport) <->
        policy_admits one_label np_cluster np_texts np_policy np_db true (np_packet src dport)); [|by rewrite <-Hx; apply np_admits].
      apply admitted_policy; [by apply Forall_singleton|exact np_policy_ready|]. apply Forall_singleton. right. split; [reflexivity|by left]. }
    assert (Hc : forall src dport, concerned one_label np_cluster np_policy np_db true (np_packet src dport)).
    { intros src dport. apply (concerned_selected one_label np_cluster np_texts np_policy ["web.shop"] ["ovn-default"]); [discriminate|vm_compute; reflexivity|]. split; [by left|by eexists]. }
    assert (Ha : forall src dport, np_texts "10.16.0.5" src && bool_decide (dport = 8080) = false ->
      verdict (H := ovn_of np_texts db') (way ACLDirectionToLport (acls_at portGroupKey "web.in.shop" db')) ACLActionDrop (np_packet src dport)).
    { intros src dport Hf. apply (proj2 (V src dport)). split; [split; [apply Hc|by left]|]. rewrite Hp. intros [H1 H2].
      rewrite H1, bool_decide_true in Hf; done. }
    split_and!; [apply (proj1 (V 5 8080)), Hp; split; [vm_compute; reflexivity|reflexivity]|apply Ha; vm_compute; reflexivity..].
Defined.

(** The policy is installed and removed again. *)
Lemma network_policy_removed_witness : exists db1 db2,
  update_policy one_label np_cluster elements elements "shop/web-in" np_policy np_db = Done (Ok (), db1) /\ handleDeleteNp "shop/web-in" db1 = Done (Ok (), db2) /\
  nb_pgs db2 !! "web.in.shop" = None /\ o_sets (nb_obj db2) !! "web.in.shop.ingress.allow.IPv4.0" = None /\ o_lsps (nb_obj db2) = o_lsps (nb_obj np_db).
Proof.
  destruct (update_policy_ok one_label np_cluster np_texts "shop/web-in" np_policy ["web.shop"] {[ProtocolIPv4]} elements elements np_db np_policy_ready np_db_ok)
    as (db1 & E1 & Hn); [reflexivity|reflexivity|].
  destruct (network_policy_removed np_cluster "shop/web-in" np_policy db1) as (db2 & E2 & Hm).
  - vm_compute. reflexivity.
  - by_eval.
  - by_eval.
  - apply Hn.
  - exists db1, db2. split; [exact E1|]. split; [exact E2|]. split_and!.
    + rewrite (nm_rows _ _ _ _ _ Hm). apply lookup_delete_eq.
    + apply (nm_names _ _ _ _ _ Hm true "allow" ProtocolIPv4 "0"); [by left|by left].
    + rewrite (nm_lsps _ _ _ _ _ Hm). apply (ne_lsps _ _ _ _ _ _ _ _ _ Hn).
Defined.

(** The pod of the data base is neither selected nor a peer. *)
Definition np_other : PodObject := np_pod "shop" "db" "db" "10.16.0.6" [].

Lemma unqueued_policy_unaffected_witness :
  enqueueDeletePod_np one_label np_cluster true np_other (npc_named np_cluster, []) = Done (npc_named np_cluster, []) /\
  handleUpdateNp one_label np_cluster elements elements "shop/web-in" np_db =
  handleUpdateNp one_label (with_pods [web_pod; np_pod "shop" "front" "front" "10.16.0.5" []] np_cluster) elements elements "shop/web-in" np_db.
Proof.
  assert (Ev : enqueueDeletePod_np one_label np_cluster true np_other (npc_named np_cluster, []) = Done (npc_named np_cluster, [])) by (vm_compute; reflexivity).
  split; [exact Ev|].
  apply (unqueued_policy_unaffected one_label np_cluster elements elements [web_pod; np_pod "shop" "front" "front" "10.16.0.5" []] [] np_other ∅ np_policy
    (npc_named np_cluster) (npc_named np_cluster) [] [] np_db eq_refl).
  - reflexivity.
  - by left.
  - apply NoDup_singleton.
  - by apply Forall_singleton.
  - by_eval.
  - by_eval.
  - vm_compute. reflexivity.
  - apply Forall_singleton. by left.
  - apply not_elem_of_nil.
  - intros name _. reflexivity.
  - exact Ev.
Defined.

(** A note on the policy. *)
Definition np_noted : NetworkPolicy (string * string) := mkNp "shop" "web-in" {["team" := "shop"]} (np_Spec np_policy).

Lemma unqueued_update_unaffected_witness : enqueueUpdateNp np_policy np_noted [] = [] /\
  handleUpdateNp one_label np_cluster elements elements "shop/web-in" np_db =
  handleUpdateNp one_label (with_policies np_cluster [np_noted]) elements elements "shop/web-in" np_db.
Proof.
  assert (Eq : enqueueUpdateNp np_policy np_noted [] = []) by (vm_compute; reflexivity). split; [exact Eq|].
  apply (unqueued_update_unaffected one_label np_cluster elements elements np_policy np_noted [np_noted] np_db eq_refl eq_refl).
  - by_eval.
  - by_eval.
  - vm_compute. reflexivity.
  - vm_compute. reflexivity.
  - exact Eq.
Defined.

Lemma web_agrees : agrees (fun _ _ => 8080) web_pod.
Proof. intros name id _ (port & Hp & <- & <-). vm_compute in Hp. by apply list_elem_of_singleton in Hp as ->. Qed.

(** The table after the pod came, and after it has gone. *)
Lemma named_ports_tracked_witness :
  GetNamedPortByNs "shop" (AddNamedPortByPod web_pod NewNamedPort) !! "http" = Some 8080 /\
  GetNamedPortByNs "shop" (DeleteNamedPortByPod web_pod (AddNamedPortByPod web_pod NewNamedPort)) !! "http" = None.
Proof.
  assert (H1 : pod_event (fun _ _ => 8080) (NewNamedPort, ∅) (AddNamedPortByPod web_pod NewNamedPort, <[pod_key web_pod := web_pod]> ∅))
    by (apply pod_added; [exact web_agrees|by intros old]).
  split.
  - apply (named_ports_tracked (fun _ _ => 8080) (AddNamedPortByPod web_pod NewNamedPort) (<[pod_key web_pod := web_pod]> ∅) (rtc_once _ _ H1) "shop" "http" 8080).
    split; [reflexivity|]. exists "web", web_pod. split; [apply lookup_insert_eq|by_eval].
  - apply eq_None_not_Some. intros [id Hid]. revert Hid. refine (fun Hid => _ (proj1 (named_ports_tracked (fun _ _ => 8080) _ (delete (pod_key web_pod) (<[pod_key web_pod := web_pod]> ∅)) _ "shop" "http" id) Hid)).
    + intros (_ & pod & po & Hl & _). apply lookup_delete_Some in Hl as [Hne Hl]. apply lookup_insert_Some in Hl as [[? _]|[_ Hl]]; [done|]. by rewrite lookup_empty in Hl.
    + eapply rtc_l; [exact H1|]. apply rtc_once. eapply pod_deleted; [apply lookup_insert_eq|done].
Defined.
