(* ===== verification/Findings.v ===== *)
(** * Behaviours the models exposed

    Concrete runs of the modelled code, outside the preconditions of the
    theorems, that do not do what the code means to do. *)
From S2P Require Import Prelude.
From S2P Require Import GoStrings.
From S2P Require Import GoNet.
From S2P Require Import Ip.
From S2P Require Import IpRange.
From S2P Require Import IpRangeList.
From S2P Require Import UtilNet.
From S2P Require Import Hosts.
From S2P Require Import Subnet.
From S2P Require Import Ipam.
From S2P Require Import Validator.
From S2P Require Import Demo.
From S2P Require Import IpamTheorems.
From S2P Require Import GoText BfdControl BfdSupervisor ServiceCIDR PodAddress PodNetwork PodTheorems.
From S2P Require Import AclMatch NbDb NbDhcp NbLsp NbAcl NbAclFacts PolicyAcl SecurityGroup SgController LsAcl SgTheorems SwitchTheorems.
From S2P Require Import PodNets NamedPort NetworkPolicy NpTheorems.
From S2P Require Import NbRouter VpcRoutes.

Local Open Scope Z_scope.

(** Run calls one after the other; a call that does not return stops the run. *)
Definition run (s : Subnet) (ops : list (Subnet -> outcome Subnet)) : outcome Subnet :=
  foldl (fun o op => s' ← o; op s') (Done s) ops.

Definition static (pod nic : string) (ip : IP) (cc : bool) (s : Subnet) : outcome Subnet :=
  '(s', _, _) ← GetStaticAddress by_key pod nic ip (Some "") false cc s []; Done s'.

Definition random4 (pod nic : string) (s : Subnet) : outcome Subnet :=
  '(s', _, _) ← get_random by_key V4 "" pod nic (Some "") [] true s []; Done s'.

(** ** Networks *)

(** The first host of an IPv6 network below [::1:0:0:0] is printed as an IPv4
    address, because [BigInt2Ip] picks the family by the size of the number;
    the admission accepts such a network. *)
Example low_ipv6_first_host : FirstIP "::10:0/112" = Done (Ok "0.16.0.1").
Proof. vm_compute. reflexivity. Qed.

(** Three blocks pass the admission, and the subnet has no address to offer. *)
Definition three_blocks : SubnetSpec :=
  mkSpec "tenant-c" "vpc-a" "" "10.0.0.0/24,10.0.1.0/24,10.0.2.0/24" "" "" "" [] [] [] 0 false "" 0 false false "" false [] "".

Example three_blocks_accepted :
  ValidateSubnet "" three_blocks = Done None /\
  match NewSubnet "tenant-c" (CIDRBlock three_blocks) [] with
  | Done (Ok s) => fAvailable (sV4 s) = [] /\ sProtocol s = ProtocolIPv4
  | _ => False
  end.
Proof. vm_compute. repeat split; reflexivity. Qed.

(** ** Ranges at the border of a family *)

(** Taking 255.255.255.255 out of a range wraps to 0.0.0.0 and leaves the
    whole family in the list. *)
Example remove_broadcast_wraps :
  IPRange_Remove (NewIPRange [255; 255; 255; 254] [255; 255; 255; 255]) [255; 255; 255; 255] =
  ([NewIPRange [255; 255; 255; 254] [255; 255; 255; 254]; NewIPRange [0; 0; 0; 0] [255; 255; 255; 255]], true).
Proof. vm_compute. reflexivity. Qed.

(** ** Shared addresses *)

(** Two pods share an address; when both are gone the first nic still holds
    it, and a third pod gets it too. *)
Example shared_address_leaks :
  match run demo_subnet
          [ static "ns/a" "a" [10; 16; 0; 2] true; static "ns/b" "b" [10; 16; 0; 2] false;
            ReleaseAddressWithNicName by_key "ns/a" "a"; ReleaseAddressWithNicName by_key "ns/b" "b";
            random4 "ns/x" "x1"; random4 "ns/x" "x2"; random4 "ns/x" "x3"; random4 "ns/x" "x4"; random4 "ns/x" "x5" ] with
  | Done s => fNicToIP (sV4 s) !! "a" = Some [10; 16; 0; 2] /\ fNicToIP (sV4 s) !! "x5" = Some [10; 16; 0; 2]
  | _ => False
  end.
Proof. vm_compute. split; reflexivity. Qed.

(** A nic that holds an address but no MAC gets a second address from a random
    request without a MAC; the first one stays in use without a holder. *)
Example random_overwrites_address :
  match run demo_subnet
          [ static "ns/a" "a" [10; 16; 0; 5] true;
            fun s => '(s', _, _) ← get_random by_key V4 "" "ns/a" "a" None [] true s [demo_draw]; Done s' ] with
  | Done s => fNicToIP (sV4 s) !! "a" = Some [10; 16; 0; 2] /\
              IPRangeList_Contains (fUsing (sV4 s)) [10; 16; 0; 5] = true
  | _ => False
  end.
Proof. vm_compute. split; reflexivity. Qed.

(** ** Texts of addresses *)

(** A static IPv4 address written as an IPv4-mapped one is stored with sixteen
    bytes; once the range grows, the number of used addresses is negative. *)
Example mapped_address_breaks_count :
  match run demo_subnet
          [ static "ns/b" "b" (ParseIP "::ffff:10.16.0.3") true; static "ns/a" "a" [10; 16; 0; 4] true ] with
  | Done s => IPRangeList_Count (fUsing (sV4 s)) = -281470681743358
  | _ => False
  end.
Proof. vm_compute. reflexivity. Qed.

(** ** Queries *)

(** [GetSubnetV4Mask] dereferences the missing IPv4 network of an IPv6 subnet. *)
Example v4_mask_panics :
  match AddOrUpdateSubnet in_order "v6" "fd00:20::/112" "fd00:20::1" [] NewIPAM with
  | Done (ipam, _) => GetSubnetV4Mask "v6" ipam = Panic
  | _ => False
  end.
Proof. vm_compute. reflexivity. Qed.

(** A MAC a nic gives up for another one stays taken: nobody can get it. *)
Example replaced_mac_stays_taken :
  let '(s1, _) := GetStaticMac demo_subnet "ns/a" "a" "00:00:00:00:00:0a" true in
  let '(s2, _) := GetStaticMac s1 "ns/a" "a" "00:00:00:00:00:0b" true in
  match ReleaseAddressWithNicName by_key "ns/a" "a" s2 with
  | Done s3 => sNicToMac s3 !! "a" = None /\
               GetStaticMac s3 "ns/b" "b" "00:00:00:00:00:0a" true = (s3, Some ErrConflict)
  | _ => False
  end.
Proof. vm_compute. split; reflexivity. Qed.

(** ** Recovery of BFD sessions *)

(** With four pauses, a session whose third repair failed gets no action ever
    again: the supervisor chooses [RecoveryNone] whatever it observes, so the
    count of attempts never reaches the number of pauses. *)
Example four_pauses_give_up exists_ allUnhealthy :
  selectRecoveryAction
    (mkConfig (mkDaemon 1000 1000 3 []) [] Minute Minute [Minute; Minute; Minute; Minute] [] Hour "") 3 exists_ allUnhealthy
  = RecoveryNone.
Proof. reflexivity. Qed.

(** ** Service CIDRs *)

(** Sending the objects once more, as the controller does after the sync of
    its cache, neither changes the store nor schedules a round of handlers. *)
Example resync_does_not_fire :
  let s := fst (UpsertFromAPI "kubernetes" ["10.97.0.0/16"] (NewServiceCIDRStore "10.96.0.0/12")) in
  UpsertFromAPI "kubernetes" ["10.97.0.0/16"] s = (s, false).
Proof. vm_compute. reflexivity. Qed.

(** ** Addresses of pods *)

(** A pod with a static address in a namespace without annotations: there is no
    net to try, and the call succeeds without any address. *)
Example static_address_lost :
  let c := mkCluster {["ovn-default" := net_Subnet demo_net]} {["default" := None]} ∅ ∅ [] "ovn-cluster" false (fun _ _ => None) in
  let pod := mkPod "default" "db" {["ovn.kubernetes.io/ip_address" := "10.16.0.5"]} [] in
  answered (acquireAddress in_order c 40 pod demo_net demo_table []) = Some (net_Subnet demo_net, Ok ("", "", "")).
Proof. vm_compute. reflexivity. Qed.

(** A pool that has 2^64 addresses left counts as exhausted. *)
Example full_pool_exhausted :
  ippoolHasAvailableIPFamily (mkPoolObject "ovn-default" 0 (2 ^ 64)) ProtocolIPv6 "" = false.
Proof. vm_compute. reflexivity. Qed.

(** Without a CIDR annotation the check of a pool stops after the first address:
    what follows is not looked at. *)
Example pool_tail_unchecked :
  ValidatePodNetwork map_to_list {["ovn.kubernetes.io/ip_pool" := "10.16.0.5,bogus"]} = [].
Proof. vm_compute. reflexivity. Qed.

(** An address with a prefix length is admitted, but the allocator is never
    asked for it. *)
Example prefixed_address_admitted :
  ValidatePodNetwork map_to_list {["ovn.kubernetes.io/ip_address" := "10.16.0.5/29"]} = [] /\
  acquireStaticAddress in_order "default/db" "db.default" "10.16.0.5/29" None "ovn-default" false "" demo_table [] =
    Done (demo_table, [], Err (Errorf "failed to parse IP %s" ["10.16.0.5/29"])).
Proof. split; [vm_compute; reflexivity|reflexivity]. Qed.

(** The ACLs of a switch are built before the old ones are deleted, and those that
    exist are not built again: a second update with the same list deletes them. *)
Example second_update_deletes :
  let update db := match UpdateLogicalSwitchACL "ovn-default" "10.16.0.0/16" [demo_listed] true db with Done (_, db') => db' | _ => db end in
  let count db := length (ListAcls "" {["subnet" := "ovn-default"]} db) in
  count (update demo_switch) = 3%nat /\ count (update (update demo_switch)) = 0%nat.
Proof. vm_compute. split; reflexivity. Qed.

(** Two security groups with the same port group and address sets. *)
Example groups_share_names :
  GetSgPortGroupName "shop-web" = GetSgPortGroupName "shop.web" /\ GetSgV4AssociatedName "shop-web" = GetSgV4AssociatedName "shop.web".
Proof. vm_compute. split; reflexivity. Qed.

(** The check takes two networks as a remote address, and an IPv6 address in a
    rule of IPv4; neither gives a match of OVN. *)
Example bad_remotes_accepted :
  let rule a := mkSgRule "ipv4" "all" 1 SgRemoteTypeAddress a "" "" 0 0 0 0 ACLActionAllow in
  let check a := validateSgRule (fun _ => false) (mkSg "web" [rule a] [] false 0) in
  check "10.0.0.0/8,fd00::/8" = None /\ check "fd00::1" = None /\
  ACLMatch_String (sg_match "web" ACLDirectionToLport (rule "10.0.0.0/8,fd00::/8")) = "outport == @ovn.sg.web && ip4 && ip4.src == 10.0.0.0/8,fd00::/8" /\
  ACLMatch_String (sg_match "web" ACLDirectionToLport (rule "fd00::1")) = "outport == @ovn.sg.web && ip4 && ip4.src == fd00::1".
Proof. vm_compute. repeat split; reflexivity. Qed.

(** A group whose tier changed needs no update: the ACLs keep the old tier. *)
Example tier_change_unnoticed :
  let sg tier := mkSg "web" [demo_rule] [] true tier in
  let st := mkSgStatus "ovn.sg.web" true "h1" "h0" true true in
  need_update demo_md5 false (sg 0) st = (false, false, "h1", "h0") /\ need_update demo_md5 false (sg 1) st = (false, false, "h1", "h0").
Proof. vm_compute. split; reflexivity. Qed.

(** Without a gateway the options of a switch have no router when they are
    created, and an empty one after an update. *)
Example empty_router_differs :
  let update db := match updateDHCPv4Options [0; 0; 94; 0; 83; 1] "ovn-default" "" "10.16.0.0/16" "" "" 1400 db with Done (_, db') => db' | _ => db end in
  let router db := (fun kv : N * DHCPOptions => do_Options kv.2 !! "router") <$> ListDHCPOptions true ∅ db in
  router (update demo_switch) = [None] /\ router (update (update demo_switch)) = [Some ""].
Proof. vm_compute. split; reflexivity. Qed.

(** The default security group is looked for as a part of the list. *)
Example default_group_by_substring :
  let mark sgs := lsp_ExternalIDs (buildLogicalSwitchPort "p" "s" "10.16.0.2" "m" "" "" false sgs "" false None "vpc1") !! (associatedSgKeyPrefix +:+ DefaultSecurityGroupName) in
  mark "web" = Some "false" /\ mark "my-default-securitygroup" = None.
Proof. vm_compute. split; reflexivity. Qed.

(** A pod that a policy selects becomes a peer of it by a change of its labels:
    the policy matches before and after, so it is not queued, although its port
    group has to lose the port. *)
Example relabelled_pod_not_queued :
  let old := np_pod "shop" "web" "web" "10.16.0.4" [] in
  let new := np_pod "shop" "web" "front" "10.16.0.4" [] in
  let caches po := mkNpCluster (npc_net np_cluster) [po] (npc_namespaces np_cluster) [np_policy] NewNamedPort "standard" in
  let ports po := fetchSelectedPorts one_label (caches po) "shop" ("app", "web") None in
  enqueueUpdatePod_np one_label (caches new) true false old new (NewNamedPort, []) = Done (NewNamedPort, []) /\
  ports old = Done (Ok (["web.shop"], ["ovn-default"])) /\ ports new = Done (Ok ([], [])).
Proof. vm_compute. repeat split; reflexivity. Qed.

(** The same for a namespace that one rule selects before and another one after. *)
Example relabelled_namespace_not_queued :
  let peer v := mkPeer None (Some ("team", v)) None in
  let rule v n := mkPolicyRule [mkPolicyPort (Some "TCP") (Some (IntVal n)) None] [peer v] in
  let np := mkNp "shop" "web-in" ∅ (mkNpSpec ("app", "web") ["Ingress"] (Some [rule "a" 80; rule "b" 22]) None) in
  let ns v : string * gmap string string := ("office", {["team" := v]}) in
  let caches v := mkNpCluster (npc_net np_cluster) [np_pod "office" "pc" "pc" "10.16.0.9" []] [ns v] [np] NewNamedPort "standard" in
  let addresses v := fetchPolicySelectedAddresses one_label (caches v) "shop" ProtocolIPv4 (peer "a") None in
  enqueueUpdateNamespace_np one_label (caches "b") true false (ns "a") (ns "b") [] = Done [] /\
  addresses "a" = Done (Ok (["10.16.0.9"], [])) /\ addresses "b" = Done (Ok ([], [])).
Proof. vm_compute. repeat split; reflexivity. Qed.

(** Of two pods with different numbers for a name the second is ignored, and when
    the first goes away the name has no number although the second still has it. *)
Example second_number_ignored :
  let pod name n := np_pod "shop" name "web" "" [mkContainerPort "http" n] in
  let both := AddNamedPortByPod (pod "new" 9090) (AddNamedPortByPod (pod "old" 8080) NewNamedPort) in
  GetNamedPortByNs "shop" both !! "http" = Some 8080 /\ GetNamedPortByNs "shop" (DeleteNamedPortByPod (pod "old" 8080) both) !! "http" = None.
Proof. vm_compute. split; reflexivity. Qed.

(** Of two routes of a VPC to one prefix, which the key of the reconciliation
    tells apart by the next hop, only one is installed without BFD sessions: adding
    the second removes the first, and the next reconciliation swaps them. *)
Example ecmp_routes_of_vpc_flap :
  let route hop := mkVr PolicyDst "10.5.0.0/16" hop "" "" "" in
  let reconcile db := match reconcile_static_routes "vpc" [route "10.0.0.1"; route "10.0.0.2"] db with Done (_, db') => db' | _ => db end in
  let hops db := match ListLogicalRouterStaticRoutes "vpc" None None "10.5.0.0/16" ∅ db with Ok l => (fun kv => rt_Nexthop kv.2) <$> l | Err _ => [] end in
  hops (reconcile demo_router) = ["10.0.0.2"] /\ hops (reconcile (reconcile demo_router)) = ["10.0.0.1"].
Proof. vm_compute. split; reflexivity. Qed.

(** Deleting two routes to one prefix in a batch deletes the last one only: the
    batch is a map from table, policy and prefix to one next hop. *)
Example batch_deletes_last_hop :
  let set db := match AddLogicalRouterStaticRoute "vpc" "" "dst-ip" "10.5.0.0/16" None ∅ ["10.0.0.1"; "10.0.0.2"] db with Done (_, db') => db' | _ => db end in
  let route hop := Some (mkRoute None ∅ "10.5.0.0/16" hop ∅ (Some "dst-ip") "") in
  let delete db := match BatchDeleteLogicalRouterStaticRoute "vpc" [route "10.0.0.1"; route "10.0.0.2"] db with Done (_, db') => db' | _ => db end in
  let hops db := match ListLogicalRouterStaticRoutes "vpc" None None "10.5.0.0/16" ∅ db with Ok l => (fun kv => rt_Nexthop kv.2) <$> l | Err _ => [] end in
  hops (set demo_router) = ["10.0.0.1"; "10.0.0.2"] /\ hops (delete (set demo_router)) = ["10.0.0.1"].
Proof. vm_compute. split; reflexivity. Qed.

(** A new pod that a policy neither selects nor has as a peer queues nothing, but
    it can give a number to a port the policy names: the next run of the handler,
    whatever causes it, adds an ACL. *)
Example new_named_port_not_queued :
  let po := np_pod "shop" "db" "db" "10.16.0.6" [mkContainerPort "http" 9090] in
  let caches n := mkNpCluster (npc_net np_cluster) [np_pod "shop" "web" "web" "10.16.0.4" []; np_pod "shop" "front" "front" "10.16.0.5" []; po]
                    (npc_namespaces np_cluster) [np_policy] n "standard" in
  let after := AddNamedPortByPod po NewNamedPort in
  let acls n := match handleUpdateNp one_label (caches n) elements elements "shop/web-in" np_db with
                | Done (Ok _, db) => length (acls_at portGroupKey "web.in.shop" db)
                | _ => 0%nat
                end in
  enqueueAddPod_np one_label (caches NewNamedPort) true "10.16.0.6" po (NewNamedPort, []) = Done (after, []) /\ acls after = S (acls NewNamedPort).
Proof. vm_compute. split; reflexivity. Qed.
